(* ===== verification/_CoqProject ===== *)
-Q . S2P
Prelude.v
BTree.v
Slice.v
Memory.v
MemorySpec.v
Store.v
StoreDeclare.v
StoreRefine.v
StoreProps.v
Ring.v
Backoff.v
Bytes.v
IntText.v
Format.v
Codec.v
CodecSpec.v
CodecProps.v
Key.v
Channel.v
Server.v
ServerSpec.v
ServerProps.v
ServerRun.v
ServerRunProps.v
Client.v
ClientProps.v
Monitor.v
MonitorProps.v
OcppMessage.v
OcppConn.v
OcppConnProps.v
SimScheduler.v
SimProps.v
Text.v
DeviceConfig.v
Registers.v
ReadPlan.v
ReadPlanProps.v
RegEvents.v
LuaBridge.v
LuaBridgeProps.v
ModbusModule.v
ModbusModuleProps.v
Instance.v
InstanceProps.v
RegisterView.v
RegisterViewProps.v
ModbusBridge.v
ModbusBridgeProps.v
Path.v
TlsMaterial.v
TlsMaterialProps.v
OcppHandshake.v
OcppClient.v
OcppClientProps.v
Csms.v
CsmsProps.v
Calendar.v
OcppActions.v
OcppWire.v
Station.v
StationProps.v
Station2.v
Station2Props.v
CsmsModule.v
CsmsModuleProps.v
WordWrap.v
WordDiff.v
Keys.v
DiffParse.v
DiffParseProps.v
DiffFullProps.v
DiffView.v
DiffViewProps.v
JsonFormat.v
JsonFormatProps.v
Syntax.v
SyntaxProps.v
CodeEdit.v
CodeEditProps.v
