(* ===== verification/Prelude.v ===== *)
(** * Ferrowl: a verification library

    Ferrowl simulates and observes industrial devices. Its Modbus half is a
    register store ([src/ferrowl-store]), a codec between register words and
    typed values ([src/ferrowl-codec]), and on both the servers, clients and bus
    monitors of [src/ferrowl-modbus], driven by the reconnect loop of
    [src/ferrowl-util/src/backoff.rs]. Its OCPP half connects charging stations
    and their management systems over websockets ([src/ferrowl-ocpp]). The
    application on top ([src/ferrowl]) builds modules from device
    configurations, plans what a client polls, runs Lua scripts on register
    events and shows a table of registers. This library models the core of all
    three in Rocq and proves what makes it correct.

    ** How the parts interact

    A server task binds a transport ([ServerRun.v]), hands each request to the
    handlers ([Server.v]), and these read and write the shared store
    ([Memory.v]) under a device key ([Key.v]). A client task connects, polls its
    operations into the same store and forwards commands ([Client.v]). A monitor
    task matches the frames of a bus into records and an observed-value table
    ([Monitor.v]). All three run under [run_with_backoff] ([Backoff.v]) and end
    by a command of their channel ([Channel.v]). An OCPP connection
    ([OcppConn.v]) correlates the calls it sends with the replies it reads and
    spawns a handler per call it receives, over the message codec
    ([OcppMessage.v]). A charging station dials the management system
    ([OcppHandshake.v], with the TLS policies and material of [TlsMaterial.v])
    and runs its connection under the reconnect loop ([OcppClient.v]); the management system accepts stations, keeps them in a
    registry and routes commands to them ([Csms.v]). Both speak the typed
    actions of a version ([OcppActions.v]).

    On these the application simulates either end. A simulated station
    ([Station.v] for OCPP 1.6, [Station2.v] for 2.0.1 and 2.1) answers calls from
    its state, sends calls of its own and transmits heartbeats and readings; a
    simulated management system ([CsmsModule.v], for 1.6) answers calls, judges
    cards and shows what it observes of each connector. Both log messages ([OcppWire.v]) with the time of
    [Calendar.v].

    A module of the application ([ModbusModule.v]) is built from a device
    configuration ([DeviceConfig.v], [Registers.v]): it declares the cells of
    its registers, plans the read requests a client polls ([ReadPlan.v]) and
    owns the shared store. Its write tap turns every store write into register
    events ([RegEvents.v]) on a stream that feeds the queues of its scripts
    ([SimScheduler.v]); a scheduler thread runs the scripts,
    which read and write registers through a bridge ([LuaBridge.v]) and the
    codec ([Codec.v]). The register table ([RegisterView.v]) edits the
    module and its configuration together and sets values. The module's network
    task is started, stopped and watched by an instance ([Instance.v]), which
    claims its serial path.

    The terminal widgets ([src/ferrowl-ui]) are separate from all this. Two of
    them are modelled. The diff view reads a patch ([DiffParse.v]) into rows,
    moves a cursor and a window over them ([DiffView.v]) and marks what two
    changed lines do not share ([WordDiff.v]). The code editor ([CodeEdit.v])
    edits scripts; it indents lines, and formats the text when it loses the
    focus, as [src/ferrowl-syntax] says, whose lexers, Lua re-indenter
    ([Syntax.v]) and JSON formatter ([JsonFormat.v]) are modelled too, and so is
    the wrapping of rendered text ([WordWrap.v]).

    ** The files

    - [Prelude.v] (this file): machine widths, [Outcome] for code that can
      panic, [Result], the handler monad [Eff], tactics ([zbool], [zcase],
      [inv_outcome]), shared lemmas and the hint database [ferrowl].
    - [BTree.v]: the ordered map [BTreeMap] as a sorted association list.
    - [Slice.v], [Memory.v]: [ferrowl-store/src/range.rs], [cell.rs],
      [slice.rs], [memory.rs], one definition per function. The
      write tap is a value handed back with the calls made to it, each with the
      store it sees.
    - [MemorySpec.v]: the walks over slices as operations on single cells.
      [Store.v]: the contract, a partial map from addresses to cells per device,
      with its operations and their [Proper] instances. [StoreDeclare.v],
      [StoreRefine.v]: the store implements the contract. [StoreProps.v]: what
      follows for its clients.
    - [Ring.v]: [ferrowl-ring/src/lib.rs], and its refinement of a bounded FIFO.
    - [Backoff.v]: [run_with_backoff] and [wait_backoff]; the schedule of waits,
      and the invariant and totality rules the three task loops use.
    - [Bytes.v], [IntText.v]: bytes, UTF-8 and the integer texts of the standard
      library. [Format.v], [Codec.v]: [ferrowl-codec]. [CodecSpec.v] proves the
      bit-level lemmas, [CodecProps.v] the round trips.
    - [Key.v]: [key.rs], [command.rs], [operation.rs] of [ferrowl-modbus], and
      the requests and responses its sources match on. [KeyParams] is a class;
      its documented promise is the class [KeyParamsLaws], which [SlaveKey]
      implements.
    - [Channel.v]: [error.rs], a command channel, the terminate race
      and the queue of parked commands ([common.rs]).
    - [Server.v]: the request handlers and service hooks of [server_core.rs];
      [ServerSpec.v]: what each request is answered from the abstract store;
      [ServerProps.v]: the handlers implement it. [ServerRun.v],
      [ServerRunProps.v]: the bind/serve loops of the TCP and serial families.
    - [Client.v], [ClientProps.v]: [client_core.rs].
    - [Monitor.v], [MonitorProps.v]: [monitor/core.rs], [record.rs], [table.rs].
    - [OcppMessage.v]: [ferrowl-ocpp/src/ocppj/], the envelopes over JSON values.
      [OcppConn.v], [OcppConnProps.v]: [conn.rs], [correlation.rs] and the call
      errors of [error.rs]; the trait [Version] is a class.
    - [SimScheduler.v]: [sim/events.rs], [sim/scheduler.rs] and
      [script_id.rs] of [ferrowl/src], with the calls of
      [ferrowl-lua/src/context.rs]; a run interleaves publishers, the thread and
      its stop. [SimProps.v]: their invariants.
    - [Text.v]: texts as byte strings. [DeviceConfig.v]:
      [module/modbus/config/device.rs], [value_types.rs], [config/script.rs].
      [Registers.v]: [registers.rs], the conversions between definitions and
      registers and their round trips.
    - [ReadPlan.v], [ReadPlanProps.v]: the planning of [build.rs].
    - [RegEvents.v]: [events.rs], with its theorems. [LuaBridge.v],
      [LuaBridgeProps.v]: [lua.rs], [lua/value_conv.rs].
    - [ModbusModule.v], [ModbusModuleProps.v]: [module.rs].
    - [Instance.v], [InstanceProps.v]: [instance/], [serial_paths.rs].
    - [RegisterView.v], [RegisterViewProps.v]: [table.rs], [view/mutate.rs] and
      the parts of [view/mod.rs] that fill the table and confirm dialogs.
    - [ModbusBridge.v], [ModbusBridgeProps.v]: [bridge/] of [ferrowl-modbus].
    - [Path.v]: [ferrowl-util/src/path.rs] over the path operations of the
      standard library, with its theorems.
    - [TlsMaterial.v], [TlsMaterialProps.v]: the policies of [tls.rs] of the same
      crate, and what the two network crates build from them ([security.rs],
      [tcp/tls.rs]); certificates, keys and the TLS library are a class.
    - [OcppHandshake.v]: credentials, extra headers, the upgrade request of
      [cs/mod.rs] and the handshake callback of [csms/mod.rs]; requests are a
      class.
    - [OcppClient.v], [OcppClientProps.v]: [cs/]. [Csms.v], [CsmsProps.v]:
      [csms/]; a run interleaves the accept loop and the stations' tasks.
    - [Calendar.v]: [rfc3339] of [module/ocpp/client/backend.rs]. [OcppActions.v]:
      [ferrowl-ocpp/src/action/], the methods a macro generates from the action
      table of a version, with the three tables; the structs of the messages are
      a class. [OcppWire.v]: [scope.rs], [wire_log.rs] and the message log of
      [module/ocpp/].
    - [Station.v], [StationProps.v]: [module/ocpp/client/] for 1.6: [v1_6/], the
      tasks of [backend.rs] and [view/backend.rs] that send calls, and the
      automatic transmission of [view/backend.rs].
    - [Station2.v], [Station2Props.v]: the same for 2.0.1 and 2.1: [v2_common.rs],
      [v2_0_1/], [v2_1/] and [handler.rs] of [module/ocpp/client/]. The two
      versions share their state; [Version2] chooses the action table.
    - [CsmsModule.v], [CsmsModuleProps.v]: [module/ocpp/server/] for 1.6:
      [v1_6/], the accept-lists of [backend.rs] and the entries of
      [view/backend.rs]; with the two ends of a charging session together.
    - [WordWrap.v]: [wrap_line] of [ferrowl-ui/src/widgets/markdown_render.rs].
      [WordDiff.v]: [word_diff_spans] of [ferrowl-ui/src/widgets/diff_view.rs].
      [DiffParse.v], [DiffParseProps.v], [DiffFullProps.v]: [parse],
      [hunk_header] and [parse_full_file] of [ferrowl-ui/src/state/diff_view.rs].
      [DiffView.v], [DiffViewProps.v]: the state, moves and keys of the same
      file.
      [Keys.v]: keys and what a widget answers to one.
    - [JsonFormat.v], [JsonFormatProps.v]: [ferrowl-syntax/src/format/json.rs]
      over code points, with the grammar of JSON as inductive predicates.
    - [Syntax.v], [SyntaxProps.v]: the lexers of [ferrowl-syntax/src/lang/],
      [format/lua.rs] and [indent.rs].
    - [CodeEdit.v], [CodeEditProps.v]: the modal editor of
      [ferrowl-ui/src/state/code_input_field.rs] with the motions of [vim.rs]. An
      [Editor] is the struct, its lines and cursor a [Buffer]; a run is a list of
      keys, focus changes, renders and texts set.

    ** What the theorems show

    Store: every sequence of operations answers as the per-address contract,
    without panics while no range is larger than memory; an unchecked write of a
    range declared in part stores the part before the first gap and is refused;
    writes are read back, disturb nothing else, name the reason
    when refused, and are reported once to the tap; declarations are all or
    nothing and only ever widen. Codec: encoding and decoding are inverse for
    integers with any bit field, for full-width words and for texts; a merged
    write touches only its field; decoding is total. Server: each request gets
    the answer of the specification, slaves are isolated, unknown slaves are
    silent on serial links, tasks end cleanly and retry what a retry can fix.
    Client: polling asks for every operation in turn, stores what was answered,
    never disconnects over a refusal, delivers commands in order, ends only by a
    command, a closed channel or a lost device, and reports its end. Monitor:
    every request is reported once, records and table agree, the slaves listed
    are those seen. Backoff: the exact schedule and its bounds. OCPP: decoding
    accepts the three envelopes and nothing else; every call is answered once,
    by the peer's reply or an error, in every interleaving of its tasks; the
    peer is answered only under ids it is owed a reply for; shutdown is final.
    Scripts: no wake-up is lost, wherever the thread goes to sleep between a
    publisher's steps, every event a queue has room for reaches its
    script in order, a waiting script is served, a stop ends the thread.
    Modules: every configuration whose registers fit a request and whose ranges
    parse and fit in memory builds without panic, starts with its defaults and shows scripts its registers; the
    read plan covers every readable register, cuts none and reads only declared
    cells; every store write publishes what it changed; what a script sets it
    gets back; a reload leaves no queue behind. Table: dialogs keep table,
    module, scripts' view and configuration in step; a set value is stored,
    merged with its neighbours' bits. Instances: a stop settles; while no two
    modules have the same name, a path that a task lives on is a conflict to every
    other module. Stations: a dial is
    accepted exactly when version and credentials agree; a self-signed pair is
    renewed when files were used in between; the paths of a policy survive
    saving; every caller of a station's or the server's task gets exactly one
    fate, in every interleaving; the registry holds exactly the stations
    that are up; a server's end reaches every station of the registry.
    Simulated station: every call is answered and changes only what it may; a
    transaction is only ever one the management system granted; a remote start
    runs its whole course; the configuration is a map; reservations last until
    cancelled; heartbeats and readings keep their cadence; fields read back;
    connectors stay sorted. Of 2.x: the same for its calls, and readings are sent
    only for a transaction whose start was acknowledged, a failed start being
    rolled back. Simulated management system: a card is accepted
    exactly as the lists say, transactions get distinct ids, entries, scripts'
    registry, order and selection stay consistent under any events, and starting,
    metering and stopping a session leave both ends with the same connector.
    Timestamps count days as the calendar does. Bridge: after any
    outage the link comes back by itself; the device sees the allowed requests
    that find a connection once each in order and the master gets what it
    answers. Diff view: every line is shown once with the number its header
    declares, runs of removals and additions pair by position, the full-file build adds only folds and shows the file
    itself when the patch fits it; a cursor that starts on an open row stays on
    open ones, moving keeps it in the window and reaches the neighbouring row. Wrapping
    keeps every word, in order, within the width. The words a changed line does
    not share are those outside a longest common subsequence. The JSON formatter
    accepts the grammar, no text besides, and moves nothing but space. The
    Lua re-indenter changes leading space only, to four spaces for each block
    that is open, and leaves its own output alone;
    a new line starts where the re-indenter would put it; spans are in order.
    Editor: an enabled one is in order after anything that happens to it and does
    not panic (but on a Lua line with 256 equals signs in a row); an undo takes
    back one change; a deleted selection is what the register gets.

    ** Conventions and bounds

    A machine integer is a [Z] within its width; where the code wraps, so does
    the model ([as_uint], [as_sint]); where it can panic the model answers
    [Panic], and the theorems say it does not. [usize] has 64 bits. Loops that
    wait for the outside world take the events of the world as a list: the
    schedule of a [select!], the rounds of a reconnect loop. When the list is
    used up the model answers that the loop is still running; the theorems hold
    for every list, so for every finite prefix of a run. Reserving memory for
    more than [isize::MAX] bytes panics ([vec_alloc]); a range is well formed
    ([Range_wf]) if as many eight-byte cells as its end says, 2^60 of them at
    most, can be reserved. That memory runs out below that is not modelled. [run_with_backoff]
    takes fuel, one unit per attempt; [backoff_schedule] says which fuel reaches
    which attempt. Log lines are constructors with the values they show.
    Planning reads takes fuel per request of a batch; 2^18 units suffice for
    registers no wider than a request, since addresses have 16 bits. The parser
    of JSON texts, the lexers and the walk over two lines' words take their
    lengths.

    The tasks of an OCPP connection interleave: a run is the list of the steps
    they take, in any order, and a caller is a waiter that keeps its first
    answer. So is a call a simulated station sends from a task: [task_run] up to
    the await, [task_answered] after it, with the other steps between them
    ([task_run2] and [task_answered2] for 2.x). A publisher of events holds the
    lock of the stream from its sequence number to the last queue; queueing an
    event and setting the flag of the queue's thread are two of its steps. A
    session's modules are kept by tab, with the names they were built with.

    Code outside the repository is a parameter: the protocol library's client
    and frame decoding, its error classification and default serial
    configuration, the address parser, the TLS builder, and floating-point
    arithmetic and text, the JSON texts of messages, the alphabetic and
    numeric characters of Unicode. Where a theorem needs a promise of it, the promise is
    a hypothesis of that theorem and its witness instantiates it.

    ** Not modelled

    Opening sockets and serial ports; of [ferrowl/src/module/ocpp] the
    management system's side of 2.0.1 and 2.1, the edits of the tables, the
    commands, and the start and stop of the two backends; the Lua
    interpreter; log files; reading and writing configuration files; drawing and
    the command line; the state and keys of the widgets other than the diff view
    and the code editor; Markdown; the setup dialogs and the monitor's view. *)

From stdpp Require Import base sorting list gmap fin_maps option numbers.

(** ** Machine widths

    [usize] is the 64-bit target's; [u8], [u16], [u32], [u128] values are
    integers of [Z] in the range of their width. *)

Local Open Scope Z_scope.

Definition usize_max : Z := 2 ^ 64 - 1.

(** A value of the unsigned type of width [w]. *)
Definition is_uint (w z : Z) : Prop := 0 <= z < 2 ^ w.

(** A value of the signed type of width [w]. *)
Definition is_sint (w z : Z) : Prop := - 2 ^ (w - 1) <= z < 2 ^ (w - 1).

(** [as uN]: keep the low [w] bits. *)
Definition as_uint (w z : Z) : Z := z mod 2 ^ w.

(** [as iN]: the low [w] bits read as two's complement. *)
Definition as_sint (w z : Z) : Z :=
  let u := z mod 2 ^ w in
  if u <? 2 ^ (w - 1) then u else u - 2 ^ w.

(** ** Panics

    Rust code that can panic (an [expect], an index out of range, an
    overflowing [checked_add] that is unwrapped) returns an [Outcome]. *)

Inductive Outcome (A : Type) : Type :=
| Ret (a : A)
| Panic.
Arguments Ret {A} a.
Arguments Panic {A}.

#[export] Instance outcome_ret : MRet Outcome := λ A, Ret.
#[export] Instance outcome_bind : MBind Outcome := λ A B f m,
  match m with Ret a => f a | Panic => Panic end.
#[export] Instance outcome_fmap : FMap Outcome := λ A B f m,
  match m with Ret a => Ret (f a) | Panic => Panic end.

(** [opt.expect(..)] and indexing. *)
Definition expect {A} (o : option A) : Outcome A :=
  match o with Some a => Ret a | None => Panic end.

(** The memory of a [Vec] of [len] elements of [size] bytes: more than
    [isize::MAX] bytes, which is half of [usize::MAX], overflow its capacity. *)
Definition vec_alloc (size len : Z) : Outcome unit :=
  if 2 * (size * len) <=? usize_max then Ret tt else Panic.

(** [v[i]] on a slice or [Vec]. *)
Definition index {A} (l : list A) (i : Z) : Outcome A :=
  if i <? 0 then Panic else expect (l !! Z.to_nat i).

(** [&v[lo..hi]] on a slice or [Vec]. *)
Definition index_range {A} (l : list A) (lo hi : Z) : Outcome (list A) :=
  if (0 <=? lo) && (lo <=? hi) && (hi <=? Z.of_nat (length l))
  then Ret (take (Z.to_nat (hi - lo)) (drop (Z.to_nat lo) l))
  else Panic.

(** ** Results *)

Inductive Result (A E : Type) : Type :=
| Ok (a : A)
| Err (e : E).
Arguments Ok {A E} a.
Arguments Err {A E} e.

(** ** Effects

    A handler that reads and updates a state of type [S] and may panic. *)

Definition Eff (S A : Type) : Type := S → Outcome (A * S).

#[export] Instance eff_ret {S} : MRet (Eff S) := λ A a s, Ret (a, s).
#[export] Instance eff_bind {S} : MBind (Eff S) := λ A B f m s,
  match m s with Ret (a, s') => f a s' | Panic => Panic end.

(** ** Automation *)

Create HintDb ferrowl.

(** Turn boolean comparisons on [Z] into propositions. *)
Ltac zbool :=
  repeat match goal with
  | H : andb _ _ = true |- _ => apply andb_prop in H; destruct H
  | H : orb _ _ = true |- _ => apply orb_true_iff in H
  | H : negb _ = true |- _ => apply negb_true_iff in H
  | H : negb _ = false |- _ => apply negb_false_iff in H
  | H : (_ <? _) = true |- _ => apply Z.ltb_lt in H
  | H : (_ <? _) = false |- _ => apply Z.ltb_ge in H
  | H : (_ <=? _) = true |- _ => apply Z.leb_le in H
  | H : (_ <=? _) = false |- _ => apply Z.leb_gt in H
  | H : (_ =? _) = true |- _ => apply Z.eqb_eq in H
  | H : (_ =? _) = false |- _ => apply Z.eqb_neq in H
  end.

(** Case on the boolean comparison that the goal or a hypothesis branches on. *)
Ltac zcase :=
  match goal with
  | |- context [if ?b then _ else _] => destruct b eqn:?; zbool
  | H : context [if ?b then _ else _] |- _ => destruct b eqn:?; zbool
  end.

(** Invert the equations between outcomes, results, pairs and options. *)
Ltac inv_outcome :=
  repeat match goal with
  | H : Ret _ = Ret _ |- _ => injection H; clear H; intros; subst
  | H : Panic = Ret _ |- _ => discriminate H
  | H : Ret _ = Panic |- _ => discriminate H
  | H : Ok _ = Ok _ |- _ => injection H; clear H; intros; subst
  | H : Err _ = Err _ |- _ => injection H; clear H; intros; subst
  | H : Ok _ = Err _ |- _ => discriminate H
  | H : Err _ = Ok _ |- _ => discriminate H
  | H : Some _ = Some _ |- _ => injection H; clear H; intros; subst
  | H : Some _ = None |- _ => discriminate H
  | H : None = Some _ |- _ => discriminate H
  | H : (_, _) = (_, _) |- _ => injection H; clear H; intros; subst
  end.

(** ** Shared lemmas *)

Lemma as_uint_range (w z : Z) : 0 <= w → is_uint w (as_uint w z).
Proof. intros Hw. apply Z.mod_pos_bound. lia. Qed.

Lemma as_uint_small (w z : Z) : is_uint w z → as_uint w z = z.
Proof. intros H. by apply Z.mod_small. Qed.

Lemma index_range_Ret {A} (l : list A) (lo hi : Z) :
  0 <= lo → lo <= hi → hi <= Z.of_nat (length l) →
  index_range l lo hi = Ret (take (Z.to_nat (hi - lo)) (drop (Z.to_nat lo) l)).
Proof.
  intros H1 H2 H3. unfold index_range.
  rewrite (proj2 (Z.leb_le _ _) H1), (proj2 (Z.leb_le _ _) H2),
    (proj2 (Z.leb_le _ _) H3). done.
Qed.

Lemma index_Ret {A} (l : list A) (i : Z) (x : A) :
  0 <= i → l !! Z.to_nat i = Some x → index l i = Ret x.
Proof.
  intros Hi Hl. unfold index. destruct (i <? 0) eqn:E; zbool; [lia|].
  by rewrite Hl.
Qed.

#[export] Hint Resolve as_uint_range as_uint_small : ferrowl.
