(* ===== verification/BTree.v ===== *)
(** * Ordered maps

    The [BTreeMap] of the Rust standard library as an association list kept
    in ascending key order: the order in which [iter], [keys] and [iter_mut]
    visit the entries is the order of the list. The order on keys is a class,
    so the register store (keys: address ranges) and the monitor's observed
    table (keys: addresses) share the structure and its lemmas. *)

From stdpp Require Import base sorting list numbers.
From S2P Require Import Prelude.

(** A decidable strict total order. *)
Class KeyOrder (K : Type) := {
  key_lt : relation K;
  key_eq_dec :: EqDecision K;
  key_lt_dec :: RelDecision key_lt;
  key_lt_strict :: StrictOrder key_lt;
  key_lt_total : ∀ a b, key_lt a b ∨ a = b ∨ key_lt b a
}.

#[export] Instance Z_key_order : KeyOrder Z.
Proof. refine {| key_lt := Z.lt |}. intros a b. lia. Defined.

Lemma key_lt_irrefl `{KeyOrder K} (k : K) : ¬ key_lt k k.
Proof. apply StrictOrder_Irreflexive. Qed.

Section btree.
Context {K V : Type} `{KeyOrder K}.

(** [BTreeMap::get]. *)
Fixpoint bt_get (k : K) (m : list (K * V)) : option V :=
  match m with
  | [] => None
  | (k', v) :: m' => if decide (k = k') then Some v else bt_get k m'
  end.

(** [BTreeMap::insert]: an existing key keeps its place and takes the value. *)
Fixpoint bt_insert (k : K) (v : V) (m : list (K * V)) : list (K * V) :=
  match m with
  | [] => [(k, v)]
  | (k', v') :: m' =>
      if decide (key_lt k k') then (k, v) :: (k', v') :: m'
      else if decide (k = k') then (k', v) :: m'
      else (k', v') :: bt_insert k v m'
  end.

(** [BTreeMap::remove]: the removed value, if any, and the map without it. *)
Fixpoint bt_remove (k : K) (m : list (K * V)) : option (V * list (K * V)) :=
  match m with
  | [] => None
  | (k', v') :: m' =>
      if decide (k = k') then Some (v', m')
      else
        match bt_remove k m' with
        | Some (v, m'') => Some (v, (k', v') :: m'')
        | None => None
        end
  end.

(** [BTreeMap::keys]. *)
Definition bt_keys (m : list (K * V)) : list K := m.*1.

(** The structural invariant: strictly ascending keys. *)
Definition bt_sorted (m : list (K * V)) : Prop := StronglySorted key_lt (bt_keys m).

Lemma bt_sorted_cons (k : K) (v : V) (m : list (K * V)) :
  bt_sorted ((k, v) :: m) ↔ (∀ k' v', (k', v') ∈ m → key_lt k k') ∧ bt_sorted m.
Proof.
  unfold bt_sorted, bt_keys; simpl. split.
  - intros Hs. apply StronglySorted_inv in Hs as [Hs Hall]. split; [|done].
    intros k' v' Hin. rewrite list.Forall_forall in Hall. apply Hall.
    apply list_elem_of_fmap. by exists (k', v').
  - intros [Hall Hs]. constructor; [done|]. apply list.Forall_forall.
    intros k' Hin. apply list_elem_of_fmap in Hin as ([k'' v''] & -> & Hin).
    by eapply Hall.
Qed.

Lemma bt_sorted_nil : bt_sorted [].
Proof. constructor. Qed.

Lemma bt_get_elem (k : K) (v : V) (m : list (K * V)) :
  bt_sorted m → bt_get k m = Some v ↔ (k, v) ∈ m.
Proof.
  induction m as [|[k' v'] m IH]; intros Hs; simpl.
  - split; [done|]. by intros ?%not_elem_of_nil.
  - apply bt_sorted_cons in Hs as [Hlt Hs]. rewrite elem_of_cons.
    destruct (decide (k = k')) as [->|Hne]; split.
    + intros [= ->]. by left.
    + intros [[= ->]|Hin]; [done|]. apply Hlt in Hin. by apply key_lt_irrefl in Hin.
    + intros Hg. right. by apply IH.
    + intros [[= -> ->]|Hin]; [done|]. by apply IH.
Qed.

Lemma bt_insert_elem (k k' : K) (v v' : V) (m : list (K * V)) :
  bt_sorted m →
  (k', v') ∈ bt_insert k v m ↔ (k', v') = (k, v) ∨ ((k', v') ∈ m ∧ k' ≠ k).
Proof.
  induction m as [|[k0 v0] m IH]; intros Hs; simpl.
  - rewrite list_elem_of_singleton. split; [auto|].
    intros [?|[Hin _]]; [done|by apply not_elem_of_nil in Hin].
  - apply bt_sorted_cons in Hs as [Hlt Hs]. specialize (IH Hs).
    case_decide as Hk; [|case_decide as Heq; [subst k0|]];
      rewrite ?elem_of_cons; rewrite ?IH.
    + assert (∀ v1, (k, v1) ∉ (k0, v0) :: m) as Hnot.
      { intros v1 [[= -> ->]|Hin]%elem_of_cons; [by apply key_lt_irrefl in Hk|].
        apply Hlt in Hin. apply (key_lt_irrefl k). by etrans. }
      split.
      * intros [?|Hin]; [by left|right]. split; [done|].
        intros ->. apply (Hnot v'). by apply elem_of_cons.
      * intros [?|[Hin _]]; auto.
    + split.
      * intros [?|Hin]; [by left|right]. split; [by right|].
        intros ->. apply Hlt in Hin. by apply key_lt_irrefl in Hin.
      * intros [?|[[[= -> ->]|Hin] Hne]]; [by left|done|by right].
    + split.
      * intros [[= -> ->]|[?|[Hin Hne]]]; auto.
      * intros [?|[[?|Hin] Hne]]; auto.
Qed.

Lemma bt_insert_sorted (k : K) (v : V) (m : list (K * V)) :
  bt_sorted m → bt_sorted (bt_insert k v m).
Proof.
  induction m as [|[k0 v0] m IH]; intros Hs; simpl.
  - apply bt_sorted_cons. split; [|apply bt_sorted_nil].
    by intros ?? ?%not_elem_of_nil.
  - apply bt_sorted_cons in Hs as [Hlt Hs].
    case_decide as Hk; [|case_decide as Heq; [subst k0|]].
    + apply bt_sorted_cons. split; [|by apply bt_sorted_cons].
      intros k' v' [[= -> ->]|Hin]%elem_of_cons; [done|].
      etrans; [done|by eapply Hlt].
    + by apply bt_sorted_cons.
    + apply bt_sorted_cons. split; [|by apply IH].
      intros k' v' [[= -> ->]|[Hin _]]%bt_insert_elem; [|by eapply Hlt|done].
      destruct (key_lt_total k0 k) as [?|[?|?]]; [done|by subst|done].
Qed.

Lemma bt_remove_spec (k : K) (m : list (K * V)) (v : V) (m' : list (K * V)) :
  bt_sorted m → bt_remove k m = Some (v, m') →
  bt_sorted m' ∧ (k, v) ∈ m ∧
  ∀ k1 v1, (k1, v1) ∈ m' ↔ (k1, v1) ∈ m ∧ k1 ≠ k.
Proof.
  revert m'. induction m as [|[k0 v0] m IH]; intros m' Hs; simpl; [done|].
  apply bt_sorted_cons in Hs as [Hlt Hs]. case_decide as Hk; [subst k0|].
  - intros [= -> ->]. split_and!; [done|by apply elem_of_cons; left|].
    intros k1 v1. rewrite elem_of_cons. split.
    + intros Hin. split; [by right|]. intros ->. apply Hlt in Hin.
      by apply key_lt_irrefl in Hin.
    + intros [[[= -> ->]|Hin] Hne]; done.
  - destruct (bt_remove k m) as [[v2 m2]|] eqn:E; [|done]. intros [= <- <-].
    destruct (IH m2 Hs eq_refl) as (Hs2 & Hin2 & Hel). split_and!.
    + apply bt_sorted_cons. split; [|done]. intros k' v' Hin.
      apply Hel in Hin as [Hin _]. by eapply Hlt.
    + apply elem_of_cons. by right.
    + intros k1 v1. rewrite !elem_of_cons, Hel. split.
      * intros [[= -> ->]|[Hin Hne]]; [|by auto]. split; [by left|done].
      * intros [[?|Hin] Hne]; auto.
Qed.

Lemma bt_remove_Some (k : K) (v : V) (m : list (K * V)) :
  (k, v) ∈ m → ∃ v' m', bt_remove k m = Some (v', m').
Proof.
  induction m as [|[k0 v0] m IH]; simpl; [by intros ?%not_elem_of_nil|].
  intros Hin. case_decide as Hk; [by eauto|].
  apply elem_of_cons in Hin as [[= -> ->]|Hin]; [done|].
  destruct (IH Hin) as (v' & m' & ->). by eauto.
Qed.

Lemma bt_get_insert (k k' : K) (v : V) (m : list (K * V)) :
  bt_sorted m →
  bt_get k' (bt_insert k v m) = if decide (k' = k) then Some v else bt_get k' m.
Proof.
  intros Hs. induction m as [|[k0 v0] m IH]; simpl.
  - by repeat case_decide.
  - apply bt_sorted_cons in Hs as [Hlt Hs]. specialize (IH Hs).
    destruct (decide (key_lt k k0)); simpl; [by repeat case_decide|].
    destruct (decide (k = k0)); simpl; [subst; by repeat case_decide|].
    destruct (decide (k' = k0)); [subst; case_decide; congruence|done].
Qed.

Lemma bt_elem_key (k : K) (v : V) (m : list (K * V)) :
  (k, v) ∈ m → k ∈ bt_keys m.
Proof. intros Hin. apply list_elem_of_fmap. by exists (k, v). Qed.

Lemma bt_key_elem (k : K) (m : list (K * V)) :
  k ∈ bt_keys m → ∃ v, (k, v) ∈ m.
Proof. intros Hin. apply list_elem_of_fmap in Hin as ([k' v] & -> & Hin). by exists v. Qed.

Lemma bt_elem_unique (k : K) (v v' : V) (m : list (K * V)) :
  bt_sorted m → (k, v) ∈ m → (k, v') ∈ m → v = v'.
Proof.
  intros Hs H1 H2. apply (bt_get_elem _ _ _ Hs) in H1, H2. congruence.
Qed.
End btree.

#[export] Hint Resolve bt_sorted_nil bt_insert_sorted : ferrowl.
