(* ===== verification/Slice.v ===== *)
(** * Ranges, cells and slices

    Models [ferrowl-store/src/range.rs]: the half-open range [[start, end)]
    over [usize] addresses, its constructors, its order and [intersect];
    [cell.rs]: a 16-bit value with the register type and the access direction
    that guard it; and [slice.rs]: a contiguous run of cells covering an address
    range, grown at either end, read and written by sub-range. *)

From stdpp Require Import base sorting list numbers.
From S2P Require Import Prelude BTree.

Local Open Scope Z_scope.

(** ** Address ranges *)

Record Range := mkRange { r_start : Z; r_end : Z }.

(** [Range]'s derived equality. *)
#[export] Instance Range_eq_dec : EqDecision Range.
Proof. solve_decision. Defined.

(** A range of addresses cells can be kept for: a start that is not after the
    end, and an end that a [Vec] of cells, of 4 bytes each and
    [isize::MAX] bytes at most, can reach. *)
Definition Range_wf (r : Range) : Prop :=
  0 <= r_start r <= r_end r ∧ 8 * r_end r <= usize_max.

(** What every constructor of a [Range] establishes. *)
Definition Range_valid (r : Range) : Prop :=
  0 <= r_start r <= r_end r ∧ r_end r <= usize_max.

Lemma Range_wf_valid (r : Range) : Range_wf r → Range_valid r.
Proof. unfold Range_wf, Range_valid. lia. Qed.

(** [start + size] without the overflow check. *)
Definition Range_span (start size : Z) : Range := mkRange start (start + size).

(** [Range::new]: the [checked_add] panics on overflow. *)
Definition Range_new (start size : Z) : Outcome Range :=
  if start + size <=? usize_max then Ret (Range_span start size) else Panic.

Inductive RangeDeError := EndBeforeStart (end_ start : Z).

(** [Range::deserialize], after serde read the two fields. *)
Definition Range_deserialize (start end_ : Z) : Result Range RangeDeError :=
  if end_ <? start then Err (EndBeforeStart end_ start)
  else Ok (mkRange start end_).

(** [Range::length]. *)
Definition Range_length (r : Range) : Z := r_end r - r_start r.

(** [Range::intersect]. The [Range::new] it ends with recombines
    [start + (end - start)], which is one of the two ends. *)
Definition Range_intersect (self range : Range) : option Range :=
  let start := Z.max (r_start self) (r_start range) in
  let end_ := Z.min (r_end self) (r_end range) in
  if start >=? end_ then None else Some (Range_span start (end_ - start)).

(** The derived [Ord]: [start] first, then [end]. *)
Definition Range_lt (a b : Range) : Prop :=
  r_start a < r_start b ∨ (r_start a = r_start b ∧ r_end a < r_end b).

#[export] Instance Range_lt_dec : RelDecision Range_lt.
Proof. intros a b. unfold Range_lt. tc_solve. Defined.

#[export] Instance Range_key_order : KeyOrder Range.
Proof.
  refine {| key_lt := Range_lt |}.
  - split.
    + intros a. unfold complement, Range_lt. lia.
    + intros a b c. unfold Range_lt. lia.
  - intros [a1 a2] [b1 b2]. unfold Range_lt; simpl.
    destruct (decide (a1 = b1)) as [->|]; [|lia].
    destruct (decide (a2 = b2)) as [->|]; [auto|lia].
Defined.

(** ** The address set of a range *)

Definition in_range (a : Z) (r : Range) : Prop := r_start r <= a < r_end r.

#[export] Instance in_range_dec (a : Z) (r : Range) : Decision (in_range a r).
Proof. unfold in_range. tc_solve. Defined.

(** Two ranges share no address. *)
Definition disjoint_ranges (a b : Range) : Prop := ∀ x, ¬ (in_range x a ∧ in_range x b).

Lemma Range_new_Ret (start size : Z) :
  start + size <= usize_max → Range_new start size = Ret (Range_span start size).
Proof. intros H. unfold Range_new. by rewrite (proj2 (Z.leb_le _ _) H). Qed.

Lemma Range_new_wf (start size : Z) (r : Range) :
  0 <= start → 0 <= size → 8 * (start + size) <= usize_max → Range_new start size = Ret r → Range_wf r.
Proof.
  intros H1 H2 H3. rewrite Range_new_Ret by lia. intros [= <-].
  unfold Range_wf, Range_span; simpl. lia.
Qed.

Lemma Range_new_valid (start size : Z) (r : Range) :
  0 <= start → 0 <= size → Range_new start size = Ret r → Range_valid r.
Proof.
  intros H1 H2. unfold Range_new. zcase; [|done]. intros [= <-].
  unfold Range_valid, Range_span; simpl. lia.
Qed.

Lemma Range_intersect_Some (a b c : Range) :
  Range_intersect a b = Some c →
  r_start c = Z.max (r_start a) (r_start b) ∧
  r_end c = Z.min (r_end a) (r_end b) ∧ r_start c < r_end c.
Proof.
  unfold Range_intersect. rewrite Z.geb_leb. zcase; [done|].
  intros [= <-]. simpl. lia.
Qed.

Lemma Range_intersect_None (a b : Range) :
  Range_intersect a b = None ↔ disjoint_ranges a b.
Proof.
  unfold Range_intersect, disjoint_ranges, in_range. rewrite Z.geb_leb.
  zcase; split; try done; intros.
  - lia.
  - exfalso. apply (H (Z.max (r_start a) (r_start b))). lia.
Qed.

Lemma Range_intersect_is_Some (a b : Range) :
  is_Some (Range_intersect a b) ↔ ∃ x, in_range x a ∧ in_range x b.
Proof.
  destruct (Range_intersect a b) as [c|] eqn:E.
  - apply Range_intersect_Some in E as (H1 & H2 & H3). split; [|by eauto].
    intros _. exists (r_start c). unfold in_range. lia.
  - apply Range_intersect_None in E. split; [by intros []|].
    intros [x Hx]. by apply E in Hx.
Qed.

Lemma Range_intersect_wf (a b c : Range) :
  Range_wf a → Range_wf b → Range_intersect a b = Some c → Range_wf c.
Proof.
  unfold Range_wf. intros Ha Hb (H1 & H2 & H3)%Range_intersect_Some. lia.
Qed.

(** [Range_new] inside [Range_intersect] would not panic. *)
Lemma Range_intersect_new (a b c : Range) :
  Range_wf a → Range_wf b → Range_intersect a b = Some c →
  Range_new (Z.max (r_start a) (r_start b))
    (Z.min (r_end a) (r_end b) - Z.max (r_start a) (r_start b)) = Ret c.
Proof.
  unfold Range_wf. intros Ha Hb. unfold Range_intersect. rewrite Z.geb_leb.
  zcase; [done|]. intros [= <-]. apply Range_new_Ret. lia.
Qed.

(** The intersection holds exactly the addresses of both ranges. *)
Lemma Range_intersect_addresses (a b : Range) (x : Z) :
  in_range x a ∧ in_range x b ↔
  match Range_intersect a b with Some c => in_range x c | None => False end.
Proof.
  destruct (Range_intersect a b) as [c|] eqn:E.
  - apply Range_intersect_Some in E as (H1 & H2 & H3). unfold in_range. lia.
  - apply Range_intersect_None in E. split; [by apply E|done].
Qed.

Lemma Range_deserialize_spec (start end_ : Z) :
  0 <= start → 8 * end_ <= usize_max →
  (∃ r, Range_deserialize start end_ = Ok r ∧ Range_wf r ∧
        r_start r = start ∧ r_end r = end_) ∨
  (end_ < start ∧ Range_deserialize start end_ = Err (EndBeforeStart end_ start)).
Proof.
  intros H1 H2. unfold Range_deserialize. zcase; [by right|left].
  eexists. split_and!; [done| |done|done]. unfold Range_wf; simpl. lia.
Qed.

#[export] Hint Resolve Range_new_wf Range_intersect_wf : ferrowl.

(** ** Memory cells *)

Inductive CellType := CT_Coil | CT_Register.

Inductive Access := A_Read | A_Write | A_ReadWrite.

#[export] Instance CellType_eq_dec : EqDecision CellType.
Proof. solve_decision. Defined.
#[export] Instance Access_eq_dec : EqDecision Access.
Proof. solve_decision. Defined.

Record CellKind := mkCellKind { ck_ty : CellType; ck_access : Access }.

Definition CellKind_read (ty : CellType) : CellKind := mkCellKind ty A_Read.
Definition CellKind_write (ty : CellType) : CellKind := mkCellKind ty A_Write.
Definition CellKind_read_write (ty : CellType) : CellKind := mkCellKind ty A_ReadWrite.

Record Cell := mkCell { c_kind : CellKind; c_value : Z }.

#[export] Instance CellKind_eq_dec : EqDecision CellKind.
Proof. solve_decision. Defined.
#[export] Instance Cell_eq_dec : EqDecision Cell.
Proof. solve_decision. Defined.

Definition Cell_from_u16 (kind : CellKind) (init : Z) : Cell := mkCell kind init.

Definition Cell_zeroed (kind : CellKind) : Cell := Cell_from_u16 kind 0.

Definition Cell_accepts_write (self : Cell) (ty : CellType) : bool :=
  bool_decide (ck_ty (c_kind self) = ty) &&
  match ck_access (c_kind self) with
  | A_Write | A_ReadWrite => true
  | A_Read => false
  end.

Definition Cell_accepts_read (self : Cell) (ty : CellType) : bool :=
  bool_decide (ck_ty (c_kind self) = ty) &&
  match ck_access (c_kind self) with
  | A_Read | A_ReadWrite => true
  | A_Write => false
  end.

(** [mem.value = val]. *)
Definition Cell_set_value (self : Cell) (val : Z) : Cell := mkCell (c_kind self) val.

Definition Cell_try_set_value (self : Cell) (val : Z) : Cell :=
  if bool_decide (ck_access (c_kind self) = A_Read) then self
  else Cell_set_value self val.

Definition Cell_try_value (self : Cell) : option Z :=
  if bool_decide (ck_access (c_kind self) = A_Write) then None
  else Some (c_value self).

(** A borrowed run of values and the range it occupies. *)
Record ValueRange := mkValueRange { vr_range : Range; vr_values : list Z }.

Definition ValueRange_new (start : Z) (values : list Z) : Outcome ValueRange :=
  r ← Range_new start (Z.of_nat (length values));
  mret (mkValueRange r values).

(** ** Lemmas *)

Lemma accepts_write_set (c : Cell) (ty : CellType) (v : Z) :
  Cell_accepts_write c ty = true → Cell_try_set_value c v = Cell_set_value c v.
Proof.
  unfold Cell_accepts_write, Cell_try_set_value. intros [_ H]%andb_prop.
  by destruct (ck_access (c_kind c)).
Qed.

Lemma accepts_read_value (c : Cell) (ty : CellType) :
  Cell_accepts_read c ty = true → Cell_try_value c = Some (c_value c).
Proof.
  unfold Cell_accepts_read, Cell_try_value. intros [_ H]%andb_prop.
  by destruct (ck_access (c_kind c)).
Qed.

(** Writing a value never changes what a cell accepts. *)
Lemma set_value_accepts (c : Cell) (ty : CellType) (v : Z) :
  Cell_accepts_write (Cell_set_value c v) ty = Cell_accepts_write c ty ∧
  Cell_accepts_read (Cell_set_value c v) ty = Cell_accepts_read c ty.
Proof. done. Qed.

Lemma ValueRange_new_length (start : Z) (values : list Z) (v : ValueRange) :
  ValueRange_new start values = Ret v →
  vr_values v = values ∧ Range_length (vr_range v) = Z.of_nat (length values).
Proof.
  unfold ValueRange_new, Range_new. zcase; simpl; [|done].
  intros [= <-]. split; [done|]. unfold Range_length; simpl. lia.
Qed.

(** ** Slices *)

Record Slice := mkSlice { s_range : Range; s_buffer : list Cell }.

(** The type's invariant: one cell per address. *)
Definition Slice_wf (s : Slice) : Prop :=
  Range_wf (s_range s) ∧ Z.of_nat (length (s_buffer s)) = Range_length (s_range s).

(** [size_of::<Cell>()]: two one-byte enums and a [u16]. *)
Definition CELL_SIZE : Z := 4.

Definition Slice_zeroed (kind : CellKind) (range : Range) : Slice :=
  mkSlice range (replicate (Z.to_nat (Range_length range)) (Cell_zeroed kind)).

Definition Slice_from_range (kind : CellKind) (range : Range) : Outcome Slice :=
  _ ← vec_alloc CELL_SIZE (Range_length range);
  Ret (Slice_zeroed kind range).

Definition Slice_from_value_range (kind : CellKind) (range : ValueRange) : Slice :=
  mkSlice (vr_range range) (Cell_from_u16 kind <$> vr_values range).

Definition Slice_extend (self : Slice) (kind : CellKind) (range : Range)
  : Outcome (bool * Slice) :=
  let fresh := replicate (Z.to_nat (Range_length range)) (Cell_zeroed kind) in
  let total := Range_length range + Z.of_nat (length (s_buffer self)) in
  if r_end range =? r_start (s_range self) then
    _ ← vec_alloc CELL_SIZE total;
    r ← Range_new (r_start range) (Range_length range + Range_length (s_range self));
    mret (true, mkSlice r (fresh ++ s_buffer self))
  else if r_start range =? r_end (s_range self) then
    _ ← vec_alloc CELL_SIZE total;
    r ← Range_new (r_start (s_range self))
          (Range_length range + Range_length (s_range self));
    mret (true, mkSlice r (s_buffer self ++ fresh))
  else mret (false, self).

Definition Slice_contains (self : Slice) (range : Range) : bool :=
  (r_start range >=? r_start (s_range self)) && (r_end range <=? r_end (s_range self)).

(** Callers check [Slice_contains] first, so the offset does not underflow. *)
Definition Slice_cells_in (self : Slice) (range : Range) : list Cell :=
  take (Z.to_nat (Range_length range))
    (drop (Z.to_nat (r_start range - r_start (s_range self))) (s_buffer self)).

(** [for (mem, val) in cells.zip(values)]: pairs as long as both last. *)
Fixpoint zip_update {V} (f : Cell → V → Cell) (cells : list Cell) (values : list V)
  : list Cell :=
  match cells, values with
  | c :: cells', v :: values' => f c v :: zip_update f cells' values'
  | _, _ => cells
  end.

(** The loop over [Slice::cells_in_mut]: the cells of [range] are updated in
    place, the others stay. *)
Definition Slice_cells_in_mut (self : Slice) (range : Range)
    (f : Cell → Z → Cell) (values : list Z) : Slice :=
  let offset := Z.to_nat (r_start range - r_start (s_range self)) in
  let n := Z.to_nat (Range_length range) in
  mkSlice (s_range self)
    (take offset (s_buffer self) ++
     zip_update f (take n (drop offset (s_buffer self))) values ++
     drop (offset + n) (s_buffer self)).

Definition Slice_writable (self : Slice) (ty : CellType) (range : Range) : bool :=
  Slice_contains self range &&
  forallb (λ mem, Cell_accepts_write mem ty) (Slice_cells_in self range).

Definition Slice_write (self : Slice) (range : Range) (values : list Z)
  : bool * Slice :=
  let writable :=
    Slice_contains self range &&
    (Range_length range =? Z.of_nat (length values)) in
  (writable,
   if writable then Slice_cells_in_mut self range Cell_try_set_value values else self).

Definition Slice_write_unchecked (self : Slice) (range : Range) (values : list Z)
  : bool * Slice :=
  let ok :=
    Slice_contains self range &&
    (Range_length range =? Z.of_nat (length values)) in
  (ok, if ok then Slice_cells_in_mut self range Cell_set_value values else self).

(** Collecting into [Option<Vec<_>>] stops at the first write-only cell. *)
Definition Slice_read (self : Slice) (range : Range) : option (list Z) :=
  if negb (Slice_contains self range) then None
  else mapM Cell_try_value (Slice_cells_in self range).

Definition Slice_read_unchecked (self : Slice) (range : Range) : option (list Z) :=
  if negb (Slice_contains self range) then None
  else Some (c_value <$> Slice_cells_in self range).

Definition Slice_readable (self : Slice) (ty : CellType) (range : Range) : bool :=
  Slice_contains self range &&
  forallb (λ mem, Cell_accepts_read mem ty) (Slice_cells_in self range).

(** ** The cell at an address *)

Definition Slice_at (s : Slice) (a : Z) : option Cell :=
  if decide (in_range a (s_range s))
  then s_buffer s !! Z.to_nat (a - r_start (s_range s)) else None.

(** The addresses of a range, in order. *)
Definition addresses (r : Range) : list Z :=
  seqZ (r_start r) (Range_length r).

(** ** Lemmas *)

Lemma Slice_contains_true (s : Slice) (r : Range) :
  Slice_contains s r = true ↔
  r_start (s_range s) <= r_start r ∧ r_end r <= r_end (s_range s).
Proof. unfold Slice_contains. rewrite andb_true_iff, Z.geb_leb, !Z.leb_le. lia. Qed.

Lemma Slice_at_Some (s : Slice) (a : Z) :
  Slice_wf s → in_range a (s_range s) → is_Some (Slice_at s a).
Proof.
  unfold Slice_wf, Slice_at, in_range, Range_length. intros [Hr Hl] Ha.
  rewrite decide_True by done. apply lookup_lt_is_Some. lia.
Qed.

Lemma Slice_at_in_range (s : Slice) (a : Z) (c : Cell) :
  Slice_at s a = Some c → in_range a (s_range s).
Proof. unfold Slice_at. by case_decide. Qed.

Lemma length_zip_update {V} (f : Cell → V → Cell) (cs : list Cell) (vs : list V) :
  length (zip_update f cs vs) = length cs.
Proof. revert vs. induction cs as [|c cs IH]; intros [|v vs]; simpl; auto. Qed.

Lemma zip_update_lookup {V} (f : Cell → V → Cell) (cs : list Cell) (vs : list V) (i : nat) :
  length cs = length vs →
  zip_update f cs vs !! i = c ← cs !! i; v ← vs !! i; Some (f c v).
Proof.
  revert vs i. induction cs as [|c cs IH]; intros [|v vs] [|i] Hl; simplify_eq/=; auto.
Qed.

Lemma vec_alloc_Ret (size len : Z) : 2 * (size * len) <= usize_max → vec_alloc size len = Ret tt.
Proof. intros H. unfold vec_alloc. by rewrite (proj2 (Z.leb_le _ _) H). Qed.

Lemma Slice_from_range_Ret (kind : CellKind) (r : Range) :
  Range_wf r → Slice_from_range kind r = Ret (Slice_zeroed kind r).
Proof.
  intros H. unfold Slice_from_range. unfold Range_wf in H.
  by rewrite vec_alloc_Ret by (unfold Range_length, CELL_SIZE; lia).
Qed.

Lemma Slice_wf_zeroed (kind : CellKind) (r : Range) :
  Range_wf r → Slice_wf (Slice_zeroed kind r).
Proof.
  unfold Slice_wf, Slice_zeroed, Range_wf, Range_length; simpl.
  rewrite length_replicate. lia.
Qed.

Lemma Slice_at_zeroed (kind : CellKind) (r : Range) (a : Z) :
  Slice_at (Slice_zeroed kind r) a =
  if decide (in_range a r) then Some (Cell_zeroed kind) else None.
Proof.
  unfold Slice_at, Slice_zeroed, in_range, Range_length; simpl.
  case_decide; [|done]. apply lookup_replicate_2. lia.
Qed.

Lemma Slice_cells_in_mut_wf s r f vs : Slice_wf s → Slice_wf (Slice_cells_in_mut s r f vs).
Proof.
  unfold Slice_wf, Slice_cells_in_mut; simpl. intros [? Hl]. split; [done|].
  rewrite !length_app, length_zip_update, !length_take, !length_drop. lia.
Qed.

(** The cells of a contained range are the cells at its addresses. *)
Lemma Slice_cells_in_lookup (s : Slice) (r : Range) (i : nat) :
  Slice_wf s → Range_wf r → Slice_contains s r = true →
  Slice_cells_in s r !! i =
  if decide (Z.of_nat i < Range_length r) then Slice_at s (r_start r + Z.of_nat i) else None.
Proof.
  intros [Hr Hl] Hwf Hc%Slice_contains_true.
  unfold Slice_cells_in, Slice_at, in_range, Range_wf, Range_length in *.
  case_decide.
  - rewrite decide_True by lia. rewrite lookup_take_lt by lia.
    rewrite lookup_drop. f_equal. lia.
  - apply lookup_take_ge. lia.
Qed.

Lemma Slice_cells_in_length (s : Slice) (r : Range) :
  Slice_wf s → Range_wf r → Slice_contains s r = true →
  Z.of_nat (length (Slice_cells_in s r)) = Range_length r.
Proof.
  intros [Hr Hl] Hwf Hc%Slice_contains_true.
  unfold Slice_cells_in, Range_wf, Range_length in *.
  rewrite length_take, length_drop. lia.
Qed.

Lemma Slice_at_cells_in_mut (s : Slice) (r : Range) (f : Cell → Z → Cell)
    (vs : list Z) (a : Z) :
  Slice_wf s → Range_wf r → Slice_contains s r = true →
  Range_length r = Z.of_nat (length vs) →
  Slice_at (Slice_cells_in_mut s r f vs) a =
  if decide (in_range a r)
  then c ← Slice_at s a; v ← vs !! Z.to_nat (a - r_start r); Some (f c v)
  else Slice_at s a.
Proof.
  intros [Hr Hl] Hwf Hc%Slice_contains_true Hlen.
  unfold Slice_at, Slice_cells_in_mut, in_range, Range_wf, Range_length in *; simpl.
  set (o := Z.to_nat (r_start r - r_start (s_range s))).
  set (n := Z.to_nat (r_end r - r_start r)).
  case_decide as Ha; [|by case_decide].
  assert (length (take o (s_buffer s)) = o) as Ho by (rewrite length_take; lia).
  assert (length (take n (drop o (s_buffer s))) = n) as Hn
    by (rewrite length_take, length_drop; lia).
  case_decide as Hb.
  - rewrite lookup_app_r by lia. rewrite Ho.
    rewrite lookup_app_l by (rewrite length_zip_update; lia).
    rewrite zip_update_lookup by lia.
    rewrite lookup_take_lt by lia. rewrite lookup_drop.
    replace (o + (Z.to_nat (a - r_start (s_range s)) - o))%nat
      with (Z.to_nat (a - r_start (s_range s))) by lia.
    by replace (Z.to_nat (a - r_start (s_range s)) - o)%nat
      with (Z.to_nat (a - r_start r)) by lia.
  - destruct (decide (a < r_start r)).
    + rewrite lookup_app_l by lia. apply lookup_take_lt. lia.
    + rewrite lookup_app_r by lia. rewrite Ho.
      rewrite lookup_app_r by (rewrite length_zip_update; lia).
      rewrite length_zip_update, Hn, lookup_drop. f_equal. lia.
Qed.

Lemma addresses_cons (s e : Z) :
  s < e → addresses (mkRange s e) = s :: addresses (mkRange (s + 1) e).
Proof.
  intros H. unfold addresses, Range_length; simpl. rewrite seqZ_cons by lia.
  f_equal. f_equal; lia.
Qed.

Lemma addresses_app (s m e : Z) :
  s <= m → m <= e →
  addresses (mkRange s e) = addresses (mkRange s m) ++ addresses (mkRange m e).
Proof.
  intros H1 H2. unfold addresses, Range_length; simpl.
  replace (e - s) with ((m - s) + (e - m)) by lia.
  rewrite seqZ_app by lia. do 2 f_equal; lia.
Qed.

Lemma elem_of_addresses (a : Z) (r : Range) : a ∈ addresses r ↔ in_range a r.
Proof. unfold addresses, in_range, Range_length. rewrite elem_of_seqZ. lia. Qed.

Lemma addresses_lookup (r : Range) (i : nat) :
  Z.of_nat i < Range_length r → addresses r !! i = Some (r_start r + Z.of_nat i).
Proof. intros H. unfold addresses. rewrite lookup_seqZ. lia. Qed.

Lemma length_addresses (r : Range) : length (addresses r) = Z.to_nat (Range_length r).
Proof. apply length_seqZ. Qed.

Lemma Slice_cells_in_addresses (s : Slice) (r : Range) :
  Slice_wf s → Range_wf r → Slice_contains s r = true →
  mapM (Slice_at s) (addresses r) = Some (Slice_cells_in s r).
Proof.
  intros Hs Hr Hc. apply mapM_Some_2, Forall2_same_length_lookup_2.
  - rewrite length_addresses. pose proof (Slice_cells_in_length s r Hs Hr Hc). lia.
  - intros i a c Ha Hl. rewrite Slice_cells_in_lookup in Hl by done.
    apply lookup_seqZ in Ha as [-> Hi]. by rewrite decide_True in Hl.
Qed.

(** [Slice::extend] grows the slice by a directly adjacent range with zeroed
    cells, keeps every cell at its address, and refuses any other range. *)
Lemma Slice_extend_spec (s : Slice) (kind : CellKind) (r : Range) :
  Slice_wf s → Range_wf r →
  (r_end r = r_start (s_range s) ∨ r_start r = r_end (s_range s)) →
  ∃ s', Slice_extend s kind r = Ret (true, s') ∧ Slice_wf s' ∧
    Range_length (s_range s') = Range_length r + Range_length (s_range s) ∧
    ∀ a, in_range a (s_range s') →
      Slice_at s' a =
      if decide (in_range a (s_range s)) then Slice_at s a else Some (Cell_zeroed kind).
Proof.
  intros [Hs Hl] Hr Hadj. unfold Slice_extend, Range_wf, Range_length in *.
  zcase; [|zcase; [|lia]]; (rewrite vec_alloc_Ret by (unfold CELL_SIZE; lia));
    cbn [mbind outcome_bind]; (rewrite Range_new_Ret by lia); simpl;
    (eexists; split; [reflexivity|]); split_and!.
  - split; [unfold Range_wf; simpl; lia|].
    unfold Range_length; simpl. rewrite length_app, length_replicate. lia.
  - simpl. lia.
  - intros a. unfold Slice_at, in_range; simpl. intros Ha.
    rewrite decide_True by done. case_decide as Hb.
    + rewrite lookup_app_r, length_replicate by (rewrite length_replicate; lia).
      f_equal. lia.
    + rewrite lookup_app_l by (rewrite length_replicate; lia).
      apply lookup_replicate_2. lia.
  - split; [unfold Range_wf; simpl; lia|].
    unfold Range_length; simpl. rewrite length_app, length_replicate. lia.
  - simpl. lia.
  - intros a. unfold Slice_at, in_range; simpl. intros Ha.
    rewrite decide_True by done. case_decide as Hb.
    + rewrite lookup_app_l by lia. done.
    + rewrite lookup_app_r by lia. apply lookup_replicate_2. lia.
Qed.

Lemma Slice_extend_refused (s : Slice) (kind : CellKind) (r : Range) :
  r_end r ≠ r_start (s_range s) → r_start r ≠ r_end (s_range s) →
  Slice_extend s kind r = Ret (false, s).
Proof. intros H1 H2. unfold Slice_extend. do 2 (zcase; [lia|]). done. Qed.

(** A test on the cells of a contained range is a test on its addresses. *)
Lemma Slice_cells_in_forallb (p : Cell → bool) (s : Slice) (r : Range) :
  Slice_wf s → Range_wf r → Slice_contains s r = true →
  forallb p (Slice_cells_in s r) = true ↔
  ∀ a, in_range a r → ∃ c, Slice_at s a = Some c ∧ p c = true.
Proof.
  intros Hs Hr Hc. rewrite forallb_forall. split.
  - intros Hall a Ha.
    assert (Slice_cells_in s r !! Z.to_nat (a - r_start r) = Slice_at s a) as Hl.
    { rewrite Slice_cells_in_lookup by done. unfold in_range, Range_length in *.
      rewrite decide_True by lia. f_equal. lia. }
    destruct (Slice_at_Some s a Hs) as [c Hat].
    { apply Slice_contains_true in Hc. unfold in_range in *. lia. }
    exists c. split; [done|]. apply Hall, list_elem_of_In, list_elem_of_lookup.
    exists (Z.to_nat (a - r_start r)). congruence.
  - intros Hall c Hin. apply list_elem_of_In, list_elem_of_lookup in Hin as [i Hi].
    rewrite Slice_cells_in_lookup in Hi by done. case_decide as Hd; [|done].
    destruct (Hall (r_start r + Z.of_nat i)) as (c' & Hc' & Hp).
    { unfold in_range, Range_length in *. lia. }
    congruence.
Qed.
