(* ===== verification/Memory.v ===== *)
(** * The register store

    Models [ferrowl-store/src/memory.rs]: per device key, a set of
    non-overlapping slices ordered by address. The abstract contract of the
    store (one partial map from addresses to cells per key) and the proof that
    these operations implement it are in [MemorySpec.v]. *)

From stdpp Require Import base sorting list gmap numbers.
From S2P Require Import Prelude BTree Slice.

Local Open Scope Z_scope.

Inductive MemoryError :=
| UnknownKey
| AddressNotReadable
| AddressNotWritable
| LengthMismatch (expected got : Z).

Inductive WriteSource := WS_Remote | WS_Poll | WS_Command | WS_Script.

(** A completed write, as a [WriteTap] receives it. *)
Record StoreWrite (K : Type) := mkStoreWrite {
  sw_source : WriteSource;
  sw_id : K;
  sw_range : Range;
  sw_old : list Z;
  sw_new : list Z
}.
Arguments mkStoreWrite {K}.
Arguments sw_source {K}.
Arguments sw_id {K}.
Arguments sw_range {K}.
Arguments sw_old {K}.
Arguments sw_new {K}.

(** [BTreeMap<Range, Slice>]. *)
Abbreviation SliceMap := (list (Range * Slice)).

(** ** Walking the slices of one device *)

(** [walk_slices]: [f] threads its captured state [A] and answers whether to
    go on. *)
Fixpoint walk_slices {A} (f : A → Slice → Range → Outcome (bool * A))
    (map : SliceMap) (range : Range) (acc : A) : Outcome (bool * A) :=
  match map with
  | [] => Ret (Range_length range =? 0, acc)
  | (r, slice) :: rest =>
      if (r_start r <=? r_start range) && (r_end r >? r_start range) then
        let start := r_start range in
        let end_ := Z.min (r_end range) (r_end r) in
        let count := end_ - start in
        if negb (count =? 0) then
          seg ← Range_new start count;
          '(go, acc') ← f acc slice seg;
          if negb go then Ret (false, acc')
          else
            range' ← Range_new (r_start range + count) (Range_length range - count);
            walk_slices f rest range' acc'
        else walk_slices f rest range acc
      else walk_slices f rest range acc
  end.

(** [walk_slices_mut]: as [walk_slices], [f] also returns the updated slice. *)
Fixpoint walk_slices_mut {A} (f : A → Slice → Range → Outcome (bool * A * Slice))
    (map : SliceMap) (range : Range) (acc : A) : Outcome (bool * A * SliceMap) :=
  match map with
  | [] => Ret (Range_length range =? 0, acc, [])
  | (r, slice) :: rest =>
      if (r_start r <=? r_start range) && (r_end r >? r_start range) then
        let start := r_start range in
        let end_ := Z.min (r_end range) (r_end r) in
        let count := end_ - start in
        if negb (count =? 0) then
          seg ← Range_new start count;
          '(go, acc', slice') ← f acc slice seg;
          if negb go then Ret (false, acc', (r, slice') :: rest)
          else
            range' ← Range_new (r_start range + count) (Range_length range - count);
            '(b, acc'', rest') ← walk_slices_mut f rest range' acc';
            Ret (b, acc'', (r, slice') :: rest')
        else
          '(b, acc', rest') ← walk_slices_mut f rest range acc;
          Ret (b, acc', (r, slice) :: rest')
      else
        '(b, acc', rest') ← walk_slices_mut f rest range acc;
        Ret (b, acc', (r, slice) :: rest')
  end.

(** ** Declaring ranges *)

(** [ranges.iter().sorted_by(start)]: a stable sort. *)
Fixpoint insert_by_start (r : Range) (l : list Range) : list Range :=
  match l with
  | [] => [r]
  | r' :: l' => if r_start r <=? r_start r' then r :: l else r' :: insert_by_start r l'
  end.

Definition sorted_by_start (l : list Range) : list Range := foldr insert_by_start [] l.

(** The access an overlapping declaration leaves on a cell; [None] is
    [return false]. *)
Definition widen_access (cell kind : Access) : option Access :=
  if bool_decide (cell = kind) then Some cell
  else
    match cell, kind with
    | A_Read, A_Write | A_Write, A_Read => Some A_ReadWrite
    | _, _ => None
    end.

(** [for (i, cell) in slice.buffer.into_iter().enumerate()
    { merged.buffer[offset + i] = cell; }] *)
Fixpoint copy_cells (merged : list Cell) (offset : Z) (cells : list Cell)
  : Outcome (list Cell) :=
  match cells with
  | [] => Ret merged
  | c :: cells' =>
      _ ← index merged offset;
      copy_cells (<[Z.to_nat offset := c]> merged) (offset + 1) cells'
  end.

(** [for t in &targets]: take every target out of the map and copy its cells. *)
Fixpoint absorb_targets (targets : list Range) (m : SliceMap) (merged : list Cell)
    (start : Z) : Outcome (SliceMap * list Cell) :=
  match targets with
  | [] => Ret (m, merged)
  | t :: targets' =>
      '(slice, m') ← expect (bt_remove t m);
      merged' ← copy_cells merged (r_start (s_range slice) - start) (s_buffer slice);
      absorb_targets targets' m' merged' start
  end.

(** [for i in lo..hi]: check the type and widen the access of each cell. *)
Fixpoint widen_cells (kind : CellKind) (idxs : list Z) (merged : list Cell)
  : Outcome (option (list Cell)) :=
  match idxs with
  | [] => Ret (Some merged)
  | i :: idxs' =>
      cell ← index merged i;
      if negb (bool_decide (ck_ty (c_kind cell) = ck_ty kind)) then Ret None
      else
        match widen_access (ck_access (c_kind cell)) (ck_access kind) with
        | None => Ret None
        | Some a =>
            let cell' := mkCell (mkCellKind (ck_ty (c_kind cell)) a) (c_value cell) in
            widen_cells kind idxs' (<[Z.to_nat i := cell']> merged)
        end
  end.

Fixpoint widen_targets (kind : CellKind) (r : Range) (start : Z) (targets : list Range)
    (merged : list Cell) : Outcome (option (list Cell)) :=
  match targets with
  | [] => Ret (Some merged)
  | t :: targets' =>
      match Range_intersect r t with
      | None => widen_targets kind r start targets' merged
      | Some rg =>
          res ← widen_cells kind
                  (seqZ (r_start rg - start) (r_end rg - start - (r_start rg - start)))
                  merged;
          match res with
          | None => Ret None
          | Some merged' => widen_targets kind r start targets' merged'
          end
      end
  end.

(** One iteration of the loop over the declared ranges; [None] is
    [return false]. *)
Definition add_range (kind : CellKind) (m : SliceMap) (r : Range)
  : Outcome (option SliceMap) :=
  let targets := filter (λ range, is_Some (Range_intersect r range)) (bt_keys m) in
  match head targets, list.last targets with
  | Some first, Some last_ =>
      let start := Z.min (r_start r) (r_start first) in
      let end_ := Z.max (r_end r) (r_end last_) in
      union_range ← Range_new start (end_ - start);
      fresh ← Slice_from_range kind union_range;
      '(m', merged) ← absorb_targets targets m (s_buffer fresh) start;
      res ← widen_targets kind r start targets merged;
      match res with
      | None => Ret None
      | Some merged' =>
          key ← Range_new start (end_ - start);
          Ret (Some (bt_insert key (mkSlice union_range merged') m'))
      end
  | _, _ => fresh ← Slice_from_range kind r; Ret (Some (bt_insert r fresh m))
  end.

Fixpoint add_range_loop (kind : CellKind) (m : SliceMap) (rs : list Range)
  : Outcome (option SliceMap) :=
  match rs with
  | [] => Ret (Some m)
  | r :: rs' =>
      res ← add_range kind m r;
      match res with
      | None => Ret None
      | Some m' => add_range_loop kind m' rs'
      end
  end.

(** ** The store *)

Section memory.
Context {K : Type} `{Countable K} {Tap : Type}.

(** [Memory<K>]: the slices per device key and the write tap. *)
Record Memory := mkMemory {
  m_slices : gmap K SliceMap;
  m_tap : option Tap
}.

(** A call [tap.written(write, memory)]. *)
Record TapCall := mkTapCall {
  tc_tap : Tap;
  tc_write : StoreWrite K;
  tc_memory : Memory
}.

Definition Memory_default : Memory := mkMemory ∅ None.

Definition set_slices (self : Memory) (id : K) (m : SliceMap) : Memory :=
  mkMemory (<[id := m]> (m_slices self)) (m_tap self).

Definition Memory_add_ranges (self : Memory) (id : K) (kind : CellKind)
    (ranges : list Range) : Outcome (bool * Memory) :=
  let m := default [] (m_slices self !! id) in
  res ← add_range_loop kind m (sorted_by_start ranges);
  match res with
  | None => Ret (false, self)
  | Some [] => Ret (true, self)
  | Some m' => Ret (true, set_slices self id m')
  end.

Definition Memory_writable (self : Memory) (id : K) (ty : CellType) (range : Range)
  : Outcome (Result unit MemoryError) :=
  match m_slices self !! id with
  | Some map =>
      '(b, _) ← walk_slices
                  (λ (_ : unit) slice seg, Ret (Slice_writable slice ty seg, tt))
                  map range tt;
      if (b : bool) then Ret (Ok tt) else Ret (Err AddressNotWritable)
  | None => Ret (Err UnknownKey)
  end.

Definition Memory_readable (self : Memory) (id : K) (ty : CellType) (range : Range)
  : Outcome (Result unit MemoryError) :=
  match m_slices self !! id with
  | Some map =>
      '(b, _) ← walk_slices
                  (λ (_ : unit) slice seg, Ret (Slice_readable slice ty seg, tt))
                  map range tt;
      if (b : bool) then Ret (Ok tt) else Ret (Err AddressNotReadable)
  | None => Ret (Err UnknownKey)
  end.

(** The closure of the write paths: [idx] values are already consumed. *)
Definition write_segment (write : Slice → Range → list Z → bool * Slice)
    (values : list Z) (idx : Z) (slice : Slice) (seg : Range)
  : Outcome (bool * Z * Slice) :=
  let count := Range_length seg in
  vs ← index_range values idx (idx + count);
  Ret (true, idx + count, (write slice seg vs).2).

Definition Memory_write (self : Memory) (id : K) (ty : CellType) (range : Range)
    (values : list Z) : Outcome (Result unit MemoryError * Memory) :=
  if negb (Range_length range =? Z.of_nat (length values)) then
    Ret (Err (LengthMismatch (Range_length range) (Z.of_nat (length values))), self)
  else
    res ← Memory_writable self id ty range;
    match res with
    | Err e => Ret (Err e, self)
    | Ok _ =>
        map ← expect (m_slices self !! id);
        '(_, _, map') ← walk_slices_mut (write_segment Slice_write values) map range 0;
        Ret (Ok tt, set_slices self id map')
    end.

Definition Memory_set_write_tap (self : Memory) (tap : Tap) : Memory :=
  mkMemory (m_slices self) (Some tap).

Definition Memory_write_unchecked (self : Memory) (id : K) (range : Range)
    (values : list Z) : Outcome (bool * Memory) :=
  if negb (Range_length range =? Z.of_nat (length values)) then Ret (false, self)
  else
    match m_slices self !! id with
    | Some map =>
        '(b, _, map') ←
          walk_slices_mut (write_segment Slice_write_unchecked values) map range 0;
        Ret (b, set_slices self id map')
    | None => Ret (false, self)
    end.

(** [size_of::<u16>()], for [Vec::with_capacity(range.length())]. *)
Definition WORD_SIZE : Z := 2.

(** The closures of the read paths append what the slice returned. *)
Definition read_segment (read : Slice → Range → option (list Z))
    (output : list Z) (slice : Slice) (seg : Range) : Outcome (bool * list Z) :=
  Ret (true, match read slice seg with Some v => output ++ v | None => output end).

Definition Memory_read (self : Memory) (id : K) (ty : CellType) (range : Range)
  : Outcome (Result (list Z) MemoryError) :=
  res ← Memory_readable self id ty range;
  match res with
  | Err e => Ret (Err e)
  | Ok _ =>
      map ← expect (m_slices self !! id);
      _ ← vec_alloc WORD_SIZE (Range_length range);
      '(_, output) ← walk_slices (read_segment Slice_read) map range [];
      Ret (Ok output)
  end.

Definition Memory_read_unchecked (self : Memory) (id : K) (range : Range)
  : Outcome (option (list Z)) :=
  match m_slices self !! id with
  | Some map =>
      _ ← vec_alloc WORD_SIZE (Range_length range);
      '(covered, output) ←
        walk_slices (read_segment Slice_read_unchecked) map range [];
      if (covered : bool) then Ret (Some output) else Ret None
  | None => Ret None
  end.

Definition Memory_contains_key (self : Memory) (id : K) : bool :=
  bool_decide (is_Some (m_slices self !! id)).

(** [self.tap.as_ref().and_then(|_| self.read_unchecked(id, range))] *)
Definition tap_old_words (self : Memory) (id : K) (range : Range)
  : Outcome (option (list Z)) :=
  match m_tap self with
  | None => Ret None
  | Some _ => Memory_read_unchecked self id range
  end.

(** The call to the installed tap, on the memory after the write. *)
Definition tap_notify (self : Memory) (old : option (list Z)) (source : WriteSource)
    (id : K) (range : Range) (values : list Z) : list TapCall :=
  match m_tap self, old with
  | Some tap, Some old => [mkTapCall tap (mkStoreWrite source id range old values) self]
  | _, _ => []
  end.

Definition Memory_write_from (self : Memory) (source : WriteSource) (id : K)
    (ty : CellType) (range : Range) (values : list Z)
  : Outcome (Result unit MemoryError * Memory * list TapCall) :=
  if negb (Range_length range =? Z.of_nat (length values)) then
    Ret (Err (LengthMismatch (Range_length range) (Z.of_nat (length values))), self, [])
  else
    res ← Memory_writable self id ty range;
    match res with
    | Err e => Ret (Err e, self, [])
    | Ok _ =>
        old ← tap_old_words self id range;
        '(res', self') ← Memory_write self id ty range values;
        match res' with
        | Err e => Ret (Err e, self', [])
        | Ok _ => Ret (Ok tt, self', tap_notify self' old source id range values)
        end
    end.

Definition Memory_write_unchecked_from (self : Memory) (source : WriteSource) (id : K)
    (range : Range) (values : list Z) : Outcome (bool * Memory * list TapCall) :=
  old ← tap_old_words self id range;
  '(written, self') ← Memory_write_unchecked self id range values;
  Ret (written, self',
       if (written : bool) then tap_notify self' old source id range values else []).
End memory.

Arguments Memory K {_ _} Tap.
Arguments TapCall K {_ _} Tap.
