(* ===== verification/MemorySpec.v ===== *)
(** * What the register store promises

    The store of one device is, abstractly, a partial map from addresses to
    cells ([cell_at]). This file proves that the slice walking of [Memory.v]
    reads and writes exactly that map, across adjacent slices, without
    panicking, and that every operation preserves the slice invariant. *)

From stdpp Require Import base sorting list gmap numbers.
From S2P Require Import Prelude BTree Slice Memory.

Local Open Scope Z_scope.

(** Linear facts about a range given by its two ends. *)
Ltac range_lia := unfold in_range, Range_wf, Range_length in *; simpl in *; lia.

(** ** The invariant and the abstraction *)

(** Ascending, non-overlapping slices, each keyed by its own range. *)
Definition map_wf (m : SliceMap) : Prop :=
  bt_sorted m ∧
  (∀ r s, (r, s) ∈ m → s_range s = r ∧ Slice_wf s) ∧
  (∀ r1 s1 r2 s2, (r1, s1) ∈ m → (r2, s2) ∈ m → r1 ≠ r2 → disjoint_ranges r1 r2).

(** The cell a device holds at an address. *)
Fixpoint cell_at (m : SliceMap) (a : Z) : option Cell :=
  match m with
  | [] => None
  | (r, s) :: m' => if decide (in_range a r) then Slice_at s a else cell_at m' a
  end.

(** Every address of the range is declared. *)
Definition covered (m : SliceMap) (r : Range) : Prop :=
  ∀ a, in_range a r → is_Some (cell_at m a).

Lemma map_wf_nil : map_wf [].
Proof.
  split_and!; [apply bt_sorted_nil| |]; [by intros ?? ?%not_elem_of_nil|].
  by intros ???? ?%not_elem_of_nil.
Qed.

Lemma map_wf_cons (r : Range) (s : Slice) (m : SliceMap) :
  map_wf ((r, s) :: m) →
  map_wf m ∧ s_range s = r ∧ Slice_wf s ∧
  (∀ r' s', (r', s') ∈ m → Range_lt r r' ∧ disjoint_ranges r r').
Proof.
  intros (Hs & Hel & Hd). apply bt_sorted_cons in Hs as [Hlt Hs].
  destruct (Hel r s) as [Hr Hw]; [by apply elem_of_cons; left|].
  split_and!; [|done|done|].
  - split_and!; [done| |].
    + intros r' s' Hin. apply Hel, elem_of_cons. by right.
    + intros r1 s1 r2 s2 H1 H2. apply (Hd r1 s1 r2 s2); apply elem_of_cons; by right.
  - intros r' s' Hin. split; [by eapply Hlt|].
    apply (Hd r s r' s'); [by apply elem_of_cons; left|by apply elem_of_cons; right|].
    intros ->. apply (key_lt_irrefl r'). by eapply Hlt.
Qed.

Lemma cell_at_elem (m : SliceMap) (a : Z) (c : Cell) :
  map_wf m →
  cell_at m a = Some c ↔ ∃ r s, (r, s) ∈ m ∧ Slice_at s a = Some c.
Proof.
  induction m as [|[r s] m IH]; intros Hwf; simpl.
  - split; [done|]. by intros (? & ? & ?%not_elem_of_nil & _).
  - apply map_wf_cons in Hwf as (Hm & Hr & Hw & Hlt). specialize (IH Hm).
    case_decide as Ha; [split|rewrite IH; split].
    + intros Hc. exists r, s. split; [by apply elem_of_cons; left|done].
    + intros (r' & s' & [[= -> ->]|Hin]%elem_of_cons & Hc); [done|exfalso].
      destruct (Hlt r' s' Hin) as [_ Hd]. apply (Hd a). split; [done|].
      apply Slice_at_in_range in Hc.
      destruct Hm as (_ & Hel & _). by destruct (Hel r' s' Hin) as [<- _].
    + intros (r' & s' & Hin & Hc). exists r', s'. split; [by apply elem_of_cons; right|done].
    + intros (r' & s' & [[= -> ->]|Hin]%elem_of_cons & Hc); [|by eauto].
      apply Slice_at_in_range in Hc. by rewrite Hr in Hc.
Qed.

Lemma cell_at_slice (m : SliceMap) (r : Range) (s : Slice) (a : Z) :
  map_wf m → (r, s) ∈ m → in_range a r → cell_at m a = Slice_at s a.
Proof.
  intros Hwf Hin Ha. destruct Hwf as (Hs & Hel & Hd) eqn:E. clear E.
  destruct (Hel r s Hin) as [<- Hw].
  destruct (Slice_at_Some s a Hw Ha) as [c Hc]. rewrite Hc.
  apply cell_at_elem; [done|]. by eauto.
Qed.

Lemma cell_at_None (m : SliceMap) (a : Z) :
  map_wf m → (∀ r s, (r, s) ∈ m → ¬ in_range a r) → cell_at m a = None.
Proof.
  intros Hwf Hno. destruct (cell_at m a) as [c|] eqn:E; [|done].
  apply cell_at_elem in E as (r & s & Hin & Hc); [|done].
  apply Slice_at_in_range in Hc. destruct Hwf as (_ & Hel & _).
  destruct (Hel r s Hin) as [Hr _]. rewrite Hr in Hc. by destruct (Hno r s Hin).
Qed.

(** ** Walking *)

Lemma Range_new_to (s e : Z) :
  e <= usize_max → Range_new s (e - s) = Ret (mkRange s e).
Proof. intros H. rewrite Range_new_Ret by lia. unfold Range_span. do 2 f_equal. lia. Qed.

Lemma walk_rest_range (s x e : Z) :
  e <= usize_max → Range_new (s + (x - s)) (e - s - (x - s)) = Ret (mkRange x e).
Proof.
  intros H. rewrite Range_new_Ret by lia. unfold Range_span. do 2 f_equal; lia.
Qed.

Lemma walk_slices_empty {A} (f : A → Slice → Range → Outcome (bool * A)) m s acc :
  walk_slices f m (mkRange s s) acc = Ret (true, acc).
Proof.
  induction m as [|[r sl] m IH]; simpl.
  - unfold Range_length; simpl. by rewrite Z.sub_diag.
  - repeat zcase; try done. lia.
Qed.

Lemma walk_slices_mut_empty {A} (f : A → Slice → Range → Outcome (bool * A * Slice)) m s acc :
  walk_slices_mut f m (mkRange s s) acc = Ret (true, acc, m).
Proof.
  induction m as [|[r sl] m IH]; simpl.
  - unfold Range_length; simpl. by rewrite Z.sub_diag.
  - rewrite IH; simpl. repeat zcase; try done. lia.
Qed.

(** No slice starts early enough to hold the first address. *)
Lemma walk_slices_before {A} (f : A → Slice → Range → Outcome (bool * A)) m s e acc :
  s < e → (∀ r sl, (r, sl) ∈ m → s < r_start r) →
  walk_slices f m (mkRange s e) acc = Ret (false, acc).
Proof.
  intros Hse. induction m as [|[r sl] m IH]; intros Hm; simpl.
  - unfold Range_length; simpl. by rewrite (proj2 (Z.eqb_neq _ _)) by lia.
  - specialize (Hm r sl (list_elem_of_here _ _)) as Hr.
    rewrite (proj2 (Z.leb_gt _ _)) by lia. simpl. apply IH.
    intros r' sl' Hin. apply (Hm r' sl'). by apply list_elem_of_further.
Qed.

Lemma walk_slices_mut_before {A} (f : A → Slice → Range → Outcome (bool * A * Slice))
    m s e acc :
  s < e → (∀ r sl, (r, sl) ∈ m → s < r_start r) →
  walk_slices_mut f m (mkRange s e) acc = Ret (false, acc, m).
Proof.
  intros Hse. induction m as [|[r sl] m IH]; intros Hm; simpl.
  - unfold Range_length; simpl. by rewrite (proj2 (Z.eqb_neq _ _)) by lia.
  - specialize (Hm r sl (list_elem_of_here _ _)) as Hr.
    rewrite (proj2 (Z.leb_gt _ _)) by lia. simpl. rewrite IH; [done|].
    intros r' sl' Hin. apply (Hm r' sl'). by apply list_elem_of_further.
Qed.

Lemma walk_slices_in {A} (f : A → Slice → Range → Outcome (bool * A)) r sl m s e acc :
  in_range s r → s < e → 8 * e <= usize_max →
  walk_slices f ((r, sl) :: m) (mkRange s e) acc =
  ('(go, acc') ← f acc sl (mkRange s (Z.min e (r_end r)));
   if negb go then Ret (false, acc')
   else walk_slices f m (mkRange (Z.min e (r_end r)) e) acc').
Proof.
  unfold in_range. intros Hr Hse He. assert (0 < usize_max) by done. simpl. rewrite Z.gtb_ltb.
  rewrite (proj2 (Z.leb_le _ _)), (proj2 (Z.ltb_lt _ _)) by lia. simpl.
  rewrite (proj2 (Z.eqb_neq _ _)) by lia. simpl.
  rewrite Range_new_to by lia. simpl. unfold Range_length; simpl.
  rewrite walk_rest_range by lia. done.
Qed.

Lemma walk_slices_skip {A} (f : A → Slice → Range → Outcome (bool * A)) r sl m s e acc :
  r_end r <= s →
  walk_slices f ((r, sl) :: m) (mkRange s e) acc = walk_slices f m (mkRange s e) acc.
Proof.
  intros Hr. simpl. rewrite Z.gtb_ltb. rewrite (proj2 (Z.ltb_ge _ _)) by lia.
  by rewrite andb_false_r.
Qed.

Lemma walk_slices_mut_in {A} (f : A → Slice → Range → Outcome (bool * A * Slice))
    r sl m s e acc :
  in_range s r → s < e → 8 * e <= usize_max →
  walk_slices_mut f ((r, sl) :: m) (mkRange s e) acc =
  ('(go, acc', sl') ← f acc sl (mkRange s (Z.min e (r_end r)));
   if negb go then Ret (false, acc', (r, sl') :: m)
   else
     '(b, acc'', m') ← walk_slices_mut f m (mkRange (Z.min e (r_end r)) e) acc';
     Ret (b, acc'', (r, sl') :: m')).
Proof.
  unfold in_range. intros Hr Hse He. assert (0 < usize_max) by done. simpl. rewrite Z.gtb_ltb.
  rewrite (proj2 (Z.leb_le _ _)), (proj2 (Z.ltb_lt _ _)) by lia. simpl.
  rewrite (proj2 (Z.eqb_neq _ _)) by lia. simpl.
  rewrite Range_new_to by lia. simpl. unfold Range_length; simpl.
  rewrite walk_rest_range by lia. done.
Qed.

Lemma walk_slices_mut_skip {A} (f : A → Slice → Range → Outcome (bool * A * Slice))
    r sl m s e acc :
  r_end r <= s →
  walk_slices_mut f ((r, sl) :: m) (mkRange s e) acc =
  ('(b, acc', m') ← walk_slices_mut f m (mkRange s e) acc; Ret (b, acc', (r, sl) :: m')).
Proof.
  intros Hr. simpl. rewrite Z.gtb_ltb. rewrite (proj2 (Z.ltb_ge _ _)) by lia.
  by rewrite andb_false_r.
Qed.

(** Where the first address [s] of a walk lies relative to the first slice. *)
Inductive walk_case (r : Range) (sl : Slice) (m : SliceMap) (s e : Z) : Prop :=
| walk_here (Hin : in_range s r)
    (Hc : Slice_contains sl (mkRange s (Z.min e (r_end r))) = true)
    (Hseg : ∀ a, in_range a (mkRange s (Z.min e (r_end r))) →
       cell_at ((r, sl) :: m) a = Slice_at sl a)
    (Hrest : ∀ a, in_range a (mkRange (Z.min e (r_end r)) e) →
       cell_at ((r, sl) :: m) a = cell_at m a)
| walk_later (Hend : r_end r <= s)
    (Hsame : ∀ a, s <= a → cell_at ((r, sl) :: m) a = cell_at m a)
| walk_gap (Hgap : ∀ r' sl', (r', sl') ∈ (r, sl) :: m → s < r_start r')
    (Hnone : cell_at ((r, sl) :: m) s = None).

Lemma walk_cases (r : Range) (sl : Slice) (m : SliceMap) (s e : Z) :
  map_wf ((r, sl) :: m) → s < e → walk_case r sl m s e.
Proof.
  intros Hwf Hse. pose proof (map_wf_cons _ _ _ Hwf) as (Hm & Hr & Hw & Hlt).
  destruct (decide (in_range s r)) as [Hin|Hout].
  - apply walk_here; [done| | |].
    + apply Slice_contains_true. rewrite Hr. unfold in_range in *; simpl. lia.
    + intros a Ha. simpl. rewrite decide_True; [done|]. range_lia.
    + intros a Ha. simpl. rewrite decide_False; [done|]. range_lia.
  - destruct (decide (r_end r <= s)) as [Hle|Hgt].
    + apply walk_later; [done|]. intros a Ha. simpl. rewrite decide_False; [done|].
      range_lia.
    + assert (∀ r' sl', (r', sl') ∈ (r, sl) :: m → s < r_start r') as Hgap.
      { intros r' sl' [[= -> ->]|Hin']%elem_of_cons; [unfold in_range in Hout; lia|].
        destruct (Hlt r' sl' Hin') as [Hl _]. unfold Range_lt, in_range in *. lia. }
      apply walk_gap; [done|]. apply cell_at_None; [done|].
      intros r' sl' Hin'. apply Hgap in Hin'. unfold in_range. lia.
Qed.

(** A walk that tests cells succeeds exactly when every address of the range
    is declared and its cell passes the test. *)
Lemma walk_slices_test {A} (f : A → Slice → Range → Outcome (bool * A)) (p : Cell → bool)
    (m : SliceMap) (s e : Z) (acc : A) :
  (∀ sl seg, Slice_wf sl → Range_wf seg → Slice_contains sl seg = true →
     f acc sl seg = Ret (forallb p (Slice_cells_in sl seg), acc)) →
  map_wf m → 0 <= s <= e → 8 * e <= usize_max →
  ∃ b, walk_slices f m (mkRange s e) acc = Ret (b, acc) ∧
    (b = true ↔ ∀ a, in_range a (mkRange s e) → ∃ c, cell_at m a = Some c ∧ p c = true).
Proof.
  intros Hf. revert s. induction m as [|[r sl] m IH]; intros s Hwf Hs He.
  - simpl. unfold Range_length; simpl. eexists. split; [done|].
    rewrite Z.eqb_eq. split.
    + intros Heq a Ha. unfold in_range in Ha; simpl in Ha. lia.
    + intros Hall. destruct (decide (s < e)) as [Hlt|]; [|lia].
      destruct (Hall s) as (? & ? & ?); [by split|done].
  - destruct (decide (s < e)) as [Hlt|Hge].
    2:{ assert (s = e) as -> by lia. rewrite walk_slices_empty. exists true.
        split; [done|]. split; [|done]. intros _ a Ha. unfold in_range in Ha; simpl in Ha. lia. }
    pose proof (map_wf_cons _ _ _ Hwf) as (Hm & Hr & Hw & _).
    destruct (walk_cases r sl m s e Hwf Hlt) as [Hin Hc Hseg Hrest|Hend Hsame|Hgap Hnone].
    + set (x := Z.min e (r_end r)) in *.
      assert (s < x <= e) as Hx by (unfold in_range in Hin; lia).
      rewrite walk_slices_in by done. fold x.
      assert (Range_wf (mkRange s x)) as Hsw by (unfold Range_wf; simpl; lia).
      rewrite Hf by done. cbn [mbind outcome_bind].
      destruct (IH x Hm ltac:(lia) He) as (b & Hb & Hiff).
      pose proof (Slice_cells_in_forallb p sl _ Hw Hsw Hc) as Hp.
      destruct (forallb p (Slice_cells_in sl (mkRange s x))) eqn:Ep; cbn [negb].
      * rewrite Hb. exists b. split; [done|]. rewrite Hiff. split.
        -- intros Hall a Ha. destruct (decide (a < x)) as [Hax|Hax].
           ++ rewrite Hseg by range_lia.
              apply Hp; [done|]. range_lia.
           ++ rewrite Hrest by range_lia.
              apply Hall. range_lia.
        -- intros Hall a Ha. rewrite <- Hrest by done. apply Hall.
           range_lia.
      * exists false. split; [done|]. split; [done|]. intros Hall. apply Hp.
        intros a Ha. rewrite <- Hseg by done. apply Hall.
        range_lia.
    + rewrite walk_slices_skip by done. destruct (IH s Hm Hs He) as (b & Hb & Hiff).
      exists b. split; [done|]. rewrite Hiff.
      split; intros Hall a Ha; specialize (Hall a Ha) as (c & Hca & Hpc); exists c;
        (split; [|done]); rewrite <- Hca; [|symmetry]; apply Hsame;
        unfold in_range in Ha; simpl in Ha; lia.
    + rewrite walk_slices_before by done. exists false. split; [done|]. split; [done|].
      intros Hall. destruct (Hall s) as (c & Hca & _); [by split|]. congruence.
Qed.

(** ** The cells of a range *)

(** The cells of a range in address order, when all are declared. *)
Definition cells (m : SliceMap) (r : Range) : option (list Cell) :=
  mapM (cell_at m) (addresses r).

Lemma cells_empty (m : SliceMap) (s : Z) : cells m (mkRange s s) = Some [].
Proof. unfold cells, addresses, Range_length; simpl. by rewrite Z.sub_diag. Qed.

Lemma cells_covered (m : SliceMap) (r : Range) : is_Some (cells m r) ↔ covered m r.
Proof.
  unfold cells, covered. rewrite mapM_is_Some, list.Forall_forall.
  by setoid_rewrite elem_of_addresses.
Qed.

Lemma cells_ext (m m' : SliceMap) (r : Range) :
  (∀ a, in_range a r → cell_at m a = cell_at m' a) → cells m r = cells m' r.
Proof.
  intros Hext. apply Forall_mapM_ext, list.Forall_forall. intros a Ha.
  by apply Hext, elem_of_addresses.
Qed.

Lemma cells_Some (m : SliceMap) (r : Range) (cs : list Cell) :
  cells m r = Some cs ↔
  length cs = Z.to_nat (Range_length r) ∧
  ∀ a, in_range a r → cell_at m a = cs !! Z.to_nat (a - r_start r).
Proof.
  unfold cells. rewrite mapM_Some. split.
  - intros HF. split.
    + by rewrite <- length_addresses, (Forall2_length HF).
    + intros a Ha.
      assert (addresses r !! Z.to_nat (a - r_start r) = Some a) as Hl.
      { rewrite addresses_lookup by range_lia. f_equal. range_lia. }
      destruct (Forall2_lookup_l _ _ _ _ _ HF Hl) as (c & Hc & Heq). congruence.
  - intros [Hl Hat]. apply Forall2_same_length_lookup_2.
    + by rewrite length_addresses.
    + intros i a c Ha Hc. apply lookup_seqZ in Ha as [-> Hi].
      rewrite Hat by range_lia. rewrite <- Hc. f_equal. lia.
Qed.

Lemma cells_split (m m1 m2 : SliceMap) (s x e : Z) :
  s <= x <= e →
  (∀ a, in_range a (mkRange s x) → cell_at m a = cell_at m1 a) →
  (∀ a, in_range a (mkRange x e) → cell_at m a = cell_at m2 a) →
  cells m (mkRange s e) =
  (cs1 ← cells m1 (mkRange s x); cs2 ← cells m2 (mkRange x e); Some (cs1 ++ cs2)).
Proof.
  intros Hx H1 H2. rewrite <- (cells_ext m m1 _ H1), <- (cells_ext m m2 _ H2).
  unfold cells. rewrite (addresses_app s x e) by lia.
  induction (addresses (mkRange s x)) as [|a l IH]; simpl.
  - by destruct (mapM (cell_at m) (addresses (mkRange x e))).
  - destruct (cell_at m a); simpl; [|done]. rewrite IH.
    destruct (mapM (cell_at m) l); simpl; [|done]. by destruct (mapM (cell_at m) (addresses (mkRange x e))).
Qed.

(** The cells of a range whose first addresses lie in the first slice. *)
Lemma cells_walk_here (r : Range) (sl : Slice) (m : SliceMap) (s x e : Z) :
  0 <= s <= x → x <= e → 8 * e <= usize_max → Slice_wf sl →
  Slice_contains sl (mkRange s x) = true →
  (∀ a, in_range a (mkRange s x) → cell_at ((r, sl) :: m) a = Slice_at sl a) →
  (∀ a, in_range a (mkRange x e) → cell_at ((r, sl) :: m) a = cell_at m a) →
  cells ((r, sl) :: m) (mkRange s e) =
  (cs ← cells m (mkRange x e); Some (Slice_cells_in sl (mkRange s x) ++ cs)).
Proof.
  intros Hs Hx He Hw Hc Hseg Hrest.
  rewrite (cells_split _ ((r, sl) :: m) m s x e) by (done || lia).
  assert (cells ((r, sl) :: m) (mkRange s x) = Some (Slice_cells_in sl (mkRange s x))) as ->.
  { rewrite <- (Slice_cells_in_addresses sl) by (done || range_lia).
    apply Forall_mapM_ext, list.Forall_forall. intros a Ha.
    by apply Hseg, elem_of_addresses. }
  done.
Qed.

(** A walk that collects a function of the cells of a covered range returns
    them in address order. *)
Lemma walk_slices_collect {B} (f : list B → Slice → Range → Outcome (bool * list B))
    (g : Cell → B) (Q : Cell → Prop) (m : SliceMap) (s e : Z) (acc : list B) :
  (∀ acc' sl seg, Slice_wf sl → Range_wf seg → Slice_contains sl seg = true →
     (∀ a c, in_range a seg → Slice_at sl a = Some c → Q c) →
     f acc' sl seg = Ret (true, acc' ++ (g <$> Slice_cells_in sl seg))) →
  map_wf m → 0 <= s <= e → 8 * e <= usize_max →
  (∀ a c, in_range a (mkRange s e) → cell_at m a = Some c → Q c) →
  ∃ out, walk_slices f m (mkRange s e) acc =
         Ret (bool_decide (is_Some (cells m (mkRange s e))), out) ∧
    ∀ cs, cells m (mkRange s e) = Some cs → out = acc ++ (g <$> cs).
Proof.
  intros Hf. revert s acc. induction m as [|[r sl] m IH]; intros s acc Hwf Hs He HQ;
    destruct (decide (s = e)) as [->|Hne].
  1, 3: rewrite walk_slices_empty, cells_empty; eexists; (split; [done|]);
    intros cs [= <-]; by rewrite app_nil_r.
  - rewrite walk_slices_before; [|lia|by intros ?? ?%not_elem_of_nil].
    unfold cells. rewrite addresses_cons by lia. simpl. by eexists.
  - pose proof (map_wf_cons _ _ _ Hwf) as (Hm & Hr & Hw & _).
    destruct (walk_cases r sl m s e Hwf ltac:(lia))
      as [Hin Hc Hseg Hrest|Hend Hsame|Hgap Hnone].
    + set (x := Z.min e (r_end r)) in *.
      assert (s < x <= e) as Hx by (unfold in_range in Hin; lia).
      rewrite walk_slices_in by (done || lia). fold x. rewrite Hf; [|done|range_lia|done|].
      2:{ intros a c Ha Hat. apply (HQ a); [range_lia|]. by rewrite Hseg. }
      cbn [mbind outcome_bind negb].
      destruct (IH x (acc ++ (g <$> Slice_cells_in sl (mkRange s x))) Hm ltac:(lia) He)
        as (out & Hb & Hout).
      { intros a c Ha Hat. apply (HQ a); [range_lia|]. by rewrite Hrest. }
      rewrite (cells_walk_here r sl m s x e) by (done || lia). rewrite Hb.
      exists out. destruct (cells m (mkRange x e)) as [cs'|]; simpl; [|done].
      split; [done|]. intros cs [= <-]. rewrite (Hout cs') by done.
      by rewrite fmap_app, app_assoc.
    + rewrite walk_slices_skip by done.
      rewrite (cells_ext ((r, sl) :: m) m) by (intros a Ha; apply Hsame; range_lia).
      apply IH; [done|done|done|]. intros a c Ha Hat. apply (HQ a); [done|].
      rewrite Hsame; [done|range_lia].
    + rewrite walk_slices_before by (done || lia). eexists.
      unfold cells. rewrite addresses_cons by lia. cbn [mapM]. rewrite Hnone. done.
Qed.

(** ** Writing *)

Lemma map_wf_update (r : Range) (sl sl' : Slice) (m m' : SliceMap) :
  map_wf ((r, sl) :: m) → s_range sl' = r → Slice_wf sl' →
  map_wf m' → bt_keys m' = bt_keys m → map_wf ((r, sl') :: m').
Proof.
  intros Hwf Hr Hw (Hs' & Hel' & Hd') Hk.
  pose proof (map_wf_cons _ _ _ Hwf) as (Hm & Hr0 & Hw0 & Hlt).
  assert (∀ r' s', (r', s') ∈ m' → Range_lt r r' ∧ disjoint_ranges r r') as Hlt'.
  { intros r' s' Hin%bt_elem_key. rewrite Hk in Hin.
    apply bt_key_elem in Hin as [s0 Hin]. by apply (Hlt r' s0). }
  split_and!.
  - apply bt_sorted_cons. split; [|done]. intros r' s' Hin. by apply (Hlt' r' s').
  - intros r' s' [[= -> ->]|Hin]%elem_of_cons; [done|by apply Hel'].
  - intros r1 s1 r2 s2 [[= -> ->]|H1]%elem_of_cons [[= -> ->]|H2]%elem_of_cons Hne.
    + done.
    + by apply (Hlt' r2 s2).
    + intros x [Hx1 Hx2]. by apply (proj2 (Hlt' r1 s1 H1) x).
    + by apply (Hd' r1 s1 r2 s2).
Qed.

Section walk_write.
Context (w : Slice → Range → list Z → bool * Slice) (h : Cell → Z → Cell).
Context (Hw : ∀ sl seg vs,
  Slice_contains sl seg = true → Range_length seg = Z.of_nat (length vs) →
  w sl seg vs = (true, Slice_cells_in_mut sl seg h vs)).

(** What a write leaves at an address: the addresses up to the first
    undeclared one are written, the others keep their cells. *)
Definition written_prefix (m m' : SliceMap) (s e : Z) (values : list Z) (idx : Z) : Prop :=
  ∀ a,
    (in_range a (mkRange s e) ∧ covered m (mkRange s (a + 1)) →
     cell_at m' a = c ← cell_at m a; v ← values !! Z.to_nat (idx + (a - s)); Some (h c v)) ∧
    (¬ (in_range a (mkRange s e) ∧ covered m (mkRange s (a + 1))) →
     cell_at m' a = cell_at m a).

Lemma write_segment_here (values : list Z) (idx : Z) (sl : Slice) (s x : Z) :
  Slice_contains sl (mkRange s x) = true → s <= x → 0 <= idx →
  idx + (x - s) <= Z.of_nat (length values) →
  write_segment w values idx sl (mkRange s x) =
  Ret (true, idx + (x - s),
       Slice_cells_in_mut sl (mkRange s x) h
         (take (Z.to_nat (x - s)) (drop (Z.to_nat idx) values))).
Proof.
  intros Hc Hx Hi Hl. unfold write_segment, Range_length; simpl.
  rewrite index_range_Ret by lia. cbn [mbind outcome_bind].
  replace (idx + (x - s) - idx) with (x - s) by lia.
  rewrite Hw; [done|done|].
  unfold Range_length; simpl. rewrite length_take, length_drop. lia.
Qed.

Lemma covered_split (m m2 : SliceMap) (s x e : Z) :
  s <= x → x <= e →
  (∀ a, in_range a (mkRange s x) → is_Some (cell_at m a)) →
  (∀ a, in_range a (mkRange x e) → cell_at m a = cell_at m2 a) →
  covered m (mkRange s e) ↔ covered m2 (mkRange x e).
Proof.
  intros Hsx Hxe H1 H2. split; intros Hc a Ha.
  - rewrite <- H2 by done. apply Hc. range_lia.
  - destruct (decide (a < x)); [apply H1; range_lia|]. rewrite H2 by range_lia.
    apply Hc. range_lia.
Qed.

(** One slice of the walk: the head is written, the tail by induction. *)
Lemma written_prefix_here r sl m m' s e values idx :
  let x := Z.min e (r_end r) in
  map_wf ((r, sl) :: m) → 0 <= s < e → 8 * e <= usize_max → in_range s r →
  Slice_contains sl (mkRange s x) = true →
  (∀ a, in_range a (mkRange s x) → cell_at ((r, sl) :: m) a = Slice_at sl a) →
  (∀ a, in_range a (mkRange x e) → cell_at ((r, sl) :: m) a = cell_at m a) →
  0 <= idx → idx + (e - s) <= Z.of_nat (length values) →
  written_prefix m m' x e values (idx + (x - s)) →
  written_prefix ((r, sl) :: m)
    ((r, Slice_cells_in_mut sl (mkRange s x) h
           (take (Z.to_nat (x - s)) (drop (Z.to_nat idx) values))) :: m')
    s e values idx.
Proof.
  intros x Hwf Hs He Hin Hc Hseg Hrest Hi Hl IH a.
  pose proof (map_wf_cons _ _ _ Hwf) as (Hm & Hr & Hsl & _).
  assert (s < x <= e ∧ x <= r_end r) as Hx by (unfold x, in_range in *; lia).
  assert (∀ b, in_range b (mkRange s x) → is_Some (cell_at ((r, sl) :: m) b)) as Hsome.
  { intros b Hb. rewrite Hseg by done. apply Slice_at_Some; [done|].
    apply Slice_contains_true in Hc. range_lia. }
  destruct (decide (in_range a r)) as [Har|Har].
  - cbn [cell_at]. rewrite decide_True by done.
    rewrite decide_True by done.
    rewrite Slice_at_cells_in_mut;
      [|done|range_lia|done|unfold Range_length; simpl; rewrite length_take, length_drop; lia].
    destruct (decide (in_range a (mkRange s x))) as [Hax|Hax].
    + split; [intros _|intros Hn; exfalso; apply Hn; split; [range_lia|]].
      * destruct (Slice_at sl a); simpl; [|done].
        rewrite lookup_take_lt, lookup_drop by range_lia.
        replace (Z.to_nat idx + Z.to_nat (a - s))%nat with (Z.to_nat (idx + (a - s)))
          by range_lia.
        done.
      * intros b Hb. apply Hsome. range_lia.
    + split; [|done]. intros [Hae _]. exfalso. unfold x, in_range in *; simpl in *. lia.
  - cbn [cell_at]. rewrite decide_False by done. rewrite decide_False by done.
    destruct (IH a) as [IH1 IH2].
    destruct (decide (in_range a (mkRange x e))) as [Hax|Hax].
    + rewrite (covered_split ((r, sl) :: m) m s x (a + 1));
        [|lia|range_lia|done|intros b Hb; apply Hrest; range_lia].
      replace (idx + (a - s)) with (idx + (x - s) + (a - x)) by lia.
      split; [intros [_ Hcov]; by apply IH1|intros Hn; apply IH2].
      intros [_ Hcov]. apply Hn. split; [range_lia|done].
    + split; [intros [Hae _]; exfalso; unfold x in *; range_lia|].
      intros _. apply IH2. by intros [? _].
Qed.

Lemma written_prefix_none m s e values idx :
  cell_at m s = None → written_prefix m m s e values idx.
Proof.
  intros Hn a. split; [|done]. intros [Ha Hc].
  destruct (Hc s) as [c Hs]; [range_lia|congruence].
Qed.

(** The whole write walk: it answers whether the range is covered, keeps the
    slices and their ranges, and writes the values address by address. *)
Lemma walk_slices_mut_write (m : SliceMap) (s e : Z) (values : list Z) (idx : Z) :
  map_wf m → 0 <= s <= e → 8 * e <= usize_max → 0 <= idx →
  idx + (e - s) <= Z.of_nat (length values) →
  ∃ b idx' m', walk_slices_mut (write_segment w values) m (mkRange s e) idx =
      Ret (b, idx', m') ∧
    (b = true ↔ covered m (mkRange s e)) ∧ map_wf m' ∧ bt_keys m' = bt_keys m ∧
    written_prefix m m' s e values idx.
Proof.
  revert s idx. induction m as [|[r sl] m IH]; intros s idx Hwf Hs He Hi Hl;
    destruct (decide (s = e)) as [->|Hne].
  1, 3: rewrite walk_slices_mut_empty; do 3 eexists; (split_and!; [done|split|done|done|]);
    [intros _ a Ha; range_lia|done|intros a; split; [intros [Ha _]; range_lia|done]].
  - rewrite walk_slices_mut_before; [|lia|by intros ?? ?%not_elem_of_nil].
    do 3 eexists. split_and!; [done| |done|done|by apply written_prefix_none].
    split; [done|]. intros Hc. destruct (Hc s) as [? ?]; [range_lia|done].
  - pose proof (map_wf_cons _ _ _ Hwf) as (Hm & Hr & Hsl & _).
    destruct (walk_cases r sl m s e Hwf ltac:(lia))
      as [Hin Hc Hseg Hrest|Hend Hsame|Hgap Hnone].
    + assert (s < Z.min e (r_end r) <= e) as Hx by (unfold in_range in Hin; lia).
      rewrite walk_slices_mut_in by (done || lia).
      rewrite write_segment_here by (done || lia). cbn [mbind outcome_bind negb].
      destruct (IH (Z.min e (r_end r)) (idx + (Z.min e (r_end r) - s)) Hm)
        as (b & idx' & m' & Heq & Hb & Hm' & Hk & Hpre); [lia..|].
      rewrite Heq. cbn [mbind outcome_bind]. do 3 eexists. split_and!; [done| | | |].
      * rewrite Hb. symmetry. apply covered_split; [lia|lia| |done].
        intros a Ha. rewrite Hseg by done. apply Slice_at_Some; [done|].
        apply Slice_contains_true in Hc. range_lia.
      * eapply map_wf_update; [done|done|by apply Slice_cells_in_mut_wf|done|done].
      * change (r :: bt_keys m' = r :: bt_keys m). by rewrite Hk.
      * apply written_prefix_here; try done; lia.
    + rewrite walk_slices_mut_skip by done.
      destruct (IH s idx Hm) as (b & idx' & m' & Heq & Hb & Hm' & Hk & Hpre); [lia..|].
      rewrite Heq. cbn [mbind outcome_bind]. do 3 eexists. split_and!; [done| | | |].
      * rewrite Hb. unfold covered. split; intros Hcov a Ha; specialize (Hcov a Ha);
          rewrite ?Hsame in * by range_lia; done.
      * by eapply map_wf_update.
      * change (r :: bt_keys m' = r :: bt_keys m). by rewrite Hk.
      * intros a. destruct (decide (s <= a)) as [Hsa|Hsa].
        -- assert (cell_at ((r, sl) :: m') a = cell_at m' a) as ->.
           { cbn [cell_at]. rewrite decide_False; [done|]. range_lia. }
           rewrite Hsame by done. destruct (Hpre a) as [H1 H2].
           assert (covered ((r, sl) :: m) (mkRange s (a + 1)) ↔
                   covered m (mkRange s (a + 1))) as Hcov.
           { split; intros Hcov a' Ha'; specialize (Hcov a' Ha');
               rewrite ?Hsame in * by range_lia; done. }
           rewrite Hcov. done.
        -- split; [intros [Ha _]; range_lia|]. intros _. cbn [cell_at].
           case_decide; [done|]. apply (Hpre a). intros [Ha _]. range_lia.
    + rewrite walk_slices_mut_before by (done || lia). do 3 eexists.
      split_and!; [done| |done|done|by apply written_prefix_none].
      split; [done|]. intros Hcov. destruct (Hcov s) as [? ?]; [range_lia|congruence].
Qed.
End walk_write.
