(* ===== verification/Store.v ===== *)
(** * The store's contract

    The abstract register store is a partial map from addresses to cells per
    device key. Its operations are given here address by address, with no
    slices; [StoreRefine.v] proves that [Memory.v] implements them. *)

From stdpp Require Import base sorting list gmap numbers.
From S2P Require Import Prelude BTree Slice Memory.

Local Open Scope Z_scope.

(** ** One device *)

Definition Device : Type := Z → option Cell.

(** Every address of the range is declared and its cell passes the test. *)
Definition dev_all (p : Cell → bool) (d : Device) (r : Range) : bool :=
  forallb (λ a, match d a with Some c => p c | None => false end) (addresses r).

(** The words of the range, when all its addresses are declared. *)
Definition dev_words (d : Device) (r : Range) : option (list Z) :=
  mapM (λ a, c_value <$> d a) (addresses r).

(** [values] stored at the addresses of [r]. *)
Definition dev_store (d : Device) (r : Range) (values : list Z) : Device :=
  λ a,
    if decide (in_range a r)
    then c ← d a; v ← values !! Z.to_nat (a - r_start r); Some (Cell_set_value c v)
    else d a.

(** How many addresses of the list are declared before the first that is not. *)
Fixpoint declared_count (d : Device) (l : list Z) : Z :=
  match l with
  | [] => 0
  | a :: l' => match d a with Some _ => 1 + declared_count d l' | None => 0 end
  end.

(** The addresses of [r] before its first undeclared one. *)
Definition dev_prefix (d : Device) (r : Range) : Range :=
  mkRange (r_start r) (r_start r + declared_count d (addresses r)).

(** The cell that a declaration of [kind] leaves on a declared cell. *)
Definition cell_declare (kind : CellKind) (c : Cell) : option Cell :=
  if bool_decide (ck_ty (c_kind c) = ck_ty kind)
  then (λ a, mkCell (mkCellKind (ck_ty (c_kind c)) a) (c_value c)) <$>
       widen_access (ck_access (c_kind c)) (ck_access kind)
  else None.

(** Declaring one range: fresh zeroed cells where nothing was declared, wider
    access where it was, refused on a conflict. *)
Definition dev_declare (kind : CellKind) (d : Device) (r : Range) : option Device :=
  if forallb (λ a, match d a with
                   | Some c => bool_decide (is_Some (cell_declare kind c))
                   | None => true
                   end) (addresses r)
  then Some (λ a,
    if decide (in_range a r)
    then match d a with Some c => cell_declare kind c | None => Some (Cell_zeroed kind) end
    else d a)
  else None.

Fixpoint dev_declare_all (kind : CellKind) (d : Device) (rs : list Range) : option Device :=
  match rs with
  | [] => Some d
  | r :: rs' => d' ← dev_declare kind d r; dev_declare_all kind d' rs'
  end.

(** ** The store *)

Section store.
Context {K : Type} `{EqDecision K}.

Definition Store : Type := K → option Device.

Definition store_set (st : Store) (id : K) (d : Device) : Store :=
  λ id', if decide (id' = id) then Some d else st id'.

Definition store_read (st : Store) (id : K) (ty : CellType) (r : Range)
  : Result (list Z) MemoryError :=
  match st id with
  | None => Err UnknownKey
  | Some d =>
      if dev_all (λ c, Cell_accepts_read c ty) d r
      then Ok (default [] (dev_words d r)) else Err AddressNotReadable
  end.

Definition store_read_unchecked (st : Store) (id : K) (r : Range) : option (list Z) :=
  d ← st id; dev_words d r.

Definition store_write (st : Store) (id : K) (ty : CellType) (r : Range) (vs : list Z)
  : Result unit MemoryError * Store :=
  if negb (Range_length r =? Z.of_nat (length vs))
  then (Err (LengthMismatch (Range_length r) (Z.of_nat (length vs))), st)
  else
    match st id with
    | None => (Err UnknownKey, st)
    | Some d =>
        if dev_all (λ c, Cell_accepts_write c ty) d r
        then (Ok tt, store_set st id (dev_store d r vs))
        else (Err AddressNotWritable, st)
    end.

(** A forced write, as the code has it: the walk over the slices stores each
    segment as it comes to it and stops at the first address without a cell. So
    the covered prefix is stored and the answer is [false], although the
    documents (MB-R-034, MB-E-021) require full coverage and no partial write. *)
Definition store_write_unchecked (st : Store) (id : K) (r : Range) (vs : list Z)
  : bool * Store :=
  if negb (Range_length r =? Z.of_nat (length vs)) then (false, st)
  else
    match st id with
    | None => (false, st)
    | Some d =>
        (bool_decide (is_Some (dev_words d r)),
         store_set st id (dev_store d (dev_prefix d r) vs))
    end.

Definition store_declare (st : Store) (id : K) (kind : CellKind) (rs : list Range)
  : bool * Store :=
  match rs with
  | [] => (true, st)
  | _ =>
      match dev_declare_all kind (default (λ _, None) (st id)) (sorted_by_start rs) with
      | None => (false, st)
      | Some d => (true, store_set st id d)
      end
  end.

(** ** Traces *)

(** The operations a client of the store performs. *)
Inductive StoreOp :=
| OpDeclare (id : K) (kind : CellKind) (rs : list Range)
| OpRead (id : K) (ty : CellType) (r : Range)
| OpReadUnchecked (id : K) (r : Range)
| OpWrite (source : WriteSource) (id : K) (ty : CellType) (r : Range) (vs : list Z)
| OpWriteUnchecked (source : WriteSource) (id : K) (r : Range) (vs : list Z).

(** What an operation answers, with the writes the tap is told of. *)
Inductive StoreOut :=
| OutDeclared (b : bool)
| OutWords (res : Result (list Z) MemoryError)
| OutRaw (res : option (list Z))
| OutWritten (res : Result unit MemoryError) (notes : list (StoreWrite K))
| OutForced (b : bool) (notes : list (StoreWrite K)).

(** With a tap installed, a completed write is reported once with the words
    it replaced. *)
Definition store_notes (tapped : bool) (done_ : bool) (st : Store) (source : WriteSource)
    (id : K) (r : Range) (vs : list Z) : list (StoreWrite K) :=
  if tapped && done_ then
    match store_read_unchecked st id r with
    | Some old => [mkStoreWrite source id r old vs]
    | None => []
    end
  else [].

Definition is_ok {A E} (r : Result A E) : bool :=
  match r with Ok _ => true | Err _ => false end.

Definition store_step (tapped : bool) (st : Store) (op : StoreOp) : StoreOut * Store :=
  match op with
  | OpDeclare id kind rs =>
      let '(b, st') := store_declare st id kind rs in (OutDeclared b, st')
  | OpRead id ty r => (OutWords (store_read st id ty r), st)
  | OpReadUnchecked id r => (OutRaw (store_read_unchecked st id r), st)
  | OpWrite source id ty r vs =>
      let '(res, st') := store_write st id ty r vs in
      (OutWritten res (store_notes tapped (is_ok res) st source id r vs), st')
  | OpWriteUnchecked source id r vs =>
      let '(b, st') := store_write_unchecked st id r vs in
      (OutForced b (store_notes tapped b st source id r vs), st')
  end.

Fixpoint store_run (tapped : bool) (st : Store) (ops : list StoreOp)
  : list StoreOut * Store :=
  match ops with
  | [] => ([], st)
  | op :: ops' =>
      let '(out, st') := store_step tapped st op in
      let '(outs, st'') := store_run tapped st' ops' in (out :: outs, st'')
  end.
End store.
Arguments Store K : clear implicits.
Arguments StoreOp K : clear implicits.
Arguments StoreOut K : clear implicits.

(** ** Equivalence

    Devices with the same cells, stores with equivalent devices. *)

#[export] Instance device_equiv : Equiv Device := pointwise_relation Z eq.

#[export] Instance device_equiv_equivalence : Equivalence (≡@{Device}).
Proof. unfold equiv, device_equiv. apply _. Qed.

#[export] Instance store_equiv {K} : Equiv (Store K) := pointwise_relation K (option_Forall2 (≡)).

#[export] Instance store_equiv_equivalence {K} : Equivalence (≡@{Store K}).
Proof. unfold equiv, store_equiv. apply _. Qed.

#[export] Instance dev_all_proper p : Proper ((≡) ==> eq ==> eq) (dev_all p).
Proof.
  intros d1 d2 Hd r _ <-. unfold dev_all. induction (addresses r) as [|a l IH]; simpl; [done|].
  by rewrite IH, (Hd a).
Qed.

#[export] Instance dev_words_proper : Proper ((≡) ==> eq ==> eq) dev_words.
Proof.
  intros d1 d2 Hd r _ <-. apply Forall_mapM_ext, list.Forall_forall. intros a _.
  by rewrite (Hd a).
Qed.

#[export] Instance dev_prefix_proper : Proper ((≡) ==> eq ==> eq) dev_prefix.
Proof.
  intros d1 d2 Hd r _ <-. unfold dev_prefix. do 2 f_equal.
  induction (addresses r) as [|a l IH]; simpl; [done|]. by rewrite IH, (Hd a).
Qed.

#[export] Instance dev_store_proper : Proper ((≡) ==> eq ==> eq ==> (≡)) dev_store.
Proof. intros d1 d2 Hd r _ <- vs _ <- a. unfold dev_store. by rewrite (Hd a). Qed.

#[export] Instance dev_declare_proper kind :
  Proper ((≡) ==> eq ==> option_Forall2 (≡)) (dev_declare kind).
Proof.
  intros d1 d2 Hd r _ <-. unfold dev_declare.
  assert (∀ l, forallb (λ a, match d1 a with
      | Some c => bool_decide (is_Some (cell_declare kind c)) | None => true end) l =
    forallb (λ a, match d2 a with
      | Some c => bool_decide (is_Some (cell_declare kind c)) | None => true end) l) as Hl.
  { intros l. induction l as [|a l IH]; simpl; [done|]. by rewrite (Hd a), IH. }
  rewrite Hl. destruct (forallb _ _); constructor. intros a. by rewrite (Hd a).
Qed.

#[export] Instance dev_declare_all_proper kind :
  Proper ((≡) ==> eq ==> option_Forall2 (≡)) (dev_declare_all kind).
Proof.
  intros d1 d2 Hd rs _ <-. revert d1 d2 Hd. induction rs as [|r rs IH]; intros d1 d2 Hd; simpl.
  - by constructor.
  - destruct (dev_declare_proper kind d1 d2 Hd r r eq_refl) as [d1' d2' Hd'|]; simpl;
      [by apply IH|constructor].
Qed.

Section store_proper.
Context {K : Type} `{EqDecision K}.
Implicit Types (st : Store K).

#[export] Instance store_set_proper : Proper ((≡) ==> eq ==> (≡) ==> (≡)) (@store_set K _).
Proof.
  intros st1 st2 Hst id _ <- d1 d2 Hd id'. unfold store_set.
  case_decide; [by constructor|apply Hst].
Qed.

#[export] Instance store_read_proper : Proper ((≡) ==> eq ==> eq ==> eq ==> eq) (@store_read K).
Proof.
  intros st1 st2 Hst id _ <- ty _ <- r _ <-. unfold store_read.
  destruct (Hst id) as [d1 d2 Hd|]; [|done].
  by rewrite (dev_all_proper _ _ _ Hd r r eq_refl), (dev_words_proper _ _ Hd r r eq_refl).
Qed.

#[export] Instance store_read_unchecked_proper :
  Proper ((≡) ==> eq ==> eq ==> eq) (@store_read_unchecked K).
Proof.
  intros st1 st2 Hst id _ <- r _ <-. unfold store_read_unchecked.
  destruct (Hst id) as [d1 d2 Hd|]; simpl; [|done]. by apply dev_words_proper.
Qed.

Lemma store_write_equiv st1 st2 id ty r vs :
  st1 ≡ st2 →
  (store_write st1 id ty r vs).1 = (store_write st2 id ty r vs).1 ∧
  (store_write st1 id ty r vs).2 ≡ (store_write st2 id ty r vs).2.
Proof.
  intros Hst. unfold store_write. destruct (negb _); [done|].
  destruct (Hst id) as [d1 d2 Hd|]; [|done].
  rewrite (dev_all_proper _ _ _ Hd r r eq_refl). destruct (dev_all _ _ _); simpl; [|done].
  split; [done|]. apply store_set_proper; [done|done|]. by apply dev_store_proper.
Qed.

Lemma store_write_unchecked_equiv st1 st2 id r vs :
  st1 ≡ st2 →
  (store_write_unchecked st1 id r vs).1 = (store_write_unchecked st2 id r vs).1 ∧
  (store_write_unchecked st1 id r vs).2 ≡ (store_write_unchecked st2 id r vs).2.
Proof.
  intros Hst. unfold store_write_unchecked. destruct (negb _); [done|].
  destruct (Hst id) as [d1 d2 Hd|]; [|done]. simpl.
  rewrite (dev_words_proper _ _ Hd r r eq_refl), (dev_prefix_proper _ _ Hd r r eq_refl).
  split; [done|]. apply store_set_proper; [done|done|]. by apply dev_store_proper.
Qed.

Lemma store_declare_equiv st1 st2 id kind rs :
  st1 ≡ st2 →
  (store_declare st1 id kind rs).1 = (store_declare st2 id kind rs).1 ∧
  (store_declare st1 id kind rs).2 ≡ (store_declare st2 id kind rs).2.
Proof.
  intros Hst. unfold store_declare. destruct rs as [|r rs]; [done|].
  assert (default (λ _ : Z, None) (st1 id) ≡@{Device} default (λ _, None) (st2 id)) as Hd
    by by destruct (Hst id).
  destruct (dev_declare_all_proper kind _ _ Hd (sorted_by_start (r :: rs)) _ eq_refl);
    simpl; [|done]. split; [done|]. by apply store_set_proper.
Qed.
End store_proper.
