(* ===== verification/StoreDeclare.v ===== *)
(** * Declaring ranges

    [Memory::add_ranges] merges a declared range with every slice it
    intersects. This file proves that the merge is, address by address, the
    declaration of [Store.v], and that it never panics. *)

From stdpp Require Import base sorting list gmap numbers.
From S2P Require Import Prelude BTree Slice Memory MemorySpec Store.

Local Open Scope Z_scope.

(** ** Slice maps *)

Lemma map_wf_sub (m m' : SliceMap) :
  map_wf m → bt_sorted m' → (∀ r s, (r, s) ∈ m' → (r, s) ∈ m) → map_wf m'.
Proof.
  intros (_ & Hel & Hd) Hs Hsub. split_and!; [done|by eauto|].
  intros r1 s1 r2 s2 H1 H2. apply (Hd r1 s1 r2 s2); by apply Hsub.
Qed.

Lemma map_wf_insert (m : SliceMap) (s : Slice) :
  map_wf m → Slice_wf s →
  (∀ r' s', (r', s') ∈ m → r' ≠ s_range s → disjoint_ranges (s_range s) r') →
  map_wf (bt_insert (s_range s) s m).
Proof.
  intros (Hs & Hel & Hd) Hw Hdis. split_and!; [by apply bt_insert_sorted| |].
  - intros r' s' [[= -> ->]|[Hin _]]%bt_insert_elem; [done|by apply Hel|done].
  - intros r1 s1 r2 s2 H1 H2 Hne.
    apply bt_insert_elem in H1 as [[= -> ->]|[H1 N1]]; [| |done];
      apply bt_insert_elem in H2 as [[= -> ->]|[H2 N2]]; try done.
    + by apply (Hdis r2 s2).
    + intros x [Hx1 Hx2]. by apply (Hdis r1 s1 H1 N1 x).
    + by apply (Hd r1 s1 r2 s2).
Qed.

Lemma bt_insert_nonempty (r : Range) (s : Slice) (m : SliceMap) : bt_insert r s m ≠ [].
Proof. destruct m as [|[r0 s0] m]; simpl; [done|]. by repeat case_decide. Qed.

Lemma cell_at_insert (m : SliceMap) (s : Slice) (a : Z) :
  map_wf m → Slice_wf s →
  (∀ r' s', (r', s') ∈ m → r' ≠ s_range s → disjoint_ranges (s_range s) r') →
  cell_at (bt_insert (s_range s) s m) a =
  if decide (in_range a (s_range s)) then Slice_at s a else cell_at m a.
Proof.
  intros Hm Hw Hdis. pose proof (map_wf_insert m s Hm Hw Hdis) as Hi.
  destruct Hm as (Hs & Hel & Hd) eqn:E. clear E. case_decide as Ha.
  - apply (cell_at_slice _ (s_range s)); [done| |done]. apply bt_insert_elem; [done|by left].
  - apply option_eq. intros c. rewrite !cell_at_elem by done. split.
    + intros (r' & s' & Hin & Hc). apply bt_insert_elem in Hin as [[= -> ->]|[Hin _]];
        [by apply Slice_at_in_range in Hc|by eauto|done].
    + intros (r' & s' & Hin & Hc). exists r', s'. split; [|done].
      apply bt_insert_elem; [done|]. right. split; [done|]. intros ->.
      destruct (Hel _ _ Hin) as [Hr _]. apply Slice_at_in_range in Hc. by rewrite Hr in Hc.
Qed.

Lemma cell_at_sub (m m' : SliceMap) (targets : list Range) (a : Z) :
  map_wf m → map_wf m' →
  (∀ r s, (r, s) ∈ m' ↔ (r, s) ∈ m ∧ r ∉ targets) →
  ¬ Exists (in_range a) targets → cell_at m' a = cell_at m a.
Proof.
  intros Hm Hm' Hsub Hno. apply option_eq. intros c. rewrite !cell_at_elem by done.
  split; intros (r & s & Hin & Hc); exists r, s; (split; [|done]).
  - by apply Hsub in Hin as [? _].
  - apply Hsub. split; [done|]. intros Ht. apply Hno, list.Exists_exists.
    exists r. split; [done|]. destruct Hm as (_ & Hel & _).
    destruct (Hel r s Hin) as [<- _]. by apply Slice_at_in_range in Hc.
Qed.

(** ** Copying the absorbed slices *)

Lemma copy_cells_spec (cs merged : list Cell) (off : Z) :
  0 <= off → off + Z.of_nat (length cs) <= Z.of_nat (length merged) →
  ∃ merged', copy_cells merged off cs = Ret merged' ∧
    length merged' = length merged ∧
    ∀ i, merged' !! i =
      if decide (off <= Z.of_nat i < off + Z.of_nat (length cs))
      then cs !! Z.to_nat (Z.of_nat i - off) else merged !! i.
Proof.
  revert merged off. induction cs as [|c cs IH]; intros merged off Ho Hl.
  - exists merged. split_and!; [done|done|]. intros i. simpl. by rewrite decide_False by lia.
  - cbn [copy_cells length] in *.
    destruct (lookup_lt_is_Some_2 merged (Z.to_nat off)) as [c0 Hc0]; [lia|].
    rewrite (index_Ret merged off c0) by done. cbn [mbind outcome_bind].
    destruct (IH (<[Z.to_nat off := c]> merged) (off + 1)) as (merged' & -> & Hl' & Hat);
      [lia|rewrite length_insert; lia|].
    exists merged'. rewrite length_insert in Hl'. split_and!; [done|done|].
    intros i. rewrite Hat. destruct (decide (Z.of_nat i = off)) as [Hi|Hi].
    + rewrite decide_False, decide_True by lia. subst off.
      rewrite Nat2Z.id, Z.sub_diag. apply list_lookup_insert_eq. lia.
    + rewrite list_lookup_insert_ne by lia. case_decide as H1; case_decide as H2; try lia; [|done].
      replace (Z.to_nat (Z.of_nat i - off)) with (S (Z.to_nat (Z.of_nat i - (off + 1)))) by lia.
      done.
Qed.

(** Copying one slice into the union's buffer, by address. *)
Lemma copy_slice_spec (U : Range) (merged : list Cell) (s : Slice) :
  Slice_wf (mkSlice U merged) → Slice_wf s →
  r_start U <= r_start (s_range s) → r_end (s_range s) <= r_end U →
  ∃ merged', copy_cells merged (r_start (s_range s) - r_start U) (s_buffer s) = Ret merged' ∧
    Slice_wf (mkSlice U merged') ∧
    ∀ a, Slice_at (mkSlice U merged') a =
      if decide (in_range a (s_range s)) then Slice_at s a
      else Slice_at (mkSlice U merged) a.
Proof.
  intros [HU Hlm] [Hr Hls] H1 H2. simpl in *.
  destruct (copy_cells_spec (s_buffer s) merged (r_start (s_range s) - r_start U))
    as (merged' & -> & Hl & Hat); [lia|range_lia|].
  exists merged'. split_and!; [done|by split; simpl; [|rewrite Hl]|].
  intros a. unfold Slice_at; simpl. destruct (decide (in_range a (s_range s))) as [Ha|Ha].
  - rewrite (decide_True (P := in_range a U)) by range_lia.
    rewrite Hat, decide_True by range_lia. f_equal. range_lia.
  - destruct (decide (in_range a U)); [|done]. rewrite Hat, decide_False by range_lia. done.
Qed.

Lemma absorb_targets_spec (targets : list Range) (U : Range) :
  ∀ (m : SliceMap) (merged : list Cell),
  map_wf m → NoDup targets → (∀ t, t ∈ targets → t ∈ bt_keys m) →
  (∀ t, t ∈ targets → r_start U <= r_start t ∧ r_end t <= r_end U) →
  Slice_wf (mkSlice U merged) →
  ∃ m' merged', absorb_targets targets m merged (r_start U) = Ret (m', merged') ∧
    map_wf m' ∧ Slice_wf (mkSlice U merged') ∧
    (∀ r s, (r, s) ∈ m' ↔ (r, s) ∈ m ∧ r ∉ targets) ∧
    ∀ a, Slice_at (mkSlice U merged') a =
      if decide (Exists (in_range a) targets) then cell_at m a
      else Slice_at (mkSlice U merged) a.
Proof.
  induction targets as [|t targets IH]; intros m merged Hm Hnd Hk Hin Hw.
  - exists m, merged. split_and!; [done|done|done| |].
    + intros r s. split; [|by intros [? _]]. intros ?. split; [done|]. apply not_elem_of_nil.
    + intros a. by rewrite decide_False by (by intros ?%Exists_nil).
  - apply list.NoDup_cons in Hnd as [Hnt Hnd].
    destruct (bt_key_elem t m) as [s0 Hs0]; [by apply Hk, list_elem_of_here|].
    destruct (bt_remove_Some t s0 m Hs0) as (s & m1 & Hrm). cbn [absorb_targets].
    rewrite Hrm. cbn [expect mbind outcome_bind].
    destruct (bt_remove_spec t m s m1 (proj1 Hm) Hrm) as (Hs1 & Hts & Hm1).
    destruct (proj1 (proj2 Hm) t s Hts) as [Hst Hsw].
    destruct (Hin t) as [Hi1 Hi2]; [apply list_elem_of_here|].
    destruct (copy_slice_spec U merged s) as (merged1 & -> & Hw1 & Hat1); [done|done|..];
      [rewrite Hst; lia..|]. cbn [mbind outcome_bind].
    assert (map_wf m1) as Hmw1.
    { apply (map_wf_sub m); [done|done|]. intros r' s' Hr'. by apply Hm1 in Hr' as [? _]. }
    destruct (IH m1 merged1 Hmw1 Hnd) as (m' & merged' & -> & Hm' & Hw' & Hsub & Hat').
    + intros t' Ht'. destruct (bt_key_elem t' m) as [s' Hs']; [by apply Hk, list_elem_of_further|].
      apply (bt_elem_key t' s'), Hm1. split; [done|]. by intros ->.
    + intros t' Ht'. by apply Hin, list_elem_of_further.
    + done.
    + exists m', merged'. split_and!; [done|done|done| |].
      * intros r' s'. rewrite Hsub, Hm1, elem_of_cons. tauto.
      * intros a. rewrite Hat', Hat1, Hst. clear Hat' Hat1.
        destruct (decide (Exists (in_range a) targets)) as [He|He].
        -- rewrite decide_True by by apply Exists_cons_tl.
           apply list.Exists_exists in He as (t' & Ht' & Ha).
           destruct (bt_key_elem t' m) as [s' Hs']; [by apply Hk, list_elem_of_further|].
           rewrite (cell_at_slice m t' s'), (cell_at_slice m1 t' s'); try done.
           apply Hm1. split; [done|]. by intros ->.
        -- destruct (decide (in_range a t)) as [Hat|Hat].
           ++ rewrite decide_True by by apply Exists_cons_hd. symmetry.
              by apply (cell_at_slice m t s).
           ++ rewrite decide_False; [done|]. by intros [?|?]%Exists_cons.
Qed.

(** ** Widening the overlapped cells *)

Lemma widen_cells_spec (kind : CellKind) (idxs : list Z) :
  ∀ (merged : list Cell),
  NoDup idxs → (∀ i, i ∈ idxs → 0 <= i < Z.of_nat (length merged)) →
  match widen_cells kind idxs merged with
  | Panic => False
  | Ret None =>
      ∃ i c, i ∈ idxs ∧ merged !! Z.to_nat i = Some c ∧ cell_declare kind c = None
  | Ret (Some merged') =>
      length merged' = length merged ∧
      (∀ i c, i ∈ idxs → merged !! Z.to_nat i = Some c → is_Some (cell_declare kind c)) ∧
      ∀ i : nat, merged' !! i =
        if decide (Z.of_nat i ∈ idxs) then merged !! i ≫= cell_declare kind else merged !! i
  end.
Proof.
  induction idxs as [|j idxs IH]; intros merged Hnd Hb; cbn [widen_cells].
  - split_and!; [done|by intros ?? ?%not_elem_of_nil|]. intros i.
    by rewrite decide_False by apply not_elem_of_nil.
  - apply list.NoDup_cons in Hnd as [Hj Hnd].
    destruct (Hb j) as [Hj0 Hjl]; [apply list_elem_of_here|].
    destruct (lookup_lt_is_Some_2 merged (Z.to_nat j)) as [c Hc]; [lia|].
    rewrite (index_Ret merged j c) by done. cbn [mbind outcome_bind].
    assert (cell_declare kind c =
      if bool_decide (ck_ty (c_kind c) = ck_ty kind)
      then (λ a, mkCell (mkCellKind (ck_ty (c_kind c)) a) (c_value c)) <$>
           widen_access (ck_access (c_kind c)) (ck_access kind) else None) as Hd by done.
    destruct (bool_decide _) eqn:Hty; cbn [negb].
    2:{ exists j, c. split_and!; [apply list_elem_of_here|done|done]. }
    destruct (widen_access _ _) as [a|] eqn:Ha.
    2:{ exists j, c. split_and!; [apply list_elem_of_here|done|done]. }
    cbn [fmap option_fmap option_map] in Hd.
    set (c' := mkCell _ _) in *.
    specialize (IH (<[Z.to_nat j := c']> merged) Hnd).
    assert (∀ i, i ∈ idxs → <[Z.to_nat j := c']> merged !! Z.to_nat i = merged !! Z.to_nat i)
      as Hne.
    { intros i Hi. apply list_lookup_insert_ne. intros Heq. apply Hj.
      destruct (Hb i) as [? _]; [by apply list_elem_of_further|].
      by replace j with i by lia. }
    destruct (widen_cells kind idxs _) as [[merged'|]|].
    + destruct IH as (Hl & Hok & Hat).
      { intros i Hi. rewrite length_insert. by apply Hb, list_elem_of_further. }
      rewrite length_insert in Hl. split_and!; [done| |].
      * intros i c1 [->|Hi]%elem_of_cons Hc1; [|by apply (Hok i); [|rewrite Hne]].
        assert (c1 = c) as -> by congruence. by rewrite Hd.
      * intros i. rewrite Hat. destruct (decide (Z.of_nat i ∈ idxs)) as [Hi|Hi].
        -- rewrite (decide_True (P := _ ∈ j :: _)) by by apply list_elem_of_further.
           pose proof (Hne _ Hi) as He. rewrite Nat2Z.id in He. by rewrite He.
        -- destruct (decide (Z.of_nat i = j)) as [<-|Hij].
           ++ rewrite decide_True by apply list_elem_of_here. rewrite Nat2Z.id in *.
              rewrite list_lookup_insert_eq by lia. by rewrite Hc; simpl.
           ++ rewrite decide_False by by intros [?|?]%elem_of_cons.
              apply list_lookup_insert_ne. lia.
    + destruct IH as (i & c1 & Hi & Hc1 & Hn).
      { intros i Hi. rewrite length_insert. by apply Hb, list_elem_of_further. }
      exists i, c1. rewrite Hne in Hc1 by done.
      split_and!; [by apply list_elem_of_further|done|done].
    + apply IH. intros i Hi. rewrite length_insert. by apply Hb, list_elem_of_further.
Qed.

(** A cell at an address of the slice, through the buffer index. *)
Lemma Slice_at_index (U : Range) (merged : list Cell) (i : Z) :
  0 <= i < Range_length U →
  Slice_at (mkSlice U merged) (r_start U + i) = merged !! Z.to_nat i.
Proof.
  intros Hi. unfold Slice_at; simpl. rewrite decide_True by range_lia. f_equal. lia.
Qed.

(** Widening the cells of one intersection [rg], by address. *)
Lemma widen_range_spec (kind : CellKind) (U rg : Range) (merged : list Cell) :
  Slice_wf (mkSlice U merged) → Range_wf rg → r_start U <= r_start rg → r_end rg <= r_end U →
  match widen_cells kind
          (seqZ (r_start rg - r_start U)
             (r_end rg - r_start U - (r_start rg - r_start U))) merged with
  | Panic => False
  | Ret None => ∃ a c, in_range a rg ∧ Slice_at (mkSlice U merged) a = Some c ∧
      cell_declare kind c = None
  | Ret (Some merged') =>
      Slice_wf (mkSlice U merged') ∧
      (∀ a c, in_range a rg → Slice_at (mkSlice U merged) a = Some c →
         is_Some (cell_declare kind c)) ∧
      ∀ a, Slice_at (mkSlice U merged') a =
        if decide (in_range a rg)
        then Slice_at (mkSlice U merged) a ≫= cell_declare kind
        else Slice_at (mkSlice U merged) a
  end.
Proof.
  intros [HU Hl] Hrg H1 H2. simpl in HU, Hl.
  pose proof (widen_cells_spec kind
    (seqZ (r_start rg - r_start U) (r_end rg - r_start U - (r_start rg - r_start U)))
    merged (NoDup_seqZ _ _)) as Hw.
  destruct (widen_cells _ _ _) as [[merged'|]|].
  - destruct Hw as (Hl' & Hok & Hat).
    { intros i Hi%elem_of_seqZ. range_lia. }
    split_and!; [split; simpl; [done|by rewrite Hl']| |].
    + intros a c Ha Hc. apply (Hok (a - r_start U)); [apply elem_of_seqZ; range_lia|].
      unfold Slice_at in Hc; simpl in Hc. by case_decide.
    + intros a. unfold Slice_at; simpl.
      destruct (decide (in_range a U)); [|by case_decide; [range_lia|]].
      rewrite Hat.
      destruct (decide (in_range a rg)), (decide (_ ∈ seqZ _ _)) as [He|He]; try done.
      * destruct He. apply elem_of_seqZ. range_lia.
      * apply elem_of_seqZ in He. range_lia.
  - destruct Hw as (i & c & Hi & Hc & Hn).
    { intros i Hi%elem_of_seqZ. range_lia. }
    apply elem_of_seqZ in Hi. exists (r_start U + i), c. split_and!; [range_lia| |done].
    rewrite Slice_at_index; [done|range_lia].
  - apply Hw. intros i Hi%elem_of_seqZ. range_lia.
Qed.

Lemma widen_targets_spec (kind : CellKind) (U r : Range) (targets : list Range) :
  ∀ (merged : list Cell),
  Range_wf r → NoDup targets →
  (∀ t, t ∈ targets → Range_wf t ∧ r_start U <= r_start t ∧ r_end t <= r_end U) →
  (∀ t1 t2, t1 ∈ targets → t2 ∈ targets → t1 ≠ t2 → disjoint_ranges t1 t2) →
  Slice_wf (mkSlice U merged) →
  match widen_targets kind r (r_start U) targets merged with
  | Panic => False
  | Ret None => ∃ a c, in_range a r ∧ Exists (in_range a) targets ∧
      Slice_at (mkSlice U merged) a = Some c ∧ cell_declare kind c = None
  | Ret (Some merged') =>
      Slice_wf (mkSlice U merged') ∧
      (∀ a c, in_range a r → Exists (in_range a) targets →
         Slice_at (mkSlice U merged) a = Some c → is_Some (cell_declare kind c)) ∧
      ∀ a, Slice_at (mkSlice U merged') a =
        if decide (in_range a r ∧ Exists (in_range a) targets)
        then Slice_at (mkSlice U merged) a ≫= cell_declare kind
        else Slice_at (mkSlice U merged) a
  end.
Proof.
  induction targets as [|t targets IH]; intros merged Hr Hnd Hin Hdis Hw; cbn [widen_targets].
  - split_and!; [done|by intros ??? ?%Exists_nil|]. intros a.
    rewrite decide_False; [done|]. by intros [_ ?%Exists_nil].
  - apply list.NoDup_cons in Hnd as [Ht Hnd].
    destruct (Hin t) as (Htw & Ht1 & Ht2); [apply list_elem_of_here|].
    assert (∀ a, in_range a t → ¬ Exists (in_range a) targets) as Hone.
    { intros a Hat (t' & Ht' & Hat')%list.Exists_exists.
      apply (Hdis t t' (list_elem_of_here _ _) (list_elem_of_further _ _ _ Ht')) with a;
        [by intros ->|done]. }
    assert (∀ merged', Slice_wf (mkSlice U merged') → _) as IH' by exact (λ merged' Hw',
      IH merged' Hr Hnd (λ t' Ht', Hin t' (list_elem_of_further _ _ _ Ht'))
        (λ t1 t2 H1 H2, Hdis t1 t2 (list_elem_of_further _ _ _ H1)
           (list_elem_of_further _ _ _ H2)) Hw').
    clear IH. pose proof (Range_intersect_addresses r t) as Hia.
    destruct (Range_intersect r t) as [rg|] eqn:Erg.
    + pose proof (widen_range_spec kind U rg merged Hw) as Hrg.
      pose proof (Range_intersect_Some _ _ _ Erg) as (Hs & He & _).
      destruct (widen_cells _ _ merged) as [[merged1|]|]; cbn [mbind outcome_bind].
      * destruct Hrg as (Hw1 & Hok1 & Hat1); [by eauto using Range_intersect_wf|lia|lia|].
        specialize (IH' merged1 Hw1).
        destruct (widen_targets _ _ _ _ merged1) as [[merged'|]|]; [| |done].
        -- destruct IH' as (Hw' & Hok' & Hat'). split_and!; [done| |].
           ++ intros a c Ha [Hat|Hex]%Exists_cons Hc;
                [apply (Hok1 a); [by apply Hia|done]|].
              apply (Hok' a); [done|done|]. rewrite Hat1, decide_False; [done|].
              intros [_ Hat]%Hia. by apply (Hone a).
           ++ intros a. rewrite Hat', Hat1. clear Hat' Hat1.
              pose proof (Exists_cons (in_range a) t targets) as Hcons.
              specialize (Hia a). specialize (Hone a).
              destruct (decide (in_range a rg)), (decide (in_range a r ∧ Exists _ targets)),
                (decide (in_range a r ∧ Exists _ (t :: targets))); try done; tauto.
        -- destruct IH' as (a & c & Ha & Hex & Hc & Hn). exists a, c.
           split_and!; [done|by apply Exists_cons_tl| |done].
           rewrite <- Hc, Hat1, decide_False; [done|]. intros [_ Hat]%Hia. by apply (Hone a).
      * destruct Hrg as (a & c & Ha & Hc & Hn); [by eauto using Range_intersect_wf|lia|lia|].
        apply Hia in Ha as [Ha Hat]. exists a, c.
        split_and!; [done|by apply Exists_cons_hd|done|done].
      * apply Hrg; [by eauto using Range_intersect_wf|lia|lia].
    + specialize (IH' merged Hw). destruct (widen_targets _ _ _ _ merged) as [[merged'|]|]; [| |done].
      * destruct IH' as (Hw' & Hok' & Hat'). split_and!; [done| |].
        -- intros a c Ha [Hat|Hex]%Exists_cons Hc; [by destruct (proj1 (Hia a) (conj Ha Hat))|].
           by apply (Hok' a).
        -- intros a. rewrite Hat'. pose proof (Exists_cons (in_range a) t targets) as Hcons.
           specialize (Hia a).
           destruct (decide (in_range a r ∧ Exists _ targets)),
             (decide (in_range a r ∧ Exists _ (t :: targets))); try done; tauto.
      * destruct IH' as (a & c & Ha & Hex & Hc & Hn). exists a, c.
        split_and!; [done|by apply Exists_cons_tl|done|done].
Qed.

(** ** The targets of a declaration *)

Lemma bt_keys_NoDup (m : SliceMap) : bt_sorted m → NoDup (bt_keys m).
Proof.
  unfold bt_sorted. induction 1 as [|k l Hs IH Hall]; constructor; [|done].
  intros Hin. rewrite list.Forall_forall in Hall. by apply Hall, key_lt_irrefl in Hin.
Qed.

Lemma StronglySorted_head {A} (R : A → A → Prop) (l : list A) (x y : A) :
  StronglySorted R l → head l = Some x → y ∈ l → y = x ∨ R x y.
Proof.
  intros Hs. destruct Hs as [|x' l Hs Hall]; [done|]. simpl.
  intros [= ->] [->|Hin]%elem_of_cons; [by left|right].
  rewrite list.Forall_forall in Hall. by apply Hall.
Qed.

Lemma StronglySorted_last {A} (R : A → A → Prop) (l : list A) (x y : A) :
  StronglySorted R l → list.last l = Some x → y ∈ l → y = x ∨ R y x.
Proof.
  induction 1 as [|x' l Hs IH Hall]; [done|].
  destruct l as [|x2 l]; [intros [= ->] ->%list_elem_of_singleton; by left|].
  change (list.last (x' :: x2 :: l)) with (list.last (x2 :: l)). intros Hl.
  intros [->|Hin]%elem_of_cons; [right|by auto].
  rewrite list.Forall_forall in Hall. apply Hall. by apply last_Some_elem_of.
Qed.

Lemma StronglySorted_filter {A} (R : A → A → Prop) (P : A → Prop) `{∀ x, Decision (P x)}
    (l : list A) : StronglySorted R l → StronglySorted R (filter P l).
Proof.
  induction 1 as [|x l Hs IH Hall]; [constructor|]. rewrite filter_cons.
  case_decide; [|done]. constructor; [done|]. rewrite list.Forall_forall in *.
  intros y [_ Hy]%list_elem_of_filter. by apply Hall.
Qed.

Definition targets_of (m : SliceMap) (r : Range) : list Range :=
  filter (λ range, is_Some (Range_intersect r range)) (bt_keys m).

Lemma elem_of_targets (m : SliceMap) (r t : Range) :
  t ∈ targets_of m r ↔ t ∈ bt_keys m ∧ ∃ x, in_range x r ∧ in_range x t.
Proof. unfold targets_of. rewrite list_elem_of_filter, Range_intersect_is_Some. tauto. Qed.

(** The union range holds the targets, the declared range, and nothing else. *)
Lemma targets_hull (m : SliceMap) (r first last_ : Range) :
  map_wf m → head (targets_of m r) = Some first →
  list.last (targets_of m r) = Some last_ →
  let U := mkRange (Z.min (r_start r) (r_start first)) (Z.max (r_end r) (r_end last_)) in
  (∀ t, t ∈ targets_of m r → r_start U <= r_start t ∧ r_end t <= r_end U) ∧
  (∀ a, in_range a U ↔ in_range a r ∨ Exists (in_range a) (targets_of m r)).
Proof.
  intros Hm Hf Hl U.
  assert (StronglySorted Range_lt (targets_of m r)) as Hs
    by (apply StronglySorted_filter, Hm).
  assert (∀ t, t ∈ targets_of m r → r_start U <= r_start t ∧ r_end t <= r_end U) as Hin.
  { intros t Ht.
    pose proof (StronglySorted_head _ _ _ _ Hs Hf Ht) as H1.
    pose proof (StronglySorted_last _ _ _ _ Hs Hl Ht) as H2. split.
    - unfold U; simpl. destruct H1 as [->|H1]; [lia|]. unfold Range_lt in H1. lia.
    - unfold U; simpl. destruct H2 as [->|H2]; [lia|].
      pose proof (last_Some_elem_of _ _ Hl) as Hle.
      apply elem_of_targets in Hle as [Hkl (x & Hxr & Hxl)].
      apply elem_of_targets in Ht as [Hkt (y & Hyr & Hyt)].
      apply bt_key_elem in Hkl as [sl Hsl]. apply bt_key_elem in Hkt as [st Hst].
      destruct Hm as (_ & _ & Hd). specialize (Hd _ _ _ _ Hst Hsl).
      destruct (decide (r_end t <= r_start last_)) as [|Hgt]; [unfold in_range in *; lia|].
      destruct Hd with (r_start last_); [|unfold Range_lt, in_range in *; lia].
      intros ->. unfold Range_lt in H2. lia. }
  split; [done|]. intros a. split.
  - intros Ha. destruct (decide (in_range a r)) as [|Har]; [by left|right].
    apply list.Exists_exists. destruct (decide (a < r_start r)).
    + exists first. pose proof (head_Some_elem_of _ _ Hf) as He. split; [done|].
      apply elem_of_targets in He as [_ (x & Hxr & Hx)]. unfold U, in_range in *; simpl in *. lia.
    + exists last_. pose proof (last_Some_elem_of _ _ Hl) as He. split; [done|].
      apply elem_of_targets in He as [_ (x & Hxr & Hx)]. unfold U, in_range in *; simpl in *. lia.
  - intros [Ha|(t & Ht & Ha)%list.Exists_exists].
    + unfold U, in_range in *; simpl. lia.
    + apply Hin in Ht. unfold in_range in *. lia.
Qed.

(** No cell is declared outside every key. *)
Lemma cell_at_targets (m : SliceMap) (r : Range) (a : Z) :
  map_wf m → in_range a r → ¬ Exists (in_range a) (targets_of m r) → cell_at m a = None.
Proof.
  intros Hm Ha Hno. apply cell_at_None; [done|]. intros t s Hin Hat. apply Hno.
  apply list.Exists_exists. exists t. split; [|done]. apply elem_of_targets.
  split; [by eapply bt_elem_key|]. by exists a.
Qed.

Lemma dev_declare_Some (kind : CellKind) (d : Device) (r : Range) :
  (∀ a c, in_range a r → d a = Some c → is_Some (cell_declare kind c)) →
  dev_declare kind d r = Some (λ a,
    if decide (in_range a r)
    then match d a with Some c => cell_declare kind c | None => Some (Cell_zeroed kind) end
    else d a).
Proof.
  intros Hok. unfold dev_declare.
  assert (forallb (λ a, match d a with
                   | Some c => bool_decide (is_Some (cell_declare kind c))
                   | None => true
                   end) (addresses r) = true) as ->; [|done].
  apply forallb_forall. intros a Ha%list_elem_of_In%elem_of_addresses.
  destruct (d a) as [c|] eqn:Hd; [|done]. apply bool_decide_eq_true. by apply (Hok a).
Qed.

Lemma dev_declare_None (kind : CellKind) (d : Device) (r : Range) (a : Z) (c : Cell) :
  in_range a r → d a = Some c → cell_declare kind c = None → dev_declare kind d r = None.
Proof.
  intros Ha Hd Hn. unfold dev_declare.
  destruct (forallb _ _) eqn:E; [exfalso|done]. rewrite forallb_forall in E.
  specialize (E a). rewrite <- list_elem_of_In, elem_of_addresses, Hd in E.
  specialize (E Ha). apply bool_decide_eq_true in E. rewrite Hn in E. by destruct E.
Qed.

(** ** One declared range *)

(** The slice-map result [res] is the device result [d]. *)
Definition declared (res : option SliceMap) (d : option Device) : Prop :=
  match res, d with
  | Some m, Some d => map_wf m ∧ m ≠ [] ∧ ∀ a, cell_at m a = d a
  | None, None => True
  | _, _ => False
  end.

Lemma add_range_fresh (kind : CellKind) (m : SliceMap) (r : Range) :
  map_wf m → Range_wf r → (∀ t, t ∉ targets_of m r) →
  declared (Some (bt_insert r (Slice_zeroed kind r) m)) (dev_declare kind (cell_at m) r).
Proof.
  intros Hm Hr Hno.
  assert (∀ a, in_range a r → cell_at m a = None) as Hnone.
  { intros a Ha. apply (cell_at_targets m r); [done|done|].
    intros (t & Ht & _)%list.Exists_exists. by apply (Hno t). }
  rewrite dev_declare_Some by (intros a c Ha Hc; rewrite Hnone in Hc by done; done).
  assert (∀ r' s', (r', s') ∈ m → r' ≠ r → disjoint_ranges r r') as Hdis.
  { intros r' s' Hin _ x [Hx1 Hx2]. apply (Hno r'), elem_of_targets.
    split; [by eapply bt_elem_key|]. by exists x. }
  pose proof (Slice_wf_zeroed kind r Hr) as Hw. simpl. split_and!.
  - by apply (map_wf_insert m (Slice_zeroed kind r)).
  - apply bt_insert_nonempty.
  - intros a. rewrite (cell_at_insert m (Slice_zeroed kind r)) by done. simpl.
    case_decide as Ha; [|done]. rewrite Slice_at_zeroed, decide_True by done.
    by rewrite Hnone.
Qed.

Lemma add_range_merge (kind : CellKind) (m m1 : SliceMap) (r U : Range) (merged1 : list Cell) :
  map_wf m → map_wf m1 → Range_wf r → Range_wf U →
  (∀ a, in_range a U ↔ in_range a r ∨ Exists (in_range a) (targets_of m r)) →
  (∀ r' s', (r', s') ∈ m1 ↔ (r', s') ∈ m ∧ r' ∉ targets_of m r) →
  Slice_wf (mkSlice U merged1) →
  (∀ a, in_range a U → Slice_at (mkSlice U merged1) a =
     if decide (in_range a r)
     then match cell_at m a with Some c => cell_declare kind c | None => Some (Cell_zeroed kind) end
     else cell_at m a) →
  (∀ a c, in_range a r → cell_at m a = Some c → is_Some (cell_declare kind c)) →
  declared (Some (bt_insert U (mkSlice U merged1) m1)) (dev_declare kind (cell_at m) r).
Proof.
  intros Hm Hm1 Hr HU Hhull Hsub Hw Hat Hok. rewrite dev_declare_Some by done.
  assert (∀ r' s', (r', s') ∈ m1 → r' ≠ U → disjoint_ranges U r') as Hdis.
  { intros r' s' [Hin Hnt]%Hsub _ x [[Hxr|(t & Ht & Hxt)%list.Exists_exists]%Hhull Hx2].
    - apply Hnt, elem_of_targets. split; [by eapply bt_elem_key|by exists x].
    - pose proof Ht as [[st Hst]%bt_key_elem _]%elem_of_targets.
      destruct Hm as (_ & _ & Hd). apply (Hd _ _ _ _ Hst Hin) with x; [|done].
      by intros ->. }
  simpl. split_and!.
  - by apply (map_wf_insert m1 (mkSlice U merged1)).
  - apply bt_insert_nonempty.
  - intros a. rewrite (cell_at_insert m1 (mkSlice U merged1)) by done. simpl.
    destruct (decide (in_range a U)) as [Ha|Ha]; [by apply Hat|].
    rewrite Hhull in Ha. rewrite decide_False by tauto.
    apply (cell_at_sub m m1 (targets_of m r)); [done..|tauto].
Qed.

Lemma targets_wf (m : SliceMap) (r t : Range) :
  map_wf m → t ∈ targets_of m r → Range_wf t.
Proof.
  intros (_ & Hel & _) [[s Hs]%bt_key_elem _]%elem_of_targets.
  by destruct (Hel t s Hs) as [<- [? _]].
Qed.

Lemma targets_disjoint (m : SliceMap) (r t1 t2 : Range) :
  map_wf m → t1 ∈ targets_of m r → t2 ∈ targets_of m r → t1 ≠ t2 → disjoint_ranges t1 t2.
Proof.
  intros (_ & _ & Hd) [[s1 H1]%bt_key_elem _]%elem_of_targets
    [[s2 H2]%bt_key_elem _]%elem_of_targets. by eapply Hd.
Qed.

Lemma targets_covered (m : SliceMap) (r : Range) (a : Z) :
  map_wf m → Exists (in_range a) (targets_of m r) → is_Some (cell_at m a).
Proof.
  intros Hm (t & [[s Hs]%bt_key_elem _]%elem_of_targets & Hta)%list.Exists_exists.
  rewrite (cell_at_slice m t s) by done.
  destruct (proj1 (proj2 Hm) t s Hs) as [<- Hsw]. by apply Slice_at_Some.
Qed.

(** The cell of the merged buffer at an address of the union. *)
Lemma merged_cell (kind : CellKind) (m : SliceMap) (r U : Range) (a : Z) :
  map_wf m → in_range a U →
  in_range a r ∨ Exists (in_range a) (targets_of m r) →
  let absorbed :=
    if decide (Exists (in_range a) (targets_of m r)) then cell_at m a
    else Slice_at (Slice_zeroed kind U) a in
  (if decide (in_range a r ∧ Exists (in_range a) (targets_of m r))
   then absorbed ≫= cell_declare kind else absorbed) =
  if decide (in_range a r)
  then match cell_at m a with Some c => cell_declare kind c | None => Some (Cell_zeroed kind) end
  else cell_at m a.
Proof.
  intros Hm HaU Hor absorbed. unfold absorbed.
  destruct (decide (in_range a r)) as [Har|Har],
    (decide (Exists (in_range a) (targets_of m r))) as [He|He].
  - rewrite decide_True by done. by destruct (targets_covered m r a Hm He) as [c ->].
  - rewrite decide_False by tauto. rewrite (cell_at_targets m r) by done.
    by rewrite Slice_at_zeroed, decide_True.
  - by rewrite decide_False by tauto.
  - tauto.
Qed.

Lemma add_range_refines (kind : CellKind) (m : SliceMap) (r : Range) :
  map_wf m → Range_wf r →
  ∃ res, add_range kind m r = Ret res ∧ declared res (dev_declare kind (cell_at m) r).
Proof.
  intros Hm Hr. unfold add_range. fold (targets_of m r).
  destruct (head (targets_of m r)) as [first|] eqn:Hf.
  2:{ rewrite Slice_from_range_Ret by done. eexists. split; [done|]. apply add_range_fresh; [done|done|].
      intros t Ht. destruct (targets_of m r); [by apply not_elem_of_nil in Ht|done]. }
  destruct (list.last (targets_of m r)) as [last_|] eqn:Hl.
  2:{ apply last_None in Hl. by rewrite Hl in Hf. }
  destruct (targets_hull m r first last_ Hm Hf Hl) as [Hin Hhull].
  set (U := mkRange _ _) in *.
  assert (Range_wf U) as HU.
  { pose proof (targets_wf m r first Hm (head_Some_elem_of _ _ Hf)).
    pose proof (targets_wf m r last_ Hm (last_Some_elem_of _ _ Hl)).
    unfold U, Range_wf in *; simpl. lia. }
  assert (NoDup (targets_of m r)) as Hnd by apply list.NoDup_filter, bt_keys_NoDup, Hm.
  change (Z.min (r_start r) (r_start first)) with (r_start U).
  change (Z.max (r_end r) (r_end last_)) with (r_end U).
  rewrite Range_new_to by (unfold Range_wf in HU; lia). cbn [mbind outcome_bind].
  replace (mkRange (r_start U) (r_end U)) with U by done.
  rewrite Slice_from_range_Ret by done. cbn [mbind outcome_bind].
  destruct (absorb_targets_spec (targets_of m r) U m (s_buffer (Slice_zeroed kind U)))
    as (m1 & merged & -> & Hm1 & Hw & Hsub & Hat); [done|done| |done| |].
  { by intros t [? _]%elem_of_targets. }
  { by apply Slice_wf_zeroed. }
  cbn [mbind outcome_bind].
  pose proof (widen_targets_spec kind U r (targets_of m r) merged Hr Hnd
    (λ t Ht, conj (targets_wf m r t Hm Ht) (Hin t Ht))
    (λ t1 t2, targets_disjoint m r t1 t2 Hm) Hw) as Hwd.
  destruct (widen_targets kind r (r_start U) (targets_of m r) merged) as [[merged1|]|]; [| |done].
  - destruct Hwd as (Hw1 & Hok & Hat1). eexists. split; [done|].
    apply (add_range_merge kind m m1 r U merged1); try done.
    + intros a Ha. rewrite Hat1, Hat. by apply merged_cell; [..|apply Hhull].
    + intros a c Ha Hc.
      destruct (decide (Exists (in_range a) (targets_of m r))) as [He|He];
        [|rewrite (cell_at_targets m r) in Hc by done; done].
      apply (Hok a); [done|done|]. by rewrite Hat, decide_True.
  - destruct Hwd as (a & c & Ha & He & Hc & Hn). eexists. split; [done|].
    rewrite (dev_declare_None kind _ r a c); [done|done| |done].
    by rewrite Hat, decide_True in Hc.
Qed.

(** ** The loop over the declared ranges *)

Lemma add_range_loop_refines (kind : CellKind) (rs : list Range) :
  ∀ (m : SliceMap) (d : Device),
  map_wf m → Forall Range_wf rs → cell_at m ≡ d →
  ∃ res, add_range_loop kind m rs = Ret res ∧
    match res, dev_declare_all kind d rs with
    | Some m', Some d' =>
        map_wf m' ∧ (m ≠ [] ∨ rs ≠ [] → m' ≠ []) ∧ cell_at m' ≡ d'
    | None, None => True
    | _, _ => False
    end.
Proof.
  induction rs as [|r rs IH]; intros m d Hm Hrs Hd.
  - eexists. split; [done|]. simpl. split_and!; [done|by intros [?|?]|done].
  - apply Forall_cons_1 in Hrs as [Hr Hrs]. cbn [add_range_loop dev_declare_all].
    destruct (add_range_refines kind m r Hm Hr) as (res & -> & Hres).
    cbn [mbind outcome_bind].
    destruct (dev_declare_proper kind _ _ Hd r r eq_refl) as [d1 d1' Hd1|], res as [m1|];
      simpl in Hres; try done.
    + destruct Hres as (Hm1 & Hne & Hat).
      destruct (IH m1 d1' Hm1 Hrs) as (res & -> & Hok); [intros a; by rewrite Hat|].
      eexists. split; [done|]. simpl.
      destruct res as [m'|], (dev_declare_all kind d1' rs) as [d'|]; try done.
      destruct Hok as (Hm' & Hne' & Hd'). split_and!; auto.
    + by eexists.
Qed.

Lemma sorted_by_start_perm (rs : list Range) : sorted_by_start rs ≡ₚ rs.
Proof.
  assert (∀ r l, insert_by_start r l ≡ₚ r :: l) as Hins.
  { intros r l. induction l as [|r' l IH]; simpl; [done|]. zcase; [done|].
    rewrite IH. apply Permutation_swap. }
  unfold sorted_by_start. induction rs as [|r rs IH]; simpl; [done|]. by rewrite Hins, IH.
Qed.
