(* ===== verification/StoreRefine.v ===== *)
(** * The store implements its contract

    [Memory.v] refines [Store.v]: on a well-formed memory every operation
    returns, answers what the abstract store answers and leaves a well-formed
    memory whose cells are the abstract result's. *)

From stdpp Require Import base sorting list gmap numbers.
From S2P Require Import Prelude BTree Slice Memory MemorySpec Store StoreDeclare.

Local Open Scope Z_scope.

(** ** Devices *)

Lemma dev_all_true (p : Cell → bool) (d : Device) (r : Range) :
  dev_all p d r = true ↔ ∀ a, in_range a r → ∃ c, d a = Some c ∧ p c = true.
Proof.
  unfold dev_all. rewrite forallb_forall. split; intros Hall a Ha.
  - specialize (Hall a). rewrite <- list_elem_of_In, elem_of_addresses in Hall.
    specialize (Hall Ha). destruct (d a) as [c|]; [by eauto|done].
  - apply list_elem_of_In, elem_of_addresses, Hall in Ha as (c & -> & Hc). done.
Qed.

Lemma dev_words_cells (m : SliceMap) (r : Range) :
  dev_words (cell_at m) r = (λ cs : list Cell, c_value <$> cs) <$> cells m r.
Proof.
  unfold dev_words, cells. induction (addresses r) as [|a l IH]; simpl; [done|].
  destruct (cell_at m a) as [c|]; simpl; [|done]. rewrite IH.
  by destruct (mapM (cell_at m) l).
Qed.

Lemma walk_dev_all {A} (f : A → Slice → Range → Outcome (bool * A)) (p : Cell → bool)
    (m : SliceMap) (r : Range) (acc : A) :
  (∀ sl seg, Slice_wf sl → Range_wf seg → Slice_contains sl seg = true →
     f acc sl seg = Ret (forallb p (Slice_cells_in sl seg), acc)) →
  map_wf m → Range_wf r →
  walk_slices f m r acc = Ret (dev_all p (cell_at m) r, acc).
Proof.
  intros Hf Hm Hr. destruct r as [s e].
  destruct (walk_slices_test f p m s e acc Hf Hm) as (b & -> & Hb); [range_lia..|].
  do 2 f_equal. apply eq_true_iff_eq. by rewrite Hb, dev_all_true.
Qed.

Lemma dev_store_ext (d d' : Device) (r : Range) (vs : list Z) (a : Z) :
  d a = d' a → dev_store d r vs a = dev_store d' r vs a.
Proof. unfold dev_store. by intros ->. Qed.

(** The declared prefix: what its length means. *)
Lemma declared_count_spec (d : Device) (s e : Z) :
  s <= e →
  let n := declared_count d (addresses (mkRange s e)) in
  0 <= n <= e - s ∧
  ∀ a, in_range a (mkRange s e) →
    (a < s + n ↔ ∀ b, in_range b (mkRange s (a + 1)) → is_Some (d b)).
Proof.
  intros Hs. simpl. remember (Z.to_nat (e - s)) as k eqn:Hk. revert s Hs Hk.
  induction k as [|k IH]; intros s Hs Hk.
  - assert (s = e) as -> by lia. unfold addresses, Range_length; simpl.
    rewrite Z.sub_diag; simpl. split; [lia|]. intros a Ha. range_lia.
  - rewrite addresses_cons by lia. cbn [declared_count].
    destruct (IH (s + 1)) as [Hn Hiff]; [lia|lia|].
    destruct (d s) as [c|] eqn:Hd.
    + split; [lia|]. intros a Ha. destruct (decide (a = s)) as [->|Hne].
      * split; [|lia]. intros _ b Hb. assert (b = s) as -> by range_lia. by rewrite Hd.
      * specialize (Hiff a ltac:(range_lia)).
        replace (s + (1 + declared_count d (addresses (mkRange (s + 1) e))))
          with (s + 1 + declared_count d (addresses (mkRange (s + 1) e))) by lia.
        rewrite Hiff. split; intros Hall b Hb; [|apply Hall; range_lia].
        destruct (decide (b = s)) as [->|]; [by rewrite Hd|]. apply Hall. range_lia.
    + split; [lia|]. intros a Ha. split; [range_lia|]. intros Hall.
      destruct (Hall s) as [? ?]; [range_lia|congruence].
Qed.

(** The cells a write walk leaves are those of the abstract prefix write. *)
Lemma written_prefix_store (m m' : SliceMap) (r : Range) (vs : list Z) (a : Z) :
  Range_wf r → Range_length r = Z.of_nat (length vs) →
  written_prefix Cell_set_value m m' (r_start r) (r_end r) vs 0 →
  cell_at m' a = dev_store (cell_at m) (dev_prefix (cell_at m) r) vs a.
Proof.
  destruct r as [s e]. simpl. intros Hr Hl Hpre.
  destruct (declared_count_spec (cell_at m) s e) as [Hn Hiff]; [range_lia|].
  destruct (Hpre a) as [H1 H2]. unfold dev_store, dev_prefix; simpl.
  set (n := declared_count (cell_at m) (addresses (mkRange s e))) in *.
  destruct (decide (in_range a (mkRange s (s + n)))) as [Hin|Hout].
  - apply H1. split; [range_lia|]. refine (proj1 (Hiff a _) _); range_lia.
  - apply H2. intros [Ha Hc]. apply (proj2 (Hiff a Ha)) in Hc. range_lia.
Qed.

(** A covered range is its own prefix. *)
Lemma dev_prefix_covered (d : Device) (r : Range) :
  Range_wf r → (∀ a, in_range a r → is_Some (d a)) → dev_prefix d r = r.
Proof.
  destruct r as [s e]. intros Hr Hall. unfold dev_prefix; simpl.
  destruct (declared_count_spec d s e) as [Hn Hiff]; [range_lia|].
  f_equal. destruct (decide (s < e)); [|range_lia].
  assert (e - 1 < s + declared_count d (addresses (mkRange s e))); [|lia].
  apply (Hiff (e - 1)); [range_lia|]. intros b Hb. apply Hall. range_lia.
Qed.

(** ** Segment closures *)

Lemma Slice_write_segment (sl : Slice) (seg : Range) (vs : list Z) :
  Slice_contains sl seg = true → Range_length seg = Z.of_nat (length vs) →
  Slice_write sl seg vs = (true, Slice_cells_in_mut sl seg Cell_try_set_value vs).
Proof.
  intros Hc Hl. unfold Slice_write. by rewrite Hc, (proj2 (Z.eqb_eq _ _) Hl).
Qed.

Lemma Slice_write_unchecked_segment (sl : Slice) (seg : Range) (vs : list Z) :
  Slice_contains sl seg = true → Range_length seg = Z.of_nat (length vs) →
  Slice_write_unchecked sl seg vs = (true, Slice_cells_in_mut sl seg Cell_set_value vs).
Proof.
  intros Hc Hl. unfold Slice_write_unchecked. by rewrite Hc, (proj2 (Z.eqb_eq _ _) Hl).
Qed.

Lemma Slice_read_segment (ty : CellType) (acc : list Z) (sl : Slice) (seg : Range) :
  Slice_wf sl → Range_wf seg → Slice_contains sl seg = true →
  (∀ a c, in_range a seg → Slice_at sl a = Some c → Cell_accepts_read c ty = true) →
  read_segment Slice_read acc sl seg =
  Ret (true, acc ++ (c_value <$> Slice_cells_in sl seg)).
Proof.
  intros Hs Hr Hc Hq. unfold read_segment, Slice_read. rewrite Hc. cbn [negb].
  rewrite (mapM_Some_2 _ _ (c_value <$> Slice_cells_in sl seg)); [done|].
  apply Forall2_fmap_r, Forall_Forall2_diag, list.Forall_forall. intros c Hin.
  apply list_elem_of_lookup in Hin as [i Hi].
  rewrite Slice_cells_in_lookup in Hi by done. case_decide as Hd; [|done].
  apply (accepts_read_value _ ty), (Hq (r_start seg + Z.of_nat i)); [range_lia|done].
Qed.

Lemma Slice_read_unchecked_segment (acc : list Z) (sl : Slice) (seg : Range) :
  Slice_contains sl seg = true →
  read_segment Slice_read_unchecked acc sl seg =
  Ret (true, acc ++ (c_value <$> Slice_cells_in sl seg)).
Proof. intros Hc. unfold read_segment, Slice_read_unchecked. by rewrite Hc. Qed.

Lemma written_prefix_try (ty : CellType) (m m' : SliceMap) (s e : Z) (vs : list Z) (idx : Z) :
  (∀ a, in_range a (mkRange s e) →
     ∃ c, cell_at m a = Some c ∧ Cell_accepts_write c ty = true) →
  written_prefix Cell_try_set_value m m' s e vs idx →
  written_prefix Cell_set_value m m' s e vs idx.
Proof.
  intros Hall Hpre a. destruct (Hpre a) as [H1 H2]. split; [|done].
  intros Hin. rewrite H1 by done. destruct (Hall a (proj1 Hin)) as (c & -> & Hc). simpl.
  destruct (vs !! _) as [v|]; simpl; [|done]. by rewrite (accepts_write_set c ty).
Qed.

(** ** The memory *)

Section refine.
Context {K : Type} `{Countable K} {Tap : Type}.
Implicit Types (mem : Memory K Tap) (id : K) (ty : CellType) (r : Range) (vs : list Z).

Definition Memory_wf mem : Prop := ∀ id m, m_slices mem !! id = Some m → map_wf m ∧ m ≠ [].

(** The abstract store of a memory. *)
Definition Memory_abs mem : Store K := λ id, cell_at <$> m_slices mem !! id.

Lemma Memory_wf_default : Memory_wf Memory_default.
Proof. intros id m. simpl. by rewrite lookup_empty. Qed.

Lemma Memory_wf_set_slices mem id m :
  Memory_wf mem → map_wf m → m ≠ [] → Memory_wf (set_slices mem id m).
Proof.
  intros Hwf Hm Hne id' m'. unfold set_slices; simpl. rewrite lookup_insert_Some.
  intros [[-> ->]|[_ Hl]]; [done|by apply (Hwf id')].
Qed.

Lemma Memory_abs_set_slices mem id m d :
  cell_at m ≡ d →
  Memory_abs (set_slices mem id m) ≡ store_set (Memory_abs mem) id d.
Proof.
  intros Heq id'. unfold Memory_abs, store_set, set_slices; simpl.
  destruct (decide (id' = id)) as [->|Hne].
  - rewrite lookup_insert_eq; simpl. by constructor.
  - by rewrite lookup_insert_ne by done.
Qed.

Lemma Memory_readable_refines mem id ty r :
  Memory_wf mem → Range_wf r →
  Memory_readable mem id ty r =
  Ret (match Memory_abs mem id with
       | None => Err UnknownKey
       | Some d => if dev_all (λ c, Cell_accepts_read c ty) d r then Ok tt
                   else Err AddressNotReadable
       end).
Proof.
  intros Hwf Hr. unfold Memory_readable, Memory_abs.
  destruct (m_slices mem !! id) as [m|] eqn:Hm; simpl; [|done].
  apply Hwf in Hm as [Hm _].
  rewrite (walk_dev_all _ (λ c, Cell_accepts_read c ty)); [|..|done|done].
  - simpl. by destruct (dev_all _ _ _).
  - intros sl seg Hs Hseg Hc. unfold Slice_readable. by rewrite Hc.
Qed.

Lemma Memory_writable_refines mem id ty r :
  Memory_wf mem → Range_wf r →
  Memory_writable mem id ty r =
  Ret (match Memory_abs mem id with
       | None => Err UnknownKey
       | Some d => if dev_all (λ c, Cell_accepts_write c ty) d r then Ok tt
                   else Err AddressNotWritable
       end).
Proof.
  intros Hwf Hr. unfold Memory_writable, Memory_abs.
  destruct (m_slices mem !! id) as [m|] eqn:Hm; simpl; [|done].
  apply Hwf in Hm as [Hm _].
  rewrite (walk_dev_all _ (λ c, Cell_accepts_write c ty)); [|..|done|done].
  - simpl. by destruct (dev_all _ _ _).
  - intros sl seg Hs Hseg Hc. unfold Slice_writable. by rewrite Hc.
Qed.

Lemma Memory_read_refines mem id ty r :
  Memory_wf mem → Range_wf r →
  Memory_read mem id ty r = Ret (store_read (Memory_abs mem) id ty r).
Proof.
  intros Hwf Hr. unfold Memory_read, store_read.
  rewrite Memory_readable_refines by done. unfold Memory_abs.
  destruct (m_slices mem !! id) as [m|] eqn:Hm; simpl; [|done].
  destruct (dev_all _ (cell_at m) r) eqn:Hall; simpl; [|done].
  apply Hwf in Hm as [Hm _]. pose proof (proj1 (dev_all_true _ _ _) Hall) as Hp.
  rewrite (vec_alloc_Ret WORD_SIZE) by (unfold WORD_SIZE; range_lia). cbn [mbind outcome_bind]. destruct r as [s e].
  destruct (walk_slices_collect (read_segment Slice_read) c_value
    (λ c, Cell_accepts_read c ty = true) m s e []) as (out & Heq & Hout);
    [|done|range_lia|range_lia| |].
  - intros acc' sl seg. by apply Slice_read_segment.
  - intros a c Ha Hc. destruct (Hp a Ha) as (c' & Hc' & Ht). congruence.
  - destruct (proj2 (cells_covered m (mkRange s e))) as [cs Hcs].
    { intros a Ha. destruct (Hp a Ha) as (c & -> & _). done. }
    rewrite Heq. simpl. rewrite dev_words_cells, Hcs. simpl.
    by rewrite (Hout cs).
Qed.

Lemma Memory_read_unchecked_refines mem id r :
  Memory_wf mem → Range_wf r →
  Memory_read_unchecked mem id r = Ret (store_read_unchecked (Memory_abs mem) id r).
Proof.
  intros Hwf Hr. unfold Memory_read_unchecked, store_read_unchecked, Memory_abs.
  destruct (m_slices mem !! id) as [m|] eqn:Hm; simpl; [|done].
  rewrite (vec_alloc_Ret WORD_SIZE) by (unfold WORD_SIZE; range_lia). cbn [mbind outcome_bind].
  apply Hwf in Hm as [Hm _]. destruct r as [s e].
  destruct (walk_slices_collect (read_segment Slice_read_unchecked) c_value
    (λ _, True) m s e []) as (out & Heq & Hout); [|done|range_lia|range_lia|done|].
  - intros acc' sl seg _ _ Hc _. by apply Slice_read_unchecked_segment.
  - rewrite Heq. cbn [mbind outcome_bind]. rewrite dev_words_cells.
    destruct (cells m (mkRange s e)) as [cs|]; simpl; [|done].
    by rewrite (Hout cs).
Qed.

(** What it means for a memory after an operation to be the abstract result. *)
Definition refines mem mem' (st : Store K) : Prop :=
  Memory_wf mem' ∧ m_tap mem' = m_tap mem ∧ Memory_abs mem' ≡ st.

Lemma refines_refl mem : Memory_wf mem → refines mem mem (Memory_abs mem).
Proof. by intros Hwf. Qed.

Lemma refines_set_slices mem id m m' d :
  Memory_wf mem → m_slices mem !! id = Some m → map_wf m' → bt_keys m' = bt_keys m →
  cell_at m' ≡ d →
  refines mem (set_slices mem id m') (store_set (Memory_abs mem) id d).
Proof.
  intros Hwf Hm Hm' Hk Hd. split_and!; [|done|by apply Memory_abs_set_slices].
  apply Memory_wf_set_slices; [done|done|]. intros ->. apply Hwf in Hm as [_ Hne].
  by destruct m as [|[r s] m].
Qed.

Lemma Memory_write_refines mem id ty r vs :
  Memory_wf mem → Range_wf r →
  ∃ mem', Memory_write mem id ty r vs =
      Ret ((store_write (Memory_abs mem) id ty r vs).1, mem') ∧
    refines mem mem' (store_write (Memory_abs mem) id ty r vs).2.
Proof.
  intros Hwf Hr. unfold Memory_write, store_write.
  destruct (Range_length r =? Z.of_nat (length vs)) eqn:Hl; zbool; simpl.
  2:{ eexists. split; [done|by apply refines_refl]. }
  rewrite Memory_writable_refines by done.
  destruct (Memory_abs mem id) as [d|] eqn:Hd; simpl.
  2:{ eexists. split; [done|by apply refines_refl]. }
  destruct (dev_all _ d r) eqn:Hall; simpl.
  2:{ eexists. split; [done|by apply refines_refl]. }
  unfold Memory_abs in Hd. destruct (m_slices mem !! id) as [m|] eqn:Hm; simpl in *; [|done].
  injection Hd as <-. pose proof (Hwf _ _ Hm) as [Hmw _].
  pose proof (proj1 (dev_all_true _ _ _) Hall) as Hp. destruct r as [s e].
  destruct (walk_slices_mut_write Slice_write Cell_try_set_value Slice_write_segment
    m s e vs 0) as (b & idx' & m' & -> & Hb & Hm' & Hk & Hpre);
    [done|range_lia|range_lia|done|range_lia|].
  simpl. eexists. split; [done|]. apply (refines_set_slices _ _ m); [done..|].
  intros a. rewrite (written_prefix_store m m' (mkRange s e) vs a); [|done|done|].
  - rewrite dev_prefix_covered; [done|done|]. intros b' Hb'.
    destruct (Hp b' Hb') as (c & -> & _). done.
  - by apply (written_prefix_try ty).
Qed.

Lemma Memory_write_unchecked_refines mem id r vs :
  Memory_wf mem → Range_wf r →
  ∃ mem', Memory_write_unchecked mem id r vs =
      Ret ((store_write_unchecked (Memory_abs mem) id r vs).1, mem') ∧
    refines mem mem' (store_write_unchecked (Memory_abs mem) id r vs).2.
Proof.
  intros Hwf Hr. unfold Memory_write_unchecked, store_write_unchecked.
  destruct (Range_length r =? Z.of_nat (length vs)) eqn:Hl; zbool; simpl.
  2:{ eexists. split; [done|by apply refines_refl]. }
  assert (Memory_abs mem id = cell_at <$> m_slices mem !! id) as -> by done.
  destruct (m_slices mem !! id) as [m|] eqn:Hm; simpl.
  2:{ eexists. split; [done|by apply refines_refl]. }
  pose proof (Hwf _ _ Hm) as [Hmw _]. destruct r as [s e].
  destruct (walk_slices_mut_write Slice_write_unchecked Cell_set_value
    Slice_write_unchecked_segment m s e vs 0)
    as (b & idx' & m' & -> & Hb & Hm' & Hk & Hpre);
    [done|range_lia|range_lia|done|range_lia|].
  simpl. eexists. split.
  - do 2 f_equal. apply eq_true_iff_eq. rewrite Hb, bool_decide_eq_true.
    by rewrite dev_words_cells, fmap_is_Some, cells_covered.
  - apply (refines_set_slices _ _ m); [done..|]. intros a.
    by apply (written_prefix_store m m' (mkRange s e) vs a).
Qed.

Lemma Memory_add_ranges_refines mem id kind rs :
  Memory_wf mem → Forall Range_wf rs →
  ∃ mem', Memory_add_ranges mem id kind rs =
      Ret ((store_declare (Memory_abs mem) id kind rs).1, mem') ∧
    refines mem mem' (store_declare (Memory_abs mem) id kind rs).2.
Proof.
  intros Hwf Hrs. unfold Memory_add_ranges, store_declare.
  assert (map_wf (default [] (m_slices mem !! id))) as Hm.
  { destruct (m_slices mem !! id) eqn:E; simpl; [by eapply Hwf|apply map_wf_nil]. }
  assert (cell_at (default [] (m_slices mem !! id)) ≡@{Device}
          default (λ _, None) (Memory_abs mem id)) as Hd.
  { unfold Memory_abs. by destruct (m_slices mem !! id). }
  destruct rs as [|r rs].
  - simpl. destruct (default [] (m_slices mem !! id)) as [|p m] eqn:E; simpl;
      (eexists; split; [done|]); [by apply refines_refl|].
    destruct (m_slices mem !! id) as [m0|] eqn:Em; simpl in E; subst; [|done].
    unfold set_slices. rewrite insert_id by done. by destruct mem.
  - assert (Forall Range_wf (sorted_by_start (r :: rs))) as Hsrs
      by by rewrite sorted_by_start_perm.
    assert (sorted_by_start (r :: rs) ≠ []) as Hne.
    { intros E. pose proof (sorted_by_start_perm (r :: rs)) as Hp. rewrite E in Hp.
      by apply Permutation_nil_cons in Hp. }
    destruct (add_range_loop_refines kind _ _ _ Hm Hsrs Hd) as (res & -> & Hres).
    cbn [mbind outcome_bind].
    destruct res as [m'|], (dev_declare_all kind _ _) as [d'|]; try done.
    + destruct Hres as (Hm' & Hne' & Hd'). destruct m' as [|p m']; [by destruct Hne'; auto|].
      eexists. split; [done|]. split_and!; [by apply Memory_wf_set_slices|done|].
      by apply Memory_abs_set_slices.
    + eexists. split; [done|by apply refines_refl].
Qed.

(** ** Writes that report to the tap *)

(** The writes reported, as the tap sees them. *)
Definition notes (calls : list (TapCall K Tap)) : list (StoreWrite K) := tc_write <$> calls.

Definition tapped mem : bool := bool_decide (is_Some (m_tap mem)).

Lemma tap_old_words_refines mem id r :
  Memory_wf mem → Range_wf r →
  tap_old_words mem id r =
  Ret (if tapped mem then store_read_unchecked (Memory_abs mem) id r else None).
Proof.
  intros Hwf Hr. unfold tap_old_words, tapped. destruct (m_tap mem); [|done].
  by rewrite Memory_read_unchecked_refines.
Qed.

Lemma tap_notify_notes mem mem' source id r vs :
  m_tap mem' = m_tap mem →
  notes (tap_notify mem'
    (if tapped mem then store_read_unchecked (Memory_abs mem) id r else None)
    source id r vs) = store_notes (tapped mem) true (Memory_abs mem) source id r vs.
Proof.
  intros Ht. unfold tap_notify, notes, store_notes, tapped. rewrite Ht.
  destruct (m_tap mem) as [tap|]; simpl; [|done].
  by destruct (store_read_unchecked _ _ _).
Qed.

(** Every call gets the memory as the write left it. *)
Lemma tap_notify_memory mem old source id r vs :
  Forall (λ call, tc_memory call = mem ∧ Some (tc_tap call) = m_tap mem)
    (tap_notify mem old source id r vs).
Proof.
  unfold tap_notify. destruct (m_tap mem), old; repeat constructor.
Qed.

Lemma Memory_write_from_refines mem source id ty r vs :
  Memory_wf mem → Range_wf r →
  ∃ mem' calls, Memory_write_from mem source id ty r vs =
      Ret ((store_write (Memory_abs mem) id ty r vs).1, mem', calls) ∧
    refines mem mem' (store_write (Memory_abs mem) id ty r vs).2 ∧
    Forall (λ call, tc_memory call = mem' ∧ Some (tc_tap call) = m_tap mem) calls ∧
    notes calls =
      store_notes (tapped mem) (is_ok (store_write (Memory_abs mem) id ty r vs).1)
        (Memory_abs mem) source id r vs.
Proof.
  intros Hwf Hr.
  destruct (Memory_write_refines mem id ty r vs Hwf Hr) as (mem' & Hw & Href).
  unfold Memory_write_from. rewrite Hw, Memory_writable_refines, tap_old_words_refines by done.
  revert Href. unfold store_write.
  assert (∀ b, store_notes b false (Memory_abs mem) source id r vs = []) as Hn
    by by intros [].
  destruct (negb _); cbn [mbind outcome_bind fst snd is_ok]; intros Href.
  { do 2 eexists. rewrite Hn. split_and!; [done|by apply refines_refl|constructor|done]. }
  destruct (Memory_abs mem id) as [d|]; cbn [mbind outcome_bind fst snd is_ok] in *.
  2:{ do 2 eexists. rewrite Hn. split_and!; [done|by apply refines_refl|constructor|done]. }
  destruct (dev_all _ _ _); cbn [mbind outcome_bind fst snd is_ok] in *.
  2:{ do 2 eexists. rewrite Hn. split_and!; [done|by apply refines_refl|constructor|done]. }
  do 2 eexists. pose proof (proj1 (proj2 Href)) as Ht. split_and!; [done|done| |].
  - rewrite <- Ht. apply tap_notify_memory.
  - by apply tap_notify_notes.
Qed.

Lemma Memory_write_unchecked_from_refines mem source id r vs :
  Memory_wf mem → Range_wf r →
  ∃ mem' calls, Memory_write_unchecked_from mem source id r vs =
      Ret ((store_write_unchecked (Memory_abs mem) id r vs).1, mem', calls) ∧
    refines mem mem' (store_write_unchecked (Memory_abs mem) id r vs).2 ∧
    Forall (λ call, tc_memory call = mem' ∧ Some (tc_tap call) = m_tap mem) calls ∧
    notes calls =
      store_notes (tapped mem) (store_write_unchecked (Memory_abs mem) id r vs).1
        (Memory_abs mem) source id r vs.
Proof.
  intros Hwf Hr.
  destruct (Memory_write_unchecked_refines mem id r vs Hwf Hr) as (mem' & Hw & Href).
  unfold Memory_write_unchecked_from. rewrite Hw, tap_old_words_refines by done.
  cbn [mbind outcome_bind]. do 2 eexists. pose proof (proj1 (proj2 Href)) as Ht.
  split_and!; [done|done|..]; destruct (store_write_unchecked _ _ _ _).1.
  - rewrite <- Ht. apply tap_notify_memory.
  - constructor.
  - by apply tap_notify_notes.
  - unfold store_notes. by rewrite andb_false_r.
Qed.
End refine.
