(* ===== verification/StoreProps.v ===== *)
(** * Properties of the register store

    What a client of [ferrowl-store] relies on: every sequence of operations
    behaves as the abstract store, writes are read back, failed writes change
    nothing, declarations keep the values already stored. *)

From stdpp Require Import base sorting list gmap numbers.
From S2P Require Import Prelude BTree Slice Memory MemorySpec Store StoreDeclare.
From S2P Require Import StoreRefine.

Local Open Scope Z_scope.

(** ** Traces of the memory *)

Section trace.
Context {K : Type} `{Countable K} {Tap : Type}.
Implicit Types (mem : Memory K Tap).

Definition Memory_step mem (op : StoreOp K) : Outcome (StoreOut K * Memory K Tap) :=
  match op with
  | OpDeclare id kind rs =>
      '(b, mem') ← Memory_add_ranges mem id kind rs; Ret (OutDeclared b, mem')
  | OpRead id ty r => res ← Memory_read mem id ty r; Ret (OutWords res, mem)
  | OpReadUnchecked id r => res ← Memory_read_unchecked mem id r; Ret (OutRaw res, mem)
  | OpWrite source id ty r vs =>
      '(res, mem', calls) ← Memory_write_from mem source id ty r vs;
      Ret (OutWritten res (notes calls), mem')
  | OpWriteUnchecked source id r vs =>
      '(b, mem', calls) ← Memory_write_unchecked_from mem source id r vs;
      Ret (OutForced b (notes calls), mem')
  end.

Fixpoint Memory_run mem (ops : list (StoreOp K)) : Outcome (list (StoreOut K) * Memory K Tap) :=
  match ops with
  | [] => Ret ([], mem)
  | op :: ops' =>
      '(out, mem') ← Memory_step mem op;
      '(outs, mem'') ← Memory_run mem' ops';
      Ret (out :: outs, mem'')
  end.

(** The ranges of an operation run upwards and end where cells can. *)
Definition op_wf (op : StoreOp K) : Prop :=
  match op with
  | OpDeclare _ _ rs => Forall Range_wf rs
  | OpRead _ _ r | OpReadUnchecked _ r | OpWrite _ _ _ r _ | OpWriteUnchecked _ _ r _ =>
      Range_wf r
  end.

#[export] Instance store_notes_proper b d :
  Proper ((≡) ==> eq ==> eq ==> eq ==> eq ==> eq) (@store_notes K b d).
Proof.
  intros st1 st2 Hst src _ <- id _ <- r _ <- vs _ <-. unfold store_notes.
  by rewrite (store_read_unchecked_proper _ _ Hst id id eq_refl r r eq_refl).
Qed.

Lemma store_step_equiv b (st1 st2 : Store K) op :
  st1 ≡ st2 →
  (store_step b st1 op).1 = (store_step b st2 op).1 ∧
  (store_step b st1 op).2 ≡ (store_step b st2 op).2.
Proof.
  intros Hst. destruct op as [id kind rs|id ty r|id r|src id ty r vs|src id r vs]; simpl.
  - destruct (store_declare_equiv st1 st2 id kind rs Hst) as [H1 H2].
    destruct (store_declare st1 _ _ _), (store_declare st2 _ _ _); simpl in *. by subst.
  - by rewrite (store_read_proper _ _ Hst id id eq_refl ty ty eq_refl r r eq_refl).
  - by rewrite (store_read_unchecked_proper _ _ Hst id id eq_refl r r eq_refl).
  - destruct (store_write_equiv st1 st2 id ty r vs Hst) as [H1 H2].
    destruct (store_write st1 _ _ _ _), (store_write st2 _ _ _ _); simpl in *. subst.
    split; [|done]. f_equal. by apply store_notes_proper.
  - destruct (store_write_unchecked_equiv st1 st2 id r vs Hst) as [H1 H2].
    destruct (store_write_unchecked st1 _ _ _), (store_write_unchecked st2 _ _ _);
      simpl in *. subst.
    split; [|done]. f_equal. by apply store_notes_proper.
Qed.

Lemma store_run_equiv b ops : ∀ (st1 st2 : Store K),
  st1 ≡ st2 →
  (store_run b st1 ops).1 = (store_run b st2 ops).1 ∧
  (store_run b st1 ops).2 ≡ (store_run b st2 ops).2.
Proof.
  induction ops as [|op ops IH]; intros st1 st2 Hst; simpl; [done|].
  destruct (store_step_equiv b st1 st2 op Hst) as [H1 H2].
  destruct (store_step b st1 op) as [o1 st1'], (store_step b st2 op) as [o2 st2'].
  simpl in *. subst. destruct (IH st1' st2' H2) as [H3 H4].
  destruct (store_run b st1' ops), (store_run b st2' ops). simpl in *. by subst.
Qed.

Lemma Memory_step_refines mem op :
  Memory_wf mem → op_wf op →
  ∃ mem', Memory_step mem op = Ret ((store_step (tapped mem) (Memory_abs mem) op).1, mem') ∧
    refines mem mem' (store_step (tapped mem) (Memory_abs mem) op).2.
Proof.
  intros Hwf Hop. destruct op as [id kind rs|id ty r|id r|src id ty r vs|src id r vs]; simpl in *.
  - destruct (Memory_add_ranges_refines mem id kind rs Hwf Hop) as (mem' & -> & Href).
    simpl. exists mem'. by destruct (store_declare _ _ _ _).
  - rewrite Memory_read_refines by done. by exists mem.
  - rewrite Memory_read_unchecked_refines by done. by exists mem.
  - destruct (Memory_write_from_refines mem src id ty r vs Hwf Hop)
      as (mem' & calls & -> & Href & _ & Hn).
    cbn [mbind outcome_bind]. exists mem'. rewrite Hn. by destruct (store_write _ _ _ _ _).
  - destruct (Memory_write_unchecked_from_refines mem src id r vs Hwf Hop)
      as (mem' & calls & -> & Href & _ & Hn).
    cbn [mbind outcome_bind]. exists mem'. rewrite Hn. by destruct (store_write_unchecked _ _ _ _).
Qed.

(** C1: from any well-formed store, every sequence of declarations, reads and
    writes over ranges that end where cells can (below 2^61, the most 4-byte
    cells a [Vec] holds; past it reading and declaring can panic) returns
    without a panic, answers each operation (tap reports included) exactly as
    the per-address contract of [Store.v] does, and ends in a well-formed store
    holding the contract's cells. The contract is what the code does: a checked
    write of a range that is not covered stores nothing, an unchecked one
    stores the words of the covered addresses before the first missing one and
    answers [false], which the documents rule out (a finding). *)
Theorem store_trace_refinement mem (ops : list (StoreOp K)) :
  Memory_wf mem → Forall op_wf ops →
  ∃ mem', Memory_run mem ops =
      Ret ((store_run (tapped mem) (Memory_abs mem) ops).1, mem') ∧
    Memory_wf mem' ∧ m_tap mem' = m_tap mem ∧
    Memory_abs mem' ≡ (store_run (tapped mem) (Memory_abs mem) ops).2.
Proof.
  intros Hwf Hops. revert mem Hwf. induction Hops as [|op ops Hop Hops IH]; intros mem Hwf.
  - by exists mem.
  - simpl. destruct (Memory_step_refines mem op Hwf Hop) as (mem1 & -> & Hwf1 & Ht & Hst).
    cbn [mbind outcome_bind]. destruct (IH mem1 Hwf1) as (mem' & -> & Hwf' & Ht' & Hst').
    cbn [mbind outcome_bind]. assert (tapped mem1 = tapped mem) as Htt
      by (unfold tapped; by rewrite Ht). rewrite Htt in *.
    destruct (store_step (tapped mem) (Memory_abs mem) op) as [out st1]; simpl in *.
    destruct (store_run_equiv (tapped mem) ops _ _ Hst) as [H1 H2].
    destruct (store_run (tapped mem) st1 ops) as [outs st2]; simpl in *.
    exists mem'. rewrite H1. split_and!; [done|done|congruence|by rewrite Hst'].
Qed.
End trace.

(** A device with three adjacent slices: [0, 4) readable and from 2 on also
    writable, [4, 8) readable and writable, [8, 10) write-only. *)
Definition demo_ops : list (StoreOp Z) :=
  [OpDeclare 1 (CellKind_read CT_Register) [mkRange 0 4];
   OpDeclare 1 (CellKind_write CT_Register) [mkRange 8 10; mkRange 2 4];
   OpDeclare 1 (CellKind_read_write CT_Register) [mkRange 4 8];
   OpWrite WS_Remote 1 CT_Register (mkRange 2 8) [10; 11; 12; 13; 14; 15];
   OpRead 1 CT_Register (mkRange 0 5);
   OpRead 1 CT_Register (mkRange 6 9);
   OpReadUnchecked 1 (mkRange 0 10);
   OpWriteUnchecked WS_Command 1 (mkRange 9 11) [70; 80]].

Lemma demo_ops_wf : Forall op_wf demo_ops.
Proof. repeat constructor; unfold usize_max; simpl; lia. Qed.

Definition demo_start : Memory Z unit := Memory_set_write_tap Memory_default tt.

(** The first four operations of [demo_ops]. *)
Definition demo_memory : Memory Z unit :=
  match Memory_run demo_start (take 4 demo_ops) with
  | Ret (_, mem) => mem
  | Panic => demo_start
  end.

Lemma demo_start_wf : Memory_wf demo_start.
Proof. intros id m. unfold demo_start; simpl. by rewrite lookup_empty. Qed.

Lemma demo_memory_wf : Memory_wf demo_memory.
Proof.
  unfold demo_memory.
  assert (∃ x, Memory_run demo_start (take 4 demo_ops) = Ret x ∧ Memory_wf x.2)
    as ([outs mem] & -> & Hwf); [|done].
  assert (∀ ops mem, Memory_wf mem → Forall op_wf ops →
    ∃ x, Memory_run mem ops = Ret x ∧ @Memory_wf Z _ _ unit x.2) as Hrun.
  { intros ops. induction ops as [|op ops IH]; intros mem Hwf Hops; simpl; [by eexists|].
    apply Forall_cons_1 in Hops as [Hop Hops].
    destruct (Memory_step_refines mem op Hwf Hop) as (mem1 & -> & Hwf1 & _).
    cbn [mbind outcome_bind]. destruct (IH mem1 Hwf1 Hops) as ([outs mem'] & -> & Hwf').
    cbn [mbind outcome_bind]. by eexists. }
  apply Hrun; [apply demo_start_wf|]. apply Forall_take, demo_ops_wf.
Qed.

Lemma store_trace_refinement_witness :
  ∃ mem', Memory_run demo_start demo_ops =
    Ret ([OutDeclared true; OutDeclared true; OutDeclared true;
          OutWritten (Ok tt)
            [mkStoreWrite WS_Remote 1 (mkRange 2 8) [0; 0; 0; 0; 0; 0]
               [10; 11; 12; 13; 14; 15]];
          OutWords (Ok [0; 0; 10; 11; 12]);
          OutWords (Err AddressNotReadable);
          OutRaw (Some [0; 0; 10; 11; 12; 13; 14; 15; 0; 0]);
          OutForced false []], mem').
Proof.
  destruct (store_trace_refinement demo_start demo_ops demo_start_wf demo_ops_wf)
    as (mem' & Heq & _).
  exists mem'. rewrite Heq. vm_compute. reflexivity.
Defined.

(** ** Reads and writes *)

Section props.
Context {K : Type} `{Countable K} {Tap : Type}.
Implicit Types (mem : Memory K Tap).

Lemma dev_words_store (d : Device) (r : Range) (vs : list Z) :
  (∀ a, in_range a r → is_Some (d a)) → Range_length r = Z.of_nat (length vs) →
  dev_words (dev_store d r vs) r = Some vs.
Proof.
  intros Hd Hl. apply mapM_Some_2, Forall2_same_length_lookup_2.
  - rewrite length_addresses. lia.
  - intros i a v Ha Hv. apply lookup_seqZ in Ha as [-> Hi]. unfold dev_store.
    rewrite decide_True by range_lia.
    replace (Z.to_nat (r_start r + Z.of_nat i - r_start r)) with i by lia.
    destruct (Hd (r_start r + Z.of_nat i)) as [c ->]; [range_lia|]. simpl. by rewrite Hv.
Qed.

Lemma dev_all_store (p : Cell → bool) (d : Device) (r r' : Range) (vs : list Z) :
  (∀ c v, p (Cell_set_value c v) = p c) → Range_length r = Z.of_nat (length vs) →
  dev_all p (dev_store d r vs) r' = dev_all p d r'.
Proof.
  intros Hp Hl. unfold dev_all. induction (addresses r') as [|a l IH]; simpl; [done|].
  rewrite IH. f_equal. unfold dev_store. case_decide as Ha; [|done].
  destruct (d a) as [c|]; simpl; [|done].
  destruct (lookup_lt_is_Some_2 vs (Z.to_nat (a - r_start r))) as [v ->]; [range_lia|].
  apply Hp.
Qed.

Lemma store_set_same (st : Store K) (id : K) (d : Device) : store_set st id d id = Some d.
Proof. unfold store_set. by rewrite decide_True. Qed.

Lemma store_write_Ok (st st' : Store K) id ty r vs :
  store_write st id ty r vs = (Ok tt, st') →
  ∃ d, st id = Some d ∧ Range_length r = Z.of_nat (length vs) ∧
    dev_all (λ c, Cell_accepts_write c ty) d r = true ∧
    st' = store_set st id (dev_store d r vs).
Proof.
  unfold store_write. intros Heq.
  destruct (Range_length r =? _) eqn:E; zbool; simpl in Heq; [|done].
  destruct (st id) as [d|]; [|done]. destruct (dev_all _ d r) eqn:E2; [|done].
  injection Heq as <-. by exists d.
Qed.

Lemma dev_words_covered (d : Device) (r : Range) (a : Z) :
  is_Some (dev_words d r) → in_range a r → is_Some (d a).
Proof.
  intros Hws Ha. apply mapM_is_Some_1 in Hws. rewrite list.Forall_forall in Hws.
  apply (fmap_is_Some c_value), Hws. unfold addresses. apply elem_of_seqZ. range_lia.
Qed.

(** A forced write of a covered range is read back whole. *)
Lemma store_write_unchecked_read (st : Store K) (id : K) (r : Range) (vs : list Z) :
  Range_wf r → Range_length r = Z.of_nat (length vs) →
  is_Some (store_read_unchecked st id r) →
  (store_write_unchecked st id r vs).1 = true ∧
  store_read_unchecked (store_write_unchecked st id r vs).2 id r = Some vs.
Proof.
  intros Hr Hl Hsome. unfold store_read_unchecked, store_write_unchecked in *.
  destruct (st id) as [d|] eqn:Hd; simpl in Hsome; [|by destruct Hsome].
  rewrite (proj2 (Z.eqb_eq _ _) Hl). cbn [negb fst snd].
  rewrite bool_decide_eq_true_2 by done. split; [done|].
  assert (∀ a, in_range a r → is_Some (d a)) as Hc by (intros a; by apply dev_words_covered).
  rewrite store_set_same, dev_prefix_covered by done. simpl. by apply dev_words_store.
Qed.

(** A forced write leaves the other devices alone. *)
Lemma store_write_unchecked_other (st : Store K) (id id' : K) (r : Range) (vs : list Z) :
  id' ≠ id → (store_write_unchecked st id r vs).2 id' = st id'.
Proof.
  intros Hne. unfold store_write_unchecked, store_set.
  destruct (negb _); [done|]. destruct (st id); [|done]. simpl. by rewrite decide_False.
Qed.

(** What [Memory::write] stores, [Memory::read] of the same type and range
    returns, whenever the range is also readable; across adjacent slices. *)
Theorem memory_write_read mem mem' id ty r vs :
  Memory_wf mem → Range_wf r →
  Memory_write mem id ty r vs = Ret (Ok tt, mem') →
  Memory_readable mem id ty r = Ret (Ok tt) →
  Memory_read mem' id ty r = Ret (Ok vs).
Proof.
  intros Hwf Hr Hw Hrd.
  destruct (Memory_write_refines mem id ty r vs Hwf Hr) as (mem1 & Hw' & Hwf' & _ & Hst).
  rewrite Hw in Hw'. injection Hw' as Hres <-.
  destruct (store_write (Memory_abs mem) id ty r vs) as [res st'] eqn:Es; simpl in *. subst res.
  apply store_write_Ok in Es as (d & Hd & Hl & Hall & ->).
  rewrite Memory_readable_refines, Hd in Hrd by done. injection Hrd as Hrd.
  destruct (dev_all _ d r) eqn:Hrall in Hrd; [clear Hrd|done].
  rewrite Memory_read_refines by done. f_equal.
  rewrite (store_read_proper _ _ Hst id id eq_refl ty ty eq_refl r r eq_refl).
  unfold store_read. rewrite store_set_same, dev_all_store, Hrall, dev_words_store; try done.
  intros a Ha. apply (proj1 (dev_all_true _ _ _) Hall) in Ha as (c & -> & _). done.
Qed.

Lemma dev_store_frame (p : Cell → bool) (d : Device) (r r' : Range) (vs : list Z) :
  disjoint_ranges r r' →
  dev_all p (dev_store d r vs) r' = dev_all p d r' ∧
  dev_words (dev_store d r vs) r' = dev_words d r'.
Proof.
  intros Hdis.
  assert (∀ a, a ∈ addresses r' → dev_store d r vs a = d a) as Hsame.
  { intros a Ha%elem_of_addresses. unfold dev_store. rewrite decide_False; [done|].
    intros Har. by apply (Hdis a). }
  unfold dev_all, dev_words. induction (addresses r') as [|a l IH]; simpl; [done|].
  rewrite (Hsame a) by apply list_elem_of_here.
  destruct IH as [-> ->]; [|done]. intros b Hb. by apply Hsame, list_elem_of_further.
Qed.

(** A write never disturbs another device or an address outside its range,
    whether it succeeds or fails: reads there answer as before. *)
Theorem memory_write_frame mem mem' id ty r vs res id' ty' r' :
  Memory_wf mem → Range_wf r → Range_wf r' →
  id' ≠ id ∨ disjoint_ranges r r' →
  Memory_write mem id ty r vs = Ret (res, mem') →
  Memory_read mem' id' ty' r' = Memory_read mem id' ty' r'.
Proof.
  intros Hwf Hr Hr' Hdis Hw.
  destruct (Memory_write_refines mem id ty r vs Hwf Hr) as (mem1 & Hw' & Hwf' & _ & Hst).
  rewrite Hw in Hw'. injection Hw' as _ <-.
  rewrite !Memory_read_refines by done. f_equal.
  rewrite (store_read_proper _ _ Hst id' id' eq_refl ty' ty' eq_refl r' r' eq_refl).
  destruct (store_write (Memory_abs mem) id ty r vs) as [res' st'] eqn:Es; simpl in *.
  unfold store_write in Es. destruct (negb _); [by simplify_eq|].
  destruct (Memory_abs mem id) as [d|] eqn:Hd; [|by simplify_eq].
  destruct (dev_all _ d r); [|by simplify_eq]. simplify_eq. unfold store_read, store_set.
  case_decide as Hid; [subst id'|done]. destruct Hdis as [|Hdis]; [done|]. rewrite Hd.
  by destruct (dev_store_frame (λ c, Cell_accepts_read c ty') d r r' vs Hdis) as [-> ->].
Qed.

Lemma dev_all_false (p : Cell → bool) (d : Device) (r : Range) :
  dev_all p d r = false ↔
  ∃ a, in_range a r ∧ (d a = None ∨ ∃ c, d a = Some c ∧ p c = false).
Proof.
  unfold dev_all. setoid_rewrite <- elem_of_addresses.
  induction (addresses r) as [|a l IH]; simpl.
  - split; [done|]. by intros (a & ?%not_elem_of_nil & _).
  - rewrite andb_false_iff, IH. setoid_rewrite elem_of_cons. split.
    + intros [Ha|(b & Hb & Hp)]; [|by eauto]. exists a. split; [by left|].
      destruct (d a); [right; by eauto|by left].
    + intros (b & [->|Hb] & Hp); [left|by eauto]. by destruct Hp as [->|(c & -> & Hc)].
Qed.

(** The error of [Memory::write_from] names its cause, in the code's order
    (length, then key, then an undeclared or not writable address), and a
    failed write leaves the store as it was and reports nothing to the tap. *)
Theorem memory_write_error mem source id ty r vs e mem' calls :
  Memory_wf mem → Range_wf r →
  Memory_write_from mem source id ty r vs = Ret (Err e, mem', calls) →
  mem' = mem ∧ calls = [] ∧
  match e with
  | LengthMismatch expected got =>
      expected = Range_length r ∧ got = Z.of_nat (length vs) ∧ expected ≠ got
  | UnknownKey => Memory_contains_key mem id = false
  | AddressNotWritable =>
      ∃ d a, Memory_abs mem id = Some d ∧ in_range a r ∧
        (d a = None ∨ ∃ c, d a = Some c ∧ Cell_accepts_write c ty = false)
  | AddressNotReadable => False
  end.
Proof.
  intros Hwf Hr. unfold Memory_write_from, Memory_write.
  destruct (Range_length r =? _) eqn:El; zbool; simpl; [|by intros [= <- <- <-]].
  rewrite Memory_writable_refines, tap_old_words_refines by done.
  destruct (Memory_abs mem id) as [d|] eqn:Hd; cbn [mbind outcome_bind].
  2:{ intros [= <- <- <-]. unfold Memory_abs, Memory_contains_key in *.
      split_and!; [done|done|]. by destruct (m_slices mem !! id). }
  destruct (dev_all _ d r) eqn:Hall; cbn [mbind outcome_bind].
  - unfold Memory_abs in Hd. destruct (m_slices mem !! id) as [m|]; [|done].
    cbn [expect mbind outcome_bind]. by destruct (walk_slices_mut _ _ _ _) as [[[? ?] ?]|].
  - intros [= <- <- <-]. split_and!; [done|done|]. apply dev_all_false in Hall as (a & ? & ?).
    by exists d, a.
Qed.

(** With a tap installed, a successful [Memory::write_from] makes exactly
    one report: the words the range held, the words written, and the store in
    which a raw read of the range already returns the new words. *)
Theorem memory_write_reports mem source id ty r vs mem' calls tap :
  Memory_wf mem → Range_wf r → m_tap mem = Some tap →
  Memory_write_from mem source id ty r vs = Ret (Ok tt, mem', calls) →
  ∃ old, Memory_read_unchecked mem id r = Ret (Some old) ∧
    calls = [mkTapCall tap (mkStoreWrite source id r old vs) mem'] ∧
    Memory_read_unchecked mem' id r = Ret (Some vs).
Proof.
  intros Hwf Hr Htap Hw.
  destruct (Memory_write_from_refines mem source id ty r vs Hwf Hr)
    as (mem1 & calls1 & Hw' & (Hwf' & _ & Hst) & Hcalls & Hn).
  rewrite Hw in Hw'. injection Hw' as Hres <- <-.
  destruct (store_write (Memory_abs mem) id ty r vs) as [res st'] eqn:Es; simpl in *. subst res.
  apply store_write_Ok in Es as (d & Hd & Hl & Hall & ->).
  assert (∀ a, in_range a r → is_Some (d a)) as Hcov.
  { intros a Ha. apply (proj1 (dev_all_true _ _ _) Hall) in Ha as (c & -> & _). done. }
  rewrite !Memory_read_unchecked_refines by done.
  rewrite (store_read_unchecked_proper _ _ Hst id id eq_refl r r eq_refl).
  unfold store_notes, tapped, store_read_unchecked in *. rewrite Htap, Hd in Hn. simpl in Hn.
  rewrite Hd, store_set_same. simpl. rewrite dev_words_store by done.
  destruct (dev_words d r) as [old|] eqn:Hold.
  - exists old. split_and!; [done| |done].
    destruct calls as [|call [|? ?]]; [done| |done]. injection Hn as Hn.
    apply Forall_cons_1 in Hcalls as [[H1 H2] _]. rewrite Htap in H2.
    destruct call; simpl in *. by simplify_eq.
  - exfalso. unfold dev_words in Hold. apply mapM_None, list.Exists_exists in Hold
      as (a & Ha%elem_of_addresses & Hno).
    destruct (Hcov a Ha) as [c Hc]. by rewrite Hc in Hno.
Qed.

(** [Memory::write_unchecked] of as many values as the range has addresses
    answers [true] exactly when the whole range is declared; either way it has
    stored the values at the addresses before the first undeclared one and
    left every other cell alone. So an answer of [false] does not mean that
    nothing was written. *)
Theorem memory_write_unchecked_prefix mem id r vs d :
  Memory_wf mem → Range_wf r → Range_length r = Z.of_nat (length vs) →
  Memory_abs mem id = Some d →
  ∃ b mem' d', Memory_write_unchecked mem id r vs = Ret (b, mem') ∧
    Memory_abs mem' id = Some d' ∧
    (b = true ↔ ∀ a, in_range a r → is_Some (d a)) ∧
    ∀ a,
      (in_range a r ∧ (∀ b, r_start r <= b <= a → is_Some (d b)) →
       d' a = c ← d a; v ← vs !! Z.to_nat (a - r_start r); Some (Cell_set_value c v)) ∧
      (¬ (in_range a r ∧ ∀ b, r_start r <= b <= a → is_Some (d b)) → d' a = d a).
Proof.
  intros Hwf Hr Hl Hd.
  destruct (Memory_write_unchecked_refines mem id r vs Hwf Hr) as (mem' & Hw & _ & _ & Hst).
  specialize (Hst id). unfold store_write_unchecked in *.
  rewrite (proj2 (Z.eqb_eq _ _) Hl), Hd in *. simpl in *.
  rewrite store_set_same in Hst. inversion Hst as [d' d2 Heq Hd'|]; subst.
  exists (bool_decide (is_Some (dev_words d r))), mem', d'. split_and!; [done|done| |].
  - rewrite bool_decide_eq_true. unfold dev_words.
    rewrite mapM_is_Some, list.Forall_forall. setoid_rewrite elem_of_addresses.
    by setoid_rewrite fmap_is_Some.
  - intros a. rewrite (Heq a). destruct r as [s e]. unfold dev_store, dev_prefix; simpl.
    destruct (declared_count_spec d s e) as [Hn Hiff]; [range_lia|]. specialize (Hiff a).
    assert ((∀ b, s <= b <= a → is_Some (d b)) ↔
            ∀ b, in_range b (mkRange s (a + 1)) → is_Some (d b)) as Hb.
    { split; intros Hall b Hb; apply Hall; range_lia. }
    rewrite Hb. clear Hb. case_decide as Hin.
    + split; [done|]. intros Hno. exfalso. apply Hno. split; [range_lia|]. apply Hiff; range_lia.
    + split; [|done]. intros [Ha Hall]. apply Hiff in Hall; [|done]. range_lia.
Qed.

(** ** Declarations *)

(** Access [a] allows everything [b] allows. *)
Definition grants (a b : Access) : Prop := a = b ∨ a = A_ReadWrite.

Lemma cell_declare_Some (kind : CellKind) (c c' : Cell) :
  cell_declare kind c = Some c' →
  c_value c' = c_value c ∧ ck_ty (c_kind c') = ck_ty (c_kind c) ∧
  ck_ty (c_kind c) = ck_ty kind ∧
  grants (ck_access (c_kind c')) (ck_access (c_kind c)) ∧
  grants (ck_access (c_kind c')) (ck_access kind).
Proof.
  unfold cell_declare, widen_access, grants. case_bool_decide; [|done].
  destruct (ck_access (c_kind c)) eqn:E1, (ck_access kind) eqn:E2; simpl;
    intros [= <-]; simpl; split_and!; auto.
Qed.

Lemma grants_trans (a b c : Access) : grants a b → grants b c → grants a c.
Proof. unfold grants. intros [->| ->] [->| ->]; auto. Qed.

(** One declaration at one address. *)
Lemma dev_declare_at (kind : CellKind) (d d' : Device) (r : Range) (a : Z) :
  dev_declare kind d r = Some d' →
  d' a =
    (if decide (in_range a r)
     then match d a with Some c => cell_declare kind c | None => Some (Cell_zeroed kind) end
     else d a) ∧
  (in_range a r → is_Some (d' a)).
Proof.
  unfold dev_declare. destruct (forallb _ _) eqn:Eall; [|done]. intros [= <-].
  split; [done|]. intros Ha. rewrite decide_True by done.
  rewrite forallb_forall in Eall. specialize (Eall a).
  rewrite <- list_elem_of_In, elem_of_addresses in Eall. specialize (Eall Ha).
  destruct (d a); [|done]. by apply bool_decide_eq_true in Eall.
Qed.

(** Declaring keeps value and type of a declared cell and widens its access. *)
Lemma dev_declare_all_keeps (kind : CellKind) (rs : list Range) :
  ∀ (d d' : Device) (a : Z) (c : Cell),
  dev_declare_all kind d rs = Some d' → d a = Some c →
  ∃ c', d' a = Some c' ∧ c_value c' = c_value c ∧
    ck_ty (c_kind c') = ck_ty (c_kind c) ∧
    grants (ck_access (c_kind c')) (ck_access (c_kind c)).
Proof.
  induction rs as [|r rs IH]; intros d d' a c; simpl.
  - intros [= <-] Hc. exists c. split_and!; [done..|by left].
  - destruct (dev_declare kind d r) as [d1|] eqn:E1; simpl; [|done]. intros E2 Hc.
    destruct (dev_declare_at kind d d1 r a E1) as [Hat Hsome]. rewrite Hc in Hat.
    case_decide as Ha; [|by apply (IH d1 d')].
    destruct (Hsome Ha) as [c1 Hc1]. rewrite Hc1 in Hat. symmetry in Hat.
    apply cell_declare_Some in Hat as (Hv & Ht & _ & Hg & _).
    destruct (IH d1 d' a c1 E2 Hc1) as (c' & Hc' & Hv' & Ht' & Hg').
    exists c'. split_and!; [done|congruence|congruence|by eapply grants_trans].
Qed.

Lemma cell_declare_zeroed (kind : CellKind) :
  cell_declare kind (Cell_zeroed kind) = Some (Cell_zeroed kind).
Proof.
  unfold cell_declare, widen_access. simpl. rewrite !bool_decide_eq_true_2 by done.
  by destruct kind.
Qed.

(** A fresh cell is zeroed, and stays so under the same kind. *)
Lemma dev_declare_all_zeroed (kind : CellKind) (rs : list Range) :
  ∀ (d d' : Device) (a : Z),
  dev_declare_all kind d rs = Some d' → d a = Some (Cell_zeroed kind) →
  d' a = Some (Cell_zeroed kind).
Proof.
  induction rs as [|r rs IH]; intros d d' a; simpl; [by intros [= <-]|].
  destruct (dev_declare kind d r) as [d1|] eqn:E1; simpl; [|done]. intros E2 Hc.
  apply (IH d1 d'); [done|]. destruct (dev_declare_at kind d d1 r a E1) as [-> _].
  rewrite Hc, cell_declare_zeroed. by case_decide.
Qed.

Lemma dev_declare_all_fresh (kind : CellKind) (rs : list Range) :
  ∀ (d d' : Device) (a : Z),
  dev_declare_all kind d rs = Some d' → d a = None →
  d' a = if decide (Exists (in_range a) rs) then Some (Cell_zeroed kind) else None.
Proof.
  induction rs as [|r rs IH]; intros d d' a; cbn [dev_declare_all].
  - intros [= <-] ->. by rewrite decide_False by (by intros ?%Exists_nil).
  - destruct (dev_declare kind d r) as [d1|] eqn:E1; simpl; [|done]. intros E2 Hd.
    destruct (dev_declare_at kind d d1 r a E1) as [Hat _]. rewrite Hd in Hat.
    case_decide as Ha.
    + rewrite decide_True by by apply Exists_cons_hd.
      by apply (dev_declare_all_zeroed kind rs d1).
    + rewrite (IH d1 d' a E2 Hat). pose proof (Exists_cons (in_range a) r rs).
      do 2 case_decide; try done; tauto.
Qed.

Lemma dev_declare_all_grants (kind : CellKind) (rs : list Range) :
  ∀ (d d' : Device) (a : Z),
  dev_declare_all kind d rs = Some d' → Exists (in_range a) rs →
  ∃ c, d' a = Some c ∧ ck_ty (c_kind c) = ck_ty kind ∧
    grants (ck_access (c_kind c)) (ck_access kind).
Proof.
  induction rs as [|r rs IH]; intros d d' a; simpl; [by intros _ ?%Exists_nil|].
  destruct (dev_declare kind d r) as [d1|] eqn:E1; simpl; [|done]. intros E2 He.
  apply Exists_cons in He as [Ha|He]; [|by apply (IH d1 d')].
  destruct (dev_declare_at kind d d1 r a E1) as [Hat Hsome].
  rewrite decide_True in Hat by done. destruct (Hsome Ha) as [c1 Hc1].
  destruct (dev_declare_all_keeps kind rs d1 d' a c1 E2 Hc1) as (c' & Hc' & _ & Ht & Hg).
  exists c'. rewrite Hc1 in Hat. destruct (d a) as [c|].
  - symmetry in Hat. apply cell_declare_Some in Hat as (_ & Ht1 & Htk & _ & Hg1).
    split_and!; [done|congruence|by eapply grants_trans].
  - injection Hat as ->. by split_and!.
Qed.

Lemma Exists_perm {A} (P : A → Prop) (l k : list A) : l ≡ₚ k → Exists P l ↔ Exists P k.
Proof. intros Hp. rewrite !list.Exists_exists. by setoid_rewrite Hp. Qed.

(** [Memory::add_ranges] is all or nothing. Refused, it leaves the store
    unchanged. Accepted, every declared cell of the device keeps its value and
    type and loses no access, every address of the ranges is declared with the
    asked type and at least the asked access, the new cells are zero, and no
    other address becomes declared. *)
Theorem add_ranges_spec mem id kind rs b mem' :
  Memory_wf mem → Forall Range_wf rs → rs ≠ [] →
  Memory_add_ranges mem id kind rs = Ret (b, mem') →
  if b then
    ∃ d', Memory_abs mem' id = Some d' ∧
    ∀ a,
      (∀ c, default (λ _, None) (Memory_abs mem id) a = Some c →
         ∃ c', d' a = Some c' ∧ c_value c' = c_value c ∧
           ck_ty (c_kind c') = ck_ty (c_kind c) ∧
           grants (ck_access (c_kind c')) (ck_access (c_kind c))) ∧
      (default (λ _, None) (Memory_abs mem id) a = None →
         d' a = if decide (Exists (in_range a) rs) then Some (Cell_zeroed kind) else None) ∧
      (Exists (in_range a) rs →
         ∃ c, d' a = Some c ∧ ck_ty (c_kind c) = ck_ty kind ∧
           grants (ck_access (c_kind c)) (ck_access kind))
  else mem' = mem.
Proof.
  intros Hwf Hrs Hne Hadd. destruct b.
  2:{ unfold Memory_add_ranges in Hadd.
      destruct (add_range_loop _ _ _) as [[[|p m]|]|]; simpl in Hadd; by simplify_eq. }
  destruct (Memory_add_ranges_refines mem id kind rs Hwf Hrs) as (mem1 & Ha & _ & _ & Hst).
  rewrite Hadd in Ha. injection Ha as Hb <-. specialize (Hst id).
  unfold store_declare in *. destruct rs as [|r rs]; [done|].
  destruct (dev_declare_all _ _ _) as [d|] eqn:Hd; [|done]. simpl in Hst.
  rewrite store_set_same in Hst. inversion Hst as [d' d2 Heq Hd'|]; subst.
  exists d'. split; [done|]. intros a. rewrite (Heq a).
  pose proof (Exists_perm (in_range a) _ _ (sorted_by_start_perm (r :: rs))) as Hp.
  split_and!.
  - intros c Hc. by eapply dev_declare_all_keeps.
  - intros Hn. rewrite (dev_declare_all_fresh _ _ _ _ a Hd Hn).
    do 2 case_decide; try done; tauto.
  - rewrite <- Hp. by apply (dev_declare_all_grants kind _ _ _ a Hd).
Qed.
End props.

(** ** Witnesses *)

(** The device of [demo_memory] after a successful write over two slices. *)
Definition demo_written : Memory Z unit :=
  match Memory_write demo_memory 1 CT_Register (mkRange 3 6) [100; 200; 300] with
  | Ret (_, mem) => mem
  | Panic => demo_memory
  end.

Lemma demo_range_wf (s e : Z) : (0 <=? s) && (s <=? e) && (e <=? 1000) = true → Range_wf (mkRange s e).
Proof. intros H. zbool. unfold Range_wf, usize_max; simpl. lia. Qed.

Lemma memory_write_read_witness :
  Memory_read demo_written 1 CT_Register (mkRange 3 6) = Ret (Ok [100; 200; 300]).
Proof.
  apply (memory_write_read demo_memory demo_written 1 CT_Register (mkRange 3 6)).
  - exact demo_memory_wf.
  - by apply demo_range_wf.
  - vm_compute. reflexivity.
  - vm_compute. reflexivity.
Defined.

Lemma memory_write_frame_witness :
  Memory_read demo_written 1 CT_Register (mkRange 0 3) =
  Memory_read demo_memory 1 CT_Register (mkRange 0 3).
Proof.
  apply (memory_write_frame demo_memory demo_written 1 CT_Register (mkRange 3 6)
    [100; 200; 300] (Ok tt)).
  - exact demo_memory_wf.
  - by apply demo_range_wf.
  - by apply demo_range_wf.
  - right. intros x. unfold in_range. simpl. lia.
  - vm_compute. reflexivity.
Defined.

Lemma memory_write_error_witness :
  Memory_write_from demo_memory WS_Remote 1 CT_Register (mkRange 1 3) [5; 6] =
    Ret (Err AddressNotWritable, demo_memory, []) ∧
  ∃ d a, Memory_abs demo_memory 1 = Some d ∧ in_range a (mkRange 1 3) ∧
    (d a = None ∨ ∃ c, d a = Some c ∧ Cell_accepts_write c CT_Register = false).
Proof.
  assert (Memory_write_from demo_memory WS_Remote 1 CT_Register (mkRange 1 3) [5; 6] =
    Ret (Err AddressNotWritable, demo_memory, [])) as Hw by (vm_compute; reflexivity).
  split; [exact Hw|].
  destruct (memory_write_error _ _ _ _ _ _ _ _ _ demo_memory_wf
    (demo_range_wf 1 3 eq_refl) Hw) as (_ & _ & He). exact He.
Defined.

Lemma memory_write_reports_witness :
  ∃ old, Memory_read_unchecked demo_memory 1 (mkRange 3 6) = Ret (Some old) ∧
    [mkTapCall tt (mkStoreWrite WS_Poll 1 (mkRange 3 6) [11; 12; 13] [100; 200; 300])
       demo_written] =
    [mkTapCall tt (mkStoreWrite WS_Poll 1 (mkRange 3 6) old [100; 200; 300]) demo_written] ∧
    Memory_read_unchecked demo_written 1 (mkRange 3 6) = Ret (Some [100; 200; 300]).
Proof.
  apply (memory_write_reports demo_memory WS_Poll 1 CT_Register (mkRange 3 6)
    [100; 200; 300] demo_written).
  - exact demo_memory_wf.
  - by apply demo_range_wf.
  - vm_compute. reflexivity.
  - vm_compute. reflexivity.
Defined.

(** The device of [demo_memory] after a forced write over its end. *)
Definition demo_forced : Memory Z unit :=
  match Memory_write_unchecked demo_memory 1 (mkRange 9 11) [70; 80] with
  | Ret (_, mem) => mem
  | Panic => demo_memory
  end.

(** A forced write over the end of the device: answered [false], yet its first
    word is stored. *)
Lemma memory_write_unchecked_prefix_witness :
  (Memory_write_unchecked demo_memory 1 (mkRange 9 11) [70; 80] = Ret (false, demo_forced) ∧
   Memory_read_unchecked demo_forced 1 (mkRange 8 10) = Ret (Some [0; 70])) ∧
  ∃ b mem' d', Memory_write_unchecked demo_memory 1 (mkRange 9 11) [70; 80] = Ret (b, mem') ∧
    Memory_abs mem' 1 = Some d'.
Proof.
  split.
  - split; vm_compute; reflexivity.
  - destruct (memory_write_unchecked_prefix demo_memory 1 (mkRange 9 11) [70; 80]
      (cell_at (default [] (m_slices demo_memory !! 1))))
      as (b & mem' & d' & H1 & H2 & _).
    + exact demo_memory_wf.
    + by apply demo_range_wf.
    + reflexivity.
    + vm_compute. reflexivity.
    + exists b, mem', d'. split; assumption.
Defined.

(** A partial write: the word of the declared address 9 is stored although
    address 10 is not declared and the answer is [false]. *)
Example unchecked_write_is_partial :
  Memory_write_unchecked demo_memory 1 (mkRange 9 11) [70; 80] = Ret (false, demo_forced) ∧
  Memory_read_unchecked demo_memory 1 (mkRange 9 10) = Ret (Some [0]) ∧
  Memory_read_unchecked demo_forced 1 (mkRange 9 10) = Ret (Some [70]).
Proof. split_and!; vm_compute; reflexivity. Qed.

(** An unchecked read of a range of 2^62 addresses panics before it looks for
    cells, a checked one is refused; declaring that range panics as well. *)
Example huge_ranges_panic :
  Memory_read_unchecked demo_memory 1 (mkRange 0 (2 ^ 62)) = Panic ∧
  Memory_read demo_memory 1 CT_Register (mkRange 0 (2 ^ 62)) = Ret (Err AddressNotReadable) ∧
  Memory_add_ranges demo_memory 2 (CellKind_read CT_Register) [mkRange 0 (2 ^ 62)] = Panic.
Proof. split_and!; vm_compute; reflexivity. Qed.

Lemma add_ranges_spec_witness :
  ∃ mem', Memory_add_ranges demo_memory 1 (CellKind_read CT_Register)
      [mkRange 8 12; mkRange 20 21] = Ret (true, mem') ∧
    ∃ d', Memory_abs mem' 1 = Some d' ∧ d' 20 = Some (Cell_zeroed (CellKind_read CT_Register)).
Proof.
  destruct (Memory_add_ranges demo_memory 1 (CellKind_read CT_Register)
      [mkRange 8 12; mkRange 20 21]) as [[b mem']|] eqn:E.
  - assert (b = true) as -> by (vm_compute in E; by inversion E).
    exists mem'. split; [reflexivity|].
    destruct (add_ranges_spec demo_memory 1 (CellKind_read CT_Register)
      [mkRange 8 12; mkRange 20 21] true mem' demo_memory_wf) as (d' & Hd & Hall).
    + repeat constructor; unfold usize_max; simpl; lia.
    + done.
    + exact E.
    + exists d'. split; [exact Hd|]. destruct (Hall 20) as (_ & Hfresh & _).
      rewrite Hfresh by (vm_compute; reflexivity). vm_compute. reflexivity.
  - exfalso. vm_compute in E. discriminate E.
Defined.
