(* ===== verification/Ring.v ===== *)
(** * The ring buffer

    Models [ferrowl-ring/src/lib.rs]: [Ring<T, CAP>], a fixed array of
    [Option<T>] slots with a head index and a length. Abstractly it is the
    list of its items, oldest first; the refinement is stated by [Ring_rep]. *)

From stdpp Require Import base list numbers.
From S2P Require Import Prelude.

Section ring.
Context {T : Type} (CAP : nat).

Record Ring := mkRing { ring_buf : list (option T); ring_head : nat; ring_len : nat }.

Definition Ring_new : Ring := mkRing (replicate CAP None) 0 0.

Definition Ring_capacity (self : Ring) : nat := CAP.
Definition Ring_len (self : Ring) : nat := ring_len self.
Definition Ring_is_empty (self : Ring) : bool := ring_len self =? 0.
Definition Ring_is_full (self : Ring) : bool := ring_len self =? CAP.

(** [self.ring_buf[idx] = v], a panic out of range. *)
Definition set_slot (b : list (option T)) (idx : nat) (v : option T)
  : Outcome (list (option T)) :=
  _ ← index b (Z.of_nat idx); Ret (<[idx := v]> b).

Definition Ring_push (self : Ring) (item : T) : Outcome Ring :=
  if CAP =? 0 then Ret self
  else if ring_len self =? CAP then
    b ← set_slot (ring_buf self) (ring_head self) (Some item);
    Ret (mkRing b ((ring_head self + 1) mod CAP) (ring_len self))
  else
    let idx := (ring_head self + ring_len self) mod CAP in
    b ← set_slot (ring_buf self) idx (Some item);
    Ret (mkRing b (ring_head self) (ring_len self + 1)).

Definition Ring_peek (self : Ring) : Outcome (option T) :=
  if Ring_is_empty self then Ret None
  else index (ring_buf self) (Z.of_nat (ring_head self)).

(** [ring_buf.split_at(head)], the back part first, the [None] slots filtered out;
    [split_at] panics past the end. *)
Definition Ring_iter (self : Ring) : Outcome (list T) :=
  if ring_head self <=? length (ring_buf self)
  then Ret (omap id (drop (ring_head self) (ring_buf self) ++ take (ring_head self) (ring_buf self)))
  else Panic.

Definition Ring_peek_n (self : Ring) (n : nat) : Outcome (list T) :=
  l ← Ring_iter self; Ret (take n l).

(** [for item in ring.iter_mut() { *item = f(item) }] *)
Definition Ring_iter_mut (self : Ring) (f : T → T) : Ring :=
  mkRing ((λ slot : option T, f <$> slot) <$> ring_buf self) (ring_head self) (ring_len self).

Definition Ring_pop (self : Ring) : Outcome (option T * Ring) :=
  if Ring_is_empty self then Ret (None, self)
  else
    item ← index (ring_buf self) (Z.of_nat (ring_head self));
    Ret (item,
         mkRing (<[ring_head self := None]> (ring_buf self)) ((ring_head self + 1) mod CAP) (ring_len self - 1)).

(** [(0..count).filter_map(|_| self.pop()).collect()] *)
Fixpoint pop_loop (count : nat) (self : Ring) : Outcome (list T * Ring) :=
  match count with
  | O => Ret ([], self)
  | S count' =>
      '(item, self') ← Ring_pop self;
      '(items, self'') ← pop_loop count' self';
      Ret (match item with Some x => x :: items | None => items end, self'')
  end.

Definition Ring_pop_n (self : Ring) (n : nat) : Outcome (list T * Ring) :=
  pop_loop (Nat.min n (ring_len self)) self.

Definition Ring_clear (self : Ring) : Ring :=
  mkRing ((λ _ : option T, None) <$> ring_buf self) 0 0.

Definition Ring_from_iter (items : list T) : Outcome Ring :=
  foldl (λ r item, r ≫= λ ring, Ring_push ring item) (Ret Ring_new) items.

(** ** Representation *)

(** The slots from the head on, wrapping around. *)
Definition rot (self : Ring) : list (option T) :=
  drop (ring_head self) (ring_buf self) ++ take (ring_head self) (ring_buf self).

(** The ring holds [items], oldest first; the slots past them are empty. *)
Definition Ring_rep (self : Ring) (items : list T) : Prop :=
  length (ring_buf self) = CAP ∧ (ring_head self < CAP ∨ ring_head self = 0) ∧
  ring_len self = length items ∧ length items ≤ CAP ∧
  rot self = (Some <$> items) ++ replicate (CAP - length items) None.

Lemma rot_lookup (self : Ring) (i : nat) :
  length (ring_buf self) = CAP → ring_head self < CAP → i < CAP →
  rot self !! i = ring_buf self !! ((ring_head self + i) mod CAP).
Proof.
  intros Hl Hh Hi. unfold rot. destruct (decide (ring_head self + i < CAP)).
  - rewrite Nat.mod_small by lia. rewrite lookup_app_l by (rewrite length_drop; lia).
    apply lookup_drop.
  - rewrite lookup_app_r by (rewrite length_drop; lia). rewrite length_drop.
    replace ((ring_head self + i) mod CAP) with (ring_head self + i - CAP).
    + rewrite lookup_take_lt by lia. f_equal. lia.
    + replace (ring_head self + i) with (ring_head self + i - CAP + 1 * CAP) at 2 by lia.
      rewrite Nat.Div0.mod_add. symmetry. apply Nat.mod_small. lia.
Qed.

Lemma length_rot (self : Ring) : length (rot self) = length (ring_buf self).
Proof. unfold rot. rewrite length_app, length_drop, length_take. lia. Qed.

(** Storing in the [i]-th slot from the head. *)
Lemma rot_insert (self : Ring) (i : nat) (v : option T) (n : nat) :
  length (ring_buf self) = CAP → ring_head self < CAP → i < CAP →
  rot (mkRing (<[(ring_head self + i) mod CAP := v]> (ring_buf self)) (ring_head self) n) =
  <[i := v]> (rot self).
Proof.
  intros Hl Hh Hi. apply list_eq. intros j.
  destruct (decide (j < CAP)) as [Hj|Hj].
  - rewrite rot_lookup by (simpl; rewrite ?length_insert; done). simpl.
    destruct (decide (i = j)) as [->|Hne].
    + rewrite !list_lookup_insert_eq; [done|rewrite length_rot; lia|].
      rewrite Hl. apply Nat.mod_upper_bound. lia.
    + rewrite !list_lookup_insert_ne; [by rewrite rot_lookup|done|].
      intros Heq. apply Hne.
      assert (∀ k, k < CAP → (ring_head self + k) mod CAP =
        if decide (ring_head self + k < CAP) then ring_head self + k else ring_head self + k - CAP) as Hm.
      { intros k Hk. case_decide; [by apply Nat.mod_small|].
        replace (ring_head self + k) with (ring_head self + k - CAP + 1 * CAP) at 1 by lia.
        rewrite Nat.Div0.mod_add. apply Nat.mod_small. lia. }
      rewrite !Hm in Heq by done. repeat case_decide; lia.
  - rewrite !lookup_ge_None_2; [done| |].
    + rewrite length_insert, length_rot. lia.
    + rewrite length_rot; simpl. rewrite length_insert. lia.
Qed.

(** Advancing the head moves the first slot to the end. *)
Lemma rot_advance (b : list (option T)) (h n1 n2 : nat) (x : option T) (l : list (option T)) :
  length b = CAP → h < CAP → rot (mkRing b h n1) = x :: l →
  rot (mkRing b ((h + 1) mod CAP) n2) = l ++ [x].
Proof.
  intros Hl Hh. unfold rot; simpl.
  destruct (drop h b) as [|y d] eqn:Ed.
  { apply (f_equal length) in Ed. rewrite length_drop in Ed. simpl in Ed. lia. }
  simpl. intros [= -> <-].
  assert (b !! h = Some x) as Hx.
  { rewrite <- (Nat.add_0_r h), <- lookup_drop, Ed. done. }
  assert (drop (S h) b = d) as Hd.
  { rewrite <- Nat.add_1_r, <- drop_drop, Ed. done. }
  destruct (decide (h + 1 = CAP)) as [He|He].
  - rewrite He, Nat.Div0.mod_same. rewrite drop_0, take_0, app_nil_r.
    rewrite drop_ge in Hd by lia. subst d. simpl.
    rewrite <- (take_S_r b h x Hx). symmetry. apply take_ge. lia.
  - rewrite Nat.mod_small by lia. rewrite Nat.add_1_r, Hd, (take_S_r b h x Hx).
    by rewrite app_assoc.
Qed.

(** ** Operations *)

Lemma set_slot_Ret (b : list (option T)) (i : nat) (v : option T) :
  i < length b → set_slot b i v = Ret (<[i := v]> b).
Proof.
  intros Hi. unfold set_slot. destruct (lookup_lt_is_Some_2 b i Hi) as [x Hx].
  rewrite (index_Ret b (Z.of_nat i) x); [done|lia|by rewrite Nat2Z.id].
Qed.

Lemma Ring_rep_new : Ring_rep Ring_new [].
Proof.
  unfold Ring_rep, rot; simpl. rewrite length_replicate, app_nil_r, Nat.sub_0_r.
  split_and!; [done|lia|done|lia|done].
Qed.

(** What pushing does to the list of items. *)
Definition items_push (items : list T) (x : T) : list T :=
  drop (S (length items) - CAP) (items ++ [x]).

Lemma Ring_push_rep (self : Ring) (items : list T) (x : T) :
  Ring_rep self items →
  ∃ self', Ring_push self x = Ret self' ∧ Ring_rep self' (items_push items x).
Proof.
  intros (Hl & Hh & Hn & Hc & Hr). unfold Ring_push, items_push.
  destruct (CAP =? 0) eqn:E0; [apply Nat.eqb_eq in E0|apply Nat.eqb_neq in E0].
  { exists self. split; [done|]. assert (items = []) as -> by (destruct items; simpl in *; [done|lia]).
    rewrite E0. simpl. split_and!; [lia|lia|done|simpl; lia|]. rewrite Hr. by rewrite E0. }
  assert (ring_head self < CAP) as Hh' by lia. clear Hh.
  destruct (ring_len self =? CAP) eqn:Ef; [apply Nat.eqb_eq in Ef|apply Nat.eqb_neq in Ef].
  - rewrite set_slot_Ret by lia. cbn [mbind outcome_bind].
    destruct items as [|y items]; [simpl in *; lia|].
    replace (S (length (y :: items)) - CAP) with 1 by lia.
    change (drop 1 ((y :: items) ++ [x])) with (items ++ [x]).
    eexists. split; [done|]. simpl in *.
    split_and!; simpl; [by rewrite length_insert|left; by apply Nat.mod_upper_bound
      |rewrite length_app; simpl; lia|rewrite length_app; simpl; lia|].
    pose proof (rot_insert self 0 (Some x) 0 Hl Hh' ltac:(lia)) as Hi.
    rewrite Nat.add_0_r, Nat.mod_small in Hi by done. rewrite Hr in Hi. simpl in Hi.
    apply (rot_advance _ _ _ (ring_len self)) in Hi; [|by rewrite length_insert|done].
    rewrite Hi. rewrite fmap_app, length_app; simpl.
    replace (CAP - S (length items)) with 0 by lia.
    replace (CAP - (length items + 1)) with 0 by lia. simpl. by rewrite !app_nil_r.
  - rewrite set_slot_Ret by (rewrite Hl; by apply Nat.mod_upper_bound).
    cbn [mbind outcome_bind]. eexists. split; [done|].
    replace (S (length items) - CAP) with 0 by lia. rewrite drop_0.
    split_and!; simpl; [by rewrite length_insert|by left|rewrite length_app; simpl; lia
      |rewrite length_app; simpl; lia|].
    rewrite (rot_insert self (ring_len self) (Some x)) by lia.
    rewrite Hr, Hn, fmap_app, length_app; simpl.
    rewrite <- (Nat.add_0_r (length items)), <- (length_fmap Some items) at 1.
    rewrite insert_app_r.
    replace (CAP - length items) with (S (CAP - (length items + 1))) by lia. simpl.
    by rewrite <- app_assoc.
Qed.

Lemma Ring_head_index (self : Ring) (x : T) (items : list T) :
  Ring_rep self (x :: items) → index (ring_buf self) (Z.of_nat (ring_head self)) = Ret (Some x).
Proof.
  intros (Hl & Hh & Hn & Hc & Hr). apply index_Ret; [lia|]. rewrite Nat2Z.id.
  simpl in Hc. pose proof (rot_lookup self 0 Hl ltac:(lia) ltac:(lia)) as Hx.
  rewrite Nat.add_0_r, Nat.mod_small in Hx by lia. by rewrite <- Hx, Hr.
Qed.

Lemma Ring_is_empty_rep (self : Ring) (items : list T) :
  Ring_rep self items → Ring_is_empty self = match items with [] => true | _ => false end.
Proof. intros (_ & _ & Hn & _). unfold Ring_is_empty. rewrite Hn. by destruct items. Qed.

Lemma Ring_peek_rep (self : Ring) (items : list T) :
  Ring_rep self items → Ring_peek self = Ret (head items).
Proof.
  intros Hrep. unfold Ring_peek. rewrite (Ring_is_empty_rep _ _ Hrep).
  destruct items as [|x items]; [done|]. by rewrite (Ring_head_index self x items).
Qed.

Lemma Ring_pop_rep (self : Ring) (items : list T) :
  Ring_rep self items →
  ∃ self', Ring_pop self = Ret (head items, self') ∧ Ring_rep self' (tail items).
Proof.
  intros Hrep. unfold Ring_pop. rewrite (Ring_is_empty_rep _ _ Hrep).
  destruct items as [|x items]; [by exists self|].
  rewrite (Ring_head_index self x items) by done. cbn [mbind outcome_bind].
  eexists. split; [done|]. destruct Hrep as (Hl & Hh & Hn & Hc & Hr). simpl in *.
  assert (ring_head self < CAP) as Hh' by lia.
  split_and!; simpl; [by rewrite length_insert|left; apply Nat.mod_upper_bound; lia|lia|lia|].
  pose proof (rot_insert self 0 None 0 Hl Hh' ltac:(lia)) as Hi.
  rewrite Nat.add_0_r, Nat.mod_small in Hi by done. rewrite Hr in Hi. simpl in Hi.
  apply (rot_advance _ _ _ (ring_len self - 1)) in Hi; [|by rewrite length_insert|done].
  rewrite Hi, <- app_assoc. f_equal.
  replace (CAP - length items) with (CAP - S (length items) + 1) by lia.
  by rewrite replicate_add.
Qed.

Lemma omap_id_items (items : list T) (n : nat) :
  omap id ((Some <$> items) ++ replicate n None) = items.
Proof.
  rewrite omap_app. replace (omap id (replicate n (@None T))) with (@nil T)
    by (induction n; done).
  rewrite app_nil_r. induction items as [|x items IH]; simpl; [done|]. by f_equal.
Qed.

Lemma Ring_iter_rep (self : Ring) (items : list T) :
  Ring_rep self items → Ring_iter self = Ret items.
Proof.
  intros (Hl & Hh & Hn & Hc & Hr). unfold Ring_iter.
  rewrite (proj2 (Nat.leb_le _ _)) by lia. fold (rot self).
  by rewrite Hr, omap_id_items.
Qed.

Lemma pop_loop_rep (n : nat) : ∀ (self : Ring) (items : list T),
  Ring_rep self items → n ≤ length items →
  ∃ self', pop_loop n self = Ret (take n items, self') ∧ Ring_rep self' (drop n items).
Proof.
  induction n as [|n IH]; intros self items Hrep Hn; [by exists self|].
  destruct (Ring_pop_rep self items Hrep) as (self1 & Hp & Hrep1).
  destruct items as [|x items]; simpl in Hn; [lia|]. simpl in *. rewrite Hp.
  cbn [mbind outcome_bind].
  destruct (IH self1 items Hrep1 ltac:(lia)) as (self' & -> & Hrep'). by exists self'.
Qed.

Lemma Ring_clear_rep (self : Ring) (items : list T) :
  Ring_rep self items → Ring_rep (Ring_clear self) [].
Proof.
  intros (Hl & _). unfold Ring_rep, Ring_clear, rot; simpl.
  rewrite length_fmap, app_nil_r, Nat.sub_0_r. split_and!; [done|lia|done|lia|].
  rewrite drop_0, <- Hl. clear. induction (ring_buf self) as [|o l IH]; [done|].
  rewrite fmap_cons, IH. done.
Qed.

Lemma Ring_iter_mut_rep (self : Ring) (items : list T) (f : T → T) :
  Ring_rep self items → Ring_rep (Ring_iter_mut self f) (f <$> items).
Proof.
  intros (Hl & Hh & Hn & Hc & Hr). unfold Ring_rep, Ring_iter_mut, rot in *; simpl.
  rewrite !length_fmap. split_and!; [done..|].
  rewrite <- fmap_drop, <- fmap_take, <- fmap_app, Hr, fmap_app. f_equal.
  - by rewrite <- !list_fmap_compose.
  - by rewrite fmap_replicate.
Qed.

(** ** The abstract FIFO *)

Inductive RingOp :=
| RPush (x : T) | RPop | RPopN (n : nat) | RPeek | RPeekN (n : nat)
| RLen | RMap (f : T → T) | RClear.

Inductive RingOut :=
| RDone | RItem (x : option T) | RItems (l : list T) | RCount (n : nat).

Definition Ring_step (self : Ring) (op : RingOp) : Outcome (RingOut * Ring) :=
  match op with
  | RPush x => self' ← Ring_push self x; Ret (RDone, self')
  | RPop => '(x, self') ← Ring_pop self; Ret (RItem x, self')
  | RPopN n => '(l, self') ← Ring_pop_n self n; Ret (RItems l, self')
  | RPeek => x ← Ring_peek self; Ret (RItem x, self)
  | RPeekN n => l ← Ring_peek_n self n; Ret (RItems l, self)
  | RLen => Ret (RCount (Ring_len self), self)
  | RMap f => Ret (RDone, Ring_iter_mut self f)
  | RClear => Ret (RDone, Ring_clear self)
  end.

(** The same operations on a list of at most [CAP] items. *)
Definition fifo_step (items : list T) (op : RingOp) : RingOut * list T :=
  match op with
  | RPush x => (RDone, items_push items x)
  | RPop => (RItem (head items), tail items)
  | RPopN n => (RItems (take n items), drop n items)
  | RPeek => (RItem (head items), items)
  | RPeekN n => (RItems (take n items), items)
  | RLen => (RCount (length items), items)
  | RMap f => (RDone, f <$> items)
  | RClear => (RDone, [])
  end.

Fixpoint Ring_run (self : Ring) (ops : list RingOp) : Outcome (list RingOut * Ring) :=
  match ops with
  | [] => Ret ([], self)
  | op :: ops' =>
      '(out, self') ← Ring_step self op;
      '(outs, self'') ← Ring_run self' ops'; Ret (out :: outs, self'')
  end.

Fixpoint fifo_run (items : list T) (ops : list RingOp) : list RingOut * list T :=
  match ops with
  | [] => ([], items)
  | op :: ops' =>
      let '(out, items') := fifo_step items op in
      let '(outs, items'') := fifo_run items' ops' in (out :: outs, items'')
  end.

Lemma Ring_step_rep (self : Ring) (items : list T) (op : RingOp) :
  Ring_rep self items →
  ∃ self', Ring_step self op = Ret ((fifo_step items op).1, self') ∧
    Ring_rep self' (fifo_step items op).2.
Proof.
  intros Hrep. destruct op as [x| |n| |n| |f|]; simpl.
  - destruct (Ring_push_rep self items x Hrep) as (self' & -> & ?). by exists self'.
  - destruct (Ring_pop_rep self items Hrep) as (self' & -> & ?). by exists self'.
  - unfold Ring_pop_n. rewrite (proj1 (proj2 (proj2 Hrep))).
    destruct (pop_loop_rep (Nat.min n (length items)) self items Hrep)
      as (self' & -> & Hrep'); [lia|].
    cbn [mbind outcome_bind]. exists self'.
    destruct (decide (n ≤ length items)).
    + by rewrite Nat.min_l in * by done.
    + rewrite Nat.min_r, drop_all, take_ge in * by lia.
      rewrite take_ge, drop_ge by lia. done.
  - rewrite (Ring_peek_rep self items Hrep). by exists self.
  - unfold Ring_peek_n. rewrite (Ring_iter_rep self items Hrep). by exists self.
  - exists self. split; [|done]. unfold Ring_len. by rewrite (proj1 (proj2 (proj2 Hrep))).
  - eexists. split; [done|by apply Ring_iter_mut_rep].
  - eexists. split; [done|by eapply Ring_clear_rep].
Qed.

(** C23: every sequence of ring operations from an empty ring, for every
    capacity including zero, returns without an index panic and answers as a
    FIFO list that keeps its newest [CAP] items. *)
Theorem ring_refines_fifo (ops : list RingOp) :
  ∃ self', Ring_run Ring_new ops = Ret ((fifo_run [] ops).1, self') ∧
    Ring_iter self' = Ret (fifo_run [] ops).2 ∧ length (fifo_run [] ops).2 ≤ CAP.
Proof.
  assert (∀ self items, Ring_rep self items →
    ∃ self', Ring_run self ops = Ret ((fifo_run items ops).1, self') ∧
      Ring_rep self' (fifo_run items ops).2) as Hrun.
  { induction ops as [|op ops IH]; intros self items Hrep; simpl; [by exists self|].
    destruct (Ring_step_rep self items op Hrep) as (self1 & -> & Hrep1).
    cbn [mbind outcome_bind]. destruct (fifo_step items op) as [out items1]; simpl in *.
    destruct (IH self1 items1 Hrep1) as (self' & -> & Hrep').
    destruct (fifo_run items1 ops) as [outs items']. by exists self'. }
  destruct (Hrun _ _ Ring_rep_new) as (self' & Heq & Hrep). exists self'.
  split_and!; [done|by apply Ring_iter_rep|apply Hrep].
Qed.

(** Collecting into a ring keeps exactly the last [CAP] items, in order. *)
Theorem ring_from_iter_last (items : list T) :
  ∃ self, Ring_from_iter items = Ret self ∧
    Ring_iter self = Ret (drop (length items - CAP) items).
Proof.
  assert (∃ self, Ring_from_iter items = Ret self ∧
    Ring_rep self (drop (length items - CAP) items)) as (self & Heq & Hrep).
  { unfold Ring_from_iter. induction items as [|x items IH] using rev_ind.
    - exists Ring_new. split; [done|apply Ring_rep_new].
    - destruct IH as (self & Hself & Hrep). rewrite foldl_app. simpl. rewrite Hself.
      cbn [mbind outcome_bind].
      destruct (Ring_push_rep self _ x Hrep) as (self' & -> & Hrep').
      exists self'. split; [done|]. unfold items_push in Hrep'.
      rewrite length_app, length_drop in *. simpl.
      assert (drop (length items + 1 - CAP) (items ++ [x]) =
        drop (S (length items - (length items - CAP)) - CAP)
          (drop (length items - CAP) items ++ [x])) as ->; [|done].
      rewrite <- (drop_app_le items [x] (length items - CAP)) by lia.
      rewrite drop_drop. f_equal. lia. }
  exists self. split; [done|]. by apply Ring_iter_rep.
Qed.
End ring.
Arguments Ring T : clear implicits.
Arguments RingOp T : clear implicits.
Arguments RingOut T : clear implicits.
