(* ===== verification/Backoff.v ===== *)
(** * Reconnect backoff

    Models [ferrowl-util/src/backoff.rs]. A [Duration] is its number of
    nanoseconds. The closures [attempt] and [wait_abortable] are functions on
    the state [S] of their environment; an attempt that is still running when
    the environment's events are used up answers [None]. The loop takes fuel,
    and the theorems say how much is enough. *)

From stdpp Require Import base list numbers.
From S2P Require Import Prelude.

Local Open Scope Z_scope.

(** [Duration::MAX]: [u64::MAX] seconds and 999,999,999 ns. *)
Definition duration_max : Z := 2 ^ 64 * 10 ^ 9 - 1.

Definition from_secs (s : Z) : Z := s * 10 ^ 9.

(** [backoff * 2], which panics on overflow. *)
Definition duration_double (d : Z) : Outcome Z :=
  if d * 2 <=? duration_max then Ret (d * 2) else Panic.

Record BackoffPolicy := mkBackoffPolicy { bp_initial : Z; bp_max : Z }.

Definition BackoffPolicy_default : BackoffPolicy :=
  mkBackoffPolicy (from_secs 1) (from_secs 30).

Inductive AttemptOutcome (E : Type) :=
| AO_Done
| AO_Failed (error : E) (reconnect reset : bool).
Arguments AO_Done {E}.
Arguments AO_Failed {E} error reconnect reset.

Section backoff.
Context {E S : Type}.
Context (attempt : S → Outcome (option (AttemptOutcome E) * S)).
Context (wait_abortable : Z → S → bool * S).

(** The loop; [None] while it is still running. *)
Fixpoint backoff_loop (policy : BackoffPolicy) (fuel : nat) (backoff : Z) (s : S)
  : Outcome (option (Result unit E) * S) :=
  match fuel with
  | O => Ret (None, s)
  | Datatypes.S fuel' =>
      '(outcome, s1) ← attempt s;
      match outcome with
      | None => Ret (None, s1)
      | Some AO_Done => Ret (Some (Ok tt), s1)
      | Some (AO_Failed error reconnect reset) =>
          if negb reconnect then Ret (Some (Err error), s1)
          else
            let backoff := if reset then bp_initial policy else backoff in
            let '(aborted, s2) := wait_abortable backoff s1 in
            if aborted then Ret (Some (Ok tt), s2)
            else
              d ← duration_double backoff;
              backoff_loop policy fuel' (Z.min d (bp_max policy)) s2
      end
  end.

Definition run_with_backoff (policy : BackoffPolicy) (fuel : nat) (s : S)
  : Outcome (option (Result unit E) * S) :=
  backoff_loop policy fuel (bp_initial policy) s.
End backoff.

(** ** Waiting while draining commands *)

(** What the two branches of the [select!] see next: a command (or the
    channel's end) arriving at a time; on a tie with the deadline, which branch
    is polled first. *)
Record Arrival (T : Type) := mkArrival {
  ar_time : Z;
  ar_cmd : option T;
  ar_sleep_first : bool
}.
Arguments mkArrival {T}.
Arguments ar_time {T}.
Arguments ar_cmd {T}.
Arguments ar_sleep_first {T}.

(** [wait_backoff]: the answer, the time it was given at, and how many
    commands were logged as dropped. *)
Fixpoint wait_loop {T} (is_terminate : T → bool) (deadline : Z) (arrivals : list (Arrival T))
    (dropped : nat) : bool * Z * nat :=
  match arrivals with
  | [] => (false, deadline, dropped)
  | a :: arrivals' =>
      if (deadline <? ar_time a) || ((deadline =? ar_time a) && ar_sleep_first a)
      then (false, deadline, dropped)
      else
        match ar_cmd a with
        | None => (true, ar_time a, dropped)
        | Some cmd =>
            if is_terminate cmd then (true, ar_time a, dropped)
            else wait_loop is_terminate deadline arrivals' (S dropped)
        end
  end.

Definition wait_backoff {T} (is_terminate : T → bool) (now backoff : Z)
    (arrivals : list (Arrival T)) : bool * Z * nat :=
  wait_loop is_terminate (now + backoff) arrivals 0.

(** ** The schedule *)

Section schedule.
Context {E : Type} (attempts : nat → AttemptOutcome E) (aborts : nat → bool).

(** An environment that plays the script and records the waits. *)
Definition script_attempt (s : nat * list Z)
  : Outcome (option (AttemptOutcome E) * (nat * list Z)) :=
  Ret (Some (attempts s.1), s).
Definition script_wait (d : Z) (s : nat * list Z) : bool * (nat * list Z) :=
  (aborts s.1, (S s.1, s.2 ++ [d])).

Definition resets (k : nat) : bool :=
  match attempts k with AO_Failed _ _ reset => reset | AO_Done => false end.

(** How many failures ago the backoff last started over, at the [k]-th wait. *)
Fixpoint since_reset (k : nat) : nat :=
  match k with
  | O => 0
  | S k' => if resets (S k') then 0 else S (since_reset k')
  end.

(** The length of the [k]-th wait: the initial delay, doubled per failure
    since, up to the maximum. *)
Definition wait_length (policy : BackoffPolicy) (k : nat) : Z :=
  match since_reset k with
  | O => bp_initial policy
  | S _ as n => Z.min (bp_initial policy * 2 ^ Z.of_nat n) (bp_max policy)
  end.

Definition policy_ok (policy : BackoffPolicy) : Prop :=
  0 <= bp_initial policy ∧ 0 <= bp_max policy ∧
  bp_initial policy * 2 <= duration_max ∧ bp_max policy * 2 <= duration_max.

Definition waits (policy : BackoffPolicy) (n : nat) : list Z := wait_length policy <$> seq 0 n.

Lemma waits_S (policy : BackoffPolicy) (n : nat) :
  waits policy (S n) = waits policy n ++ [wait_length policy n].
Proof. unfold waits. by rewrite seq_S, fmap_app. Qed.

(** The loop's [backoff] variable on entry to the [k]-th iteration. *)
Definition entry_backoff (policy : BackoffPolicy) (k : nat) : Z :=
  match k with
  | O => bp_initial policy
  | S k' => Z.min (wait_length policy k' * 2) (bp_max policy)
  end.

Lemma entry_wait (policy : BackoffPolicy) (k : nat) :
  policy_ok policy →
  (if resets k then bp_initial policy else entry_backoff policy k) = wait_length policy k.
Proof.
  intros (Hi & Hm & _). unfold wait_length. destruct k as [|k]; simpl.
  - by destruct (resets 0).
  - destruct (resets (S k)); [done|]. unfold wait_length.
    destruct (since_reset k) as [|n]; [done|].
    replace (2 ^ Z.of_nat (S (S n))) with (2 ^ Z.of_nat (S n) * 2); [lia|].
    rewrite (Nat2Z.inj_succ (S n)), Z.pow_succ_r by lia. lia.
Qed.

Lemma wait_length_double (policy : BackoffPolicy) (k : nat) :
  policy_ok policy → duration_double (wait_length policy k) = Ret (wait_length policy k * 2).
Proof.
  intros (Hi & Hm & Hi2 & Hm2). unfold duration_double.
  destruct (_ <=? _) eqn:E0; [done|]. zbool. unfold wait_length in E0.
  destruct (since_reset k); lia.
Qed.

(** [n] failed attempts that reconnect, each waited out. *)
Definition keeps_going (n : nat) : Prop :=
  ∀ k, (k < n)%nat → aborts k = false ∧ ∃ e, attempts k = AO_Failed e true (resets k).

Lemma backoff_prefix (policy : BackoffPolicy) (n fuel : nat) :
  policy_ok policy → keeps_going n →
  run_with_backoff script_attempt script_wait policy (n + fuel) (0%nat, []) =
  backoff_loop script_attempt script_wait policy fuel (entry_backoff policy n)
    (n, waits policy n).
Proof.
  intros Hp. revert fuel. induction n as [|n IH]; intros fuel Hgo; [done|].
  replace (S n + fuel)%nat with (n + S fuel)%nat by lia.
  rewrite IH by (intros k Hk; apply Hgo; lia).
  destruct (Hgo n ltac:(lia)) as [Hab [e Hat]]. simpl. rewrite Hat. simpl.
  rewrite Hab, entry_wait, wait_length_double by done. cbn [mbind outcome_bind].
  by rewrite waits_S.
Qed.

(** C22: the retry loop ends exactly when an attempt is done, fails without
    reconnecting or a wait is aborted, with the corresponding result; each
    wait before is the initial delay, doubled for every failure since the last
    reset and capped at the maximum, and the doubling never overflows. *)
Theorem backoff_schedule (policy : BackoffPolicy) (n fuel : nat) :
  policy_ok policy → keeps_going n →
  match attempts n with
  | AO_Done =>
      run_with_backoff script_attempt script_wait policy (n + S fuel) (0%nat, []) =
      Ret (Some (Ok tt), (n, waits policy n))
  | AO_Failed error false _ =>
      run_with_backoff script_attempt script_wait policy (n + S fuel) (0%nat, []) =
      Ret (Some (Err error), (n, waits policy n))
  | AO_Failed error true _ =>
      aborts n = true →
      run_with_backoff script_attempt script_wait policy (n + S fuel) (0%nat, []) =
      Ret (Some (Ok tt), (S n, waits policy (S n)))
  end.
Proof.
  intros Hp Hgo. rewrite backoff_prefix by done. simpl.
  destruct (attempts n) as [|error [] reset] eqn:Hat; simpl; [done| |done].
  intros ->. rewrite waits_S, <- entry_wait by done. unfold resets. by rewrite Hat.
Qed.
End schedule.

(** Four failures, the third one resetting, then a successful attempt. *)
Definition demo_attempts (k : nat) : AttemptOutcome unit :=
  match k with
  | 2%nat => AO_Failed tt true true
  | 4%nat => AO_Done
  | _ => AO_Failed tt true false
  end.

Lemma backoff_schedule_witness :
  run_with_backoff (script_attempt demo_attempts) (script_wait (λ _, false))
    BackoffPolicy_default 5 (0%nat, []) =
  Ret (Some (Ok tt), (4%nat, from_secs <$> [1; 2; 1; 2])).
Proof.
  refine (eq_trans
    (backoff_schedule demo_attempts (λ _, false) BackoffPolicy_default 4 0 _ _) _).
  - vm_compute. by split_and!.
  - intros k Hk. split; [done|]. exists tt.
    do 4 (destruct k as [|k]; [done|]). lia.
  - vm_compute. reflexivity.
Defined.

(** However many commands arrive, the wait ends no later than the deadline
    fixed at its start; it ends early (answer [true]) only on a terminate
    command or the closed channel. *)
Theorem wait_backoff_bounded {T} (is_terminate : T → bool) (now backoff : Z)
    (arrivals : list (Arrival T)) :
  let '(stopped, at_, _) := wait_backoff is_terminate now backoff arrivals in
  at_ <= now + backoff ∧
  if stopped
  then ∃ a, a ∈ arrivals ∧ ar_time a = at_ ∧
         match ar_cmd a with None => True | Some c => is_terminate c = true end
  else at_ = now + backoff.
Proof.
  unfold wait_backoff. generalize 0%nat.
  induction arrivals as [|a arrivals IH]; intros dropped; simpl; [lia|].
  destruct (_ || _) eqn:Ed; [lia|]. apply orb_false_iff in Ed as [Hd _]. zbool.
  destruct (ar_cmd a) as [c|] eqn:Ec.
  - destruct (is_terminate c) eqn:Et.
    + split; [done|]. exists a. rewrite Ec. split_and!; [apply list_elem_of_here|done|done].
    + specialize (IH (S dropped)). destruct (wait_loop _ _ _ _) as [[[] at_] n]; [|done].
      destruct IH as [? (a' & ? & ?)]. split; [done|]. exists a'.
      split; [by apply list_elem_of_further|done].
  - split; [done|]. exists a. rewrite Ec. split_and!; [apply list_elem_of_here|done|done].
Qed.

(** ** Invariants of the loop *)

Lemma double_ok (policy : BackoffPolicy) (b : Z) :
  policy_ok policy → b <= bp_initial policy ∨ b <= bp_max policy →
  duration_double b = Ret (b * 2).
Proof. intros (_ & _ & ? & ?) Hb. unfold duration_double. zcase; [done|lia]. Qed.

Section invariant.
Context {E S : Type}.
Context (attempt : S → Outcome (option (AttemptOutcome E) * S)).
Context (wait_abortable : Z → S → bool * S).
Context (I : S → Prop) (Q : Result unit E → S → Prop).
Context (attempt_inv : ∀ s, I s → ∃ out s', attempt s = Ret (out, s') ∧
  match out with
  | None => True
  | Some AO_Done => Q (Ok tt) s'
  | Some (AO_Failed e false _) => Q (Err e) s'
  | Some (AO_Failed _ true _) =>
      ∀ d, let '(aborted, s'') := wait_abortable d s' in
           if aborted then Q (Ok tt) s'' else I s''
  end).

Lemma backoff_loop_inv (policy : BackoffPolicy) (fuel : nat) (backoff : Z) (s : S) :
  I s → policy_ok policy → backoff <= bp_initial policy ∨ backoff <= bp_max policy →
  ∃ res s', backoff_loop attempt wait_abortable policy fuel backoff s = Ret (res, s') ∧
    match res with Some r => Q r s' | None => True end.
Proof.
  intros HI Hp. revert backoff s HI. induction fuel as [|fuel IH]; intros backoff s HI Hb; simpl.
  { by do 2 eexists. }
  destruct (attempt_inv s HI) as (out & s1 & -> & Hinv). cbn [mbind outcome_bind].
  destruct out as [[|e [] reset]|]; simpl; [by do 2 eexists| |by do 2 eexists|by do 2 eexists].
  set (b := if reset then bp_initial policy else backoff).
  assert (b <= bp_initial policy ∨ b <= bp_max policy) as Hb' by (destruct reset; [left; done|done]).
  specialize (Hinv b). destruct (wait_abortable b s1) as [[] s2]; [by do 2 eexists|].
  rewrite (double_ok policy) by done. cbn [mbind outcome_bind]. apply IH; [done|]. right. lia.
Qed.
End invariant.

(** The loop returns, and keeps what attempts and waits keep. *)
Lemma backoff_loop_total {E S} (attempt : S → Outcome (option (AttemptOutcome E) * S))
    (wait_abortable : Z → S → bool * S) (I : S → Prop) (policy : BackoffPolicy) (fuel : nat)
    (backoff : Z) (s : S) :
  (∀ s, I s → ∃ out s', attempt s = Ret (out, s') ∧ I s' ∧ ∀ d, I (wait_abortable d s').2) →
  I s → policy_ok policy → backoff <= bp_initial policy ∨ backoff <= bp_max policy →
  ∃ res s', backoff_loop attempt wait_abortable policy fuel backoff s = Ret (res, s') ∧ I s'.
Proof.
  intros Hstep HI Hp. revert backoff s HI.
  induction fuel as [|fuel IH]; intros backoff s HI Hb; simpl; [by do 2 eexists|].
  destruct (Hstep s HI) as (out & s1 & -> & HI1 & Hw). cbn [mbind outcome_bind].
  destruct out as [[|e [] reset]|]; simpl; try by do 2 eexists.
  set (b := if reset then bp_initial policy else backoff).
  assert (b <= bp_initial policy ∨ b <= bp_max policy) as Hb' by (destruct reset; [left; done|done]).
  specialize (Hw b). destruct (wait_abortable b s1) as [[] s2]; [by do 2 eexists|].
  rewrite (double_ok policy) by done. cbn [mbind outcome_bind]. apply IH; [done|]. right. lia.
Qed.

Lemma policy_default_ok : policy_ok BackoffPolicy_default.
Proof. unfold policy_ok, BackoffPolicy_default, from_secs, duration_max; simpl. lia. Qed.
