(* ===== verification/Bytes.v ===== *)
(** * Bytes and register words

    Models [ferrowl-codec/src/traits.rs] (the two byte/word converters) and
    the byte-order functions of the integer types: bytes are [Z] in [0, 256),
    words [Z] in [0, 65536). *)

From stdpp Require Import base list numbers.
From S2P Require Import Prelude.

Local Open Scope Z_scope.

(** [ParseFromU8::parse] into the unsigned type of width [w]. *)
Definition parse_from_u8 (w : Z) (bytes : list Z) : Z :=
  foldl (λ output v, as_uint w (Z.shiftl output 8) + v) 0 bytes.

(** The loop of [IntoVec::into_vec]: the words so far, the byte count, the
    word being assembled. *)
Fixpoint into_vec_loop (bytes : list Z) (values : list Z) (idx val : Z) : list Z :=
  match bytes with
  | [] => if negb (idx mod 2 =? 0) then values ++ [val] else values
  | v :: bytes' =>
      let val := Z.lor val v in
      let idx := idx + 1 in
      if idx mod 2 =? 0 then into_vec_loop bytes' (values ++ [val]) idx 0
      else into_vec_loop bytes' values idx (as_uint 16 (Z.shiftl val 8))
  end.

(** [IntoVec::into_vec]; it always answers [Ok]. *)
Definition into_vec (bytes : list Z) : list Z := into_vec_loop bytes [] 0 0.

(** [flat_map(|v| [(v >> 8) as u8, (v & 0xFF) as u8])] *)
Definition word_bytes (words : list Z) : list Z :=
  flat_map (λ v, [as_uint 8 (Z.shiftr v 8); as_uint 8 (Z.land v 255)]) words.

(** [to_le_bytes] of an [n]-byte value. *)
Fixpoint to_le_bytes (n : nat) (v : Z) : list Z :=
  match n with
  | O => []
  | S n' => v mod 256 :: to_le_bytes n' (v / 256)
  end.

Definition to_be_bytes (n : nat) (v : Z) : list Z := reverse (to_le_bytes n v).

(** ** Validity of UTF-8 ([String::from_utf8])

    A string is its list of bytes; [utf8_valid] decides whether the bytes are
    well-formed UTF-8 (no overlong form, no surrogate, at most U+10FFFF). *)

Definition is_cont (b : Z) : bool := (128 <=? b) && (b <? 192).

(** The second byte a first byte allows, and how many more must follow. *)
Definition utf8_lead (b : Z) : option (Z * Z * nat) :=
  if (194 <=? b) && (b <=? 223) then Some (128, 191, 0%nat)
  else if b =? 224 then Some (160, 191, 1%nat)
  else if ((225 <=? b) && (b <=? 236)) || ((238 <=? b) && (b <=? 239)) then Some (128, 191, 1%nat)
  else if b =? 237 then Some (128, 159, 1%nat)
  else if b =? 240 then Some (144, 191, 2%nat)
  else if (241 <=? b) && (b <=? 243) then Some (128, 191, 2%nat)
  else if b =? 244 then Some (128, 143, 2%nat)
  else None.

(** What the validator expects next. *)
Inductive Utf8State := U_Start | U_Second (lo hi : Z) (more : nat) | U_Cont (more : nat).

Definition utf8_step (st : Utf8State) (b : Z) : option Utf8State :=
  match st with
  | U_Start =>
      if b <? 128 then Some U_Start
      else match utf8_lead b with
           | Some (lo, hi, more) => Some (U_Second lo hi more)
           | None => None
           end
  | U_Second lo hi more =>
      if (lo <=? b) && (b <=? hi)
      then Some (match more with O => U_Start | S m => U_Cont m end) else None
  | U_Cont more =>
      if is_cont b then Some (match more with O => U_Start | S m => U_Cont m end) else None
  end.

Fixpoint utf8_run (st : Utf8State) (bytes : list Z) : option Utf8State :=
  match bytes with
  | [] => Some st
  | b :: bytes' => st' ← utf8_step st b; utf8_run st' bytes'
  end.

Definition utf8_valid (bytes : list Z) : bool :=
  match utf8_run U_Start bytes with Some U_Start => true | _ => false end.

(** ** Lemmas *)

(** Let [lia] reason about division and remainder by constants. *)
#[local] Ltac Zify.zify_post_hook ::= Z.to_euclidean_division_equations.

Definition is_byte (b : Z) : Prop := is_uint 8 b.
Definition is_word (v : Z) : Prop := is_uint 16 v.

Lemma is_byte_range (b : Z) : is_byte b ↔ 0 <= b < 256.
Proof. done. Qed.

Lemma is_word_range (v : Z) : is_word v ↔ 0 <= v < 65536.
Proof. done. Qed.

Lemma shiftl_8 (v : Z) : Z.shiftl v 8 = v * 256.
Proof. by rewrite Z.shiftl_mul_pow2 by lia. Qed.

Lemma shiftr_8 (v : Z) : Z.shiftr v 8 = v / 256.
Proof. by rewrite Z.shiftr_div_pow2 by lia. Qed.

Lemma land_255 (v : Z) : Z.land v 255 = v mod 256.
Proof. change 255 with (Z.ones 8). by rewrite Z.land_ones by lia. Qed.

Lemma testbit_small (n v i : Z) : 0 <= n → 0 <= v < 2 ^ n → n <= i → Z.testbit v i = false.
Proof. intros Hn Hv Hi. apply (proj1 (Z.bounded_iff_bits_nonneg n v ltac:(lia) ltac:(lia)) ltac:(lia)). lia. Qed.

Lemma land_shiftl_low (k hi lo : Z) :
  0 <= k → 0 <= lo < 2 ^ k → Z.land (Z.shiftl hi k) lo = 0.
Proof.
  intros Hk Hl. apply Z.bits_inj'. intros i Hi. rewrite Z.land_spec, Z.bits_0.
  destruct (decide (i < k)) as [Hlt|Hge].
  - by rewrite Z.shiftl_spec_low.
  - by rewrite (testbit_small k lo i), andb_false_r by lia.
Qed.

Lemma lor_byte (hi lo : Z) : is_byte lo → Z.lor (hi * 256) lo = hi * 256 + lo.
Proof.
  intros Hl. rewrite <- shiftl_8, <- Z.add_lor_land.
  rewrite (land_shiftl_low 8) by (done || lia). lia.
Qed.

Lemma as_uint_word_high (b : Z) : is_byte b → as_uint 16 (Z.shiftl b 8) = b * 256.
Proof.
  rewrite is_byte_range. intros Hb. rewrite shiftl_8. apply as_uint_small.
  apply is_word_range. lia.
Qed.

(** Two bytes at a time. *)
Lemma into_vec_loop_pair (hi lo : Z) (bytes values : list Z) (idx : Z) :
  is_byte hi → is_byte lo → idx mod 2 = 0 →
  into_vec_loop (hi :: lo :: bytes) values idx 0 =
  into_vec_loop bytes (values ++ [hi * 256 + lo]) (idx + 2) 0.
Proof.
  intros Hh Hl Hi. cbn [into_vec_loop].
  assert ((idx + 1) mod 2 = 1) as H1 by (rewrite Z.add_mod, Hi by lia; done).
  assert ((idx + 1 + 1) mod 2 = 0) as H2 by (rewrite Z.add_mod, H1 by lia; done).
  rewrite H1, H2. simpl. rewrite as_uint_word_high, lor_byte by done.
  replace (idx + 1 + 1) with (idx + 2) by lia. done.
Qed.

Lemma into_vec_word_bytes_loop (words values : list Z) (idx : Z) :
  Forall is_word words → idx mod 2 = 0 →
  into_vec_loop (word_bytes words) values idx 0 = values ++ words.
Proof.
  revert values idx. induction words as [|v words IH]; intros values idx Hw Hi.
  - simpl. rewrite Hi. simpl. by rewrite app_nil_r.
  - apply Forall_cons_1 in Hw as [Hv Hw]. rewrite is_word_range in Hv.
    unfold word_bytes. cbn [flat_map app]. fold (word_bytes words).
    rewrite shiftr_8, land_255. unfold as_uint.
    change (2 ^ 8) with 256. rewrite (Z.mod_small (v / 256)) by lia.
    rewrite (Z.mod_small (v mod 256)) by lia.
    rewrite into_vec_loop_pair; [|apply is_byte_range; lia|apply is_byte_range; lia|done].
    rewrite IH; [|done|rewrite Z.add_mod, Hi by lia; done].
    rewrite <- app_assoc. simpl. do 2 f_equal. lia.
Qed.

(** Packing the bytes of words gives the words back. *)
Lemma into_vec_word_bytes (words : list Z) :
  Forall is_word words → into_vec (word_bytes words) = words.
Proof. intros Hw. unfold into_vec. by rewrite into_vec_word_bytes_loop. Qed.

(** Splitting packed bytes gives an even number of bytes back. *)
Lemma word_bytes_into_vec (n : nat) : ∀ (bytes : list Z),
  Forall is_byte bytes → length bytes = (2 * n)%nat →
  word_bytes (into_vec bytes) = bytes ∧ length (into_vec bytes) = n ∧
  Forall is_word (into_vec bytes).
Proof.
  assert (∀ bytes values idx, Forall is_byte bytes → length bytes = (2 * n)%nat →
    idx mod 2 = 0 →
    ∃ ws, into_vec_loop bytes values idx 0 = values ++ ws ∧
      word_bytes ws = bytes ∧ length ws = n ∧ Forall is_word ws) as Hloop.
  { induction n as [|n IH]; intros bytes values idx Hb Hl Hi.
    - destruct bytes; [|done]. exists []. simpl. rewrite Hi. simpl.
      by rewrite app_nil_r.
    - destruct bytes as [|hi [|lo bytes]]; simpl in Hl; [lia|lia|].
      apply Forall_cons_1 in Hb as [Hh Hb]. apply Forall_cons_1 in Hb as [Hlo Hb].
      rewrite into_vec_loop_pair by done.
      destruct (IH bytes (values ++ [hi * 256 + lo]) (idx + 2)) as (ws & Hw & Hwb & Hlen & Hf);
        [done|lia|rewrite Z.add_mod, Hi by lia; done|].
      exists (hi * 256 + lo :: ws). rewrite Hw, <- app_assoc. split_and!; [done| |by f_equal/=|].
      + unfold word_bytes. cbn [flat_map app]. fold (word_bytes ws).
        rewrite is_byte_range in Hh, Hlo. rewrite Hwb, shiftr_8, land_255. unfold as_uint.
        change (2 ^ 8) with 256.
        replace ((hi * 256 + lo) / 256) with hi by lia.
        replace ((hi * 256 + lo) mod 256) with lo by lia.
        rewrite !Z.mod_small by lia. done.
      + constructor; [|done]. rewrite is_byte_range in Hh, Hlo. apply is_word_range. lia. }
  intros bytes Hb Hl. destruct (Hloop bytes [] 0 Hb Hl eq_refl) as (ws & Hw & ?).
  unfold into_vec. by rewrite Hw.
Qed.

Lemma word_bytes_range (words : list Z) :
  Forall is_byte (word_bytes words) ∧ length (word_bytes words) = (2 * length words)%nat.
Proof.
  induction words as [|v words [IH1 IH2]]; [done|]. unfold word_bytes.
  cbn [flat_map app length]. fold (word_bytes words). rewrite IH2. split; [|lia].
  repeat constructor; try apply as_uint_range; try lia; done.
Qed.

(** ** Byte order *)

Lemma length_to_le_bytes (n : nat) (v : Z) : length (to_le_bytes n v) = n.
Proof. revert v. induction n as [|n IH]; intros v; simpl; [done|]. by rewrite IH. Qed.

Lemma to_le_bytes_range (n : nat) (v : Z) : Forall is_byte (to_le_bytes n v).
Proof.
  revert v. induction n as [|n IH]; intros v; simpl; constructor; [|done].
  apply is_byte_range. lia.
Qed.

Lemma to_be_bytes_spec (n : nat) (v : Z) :
  length (to_be_bytes n v) = n ∧ Forall is_byte (to_be_bytes n v).
Proof.
  unfold to_be_bytes. rewrite length_reverse, length_to_le_bytes.
  split; [done|]. apply Forall_reverse, to_le_bytes_range.
Qed.

(** The value of a big-endian byte sequence, without truncation. *)
Definition be_value (bytes : list Z) : Z := foldl (λ acc b, acc * 256 + b) 0 bytes.

Lemma be_value_snoc (bytes : list Z) (b : Z) : be_value (bytes ++ [b]) = be_value bytes * 256 + b.
Proof. unfold be_value. by rewrite foldl_app. Qed.

Lemma be_value_range (bytes : list Z) :
  Forall is_byte bytes → 0 <= be_value bytes < 2 ^ (8 * Z.of_nat (length bytes)).
Proof.
  induction bytes as [|b bytes IH] using rev_ind; intros Hb; [done|].
  apply Forall_app in Hb as [Hbs Hb]. apply Forall_cons_1 in Hb as [Hb _].
  rewrite is_byte_range in Hb. specialize (IH Hbs). rewrite be_value_snoc, length_app. simpl.
  replace (8 * Z.of_nat (length bytes + 1)) with (8 * Z.of_nat (length bytes) + 8) by lia.
  rewrite Z.pow_add_r by lia. change (2 ^ 8) with 256. lia.
Qed.

(** Enough width: the fold of [parse] never truncates. *)
Lemma parse_be_value (w : Z) (bytes : list Z) :
  Forall is_byte bytes → 8 * Z.of_nat (length bytes) <= w →
  parse_from_u8 w bytes = be_value bytes.
Proof.
  induction bytes as [|b bytes IH] using rev_ind; intros Hb Hw; [done|].
  apply Forall_app in Hb as [Hbs Hb]. rewrite length_app in Hw. simpl in Hw.
  rewrite be_value_snoc. unfold parse_from_u8 in *. rewrite foldl_app. simpl.
  rewrite IH by (done || lia). rewrite shiftl_8, as_uint_small; [done|].
  pose proof (be_value_range bytes Hbs) as Hr. unfold is_uint. split; [lia|].
  apply Z.lt_le_trans with (2 ^ (8 * Z.of_nat (length bytes) + 8)).
  - rewrite Z.pow_add_r by lia. change (2 ^ 8) with 256. lia.
  - apply Z.pow_le_mono_r; lia.
Qed.

Lemma be_value_to_be_bytes (n : nat) (v : Z) :
  be_value (to_be_bytes n v) = v mod 2 ^ (8 * Z.of_nat n).
Proof.
  revert v. induction n as [|n IH]; intros v.
  - simpl. by rewrite Z.mod_1_r.
  - unfold to_be_bytes in *. cbn [to_le_bytes]. rewrite reverse_cons, be_value_snoc, IH.
    replace (8 * Z.of_nat (S n)) with (8 + 8 * Z.of_nat n) by lia.
    rewrite Z.pow_add_r by lia. change (2 ^ 8) with 256.
    rewrite (Z.rem_mul_r v 256 (2 ^ (8 * Z.of_nat n))) by lia. lia.
Qed.

Lemma to_be_bytes_be_value (bytes : list Z) :
  Forall is_byte bytes → to_be_bytes (length bytes) (be_value bytes) = bytes.
Proof.
  induction bytes as [|b bytes IH] using rev_ind; intros Hb; [done|].
  apply Forall_app in Hb as [Hbs Hb]. apply Forall_cons_1 in Hb as [Hb _].
  rewrite is_byte_range in Hb. rewrite be_value_snoc, length_app, Nat.add_1_r.
  unfold to_be_bytes in *. cbn [to_le_bytes]. rewrite reverse_cons.
  replace ((be_value bytes * 256 + b) mod 256) with b by lia.
  replace ((be_value bytes * 256 + b) / 256) with (be_value bytes) by lia.
  by rewrite IH.
Qed.

(** ** UTF-8 *)

Lemma utf8_run_app (st : Utf8State) (b1 b2 : list Z) :
  utf8_run st (b1 ++ b2) = (st' ← utf8_run st b1; utf8_run st' b2).
Proof.
  revert st. induction b1 as [|b b1 IH]; intros st; simpl; [done|].
  by destruct (utf8_step st b); simpl.
Qed.

Lemma utf8_run_ascii (bytes : list Z) :
  Forall (λ b, b < 128) bytes → utf8_run U_Start bytes = Some U_Start.
Proof.
  induction 1 as [|b bytes Hb _ IH]; simpl; [done|].
  rewrite (proj2 (Z.ltb_lt _ _) Hb). simpl. done.
Qed.

(** Padding with zero bytes on either side keeps a string valid. *)
Lemma utf8_valid_pad (s : list Z) (n m : nat) :
  utf8_valid s = true → utf8_valid (replicate n 0 ++ s ++ replicate m 0) = true.
Proof.
  unfold utf8_valid. intros Hs.
  destruct (utf8_run U_Start s) as [[| |]|] eqn:E; try done.
  rewrite utf8_run_app, utf8_run_ascii by (apply Forall_replicate; lia). simpl.
  rewrite utf8_run_app, E. simpl. by rewrite utf8_run_ascii by (apply Forall_replicate; lia).
Qed.

(** Deciding that a list holds words (bytes). *)
Lemma Forall_is_word_bool (l : list Z) :
  forallb (λ v, (0 <=? v) && (v <? 65536)) l = true → Forall is_word l.
Proof.
  induction l as [|v l IH]; simpl; intros H; [constructor|]. zbool. constructor; [|auto].
  apply is_word_range. lia.
Qed.

Lemma Forall_is_byte_bool (l : list Z) :
  forallb (λ v, (0 <=? v) && (v <? 256)) l = true → Forall is_byte l.
Proof.
  induction l as [|v l IH]; simpl; intros H; [constructor|]. zbool. constructor; [|auto].
  apply is_byte_range. lia.
Qed.
