(* ===== verification/IntText.v ===== *)
(** * Integers as text

    The parts of the standard library the codec uses to read and print
    integers: [from_str_radix] with its error kinds, decimal [Display], and
    zero-padded upper-case hex. Text is a list of bytes. *)

From stdpp Require Import base list numbers strings.
From Stdlib Require Import Ascii.
From S2P Require Import Prelude.

Local Open Scope Z_scope.

(** The bytes of a literal. *)
Definition bytes_of (s : string) : list Z :=
  (λ c, Z.of_N (N_of_ascii c)) <$> String.list_ascii_of_string s.

(** [s.strip_prefix(p)] *)
Fixpoint strip_prefix (p s : list Z) : option (list Z) :=
  match p, s with
  | [], _ => Some s
  | a :: p', b :: s' => if a =? b then strip_prefix p' s' else None
  | _ :: _, [] => None
  end.

(** ** Reading *)

Inductive IntErrorKind := IE_Empty | IE_InvalidDigit | IE_PosOverflow | IE_NegOverflow.

(** [char::to_digit] for a radix up to 16. *)
Definition to_digit (c radix : Z) : option Z :=
  let d :=
    if (48 <=? c) && (c <=? 57) then c - 48
    else if (65 <=? c) && (c <=? 70) then c - 55
    else if (97 <=? c) && (c <=? 102) then c - 87
    else radix in
  if d <? radix then Some d else None.

(** The values of an integer type: [min, max]. *)
Definition int_min (signed : bool) (w : Z) : Z := if signed then - 2 ^ (w - 1) else 0.
Definition int_max (signed : bool) (w : Z) : Z :=
  if signed then 2 ^ (w - 1) - 1 else 2 ^ w - 1.

Definition in_int (signed : bool) (w z : Z) : bool :=
  (int_min signed w <=? z) && (z <=? int_max signed w).

(** The digit loop: per digit, the digit is checked first, then the
    multiplication and the addition (subtraction after a minus sign). *)
Fixpoint parse_digits (signed : bool) (w radix : Z) (positive : bool) (digits : list Z)
    (result : Z) : Result Z IntErrorKind :=
  let overflow := if positive then IE_PosOverflow else IE_NegOverflow in
  match digits with
  | [] => Ok result
  | c :: rest =>
      let mul := result * radix in
      match to_digit c radix with
      | None => Err IE_InvalidDigit
      | Some x =>
          if in_int signed w mul then
            let result := if positive then mul + x else mul - x in
            if in_int signed w result
            then parse_digits signed w radix positive rest result
            else Err overflow
          else Err overflow
      end
  end.

(** [<$ty>::from_str_radix(src, radix)]; 43 is ['+'], 45 is ['-']. *)
Definition from_str_radix (signed : bool) (w : Z) (src : list Z) (radix : Z)
  : Result Z IntErrorKind :=
  match src with
  | [] => Err IE_Empty
  | [c] =>
      if (c =? 43) || (c =? 45) then Err IE_InvalidDigit
      else parse_digits signed w radix true src 0
  | c :: rest =>
      if c =? 43 then parse_digits signed w radix true rest 0
      else if (c =? 45) && signed then parse_digits signed w radix false rest 0
      else parse_digits signed w radix true src 0
  end.

(** ** Printing *)

Definition digit_char (d : Z) : Z := if d <? 10 then 48 + d else 55 + d.

(** The digits of [v], most significant first, at least one. *)
Fixpoint radix_digits (fuel : nat) (radix v : Z) : list Z :=
  match fuel with
  | O => []
  | S fuel' =>
      if v <? radix then [digit_char v]
      else radix_digits fuel' radix (v / radix) ++ [digit_char (v mod radix)]
  end.

(** Enough for a 128-bit value in any radix from 2 on. *)
Definition print_fuel : nat := 129.

(** [{:X}] of an unsigned value, zero-padded to [width]. *)
Definition hex_padded (v : Z) (width : nat) : list Z :=
  let ds := radix_digits print_fuel 16 v in
  replicate (width - length ds) 48 ++ ds.

(** [{}] of an integer. *)
Definition int_display (v : Z) : list Z :=
  if v <? 0 then 45 :: radix_digits print_fuel 10 (- v) else radix_digits print_fuel 10 v.

(** ** Lemmas *)

#[local] Ltac Zify.zify_post_hook ::= Z.to_euclidean_division_equations.

Lemma digit_char_to_digit (d radix : Z) :
  2 <= radix <= 16 → 0 <= d < radix → to_digit (digit_char d) radix = Some d.
Proof.
  intros Hr Hd. unfold digit_char, to_digit.
  destruct (d <? 10) eqn:E; zbool.
  - rewrite (proj2 (Z.leb_le 48 _)), (proj2 (Z.leb_le _ 57)) by lia. cbn [andb].
    rewrite (proj2 (Z.ltb_lt _ _)) by lia. f_equal. lia.
  - rewrite (proj2 (Z.leb_gt _ 57)) by lia. rewrite andb_false_r.
    rewrite (proj2 (Z.leb_le 65 _)), (proj2 (Z.leb_le _ 70)) by lia. cbn [andb].
    rewrite (proj2 (Z.ltb_lt _ _)) by lia. f_equal. lia.
Qed.

(** The value of a digit sequence that continues from [acc]. *)
Definition digits_value (radix acc : Z) (ds : list Z) : Z :=
  foldl (λ a d, a * radix + d) acc ds.

Lemma digits_value_mono (radix acc : Z) (ds : list Z) :
  1 <= radix → 0 <= acc → Forall (λ d, 0 <= d) ds → acc <= digits_value radix acc ds.
Proof.
  intros Hr. revert acc. unfold digits_value.
  induction ds as [|d ds IH]; intros acc Ha Hd; simpl; [lia|].
  apply Forall_cons_1 in Hd as [Hd Hds]. specialize (IH (acc * radix + d)). nia.
Qed.

(** Reading digits whose value stays in the type. *)
Lemma parse_digits_value (signed positive : bool) (w radix : Z) (ds : list Z) :
  ∀ acc, 1 <= w → 2 <= radix <= 16 → (positive = false → signed = true) → 0 <= acc →
  Forall (λ d, 0 <= d < radix) ds →
  let sign := if positive then 1 else -1 in
  in_int signed w (sign * digits_value radix acc ds) = true →
  parse_digits signed w radix positive (digit_char <$> ds) (sign * acc) =
  Ok (sign * digits_value radix acc ds).
Proof.
  induction ds as [|d ds IH]; intros acc Hw Hr Hs Ha Hds sign Hin; [done|].
  apply Forall_cons_1 in Hds as [Hd Hds]. cbn [fmap list_fmap parse_digits].
  rewrite digit_char_to_digit by lia.
  assert (0 <= acc * radix + d) as Hnn by nia.
  pose proof (digits_value_mono radix (acc * radix + d) ds ltac:(lia) Hnn) as Hm.
  assert (Forall (λ d, 0 <= d) ds) as Hds' by (eapply Forall_impl; [done|]; simpl; lia).
  specialize (Hm Hds'). unfold digits_value in Hin, Hm. cbn [foldl] in Hin, Hm.
  fold (digits_value radix (acc * radix + d) ds) in Hin, Hm.
  assert (0 < 2 ^ (w - 1)) as Hp by (apply Z.pow_pos_nonneg; lia).
  assert (0 <= acc * radix) by nia.
  assert (∀ x, 0 <= x <= digits_value radix (acc * radix + d) ds →
    in_int signed w (sign * x) = true) as Hrange.
  { intros x Hx. unfold in_int, int_min, int_max in *. zbool.
    destruct positive, signed; unfold sign in *; try (specialize (Hs eq_refl); done);
      rewrite andb_true_iff, !Z.leb_le; lia. }
  replace (sign * acc * radix) with (sign * (acc * radix)) by lia.
  rewrite Hrange by lia.
  replace (if positive then sign * (acc * radix) + d else sign * (acc * radix) - d)
    with (sign * (acc * radix + d)) by (unfold sign; destruct positive; lia).
  rewrite Hrange by lia. apply IH; done.
Qed.

(** The digits printed for [v] have the value [v]. *)
Lemma radix_digits_spec (fuel : nat) (radix v : Z) :
  2 <= radix → 0 <= v < radix ^ Z.of_nat fuel → (0 < fuel)%nat →
  ∃ ds, radix_digits fuel radix v = digit_char <$> ds ∧ ds ≠ [] ∧
    Forall (λ d, 0 <= d < radix) ds ∧ digits_value radix 0 ds = v ∧
    (v < radix ^ Z.of_nat (length ds)).
Proof.
  intros Hr. revert v. induction fuel as [|fuel IH]; intros v Hv Hf; [lia|]. simpl.
  destruct (v <? radix) eqn:E; zbool.
  - exists [v]. split_and!; [done|done|by repeat constructor; lia|done|simpl; lia].
  - assert (0 <= v / radix < radix ^ Z.of_nat fuel) as Hq.
    { split; [apply Z.div_pos; lia|]. apply Z.div_lt_upper_bound; [lia|].
      rewrite Nat2Z.inj_succ, Z.pow_succ_r in Hv by lia. lia. }
    destruct fuel as [|fuel]; [simpl in Hq; assert (1 <= v / radix) by (apply Z.div_le_lower_bound; lia); lia|].
    destruct (IH (v / radix) Hq ltac:(lia)) as (ds & Hds & Hne & Hall & Hval & Hlt).
    pose proof (Z.mod_pos_bound v radix ltac:(lia)) as Hmod.
    exists (ds ++ [v mod radix]). rewrite Hds, fmap_app. split_and!.
    + done.
    + by destruct ds.
    + apply Forall_app. split; [done|]. by repeat constructor; lia.
    + unfold digits_value in *. rewrite foldl_app, Hval. simpl.
      pose proof (Z.div_mod v radix ltac:(lia)). lia.
    + rewrite length_app. simpl. rewrite Nat2Z.inj_add, Z.pow_add_r by lia. simpl.
      pose proof (Z.div_mod v radix ltac:(lia)). rewrite Z.pow_1_r. nia.
Qed.

Lemma print_fuel_enough (radix v : Z) :
  2 <= radix → 0 <= v <= 2 ^ 128 → 0 <= v < radix ^ Z.of_nat print_fuel.
Proof.
  intros Hr Hv. split; [lia|].
  apply Z.le_lt_trans with (2 ^ 128); [lia|].
  apply Z.lt_le_trans with (2 ^ Z.of_nat print_fuel); [done|].
  apply Z.pow_le_mono_l. lia.
Qed.

Lemma strip_prefix_Some (p s t : list Z) : strip_prefix p s = Some t ↔ s = p ++ t.
Proof.
  revert s. induction p as [|a p IH]; intros s; simpl; [split; congruence|].
  destruct s as [|b s]; [done|]. destruct (a =? b) eqn:E; zbool.
  - subst. rewrite IH. split; [by intros ->|by intros [= ->]].
  - split; [done|by intros [= -> ->]].
Qed.

Lemma digit_chars (radix : Z) (ds : list Z) :
  2 <= radix <= 16 → Forall (λ d, 0 <= d < radix) ds →
  Forall (λ c, 48 <= c <= 70) (digit_char <$> ds).
Proof.
  intros Hr Hds. apply Forall_fmap. eapply Forall_impl; [done|]. intros d Hd; simpl in *.
  unfold digit_char. zcase; lia.
Qed.

(** A digit sequence has no sign. *)
Lemma from_str_radix_digits (signed : bool) (w radix : Z) (cs : list Z) :
  cs ≠ [] → Forall (λ c, 48 <= c <= 70) cs →
  from_str_radix signed w cs radix = parse_digits signed w radix true cs 0.
Proof.
  intros Hne Hcs. destruct cs as [|c cs]; [done|]. apply Forall_cons_1 in Hcs as [Hc _].
  unfold from_str_radix.
  rewrite (proj2 (Z.eqb_neq c 43)), (proj2 (Z.eqb_neq c 45)) by lia. by destruct cs.
Qed.

Lemma digits_value_zeros (radix : Z) (n : nat) (ds : list Z) :
  digits_value radix 0 (replicate n 0 ++ ds) = digits_value radix 0 ds.
Proof. induction n as [|n IH]; simpl; [done|]. by unfold digits_value in *; simpl. Qed.

(** The padded hex text of [v]: its digits, behind zeros. *)
Lemma hex_padded_digits (v : Z) (n : nat) :
  0 <= v <= 2 ^ 128 →
  ∃ ds, hex_padded v n = digit_char <$> ds ∧ ds ≠ [] ∧
    Forall (λ d, 0 <= d < 16) ds ∧ digits_value 16 0 ds = v.
Proof.
  intros Hv. unfold hex_padded.
  destruct (radix_digits_spec print_fuel 16 v) as (ds & -> & Hne & Hall & Hval & _);
    [lia|apply print_fuel_enough; lia|unfold print_fuel; lia|].
  exists (replicate (n - length (digit_char <$> ds)) 0 ++ ds). split_and!.
  - by rewrite fmap_app, fmap_replicate.
  - by destruct ds; [|destruct (n - _)%nat].
  - apply Forall_app. split; [apply Forall_replicate; lia|done].
  - by rewrite digits_value_zeros.
Qed.

Lemma from_str_radix_hex (w v : Z) (n : nat) :
  1 <= w <= 128 → is_uint w v → from_str_radix false w (hex_padded v n) 16 = Ok v.
Proof.
  intros Hw [Hv0 Hv].
  assert (2 ^ w <= 2 ^ 128) as Hp by (apply Z.pow_le_mono_r; lia).
  destruct (hex_padded_digits v n ltac:(lia)) as (ds & -> & Hne & Hall & Hval).
  rewrite from_str_radix_digits; [|by destruct ds|by eapply digit_chars; [|done]; lia].
  pose proof (parse_digits_value false true w 16 ds 0) as Hpd. cbv zeta in Hpd.
  rewrite Hval, !Z.mul_1_l in Hpd. apply Hpd; [lia|lia|done|lia|done|].
  unfold in_int, int_min, int_max. rewrite andb_true_iff, !Z.leb_le. lia.
Qed.

Lemma int_display_digits (v : Z) :
  - 2 ^ 128 <= v <= 2 ^ 128 →
  ∃ ds, int_display v = (if v <? 0 then [45] else []) ++ (digit_char <$> ds) ∧ ds ≠ [] ∧
    Forall (λ d, 0 <= d < 10) ds ∧ digits_value 10 0 ds = Z.abs v.
Proof.
  intros Hv. unfold int_display.
  destruct (radix_digits_spec print_fuel 10 (Z.abs v)) as (ds & Hds & Hne & Hall & Hval & _);
    [lia|apply print_fuel_enough; lia|unfold print_fuel; lia|].
  exists ds. split_and!; [|done|done|done]. destruct (v <? 0) eqn:E; zbool; cbn [app].
  - by rewrite <- Hds, Z.abs_neq by lia.
  - by rewrite <- Hds, Z.abs_eq by lia.
Qed.

Lemma in_int_bounds (signed : bool) (w v : Z) :
  1 <= w <= 128 → in_int signed w v = true →
  - 2 ^ 128 <= v <= 2 ^ 128 ∧ (v < 0 → signed = true).
Proof.
  intros Hw Hin.
  assert (2 ^ w <= 2 ^ 128) by (apply Z.pow_le_mono_r; lia).
  assert (2 ^ (w - 1) <= 2 ^ 128) by (apply Z.pow_le_mono_r; lia).
  unfold in_int, int_min, int_max in Hin. zbool. destruct signed; split; try lia; done.
Qed.

Lemma from_str_radix_display (signed : bool) (w v : Z) :
  1 <= w <= 128 → in_int signed w v = true →
  from_str_radix signed w (int_display v) 10 = Ok v.
Proof.
  intros Hw Hin. destruct (in_int_bounds signed w v Hw Hin) as [Hv Hs].
  destruct (int_display_digits v Hv) as (ds & -> & Hne & Hall & Hval).
  pose proof (parse_digits_value signed (negb (v <? 0)) w 10 ds 0) as Hpd. cbv zeta in Hpd.
  rewrite Hval, !Z.mul_0_r in Hpd.
  destruct (v <? 0) eqn:E; zbool; cbn [negb app] in *.
  - assert (from_str_radix signed w (45 :: (digit_char <$> ds)) 10 =
      parse_digits signed w 10 false (digit_char <$> ds) 0) as ->.
    { rewrite (Hs E). by destruct ds as [|d ds]. }
    rewrite Hpd; [f_equal; lia|lia|lia|by rewrite (Hs E)|lia|done|].
    by replace (-1 * Z.abs v) with v by lia.
  - rewrite from_str_radix_digits; [|by destruct ds|by eapply digit_chars; [|done]; lia].
    rewrite Hpd; [f_equal; lia|lia|lia|done|lia|done|].
    by replace (1 * Z.abs v) with v by lia.
Qed.

(** Decimal text is never taken for a hex literal. *)
Lemma int_display_no_prefix (v : Z) (p : list Z) :
  - 2 ^ 128 <= v <= 2 ^ 128 → 120 ∈ p → strip_prefix p (int_display v) = None.
Proof.
  intros Hv Hp. destruct (strip_prefix p (int_display v)) as [t|] eqn:E; [exfalso|done].
  apply strip_prefix_Some in E.
  destruct (int_display_digits v Hv) as (ds & Hd & _ & Hall & _).
  assert (120 ∈ int_display v) as Hin by (rewrite E; apply elem_of_app; by left).
  rewrite Hd in Hin. apply elem_of_app in Hin as [Hin|Hin].
  - destruct (v <? 0); [by apply list_elem_of_singleton in Hin|by apply not_elem_of_nil in Hin].
  - pose proof (digit_chars 10 ds ltac:(lia) Hall) as Hc.
    rewrite list.Forall_forall in Hc. apply Hc in Hin. lia.
Qed.
