(* ===== verification/Format.v ===== *)
(** * Register formats

    Models [ferrowl-codec/src/format/]: the integer and float kinds, the
    bit-field selector, byte and register order, and [Format] with its width
    and constructors; and the register description of [ferrowl-codec/src/lib.rs].
    A float and a resolution are their IEEE 754 bit patterns. *)

From stdpp Require Import base list numbers strings.
From S2P Require Import Prelude Bytes.

Local Open Scope Z_scope.

Inductive Alignment := AL_Left | AL_Right.

Inductive Endian := E_Little | E_Big.

Inductive WordOrder := WO_Normal | WO_Reversed.

#[export] Instance WordOrder_eq_dec : EqDecision WordOrder.
Proof. solve_decision. Defined.

Inductive IntKind :=
| IK_U8 | IK_U16 | IK_U32 | IK_U64 | IK_U128
| IK_I8 | IK_I16 | IK_I32 | IK_I64 | IK_I128.

Inductive FloatKind := FK_F32 | FK_F64.

Definition IntKind_bits (self : IntKind) : Z :=
  match self with
  | IK_U8 | IK_I8 => 8
  | IK_U16 | IK_I16 => 16
  | IK_U32 | IK_I32 => 32
  | IK_U64 | IK_I64 => 64
  | IK_U128 | IK_I128 => 128
  end.

Definition IntKind_register_width (self : IntKind) : nat :=
  Z.to_nat (Z.max (IntKind_bits self) 16 / 16).

Definition FloatKind_bits (self : FloatKind) : Z :=
  match self with FK_F32 => 32 | FK_F64 => 64 end.

Definition FloatKind_register_width (self : FloatKind) : nat :=
  Z.to_nat (FloatKind_bits self / 16).

(** [u128::MAX]. *)
Definition u128_max : Z := 2 ^ 128 - 1.

Record BitField := mkBitField { bf_mask : Z }.

Definition BitField_default : BitField := mkBitField u128_max.

(** [u128::trailing_zeros]: the position of the lowest set bit, 128 for zero. *)
Fixpoint trailing_zeros_from (fuel : nat) (i m : Z) : Z :=
  match fuel with
  | O => i
  | S fuel' => if Z.testbit m i then i else trailing_zeros_from fuel' (i + 1) m
  end.

Definition trailing_zeros (m : Z) : Z := trailing_zeros_from 128 0 m.

Definition BitField_shift (self : BitField) : Z :=
  if bf_mask self =? 0 then 0 else trailing_zeros (bf_mask self).

Definition BitField_is_full (self : BitField) : bool := bf_mask self =? u128_max.

Definition BitField_fits (self : BitField) (bits : Z) : bool :=
  if BitField_is_full self then true
  else
    let limit := if bits >=? 128 then u128_max else Z.shiftl 1 bits - 1 in
    bf_mask self <=? limit.

(** [Width] in registers, [Resolution] as the bits of its [f64]. *)
Definition Width : Type := nat.
Record Resolution := mkResolution { res_bits : Z }.

(** [1.0f64]. *)
Definition Resolution_default : Resolution := mkResolution 0x3FF0000000000000.

Record NumericFormat := mkNumericFormat {
  nf_kind : IntKind;
  nf_endian : Endian;
  nf_word_order : WordOrder;
  nf_resolution : Resolution;
  nf_bit_field : BitField
}.

Record FloatFormat := mkFloatFormat {
  ff_kind : FloatKind;
  ff_endian : Endian;
  ff_word_order : WordOrder;
  ff_resolution : Resolution
}.

Inductive Format :=
| F_Numeric (nf : NumericFormat)
| F_Float (ff : FloatFormat)
| F_Ascii (a : Alignment) (w : Width).

Definition Format_width (self : Format) : nat :=
  match self with
  | F_Numeric nf => IntKind_register_width (nf_kind nf)
  | F_Float ff => FloatKind_register_width (ff_kind ff)
  | F_Ascii _ w => w
  end.

Definition Format_resolution (self : Format) : option Resolution :=
  match self with
  | F_Numeric nf => Some (nf_resolution nf)
  | F_Float ff => Some (ff_resolution ff)
  | F_Ascii _ _ => None
  end.

Definition Format_bitfield (self : Format) : BitField :=
  match self with
  | F_Numeric nf => nf_bit_field nf
  | F_Float _ | F_Ascii _ _ => BitField_default
  end.

Definition Format_word_order (self : Format) : WordOrder :=
  match self with
  | F_Numeric nf => nf_word_order nf
  | F_Float ff => ff_word_order ff
  | F_Ascii _ _ => WO_Normal
  end.

Definition Format_length (self : Format) : nat := (Format_width self * 2)%nat.

(** [Format::u8] to [Format::i128], one per [IntKind], and the float ones. *)
Definition Format_int (kind : IntKind) (endian : Endian) (word_order : WordOrder)
    (resolution : Resolution) (bit_field : BitField) : Format :=
  F_Numeric (mkNumericFormat kind endian word_order resolution bit_field).

Definition Format_float (kind : FloatKind) (endian : Endian) (word_order : WordOrder)
    (resolution : Resolution) : Format :=
  F_Float (mkFloatFormat kind endian word_order resolution).

(** ** Display *)

Definition Alignment_display (self : Alignment) : string :=
  match self with AL_Left => "Left" | AL_Right => "Right" end.

Definition Endian_display (self : Endian) : string :=
  match self with E_Little => "Little Endian" | E_Big => "Big Endian" end.

Definition IntKind_display (self : IntKind) : string :=
  match self with
  | IK_U8 => "U8" | IK_U16 => "U16" | IK_U32 => "U32" | IK_U64 => "U64" | IK_U128 => "U128"
  | IK_I8 => "I8" | IK_I16 => "I16" | IK_I32 => "I32" | IK_I64 => "I64" | IK_I128 => "I128"
  end.

Definition FloatKind_display (self : FloatKind) : string :=
  match self with FK_F32 => "F32" | FK_F64 => "F64" end.

Definition Format_display (self : Format) : string :=
  match self with
  | F_Numeric nf =>
      (IntKind_display (nf_kind nf) ++ " (" ++ Endian_display (nf_endian nf) ++ ")")%string
  | F_Float ff =>
      (FloatKind_display (ff_kind ff) ++ " (" ++ Endian_display (ff_endian ff) ++ ")")%string
  | F_Ascii alignment _ => ("ASCII (" ++ Alignment_display alignment ++ ")")%string
  end.

(** ** Values ([ferrowl-codec/src/value.rs]) *)

Inductive NumericPrimitive :=
| NP_U8 (v : Z) | NP_U16 (v : Z) | NP_U32 (v : Z) | NP_U64 (v : Z) | NP_U128 (v : Z)
| NP_I8 (v : Z) | NP_I16 (v : Z) | NP_I32 (v : Z) | NP_I64 (v : Z) | NP_I128 (v : Z)
| NP_F32 (bits : Z) | NP_F64 (bits : Z).

(** A string is its bytes. *)
Inductive Value :=
| V_Numeric (p : NumericPrimitive) (r : Resolution)
| V_Ascii (s : list Z).

Inductive UnscaledValue :=
| UV_Numeric (p : NumericPrimitive)
| UV_Ascii (s : list Z).

Definition Value_unscaled (self : Value) : UnscaledValue :=
  match self with
  | V_Numeric p _ => UV_Numeric p
  | V_Ascii s => UV_Ascii s
  end.

Definition Value_is_empty (self : Value) : bool :=
  match self with V_Ascii [] => true | _ => false end.

(** The value of a numeric primitive lies in its type. *)
Definition prim_wf (p : NumericPrimitive) : Prop :=
  match p with
  | NP_U8 v => is_uint 8 v | NP_U16 v => is_uint 16 v | NP_U32 v => is_uint 32 v
  | NP_U64 v => is_uint 64 v | NP_U128 v => is_uint 128 v
  | NP_I8 v => is_sint 8 v | NP_I16 v => is_sint 16 v | NP_I32 v => is_sint 32 v
  | NP_I64 v => is_sint 64 v | NP_I128 v => is_sint 128 v
  | NP_F32 b => is_uint 32 b | NP_F64 b => is_uint 64 b
  end.

(** A mask is a [u128]. *)
Definition Format_wf (f : Format) : Prop :=
  match f with
  | F_Numeric nf => is_uint 128 (bf_mask (nf_bit_field nf))
  | _ => True
  end.

(** ** Lemmas *)

Lemma trailing_zeros_from_spec (fuel : nat) (i m : Z) :
  (∃ j, i <= j < i + Z.of_nat fuel ∧ Z.testbit m j = true) →
  let t := trailing_zeros_from fuel i m in
  i <= t < i + Z.of_nat fuel ∧ Z.testbit m t = true ∧
  ∀ j, i <= j < t → Z.testbit m j = false.
Proof.
  revert i. induction fuel as [|fuel IH]; intros i (j & Hj & Hb); [lia|]. simpl.
  destruct (Z.testbit m i) eqn:E; [split_and!; [lia|lia|done|lia]|].
  destruct (IH (i + 1)) as (H1 & H2 & H3).
  { exists j. split; [|done]. destruct (decide (i = j)) as [->|]; [congruence|lia]. }
  split_and!; [lia|lia|done|]. intros k Hk. destruct (decide (k = i)) as [->|]; [done|].
  apply H3. lia.
Qed.

(** The shift is the position of the lowest bit of the mask. *)
Lemma BitField_shift_spec (bf : BitField) :
  is_uint 128 (bf_mask bf) →
  0 <= BitField_shift bf < 128 ∧
  ∀ j, 0 <= j < BitField_shift bf → Z.testbit (bf_mask bf) j = false.
Proof.
  intros Hm. unfold BitField_shift. zcase; [split; [lia|intros; lia]|].
  assert (∃ j, 0 <= j < 0 + Z.of_nat 128 ∧ Z.testbit (bf_mask bf) j = true) as Hex.
  { unfold is_uint in Hm. exists (Z.log2 (bf_mask bf)).
    split; [|apply Z.bit_log2; lia]. split; [apply Z.log2_nonneg|].
    change (0 + Z.of_nat 128) with 128. apply Z.log2_lt_pow2; lia. }
  destruct (trailing_zeros_from_spec 128 0 (bf_mask bf) Hex) as (H1 & _ & H3).
  unfold trailing_zeros. split; [lia|done].
Qed.

Lemma BitField_fits_spec (bf : BitField) (w : Z) :
  is_uint 128 (bf_mask bf) → 0 <= w <= 128 →
  BitField_fits bf w = true ↔ bf_mask bf = u128_max ∨ bf_mask bf < 2 ^ w.
Proof.
  intros Hm Hw. unfold BitField_fits, BitField_is_full. zcase; [split; [by left|done]|].
  rewrite Z.geb_leb. destruct (128 <=? w) eqn:E; zbool; rewrite Z.leb_le.
  - assert (w = 128) as -> by lia. unfold is_uint, u128_max in *. lia.
  - rewrite Z.shiftl_mul_pow2 by lia. lia.
Qed.

Lemma BitField_shift_full (bf : BitField) : bf_mask bf = u128_max → BitField_shift bf = 0.
Proof. intros H. unfold BitField_shift. rewrite H. reflexivity. Qed.
