(* ===== verification/Codec.v ===== *)
(** * The register codec

    Models [ferrowl-codec/src/codec.rs], [error.rs], the hex and decimal text
    of [value.rs] and the bit-field merge of [lib.rs]. Reading a decimal float
    literal is a parameter ([parse_f32], [parse_f64]); no theorem depends on
    what it answers. *)

From stdpp Require Import base list numbers strings.
From S2P Require Import Prelude Bytes IntText Format.

Local Open Scope Z_scope.

Inductive CodecError :=
| CE_TooFewBytes (f : Format)
| CE_PackedAscii
| CE_ParseInt (e : IntErrorKind)
| CE_ParseFloat
| CE_ValueFormatMismatch (f : Format)
| CE_BitFieldWidth (f : Format).

(** ** Decoding *)

(** [decode_int!] and [decode_byte!]: the raw value in the unsigned type of
    width [uw], the field cast to the target type. *)
Definition decode_raw (uw : Z) (e : Endian) (bytes : list Z) : Z :=
  match e with
  | E_Big => parse_from_u8 uw bytes
  | E_Little => parse_from_u8 uw (reverse bytes)
  end.

Definition decode_int (uw : Z) (cast : Z → Z) (e : Endian) (bf : BitField) (bytes : list Z) : Z :=
  cast (Z.shiftr (Z.land (decode_raw uw e bytes) (bf_mask bf)) (BitField_shift bf)).

Definition order_words (f : Format) (words : list Z) : list Z :=
  if bool_decide (Format_word_order f = WO_Reversed) then reverse words else words.

Definition decode (format : Format) (bytes : list Z) : Result Value CodecError :=
  let width := Format_width format in
  if (length bytes <? width)%nat then Err (CE_TooFewBytes format)
  else
    let words := order_words format (take width bytes) in
    let bytes := word_bytes words in
    match format with
    | F_Numeric nf =>
        if negb (BitField_fits (nf_bit_field nf) (IntKind_bits (nf_kind nf)))
        then Err (CE_BitFieldWidth format)
        else
          let e := nf_endian nf in
          let bf := nf_bit_field nf in
          let prim :=
            match nf_kind nf with
            | IK_U8 => NP_U8 (decode_int 16 (as_uint 8) e bf bytes)
            | IK_I8 => NP_I8 (decode_int 16 (as_sint 8) e bf bytes)
            | IK_U16 => NP_U16 (decode_int 16 (as_uint 16) e bf bytes)
            | IK_I16 => NP_I16 (decode_int 16 (as_sint 16) e bf bytes)
            | IK_U32 => NP_U32 (decode_int 32 (as_uint 32) e bf bytes)
            | IK_I32 => NP_I32 (decode_int 32 (as_sint 32) e bf bytes)
            | IK_U64 => NP_U64 (decode_int 64 (as_uint 64) e bf bytes)
            | IK_I64 => NP_I64 (decode_int 64 (as_sint 64) e bf bytes)
            | IK_U128 => NP_U128 (decode_int 128 (as_uint 128) e bf bytes)
            | IK_I128 => NP_I128 (decode_int 128 (as_sint 128) e bf bytes)
            end in
          Ok (V_Numeric prim (nf_resolution nf))
    | F_Float ff =>
        let prim :=
          match ff_kind ff with
          | FK_F32 => NP_F32 (decode_raw 32 (ff_endian ff) bytes)
          | FK_F64 => NP_F64 (decode_raw 64 (ff_endian ff) bytes)
          end in
        Ok (V_Numeric prim (ff_resolution ff))
    | F_Ascii _ _ =>
        if utf8_valid bytes then Ok (V_Ascii bytes) else Err CE_PackedAscii
    end.

(** ** Parsing user input *)

(** [?] on a parsed integer. *)
Definition parsed {A} (res : Result Z IntErrorKind) (k : Z → A) : Result A CodecError :=
  match res with Ok z => Ok (k z) | Err e => Err (CE_ParseInt e) end.

(** [parse_uint!] *)
Definition parse_uint (w : Z) (s : list Z) : Result Z IntErrorKind :=
  match strip_prefix (bytes_of "0x") s with
  | Some s' => from_str_radix false w s' 16
  | None => from_str_radix false w s 10
  end.

(** [parse_int!]; [wrapping_neg] is negation cast back to the type. *)
Definition parse_int (w : Z) (s : list Z) : Result Z IntErrorKind :=
  match strip_prefix (bytes_of "-0x") s with
  | Some s' =>
      match from_str_radix false w s' 16 with
      | Ok u => Ok (as_sint w (- as_sint w u))
      | Err e => Err e
      end
  | None =>
      match strip_prefix (bytes_of "0x") s with
      | Some s' =>
          match from_str_radix false w s' 16 with
          | Ok u => Ok (as_sint w u)
          | Err e => Err e
          end
      | None => from_str_radix true w s 10
      end
  end.

Section parse.
Context (parse_f32 parse_f64 : list Z → option Z).

(** A float literal: [0x] bits or decimal. *)
Definition parse_float (w : Z) (parse : list Z → option Z) (s : list Z) : Result Z CodecError :=
  match strip_prefix (bytes_of "0x") s with
  | Some s' => parsed (from_str_radix false w s' 16) id
  | None => match parse s with Some b => Ok b | None => Err CE_ParseFloat end
  end.

Definition with_resolution (res : Result NumericPrimitive CodecError) (r : Resolution)
  : Result Value CodecError :=
  match res with Ok p => Ok (V_Numeric p r) | Err e => Err e end.

Definition parse_value (format : Format) (s : list Z) : Result Value CodecError :=
  match format with
  | F_Numeric nf =>
      if negb (BitField_fits (nf_bit_field nf) (IntKind_bits (nf_kind nf)))
      then Err (CE_BitFieldWidth format)
      else
        with_resolution
          match nf_kind nf with
          | IK_U8 => parsed (parse_uint 8 s) NP_U8
          | IK_U16 => parsed (parse_uint 16 s) NP_U16
          | IK_U32 => parsed (parse_uint 32 s) NP_U32
          | IK_U64 => parsed (parse_uint 64 s) NP_U64
          | IK_U128 => parsed (parse_uint 128 s) NP_U128
          | IK_I8 => parsed (parse_int 8 s) NP_I8
          | IK_I16 => parsed (parse_int 16 s) NP_I16
          | IK_I32 => parsed (parse_int 32 s) NP_I32
          | IK_I64 => parsed (parse_int 64 s) NP_I64
          | IK_I128 => parsed (parse_int 128 s) NP_I128
          end (nf_resolution nf)
  | F_Float ff =>
      with_resolution
        match ff_kind ff with
        | FK_F32 =>
            match parse_float 32 parse_f32 s with Ok b => Ok (NP_F32 b) | Err e => Err e end
        | FK_F64 =>
            match parse_float 64 parse_f64 s with Ok b => Ok (NP_F64 b) | Err e => Err e end
        end (ff_resolution ff)
  | F_Ascii _ _ => Ok (V_Ascii s)
  end.
End parse.

(** ** Encoding *)

(** The field in the low bits of the unsigned type [uw]:
    [(((val as u128) << shift) & mask) as uw]. *)
Definition place_field (uw : Z) (bf : BitField) (val : Z) : Z :=
  as_uint uw (Z.land (as_uint 128 (Z.shiftl val (BitField_shift bf))) (bf_mask bf)).

(** [to_be_bytes] or [to_le_bytes], packed into words. *)
Definition pack_bytes (uw : Z) (e : Endian) (val : Z) : list Z :=
  let n := Z.to_nat (uw / 8) in
  match e with
  | E_Big => into_vec (to_be_bytes n val)
  | E_Little => into_vec (to_le_bytes n val)
  end.

(** [encode_uint!] and [encode_int!]: the bytes of a signed value are those of
    its bit pattern. *)
Definition encode_uint (uw : Z) (e : Endian) (bf : BitField) (val : Z) : list Z :=
  pack_bytes uw e (place_field uw bf val).

Definition encode_int (uw : Z) (e : Endian) (bf : BitField) (val : Z) : list Z :=
  pack_bytes uw e (as_uint uw (as_sint uw (place_field uw bf (as_uint uw val)))).

(** The one word of an 8-bit value [val] of type [u8] or [i8]. *)
Definition byte_word (e : Endian) (val : Z) : list Z :=
  match e with
  | E_Big => [as_uint 16 val]
  | E_Little => [as_uint 16 (Z.shiftl (as_uint 16 val) 8)]
  end.

Definition encode_words (format : Format) (value : Value) : Result (list Z) CodecError :=
  let mismatch := Err (CE_ValueFormatMismatch format) in
  match format with
  | F_Numeric nf =>
      if negb (BitField_fits (nf_bit_field nf) (IntKind_bits (nf_kind nf)))
      then Err (CE_BitFieldWidth format)
      else
        let e := nf_endian nf in
        let bf := nf_bit_field nf in
        match value with
        | V_Numeric prim _ =>
            match nf_kind nf, prim with
            | IK_U8, NP_U8 val => Ok (byte_word e (place_field 8 bf val))
            | IK_I8, NP_I8 val =>
                Ok (byte_word e (as_sint 8 (place_field 8 bf (as_uint 8 val))))
            | IK_U16, NP_U16 val => Ok (encode_uint 16 e bf val)
            | IK_U32, NP_U32 val => Ok (encode_uint 32 e bf val)
            | IK_U64, NP_U64 val => Ok (encode_uint 64 e bf val)
            | IK_U128, NP_U128 val => Ok (encode_uint 128 e bf val)
            | IK_I16, NP_I16 val => Ok (encode_int 16 e bf val)
            | IK_I32, NP_I32 val => Ok (encode_int 32 e bf val)
            | IK_I64, NP_I64 val => Ok (encode_int 64 e bf val)
            | IK_I128, NP_I128 val => Ok (encode_int 128 e bf val)
            | _, _ => mismatch
            end
        | _ => mismatch
        end
  | F_Float ff =>
      match value with
      | V_Numeric prim _ =>
          match ff_kind ff, prim with
          | FK_F32, NP_F32 val => Ok (pack_bytes 32 (ff_endian ff) val)
          | FK_F64, NP_F64 val => Ok (pack_bytes 64 (ff_endian ff) val)
          | _, _ => mismatch
          end
      | _ => mismatch
      end
  | F_Ascii a w =>
      match value with
      | V_Ascii s =>
          let len := (2 * w)%nat in
          let zeroes := (len - length s)%nat in
          match a with
          | AL_Left => Ok (into_vec (take len (s ++ replicate zeroes 0)))
          | AL_Right =>
              Ok (into_vec (take len (replicate zeroes 0 ++ drop (length s - len) s)))
          end
      | _ => mismatch
      end
  end.

Definition encode_value (format : Format) (value : Value) : Result (list Z) CodecError :=
  match encode_words format value with
  | Ok words => Ok (order_words format words)
  | Err e => Err e
  end.

Definition encode (parse_f32 parse_f64 : list Z → option Z) (format : Format) (s : list Z)
  : Result (list Z) CodecError :=
  match parse_value parse_f32 parse_f64 format s with
  | Ok v => encode_value format v
  | Err e => Err e
  end.

(** ** Masks and merging *)

Definition mask_words (format : Format) : list Z :=
  let words :=
    match format with
    | F_Numeric nf =>
        let e := nf_endian nf in
        let bf := nf_bit_field nf in
        match nf_kind nf with
        | IK_U8 | IK_I8 => byte_word e (as_uint 8 (bf_mask bf))
        | IK_U16 | IK_I16 => pack_bytes 16 e (as_uint 16 (bf_mask bf))
        | IK_U32 | IK_I32 => pack_bytes 32 e (as_uint 32 (bf_mask bf))
        | IK_U64 | IK_I64 => pack_bytes 64 e (as_uint 64 (bf_mask bf))
        | IK_U128 | IK_I128 => pack_bytes 128 e (as_uint 128 (bf_mask bf))
        end
    | F_Float _ | F_Ascii _ _ => replicate (Format_width format) 65535
    end in
  order_words format words.

(** [!m] on a word. *)
Definition word_not (m : Z) : Z := 65535 - m.

(** [(o & !m) | (v & m)] *)
Definition merge_word (m o v : Z) : Z := Z.lor (Z.land o (word_not m)) (Z.land v m).

(** [Register::merge_write]. *)
Definition merge_write (format : Format) (old value : list Z) : list Z :=
  let mask := mask_words format in
  imap (λ i v,
    let m := default 65535 (mask !! i) in
    let o := default 0 (old !! i) in
    merge_word m o v) value.

(** ** Text of a value *)

(** [NumericPrimitive::as_hex_str]. *)
Definition prim_hex (p : NumericPrimitive) : list Z :=
  bytes_of "0x" ++
  match p with
  | NP_U8 v => hex_padded v 2
  | NP_U16 v => hex_padded v 4
  | NP_U32 v => hex_padded v 8
  | NP_U64 v => hex_padded v 16
  | NP_U128 v => hex_padded v 32
  | NP_I8 v => hex_padded (as_uint 8 v) 2
  | NP_I16 v => hex_padded (as_uint 16 v) 4
  | NP_I32 v => hex_padded (as_uint 32 v) 8
  | NP_I64 v => hex_padded (as_uint 64 v) 16
  | NP_I128 v => hex_padded (as_uint 128 v) 32
  | NP_F32 b => hex_padded b 8
  | NP_F64 b => hex_padded b 16
  end.

Definition Value_as_hex_str (v : Value) : list Z :=
  match v with
  | V_Numeric p _ => prim_hex p
  | V_Ascii s => bytes_of "0x" ++ flat_map (λ b, hex_padded b 2) s
  end.

(** [NumericPrimitive]'s [Display]; the text of a float is a parameter. *)
Definition prim_display (display_float : NumericPrimitive → list Z) (p : NumericPrimitive)
  : list Z :=
  match p with
  | NP_U8 v | NP_U16 v | NP_U32 v | NP_U64 v | NP_U128 v
  | NP_I8 v | NP_I16 v | NP_I32 v | NP_I64 v | NP_I128 v => int_display v
  | NP_F32 _ | NP_F64 _ => display_float p
  end.

(** ** Registers ([ferrowl-codec/src/lib.rs]) *)

Inductive RegAccess := RA_ReadOnly | RA_WriteOnly | RA_ReadWrite.

Inductive Address := Fixed (a : Z) | Virtual.

Inductive Kind := K_Coil | K_DiscreteInput | K_HoldingRegister | K_InputRegister.

#[export] Instance Kind_eq_dec : EqDecision Kind.
Proof. solve_decision. Defined.

Definition RegAccess_display (self : RegAccess) : string :=
  match self with
  | RA_ReadOnly => "ReadOnly" | RA_WriteOnly => "WriteOnly" | RA_ReadWrite => "ReadWrite"
  end.

Definition Kind_display (self : Kind) : string :=
  match self with
  | K_Coil => "Coil" | K_DiscreteInput => "Discrete Input"
  | K_HoldingRegister => "Holding Register" | K_InputRegister => "Input Register"
  end.

Record Register := mkRegister {
  reg_slave_id : Z;
  reg_access : RegAccess;
  reg_kind : Kind;
  reg_address : Address;
  reg_format : Format
}.

Definition Register_decode (self : Register) (bytes : list Z) : Result Value CodecError :=
  decode (reg_format self) bytes.

Definition Register_encode (parse_f32 parse_f64 : list Z → option Z) (self : Register)
    (s : list Z) : Result (list Z) CodecError :=
  encode parse_f32 parse_f64 (reg_format self) s.

Definition Register_encode_value (self : Register) (value : Value)
  : Result (list Z) CodecError :=
  encode_value (reg_format self) value.

Definition Register_write_mask (self : Register) : list Z := mask_words (reg_format self).

Definition Register_merge_write (self : Register) (old value : list Z) : list Z :=
  merge_write (reg_format self) old value.
