(* ===== verification/CodecSpec.v ===== *)
(** * Correctness of the codec

    Round trips between values and register words, between values and their
    text, and the read-modify-write merge of bit fields. *)

From stdpp Require Import base list numbers strings.
From S2P Require Import Prelude Bytes IntText Format Codec.

Local Open Scope Z_scope.

#[local] Ltac Zify.zify_post_hook ::= Z.to_euclidean_division_equations.

(** ** Casts *)

Lemma as_sint_range (w z : Z) : 1 <= w → is_sint w (as_sint w z).
Proof.
  intros Hw. unfold is_sint, as_sint.
  assert (2 ^ w = 2 * 2 ^ (w - 1)) as Hp
    by (rewrite <- Z.pow_succ_r by lia; f_equal; lia).
  pose proof (Z.mod_pos_bound z (2 ^ w) ltac:(apply Z.pow_pos_nonneg; lia)) as Hm.
  zcase; lia.
Qed.

Lemma as_sint_mod (w z z' : Z) : z mod 2 ^ w = z' mod 2 ^ w → as_sint w z = as_sint w z'.
Proof. intros H. unfold as_sint. by rewrite H. Qed.

Lemma as_uint_mod (w z z' : Z) : z mod 2 ^ w = z' mod 2 ^ w → as_uint w z = as_uint w z'.
Proof. intros H. unfold as_uint. by rewrite H. Qed.

Lemma as_uint_idemp (w z : Z) : 0 <= w → as_uint w z mod 2 ^ w = z mod 2 ^ w.
Proof. intros Hw. unfold as_uint. apply Z.mod_mod. lia. Qed.

Lemma as_sint_idemp (w z : Z) : 0 <= w → as_sint w z mod 2 ^ w = z mod 2 ^ w.
Proof.
  intros Hw. unfold as_sint. zcase; [apply Z.mod_mod; lia|].
  assert (0 < 2 ^ w) by (apply Z.pow_pos_nonneg; lia).
  rewrite Zminus_mod, Z.mod_same, Z.sub_0_r, !Z.mod_mod by lia. done.
Qed.

Lemma as_sint_small (w v : Z) : 1 <= w → is_sint w v → as_sint w v = v.
Proof.
  intros Hw Hv. unfold is_sint, as_sint in *.
  assert (2 ^ w = 2 * 2 ^ (w - 1)) as Hp
    by (rewrite <- Z.pow_succ_r by lia; f_equal; lia).
  destruct (decide (0 <= v)).
  - rewrite Z.mod_small by lia. by rewrite (proj2 (Z.ltb_lt _ _)) by lia.
  - assert (v mod 2 ^ w = v + 2 ^ w) as ->.
    { symmetry. apply Z.mod_unique_pos with (-1); lia. }
    rewrite (proj2 (Z.ltb_ge _ _)) by lia. lia.
Qed.

Lemma as_uint_as_sint (w u : Z) : 1 <= w → is_uint w u → as_uint w (as_sint w u) = u.
Proof.
  intros Hw Hu. rewrite (as_uint_mod w _ u) by (apply as_sint_idemp; lia).
  by apply as_uint_small.
Qed.

(** ** Packing *)

(** A word-aligned value survives packing into words and back. *)
Lemma pack_bytes_spec (k : nat) (e : Endian) (x : Z) :
  let w := 16 * Z.of_nat k in
  is_uint w x →
  length (pack_bytes w e x) = k ∧ Forall is_word (pack_bytes w e x) ∧
  decode_raw w e (word_bytes (pack_bytes w e x)) = x.
Proof.
  intros w Hx. unfold pack_bytes, decode_raw.
  assert (Z.to_nat (w / 8) = 2 * k)%nat as -> by (unfold w; lia).
  destruct (to_be_bytes_spec (2 * k) x) as [Hl Hb].
  assert (parse_from_u8 w (to_be_bytes (2 * k) x) = x) as Hp.
  { rewrite parse_be_value, be_value_to_be_bytes; [|done|rewrite Hl; unfold w; lia].
    apply Z.mod_small. replace (8 * Z.of_nat (2 * k)) with w by (unfold w; lia). apply Hx. }
  destruct e.
  - destruct (word_bytes_into_vec k (to_le_bytes (2 * k) x)) as (Hwb & Hlen & Hf);
      [apply to_le_bytes_range|by rewrite length_to_le_bytes|].
    by rewrite Hwb.
  - destruct (word_bytes_into_vec k (to_be_bytes (2 * k) x)) as (Hwb & Hlen & Hf); [done|done|].
    by rewrite Hwb.
Qed.

Lemma decode_raw_range (k : nat) (e : Endian) (words : list Z) :
  length words = k →
  let w := 16 * Z.of_nat k in
  is_uint w (decode_raw w e (word_bytes words)).
Proof.
  intros Hl w. destruct (word_bytes_range words) as [Hb Hlen].
  assert (∀ bs, Forall is_byte bs → length bs = (2 * k)%nat → is_uint w (parse_from_u8 w bs)) as Hp.
  { intros bs Hbs Hbl. rewrite parse_be_value by (done || rewrite Hbl; unfold w; lia).
    unfold is_uint. replace w with (8 * Z.of_nat (length bs)) by (unfold w; lia).
    by apply be_value_range. }
  unfold decode_raw. destruct e; apply Hp.
  - by apply Forall_reverse.
  - rewrite length_reverse. lia.
  - done.
  - lia.
Qed.

(** Words survive decoding to a raw value and packing. *)
Lemma decode_raw_pack (k : nat) (e : Endian) (words : list Z) :
  length words = k → Forall is_word words →
  let w := 16 * Z.of_nat k in
  pack_bytes w e (decode_raw w e (word_bytes words)) = words.
Proof.
  intros Hl Hw w. destruct (word_bytes_range words) as [Hb Hlen].
  unfold pack_bytes, decode_raw.
  assert (Z.to_nat (w / 8) = 2 * k)%nat as -> by (unfold w; lia).
  assert (∀ bs, Forall is_byte bs → length bs = (2 * k)%nat →
    to_be_bytes (2 * k) (parse_from_u8 w bs) = bs) as Hp.
  { intros bs Hbs Hbl. rewrite parse_be_value by (done || rewrite Hbl; unfold w; lia).
    rewrite <- Hbl. by apply to_be_bytes_be_value. }
  destruct e.
  - unfold to_be_bytes in Hp.
    assert (to_le_bytes (2 * k) (parse_from_u8 w (reverse (word_bytes words))) =
            word_bytes words) as ->; [|by apply into_vec_word_bytes].
    apply (inj reverse). apply Hp; [by apply Forall_reverse|rewrite length_reverse; lia].
  - rewrite Hp; [by apply into_vec_word_bytes|done|lia].
Qed.

Lemma word_raw (e : Endian) (v : Z) :
  is_word v →
  decode_raw 16 e (word_bytes [v]) =
  match e with E_Big => v | E_Little => v / 256 + 256 * (v mod 256) end.
Proof.
  intros Hv. rewrite is_word_range in Hv. unfold decode_raw, word_bytes. simpl.
  rewrite shiftr_8, land_255. unfold parse_from_u8, reverse, as_uint. simpl foldl.
  change (2 ^ 8) with 256. change (2 ^ 16) with 65536.
  destruct e; simpl; rewrite ?shiftl_8; lia.
Qed.

(** The one word of an 8-bit value decodes to the value modulo 256. *)
Lemma byte_word_spec (e : Endian) (y : Z) :
  length (byte_word e y) = 1%nat ∧ Forall is_word (byte_word e y) ∧
  decode_raw 16 e (word_bytes (byte_word e y)) mod 2 ^ 8 = y mod 2 ^ 8.
Proof.
  destruct e; cbn [byte_word]; split_and!; try done.
  - repeat constructor; try apply as_uint_range; try lia; done.
  - rewrite word_raw by (apply as_uint_range; lia). rewrite shiftl_8. unfold as_uint.
    change (2 ^ 8) with 256. change (2 ^ 16) with 65536. lia.
  - repeat constructor; try apply as_uint_range; try lia; done.
  - rewrite word_raw by (apply as_uint_range; lia). unfold as_uint.
    change (2 ^ 8) with 256. change (2 ^ 16) with 65536. lia.
Qed.

Lemma byte_word_raw (e : Endian) (m : Z) :
  is_byte m → decode_raw 16 e (word_bytes (byte_word e m)) = m.
Proof.
  rewrite is_byte_range. intros Hm.
  destruct e; cbn [byte_word]; rewrite word_raw by (apply as_uint_range; lia);
    rewrite ?shiftl_8; unfold as_uint; change (2 ^ 16) with 65536; lia.
Qed.

(** ** Bit fields *)

(** The bit pattern [u] survives being placed under the mask. *)
Definition field_fits (bf : BitField) (u : Z) : bool :=
  Z.land (Z.shiftl u (BitField_shift bf)) (bf_mask bf) =? Z.shiftl u (BitField_shift bf).

Lemma land_mod_mask (w x m : Z) :
  0 <= w → 0 <= m < 2 ^ w → Z.land (x mod 2 ^ w) m = Z.land x m.
Proof.
  intros Hw Hm. apply Z.bits_inj'. intros i Hi. rewrite !Z.land_spec.
  destruct (decide (i < w)).
  - by rewrite Z.mod_pow2_bits_low.
  - by rewrite (testbit_small w m i), !andb_false_r by lia.
Qed.

Lemma land_u128_max (x : Z) : Z.land x u128_max = x mod 2 ^ 128.
Proof. change u128_max with (Z.ones 128). apply Z.land_ones. lia. Qed.

Lemma land_le_mask (x m : Z) : 0 <= m → 0 <= Z.land x m <= m.
Proof.
  intros Hm. split; [apply Z.land_nonneg; by right|]. 
  replace m with (Z.land x m + Z.land (Z.lnot x) m) at 2.
  - assert (0 <= Z.land (Z.lnot x) m) by (apply Z.land_nonneg; by right). lia.
  - rewrite <- Z.add_lor_land.
    assert (Z.land (Z.land x m) (Z.land (Z.lnot x) m) = 0) as ->.
    { apply Z.bits_inj'. intros i Hi. rewrite !Z.land_spec, Z.lnot_spec, Z.bits_0 by done.
      by destruct (Z.testbit x i), (Z.testbit m i). }
    rewrite Z.add_0_r. apply Z.bits_inj'. intros i Hi.
    rewrite Z.lor_spec, !Z.land_spec, Z.lnot_spec by done.
    by destruct (Z.testbit x i), (Z.testbit m i).
Qed.

(** Placing a fitting field and extracting it gives it back, whatever the
    bits outside the mask. *)
Lemma place_extract (w : Z) (bf : BitField) (u raw : Z) :
  1 <= w <= 128 → is_uint 128 (bf_mask bf) → BitField_fits bf w = true →
  is_uint w u → field_fits bf u = true →
  Z.land raw (bf_mask bf) mod 2 ^ w = place_field w bf u →
  Z.shiftr (Z.land raw (bf_mask bf)) (BitField_shift bf) mod 2 ^ w = u.
Proof.
  intros Hw Hm Hfit Hu Hff Hpl. unfold field_fits in Hff. zbool.
  destruct (BitField_shift_spec bf Hm) as [Hs _].
  assert (2 ^ w <= 2 ^ 128) as Hp by (apply Z.pow_le_mono_r; lia).
  unfold place_field, as_uint in Hpl. unfold is_uint in *.
  apply (BitField_fits_spec bf w Hm ltac:(lia)) in Hfit as [Hfull|Hlt].
  - rewrite (BitField_shift_full bf Hfull) in *. rewrite Z.shiftl_0_r, Z.shiftr_0_r in *.
    rewrite Hpl, (Z.mod_small u (2 ^ 128)), Hff by lia. apply Z.mod_small. lia.
  - set (t := Z.shiftl u (BitField_shift bf)) in *.
    pose proof (land_le_mask t (bf_mask bf) ltac:(lia)) as Hle. rewrite Hff in Hle.
    pose proof (land_le_mask raw (bf_mask bf) ltac:(lia)) as Hle'.
    rewrite (Z.mod_small t (2 ^ 128)), Hff, (Z.mod_small t), (Z.mod_small (Z.land raw _))
      in Hpl by lia.
    rewrite Hpl. unfold t.
    rewrite Z.shiftr_shiftl_l, Z.sub_diag, Z.shiftl_0_r by lia. apply Z.mod_small. lia.
Qed.

(** Selecting the mask's bits of the placed field, or of anything equal to it
    in the type. *)
Lemma land_place_field (w : Z) (bf : BitField) (u raw : Z) :
  1 <= w <= 128 → is_uint 128 (bf_mask bf) → BitField_fits bf w = true →
  0 <= raw < 2 ^ 128 → raw mod 2 ^ w = place_field w bf u →
  Z.land raw (bf_mask bf) mod 2 ^ w = place_field w bf u.
Proof.
  intros Hw Hm Hfit Hraw Hpl. pose proof Hpl as Hpl'.
  apply (BitField_fits_spec bf w Hm ltac:(lia)) in Hfit as [Hfull|Hlt].
  - by rewrite Hfull, land_u128_max, (Z.mod_small raw).
  - unfold is_uint in Hm. rewrite <- (land_mod_mask w) by lia. rewrite Hpl.
    unfold place_field, as_uint.
    set (t := Z.shiftl u (BitField_shift bf) mod 2 ^ 128).
    pose proof (land_le_mask t (bf_mask bf) ltac:(lia)) as Hle.
    rewrite (Z.mod_small (Z.land t _)) by lia.
    rewrite <- Z.land_assoc, Z.land_diag. apply Z.mod_small. lia.
Qed.

Lemma place_field_range (w : Z) (bf : BitField) (u : Z) : 0 <= w → is_uint w (place_field w bf u).
Proof. intros Hw. apply as_uint_range. done. Qed.

(** ** One view of the ten integer kinds *)

Definition kind_signed (k : IntKind) : bool :=
  match k with IK_I8 | IK_I16 | IK_I32 | IK_I64 | IK_I128 => true | _ => false end.

Definition kind_cast (k : IntKind) (z : Z) : Z :=
  if kind_signed k then as_sint (IntKind_bits k) z else as_uint (IntKind_bits k) z.

(** The primitive of kind [k] with value [v]. *)
Definition kind_prim (k : IntKind) (v : Z) : NumericPrimitive :=
  match k with
  | IK_U8 => NP_U8 v | IK_U16 => NP_U16 v | IK_U32 => NP_U32 v | IK_U64 => NP_U64 v
  | IK_U128 => NP_U128 v | IK_I8 => NP_I8 v | IK_I16 => NP_I16 v | IK_I32 => NP_I32 v
  | IK_I64 => NP_I64 v | IK_I128 => NP_I128 v
  end.

Definition kind_words (k : IntKind) : nat := IntKind_register_width k.

(** The words of the field [x] (a bit pattern of the kind's width). *)
Definition kind_pack (k : IntKind) (e : Endian) (x : Z) : list Z :=
  match k with
  | IK_U8 => byte_word e x
  | IK_I8 => byte_word e (as_sint 8 x)
  | _ => pack_bytes (IntKind_bits k) e x
  end.

Lemma kind_bits_range (k : IntKind) : 1 <= IntKind_bits k <= 128.
Proof. destruct k; simpl; lia. Qed.

Lemma decode_numeric (nf : NumericFormat) (ws : list Z) :
  (kind_words (nf_kind nf) ≤ length ws)%nat →
  BitField_fits (nf_bit_field nf) (IntKind_bits (nf_kind nf)) = true →
  let k := nf_kind nf in
  let raw := decode_raw (16 * Z.of_nat (kind_words k)) (nf_endian nf)
    (word_bytes (order_words (F_Numeric nf) (take (kind_words k) ws))) in
  decode (F_Numeric nf) ws =
  Ok (V_Numeric (kind_prim k (kind_cast k
        (Z.shiftr (Z.land raw (bf_mask (nf_bit_field nf))) (BitField_shift (nf_bit_field nf)))))
      (nf_resolution nf)).
Proof.
  intros Hl Hf k raw. unfold decode, raw, k. cbn [Format_width].
  fold (kind_words (nf_kind nf)). rewrite (proj2 (Nat.ltb_ge _ _)) by done.
  rewrite Hf. cbn [negb]. unfold decode_int. by destruct (nf_kind nf).
Qed.

Lemma encode_numeric (nf : NumericFormat) (v : Z) (r : Resolution) :
  BitField_fits (nf_bit_field nf) (IntKind_bits (nf_kind nf)) = true →
  let k := nf_kind nf in
  prim_wf (kind_prim k v) →
  encode_value (F_Numeric nf) (V_Numeric (kind_prim k v) r) =
  Ok (order_words (F_Numeric nf)
        (kind_pack k (nf_endian nf)
           (place_field (IntKind_bits k) (nf_bit_field nf) (as_uint (IntKind_bits k) v)))).
Proof.
  intros Hf k Hv. unfold encode_value, encode_words, k in *. rewrite Hf. cbn [negb].
  destruct (nf_kind nf); simpl in Hv; cbn [kind_prim IntKind_bits kind_pack];
    unfold encode_uint, encode_int; rewrite ?as_uint_as_sint; try done;
    try (apply place_field_range; lia); try lia; by rewrite (as_uint_small _ v).
Qed.

Lemma order_words_involutive (f : Format) (ws : list Z) : order_words f (order_words f ws) = ws.
Proof. unfold order_words. case_bool_decide; [apply reverse_involutive|done]. Qed.

Lemma length_order_words (f : Format) (ws : list Z) : length (order_words f ws) = length ws.
Proof. unfold order_words. case_bool_decide; [apply length_reverse|done]. Qed.

Lemma Forall_order_words (P : Z → Prop) (f : Format) (ws : list Z) :
  Forall P ws → Forall P (order_words f ws).
Proof. unfold order_words. case_bool_decide; [apply Forall_reverse|done]. Qed.

(** The words of a field: as many as the kind has, and decoding them gives
    the field back modulo the width. *)
Lemma kind_pack_spec (k : IntKind) (e : Endian) (x : Z) :
  is_uint (IntKind_bits k) x →
  length (kind_pack k e x) = kind_words k ∧ Forall is_word (kind_pack k e x) ∧
  let raw := decode_raw (16 * Z.of_nat (kind_words k)) e (word_bytes (kind_pack k e x)) in
  0 <= raw < 2 ^ 128 ∧ raw mod 2 ^ IntKind_bits k = x.
Proof.
  intros Hx.
  assert (∀ n, (n ≤ 8)%nat → is_uint (16 * Z.of_nat n) x →
    length (pack_bytes (16 * Z.of_nat n) e x) = n ∧
    Forall is_word (pack_bytes (16 * Z.of_nat n) e x) ∧
    let raw := decode_raw (16 * Z.of_nat n) e (word_bytes (pack_bytes (16 * Z.of_nat n) e x)) in
    0 <= raw < 2 ^ 128 ∧ raw mod 2 ^ (16 * Z.of_nat n) = x) as Hpack.
  { intros n Hn Hxn. destruct (pack_bytes_spec n e x Hxn) as (H1 & H2 & H3).
    split_and!; [done|done|]. cbv zeta. rewrite H3. split.
    - unfold is_uint in Hxn.
      assert (2 ^ (16 * Z.of_nat n) <= 2 ^ 128) by (apply Z.pow_le_mono_r; lia). lia.
    - by apply Z.mod_small. }
  assert (∀ y, y mod 2 ^ 8 = x →
    length (byte_word e y) = 1%nat ∧ Forall is_word (byte_word e y) ∧
    let raw := decode_raw (16 * Z.of_nat 1) e (word_bytes (byte_word e y)) in
    0 <= raw < 2 ^ 128 ∧ raw mod 2 ^ 8 = x) as Hbyte.
  { intros y Hy. destruct (byte_word_spec e y) as (H1 & H2 & H3).
    split_and!; [done|done|]. cbv zeta. change (16 * Z.of_nat 1) with 16. split; [|by rewrite H3].
    pose proof (decode_raw_range 1 e (byte_word e y) H1) as Hr. cbv zeta in Hr.
    change (16 * Z.of_nat 1) with 16 in Hr. unfold is_uint in Hr.
    assert (2 ^ 16 <= 2 ^ 128) by (apply Z.pow_le_mono_r; lia). lia. }
  destruct k; cbn [IntKind_bits kind_pack] in *.
  - apply (Hbyte x). by apply Z.mod_small.
  - by apply (Hpack 1%nat); [lia|].
  - by apply (Hpack 2%nat); [lia|].
  - by apply (Hpack 4%nat); [lia|].
  - by apply (Hpack 8%nat); [lia|].
  - apply (Hbyte (as_sint 8 x)). rewrite as_sint_idemp by lia. by apply Z.mod_small.
  - by apply (Hpack 1%nat); [lia|].
  - by apply (Hpack 2%nat); [lia|].
  - by apply (Hpack 4%nat); [lia|].
  - by apply (Hpack 8%nat); [lia|].
Qed.

(** Casting a pattern back gives the value. *)
Lemma kind_cast_pattern (k : IntKind) (v z : Z) :
  prim_wf (kind_prim k v) → z mod 2 ^ IntKind_bits k = as_uint (IntKind_bits k) v →
  kind_cast k z = v.
Proof.
  intros Hv Hz. unfold kind_cast.
  destruct (kind_signed k) eqn:E.
  - rewrite (as_sint_mod _ z v).
    + apply as_sint_small; [destruct k; simpl; lia|]. by destruct k.
    + rewrite Hz. done.
  - unfold as_uint at 1. rewrite Hz. apply as_uint_small. by destruct k.
Qed.

(** ** Merging words *)

(** Per bit: the value's where the mask is set, the old one elsewhere. *)
Definition mergeZ (m o v : Z) : Z := Z.lor (Z.land o (Z.lnot m)) (Z.land v m).

Lemma mergeZ_testbit (m o v i : Z) :
  0 <= i → Z.testbit (mergeZ m o v) i = if Z.testbit m i then Z.testbit v i else Z.testbit o i.
Proof.
  intros Hi. unfold mergeZ. rewrite Z.lor_spec, !Z.land_spec, Z.lnot_spec by done.
  by destruct (Z.testbit m i), (Z.testbit v i), (Z.testbit o i).
Qed.

Lemma merge_word_mergeZ (m o v : Z) :
  is_word m → is_word o → merge_word m o v = mergeZ m o v.
Proof.
  unfold is_word, is_uint. intros Hm Ho. unfold merge_word, mergeZ, word_not. f_equal.
  apply Z.bits_inj'. intros i Hi. rewrite !Z.land_spec, Z.lnot_spec by done.
  destruct (decide (i < 16)).
  - f_equal. replace (65535 - m) with (Z.lnot m mod 2 ^ 16).
    + rewrite Z.mod_pow2_bits_low by lia. by rewrite Z.lnot_spec.
    + unfold Z.lnot. symmetry. apply Z.mod_unique_pos with (-1); lia.
  - by rewrite (testbit_small 16 o i) by lia.
Qed.

Lemma testbit_byte_cons (x b i : Z) :
  is_byte b → 0 <= i →
  Z.testbit (x * 256 + b) i = if decide (i < 8) then Z.testbit b i else Z.testbit x (i - 8).
Proof.
  intros Hb Hi. rewrite <- lor_byte, Z.lor_spec, <- shiftl_8 by done. case_decide.
  - by rewrite Z.shiftl_spec_low.
  - rewrite Z.shiftl_spec by lia. by rewrite (testbit_small 8 b i), orb_false_r by (done || lia).
Qed.

Lemma mergeZ_range (n m o v : Z) :
  0 <= n → 0 <= m < 2 ^ n → 0 <= o < 2 ^ n → 0 <= v < 2 ^ n → 0 <= mergeZ m o v < 2 ^ n.
Proof.
  intros Hn Hm Ho Hv.
  assert (0 <= mergeZ m o v) as H0.
  { unfold mergeZ. apply Z.lor_nonneg. split; apply Z.land_nonneg; lia. }
  split; [done|]. apply Z.bounded_iff_bits_nonneg; [done|done|]. intros i Hi.
  rewrite mergeZ_testbit by lia. rewrite !(testbit_small n) by lia. by destruct (Z.testbit m i).
Qed.

Lemma mergeZ_bytes (m1 m0 o1 o0 v1 v0 : Z) :
  is_byte m0 → is_byte o0 → is_byte v0 →
  mergeZ (m1 * 256 + m0) (o1 * 256 + o0) (v1 * 256 + v0) =
  mergeZ m1 o1 v1 * 256 + mergeZ m0 o0 v0.
Proof.
  intros Hm Ho Hv. apply Z.bits_inj'. intros i Hi.
  assert (is_byte (mergeZ m0 o0 v0)) as Hb by (apply (mergeZ_range 8); done).
  rewrite mergeZ_testbit, !testbit_byte_cons by done.
  case_decide; by rewrite mergeZ_testbit by lia.
Qed.

(** Merging the byte sequences of three values merges the values. *)
Lemma be_value_mergeZ (bs : list (Z * Z * Z)) :
  Forall (λ '(m, o, v), is_byte m ∧ is_byte o ∧ is_byte v) bs →
  be_value ((λ '(m, o, v), mergeZ m o v) <$> bs) =
  mergeZ (be_value ((λ '(m, o, v), m) <$> bs)) (be_value ((λ '(m, o, v), o) <$> bs))
    (be_value ((λ '(m, o, v), v) <$> bs)).
Proof.
  induction bs as [|[[m o] v] bs IH] using rev_ind; intros Hb; [done|].
  apply Forall_app in Hb as [Hbs Hb]. apply Forall_cons_1 in Hb as [(Hm & Ho & Hv) _].
  rewrite !fmap_app, !list_fmap_singleton, !be_value_snoc, IH by done. by rewrite mergeZ_bytes.
Qed.

(** The bytes of merged words are the merged bytes. *)
Definition word_bytes3 (ws : list (Z * Z * Z)) : list (Z * Z * Z) :=
  flat_map (λ '(m, o, v), [(m / 256, o / 256, v / 256); (m mod 256, o mod 256, v mod 256)]) ws.

Lemma word_bytes_cons (v : Z) (ws : list Z) :
  is_word v → word_bytes (v :: ws) = v / 256 :: v mod 256 :: word_bytes ws.
Proof.
  intros Hv. rewrite is_word_range in Hv. unfold word_bytes. cbn [flat_map app].
  rewrite shiftr_8, land_255. unfold as_uint. change (2 ^ 8) with 256.
  rewrite (Z.mod_small (v / 256)), (Z.mod_small (v mod 256)) by lia. done.
Qed.

Lemma word_bytes_mergeZ (ws : list (Z * Z * Z)) :
  Forall (λ '(m, o, v), is_word m ∧ is_word o ∧ is_word v) ws →
  Forall (λ '(m, o, v), is_byte m ∧ is_byte o ∧ is_byte v) (word_bytes3 ws) ∧
  word_bytes ((λ '(m, o, v), mergeZ m o v) <$> ws) =
    (λ '(m, o, v), mergeZ m o v) <$> word_bytes3 ws ∧
  word_bytes ((λ '(m, o, v), m) <$> ws) = (λ '(m, o, v), m) <$> word_bytes3 ws ∧
  word_bytes ((λ '(m, o, v), o) <$> ws) = (λ '(m, o, v), o) <$> word_bytes3 ws ∧
  word_bytes ((λ '(m, o, v), v) <$> ws) = (λ '(m, o, v), v) <$> word_bytes3 ws.
Proof.
  induction ws as [|[[m o] v] ws IH]; intros Hw; [done|].
  apply Forall_cons_1 in Hw as [(Hm & Ho & Hv) Hw].
  destruct (IH Hw) as (H0 & H1 & H2 & H3 & H4).
  unfold word_bytes3. cbn [flat_map app]. fold (word_bytes3 ws). rewrite !fmap_cons.
  assert (is_word (mergeZ m o v)) as Hmg by (apply (mergeZ_range 16); done).
  rewrite !word_bytes_cons by done. rewrite is_word_range in Hm, Ho, Hv.
  assert (∀ x, 0 <= x < 65536 → is_byte (x / 256) ∧ is_byte (x mod 256)) as Hby
    by (intros x Hx; unfold is_byte, is_uint; lia).
  destruct (Hby m Hm), (Hby o Ho), (Hby v Hv).
  split_and!.
  - do 2 (apply Forall_cons_2; [done|]). done.
  - rewrite H1.
    pose proof (mergeZ_bytes (m / 256) (m mod 256) (o / 256) (o mod 256) (v / 256) (v mod 256)) as Hb.
    replace (m / 256 * 256 + m mod 256) with m in Hb by lia.
    replace (o / 256 * 256 + o mod 256) with o in Hb by lia.
    replace (v / 256 * 256 + v mod 256) with v in Hb by lia.
    assert (is_byte (mergeZ (m mod 256) (o mod 256) (v mod 256))) as Hr
      by (apply (mergeZ_range 8); done).
    rewrite is_byte_range in Hr. rewrite Hb by done.
    f_equal; [lia|]. f_equal. lia.
  - by rewrite H2.
  - by rewrite H3.
  - by rewrite H4.
Qed.

(** Raw values merge as their words do. *)
Lemma decode_raw_mergeZ (e : Endian) (ws : list (Z * Z * Z)) (k : nat) :
  length ws = k → Forall (λ '(m, o, v), is_word m ∧ is_word o ∧ is_word v) ws →
  let raw := λ l, decode_raw (16 * Z.of_nat k) e (word_bytes l) in
  raw ((λ '(m, o, v), mergeZ m o v) <$> ws) =
  mergeZ (raw ((λ '(m, o, v), m) <$> ws)) (raw ((λ '(m, o, v), o) <$> ws))
    (raw ((λ '(m, o, v), v) <$> ws)).
Proof.
  intros Hl Hw raw. destruct (word_bytes_mergeZ ws Hw) as (H0 & H1 & H2 & H3 & H4).
  assert (length (word_bytes3 ws) = (2 * k)%nat) as Hl3.
  { rewrite <- Hl. clear. induction ws as [|[[m o] v] ws IH]; [done|].
    unfold word_bytes3 in *. cbn [flat_map app length]. rewrite IH. lia. }
  assert (∀ f : Z * Z * Z → Z, (∀ x y z, is_byte x → is_byte y → is_byte z → is_byte (f (x, y, z))) →
    Forall is_byte (f <$> word_bytes3 ws)) as Hf.
  { intros f Hf. apply Forall_fmap. eapply Forall_impl; [done|].
    intros [[x y] z] (? & ? & ?). by apply Hf. }
  assert (∀ f : Z * Z * Z → Z, (∀ x y z, is_byte x → is_byte y → is_byte z → is_byte (f (x, y, z))) →
    decode_raw (16 * Z.of_nat k) e (f <$> word_bytes3 ws) =
    be_value (f <$> (match e with E_Big => word_bytes3 ws | E_Little => reverse (word_bytes3 ws) end)))
    as Hraw.
  { intros f Hff. unfold decode_raw. specialize (Hf f Hff).
    destruct e; rewrite ?fmap_reverse; apply parse_be_value; try done;
      try (by apply Forall_reverse); rewrite ?length_reverse, length_fmap; lia. }
  unfold raw. rewrite H1, H2, H3, H4, !Hraw; try done.
  - apply be_value_mergeZ. destruct e; [by apply Forall_reverse|done].
  - intros x y z Hx Hy Hz. by apply (mergeZ_range 8).
Qed.

Lemma land_mergeZ (w mask O V : Z) :
  0 <= w → 
  Z.land (mergeZ (mask mod 2 ^ w) O V) mask mod 2 ^ w = Z.land V mask mod 2 ^ w.
Proof.
  intros Hw. apply Z.bits_inj'. intros i Hi. destruct (decide (i < w)).
  - rewrite !Z.mod_pow2_bits_low, !Z.land_spec, mergeZ_testbit by lia.
    rewrite Z.mod_pow2_bits_low by lia. by destruct (Z.testbit mask i); rewrite ?andb_false_r.
  - by rewrite !Z.mod_pow2_bits_high by lia.
Qed.

(** The words of an integer mask, before the register order is applied. *)
Definition mask_pack (k : IntKind) (e : Endian) (m : Z) : list Z :=
  match k with
  | IK_U8 | IK_I8 => byte_word e (as_uint 8 m)
  | _ => pack_bytes (IntKind_bits k) e (as_uint (IntKind_bits k) m)
  end.

Lemma mask_words_numeric (nf : NumericFormat) :
  mask_words (F_Numeric nf) =
  order_words (F_Numeric nf) (mask_pack (nf_kind nf) (nf_endian nf) (bf_mask (nf_bit_field nf))).
Proof. unfold mask_words. by destruct (nf_kind nf). Qed.

Lemma mask_pack_spec (k : IntKind) (e : Endian) (m : Z) :
  length (mask_pack k e m) = kind_words k ∧ Forall is_word (mask_pack k e m) ∧
  decode_raw (16 * Z.of_nat (kind_words k)) e (word_bytes (mask_pack k e m)) =
    m mod 2 ^ IntKind_bits k.
Proof.
  assert (∀ n, length (pack_bytes (16 * Z.of_nat n) e (as_uint (16 * Z.of_nat n) m)) = n ∧
    Forall is_word (pack_bytes (16 * Z.of_nat n) e (as_uint (16 * Z.of_nat n) m)) ∧
    decode_raw (16 * Z.of_nat n) e
      (word_bytes (pack_bytes (16 * Z.of_nat n) e (as_uint (16 * Z.of_nat n) m))) =
    m mod 2 ^ (16 * Z.of_nat n)) as Hpack.
  { intros n. apply pack_bytes_spec, as_uint_range. lia. }
  assert (length (byte_word e (as_uint 8 m)) = 1%nat ∧
    Forall is_word (byte_word e (as_uint 8 m)) ∧
    decode_raw 16 e (word_bytes (byte_word e (as_uint 8 m))) = m mod 2 ^ 8) as Hbyte.
  { destruct (byte_word_spec e (as_uint 8 m)) as (? & ? & _). split_and!; [done|done|].
    apply byte_word_raw, as_uint_range. lia. }
  destruct k; cbn [mask_pack IntKind_bits]; try apply Hbyte.
  - apply (Hpack 1%nat). - apply (Hpack 2%nat). - apply (Hpack 4%nat). - apply (Hpack 8%nat).
  - apply (Hpack 1%nat). - apply (Hpack 2%nat). - apply (Hpack 4%nat). - apply (Hpack 8%nat).
Qed.
