(* ===== verification/CodecProps.v ===== *)
(** * Properties of the codec

    The claims about [ferrowl-codec]: encoding then decoding, decoding then
    encoding, the read-modify-write merge, and the text forms. *)

From stdpp Require Import base list numbers strings.
From S2P Require Import Prelude Bytes IntText Format Codec CodecSpec.

Local Open Scope Z_scope.

#[local] Ltac Zify.zify_post_hook ::= Z.to_euclidean_division_equations.

(** The integer value [v] is one the format can carry: it is a value of the
    kind, the mask lies in the kind's width, and [v] fits the field. *)
Definition int_ok (nf : NumericFormat) (v : Z) : Prop :=
  is_uint 128 (bf_mask (nf_bit_field nf)) ∧
  BitField_fits (nf_bit_field nf) (IntKind_bits (nf_kind nf)) = true ∧
  prim_wf (kind_prim (nf_kind nf) v) ∧
  field_fits (nf_bit_field nf) (as_uint (IntKind_bits (nf_kind nf)) v) = true.

Lemma take_kind_words (k : nat) (ws : list Z) : length ws = k → take k ws = ws.
Proof. intros <-. by apply take_ge. Qed.

(** Words whose raw value selects the field of [v] decode to [v]. *)
Lemma decode_field (nf : NumericFormat) (v : Z) (ws : list Z) :
  int_ok nf v → length ws = kind_words (nf_kind nf) →
  let k := nf_kind nf in
  let raw := decode_raw (16 * Z.of_nat (kind_words k)) (nf_endian nf)
    (word_bytes (order_words (F_Numeric nf) ws)) in
  Z.land raw (bf_mask (nf_bit_field nf)) mod 2 ^ IntKind_bits k =
    place_field (IntKind_bits k) (nf_bit_field nf) (as_uint (IntKind_bits k) v) →
  decode (F_Numeric nf) ws = Ok (V_Numeric (kind_prim k v) (nf_resolution nf)).
Proof.
  intros (Hm & Hf & Hv & Hff) Hl k raw Hraw. unfold k, raw in *.
  rewrite decode_numeric by (done || lia). rewrite take_kind_words by done.
  pose proof (kind_bits_range (nf_kind nf)) as Hb.
  rewrite (kind_cast_pattern _ v); [done|done|].
  apply place_extract; [done|done|done|apply as_uint_range; lia|done|done].
Qed.

(** The words an integer value encodes to. *)
Lemma encode_field (nf : NumericFormat) (v : Z) (r : Resolution) :
  int_ok nf v →
  let k := nf_kind nf in
  let x := place_field (IntKind_bits k) (nf_bit_field nf) (as_uint (IntKind_bits k) v) in
  let ws := kind_pack k (nf_endian nf) x in
  encode_value (F_Numeric nf) (V_Numeric (kind_prim k v) r) =
    Ok (order_words (F_Numeric nf) ws) ∧
  length ws = kind_words k ∧ Forall is_word ws ∧
  let raw := decode_raw (16 * Z.of_nat (kind_words k)) (nf_endian nf) (word_bytes ws) in
  Z.land raw (bf_mask (nf_bit_field nf)) mod 2 ^ IntKind_bits k = x.
Proof.
  intros (Hm & Hf & Hv & Hff) k x ws. pose proof (kind_bits_range k) as Hb.
  destruct (kind_pack_spec k (nf_endian nf) x) as (Hl & Hw & Hr & Hx);
    [apply place_field_range; lia|].
  split_and!; [by apply encode_numeric|done|done|]. cbv zeta.
  by apply land_place_field; [..|done].
Qed.

(** C3: encoding an integer value and decoding the words gives the value back
    with the format's resolution, for all ten kinds, both byte orders, both
    register orders and every bit field the value fits; the words are as many
    as the format's width. *)
Theorem int_encode_decode (nf : NumericFormat) (v : Z) (r : Resolution) :
  int_ok nf v →
  ∃ ws, encode_value (F_Numeric nf) (V_Numeric (kind_prim (nf_kind nf) v) r) = Ok ws ∧
    length ws = Format_width (F_Numeric nf) ∧ Forall is_word ws ∧
    decode (F_Numeric nf) ws = Ok (V_Numeric (kind_prim (nf_kind nf) v) (nf_resolution nf)).
Proof.
  intros Hok. destruct (encode_field nf v r Hok) as (He & Hl & Hw & Hraw).
  eexists. split_and!; [exact He|by rewrite length_order_words|by apply Forall_order_words|].
  apply decode_field; [done|by rewrite length_order_words|].
  by rewrite order_words_involutive.
Qed.

(** A signed 32-bit field in the middle of two reversed little-endian words. *)
Definition demo_nf : NumericFormat :=
  mkNumericFormat IK_I32 E_Little WO_Reversed Resolution_default (mkBitField 0x00FFF0).

Lemma int_encode_decode_witness :
  ∃ ws, encode_value (F_Numeric demo_nf) (V_Numeric (NP_I32 0xABC) Resolution_default) = Ok ws ∧
    length ws = 2%nat ∧ Forall is_word ws ∧
    decode (F_Numeric demo_nf) ws = Ok (V_Numeric (NP_I32 0xABC) Resolution_default).
Proof.
  apply (int_encode_decode demo_nf 0xABC Resolution_default).
  unfold int_ok. split_and!; [vm_compute; split; [discriminate|reflexivity]|reflexivity
    |vm_compute; split; [discriminate|reflexivity]|reflexivity].
Defined.

(** ** Merging *)

(** The old words the merge sees, zero where missing. *)
Definition old_words (k : nat) (old : list Z) : list Z :=
  (λ i, default 0 (old !! i)) <$> seq 0 k.

Definition zip3 (ms os vs : list Z) : list (Z * Z * Z) := zip (zip ms os) vs.

Lemma length_old_words (k : nat) (old : list Z) : length (old_words k old) = k.
Proof. unfold old_words. by rewrite length_fmap, length_seq. Qed.

Lemma old_words_range (k : nat) (old : list Z) :
  Forall is_word old → Forall is_word (old_words k old).
Proof.
  intros Ho. apply Forall_fmap, list.Forall_forall. intros i _. simpl.
  destruct (old !! i) as [o|] eqn:E; simpl; [by eapply Forall_lookup_1|].
  unfold is_word, is_uint. lia.
Qed.

Lemma zip3_spec (ms os vs : list Z) (k : nat) :
  length ms = k → length os = k → length vs = k →
  length (zip3 ms os vs) = k ∧
  (λ '(m, o, v), m) <$> zip3 ms os vs = ms ∧ (λ '(m, o, v), o) <$> zip3 ms os vs = os ∧
  (λ '(m, o, v), v) <$> zip3 ms os vs = vs ∧
  (Forall is_word ms → Forall is_word os → Forall is_word vs →
   Forall (λ '(m, o, v), is_word m ∧ is_word o ∧ is_word v) (zip3 ms os vs)).
Proof.
  revert os vs k. unfold zip3.
  induction ms as [|m ms IH]; intros os vs k Hm Ho Hv; destruct os, vs; simpl in *; subst;
    try done.
  destruct (IH os vs (length ms)) as (H1 & H2 & H3 & H4 & H5); [lia..|].
  split_and!; [by rewrite H1|by f_equal|by f_equal|by f_equal|].
  intros [? ?]%Forall_cons_1 [? ?]%Forall_cons_1 [? ?]%Forall_cons_1.
  constructor; auto.
Qed.

Lemma merge_write_zip3 (f : Format) (old vs : list Z) (k : nat) :
  length vs = k → length (mask_words f) = k →
  merge_write f old vs =
  (λ '(m, o, v), merge_word m o v) <$> zip3 (mask_words f) (old_words k old) vs.
Proof.
  intros Hv Hm. apply list_eq. intros i. unfold merge_write, zip3.
  rewrite list_lookup_imap, list_lookup_fmap, !lookup_zip_with.
  destruct (decide (i < k)%nat) as [Hi|Hi].
  - destruct (lookup_lt_is_Some_2 vs i ltac:(lia)) as [v Hvi].
    destruct (lookup_lt_is_Some_2 (mask_words f) i ltac:(lia)) as [m Hmi].
    assert (old_words k old !! i = Some (default 0 (old !! i))) as Ho.
    { unfold old_words. rewrite list_lookup_fmap, lookup_seq_lt by done. done. }
    rewrite Hvi, Hmi, Ho. done.
  - rewrite (lookup_ge_None_2 vs) by lia. simpl.
    by destruct (mask_words f !! i); simpl; [destruct (old_words k old !! i)|].
Qed.

Lemma zip_with_reverse {A B C} (f : A → B → C) (l : list A) (k : list B) :
  length l = length k → zip_with f (reverse l) (reverse k) = reverse (zip_with f l k).
Proof.
  revert k. induction l as [|x l IH]; intros [|y k] Hl; simpl in *; try done.
  rewrite !reverse_cons, zip_with_app, IH by (rewrite ?length_reverse; lia). done.
Qed.

Lemma zip3_order (f : Format) (ms os vs : list Z) (k : nat) :
  length ms = k → length os = k → length vs = k →
  zip3 (order_words f ms) (order_words f os) (order_words f vs) =
  (if bool_decide (Format_word_order f = WO_Reversed) then reverse (zip3 ms os vs)
   else zip3 ms os vs).
Proof.
  intros Hm Ho Hv. unfold order_words, zip3. case_bool_decide; [|done].
  rewrite zip_with_reverse by lia. rewrite zip_with_reverse; [done|].
  rewrite length_zip_with. lia.
Qed.

(** A merged word differs from the old one only inside the mask. *)
Lemma merge_word_outside (m o v : Z) :
  is_word m → Z.land (merge_word m o v) (word_not m) = Z.land o (word_not m).
Proof.
  intros Hm. unfold merge_word, word_not. apply Z.bits_inj'. intros j Hj.
  rewrite !Z.land_spec, Z.lor_spec, !Z.land_spec.
  assert (Z.testbit m j && Z.testbit (65535 - m) j = false) as Hnm.
  { destruct (decide (j < 16)).
    - unfold is_word, is_uint in Hm. replace (65535 - m) with (Z.lnot m mod 2 ^ 16).
      + rewrite Z.mod_pow2_bits_low, Z.lnot_spec by lia. by destruct (Z.testbit m j).
      + unfold Z.lnot. symmetry. apply Z.mod_unique_pos with (-1); lia.
    - by rewrite (testbit_small 16 m j) by (done || lia). }
  by destruct (Z.testbit m j), (Z.testbit (65535 - m) j), (Z.testbit v j), (Z.testbit o j).
Qed.

(** Merging commutes with the register order: it acts word by word on the words
    in byte order. *)
Lemma merge_write_order (f : Format) (n : nat) (ms vs old : list Z) :
  mask_words f = order_words f ms → length ms = n → length vs = n →
  Forall (λ '(m, o, v), is_word m ∧ is_word o ∧ is_word v)
    (zip3 ms (order_words f (old_words n old)) vs) →
  merge_write f old (order_words f vs) =
  order_words f ((λ '(m, o, v), mergeZ m o v) <$> zip3 ms (order_words f (old_words n old)) vs).
Proof.
  intros Hms Hlm Hl Hz.
  assert (length (order_words f (old_words n old)) = n) as Hlo
    by by rewrite length_order_words, length_old_words.
  rewrite (merge_write_zip3 f old _ n);
    [|by rewrite length_order_words|by rewrite Hms, length_order_words].
  rewrite Hms, <- (order_words_involutive f (old_words n old)) at 1.
  set (os := order_words f (old_words n old)) in *.
  rewrite (zip3_order f ms os vs n) by done. unfold order_words.
  assert ((λ '(m, o, v), merge_word m o v) <$> zip3 ms os vs =
          (λ '(m, o, v), mergeZ m o v) <$> zip3 ms os vs) as Heq.
  { apply list_fmap_ext. intros i [[m o] v'] Hi.
    rewrite list.Forall_forall in Hz. apply list_elem_of_lookup_2, Hz in Hi as (? & ? & ?).
    by apply merge_word_mergeZ. }
  case_bool_decide; [|done]. by rewrite fmap_reverse, Heq.
Qed.

(** Merging an encoded field into old words. *)
Lemma merged_field (nf : NumericFormat) (v : Z) (r : Resolution) (old : list Z) :
  int_ok nf v → Forall is_word old →
  ∃ ws, encode_value (F_Numeric nf) (V_Numeric (kind_prim (nf_kind nf) v) r) = Ok ws ∧
    decode (F_Numeric nf) (merge_write (F_Numeric nf) old ws) =
      Ok (V_Numeric (kind_prim (nf_kind nf) v) (nf_resolution nf)) ∧
    length (merge_write (F_Numeric nf) old ws) = Format_width (F_Numeric nf) ∧
    ∀ i w m, merge_write (F_Numeric nf) old ws !! i = Some w →
      mask_words (F_Numeric nf) !! i = Some m →
      Z.land w (word_not m) = Z.land (default 0 (old !! i)) (word_not m).
Proof.
  intros Hok Ho. destruct (encode_field nf v r Hok) as (He & Hl & Hw & Hraw).
  set (k := nf_kind nf) in *. set (f := F_Numeric nf) in *.
  set (x := place_field _ _ _) in *. set (vs := kind_pack k (nf_endian nf) x) in *.
  destruct (mask_pack_spec k (nf_endian nf) (bf_mask (nf_bit_field nf))) as (Hlm & Hwm & Hrm).
  set (ms := mask_pack _ _ _) in *.
  assert (mask_words f = order_words f ms) as Hms by apply mask_words_numeric.
  set (os := order_words f (old_words (kind_words k) old)).
  assert (length os = kind_words k) as Hlo by (unfold os; by rewrite length_order_words, length_old_words).
  assert (Forall is_word os) as Hwo by by apply Forall_order_words, old_words_range.
  destruct (zip3_spec ms os vs _ Hlm Hlo Hl) as (Hz1 & Hz2 & Hz3 & Hz4 & Hz5).
  specialize (Hz5 Hwm Hwo Hw).
  pose proof (merge_write_order f (kind_words k) ms vs old Hms Hlm Hl Hz5) as Hmw. fold os in Hmw.
  exists (order_words f vs). split_and!; [exact He| | |].
  - rewrite Hmw. apply decode_field; [done|by rewrite length_order_words, length_fmap|].
    rewrite order_words_involutive.
    pose proof (decode_raw_mergeZ (nf_endian nf) (zip3 ms os vs) (kind_words k) Hz1 Hz5) as Hmz.
    cbv zeta beta in Hmz. fold k. rewrite Hmz.
    rewrite Hz2, Hz3, Hz4, Hrm, land_mergeZ; [done|]. destruct k; simpl; lia.
  - by rewrite Hmw, length_order_words, length_fmap.
  - intros i w m Hi Hm. unfold merge_write in Hi. rewrite list_lookup_imap, Hm in Hi.
    destruct (order_words f vs !! i) as [v'|]; [|done]. simpl in Hi. injection Hi as <-.
    apply merge_word_outside. rewrite Hms in Hm.
    eapply Forall_lookup_1; [|exact Hm]. by apply Forall_order_words.
Qed.

(** A read-modify-write of an encoded integer into existing words decodes to
    the value, and every bit outside the register's mask keeps the old word's
    value (zero where the old words are missing). *)
Theorem merge_write_field (nf : NumericFormat) (v : Z) (r : Resolution) (old : list Z) :
  int_ok nf v → Forall is_word old →
  ∃ ws, encode_value (F_Numeric nf) (V_Numeric (kind_prim (nf_kind nf) v) r) = Ok ws ∧
    decode (F_Numeric nf) (merge_write (F_Numeric nf) old ws) =
      Ok (V_Numeric (kind_prim (nf_kind nf) v) (nf_resolution nf)) ∧
    length (merge_write (F_Numeric nf) old ws) = Format_width (F_Numeric nf) ∧
    ∀ i w m, merge_write (F_Numeric nf) old ws !! i = Some w →
      mask_words (F_Numeric nf) !! i = Some m →
      Z.land w (word_not m) = Z.land (default 0 (old !! i)) (word_not m).
Proof. apply merged_field. Qed.

(** Writing the field 5 of the low nibble of an 8-bit register leaves the other
    twelve bits of the word. *)
Definition demo_nibble : NumericFormat :=
  mkNumericFormat IK_U8 E_Big WO_Normal Resolution_default (mkBitField 0x0F).

Lemma merge_write_field_witness :
  merge_write (F_Numeric demo_nibble) [0xABCD] [5] = [0xABC5] ∧
  ∃ ws, encode_value (F_Numeric demo_nibble) (V_Numeric (NP_U8 5) Resolution_default) = Ok ws ∧
    decode (F_Numeric demo_nibble) (merge_write (F_Numeric demo_nibble) [0xABCD] ws) =
      Ok (V_Numeric (NP_U8 5) Resolution_default).
Proof.
  split; [reflexivity|].
  destruct (merge_write_field demo_nibble 5 Resolution_default [0xABCD]) as (ws & H1 & H2 & _).
  - unfold int_ok. split_and!; [vm_compute; split; [discriminate|reflexivity]|reflexivity
      |vm_compute; split; [discriminate|reflexivity]|reflexivity].
  - by apply Forall_is_word_bool.
  - exists ws. split; assumption.
Defined.

(** ** Words first *)

(** A numeric format that uses every bit of its registers: no 8-bit kind, the
    full mask. *)
Definition full_format (f : Format) : bool :=
  match f with
  | F_Numeric nf =>
      BitField_is_full (nf_bit_field nf) && (16 <=? IntKind_bits (nf_kind nf))
  | F_Float _ => true
  | F_Ascii _ _ => false
  end.

Lemma kind_cast_wf (k : IntKind) (z : Z) : prim_wf (kind_prim k (kind_cast k z)).
Proof. destruct k; simpl; try apply as_uint_range; try apply as_sint_range; simpl; lia. Qed.

Lemma kind_cast_as_uint (k : IntKind) (u : Z) :
  is_uint (IntKind_bits k) u → as_uint (IntKind_bits k) (kind_cast k u) = u.
Proof.
  intros Hu. pose proof (kind_bits_range k) as Hb. unfold kind_cast. destruct (kind_signed k).
  - apply as_uint_as_sint; [lia|done].
  - unfold as_uint at 1. rewrite as_uint_idemp by lia. by apply as_uint_small.
Qed.

Lemma place_field_full (w : Z) (bf : BitField) (u : Z) :
  1 <= w <= 128 → BitField_is_full bf = true → is_uint w u → place_field w bf u = u.
Proof.
  intros Hw Hf Hu. unfold BitField_is_full in Hf. zbool.
  assert (2 ^ w <= 2 ^ 128) as Hp by (apply Z.pow_le_mono_r; lia). unfold is_uint in *.
  unfold place_field, as_uint. rewrite (BitField_shift_full bf Hf), Hf, Z.shiftl_0_r.
  rewrite land_u128_max, (Z.mod_small u (2 ^ 128)), (Z.mod_small u (2 ^ 128)) by lia.
  apply Z.mod_small. lia.
Qed.

Lemma decode_encode_int (nf : NumericFormat) (ws : list Z) :
  BitField_is_full (nf_bit_field nf) = true → 16 <= IntKind_bits (nf_kind nf) →
  Forall is_word ws → length ws = kind_words (nf_kind nf) →
  ∃ v, decode (F_Numeric nf) ws = Ok v ∧ encode_value (F_Numeric nf) v = Ok ws.
Proof.
  intros Hfull H16 Hw Hl. pose proof (kind_bits_range (nf_kind nf)) as Hb.
  assert (BitField_fits (nf_bit_field nf) (IntKind_bits (nf_kind nf)) = true) as Hf
    by (unfold BitField_fits; by rewrite Hfull).
  rewrite decode_numeric by (done || lia). eexists. split; [done|].
  rewrite take_kind_words by done. set (ws' := order_words (F_Numeric nf) ws).
  assert (length ws' = kind_words (nf_kind nf)) as Hl' by (unfold ws'; by rewrite length_order_words).
  assert (Forall is_word ws') as Hw' by by apply Forall_order_words.
  assert (16 * Z.of_nat (kind_words (nf_kind nf)) = IntKind_bits (nf_kind nf)) as Hbits
    by (destruct (nf_kind nf); simpl in *; done || lia).
  pose proof (decode_raw_range _ (nf_endian nf) ws' Hl') as Hr. cbv zeta in Hr.
  pose proof (decode_raw_pack _ (nf_endian nf) ws' Hl' Hw') as Hp. cbv zeta in Hp.
  rewrite Hbits in *. set (raw := decode_raw _ _ _) in *.
  assert (Z.shiftr (Z.land raw (bf_mask (nf_bit_field nf))) (BitField_shift (nf_bit_field nf)) = raw)
    as ->.
  { assert (2 ^ IntKind_bits (nf_kind nf) <= 2 ^ 128) by (apply Z.pow_le_mono_r; lia).
    unfold BitField_is_full in Hfull. zbool. unfold is_uint in Hr.
    rewrite (BitField_shift_full _ Hfull), Hfull, land_u128_max, Z.shiftr_0_r.
    apply Z.mod_small. lia. }
  rewrite encode_numeric by (done || apply kind_cast_wf).
  rewrite kind_cast_as_uint, place_field_full by done.
  assert (kind_pack (nf_kind nf) (nf_endian nf) raw = ws') as ->.
  { rewrite <- Hp. destruct (nf_kind nf); simpl in *; done || lia. }
  unfold ws'. by rewrite order_words_involutive.
Qed.

Lemma float_words (ff : FloatFormat) (ws : list Z) :
  length ws = FloatKind_register_width (ff_kind ff) →
  let n := FloatKind_register_width (ff_kind ff) in
  let raw := decode_raw (16 * Z.of_nat n) (ff_endian ff) (word_bytes (order_words (F_Float ff) ws)) in
  decode (F_Float ff) ws =
  Ok (V_Numeric (match ff_kind ff with FK_F32 => NP_F32 raw | FK_F64 => NP_F64 raw end)
        (ff_resolution ff)).
Proof.
  intros Hl. cbv zeta. unfold decode. cbn [Format_width].
  rewrite (proj2 (Nat.ltb_ge _ _)) by lia. rewrite take_kind_words by done.
  by destruct (ff_kind ff).
Qed.

(** For a format that uses every bit of its registers (integers of 16 bits
    and more with the full mask, floats), decoding any words of the right
    number and encoding the value gives the same words back. *)
Theorem words_decode_encode (f : Format) (ws : list Z) :
  full_format f = true → Forall is_word ws → length ws = Format_width f →
  ∃ v, decode f ws = Ok v ∧ encode_value f v = Ok ws.
Proof.
  intros Hf Hw Hl. destruct f as [nf|ff|a w]; simpl in Hf; [| |done].
  - apply andb_prop in Hf as [Hfull H16]. zbool. by apply decode_encode_int.
  - rewrite float_words by done. eexists. split; [done|].
    set (ws' := order_words (F_Float ff) ws).
    assert (length ws' = Format_width (F_Float ff)) as Hl'
      by (unfold ws'; by rewrite length_order_words).
    pose proof (decode_raw_pack _ (ff_endian ff) ws' Hl' (Forall_order_words _ _ _ Hw)) as Hp.
    cbv zeta in Hp. unfold encode_value, encode_words.
    destruct ff as [[] e wo r]; cbn [ff_kind Format_width ff_endian] in *.
    + change (16 * Z.of_nat (FloatKind_register_width FK_F32)) with 32 in *.
      rewrite Hp. unfold ws'. by rewrite order_words_involutive.
    + change (16 * Z.of_nat (FloatKind_register_width FK_F64)) with 64 in *.
      rewrite Hp. unfold ws'. by rewrite order_words_involutive.
Qed.

Lemma words_decode_encode_witness :
  ∃ v, decode (Format_float FK_F64 E_Little WO_Reversed Resolution_default) [1; 2; 3; 0xFFFF] = Ok v ∧
    encode_value (Format_float FK_F64 E_Little WO_Reversed Resolution_default) v =
      Ok [1; 2; 3; 0xFFFF].
Proof.
  apply words_decode_encode; [reflexivity| |reflexivity].
  by apply Forall_is_word_bool.
Defined.

(** ** Text formats *)

(** The bytes an ASCII block of [w] registers holds for the string [s]. *)
Definition ascii_block (a : Alignment) (w : nat) (s : list Z) : list Z :=
  let zeroes := replicate (2 * w - length s) 0 in
  match a with AL_Left => s ++ zeroes | AL_Right => zeroes ++ s end.

(** A string that fits its ASCII block is stored padded with zero bytes on
    the side its alignment leaves free, in exactly the block's words, and
    decodes to the padded string. *)
Theorem ascii_encode_decode (a : Alignment) (w : nat) (s : list Z) :
  Forall is_byte s → utf8_valid s = true → (length s ≤ 2 * w)%nat →
  ∃ ws, encode_value (F_Ascii a w) (V_Ascii s) = Ok ws ∧ length ws = w ∧
    decode (F_Ascii a w) ws = Ok (V_Ascii (ascii_block a w s)).
Proof.
  intros Hs Hu Hl. unfold encode_value, encode_words.
  assert (Forall is_byte (ascii_block a w s) ∧ length (ascii_block a w s) = (2 * w)%nat ∧
    utf8_valid (ascii_block a w s) = true) as (Hb & Hbl & Hbu).
  { assert (Forall is_byte (replicate (2 * w - length s) 0)) as Hz
      by (apply Forall_replicate; done).
    pose proof (utf8_valid_pad s 0 (2 * w - length s) Hu) as Hr.
    pose proof (utf8_valid_pad s (2 * w - length s) 0 Hu) as Hr'. simpl in Hr, Hr'.
    rewrite app_nil_r in Hr'.
    unfold ascii_block. destruct a; (split_and!; [by apply Forall_app|
      rewrite length_app, length_replicate; lia|done]). }
  destruct (word_bytes_into_vec w (ascii_block a w s) Hb Hbl) as (Hwb & Hlen & Hf).
  exists (into_vec (ascii_block a w s)). split_and!.
  - unfold ascii_block in *. destruct a.
    + rewrite take_ge by lia. done.
    + replace (length s - 2 * w)%nat with 0%nat by lia. rewrite drop_0, take_ge by lia. done.
  - done.
  - unfold decode. cbn [Format_width]. rewrite (proj2 (Nat.ltb_ge _ _)) by lia.
    rewrite take_kind_words by done. unfold order_words; simpl.
    rewrite Hwb, Hbu. done.
Qed.

Lemma ascii_encode_decode_witness :
  ∃ ws, encode_value (F_Ascii AL_Right 2%nat) (V_Ascii (bytes_of "EV1")) = Ok ws ∧
    length ws = 2%nat ∧ decode (F_Ascii AL_Right 2%nat) ws = Ok (V_Ascii (0 :: bytes_of "EV1")).
Proof.
  apply (ascii_encode_decode AL_Right 2%nat (bytes_of "EV1")).
  - by apply Forall_is_byte_bool.
  - reflexivity.
  - simpl; lia.
Defined.

(** ** Text of numbers *)

Section text.
Context (parse_f32 parse_f64 : list Z → option Z).

(** The primitive has the format's kind. *)
Definition prim_matches (f : Format) (p : NumericPrimitive) : Prop :=
  match f with
  | F_Numeric nf =>
      BitField_fits (nf_bit_field nf) (IntKind_bits (nf_kind nf)) = true ∧
      ∃ v, p = kind_prim (nf_kind nf) v
  | F_Float ff =>
      match ff_kind ff with FK_F32 => ∃ b, p = NP_F32 b | FK_F64 => ∃ b, p = NP_F64 b end
  | F_Ascii _ _ => False
  end.

Lemma strip_0x (s : list Z) : strip_prefix (bytes_of "0x") (bytes_of "0x" ++ s) = Some s.
Proof. by apply strip_prefix_Some. Qed.

Lemma strip_minus_0x (s : list Z) : strip_prefix (bytes_of "-0x") (bytes_of "0x" ++ s) = None.
Proof. reflexivity. Qed.

(** The hex text of a numeric value, entered again, parses to the same
    value: integers of both signs in two's complement, floats by their bits. *)
Theorem hex_text_roundtrip (f : Format) (p : NumericPrimitive) (r : Resolution) :
  prim_matches f p → prim_wf p → Format_resolution f = Some r →
  parse_value parse_f32 parse_f64 f (Value_as_hex_str (V_Numeric p r)) = Ok (V_Numeric p r).
Proof.
  intros Hp Hwf Hr. unfold Value_as_hex_str, prim_hex.
  assert (∀ w n v, 1 <= w <= 128 → is_uint w v →
    parse_uint w (bytes_of "0x" ++ hex_padded v n) = Ok v) as Hu.
  { intros w n v Hw Hv. unfold parse_uint. rewrite strip_0x. by apply from_str_radix_hex. }
  assert (∀ w n v, 1 <= w <= 128 → is_sint w v →
    parse_int w (bytes_of "0x" ++ hex_padded (as_uint w v) n) = Ok v) as Hi.
  { intros w n v Hw Hv. unfold parse_int. rewrite strip_minus_0x, strip_0x.
    rewrite from_str_radix_hex by (done || apply as_uint_range; lia).
    rewrite (as_sint_mod w _ v) by (apply as_uint_idemp; lia). by rewrite as_sint_small by (done || lia). }
  assert (∀ w n v q, 1 <= w <= 128 → is_uint w v →
    parse_float w q (bytes_of "0x" ++ hex_padded v n) = Ok v) as Hfl.
  { intros w n v q Hw Hv. unfold parse_float. rewrite strip_0x, from_str_radix_hex by done. done. }
  unfold parse_value. destruct f as [nf|ff|]; simpl in Hp, Hr; [| |done].
  - destruct Hp as [Hf [v ->]]. rewrite Hf. injection Hr as <-. cbn [negb].
    destruct (nf_kind nf); simpl in Hwf; cbn [kind_prim]; rewrite ?Hu, ?Hi by (done || lia); done.
  - injection Hr as <-. destruct (ff_kind ff); destruct Hp as [b ->]; simpl in Hwf;
      rewrite Hfl by (done || lia); done.
Qed.

Lemma decimal_parses (nf : NumericFormat) (v : Z) (fl : NumericPrimitive → list Z) :
  BitField_fits (nf_bit_field nf) (IntKind_bits (nf_kind nf)) = true →
  prim_wf (kind_prim (nf_kind nf) v) →
  parse_value parse_f32 parse_f64 (F_Numeric nf)
    (prim_display fl (kind_prim (nf_kind nf) v)) =
  Ok (V_Numeric (kind_prim (nf_kind nf) v) (nf_resolution nf)).
Proof.
  intros Hf Hwf.
  assert (prim_display fl (kind_prim (nf_kind nf) v) = int_display v) as ->
    by by destruct (nf_kind nf).
  assert (120 ∈ bytes_of "0x" ∧ 120 ∈ bytes_of "-0x") as [Hx1 Hx2]
    by (split; apply list_elem_of_In; vm_compute; tauto).
  assert (∀ w, 1 <= w <= 128 → is_uint w v → parse_uint w (int_display v) = Ok v) as Hu.
  { intros w Hw Hv. assert (in_int false w v = true) as Hin.
    { unfold is_uint in Hv. unfold in_int, int_min, int_max.
      rewrite andb_true_iff, !Z.leb_le. lia. }
    destruct (in_int_bounds _ _ _ Hw Hin) as [Hb _]. unfold parse_uint.
    rewrite int_display_no_prefix by done. by apply from_str_radix_display. }
  assert (∀ w, 1 <= w <= 128 → is_sint w v → parse_int w (int_display v) = Ok v) as Hi.
  { intros w Hw Hv. assert (in_int true w v = true) as Hin.
    { unfold is_sint in Hv. unfold in_int, int_min, int_max.
      rewrite andb_true_iff, !Z.leb_le. lia. }
    destruct (in_int_bounds _ _ _ Hw Hin) as [Hb _]. unfold parse_int.
    rewrite !int_display_no_prefix by done. by apply from_str_radix_display. }
  unfold parse_value. rewrite Hf. cbn [negb].
  destruct (nf_kind nf); simpl in Hwf; cbn [kind_prim]; rewrite ?Hu, ?Hi by (done || lia); done.
Qed.

(** The decimal text of an integer value, entered again, parses to the same
    value for every kind, and no decimal text is taken for a hex literal. *)
Theorem decimal_text_roundtrip (nf : NumericFormat) (v : Z) (fl : NumericPrimitive → list Z) :
  BitField_fits (nf_bit_field nf) (IntKind_bits (nf_kind nf)) = true →
  prim_wf (kind_prim (nf_kind nf) v) →
  parse_value parse_f32 parse_f64 (F_Numeric nf)
    (prim_display fl (kind_prim (nf_kind nf) v)) =
  Ok (V_Numeric (kind_prim (nf_kind nf) v) (nf_resolution nf)).
Proof. apply decimal_parses. Qed.
End text.

(** A parser that accepts no decimal float: enough for hex text. *)
Definition no_float (s : list Z) : option Z := None.

Lemma hex_text_roundtrip_witness :
  Value_as_hex_str (V_Numeric (NP_I16 (-2)) Resolution_default) = bytes_of "0xFFFE" ∧
  parse_value no_float no_float (Format_int IK_I16 E_Big WO_Normal Resolution_default BitField_default)
    (Value_as_hex_str (V_Numeric (NP_I16 (-2)) Resolution_default)) =
  Ok (V_Numeric (NP_I16 (-2)) Resolution_default).
Proof.
  split; [vm_compute; reflexivity|]. apply hex_text_roundtrip.
  - split; [reflexivity|]. exists (-2). reflexivity.
  - vm_compute. split; [discriminate|reflexivity].
  - reflexivity.
Defined.

Lemma decimal_text_roundtrip_witness :
  int_display (-128) = bytes_of "-128" ∧
  parse_value no_float no_float (Format_int IK_I8 E_Big WO_Normal Resolution_default BitField_default)
    (bytes_of "-128") = Ok (V_Numeric (NP_I8 (-128)) Resolution_default).
Proof.
  split; [vm_compute; reflexivity|].
  apply (decimal_text_roundtrip no_float no_float
    (mkNumericFormat IK_I8 E_Big WO_Normal Resolution_default BitField_default) (-128) (λ _, [])).
  - reflexivity.
  - vm_compute. split; [discriminate|reflexivity].
Defined.

(** ** Decoding any words *)

(** Decoding answers for any words, and each answer is what the format
    allows: too few words exactly when there are fewer than the width, a mask
    error only for a mask outside the kind, an ASCII error only for bytes that
    are not UTF-8; a decoded number lies in its type and has the format's kind
    and resolution, a decoded string has two bytes per register. *)
Theorem decode_sound (f : Format) (ws : list Z) :
  match decode f ws with
  | Err (CE_TooFewBytes g) => g = f ∧ (length ws < Format_width f)%nat
  | Err (CE_BitFieldWidth g) =>
      g = f ∧ (Format_width f ≤ length ws)%nat ∧
      ∃ nf, f = F_Numeric nf ∧
        BitField_fits (nf_bit_field nf) (IntKind_bits (nf_kind nf)) = false
  | Err CE_PackedAscii =>
      (Format_width f ≤ length ws)%nat ∧ (∃ a w, f = F_Ascii a w) ∧
      utf8_valid (word_bytes (take (Format_width f) ws)) = false
  | Ok (V_Numeric p r) =>
      (Format_width f ≤ length ws)%nat ∧ prim_matches f p ∧ prim_wf p ∧
      Format_resolution f = Some r
  | Ok (V_Ascii s) =>
      s = word_bytes (take (Format_width f) ws) ∧ length s = Format_length f ∧
      utf8_valid s = true
  | Err _ => False
  end.
Proof.
  destruct (decide (Format_width f ≤ length ws)%nat) as [Hl|Hl].
  2:{ unfold decode. rewrite (proj2 (Nat.ltb_lt _ _)) by lia. split; [done|lia]. }
  destruct f as [nf|ff|a w].
  - destruct (BitField_fits (nf_bit_field nf) (IntKind_bits (nf_kind nf))) eqn:Hf.
    + rewrite decode_numeric by done. split_and!; [done| |apply kind_cast_wf|done].
      split; [done|]. by eexists.
    + unfold decode. rewrite (proj2 (Nat.ltb_ge _ _)) by done. rewrite Hf. simpl.
      split_and!; [done|done|]. by exists nf.
  - unfold decode. rewrite (proj2 (Nat.ltb_ge _ _)) by done.
    set (ws' := order_words _ _).
    assert (length ws' = FloatKind_register_width (ff_kind ff)) as Hl'.
    { unfold ws'. rewrite length_order_words, length_take. simpl in *. lia. }
    pose proof (decode_raw_range _ (ff_endian ff) ws' Hl') as Hr. cbv zeta in Hr.
    destruct ff as [[] e wo r]; simpl in Hr |- *;
      (split_and!; [done|by eexists|exact Hr|done]).
  - unfold decode. rewrite (proj2 (Nat.ltb_ge _ _)) by done. unfold order_words. simpl.
    simpl in Hl. destruct (utf8_valid (word_bytes (take w ws))) eqn:Hu.
    + split_and!; [done| |done]. destruct (word_bytes_range (take w ws)) as [_ ->].
      rewrite length_take. unfold Format_length; simpl. lia.
    + split_and!; [done|by do 2 eexists|done].
Qed.

(** ** Where the comments differ from the code *)

(** A negative 8-bit signed value is sign-extended into its register: the bits
    outside the byte (and outside the mask) are not left zero. *)
Theorem encode_i8_sign_extends :
  encode_value (Format_int IK_I8 E_Big WO_Normal Resolution_default (mkBitField 0xF0))
    (V_Numeric (NP_I8 (-1)) Resolution_default) = Ok [0xFFF0].
Proof. reflexivity. Qed.

(** The mask of a full-width 8-bit format covers one byte of its register, not
    the whole word. *)
Theorem mask_words_full_u8 :
  mask_words (Format_int IK_U8 E_Big WO_Normal Resolution_default BitField_default) = [0x00FF] ∧
  mask_words (Format_int IK_U8 E_Little WO_Normal Resolution_default BitField_default) = [0xFF00].
Proof. split; reflexivity. Qed.
