(* ===== verification/Key.v ===== *)
(** * Keys, requests and logs of the Modbus crate

    Models [ferrowl-modbus/src/key.rs], [command.rs], [operation.rs] and the
    requests, responses and exception codes of the Modbus protocol library that
    the sources match on. A function code or request the sources do not name
    is [FC_Other] or [RQ_Other]. *)

From stdpp Require Import base list gmap numbers strings countable.
From S2P Require Import Prelude Slice Codec.

Local Open Scope Z_scope.

(** [UnitId(u8)]. *)
Definition UnitId : Type := Z.

Inductive FunctionCode :=
| FC_ReadCoils | FC_ReadDiscreteInputs | FC_ReadHoldingRegisters | FC_ReadInputRegisters
| FC_WriteSingleCoil | FC_WriteSingleRegister | FC_WriteMultipleCoils
| FC_WriteMultipleRegisters | FC_ReadWriteMultipleRegisters
| FC_Other (code : Z).

#[export] Instance FunctionCode_eq_dec : EqDecision FunctionCode.
Proof. solve_decision. Defined.

(** [ExceptionCode]; the codes the sources name, others by number. *)
Inductive ExceptionCode :=
| EX_IllegalFunction | EX_IllegalDataAddress | EX_IllegalDataValue | EX_ServerDeviceFailure
| EX_GatewayPathUnavailable | EX_GatewayTargetDeviceFailedToRespond | EX_Other (code : Z).

#[export] Instance ExceptionCode_eq_dec : EqDecision ExceptionCode.
Proof. solve_decision. Defined.

Inductive RequestPdu :=
| RQ_ReadCoils (address quantity : Z)
| RQ_ReadDiscreteInputs (address quantity : Z)
| RQ_ReadHoldingRegisters (address quantity : Z)
| RQ_ReadInputRegisters (address quantity : Z)
| RQ_WriteSingleCoil (address : Z) (value : bool)
| RQ_WriteSingleRegister (address value : Z)
| RQ_WriteMultipleCoils (address : Z) (coils : list bool)
| RQ_WriteMultipleRegisters (address : Z) (registers : list Z)
| RQ_ReadWriteMultipleRegisters (read_address read_quantity write_address : Z) (registers : list Z)
| RQ_Other (code : Z).

Inductive ResponsePdu :=
| RS_ReadCoils (coils : list bool)
| RS_ReadDiscreteInputs (inputs : list bool)
| RS_ReadHoldingRegisters (registers : list Z)
| RS_ReadInputRegisters (registers : list Z)
| RS_WriteSingleCoil (address : Z) (value : bool)
| RS_WriteSingleRegister (address value : Z)
| RS_WriteMultipleCoils (address quantity : Z)
| RS_WriteMultipleRegisters (address quantity : Z)
| RS_ReadWriteMultipleRegisters (registers : list Z)
| RS_Exception (function : FunctionCode) (exception : ExceptionCode)
| RS_Other (code : Z).

(** [request.function()]. *)
Definition request_function (rq : RequestPdu) : FunctionCode :=
  match rq with
  | RQ_ReadCoils _ _ => FC_ReadCoils
  | RQ_ReadDiscreteInputs _ _ => FC_ReadDiscreteInputs
  | RQ_ReadHoldingRegisters _ _ => FC_ReadHoldingRegisters
  | RQ_ReadInputRegisters _ _ => FC_ReadInputRegisters
  | RQ_WriteSingleCoil _ _ => FC_WriteSingleCoil
  | RQ_WriteSingleRegister _ _ => FC_WriteSingleRegister
  | RQ_WriteMultipleCoils _ _ => FC_WriteMultipleCoils
  | RQ_WriteMultipleRegisters _ _ => FC_WriteMultipleRegisters
  | RQ_ReadWriteMultipleRegisters _ _ _ _ => FC_ReadWriteMultipleRegisters
  | RQ_Other c => FC_Other c
  end.

(** ** Commands and operations *)

Inductive Command :=
| CMD_Terminate
| CMD_WriteSingleCoil (slave : UnitId) (address : Z) (coil : bool)
| CMD_WriteMultipleCoils (slave : UnitId) (address : Z) (coils : list bool)
| CMD_WriteSingleRegister (slave : UnitId) (address word : Z)
| CMD_WriteMultipleRegister (slave : UnitId) (address : Z) (words : list Z).

Inductive ServerCommand := SC_Terminate.

Record Operation := mkOperation {
  op_slave_id : UnitId;
  op_fn_code : FunctionCode;
  op_range : Range
}.

(** ** Keys *)

(** The trait [KeyParams]. *)
Class KeyParams (T : Type) := {
  key_eq :: EqDecision T;
  key_countable :: Countable T;
  from_slave_fn : UnitId → FunctionCode → T;
  all_kinds_for : UnitId → list T
}.

(** What its documentation promises: every key a request derives is one of the
    keys listed for its slave. *)
Class KeyParamsLaws (T : Type) `{KeyParams T} := {
  from_slave_fn_listed : ∀ slave fc, from_slave_fn slave fc ∈ all_kinds_for slave
}.

Record SlaveKey := mkSlaveKey { sk_slave_id : UnitId; sk_kind : Kind }.

#[export] Instance SlaveKey_eq_dec : EqDecision SlaveKey.
Proof. solve_decision. Defined.

Definition kind_index (k : Kind) : Z :=
  match k with
  | K_Coil => 0 | K_DiscreteInput => 1 | K_HoldingRegister => 2 | K_InputRegister => 3
  end.

Definition kind_of_index (i : Z) : Kind :=
  if i =? 0 then K_Coil else if i =? 1 then K_DiscreteInput
  else if i =? 2 then K_HoldingRegister else K_InputRegister.

#[export] Instance SlaveKey_countable : Countable SlaveKey.
Proof.
  refine (inj_countable' (λ k, (sk_slave_id k, kind_index (sk_kind k)))
    (λ '(s, i), mkSlaveKey s (kind_of_index i)) _).
  by intros [s []].
Defined.

Definition SlaveKey_default : SlaveKey := mkSlaveKey 1 K_HoldingRegister.

Definition SlaveKey_from_slave_fn (slave_id : UnitId) (fn_code : FunctionCode) : SlaveKey :=
  mkSlaveKey slave_id
    match fn_code with
    | FC_ReadCoils | FC_WriteSingleCoil | FC_WriteMultipleCoils => K_Coil
    | FC_ReadDiscreteInputs => K_DiscreteInput
    | FC_ReadHoldingRegisters | FC_WriteSingleRegister | FC_WriteMultipleRegisters =>
        K_HoldingRegister
    | FC_ReadInputRegisters => K_InputRegister
    | _ => K_HoldingRegister
    end.

Definition SlaveKey_all_kinds_for (slave_id : UnitId) : list SlaveKey :=
  mkSlaveKey slave_id <$> [K_Coil; K_DiscreteInput; K_HoldingRegister; K_InputRegister].

#[export] Instance SlaveKey_params : KeyParams SlaveKey := {|
  from_slave_fn := SlaveKey_from_slave_fn;
  all_kinds_for := SlaveKey_all_kinds_for
|}.

#[export] Instance SlaveKey_laws : KeyParamsLaws SlaveKey.
Proof.
  split. intros slave fc. apply list_elem_of_In. destruct fc; simpl; tauto.
Qed.

(** [Key<T>], the device key of the shared store. *)
Record Key (T : Type) := mkKey { key_id : T }.
Arguments mkKey {T}.
Arguments key_id {T}.

#[export] Instance Key_eq_dec {T} `{EqDecision T} : EqDecision (Key T).
Proof. solve_decision. Defined.

#[export] Instance Key_countable {T} `{Countable T} : Countable (Key T).
Proof. refine (inj_countable' key_id mkKey _). by intros []. Defined.

(** ** Log lines

    A line is its level and the message with the values it interpolates. *)

Inductive Level := L_Info | L_Warning | L_Error.
