(* ===== verification/Channel.v ===== *)
(** * Errors and command channels

    Models [ferrowl-modbus/src/error.rs]. The protocol library's error [RE],
    the address parser's [AE] and the TLS configuration's [TLE] are parameters;
    an elapsed timeout carries nothing.

    Models the receiving half of a command channel and what
    [ferrowl-modbus/src/common.rs] and [server_core.rs] build on it: the queue
    of parked commands, the race of an attempt against a terminate command,
    and the serve loop of a server. A receiver is the list of the commands that
    will come out of it, after which it is closed; which branch of a [select!]
    is taken next is a schedule. *)

From stdpp Require Import base list numbers strings.
From S2P Require Import Prelude Key.

(** ** Errors *)

Inductive ModbusError (RE : Type) :=
| ME_Exception (e : ExceptionCode) | ME_Error (e : RE) | ME_Timeout.
Arguments ME_Exception {RE}.
Arguments ME_Error {RE}.
Arguments ME_Timeout {RE}.

Inductive SerialError (RE : Type) := SERR_Error (e : RE) | SERR_Configuration (msg : string).
Arguments SERR_Error {RE}.
Arguments SERR_Configuration {RE}.

Inductive TcpError (AE TLE RE : Type) :=
| TE_Address (e : AE) | TE_Configuration (msg : string) | TE_Tls (e : TLE)
| TE_Error (e : RE) | TE_Timeout.
Arguments TE_Address {AE TLE RE}.
Arguments TE_Configuration {AE TLE RE}.
Arguments TE_Tls {AE TLE RE}.
Arguments TE_Error {AE TLE RE}.
Arguments TE_Timeout {AE TLE RE}.

Inductive Error (AE TLE RE : Type) :=
| ER_Modbus (e : ModbusError RE)
| ER_Serial (e : SerialError RE)
| ER_Tcp (e : TcpError AE TLE RE)
| ER_Server (e : RE)
| ER_PathConflict (path other : string).
Arguments ER_Modbus {AE TLE RE}.
Arguments ER_Serial {AE TLE RE}.
Arguments ER_Tcp {AE TLE RE}.
Arguments ER_Server {AE TLE RE}.
Arguments ER_PathConflict {AE TLE RE}.

(** ** Channels *)

Definition Receiver (C : Type) : Type := list C.

(** [Receiver::recv]; [None]: closed. *)
Definition recv {C} (receiver : Receiver C) : option C * Receiver C :=
  match receiver with
  | [] => (None, [])
  | c :: receiver' => (Some c, receiver')
  end.

Record Commands (C : Type) := mkCommands { cm_receiver : Receiver C; cm_queued : list C }.
Arguments mkCommands {C}.
Arguments cm_receiver {C}.
Arguments cm_queued {C}.

Definition Commands_recv {C} (commands : Commands C) : option C * Commands C :=
  match cm_queued commands with
  | c :: queued => (Some c, mkCommands (cm_receiver commands) queued)
  | [] =>
      let '(c, receiver) := recv (cm_receiver commands) in
      (c, mkCommands receiver [])
  end.

(** Which branch of the [select!] is taken. *)
Inductive RaceEvent := RC_Future | RC_Recv.

(** [race_terminate]: [None] while the race is undecided, [Some None] when the
    attempt is abandoned, [Some (Some out)] when the future finished. *)
Fixpoint race_terminate {T C} (fut : T) (is_terminate : C → bool) (schedule : list RaceEvent)
    (receiver : Receiver C) (parked : list C) : option (option T) * Receiver C * list C :=
  match schedule with
  | [] => (None, receiver, parked)
  | RC_Future :: _ => (Some (Some fut), receiver, parked)
  | RC_Recv :: schedule' =>
      match recv receiver with
      | (None, receiver) => (Some None, receiver, parked)
      | (Some c, receiver) =>
          if is_terminate c then (Some None, receiver, parked)
          else race_terminate fut is_terminate schedule' receiver (parked ++ [c])
      end
  end.

(** ** Serving *)

Inductive ServeEnd (SE : Type) := SE_Terminated | SE_Ended | SE_Failed (e : SE).
Arguments SE_Terminated {SE}.
Arguments SE_Ended {SE}.
Arguments SE_Failed {SE}.

(** [drive_serve] at the [select!] that decides it: the serve future's result,
    or the command channel, whose every message ends the loop. *)
Definition drive_serve {SE} (serve_fut : Result unit SE) (event : RaceEvent)
    (receiver : Receiver ServerCommand) : ServeEnd SE * Receiver ServerCommand :=
  match event with
  | RC_Future => (match serve_fut with Ok _ => SE_Ended | Err e => SE_Failed e end, receiver)
  | RC_Recv =>
      let '(cmd, receiver) := recv receiver in
      match cmd with None | Some SC_Terminate => (SE_Terminated, receiver) end
  end.

(** [wait_reconnect_backoff] at its [select!]. *)
Definition wait_reconnect_backoff (event : RaceEvent) (receiver : Receiver ServerCommand)
  : bool * Receiver ServerCommand :=
  match event with
  | RC_Future => (false, receiver)
  | RC_Recv => let '(_, receiver) := recv receiver in (true, receiver)
  end.

(** ** What a race does with the commands *)

Section race.
Context {T C : Type} (fut : T) (is_terminate : C → bool).

(** Every command taken off the channel before the race is decided is parked,
    in order; the one that abandons the attempt is a terminate command. *)
Lemma race_terminate_spec (schedule : list RaceEvent) (receiver : Receiver C) (parked : list C) :
  ∃ taken,
    Forall (λ c, is_terminate c = false) taken ∧
    match race_terminate fut is_terminate schedule receiver parked with
    | (Some None, rest, parked') =>
        parked' = parked ++ taken ∧
        (receiver = taken ∧ rest = [] ∨
         ∃ c, is_terminate c = true ∧ receiver = taken ++ c :: rest)
    | (Some (Some out), rest, parked') =>
        out = fut ∧ parked' = parked ++ taken ∧ receiver = taken ++ rest
    | (None, rest, parked') => parked' = parked ++ taken ∧ receiver = taken ++ rest
    end.
Proof.
  revert receiver parked. induction schedule as [|[] schedule IH]; intros receiver parked; simpl.
  - exists []. by rewrite app_nil_r.
  - exists []. by rewrite app_nil_r.
  - destruct receiver as [|c receiver]; simpl.
    { exists []. rewrite app_nil_r. split; [done|]. split; [done|]. by left. }
    destruct (is_terminate c) eqn:Hc.
    { exists []. rewrite app_nil_r. split; [done|]. split; [done|]. right. by exists c. }
    destruct (IH receiver (parked ++ [c])) as (taken & Hf & H). exists (c :: taken).
    split; [by constructor|].
    destruct (race_terminate _ _ _ _ _) as [[[[out|]|] rest] parked'].
    + destruct H as (-> & -> & ->). by rewrite <- app_assoc.
    + destruct H as (-> & [(-> & ->)|(c' & Hc' & ->)]); rewrite <- app_assoc.
      * split; [done|]. by left.
      * split; [done|]. right. by exists c'.
    + destruct H as (-> & ->). by rewrite <- app_assoc.
Qed.

End race.

(** The commands still to be seen, parked ones first, are exactly what
    successive calls of [Commands_recv] hand out. *)
Lemma Commands_recv_order {C} (commands : Commands C) :
  match Commands_recv commands with
  | (Some c, commands') =>
      cm_queued commands ++ cm_receiver commands =
      c :: cm_queued commands' ++ cm_receiver commands'
  | (None, commands') =>
      cm_queued commands ++ cm_receiver commands = [] ∧
      cm_queued commands' ++ cm_receiver commands' = []
  end.
Proof. by destruct commands as [[|c r] [|q qs]]. Qed.
