(* ===== verification/Server.v ===== *)
(** * The Modbus server's request handler

    Models the transport-agnostic part of [ferrowl-modbus/src/server_core.rs]:
    the handlers of one request against the shared store and the hooks of the
    per-connection [Service]. The state a handler reads and changes is the
    store, the log and the reports the store made to its write tap. *)

From stdpp Require Import base list gmap numbers strings.
From S2P Require Import Prelude BTree Slice Memory Codec Key.

Local Open Scope Z_scope.

(** The value a single-write line shows: a register's word or a coil's bit. *)
Inductive WireValue := WV_Word (v : Z) | WV_Coil (b : bool).

Inductive SrvMsg (P RE : Type) :=
| M_ReadReceived (name : string) (slave : UnitId) (lo hi : Z)
| M_ReadOk (name : string) (slave : UnitId) (lo hi : Z)
| M_ReadFailed (name : string) (slave : UnitId) (lo hi : Z) (e : MemoryError)
| M_MultiReceived (name : string) (slave : UnitId) (lo hi : Z) (values : list Z)
| M_MultiOk (name : string) (slave : UnitId) (lo hi : Z) (values : list Z)
| M_MultiFailed (name : string) (slave : UnitId) (lo hi : Z) (values : list Z) (e : MemoryError)
| M_SingleReceived (name : string) (slave : UnitId) (addr : Z) (value : WireValue)
| M_SingleOk (name : string) (slave : UnitId) (addr : Z) (value : WireValue)
| M_SingleFailed (name : string) (slave : UnitId) (addr : Z) (value : WireValue) (e : MemoryError)
| M_RwReceived (slave : UnitId) (read_addr cnt write_addr : Z) (values : list Z)
| M_RwOk (slave : UnitId) (read_addr cnt write_addr : Z) (values : list Z)
| M_RwFailed (slave : UnitId) (read_addr cnt write_addr : Z) (values : list Z) (e : MemoryError)
| M_Unsupported (function : FunctionCode) (slave : UnitId)
| M_PeerConnected (peer : P)
| M_PeerDisconnected (peer : P)
| M_AcceptError (e : RE)
| M_ReceiveError (e : RE)
| M_ProcessingFailed (e : RE).
Arguments M_ReadReceived {P RE}.
Arguments M_ReadOk {P RE}.
Arguments M_ReadFailed {P RE}.
Arguments M_MultiReceived {P RE}.
Arguments M_MultiOk {P RE}.
Arguments M_MultiFailed {P RE}.
Arguments M_SingleReceived {P RE}.
Arguments M_SingleOk {P RE}.
Arguments M_SingleFailed {P RE}.
Arguments M_RwReceived {P RE}.
Arguments M_RwOk {P RE}.
Arguments M_RwFailed {P RE}.
Arguments M_Unsupported {P RE}.
Arguments M_PeerConnected {P RE}.
Arguments M_PeerDisconnected {P RE}.
Arguments M_AcceptError {P RE}.
Arguments M_ReceiveError {P RE}.
Arguments M_ProcessingFailed {P RE}.

Section server.
(** The key scheme, the write tap, peer addresses and the protocol library's
    error type. *)
Context {T : Type} `{KeyParams T} {Tap P RE : Type}.

(** What [error.listener_failure()] answers. *)
Inductive ListenerFailure := LF_Transient | LF_Fatal.
Context (listener_failure : RE → option ListenerFailure).

Record SrvState := mkSrvState {
  ss_memory : Memory (Key T) Tap;
  ss_log : list (Level * SrvMsg P RE);
  ss_taps : list (TapCall (Key T) Tap)
}.

Definition log_line (level : Level) (msg : SrvMsg P RE) : Eff SrvState unit := λ s,
  Ret (tt, mkSrvState (ss_memory s) (ss_log s ++ [(level, msg)]) (ss_taps s)).

(** [if verbose { log.invoke(..) }] *)
Definition log_verbose (verbose : bool) (level : Level) (msg : SrvMsg P RE) : Eff SrvState unit :=
  if verbose then log_line level msg else mret tt.

(** A computation under the read lock. *)
Definition with_read {A} (f : Memory (Key T) Tap → Outcome A) : Eff SrvState A := λ s,
  a ← f (ss_memory s); Ret (a, s).

(** [memory.write().write_from(..)], with the tap's calls. *)
Definition store_write_from (source : WriteSource) (key : Key T) (cell : CellType) (r : Range)
    (values : list Z) : Eff SrvState (Result unit MemoryError) := λ s,
  '(res, mem', calls) ← Memory_write_from (ss_memory s) source key cell r values;
  Ret (res, mkSrvState mem' (ss_log s) (ss_taps s ++ calls)).

(** [Range::new], inside a handler. *)
Definition new_range (start size : Z) : Eff SrvState Range := λ s,
  r ← Range_new start size; Ret (r, s).

Definition handle_read (name : string) (slave : UnitId) (fc : FunctionCode) (cell : CellType)
    (addr cnt : Z) (verbose : bool) : Eff SrvState (Result (list Z) ExceptionCode) :=
  log_line L_Info (M_ReadReceived name slave addr (addr + cnt)) ;;
  let key := mkKey (from_slave_fn slave fc) in
  r ← new_range addr cnt;
  result ← with_read (λ m, Memory_read m key cell r);
  match result with
  | Ok v =>
      log_verbose verbose L_Info (M_ReadOk name slave addr (addr + cnt)) ;;
      mret (Ok v)
  | Err e =>
      log_verbose verbose L_Warning (M_ReadFailed name slave addr (addr + cnt) e) ;;
      mret (Err EX_IllegalDataAddress)
  end.

Definition handle_write_multi (name : string) (slave : UnitId) (fc : FunctionCode)
    (cell : CellType) (addr : Z) (values : list Z) (verbose : bool)
  : Eff SrvState (Result Z ExceptionCode) :=
  let len := Z.of_nat (length values) in
  log_line L_Info (M_MultiReceived name slave addr (addr + len) values) ;;
  let key := mkKey (from_slave_fn slave fc) in
  r ← new_range addr len;
  result ← store_write_from WS_Remote key cell r values;
  match result with
  | Ok _ =>
      log_verbose verbose L_Info (M_MultiOk name slave addr (addr + len) values) ;;
      mret (Ok (as_uint 16 len))
  | Err e =>
      log_verbose verbose L_Warning (M_MultiFailed name slave addr (addr + len) values e) ;;
      mret (Err EX_IllegalDataAddress)
  end.

Definition handle_write_single (name : string) (slave : UnitId) (fc : FunctionCode)
    (cell : CellType) (addr : Z) (value : WireValue) (stored : Z) (verbose : bool)
  : Eff SrvState (Result unit ExceptionCode) :=
  log_line L_Info (M_SingleReceived name slave addr value) ;;
  let key := mkKey (from_slave_fn slave fc) in
  r ← new_range addr 1;
  result ← store_write_from WS_Remote key cell r [stored];
  match result with
  | Ok _ => log_verbose verbose L_Info (M_SingleOk name slave addr value) ;; mret (Ok tt)
  | Err e =>
      log_verbose verbose L_Warning (M_SingleFailed name slave addr value e) ;;
      mret (Err EX_IllegalDataAddress)
  end.

Definition slave_has_no_region (slave : UnitId) (m : Memory (Key T) Tap) : bool :=
  forallb (λ id, negb (Memory_contains_key m (mkKey id))) (all_kinds_for slave).

Inductive RwOutcome :=
| RW_NotAddressable (e : MemoryError)
| RW_Rejected (e : MemoryError)
| RW_Ok (v : list Z).

(** The four checks and operations of ReadWriteMultipleRegisters, under one
    guard. *)
Definition read_write_multiple (key : Key T) (read_addr cnt write_addr : Z) (values : list Z)
  : Eff SrvState RwOutcome :=
  let len := Z.of_nat (length values) in
  rr ← new_range read_addr cnt;
  readable ← with_read (λ m, Memory_readable m key CT_Register rr);
  match readable with
  | Err e => mret (RW_NotAddressable e)
  | Ok _ =>
      wr ← new_range write_addr len;
      writable ← with_read (λ m, Memory_writable m key CT_Register wr);
      match writable with
      | Err e => mret (RW_NotAddressable e)
      | Ok _ =>
          read ← with_read (λ m, Memory_read m key CT_Register rr);
          match read with
          | Err e => mret (RW_Rejected e)
          | Ok v =>
              written ← store_write_from WS_Remote key CT_Register wr values;
              match written with
              | Err e => mret (RW_Rejected e)
              | Ok _ => mret (RW_Ok v)
              end
          end
      end
  end.

(** [res?] in a handler, and the response built from it. *)
Definition respond {A} (res : Result A ExceptionCode) (k : A → ResponsePdu)
  : Eff SrvState (Result ResponsePdu ExceptionCode) :=
  match res with Ok a => mret (Ok (k a)) | Err e => mret (Err e) end.

Definition bit (w : Z) : bool := negb (w =? 0).
Definition bit_word (b : bool) : Z := if b then 1 else 0.

Definition answer_request (slave : UnitId) (request : RequestPdu) (verbose : bool)
  : Eff SrvState (Result ResponsePdu ExceptionCode) :=
  match request with
  | RQ_ReadCoils address quantity =>
      v ← handle_read "ReadCoils" slave FC_ReadCoils CT_Coil address quantity verbose;
      respond v (λ v, RS_ReadCoils (bit <$> v))
  | RQ_ReadDiscreteInputs address quantity =>
      v ← handle_read "ReadDiscreteInputs" slave FC_ReadDiscreteInputs CT_Coil address quantity
            verbose;
      respond v (λ v, RS_ReadDiscreteInputs (bit <$> v))
  | RQ_ReadInputRegisters address quantity =>
      v ← handle_read "ReadInputRegisters" slave FC_ReadInputRegisters CT_Register address
            quantity verbose;
      respond v RS_ReadInputRegisters
  | RQ_ReadHoldingRegisters address quantity =>
      v ← handle_read "ReadHoldingRegisters" slave FC_ReadHoldingRegisters CT_Register address
            quantity verbose;
      respond v RS_ReadHoldingRegisters
  | RQ_WriteMultipleRegisters address registers =>
      len ← handle_write_multi "WriteMultipleRegisters" slave FC_WriteMultipleRegisters
              CT_Register address registers verbose;
      respond len (λ len, RS_WriteMultipleRegisters address len)
  | RQ_WriteSingleRegister address value =>
      r ← handle_write_single "WriteSingleRegister" slave FC_WriteSingleRegister CT_Register
            address (WV_Word value) value verbose;
      respond r (λ _, RS_WriteSingleRegister address value)
  | RQ_WriteMultipleCoils address coils =>
      len ← handle_write_multi "WriteMultipleCoils" slave FC_WriteMultipleCoils CT_Coil address
              (bit_word <$> coils) verbose;
      respond len (λ len, RS_WriteMultipleCoils address len)
  | RQ_WriteSingleCoil address value =>
      r ← handle_write_single "WriteSingleCoil" slave FC_WriteSingleCoil CT_Coil address
            (WV_Coil value) (bit_word value) verbose;
      respond r (λ _, RS_WriteSingleCoil address value)
  | RQ_ReadWriteMultipleRegisters read_addr cnt write_addr values =>
      log_line L_Info (M_RwReceived slave read_addr cnt write_addr values) ;;
      let key := mkKey (from_slave_fn slave FC_ReadWriteMultipleRegisters) in
      outcome ← read_write_multiple key read_addr cnt write_addr values;
      match outcome with
      | RW_NotAddressable e =>
          log_verbose verbose L_Warning (M_RwFailed slave read_addr cnt write_addr values e) ;;
          mret (Err EX_IllegalDataAddress)
      | RW_Rejected e =>
          log_verbose verbose L_Warning (M_RwFailed slave read_addr cnt write_addr values e) ;;
          mret (Err EX_IllegalDataAddress)
      | RW_Ok v =>
          log_verbose verbose L_Info (M_RwOk slave read_addr cnt write_addr values) ;;
          mret (Ok (RS_ReadWriteMultipleRegisters v))
      end
  | RQ_Other _ =>
      log_line L_Warning (M_Unsupported (request_function request) slave) ;;
      mret (Err EX_IllegalFunction)
  end.

(** [Ok(None)] is silence. *)
Definition handle_request (slave : UnitId) (request : RequestPdu) (verbose physical_serial : bool)
  : Eff SrvState (Result (option ResponsePdu) ExceptionCode) :=
  result ← answer_request slave request verbose;
  match result with
  | Ok pdu => mret (Ok (Some pdu))
  | Err EX_IllegalDataAddress =>
      silent ← with_read (λ m, Ret (physical_serial && slave_has_no_region slave m));
      if (silent : bool) then mret (Ok None) else mret (Err EX_IllegalDataAddress)
  | Err e => mret (Err e)
  end.

(** ** The service *)

Inductive ResetOn := RO_Connect | RO_Request.

#[export] Instance ResetOn_eq_dec : EqDecision ResetOn.
Proof. solve_decision. Defined.

Record Service := mkService {
  sv_state : SrvState;
  sv_verbose : bool;
  sv_physical_serial : bool;
  sv_activity : bool;
  sv_reset_on : ResetOn;
  sv_receive_failed : bool
}.

Definition Service_new (s : SrvState) (verbose physical_serial : bool) : Service :=
  mkService s verbose physical_serial false RO_Connect false.

Definition with_state (self : Service) (s : SrvState) : Service :=
  mkService s (sv_verbose self) (sv_physical_serial self) (sv_activity self)
    (sv_reset_on self) (sv_receive_failed self).

Definition set_activity (self : Service) (b : bool) : Service :=
  mkService (sv_state self) (sv_verbose self) (sv_physical_serial self) b
    (sv_reset_on self) (sv_receive_failed self).

Definition set_receive_failed (self : Service) (b : bool) : Service :=
  mkService (sv_state self) (sv_verbose self) (sv_physical_serial self) (sv_activity self)
    (sv_reset_on self) b.

Definition datagram_arrived (self : Service) : Service := set_receive_failed self false.

Definition with_reset_on (self : Service) (activity : bool) (reset_on : ResetOn) : Service :=
  mkService (sv_state self) (sv_verbose self) (sv_physical_serial self) activity reset_on
    (sv_receive_failed self).

Definition run_log (self : Service) (level : Level) (msg : SrvMsg P RE) : Service :=
  match log_line level msg (sv_state self) with
  | Ret (_, s) => with_state self s
  | Panic => self
  end.

Definition on_request (self : Service) (unit_ : UnitId) (request : RequestPdu)
  : Outcome (Result (option ResponsePdu) ExceptionCode * Service) :=
  let self := datagram_arrived self in
  '(result, s) ← handle_request unit_ request (sv_verbose self) (sv_physical_serial self)
                   (sv_state self);
  let self := with_state self s in
  Ret (result,
       if bool_decide (sv_reset_on self = RO_Request) then set_activity self true else self).

(** Always accepts; the peer is absent on a serial link. *)
Definition on_connect (self : Service) (peer : option P) : Service :=
  let self :=
    if bool_decide (sv_reset_on self = RO_Connect) then set_activity self true else self in
  match peer with
  | Some p => run_log self L_Info (M_PeerConnected p)
  | None => self
  end.

Definition on_disconnect (self : Service) (peer : option P) : Service :=
  match peer with
  | Some p => run_log self L_Info (M_PeerDisconnected p)
  | None => self
  end.

Inductive AcceptErrorAction := AE_Continue | AE_Stop.

(** The action, and whether [LISTENER_ERROR_WAIT] was slept. *)
Definition on_accept_error (self : Service) (error : RE) : AcceptErrorAction * bool * Service :=
  match listener_failure error with
  | Some LF_Transient => (AE_Continue, true, run_log self L_Warning (M_AcceptError error))
  | _ => (AE_Stop, false, self)
  end.

Definition on_receive_error (self : Service) (error : RE) : AcceptErrorAction * bool * Service :=
  match listener_failure error with
  | Some LF_Transient =>
      let slept := sv_receive_failed self in
      (AE_Continue, slept,
       set_receive_failed (run_log self L_Warning (M_ReceiveError error)) true)
  | _ => (AE_Stop, false, self)
  end.

Definition on_error (self : Service) (error : RE) : Service :=
  let self := datagram_arrived self in
  if sv_verbose self then run_log self L_Warning (M_ProcessingFailed error) else self.
End server.

Arguments SrvState T {_} Tap P RE.
Arguments Service T {_} Tap P RE.
