(* ===== verification/ServerSpec.v ===== *)
(** * What the Modbus server answers

    The handlers of [Server.v] against the abstract store of [Store.v]: the
    answer to every request, what it leaves in the store, and what it logs. *)

From stdpp Require Import base list gmap numbers strings.
From S2P Require Import Prelude BTree Slice Memory MemorySpec Store StoreRefine.
From S2P Require Import Codec Key Server.

Local Open Scope Z_scope.

(** ** The specification *)

Section spec.
Context {T : Type} `{KeyParams T}.
Implicit Types (st : Store (Key T)).

Definition spec_read st (slave : UnitId) (fc : FunctionCode) (cell : CellType) (addr cnt : Z)
  : Result (list Z) ExceptionCode :=
  match store_read st (mkKey (from_slave_fn slave fc)) cell (mkRange addr (addr + cnt)) with
  | Ok v => Ok v
  | Err _ => Err EX_IllegalDataAddress
  end.

Definition spec_write st (slave : UnitId) (fc : FunctionCode) (cell : CellType) (addr : Z)
    (values : list Z) (response : ResponsePdu) : Result ResponsePdu ExceptionCode * Store (Key T) :=
  match store_write st (mkKey (from_slave_fn slave fc)) cell
          (mkRange addr (addr + Z.of_nat (length values))) values with
  | (Ok _, st') => (Ok response, st')
  | (Err _, _) => (Err EX_IllegalDataAddress, st)
  end.

Definition result_map {A B E} (f : A → B) (r : Result A E) : Result B E :=
  match r with Ok a => Ok (f a) | Err e => Err e end.

(** The answer to a request and the store after it. *)
Definition spec_answer st (slave : UnitId) (request : RequestPdu)
  : Result ResponsePdu ExceptionCode * Store (Key T) :=
  match request with
  | RQ_ReadCoils a q =>
      (result_map (λ v, RS_ReadCoils (bit <$> v)) (spec_read st slave FC_ReadCoils CT_Coil a q), st)
  | RQ_ReadDiscreteInputs a q =>
      (result_map (λ v, RS_ReadDiscreteInputs (bit <$> v))
         (spec_read st slave FC_ReadDiscreteInputs CT_Coil a q), st)
  | RQ_ReadInputRegisters a q =>
      (result_map RS_ReadInputRegisters
         (spec_read st slave FC_ReadInputRegisters CT_Register a q), st)
  | RQ_ReadHoldingRegisters a q =>
      (result_map RS_ReadHoldingRegisters
         (spec_read st slave FC_ReadHoldingRegisters CT_Register a q), st)
  | RQ_WriteMultipleRegisters a vs =>
      spec_write st slave FC_WriteMultipleRegisters CT_Register a vs
        (RS_WriteMultipleRegisters a (Z.of_nat (length vs)))
  | RQ_WriteSingleRegister a v =>
      spec_write st slave FC_WriteSingleRegister CT_Register a [v] (RS_WriteSingleRegister a v)
  | RQ_WriteMultipleCoils a bs =>
      spec_write st slave FC_WriteMultipleCoils CT_Coil a (bit_word <$> bs)
        (RS_WriteMultipleCoils a (Z.of_nat (length bs)))
  | RQ_WriteSingleCoil a b =>
      spec_write st slave FC_WriteSingleCoil CT_Coil a [bit_word b] (RS_WriteSingleCoil a b)
  | RQ_ReadWriteMultipleRegisters ra q wa vs =>
      match spec_read st slave FC_ReadWriteMultipleRegisters CT_Register ra q with
      | Err e => (Err e, st)
      | Ok v => spec_write st slave FC_ReadWriteMultipleRegisters CT_Register wa vs
                  (RS_ReadWriteMultipleRegisters v)
      end
  | RQ_Other _ => (Err EX_IllegalFunction, st)
  end.

(** No table of the slave is declared. *)
Definition spec_unmapped st (slave : UnitId) : bool :=
  forallb (λ id, bool_decide (st (mkKey id) = None)) (all_kinds_for slave).
End spec.

(** The fields of a request are [u16], a value list is at most [u16::MAX] long. *)
Definition request_wf (rq : RequestPdu) : Prop :=
  match rq with
  | RQ_ReadCoils a q | RQ_ReadDiscreteInputs a q | RQ_ReadHoldingRegisters a q
  | RQ_ReadInputRegisters a q => is_uint 16 a ∧ is_uint 16 q
  | RQ_WriteSingleCoil a _ | RQ_WriteSingleRegister a _ => is_uint 16 a
  | RQ_WriteMultipleCoils a bs => is_uint 16 a ∧ is_uint 16 (Z.of_nat (length bs))
  | RQ_WriteMultipleRegisters a vs => is_uint 16 a ∧ is_uint 16 (Z.of_nat (length vs))
  | RQ_ReadWriteMultipleRegisters ra q wa vs =>
      is_uint 16 ra ∧ is_uint 16 q ∧ is_uint 16 wa ∧ is_uint 16 (Z.of_nat (length vs))
  | RQ_Other _ => True
  end.

(** ** The handlers *)

Section handlers.
Context {T : Type} `{KeyParams T} {Tap P RE : Type}.
Abbreviation St := (SrvState T Tap P RE).
Implicit Types (s : SrvState T Tap P RE).

(** The abstract store of the server's memory. *)
Definition abs s : Store (Key T) := Memory_abs (ss_memory s).
Definition wf s : Prop := Memory_wf (ss_memory s).

(** From [s] the server reaches [s'] with the cells of [st'], having logged
    [lines] and kept the installed tap. *)
Definition reaches s s' (st' : Store (Key T)) (lines : list (Level * SrvMsg P RE)) : Prop :=
  refines (ss_memory s) (ss_memory s') st' ∧ ss_log s' = ss_log s ++ lines.

Lemma u16_range_wf (a q : Z) :
  is_uint 16 a → is_uint 16 q →
  Range_new a q = Ret (mkRange a (a + q)) ∧ Range_wf (mkRange a (a + q)).
Proof.
  unfold is_uint. intros Ha Hq. split.
  - apply Range_new_Ret. unfold usize_max. lia.
  - unfold Range_wf, usize_max; simpl. lia.
Qed.

(** A refused write leaves the store. *)
Lemma store_write_err (st st' : Store (Key T)) key cell r vs e :
  store_write st key cell r vs = (Err e, st') → st' = st.
Proof.
  unfold store_write. intros Es. destruct (negb _); [by simplify_eq|].
  destruct (st key); [|by simplify_eq]. destruct (dev_all _ _ _); by simplify_eq.
Qed.

(** The last line of a handler, when [verbose]. *)
Definition verbose_line (verbose : bool) (level : Level) (msg : SrvMsg P RE)
  : list (Level * SrvMsg P RE) := if verbose then [(level, msg)] else [].

Lemma log_verbose_run (verbose : bool) (level : Level) (msg : SrvMsg P RE) s :
  log_verbose verbose level msg s =
  Ret (tt, mkSrvState (ss_memory s) (ss_log s ++ verbose_line verbose level msg) (ss_taps s)).
Proof. destruct verbose, s; simpl; [done|]. unfold mret, eff_ret. by rewrite app_nil_r. Qed.

Lemma handle_read_spec name slave fc cell addr cnt verbose s :
  wf s → is_uint 16 addr → is_uint 16 cnt →
  ∃ lines, handle_read name slave fc cell addr cnt verbose s =
    Ret (spec_read (abs s) slave fc cell addr cnt,
         mkSrvState (ss_memory s) (ss_log s ++ lines) (ss_taps s)) ∧
    head lines = Some (L_Info, M_ReadReceived name slave addr (addr + cnt)).
Proof.
  intros Hwf Ha Hc. destruct (u16_range_wf addr cnt Ha Hc) as [Hn Hr].
  unfold handle_read, spec_read, abs. unfold mbind, eff_bind, log_line, new_range, with_read.
  cbn [ss_memory ss_log ss_taps]. rewrite Hn. cbn [mbind outcome_bind ss_memory].
  rewrite Memory_read_refines by done. cbn [mbind outcome_bind].
  destruct (store_read _ _ _ _) as [v|e]; rewrite log_verbose_run; eexists; simpl;
    rewrite <- app_assoc; (split; [reflexivity|done]).
Qed.

Lemma store_write_from_spec source key cell r vs s :
  wf s → Range_wf r →
  ∃ s', store_write_from source key cell r vs s =
      Ret ((store_write (abs s) key cell r vs).1, s') ∧
    refines (ss_memory s) (ss_memory s') (store_write (abs s) key cell r vs).2 ∧
    ss_log s' = ss_log s.
Proof.
  intros Hwf Hr.
  destruct (Memory_write_from_refines (ss_memory s) source key cell r vs Hwf Hr)
    as (mem' & calls & Heq & Href & _).
  unfold store_write_from. rewrite Heq. cbn [mbind outcome_bind].
  eexists. split_and!; [done|done|done].
Qed.

Lemma handle_write_multi_spec name slave fc cell addr vs verbose s resp :
  wf s → is_uint 16 addr → is_uint 16 (Z.of_nat (length vs)) →
  ∃ s' lines r, handle_write_multi name slave fc cell addr vs verbose s = Ret (r, s') ∧
    result_map (λ _, resp) r = (spec_write (abs s) slave fc cell addr vs resp).1 ∧
    (∀ n, r = Ok n → n = Z.of_nat (length vs)) ∧
    reaches s s' (spec_write (abs s) slave fc cell addr vs resp).2 lines ∧
    head lines = Some (L_Info, M_MultiReceived name slave addr
      (addr + Z.of_nat (length vs)) vs).
Proof.
  intros Hwf Ha Hc. destruct (u16_range_wf addr _ Ha Hc) as [Hn Hr].
  unfold handle_write_multi, spec_write. unfold mbind, eff_bind, log_line, new_range.
  cbn [ss_memory ss_log ss_taps]. rewrite Hn. cbn [mbind outcome_bind].
  set (s1 := mkSrvState _ _ _).
  destruct (store_write_from_spec WS_Remote (mkKey (from_slave_fn slave fc)) cell
    (mkRange addr (addr + Z.of_nat (length vs))) vs s1 Hwf Hr) as (s2 & -> & Href & Hlog).
  change (abs s1) with (abs s) in *.
  destruct (store_write (abs s) _ _ _ _) as [res st'] eqn:Es; cbn [fst snd] in *.
  assert (∀ e, res = Err e → st' = abs s) as Hsame
    by (intros e ->; by eapply store_write_err).
  destruct res as [u|e]; rewrite log_verbose_run; do 3 eexists; split_and!;
    try reflexivity; simpl; try (rewrite Hlog; simpl; by rewrite <- app_assoc); try done.
  - intros n [= <-]. by apply as_uint_small.
  - rewrite <- (Hsame e), Hlog by done. simpl. by rewrite <- app_assoc.
  - done.
Qed.

Lemma handle_write_single_spec name slave fc cell addr value stored verbose s resp :
  wf s → is_uint 16 addr →
  ∃ s' lines r, handle_write_single name slave fc cell addr value stored verbose s = Ret (r, s') ∧
    result_map (λ _, resp) r = (spec_write (abs s) slave fc cell addr [stored] resp).1 ∧
    reaches s s' (spec_write (abs s) slave fc cell addr [stored] resp).2 lines ∧
    head lines = Some (L_Info, M_SingleReceived name slave addr value).
Proof.
  intros Hwf Ha. destruct (u16_range_wf addr 1 Ha ltac:(done)) as [Hn Hr].
  unfold handle_write_single, spec_write. unfold mbind, eff_bind, log_line, new_range.
  cbn [ss_memory ss_log ss_taps length]. rewrite Hn. cbn [mbind outcome_bind].
  change (Z.of_nat 1) with 1. set (s1 := mkSrvState _ _ _).
  destruct (store_write_from_spec WS_Remote (mkKey (from_slave_fn slave fc)) cell
    (mkRange addr (addr + 1)) [stored] s1 Hwf Hr) as (s2 & -> & Href & Hlog).
  change (abs s1) with (abs s) in *.
  destruct (store_write (abs s) _ _ _ _) as [res st'] eqn:Es; cbn [fst snd] in *.
  assert (∀ e, res = Err e → st' = abs s) as Hsame
    by (intros e ->; by eapply store_write_err).
  destruct res as [u|e]; rewrite log_verbose_run; do 3 eexists; split_and!;
    try reflexivity; simpl; try (rewrite Hlog; simpl; by rewrite <- app_assoc); try done.
  - rewrite <- (Hsame e), Hlog by done. simpl. by rewrite <- app_assoc.
  - done.
Qed.

(** The checked reads and the write of ReadWriteMultipleRegisters. *)
Lemma read_write_multiple_spec slave ra q wa vs s resp :
  wf s → is_uint 16 ra → is_uint 16 q → is_uint 16 wa → is_uint 16 (Z.of_nat (length vs)) →
  let fc := FC_ReadWriteMultipleRegisters in
  ∃ s' o, read_write_multiple (mkKey (from_slave_fn slave fc)) ra q wa vs s = Ret (o, s') ∧
    ss_log s' = ss_log s ∧
    match spec_read (abs s) slave fc CT_Register ra q with
    | Err _ => (∃ e, o = RW_NotAddressable e) ∧ s' = s
    | Ok v =>
        let '(res, st') := spec_write (abs s) slave fc CT_Register wa vs (resp v) in
        refines (ss_memory s) (ss_memory s') st' ∧
        match res with
        | Ok _ => o = RW_Ok v
        | Err _ => (∃ e, o = RW_NotAddressable e) ∧ s' = s
        end
    end.
Proof.
  intros Hwf Hra Hq Hwa Hl fc.
  destruct (u16_range_wf ra q Hra Hq) as [Hn1 Hr1], (u16_range_wf wa _ Hwa Hl) as [Hn2 Hr2].
  set (key := mkKey (from_slave_fn slave fc)).
  set (wr := mkRange wa (wa + Z.of_nat (length vs))) in *.
  unfold read_write_multiple, mbind, eff_bind, new_range, with_read.
  rewrite Hn1. cbn [mbind outcome_bind].
  rewrite Memory_readable_refines by done. cbn [mbind outcome_bind]. unfold spec_read.
  fold key. unfold store_read. change (Memory_abs (ss_memory s)) with (abs s).
  destruct (abs s key) as [d|] eqn:Hd.
  2:{ do 2 eexists. split_and!; [reflexivity|done|by eexists|done]. }
  destruct (dev_all _ d (mkRange ra (ra + q))) eqn:Hrd.
  2:{ do 2 eexists. split_and!; [reflexivity|done|by eexists|done]. }
  rewrite Hn2. cbn [mbind outcome_bind]. fold wr.
  rewrite Memory_writable_refines by done. cbn [mbind outcome_bind].
  change (Memory_abs (ss_memory s)) with (abs s). rewrite Hd.
  unfold spec_write. fold key. fold wr.
  assert (store_write (abs s) key CT_Register wr vs =
    if dev_all (λ c, Cell_accepts_write c CT_Register) d wr
    then (Ok tt, store_set (abs s) key (dev_store d wr vs))
    else (Err AddressNotWritable, abs s)) as Hsw.
  { unfold store_write. rewrite Hd. unfold Range_length, wr; simpl.
    by replace (wa + Z.of_nat (length vs) - wa) with (Z.of_nat (length vs)) by lia; rewrite Z.eqb_refl. }
  rewrite Hsw. destruct (dev_all (λ c, Cell_accepts_write c CT_Register) d wr) eqn:Hwr.
  2:{ do 2 eexists. split_and!; [reflexivity|done|by apply refines_refl|by eexists|done]. }
  rewrite Memory_read_refines by done. cbn [mbind outcome_bind].
  change (Memory_abs (ss_memory s)) with (abs s). unfold store_read. rewrite Hd, Hrd.
  destruct (store_write_from_spec WS_Remote key CT_Register wr vs s Hwf Hr2)
    as (s' & -> & Href & Hlog).
  rewrite Hsw in *. do 2 eexists. split_and!; [reflexivity|done|done|done].
Qed.

(** The first line logged for a request. *)
Definition received_line (slave : UnitId) (rq : RequestPdu) : Level * SrvMsg P RE :=
  match rq with
  | RQ_ReadCoils a q => (L_Info, M_ReadReceived "ReadCoils" slave a (a + q))
  | RQ_ReadDiscreteInputs a q => (L_Info, M_ReadReceived "ReadDiscreteInputs" slave a (a + q))
  | RQ_ReadInputRegisters a q => (L_Info, M_ReadReceived "ReadInputRegisters" slave a (a + q))
  | RQ_ReadHoldingRegisters a q => (L_Info, M_ReadReceived "ReadHoldingRegisters" slave a (a + q))
  | RQ_WriteMultipleRegisters a vs =>
      (L_Info, M_MultiReceived "WriteMultipleRegisters" slave a (a + Z.of_nat (length vs)) vs)
  | RQ_WriteSingleRegister a v =>
      (L_Info, M_SingleReceived "WriteSingleRegister" slave a (WV_Word v))
  | RQ_WriteMultipleCoils a bs =>
      (L_Info, M_MultiReceived "WriteMultipleCoils" slave a
        (a + Z.of_nat (length (bit_word <$> bs))) (bit_word <$> bs))
  | RQ_WriteSingleCoil a b => (L_Info, M_SingleReceived "WriteSingleCoil" slave a (WV_Coil b))
  | RQ_ReadWriteMultipleRegisters ra q wa vs => (L_Info, M_RwReceived slave ra q wa vs)
  | RQ_Other c => (L_Warning, M_Unsupported (FC_Other c) slave)
  end.

(** A read-write request: nothing is written unless both its ranges pass. *)
Lemma answer_read_write_refines slave ra q wa vs verbose s :
  let rq := RQ_ReadWriteMultipleRegisters ra q wa vs in
  wf s → request_wf rq →
  ∃ s' lines, answer_request slave rq verbose s = Ret ((spec_answer (abs s) slave rq).1, s') ∧
    reaches s s' (spec_answer (abs s) slave rq).2 lines ∧
    head lines = Some (received_line slave rq).
Proof.
  intros rq Hwf Hrq. pose proof (refines_refl (ss_memory s) Hwf) as Hrefl. unfold rq in *.
  simpl in Hrq. cbn [answer_request spec_answer fst snd]; unfold mbind, eff_bind.
  destruct Hrq as (Hra & Hq & Hwa & Hl). unfold log_line at 1.
  set (s1 := mkSrvState _ _ _).
  destruct (read_write_multiple_spec slave ra q wa vs s1 RS_ReadWriteMultipleRegisters
    Hwf Hra Hq Hwa Hl) as (s2 & o & -> & Hlog & Hspec).
  change (abs s1) with (abs s) in *.
  destruct (spec_read _ _ _ _ _ _) as [v|e0] eqn:Er.
  + destruct (spec_write _ _ _ _ _ _ _) as [res st'] eqn:Ew. destruct Hspec as [Href Ho].
    unfold spec_write in Ew. destruct res as [r|e].
    * assert (r = RS_ReadWriteMultipleRegisters v) as ->
        by (destruct (store_write _ _ _ _ _) as [[] ?]; by simplify_eq).
      subst o. rewrite log_verbose_run. do 2 eexists.
      split_and!; [reflexivity|split; [exact Href|]|].
      -- simpl. rewrite Hlog. simpl. by rewrite <- app_assoc.
      -- done.
    * assert (e = EX_IllegalDataAddress) as ->
        by (destruct (store_write _ _ _ _ _) as [[] ?]; by simplify_eq).
      destruct Ho as [[e' ->] ->]. rewrite log_verbose_run. do 2 eexists.
      split_and!; [reflexivity|split; [exact Href|]|].
      -- simpl. by rewrite <- app_assoc.
      -- done.
  + assert (e0 = EX_IllegalDataAddress) as ->
      by (unfold spec_read in Er; destruct (store_read _ _ _ _); by simplify_eq).
    destruct Hspec as [[e' ->] ->]. rewrite log_verbose_run. do 2 eexists.
    split_and!; [reflexivity|split; [exact Hrefl|]|].
    * simpl. by rewrite <- app_assoc.
    * done.
Qed.

Lemma answer_request_refines slave rq verbose s :
  wf s → request_wf rq →
  ∃ s' lines, answer_request slave rq verbose s = Ret ((spec_answer (abs s) slave rq).1, s') ∧
    reaches s s' (spec_answer (abs s) slave rq).2 lines ∧
    head lines = Some (received_line slave rq).
Proof.
  intros Hwf Hrq. pose proof (refines_refl (ss_memory s) Hwf) as Hrefl.
  destruct rq as [a q|a q|a q|a q|a b|a v|a bs|a vs|ra q wa vs|c]; simpl in Hrq;
    cbn [answer_request spec_answer fst snd]; unfold mbind, eff_bind.
  1-4: destruct Hrq as [Ha Hq];
    match goal with |- context [handle_read ?n ?sl ?fc ?cell _ _ _ _] =>
      destruct (handle_read_spec n sl fc cell a q verbose s Hwf Ha Hq) as (lines & -> & Hh) end;
    destruct (spec_read _ _ _ _ _ _); do 2 eexists; (split_and!; [reflexivity|split; done|done]).
  - destruct (handle_write_single_spec "WriteSingleCoil" slave FC_WriteSingleCoil CT_Coil a
      (WV_Coil b) (bit_word b) verbose s (RS_WriteSingleCoil a b) Hwf Hrq)
      as (s' & lines & r & -> & <- & Hre & Hh).
    destruct r; do 2 eexists; (split_and!; [reflexivity|exact Hre|done]).
  - destruct (handle_write_single_spec "WriteSingleRegister" slave FC_WriteSingleRegister
      CT_Register a (WV_Word v) v verbose s (RS_WriteSingleRegister a v) Hwf Hrq)
      as (s' & lines & r & -> & <- & Hre & Hh).
    destruct r; do 2 eexists; (split_and!; [reflexivity|exact Hre|done]).
  - destruct Hrq as [Ha Hl]. rewrite <- (length_fmap bit_word) in Hl |- *.
    destruct (handle_write_multi_spec "WriteMultipleCoils" slave FC_WriteMultipleCoils CT_Coil a
      (bit_word <$> bs) verbose s
      (RS_WriteMultipleCoils a (Z.of_nat (length (bit_word <$> bs)))) Hwf Ha Hl)
      as (s' & lines & r & -> & <- & Hn & Hre & Hh).
    destruct r as [n|]; [rewrite (Hn n eq_refl)|];
      do 2 eexists; (split_and!; [reflexivity|exact Hre|done]).
  - destruct Hrq as [Ha Hl].
    destruct (handle_write_multi_spec "WriteMultipleRegisters" slave FC_WriteMultipleRegisters
      CT_Register a vs verbose s
      (RS_WriteMultipleRegisters a (Z.of_nat (length vs))) Hwf Ha Hl)
      as (s' & lines & r & -> & <- & Hn & Hre & Hh).
    destruct r as [n|]; [rewrite (Hn n eq_refl)|];
      do 2 eexists; (split_and!; [reflexivity|exact Hre|done]).
  - exact (answer_read_write_refines slave ra q wa vs verbose s Hwf Hrq).
  - do 2 eexists. split_and!; [reflexivity|split; [exact Hrefl|done]|done].
Qed.
End handlers.
