(* ===== verification/ServerProps.v ===== *)
(** * Properties of the Modbus server *)

From stdpp Require Import base list gmap numbers strings.
From S2P Require Import Prelude BTree Slice Memory MemorySpec Store StoreDeclare.
From S2P Require Import StoreRefine StoreProps Codec Key Server ServerSpec.

Local Open Scope Z_scope.

(** What the server puts on the wire: [None] is silence. *)
Definition spec_request {T} `{KeyParams T} (st : Store (Key T)) (slave : UnitId)
    (rq : RequestPdu) (physical_serial : bool) : Result (option ResponsePdu) ExceptionCode :=
  match (spec_answer st slave rq).1 with
  | Ok pdu => Ok (Some pdu)
  | Err EX_IllegalDataAddress =>
      if physical_serial && spec_unmapped st slave then Ok None else Err EX_IllegalDataAddress
  | Err e => Err e
  end.

Section props.
Context {T : Type} `{KeyParams T} {Tap P RE : Type}.
Implicit Types (s : SrvState T Tap P RE) (st : Store (Key T)).

Lemma slave_has_no_region_abs slave s :
  slave_has_no_region slave (ss_memory s) = spec_unmapped (abs s) slave.
Proof.
  unfold slave_has_no_region, spec_unmapped. induction (all_kinds_for slave) as [|id l IH];
    simpl; [done|]. rewrite IH. f_equal. unfold Memory_contains_key, abs, Memory_abs.
  by destruct (m_slices (ss_memory s) !! mkKey id).
Qed.

(** The stores differ in no cell. *)
Lemma spec_unmapped_proper slave st1 st2 :
  st1 ≡ st2 → spec_unmapped st1 slave = spec_unmapped st2 slave.
Proof.
  intros Heq. unfold spec_unmapped. induction (all_kinds_for slave) as [|id l IH]; simpl; [done|].
  rewrite IH. f_equal. by destruct (Heq (mkKey id)).
Qed.

(** A request answered with an exception leaves the store. *)
Lemma spec_answer_err slave rq st e :
  (spec_answer st slave rq).1 = Err e → (spec_answer st slave rq).2 = st.
Proof.
  destruct rq; simpl; try done; unfold spec_write;
    try (destruct (store_write _ _ _ _ _) as [[] ?]; done).
  destruct (spec_read _ _ _ _ _ _); [|done]. by destruct (store_write _ _ _ _ _) as [[] ?].
Qed.

Lemma handle_request_spec slave rq verbose physical_serial s :
  wf s → request_wf rq →
  ∃ s' lines, handle_request slave rq verbose physical_serial s =
      Ret (spec_request (abs s) slave rq physical_serial, s') ∧
    reaches s s' (spec_answer (abs s) slave rq).2 lines ∧
    head lines = Some (received_line slave rq).
Proof.
  intros Hwf Hrq.
  destruct (answer_request_refines slave rq verbose s Hwf Hrq) as (s' & lines & Ha & Hre & Hh).
  exists s', lines. split_and!; [|done|done]. unfold handle_request, mbind, eff_bind. rewrite Ha.
  unfold spec_request. pose proof (spec_answer_err slave rq (abs s)) as Herr.
  destruct (spec_answer (abs s) slave rq) as [res st'] eqn:Es; simpl in *.
  destruct res as [pdu|e]; [done|]. destruct e; try done.
  unfold with_read. simpl. rewrite slave_has_no_region_abs.
  destruct Hre as [(_ & _ & Heq) _]. rewrite (Herr _ eq_refl) in Heq.
  rewrite (spec_unmapped_proper slave (abs s') (abs s)) by done.
  by destruct (physical_serial && _).
Qed.

(** C2: every request gets the answer of the specification: the stored words for
    a readable range, an echo for a performed write, the illegal-address
    exception (or silence on a serial link whose slave is unknown) when the
    store refuses, the illegal-function exception for everything else. The
    handler never panics, the store holds what the specification says
    (unchanged for every exception), and the first line logged names the
    request. *)
Theorem server_answers slave rq verbose physical_serial s :
  wf s → request_wf rq →
  ∃ s' lines, handle_request slave rq verbose physical_serial s =
      Ret (spec_request (abs s) slave rq physical_serial, s') ∧
    wf s' ∧ abs s' ≡ (spec_answer (abs s) slave rq).2 ∧
    (∀ e, spec_request (abs s) slave rq physical_serial = Err e → abs s' ≡ abs s) ∧
    ss_log s' = ss_log s ++ received_line slave rq :: lines.
Proof.
  intros Hwf Hrq.
  destruct (handle_request_spec slave rq verbose physical_serial s Hwf Hrq)
    as (s' & lines & Hh & [(Hwf' & _ & Heq) Hlog] & Hhd).
  destruct lines as [|l lines]; [done|]. simpl in Hhd. injection Hhd as ->.
  exists s', lines. split_and!; [done|done|done| |done].
  intros e He. rewrite <- (spec_answer_err slave rq (abs s) e); [done|].
  unfold spec_request in He. destruct (spec_answer (abs s) slave rq) as [[pdu|e'] st']; [done|].
  simpl in *. revert He.
  destruct e', (physical_serial && spec_unmapped (abs s) slave); congruence.
Qed.

Lemma spec_unmapped_none `{!KeyParamsLaws T} slave st fc :
  spec_unmapped st slave = true → st (mkKey (from_slave_fn slave fc)) = None.
Proof.
  unfold spec_unmapped. rewrite forallb_forall. intros Hall.
  specialize (Hall (from_slave_fn slave fc)). rewrite <- list_elem_of_In in Hall.
  eapply bool_decide_eq_true_1, Hall, from_slave_fn_listed.
Qed.

(** On a physical serial link a slave id without any declared region is
    silent: each supported request is answered with nothing and changes
    nothing; only an unsupported function still gets its exception. *)
Theorem unmapped_slave_is_silent `{!KeyParamsLaws T} slave rq verbose s :
  wf s → request_wf rq → spec_unmapped (abs s) slave = true →
  ∃ s', handle_request slave rq verbose true s =
      Ret (match rq with RQ_Other _ => Err EX_IllegalFunction | _ => Ok None end, s') ∧
    abs s' ≡ abs s.
Proof.
  intros Hwf Hrq Hun.
  destruct (handle_request_spec slave rq verbose true s Hwf Hrq)
    as (s' & lines & -> & [(_ & _ & Heq) _] & _).
  pose proof (λ fc, spec_unmapped_none slave (abs s) fc Hun) as Hnone.
  exists s'. unfold spec_request. rewrite Hun. simpl.
  assert ((spec_answer (abs s) slave rq).1 =
    Err (match rq with RQ_Other _ => EX_IllegalFunction | _ => EX_IllegalDataAddress end)) as Ha.
  { destruct rq; simpl in Hrq |- *; try done;
      unfold spec_read, spec_write, store_read, store_write; rewrite ?Hnone; try done.
    - by destruct (negb _).
    - by destruct (negb _).
    - by destruct (negb _).
    - by destruct (negb _). }
  rewrite (spec_answer_err _ _ _ _ Ha) in Heq. split; [|done]. rewrite Ha.
  by destruct rq.
Qed.
End props.

(** ** The default keys *)

Section slave_key.
Context {Tap P RE : Type}.
Implicit Types (s : SrvState SlaveKey Tap P RE) (st : Store (Key SlaveKey)).

(** The store the specification leaves differs at no key of another slave. *)
Lemma spec_answer_other slave rq st id :
  sk_slave_id (key_id id) ≠ slave → (spec_answer st slave rq).2 id = st id.
Proof.
  intros Hne.
  assert (∀ fc cell addr vs resp, (spec_write st slave fc cell addr vs resp).2 id = st id) as Hw.
  { intros fc cell addr vs resp. unfold spec_write, store_write.
    destruct (negb _); [done|]. destruct (st _) as [d|]; [|done].
    destruct (dev_all _ _ _); [|done]. simpl. unfold store_set.
    rewrite decide_False; [done|]. intros ->. by apply Hne. }
  destruct rq; simpl; try done; try apply Hw.
  destruct (spec_read _ _ _ _ _ _); [apply Hw|done].
Qed.

(** A read request. *)
Definition is_read (rq : RequestPdu) : bool :=
  match rq with
  | RQ_ReadCoils _ _ | RQ_ReadDiscreteInputs _ _ | RQ_ReadHoldingRegisters _ _
  | RQ_ReadInputRegisters _ _ => true
  | _ => false
  end.

(** Reads of a slave depend on that slave's cells only. *)
Lemma spec_read_slave slave rq st1 st2 :
  is_read rq = true →
  (∀ fc, option_Forall2 (≡) (st1 (mkKey (from_slave_fn slave fc)))
                            (st2 (mkKey (from_slave_fn slave fc)))) →
  (spec_answer st1 slave rq).1 = (spec_answer st2 slave rq).1.
Proof.
  intros Hrd Heq.
  assert (∀ fc cell addr cnt, spec_read st1 slave fc cell addr cnt =
    spec_read st2 slave fc cell addr cnt) as Hsr.
  { intros fc cell addr cnt. unfold spec_read, store_read.
    destruct (Heq fc) as [d1 d2 Hd|]; [|done].
    by rewrite (dev_all_proper _ _ _ Hd _ _ eq_refl), (dev_words_proper _ _ Hd _ _ eq_refl). }
  destruct rq; simpl in Hrd |- *; try done; by rewrite Hsr.
Qed.

(** A request to one slave never changes what another slave answers to a
    read, in any table. *)
Theorem slaves_are_isolated slave slave' rq rq' verbose ps s s' res :
  wf s → request_wf rq → request_wf rq' → slave' ≠ slave → is_read rq' = true →
  handle_request slave rq verbose ps s = Ret (res, s') →
  ∃ s1 s2 r, handle_request slave' rq' verbose false s = Ret (r, s1) ∧
    handle_request slave' rq' verbose false s' = Ret (r, s2).
Proof.
  intros Hwf Hrq Hrq' Hne Hrd Hh.
  destruct (handle_request_spec slave rq verbose ps s Hwf Hrq)
    as (s0 & lines & Hh' & [(Hwf' & _ & Heq) _] & _).
  rewrite Hh in Hh'. injection Hh' as _ <-.
  destruct (handle_request_spec slave' rq' verbose false s Hwf Hrq') as (s1 & l1 & H1 & _).
  destruct (handle_request_spec slave' rq' verbose false s' Hwf' Hrq') as (s2 & l2 & H2 & _).
  exists s1, s2, (spec_request (abs s) slave' rq' false). split; [done|]. rewrite H2.
  unfold spec_request. rewrite (spec_read_slave slave' rq' (abs s') (abs s)); [done|done|].
  intros fc. specialize (Heq (mkKey (from_slave_fn slave' fc))).
  by rewrite spec_answer_other in Heq by (simpl; congruence).
Qed.

(** Registers written with one request are read back by the next: if
    WriteMultipleRegisters is acknowledged and the range was readable, then
    ReadHoldingRegisters of the same range answers exactly the written words. *)
Theorem write_registers_read_back slave a vs verbose ps s s' q :
  wf s → is_uint 16 a → is_uint 16 (Z.of_nat (length vs)) →
  handle_request slave (RQ_WriteMultipleRegisters a vs) verbose ps s =
    Ret (Ok (Some (RS_WriteMultipleRegisters a q)), s') →
  (∃ s1 ws, handle_request slave (RQ_ReadHoldingRegisters a (Z.of_nat (length vs))) verbose ps s =
     Ret (Ok (Some (RS_ReadHoldingRegisters ws)), s1)) →
  q = Z.of_nat (length vs) ∧
  ∃ s2, handle_request slave (RQ_ReadHoldingRegisters a (Z.of_nat (length vs))) verbose ps s' =
    Ret (Ok (Some (RS_ReadHoldingRegisters vs)), s2).
Proof.
  intros Hwf Ha Hl Hw (s1 & ws & Hr).
  set (rd := RQ_ReadHoldingRegisters a (Z.of_nat (length vs))) in *.
  destruct (handle_request_spec slave (RQ_WriteMultipleRegisters a vs) verbose ps s Hwf (conj Ha Hl))
    as (s0 & l0 & Hw' & [(Hwf' & _ & Heq) _] & _).
  rewrite Hw in Hw'. injection Hw' as Hres <-.
  destruct (handle_request_spec slave rd verbose ps s Hwf (conj Ha Hl)) as (s1' & l1 & Hr' & _).
  rewrite Hr in Hr'. injection Hr' as Hrd _.
  destruct (handle_request_spec slave rd verbose ps s' Hwf' (conj Ha Hl)) as (s2 & l2 & -> & _).
  unfold spec_request in *. simpl in Hres, Hrd, Heq |- *. unfold spec_write, spec_read in *.
  change (from_slave_fn slave FC_WriteMultipleRegisters)
    with (from_slave_fn slave FC_ReadHoldingRegisters) in *.
  set (key := mkKey (from_slave_fn slave FC_ReadHoldingRegisters)) in *.
  set (r := mkRange a (a + Z.of_nat (length vs))) in *.
  destruct (store_write (abs s) key CT_Register r vs) as [[u|e] st'] eqn:Es; simpl in *;
    [|by destruct (ps && _)].
  injection Hres as ->. split; [done|]. destruct u.
  apply store_write_Ok in Es as (d & Hd & _ & Hall & ->).
  assert (store_read (abs s') key CT_Register r = Ok vs) as ->; [|by eexists].
  etrans; [apply (store_read_proper _ _ Heq key key eq_refl CT_Register _ eq_refl r r eq_refl)|].
  unfold store_read in *. rewrite Hd in Hrd. rewrite store_set_same.
  destruct (dev_all (λ c, Cell_accepts_read c CT_Register) d r) eqn:Hrall; simpl in Hrd;
    [|by destruct (ps && _)].
  assert (Range_length r = Z.of_nat (length vs)) as Hlen
    by (unfold Range_length, r; simpl; lia).
  rewrite dev_all_store, Hrall, dev_words_store; [done| |done|done|done].
  intros b Hb. apply (proj1 (StoreRefine.dev_all_true _ _ _) Hall) in Hb as (c & -> & _). done.
Qed.
End slave_key.

(** ** Witnesses *)

(** Slave 1 with ten readable and writable holding registers. *)
Definition demo_key : Key SlaveKey := mkKey (mkSlaveKey 1 K_HoldingRegister).

Definition demo_store : Memory (Key SlaveKey) unit :=
  match Memory_add_ranges Memory_default demo_key (CellKind_read_write CT_Register)
          [mkRange 0 6; mkRange 6 10] with
  | Ret (_, m) => m
  | Panic => Memory_default
  end.

Definition demo_srv : SrvState SlaveKey unit unit unit := mkSrvState demo_store [] [].

Lemma demo_srv_wf : wf demo_srv.
Proof.
  unfold wf, demo_srv, demo_store; simpl.
  destruct (Memory_add_ranges_refines (Memory_default : Memory (Key SlaveKey) unit) demo_key
    (CellKind_read_write CT_Register) [mkRange 0 6; mkRange 6 10]) as (m & Heq & Hwf & _).
  - apply Memory_wf_default.
  - repeat constructor; unfold usize_max; simpl; lia.
  - by rewrite Heq.
Qed.

Definition demo_write : RequestPdu := RQ_WriteMultipleRegisters 4 [7; 8; 9].

(** The state after [demo_write]. *)
Definition demo_after : SrvState SlaveKey unit unit unit :=
  match handle_request 1 demo_write true false demo_srv with
  | Ret (_, s) => s
  | Panic => demo_srv
  end.

Lemma server_answers_witness :
  ∃ s' lines, handle_request 1 demo_write true false demo_srv =
      Ret (Ok (Some (RS_WriteMultipleRegisters 4 3)), s') ∧
    ss_log s' = [] ++ received_line 1 demo_write :: lines.
Proof.
  destruct (server_answers 1 demo_write true false demo_srv demo_srv_wf) as (s' & lines & H1 & _ & _ & _ & H2).
  - vm_compute. repeat split; discriminate.
  - exists s', lines. split; [rewrite H1; vm_compute; reflexivity|exact H2].
Defined.

Lemma unmapped_slave_is_silent_witness :
  ∃ s', handle_request 9 demo_write true true demo_srv = Ret (Ok None, s') ∧
    abs s' ≡ abs demo_srv.
Proof.
  apply (unmapped_slave_is_silent 9 demo_write true demo_srv demo_srv_wf).
  - vm_compute. repeat split; discriminate.
  - vm_compute. reflexivity.
Defined.

Lemma slaves_are_isolated_witness :
  ∃ s1 s2 r, handle_request 2 (RQ_ReadHoldingRegisters 4 3) true false demo_srv = Ret (r, s1) ∧
    handle_request 2 (RQ_ReadHoldingRegisters 4 3) true false demo_after = Ret (r, s2).
Proof.
  apply (slaves_are_isolated 1 2 demo_write (RQ_ReadHoldingRegisters 4 3) true false demo_srv
    demo_after (Ok (Some (RS_WriteMultipleRegisters 4 3))) demo_srv_wf).
  - vm_compute. repeat split; discriminate.
  - vm_compute. repeat split; discriminate.
  - discriminate.
  - reflexivity.
  - vm_compute. reflexivity.
Defined.

Lemma write_registers_read_back_witness :
  3 = Z.of_nat 3 ∧
  ∃ s2, handle_request 1 (RQ_ReadHoldingRegisters 4 3) true false demo_after =
    Ret (Ok (Some (RS_ReadHoldingRegisters [7; 8; 9])), s2).
Proof.
  apply (write_registers_read_back 1 4 [7; 8; 9] true false demo_srv demo_after 3 demo_srv_wf).
  - vm_compute. repeat split; discriminate.
  - vm_compute. repeat split; discriminate.
  - vm_compute. reflexivity.
  - exists (@mkSrvState SlaveKey SlaveKey_params unit unit unit demo_store
      [(L_Info, M_ReadReceived "ReadHoldingRegisters" 1 4 7);
       (L_Info, M_ReadOk "ReadHoldingRegisters" 1 4 7)] []), [0; 0; 0].
    vm_compute. reflexivity.
Defined.
