(* ===== verification/ServerRun.v ===== *)
(** * Running a Modbus server

    Models the bind/serve retry loops of [ferrowl-modbus/src/server_core.rs]
    ([run_tcp_family], [run_serial_family]) and [serial_config_from] of
    [common.rs]. What the operating system, the address parser, the TLS builder
    and the protocol library answer during one round of the loop is a record;
    while serving, the library calls the hooks of the service in the order of
    the round's events. *)

From stdpp Require Import base list gmap numbers strings.
From S2P Require Import Prelude BTree Slice Memory Codec Key Channel Backoff Server.

Local Open Scope Z_scope.

(** ** Serial parameters *)

Inductive DataBits := DB_Five | DB_Six | DB_Seven | DB_Eight.
Inductive StopBits := SB_One | SB_Two.
Inductive Parity := PA_Odd | PA_Even | PA_None.

Record SerialConfig := mkSerialConfig {
  sc_baud_rate : Z; sc_data_bits : DataBits; sc_stop_bits : StopBits; sc_parity : Parity
}.

Definition ascii_lower (c : Ascii.ascii) : Ascii.ascii :=
  let n := Ascii.nat_of_ascii c in
  if (65 <=? n)%nat && (n <=? 90)%nat then Ascii.ascii_of_nat (n + 32) else c.

(** [to_lowercase] as far as the comparisons with the ASCII words can see. *)
Fixpoint to_lowercase (s : string) : string :=
  match s with
  | EmptyString => EmptyString
  | String c s' => String (ascii_lower c) (to_lowercase s')
  end.

(** The values each parameter may take. *)
Definition data_bits_from (v : Z) : option DataBits :=
  if v =? 5 then Some DB_Five else if v =? 6 then Some DB_Six
  else if v =? 7 then Some DB_Seven else if v =? 8 then Some DB_Eight else None.

Definition stop_bits_from (v : Z) : option StopBits :=
  if v =? 1 then Some SB_One else if v =? 2 then Some SB_Two else None.

Definition parity_from (v : string) : option Parity :=
  let v := to_lowercase v in
  if String.eqb v "odd" then Some PA_Odd
  else if String.eqb v "even" then Some PA_Even
  else if String.eqb v "none" then Some PA_None else None.

(** A parameter that is not given keeps its default. *)
Definition given {V W} (from : V → option W) (dflt : W) (v : option V) : option W :=
  match v with None => Some dflt | Some v => from v end.

Section serial.
Context {RE : Type} (default_config : SerialConfig).

Definition serial_config_from (baud_rate : Z) (data_bits stop_bits : option Z)
    (parity : option string) : Result SerialConfig (SerialError RE) :=
  match given data_bits_from (sc_data_bits default_config) data_bits with
  | None => Err (SERR_Configuration "Invalid data bits specified")
  | Some data =>
      match given stop_bits_from (sc_stop_bits default_config) stop_bits with
      | None => Err (SERR_Configuration "Invalid stop bits specified")
      | Some stop =>
          match given parity_from (sc_parity default_config) parity with
          | None => Err (SERR_Configuration "Invalid parity specified")
          | Some par => Ok (mkSerialConfig baud_rate data stop par)
          end
      end
  end.
End serial.

(** ** Lines and rounds *)

(** What a run logs: the service's lines and its own. The target of a failure
    is an address or a serial path. *)
Inductive RunMsg (P A RE : Type) :=
| RM_Service (msg : SrvMsg P RE)
| RM_BindFailed (target : A) (e : RE)
| RM_Listening (target : A)
| RM_SerialOpenFailed (path : string) (e : RE)
| RM_SerialOpened (path : string)
| RM_ServeFailed (target : A + string) (e : option RE)
| RM_TlsFallback
| RM_PathInUse (path other : string).
Arguments RM_Service {P A RE}.
Arguments RM_BindFailed {P A RE}.
Arguments RM_Listening {P A RE}.
Arguments RM_SerialOpenFailed {P A RE}.
Arguments RM_SerialOpened {P A RE}.
Arguments RM_ServeFailed {P A RE}.
Arguments RM_TlsFallback {P A RE}.
Arguments RM_PathInUse {P A RE}.

Section run.
Context {T : Type} `{KeyParams T} {Tap P A AE TLE RE : Type}.
Context (listener_failure : RE → option ListenerFailure).

(** What the protocol library calls while it serves. *)
Inductive HookEvent :=
| HE_Request (slave : UnitId) (request : RequestPdu)
| HE_Connect (peer : option P)
| HE_Disconnect (peer : option P)
| HE_AcceptError (e : RE)
| HE_ReceiveError (e : RE)
| HE_Error (e : RE).

Definition serve_hook (self : Service T Tap P RE) (ev : HookEvent)
  : Outcome (Service T Tap P RE) :=
  match ev with
  | HE_Request slave request => '(_, self) ← on_request self slave request; Ret self
  | HE_Connect peer => Ret (on_connect self peer)
  | HE_Disconnect peer => Ret (on_disconnect self peer)
  | HE_AcceptError e => Ret (on_accept_error listener_failure self e).2
  | HE_ReceiveError e => Ret (on_receive_error listener_failure self e).2
  | HE_Error e => Ret (on_error self e)
  end.

Fixpoint serve_hooks (self : Service T Tap P RE) (evs : list HookEvent)
  : Outcome (Service T Tap P RE) :=
  match evs with
  | [] => Ret self
  | ev :: evs' => self ← serve_hook self ev; serve_hooks self evs'
  end.

(** The TLS policy of a round: none, or what [build_server_tls_config] answers
    for it (with whether it fell back to an ephemeral certificate). *)
Inductive TlsSetup := TLS_None | TLS_Build (result : Result bool TLE).

(** The serving part of a round: the hooks called, and the [select!] that ends
    it with the serving future's result. *)
Record Serving := mkServing {
  sg_hooks : list HookEvent;
  sg_end : RaceEvent;
  sg_result : Result unit RE
}.

Record TcpRound := mkTcpRound {
  tr_reconnect : bool;
  tr_addr : Result A AE;
  tr_tls : TlsSetup;
  tr_race : list RaceEvent;
  tr_bind : Result (Result A RE) RE;
  tr_serving : Serving;
  tr_wait : RaceEvent
}.

Record SerialRound := mkSerialRound {
  sr_reconnect : bool;
  sr_baud_rate : Z;
  sr_data_bits : option Z;
  sr_stop_bits : option Z;
  sr_parity : option string;
  sr_path : string;
  sr_expanded : string;
  sr_conflict : option string;
  sr_race : list RaceEvent;
  sr_open : Result unit RE;
  sr_serving : Serving;
  sr_wait : RaceEvent
}.

(** The task: the shared store with its taps, the log and status lines, the
    published address or open flag, the command channel, and what the
    environment still does. *)
Record RunState (Rd : Type) := mkRunState {
  rs_memory : Memory (Key T) Tap;
  rs_taps : list (TapCall (Key T) Tap);
  rs_log : list (Level * RunMsg P A RE);
  rs_stopped : bool;
  rs_bound : option A;
  rs_open : bool;
  rs_receiver : Receiver ServerCommand;
  rs_wait : RaceEvent;
  rs_rounds : list Rd
}.
Arguments mkRunState {Rd}.
Arguments rs_memory {Rd}.
Arguments rs_taps {Rd}.
Arguments rs_log {Rd}.
Arguments rs_stopped {Rd}.
Arguments rs_bound {Rd}.
Arguments rs_open {Rd}.
Arguments rs_receiver {Rd}.
Arguments rs_wait {Rd}.
Arguments rs_rounds {Rd}.

Section updates.
Context {Rd : Type}.
Implicit Types (s : RunState Rd).

Definition rs_say s (level : Level) (msg : RunMsg P A RE) : RunState Rd :=
  mkRunState (rs_memory s) (rs_taps s) (rs_log s ++ [(level, msg)]) (rs_stopped s) (rs_bound s)
    (rs_open s) (rs_receiver s) (rs_wait s) (rs_rounds s).

Definition rs_set_receiver s (receiver : Receiver ServerCommand) : RunState Rd :=
  mkRunState (rs_memory s) (rs_taps s) (rs_log s) (rs_stopped s) (rs_bound s) (rs_open s)
    receiver (rs_wait s) (rs_rounds s).

Definition rs_set_bound s (bound : option A) : RunState Rd :=
  mkRunState (rs_memory s) (rs_taps s) (rs_log s) (rs_stopped s) bound (rs_open s)
    (rs_receiver s) (rs_wait s) (rs_rounds s).

Definition rs_set_open s (open_ : bool) : RunState Rd :=
  mkRunState (rs_memory s) (rs_taps s) (rs_log s) (rs_stopped s) (rs_bound s) open_
    (rs_receiver s) (rs_wait s) (rs_rounds s).

(** The status line the task ends with. *)
Definition rs_stop s : RunState Rd :=
  mkRunState (rs_memory s) (rs_taps s) (rs_log s) true (rs_bound s) (rs_open s)
    (rs_receiver s) (rs_wait s) (rs_rounds s).

Definition rs_next s (wait : RaceEvent) (rounds : list Rd) : RunState Rd :=
  mkRunState (rs_memory s) (rs_taps s) (rs_log s) (rs_stopped s) (rs_bound s) (rs_open s)
    (rs_receiver s) wait rounds.

(** Serving with a fresh [Service] over the shared store, until
    [drive_serve] ends; the activity flag is the one the service raised. *)
Definition rs_serve s (verbose physical_serial : bool) (reset_on : ResetOn) (sg : Serving)
  : Outcome (ServeEnd RE * bool * RunState Rd) :=
  let self := with_reset_on
    (Service_new (mkSrvState (rs_memory s) [] (rs_taps s)) verbose physical_serial)
    false reset_on in
  self ← serve_hooks self (sg_hooks sg);
  let st := sv_state self in
  let '(end_, receiver) := drive_serve (sg_result sg) (sg_end sg) (rs_receiver s) in
  Ret (end_, sv_activity self,
       mkRunState (ss_memory st) (ss_taps st)
         (rs_log s ++ ((λ l : Level * SrvMsg P RE, (l.1, RM_Service l.2)) <$> ss_log st))
         (rs_stopped s) (rs_bound s) (rs_open s) receiver (rs_wait s) (rs_rounds s)).
End updates.

Abbreviation Err_t := (Error AE TLE RE).

(** ** The TCP family *)

(** From the bind race on; shared text of the plain and the TLS branch. *)
Definition bind_and_serve (verbose physical_serial : bool) (rd : TcpRound) (addr : A)
    (s : RunState TcpRound) : Outcome (option (AttemptOutcome Err_t) * RunState TcpRound) :=
  let reconnect := tr_reconnect rd in
  match race_terminate (tr_bind rd) (λ _, true) (tr_race rd) (rs_receiver s) [] with
  | (None, receiver, _) => Ret (None, rs_set_receiver s receiver)
  | (Some None, receiver, _) => Ret (Some AO_Done, rs_set_receiver s receiver)
  | (Some (Some (Err e)), receiver, _) =>
      let s := rs_say (rs_set_receiver s receiver) L_Error (RM_BindFailed addr e) in
      Ret (Some (AO_Failed (ER_Server e) reconnect false), s)
  | (Some (Some (Ok local_addr)), receiver, _) =>
      let s := rs_set_receiver s receiver in
      match local_addr with
      | Err e => Ret (Some (AO_Failed (ER_Server e) reconnect false), s)
      | Ok bound =>
          let s := rs_say (rs_set_bound s (Some bound)) L_Info (RM_Listening bound) in
          '(end_, activity, s) ← rs_serve s verbose physical_serial RO_Connect (tr_serving rd);
          let s := rs_set_bound s None in
          match end_ with
          | SE_Terminated | SE_Ended => Ret (Some AO_Done, s)
          | SE_Failed e =>
              let s := rs_say s L_Error (RM_ServeFailed (inl addr) (Some e)) in
              Ret (Some (AO_Failed (ER_Server e) reconnect activity), s)
          end
      end
  end.

(** The closure [attempt] of [run_tcp_family]. *)
Definition tcp_attempt (verbose physical_serial : bool) (s : RunState TcpRound)
  : Outcome (option (AttemptOutcome Err_t) * RunState TcpRound) :=
  match rs_rounds s with
  | [] => Ret (None, s)
  | rd :: rounds =>
      let s := rs_next s (tr_wait rd) rounds in
      match tr_addr rd with
      | Err e => Ret (Some (AO_Failed (ER_Tcp (TE_Address e)) false false), s)
      | Ok addr =>
          match tr_tls rd with
          | TLS_None => bind_and_serve verbose physical_serial rd addr s
          | TLS_Build (Err e) => Ret (Some (AO_Failed (ER_Tcp (TE_Tls e)) false false), s)
          | TLS_Build (Ok used_fallback) =>
              let s := if used_fallback then rs_say s L_Info RM_TlsFallback else s in
              bind_and_serve verbose physical_serial rd addr s
          end
      end
  end.

(** The closure [wait_abortable] of both families. *)
Definition run_wait {Rd} (backoff : Z) (s : RunState Rd) : bool * RunState Rd :=
  let '(aborted, receiver) := wait_reconnect_backoff (rs_wait s) (rs_receiver s) in
  (aborted, rs_set_receiver s receiver).

(** The task's end. *)
Definition run_finish {Rd} (res : option (Result unit Err_t) * RunState Rd)
  : Outcome (option (Result unit Err_t) * RunState Rd) :=
  match res with
  | (Some r, s) => Ret (Some r, rs_stop s)
  | (None, s) => Ret (None, s)
  end.

Definition run_tcp_family (verbose physical_serial : bool) (fuel : nat) (s : RunState TcpRound)
  : Outcome (option (Result unit Err_t) * RunState TcpRound) :=
  res ← run_with_backoff (tcp_attempt verbose physical_serial) run_wait BackoffPolicy_default
          fuel s;
  run_finish res.

(** ** The serial family *)

Context (default_config : SerialConfig) (unexpected_eof : RE).

(** The closure [attempt] of [run_serial_family]. *)
Definition serial_attempt (verbose physical_serial : bool) (s : RunState SerialRound)
  : Outcome (option (AttemptOutcome Err_t) * RunState SerialRound) :=
  match rs_rounds s with
  | [] => Ret (None, s)
  | rd :: rounds =>
      let s := rs_next s (sr_wait rd) rounds in
      let reconnect := sr_reconnect rd in
      match serial_config_from default_config (sr_baud_rate rd) (sr_data_bits rd)
              (sr_stop_bits rd) (sr_parity rd) with
      | Err e => Ret (Some (AO_Failed (ER_Serial e) false false), s)
      | Ok _ =>
          match sr_conflict rd with
          | Some other =>
              let s := rs_say s L_Warning (RM_PathInUse (sr_expanded rd) other) in
              Ret (Some (AO_Failed (ER_PathConflict (sr_expanded rd) other) reconnect false), s)
          | None =>
              match race_terminate (sr_open rd) (λ _, true) (sr_race rd) (rs_receiver s) [] with
              | (None, receiver, _) => Ret (None, rs_set_receiver s receiver)
              | (Some None, receiver, _) => Ret (Some AO_Done, rs_set_receiver s receiver)
              | (Some (Some (Err e)), receiver, _) =>
                  let s := rs_say (rs_set_receiver s receiver) L_Error
                             (RM_SerialOpenFailed (sr_path rd) e) in
                  Ret (Some (AO_Failed (ER_Serial (SERR_Error e)) reconnect false), s)
              | (Some (Some (Ok _)), receiver, _) =>
                  let s := rs_set_open (rs_set_receiver s receiver) true in
                  let s := rs_say s L_Info (RM_SerialOpened (sr_path rd)) in
                  '(end_, activity, s) ←
                    rs_serve s verbose physical_serial RO_Request (sr_serving rd);
                  let s := rs_set_open s false in
                  match end_ with
                  | SE_Terminated => Ret (Some AO_Done, s)
                  | SE_Ended =>
                      let s := rs_say s L_Error (RM_ServeFailed (inr (sr_path rd)) None) in
                      Ret (Some (AO_Failed (ER_Server unexpected_eof) reconnect activity), s)
                  | SE_Failed e =>
                      let s := rs_say s L_Error (RM_ServeFailed (inr (sr_path rd)) (Some e)) in
                      Ret (Some (AO_Failed (ER_Server e) reconnect activity), s)
                  end
              end
          end
      end
  end.

Definition run_serial_family (verbose physical_serial : bool) (fuel : nat)
    (s : RunState SerialRound) : Outcome (option (Result unit Err_t) * RunState SerialRound) :=
  res ← run_with_backoff (serial_attempt verbose physical_serial) run_wait
          BackoffPolicy_default fuel s;
  run_finish res.
End run.

Arguments HookEvent : clear implicits.
Arguments Serving : clear implicits.
Arguments TcpRound : clear implicits.
Arguments SerialRound : clear implicits.
Arguments RunState T {_} Tap P A RE Rd.
Arguments mkRunState {_ _ _ _ _ _ _}.
Arguments rs_memory {_ _ _ _ _ _ _}.
Arguments rs_taps {_ _ _ _ _ _ _}.
Arguments rs_log {_ _ _ _ _ _ _}.
Arguments rs_stopped {_ _ _ _ _ _ _}.
Arguments rs_bound {_ _ _ _ _ _ _}.
Arguments rs_open {_ _ _ _ _ _ _}.
Arguments rs_receiver {_ _ _ _ _ _ _}.
Arguments rs_wait {_ _ _ _ _ _ _}.
Arguments rs_rounds {_ _ _ _ _ _ _}.
