(* ===== verification/ServerRunProps.v ===== *)
(** * Properties of a running Modbus server

    The bind/serve loop never panics, reports its end, retries only what a
    retry can fix, and counts an attempt as successful (restarting the backoff)
    exactly when the transport's own sign of activity was seen. *)

From stdpp Require Import base list gmap numbers strings.
From S2P Require Import Prelude BTree Slice Memory MemorySpec Store StoreRefine.
From S2P Require Import Codec Key Channel Backoff Server ServerSpec ServerProps ServerRun.

Local Open Scope Z_scope.

Section props.
Context {T : Type} `{KeyParams T} {Tap P A AE TLE RE : Type}.
Context (listener_failure : RE → option ListenerFailure).

Implicit Types (self : Service T Tap P RE) (ev : HookEvent P RE) (sg : Serving P RE).

(** ** Serving *)

Definition hook_wf ev : Prop :=
  match ev with HE_Request _ request => request_wf request | _ => True end.

(** What counts as activity for the transport. *)
Definition is_active (reset_on : ResetOn) ev : bool :=
  match ev, reset_on with
  | HE_Connect _, RO_Connect => true
  | HE_Request _ _, RO_Request => true
  | _, _ => false
  end.

Lemma serve_hook_spec self ev :
  wf (sv_state self) → hook_wf ev →
  ∃ self', serve_hook listener_failure self ev = Ret self' ∧ wf (sv_state self') ∧
    sv_reset_on self' = sv_reset_on self ∧
    sv_activity self' = sv_activity self || is_active (sv_reset_on self) ev.
Proof.
  intros Hwf Hev. destruct ev as [slave rq|peer|peer|e|e|e]; simpl.
  - unfold on_request.
    destruct (handle_request_spec slave rq (sv_verbose self) (sv_physical_serial self)
      (sv_state self) Hwf Hev) as (s' & lines & Heq & [(Hwf' & _) _] & _).
    simpl. rewrite Heq. cbn [mbind outcome_bind]. eexists. split; [done|]. simpl.
    destruct (sv_reset_on self) eqn:Hr; simpl; by rewrite ?Hr, ?orb_true_r, ?orb_false_r.
  - eexists. split; [done|]. unfold on_connect, run_log.
    destruct (sv_reset_on self) eqn:Hr, peer; simpl; by rewrite ?Hr, ?orb_true_r, ?orb_false_r.
  - eexists. split; [done|]. destruct peer; simpl; by rewrite ?orb_false_r.
  - eexists. split; [done|]. unfold on_accept_error.
    destruct (listener_failure e) as [[]|]; simpl; by rewrite ?orb_false_r.
  - eexists. split; [done|]. unfold on_receive_error.
    destruct (listener_failure e) as [[]|]; simpl; by rewrite ?orb_false_r.
  - eexists. split; [done|]. unfold on_error. simpl.
    destruct (sv_verbose self); simpl; by rewrite ?orb_false_r.
Qed.

Lemma serve_hooks_spec self evs :
  wf (sv_state self) → Forall hook_wf evs →
  ∃ self', serve_hooks listener_failure self evs = Ret self' ∧ wf (sv_state self') ∧
    sv_activity self' = sv_activity self || existsb (is_active (sv_reset_on self)) evs.
Proof.
  intros Hwf Hevs. revert self Hwf. induction Hevs as [|ev evs Hev _ IH]; intros self Hwf; simpl.
  { exists self. by rewrite orb_false_r. }
  destruct (serve_hook_spec self ev Hwf Hev) as (self1 & -> & Hwf1 & Hr & Ha).
  cbn [mbind outcome_bind]. destruct (IH self1 Hwf1) as (self2 & -> & Hwf2 & Ha2).
  exists self2. split_and!; [done|done|]. by rewrite Ha2, Ha, Hr, orb_assoc.
Qed.

(** One round of serving. *)
Lemma rs_serve_spec {Rd} (s : RunState T Tap P A RE Rd) verbose physical_serial reset_on sg :
  Memory_wf (rs_memory s) → Forall hook_wf (sg_hooks sg) →
  ∃ s', rs_serve listener_failure s verbose physical_serial reset_on sg =
      Ret ((drive_serve (sg_result sg) (sg_end sg) (rs_receiver s)).1,
           existsb (is_active reset_on) (sg_hooks sg), s') ∧
    Memory_wf (rs_memory s') ∧ rs_bound s' = rs_bound s ∧ rs_open s' = rs_open s ∧
    rs_stopped s' = rs_stopped s ∧ rs_rounds s' = rs_rounds s.
Proof.
  intros Hwf Hh. unfold rs_serve.
  destruct (serve_hooks_spec (with_reset_on
    (Service_new (mkSrvState (rs_memory s) [] (rs_taps s)) verbose physical_serial) false reset_on)
    (sg_hooks sg)) as (self & -> & Hwf' & Ha); [done|done|].
  simpl in Ha. cbn [mbind outcome_bind]. rewrite Ha.
  destruct (drive_serve _ _ _) as [end_ receiver]. eexists. split; [done|]. done.
Qed.

(** ** The loops *)

Lemma race_abandoned {X C} (fut : X) (is_terminate : C → bool) schedule receiver parked r p :
  race_terminate fut is_terminate schedule receiver parked = (Some None, r, p) →
  RC_Recv ∈ schedule.
Proof.
  revert receiver parked. induction schedule as [|[] schedule IH]; intros receiver parked; simpl;
    [done|done|]. intros _. apply list_elem_of_here.
Qed.

Lemma race_output {X C} (fut out : X) (is_terminate : C → bool) schedule receiver parked r p :
  race_terminate fut is_terminate schedule receiver parked = (Some (Some out), r, p) → out = fut.
Proof.
  intros Heq. destruct (race_terminate_spec fut is_terminate schedule receiver parked)
    as (taken & _ & Hspec). rewrite Heq in Hspec. apply Hspec.
Qed.


Definition tcp_ok (s : RunState T Tap P A RE (TcpRound P A AE TLE RE)) : Prop :=
  Memory_wf (rs_memory s) ∧ rs_bound s = None ∧
  Forall (λ rd, Forall hook_wf (sg_hooks (tr_serving rd))) (rs_rounds s).

Definition serial_ok (s : RunState T Tap P A RE (SerialRound P RE)) : Prop :=
  Memory_wf (rs_memory s) ∧ rs_open s = false ∧
  Forall (λ rd, Forall hook_wf (sg_hooks (sr_serving rd))) (rs_rounds s).

(** Whether a failed round starts the backoff over: only if it came to serving. *)
Definition tcp_reset (rd : TcpRound P A AE TLE RE) : bool :=
  match tr_bind rd with
  | Ok (Ok _) => existsb (is_active RO_Connect) (sg_hooks (tr_serving rd))
  | _ => false
  end.

Definition serial_reset (rd : SerialRound P RE) : bool :=
  match sr_conflict rd, sr_open rd with
  | None, Ok _ => existsb (is_active RO_Request) (sg_hooks (sr_serving rd))
  | _, _ => false
  end.

(** The outcomes a TCP round may have: a malformed address or TLS setup is
    final whatever the reconnect setting; a failed bind follows the setting
    and never restarts the backoff; a failure while serving follows it and
    restarts the backoff exactly if a connection was accepted. *)
Definition tcp_outcome (rd : TcpRound P A AE TLE RE) (out : AttemptOutcome (Error AE TLE RE))
    : Prop :=
  match out with
  | AO_Done => True
  | AO_Failed e reconnect reset =>
      match tr_addr rd, tr_tls rd with
      | Err _, _ | _, TLS_Build (Err _) => reconnect = false ∧ reset = false
      | _, _ =>
          reconnect = tr_reconnect rd ∧ reset = tcp_reset rd
      end
  end.

Lemma bind_and_serve_spec verbose physical_serial rd addr s :
  tcp_ok s → Forall hook_wf (sg_hooks (tr_serving rd)) →
  ∃ out s', bind_and_serve (TLE := TLE) (AE := AE) listener_failure verbose physical_serial rd addr s =
      Ret (out, s') ∧ tcp_ok s' ∧
  match out with
  | Some (AO_Failed e reconnect reset) =>
      reconnect = tr_reconnect rd ∧ reset = tcp_reset rd
  | _ => True
  end.
Proof.
  intros (Hm & Hb & Hr) Hrd. unfold bind_and_serve.
  destruct (race_terminate _ _ _ _ _) as [[[[out|]|] receiver] parked] eqn:Hrace;
    try (by do 2 eexists; split; [done|]).
  apply race_output in Hrace as ->. unfold tcp_reset.
  destruct (tr_bind rd) as [[bound|e]|e]; try (by do 2 eexists; split; [done|]).
  set (s1 := rs_say _ _ _).
  destruct (rs_serve_spec s1 verbose physical_serial RO_Connect (tr_serving rd))
    as (s2 & -> & Hm2 & _ & _ & _ & Hrounds); [done|done|].
  cbn [mbind outcome_bind]. unfold drive_serve.
  destruct (sg_end _) eqn:Hend.
  - destruct (sg_result _) as [u|e]; simpl; do 2 eexists; (split; [done|]).
    + split; [|done]. split; [done|]. split; [done|]. simpl. by rewrite Hrounds.
    + split; [|done]. split; [done|]. split; [done|]. simpl. by rewrite Hrounds.
  - destruct (recv _) as [[[]|] r]; simpl; do 2 eexists; (split; [done|]);
      (split; [|done]); (split; [done|]); (split; [done|]); simpl; by rewrite Hrounds.
Qed.

Lemma tcp_attempt_spec verbose physical_serial s :
  tcp_ok s →
  ∃ out s', tcp_attempt listener_failure verbose physical_serial s = Ret (out, s') ∧ tcp_ok s' ∧
  match out, rs_rounds s with
  | Some out, rd :: _ => tcp_outcome rd out
  | Some _, [] => False
  | None, _ => True
  end.
Proof.
  intros Hok. unfold tcp_attempt. destruct (rs_rounds s) as [|rd rounds] eqn:Hrs.
  { by do 2 eexists. }
  destruct Hok as (Hm & Hb & Hr). rewrite Hrs in Hr. apply Forall_cons in Hr as [Hrd Hr].
  unfold tcp_outcome. destruct (tr_addr rd) as [addr|e]; [|by do 2 eexists].
  assert (∀ s0, tcp_ok s0 → ∃ out s',
    bind_and_serve (TLE := TLE) (AE := AE) listener_failure verbose physical_serial rd addr s0 =
      Ret (out, s') ∧ tcp_ok s' ∧
    match out with
    | Some (AO_Failed e reconnect reset) =>
        reconnect = tr_reconnect rd ∧ reset = tcp_reset rd
    | _ => True
    end) as Hbs by (intros; by apply bind_and_serve_spec).
  destruct (tr_tls rd) as [|[used_fallback|e]]; [| |by do 2 eexists].
  - destruct (Hbs (rs_next s (tr_wait rd) rounds)) as (out & s' & -> & Hok' & Hout); [done|].
    exists out, s'. split_and!; [done|done|]. by destruct out as [[]|].
  - destruct (Hbs (if used_fallback then rs_say (rs_next s (tr_wait rd) rounds) L_Info RM_TlsFallback
      else rs_next s (tr_wait rd) rounds)) as (out & s' & -> & Hok' & Hout);
      [by destruct used_fallback|].
    exists out, s'. split_and!; [done|done|]. by destruct out as [[]|].
Qed.

Lemma run_wait_ok {Rd} d (s : RunState T Tap P A RE Rd) :
  let '(_, s') := run_wait d s in
  rs_memory s' = rs_memory s ∧ rs_bound s' = rs_bound s ∧ rs_open s' = rs_open s ∧
  rs_rounds s' = rs_rounds s.
Proof. unfold run_wait. by destruct (wait_reconnect_backoff _ _). Qed.

(** The TCP server task never panics, whatever requests and failures the
    network brings; when it ends it has published the stopped status and no
    longer claims a bound address, and its store is well formed. *)
Theorem tcp_task_ends verbose physical_serial fuel s :
  tcp_ok s →
  ∃ res s', run_tcp_family listener_failure verbose physical_serial fuel s = Ret (res, s') ∧
    Memory_wf (rs_memory s') ∧ rs_bound s' = None ∧
    match res with Some _ => rs_stopped s' = true | None => True end.
Proof.
  intros Hok. unfold run_tcp_family, run_with_backoff.
  destruct (backoff_loop_total (tcp_attempt listener_failure verbose physical_serial) run_wait
    tcp_ok) with (policy := BackoffPolicy_default) (fuel := fuel) (backoff := bp_initial BackoffPolicy_default) (s := s)
    as (res & s' & -> & Hm & Hb & Hr); [|done|apply policy_default_ok|by left|].
  - intros s0 Hs0. destruct (tcp_attempt_spec verbose physical_serial s0 Hs0)
      as (out & s1 & -> & Hs1 & _). exists out, s1. split; [done|]. split; [done|]. intros d.
    pose proof (run_wait_ok d s1) as Hw. destruct (run_wait d s1) as [ab s2].
    destruct Hs1 as (Hm1 & Hb1 & Hr1), Hw as (Hm2 & Hb2 & _ & Hr2). simpl.
    unfold tcp_ok. by rewrite Hm2, Hb2, Hr2.
  - cbn [mbind outcome_bind]. destruct res; do 2 eexists; split; done.
Qed.

(** Which failures a TCP server retries: a malformed address or TLS setup
    ends the task whatever the reconnect setting; any other failure follows
    the setting, and the backoff starts over exactly if the bind succeeded and
    a connection was accepted before serving failed. *)
Theorem tcp_retry_policy verbose physical_serial s rd rounds out s' :
  tcp_ok s → rs_rounds s = rd :: rounds →
  tcp_attempt listener_failure verbose physical_serial s = Ret (Some out, s') →
  tcp_outcome rd out.
Proof.
  intros Hok Hrs Hat. destruct (tcp_attempt_spec verbose physical_serial s Hok)
    as (out' & s1 & Heq & _ & Hout).
  rewrite Hat in Heq. injection Heq as <- <-. by rewrite Hrs in Hout.
Qed.

(** ** The serial family *)

Context (default_config : SerialConfig) (unexpected_eof : RE).

Abbreviation serial_step := (serial_attempt (AE := AE) (TLE := TLE) listener_failure
  default_config unexpected_eof).

(** The outcomes a serial round may have: invalid parameters are final; a link
    that ended by itself is a failure; the backoff starts over exactly if a
    request was read. *)
Definition serial_outcome (rd : SerialRound P RE) (out : AttemptOutcome (Error AE TLE RE)) : Prop :=
  match serial_config_from default_config (sr_baud_rate rd) (sr_data_bits rd)
          (sr_stop_bits rd) (sr_parity rd) with
  | Err e => out = AO_Failed (ER_Serial e) false false
  | Ok _ =>
      match out with
      | AO_Done => RC_Recv ∈ sr_race rd ∨ sg_end (sr_serving rd) = RC_Recv
      | AO_Failed e reconnect reset =>
          reconnect = sr_reconnect rd ∧ reset = serial_reset rd
      end
  end.

Lemma serial_attempt_spec verbose physical_serial s :
  serial_ok s →
  ∃ out s', serial_step verbose physical_serial s = Ret (out, s') ∧ serial_ok s' ∧
  match out, rs_rounds s with
  | Some out, rd :: _ => serial_outcome rd out
  | Some _, [] => False
  | None, _ => True
  end.
Proof.
  intros Hok. unfold serial_attempt. destruct (rs_rounds s) as [|rd rounds] eqn:Hrs.
  { by do 2 eexists. }
  destruct Hok as (Hm & Ho & Hr). rewrite Hrs in Hr. apply Forall_cons in Hr as [Hrd Hr].
  unfold serial_outcome, serial_reset.
  destruct (serial_config_from _ _ _ _ _) as [cfg|e]; [|by do 2 eexists].
  destruct (sr_conflict rd) as [other|]; [by do 2 eexists|].
  destruct (race_terminate _ _ _ _ _) as [[[[out|]|] receiver] parked] eqn:Hrace;
    [apply race_output in Hrace as ->| |by do 2 eexists].
  2:{ do 2 eexists. split; [done|]. split; [done|]. left. by eapply race_abandoned. }
  destruct (sr_open rd) as [u|e]; [|by do 2 eexists].
  set (s1 := rs_say _ _ _).
  destruct (rs_serve_spec s1 verbose physical_serial RO_Request (sr_serving rd))
    as (s2 & -> & Hm2 & _ & _ & _ & Hrounds); [done|done|].
  cbn [mbind outcome_bind].
  assert (∀ b level msg, serial_ok (rs_set_open s2 false) ∧
    serial_ok (rs_say (rs_set_open s2 b) level msg) = serial_ok (rs_set_open s2 b)) as Hs2.
  { intros. split; [|done]. split; [done|]. split; [done|]. simpl. by rewrite Hrounds. }
  pose proof (proj1 (Hs2 false L_Info RM_TlsFallback)) as Hs3. clear Hs2.
  unfold drive_serve. destruct (sg_end _) eqn:Hend.
  - destruct (sg_result _) as [u'|e]; simpl; by do 2 eexists.
  - destruct (recv _) as [[[]|] r]; simpl; do 2 eexists; (split; [done|]);
      (split; [done|by right]).
Qed.

(** The serial server task never panics; when it ends it has published the
    stopped status and no longer claims an open port. *)
Theorem serial_task_ends verbose physical_serial fuel s :
  serial_ok s →
  ∃ res s', run_serial_family (AE := AE) (TLE := TLE) listener_failure default_config
      unexpected_eof verbose physical_serial fuel s = Ret (res, s') ∧
    Memory_wf (rs_memory s') ∧ rs_open s' = false ∧
    match res with Some _ => rs_stopped s' = true | None => True end.
Proof.
  intros Hok. unfold run_serial_family, run_with_backoff.
  destruct (backoff_loop_total (serial_step verbose physical_serial) run_wait
    serial_ok) with (policy := BackoffPolicy_default) (fuel := fuel) (backoff := bp_initial BackoffPolicy_default) (s := s)
    as (res & s' & -> & Hm & Ho & Hr); [|done|apply policy_default_ok|by left|].
  - intros s0 Hs0. destruct (serial_attempt_spec verbose physical_serial s0 Hs0)
      as (out & s1 & -> & Hs1 & _). exists out, s1. split; [done|]. split; [done|]. intros d.
    pose proof (run_wait_ok d s1) as Hw. destruct (run_wait d s1) as [ab s2].
    destruct Hs1 as (Hm1 & Ho1 & Hr1), Hw as (Hm2 & _ & Ho2 & Hr2). simpl.
    unfold serial_ok. by rewrite Hm2, Ho2, Hr2.
  - cbn [mbind outcome_bind]. destruct res; do 2 eexists; split; done.
Qed.

(** Which failures a serial server retries: invalid line parameters end the
    task whatever the reconnect setting; everything else, a link that ends by
    itself included, is retried as the setting says, with the backoff starting
    over exactly if the port was opened and a request was read; and only a
    terminate command (or the closed channel) ends the round as done. *)
Theorem serial_retry_policy verbose physical_serial s rd rounds out s' :
  serial_ok s → rs_rounds s = rd :: rounds →
  serial_step verbose physical_serial s = Ret (Some out, s') →
  serial_outcome rd out.
Proof.
  intros Hok Hrs Hat. destruct (serial_attempt_spec verbose physical_serial s Hok)
    as (out' & s1 & Heq & _ & Hout).
  rewrite Hat in Heq. injection Heq as <- <-. by rewrite Hrs in Hout.
Qed.
End props.

(** ** Serial parameters *)

(** A parameter's value is one of its domain's. *)
Lemma data_bits_from_spec v :
  match data_bits_from v with
  | Some b => (v, b) ∈ [(5, DB_Five); (6, DB_Six); (7, DB_Seven); (8, DB_Eight)]
  | None => v ∉ [5; 6; 7; 8]
  end.
Proof.
  unfold data_bits_from. repeat (zcase; [subst; set_solver|]).
  set_solver.
Qed.

Lemma stop_bits_from_spec v :
  match stop_bits_from v with
  | Some b => (v, b) ∈ [(1, SB_One); (2, SB_Two)]
  | None => v ∉ [1; 2]
  end.
Proof.
  unfold stop_bits_from. repeat (zcase; [subst; set_solver|]).
  set_solver.
Qed.

Lemma parity_from_spec v :
  match parity_from v with
  | Some p => (to_lowercase v, p) ∈ [("odd", PA_Odd); ("even", PA_Even); ("none", PA_None)]%string
  | None => to_lowercase v ∉ ["odd"; "even"; "none"]%string
  end.
Proof.
  unfold parity_from. generalize (to_lowercase v). intros w.
  destruct (String.eqb_spec w "odd"); [subst; set_solver|].
  destruct (String.eqb_spec w "even"); [subst; set_solver|].
  destruct (String.eqb_spec w "none"); [subst; set_solver|].
  rewrite !not_elem_of_cons. split_and!; (done || apply not_elem_of_nil).
Qed.

(** Serial parameters are accepted exactly when each given one is a value of
    its domain (the parity word in any case), and the configuration then has
    the given values and the defaults for the others. *)
Theorem serial_config_accepts {RE} default_config baud data stop parity :
  match serial_config_from (RE := RE) default_config baud data stop parity with
  | Ok c =>
      sc_baud_rate c = baud ∧
      match data with
      | None => sc_data_bits c = sc_data_bits default_config
      | Some v => (v, sc_data_bits c) ∈ [(5, DB_Five); (6, DB_Six); (7, DB_Seven); (8, DB_Eight)]
      end ∧
      match stop with
      | None => sc_stop_bits c = sc_stop_bits default_config
      | Some v => (v, sc_stop_bits c) ∈ [(1, SB_One); (2, SB_Two)]
      end ∧
      match parity with
      | None => sc_parity c = sc_parity default_config
      | Some v => (to_lowercase v, sc_parity c) ∈
          [("odd", PA_Odd); ("even", PA_Even); ("none", PA_None)]%string
      end
  | Err _ =>
      (∃ v, data = Some v ∧ v ∉ [5; 6; 7; 8]) ∨ (∃ v, stop = Some v ∧ v ∉ [1; 2]) ∨
      (∃ v, parity = Some v ∧ to_lowercase v ∉ ["odd"; "even"; "none"]%string)
  end.
Proof.
  unfold serial_config_from, given.
  destruct data as [d|]; [pose proof (data_bits_from_spec d) as Hd;
    destruct (data_bits_from d)|]; try (left; by exists d);
  (destruct stop as [st|]; [pose proof (stop_bits_from_spec st) as Hst;
    destruct (stop_bits_from st)|]); try (right; left; by exists st);
  (destruct parity as [p|]; [pose proof (parity_from_spec p) as Hp;
    destruct (parity_from p)|]); try (right; right; by exists p); done.
Qed.

(** ** Two example servers *)

(** A bind that fails, then a listener that accepts a peer, answers a write and
    fails, then a terminate while waiting. *)
Definition demo_serving : Serving unit unit :=
  mkServing [HE_Connect (Some tt); HE_Request 1 (RQ_WriteMultipleRegisters 4 [7; 8; 9])]
    RC_Future (Err tt).
Definition demo_tcp_rounds : list (TcpRound unit unit unit unit unit) :=
  [mkTcpRound true (Ok tt) TLS_None [RC_Future] (Err tt) demo_serving RC_Future;
   mkTcpRound true (Ok tt) (TLS_Build (Ok true)) [RC_Future] (Ok (Ok tt)) demo_serving RC_Recv].
Definition demo_tcp : RunState SlaveKey unit unit unit unit (TcpRound unit unit unit unit unit) :=
  mkRunState demo_store [] [] false None false [] RC_Future demo_tcp_rounds.

Definition demo_failure (e : unit) : option ListenerFailure := Some LF_Fatal.

Lemma demo_tcp_ok : tcp_ok demo_tcp.
Proof.
  split; [apply demo_srv_wf|]. split; [done|].
  repeat constructor; unfold is_uint; simpl; lia.
Qed.

Lemma demo_tcp_result :
  match run_tcp_family demo_failure true false 5 demo_tcp with
  | Ret (Some (Ok _), _) => true
  | _ => false
  end = true.
Proof. vm_compute. reflexivity. Qed.

Lemma tcp_task_ends_witness :
  ∃ s', run_tcp_family demo_failure true false 5 demo_tcp = Ret (Some (Ok tt), s') ∧
    rs_bound s' = None ∧ rs_stopped s' = true.
Proof.
  destruct (tcp_task_ends demo_failure true false 5 demo_tcp demo_tcp_ok)
    as (res & s' & Heq & _ & Hb & Hst).
  pose proof demo_tcp_result as Hr. rewrite Heq in Hr.
  destruct res as [[[]|]|]; try discriminate. exists s'. split; [exact Heq|split; [exact Hb|exact Hst]].
Defined.

(** The outcome of the first round. *)
Lemma demo_tcp_first :
  match tcp_attempt demo_failure true false demo_tcp with
  | Ret (Some (AO_Failed _ true false), _) => true
  | _ => false
  end = true.
Proof. vm_compute. reflexivity. Qed.

Lemma tcp_retry_policy_witness :
  ∃ out s', tcp_attempt demo_failure true false demo_tcp = Ret (Some out, s') ∧
    match demo_tcp_rounds with rd :: _ => tcp_outcome rd out | [] => False end.
Proof.
  destruct (tcp_attempt demo_failure true false demo_tcp) as [[[out|] s']|] eqn:Heq;
    pose proof demo_tcp_first as Hr; rewrite Heq in Hr; try discriminate.
  exists out, s'. split; [reflexivity|].
  eapply (tcp_retry_policy demo_failure true false demo_tcp);
    [apply demo_tcp_ok|reflexivity|exact Heq].
Defined.

(** A serial server whose link ends by itself after a request, then a path
    another module holds, then a terminate while waiting. *)
Definition demo_config : SerialConfig := mkSerialConfig 9600 DB_Eight SB_One PA_Even.
Definition demo_serial_rounds : list (SerialRound unit unit) :=
  [mkSerialRound true 19200 (Some 7) (Some 2) (Some "Odd"%string) "/dev/ttyUSB0" "/dev/ttyUSB0"
     None [RC_Future] (Ok tt)
     (mkServing [HE_Request 1 (RQ_ReadHoldingRegisters 0 4)] RC_Future (Ok tt)) RC_Future;
   mkSerialRound true 19200 None None None "~/tty" "/home/me/tty" (Some "PLC"%string)
     [] (Ok tt) demo_serving RC_Recv].
Definition demo_serial : RunState SlaveKey unit unit unit unit (SerialRound unit unit) :=
  mkRunState demo_store [] [] false None false [] RC_Future demo_serial_rounds.

Lemma demo_serial_ok : serial_ok demo_serial.
Proof.
  split; [apply demo_srv_wf|]. split; [done|].
  repeat constructor; unfold is_uint; simpl; lia.
Qed.

Abbreviation demo_serial_attempt :=
  (serial_attempt (AE := unit) (TLE := unit) demo_failure demo_config tt true true demo_serial).
Abbreviation demo_serial_run :=
  (run_serial_family (AE := unit) (TLE := unit) demo_failure demo_config tt true true 5 demo_serial).

Lemma demo_serial_result :
  match demo_serial_run with Ret (Some (Ok _), _) => true | _ => false end = true.
Proof. vm_compute. reflexivity. Qed.

Lemma serial_task_ends_witness :
  ∃ s', demo_serial_run = Ret (Some (Ok tt), s') ∧ rs_open s' = false ∧ rs_stopped s' = true.
Proof.
  destruct (serial_task_ends (AE := unit) (TLE := unit) demo_failure demo_config tt true true 5
    demo_serial demo_serial_ok) as (res & s' & Heq & _ & Ho & Hst).
  pose proof demo_serial_result as Hr. rewrite Heq in Hr.
  destruct res as [[[]|]|]; try discriminate. exists s'. split; [exact Heq|split; [exact Ho|exact Hst]].
Defined.

Lemma demo_serial_first :
  match demo_serial_attempt with Ret (Some (AO_Failed _ true true), _) => true | _ => false end
  = true.
Proof. vm_compute. reflexivity. Qed.

Lemma serial_retry_policy_witness :
  ∃ out s', demo_serial_attempt = Ret (Some out, s') ∧
    match demo_serial_rounds with rd :: _ => serial_outcome demo_config rd out | [] => False end.
Proof.
  destruct demo_serial_attempt as [[[out|] s']|] eqn:Heq;
    pose proof demo_serial_first as Hr; rewrite Heq in Hr; try discriminate.
  exists out, s'. split; [reflexivity|].
  eapply (serial_retry_policy demo_failure demo_config tt true true demo_serial);
    [apply demo_serial_ok|reflexivity|exact Heq].
Defined.
