(* ===== verification/Client.v ===== *)
(** * The Modbus client's poll loop

    Models [ferrowl-modbus/src/client_core.rs]: one read of an operation, the
    poll cycle with its retry counter, the command/tick loop of a connected
    client and the connect-run-backoff loop. The connected device is a
    parameter: what its protocol client answers to a call under a timeout, as a
    function of its state [D]. Log lines keep the values they interpolate, less
    the printed form of a write command. *)

From stdpp Require Import base list gmap numbers strings.
From S2P Require Import Prelude BTree Slice Memory Codec Key Channel Backoff.

Local Open Scope Z_scope.

(** [rust_modbus::Error]: an exception response, or any other failure. *)
Inductive NetError (RE : Type) := NE_Exception (e : ExceptionCode) | NE_Other (e : RE).
Arguments NE_Exception {RE}.
Arguments NE_Other {RE}.

(** The result of a call under [tokio::time::timeout]. *)
Inductive Timed (V RE : Type) := TM_Done (r : Result V (NetError RE)) | TM_Elapsed.
Arguments TM_Done {V RE}.
Arguments TM_Elapsed {V RE}.

Definition MAX_RETRIES : Z := 3.

Definition bits_to_words (bits : list bool) : list Z := (λ b : bool, if b then 1 else 0) <$> bits.

(** [words]: registers are bare words here. *)
Definition words (registers : list Z) : list Z := registers.

Definition classify {V RE} (result : Timed V RE) : Result V (ModbusError RE) :=
  match result with
  | TM_Done (Ok v) => Ok v
  | TM_Done (Err (NE_Exception e)) => Err (ME_Exception e)
  | TM_Done (Err (NE_Other e)) => Err (ME_Error e)
  | TM_Elapsed => Err ME_Timeout
  end.

Definition map_result {A B E} (f : A → B) (r : Result A E) : Result B E :=
  match r with Ok a => Ok (f a) | Err e => Err e end.

Inductive CliMsg (AE TLE RE : Type) :=
| CM_Perform (name : string) (slave : UnitId) (lo hi : Z)
| CM_Broadcast (slave : UnitId)
| CM_MemoryUpdateFailed (name : string) (lo hi : Z)
| CM_Received (name : string) (lo hi : Z) (values : list Z)
| CM_ReadTimedOut (name : string) (lo hi : Z)
| CM_ReadFailed (name : string) (lo hi : Z) (e : RE)
| CM_ReadInvalid (name : string) (lo hi : Z) (e : ExceptionCode)
| CM_WriteOk (label : string)
| CM_WriteRefused (label : string) (word : string) (e : ExceptionCode)
| CM_WriteFailed (label : string) (e : RE)
| CM_WriteTimedOut (label : string)
| CM_Terminated
| CM_CommandDropped
| CM_ConnectFailed (e : Error AE TLE RE) (stopping : bool)
| CM_RunFailed (e : Error AE TLE RE)
| CM_Reconnecting (backoff : Z).
Arguments CM_Perform {AE TLE RE}.
Arguments CM_Broadcast {AE TLE RE}.
Arguments CM_MemoryUpdateFailed {AE TLE RE}.
Arguments CM_Received {AE TLE RE}.
Arguments CM_ReadTimedOut {AE TLE RE}.
Arguments CM_ReadFailed {AE TLE RE}.
Arguments CM_ReadInvalid {AE TLE RE}.
Arguments CM_WriteOk {AE TLE RE}.
Arguments CM_WriteRefused {AE TLE RE}.
Arguments CM_WriteFailed {AE TLE RE}.
Arguments CM_WriteTimedOut {AE TLE RE}.
Arguments CM_Terminated {AE TLE RE}.
Arguments CM_CommandDropped {AE TLE RE}.
Arguments CM_ConnectFailed {AE TLE RE}.
Arguments CM_RunFailed {AE TLE RE}.
Arguments CM_Reconnecting {AE TLE RE}.

Inductive StatusMsg := ST_Connected | ST_Disconnected.

Section client.
Context {T : Type} `{KeyParams T} {Tap AE TLE RE D : Type}.

(** The protocol client: the two kinds of read and the writes, each under a
    timeout in milliseconds, and the framing's broadcast test. *)
Context (net_read_bits : Z → D → UnitId → FunctionCode → Z → Z → Timed (list bool) RE * D).
Context (net_read_words : Z → D → UnitId → FunctionCode → Z → Z → Timed (list Z) RE * D).
Context (net_write : Z → D → Command → Timed unit RE * D).
Context (is_broadcast : UnitId → bool).

Record CliState := mkCliState {
  cs_dev : D;
  cs_memory : Memory (Key T) Tap;
  cs_log : list (Level * CliMsg AE TLE RE);
  cs_status : list StatusMsg;
  cs_taps : list (TapCall (Key T) Tap);
  cs_index : Z;
  cs_retries : Z;
  cs_had_success : bool
}.

Definition cs_with_log (s : CliState) (level : Level) (msg : CliMsg AE TLE RE) : CliState :=
  mkCliState (cs_dev s) (cs_memory s) (cs_log s ++ [(level, msg)]) (cs_status s) (cs_taps s)
    (cs_index s) (cs_retries s) (cs_had_success s).

Definition cs_with_status (s : CliState) (msg : StatusMsg) : CliState :=
  mkCliState (cs_dev s) (cs_memory s) (cs_log s) (cs_status s ++ [msg]) (cs_taps s)
    (cs_index s) (cs_retries s) (cs_had_success s).

Definition cs_with_dev (s : CliState) (d : D) : CliState :=
  mkCliState d (cs_memory s) (cs_log s) (cs_status s) (cs_taps s)
    (cs_index s) (cs_retries s) (cs_had_success s).

Definition cs_with_cursor (s : CliState) (index retries : Z) : CliState :=
  mkCliState (cs_dev s) (cs_memory s) (cs_log s) (cs_status s) (cs_taps s)
    index retries (cs_had_success s).

Definition cs_with_success (s : CliState) : CliState :=
  mkCliState (cs_dev s) (cs_memory s) (cs_log s) (cs_status s) (cs_taps s)
    (cs_index s) (cs_retries s) true.

Definition cs_with_memory (s : CliState) (m : Memory (Key T) Tap)
    (calls : list (TapCall (Key T) Tap)) : CliState :=
  mkCliState (cs_dev s) m (cs_log s) (cs_status s) (cs_taps s ++ calls)
    (cs_index s) (cs_retries s) (cs_had_success s).

(** [u16::try_from]. *)
Definition u16_try_from (z : Z) : option Z := if (0 <=? z) && (z <? 65536) then Some z else None.

(** [ClientCore::read]: the name and the outcome of one operation. *)
Definition client_read (timeout_ms : Z) (s : CliState) (op : Operation)
  : string * Result (list Z) (ModbusError RE) * CliState :=
  let start := r_start (op_range op) in
  let end_ := r_end (op_range op) in
  let slave := op_slave_id op in
  match u16_try_from (end_ - start) with
  | None => ("Unknown"%string, Err (ME_Exception EX_IllegalDataValue), s)
  | Some count =>
      if is_broadcast slave then
        ("Broadcast"%string, Err (ME_Exception EX_IllegalDataAddress),
         cs_with_log s L_Warning (CM_Broadcast slave))
      else
        match u16_try_from start with
        | None => ("Unknown"%string, Err (ME_Exception EX_IllegalDataValue), s)
        | Some address =>
            let bits (name : string) :=
              let s := cs_with_log s L_Info (CM_Perform name slave start end_) in
              let '(res, d) := net_read_bits timeout_ms (cs_dev s) slave (op_fn_code op) address count in
              (name, map_result bits_to_words (classify res), cs_with_dev s d) in
            let regs (name : string) :=
              let s := cs_with_log s L_Info (CM_Perform name slave start end_) in
              let '(res, d) := net_read_words timeout_ms (cs_dev s) slave (op_fn_code op) address count in
              (name, map_result words (classify res), cs_with_dev s d) in
            match op_fn_code op with
            | FC_ReadCoils => bits "ReadCoils"%string
            | FC_ReadDiscreteInputs => bits "ReadDiscreteInputs"%string
            | FC_ReadInputRegisters => regs "ReadInputRegisters"%string
            | FC_ReadHoldingRegisters => regs "ReadHoldingRegisters"%string
            | _ => ("Unknown"%string, Err (ME_Exception EX_IllegalFunction), s)
            end
        end
  end.

Definition handle_write_result {V} (s : CliState) (result : Timed V RE) (label invalid_word : string)
  : Result unit (ModbusError RE) * CliState :=
  match classify result with
  | Ok _ => (Ok tt, cs_with_log s L_Info (CM_WriteOk label))
  | Err (ME_Exception e) =>
      (Ok tt, cs_with_log s L_Warning (CM_WriteRefused label invalid_word e))
  | Err (ME_Error e) => (Err (ME_Error e), cs_with_log s L_Error (CM_WriteFailed label e))
  | Err ME_Timeout => (Err ME_Timeout, cs_with_log s L_Error (CM_WriteTimedOut label))
  end.

(** [(index + 1) % count] *)
Definition next_index (index : Z) (count : Z) : Z := (index + 1) mod count.

Definition poll_once (timeout_ms : Z) (operations : list Operation) (s : CliState)
  : Outcome (Result unit (ModbusError RE) * CliState) :=
  let count := Z.of_nat (length operations) in
  let index := if cs_index s >=? count then 0 else cs_index s in
  let s := cs_with_cursor s index (cs_retries s) in
  match operations !! Z.to_nat index with
  | None => Ret (Ok tt, s)
  | Some op =>
      let range := op_range op in
      let start := r_start range in
      let end_ := r_end range in
      let '(name, outcome, s) := client_read timeout_ms s op in
      match outcome with
      | Ok values =>
          let s := cs_with_success s in
          let key := mkKey (from_slave_fn (op_slave_id op) (op_fn_code op)) in
          '(ok, m, calls) ←
            Memory_write_unchecked_from (cs_memory s) WS_Poll key range values;
          let s := cs_with_memory s m calls in
          let s :=
            if negb ok then cs_with_log s L_Warning (CM_MemoryUpdateFailed name start end_)
            else cs_with_log s L_Info (CM_Received name start end_ values) in
          Ret (Ok tt, cs_with_cursor s (next_index (cs_index s) count) 0)
      | Err ME_Timeout =>
          Ret (Err ME_Timeout, cs_with_log s L_Error (CM_ReadTimedOut name start end_))
      | Err (ME_Error e) =>
          Ret (Err (ME_Error e), cs_with_log s L_Error (CM_ReadFailed name start end_ e))
      | Err (ME_Exception e) =>
          let retries := cs_retries s + 1 in
          if retries >=? MAX_RETRIES then
            let s := cs_with_log s L_Warning (CM_ReadInvalid name start end_ e) in
            Ret (Ok tt, cs_with_cursor s (next_index (cs_index s) count) 0)
          else Ret (Ok tt, cs_with_cursor s (cs_index s) retries)
      end
  end.

(** ** The loop of a connected client *)

(** The branch of the [select!] taken next: a tick, with the operations
    configured then, or a command. *)
Inductive RunEvent := EV_Tick (operations : list Operation) | EV_Recv.

Definition write_label (cmd : Command) : string * string :=
  match cmd with
  | CMD_WriteSingleCoil _ _ _ => ("WriteSingleCoil", "invalid")%string
  | CMD_WriteMultipleCoils _ _ _ => ("WriteMultipleCoils", "failed")%string
  | CMD_WriteSingleRegister _ _ _ => ("WriteSingleRegister", "invalid")%string
  | CMD_WriteMultipleRegister _ _ _ => ("WriteMultipleRegister", "invalid")%string
  | CMD_Terminate => (""%string, ""%string)
  end.

(** One iteration; [Some] result ends the loop. *)
Definition run_step (timeout_ms : Z) (s : CliState) (commands : Commands Command) (ev : RunEvent)
  : Outcome (option (Result unit (ModbusError RE)) * CliState * Commands Command) :=
  match ev with
  | EV_Tick operations =>
      '(res, s) ← poll_once timeout_ms operations s;
      match res with
      | Err e => Ret (Some (Err e), s, commands)
      | Ok _ => Ret (None, s, commands)
      end
  | EV_Recv =>
      let '(cmd, commands) := Commands_recv commands in
      match default CMD_Terminate cmd with
      | CMD_Terminate =>
          let s := cs_with_log s L_Info CM_Terminated in
          Ret (Some (Ok tt), cs_with_status s ST_Disconnected, commands)
      | cmd =>
          let '(result, d) := net_write timeout_ms (cs_dev s) cmd in
          let '(label, word) := write_label cmd in
          let '(res, s) := handle_write_result (cs_with_dev s d) result label word in
          match res with
          | Err e => Ret (Some (Err e), s, commands)
          | Ok _ => Ret (None, s, commands)
          end
      end
  end.

(** The loop over the events seen; [None] while it still runs. *)
Fixpoint run_events (timeout_ms : Z) (events : list RunEvent) (s : CliState)
    (commands : Commands Command)
  : Outcome (option (Result unit (ModbusError RE)) * CliState * Commands Command) :=
  match events with
  | [] => Ret (None, s, commands)
  | ev :: events' =>
      '(res, s, commands) ← run_step timeout_ms s commands ev;
      match res with
      | Some r => Ret (Some r, s, commands)
      | None => run_events timeout_ms events' s commands
      end
  end.

(** [ClientCore::run]: the loop from fresh counters; the flag says whether a
    read succeeded. *)
Definition client_run (timeout_ms : Z) (events : list RunEvent) (s : CliState)
    (commands : Commands Command)
  : Outcome (option (bool * Result unit (ModbusError RE)) * CliState * Commands Command) :=
  let s := mkCliState (cs_dev s) (cs_memory s) (cs_log s) (cs_status s) (cs_taps s) 0 0 false in
  '(res, s, commands) ← run_events timeout_ms events s commands;
  match res with
  | Some r => Ret (Some (cs_had_success s, r), s, commands)
  | None => Ret (None, s, commands)
  end.

(** ** Connecting and reconnecting *)

Record ConnectAttempt := mkConnectAttempt {
  ca_reconnect : bool;
  ca_timeout_ms : Z;
  ca_delay_ms : Z;
  ca_interval_ms : Z;
  ca_client : Result D (Error AE TLE RE)
}.

(** What the environment does during one round of the loop: the race of the
    connect future, its output, the events of the connected loop, and when
    the commands arrive during the backoff wait (from its start, in ns, and
    whether a tie with the deadline goes to the deadline). *)
Record Round := mkRound {
  rd_race : list RaceEvent;
  rd_connect : ConnectAttempt;
  rd_run : list RunEvent;
  rd_wait : list (Z * bool)
}.

Record LoopState := mkLoopState {
  ls_cli : CliState;
  ls_receiver : Receiver Command;
  ls_connected : bool;
  ls_wait : list (Z * bool);
  ls_rounds : list Round
}.

Definition is_terminate (cmd : Command) : bool :=
  match cmd with CMD_Terminate => true | _ => false end.

(** The same line, once per command. *)
Fixpoint log_times (n : nat) (level : Level) (msg : CliMsg AE TLE RE) (s : CliState) : CliState :=
  match n with
  | O => s
  | S n' => log_times n' level msg (cs_with_log s level msg)
  end.

(** The closure [attempt] of [run_reconnect_loop]; [None] while it runs. *)
Definition client_attempt (ls : LoopState)
  : Outcome (option (AttemptOutcome (Error AE TLE RE)) * LoopState) :=
  match ls_rounds ls with
  | [] => Ret (None, ls)
  | rd :: rounds =>
      let s := ls_cli ls in
      let st s receiver connected := mkLoopState s receiver connected (rd_wait rd) rounds in
      match race_terminate (rd_connect rd) is_terminate (rd_race rd) (ls_receiver ls) [] with
      | (None, receiver, _) => Ret (None, st s receiver (ls_connected ls))
      | (Some None, receiver, _) =>
          Ret (Some AO_Done, st (cs_with_status s ST_Disconnected) receiver (ls_connected ls))
      | (Some (Some conn_attempt), receiver, parked) =>
          let reconnect := ca_reconnect conn_attempt in
          match ca_client conn_attempt with
          | Err e =>
              let s := log_times (length parked) L_Warning CM_CommandDropped s in
              let s :=
                if negb reconnect
                then cs_with_status (cs_with_log s L_Error (CM_ConnectFailed e true))
                       ST_Disconnected
                else cs_with_log s L_Error (CM_ConnectFailed e false) in
              Ret (Some (AO_Failed e reconnect false), st s receiver (ls_connected ls))
          | Ok core =>
              let s := cs_with_status (cs_with_dev s core) ST_Connected in
              '(result, s, commands) ←
                client_run (ca_timeout_ms conn_attempt) (rd_run rd) s
                  (mkCommands receiver parked);
              let receiver := cm_receiver commands in
              match result with
              | None => Ret (None, st s receiver true)
              | Some (_, Ok _) => Ret (Some AO_Done, st s receiver false)
              | Some (had_success, Err e) =>
                  let e := ER_Modbus e in
                  let s :=
                    if negb reconnect then cs_with_status s ST_Disconnected
                    else cs_with_log s L_Warning (CM_RunFailed e) in
                  Ret (Some (AO_Failed e reconnect had_success), st s receiver false)
              end
          end
      end
  end.

(** The closure [wait_abortable]. *)
Definition client_wait (backoff : Z) (ls : LoopState) : bool * LoopState :=
  let s := cs_with_log (ls_cli ls) L_Info (CM_Reconnecting (backoff `div` 10 ^ 9)) in
  let arrivals :=
    imap (λ i w, mkArrival w.1 (ls_receiver ls !! i) w.2) (ls_wait ls) in
  let '(aborted, _, dropped) := wait_backoff is_terminate 0 backoff arrivals in
  let s := log_times dropped L_Warning CM_CommandDropped s in
  let s := if (aborted : bool) then cs_with_status s ST_Disconnected else s in
  let taken := if aborted then S dropped else dropped in
  (aborted, mkLoopState s (drop taken (ls_receiver ls)) (ls_connected ls) [] (ls_rounds ls)).

Definition run_reconnect_loop (fuel : nat) (ls : LoopState)
  : Outcome (option (Result unit (Error AE TLE RE)) * LoopState) :=
  run_with_backoff client_attempt client_wait BackoffPolicy_default fuel ls.
End client.

Arguments CliState T {_} Tap AE TLE RE D.
Arguments LoopState T {_} Tap AE TLE RE D.
