(* ===== verification/ClientProps.v ===== *)
(** * Properties of the Modbus client

    The poll cycle is fair and stores what the device answered; a refusal never
    disconnects, a transport error always does; commands reach the device in
    order; the reconnect loop reports its end. *)

From stdpp Require Import base list gmap numbers strings.
From S2P Require Import Prelude BTree Slice Memory Store StoreRefine StoreProps.
From S2P Require Import Codec Key Channel Backoff Client.

Local Open Scope Z_scope.

#[local] Ltac Zify.zify_post_hook ::= Z.to_euclidean_division_equations.

Section client_props.
Context {T : Type} `{KeyParams T} {Tap AE TLE RE D : Type}.
Context (net_read_bits : Z → D → UnitId → FunctionCode → Z → Z → Timed (list bool) RE * D).
Context (net_read_words : Z → D → UnitId → FunctionCode → Z → Z → Timed (list Z) RE * D).
Context (is_broadcast : UnitId → bool).

Abbreviation CliSt := (CliState T Tap AE TLE RE D).
Abbreviation read := (client_read net_read_bits net_read_words is_broadcast).
Abbreviation poll := (poll_once net_read_bits net_read_words is_broadcast).

Implicit Types (s : CliSt) (ops : list Operation) (op : Operation).

(** ** One read *)

(** Everything but the device and the log. *)
Definition same_but_io s s' : Prop :=
  cs_memory s' = cs_memory s ∧ cs_status s' = cs_status s ∧ cs_taps s' = cs_taps s ∧
  cs_index s' = cs_index s ∧ cs_retries s' = cs_retries s ∧ cs_had_success s' = cs_had_success s.

Lemma client_read_frame timeout s op name outcome s' :
  read timeout s op = (name, outcome, s') → same_but_io s s'.
Proof.
  unfold client_read, same_but_io. intros Heq.
  destruct (u16_try_from (_ - _)); [|by simplify_eq].
  destruct (is_broadcast _); [by simplify_eq|].
  destruct (u16_try_from _); [|by simplify_eq].
  destruct (op_fn_code op);
    repeat case_match; by simplify_eq.
Qed.

(** What is never put on the wire. *)
Definition locally_refused op : Prop :=
  is_broadcast (op_slave_id op) = true ∨ 65535 < r_start (op_range op) ∨
  65535 < Range_length (op_range op) ∨
  op_fn_code op ∉
    [FC_ReadCoils; FC_ReadDiscreteInputs; FC_ReadInputRegisters; FC_ReadHoldingRegisters].

Lemma u16_try_from_big z : 65535 < z → u16_try_from z = None.
Proof. intros Hz. unfold u16_try_from. destruct (_ && _) eqn:E; [zbool; lia|done]. Qed.

Lemma client_read_refused timeout s op :
  locally_refused op →
  ∃ name e s', read timeout s op = (name, Err (ME_Exception e), s') ∧ cs_dev s' = cs_dev s.
Proof.
  intros Hr. unfold client_read.
  destruct (u16_try_from (_ - _)) eqn:Hcount; [|by eauto 6].
  destruct (is_broadcast _) eqn:Hb; [by eauto 6|].
  destruct (u16_try_from (r_start _)) eqn:Hstart; [|by eauto 6].
  destruct Hr as [Hb'|[Hs|[Hl|Hf]]]; [by rewrite Hb in Hb'|..].
  - by rewrite u16_try_from_big in Hstart.
  - unfold Range_length in Hl. by rewrite u16_try_from_big in Hcount.
  - destruct (op_fn_code op); try (by eauto 6); exfalso; apply Hf;
      repeat (apply list_elem_of_here || apply list_elem_of_further).
Qed.

(** ** One poll *)

(** The operation the next tick reads. *)
Definition poll_index ops s : Z :=
  if cs_index s >=? Z.of_nat (length ops) then 0 else cs_index s.

(** The state in which a poll of [ops] calls the device. *)
Definition at_index ops s : CliSt := cs_with_cursor s (poll_index ops s) (cs_retries s).

Definition cursor_ok s : Prop := 0 <= cs_index s ∧ 0 <= cs_retries s < MAX_RETRIES.

Lemma poll_index_range ops s :
  cursor_ok s → ops ≠ [] → 0 <= poll_index ops s < Z.of_nat (length ops).
Proof.
  intros [Hi _] Hne. unfold poll_index. rewrite Z.geb_leb. zcase; [|lia].
  destruct ops; [done|]. simpl; lia.
Qed.

Lemma poll_op ops s :
  cursor_ok s → ops ≠ [] → ∃ op, ops !! Z.to_nat (poll_index ops s) = Some op.
Proof.
  intros Hc Hne. pose proof (poll_index_range ops s Hc Hne). apply lookup_lt_is_Some. lia.
Qed.

(** A poll is decided by what the device answers to the read of its operation. *)
Lemma poll_once_cases timeout ops s op :
  Memory_wf (cs_memory s) → Forall (λ op, Range_wf (op_range op)) ops →
  ops !! Z.to_nat (poll_index ops s) = Some op →
  ∃ res s', poll timeout ops s = Ret (res, s') ∧
  cs_status s' = cs_status s ∧ Memory_wf (cs_memory s') ∧
  let '(_, outcome, s1) := read timeout (at_index ops s) op in
  cs_dev s' = cs_dev s1 ∧
  match outcome with
  | Ok values =>
      let key := mkKey (from_slave_fn (op_slave_id op) (op_fn_code op)) in
      let st := Memory_abs (cs_memory s) in
      let forced := store_write_unchecked st key (op_range op) values in
      res = Ok tt ∧ refines (cs_memory s) (cs_memory s') forced.2 ∧
      cs_had_success s' = true ∧
      cs_index s' = next_index (poll_index ops s) (Z.of_nat (length ops)) ∧ cs_retries s' = 0 ∧
      ∃ calls, cs_taps s' = cs_taps s ++ calls ∧
        notes calls =
          store_notes (tapped (cs_memory s)) forced.1 st WS_Poll key (op_range op) values
  | Err (ME_Exception _) =>
      res = Ok tt ∧ cs_memory s' = cs_memory s ∧ cs_taps s' = cs_taps s ∧
      cs_had_success s' = cs_had_success s ∧
      if cs_retries s + 1 >=? MAX_RETRIES
      then cs_index s' = next_index (poll_index ops s) (Z.of_nat (length ops)) ∧ cs_retries s' = 0
      else cs_index s' = poll_index ops s ∧ cs_retries s' = cs_retries s + 1
  | Err e =>
      res = Err e ∧ cs_memory s' = cs_memory s ∧ cs_taps s' = cs_taps s ∧
      cs_had_success s' = cs_had_success s ∧
      cs_index s' = poll_index ops s ∧ cs_retries s' = cs_retries s
  end.
Proof.
  intros Hwf Hops Hop. unfold poll_once.
  change (if cs_index s >=? Z.of_nat (length ops) then 0 else cs_index s) with (poll_index ops s).
  fold (at_index ops s). rewrite Hop.
  destruct (read timeout (at_index ops s) op) as [[name outcome] s1] eqn:Hread.
  destruct (client_read_frame _ _ _ _ _ _ Hread) as (Hm & Hs & Ht & Hi & Hr & Hh).
  simpl in Hm, Hs, Ht, Hi, Hr, Hh.
  destruct outcome as [values|[e|e|]].
  - destruct (Memory_write_unchecked_from_refines (cs_memory s) WS_Poll
      (mkKey (from_slave_fn (op_slave_id op) (op_fn_code op))) (op_range op) values)
      as (m & calls & Heq & Href & _ & Hnotes); [done|by eapply Forall_lookup_1 in Hops|].
    cbn [cs_memory cs_with_success]. rewrite Hm, Heq. cbn [mbind outcome_bind].
    do 2 eexists. split; [done|].
    destruct (negb _); simpl; rewrite Hs, Ht, Hi; repeat (split; [by try apply Href|]); eauto.
  - rewrite Hr. destruct (_ >=? _); do 2 eexists; (split; [done|]); simpl;
      rewrite ?Hs, ?Hm, ?Ht, ?Hi, ?Hh; done.
  - do 2 eexists; (split; [done|]); simpl. rewrite Hs, Hm, Ht, Hi, Hr, Hh. done.
  - do 2 eexists; (split; [done|]); simpl. rewrite Hs, Hm, Ht, Hi, Hr, Hh. done.
Qed.

Lemma poll_once_idle timeout s : poll timeout [] s = Ret (Ok tt, at_index [] s).
Proof.
  unfold poll_once, at_index, poll_index. by rewrite lookup_nil.
Qed.

(** A poll answered with the words of a declared range makes the store hold
    exactly those words there, leaves every other device's cells alone, and
    moves on to the next operation. *)
Theorem poll_stores_answer timeout ops s s1 op name values :
  Memory_wf (cs_memory s) → Forall (λ op, Range_wf (op_range op)) ops →
  ops !! Z.to_nat (poll_index ops s) = Some op →
  read timeout (at_index ops s) op = (name, Ok values, s1) →
  let key := mkKey (from_slave_fn (op_slave_id op) (op_fn_code op)) in
  Range_length (op_range op) = Z.of_nat (length values) →
  is_Some (store_read_unchecked (Memory_abs (cs_memory s)) key (op_range op)) →
  ∃ s', poll timeout ops s = Ret (Ok tt, s') ∧
    Memory_read_unchecked (cs_memory s') key (op_range op) = Ret (Some values) ∧
    (∀ id r, id ≠ key → Range_wf r →
       Memory_read_unchecked (cs_memory s') id r = Memory_read_unchecked (cs_memory s) id r) ∧
    cs_had_success s' = true ∧ cs_retries s' = 0 ∧
    cs_index s' = (poll_index ops s + 1) mod Z.of_nat (length ops).
Proof.
  intros Hwf Hops Hop Hread key Hlen Hcov.
  destruct (poll_once_cases timeout ops s op Hwf Hops Hop)
    as (res & s' & Heq & _ & Hwf' & Hcase).
  rewrite Hread in Hcase. destruct Hcase as (_ & -> & (_ & _ & Habs) & Hsucc & Hi & Hr & _).
  assert (Range_wf (op_range op)) as Hrw by by eapply Forall_lookup_1 in Hops.
  destruct (store_write_unchecked_read _ _ _ values Hrw Hlen Hcov) as [_ Hback].
  exists s'. split_and!; [done|..|done|done|done].
  - rewrite Memory_read_unchecked_refines by done. f_equal.
    by rewrite (store_read_unchecked_proper _ _ Habs key key eq_refl _ _ eq_refl).
  - intros id r Hne Hr'. rewrite !Memory_read_unchecked_refines by done. f_equal.
    rewrite (store_read_unchecked_proper _ _ Habs id id eq_refl _ _ eq_refl).
    unfold store_read_unchecked. by rewrite store_write_unchecked_other.
Qed.

(** An operation that must not reach the wire (the broadcast address, an
    address or count beyond 16 bits, a function code that is not a read) is
    refused without touching the device, the store or the connection. *)
Theorem local_refusal timeout ops s op :
  Memory_wf (cs_memory s) → Forall (λ op, Range_wf (op_range op)) ops →
  ops !! Z.to_nat (poll_index ops s) = Some op → locally_refused op →
  ∃ s', poll timeout ops s = Ret (Ok tt, s') ∧
    cs_dev s' = cs_dev s ∧ cs_memory s' = cs_memory s ∧ cs_taps s' = cs_taps s ∧
    cs_status s' = cs_status s ∧ cs_had_success s' = cs_had_success s.
Proof.
  intros Hwf Hops Hop Href.
  destruct (poll_once_cases timeout ops s op Hwf Hops Hop)
    as (res & s' & Heq & Hst & _ & Hcase).
  destruct (client_read_refused timeout (at_index ops s) op Href) as (name & e & s1 & Hread & Hdev).
  rewrite Hread in Hcase. destruct Hcase as (Hd & -> & Hm & Ht & Hh & _).
  exists s'. by rewrite Hd, Hdev.
Qed.

(** ** Runs *)

Context (net_write : Z → D → Command → Timed unit RE * D).

Abbreviation step := (run_step net_read_bits net_read_words net_write is_broadcast).
Abbreviation run := (run_events net_read_bits net_read_words net_write is_broadcast).

(** The operations of every tick have valid ranges. *)
Definition event_wf (ev : RunEvent) : Prop :=
  match ev with EV_Tick ops => Forall (λ op, Range_wf (op_range op)) ops | EV_Recv => True end.

Definition state_ok s : Prop := Memory_wf (cs_memory s) ∧ cursor_ok s.

(** The cursor after a poll that did not disconnect. *)
Lemma poll_once_next timeout ops s :
  state_ok s → Forall (λ op, Range_wf (op_range op)) ops → ops ≠ [] →
  ∃ res s', poll timeout ops s = Ret (res, s') ∧ state_ok s' ∧ cs_status s' = cs_status s ∧
  match res with
  | Ok _ =>
      cs_index s' = next_index (poll_index ops s) (Z.of_nat (length ops)) ∧ cs_retries s' = 0 ∨
      cs_index s' = poll_index ops s ∧ cs_retries s' = cs_retries s + 1
  | Err (ME_Exception _) => False
  | Err _ => True
  end.
Proof.
  intros [Hwf Hc] Hops Hne. destruct (poll_op ops s Hc Hne) as [op Hop].
  pose proof (poll_index_range ops s Hc Hne) as Hir.
  assert (0 <= next_index (poll_index ops s) (Z.of_nat (length ops))) as Hnext
    by (unfold next_index; lia).
  destruct (poll_once_cases timeout ops s op Hwf Hops Hop)
    as (res & s' & Heq & Hst & Hwf' & Hcase).
  exists res, s'. split; [done|]. unfold state_ok, cursor_ok, MAX_RETRIES in *.
  destruct (read timeout (at_index ops s) op) as [[name [values|[e|e|]]] s1];
    destruct Hcase as (_ & -> & Hcase).
  - destruct Hcase as (_ & _ & -> & -> & _). split_and!; (done || lia).
  - destruct Hcase as (_ & _ & _ & Hcase). rewrite Z.geb_leb in Hcase.
    zcase; destruct Hcase as [-> ->]; split_and!; (done || lia).
  - destruct Hcase as (_ & _ & _ & -> & ->). split_and!; (done || lia).
  - destruct Hcase as (_ & _ & _ & -> & ->). split_and!; (done || lia).
Qed.

Lemma run_app timeout l1 l2 s cmds :
  run timeout (l1 ++ l2) s cmds =
  ('(res, s, cmds) ← run timeout l1 s cmds;
   match res with
   | Some r => Ret (Some r, s, cmds)
   | None => run timeout l2 s cmds
   end).
Proof.
  revert s cmds. induction l1 as [|ev l1 IH]; intros s cmds; [done|]. simpl.
  destruct (step timeout s cmds ev) as [[[[r|] s1] c1]|]; [done| |done]. apply IH.
Qed.

(** [k] ticks over [ops] that leave the client connected. *)
Definition ticks timeout ops k s s' : Prop :=
  ∀ cmds, run timeout (replicate k (EV_Tick ops)) s cmds = Ret (None, s', cmds).

Lemma ticks_trans timeout ops k1 k2 s1 s2 s3 :
  ticks timeout ops k1 s1 s2 → ticks timeout ops k2 s2 s3 → ticks timeout ops (k1 + k2) s1 s3.
Proof.
  intros H1 H2 cmds. rewrite replicate_add, run_app, H1. apply H2.
Qed.

Lemma ticks_first timeout ops k s s' :
  state_ok s → Forall (λ op, Range_wf (op_range op)) ops → ops ≠ [] →
  ticks timeout ops (S k) s s' →
  ∃ s1, ticks timeout ops 1 s s1 ∧ ticks timeout ops k s1 s' ∧ state_ok s1 ∧
    (cs_index s1 = next_index (poll_index ops s) (Z.of_nat (length ops)) ∧ cs_retries s1 = 0 ∨
     cs_index s1 = poll_index ops s ∧ cs_retries s1 = cs_retries s + 1).
Proof.
  intros Hs Hops Hne Ht.
  destruct (poll_once_next timeout ops s Hs Hops Hne) as (res & s1 & Heq & Hs1 & _ & Hcase).
  assert (∀ cmds, step timeout s cmds (EV_Tick ops) =
    Ret (match res with Ok _ => None | Err e => Some (Err e) end, s1, cmds)) as Hstep.
  { intros cmds. simpl. rewrite Heq. by destruct res. }
  destruct res as [u|e].
  - exists s1. split_and!; [|..|done|done].
    + intros cmds. simpl replicate. cbn [run_events]. by rewrite Hstep.
    + intros cmds. specialize (Ht cmds). simpl replicate in Ht. cbn [run_events] in Ht.
      by rewrite Hstep in Ht.
  - exfalso. specialize (Ht (mkCommands [] [])). simpl replicate in Ht.
    cbn [run_events] in Ht. by rewrite Hstep in Ht.
Qed.

Lemma poll_index_same ops s i :
  cs_index s = i → i < Z.of_nat (length ops) → poll_index ops s = i.
Proof. intros <- Hi. unfold poll_index. rewrite Z.geb_leb. zcase; lia. Qed.

(** The cursor moves on within as many ticks as retries are left. *)
Lemma ticks_next timeout ops k s s' :
  state_ok s → Forall (λ op, Range_wf (op_range op)) ops → ops ≠ [] →
  3 - cs_retries s <= Z.of_nat k → ticks timeout ops k s s' →
  ∃ j s1, Z.of_nat j <= 3 - cs_retries s ∧ (j <= k)%nat ∧
    ticks timeout ops j s s1 ∧ ticks timeout ops (k - j) s1 s' ∧ state_ok s1 ∧
    poll_index ops s1 = next_index (poll_index ops s) (Z.of_nat (length ops)) ∧
    cs_retries s1 = 0.
Proof.
  intros Hs Hops Hne. revert s Hs. induction k as [|k IH]; intros s Hs Hk Ht.
  { destruct Hs as [_ [_ [_ Hlt]]]. unfold MAX_RETRIES in Hlt. lia. }
  pose proof (poll_index_range ops s (proj2 Hs) Hne) as Hir.
  assert (0 <= next_index (poll_index ops s) (Z.of_nat (length ops)) < Z.of_nat (length ops))
    as Hnext by (unfold next_index; lia).
  destruct (ticks_first timeout ops k s s' Hs Hops Hne Ht) as (s1 & H1 & Hk1 & Hs1 & Hc).
  destruct Hs as [_ [_ [_ Hr]]]. unfold MAX_RETRIES in Hr.
  destruct Hc as [[Hi Hr0]|[Hi Hr1]].
  - exists 1%nat, s1. replace (S k - 1)%nat with k by lia.
    split_and!; [lia|lia|done|done|done| |done]. apply poll_index_same; [done|lia].
  - destruct (IH s1 Hs1) as (j & s2 & Hj & Hjk & Hj1 & Hj2 & Hs2 & Hi2 & Hr2); [lia|done|].
    exists (S j), s2. replace (S k - S j)%nat with (k - j)%nat by lia.
    split_and!; [lia|lia| |done|done| |done].
    + by apply (ticks_trans timeout ops 1 j s s1 s2).
    + by rewrite Hi2, (poll_index_same ops s1 (poll_index ops s)) by (done || lia).
Qed.

(** [d] operations further after at most three ticks each. *)
Lemma ticks_reach timeout ops d k s s' :
  state_ok s → Forall (λ op, Range_wf (op_range op)) ops → ops ≠ [] →
  (3 * d <= k)%nat → ticks timeout ops k s s' →
  ∃ j s1, (j <= 3 * d)%nat ∧ ticks timeout ops j s s1 ∧
    poll_index ops s1 = (poll_index ops s + Z.of_nat d) mod Z.of_nat (length ops).
Proof.
  intros Hs Hops Hne. revert k s Hs. induction d as [|d IH]; intros k s Hs Hk Ht.
  - exists 0%nat, s. split_and!; [lia|by intros cmds|].
    pose proof (poll_index_range ops s (proj2 Hs) Hne). rewrite Z.mod_small; lia.
  - pose proof (proj2 Hs) as [_ Hr]. unfold MAX_RETRIES in Hr.
    destruct (ticks_next timeout ops k s s' Hs Hops Hne)
      as (j & s1 & Hj & Hjk & Hj1 & Hj2 & Hs1 & Hi1 & Hr1); [lia|done|].
    destruct (IH (k - j)%nat s1 Hs1) as (j' & s2 & Hj' & Ht2 & Hi2); [lia|done|].
    exists (j + j')%nat, s2. split_and!; [lia|by eapply ticks_trans|].
    rewrite Hi2, Hi1. unfold next_index.
    assert (0 < Z.of_nat (length ops)) by (destruct ops; [done|simpl; lia]).
    rewrite Z.add_mod_idemp_l by lia. f_equal. lia.
Qed.

(** The cursor reaches every operation. *)
Lemma ticks_reach_all timeout ops s s' (i : nat) :
  state_ok s → Forall (λ op, Range_wf (op_range op)) ops → (i < length ops)%nat →
  ticks timeout ops (3 * length ops) s s' →
  ∃ k sk, (k < 3 * length ops)%nat ∧ ticks timeout ops k s sk ∧ poll_index ops sk = Z.of_nat i.
Proof.
  intros Hs Hops Hi Ht. assert (ops ≠ []) as Hne by (intros ->; simpl in Hi; lia).
  pose proof (poll_index_range ops s (proj2 Hs) Hne) as Hir.
  set (n := Z.of_nat (length ops)) in *.
  set (d := Z.to_nat ((Z.of_nat i - poll_index ops s) mod n)).
  assert (Z.of_nat d < n) as Hd by (unfold d; lia).
  destruct (ticks_reach timeout ops d (3 * length ops) s s' Hs Hops Hne)
    as (k & sk & Hk & Htk & Hik); [lia|done|].
  exists k, sk. split_and!; [lia|done|]. rewrite Hik. unfold d.
  rewrite Z2Nat.id by lia. fold n. rewrite Z.add_mod_idemp_r by lia.
  replace (poll_index ops s + (Z.of_nat i - poll_index ops s)) with (Z.of_nat i) by lia.
  apply Z.mod_small. lia.
Qed.

(** *** How a run ends *)

(** The end of the loop a branch brings about: a tick whose read times out or
    fails other than by an exception, a terminate command or the closed channel,
    a write command that times out or fails other than by an exception. *)
Definition ending timeout s (cmds : Commands Command) (ev : RunEvent)
  : option (Result unit (ModbusError RE)) :=
  match ev with
  | EV_Tick ops =>
      match ops !! Z.to_nat (poll_index ops s) with
      | None => None
      | Some op =>
          match (read timeout (at_index ops s) op).1.2 with
          | Err ME_Timeout => Some (Err ME_Timeout)
          | Err (ME_Error e) => Some (Err (ME_Error e))
          | Err (ME_Exception _) | Ok _ => None
          end
      end
  | EV_Recv =>
      match head (cm_queued cmds ++ cm_receiver cmds) with
      | None | Some CMD_Terminate => Some (Ok tt)
      | Some cmd =>
          match (net_write timeout (cs_dev s) cmd).1 with
          | TM_Elapsed => Some (Err ME_Timeout)
          | TM_Done (Err (NE_Other e)) => Some (Err (ME_Error e))
          | TM_Done (Err (NE_Exception _)) | TM_Done (Ok _) => None
          end
      end
  end.

(** None of the events brings the loop to an end. *)
Definition goes_on timeout s cmds (events : list RunEvent) : Prop :=
  ∀ before ev after, events = before ++ ev :: after →
    ∃ s1 c1, run timeout before s cmds = Ret (None, s1, c1) ∧ ending timeout s1 c1 ev = None.

(** One iteration of the connected loop. *)
Lemma run_step_total timeout s cmds ev :
  state_ok s → event_wf ev →
  ∃ s' cmds', step timeout s cmds ev = Ret (ending timeout s cmds ev, s', cmds') ∧ state_ok s' ∧
  match ending timeout s cmds ev with
  | Some (Ok _) => cs_status s' = cs_status s ++ [ST_Disconnected]
  | Some (Err (ME_Exception _)) => False
  | None | Some (Err _) => cs_status s' = cs_status s
  end.
Proof.
  intros Hs Hev. destruct ev as [ops|]; simpl in *.
  - destruct (decide (ops = [])) as [->|Hne].
    + rewrite poll_once_idle, lookup_nil. cbn [mbind outcome_bind].
      do 2 eexists. split; [done|]. split; [|done]. destruct Hs as [Hm [Hi Hr]].
      split; [done|]. split; [|done]. unfold at_index, poll_index; simpl.
      rewrite Z.geb_leb. zcase; lia.
    + destruct (poll_op ops s (proj2 Hs) Hne) as [op Hop]. rewrite Hop.
      destruct (poll_once_next timeout ops s Hs Hev Hne) as (res & s' & Heq & Hs' & Hst & _).
      destruct (poll_once_cases timeout ops s op (proj1 Hs) Hev Hop) as (res2 & s2 & Heq2 & _ & _ & Hcase).
      rewrite Heq in Heq2. injection Heq2 as <- <-. rewrite Heq. cbn [mbind outcome_bind].
      destruct (read timeout (at_index ops s) op) as [[name [values|[e|e|]]] s1];
        destruct Hcase as (_ & -> & _); simpl; do 2 eexists; split; done.
  - pose proof (Commands_recv_order cmds) as Ho.
    destruct (Commands_recv cmds) as [[cmd|] cmds']; simpl in Ho; [rewrite Ho|destruct Ho as [-> _]];
      simpl; [|by do 2 eexists; split; [done|]].
    destruct cmd; cbn [default]; [by do 2 eexists; split; [done|]| ..];
      (destruct (net_write _ _ _) as [[[v|[e|e]]|] d]; unfold handle_write_result; simpl;
       do 2 eexists; (split; [done|]); done).
Qed.

Lemma goes_on_cons timeout s cmds ev events s1 c1 :
  ending timeout s cmds ev = None → step timeout s cmds ev = Ret (None, s1, c1) →
  goes_on timeout s1 c1 events → goes_on timeout s cmds (ev :: events).
Proof.
  intros Hend Hstep Hgo [|e before] ev' after [= <- ->]; [by exists s, cmds|].
  cbn [run_events]. rewrite Hstep. by apply (Hgo before ev' after).
Qed.

(** A run ends at the first event that ends it, with that end. *)
Definition run_ended timeout s cmds events (r : Result unit (ModbusError RE)) : Prop :=
  ∃ before ev after s1 c1, events = before ++ ev :: after ∧ goes_on timeout s cmds before ∧
    run timeout before s cmds = Ret (None, s1, c1) ∧ ending timeout s1 c1 ev = Some r.

Lemma run_events_end timeout events s cmds :
  state_ok s → Forall event_wf events →
  ∃ res s' cmds', run timeout events s cmds = Ret (res, s', cmds') ∧ state_ok s' ∧
  match res with
  | None => goes_on timeout s cmds events ∧ cs_status s' = cs_status s
  | Some r => run_ended timeout s cmds events r ∧
      match r with
      | Ok _ => cs_status s' = cs_status s ++ [ST_Disconnected]
      | Err (ME_Exception _) => False
      | Err _ => cs_status s' = cs_status s
      end
  end.
Proof.
  intros Hs Hev. revert s cmds Hs. induction Hev as [|ev events Hev _ IH]; intros s cmds Hs.
  { do 3 eexists. split; [done|]. split; [done|]. split; [|done]. by intros [|??] ? ? ?. }
  destruct (run_step_total timeout s cmds ev Hs Hev) as (s1 & c1 & Heq & Hs1 & Hc).
  cbn [run_events]. rewrite Heq. cbn [mbind outcome_bind].
  destruct (ending timeout s cmds ev) as [r|] eqn:Hend.
  - do 3 eexists. split; [done|]. split; [done|]. split; [|by destruct r as [|[]]].
    exists [], ev, events, s, cmds. split_and!; [done| |done|done]. by intros [|??] ? ? ?.
  - destruct (IH s1 c1 Hs1) as (res & s' & cmds' & -> & Hs' & Hres). do 3 eexists.
    split; [done|]. split; [done|]. rewrite Hc in Hres. destruct res as [r|].
    + destruct Hres as [(before & ev' & after & s2 & c2 & -> & Hgo & Hrun & Hend') Hst].
      split; [|done]. exists (ev :: before), ev', after, s2, c2. split_and!; [done| | |done].
      * by apply (goes_on_cons timeout s cmds ev before s1 c1).
      * cbn [run_events]. by rewrite Heq.
    + destruct Hres as [Hgo Hst]. split; [|done].
      by apply (goes_on_cons timeout s cmds ev events s1 c1).
Qed.

(** The state a connected loop starts from. *)
Definition run_start s : CliSt :=
  mkCliState (cs_dev s) (cs_memory s) (cs_log s) (cs_status s) (cs_taps s) 0 0 false.

Lemma client_start_ok s : Memory_wf (cs_memory s) → state_ok (run_start s).
Proof. intros Hm. split; [done|]. unfold cursor_ok, MAX_RETRIES; simpl. lia. Qed.

(** What [client_attempt] needs of a run. *)
Lemma client_run_total timeout events s cmds :
  Memory_wf (cs_memory s) → Forall event_wf events →
  ∃ res s' cmds',
    client_run net_read_bits net_read_words net_write is_broadcast timeout events s cmds =
      Ret (res, s', cmds') ∧ Memory_wf (cs_memory s') ∧
    match res with
    | Some (_, Ok _) => cs_status s' = cs_status s ++ [ST_Disconnected]
    | _ => True
    end.
Proof.
  intros Hm Hev. unfold client_run. fold (run_start s).
  destruct (run_events_end timeout events (run_start s) cmds (client_start_ok s Hm) Hev)
    as (res & s' & cmds' & -> & [Hm' _] & Hres). cbn [mbind outcome_bind].
  destruct res as [[u|e]|]; do 3 eexists; (split; [done|]); split; try done. apply Hres.
Qed.

(** C5: a connected client never panics. While no event ends the loop it runs on
    with the status it had; it ends at the first event that does ([ending]): a
    terminate command or the closed channel, where it ends without an error and
    reports the disconnect, or a read or a write that timed out or failed in
    the transport, where it ends with that error. A device that refuses a
    request never ends it. *)
Theorem client_run_ends timeout events s cmds :
  Memory_wf (cs_memory s) → Forall event_wf events →
  ∃ res s' cmds',
    client_run net_read_bits net_read_words net_write is_broadcast timeout events s cmds =
      Ret (res, s', cmds') ∧ Memory_wf (cs_memory s') ∧
    match res with
    | None => goes_on timeout (run_start s) cmds events ∧ cs_status s' = cs_status s
    | Some (had_success, r) =>
        had_success = cs_had_success s' ∧ run_ended timeout (run_start s) cmds events r ∧
        match r with
        | Ok _ => cs_status s' = cs_status s ++ [ST_Disconnected]
        | Err (ME_Exception _) => False
        | Err _ => cs_status s' = cs_status s
        end
    end.
Proof.
  intros Hm Hev. unfold client_run. fold (run_start s).
  destruct (run_events_end timeout events (run_start s) cmds (client_start_ok s Hm) Hev)
    as (res & s' & cmds' & -> & [Hm' _] & Hres). cbn [mbind outcome_bind].
  destruct res as [r|]; do 3 eexists; (split; [done|]); split; done.
Qed.
End client_props.

(** ** The reconnect loop *)

Section loop.
Context {T : Type} `{KeyParams T} {Tap AE TLE RE D : Type}.
Context (net_read_bits : Z → D → UnitId → FunctionCode → Z → Z → Timed (list bool) RE * D).
Context (net_read_words : Z → D → UnitId → FunctionCode → Z → Z → Timed (list Z) RE * D).
Context (net_write : Z → D → Command → Timed unit RE * D).
Context (is_broadcast : UnitId → bool).

Implicit Types (s : CliState T Tap AE TLE RE D) (ls : LoopState T Tap AE TLE RE D).

Abbreviation attempt := (client_attempt net_read_bits net_read_words net_write is_broadcast).

Definition loop_ok ls : Prop :=
  Memory_wf (cs_memory (ls_cli ls)) ∧ ls_connected ls = false ∧
  Forall (λ rd, Forall event_wf (rd_run rd)) (ls_rounds ls).

(** The task's last words: not connected, and said so. *)
Definition loop_ended ls : Prop :=
  ls_connected ls = false ∧ list.last (cs_status (ls_cli ls)) = Some ST_Disconnected.

Lemma log_times_frame n level msg s :
  cs_memory (log_times n level msg s) = cs_memory s ∧
  cs_status (log_times n level msg s) = cs_status s.
Proof. revert s. induction n as [|n IH]; intros s; simpl; [done|]. by destruct (IH (cs_with_log s level msg)). Qed.

Lemma client_wait_inv d ls :
  loop_ok ls →
  let '(aborted, ls') := client_wait d ls in
  if aborted then loop_ended ls' else loop_ok ls'.
Proof.
  intros (Hm & Hc & Hr). unfold client_wait.
  destruct (wait_backoff _ _ _ _) as [[aborted time] dropped].
  destruct (log_times_frame dropped L_Warning CM_CommandDropped
    (cs_with_log (ls_cli ls) L_Info (CM_Reconnecting (d `div` 10 ^ 9)))) as [Hm' _].
  destruct aborted; unfold loop_ended, loop_ok; simpl.
  - split; [done|]. apply last_snoc.
  - by rewrite Hm'.
Qed.

Lemma client_attempt_inv ls :
  loop_ok ls →
  ∃ out ls', attempt ls = Ret (out, ls') ∧
  match out with
  | None => True
  | Some AO_Done => loop_ended ls'
  | Some (AO_Failed e false _) => loop_ended ls'
  | Some (AO_Failed _ true _) => loop_ok ls'
  end.
Proof.
  intros (Hm & Hc & Hr). unfold client_attempt.
  destruct (ls_rounds ls) as [|rd rounds]; [by do 2 eexists|].
  apply Forall_cons in Hr as [Hrd Hr].
  destruct (race_terminate _ _ _ _ _) as [[[[conn|]|] receiver] parked];
    [|by do 2 eexists; split; [done|]; split; [|apply last_snoc]|by do 2 eexists].
  destruct (ca_client conn) as [core|e].
  - destruct (client_run_total net_read_bits net_read_words is_broadcast net_write
      (ca_timeout_ms conn) (rd_run rd) (cs_with_status (cs_with_dev (ls_cli ls) core) ST_Connected)
      (mkCommands receiver parked)) as (res & s' & cmds & -> & Hm' & Hres); [done|done|].
    cbn [mbind outcome_bind]. destruct res as [[had [u|e]]|]; [| |by do 2 eexists].
    + do 2 eexists. split; [done|]. split; [done|]. simpl. rewrite Hres. apply last_snoc.
    + do 2 eexists. split; [done|]. destruct (ca_reconnect conn); [done|].
      split; [done|]. apply last_snoc.
  - destruct (log_times_frame (length parked) L_Warning CM_CommandDropped (ls_cli ls)) as [Hm' _].
    do 2 eexists. split; [done|]. destruct (ca_reconnect conn); simpl.
    + unfold loop_ok; simpl. by rewrite Hm'.
    + split; [done|]. apply last_snoc.
Qed.

(** The client task never panics, and however it ends (terminated while
    connecting, connected or waiting, or failed without reconnecting) it is no
    longer marked connected and its last status line says it is disconnected. *)
Theorem reconnect_loop_ends fuel ls :
  loop_ok ls →
  ∃ res ls',
    run_reconnect_loop net_read_bits net_read_words net_write is_broadcast fuel ls =
      Ret (res, ls') ∧
    match res with Some _ => loop_ended ls' | None => True end.
Proof.
  intros Hok. unfold run_reconnect_loop, run_with_backoff.
  apply (backoff_loop_inv _ _ loop_ok (λ _, loop_ended)); [|done|apply policy_default_ok|by left].
  intros ls1 Hok1. destruct (client_attempt_inv ls1 Hok1) as (out & ls2 & Heq & Hout).
  exists out, ls2. split; [done|]. destruct out as [[|e [] reset]|]; [done| |done|done].
  intros d. by apply client_wait_inv.
Qed.
End loop.

(** ** Delivery of commands *)

Section delivery.
Context {T : Type} `{KeyParams T} {Tap AE TLE RE D : Type}.
Context (net_read_bits : Z → D → UnitId → FunctionCode → Z → Z → Timed (list bool) RE * D).
Context (net_read_words : Z → D → UnitId → FunctionCode → Z → Z → Timed (list Z) RE * D).
Context (net_write : Z → D → Command → Timed unit RE * D).
Context (is_broadcast : UnitId → bool).

(** Any device, with a record of the write commands it was sent. *)
Definition rec_bits timeout (d : D * list Command) slave fc a n :=
  let '(r, d') := net_read_bits timeout d.1 slave fc a n in (r, (d', d.2)).
Definition rec_words timeout (d : D * list Command) slave fc a n :=
  let '(r, d') := net_read_words timeout d.1 slave fc a n in (r, (d', d.2)).
Definition rec_write timeout (d : D * list Command) cmd :=
  let '(r, d') := net_write timeout d.1 cmd in (r, (d', d.2 ++ [cmd])).

Implicit Types (s : CliState T Tap AE TLE RE (D * list Command)).

Definition sent s : list Command := (cs_dev s).2.
Definition pending (cmds : Commands Command) : list Command :=
  cm_queued cmds ++ cm_receiver cmds.

Lemma client_read_sent timeout s op :
  sent (client_read rec_bits rec_words is_broadcast timeout s op).2 = sent s.
Proof.
  unfold client_read, sent. destruct (u16_try_from (_ - _)); [|done].
  destruct (is_broadcast _); [done|]. destruct (u16_try_from _); [|done].
  destruct (op_fn_code op); try done; unfold rec_bits, rec_words; simpl;
    by destruct (_ timeout _ _ _ _ _).
Qed.

Lemma poll_once_sent timeout ops s res s' :
  poll_once rec_bits rec_words is_broadcast timeout ops s = Ret (res, s') → sent s' = sent s.
Proof.
  unfold poll_once. set (s0 := cs_with_cursor s _ _).
  destruct (ops !! _) as [op|]; [|by intros [= <- <-]].
  change (sent s) with (sent s0). rewrite <- (client_read_sent timeout s0 op).
  destruct (client_read _ _ _ _ _ _) as [[name [values|[e|e|]]] s1]; simpl.
  - destruct (Memory_write_unchecked_from _ _ _ _ _) as [[[ok m] calls]|]; [|done].
    cbn [mbind outcome_bind]. intros [= <- <-]. by destruct ok.
  - destruct (_ >=? MAX_RETRIES); by intros [= <- <-].
  - by intros [= <- <-].
  - by intros [= <- <-].
Qed.

(** What a run has sent, what stopped it and what it leaves, in order, is what
    was there: nothing is reordered, duplicated or skipped. *)
Definition delivered (res : option (Result unit (ModbusError RE))) (before after : list Command)
    (rest : list Command) : Prop :=
  match res with
  | Some (Ok _) => after ++ CMD_Terminate :: rest = before ∨ after = before ∧ rest = []
  | _ => after ++ rest = before
  end.

Lemma run_step_delivers timeout s cmds ev res s' cmds' :
  run_step rec_bits rec_words rec_write is_broadcast timeout s cmds ev = Ret (res, s', cmds') →
  delivered res (sent s ++ pending cmds) (sent s') (pending cmds').
Proof.
  destruct ev as [ops|]; simpl.
  - destruct (poll_once _ _ _ _ _ _) as [[r s1]|] eqn:Hp; [|done]. cbn [mbind outcome_bind].
    apply poll_once_sent in Hp. destruct r as [u|e]; intros; simplify_eq; simpl; by rewrite Hp.
  - pose proof (Commands_recv_order cmds) as Ho. fold (pending cmds) in Ho.
    destruct (Commands_recv cmds) as [[cmd|] c1]; fold (pending c1) in Ho; simpl.
    + rewrite Ho. destruct cmd; [intros; simplify_eq; simpl; by left|..];
        unfold rec_write; simpl; destruct (net_write _ _ _) as [r d];
        unfold handle_write_result; destruct (classify r) as [v|[e|e|]];
        intros; simplify_eq; unfold sent; simpl; by rewrite <- app_assoc.
    + destruct Ho as [-> Ho]. intros; simplify_eq. right. unfold sent; simpl.
      by rewrite app_nil_r.
Qed.

(** C6: commands reach the device in the order they were queued and sent, the
    parked ones first, each once: what the device was sent, followed by what is
    still pending, is the original sequence, less the terminate command that
    ended the run. *)
Theorem commands_in_order timeout events s cmds res s' cmds' :
  run_events rec_bits rec_words rec_write is_broadcast timeout events s cmds =
    Ret (res, s', cmds') →
  delivered res (sent s ++ pending cmds) (sent s') (pending cmds').
Proof.
  revert s cmds. induction events as [|ev events IH]; intros s cmds; simpl.
  { intros; by simplify_eq. }
  destruct (run_step _ _ _ _ _ _ _ _) as [[[r s1] c1]|] eqn:Hs; [|done]. cbn [mbind outcome_bind].
  apply run_step_delivers in Hs. destruct r as [r|]; [intros; by simplify_eq|].
  intros Hrun%IH. simpl in Hs. by rewrite Hs in Hrun.
Qed.
End delivery.

(** ** What polling asks the device *)

Section polling.
Context {T : Type} `{KeyParams T} {Tap AE TLE RE D : Type}.
Context (net_read_bits : Z → D → UnitId → FunctionCode → Z → Z → Timed (list bool) RE * D).
Context (net_read_words : Z → D → UnitId → FunctionCode → Z → Z → Timed (list Z) RE * D).
Context (net_write : Z → D → Command → Timed unit RE * D).
Context (is_broadcast : UnitId → bool).

(** A read on the wire. *)
Record ReadRequest := mkReadRequest {
  rq_bits : bool;
  rq_slave : UnitId;
  rq_function : FunctionCode;
  rq_address : Z;
  rq_count : Z
}.

(** Any device, with a record of the reads it was asked for. *)
Definition ask_bits timeout (d : D * list ReadRequest) slave fc a n :=
  let '(r, d') := net_read_bits timeout d.1 slave fc a n in
  (r, (d', d.2 ++ [mkReadRequest true slave fc a n])).
Definition ask_words timeout (d : D * list ReadRequest) slave fc a n :=
  let '(r, d') := net_read_words timeout d.1 slave fc a n in
  (r, (d', d.2 ++ [mkReadRequest false slave fc a n])).
Definition ask_write timeout (d : D * list ReadRequest) cmd :=
  let '(r, d') := net_write timeout d.1 cmd in (r, (d', d.2)).

Implicit Types (s : CliState T Tap AE TLE RE (D * list ReadRequest)) (ops : list Operation).

Definition asked s : list ReadRequest := (cs_dev s).2.

(** The read an operation stands for. *)
Definition request (op : Operation) : ReadRequest :=
  mkReadRequest (match op_fn_code op with FC_ReadCoils | FC_ReadDiscreteInputs => true | _ => false end)
    (op_slave_id op) (op_fn_code op) (r_start (op_range op)) (Range_length (op_range op)).

Abbreviation refused := (locally_refused is_broadcast).
Abbreviation read := (client_read ask_bits ask_words is_broadcast).
Abbreviation reaches := (ticks ask_bits ask_words is_broadcast ask_write).

Lemma u16_try_from_ok z : 0 <= z <= 65535 → u16_try_from z = Some z.
Proof. intros Hz. unfold u16_try_from. destruct (_ && _) eqn:E; [done|]. zbool; lia. Qed.

(** One read asks the device for exactly its operation, unless it is refused. *)
Lemma client_read_asks timeout s op :
  Range_wf (op_range op) →
  refused op ∧ asked (read timeout s op).2 = asked s ∨
  ¬ refused op ∧ asked (read timeout s op).2 = asked s ++ [request op].
Proof.
  intros [[H0 Hle] _].
  assert (¬ refused op → is_broadcast (op_slave_id op) = false ∧ r_start (op_range op) <= 65535 ∧
    Range_length (op_range op) <= 65535 ∧ op_fn_code op ∈
      [FC_ReadCoils; FC_ReadDiscreteInputs; FC_ReadInputRegisters; FC_ReadHoldingRegisters]) as Hsend.
  { unfold locally_refused. intros Hn. destruct (is_broadcast _); [destruct Hn; by left|].
    split; [done|]. split; [|split]; [apply Z.le_ngt; tauto|apply Z.le_ngt; tauto|].
    apply dec_stable. tauto. }
  assert (refused op ∨ ¬ refused op) as [Hr|Hn].
  { unfold locally_refused. destruct (is_broadcast _); [by left; left|].
    destruct (decide (65535 < r_start (op_range op))), (decide (65535 < Range_length (op_range op)));
      try tauto. match goal with |- context [?a ∉ ?l] => destruct (decide (a ∈ l)) end; [right|tauto].
    intros [?|[?|[?|?]]]; done. }
  - left. split; [done|].
    destruct (client_read_refused ask_bits ask_words is_broadcast timeout s op Hr) as (? & ? & s' & -> & Hd).
    unfold asked. simpl. by rewrite Hd.
  - right. split; [done|]. destruct (Hsend Hn) as (Hb & Hs & Hl & Hf). unfold Range_length in Hl.
    unfold client_read. rewrite !u16_try_from_ok, Hb by lia. unfold asked, request, Range_length.
    rewrite !elem_of_cons in Hf. destruct Hf as [Hf|[Hf|[Hf|[Hf|?%not_elem_of_nil]]]]; [..|done];
      rewrite Hf; unfold ask_bits, ask_words; simpl; by destruct (_ timeout _ _ _ _ _).
Qed.

(** A tick that leaves the client connected asks for the operation under the
    cursor. *)
Lemma tick_asks timeout ops s s' op :
  state_ok s → Forall (λ op, Range_wf (op_range op)) ops →
  ops !! Z.to_nat (poll_index ops s) = Some op → reaches timeout ops 1 s s' →
  refused op ∧ asked s' = asked s ∨ ¬ refused op ∧ asked s' = asked s ++ [request op].
Proof.
  intros [Hm Hc] Hops Hop Ht.
  destruct (poll_once_cases ask_bits ask_words is_broadcast timeout ops s op Hm Hops Hop)
    as (res & s1 & Heq & _ & _ & Hcase).
  specialize (Ht (mkCommands [] [])). simpl in Ht. rewrite Heq in Ht. cbn [mbind outcome_bind] in Ht.
  destruct res as [u|e]; [|done]. injection Ht as ->.
  pose proof (client_read_asks timeout (at_index ops s) op (Forall_lookup_1 _ _ _ _ Hops Hop)) as Ha.
  destruct (read timeout (at_index ops s) op) as [[name outcome] s1]. destruct Hcase as [Hd _].
  unfold asked in *. rewrite Hd. exact Ha.
Qed.

(** Ticks ask for operations only. *)
Lemma ticks_ask timeout ops k s s' :
  state_ok s → Forall (λ op, Range_wf (op_range op)) ops → ops ≠ [] → reaches timeout ops k s s' →
  state_ok s' ∧ ∃ l, asked s' = asked s ++ l ∧
    ∀ rq, rq ∈ l → ∃ op, op ∈ ops ∧ ¬ refused op ∧ rq = request op.
Proof.
  intros Hs Hops Hne. revert s Hs. induction k as [|k IH]; intros s Hs Ht.
  { specialize (Ht (mkCommands [] [])). injection Ht as ->. split; [done|]. exists [].
    rewrite app_nil_r. split; [done|]. by intros ? ?%not_elem_of_nil. }
  destruct (ticks_first _ _ _ _ timeout ops k s s' Hs Hops Hne Ht) as (s1 & H1 & Hk & Hs1 & _).
  destruct (IH s1 Hs1 Hk) as (Hs' & l & Hl & Hall). split; [done|].
  destruct (poll_op ask_bits ask_words is_broadcast ops s (proj2 Hs) Hne) as [op Hop].
  destruct (tick_asks timeout ops s s1 op Hs Hops Hop H1) as [[_ Ha]|[Hn Ha]]; rewrite Ha in Hl.
  - by exists l.
  - exists (request op :: l). rewrite Hl, <- app_assoc. split; [done|].
    intros rq [->|Hin]%elem_of_cons; [|by apply Hall]. exists op.
    split; [by eapply list_elem_of_lookup_2|done].
Qed.

(** C4: polling is fair: in any [3 n] consecutive ticks over [n] operations that
    leave the client connected, whatever the device answers, every operation
    that may go on the wire (not to the broadcast address, a 16-bit address and
    count, a read function) is asked of the device at least once, as the read it
    stands for; and nothing else is asked. *)
Theorem poll_fair timeout ops s s' :
  state_ok s → Forall (λ op, Range_wf (op_range op)) ops →
  reaches timeout ops (3 * length ops) s s' →
  ∃ l, asked s' = asked s ++ l ∧
    (∀ op, op ∈ ops → ¬ refused op → request op ∈ l) ∧
    ∀ rq, rq ∈ l → ∃ op, op ∈ ops ∧ ¬ refused op ∧ rq = request op.
Proof.
  intros Hs Hops Ht. destruct (decide (ops = [])) as [->|Hne].
  { specialize (Ht (mkCommands [] [])). injection Ht as ->. exists [].
    rewrite app_nil_r. split_and!; [done|by intros ? ?%not_elem_of_nil..]. }
  destruct (ticks_ask timeout ops _ s s' Hs Hops Hne Ht) as (_ & l & Hl & Hall).
  exists l. split_and!; [done| |done]. intros op [i Hi]%list_elem_of_lookup_1 Hn.
  destruct (ticks_reach_all _ _ _ _ timeout ops s s' i Hs Hops (lookup_lt_Some _ _ _ Hi) Ht)
    as (k & sk & Hk & Htk & Hik).
  destruct (ticks_ask timeout ops k s sk Hs Hops Hne Htk) as (Hsk & l1 & Hl1 & _).
  assert (reaches timeout ops (S (3 * length ops - k - 1)) sk s') as Hrest.
  { intros cmds. specialize (Ht cmds).
    replace (3 * length ops)%nat with (k + S (3 * length ops - k - 1))%nat in Ht by lia.
    by rewrite replicate_add, run_app, (Htk cmds) in Ht. }
  destruct (ticks_first _ _ _ _ timeout ops _ sk s' Hsk Hops Hne Hrest) as (s1 & H1 & H2 & Hs1 & _).
  assert (ops !! Z.to_nat (poll_index ops sk) = Some op) as Hop by (by rewrite Hik, Nat2Z.id).
  destruct (tick_asks timeout ops sk s1 op Hsk Hops Hop H1) as [[? _]|[_ Ha]]; [done|].
  destruct (ticks_ask timeout ops _ s1 s' Hs1 Hops Hne H2) as (_ & l2 & Hl2 & _).
  rewrite Ha, Hl1, <- !app_assoc, Hl in Hl2. apply app_inv_head in Hl2. subst l.
  apply elem_of_app. right. apply list_elem_of_here.
Qed.
End polling.

(** ** An example client

    A device that answers register reads with the addresses asked for, refuses
    everything at or beyond address 100 and drops the link at 200. *)

Definition demo_answer {V} (a : Z) (v : V) : Timed V unit :=
  if a <? 100 then TM_Done (Ok v)
  else if a <? 200 then TM_Done (Err (NE_Exception EX_IllegalDataAddress))
  else TM_Elapsed.

Definition demo_bits (timeout : Z) (d : unit) (slave : UnitId) (fc : FunctionCode) (a n : Z)
  : Timed (list bool) unit * unit := (demo_answer a (Z.odd <$> seqZ a n), d).
Definition demo_words (timeout : Z) (d : unit) (slave : UnitId) (fc : FunctionCode) (a n : Z)
  : Timed (list Z) unit * unit := (demo_answer a (seqZ a n), d).
Definition demo_net_write (timeout : Z) (d : unit) (cmd : Command) : Timed unit unit * unit :=
  (TM_Done (Ok tt), d).
Definition demo_broadcast (slave : UnitId) : bool := slave =? 0.

Definition demo_op (a n : Z) : Operation :=
  mkOperation 1 FC_ReadHoldingRegisters (mkRange a (a + n)).
Definition demo_operations : list Operation := [demo_op 2 3; demo_op 100 4; demo_op 6 2].

Definition demo_client_key : Key SlaveKey := mkKey (mkSlaveKey 1 K_HoldingRegister).
Definition demo_client_store : Memory (Key SlaveKey) unit :=
  match Memory_add_ranges Memory_default demo_client_key (CellKind_read CT_Register)
          [mkRange 0 10] with
  | Ret (_, m) => m
  | Panic => Memory_default
  end.

Definition demo_cli : CliState SlaveKey unit unit unit unit unit :=
  @mkCliState SlaveKey SlaveKey_params _ _ _ _ _ tt demo_client_store [] [] [] 0 0 false.

Lemma demo_client_store_wf : Memory_wf demo_client_store.
Proof.
  unfold demo_client_store.
  destruct (Memory_add_ranges_refines (Memory_default : Memory (Key SlaveKey) unit)
    demo_client_key (CellKind_read CT_Register) [mkRange 0 10]) as (m & Heq & Hwf & _).
  - apply Memory_wf_default.
  - repeat constructor; unfold usize_max; simpl; lia.
  - by rewrite Heq.
Qed.

Lemma demo_operations_wf : Forall (λ op, Range_wf (op_range op)) demo_operations.
Proof. repeat constructor; unfold usize_max; simpl; lia. Qed.

Lemma demo_cli_ok : state_ok demo_cli.
Proof.
  split; [apply demo_client_store_wf|]. unfold cursor_ok, MAX_RETRIES; simpl. lia.
Qed.

Abbreviation demo_read := (client_read demo_bits demo_words demo_broadcast).
Abbreviation demo_poll := (poll_once demo_bits demo_words demo_broadcast).
Abbreviation demo_run := (run_events demo_bits demo_words demo_net_write demo_broadcast).

Definition demo_ask_cli : CliState SlaveKey unit unit unit unit (unit * list ReadRequest) :=
  @mkCliState SlaveKey SlaveKey_params _ _ _ _ _ (tt, []) demo_client_store [] [] [] 0 0 false.

Lemma demo_ask_cli_ok : state_ok demo_ask_cli.
Proof.
  split; [apply demo_client_store_wf|]. unfold cursor_ok, MAX_RETRIES; simpl. lia.
Qed.

(** The state nine ticks later. *)
Definition demo_after_ticks : CliState SlaveKey unit unit unit unit (unit * list ReadRequest) :=
  match run_events (ask_bits demo_bits) (ask_words demo_words) (ask_write demo_net_write)
      demo_broadcast 1000 (replicate 9 (EV_Tick demo_operations)) demo_ask_cli (mkCommands [] []) with
  | Ret (_, s, _) => s
  | Panic => demo_ask_cli
  end.

(** Nine ticks ask for the third operation, past the one the device refuses. *)
Lemma poll_fair_witness :
  request (demo_op 6 2) = mkReadRequest false 1 FC_ReadHoldingRegisters 6 2 ∧
  request (demo_op 6 2) ∈ asked demo_after_ticks.
Proof.
  split; [reflexivity|].
  destruct (poll_fair demo_bits demo_words demo_net_write demo_broadcast 1000 demo_operations
    demo_ask_cli demo_after_ticks) as (l & Hl & Hall & _).
  - apply demo_ask_cli_ok.
  - apply demo_operations_wf.
  - intros [receiver queued]. vm_compute. reflexivity.
  - rewrite Hl. apply Hall.
    + unfold demo_operations. do 2 apply list_elem_of_further. apply list_elem_of_here.
    + intros [Hb|[Hs|[Hn|Hf]]]; [discriminate Hb|discriminate Hs|discriminate Hn|].
      apply Hf. do 3 apply list_elem_of_further. apply list_elem_of_here.
Defined.

Lemma poll_stores_answer_witness :
  ∃ s', demo_poll 1000 demo_operations demo_cli = Ret (Ok tt, s') ∧
    Memory_read_unchecked (cs_memory s') demo_client_key (mkRange 2 5) = Ret (Some [2; 3; 4]).
Proof.
  edestruct (poll_stores_answer demo_bits demo_words demo_broadcast 1000 demo_operations demo_cli)
    as (s' & Heq & Hread & _).
  - apply demo_client_store_wf.
  - apply demo_operations_wf.
  - reflexivity.
  - reflexivity.
  - reflexivity.
  - vm_compute. by eexists.
  - exists s'. split; [exact Heq|exact Hread].
Defined.

(** A poll of the broadcast address. *)
Lemma local_refusal_witness :
  ∃ s', demo_poll 1000 [mkOperation 0 FC_ReadCoils (mkRange 0 8)] demo_cli = Ret (Ok tt, s') ∧
    cs_memory s' = demo_client_store.
Proof.
  destruct (local_refusal demo_bits demo_words demo_broadcast 1000
    [mkOperation 0 FC_ReadCoils (mkRange 0 8)] demo_cli
    (mkOperation 0 FC_ReadCoils (mkRange 0 8))) as (s' & Heq & _ & Hm & _).
  - apply demo_client_store_wf.
  - repeat constructor; unfold usize_max; simpl; lia.
  - reflexivity.
  - by left.
  - exists s'. split; [exact Heq|exact Hm].
Defined.

(** Two ticks, a write, then the channel closes. *)
Definition demo_events : list RunEvent :=
  [EV_Tick demo_operations; EV_Recv; EV_Tick demo_operations; EV_Recv].
Definition demo_commands : Commands Command :=
  mkCommands [] [CMD_WriteSingleRegister 1 3 77].

Lemma demo_run_result :
  match client_run demo_bits demo_words demo_net_write demo_broadcast 1000 demo_events
          demo_cli demo_commands with
  | Ret (Some (true, Ok _), _, _) => true
  | _ => false
  end = true.
Proof. vm_compute. reflexivity. Qed.

Lemma client_run_ends_witness :
  ∃ s' cmds', client_run demo_bits demo_words demo_net_write demo_broadcast 1000 demo_events
      demo_cli demo_commands = Ret (Some (true, Ok tt), s', cmds') ∧
    cs_status s' = [ST_Disconnected].
Proof.
  destruct (client_run_ends demo_bits demo_words demo_broadcast demo_net_write 1000 demo_events
    demo_cli demo_commands) as (res & s' & cmds' & Heq & _ & Hst).
  - apply demo_client_store_wf.
  - repeat constructor; unfold usize_max; simpl; lia.
  - pose proof demo_run_result as Hr. rewrite Heq in Hr.
    destruct res as [[[] [[]|]]|]; try discriminate.
    exists s', cmds'. split; [exact Heq|exact (proj2 (proj2 Hst))].
Defined.

Definition demo_rec_cli : CliState SlaveKey unit unit unit unit (unit * list Command) :=
  @mkCliState SlaveKey SlaveKey_params _ _ _ _ _ (tt, []) demo_client_store [] [] [] 0 0 false.

(** The result of running [demo_events] against the recording device. *)
Definition demo_recorded :=
  run_events (rec_bits demo_bits) (rec_words demo_words) (rec_write demo_net_write) demo_broadcast
    1000 demo_events demo_rec_cli demo_commands.

Lemma demo_recorded_result :
  match demo_recorded with Ret (Some (Ok _), _, _) => true | _ => false end = true.
Proof. vm_compute. reflexivity. Qed.

Lemma commands_in_order_witness :
  match demo_recorded with
  | Ret (res, s', cmds') =>
      res = Some (Ok tt) ∧
      delivered res [CMD_WriteSingleRegister 1 3 77] (sent s') (pending cmds')
  | Panic => False
  end.
Proof.
  pose proof demo_recorded_result as Hr.
  destruct demo_recorded as [[[res s'] cmds']|] eqn:Heq; [|discriminate].
  split.
  - destruct res as [[[]|]|]; [reflexivity|discriminate|discriminate].
  - apply (commands_in_order demo_bits demo_words demo_net_write demo_broadcast 1000 demo_events
      demo_rec_cli demo_commands res s' cmds'). exact Heq.
Defined.

(** Two rounds: a connect that fails while a command is parked, then, after the
    wait, one that is terminated. *)
Definition demo_connect (client : Result unit (Error unit unit unit)) : ConnectAttempt :=
  mkConnectAttempt true 1000 0 100 client.
Definition demo_rounds : list (@Round unit unit unit unit) :=
  [mkRound [RC_Recv; RC_Future] (demo_connect (Err (ER_Tcp TE_Timeout))) [] [];
   mkRound [RC_Future] (demo_connect (Ok tt)) demo_events []].
Definition demo_loop : LoopState SlaveKey unit unit unit unit unit :=
  @mkLoopState SlaveKey SlaveKey_params _ _ _ _ _ demo_cli
    [CMD_WriteSingleRegister 1 3 77] false [] demo_rounds.

Lemma demo_loop_result :
  match run_reconnect_loop demo_bits demo_words demo_net_write demo_broadcast 5 demo_loop with
  | Ret (Some (Ok _), _) => true
  | _ => false
  end = true.
Proof. vm_compute. reflexivity. Qed.

Lemma reconnect_loop_ends_witness :
  ∃ ls', run_reconnect_loop demo_bits demo_words demo_net_write demo_broadcast 5 demo_loop =
      Ret (Some (Ok tt), ls') ∧ loop_ended ls'.
Proof.
  destruct (reconnect_loop_ends demo_bits demo_words demo_net_write demo_broadcast 5 demo_loop)
    as (res & ls' & Heq & Hend).
  - split; [apply demo_client_store_wf|]. split; [done|].
    repeat constructor; unfold usize_max; simpl; lia.
  - pose proof demo_loop_result as Hr. rewrite Heq in Hr.
    destruct res as [[[]|]|]; try discriminate.
    exists ls'. split; [exact Heq|exact Hend].
Defined.

(** A command parked during a connect that succeeds, behind a first poll that
    times out: the write is neither sent nor logged as dropped. *)
Definition demo_lost_rounds : list (@Round unit unit unit (unit * list Command)) :=
  [mkRound [RC_Recv; RC_Future]
     (mkConnectAttempt false 1000 0 100 (Ok (tt, []))) [EV_Tick [demo_op 200 1]] []].
Definition demo_lost_loop : LoopState SlaveKey unit unit unit unit (unit * list Command) :=
  @mkLoopState SlaveKey SlaveKey_params _ _ _ _ _ demo_rec_cli
    [CMD_WriteSingleRegister 1 3 77] false [] demo_lost_rounds.

(** A parked command can be lost: it was taken off the channel, the device was
    never sent it, and no log line says it was dropped. *)
Theorem parked_command_lost :
  ∃ ls', run_reconnect_loop (rec_bits demo_bits) (rec_words demo_words) (rec_write demo_net_write)
      demo_broadcast 1 demo_lost_loop = Ret (Some (Err (ER_Modbus ME_Timeout)), ls') ∧
    ls_receiver ls' = [] ∧ sent (ls_cli ls') = [] ∧
    (L_Warning, CM_CommandDropped) ∉ cs_log (ls_cli ls').
Proof.
  eexists. split; [vm_compute; reflexivity|]. split_and!; [done|done|].
  simpl. set_solver.
Qed.
