(* ===== verification/Monitor.v ===== *)
(** * The bus monitor

    Models [ferrowl-modbus/src/monitor/]: the observed-value table
    ([table.rs]), the per-slave record rings ([record.rs]), the request/response
    matching of captured frames and the receive loop with its reopening of the
    serial port ([core.rs]). Decoding a frame is the framing library's; an
    [Instant] is a number of nanoseconds, read once per frame. *)

From stdpp Require Import base list gmap sorting numbers strings.
From S2P Require Import Prelude BTree Slice Codec Key Channel Backoff ServerRun.

Local Open Scope Z_scope.

(** ** The observed-value table *)

Record ObservedTable := mkObservedTable {
  ot_values : gmap (Key SlaveKey) (gmap Z Z);
  ot_seen : gset UnitId
}.

Definition ObservedTable_default : ObservedTable := mkObservedTable ∅ ∅.

(** [address.checked_add(offset as u16)]. *)
Definition u16_checked_add (address offset : Z) : option Z :=
  let sum := address + as_uint 16 offset in
  if sum <? 65536 then Some sum else None.

Fixpoint insert_words (region : gmap Z Z) (address offset : Z) (words : list Z) : gmap Z Z :=
  match words with
  | [] => region
  | word :: words' =>
      match u16_checked_add address offset with
      | None => region
      | Some addr => insert_words (<[addr := word]> region) address (offset + 1) words'
      end
  end.

Definition table_write_words (t : ObservedTable) (key : Key SlaveKey) (address : Z)
    (words : list Z) : ObservedTable :=
  let region := default ∅ (ot_values t !! key) in
  mkObservedTable (<[key := insert_words region address 0 words]> (ot_values t)) (ot_seen t).

Definition table_read_words (t : ObservedTable) (key : Key SlaveKey) (address : Z) (width : nat)
  : option (list Z) :=
  region ← ot_values t !! key;
  mapM (λ offset, addr ← u16_checked_add address (Z.of_nat offset); region !! addr) (seq 0 width).

Definition addr_le (p q : Z * Z) : Prop := p.1 <= q.1.
#[export] Instance addr_le_dec : RelDecision addr_le.
Proof. intros p q. unfold addr_le. apply _. Defined.

(** In address order. *)
Definition table_dump (t : ObservedTable) (key : Key SlaveKey) : list (Z * Z) :=
  match ot_values t !! key with
  | None => []
  | Some region => merge_sort addr_le (map_to_list region)
  end.

Definition table_mark_seen (t : ObservedTable) (slave : UnitId) : ObservedTable :=
  mkObservedTable (ot_values t) ({[slave]} ∪ ot_seen t).

Definition table_unit_ids (t : ObservedTable) : list UnitId :=
  merge_sort Z.le (elements
    (list_to_set ((λ key : Key SlaveKey, sk_slave_id (key_id key)) <$> (map_to_list (ot_values t)).*1)
       ∪ ot_seen t : gset UnitId)).

(** ** Records *)

Inductive RecordStatus := RST_Ok | RST_Unmatched | RST_Exception (e : ExceptionCode).

Record TableShape := mkTableShape {
  ts_kind : Kind;
  ts_address : Z;
  ts_quantity : Z;
  ts_write_address : option Z;
  ts_write_quantity : option Z;
  ts_values : list Z
}.

Record MonitorRecord := mkMonitorRecord {
  mr_timestamp : Z;
  mr_status : RecordStatus;
  mr_operation : FunctionCode;
  mr_shape : option TableShape
}.

Definition RECORD_RING_CAPACITY : nat := 200.

(** The generation is a [u64]. *)
Record SlaveRing := mkSlaveRing { slr_ring : list MonitorRecord; slr_generation : Z }.

Abbreviation RecordLog := (gmap UnitId SlaveRing).

Definition record_push (l : RecordLog) (slave : UnitId) (record : MonitorRecord) : RecordLog :=
  let entry := default (mkSlaveRing [] 0) (l !! slave) in
  let ring := if Nat.eqb (length (slr_ring entry)) RECORD_RING_CAPACITY
              then drop 1 (slr_ring entry) else slr_ring entry in
  <[slave := mkSlaveRing (ring ++ [record]) (as_uint 64 (slr_generation entry + 1))]> l.

Definition records_for (l : RecordLog) (slave : UnitId) : list MonitorRecord :=
  default [] (slr_ring <$> l !! slave).

Definition generation_for (l : RecordLog) (slave : UnitId) : Z :=
  default 0 (slr_generation <$> l !! slave).

Definition recent_for (l : RecordLog) (slave : UnitId) (n : nat) : list MonitorRecord :=
  match l !! slave with
  | Some e => drop (length (slr_ring e) - n) (slr_ring e)
  | None => []
  end.

(** [duration_since] saturates at zero. *)
Definition recency_active_at (records : list MonitorRecord) (kind : Kind) (address now : Z) : bool :=
  existsb (λ r,
    (Z.max 0 (now - mr_timestamp r) <? from_secs 2) &&
    match mr_shape r with
    | None => false
    | Some s =>
        bool_decide (ts_kind s = kind) && (ts_address s <=? address) &&
        (address <? ts_address s + ts_quantity s)
    end) (rev records).

(** ** Shapes *)

Definition bit_words (bits : list bool) : list Z := (λ b : bool, if b then 1 else 0) <$> bits.

(** [len() as u16]. *)
Definition len_u16 {A} (l : list A) : Z := as_uint 16 (Z.of_nat (length l)).

Definition shape (kind : Kind) (address quantity : Z) (values : list Z) : option TableShape :=
  Some (mkTableShape kind address quantity None None values).

Definition shape_from_pair (request : RequestPdu) (response : ResponsePdu) : option TableShape :=
  match request, response with
  | RQ_ReadCoils address quantity, RS_ReadCoils coils =>
      shape K_Coil address quantity (bit_words coils)
  | RQ_ReadDiscreteInputs address quantity, RS_ReadDiscreteInputs inputs =>
      shape K_DiscreteInput address quantity (bit_words inputs)
  | RQ_ReadHoldingRegisters address quantity, RS_ReadHoldingRegisters registers =>
      shape K_HoldingRegister address quantity registers
  | RQ_ReadInputRegisters address quantity, RS_ReadInputRegisters registers =>
      shape K_InputRegister address quantity registers
  | RQ_WriteSingleCoil address value, RS_WriteSingleCoil _ _ =>
      shape K_Coil address 1 (bit_words [value])
  | RQ_WriteSingleRegister address value, RS_WriteSingleRegister _ _ =>
      shape K_HoldingRegister address 1 [value]
  | RQ_WriteMultipleCoils address coils, RS_WriteMultipleCoils _ _ =>
      shape K_Coil address (len_u16 coils) (bit_words coils)
  | RQ_WriteMultipleRegisters address registers, RS_WriteMultipleRegisters _ _ =>
      shape K_HoldingRegister address (len_u16 registers) registers
  | RQ_ReadWriteMultipleRegisters read_address read_quantity write_address registers,
    RS_ReadWriteMultipleRegisters read_values =>
      Some (mkTableShape K_HoldingRegister read_address read_quantity (Some write_address)
              (Some (len_u16 registers)) read_values)
  | _, _ => None
  end.

Definition shape_from_broadcast (request : RequestPdu) : option TableShape :=
  match request with
  | RQ_WriteSingleCoil address value => shape K_Coil address 1 (bit_words [value])
  | RQ_WriteSingleRegister address value => shape K_HoldingRegister address 1 [value]
  | RQ_WriteMultipleCoils address coils => shape K_Coil address (len_u16 coils) (bit_words coils)
  | RQ_WriteMultipleRegisters address registers =>
      shape K_HoldingRegister address (len_u16 registers) registers
  | RQ_ReadWriteMultipleRegisters _ _ write_address registers =>
      shape K_HoldingRegister write_address (len_u16 registers) registers
  | _ => None
  end.

Definition shape_address_only (request : RequestPdu) : option TableShape :=
  match request with
  | RQ_ReadCoils address quantity => shape K_Coil address quantity []
  | RQ_ReadDiscreteInputs address quantity => shape K_DiscreteInput address quantity []
  | RQ_ReadHoldingRegisters address quantity => shape K_HoldingRegister address quantity []
  | RQ_ReadInputRegisters address quantity => shape K_InputRegister address quantity []
  | RQ_WriteSingleCoil address _ => shape K_Coil address 1 []
  | RQ_WriteSingleRegister address _ => shape K_HoldingRegister address 1 []
  | RQ_WriteMultipleCoils address coils => shape K_Coil address (len_u16 coils) []
  | RQ_WriteMultipleRegisters address registers =>
      shape K_HoldingRegister address (len_u16 registers) []
  | RQ_ReadWriteMultipleRegisters read_address read_quantity write_address registers =>
      Some (mkTableShape K_HoldingRegister read_address read_quantity (Some write_address)
              (Some (len_u16 registers)) [])
  | RQ_Other _ => None
  end.

(** ** Applying traffic to the table *)

Definition write_words (slave : UnitId) (kind : Kind) (address : Z) (words : list Z)
    (table : ObservedTable) : ObservedTable :=
  table_write_words table (mkKey (mkSlaveKey slave kind)) address words.

Definition write_bits (slave : UnitId) (kind : Kind) (address : Z) (bits : list bool)
    (table : ObservedTable) : ObservedTable :=
  write_words slave kind address (bit_words bits) table.

Definition write_regs (slave : UnitId) (kind : Kind) (address : Z) (regs : list Z)
    (table : ObservedTable) : ObservedTable :=
  write_words slave kind address regs table.

Definition apply_matched (slave : UnitId) (request : RequestPdu) (response : ResponsePdu)
    (table : ObservedTable) : ObservedTable :=
  match response with
  | RS_Exception _ _ => table
  | _ =>
  match request, response with
  | RQ_ReadCoils address _, RS_ReadCoils coils => write_bits slave K_Coil address coils table
  | RQ_ReadDiscreteInputs address _, RS_ReadDiscreteInputs inputs =>
      write_bits slave K_DiscreteInput address inputs table
  | RQ_ReadHoldingRegisters address _, RS_ReadHoldingRegisters registers =>
      write_regs slave K_HoldingRegister address registers table
  | RQ_ReadInputRegisters address _, RS_ReadInputRegisters registers =>
      write_regs slave K_InputRegister address registers table
  | RQ_WriteSingleCoil address value, RS_WriteSingleCoil _ _ =>
      write_bits slave K_Coil address [value] table
  | RQ_WriteSingleRegister address value, RS_WriteSingleRegister _ _ =>
      write_words slave K_HoldingRegister address [value] table
  | RQ_WriteMultipleCoils address coils, RS_WriteMultipleCoils _ _ =>
      write_bits slave K_Coil address coils table
  | RQ_WriteMultipleRegisters address registers, RS_WriteMultipleRegisters _ _ =>
      write_regs slave K_HoldingRegister address registers table
  | RQ_ReadWriteMultipleRegisters read_address _ write_address registers,
    RS_ReadWriteMultipleRegisters read_values =>
      write_regs slave K_HoldingRegister write_address registers
        (write_regs slave K_HoldingRegister read_address read_values table)
  | _, _ => table
  end
  end.

Definition apply_broadcast (slave : UnitId) (request : RequestPdu) (table : ObservedTable)
  : ObservedTable :=
  match request with
  | RQ_WriteSingleCoil address value => write_bits slave K_Coil address [value] table
  | RQ_WriteSingleRegister address value =>
      write_words slave K_HoldingRegister address [value] table
  | RQ_WriteMultipleCoils address coils => write_bits slave K_Coil address coils table
  | RQ_WriteMultipleRegisters address registers =>
      write_regs slave K_HoldingRegister address registers table
  | RQ_ReadWriteMultipleRegisters _ _ write_address registers =>
      write_regs slave K_HoldingRegister write_address registers table
  | _ => table
  end.

(** ** Matching requests and responses *)

Inductive MonMsg (RE : Type) :=
| MM_Complete (slave : UnitId) (request : RequestPdu) (response : option ResponsePdu)
| MM_Unmatched (slave : UnitId) (request : RequestPdu)
| MM_Malformed (e : RE)
| MM_MalformedAwaiting
| MM_PathInUse (path other : string)
| MM_SerialOpenFailed (path : string) (e : RE)
| MM_SerialOpened (path : string).
Arguments MM_Complete {RE}.
Arguments MM_Unmatched {RE}.
Arguments MM_Malformed {RE}.
Arguments MM_MalformedAwaiting {RE}.
Arguments MM_PathInUse {RE}.
Arguments MM_SerialOpenFailed {RE}.
Arguments MM_SerialOpened {RE}.

Inductive MatchState :=
| ExpectRequest
| ExpectResponse (slave : UnitId) (function : FunctionCode) (request : RequestPdu).

Section matching.
Context {Frame RE AE TLE : Type}.
Context (decode_request : Frame → Result (UnitId * RequestPdu) RE).
Context (decode_response : Frame → Result (UnitId * ResponsePdu) RE).
(** [response.function()]. *)
Context (response_function : ResponsePdu → FunctionCode).

(** The shared table and records, and the log. *)
Record MonState := mkMonState {
  ms_table : ObservedTable;
  ms_records : RecordLog;
  ms_log : list (Level * MonMsg RE)
}.
Implicit Types (m : MonState).

Definition mon_log (level : Level) (msg : MonMsg RE) m : MonState :=
  mkMonState (ms_table m) (ms_records m) (ms_log m ++ [(level, msg)]).

Definition on_table (f : ObservedTable → ObservedTable) m : MonState :=
  mkMonState (f (ms_table m)) (ms_records m) (ms_log m).

Definition mon_push (slave : UnitId) (record : MonitorRecord) m : MonState :=
  mkMonState (ms_table m) (record_push (ms_records m) slave record) (ms_log m).

Definition log_complete (slave : UnitId) (request : RequestPdu) (response : option ResponsePdu) m
  : MonState := mon_log L_Info (MM_Complete slave request response) m.

Definition log_unmatched (slave : UnitId) (request : RequestPdu) m : MonState :=
  mon_log L_Warning (MM_Unmatched slave request) m.

Definition push_matched_record (now : Z) (slave : UnitId) (request : RequestPdu)
    (response : ResponsePdu) m : MonState :=
  let operation := request_function request in
  let '(status, shape) :=
    match response with
    | RS_Exception _ e => (RST_Exception e, shape_address_only request)
    | _ => (RST_Ok, shape_from_pair request response)
    end in
  mon_push slave (mkMonitorRecord now status operation shape) m.

Definition push_unmatched_record (now : Z) (slave : UnitId) (request : RequestPdu) m : MonState :=
  mon_push slave (mkMonitorRecord now RST_Unmatched (request_function request)
                    (shape_address_only request)) m.

Definition push_broadcast_record (now : Z) (slave : UnitId) (request : RequestPdu) m : MonState :=
  mon_push slave (mkMonitorRecord now RST_Ok (request_function request)
                    (shape_from_broadcast request)) m.

Definition handle_new_request (now : Z) (slave : UnitId) (request : RequestPdu) m
  : MatchState * MonState :=
  let m := on_table (λ t, table_mark_seen t slave) m in
  if slave =? 0 then
    let m := log_complete slave request None m in
    let m := push_broadcast_record now slave request m in
    let m := on_table (apply_broadcast slave request) m in
    (ExpectRequest, m)
  else (ExpectResponse slave (request_function request) request, m).

Definition process_frame (now : Z) (bytes : Frame) (state : MatchState) m
  : MatchState * MonState :=
  match state with
  | ExpectRequest =>
      match decode_request bytes with
      | Err e => (ExpectRequest, mon_log L_Warning (MM_Malformed e) m)
      | Ok (slave, request) => handle_new_request now slave request m
      end
  | ExpectResponse slave function request =>
      let other :=
        match decode_request bytes with
        | Ok (new_slave, new_request) =>
            let m := log_unmatched slave request m in
            let m := push_unmatched_record now slave request m in
            handle_new_request now new_slave new_request m
        | Err _ =>
            (ExpectResponse slave function request, mon_log L_Warning MM_MalformedAwaiting m)
        end in
      match decode_response bytes with
      | Ok (resp_slave, response) =>
          if (resp_slave =? slave) && bool_decide (response_function response = function) then
            let m := log_complete slave request (Some response) m in
            let m := push_matched_record now slave request response m in
            let m := on_table (apply_matched slave request response) m in
            (ExpectRequest, m)
          else other
      | Err _ => other
      end
  end.

(** ** The receive loop *)

Inductive MonitorEnd := ME_Terminated | ME_Failed (e : RE).

(** What the loop's [select!] sees: a frame with the time it is read, a failed
    read, or the command channel, whose every message ends it. *)
Inductive MonEvent := MV_Frame (now : Z) (bytes : Frame) | MV_Error (e : RE) | MV_Command.

(** [drive_monitor] with its [activity] flag; [None] while it runs. *)
Fixpoint drive_monitor (events : list MonEvent) (state : MatchState) (activity : bool)
    (receiver : Receiver ServerCommand) m
  : option MonitorEnd * bool * Receiver ServerCommand * MatchState * MonState :=
  match events with
  | [] => (None, activity, receiver, state, m)
  | MV_Frame now bytes :: events' =>
      let '(state, m) := process_frame now bytes state m in
      drive_monitor events' state true receiver m
  | MV_Error e :: _ => (Some (ME_Failed e), activity, receiver, state, m)
  | MV_Command :: _ =>
      let '(_, receiver) := recv receiver in
      (Some ME_Terminated, activity, receiver, state, m)
  end.

(** ** Opening and reopening the port *)

Record MonRound := mkMonRound {
  mo_reconnect : bool;
  mo_baud_rate : Z;
  mo_data_bits : option Z;
  mo_stop_bits : option Z;
  mo_parity : option string;
  mo_path : string;
  mo_expanded : string;
  mo_conflict : option string;
  mo_transport : Result unit RE;
  mo_open : Result unit RE;
  mo_events : list MonEvent;
  mo_wait : RaceEvent
}.

Record MonTask := mkMonTask {
  mt_state : MonState;
  mt_open : bool;
  mt_stopped : bool;
  mt_receiver : Receiver ServerCommand;
  mt_wait : RaceEvent;
  mt_rounds : list MonRound
}.

Definition mt_with (t : MonTask) m (receiver : Receiver ServerCommand) (open_ : bool) : MonTask :=
  mkMonTask m open_ (mt_stopped t) receiver (mt_wait t) (mt_rounds t).

Context (default_config : SerialConfig).

(** The closure [attempt] of [run_serial_monitor]. *)
Definition monitor_attempt (t : MonTask)
  : Outcome (option (AttemptOutcome (Error AE TLE RE)) * MonTask) :=
  match mt_rounds t with
  | [] => Ret (None, t)
  | rd :: rounds =>
      let t := mkMonTask (mt_state t) (mt_open t) (mt_stopped t) (mt_receiver t) (mo_wait rd)
                 rounds in
      let m := mt_state t in
      let reconnect := mo_reconnect rd in
      match serial_config_from default_config (mo_baud_rate rd) (mo_data_bits rd)
              (mo_stop_bits rd) (mo_parity rd) with
      | Err e => Ret (Some (AO_Failed (ER_Serial e) false false), t)
      | Ok _ =>
          match mo_conflict rd with
          | Some other =>
              let m := mon_log L_Warning (MM_PathInUse (mo_expanded rd) other) m in
              Ret (Some (AO_Failed (ER_PathConflict (mo_expanded rd) other) reconnect false),
                   mt_with t m (mt_receiver t) (mt_open t))
          | None =>
              match mo_transport rd with
              | Err e => Ret (Some (AO_Failed (ER_Serial (SERR_Error e)) false false), t)
              | Ok _ =>
                  match mo_open rd with
                  | Err e =>
                      let m := mon_log L_Error (MM_SerialOpenFailed (mo_path rd) e) m in
                      Ret (Some (AO_Failed (ER_Serial (SERR_Error e)) reconnect false),
                           mt_with t m (mt_receiver t) (mt_open t))
                  | Ok _ =>
                      let m := mon_log L_Info (MM_SerialOpened (mo_path rd)) m in
                      let '(end_, activity, receiver, _, m) :=
                        drive_monitor (mo_events rd) ExpectRequest false (mt_receiver t) m in
                      match end_ with
                      | None => Ret (None, mt_with t m receiver true)
                      | Some ME_Terminated => Ret (Some AO_Done, mt_with t m receiver false)
                      | Some (ME_Failed e) =>
                          Ret (Some (AO_Failed (ER_Server e) reconnect activity),
                               mt_with t m receiver false)
                      end
                  end
              end
          end
      end
  end.

Definition monitor_wait (backoff : Z) (t : MonTask) : bool * MonTask :=
  let '(aborted, receiver) := wait_reconnect_backoff (mt_wait t) (mt_receiver t) in
  (aborted, mt_with t (mt_state t) receiver (mt_open t)).

Definition run_serial_monitor (fuel : nat) (t : MonTask)
  : Outcome (option (Result unit (Error AE TLE RE)) * MonTask) :=
  '(res, t) ← run_with_backoff monitor_attempt monitor_wait BackoffPolicy_default fuel t;
  match res with
  | Some r =>
      Ret (Some r, mkMonTask (mt_state t) (mt_open t) true (mt_receiver t) (mt_wait t)
                     (mt_rounds t))
  | None => Ret (None, t)
  end.
End matching.
