(* ===== verification/MonitorProps.v ===== *)
(** * Properties of the bus monitor *)

From stdpp Require Import base list gmap sorting numbers strings.
From S2P Require Import Prelude BTree Slice Codec Key Channel Backoff ServerRun Monitor.

Local Open Scope Z_scope.

(** ** Record rings *)

(** The last [n] elements. *)
Definition lastn {A} (n : nat) (l : list A) : list A := drop (length l - n) l.

Lemma lastn_length {A} (n : nat) (l : list A) : length (lastn n l) = Nat.min n (length l).
Proof. unfold lastn. rewrite length_drop. lia. Qed.

Lemma lastn_snoc {A} (n : nat) (l : list A) (x : A) :
  (0 < n)%nat →
  lastn n (l ++ [x]) =
  (if Nat.eqb (length (lastn n l)) n then drop 1 (lastn n l) else lastn n l) ++ [x].
Proof.
  intros Hn. rewrite lastn_length. unfold lastn. rewrite length_app. simpl.
  destruct (Nat.eqb_spec (Nat.min n (length l)) n) as [E|E].
  - rewrite drop_drop, drop_app_le by lia. do 2 f_equal. lia.
  - replace (length l + 1 - n)%nat with 0%nat by lia.
    by replace (length l - n)%nat with 0%nat by lia.
Qed.

Lemma lastn_fmap {A B} (f : A → B) (n : nat) (l : list A) : f <$> lastn n l = lastn n (f <$> l).
Proof. unfold lastn. by rewrite fmap_drop, length_fmap. Qed.

Lemma as_uint_add (w a b : Z) : as_uint w (as_uint w a + b) = as_uint w (a + b).
Proof. unfold as_uint. apply Zplus_mod_idemp_l. Qed.

(** The ring invariant: a ring holds the last records pushed for its slave. *)
Definition ring_holds (l : RecordLog) (slave : UnitId) (pushed : list MonitorRecord) : Prop :=
  records_for l slave = lastn RECORD_RING_CAPACITY pushed ∧
  generation_for l slave = as_uint 64 (Z.of_nat (length pushed)).

Lemma ring_holds_empty slave : ring_holds ∅ slave [].
Proof. by split. Qed.

Lemma record_push_same l slave record pushed :
  ring_holds l slave pushed → ring_holds (record_push l slave record) slave (pushed ++ [record]).
Proof.
  unfold ring_holds, records_for, generation_for, record_push. intros [Hr Hg].
  rewrite lookup_insert_eq. rewrite lastn_snoc by (unfold RECORD_RING_CAPACITY; lia).
  rewrite length_app.
  rewrite Nat2Z.inj_add, <- (as_uint_add 64 (Z.of_nat (length pushed))), <- Hr, <- Hg.
  by destruct (l !! slave) as [e|].
Qed.

Lemma record_push_other l slave slave' record :
  slave' ≠ slave →
  records_for (record_push l slave record) slave' = records_for l slave' ∧
  generation_for (record_push l slave record) slave' = generation_for l slave' ∧
  ∀ n, recent_for (record_push l slave record) slave' n = recent_for l slave' n.
Proof.
  intros Hne. unfold records_for, generation_for, recent_for, record_push.
  by rewrite lookup_insert_ne.
Qed.

Lemma recent_for_lastn l slave n : recent_for l slave n = lastn n (records_for l slave).
Proof.
  unfold recent_for, records_for, lastn. by destruct (l !! slave).
Qed.

(** A sequence of pushes. *)
Definition push_all (l : RecordLog) (ps : list (UnitId * MonitorRecord)) : RecordLog :=
  foldl (λ l p, record_push l p.1 p.2) l ps.

(** The records of one slave, in push order. *)
Definition pushed_for (ps : list (UnitId * MonitorRecord)) (slave : UnitId) : list MonitorRecord :=
  (filter (λ p, p.1 = slave) ps).*2.

(** However records of different slaves interleave, a slave's ring holds
    exactly the last 200 pushed for it, oldest first; [recent_for] the last [n]
    of those; and the generation counts every push, evicted or not. *)
Theorem record_log_spec (ps : list (UnitId * MonitorRecord)) (slave : UnitId) (n : nat) :
  let l := push_all ∅ ps in
  records_for l slave = lastn 200 (pushed_for ps slave) ∧
  recent_for l slave n = lastn n (lastn 200 (pushed_for ps slave)) ∧
  generation_for l slave = as_uint 64 (Z.of_nat (length (pushed_for ps slave))).
Proof.
  assert (ring_holds (push_all ∅ ps) slave (pushed_for ps slave)) as [Hr Hg].
  { induction ps as [|[s r] ps IH] using rev_ind; [apply ring_holds_empty|].
    unfold push_all, pushed_for. rewrite foldl_snoc, filter_app, fmap_app. simpl.
    rewrite filter_cons. simpl. destruct (decide (s = slave)) as [->|Hne].
    - by apply record_push_same.
    - rewrite app_nil_r. unfold ring_holds.
      destruct (record_push_other (push_all ∅ ps) s slave r) as (Hr & Hg & _); [done|].
      unfold push_all in Hr, Hg. rewrite Hr, Hg. apply IH. }
  simpl. by rewrite recent_for_lastn, Hr, Hg.
Qed.

(** An address is shown as recently active exactly when some record of the
    list covers it and is less than two seconds old. *)
Theorem recency_active_spec records kind address now :
  recency_active_at records kind address now = true ↔
  ∃ r s, r ∈ records ∧ mr_shape r = Some s ∧ ts_kind s = kind ∧
    ts_address s <= address < ts_address s + ts_quantity s ∧
    now < mr_timestamp r + 2 * 10 ^ 9.
Proof.
  unfold recency_active_at. rewrite existsb_exists. setoid_rewrite <- in_rev.
  setoid_rewrite <- list_elem_of_In. unfold from_secs. split.
  - intros (r & Hin & Hb). zbool. destruct (mr_shape r) as [s|] eqn:Hs; [|done].
    zbool. rewrite bool_decide_eq_true in H0. exists r, s. split_and!; (done || lia).
  - intros (r & s & Hin & Hs & Hk & Ha & Ht). exists r. split; [done|]. rewrite Hs.
    rewrite bool_decide_eq_true_2 by done.
    apply andb_true_intro. split; [lia|]. simpl. apply andb_true_intro. split; lia.
Qed.

(** ** The observed values *)

(** The words of a region after writing [words] from [address + offset]. *)
Lemma insert_words_lookup (words : list Z) (region : gmap Z Z) (address offset a : Z) :
  0 <= address → 0 <= offset → address + offset + Z.of_nat (length words) <= 65536 →
  insert_words region address offset words !! a =
  if decide (address + offset <= a < address + offset + Z.of_nat (length words))
  then words !! Z.to_nat (a - (address + offset)) else region !! a.
Proof.
  revert region offset. induction words as [|w words IH]; intros region offset Ha Ho Hl; simpl in *.
  { rewrite decide_False by lia. done. }
  unfold u16_checked_add. rewrite as_uint_small by (unfold is_uint; lia).
  destruct (address + offset <? 65536) eqn:Hlt; zbool; [|lia].
  rewrite IH by lia. destruct (decide (a = address + offset)) as [->|Hne].
  - rewrite decide_False, decide_True by lia.
    rewrite lookup_insert_eq. by replace (Z.to_nat _) with 0%nat by lia.
  - destruct (decide (address + offset <= a < _)) as [Hin|Hout].
    + rewrite decide_True by lia.
      replace (Z.to_nat (a - (address + offset)))
        with (S (Z.to_nat (a - (address + (offset + 1))))) by lia. done.
    + rewrite decide_False by lia. by rewrite lookup_insert_ne.
Qed.

Lemma read_words_region (region : gmap Z Z) (address : Z) (words : list Z) :
  0 <= address → address + Z.of_nat (length words) <= 65536 →
  (∀ i w, words !! i = Some w → region !! (address + Z.of_nat i) = Some w) →
  mapM (λ offset, addr ← u16_checked_add address (Z.of_nat offset); region !! addr)
    (seq 0 (length words)) = Some words.
Proof.
  intros Ha Hl Hw. apply mapM_Some_2, Forall2_same_length_lookup_2.
  - by rewrite length_seq.
  - intros i k w Hk Hi. apply lookup_seq in Hk as [-> Hlt].
    unfold u16_checked_add. rewrite as_uint_small by (unfold is_uint; lia).
    destruct (_ <? _) eqn:E; zbool; [|lia]. simpl. by apply Hw.
Qed.

Lemma table_write_read_same t key address words :
  0 <= address → address + Z.of_nat (length words) <= 65536 →
  table_read_words (table_write_words t key address words) key address (length words) = Some words.
Proof.
  intros Ha Hl. unfold table_read_words, table_write_words; simpl. rewrite lookup_insert_eq. simpl.
  apply read_words_region; [done|done|]. intros i w Hi.
  pose proof (lookup_lt_Some _ _ _ Hi).
  rewrite insert_words_lookup by lia. rewrite decide_True by lia.
  by replace (Z.to_nat _) with i by lia.
Qed.

(** Words written to the observed table are read back; every other address
    of the region keeps its state, and an address never written stays
    distinguishable from one written with zero. *)
Theorem table_write_read t key address words :
  0 <= address → address + Z.of_nat (length words) <= 65536 →
  let t' := table_write_words t key address words in
  table_read_words t' key address (length words) = Some words ∧
  (∀ a, ¬ address <= a < address + Z.of_nat (length words) → 0 <= a < 65536 →
     table_read_words t' key a 1 =
     (region ← Some (default ∅ (ot_values t !! key)); w ← region !! a; Some [w])) ∧
  (∀ key' a n, key' ≠ key → table_read_words t' key' a n = table_read_words t key' a n).
Proof.
  intros Ha Hl t'. split_and!; [by apply table_write_read_same|..];
    unfold table_read_words, t', table_write_words; simpl; rewrite ?lookup_insert_eq; simpl.
  - intros a Hout Hr. unfold u16_checked_add. rewrite as_uint_small by (unfold is_uint; lia).
    rewrite Z.add_0_r. destruct (a <? 65536) eqn:E; zbool; [|lia]. simpl.
    rewrite insert_words_lookup by lia. rewrite decide_False by lia. done.
  - intros key' a n Hne. by rewrite lookup_insert_ne.
Qed.

Definition demo_mon_key : Key SlaveKey := mkKey (mkSlaveKey 3 K_HoldingRegister).

Lemma table_write_read_witness :
  table_read_words (table_write_words ObservedTable_default demo_mon_key 65533 [7; 0; 9])
    demo_mon_key 65533 3 = Some [7; 0; 9].
Proof.
  apply (table_write_read ObservedTable_default demo_mon_key 65533 [7; 0; 9]); simpl; lia.
Defined.

(** ** Matching *)

Section matching.
Context {Frame RE AE TLE : Type}.
Context (decode_request : Frame → Result (UnitId * RequestPdu) RE).
Context (decode_response : Frame → Result (UnitId * ResponsePdu) RE).
Context (response_function : ResponsePdu → FunctionCode).

Abbreviation step := (process_frame decode_request decode_response response_function).
Abbreviation drive := (drive_monitor decode_request decode_response response_function).
Implicit Types (m : MonState (RE := RE)) (st : MatchState).

(** A request on the bus. *)
Definition BusRequest : Type := UnitId * RequestPdu.

(** The request a frame is taken for, if any: a frame that answers the request
    being awaited is not one. *)
Definition new_request st (bytes : Frame) : option BusRequest :=
  let decoded := match decode_request bytes with Ok sr => Some sr | Err _ => None end in
  match st with
  | ExpectRequest => decoded
  | ExpectResponse slave function _ =>
      match decode_response bytes with
      | Ok (resp_slave, response) =>
          if (resp_slave =? slave) && bool_decide (response_function response = function)
          then None else decoded
      | Err _ => decoded
      end
  end.

(** The request still waiting for its response. *)
Definition awaiting st : list BusRequest :=
  match st with ExpectRequest => [] | ExpectResponse slave _ request => [(slave, request)] end.

(** The requests the log reports as completed or unmatched. *)
Definition line_request (l : Level * MonMsg RE) : option BusRequest :=
  match l.2 with
  | MM_Complete slave request _ | MM_Unmatched slave request => Some (slave, request)
  | _ => None
  end.
Definition resolved m : list BusRequest := omap line_request (ms_log m).

(** The requests seen during a run of the loop, in order. *)
Fixpoint requests_seen (events : list (MonEvent (Frame := Frame) (RE := RE))) st m
  : list BusRequest :=
  match events with
  | MV_Frame now bytes :: events' =>
      let '(st', m') := step now bytes st m in
      option_list (new_request st bytes) ++ requests_seen events' st' m'
  | _ => []
  end.

(** One slave's share. *)
Definition operations_of (rs : list BusRequest) (slave : UnitId) : list FunctionCode :=
  (λ r, request_function r.2) <$> filter (λ r, r.1 = slave) rs.

(** Log, records, table and matching state agree. *)
Definition mon_inv st m : Prop :=
  (∀ slave, ∃ pushed, ring_holds (ms_records m) slave pushed ∧
     mr_operation <$> pushed = operations_of (resolved m) slave) ∧
  (∀ slave, slave ∈ ot_seen (ms_table m) ↔ slave ∈ (resolved m ++ awaiting st).*1) ∧
  (∀ key, is_Some (ot_values (ms_table m) !! key) →
     sk_slave_id (key_id key) ∈ ot_seen (ms_table m)).

(** The cells a transaction may touch are its slave's. *)
Definition same_seen (slave : UnitId) (t t' : ObservedTable) : Prop :=
  ot_seen t' = ot_seen t ∧
  ∀ key, is_Some (ot_values t' !! key) →
    is_Some (ot_values t !! key) ∨ sk_slave_id (key_id key) = slave.

Lemma same_seen_refl slave t : same_seen slave t t.
Proof. split; [done|]. by left. Qed.

Lemma write_words_same slave kind a ws t0 t :
  same_seen slave t0 t → same_seen slave t0 (write_words slave kind a ws t).
Proof.
  intros [Hs Hv]. unfold write_words, table_write_words. split; [done|]. simpl.
  intros key Hk. destruct (decide (key = mkKey (mkSlaveKey slave kind))) as [->|Hne];
    [by right|]. rewrite lookup_insert_ne in Hk by done. by apply Hv.
Qed.

Lemma apply_matched_same slave request response t :
  same_seen slave t (apply_matched slave request response t).
Proof.
  destruct response; destruct request; simpl; try apply same_seen_refl;
    repeat apply write_words_same; apply same_seen_refl.
Qed.

Lemma apply_broadcast_same slave request t :
  same_seen slave t (apply_broadcast slave request t).
Proof.
  destruct request; simpl; try apply same_seen_refl;
    apply write_words_same, same_seen_refl.
Qed.

Lemma operations_of_snoc rs slave request slave' :
  operations_of (rs ++ [(slave, request)]) slave' =
  operations_of rs slave' ++ (if decide (slave = slave') then [request_function request] else []).
Proof.
  unfold operations_of. rewrite filter_app, fmap_app, filter_cons. simpl.
  destruct (decide (slave = slave')); [done|]. by rewrite filter_nil.
Qed.

(** Resolving a request: one line, one record with its operation, and a change
    of its slave's cells only. *)
Lemma resolve_inv slave request record level msg st' m t' :
  mon_inv (ExpectResponse slave (request_function request) request) m →
  line_request (level, msg) = Some (slave, request) →
  mr_operation record = request_function request →
  same_seen slave (ms_table m) t' → awaiting st' = [] →
  mon_inv st' (mkMonState t' (record_push (ms_records m) slave record) (ms_log m ++ [(level, msg)])).
Proof.
  intros (Hr & Hs & Hv) Hline Hop [Hseen Hval] Hst.
  assert (resolved (mkMonState t' (record_push (ms_records m) slave record)
    (ms_log m ++ [(level, msg)])) = resolved m ++ [(slave, request)]) as Hres.
  { unfold resolved; simpl. rewrite omap_app. simpl. by rewrite Hline. }
  split_and!.
  - intros slave'. destruct (Hr slave') as (pushed & Hh & Hops). rewrite Hres, operations_of_snoc.
    simpl. destruct (decide (slave = slave')) as [<-|Hne].
    + exists (pushed ++ [record]). split; [by apply record_push_same|].
      by rewrite fmap_app, Hops, <- Hop.
    + exists pushed. split; [|by rewrite app_nil_r].
      unfold ring_holds. destruct (record_push_other (ms_records m) slave slave' record)
        as (-> & -> & _); done.
  - intros slave'. rewrite Hres, Hst, app_nil_r. simpl. rewrite Hseen. apply Hs.
  - simpl. intros key Hk. rewrite Hseen. destruct (Hval key Hk) as [Hk'|<-]; [by apply Hv|].
    apply Hs. rewrite fmap_app. apply elem_of_app. right. apply list_elem_of_here.
Qed.

Lemma handle_new_request_inv now slave request m :
  mon_inv ExpectRequest m →
  let '(st', m') := handle_new_request now slave request m in
  mon_inv st' m' ∧
  resolved m' ++ awaiting st' = resolved m ++ [(slave, request)].
Proof.
  intros (Hr & Hs & Hv). unfold handle_new_request.
  assert (mon_inv (ExpectResponse slave (request_function request) request)
    (on_table (λ t, table_mark_seen t slave) m)) as Hinv.
  { split_and!; [done|..]; simpl.
    - intros slave'. unfold resolved; simpl. fold (resolved m).
      rewrite elem_of_union, elem_of_singleton, Hs, !fmap_app, !elem_of_app.
      simpl. rewrite !list_elem_of_singleton. clear. set_solver.
    - intros key Hk. apply elem_of_union. right. by apply Hv. }
  destruct (slave =? 0).
  - split.
    + apply (resolve_inv slave request _ L_Info (MM_Complete slave request None) _ _ _ Hinv);
        [done|done|apply apply_broadcast_same|done].
    + unfold resolved; simpl. rewrite omap_app, app_nil_r. done.
  - by split.
Qed.

(** Only the log line is added. *)
Lemma mon_log_inv st level msg m :
  line_request (level, msg) = None → mon_inv st m →
  mon_inv st (mon_log level msg m) ∧ resolved (mon_log level msg m) = resolved m.
Proof.
  intros Hline Hinv. assert (resolved (mon_log level msg m) = resolved m) as Hres.
  { unfold resolved; simpl. rewrite omap_app. simpl. by rewrite Hline, app_nil_r. }
  split; [|done]. unfold mon_inv. by rewrite Hres.
Qed.

Definition state_wf st : Prop :=
  match st with ExpectRequest => True | ExpectResponse _ f request => f = request_function request end.

Lemma process_frame_inv now bytes st m :
  state_wf st → mon_inv st m →
  let '(st', m') := step now bytes st m in
  state_wf st' ∧ mon_inv st' m' ∧
  resolved m' ++ awaiting st' = resolved m ++ awaiting st ++ option_list (new_request st bytes).
Proof.
  intros Hst Hinv. destruct st as [|slave f request]; simpl in Hst.
  - simpl. destruct (decode_request bytes) as [[slave request]|e].
    + pose proof (handle_new_request_inv now slave request m Hinv) as Hn.
      destruct (handle_new_request now slave request m) as [st' m'] eqn:Hh.
      destruct Hn. split; [|done]. unfold handle_new_request in Hh.
      destruct (slave =? 0); by injection Hh as <- <-.
    + destruct (mon_log_inv ExpectRequest L_Warning (MM_Malformed e) m) as [H1 H2]; [done|done|].
      by rewrite H2, !app_nil_r.
  - subst f. simpl.
    set (other := match decode_request bytes with Ok _ => _ | Err _ => _ end).
    set (dec := match decode_request bytes with Ok _ => _ | Err _ => _ end).
    assert (state_wf other.1 ∧ mon_inv other.1 other.2 ∧
      resolved other.2 ++ awaiting other.1 = resolved m ++ (slave, request) :: option_list dec)
      as Hother.
    { unfold other, dec. destruct (decode_request bytes) as [[s r]|e].
      - set (m1 := push_unmatched_record now slave request (log_unmatched slave request m)).
        assert (mon_inv ExpectRequest m1) as Hm1.
        { apply (resolve_inv slave request _ L_Warning (MM_Unmatched slave request) _ _ _ Hinv);
            [done|done|apply same_seen_refl|done]. }
        pose proof (handle_new_request_inv now s r m1 Hm1) as Hn.
        destruct (handle_new_request now s r m1) as [st' m'] eqn:Hh. destruct Hn as [Hi He].
        simpl. split; [|split; [done|]].
        + unfold handle_new_request in Hh. destruct (s =? 0); by injection Hh as <- <-.
        + rewrite He. unfold resolved, m1; simpl. rewrite omap_app, <- app_assoc. done.
      - destruct (mon_log_inv (ExpectResponse slave (request_function request) request)
          L_Warning MM_MalformedAwaiting m) as [H1 H2]; [done|done|].
        simpl. by rewrite H2. }
    destruct (decode_response bytes) as [[rs response]|e].
    2:{ destruct other as [st' m']. apply Hother. }
    destruct (_ && _); [|destruct other as [st' m']; apply Hother].
    split; [done|]. split.
    + set (m1 := push_matched_record _ _ _ _ _).
      assert (∃ record, mr_operation record = request_function request ∧
        m1 = mon_push slave record (log_complete slave request (Some response) m))
        as (record & Hop & ->).
      { unfold m1, push_matched_record. destruct response; eexists; (split; [|reflexivity]); done. }
      apply (resolve_inv slave request record L_Info
        (MM_Complete slave request (Some response)) _ _ _ Hinv);
        [done|done|apply apply_matched_same|done].
    + unfold resolved; simpl.
      destruct response; unfold push_matched_record; simpl; by rewrite omap_app, app_nil_r.
Qed.

Lemma drive_monitor_inv events st activity receiver m :
  state_wf st → mon_inv st m →
  let '(_, _, _, st', m') := drive events st activity receiver m in
  mon_inv st' m' ∧
  resolved m' ++ awaiting st' = resolved m ++ awaiting st ++ requests_seen events st m.
Proof.
  revert st activity m. induction events as [|[now bytes|e|] events IH];
    intros st activity m Hst Hinv; simpl.
  - by rewrite app_nil_r.
  - pose proof (process_frame_inv now bytes st m Hst Hinv) as Hp.
    destruct (step now bytes st m) as [st1 m1]. destruct Hp as (Hst1 & Hinv1 & Hres1).
    specialize (IH st1 true m1 Hst1 Hinv1).
    destruct (drive events st1 true receiver m1) as [[[[? ?] ?] st'] m'].
    destruct IH as [Hi He]. split; [done|]. by rewrite He, app_assoc, Hres1, <- !app_assoc.
  - by rewrite app_nil_r.
  - destruct (recv receiver) as [c r]. by rewrite app_nil_r.
Qed.

Definition mon_start : MonState (RE := RE) := mkMonState ObservedTable_default ∅ [].

Lemma mon_start_inv : mon_inv ExpectRequest mon_start.
Proof.
  split_and!.
  - intros slave. exists []. split; [apply ring_holds_empty|done].
  - intros slave. simpl. set_solver.
  - intros key [x Hx]. simpl in Hx. by rewrite lookup_empty in Hx.
Qed.

(** C7: whatever frames the bus carries, every request seen on it is reported
    exactly once, completed or unmatched, in the order seen, except the last
    one while its response is awaited; and each slave's ring holds exactly the
    last 200 of its reported operations. *)
Theorem monitor_reports_every_request events activity receiver :
  let '(_, _, _, st', m') := drive events ExpectRequest activity receiver mon_start in
  resolved m' ++ awaiting st' = requests_seen events ExpectRequest mon_start ∧
  ∀ slave, mr_operation <$> records_for (ms_records m') slave =
    lastn 200 (operations_of (resolved m') slave).
Proof.
  pose proof (drive_monitor_inv events ExpectRequest activity receiver mon_start I mon_start_inv)
    as Hd.
  destruct (drive events ExpectRequest activity receiver mon_start) as [[[[? ?] ?] st'] m'].
  destruct Hd as [(Hr & _) He]. split; [done|]. intros slave.
  destruct (Hr slave) as (pushed & [Hrec _] & <-). by rewrite Hrec, lastn_fmap.
Qed.

Lemma table_unit_ids_spec t slave :
  slave ∈ table_unit_ids t ↔
  slave ∈ ot_seen t ∨ ∃ key, is_Some (ot_values t !! key) ∧ sk_slave_id (key_id key) = slave.
Proof.
  unfold table_unit_ids. rewrite merge_sort_Permutation, elem_of_elements, elem_of_union.
  rewrite elem_of_list_to_set, list_elem_of_fmap. split.
  - intros [(key & -> & Hk)|?]; [right|by left]. exists key. split; [|done].
    apply list_elem_of_fmap in Hk as ([k v] & -> & Hk). apply elem_of_map_to_list in Hk.
    by exists v.
  - intros [?|(key & [v Hv] & <-)]; [by right|left]. exists key. split; [done|].
    apply list_elem_of_fmap. exists (key, v). split; [done|]. by apply elem_of_map_to_list.
Qed.

(** The slave ids listed are exactly those some request was addressed to,
    answered or not, each once and in order. *)
Theorem monitor_lists_slaves events activity receiver :
  let '(_, _, _, _, m') := drive events ExpectRequest activity receiver mon_start in
  StronglySorted Z.le (table_unit_ids (ms_table m')) ∧ NoDup (table_unit_ids (ms_table m')) ∧
  ∀ slave, slave ∈ table_unit_ids (ms_table m') ↔
    slave ∈ (requests_seen events ExpectRequest mon_start).*1.
Proof.
  pose proof (drive_monitor_inv events ExpectRequest activity receiver mon_start I mon_start_inv)
    as Hd.
  destruct (drive events ExpectRequest activity receiver mon_start) as [[[[? ?] ?] st'] m'].
  destruct Hd as [(_ & Hs & Hv) He]. change (resolved mon_start) with (@nil BusRequest) in He.
  simpl in He. rewrite <- He. split_and!.
  - apply (StronglySorted_merge_sort Z.le).
  - unfold table_unit_ids. rewrite merge_sort_Permutation. apply NoDup_elements.
  - intros slave. rewrite table_unit_ids_spec, <- Hs. split; [|by left].
    intros [?|(key & Hk & <-)]; [done|by apply Hv].
Qed.
End matching.

(** ** Matched transactions *)

(** The record and the table agree: the values a matched transaction's record
    shows at an address are what the observed table then holds there. *)
Theorem matched_transaction_observed slave request response t sh :
  shape_from_pair request response = Some sh → ts_write_address sh = None →
  0 <= ts_address sh → ts_address sh + Z.of_nat (length (ts_values sh)) <= 65536 →
  table_read_words (apply_matched slave request response t)
    (mkKey (mkSlaveKey slave (ts_kind sh))) (ts_address sh) (length (ts_values sh)) =
  Some (ts_values sh).
Proof.
  intros Hsh Hw Ha Hl.
  destruct request, response; simpl in Hsh; try discriminate Hsh; injection Hsh as <-;
    try discriminate Hw; simpl in *; by apply table_write_read_same.
Qed.

Lemma matched_transaction_observed_witness :
  table_read_words
    (apply_matched 3 (RQ_ReadHoldingRegisters 100 2) (RS_ReadHoldingRegisters [5; 6])
       ObservedTable_default) demo_mon_key 100 2 = Some [5; 6].
Proof.
  apply (matched_transaction_observed 3 (RQ_ReadHoldingRegisters 100 2)
    (RS_ReadHoldingRegisters [5; 6]) ObservedTable_default
    (mkTableShape K_HoldingRegister 100 2 None None [5; 6])); simpl; (reflexivity || lia).
Defined.

(** ** The monitor task *)

Section task.
Context {Frame RE AE TLE : Type}.
Context (decode_request : Frame → Result (UnitId * RequestPdu) RE).
Context (decode_response : Frame → Result (UnitId * ResponsePdu) RE).
Context (response_function : ResponsePdu → FunctionCode).
Context (default_config : SerialConfig).

Abbreviation attempt := (monitor_attempt (AE := AE) (TLE := TLE) decode_request decode_response
  response_function default_config).

Lemma monitor_attempt_inv t :
  mt_open t = false →
  ∃ out t', attempt t = Ret (out, t') ∧
  match out with None => True | Some _ => mt_open t' = false end.
Proof.
  intros Ho. unfold monitor_attempt. destruct (mt_rounds t) as [|rd rounds]; [by do 2 eexists|].
  destruct (serial_config_from _ _ _ _ _); [|by do 2 eexists].
  destruct (mo_conflict rd); [by do 2 eexists|].
  destruct (mo_transport rd); [|by do 2 eexists].
  destruct (mo_open rd); [|by do 2 eexists].
  destruct (drive_monitor _ _ _ _ _ _ _ _) as [[[[end_ activity] receiver] st] m].
  destruct end_ as [[|e]|]; by do 2 eexists.
Qed.

(** The monitor task never panics, and when it ends its port is no longer
    marked open and the stopped status is published. *)
Theorem monitor_task_ends fuel t :
  mt_open t = false →
  ∃ res t', run_serial_monitor (AE := AE) (TLE := TLE) decode_request decode_response
      response_function default_config fuel t = Ret (res, t') ∧
    match res with Some _ => mt_open t' = false ∧ mt_stopped t' = true | None => True end.
Proof.
  intros Ho. unfold run_serial_monitor, run_with_backoff.
  destruct (backoff_loop_inv attempt monitor_wait (λ t, mt_open t = false)
    (λ _ t, mt_open t = false)) with (policy := BackoffPolicy_default) (fuel := fuel)
    (backoff := bp_initial BackoffPolicy_default) (s := t)
    as (res & t' & -> & Hres); [|done|apply policy_default_ok|by left|].
  - intros t0 Ho0. destruct (monitor_attempt_inv t0 Ho0) as (out & t1 & Heq & Ho1).
    exists out, t1. split; [done|]. destruct out as [[|e [] reset]|]; [done| |done|done].
    intros d. unfold monitor_wait. by destruct (wait_reconnect_backoff _ _) as [[] r].
  - cbn [mbind outcome_bind]. destruct res; by do 2 eexists.
Qed.
End task.

(** ** An example monitor

    A frame is a request or a response already taken apart. *)

Inductive DemoFrame :=
| DF_Request (slave : UnitId) (request : RequestPdu)
| DF_Response (slave : UnitId) (response : ResponsePdu)
| DF_Noise.

Definition demo_decode_request (f : DemoFrame) : Result (UnitId * RequestPdu) unit :=
  match f with DF_Request s r => Ok (s, r) | _ => Err tt end.
Definition demo_decode_response (f : DemoFrame) : Result (UnitId * ResponsePdu) unit :=
  match f with DF_Response s r => Ok (s, r) | _ => Err tt end.
Definition demo_response_function (r : ResponsePdu) : FunctionCode :=
  match r with
  | RS_ReadHoldingRegisters _ => FC_ReadHoldingRegisters
  | RS_Exception f _ => f
  | _ => FC_Other 0
  end.

Definition demo_mon_config : SerialConfig := mkSerialConfig 9600 DB_Eight SB_One PA_Even.

(** A transaction, a request left unanswered behind noise, a lost link, then a
    terminate while waiting to reopen. *)
Definition demo_mon_rounds : list (MonRound (Frame := DemoFrame) (RE := unit)) :=
  [mkMonRound true 9600 None None None "/dev/ttyS0" "/dev/ttyS0" None (Ok tt) (Ok tt)
     [MV_Frame 0 (DF_Request 3 (RQ_ReadHoldingRegisters 100 2));
      MV_Frame 1 (DF_Response 3 (RS_ReadHoldingRegisters [5; 6]));
      MV_Frame 2 DF_Noise;
      MV_Frame 3 (DF_Request 4 (RQ_ReadCoils 0 1));
      MV_Frame 4 (DF_Request 3 (RQ_ReadHoldingRegisters 100 2));
      MV_Error tt] RC_Recv].
Definition demo_mon_task : MonTask (Frame := DemoFrame) (RE := unit) :=
  mkMonTask (mkMonState ObservedTable_default ∅ []) false false [] RC_Future demo_mon_rounds.

Abbreviation demo_monitor := (run_serial_monitor (AE := unit) (TLE := unit) demo_decode_request
  demo_decode_response demo_response_function demo_mon_config 5 demo_mon_task).

Lemma demo_monitor_result :
  match demo_monitor with Ret (Some (Ok _), _) => true | _ => false end = true.
Proof. vm_compute. reflexivity. Qed.

Lemma monitor_task_ends_witness :
  ∃ t', demo_monitor = Ret (Some (Ok tt), t') ∧ mt_open t' = false ∧ mt_stopped t' = true.
Proof.
  destruct (monitor_task_ends (AE := unit) (TLE := unit) demo_decode_request demo_decode_response
    demo_response_function demo_mon_config 5 demo_mon_task eq_refl) as (res & t' & Heq & Hend).
  pose proof demo_monitor_result as Hr. rewrite Heq in Hr.
  destruct res as [[[]|]|]; try discriminate. exists t'. split; [exact Heq|exact Hend].
Defined.
