(* ===== verification/OcppMessage.v ===== *)
(** * OCPP-J messages

    Models [ferrowl-ocpp/src/ocppj/] and the framing errors of [error.rs]. A
    JSON value is what the sources build and inspect of [serde_json::Value];
    numbers that are not an [i64] are opaque. Parsing and printing JSON text
    are parameters. *)

From stdpp Require Import base list numbers strings.
From S2P Require Import Prelude.

Local Open Scope Z_scope.

Section json.
Context {Num : Type}.

Inductive Json :=
| J_Null
| J_Bool (b : bool)
| J_Int (z : Z)
| J_Num (n : Num)
| J_String (s : string)
| J_Array (l : list Json)
| J_Object (fields : list (string * Json)).

Definition as_array (v : Json) : option (list Json) :=
  match v with J_Array l => Some l | _ => None end.

Definition as_i64 (v : Json) : option Z := match v with J_Int z => Some z | _ => None end.

Definition as_str (v : Json) : option string := match v with J_String s => Some s | _ => None end.

(** ** Messages *)

Inductive MessageTypeId := MT_Call | MT_CallResult | MT_CallError.

(** [as i64]. *)
Definition message_type_code (t : MessageTypeId) : Z :=
  match t with MT_Call => 2 | MT_CallResult => 3 | MT_CallError => 4 end.

Inductive CallErrorCode :=
| CC_NotImplemented | CC_NotSupported | CC_InternalError | CC_ProtocolError | CC_SecurityError
| CC_FormationViolation | CC_PropertyConstraintViolation | CC_OccurenceConstraintViolation
| CC_TypeConstraintViolation | CC_GenericError.

Definition code_as_str (c : CallErrorCode) : string :=
  match c with
  | CC_NotImplemented => "NotImplemented"
  | CC_NotSupported => "NotSupported"
  | CC_InternalError => "InternalError"
  | CC_ProtocolError => "ProtocolError"
  | CC_SecurityError => "SecurityError"
  | CC_FormationViolation => "FormationViolation"
  | CC_PropertyConstraintViolation => "PropertyConstraintViolation"
  | CC_OccurenceConstraintViolation => "OccurenceConstraintViolation"
  | CC_TypeConstraintViolation => "TypeConstraintViolation"
  | CC_GenericError => "GenericError"
  end.

Definition code_from_wire (s : string) : CallErrorCode :=
  if String.eqb s "NotImplemented" then CC_NotImplemented
  else if String.eqb s "NotSupported" then CC_NotSupported
  else if String.eqb s "InternalError" then CC_InternalError
  else if String.eqb s "ProtocolError" then CC_ProtocolError
  else if String.eqb s "SecurityError" then CC_SecurityError
  else if String.eqb s "FormationViolation" then CC_FormationViolation
  else if String.eqb s "PropertyConstraintViolation" then CC_PropertyConstraintViolation
  else if String.eqb s "OccurenceConstraintViolation" then CC_OccurenceConstraintViolation
  else if String.eqb s "TypeConstraintViolation" then CC_TypeConstraintViolation
  else CC_GenericError.

(** The id is the string of [UniqueId]. *)
Inductive OcppJMessage :=
| OM_Call (id action : string) (payload : Json)
| OM_CallResult (id : string) (payload : Json)
| OM_CallError (id : string) (code : CallErrorCode) (description : string) (details : Json).

Definition message_id (m : OcppJMessage) : string :=
  match m with OM_Call id _ _ | OM_CallResult id _ | OM_CallError id _ _ _ => id end.

(** The array of [codec::encode]. *)
Definition envelope (msg : OcppJMessage) : Json :=
  match msg with
  | OM_Call id action payload =>
      J_Array [J_Int (message_type_code MT_Call); J_String id; J_String action; payload]
  | OM_CallResult id payload =>
      J_Array [J_Int (message_type_code MT_CallResult); J_String id; payload]
  | OM_CallError id code description details =>
      J_Array [J_Int (message_type_code MT_CallError); J_String id;
               J_String (code_as_str code); J_String description; details]
  end.

(** ** The codec *)

Inductive FramingError (JE : Type) :=
| FE_NotAnArray
| FE_BadArity (n : Z)
| FE_UnknownMessageType (t : Z)
| FE_BadFieldType (field : string)
| FE_Json (e : JE).
Arguments FE_NotAnArray {JE}.
Arguments FE_BadArity {JE}.
Arguments FE_UnknownMessageType {JE}.
Arguments FE_BadFieldType {JE}.
Arguments FE_Json {JE}.

Context {Text JE : Type}.
Context (json_from_str : Text → Result Json JE) (json_to_string : Json → Text).

Definition codec_encode (msg : OcppJMessage) : Text := json_to_string (envelope msg).

(** The closure [str_at]. *)
Definition str_at (arr : list Json) (idx : nat) (field : string)
  : Result string (FramingError JE) :=
  match arr !! idx ≫= as_str with Some s => Ok s | None => Err (FE_BadFieldType field) end.

Definition result_bind {A B E} (r : Result A E) (f : A → Result B E) : Result B E :=
  match r with Ok a => f a | Err e => Err e end.

(** [arr[idx].clone()], reached only when the length was checked. *)
Definition arr_at (arr : list Json) (idx : nat) : Json := default J_Null (arr !! idx).

Definition decode_array (arr : list Json) : Result OcppJMessage (FramingError JE) :=
  match head arr ≫= as_i64 with
  | None => Err (FE_BadFieldType "messageTypeId")
  | Some type_id =>
      let arity (n : nat) (k : Result OcppJMessage (FramingError JE)) :=
        if negb (Nat.eqb (length arr) n) then Err (FE_BadArity (Z.of_nat (length arr))) else k in
      if type_id =? message_type_code MT_Call then
        arity 4%nat
          (result_bind (str_at arr 1 "uniqueId") (λ id,
           result_bind (str_at arr 2 "action") (λ action,
           Ok (OM_Call id action (arr_at arr 3)))))
      else if type_id =? message_type_code MT_CallResult then
        arity 3%nat
          (result_bind (str_at arr 1 "uniqueId") (λ id,
           Ok (OM_CallResult id (arr_at arr 2))))
      else if type_id =? message_type_code MT_CallError then
        arity 5%nat
          (result_bind (str_at arr 1 "uniqueId") (λ id,
           result_bind (str_at arr 2 "errorCode") (λ code,
           result_bind (str_at arr 3 "errorDescription") (λ description,
           Ok (OM_CallError id (code_from_wire code) description (arr_at arr 4))))))
      else Err (FE_UnknownMessageType type_id)
  end.

Definition codec_decode (text : Text) : Result OcppJMessage (FramingError JE) :=
  match json_from_str text with
  | Err e => Err (FE_Json e)
  | Ok value =>
      match as_array value with
      | None => Err FE_NotAnArray
      | Some arr => decode_array arr
      end
  end.

Definition recover_call_id (text : Text) : option string :=
  match json_from_str text with
  | Err _ => None
  | Ok value =>
      arr ← as_array value;
      type_id ← head arr ≫= as_i64;
      if negb (type_id =? message_type_code MT_Call) then None
      else arr !! 1%nat ≫= as_str
  end.

(** ** Round trips *)

Lemma code_roundtrip (c : CallErrorCode) : code_from_wire (code_as_str c) = c.
Proof. by destruct c. Qed.

(** A message encoded and sent as text decodes to itself, whatever its
    payload, given that the JSON library reads back what it printed for it. *)
Theorem message_roundtrip (m : OcppJMessage) :
  json_from_str (json_to_string (envelope m)) = Ok (envelope m) →
  codec_decode (codec_encode m) = Ok m.
Proof.
  intros Hrt. unfold codec_decode, codec_encode. rewrite Hrt. destruct m as [id a p|id p|id c d dt]; simpl;
    unfold decode_array; simpl; [done|done|by rewrite code_roundtrip].
Qed.

(** The error codes of OCPP-J by their names; any other name stands for a
    generic error. *)
Definition error_code_names : list (string * CallErrorCode) :=
  [("NotImplemented", CC_NotImplemented); ("NotSupported", CC_NotSupported);
   ("InternalError", CC_InternalError); ("ProtocolError", CC_ProtocolError);
   ("SecurityError", CC_SecurityError); ("FormationViolation", CC_FormationViolation);
   ("PropertyConstraintViolation", CC_PropertyConstraintViolation);
   ("OccurenceConstraintViolation", CC_OccurenceConstraintViolation);
   ("TypeConstraintViolation", CC_TypeConstraintViolation); ("GenericError", CC_GenericError)].

Definition code_named (wire : string) (code : CallErrorCode) : Prop :=
  (wire, code) ∈ error_code_names ∨ wire ∉ error_code_names.*1 ∧ code = CC_GenericError.

Lemma code_from_wire_named (wire : string) (code : CallErrorCode) :
  code_from_wire wire = code ↔ code_named wire code.
Proof.
  unfold code_named. split.
  - intros <-. unfold code_from_wire.
    repeat (case_match; [match goal with H : String.eqb wire _ = true |- _ =>
      apply String.eqb_eq in H as -> end; left; apply list_elem_of_In; simpl; tauto|]).
    destruct (decide (wire = "GenericError")) as [->|Hne];
      [left; apply list_elem_of_In; simpl; tauto|right]. split; [|done].
    repeat match goal with H : String.eqb wire _ = false |- _ => apply String.eqb_neq in H end.
    rewrite list_elem_of_In. simpl. intuition congruence.
  - intros [H%list_elem_of_In|[Hn ->]].
    + simpl in H. repeat (destruct H as [[= <- <-]|H]; [reflexivity|]). done.
    + rewrite list_elem_of_In in Hn. simpl in Hn. unfold code_from_wire.
      repeat (case_match; [match goal with H : String.eqb wire _ = true |- _ =>
        apply String.eqb_eq in H; exfalso; apply Hn; rewrite H; tauto end|]). done.
Qed.

(** What a message looked like on the wire: an array of the type's number, the
    id and the type's fields. *)
Definition on_wire (m : OcppJMessage) (value : Json) : Prop :=
  match m with
  | OM_Call id action payload => value = J_Array [J_Int 2; J_String id; J_String action; payload]
  | OM_CallResult id payload => value = J_Array [J_Int 3; J_String id; payload]
  | OM_CallError id code description details =>
      ∃ wire, code_named wire code ∧
        value = J_Array [J_Int 4; J_String id; J_String wire; J_String description; details]
  end.

Lemma on_wire_array (m : OcppJMessage) (value : Json) :
  on_wire m value → ∃ arr, value = J_Array arr ∧ decode_array arr = Ok m.
Proof.
  destruct m as [id a p|id p|id c d dt]; simpl.
  - intros ->. by eexists.
  - intros ->. by eexists.
  - intros (wire & <-%code_from_wire_named & ->). by eexists.
Qed.

Lemma str_at_Ok (arr : list Json) (idx : nat) (field s : string) :
  str_at arr idx field = Ok s → arr !! idx = Some (J_String s).
Proof.
  unfold str_at. destruct (arr !! idx) as [[]|]; simpl; try discriminate. by intros [= ->].
Qed.

(** The fields read one after the other. *)
Lemma result_bind_Ok {A B E} (r : Result A E) (f : A → Result B E) (b : B) :
  result_bind r f = Ok b → ∃ a, r = Ok a ∧ f a = Ok b.
Proof. destruct r as [a|e]; simpl; [by exists a|done]. Qed.

Lemma decode_array_on_wire (arr : list Json) (m : OcppJMessage) :
  decode_array arr = Ok m → on_wire m (J_Array arr).
Proof.
  unfold decode_array. destruct arr as [|[| |t| | | |] arr]; simpl; try discriminate.
  destruct (Z.eqb_spec t 2) as [->|_].
  { destruct arr as [|x [|y [|z [|]]]]; try discriminate. simpl.
    intros (id & Hid%str_at_Ok & (a & Ha%str_at_Ok & Hm)%result_bind_Ok)%result_bind_Ok.
    simpl in Hid, Ha. injection Hid as ->. injection Ha as ->. by injection Hm as <-. }
  destruct (Z.eqb_spec t 3) as [->|_].
  { destruct arr as [|x [|y [|]]]; try discriminate. simpl.
    intros (id & Hid%str_at_Ok & Hm)%result_bind_Ok.
    simpl in Hid. injection Hid as ->. by injection Hm as <-. }
  destruct (Z.eqb_spec t 4) as [->|_]; [|discriminate].
  destruct arr as [|x [|y [|z [|w [|]]]]]; try discriminate. simpl.
  intros (id & Hid%str_at_Ok & (c & Hc%str_at_Ok & (d & Hd%str_at_Ok & Hm)%result_bind_Ok)%result_bind_Ok)%result_bind_Ok.
  simpl in Hid, Hc, Hd. injection Hid as ->. injection Hc as ->. injection Hd as ->.
  injection Hm as <-. exists c. split; [by apply code_from_wire_named|done].
Qed.

(** C11: decoding accepts exactly the three envelopes: a message comes only from
    an array that spells it, with nothing lost but the spelling of an unknown
    error code, which becomes a generic error, while each of the ten known names
    is decoded as its own code; every such array is accepted; what encoding
    makes of a message spells it; and an id is recovered from a
    text exactly if it is a call whose id can be read, so a malformed reply is
    never answered. *)
Theorem decode_accepts_envelopes (text : Text) :
  (∀ m, codec_decode text = Ok m ↔ ∃ value, json_from_str text = Ok value ∧ on_wire m value) ∧
  (∀ m, on_wire m (envelope m)) ∧
  (∀ id, recover_call_id text = Some id ↔
     ∃ rest, json_from_str text = Ok (J_Array (J_Int 2 :: J_String id :: rest))).
Proof.
  unfold codec_decode, recover_call_id. split; [|split].
  - intros m. destruct (json_from_str text) as [value|e]; [|naive_solver]. split.
    + intros Hm. exists value. split; [done|]. destruct value; try discriminate.
      by apply decode_array_on_wire.
    + intros (v & [= <-] & (arr & -> & Hm)%on_wire_array). done.
  - intros [id a p|id p|id c d dt]; [done|done|]. exists (code_as_str c). split; [|done].
    by apply code_from_wire_named, code_roundtrip.
  - intros id. destruct (json_from_str text) as [value|e]; [|naive_solver].
    destruct value as [| | | | |l|]; simpl; try naive_solver.
    destruct l as [|[| |t| | | |] l]; simpl; try naive_solver.
    destruct (Z.eqb_spec t 2) as [->|]; simpl; [|naive_solver].
    destruct l as [|[] l]; simpl; naive_solver.
Qed.
End json.

Arguments Json : clear implicits.
Arguments OcppJMessage : clear implicits.

(** A JSON library whose texts are the values themselves. *)
Lemma message_roundtrip_witness :
  let m := OM_CallError "id-1" CC_FormationViolation "bad payload" (J_Object []) in
  codec_decode (Num := unit) (JE := unit) Ok (codec_encode id m) = Ok m.
Proof.
  intros m. apply (message_roundtrip (Num := unit) (JE := unit) Ok id m). reflexivity.
Defined.
