(* ===== verification/OcppConn.v ===== *)
(** * An OCPP connection

    Models [ferrowl-ocpp/src/correlation.rs] and [conn.rs]: outgoing calls
    waiting for their replies, the reader task, the handler tasks it spawns for
    incoming calls, and the teardown. The tasks interleave: a run is a list of
    events, each one task's next step. A caller waiting for a reply is a waiter;
    what it is sent through its one-shot channel reaches it in the same step.
    The bound of the outgoing channel delays its senders and is not modelled.
    Shutting down is one step: an aborted task takes no further step. *)

From stdpp Require Import base list gmap numbers strings pretty.
From S2P Require Import Prelude OcppMessage.

Local Open Scope Z_scope.

(** ** Errors *)

Record CallError {Num : Type} := mkCallError {
  ce_code : CallErrorCode; ce_description : string; ce_details : Json Num
}.
Arguments CallError : clear implicits.

Definition CallError_new {Num} (code : CallErrorCode) (description : string) : CallError Num :=
  mkCallError Num code description (J_Object []).

Inductive OcppError (JE VE : Type) :=
| OE_UnknownAction (name : string) | OE_Json (e : JE) | OE_Validation (e : VE).
Arguments OE_UnknownAction {JE VE}.
Arguments OE_Json {JE VE}.
Arguments OE_Validation {JE VE}.

(** The methods of the trait [Version] that a connection calls: the typed actions
    of one protocol version, which macros generate. *)
Class Version (Num JE VE Action Response : Type) := {
  action_name : Action → string;
  decode_call : string → Json Num → Result Action (OcppError JE VE);
  validate : Action → Result unit VE;
  encode_response : Response → Result (Json Num) (OcppError JE VE);
  encode_action : Action → Result (Json Num) (OcppError JE VE);
  decode_result : Action → Json Num → Result Response (OcppError JE VE)
}.

Section conn.
Context {Num Text JE VE WE Action Response : Type} `{Version Num JE VE Action Response}.
(** Parsing of JSON texts, and the printed form of the libraries' errors. *)
Context (json_from_str : Text → Result (Json Num) JE).
Context (json_error_text : JE → string) (validation_text : VE → string).
(** What the application answers to a validated incoming action. *)
Context (handle : Action → Result Response (CallError Num)).

Abbreviation Message := (OcppJMessage Num).
Abbreviation Reply := (Result Response (CallError Num)).

Definition framing_text (e : FramingError JE) : string :=
  match e with
  | FE_NotAnArray _ => "OCPP-J frame is not a JSON array"
  | FE_BadArity _ n => "OCPP-J frame has invalid arity: " +:+ pretty n +:+ " elements"
  | FE_UnknownMessageType _ t => "OCPP-J frame has unknown message type id: " +:+ pretty t
  | FE_BadFieldType _ field => "OCPP-J frame field " +:+ field +:+ " has the wrong JSON type"
  | FE_Json _ e => "OCPP-J frame is not valid JSON: " +:+ json_error_text e
  end.

Definition ocpp_error_text (e : OcppError JE VE) : string :=
  match e with
  | OE_UnknownAction name => "unknown action: " +:+ name
  | OE_Json e => "payload (de)serialization failed: " +:+ json_error_text e
  | OE_Validation e => "validation failed: " +:+ validation_text e
  end.

(** [From<OcppError> for CallError]. *)
Definition call_error_from (e : OcppError JE VE) : CallError Num :=
  let code :=
    match e with
    | OE_UnknownAction _ => CC_NotImplemented
    | OE_Json _ | OE_Validation _ => CC_FormationViolation
    end in
  CallError_new code (ocpp_error_text e).

(** ** State *)

(** A caller of [OutboundHandle::call]: its action, the id it was sent under and
    the reply it got. *)
Record Waiter := mkWaiter { w_action : Action; w_id : string; w_reply : option Reply }.

Inductive HandlerState := HS_Running | HS_Finished (sent : bool) | HS_Aborted.

(** A spawned handler task. *)
Record Handler := mkHandler {
  h_id : string; h_name : string; h_payload : Json Num; h_state : HandlerState
}.

Inductive StatusLine := SL_Framing (e : FramingError JE) | SL_Websocket (e : WE).

(** The correlation table maps ids to waiters by number; [cn_tracked] are the
    numbers of the tracked handlers. *)
Record ConnState := mkConnState {
  cn_pending : gmap string nat;
  cn_waiters : list Waiter;
  cn_handlers : list Handler;
  cn_tracked : list nat;
  cn_out : list Message;
  cn_closed : bool;
  cn_reading : bool;
  cn_notified : bool;
  cn_status : list StatusLine
}.
Implicit Types (c : ConnState).

Definition Connection_start : ConnState := mkConnState ∅ [] [] [] [] false true false [].

Definition cn_with_pending c (pending : gmap string nat) (waiters : list Waiter) : ConnState :=
  mkConnState pending waiters (cn_handlers c) (cn_tracked c) (cn_out c) (cn_closed c)
    (cn_reading c) (cn_notified c) (cn_status c).

Definition cn_with_handlers c (handlers : list Handler) (tracked : list nat) : ConnState :=
  mkConnState (cn_pending c) (cn_waiters c) handlers tracked (cn_out c) (cn_closed c)
    (cn_reading c) (cn_notified c) (cn_status c).

Definition cn_say c (line : StatusLine) : ConnState :=
  mkConnState (cn_pending c) (cn_waiters c) (cn_handlers c) (cn_tracked c) (cn_out c)
    (cn_closed c) (cn_reading c) (cn_notified c) (cn_status c ++ [line]).

(** The reader task ends: its loop is left and the command loop notified. *)
Definition cn_stop_reading c : ConnState :=
  mkConnState (cn_pending c) (cn_waiters c) (cn_handlers c) (cn_tracked c) (cn_out c)
    (cn_closed c) false true (cn_status c).

(** [out_tx.send(msg)]: fails once the writer is gone. *)
Definition out_send c (msg : Message) : bool * ConnState :=
  if cn_closed c then (false, c)
  else
    (true, mkConnState (cn_pending c) (cn_waiters c) (cn_handlers c) (cn_tracked c)
             (cn_out c ++ [msg]) (cn_closed c) (cn_reading c) (cn_notified c) (cn_status c)).

(** ** The correlation table *)

(** What a waiter's task makes of its outcome; a waiter takes only its first. *)
Definition deliver (waiters : list Waiter) (w : nat) (reply : Action → Reply) : list Waiter :=
  alter (λ x, match w_reply x with
              | None => mkWaiter (w_action x) (w_id x) (Some (reply (w_action x)))
              | Some _ => x
              end) w waiters.

Definition generic_error (description : string) : Action → Reply :=
  λ _, Err (CallError_new CC_GenericError description).

(** A sender dropped without being used: its waiter sees the channel close. *)
Definition drop_sender (waiters : list Waiter) (old : option nat) : list Waiter :=
  match old with
  | Some w => deliver waiters w (generic_error "reply channel dropped")
  | None => waiters
  end.

(** [PendingCalls::register] for a new waiter: a sender already there is
    replaced, and so dropped. *)
Definition pending_register c (id : string) (action : Action) : ConnState :=
  let w := length (cn_waiters c) in
  let waiters := drop_sender (cn_waiters c) (cn_pending c !! id) in
  cn_with_pending c (<[id := w]> (cn_pending c)) (waiters ++ [mkWaiter action id None]).

Definition CallOutcome : Type := Result (Json Num) (CallError Num).

(** The reply the waiting task decodes from an outcome. *)
Definition outcome_reply (outcome : CallOutcome) : Action → Reply := λ action,
  match outcome with
  | Ok value =>
      match decode_result action value with
      | Ok response => Ok response
      | Err e => Err (call_error_from e)
      end
  | Err e => Err e
  end.

Definition pending_complete c (id : string) (outcome : CallOutcome) : ConnState :=
  match cn_pending c !! id with
  | None => c
  | Some w =>
      cn_with_pending c (delete id (cn_pending c))
        (deliver (cn_waiters c) w (outcome_reply outcome))
  end.

Definition pending_remove c (id : string) : ConnState :=
  cn_with_pending c (delete id (cn_pending c)) (drop_sender (cn_waiters c) (cn_pending c !! id)).

Definition pending_fail_all c (err : CallError Num) : ConnState :=
  cn_with_pending c ∅
    (foldr (λ p waiters, deliver waiters p.2 (λ _, Err err)) (cn_waiters c)
       (map_to_list (cn_pending c))).

(** ** Outgoing calls *)

(** [OutboundHandle::fire]; [false] is an error returned to the caller. *)
Definition conn_fire c (id : string) (action : Action) : bool * ConnState :=
  match encode_action action with
  | Err _ => (false, c)
  | Ok payload => out_send c (OM_Call id (action_name action) payload)
  end.

(** [OutboundHandle::call] up to the spawn of the waiting task. When the send
    fails the source drops the entry, whose receiver nobody awaits, and then
    answers; here the answer is recorded first, so that the dropped sender finds
    it there. The same holds for the timeout below. *)
Definition conn_call c (id : string) (action : Action) : ConnState :=
  match encode_action action with
  | Err e =>
      cn_with_pending c (cn_pending c)
        (cn_waiters c ++ [mkWaiter action id (Some (Err (call_error_from e)))])
  | Ok payload =>
      let w := length (cn_waiters c) in
      let c := pending_register c id action in
      let '(sent, c) := out_send c (OM_Call id (action_name action) payload) in
      if (sent : bool) then c
      else
        let c := cn_with_pending c (cn_pending c)
                   (deliver (cn_waiters c) w (generic_error "connection closed")) in
        pending_remove c id
  end.

(** The waiting task's timeout, while no outcome has come. *)
Definition conn_timeout c (w : nat) : ConnState :=
  match cn_waiters c !! w with
  | None => c
  | Some x =>
      match w_reply x with
      | Some _ => c
      | None =>
          let c := cn_with_pending c (cn_pending c)
                     (deliver (cn_waiters c) w (generic_error "call timed out")) in
          pending_remove c (w_id x)
      end
  end.

(** ** Incoming calls *)

Definition into_error (id : string) (err : CallError Num) : Message :=
  OM_CallError id (ce_code err) (ce_description err) (ce_details err).

Definition dispatch_call (id action_name_ : string) (payload : Json Num) : Message :=
  match decode_call action_name_ payload with
  | Err e => into_error id (call_error_from e)
  | Ok action =>
      match validate action with
      | Err ve =>
          into_error id (CallError_new CC_FormationViolation
                           ("validation failed: " +:+ validation_text ve))
      | Ok _ =>
          match handle action with
          | Ok response =>
              match encode_response response with
              | Ok payload => OM_CallResult id payload
              | Err e => into_error id (call_error_from e)
              end
          | Err call_err => into_error id call_err
          end
      end
  end.

Definition is_finished (handlers : list Handler) (k : nat) : bool :=
  match handlers !! k with
  | Some h => match h_state h with HS_Running => false | _ => true end
  | None => true
  end.

(** [HandlerTasks::track] of a newly spawned handler. *)
Definition track c (h : Handler) : ConnState :=
  let k := length (cn_handlers c) in
  cn_with_handlers c (cn_handlers c ++ [h])
    (filter (λ k, is_finished (cn_handlers c) k = false) (cn_tracked c) ++ [k]).

Definition set_handler_state (s : HandlerState) (h : Handler) : Handler :=
  mkHandler (h_id h) (h_name h) (h_payload h) s.

(** A running task aborted; a finished one is left as it is. *)
Definition abort_handler (h : Handler) : Handler :=
  match h_state h with HS_Running => set_handler_state HS_Aborted h | _ => h end.

Definition abort_all c : ConnState :=
  cn_with_handlers c (foldr (λ k hs, alter abort_handler k hs) (cn_handlers c) (cn_tracked c)) [].

(** A running handler reaches its end and sends the reply. *)
Definition handler_finish c (k : nat) : ConnState :=
  match cn_handlers c !! k with
  | None => c
  | Some h =>
      match h_state h with
      | HS_Running =>
          let '(sent, c) := out_send c (dispatch_call (h_id h) (h_name h) (h_payload h)) in
          cn_with_handlers c
            (alter (set_handler_state (HS_Finished sent)) k (cn_handlers c)) (cn_tracked c)
      | _ => c
      end
  end.

(** ** The reader *)

(** What the websocket stream yields next; [SI_End]: nothing more. *)
Inductive StreamItem := SI_Text (text : Text) | SI_Close | SI_Other | SI_Error (e : WE) | SI_End.

(** One round of [reader_task]'s loop. *)
Definition reader_step c (item : StreamItem) : ConnState :=
  if negb (cn_reading c) then c
  else
    match item with
    | SI_Text text =>
        match codec_decode json_from_str text with
        | Err e =>
            let c := cn_say c (SL_Framing e) in
            match recover_call_id json_from_str text with
            | Some id =>
                (out_send c (OM_CallError id CC_FormationViolation (framing_text e)
                               (J_Object []))).2
            | None => c
            end
        | Ok (OM_Call id action payload) => track c (mkHandler id action payload HS_Running)
        | Ok (OM_CallResult id payload) => pending_complete c id (Ok payload)
        | Ok (OM_CallError id code description details) =>
            pending_complete c id (Err (mkCallError Num code description details))
        end
    | SI_Close => cn_stop_reading c
    | SI_Other => c
    | SI_Error e => cn_stop_reading (cn_say c (SL_Websocket e))
    | SI_End => cn_stop_reading c
    end.

(** ** Teardown *)

Definition cn_close c : ConnState :=
  mkConnState (cn_pending c) (cn_waiters c) (cn_handlers c) (cn_tracked c) (cn_out c) true
    (cn_reading c) (cn_notified c) (cn_status c).

Definition cn_abort_reader c : ConnState :=
  mkConnState (cn_pending c) (cn_waiters c) (cn_handlers c) (cn_tracked c) (cn_out c)
    (cn_closed c) false (cn_notified c) (cn_status c).

Definition conn_shutdown c : ConnState :=
  let c := cn_abort_reader c in
  let c := abort_all c in
  let c := pending_fail_all c (CallError_new CC_GenericError "connection terminated") in
  cn_close c.

(** ** Runs *)

(** Ids come from the id generator. [CE_WriterEnds] is a failed write, which
    closes the outgoing channel. *)
Inductive ConnEvent :=
| CE_Fire (id : string) (action : Action)
| CE_Call (id : string) (action : Action)
| CE_Item (item : StreamItem)
| CE_Timeout (w : nat)
| CE_HandlerDone (k : nat)
| CE_WriterEnds
| CE_Shutdown.

Definition conn_step c (ev : ConnEvent) : ConnState :=
  match ev with
  | CE_Fire id action => (conn_fire c id action).2
  | CE_Call id action => conn_call c id action
  | CE_Item item => reader_step c item
  | CE_Timeout w => conn_timeout c w
  | CE_HandlerDone k => handler_finish c k
  | CE_WriterEnds => cn_close c
  | CE_Shutdown => conn_shutdown c
  end.

Definition conn_run c (evs : list ConnEvent) : ConnState := foldl conn_step c evs.
End conn.
