(* ===== verification/OcppConnProps.v ===== *)
(** * Properties of an OCPP connection *)

From stdpp Require Import base list gmap numbers strings.
From S2P Require Import Prelude OcppMessage OcppConn.

Local Open Scope Z_scope.

Section props.
Context {Num Text JE VE WE Action Response : Type} `{Version Num JE VE Action Response}.
Context (json_from_str : Text → Result (Json Num) JE).
Context (json_error_text : JE → string) (validation_text : VE → string).
Context (handle : Action → Result Response (CallError Num)).

Abbreviation State := (ConnState (Num := Num) (JE := JE) (WE := WE)
  (Action := Action) (Response := Response)).
Abbreviation Event := (ConnEvent (Text := Text) (WE := WE) (Action := Action)).
Abbreviation step := (conn_step json_from_str json_error_text validation_text handle).
Abbreviation run := (conn_run json_from_str json_error_text validation_text handle).
Abbreviation complete := (pending_complete json_error_text validation_text).
Abbreviation call := (conn_call json_error_text validation_text).
Implicit Types (c : State) (ev : Event) (evs : list Event).

(** ** Waiters *)

(** Exactly the waiters without a reply are in the correlation table, under
    their ids. *)
Definition table_ok c : Prop :=
  (∀ id w, cn_pending c !! id = Some w →
     ∃ x, cn_waiters c !! w = Some x ∧ w_id x = id ∧ w_reply x = None) ∧
  (∀ w x, cn_waiters c !! w = Some x → w_reply x = None → cn_pending c !! w_id x = Some w).

(** Waiters keep their place, action and id; a reply given is never changed. *)
Definition keeps_replies (ws ws' : list (Waiter (Num := Num) (Action := Action) (Response := Response)))
  : Prop :=
  ∀ w x, ws !! w = Some x → ∃ x', ws' !! w = Some x' ∧ w_action x' = w_action x ∧
    w_id x' = w_id x ∧ (∀ r, w_reply x = Some r → w_reply x' = Some r).

Lemma keeps_refl ws : keeps_replies ws ws.
Proof. intros w x Hx. by exists x. Qed.

Lemma keeps_trans ws1 ws2 ws3 :
  keeps_replies ws1 ws2 → keeps_replies ws2 ws3 → keeps_replies ws1 ws3.
Proof.
  intros H1 H2 w x Hx. destruct (H1 w x Hx) as (y & Hy & Ha & Hi & Hr).
  destruct (H2 w y Hy) as (z & Hz & Ha' & Hi' & Hr'). exists z.
  rewrite Ha', Ha, Hi', Hi. split_and!; [done|done|done|]. intros r Hxr. by apply Hr', Hr.
Qed.

Lemma deliver_lookup (ws : list (Waiter (Num := Num) (Action := Action) (Response := Response)))
    w (reply : Action → Result Response (CallError Num)) k :
  deliver ws w reply !! k =
  (if decide (k = w) then
     (λ x, match w_reply x with
           | None => mkWaiter (w_action x) (w_id x) (Some (reply (w_action x)))
           | Some _ => x end) <$> ws !! k
   else ws !! k).
Proof.
  unfold deliver. rewrite list_lookup_alter.
  destruct (decide (k = w)) as [->|Hne]; [by rewrite decide_True|by rewrite decide_False].
Qed.

Lemma deliver_keeps ws w (reply : Action → Result Response (CallError Num)) :
  keeps_replies ws (deliver ws w reply).
Proof.
  intros k x Hx. rewrite deliver_lookup, Hx. case_decide; [|by exists x]. simpl.
  destruct (w_reply x) as [r|] eqn:Hr; eexists; (split; [done|]); by rewrite ?Hr.
Qed.

Lemma drop_sender_keeps ws old :
  keeps_replies ws (drop_sender (Num := Num) (Action := Action) (Response := Response) ws old).
Proof. destruct old; [apply deliver_keeps|apply keeps_refl]. Qed.

Lemma snoc_keeps ws x : keeps_replies ws (ws ++ [x]).
Proof.
  intros k y Hy. exists y. split; [|done]. rewrite lookup_app_l; [done|].
  by eapply lookup_lt_Some.
Qed.

(** Taking an entry out of the table, its waiter answered. *)
Lemma table_ok_take c id w (reply : Action → Result Response (CallError Num)) :
  table_ok c → cn_pending c !! id = Some w →
  table_ok (cn_with_pending c (delete id (cn_pending c)) (deliver (cn_waiters c) w reply)).
Proof.
  intros [Hp Hw] Hid. destruct (Hp id w Hid) as (x & Hx & Hxi & Hxr). split; simpl.
  - intros id' w' [Hne Hid']%lookup_delete_Some.
    destruct (Hp id' w' Hid') as (x' & Hx' & Hxi' & Hxr').
    exists x'. rewrite deliver_lookup, decide_False; [done|]. intros ->. congruence.
  - intros w' x' Hx' Hr'. rewrite deliver_lookup in Hx'. case_decide as Hk.
    + subst w'. rewrite Hx in Hx'. simpl in Hx'. rewrite Hxr in Hx'.
      injection Hx' as Hx'. subst x'. discriminate Hr'.
    + specialize (Hw w' x' Hx' Hr'). rewrite lookup_delete_ne; [done|].
      intros Heq. rewrite <- Heq, Hid in Hw. by injection Hw as ->.
Qed.

Lemma pending_remove_ok c id : table_ok c → table_ok (pending_remove c id).
Proof.
  intros Hc. unfold pending_remove. destruct (cn_pending c !! id) as [w|] eqn:Hid; simpl.
  - by apply table_ok_take.
  - rewrite delete_id by done. by destruct c.
Qed.

Lemma pending_complete_ok c id outcome : table_ok c → table_ok (complete c id outcome).
Proof.
  intros Hc. unfold pending_complete. destruct (cn_pending c !! id) as [w|] eqn:Hid; [|done].
  by apply table_ok_take.
Qed.

(** A waiter that stopped waiting, its entry removed. *)
Lemma table_ok_give_up c w x (reply : Action → Result Response (CallError Num)) :
  table_ok c → cn_waiters c !! w = Some x → w_reply x = None →
  table_ok (pending_remove (cn_with_pending c (cn_pending c) (deliver (cn_waiters c) w reply))
              (w_id x)).
Proof.
  intros Hc Hx Hr. pose proof (proj2 Hc w x Hx Hr) as Hid.
  pose proof (table_ok_take c (w_id x) w reply Hc Hid) as Hok.
  unfold pending_remove. simpl. rewrite Hid. simpl.
  replace (deliver (deliver (cn_waiters c) w reply) w (generic_error "reply channel dropped"))
    with (deliver (cn_waiters c) w reply); [exact Hok|].
  apply list_eq. intros k. rewrite !deliver_lookup. case_decide as Hk; [|done]. subst k.
  rewrite Hx. simpl. by rewrite Hr.
Qed.

Lemma pending_register_ok c id action : table_ok c → table_ok (pending_register c id action).
Proof.
  intros Hc. unfold pending_register.
  set (c1 := pending_remove c id).
  assert (table_ok c1) as [Hp Hw] by by apply pending_remove_ok.
  assert (length (drop_sender (cn_waiters c) (cn_pending c !! id)) = length (cn_waiters c)) as Hl
    by (destruct (cn_pending c !! id); [apply length_alter|done]).
  unfold c1, pending_remove in Hp, Hw. simpl in Hp, Hw.
  set (ws := drop_sender (cn_waiters c) (cn_pending c !! id)) in *. split; simpl.
  - intros id' w' [[<- <-]|[Hne Hid']]%lookup_insert_Some.
    + exists (mkWaiter action id None). rewrite <- Hl. split; [|done]. by apply list_lookup_middle.
    + destruct (Hp id' w') as (x & Hx & Hxi); [by apply lookup_delete_Some|].
      exists x. split; [|done]. rewrite lookup_app_l; [done|]. by eapply lookup_lt_Some.
  - intros w' x' [Hx'|[Hge Hx']]%lookup_app_Some Hr'.
    + specialize (Hw w' x' Hx' Hr'). apply lookup_delete_Some in Hw as [Hne Hid'].
      by rewrite lookup_insert_ne.
    + apply list_lookup_singleton_Some in Hx' as [Hz <-]. simpl.
      rewrite lookup_insert_eq. f_equal. lia.
Qed.

(** Only the table and the waiters matter. *)
Lemma table_ok_same c c' :
  cn_pending c' = cn_pending c → cn_waiters c' = cn_waiters c → table_ok c → table_ok c'.
Proof. unfold table_ok. by intros -> ->. Qed.

Lemma out_send_same c msg :
  let c' := (out_send c msg).2 in
  cn_pending c' = cn_pending c ∧ cn_waiters c' = cn_waiters c ∧ cn_handlers c' = cn_handlers c ∧
  cn_tracked c' = cn_tracked c ∧ cn_closed c' = cn_closed c ∧ cn_reading c' = cn_reading c ∧
  (out_send c msg).1 = negb (cn_closed c) ∧
  cn_out c' = cn_out c ++ (if cn_closed c then [] else [msg]).
Proof.
  unfold out_send. destruct (cn_closed c) eqn:Hc; simpl; rewrite ?Hc, ?app_nil_r; done.
Qed.

(** A newly registered waiter is the next one. *)
Lemma register_waiter c id action :
  cn_waiters (pending_register c id action) !! length (cn_waiters c) = Some (mkWaiter action id None).
Proof.
  unfold pending_register. simpl.
  replace (length (cn_waiters c)) with
    (length (drop_sender (cn_waiters c) (cn_pending c !! id))); [by apply list_lookup_middle|].
  destruct (cn_pending c !! id); [apply length_alter|done].
Qed.

Lemma conn_call_ok c id action : table_ok c → table_ok (call c id action).
Proof.
  intros Hc. unfold conn_call. destruct (encode_action action) as [payload|e].
  - pose proof (pending_register_ok c id action Hc) as Hr.
    pose proof (register_waiter c id action) as Hx.
    set (c1 := pending_register c id action) in *.
    destruct (out_send_same c1 (OM_Call id (action_name action) payload))
      as (Hp & Hw & _ & _ & _ & _ & _ & _).
    destruct (out_send c1 _) as [sent c2]; simpl in Hp, Hw.
    assert (table_ok c2) as Hok by by apply (table_ok_same c1).
    destruct sent; [done|].
    apply (table_ok_give_up c2 (length (cn_waiters c)) (mkWaiter action id None)); [done| |done].
    by rewrite Hw.
  - destruct Hc as [Hp Hw]. split; simpl.
    + intros id' w' Hid. destruct (Hp id' w' Hid) as (x & Hx & Hxi). exists x. split; [|done].
      rewrite lookup_app_l; [done|]. by eapply lookup_lt_Some.
    + intros w' x' [Hx'|[_ Hx']]%lookup_app_Some Hr'; [by apply Hw|].
      apply list_lookup_singleton_Some in Hx' as [_ <-]. done.
Qed.

Lemma conn_call_keeps c id action :
  keeps_replies (cn_waiters c) (cn_waiters (call c id action)).
Proof.
  unfold conn_call. destruct (encode_action action) as [payload|e]; [|apply snoc_keeps].
  set (c1 := pending_register c id action).
  assert (keeps_replies (cn_waiters c) (cn_waiters c1)) as Hk.
  { unfold c1, pending_register. simpl. eapply keeps_trans; [apply drop_sender_keeps|].
    apply snoc_keeps. }
  destruct (out_send_same c1 (OM_Call id (action_name action) payload))
    as (Hp & Hw & _). destruct (out_send c1 _) as [sent c2]; simpl in Hp, Hw.
  destruct sent; [by rewrite Hw|]. simpl.
  eapply keeps_trans; [|apply drop_sender_keeps]. rewrite Hw.
  eapply keeps_trans; [exact Hk|apply deliver_keeps].
Qed.

(** A call's waiter is the next one, for its action. *)
Lemma call_waiter c id a :
  ∃ x, cn_waiters (call c id a) !! length (cn_waiters c) = Some x ∧ w_action x = a.
Proof.
  unfold conn_call. destruct (encode_action a) as [p|e]; simpl.
  2: { eexists. by rewrite lookup_app_r, Nat.sub_diag. }
  pose proof (register_waiter c id a) as Hx. set (c1 := pending_register c id a) in *.
  destruct (out_send_same c1 (OM_Call id (action_name a) p)) as (_ & Hw & _).
  destruct (out_send c1 _) as [sent c2]; simpl in Hw.
  destruct sent; [rewrite Hw; by eexists|]. simpl.
  destruct (deliver_keeps (cn_waiters c2) (length (cn_waiters c)) (generic_error "connection closed")
    (length (cn_waiters c)) (mkWaiter a id None)) as (y & Hy & Hya & _); [by rewrite Hw|].
  destruct (drop_sender_keeps _ (cn_pending c2 !! id) _ y Hy) as (z & Hz & Hza & _).
  exists z. split; [exact Hz|]. by rewrite Hza, Hya.
Qed.

(** [fail_all] answers every waiter in the table. *)
Lemma fail_all_lookup (ps : list (string * nat)) ws err w :
  foldr (λ p ws, deliver ws p.2 (λ _, Err err)) ws ps !! w =
  (if decide (w ∈ ps.*2) then
     (λ x, match w_reply x with
           | None => mkWaiter (w_action x) (w_id x) (Some (Err err))
           | Some _ => x end) <$> ws !! w
   else ws !! w) :> option (Waiter (Num := Num) (Action := Action) (Response := Response)).
Proof.
  induction ps as [|[id k] ps IH]; [done|]. rewrite fmap_cons. cbn [foldr snd].
  rewrite deliver_lookup, IH. destruct (decide (w = k)) as [->|Hne].
  - destruct (decide (k ∈ k :: ps.*2)) as [_|Hn];
      [|exfalso; apply Hn, list_elem_of_here].
    destruct (decide (k ∈ ps.*2)), (ws !! k) as [x|]; simpl;
      [destruct (w_reply x) eqn:Hr; simpl; by rewrite ?Hr|done..].
  - destruct (decide (w ∈ ps.*2)) as [Hin|Hin],
      (decide (w ∈ k :: ps.*2)) as [Hin'|Hin']; try done; exfalso.
    + apply Hin'. by apply list_elem_of_further.
    + by apply elem_of_cons in Hin' as [|].
Qed.

(** No call is waiting. *)
Definition all_replied c : Prop :=
  cn_pending c = ∅ ∧ ∀ w x, cn_waiters c !! w = Some x → is_Some (w_reply x).

Lemma fail_all_replied c err :
  table_ok c → all_replied (pending_fail_all c err) ∧
  keeps_replies (cn_waiters c) (cn_waiters (pending_fail_all c err)).
Proof.
  intros [Hp Hw]. unfold pending_fail_all. split; [split; [done|]|].
  - simpl. intros w x. rewrite fail_all_lookup. case_decide as Hin.
    + intros (y & Hy & ->)%fmap_Some. destruct (w_reply y) eqn:Hr; simpl; rewrite ?Hr; by eexists.
    + intros Hx. destruct (w_reply x) eqn:Hr; [by eexists|]. exfalso. apply Hin.
      apply list_elem_of_fmap. exists (w_id x, w). split; [done|].
      apply elem_of_map_to_list. by apply Hw.
  - simpl. intros w x Hx. rewrite fail_all_lookup, Hx. case_decide; [|by exists x].
    simpl. destruct (w_reply x) as [r|] eqn:Hr; eexists; (split; [done|]); by rewrite ?Hr.
Qed.

Lemma all_replied_table c : all_replied c → table_ok c.
Proof.
  intros [Hp Hr]. split.
  - intros id w. by rewrite Hp, lookup_empty.
  - intros w x Hx Hn. destruct (Hr w x Hx) as [r Hx']. congruence.
Qed.

(** ** Steps *)

Lemma conn_timeout_ok c w : table_ok c → table_ok (conn_timeout c w).
Proof.
  intros Hc. unfold conn_timeout. destruct (cn_waiters c !! w) as [x|] eqn:Hx; [|done].
  destruct (w_reply x) eqn:Hr; [done|]. by apply table_ok_give_up.
Qed.

Lemma conn_timeout_keeps c w : keeps_replies (cn_waiters c) (cn_waiters (conn_timeout c w)).
Proof.
  unfold conn_timeout. destruct (cn_waiters c !! w) as [x|]; [|apply keeps_refl].
  destruct (w_reply x); [apply keeps_refl|]. simpl.
  eapply keeps_trans; [apply deliver_keeps|apply drop_sender_keeps].
Qed.

Lemma complete_keeps c id outcome :
  keeps_replies (cn_waiters c) (cn_waiters (complete c id outcome)).
Proof.
  unfold pending_complete. destruct (cn_pending c !! id); [apply deliver_keeps|apply keeps_refl].
Qed.

(** The steps that leave the calls alone. *)
Definition same_calls c c' : Prop :=
  cn_pending c' = cn_pending c ∧ cn_waiters c' = cn_waiters c.

Lemma handler_finish_calls c k :
  same_calls c (handler_finish json_error_text validation_text handle c k).
Proof.
  unfold handler_finish. destruct (cn_handlers c !! k) as [h|]; [|done].
  destruct (h_state h); try done. unfold out_send. by destruct (cn_closed c).
Qed.

Lemma reader_step_cases c item :
  same_calls c (reader_step json_from_str json_error_text validation_text c item) ∨
  ∃ id outcome, reader_step json_from_str json_error_text validation_text c item =
    complete c id outcome.
Proof.
  unfold reader_step. destruct (negb _); [by left|]. destruct item as [text| | |e|]; try by left.
  destruct (codec_decode _ text) as [[id a p|id p|id code d dt]|e]; [by left|by right; eauto..|].
  left. destruct (recover_call_id _ text); [|done]. unfold out_send. by destruct (cn_closed _).
Qed.

Lemma conn_step_ok c ev :
  table_ok c → table_ok (step c ev) ∧ keeps_replies (cn_waiters c) (cn_waiters (step c ev)).
Proof.
  intros Hc. destruct ev as [id a|id a|item|w|k| |]; simpl.
  - unfold conn_fire. destruct (encode_action a) as [p|e]; [|split; [done|apply keeps_refl]].
    unfold out_send. destruct (cn_closed c); split; (done || apply keeps_refl).
  - split; [by apply conn_call_ok|apply conn_call_keeps].
  - destruct (reader_step_cases c item) as [[Hp Hw]|(id & outcome & ->)].
    + rewrite Hw. split; [by eapply table_ok_same|apply keeps_refl].
    + split; [by apply pending_complete_ok|apply complete_keeps].
  - split; [by apply conn_timeout_ok|apply conn_timeout_keeps].
  - destruct (handler_finish_calls c k) as [Hp Hw]. rewrite Hw.
    split; [by eapply table_ok_same|apply keeps_refl].
  - split; [done|apply keeps_refl].
  - destruct (fail_all_replied (abort_all (cn_abort_reader c))
      (CallError_new CC_GenericError "connection terminated") Hc) as [Hr Hk].
    split; [|exact Hk]. by apply all_replied_table in Hr.
Qed.

Lemma conn_run_ok c evs :
  table_ok c → table_ok (run c evs) ∧ keeps_replies (cn_waiters c) (cn_waiters (run c evs)).
Proof.
  revert c. induction evs as [|ev evs IH]; intros c Hc; [split; [done|apply keeps_refl]|].
  destruct (conn_step_ok c ev Hc) as [H1 H2]. destruct (IH (step c ev) H1) as [H3 H4].
  split; [done|]. by eapply keeps_trans.
Qed.

Lemma start_ok : table_ok Connection_start.
Proof. split; [intros id w; simpl; by rewrite lookup_empty|by intros w x]. Qed.

(** Closed, with no call waiting. *)
Definition settled c : Prop := cn_closed c = true ∧ all_replied c.

Lemma out_send_closed c msg : cn_closed c = true → out_send c msg = (false, c).
Proof. intros Hc. unfold out_send. by rewrite Hc. Qed.

Lemma settled_call c id a : settled c → settled (call c id a).
Proof.
  intros [Hc Hr]. pose proof (all_replied_table c Hr) as Ht. destruct Hr as [Hp Hr].
  pose proof (conn_call_ok c id a Ht) as Ht'. pose proof (proj2 Ht') as Hw.
  assert (cn_closed (call c id a) = true ∧ cn_pending (call c id a) = ∅) as [Hc' Hp'].
  { unfold conn_call. destruct (encode_action a); [|done].
    rewrite out_send_closed by done. simpl. split; [done|].
    rewrite Hp. by rewrite insert_empty, delete_singleton_eq. }
  split; [done|]. split; [done|]. intros w x Hx. destruct (w_reply x) eqn:Hxr; [by eexists|].
  specialize (Hw w x Hx Hxr). by rewrite Hp', lookup_empty in Hw.
Qed.

Lemma settled_step c ev : settled c → settled (step c ev).
Proof.
  intros Hs. pose proof Hs as [Hc [Hp Hr]]. destruct ev as [id a|id a|item|w|k| |]; simpl.
  - unfold conn_fire. destruct (encode_action a); [by rewrite out_send_closed|done].
  - by apply settled_call.
  - unfold reader_step. destruct (negb _); [done|]. destruct item as [text| | |e|]; try done.
    destruct (codec_decode _ text) as [[id a p|id p|id code d dt]|e]; [done| | |].
    + unfold pending_complete. by rewrite Hp, lookup_empty.
    + unfold pending_complete. by rewrite Hp, lookup_empty.
    + destruct (recover_call_id _ text); [|done]. by rewrite out_send_closed.
  - unfold conn_timeout. destruct (cn_waiters c !! w) as [x|] eqn:Hx; [|done].
    destruct (Hr w x Hx) as [r ->]. done.
  - unfold handler_finish. destruct (cn_handlers c !! k) as [h|]; [|done].
    destruct (h_state h); try done. by rewrite out_send_closed.
  - done.
  - split; [done|]. apply fail_all_replied. apply (table_ok_same c); [done|done|].
    by apply all_replied_table.
Qed.

Lemma settled_run c evs : settled c → settled (run c evs).
Proof.
  revert c. induction evs as [|ev evs IH]; intros c Hs; [done|]. by apply IH, settled_step.
Qed.

(** C8: in every interleaving of calls, frames, timeouts, handlers and teardown,
    a call is answered at most once and its answer never changes; while it is
    unanswered it is in the correlation table under its own id; and once the
    connection has been shut down no call is left without an answer, not even
    one made later. *)
Theorem calls_answered_once evs evs' :
  let c := run Connection_start evs in
  let c' := run c evs' in
  (∀ w x, cn_waiters c !! w = Some x →
     (w_reply x = None ↔ cn_pending c !! w_id x = Some w) ∧
     ∃ x', cn_waiters c' !! w = Some x' ∧ w_action x' = w_action x ∧ w_id x' = w_id x ∧
       ∀ r, w_reply x = Some r → w_reply x' = Some r) ∧
  (CE_Shutdown ∈ evs' → ∀ w x, cn_waiters c' !! w = Some x → is_Some (w_reply x)).
Proof.
  intros c c'. destruct (conn_run_ok Connection_start evs start_ok) as [Hok _]. fold c in Hok.
  destruct (conn_run_ok c evs' Hok) as [_ Hk]. fold c' in Hk. split.
  - intros w x Hx. split; [split|].
    + by apply Hok.
    + intros Hid. destruct (proj1 Hok _ _ Hid) as (y & Hy & _ & Hr). congruence.
    + destruct (Hk w x Hx) as (x' & Hx' & Ha & Hi & Hr). by exists x'.
  - intros (l1 & l2 & Hl)%list_elem_of_split.
    assert (settled c') as [_ [_ Hr]]; [|exact Hr]. unfold c'. rewrite Hl.
    unfold conn_run. rewrite foldl_app. apply settled_run. split; [done|].
    apply fail_all_replied. apply (table_ok_same (run c l1)); [done|done|].
    by apply conn_run_ok.
Qed.

(** ** Where replies come from *)

(** The frames the reader was handed. *)
Definition frame_in (evs : list Event) (m : OcppJMessage Num) : Prop :=
  ∃ text, CE_Item (SI_Text text) ∈ evs ∧ codec_decode json_from_str text = Ok m.

(** A successful reply is the decoded payload of a result frame with its id. *)
Definition genuine evs (x : Waiter (Num := Num) (Action := Action) (Response := Response)) : Prop :=
  ∀ r, w_reply x = Some (Ok r) →
    ∃ payload, frame_in evs (OM_CallResult (w_id x) payload) ∧
      decode_result (w_action x) payload = Ok r.

Definition all_genuine evs (ws : list (Waiter (Num := Num) (Action := Action) (Response := Response)))
  : Prop := ∀ w x, ws !! w = Some x → genuine evs x.

Lemma deliver_genuine evs ws w (reply : Action → Result Response (CallError Num)) :
  (∀ x, ws !! w = Some x → w_reply x = None →
     genuine evs (mkWaiter (w_action x) (w_id x) (Some (reply (w_action x))))) →
  all_genuine evs ws → all_genuine evs (deliver ws w reply).
Proof.
  intros Hnew Hold k x. rewrite deliver_lookup. case_decide as Hk; [|apply Hold]. subst k.
  intros (y & Hy & ->)%fmap_Some. destruct (w_reply y) eqn:Hr; [by eapply Hold|by apply Hnew].
Qed.

(** An error is always genuine. *)
Lemma deliver_error_genuine evs ws w (reply : Action → Result Response (CallError Num)) :
  (∀ a r, reply a ≠ Ok r) → all_genuine evs ws → all_genuine evs (deliver ws w reply).
Proof.
  intros Hne. apply deliver_genuine. intros x _ _ r Hr. simpl in Hr. by injection Hr as ?%Hne.
Qed.

Lemma drop_sender_genuine evs ws old :
  all_genuine evs ws →
  all_genuine evs (drop_sender (Num := Num) (Action := Action) (Response := Response) ws old).
Proof. destruct old; [by apply deliver_error_genuine|done]. Qed.

Lemma snoc_genuine evs ws x :
  genuine evs x → all_genuine evs ws → all_genuine evs (ws ++ [x]).
Proof.
  intros Hx Hws k y [Hy|[_ Hy]]%lookup_app_Some; [by eapply Hws|].
  by apply list_lookup_singleton_Some in Hy as [_ <-].
Qed.

Lemma genuine_more evs ev ws : all_genuine evs ws → all_genuine (evs ++ [ev]) ws.
Proof.
  intros Hws w x Hx r Hr. destruct (Hws w x Hx r Hr) as (p & (text & Hin & Hd) & Hp).
  exists p. split; [|done]. exists text. split; [|done]. apply elem_of_app. by left.
Qed.

Lemma call_genuine evs c id a :
  all_genuine evs (cn_waiters c) → all_genuine evs (cn_waiters (call c id a)).
Proof.
  intros Hc. unfold conn_call. destruct (encode_action a) as [p|e]; [|by apply snoc_genuine].
  set (c1 := pending_register c id a).
  assert (all_genuine evs (cn_waiters c1)) as H1
    by (apply snoc_genuine; [done|by apply drop_sender_genuine]).
  destruct (out_send_same c1 (OM_Call id (action_name a) p)) as (_ & Hw & _).
  destruct (out_send c1 _) as [sent c2]; simpl in Hw. destruct sent; [by rewrite Hw|]. simpl.
  apply drop_sender_genuine, deliver_error_genuine; [done|by rewrite Hw].
Qed.

Lemma reader_genuine evs c item :
  table_ok c → CE_Item item ∈ evs → all_genuine evs (cn_waiters c) →
  all_genuine evs (cn_waiters (reader_step json_from_str json_error_text validation_text c item)).
Proof.
  intros [Hp _] Hin Hc. unfold reader_step. destruct (negb _); [done|].
  destruct item as [text| | |e|]; try done.
  destruct (codec_decode _ text) as [[id a p|id p|id code d dt]|e] eqn:Hd; [done| | |].
  - unfold pending_complete. destruct (cn_pending c !! id) as [w|] eqn:Hid; [|done]. simpl.
    apply deliver_genuine; [|done]. intros x Hx _ r Hr. simpl in Hr |- *.
    destruct (Hp id w Hid) as (x' & Hx' & Hi & _). rewrite Hx in Hx'. injection Hx' as <-.
    exists p. split; [exists text; by rewrite Hi|].
    unfold outcome_reply in Hr. by destruct (decode_result (w_action x) p); simplify_eq.
  - unfold pending_complete. destruct (cn_pending c !! id); [|done]. simpl.
    by apply deliver_error_genuine.
  - destruct (recover_call_id _ text); [|done].
    destruct (out_send_same (cn_say c (SL_Framing e)) (OM_CallError s CC_FormationViolation
      (framing_text json_error_text e) (J_Object []))) as (_ & -> & _). done.
Qed.

Lemma step_genuine evs c ev :
  table_ok c → ev ∈ evs → all_genuine evs (cn_waiters c) → all_genuine evs (cn_waiters (step c ev)).
Proof.
  intros Ht Hin Hc. destruct ev as [id a|id a|item|w|k| |]; simpl.
  - unfold conn_fire. destruct (encode_action a) as [p|e]; [|done].
    by destruct (out_send_same c (OM_Call id (action_name a) p)) as (_ & -> & _).
  - by apply call_genuine.
  - by apply reader_genuine.
  - unfold conn_timeout. destruct (cn_waiters c !! w) as [x|]; [|done].
    destruct (w_reply x); [done|]. simpl. by apply drop_sender_genuine, deliver_error_genuine.
  - by destruct (handler_finish_calls c k) as [_ ->].
  - done.
  - induction (map_to_list (cn_pending c)) as [|p l IH]; simpl; [done|].
    by apply deliver_error_genuine.
Qed.

(** C10: a call that succeeds was really answered: its response is decoded, for
    its own action, from the payload of a result frame that carried its id. *)
Theorem replies_are_genuine evs :
  ∀ w x r, cn_waiters (run Connection_start evs) !! w = Some x → w_reply x = Some (Ok r) →
  ∃ payload, frame_in evs (OM_CallResult (w_id x) payload) ∧
    decode_result (w_action x) payload = Ok r.
Proof.
  assert (all_genuine evs (cn_waiters (run Connection_start evs))) as Hg.
  { induction evs as [|ev evs IH] using rev_ind; [by intros w x|].
    unfold conn_run. rewrite foldl_snoc. apply step_genuine.
    - apply conn_run_ok, start_ok.
    - apply elem_of_app. right. apply list_elem_of_here.
    - by apply genuine_more. }
  intros w x r Hx. by apply (Hg w x Hx).
Qed.

(** ** Answers to the peer *)

Definition is_reply (m : OcppJMessage Num) : bool :=
  match m with OM_Call _ _ _ => false | _ => true end.

(** The ids of the replies sent, in order. *)
Definition reply_ids c : list string := message_id <$> filter (λ m, is_reply m = true) (cn_out c).

Definition handler_sent (h : Handler (Num := Num)) : bool :=
  match h_state h with HS_Finished true => true | _ => false end.

(** The calls whose handler has not sent its reply. *)
Definition unsent_ids c : list string :=
  h_id <$> filter (λ h, handler_sent h = false) (cn_handlers c).

(** The id an incoming text is owed a reply under: a call's, or the one
    recovered from a malformed call. *)
Definition owed_id (text : Text) : list string :=
  match codec_decode json_from_str text with
  | Ok (OM_Call id _ _) => [id]
  | Ok _ => []
  | Err _ => option_list (recover_call_id json_from_str text)
  end.

Definition owed_ids evs : list string :=
  evs ≫= λ ev, match ev with CE_Item (SI_Text text) => owed_id text | _ => [] end.

(** Every reply sent or outstanding is owed, and while the link is up every one
    owed is sent or outstanding. *)
Definition replies_ok c (owed : list string) : Prop :=
  reply_ids c ++ unsent_ids c ⊆+ owed ∧
  (cn_reading c = true → cn_closed c = false → reply_ids c ++ unsent_ids c ≡ₚ owed).

(** A step that owes nothing new and keeps what is sent or outstanding. *)
Lemma replies_ok_keep c c' owed new :
  reply_ids c' ++ unsent_ids c' ≡ₚ reply_ids c ++ unsent_ids c →
  (cn_reading c' = true → cn_closed c' = false →
     new = [] ∧ cn_reading c = true ∧ cn_closed c = false) →
  replies_ok c owed → replies_ok c' (owed ++ new).
Proof.
  intros Hp Hup [Hs He]. split.
  - rewrite Hp. by apply submseteq_inserts_r.
  - intros Hr Hc. destruct (Hup Hr Hc) as (-> & Hr' & Hc'). rewrite Hp, app_nil_r. auto.
Qed.

(** A step that owes one reply and sends it or makes it outstanding. *)
Lemma replies_ok_add c c' owed id :
  reply_ids c' ++ unsent_ids c' ≡ₚ (reply_ids c ++ unsent_ids c) ++ [id] →
  (cn_reading c' = true → cn_closed c' = false → cn_reading c = true ∧ cn_closed c = false) →
  replies_ok c owed → replies_ok c' (owed ++ [id]).
Proof.
  intros Hp Hup [Hs He]. split.
  - rewrite Hp. by apply submseteq_app.
  - intros Hr Hc. destruct (Hup Hr Hc) as (Hr' & Hc'). rewrite Hp, He; done.
Qed.

Lemma send_unsent c msg : unsent_ids (out_send c msg).2 = unsent_ids c.
Proof. unfold unsent_ids. by destruct (out_send_same c msg) as (_ & _ & -> & _). Qed.

Lemma reply_ids_sent c msg :
  reply_ids (out_send c msg).2 =
  reply_ids c ++ (if cn_closed c then [] else if is_reply msg then [message_id msg] else []).
Proof.
  destruct (out_send_same c msg) as (_ & _ & _ & _ & _ & _ & _ & Ho). unfold reply_ids.
  rewrite Ho, filter_app, fmap_app. f_equal. destruct (cn_closed c); [done|].
  destruct (is_reply msg) eqn:Hm.
  - by rewrite filter_cons_True.
  - by rewrite filter_cons_False by congruence.
Qed.

(** Updating one element of a list. *)
Lemma alter_split {A} (f : A → A) (l : list A) k x :
  l !! k = Some x → ∃ l1 l2, l = l1 ++ x :: l2 ∧ alter f k l = l1 ++ f x :: l2.
Proof.
  revert k. induction l as [|y l IH]; intros [|k] Hx; try done.
  - injection Hx as ->. by exists [], l.
  - destruct (IH k Hx) as (l1 & l2 & -> & Ha). exists (y :: l1), l2.
    split; [done|]. simpl. f_equal. exact Ha.
Qed.

Lemma alter_absent {A} (f : A → A) (l : list A) k : l !! k = None → alter f k l = l.
Proof.
  revert k. induction l as [|y l IH]; intros [|k] Hx; try done. simpl. f_equal. by apply IH.
Qed.

Lemma dispatch_call_id id name payload :
  message_id (dispatch_call json_error_text validation_text handle id name payload) = id ∧
  is_reply (dispatch_call json_error_text validation_text handle id name payload) = true.
Proof.
  unfold dispatch_call, into_error. destruct (decode_call name payload); [|done].
  destruct (validate a); [|done]. destruct (handle a); [|done]. by destruct (encode_response a1).
Qed.

Lemma finish_replies c k h sent :
  cn_handlers c !! k = Some h → h_state h = HS_Running →
  let hs := alter (set_handler_state (HS_Finished sent)) k (cn_handlers c) in
  unsent_ids c ≡ₚ unsent_ids (cn_with_handlers c hs (cn_tracked c)) ++
    (if sent then [h_id h] else []).
Proof.
  intros Hk Hh hs. unfold unsent_ids. simpl. unfold hs.
  destruct (alter_split (set_handler_state (HS_Finished sent)) _ _ _ Hk) as (l1 & l2 & -> & ->).
  rewrite !filter_app, !fmap_app, (filter_cons_True _ h) by (unfold handler_sent; by rewrite Hh).
  destruct sent.
  - rewrite filter_cons_False by done. simpl. solve_Permutation.
  - rewrite filter_cons_True by done. simpl. by rewrite app_nil_r.
Qed.

Lemma handler_finish_replies c k owed :
  replies_ok c owed →
  replies_ok (handler_finish json_error_text validation_text handle c k) owed.
Proof.
  intros Hc. unfold handler_finish. destruct (cn_handlers c !! k) as [h|] eqn:Hk; [|done].
  destruct (h_state h) eqn:Hh; try done.
  destruct (dispatch_call_id (h_id h) (h_name h) (h_payload h)) as [Hid Hrep].
  set (m := dispatch_call _ _ _ _ _ _) in *.
  destruct (out_send_same c m) as (_ & _ & Hhs & _ & Hcl & Hr & Hs & _).
  pose proof (send_unsent c m) as Hu.
  pose proof (reply_ids_sent c m) as Hids. rewrite Hid, Hrep in Hids.
  destruct (out_send c m) as [sent c1]; simpl in *.
  rewrite <-(app_nil_r owed). apply (replies_ok_keep c); [|by simpl; rewrite Hr, Hcl|done].
  rewrite <-Hhs in Hk. pose proof (finish_replies c1 k h sent Hk Hh) as Hf. simpl in Hf.
  rewrite Hu in Hf. rewrite Hf. unfold reply_ids at 1. simpl. fold (reply_ids c1). rewrite Hids, Hs.
  destruct (cn_closed c); simpl; [by rewrite !app_nil_r|solve_Permutation].
Qed.

(** A handler that is running, finished or aborted owes the same reply. *)
Lemma abort_replies c : unsent_ids (abort_all c) = unsent_ids c.
Proof.
  unfold unsent_ids, abort_all. simpl.
  induction (cn_tracked c) as [|k ks IH]; simpl; [done|]. rewrite <-IH.
  set (hs := foldr _ _ ks). destruct (hs !! k) as [h|] eqn:Hk.
  - destruct (alter_split abort_handler _ _ _ Hk) as (l1 & l2 & -> & ->).
    rewrite !filter_app, !fmap_app. f_equal. unfold abort_handler.
    destruct (h_state h) eqn:Hh; [|done|done].
    rewrite !filter_cons_True; [done|by unfold handler_sent; rewrite Hh|done].
  - by rewrite alter_absent.
Qed.

Lemma reader_replies c item owed :
  replies_ok c owed →
  replies_ok (reader_step json_from_str json_error_text validation_text c item)
    (owed ++ match item with SI_Text text => owed_id text | _ => [] end).
Proof.
  intros Hc. unfold reader_step. destruct (cn_reading c) eqn:Hrd; simpl.
  2:{ apply (replies_ok_keep c); [done|congruence|done]. }
  destruct item as [text| | |e|]; simpl;
    try by (apply (replies_ok_keep c); [done|by simpl|done]).
  unfold owed_id. destruct (codec_decode _ text) as [[id a p|id p|id code d dt]|e] eqn:Hd; simpl.
  - apply (replies_ok_add c); [|by intros|done]. unfold reply_ids, unsent_ids, track. simpl.
    rewrite filter_app, fmap_app, filter_cons_True by done. simpl. by rewrite (assoc_L (++)).
  - apply (replies_ok_keep c); [by unfold pending_complete; destruct (cn_pending c !! id)| |done].
    unfold pending_complete. by destruct (cn_pending c !! id).
  - apply (replies_ok_keep c); [by unfold pending_complete; destruct (cn_pending c !! id)| |done].
    unfold pending_complete. by destruct (cn_pending c !! id).
  - destruct (recover_call_id _ text) as [id|]; simpl; [|by apply (replies_ok_keep c)].
    set (c1 := cn_say c (SL_Framing e)).
    set (m := OM_CallError id _ _ _).
    destruct (out_send_same c1 m) as (_ & _ & _ & _ & Hcl & Hr & _).
    pose proof (send_unsent c1 m) as Hu.
    pose proof (reply_ids_sent c1 m) as Hids. simpl in Hids.
    destruct (cn_closed c) eqn:Hclosed.
    + assert (replies_ok c owed → replies_ok (out_send c1 m).2 (owed ++ [id])) as Hk; [|auto].
      apply replies_ok_keep; [by rewrite Hids, Hu, app_nil_r|].
      intros _ Hx. rewrite Hcl in Hx. simpl in Hx. congruence.
    + apply (replies_ok_add c); [|done|done]. rewrite Hids, Hu.
      unfold reply_ids, unsent_ids. simpl. solve_Permutation.
Qed.

(** Calls are not replies. *)
Lemma send_call_replies c id name payload owed :
  replies_ok c owed → replies_ok (out_send c (OM_Call id name payload)).2 owed.
Proof.
  intros Hc. rewrite <-(app_nil_r owed).
  destruct (out_send_same c (OM_Call id name payload)) as (_ & _ & _ & _ & Hcl & Hr & _).
  apply (replies_ok_keep c); [|by rewrite Hr, Hcl|done].
  rewrite reply_ids_sent, send_unsent. simpl. by destruct (cn_closed c); rewrite app_nil_r.
Qed.

Lemma call_replies c id a owed : replies_ok c owed → replies_ok (call c id a) owed.
Proof.
  intros Hc. unfold conn_call. destruct (encode_action a) as [p|e]; [|done].
  set (c1 := pending_register c id a).
  pose proof (send_call_replies c1 id (action_name a) p owed Hc) as H1.
  by destruct (out_send c1 _) as [[] c2].
Qed.

Lemma step_replies c ev evs :
  replies_ok c (owed_ids evs) → replies_ok (step c ev) (owed_ids (evs ++ [ev])).
Proof.
  intros Hc. unfold owed_ids. rewrite bind_app. simpl. rewrite app_nil_r. fold (owed_ids evs).
  destruct ev as [id a|id a|item|w|k| |]; simpl; rewrite ?app_nil_r.
  - unfold conn_fire. destruct (encode_action a); [by apply send_call_replies|done].
  - by apply call_replies.
  - by apply reader_replies.
  - unfold conn_timeout. destruct (cn_waiters c !! w) as [x|]; [|done]. by destruct (w_reply x).
  - by apply handler_finish_replies.
  - rewrite <-(app_nil_r (owed_ids evs)). by apply (replies_ok_keep c).
  - rewrite <-(app_nil_r (owed_ids evs)). apply (replies_ok_keep c); [|by simpl|done].
    pose proof (abort_replies (cn_abort_reader c)) as Ha. unfold unsent_ids in *. simpl in *.
    by rewrite Ha.
Qed.

(** *** Finished handlers *)

(** The reply a call is due: the application's response, encoded, when the action
    decodes and is valid and the application answers; an error otherwise, with
    the code of what went wrong. *)
Definition answers (id name : string) (payload : Json Num) (m : OcppJMessage Num) : Prop :=
  match m with
  | OM_Call _ _ _ => False
  | OM_CallResult i p => i = id ∧ ∃ action ok response,
      decode_call name payload = Ok action ∧ validate action = Ok ok ∧
      handle action = Ok response ∧ encode_response response = Ok p
  | OM_CallError i code description details => i = id ∧
      match decode_call name payload with
      | Err (OE_UnknownAction _) => code = CC_NotImplemented
      | Err _ => code = CC_FormationViolation
      | Ok action =>
          match validate action, handle action with
          | Err _, _ => code = CC_FormationViolation
          | Ok _, Err e => mkCallError Num code description details = e
          | Ok _, Ok response => ∃ e, encode_response response = Err e
          end
      end
  end.

Lemma dispatch_answers id name payload :
  answers id name payload (dispatch_call json_error_text validation_text handle id name payload).
Proof.
  unfold dispatch_call, answers, into_error.
  destruct (decode_call name payload) as [action|[]] eqn:Hd; simpl; [|done..].
  destruct (validate action) as [ok|ve] eqn:Hv; simpl; [|done].
  destruct (handle action) as [response|[]] eqn:Hh; simpl; [|done].
  destruct (encode_response response) as [p|e] eqn:He; simpl; split; eauto 10.
Qed.

(** A finished handler has sent its reply, or found the link down. *)
Definition finished_ok c : Prop :=
  ∀ k h sent, cn_handlers c !! k = Some h → h_state h = HS_Finished sent →
    if (sent : bool) then ∃ m, m ∈ cn_out c ∧ answers (h_id h) (h_name h) (h_payload h) m
    else cn_closed c = true.

(** Nothing sent is taken back, the link stays down, and handlers finish
    through [handler_finish] only. *)
Definition only_grows c c' : Prop :=
  (∀ m, m ∈ cn_out c → m ∈ cn_out c') ∧ (cn_closed c = true → cn_closed c' = true) ∧
  ∀ k h sent, cn_handlers c' !! k = Some h → h_state h = HS_Finished sent →
    cn_handlers c !! k = Some h.

Lemma only_grows_ok c c' : only_grows c c' → finished_ok c → finished_ok c'.
Proof.
  intros (Ho & Hc & Hh) Hok k h sent Hk Hs. specialize (Hok k h sent (Hh k h sent Hk Hs) Hs).
  destruct sent; [|by apply Hc]. destruct Hok as (m & Hm & Ha). exists m. auto.
Qed.

Lemma send_grows c msg : only_grows c (out_send c msg).2.
Proof.
  destruct (out_send_same c msg) as (_ & _ & Hh & _ & Hc & _ & _ & Ho).
  split; [|split; [by rewrite Hc|by rewrite Hh]]. intros m Hm. rewrite Ho. apply elem_of_app. by left.
Qed.

Lemma abort_grows c : only_grows c (abort_all c).
Proof.
  split; [done|]. split; [done|]. unfold abort_all. simpl. intros k h sent.
  revert h. induction (cn_tracked c) as [|j ks IH]; intros h; simpl; [done|].
  rewrite list_lookup_alter. case_decide as Hj; [subst j|by apply IH]. intros (x & Hx & ->)%fmap_Some Hs. unfold abort_handler in Hs |- *.
  destruct (h_state x) eqn:Hx'; [done| |congruence]. by apply IH.
Qed.

Lemma track_grows c h : h_state h = HS_Running → only_grows c (track c h).
Proof.
  intros Hr. split; [done|]. split; [done|]. unfold track. simpl. intros k x sent Hk Hs.
  apply lookup_app_Some in Hk as [Hk|[_ Hk]]; [done|].
  apply list_lookup_singleton_Some in Hk as [_ <-]. congruence.
Qed.

Lemma complete_grows c id outcome : only_grows c (complete c id outcome).
Proof. unfold pending_complete. by destruct (cn_pending c !! id). Qed.

Lemma finish_ok c k :
  finished_ok c → finished_ok (handler_finish json_error_text validation_text handle c k).
Proof.
  intros Hok. unfold handler_finish. destruct (cn_handlers c !! k) as [h|] eqn:Hk; [|done].
  destruct (h_state h) eqn:Hh; try done. set (m := dispatch_call _ _ _ _ _ _).
  pose proof (only_grows_ok _ _ (send_grows c m) Hok) as Hok1.
  destruct (out_send_same c m) as (_ & _ & Hhs & _ & Hcl & _ & Hs & Ho).
  destruct (out_send c m) as [sent c1]. simpl in *. intros j x b. simpl. rewrite list_lookup_alter.
  case_decide as Hj; [|apply Hok1]. subst j. rewrite Hhs, Hk. simpl. intros [= <-] [= <-].
  rewrite Hs. simpl. destruct (cn_closed c); simpl; [done|].
  exists m. split; [rewrite Ho; apply elem_of_app; right; apply list_elem_of_here|].
  apply dispatch_answers.
Qed.

Lemma call_grows c id a : only_grows c (call c id a).
Proof.
  unfold conn_call. destruct (encode_action a) as [p|e]; [|done].
  pose proof (send_grows (pending_register c id a) (OM_Call id (action_name a) p)) as Hg.
  by destruct (out_send _ _) as [[] c2].
Qed.

Lemma reader_grows c item :
  only_grows c (reader_step json_from_str json_error_text validation_text c item).
Proof.
  unfold reader_step. destruct (negb _); [done|]. destruct item as [text| | |e|]; try done.
  destruct (codec_decode _ text) as [[id a p|id p|id code d dt]|e].
  - by apply track_grows.
  - apply complete_grows.
  - apply complete_grows.
  - destruct (recover_call_id _ text) as [id|]; [|done]. apply (send_grows (cn_say c (SL_Framing e))).
Qed.

Lemma step_finished c ev : finished_ok c → finished_ok (step c ev).
Proof.
  intros Hok. destruct ev as [id a|id a|item|w|k| |]; simpl.
  - unfold conn_fire. destruct (encode_action a); [|done]. by eapply only_grows_ok, Hok; apply send_grows.
  - by eapply only_grows_ok, Hok; apply call_grows.
  - by eapply only_grows_ok, Hok; apply reader_grows.
  - unfold conn_timeout. destruct (cn_waiters c !! w) as [x|]; [|done]. by destruct (w_reply x).
  - by apply finish_ok.
  - eapply only_grows_ok, Hok. by split_and!.
  - eapply only_grows_ok, Hok. destruct (abort_grows (cn_abort_reader c)) as (H1 & H2 & H3).
    by split_and!.
Qed.

Lemma handler_done c k h :
  cn_handlers c !! k = Some h → h_state h = HS_Running → cn_closed c = false →
  ∃ m, cn_out (step c (CE_HandlerDone k)) = cn_out c ++ [m] ∧
    answers (h_id h) (h_name h) (h_payload h) m ∧
    h_state <$> cn_handlers (step c (CE_HandlerDone k)) !! k = Some (HS_Finished true).
Proof.
  intros Hk Hh Hc. simpl. unfold handler_finish. rewrite Hk, Hh. set (m := dispatch_call _ _ _ _ _ _).
  exists m. unfold out_send. rewrite Hc. simpl. split; [done|]. split; [apply dispatch_answers|].
  by rewrite list_lookup_alter, decide_True, Hk by done.
Qed.

(** C9: in every interleaving, the peer is answered under the ids it is owed a
    reply for and no other: each call, and each malformed call whose id can be
    read, is answered at most once, and a malformed reply never. While the link
    is up every reply owed has been sent or its handler has yet to send it; a
    handler that ends while the link is up sends one frame, the answer its call
    is due, and a handler that has ended has sent that answer unless the link
    went down. *)
Theorem peer_answered_once evs :
  let c := run Connection_start evs in
  reply_ids c ++ unsent_ids c ⊆+ owed_ids evs ∧
  (cn_reading c = true → cn_closed c = false → reply_ids c ++ unsent_ids c ≡ₚ owed_ids evs) ∧
  (∀ k h, cn_handlers c !! k = Some h →
     match h_state h with
     | HS_Running => cn_closed c = false →
         ∃ m, cn_out (step c (CE_HandlerDone k)) = cn_out c ++ [m] ∧
           answers (h_id h) (h_name h) (h_payload h) m ∧
           h_state <$> cn_handlers (step c (CE_HandlerDone k)) !! k = Some (HS_Finished true)
     | HS_Finished true => ∃ m, m ∈ cn_out c ∧ answers (h_id h) (h_name h) (h_payload h) m
     | HS_Finished false => cn_closed c = true
     | HS_Aborted => True
     end).
Proof.
  intros c. assert (replies_ok c (owed_ids evs) ∧ finished_ok c) as [[H1 H2] Hf].
  { unfold c. induction evs as [|ev evs [IH1 IH2]] using rev_ind; [by split|].
    unfold conn_run. rewrite foldl_snoc. split; [by apply step_replies|by apply step_finished]. }
  split; [done|]. split; [done|]. intros k h Hk. destruct (h_state h) as [|[]|] eqn:Hh; [| | |done].
  - intros Hc. by apply handler_done.
  - exact (Hf k h true Hk Hh).
  - exact (Hf k h false Hk Hh).
Qed.

(** ** Teardown *)

Definition tracked_ok c : Prop :=
  ∀ k h, cn_handlers c !! k = Some h → h_state h = HS_Running → k ∈ cn_tracked c.

Definition none_running c : Prop := ∀ k h, cn_handlers c !! k = Some h → h_state h ≠ HS_Running.

Lemma track_ok c h : tracked_ok c → tracked_ok (track c h).
Proof.
  intros Hc k x Hk Hx. unfold track in *. simpl in *. apply elem_of_app.
  apply lookup_app_Some in Hk as [Hk|[Hge Hk]].
  - left. apply list_elem_of_filter. split; [|by eapply Hc].
    unfold is_finished. by rewrite Hk, Hx.
  - right. apply list_lookup_singleton_Some in Hk as [Hk _].
    apply list_elem_of_singleton. lia.
Qed.

Lemma alter_aborts (hs : list (Handler (Num := Num))) ks k h :
  foldr (λ k hs, alter abort_handler k hs) hs ks !! k = Some h → h_state h = HS_Running →
  hs !! k = Some h ∧ k ∉ ks.
Proof.
  revert h. induction ks as [|j ks IH]; intros h; simpl; [intros Hk _; split; [done|set_solver]|].
  rewrite list_lookup_alter. case_decide as Hj.
  - intros (x & Hx & ->)%fmap_Some. unfold abort_handler.
    destruct (h_state x) eqn:Hs; simpl; congruence.
  - intros Hk Hr. destruct (IH h Hk Hr) as [H1 H2]. split; [done|].
    intros [?|?]%elem_of_cons; [by subst|done].
Qed.

Lemma abort_none_running c : tracked_ok c → none_running (abort_all c).
Proof.
  intros Hc k h Hk Hr. unfold abort_all in Hk. simpl in Hk.
  destruct (alter_aborts _ _ _ _ Hk Hr) as [Hk' Hn]. by apply Hn, (Hc k h).
Qed.

Lemma finish_tracked c k :
  tracked_ok c →
  tracked_ok (handler_finish json_error_text validation_text handle c k).
Proof.
  intros Hc. unfold handler_finish. destruct (cn_handlers c !! k) as [h|] eqn:Hk; [|done].
  destruct (h_state h) eqn:Hh; try done.
  set (m := dispatch_call _ _ _ _ _ _).
  destruct (out_send_same c m) as (_ & _ & Hhs & Htr & _).
  destruct (out_send c m) as [sent c1]. simpl in *. intros j x. simpl. rewrite Hhs, Htr.
  rewrite list_lookup_alter. case_decide; [|apply Hc].
  by intros (y & _ & ->)%fmap_Some.
Qed.

Lemma tracked_same c c' :
  cn_handlers c' = cn_handlers c → cn_tracked c' = cn_tracked c → tracked_ok c → tracked_ok c'.
Proof. intros Hh Ht Hc k h. rewrite Hh, Ht. apply Hc. Qed.

Lemma send_tracked c msg : tracked_ok c → tracked_ok (out_send c msg).2.
Proof. destruct (out_send_same c msg) as (_ & _ & Hh & Ht & _). by apply tracked_same. Qed.

Lemma reader_tracked c item :
  tracked_ok c →
  tracked_ok (reader_step json_from_str json_error_text validation_text c item).
Proof.
  intros Hc. unfold reader_step. destruct (negb _); [done|]. destruct item as [text| | |e|]; try done.
  destruct (codec_decode _ text) as [[id a p|id p|id code d dt]|e]; [by apply track_ok| | |].
  - unfold pending_complete. by destruct (cn_pending c !! id).
  - unfold pending_complete. by destruct (cn_pending c !! id).
  - destruct (recover_call_id _ text); [|done]. by apply send_tracked.
Qed.

Lemma step_tracked c ev : tracked_ok c → tracked_ok (step c ev).
Proof.
  intros Hc. destruct ev as [id a|id a|item|w|k| |]; simpl; [| | | | |done|].
  - unfold conn_fire. destruct (encode_action a); [by apply send_tracked|done].
  - unfold conn_call. destruct (encode_action a) as [p|e]; [|done].
    pose proof (send_tracked (pending_register c id a) (OM_Call id (action_name a) p) Hc) as H1.
    by destruct (out_send _ _) as [[] c2].
  - by apply reader_tracked.
  - unfold conn_timeout. destruct (cn_waiters c !! w) as [x|]; [|done]. by destruct (w_reply x).
  - by apply finish_tracked.
  - intros k h Hk Hr. exfalso. by apply (abort_none_running (cn_abort_reader c) Hc k h).
Qed.

Lemma run_tracked c evs : tracked_ok c → tracked_ok (run c evs).
Proof. revert c. induction evs as [|ev evs IH]; intros c Hc; [done|]. by apply IH, step_tracked. Qed.

(** The reader stopped, the channel closed and no handler at work. *)
Definition torn_down c : Prop :=
  cn_reading c = false ∧ cn_closed c = true ∧ none_running c.

(** Nothing the peer or a caller does starts a handler or sends a frame then. *)
Lemma torn_down_step c ev : torn_down c →
  torn_down (step c ev) ∧ cn_out (step c ev) = cn_out c.
Proof.
  intros Hc. pose proof Hc as (Hr & Hcl & Hn). destruct ev as [id a|id a|item|w|k| |]; simpl.
  - unfold conn_fire. destruct (encode_action a); [by rewrite out_send_closed|done].
  - unfold conn_call. destruct (encode_action a); [|done]. by rewrite out_send_closed.
  - unfold reader_step. by rewrite Hr.
  - unfold conn_timeout. destruct (cn_waiters c !! w) as [x|]; [|done]. by destruct (w_reply x).
  - unfold handler_finish. destruct (cn_handlers c !! k) as [h|] eqn:Hk; [|done].
    pose proof (Hn k h Hk). by destruct (h_state h).
  - done.
  - split; [|done]. split; [done|]. split; [done|]. apply (abort_none_running (cn_abort_reader c)).
    intros k h Hk Hh. by destruct (Hn k h Hk).
Qed.

(** Shutting down ends every handler at work, whatever tasks ran before, so
    that nothing holds the outgoing channel open; and from then on no handler
    runs and no frame is sent, whatever still arrives. *)
Theorem shutdown_is_final evs evs' :
  let c := conn_shutdown (run Connection_start evs) in
  let c' := run c evs' in
  (∀ k h, cn_handlers c' !! k = Some h → h_state h ≠ HS_Running) ∧
  cn_reading c' = false ∧ cn_closed c' = true ∧ cn_out c' = cn_out c ∧
  cn_out c = cn_out (run Connection_start evs).
Proof.
  intros c c'. assert (torn_down c) as Hc.
  { split; [done|]. split; [done|]. apply (abort_none_running (cn_abort_reader _)).
    apply (tracked_same (run Connection_start evs)); [done|done|]. by apply run_tracked. }
  assert (torn_down c' ∧ cn_out c' = cn_out c) as [(Hr & Hcl & Hn) Ho]; [|done].
  unfold c'. clear c'. clearbody c. revert c Hc.
  induction evs' as [|ev evs' IH]; intros c Hc; [done|].
  destruct (torn_down_step c ev Hc) as [H1 Ho]. destruct (IH _ H1) as [H2 Ho'].
  split; [done|]. simpl. by rewrite <-Ho.
Qed.
End props.

(** ** A connection *)

Definition echo_action : Type := string * Json unit.

(** A version whose actions and responses are untyped. *)
#[export] Instance echo_version : Version unit string string echo_action (Json unit) := {
  action_name := fst;
  decode_call name payload :=
    if String.eqb name "Reset" then Ok (name, payload) else Err (OE_UnknownAction name);
  validate _ := Ok tt;
  encode_response := Ok;
  encode_action a := Ok a.2;
  decode_result _ payload := Ok payload
}.

Definition echo_handle (a : echo_action) : Result (Json unit) (CallError unit) := Ok a.2.

Definition json_id : Json unit → Result (Json unit) string := Ok.

Abbreviation echo_run := (conn_run (WE := unit) json_id id id echo_handle).

(** Two calls out, two calls and a malformed one in, one reply. *)
Definition echo_events : list (ConnEvent (Text := Json unit) (WE := unit) (Action := echo_action)) :=
  [CE_Call "a" ("BootNotification", J_Object []);
   CE_Call "b" ("Heartbeat", J_Null);
   CE_Item (SI_Text (envelope (OM_Call "p" "Reset" (J_Int 7))));
   CE_Item (SI_Text (envelope (OM_CallResult "a" (J_Bool true))));
   CE_Item (SI_Text (J_Array [J_Int 2; J_String "q"]));
   CE_Item (SI_Text (envelope (OM_Call "r" "Unknown" J_Null)));
   CE_HandlerDone 1].

Definition echo_state := echo_run Connection_start echo_events.

Lemma echo_waiters :
  cn_waiters echo_state =
  [mkWaiter ("BootNotification", J_Object []) "a" (Some (Ok (J_Bool true)));
   mkWaiter ("Heartbeat", J_Null) "b" None].
Proof. reflexivity. Qed.

Lemma calls_answered_once_witness :
  cn_pending echo_state !! "b" = Some 1%nat ∧
  ∀ w x, cn_waiters (echo_run echo_state [CE_Shutdown]) !! w = Some x → is_Some (w_reply x).
Proof.
  destruct (calls_answered_once (WE := unit) json_id id id echo_handle
    echo_events [CE_Shutdown]) as [H1 H2]. split.
  - destruct (H1 1%nat (mkWaiter ("Heartbeat", J_Null) "b" None)) as [[Hid _] _];
      [reflexivity|]. by apply Hid.
  - apply H2, list_elem_of_here.
Defined.

Lemma replies_are_genuine_witness :
  ∃ payload, frame_in json_id echo_events (OM_CallResult "a" payload) ∧ payload = J_Bool true.
Proof.
  destruct (replies_are_genuine (WE := unit) json_id id id echo_handle echo_events 0%nat
    (mkWaiter ("BootNotification", J_Object []) "a" (Some (Ok (J_Bool true)))) (J_Bool true))
    as (p & Hp & Hd); [reflexivity|reflexivity|].
  exists p. split; [exact Hp|]. by injection Hd.
Defined.

Lemma peer_answered_once_witness :
  reply_ids echo_state = ["q"; "r"] ∧ unsent_ids echo_state = ["p"] ∧
  reply_ids echo_state ++ unsent_ids echo_state ≡ₚ owed_ids (WE := unit) json_id echo_events.
Proof.
  split; [reflexivity|]. split; [reflexivity|].
  apply (peer_answered_once (WE := unit) json_id id id echo_handle echo_events); reflexivity.
Defined.

Lemma shutdown_is_final_witness :
  cn_out (echo_run (conn_shutdown echo_state) [CE_HandlerDone 0; CE_Item SI_End]) =
    cn_out echo_state ∧
  h_state <$> cn_handlers (conn_shutdown echo_state) !! 0%nat = Some HS_Aborted.
Proof.
  destruct (shutdown_is_final (WE := unit) json_id id id echo_handle echo_events
    [CE_HandlerDone 0; CE_Item SI_End]) as (_ & _ & _ & Ho & Ho').
  split; [|reflexivity]. etransitivity; [exact Ho|exact Ho'].
Defined.
