(* ===== verification/SimScheduler.v ===== *)
(** * Script events and the scheduler

    Models [ferrowl/src/sim/events.rs] and [script_id.rs]: the stream that fans
    events out to bounded script queues, the flag that wakes the simulation
    thread, and the identity of the running script. The queues and flags are
    shared between threads: they live in a heap ([Hub]) and are named by number,
    as the [Arc]s that point to them.

    Models [ferrowl/src/sim/scheduler.rs] and the calls it makes on a
    [ferrowl-lua/src/context.rs] context. The simulation thread is a machine
    with a program counter; between two of its steps other threads publish
    events and request the stop. A publisher takes several steps too: it holds
    the stream's lock from the sequence number to the last queue, queues the
    event under a queue's lock and notifies the thread after it released that
    lock, so the thread runs in between. A step is given the time it reads and the
    results of the scripts it runs, which are the Lua interpreter's. Times are
    nanoseconds. *)

From stdpp Require Import base list gmap numbers strings.
From S2P Require Import Prelude Key.

Local Open Scope Z_scope.

(** ** Events *)

Definition QUEUE_CAPACITY : nat := Z.to_nat 4096.

(** ** The running script *)

Inductive ScriptOwner := SO_Module | SO_Session.

Record ScriptId := mkScriptId { si_owner : ScriptOwner; si_name : string }.

#[export] Instance ScriptOwner_eq_dec : EqDecision ScriptOwner.
Proof. solve_decision. Defined.

#[export] Instance ScriptId_eq_dec : EqDecision ScriptId.
Proof. solve_decision. Defined.

(** [ExecutionGuard::enter]: the guard keeps the id the thread-local held. *)
Definition guard_enter (id : ScriptId) (executing : option ScriptId)
  : option ScriptId * option ScriptId := (executing, Some id).

(** Dropping the guard restores it. *)
Definition guard_drop (guard : option ScriptId) : option ScriptId := guard.

(** ** Queues, streams and wake flags *)

Section events.
Context {E : Type}.

(** [q_wake] is the number of the queue's wake flag. *)
Record QueueShared := mkQueue {
  q_selector : E → bool;
  q_wake : nat;
  q_events : list E
}.

Record EventStream := mkStream { es_next_seq : Z; es_queues : list nat }.

Record Hub := mkHub {
  h_stream : EventStream;
  h_queues : list QueueShared;
  h_wakes : list bool
}.

Definition EventStream_new : EventStream := mkStream 1 [].

(** [QueueShared::offer] up to the call of [notify]; whether it is called. *)
Definition queue_offer (self : QueueShared) (event : E) : QueueShared * bool :=
  if negb (q_selector self event) then (self, false)
  else
    let events :=
      if (QUEUE_CAPACITY <=? length (q_events self))%nat then tail (q_events self)
      else q_events self in
    (mkQueue (q_selector self) (q_wake self) (events ++ [event]), true).

(** [SimWake::notify]. *)
Definition wake_notify (hub : Hub) (wake : nat) : Hub :=
  mkHub (h_stream hub) (h_queues hub) (<[wake := true]> (h_wakes hub)).

(** [SimWake::wait] when it returns. *)
Definition wake_cleared (hub : Hub) (wake : nat) : Hub :=
  mkHub (h_stream hub) (h_queues hub) (<[wake := false]> (h_wakes hub)).

Definition set_queue (hub : Hub) (k : nat) (q : QueueShared) : Hub :=
  mkHub (h_stream hub) (<[k := q]> (h_queues hub)) (h_wakes hub).

(** [queue.offer(event)] through the [Arc] [k], while the queue's lock is held:
    the flag that is to be notified once it is released, if any. *)
Definition offer_push (hub : Hub) (k : nat) (event : E) : Hub * option nat :=
  match h_queues hub !! k with
  | None => (hub, None)
  | Some q =>
      let '(q', notified) := queue_offer q event in
      (set_queue hub k q', if (notified : bool) then Some (q_wake q) else None)
  end.

Definition offer_notify (hub : Hub) (wake : option nat) : Hub :=
  match wake with Some w => wake_notify hub w | None => hub end.

(** The whole of it, nothing in between. *)
Definition offer (hub : Hub) (k : nat) (event : E) : Hub :=
  let '(hub, wake) := offer_push hub k event in offer_notify hub wake.

(** The sequence number is a [u64]. *)
Definition take_seq (hub : Hub) : Hub :=
  let s := h_stream hub in
  mkHub (mkStream (as_uint 64 (es_next_seq s + 1)) (es_queues s)) (h_queues hub) (h_wakes hub).

Definition offer_all (hub : Hub) (queues : list nat) (event : E) : Hub :=
  foldl (λ hub k, offer hub k event) hub queues.

(** [EventStream::publish_with]; [build] may panic. *)
Definition publish_with (hub : Hub) (build : Z → Outcome E) : Outcome Hub :=
  let seq := es_next_seq (h_stream hub) in
  let hub := take_seq hub in
  match es_queues (h_stream hub) with
  | [] => Ret hub
  | queues => event ← build seq; Ret (offer_all hub queues event)
  end.

(** [ScriptQueue::new]. *)
Definition queue_new (hub : Hub) (selector : E → bool) (wake : nat) : nat * Hub :=
  (length (h_queues hub),
   mkHub (h_stream hub) (h_queues hub ++ [mkQueue selector wake []]) (h_wakes hub)).

Definition set_attached (hub : Hub) (queues : list nat) : Hub :=
  mkHub (mkStream (es_next_seq (h_stream hub)) queues) (h_queues hub) (h_wakes hub).

Definition attach (hub : Hub) (k : nat) : Hub :=
  set_attached hub (es_queues (h_stream hub) ++ [k]).

(** [retain] of the queues that are not the same allocation. *)
Definition detach (hub : Hub) (k : nat) : Hub :=
  set_attached hub (filter (λ q, q ≠ k) (es_queues (h_stream hub))).

(** [ScriptQueue::pop]. *)
Definition pop (hub : Hub) (k : nat) : option E * Hub :=
  match h_queues hub !! k with
  | None => (None, hub)
  | Some q =>
      (head (q_events q),
       set_queue hub k (mkQueue (q_selector q) (q_wake q) (tail (q_events q))))
  end.

(** [QueueFeed::attach], and the feed's [Drop]. *)
Definition feed_attach (hub : Hub) (selector : E → bool) (wake : nat) : nat * Hub :=
  let '(k, hub) := queue_new hub selector wake in (k, attach hub k).

Definition feed_drop (hub : Hub) (k : nat) : Hub := detach hub k.

(** ** Reading the heap *)

(** The events waiting in queue [k]. *)
Definition pending (hub : Hub) (k : nat) : list E :=
  match h_queues hub !! k with Some q => q_events q | None => [] end.

Definition selects (hub : Hub) (k : nat) (event : E) : bool :=
  match h_queues hub !! k with Some q => q_selector q event | None => false end.

Definition woken (hub : Hub) (wake : nat) : bool := default false (h_wakes hub !! wake).
End events.

Arguments QueueShared : clear implicits.
Arguments Hub : clear implicits.

(** ** The scheduler *)

Definition STOP_POLL : Z := 50 * 1000000.

Definition Duration_MAX : Z := (2 ^ 64 - 1) * 1000000000 + 999999999.

(** ** The Lua context *)

Section context.
Context {LuaError : Type}.

(** The keys under which scripts are loaded. *)
Record LuaContext := mkContext { ctx_scripts : gset string }.

(** What running a loaded script gives. *)
Abbreviation Exec := (string → Result unit LuaError).

(** [Context::call_with]; the arguments matter only to the script. *)
Definition call_with (self : LuaContext) (exec : Exec) (key : string) : Result unit LuaError :=
  if decide (key ∈ ctx_scripts self) then exec key else Ok tt.

Definition exec_error (self : LuaContext) (exec : Exec) (key : string) : list LuaError :=
  match call_with self exec key with Ok _ => [] | Err e => [e] end.

(** [Context::call_each]. *)
Definition call_each (self : LuaContext) (exec : Exec) (keys : list string)
  : Result unit (list LuaError) :=
  match keys ≫= exec_error self exec with [] => Ok tt | errors => Err errors end.
End context.

(** ** Schedules *)

(** [SS_Events]: the feed's queue. *)
Inductive ScriptSchedule := SS_EveryCycle | SS_Events (feed : nat).

Record PlannedScript := mkPlanned { ps_id : ScriptId; ps_schedule : ScriptSchedule }.

Record EventScript := mkEventScript { ev_id : ScriptId; ev_feed : nat; ev_key : string }.

Record SimScheduler := mkScheduler {
  sc_every_cycle : gset string;
  sc_events : list EventScript;
  sc_cycle : Z;
  sc_wake : nat
}.

Definition add_planned (acc : gset string * list EventScript) (script : PlannedScript)
  : gset string * list EventScript :=
  let key := si_name (ps_id script) in
  match ps_schedule script with
  | SS_EveryCycle => ({[key]} ∪ acc.1, acc.2)
  | SS_Events feed => (acc.1, acc.2 ++ [mkEventScript (ps_id script) feed key])
  end.

Definition SimScheduler_new (scripts : list PlannedScript) (cycle : Z) (wake : nat)
  : SimScheduler :=
  let '(every_cycle, events) := foldl add_planned (∅, []) scripts in
  mkScheduler every_cycle events cycle wake.

(** ** The loop *)

Section scheduler.
Context {E LuaError : Type}.
(** The last representable instant. *)
Context (instant_max : Z).
Context (context : LuaContext) (sched : SimScheduler).

(** Where the loop of [run] is: at its test, running the every-cycle scripts, at
    the script [i] of the [for] loop, running it, or waiting. *)
Inductive Pc :=
| PC_Head
| PC_Cycle
| PC_Script (i : nat) (ran : bool)
| PC_Running (i : nat) (event : E)
| PC_Wait (timeout : Z)
| PC_Done.

(** A publisher inside [publish_with], holding the stream's lock: its event, the
    queues it has not offered it to, and the flag of the queue it last added it
    to, while it has not been notified. *)
Record Publishing := mkPublishing {
  pb_event : E; pb_queues : list nat; pb_notify : option nat
}.

(** [st_calls]: the events scripts were called with, by script; [st_guard]: what
    the running script's guard restores; [st_publishing]: who holds the stream's
    lock. *)
Record SimState := mkSim {
  st_hub : Hub E;
  st_stop : bool;
  st_executing : option ScriptId;
  st_guard : option ScriptId;
  st_next_cycle : option Z;
  st_pc : Pc;
  st_calls : list (nat * E);
  st_log : list (Level * LuaError);
  st_publishing : option Publishing
}.

(** [run] after [let mut next_cycle = Some(Instant::now())]. *)
Definition run_start (hub : Hub E) (now : Z) : SimState :=
  mkSim hub false None None (Some now) PC_Head [] [] None.

Definition goto (s : SimState) (pc : Pc) : SimState :=
  mkSim (st_hub s) (st_stop s) (st_executing s) (st_guard s) (st_next_cycle s) pc (st_calls s)
    (st_log s) (st_publishing s).

Definition with_hub (s : SimState) (hub : Hub E) : SimState :=
  mkSim hub (st_stop s) (st_executing s) (st_guard s) (st_next_cycle s) (st_pc s) (st_calls s)
    (st_log s) (st_publishing s).

Definition enter_script (s : SimState) (id : ScriptId) : SimState :=
  let '(guard, executing) := guard_enter id (st_executing s) in
  mkSim (st_hub s) (st_stop s) executing guard (st_next_cycle s) (st_pc s) (st_calls s) (st_log s)
    (st_publishing s).

Definition leave_script (s : SimState) : SimState :=
  mkSim (st_hub s) (st_stop s) (guard_drop (st_guard s)) None (st_next_cycle s) (st_pc s)
    (st_calls s) (st_log s) (st_publishing s).

Definition log_errors (s : SimState) (errors : list LuaError) : SimState :=
  mkSim (st_hub s) (st_stop s) (st_executing s) (st_guard s) (st_next_cycle s) (st_pc s)
    (st_calls s) (st_log s ++ ((λ e, (L_Error, e)) <$> errors))
    (st_publishing s).

Definition set_next_cycle (s : SimState) (t : option Z) : SimState :=
  mkSim (st_hub s) (st_stop s) (st_executing s) (st_guard s) t (st_pc s) (st_calls s) (st_log s)
    (st_publishing s).

Definition record_call (s : SimState) (i : nat) (event : E) : SimState :=
  mkSim (st_hub s) (st_stop s) (st_executing s) (st_guard s) (st_next_cycle s) (st_pc s)
    (st_calls s ++ [(i, event)]) (st_log s) (st_publishing s).

Definition has_cycle : bool := negb (bool_decide (sc_every_cycle sched = ∅)).

(** [Instant::checked_add]. *)
Definition instant_checked_add (now d : Z) : option Z :=
  if now + d <=? instant_max then Some (now + d) else None.

(** The test at the loop's head; the time is read if there are cycle scripts. *)
Definition head_step (s : SimState) (now : Z) : SimState :=
  if st_stop s then goto s PC_Done
  else if has_cycle && match st_next_cycle s with Some t => t <=? now | None => false end
  then goto s PC_Cycle
  else goto s (PC_Script 0 false).

(** The every-cycle scripts have run. The order of a hash set is not fixed. *)
Definition cycle_step (s : SimState) (now : Z) (exec : string → Result unit LuaError) : SimState :=
  let s :=
    match call_each context exec (elements (sc_every_cycle sched)) with
    | Ok _ => s
    | Err errors => log_errors s errors
    end in
  goto (set_next_cycle s (instant_checked_add now (sc_cycle sched))) (PC_Script 0 false).

(** After the [for] loop. *)
Definition loop_end (s : SimState) (ran : bool) (now : Z) : SimState :=
  if ran then goto s PC_Head
  else
    let until_cycle :=
      match st_next_cycle s with
      | Some t => if has_cycle then Z.max 0 (t - now) else Duration_MAX
      | None => Duration_MAX
      end in
    goto s (PC_Wait (Z.min STOP_POLL until_cycle)).

(** [run_next] up to the script's call. *)
Definition script_step (s : SimState) (i : nat) (ran : bool) (now : Z) : SimState :=
  match sc_events sched !! i with
  | None => loop_end s ran now
  | Some script =>
      if st_stop s then loop_end s ran now
      else
        let s := enter_script s (ev_id script) in
        let '(event, hub) := pop (st_hub s) (ev_feed script) in
        let s := with_hub s hub in
        match event with
        | None => goto (leave_script s) (PC_Script (S i) ran)
        | Some event => goto (record_call s i event) (PC_Running i event)
        end
  end.

(** The script has run. *)
Definition running_step (s : SimState) (i : nat) (exec : string → Result unit LuaError)
  : SimState :=
  let s :=
    match sc_events sched !! i with
    | None => s
    | Some script =>
        match call_with context exec (ev_key script) with
        | Ok _ => s
        | Err e => log_errors s [e]
        end
    end in
  goto (leave_script s) (PC_Script (S i) true).

(** The wait has ended: the flag was set, the time is over, or it woke by itself. *)
Definition wait_step (s : SimState) : SimState :=
  goto (with_hub s (wake_cleared (st_hub s) (sc_wake sched))) PC_Head.

Definition sched_step (s : SimState) (now : Z) (exec : string → Result unit LuaError) : SimState :=
  match st_pc s with
  | PC_Head => head_step s now
  | PC_Cycle => cycle_step s now exec
  | PC_Script i ran => script_step s i ran now
  | PC_Running i _ => running_step s i exec
  | PC_Wait _ => wait_step s
  | PC_Done => s
  end.

(** ** Runs *)

(** A publisher builds its event from the sequence number, and takes its further
    steps; the running script is one of them. *)
Inductive SimEvent :=
| SE_Publish (build : Z → E)
| SE_Publisher
| SE_Stop
| SE_Sched (now : Z) (exec : string → Result unit LuaError).

(** [publish_with] of a builder that does not panic, without interruption. *)
Definition publish (hub : Hub E) (build : Z → E) : Hub E :=
  let seq := es_next_seq (h_stream hub) in
  let hub := take_seq hub in
  match es_queues (h_stream hub) with
  | [] => hub
  | queues => offer_all hub queues (build seq)
  end.

Definition with_publishing (s : SimState) (p : option Publishing) : SimState :=
  mkSim (st_hub s) (st_stop s) (st_executing s) (st_guard s) (st_next_cycle s) (st_pc s)
    (st_calls s) (st_log s) p.

(** [publish_with] up to its loop. While another publisher holds the stream's
    lock, it waits. *)
Definition begin_publish (s : SimState) (build : Z → E) : SimState :=
  match st_publishing s with
  | Some _ => s
  | None =>
      let hub := st_hub s in
      let s := with_hub s (take_seq hub) in
      match es_queues (h_stream hub) with
      | [] => s
      | queues =>
          with_publishing s (Some (mkPublishing (build (es_next_seq (h_stream hub))) queues None))
      end
  end.

(** The next step of the publisher: the flag of the queue the event was added
    to, then the next queue, and at the end of the loop the lock is released. *)
Definition publisher_step (s : SimState) : SimState :=
  match st_publishing s with
  | None => s
  | Some p =>
      match pb_notify p, pb_queues p with
      | Some w, queues =>
          with_publishing (with_hub s (wake_notify (st_hub s) w))
            (Some (mkPublishing (pb_event p) queues None))
      | None, k :: queues =>
          let '(hub, wake) := offer_push (st_hub s) k (pb_event p) in
          with_publishing (with_hub s hub) (Some (mkPublishing (pb_event p) queues wake))
      | None, [] => with_publishing s None
      end
  end.

Definition request_stop (s : SimState) : SimState :=
  mkSim (st_hub s) true (st_executing s) (st_guard s) (st_next_cycle s) (st_pc s) (st_calls s)
    (st_log s) (st_publishing s).

Definition sim_step (s : SimState) (ev : SimEvent) : SimState :=
  match ev with
  | SE_Publish build => begin_publish s build
  | SE_Publisher => publisher_step s
  | SE_Stop => request_stop s
  | SE_Sched now exec => sched_step s now exec
  end.

Definition sim_run (s : SimState) (evs : list SimEvent) : SimState := foldl sim_step s evs.
End scheduler.

Arguments SimState : clear implicits.
Arguments SimEvent : clear implicits.
