(* ===== verification/SimProps.v ===== *)
(** * Properties of the script scheduler

    What reaches a script, in which order and how soon; when the thread sleeps;
    how it stops. *)

From stdpp Require Import base list gmap numbers strings.
From S2P Require Import Prelude Key SimScheduler.

Local Open Scope Z_scope.

(** ** The hub *)

Section hub.
Context {E : Type}.
Implicit Types (hub : Hub E) (ev : E).

(** What a full queue keeps of its events when one is added. *)
Definition push_event (l : list E) (ev : E) : list E :=
  (if (QUEUE_CAPACITY <=? length l)%nat then tail l else l) ++ [ev].

(** The hub changed at most in the events of queues, the sequence number and
    the wake flags. *)
Definition same_shape hub hub' : Prop :=
  es_queues (h_stream hub') = es_queues (h_stream hub) ∧
  length (h_wakes hub') = length (h_wakes hub) ∧
  ∀ k, (λ q, (q_selector q, q_wake q)) <$> (h_queues hub' !! k) =
       (λ q, (q_selector q, q_wake q)) <$> (h_queues hub !! k).

#[export] Instance same_shape_preorder : PreOrder same_shape.
Proof.
  split; [by intros hub|]. intros h1 h2 h3 (A1 & B1 & C1) (A2 & B2 & C2).
  split_and!; [congruence|congruence|]. intros k. by rewrite C2, C1.
Qed.

Lemma shape_queue hub hub' k q :
  same_shape hub hub' → h_queues hub !! k = Some q →
  ∃ q', h_queues hub' !! k = Some q' ∧ q_selector q' = q_selector q ∧ q_wake q' = q_wake q.
Proof.
  intros (_ & _ & Hs) Hq. specialize (Hs k). rewrite Hq in Hs. simpl in Hs.
  apply fmap_Some in Hs as (q' & Hq' & [= H1 H2]). by exists q'.
Qed.

Lemma shape_selects hub hub' k ev :
  same_shape hub hub' → selects hub' k ev = selects hub k ev.
Proof.
  intros (_ & _ & Hs). specialize (Hs k). unfold selects.
  destruct (h_queues hub !! k), (h_queues hub' !! k); simpl in Hs; congruence.
Qed.

Lemma set_queue_shape hub k q l :
  h_queues hub !! k = Some q →
  same_shape hub (set_queue hub k (mkQueue (q_selector q) (q_wake q) l)).
Proof.
  intros Hq. split_and!; [done|done|]. intros j. simpl. destruct (decide (j = k)) as [->|Hne].
  - rewrite list_lookup_insert_eq by (by eapply lookup_lt_Some). by rewrite Hq.
  - by rewrite list_lookup_insert_ne.
Qed.

Lemma set_queue_pending hub k q q' j :
  h_queues hub !! k = Some q →
  pending (set_queue hub k q') j = if decide (j = k) then q_events q' else pending hub j.
Proof.
  intros Hq. unfold pending, set_queue. simpl. case_decide as Hj.
  - subst j. by rewrite list_lookup_insert_eq by (by eapply lookup_lt_Some).
  - by rewrite list_lookup_insert_ne.
Qed.

Lemma notify_shape hub w : same_shape hub (wake_notify hub w).
Proof. split_and!; [done| |done]. simpl. apply length_insert. Qed.

Lemma cleared_shape hub w : same_shape hub (wake_cleared hub w).
Proof. split_and!; [done| |done]. simpl. apply length_insert. Qed.

Lemma offer_push_shape hub k ev : same_shape hub (offer_push hub k ev).1.
Proof.
  unfold offer_push. destruct (h_queues hub !! k) as [q|] eqn:Hq; [|reflexivity].
  unfold queue_offer. destruct (q_selector q ev); simpl.
  - by apply set_queue_shape.
  - destruct q as [sel w l]. by apply (set_queue_shape hub k (mkQueue sel w l)).
Qed.

Lemma offer_notify_shape hub w : same_shape hub (offer_notify hub w).
Proof. destruct w; [apply notify_shape|reflexivity]. Qed.

Lemma offer_shape hub k ev : same_shape hub (offer hub k ev).
Proof.
  unfold offer. pose proof (offer_push_shape hub k ev) as Hp. destruct (offer_push hub k ev) as [hub' w].
  etransitivity; [exact Hp|apply offer_notify_shape].
Qed.

(** What is to be notified: the flag of the queue, if it took the event. *)
Lemma offer_push_notify hub k ev q :
  h_queues hub !! k = Some q →
  (offer_push hub k ev).2 = if selects hub k ev then Some (q_wake q) else None.
Proof.
  unfold offer_push, selects. intros ->. unfold queue_offer. by destruct (q_selector q ev).
Qed.

Lemma offer_push_woken hub k ev v : woken (offer_push hub k ev).1 v = woken hub v.
Proof.
  unfold offer_push. destruct (h_queues hub !! k); [|done]. unfold queue_offer.
  by destruct (q_selector _ ev).
Qed.

Lemma offer_push_pending hub k ev j :
  pending (offer_push hub k ev).1 j =
  if decide (j = k ∧ selects hub k ev = true) then push_event (pending hub j) ev
  else pending hub j.
Proof.
  unfold offer_push, selects. destruct (h_queues hub !! k) as [q|] eqn:Hq.
  2:{ case_decide as Hd; [|done]. by destruct Hd. }
  unfold queue_offer. destruct (q_selector q ev) eqn:Hs; cbn [negb fst].
  - rewrite (set_queue_pending _ _ q) by done. case_decide as Hj.
    + subst j. rewrite decide_True by done. unfold pending. by rewrite Hq.
    + by rewrite decide_False by naive_solver.
  - rewrite (set_queue_pending _ _ q) by done. rewrite (decide_False (P := j = k ∧ _)) by naive_solver.
    case_decide as Hj; [|done]. subst j. unfold pending. by rewrite Hq.
Qed.

Lemma offer_pending hub k ev j :
  pending (offer hub k ev) j =
  if decide (j = k ∧ selects hub k ev = true) then push_event (pending hub j) ev
  else pending hub j.
Proof.
  rewrite <-offer_push_pending. unfold offer. by destruct (offer_push hub k ev) as [hub' []].
Qed.

Lemma offer_push_stream hub k ev : h_stream (offer_push hub k ev).1 = h_stream hub.
Proof.
  unfold offer_push. destruct (h_queues hub !! k); [|done]. unfold queue_offer.
  by destruct (q_selector _ ev).
Qed.

Lemma offer_stream hub k ev : h_stream (offer hub k ev) = h_stream hub.
Proof.
  rewrite <-(offer_push_stream hub k ev). unfold offer. by destruct (offer_push hub k ev) as [hub' []].
Qed.

(** A flag once set stays so, and an event accepted sets the queue's. *)
Lemma notify_woken hub w v :
  (w < length (h_wakes hub))%nat ∧ v = w ∨ woken hub v = true → woken (wake_notify hub w) v = true.
Proof.
  unfold woken. simpl. intros [[Hw ->]|Hv].
  - by rewrite list_lookup_insert_eq.
  - destruct (decide (v = w)) as [->|Hne]; [|by rewrite list_lookup_insert_ne].
    destruct (h_wakes hub !! w) eqn:Hl; [|done].
    by rewrite list_lookup_insert_eq by (by eapply lookup_lt_Some).
Qed.

Lemma offer_woken_mono hub k ev v : woken hub v = true → woken (offer hub k ev) v = true.
Proof.
  rewrite <-(offer_push_woken hub k ev). unfold offer. destruct (offer_push hub k ev) as [hub' [w|]]; [|done].
  intros Hv. apply notify_woken. by right.
Qed.

Lemma offer_wakes hub k ev q :
  h_queues hub !! k = Some q → (q_wake q < length (h_wakes hub))%nat →
  selects hub k ev = true → woken (offer hub k ev) (q_wake q) = true.
Proof.
  intros Hq Hw Hs. pose proof (offer_push_notify hub k ev q Hq) as Hn. rewrite Hs in Hn.
  destruct (offer_push_shape hub k ev) as (_ & Hl & _). unfold offer.
  destruct (offer_push hub k ev) as [hub' w]. simpl in Hn, Hl. subst w. apply notify_woken. left.
  by rewrite Hl.
Qed.

(** *** Publishing *)

Lemma offer_all_shape hub ks ev : same_shape hub (offer_all hub ks ev).
Proof.
  revert hub. induction ks as [|k ks IH]; intros hub; [reflexivity|].
  etransitivity; [apply (offer_shape hub k ev)|apply IH].
Qed.

Lemma offer_all_pending hub ks ev j :
  NoDup ks →
  pending (offer_all hub ks ev) j =
  if decide (j ∈ ks ∧ selects hub j ev = true) then push_event (pending hub j) ev
  else pending hub j.
Proof.
  revert hub. induction ks as [|k ks IH]; intros hub Hnd.
  - rewrite decide_False; [done|]. intros [Hin _]. by apply elem_of_nil in Hin.
  - apply NoDup_cons in Hnd as [Hk Hnd].
    change (offer_all hub (k :: ks) ev) with (offer_all (offer hub k ev) ks ev).
    rewrite IH, offer_pending by done.
    rewrite (shape_selects hub _ j) by apply offer_shape.
    destruct (decide (j = k)) as [->|Hne].
    + rewrite (decide_False (P := k ∈ ks ∧ _)) by naive_solver.
      destruct (selects hub k ev) eqn:Hs.
      * rewrite !decide_True; [done|split; [left|done]|done].
      * rewrite !decide_False; [done|naive_solver|naive_solver].
    + rewrite (decide_False (P := j = k ∧ _)) by naive_solver.
      apply decide_ext. rewrite elem_of_cons. naive_solver.
Qed.

Lemma offer_all_stream hub ks ev : h_stream (offer_all hub ks ev) = h_stream hub.
Proof.
  revert hub. induction ks as [|k ks IH]; intros hub; [done|].
  change (offer_all hub (k :: ks) ev) with (offer_all (offer hub k ev) ks ev).
  by rewrite IH, offer_stream.
Qed.

Lemma offer_all_woken_mono hub ks ev v :
  woken hub v = true → woken (offer_all hub ks ev) v = true.
Proof.
  revert hub. induction ks as [|k ks IH]; intros hub Hv; [done|]. by apply IH, offer_woken_mono.
Qed.

Lemma offer_all_wakes hub ks ev k q :
  k ∈ ks → h_queues hub !! k = Some q → (q_wake q < length (h_wakes hub))%nat →
  selects hub k ev = true → woken (offer_all hub ks ev) (q_wake q) = true.
Proof.
  revert hub q. induction ks as [|k' ks IH]; intros hub q Hin Hq Hw Hs; [by apply elem_of_nil in Hin|].
  change (offer_all hub (k' :: ks) ev) with (offer_all (offer hub k' ev) ks ev).
  apply elem_of_cons in Hin as [<-|Hin]; [by apply offer_all_woken_mono, offer_wakes|].
  destruct (shape_queue hub (offer hub k' ev) k q) as (q' & Hq' & _ & <-); [apply offer_shape|done|].
  apply IH; [done|done| |].
  - destruct (offer_shape hub k' ev) as (_ & -> & _).
    destruct (shape_queue hub (offer hub k' ev) k q) as (q2 & Hq2 & _ & Hw2);
      [apply offer_shape|done|]. rewrite Hq' in Hq2. injection Hq2 as <-. by rewrite Hw2.
  - by rewrite (shape_selects hub) by apply offer_shape.
Qed.

Lemma publish_all hub build :
  publish hub build =
  offer_all (take_seq hub) (es_queues (h_stream hub)) (build (es_next_seq (h_stream hub))).
Proof. unfold publish. simpl. by destruct (es_queues (h_stream hub)). Qed.

(** [publish] is [publish_with] of a builder that does not panic. *)
Lemma publish_with_Ret hub build :
  publish_with hub (λ seq, Ret (build seq)) = Ret (publish hub build).
Proof. unfold publish_with, publish. simpl. by destruct (es_queues (h_stream hub)). Qed.

Lemma publish_shape hub build : same_shape hub (publish hub build).
Proof. rewrite publish_all. apply (offer_all_shape (take_seq hub)). Qed.

Lemma publish_lookup hub build k :
  NoDup (es_queues (h_stream hub)) →
  let ev := build (es_next_seq (h_stream hub)) in
  pending (publish hub build) k =
  if decide (k ∈ es_queues (h_stream hub) ∧ selects hub k ev = true)
  then push_event (pending hub k) ev else pending hub k.
Proof.
  intros Hnd. simpl. rewrite publish_all. by apply (offer_all_pending (take_seq hub)).
Qed.

Lemma publish_pending hub build k :
  NoDup (es_queues (h_stream hub)) → k ∈ es_queues (h_stream hub) →
  let ev := build (es_next_seq (h_stream hub)) in
  pending (publish hub build) k =
  if selects hub k ev then push_event (pending hub k) ev else pending hub k.
Proof.
  intros Hnd Hk ev. rewrite publish_lookup by done. fold ev.
  destruct (selects hub k ev) eqn:Hs; [by rewrite decide_True|]. rewrite decide_False; naive_solver.
Qed.

Lemma publish_woken_mono hub build v :
  woken hub v = true → woken (publish hub build) v = true.
Proof. rewrite publish_all. apply (offer_all_woken_mono (take_seq hub)). Qed.

(** *** Taking events out *)

Lemma pop_shape hub k : same_shape hub (pop hub k).2.
Proof.
  unfold pop. destruct (h_queues hub !! k) as [q|] eqn:Hq; [|reflexivity].
  by apply set_queue_shape.
Qed.

Lemma pop_pending hub k j :
  pending (pop hub k).2 j = if decide (j = k) then tail (pending hub j) else pending hub j.
Proof.
  unfold pop. destruct (h_queues hub !! k) as [q|] eqn:Hq; simpl.
  - rewrite (set_queue_pending _ _ q) by done. case_decide as Hj; [|done]. subst j.
    unfold pending. by rewrite Hq.
  - case_decide as Hj; [|done]. subst j. unfold pending. by rewrite Hq.
Qed.

Lemma pop_head hub k : (pop hub k).1 = head (pending hub k).
Proof. unfold pop, pending. by destruct (h_queues hub !! k). Qed.

Lemma pop_wakes hub k v : woken (pop hub k).2 v = woken hub v.
Proof. unfold pop. by destruct (h_queues hub !! k). Qed.

Lemma cleared_pending hub w k : pending (wake_cleared hub w) k = pending hub k.
Proof. done. Qed.
End hub.

(** ** The thread *)

Section sched.
Context {E LuaError : Type}.
Context (instant_max : Z) (context : LuaContext) (sched : SimScheduler).

Abbreviation State := (SimState E LuaError).
Abbreviation Event := (SimEvent E LuaError).
Abbreviation step := (sim_step instant_max context sched).
Abbreviation run := (sim_run instant_max context sched).
Abbreviation thread := (sched_step instant_max context sched).
Implicit Types (s : State) (ev : Event) (evs : list Event).

(** The scheduler's feeds are its own queues, attached to the stream and waking
    its thread. *)
Definition hub_ok (hub : Hub E) : Prop :=
  NoDup (ev_feed <$> sc_events sched) ∧ NoDup (es_queues (h_stream hub)) ∧
  (sc_wake sched < length (h_wakes hub))%nat ∧
  ∀ i script, sc_events sched !! i = Some script →
    ev_feed script ∈ es_queues (h_stream hub) ∧
    ∃ q, h_queues hub !! ev_feed script = Some q ∧ q_wake q = sc_wake sched.

Lemma hub_ok_shape hub hub' : same_shape hub hub' → hub_ok hub → hub_ok hub'.
Proof.
  intros Hs (H1 & H2 & H3 & H4). pose proof Hs as (Hq & Hw & _). unfold hub_ok.
  rewrite Hq, Hw. split_and!; [done|done|done|]. intros i script Hi.
  destruct (H4 i script Hi) as [Hin (q & Hk & Hqw)]. split; [done|].
  destruct (shape_queue _ _ _ _ Hs Hk) as (q' & Hk' & _ & Hw'). exists q'.
  by rewrite Hw'.
Qed.

(** Every step leaves the hub's shape. *)
Lemma thread_shape s now exec : same_shape (st_hub s) (st_hub (thread s now exec)).
Proof.
  unfold sched_step. destruct (st_pc s) as [| |i ran|i e|t|].
  - unfold head_step. destruct (st_stop s); [reflexivity|]. by destruct (_ && _).
  - unfold cycle_step. by destruct (call_each _ _ _).
  - unfold script_step, loop_end. destruct (sc_events sched !! i) as [script|].
    2:{ by destruct ran. }
    destruct (st_stop s); [by destruct ran|]. simpl.
    pose proof (pop_shape (st_hub s) (ev_feed script)) as Hp.
    destruct (pop (st_hub s) (ev_feed script)) as [[e|] hub]; exact Hp.
  - unfold running_step. destruct (sc_events sched !! i); [|reflexivity].
    by destruct (call_with _ _ _).
  - apply cleared_shape.
  - reflexivity.
Qed.

Lemma begin_publish_hub s build :
  st_hub (begin_publish s build) =
    match st_publishing s with Some _ => st_hub s | None => take_seq (st_hub s) end.
Proof. unfold begin_publish. destruct (st_publishing s); [done|]. by destruct (es_queues _). Qed.

Lemma publisher_shape s : same_shape (st_hub s) (st_hub (publisher_step s)).
Proof.
  unfold publisher_step. destruct (st_publishing s) as [[e [|k ks] [w|]]|]; try reflexivity;
    try apply notify_shape. simpl.
  pose proof (offer_push_shape (st_hub s) k e) as Hp. by destruct (offer_push (st_hub s) k e).
Qed.

Lemma step_shape s ev : same_shape (st_hub s) (st_hub (step s ev)).
Proof.
  destruct ev as [build| | |now exec]; simpl; [|apply publisher_shape|reflexivity|apply thread_shape].
  rewrite begin_publish_hub. by destruct (st_publishing s).
Qed.

(** The thread leaves the publisher where it is, the publisher everything but
    the hub. *)
Lemma thread_publishing s now exec : st_publishing (thread s now exec) = st_publishing s.
Proof.
  unfold sched_step. destruct (st_pc s) as [| |i ran|i e|t|]; try done.
  - unfold head_step. destruct (st_stop s); [done|]. by destruct (_ && _).
  - unfold cycle_step. by destruct (call_each _ _ _).
  - unfold script_step, loop_end. destruct (sc_events sched !! i) as [script|]; [|by destruct ran].
    destruct (st_stop s); [by destruct ran|]. simpl. by destruct (pop _ _) as [[]].
  - unfold running_step. destruct (sc_events sched !! i); [|done]. by destruct (call_with _ _ _).
Qed.

(** Everything but the hub and the publisher. *)
Definition same_thread s s' : Prop :=
  st_stop s' = st_stop s ∧ st_pc s' = st_pc s ∧ st_calls s' = st_calls s ∧
  st_executing s' = st_executing s ∧ st_guard s' = st_guard s.

Lemma begin_publish_thread s build : same_thread s (begin_publish s build).
Proof. unfold begin_publish. destruct (st_publishing s); [done|]. by destruct (es_queues _). Qed.

Lemma publisher_thread s : same_thread s (publisher_step s).
Proof.
  unfold publisher_step. destruct (st_publishing s) as [[e [|k ks] [w|]]|]; try done. simpl.
  by destruct (offer_push (st_hub s) k e).
Qed.

(** Left alone, a publisher does what [publish] does: it offers its event to
    every queue and releases the stream's lock. *)
Lemma publisher_rest s e ks :
  st_publishing s = Some (mkPublishing e ks None) →
  ∃ n, let s' := Nat.iter n publisher_step s in
    st_hub s' = offer_all (st_hub s) ks e ∧ st_publishing s' = None.
Proof.
  revert s. induction ks as [|k ks IH]; intros s Hp.
  { exists 1%nat. simpl. unfold publisher_step. by rewrite Hp. }
  set (s1 := publisher_step s). destruct (offer_push (st_hub s) k e) as [hub w] eqn:Ho.
  assert (st_publishing s1 = Some (mkPublishing e ks w) ∧ st_hub s1 = hub) as [H1 Hh1]
    by (unfold s1, publisher_step; rewrite Hp; simpl; by rewrite Ho).
  assert (∃ n, let s2 := Nat.iter n publisher_step s1 in
    st_publishing s2 = Some (mkPublishing e ks None) ∧ st_hub s2 = offer (st_hub s) k e)
    as (n & H2 & Hh2).
  { unfold offer. rewrite Ho. destruct w as [w|]; [exists 1%nat|by exists 0%nat]. simpl.
    unfold publisher_step. rewrite H1. simpl. by rewrite Hh1. }
  destruct (IH _ H2) as (m & Hm & Hd). exists (m + S n)%nat. cbv zeta in *.
  rewrite Nat.iter_add, Nat.iter_succ_r. fold s1. split; [|done]. by rewrite Hm, Hh2.
Qed.

Lemma publisher_finishes s build :
  st_publishing s = None →
  ∃ n, let s' := Nat.iter n publisher_step (begin_publish s build) in
    st_hub s' = publish (st_hub s) build ∧ st_publishing s' = None.
Proof.
  intros Hp. unfold begin_publish, publish. rewrite Hp. simpl.
  destruct (es_queues (h_stream (st_hub s))) as [|k ks]; [by exists 0%nat|].
  exact (publisher_rest (with_publishing (with_hub s (take_seq (st_hub s))) _) _ (k :: ks) eq_refl).
Qed.

Lemma step_hub_ok s ev : hub_ok (st_hub s) → hub_ok (st_hub (step s ev)).
Proof. apply hub_ok_shape, step_shape. Qed.

Lemma run_snoc s evs ev : run s (evs ++ [ev]) = step (run s evs) ev.
Proof. apply foldl_snoc. Qed.

Lemma run_hub_ok s evs : hub_ok (st_hub s) → hub_ok (st_hub (run s evs)).
Proof.
  revert s. induction evs as [|ev evs IH]; intros s Hs; [done|]. by apply IH, step_hub_ok.
Qed.

(** Where the thread's step may take it, and what it does to calls and queues. *)
Lemma thread_script s now exec i ran script :
  st_pc s = PC_Script i ran → sc_events sched !! i = Some script → st_stop s = false →
  let s' := thread s now exec in
  (pending (st_hub s) (ev_feed script) = [] ∧ st_pc s' = PC_Script (S i) ran ∧
    st_calls s' = st_calls s ∧ st_executing s' = st_executing s ∧
    (∀ k, pending (st_hub s') k = pending (st_hub s) k) ∧
    (∀ v, woken (st_hub s') v = woken (st_hub s) v)) ∨
  (∃ e l, pending (st_hub s) (ev_feed script) = e :: l ∧ st_pc s' = PC_Running i e ∧
    st_calls s' = st_calls s ++ [(i, e)] ∧ st_executing s' = Some (ev_id script) ∧
    st_guard s' = st_executing s ∧
    (∀ k, pending (st_hub s') k = if decide (k = ev_feed script) then l else pending (st_hub s) k) ∧
    (∀ v, woken (st_hub s') v = woken (st_hub s) v)).
Proof.
  intros Hpc Hi Hstop. unfold sched_step. rewrite Hpc. unfold script_step. rewrite Hi, Hstop. simpl.
  pose proof (pop_head (st_hub s) (ev_feed script)) as Hh.
  pose proof (pop_pending (st_hub s) (ev_feed script)) as Hp.
  pose proof (pop_wakes (st_hub s) (ev_feed script)) as Hw.
  destruct (pop (st_hub s) (ev_feed script)) as [e hub]. simpl in *. subst e.
  destruct (pending (st_hub s) (ev_feed script)) as [|e l] eqn:Hl; simpl.
  - left. split_and!; try done. intros k. rewrite Hp. case_decide; [|done]. subst k. by rewrite Hl.
  - right. exists e, l. split_and!; try done. intros k. rewrite Hp. case_decide; [|done]. subst k.
    by rewrite Hl.
Qed.

(** *** Sleeping *)

(** The publisher has queued an event and is about to set the thread's flag. *)
Definition notifying s : Prop :=
  ∃ p, st_publishing s = Some p ∧ pb_notify p = Some (sc_wake sched).

(** The queues of the first [n] scripts are empty, unless the thread is to go
    on anyway, or will be. *)
Definition drained_upto (n : nat) s : Prop :=
  st_stop s = false → woken (st_hub s) (sc_wake sched) = false → ¬ notifying s →
  ∀ j script, (j < n)%nat → sc_events sched !! j = Some script →
    pending (st_hub s) (ev_feed script) = [].

Definition sleep_ok s : Prop :=
  match st_pc s with
  | PC_Script i false => drained_upto i s
  | PC_Wait t => 0 <= t <= STOP_POLL ∧ drained_upto (length (sc_events sched)) s
  | _ => True
  end.

Lemma drained_begin n s build : drained_upto n s → drained_upto n (begin_publish s build).
Proof.
  intros Hd. unfold begin_publish. destruct (st_publishing s) as [p|] eqn:Hp; [done|].
  intros Hst Hw _ j script. simpl. assert (¬ notifying s) as Hn by (intros (p & Hp' & _); congruence).
  specialize (λ H1 H2, Hd H1 H2 Hn j script). revert Hst Hw. by destruct (es_queues _).
Qed.

Lemma drained_publisher n s :
  hub_ok (st_hub s) → drained_upto n s → drained_upto n (publisher_step s).
Proof.
  intros (_ & _ & Hlen & Hs) Hd. unfold publisher_step.
  destruct (st_publishing s) as [[e ks w]|] eqn:Hp; [|done]. simpl.
  destruct w as [w|]; [|destruct ks as [|k ks]].
  - intros Hst Hw _. simpl in *. destruct (decide (w = sc_wake sched)) as [->|Hne].
    { rewrite notify_woken in Hw; [done|by left]. }
    apply Hd; [done| |].
    + destruct (woken (st_hub s) (sc_wake sched)) eqn:Ho; [|done].
      rewrite notify_woken in Hw; [done|by right].
    + intros (p & Hp' & Hw'). rewrite Hp in Hp'. injection Hp' as <-. simpl in Hw'. congruence.
  - intros Hst Hw _. apply Hd; [done|done|]. intros (p & Hp' & Hw'). rewrite Hp in Hp'.
    by injection Hp' as <-.
  - pose proof (offer_push_pending (st_hub s) k e) as Hpe. pose proof (offer_push_woken (st_hub s) k e) as Hwo.
    pose proof (offer_push_notify (st_hub s) k e) as Hno.
    destruct (offer_push (st_hub s) k e) as [hub' w]. simpl in *.
    intros Hst Hw Hn j script Hj Hsc. simpl in *. rewrite Hpe. rewrite Hwo in Hw.
    assert (¬ notifying s) as Hn0.
    { intros (p & Hp' & Hw'). rewrite Hp in Hp'. by injection Hp' as <-. }
    destruct (decide (ev_feed script = k ∧ selects (st_hub s) k e = true)) as [[<- Hsel]|_];
      [|by apply (Hd Hst Hw Hn0 j)].
    destruct (Hs j script Hsc) as [_ (q & Hq & Hqw)]. destruct Hn. eexists. split; [done|]. simpl.
    by rewrite (Hno q Hq), Hsel, Hqw.
Qed.

Lemma drained_mono n s s' :
  st_stop s' = st_stop s → st_publishing s' = st_publishing s →
  (∀ v, woken (st_hub s') v = woken (st_hub s) v) →
  (∀ k, pending (st_hub s') k = pending (st_hub s) k) → drained_upto n s → drained_upto n s'.
Proof.
  intros Hst Hpub Hw Hp Hd. unfold drained_upto, notifying. rewrite Hst, Hpub, Hw.
  intros H1 H2 H3 j script. rewrite Hp. by apply Hd.
Qed.

Lemma drained_all n s :
  (∀ j script, sc_events sched !! j = Some script → (j < n)%nat) →
  drained_upto n s → drained_upto (length (sc_events sched)) s.
Proof. intros Hn Hd H1 H2 H3 j script _ Hsc. eapply Hd; eauto. Qed.

Lemma loop_end_sleep s ran now :
  (ran = false → drained_upto (length (sc_events sched)) s) → sleep_ok (loop_end sched s ran now).
Proof.
  intros Hd. unfold loop_end. destruct ran; [done|]. unfold sleep_ok. simpl. split; [|by apply Hd].
  assert (0 <= STOP_POLL) by done. assert (0 <= Duration_MAX) by done.
  destruct (st_next_cycle s); [destruct (has_cycle sched)|]; lia.
Qed.

Lemma thread_sleep s now exec : sleep_ok s → sleep_ok (thread s now exec).
Proof.
  intros Hs. unfold sleep_ok in Hs. destruct (st_pc s) as [| |i ran|i e|t|] eqn:Hpc.
  - unfold sched_step. rewrite Hpc. unfold head_step.
    destruct (st_stop s); [done|]. destruct (_ && _); [done|].
    intros H1 H2 H3 j script Hj. lia.
  - unfold sched_step. rewrite Hpc. unfold cycle_step.
    destruct (call_each _ _ _); intros H1 H2 H3 j script Hj; lia.
  - destruct (sc_events sched !! i) as [script|] eqn:Hi.
    + destruct (st_stop s) eqn:Hstop.
      { unfold sched_step. rewrite Hpc. unfold script_step. rewrite Hi, Hstop.
        apply loop_end_sleep. intros _ Hf. congruence. }
      pose proof (thread_publishing s now exec) as Hpub.
      pose proof (thread_script s now exec i ran script Hpc Hi Hstop) as Hc.
      destruct Hc as [(He & Hpc' & _ & _ & Hp & Hw)|(e & l & _ & Hpc' & _)].
      2:{ unfold sleep_ok. by rewrite Hpc'. }
      unfold sleep_ok. rewrite Hpc'. destruct ran; [done|].
      intros Hst Hwk Hno j sc Hj Hsc. rewrite Hp. rewrite Hw in Hwk. unfold notifying in Hno.
      rewrite Hpub in Hno. destruct (decide (j = i)) as [->|Hne].
      { rewrite Hi in Hsc. by injection Hsc as <-. }
      apply (Hs Hstop Hwk Hno j sc); [lia|done].
    + unfold sched_step. rewrite Hpc. unfold script_step. rewrite Hi.
      apply loop_end_sleep. intros ->. apply (drained_all i); [|done].
      intros j sc Hj. apply lookup_ge_None in Hi. apply lookup_lt_Some in Hj. lia.
  - unfold sched_step. rewrite Hpc. unfold running_step, sleep_ok.
    destruct (sc_events sched !! i); [|done]. by destruct (call_with _ _ _).
  - unfold sched_step. by rewrite Hpc.
  - unfold sched_step. rewrite Hpc. unfold sleep_ok. by rewrite Hpc.
Qed.

Lemma step_sleep s ev : hub_ok (st_hub s) → sleep_ok s → sleep_ok (step s ev).
Proof.
  intros Hh Hs. assert (∀ s', st_pc s' = st_pc s → (∀ n, drained_upto n s → drained_upto n s') →
    sleep_ok s') as Hmono.
  { intros s' Hpc Hd. unfold sleep_ok in *. rewrite Hpc. destruct (st_pc s) as [| |i []|i e|t|]; try done.
    - by apply Hd.
    - split; [apply Hs|apply Hd, Hs]. }
  destruct ev as [build| | |now exec]; [| | |by apply thread_sleep].
  - apply Hmono; [apply begin_publish_thread|]. intros n. by apply drained_begin.
  - apply Hmono; [apply publisher_thread|]. intros n. by apply drained_publisher.
  - apply Hmono; [done|]. by intros n Hd Hf.
Qed.

Lemma run_sleep hub now evs : hub_ok hub → sleep_ok (run (run_start hub now) evs).
Proof.
  intros Hh. induction evs as [|ev evs IH] using rev_ind; [done|]. rewrite run_snoc.
  apply step_sleep; [by apply run_hub_ok|done].
Qed.

(** C26: no wake-up is lost, wherever between a publisher's steps the thread
    goes to sleep or clears its flag: whenever the thread waits, it waits at most
    the 50 ms after which it looks at the stop flag again, and unless it has been
    told to stop or its wake flag is already set, no event is waiting for any of
    its scripts, but for one whose publisher has just queued it; the publisher's
    next step then sets the flag. *)
Theorem no_lost_wakeup hub now evs :
  hub_ok hub →
  let s := run (run_start hub now) evs in
  ∀ t, st_pc s = PC_Wait t →
    0 <= t <= STOP_POLL ∧
    (st_stop s = false → woken (st_hub s) (sc_wake sched) = false →
     (∀ i script, sc_events sched !! i = Some script →
        pending (st_hub s) (ev_feed script) = []) ∨
     woken (st_hub (step s SE_Publisher)) (sc_wake sched) = true).
Proof.
  intros Hh s t Ht. pose proof (run_sleep hub now evs Hh) as Hs. fold s in Hs.
  pose proof (run_hub_ok (run_start hub now) evs Hh) as (_ & _ & Hlen & _). fold s in Hlen.
  unfold sleep_ok in Hs. rewrite Ht in Hs. destruct Hs as [Hr Hd]. split; [done|].
  intros H1 H2. assert (notifying s ∨ ¬ notifying s) as [(p & Hp & Hw)|Hn].
  { unfold notifying. destruct (st_publishing s) as [p|]; [|by right; intros (? & ? & _)].
    destruct (decide (pb_notify p = Some (sc_wake sched))) as [?|Hne]; [left; eauto|right].
    intros (p' & [= <-] & ?). done. }
  - right. simpl. unfold publisher_step. rewrite Hp, Hw. simpl. apply notify_woken. by left.
  - left. intros i script Hi. eapply Hd; eauto using lookup_lt_Some.
Qed.

(** *** The running script *)

(** The thread-local holds the id of exactly the script that runs. *)
Definition executing_ok s : Prop :=
  match st_pc s with
  | PC_Running i _ =>
      st_guard s = None ∧ ∃ script, sc_events sched !! i = Some script ∧
        st_executing s = Some (ev_id script)
  | _ => st_executing s = None
  end.

Lemma thread_executing s now exec : executing_ok s → executing_ok (thread s now exec).
Proof.
  intros Hs. unfold executing_ok in Hs. destruct (st_pc s) as [| |i ran|i e|t|] eqn:Hpc.
  - unfold sched_step. rewrite Hpc. unfold head_step.
    destruct (st_stop s); [done|]. by destruct (_ && _).
  - unfold sched_step. rewrite Hpc. unfold cycle_step. by destruct (call_each _ _ _).
  - destruct (sc_events sched !! i) as [script|] eqn:Hi.
    2:{ unfold sched_step. rewrite Hpc. unfold script_step, loop_end. rewrite Hi. by destruct ran. }
    destruct (st_stop s) eqn:Hstop.
    { unfold sched_step. rewrite Hpc. unfold script_step, loop_end. rewrite Hi, Hstop.
      by destruct ran. }
    destruct (thread_script s now exec i ran script Hpc Hi Hstop)
      as [(_ & Hpc' & _ & He & _)|(e & l & _ & Hpc' & _ & He & Hg & _)]; unfold executing_ok;
      rewrite Hpc', He; [done|]. rewrite Hg. split; [done|]. by exists script.
  - destruct Hs as [Hg (script & Hi & He)]. unfold sched_step. rewrite Hpc.
    unfold running_step. rewrite Hi. unfold executing_ok. simpl.
    by destruct (call_with _ _ _).
  - unfold sched_step. by rewrite Hpc.
  - unfold sched_step. rewrite Hpc. unfold executing_ok. by rewrite Hpc.
Qed.

Lemma run_executing hub now evs : executing_ok (run (run_start hub now) evs).
Proof.
  induction evs as [|ev evs IH] using rev_ind; [done|]. rewrite run_snoc.
  assert (∀ s s', same_thread s s' → executing_ok s → executing_ok s') as Hsame.
  { intros s s' (_ & Hpc & _ & He & Hg). unfold executing_ok. by rewrite Hpc, He, Hg. }
  destruct ev as [build| | |now' exec]; [| |exact IH|by apply thread_executing];
    (eapply Hsame; [|exact IH]); [apply begin_publish_thread|apply publisher_thread].
Qed.

(** *** Delivery *)

(** The events a script was called with, in order. *)
Definition calls_of (i : nat) s : list E := snd <$> filter (λ c, c.1 = i) (st_calls s).

(** The event being published, while its publisher has not come to queue [k]. *)
Definition in_flight s (k : nat) : list E :=
  match st_publishing s with
  | Some p => if decide (k ∈ pb_queues p ∧ selects (st_hub s) k (pb_event p) = true)
              then [pb_event p] else []
  | None => []
  end.

(** A publisher comes to each queue once. *)
Definition publishing_ok s : Prop :=
  match st_publishing s with Some p => NoDup (pb_queues p) | None => True end.

(** The events published during a run that queue [k] selects, in order: a
    publisher that waits for the stream's lock has not published. *)
Fixpoint selected_events s (k : nat) evs : list E :=
  match evs with
  | [] => []
  | ev :: evs' =>
      match ev with
      | SE_Publish build =>
          let e := build (es_next_seq (h_stream (st_hub s))) in
          match st_publishing s with
          | None => if selects (st_hub s) k e then [e] else []
          | Some _ => []
          end
      | _ => []
      end ++ selected_events (step s ev) k evs'
  end.

Lemma push_event_suffix l (ev : E) offered :
  suffix l offered → suffix (push_event l ev) (offered ++ [ev]).
Proof.
  intros [pre ->]. unfold push_event. destruct (_ <=? _)%nat.
  - destruct l as [|x l]; simpl; [exists pre; by rewrite app_nil_r|].
    exists (pre ++ [x]). by rewrite <-!(assoc_L (++)).
  - exists pre. by rewrite (assoc_L (++)).
Qed.

Lemma push_event_length l (ev : E) :
  (length l ≤ QUEUE_CAPACITY)%nat → (length (push_event l ev) ≤ QUEUE_CAPACITY)%nat.
Proof.
  intros Hl. unfold push_event. assert (0 < QUEUE_CAPACITY)%nat by (unfold QUEUE_CAPACITY; lia).
  destruct (Nat.leb_spec QUEUE_CAPACITY (length l)); rewrite length_app; simpl; [|lia].
  destruct l; simpl in *; lia.
Qed.

Lemma push_event_sublist l (ev : E) calls offered :
  sublist (calls ++ l) offered → sublist (calls ++ push_event l ev) (offered ++ [ev]).
Proof.
  intros Hs. unfold push_event. rewrite (assoc_L (++)). apply sublist_app; [|done].
  destruct (_ <=? _)%nat; [|done]. etransitivity; [|exact Hs]. apply sublist_app; [done|].
  destruct l; simpl; [done|by apply sublist_cons].
Qed.

(** What a script was called with and what waits for it, against all that was
    published for it. *)
Definition delivers (calls waiting offered : list E) : Prop :=
  sublist (calls ++ waiting) offered ∧ suffix waiting offered ∧
  (length waiting ≤ QUEUE_CAPACITY)%nat ∧
  ((length offered ≤ QUEUE_CAPACITY)%nat → calls ++ waiting = offered).

Lemma delivers_push calls waiting offered (ev : E) :
  delivers calls waiting offered → delivers calls (push_event waiting ev) (offered ++ [ev]).
Proof.
  intros (H1 & H2 & H3 & H4). split_and!.
  - by apply push_event_sublist.
  - by apply push_event_suffix.
  - by apply push_event_length.
  - rewrite length_app. simpl. intros Hl. rewrite <-H4 by lia. unfold push_event.
    assert (length waiting ≤ length offered)%nat by (by apply suffix_length).
    destruct (Nat.leb_spec QUEUE_CAPACITY (length waiting)); [lia|].
    by rewrite (assoc_L (++)).
Qed.

Lemma delivers_call calls e waiting offered :
  delivers calls (e :: waiting) offered → delivers (calls ++ [e]) waiting offered.
Proof.
  intros (H1 & H2 & H3 & H4). unfold delivers. rewrite <-(assoc_L (++)). simpl.
  split_and!; [done| |simpl in H3; lia|done].
  etransitivity; [|exact H2]. by exists [e].
Qed.

(** Steps of the thread that take no event out of a queue. *)
Lemma thread_quiet s now exec :
  (∀ i ran script, st_pc s = PC_Script i ran → sc_events sched !! i = Some script →
     st_stop s = true) →
  st_calls (thread s now exec) = st_calls s ∧
  ∀ k, pending (st_hub (thread s now exec)) k = pending (st_hub s) k.
Proof.
  intros Hq. unfold sched_step. destruct (st_pc s) as [| |i ran|i e|t|] eqn:Hpc.
  - unfold head_step. destruct (st_stop s); [done|]. by destruct (_ && _).
  - unfold cycle_step. by destruct (call_each _ _ _).
  - unfold script_step, loop_end. destruct (sc_events sched !! i) as [script|] eqn:Hi.
    + rewrite (Hq i ran script eq_refl Hi). by destruct ran.
    + by destruct ran.
  - unfold running_step. destruct (sc_events sched !! i); [|done].
    by destruct (call_with _ _ _).
  - done.
  - done.
Qed.

(** A step of the thread calls a script with its oldest event, or takes none. *)
Lemma thread_cases s now exec :
  let s' := thread s now exec in
  (st_calls s' = st_calls s ∧ ∀ k, pending (st_hub s') k = pending (st_hub s) k) ∨
  ∃ i script e l, sc_events sched !! i = Some script ∧ st_stop s = false ∧
    pending (st_hub s) (ev_feed script) = e :: l ∧ st_calls s' = st_calls s ++ [(i, e)] ∧
    ∀ k, pending (st_hub s') k = if decide (k = ev_feed script) then l else pending (st_hub s) k.
Proof.
  intros s'. destruct (st_stop s) eqn:Hstop; [left; by apply thread_quiet|].
  destruct (st_pc s) as [| |i ran| | |] eqn:Hpc; try (left; apply thread_quiet; congruence).
  destruct (sc_events sched !! i) as [script|] eqn:Hi; [|left; apply thread_quiet; congruence].
  destruct (thread_script s now exec i ran script Hpc Hi Hstop)
    as [(_ & _ & Hc & _ & Hp & _)|(e & l & He & _ & Hc & _ & _ & Hp & _)]; [by left|right].
  by exists i, script, e, l.
Qed.

Lemma feeds_distinct hub i j si sj :
  hub_ok hub → sc_events sched !! i = Some si → sc_events sched !! j = Some sj →
  ev_feed si = ev_feed sj → i = j.
Proof.
  intros (Hnd & _) Hi Hj Hf. eapply (NoDup_lookup (ev_feed <$> sc_events sched)); [done| |].
  - by rewrite list_lookup_fmap, Hi.
  - by rewrite list_lookup_fmap, Hj, Hf.
Qed.

Lemma calls_of_snoc i s j e s' :
  st_calls s' = st_calls s ++ [(j, e)] →
  calls_of i s' = calls_of i s ++ (if decide (j = i) then [e] else []).
Proof.
  intros Hc. unfold calls_of. rewrite Hc, filter_app, fmap_app. f_equal.
  case_decide as Hj; [rewrite filter_cons_True by done|rewrite filter_cons_False by done]; done.
Qed.

Lemma thread_delivers s now exec i script offered :
  hub_ok (st_hub s) → sc_events sched !! i = Some script →
  let s' := thread s now exec in
  delivers (calls_of i s) (pending (st_hub s) (ev_feed script)) offered →
  delivers (calls_of i s') (pending (st_hub s') (ev_feed script)) offered.
Proof.
  intros Hh Hi s' Hd.
  destruct (thread_cases s now exec) as [[Hc Hp]|(j & sc & e & l & Hj & _ & He & Hc & Hp)];
    fold s' in Hc, Hp.
  - unfold calls_of. by rewrite Hc, Hp.
  - rewrite (calls_of_snoc i _ _ _ _ Hc), Hp. destruct (decide (j = i)) as [->|Hne].
    + rewrite Hi in Hj. injection Hj as <-. rewrite decide_True by done.
      rewrite He in Hd. by apply delivers_call.
    + rewrite app_nil_r, decide_False; [done|]. intros Hf. by eapply Hne, feeds_distinct.
Qed.

Lemma step_publishing_ok s ev : hub_ok (st_hub s) → publishing_ok s → publishing_ok (step s ev).
Proof.
  intros (_ & Hnd & _) Hs. unfold publishing_ok in *. destruct ev as [build| | |now exec]; simpl.
  - unfold begin_publish. destruct (st_publishing s) as [p|] eqn:Hp; [by rewrite ?Hp|]. simpl.
    destruct (es_queues (h_stream (st_hub s))) eqn:Hq; simpl; [by rewrite ?Hp|done].
  - unfold publisher_step. destruct (st_publishing s) as [[e ks w]|] eqn:Hp; [|by rewrite ?Hp].
    simpl. destruct w; [done|]. destruct ks as [|k ks]; [done|]. apply NoDup_cons in Hs as [_ Hs].
    by destruct (offer_push (st_hub s) k e).
  - done.
  - by rewrite thread_publishing.
Qed.

(** What queue [k] was offered before the publisher at work. *)
Definition delivers_flight s i k (offered : list E) : Prop :=
  ∃ queued, offered = queued ++ in_flight s k ∧ delivers (calls_of i s) (pending (st_hub s) k) queued.

Lemma begin_delivers s build i k offered :
  k ∈ es_queues (h_stream (st_hub s)) → delivers_flight s i k offered →
  delivers_flight (begin_publish s build) i k
    (offered ++ match st_publishing s with
                | None => let e := build (es_next_seq (h_stream (st_hub s))) in
                          if selects (st_hub s) k e then [e] else []
                | Some _ => []
                end).
Proof.
  intros Hk (queued & -> & Hd). unfold begin_publish.
  destruct (st_publishing s) as [p|] eqn:Hp; [exists queued; by rewrite app_nil_r|].
  cbn zeta. set (e := build _). exists queued.
  assert (in_flight s k = []) as -> by (unfold in_flight; by rewrite Hp). rewrite app_nil_r.
  destruct (es_queues (h_stream (st_hub s))) as [|k' ks] eqn:Hq; [by apply elem_of_nil in Hk|].
  split; [|exact Hd]. f_equal. unfold in_flight. simpl.
  change (selects (take_seq (st_hub s)) k e) with (selects (st_hub s) k e).
  destruct (selects (st_hub s) k e); [by rewrite decide_True|by rewrite decide_False by naive_solver].
Qed.

Lemma publisher_delivers s i k offered :
  publishing_ok s → delivers_flight s i k offered → delivers_flight (publisher_step s) i k offered.
Proof.
  intros Hok (queued & -> & Hd). unfold publisher_step, publishing_ok, in_flight in *.
  destruct (st_publishing s) as [[e ks w]|] eqn:Hp; [|exists queued; unfold in_flight; by rewrite Hp]. simpl in *.
  destruct w as [w|]; [by exists queued|]. destruct ks as [|j ks].
  { exists queued. rewrite decide_False by set_solver. done. }
  apply NoDup_cons in Hok as [Hj _].
  pose proof (offer_push_pending (st_hub s) j e k) as Hpe. pose proof (offer_push_shape (st_hub s) j e) as Hsh.
  destruct (offer_push (st_hub s) j e) as [hub w]. simpl in *. unfold delivers_flight, in_flight. simpl.
  rewrite Hpe, (shape_selects (st_hub s) hub k e Hsh).
  change (calls_of i (with_publishing _ _)) with (calls_of i s).
  destruct (decide (k = j)) as [->|Hne].
  - destruct (selects (st_hub s) j e) eqn:Hs.
    + exists (queued ++ [e]). rewrite (decide_False (P := j ∈ ks ∧ _)) by naive_solver.
      rewrite (decide_True (P := j ∈ j :: ks ∧ _)) by (split; [left|done]).
      rewrite (decide_True (P := j = j ∧ _)) by done. rewrite app_nil_r. split; [done|].
      by apply delivers_push.
    + exists queued. by rewrite !decide_False by naive_solver.
  - exists queued. rewrite (decide_False (P := k = j ∧ _)) by naive_solver. split; [|done]. f_equal.
    apply decide_ext. rewrite elem_of_cons. naive_solver.
Qed.

Lemma run_delivers s evs i script offered :
  hub_ok (st_hub s) → publishing_ok s → sc_events sched !! i = Some script →
  delivers_flight s i (ev_feed script) offered →
  delivers_flight (run s evs) i (ev_feed script)
    (offered ++ selected_events s (ev_feed script) evs).
Proof.
  intros Hh Hpub Hi. revert s offered Hh Hpub. induction evs as [|ev evs IH]; intros s offered Hh Hpub Hd.
  { simpl. by rewrite app_nil_r. }
  simpl. rewrite (assoc_L (++)).
  apply IH; [by apply step_hub_ok|by apply step_publishing_ok|].
  destruct ev as [build| | |now exec]; [| |by rewrite app_nil_r|].
  - destruct Hh as (_ & Hnd & _ & Hs). destruct (Hs i script Hi) as [Hin _]. by apply begin_delivers.
  - rewrite app_nil_r. by apply publisher_delivers.
  - rewrite app_nil_r. destruct Hd as (queued & -> & Hd). exists queued. simpl. split.
    + f_equal. unfold in_flight. rewrite thread_publishing. destruct (st_publishing s) as [p|]; [|done].
      by rewrite (shape_selects (st_hub s) _ _ _ (thread_shape s now exec)).
    + by apply thread_delivers.
Qed.

(** C27: in every interleaving of publishers and the thread, a script is called
    with the events its trigger selects, each at most once and in the order they
    were published; at most 4096 wait for it, and they are the latest; and if no
    more than that were published nothing is lost: what it was called with and
    what waits for it is exactly what was published for it. An event whose
    publisher has not come to the script's queue yet ([in_flight]) is the last
    of those that wait. *)
Theorem events_delivered hub now evs i script :
  hub_ok hub → sc_events sched !! i = Some script → pending hub (ev_feed script) = [] →
  let s := run (run_start hub now) evs in
  let offered := selected_events (run_start hub now) (ev_feed script) evs in
  let waiting := pending (st_hub s) (ev_feed script) in
  let coming := in_flight s (ev_feed script) in
  sublist (calls_of i s ++ waiting ++ coming) offered ∧ suffix (waiting ++ coming) offered ∧
  (length waiting ≤ QUEUE_CAPACITY)%nat ∧
  ((length offered ≤ QUEUE_CAPACITY)%nat → calls_of i s ++ waiting ++ coming = offered).
Proof.
  intros Hh Hi He s offered waiting coming.
  destruct (run_delivers (run_start hub now) evs i script [] Hh I Hi) as (queued & Ho & H1 & H2 & H3 & H4).
  { exists []. split; [done|]. change (st_hub (run_start hub now)) with hub. rewrite He.
    split_and!; [done|by exists []|apply Nat.le_0_l|done]. }
  rewrite app_nil_l in Ho. fold offered coming in Ho. rewrite Ho. fold s waiting in H1, H2, H3, H4.
  split_and!.
  - rewrite (assoc_L (++)). by apply sublist_app.
  - destruct H2 as [pre ->]. exists pre. by rewrite (assoc_L (++)).
  - done.
  - rewrite length_app. intros Hl. rewrite (assoc_L (++)), H4; [done|lia].
Qed.

(** *** How soon *)

Definition n_events : nat := length (sc_events sched).

(** The thread's steps in a run. *)
Definition thread_steps evs : nat :=
  length (filter (λ ev, match ev with SE_Sched _ _ => true | _ => false end = true) evs).

Lemma thread_steps_cons ev evs :
  thread_steps (ev :: evs) =
  ((match ev with SE_Sched _ _ => 1 | _ => 0 end) + thread_steps evs)%nat.
Proof. by destruct ev. Qed.

(** How many more steps the thread takes at most until it looks at script [j]'s
    queue: the rest of this round, and the next one up to [j]. *)
Definition steps_to (j : nat) (pc : Pc (E := E)) : nat :=
  match pc with
  | PC_Script i _ =>
      if (i <=? j)%nat then 2 * (j - i) + 1 else 2 * (n_events - i) + 2 * j + 5
  | PC_Running i _ =>
      if (i <? j)%nat then 2 * (j - i) else 2 * (n_events - S i) + 2 * j + 6
  | PC_Wait _ => 2 * j + 4
  | PC_Head => 2 * j + 3
  | PC_Cycle => 2 * j + 2
  | PC_Done => 0
  end.

(** The program counter names a script of the list. *)
Definition pc_ok s : Prop :=
  match st_pc s with
  | PC_Script i _ => (i ≤ n_events)%nat
  | PC_Running i _ => (i < n_events)%nat
  | PC_Done => st_stop s = true
  | _ => True
  end.

Lemma thread_pc_ok s now exec : pc_ok s → pc_ok (thread s now exec).
Proof.
  intros Hs. unfold pc_ok in Hs. destruct (st_pc s) as [| |i ran|i e|t|] eqn:Hpc.
  - unfold sched_step. rewrite Hpc. unfold head_step.
    destruct (st_stop s) eqn:Hst; [done|]. unfold pc_ok.
    destruct (_ && _); simpl; lia.
  - unfold sched_step. rewrite Hpc. unfold cycle_step, pc_ok.
    destruct (call_each _ _ _); simpl; lia.
  - destruct (sc_events sched !! i) as [script|] eqn:Hi.
    2:{ unfold sched_step. rewrite Hpc. unfold script_step, loop_end. rewrite Hi. by destruct ran. }
    destruct (st_stop s) eqn:Hstop.
    { unfold sched_step. rewrite Hpc. unfold script_step, loop_end. rewrite Hi, Hstop.
      by destruct ran. }
    apply lookup_lt_Some in Hi as Hlt. unfold n_events in *.
    destruct (thread_script s now exec i ran script Hpc Hi Hstop)
      as [(_ & Hpc' & _)|(e & l & _ & Hpc' & _)]; unfold pc_ok; rewrite Hpc'; unfold n_events; lia.
  - unfold sched_step. rewrite Hpc. unfold running_step, pc_ok.
    destruct (sc_events sched !! i); [destruct (call_with _ _ _)|]; simpl; lia.
  - unfold sched_step. by rewrite Hpc.
  - unfold sched_step. rewrite Hpc. unfold pc_ok. by rewrite Hpc.
Qed.

Lemma step_pc_ok s ev : pc_ok s → pc_ok (step s ev).
Proof.
  intros Hs. destruct ev as [build| | |now exec]; [| | |by apply thread_pc_ok]; unfold pc_ok in *.
  - destruct (begin_publish_thread s build) as (H1 & H2 & _). simpl. by rewrite H1, H2.
  - destruct (publisher_thread s) as (H1 & H2 & _). simpl. by rewrite H1, H2.
  - simpl. by destruct (st_pc s).
Qed.

Lemma run_pc_ok hub now evs : pc_ok (run (run_start hub now) evs).
Proof.
  induction evs as [|ev evs IH] using rev_ind; [done|]. rewrite run_snoc. by apply step_pc_ok.
Qed.

(** A step brings the thread closer to script [j], or calls it. *)
Lemma thread_progress s now exec j script :
  pc_ok s → st_stop s = false → sc_events sched !! j = Some script →
  pending (st_hub s) (ev_feed script) ≠ [] →
  let s' := thread s now exec in
  (steps_to j (st_pc s') < steps_to j (st_pc s))%nat ∨ ∃ e, st_calls s' = st_calls s ++ [(j, e)].
Proof.
  intros Hok Hstop Hj Hne s'. apply lookup_lt_Some in Hj as Hlt. fold n_events in Hlt.
  unfold pc_ok in Hok. unfold s'. destruct (st_pc s) as [| |i ran|i e|t|] eqn:Hpc.
  - left. unfold sched_step. rewrite Hpc. unfold head_step. rewrite Hstop.
    destruct (_ && _); simpl; lia.
  - left. unfold sched_step. rewrite Hpc. unfold cycle_step.
    destruct (call_each _ _ _); simpl; lia.
  - destruct (sc_events sched !! i) as [sc|] eqn:Hi.
    + apply lookup_lt_Some in Hi as Hlti. fold n_events in Hlti.
      destruct (thread_script s now exec i ran sc Hpc Hi Hstop)
        as [(He & -> & _)|(e & l & _ & Hpc' & Hc & _)].
      * left. destruct (decide (i = j)) as [->|Hij]; [congruence|]. unfold steps_to.
        destruct (Nat.leb_spec i j), (Nat.leb_spec (S i) j); lia.
      * destruct (decide (i = j)) as [->|Hij]; [right; eauto|left]. rewrite Hpc'.
        unfold steps_to. destruct (Nat.leb_spec i j), (Nat.ltb_spec i j); lia.
    + left. apply lookup_ge_None in Hi as Hge. fold n_events in Hge. unfold sched_step.
      rewrite Hpc. unfold script_step, loop_end. rewrite Hi.
      destruct ran; simpl; destruct (Nat.leb_spec i j); lia.
  - left. unfold sched_step. rewrite Hpc. unfold running_step.
    assert (steps_to j (PC_Script (S i) true) < steps_to j (PC_Running i e))%nat; [|done].
    unfold steps_to. destruct (Nat.ltb_spec i j), (Nat.leb_spec (S i) j); lia.
  - left. unfold sched_step. rewrite Hpc. simpl. lia.
  - congruence.
Qed.

(** Nobody but the thread takes events out, and it calls the script with them. *)
Lemma step_keeps_waiting s ev j script :
  hub_ok (st_hub s) → sc_events sched !! j = Some script →
  pending (st_hub s) (ev_feed script) ≠ [] →
  pending (st_hub (step s ev)) (ev_feed script) ≠ [] ∨
  ∃ e, st_calls (step s ev) = st_calls s ++ [(j, e)].
Proof.
  intros Hh Hj Hne. destruct ev as [build| | |now exec]; [| |by left|].
  - left. simpl. rewrite begin_publish_hub. by destruct (st_publishing s).
  - left. simpl. unfold publisher_step. destruct (st_publishing s) as [[e ks w]|]; [|done]. simpl.
    destruct w; [done|]. destruct ks as [|k ks]; [done|].
    pose proof (offer_push_pending (st_hub s) k e (ev_feed script)) as Hpe.
    destruct (offer_push (st_hub s) k e) as [hub w]. simpl in *. rewrite Hpe.
    destruct (decide (ev_feed script = k ∧ selects (st_hub s) k e = true)); [|done].
    unfold push_event. intros Hf. by apply app_nil in Hf as [_ ?].
  - destruct (thread_cases s now exec) as [[_ Hp]|(i & sc & e & l & Hi & _ & _ & Hc & Hp)]; simpl.
    + left. by rewrite Hp.
    + destruct (decide (i = j)) as [->|Hij]; [right; eauto|left].
      rewrite Hp, decide_False; [done|]. intros Hf. by eapply Hij, feeds_distinct.
Qed.

Lemma step_calls s ev : ∃ new, st_calls (step s ev) = st_calls s ++ new.
Proof.
  destruct ev as [build| | |now exec]; simpl.
  { exists []. rewrite app_nil_r. apply begin_publish_thread. }
  { exists []. rewrite app_nil_r. apply publisher_thread. }
  { exists []. by rewrite app_nil_r. }
  destruct (thread_cases s now exec) as [[Hc _]|(i & sc & e & l & _ & _ & _ & Hc & _)].
  - exists []. by rewrite app_nil_r.
  - by exists [(i, e)].
Qed.

Lemma run_calls s evs : ∃ new, st_calls (run s evs) = st_calls s ++ new.
Proof.
  revert s. induction evs as [|ev evs IH]; intros s; [exists []; by rewrite app_nil_r|].
  destruct (step_calls s ev) as [n1 H1], (IH (step s ev)) as [n2 H2]. exists (n1 ++ n2).
  change (run s (ev :: evs)) with (run (step s ev) evs). by rewrite H2, H1, (assoc_L (++)).
Qed.

Lemma thread_stop s now exec : st_stop (thread s now exec) = st_stop s.
Proof.
  unfold sched_step. destruct (st_pc s) as [| |i ran|i e|t|]; try done.
  - unfold head_step. destruct (st_stop s) eqn:Hst; [done|]. by destruct (_ && _).
  - unfold cycle_step. by destruct (call_each _ _ _).
  - unfold script_step, loop_end. destruct (sc_events sched !! i) as [script|]; [|by destruct ran].
    destruct (st_stop s) eqn:Hst; [by destruct ran|]. simpl.
    by destruct (pop _ _) as [[]].
  - unfold running_step. destruct (sc_events sched !! i); [|done]. by destruct (call_with _ _ _).
Qed.

Lemma run_stop_mono s evs : st_stop (run s evs) = false → st_stop s = false.
Proof.
  revert s. induction evs as [|ev evs IH]; intros s; [done|]. intros Hs%IH.
  destruct ev as [build| | |now exec]; simpl in Hs.
  - by rewrite (proj1 (begin_publish_thread s build)) in Hs.
  - by rewrite (proj1 (publisher_thread s)) in Hs.
  - done.
  - by rewrite thread_stop in Hs.
Qed.

Lemma steps_to_pos s j :
  pc_ok s → st_stop s = false → (0 < steps_to j (st_pc s))%nat.
Proof.
  unfold pc_ok, steps_to. intros Hok Hs. destruct (st_pc s) as [| |i ran|i e|t|]; try lia.
  - destruct (Nat.leb_spec i j); lia.
  - destruct (Nat.ltb_spec i j); lia.
  - congruence.
Qed.

Lemma steps_to_bound s j :
  pc_ok s → (j < n_events)%nat → (steps_to j (st_pc s) ≤ 2 * n_events + 4)%nat.
Proof.
  unfold pc_ok, steps_to. intros Hok Hj. destruct (st_pc s) as [| |i ran|i e|t|]; try lia.
  - destruct (Nat.leb_spec i j); lia.
  - destruct (Nat.ltb_spec i j); lia.
Qed.

Lemma served_within s evs j script :
  hub_ok (st_hub s) → pc_ok s → sc_events sched !! j = Some script →
  pending (st_hub s) (ev_feed script) ≠ [] → st_stop (run s evs) = false →
  (steps_to j (st_pc s) ≤ thread_steps evs)%nat →
  ∃ e rest, st_calls (run s evs) = st_calls s ++ rest ∧ (j, e) ∈ rest.
Proof.
  revert s. induction evs as [|ev evs IH]; intros s Hh Hok Hj Hne Hstop Hn.
  { pose proof (steps_to_pos s j Hok Hstop). change (thread_steps []) with 0%nat in Hn. lia. }
  change (run s (ev :: evs)) with (run (step s ev) evs) in *.
  assert ((∃ e, st_calls (step s ev) = st_calls s ++ [(j, e)]) ∨
    (pending (st_hub (step s ev)) (ev_feed script) ≠ [] ∧
     (steps_to j (st_pc (step s ev)) ≤ thread_steps evs)%nat)) as [[e He]|[Hne' Hn']].
  - destruct (step_keeps_waiting s ev j script Hh Hj Hne) as [Hne'|?]; [|by left].
    destruct ev as [build| | |now exec]; [| |by right|].
    1: destruct (begin_publish_thread s build) as (_ & Hpc & _). 2: destruct (publisher_thread s) as (_ & Hpc & _).
    1-2: right; split; [done|]; simpl; rewrite Hpc; exact Hn.
    assert (st_stop s = false) as Hst by (by apply run_stop_mono in Hstop;
      apply (run_stop_mono s [SE_Sched now exec])).
    destruct (thread_progress s now exec j script Hok Hst Hj Hne) as [Hlt|?]; [right|by left].
    split; [done|]. rewrite thread_steps_cons in Hn. simpl. lia.
  - destruct (run_calls (step s ev) evs) as [new Hnew]. exists e, ((j, e) :: new).
    rewrite Hnew, He, <-(assoc_L (++)). split; [done|]. apply list_elem_of_here.
  - destruct (step_calls s ev) as [n1 H1].
    destruct (IH (step s ev)) as (e & rest & Hc & Hin);
      [by apply step_hub_ok|by apply step_pc_ok|done..|].
    exists e, (n1 ++ rest). rewrite Hc, H1, <-(assoc_L (++)). split; [done|].
    apply elem_of_app. by right.
Qed.

(** The scheduler serves every script: while the thread is not told to stop,
    a script for which an event waits is called within the next [2 n + 4] steps
    of the thread, with [n] event scripts, whatever is published meanwhile and
    however many events wait for the others. *)
Theorem waiting_script_served hub now evs evs' j script :
  hub_ok hub → sc_events sched !! j = Some script →
  let s := run (run_start hub now) evs in
  pending (st_hub s) (ev_feed script) ≠ [] →
  st_stop (run s evs') = false → (2 * n_events + 4 ≤ thread_steps evs')%nat →
  ∃ e rest, st_calls (run s evs') = st_calls s ++ rest ∧ (j, e) ∈ rest.
Proof.
  intros Hh Hj s Hne Hstop Hn.
  pose proof (run_pc_ok hub now evs) as Hok. fold s in Hok.
  apply (served_within s evs' j script); [by apply run_hub_ok|done..|].
  pose proof (steps_to_bound s j Hok) as Hb. apply lookup_lt_Some in Hj. specialize (Hb Hj). lia.
Qed.

(** *** Stopping *)

(** How many more steps the thread takes once it is told to stop. *)
Definition stop_steps (pc : Pc (E := E)) : nat :=
  match pc with
  | PC_Done => 0 | PC_Head => 1 | PC_Wait _ => 2 | PC_Script _ _ => 3
  | PC_Running _ _ | PC_Cycle => 4
  end.

Lemma thread_stopping s now exec :
  st_stop s = true →
  let s' := thread s now exec in
  st_calls s' = st_calls s ∧ (stop_steps (st_pc s') ≤ stop_steps (st_pc s) - 1)%nat.
Proof.
  intros Hst. split; [by apply thread_quiet|]. unfold sched_step.
  destruct (st_pc s) as [| |i ran|i e|t|] eqn:Hpc.
  - unfold head_step. by rewrite Hst.
  - unfold cycle_step. by destruct (call_each _ _ _).
  - unfold script_step, loop_end. rewrite Hst.
    destruct (sc_events sched !! i); destruct ran; simpl; lia.
  - unfold running_step. destruct (sc_events sched !! i); [|done]. by destruct (call_with _ _ _).
  - done.
  - by rewrite Hpc.
Qed.

Lemma step_stop s ev : st_stop s = true → st_stop (step s ev) = true.
Proof.
  intros Hs. destruct ev as [build| | |now exec]; simpl; [| |done|by rewrite thread_stop].
  - by rewrite (proj1 (begin_publish_thread s build)).
  - by rewrite (proj1 (publisher_thread s)).
Qed.

Lemma run_stopping s evs :
  st_stop s = true →
  st_calls (run s evs) = st_calls s ∧
  (stop_steps (st_pc (run s evs)) ≤ stop_steps (st_pc s) - thread_steps evs)%nat.
Proof.
  revert s. induction evs as [|ev evs IH]; intros s Hs.
  { change (thread_steps []) with 0%nat. split; [done|simpl; lia]. }
  change (run s (ev :: evs)) with (run (step s ev) evs). rewrite thread_steps_cons.
  destruct (IH (step s ev) (step_stop s ev Hs)) as [H1 H2]. rewrite H1.
  destruct ev as [build| | |now exec]; simpl in *.
  - destruct (begin_publish_thread s build) as (_ & Hp & Hc & _). by rewrite <-Hp.
  - destruct (publisher_thread s) as (_ & Hp & Hc & _). by rewrite <-Hp.
  - by split.
  - destruct (thread_stopping s now exec Hs) as [H3 H4]. split; [done|]. lia.
Qed.

(** Telling the scheduler to stop ends it: no script is called with an event
    any more, and after at most four steps of the thread, the script it may be
    running being one, it has left its loop and no script is marked as
    running. *)
Theorem stop_ends_scheduler hub now evs evs' :
  let s := run (run_start hub now) evs in
  let s' := run s (SE_Stop :: evs') in
  st_calls s' = st_calls s ∧
  ((4 ≤ thread_steps evs')%nat → st_pc s' = PC_Done ∧ st_executing s' = None).
Proof.
  intros s s'. destruct (run_stopping (step s SE_Stop) evs' eq_refl) as [H1 H2].
  split; [exact H1|]. intros Hn.
  assert (st_pc s' = PC_Done) as Hpc.
  { assert (stop_steps (st_pc (step s SE_Stop)) ≤ 4)%nat
      by (generalize (st_pc (step s SE_Stop)); intros []; simpl; lia).
    assert (stop_steps (st_pc s') ≤ 0)%nat as H3 by (etransitivity; [exact H2|lia]).
    revert H3. destruct (st_pc s'); simpl; done || lia. }
  split; [done|]. pose proof (run_executing hub now (evs ++ SE_Stop :: evs')) as He.
  assert (run (run_start hub now) (evs ++ SE_Stop :: evs') = s') as Hrun by apply foldl_app.
  rewrite Hrun in He. unfold executing_ok in He. by rewrite Hpc in He.
Qed.
End sched.

(** ** Building the scheduler *)

Section setup.
Context {E : Type}.
Implicit Types (hub : Hub E).

(** Everything attached exists, once. *)
Definition hub_wf hub : Prop :=
  NoDup (es_queues (h_stream hub)) ∧
  ∀ k, k ∈ es_queues (h_stream hub) → is_Some (h_queues hub !! k).

Lemma filter_snoc_new (l : list nat) k : k ∉ l → filter (λ q, q ≠ k) (l ++ [k]) = l.
Proof.
  intros Hk. rewrite filter_app, (filter_cons_False _ k) by auto. simpl. rewrite app_nil_r.
  induction l as [|x l IH]; [done|]. apply not_elem_of_cons in Hk as [Hx Hk].
  rewrite filter_cons_True by auto. by rewrite IH.
Qed.

(** A new feed: a fresh empty queue, attached last; the others are untouched. *)
Lemma feed_attach_spec hub selector wake :
  hub_wf hub →
  let '(k, hub') := feed_attach hub selector wake in
  hub_wf hub' ∧ k ∉ es_queues (h_stream hub) ∧
  es_queues (h_stream hub') = es_queues (h_stream hub) ++ [k] ∧
  h_queues hub' = h_queues hub ++ [mkQueue selector wake []] ∧ k = length (h_queues hub) ∧
  h_wakes hub' = h_wakes hub.
Proof.
  intros [Hnd Hex]. simpl. set (k := length (h_queues hub)).
  assert (k ∉ es_queues (h_stream hub)) as Hk.
  { intros Hin. apply Hex, lookup_lt_is_Some in Hin. unfold k in Hin. lia. }
  split_and!; try done. split; simpl.
  - apply NoDup_app. split; [done|]. split; [|apply NoDup_singleton].
    intros x Hx Hs%list_elem_of_singleton. by subst.
  - intros j [Hj|Hj%list_elem_of_singleton]%elem_of_app; [|subst j].
    + destruct (Hex j Hj) as [q Hq]. exists q. by apply lookup_app_l_Some.
    + unfold k. rewrite lookup_app_r, Nat.sub_diag by done. by eexists.
Qed.

(** A feed is offered what is published from its attachment on, and nothing
    once it is dropped: attaching gives it a queue of its own that starts empty,
    and after the drop publishing leaves what waits there as it is, while every
    other queue gets what it would have got. *)
Theorem feed_lifetime hub selector wake build :
  hub_wf hub →
  let '(k, hub1) := feed_attach hub selector wake in
  let ev := build (es_next_seq (h_stream hub)) in
  let dropped := feed_drop hub1 k in
  pending hub1 k = [] ∧
  pending (publish hub1 build) k = (if selector ev then [ev] else []) ∧
  (∀ j, j ≠ k → pending (publish hub1 build) j = pending (publish hub build) j) ∧
  pending (publish dropped build) k = [] ∧
  (∀ j, j ≠ k → pending (publish dropped build) j = pending (publish hub build) j).
Proof.
  intros Hwf. pose proof (feed_attach_spec hub selector wake Hwf) as Hf.
  destruct (feed_attach hub selector wake) as [k hub1] eqn:Ha.
  destruct Hf as (Hwf1 & Hnew & Hqs & Hheap & Hk & Hw). intros ev dropped.
  assert (es_next_seq (h_stream hub1) = es_next_seq (h_stream hub)) as Hseq
    by (by injection Ha as _ <-).
  assert (h_queues hub1 !! k = Some (mkQueue selector wake [])) as Hlk
    by (by rewrite Hheap, Hk, lookup_app_r, Nat.sub_diag by done).
  assert (es_queues (h_stream dropped) = es_queues (h_stream hub)) as Hdq.
  { unfold dropped, feed_drop, detach. simpl. rewrite Hqs. by apply filter_snoc_new. }
  assert (∀ j, j ≠ k → h_queues hub1 !! j = h_queues hub !! j) as Hother.
  { intros j Hj. rewrite Hheap. destruct (decide (j < length (h_queues hub))%nat).
    - by apply lookup_app_l.
    - rewrite (proj2 (lookup_ge_None _ _)); [|rewrite length_app; simpl; lia].
      symmetry. apply lookup_ge_None. lia. }
  pose proof (proj1 Hwf) as Hnd. pose proof (proj1 Hwf1) as Hnd1.
  assert (pending hub1 k = []) as Hempty by (unfold pending; by rewrite Hlk).
  split_and!.
  - done.
  - rewrite publish_pending by (done || rewrite Hqs; set_solver). rewrite Hempty, Hseq.
    fold ev. unfold selects. by rewrite Hlk.
  - intros j Hj. rewrite !publish_lookup by done. unfold selects, pending.
    rewrite Hother, Hseq, Hqs by done. apply decide_ext. set_solver.
  - rewrite publish_lookup by (by rewrite Hdq). rewrite decide_False; [done|].
    rewrite Hdq. by intros [? _].
  - intros j Hj. rewrite !publish_lookup by (done || by rewrite Hdq). rewrite Hdq.
    unfold selects, pending. change (h_queues dropped) with (h_queues hub1).
    change (es_next_seq (h_stream dropped)) with (es_next_seq (h_stream hub1)).
    by rewrite Hother, Hseq.
Qed.
End setup.

(** ** A module with two event scripts *)

Definition demo_id (name : string) : ScriptId := mkScriptId SO_Module name.

(** The wake flag 0; one feed for even events, one for all. *)
Definition demo_hub : Hub Z :=
  let hub := mkHub EventStream_new [] [false] in
  let '(_, hub) := feed_attach hub Z.even 0 in
  (feed_attach hub (λ _, true) 0).2.

Definition demo_sched : SimScheduler :=
  SimScheduler_new
    [mkPlanned (demo_id "even") (SS_Events 0); mkPlanned (demo_id "all") (SS_Events 1)] 1000 0.

Definition demo_context : LuaContext := mkContext {["even"; "all"]}.

Lemma demo_hub_ok : hub_ok demo_sched demo_hub.
Proof.
  split_and!.
  - apply (bool_decide_unpack _). reflexivity.
  - apply (bool_decide_unpack _). reflexivity.
  - apply Nat.lt_0_succ.
  - intros [|[|i]] script Hi; injection Hi as <- || discriminate Hi; simpl.
    + split; [apply list_elem_of_here|by eexists].
    + split; [apply list_elem_of_further, list_elem_of_here|by eexists].
Qed.

Lemma demo_hub_wf : hub_wf demo_hub.
Proof.
  split; [apply demo_hub_ok|]. intros k Hk. apply lookup_lt_is_Some. simpl in *. set_solver by lia.
Qed.

Abbreviation demo_run := (sim_run (LuaError := unit) (2 ^ 62) demo_context demo_sched).

Definition demo_tick : SimEvent Z unit := SE_Sched 0 (λ _, Ok tt).

(** The thread looks at both queues and waits; then two events are published, in
    four and five further steps of their publishers. *)
Definition demo_asleep : list (SimEvent Z unit) := [demo_tick; demo_tick; demo_tick; demo_tick].

Definition demo_events : list (SimEvent Z unit) :=
  demo_asleep ++ SE_Publish (λ seq, seq) :: replicate 4 SE_Publisher ++
  SE_Publish (λ seq, seq) :: replicate 5 SE_Publisher.

(** The thread asleep, an event in the second queue, its flag not yet notified. *)
Definition demo_queued : list (SimEvent Z unit) :=
  demo_asleep ++ [SE_Publish (λ seq, seq); SE_Publisher; SE_Publisher].

Definition demo_start : SimState Z unit := run_start demo_hub 0.

Lemma no_lost_wakeup_witness :
  (∃ t, st_pc (demo_run demo_start demo_queued) = PC_Wait t ∧ 0 <= t <= STOP_POLL) ∧
  pending (st_hub (demo_run demo_start demo_queued)) 1 = [1] ∧
  woken (st_hub (demo_run demo_start demo_queued)) 0 = false ∧
  woken (st_hub (demo_run demo_start (demo_queued ++ [SE_Publisher]))) 0 = true.
Proof.
  destruct (no_lost_wakeup (2 ^ 62) demo_context demo_sched demo_hub 0 demo_queued demo_hub_ok
    STOP_POLL) as [Ht Hp]; [reflexivity|]. split_and!.
  - exists STOP_POLL. split; [reflexivity|exact Ht].
  - reflexivity.
  - reflexivity.
  - destruct (Hp eq_refl eq_refl) as [Hq|Hw]; [|exact Hw].
    discriminate (Hq 1%nat (mkEventScript (demo_id "all") 1 "all") eq_refl).
Defined.

Lemma events_delivered_witness :
  calls_of 1 (demo_run demo_start (demo_events ++ replicate 5 demo_tick)) ++
    pending (st_hub (demo_run demo_start (demo_events ++ replicate 5 demo_tick))) 1 ++
    in_flight (demo_run demo_start (demo_events ++ replicate 5 demo_tick)) 1 = [1; 2].
Proof.
  destruct (events_delivered (2 ^ 62) demo_context demo_sched demo_hub 0
    (demo_events ++ replicate 5 demo_tick) 1 (mkEventScript (demo_id "all") 1 "all")
    demo_hub_ok eq_refl eq_refl) as (_ & _ & _ & Hd).
  etransitivity; [apply Hd; apply Nat.leb_le; reflexivity|reflexivity].
Defined.

Lemma waiting_script_served_witness :
  ∃ e rest, st_calls (demo_run (demo_run demo_start demo_events) (replicate 8 demo_tick)) =
    st_calls (demo_run demo_start demo_events) ++ rest ∧ (1%nat, e) ∈ rest.
Proof.
  apply (waiting_script_served (2 ^ 62) demo_context demo_sched demo_hub 0 demo_events
    (replicate 8 demo_tick) 1 (mkEventScript (demo_id "all") 1 "all")).
  - exact demo_hub_ok.
  - reflexivity.
  - discriminate.
  - reflexivity.
  - apply Nat.leb_le. reflexivity.
Defined.

Lemma stop_ends_scheduler_witness :
  st_pc (demo_run (demo_run demo_start demo_events) (SE_Stop :: replicate 4 demo_tick)) = PC_Done.
Proof.
  apply (stop_ends_scheduler (2 ^ 62) demo_context demo_sched demo_hub 0 demo_events
    (replicate 4 demo_tick)). apply Nat.leb_le. reflexivity.
Defined.

Lemma feed_lifetime_witness :
  pending (publish (feed_attach demo_hub Z.odd 0).2 (λ seq, seq)) 2 = [1] ∧
  pending (publish (feed_drop (feed_attach demo_hub Z.odd 0).2 2) (λ seq, seq)) 2 = [].
Proof.
  pose proof (feed_lifetime demo_hub Z.odd 0 (λ seq, seq) demo_hub_wf) as (_ & H1 & _ & H2 & _).
  split; [exact H1|exact H2].
Defined.
