(* ===== verification/Text.v ===== *)
(** * Splitting and trimming text

    The [str] methods of the standard library that the configuration parsers
    use, on text as its UTF-8 bytes. *)

From stdpp Require Import base list numbers strings.
From S2P Require Import Prelude IntText.

Local Open Scope Z_scope.

(** The encodings of the characters with the Unicode property [White_Space]. *)
Definition white_space : list (list Z) :=
  [[9]; [10]; [11]; [12]; [13]; [32]; [194; 133]; [194; 160]; [225; 154; 128]] ++
  ((λ b, [226; 128; b]) <$> seqZ 128 11) ++
  [[226; 128; 168]; [226; 128; 169]; [226; 128; 175]; [226; 129; 159]; [227; 128; 128]].

(** The rest of [s] after a character of [cs] it starts with. *)
Fixpoint strip_any (cs : list (list Z)) (s : list Z) : option (list Z) :=
  match cs with
  | [] => None
  | c :: cs' => match strip_prefix c s with Some t => Some t | None => strip_any cs' s end
  end.

Fixpoint strip_all (fuel : nat) (cs : list (list Z)) (s : list Z) : list Z :=
  match fuel with
  | O => s
  | S fuel' => match strip_any cs s with Some t => strip_all fuel' cs t | None => s end
  end.

(** [str::trim_start] and [trim_end]: at most one character per byte. *)
Definition trim_start (s : list Z) : list Z := strip_all (length s) white_space s.

Definition trim_end (s : list Z) : list Z :=
  reverse (strip_all (length s) (reverse <$> white_space) (reverse s)).

(** [str::trim]. *)
Definition trim (s : list Z) : list Z := trim_end (trim_start s).

(** [str::split_once] at a one-byte separator. *)
Fixpoint split_once (sep : Z) (s : list Z) : option (list Z * list Z) :=
  match s with
  | [] => None
  | c :: s' =>
      if c =? sep then Some ([], s')
      else match split_once sep s' with Some (a, b) => Some (c :: a, b) | None => None end
  end.

(** [str::split]. *)
Fixpoint split (sep : Z) (s : list Z) : list (list Z) :=
  match s with
  | [] => [[]]
  | c :: s' =>
      if c =? sep then [] :: split sep s'
      else match split sep s' with a :: l => (c :: a) :: l | [] => [[c]] end
  end.

(** The parts joined by the separator. *)
Fixpoint join (sep : Z) (l : list (list Z)) : list Z :=
  match l with
  | [] => []
  | [a] => a
  | a :: l' => a ++ sep :: join sep l'
  end.

(** [str::split_whitespace]; a part is gathered in reverse. *)
Fixpoint split_whitespace (fuel : nat) (part s : list Z) : list (list Z) :=
  let done_ := match part with [] => [] | _ => [reverse part] end in
  match fuel, s with
  | O, _ | _, [] => done_
  | S fuel', c :: s' =>
      match strip_any white_space s with
      | Some t => done_ ++ split_whitespace fuel' [] t
      | None => split_whitespace fuel' (c :: part) s'
      end
  end.

(** ** Lemmas *)

Lemma split_not_nil sep s : split sep s ≠ [].
Proof.
  destruct s as [|c s]; simpl; [done|]. destruct (c =? sep); [done|]. by destruct (split sep s).
Qed.

(** Splitting loses nothing. *)
Lemma join_split sep s : join sep (split sep s) = s.
Proof.
  induction s as [|c s IH]; [done|]. simpl. pose proof (split_not_nil sep s).
  destruct (split sep s) as [|a l] eqn:Hl; [done|]. destruct (Z.eqb_spec c sep) as [->|_].
  - simpl. by rewrite <-IH.
  - simpl in IH |- *. destruct l; by rewrite <-IH.
Qed.

Lemma split_no_sep sep s : sep ∉ s → split sep s = [s].
Proof.
  induction s as [|c s IH]; intros Hs; [done|]. apply not_elem_of_cons in Hs as [Hc Hs]. simpl.
  destruct (Z.eqb_spec c sep); [congruence|]. by rewrite IH.
Qed.

Lemma split_app sep a s : sep ∉ a → split sep (a ++ sep :: s) = a :: split sep s.
Proof.
  induction a as [|c a IH]; intros Hs; simpl; [by rewrite Z.eqb_refl|].
  apply not_elem_of_cons in Hs as [Hc Hs]. destruct (Z.eqb_spec c sep); [congruence|].
  by rewrite IH.
Qed.

(** The parts of a joined list, if none holds the separator. *)
Lemma split_join sep l :
  l ≠ [] → Forall (λ a, sep ∉ a) l → split sep (join sep l) = l.
Proof.
  induction l as [|a [|b l] IH]; intros Hne Hl; [done| |].
  - apply Forall_cons in Hl as [Ha _]. by apply split_no_sep.
  - apply Forall_cons in Hl as [Ha Hl]. change (join sep (a :: b :: l))
      with (a ++ sep :: join sep (b :: l)). by rewrite split_app, IH.
Qed.

Lemma split_app_sep sep a s : split sep (a ++ sep :: s) = split sep a ++ split sep s.
Proof.
  induction a as [|c a IH]; simpl; [by rewrite Z.eqb_refl|].
  destruct (c =? sep); [by rewrite IH|]. rewrite IH.
  pose proof (split_not_nil sep a). by destruct (split sep a).
Qed.

Lemma split_pieces sep s : Forall (λ p, sep ∉ p) (split sep s).
Proof.
  induction s as [|c s IH]; simpl; [constructor; [apply not_elem_of_nil|done]|].
  destruct (Z.eqb_spec c sep) as [->|Hc]; [constructor; [apply not_elem_of_nil|done]|].
  pose proof (split_not_nil sep s). destruct (split sep s) as [|a l]; [done|].
  apply Forall_cons in IH as [Ha Hl]. constructor; [|done]. apply not_elem_of_cons. by split.
Qed.

Lemma split_once_app sep a b : sep ∉ a → split_once sep (a ++ sep :: b) = Some (a, b).
Proof.
  induction a as [|c a IH]; intros Ha; simpl; [by rewrite Z.eqb_refl|].
  apply not_elem_of_cons in Ha as [Hc Ha]. destruct (Z.eqb_spec c sep); [congruence|].
  by rewrite IH.
Qed.

Lemma split_once_None sep s : sep ∉ s → split_once sep s = None.
Proof.
  induction s as [|c s IH]; intros Hs; [done|]. apply not_elem_of_cons in Hs as [Hc Hs]. simpl.
  destruct (Z.eqb_spec c sep); [congruence|]. by rewrite IH.
Qed.

(** *** Trimming *)

(** The byte may begin or end a white-space character. *)
Definition may_be_space (b : Z) : bool :=
  existsb (λ c, match head c with Some x => x =? b | None => true end)
    (white_space ++ (reverse <$> white_space)).

Lemma strip_any_None cs b s :
  forallb (λ c, match head c with Some x => negb (x =? b) | None => false end) cs = true →
  strip_any cs (b :: s) = None.
Proof.
  induction cs as [|c cs IH]; simpl; [done|]. intros [Hc Hcs]%andb_prop. rewrite IH by done.
  destruct c as [|x c]; simpl in *; [done|]. by apply negb_true_iff in Hc as ->.
Qed.

Lemma not_space_heads b :
  may_be_space b = false →
  forallb (λ c, match head c with Some x => negb (x =? b) | None => false end)
    (white_space ++ (reverse <$> white_space)) = true.
Proof.
  unfold may_be_space. induction (white_space ++ _) as [|c l IH]; simpl; [done|].
  intros [Hc Hl]%orb_false_iff. rewrite (IH Hl), andb_true_r.
  destruct (head c); [by rewrite Hc|done].
Qed.

Lemma strip_all_id n b s cs :
  may_be_space b = false → (∀ c, c ∈ cs → c ∈ white_space ++ (reverse <$> white_space)) →
  strip_all n cs (b :: s) = b :: s.
Proof.
  intros Hb Hcs. destruct n; [done|]. simpl. rewrite strip_any_None; [done|].
  apply forallb_forall. intros c Hc%list_elem_of_In%Hcs.
  pose proof (not_space_heads b Hb) as Hf. rewrite forallb_forall in Hf.
  apply Hf. by apply list_elem_of_In.
Qed.

(** Text that neither begins nor ends like a space is left alone. *)
Lemma trim_id s :
  match head s with Some b => may_be_space b = false | None => True end →
  match list.last s with Some b => may_be_space b = false | None => True end →
  trim s = s.
Proof.
  intros Hh Hl. destruct s as [|b s]; [done|]. unfold trim, trim_start, trim_end.
  rewrite (strip_all_id _ b s); [|done|intros c Hc; by apply elem_of_app; left].
  destruct (reverse (b :: s)) as [|x t] eqn:Hr.
  { apply (f_equal length) in Hr. rewrite length_reverse in Hr. done. }
  assert (list.last (b :: s) = Some x) as Hx.
  { rewrite <-(reverse_involutive (b :: s)), Hr, reverse_cons. apply last_snoc. }
  rewrite Hx in Hl. rewrite strip_all_id; [|done|intros c Hc; by apply elem_of_app; right].
  by rewrite <-Hr, reverse_involutive.
Qed.

Lemma trim_graphic s : Forall (λ b, 33 <= b <= 126) s → trim s = s.
Proof.
  assert (∀ b, 33 <= b <= 126 → may_be_space b = false) as Hg.
  { intros b Hb.
    assert (forallb (λ b, negb (may_be_space b)) (seqZ 33 94) = true) as Hf by reflexivity.
    rewrite forallb_forall in Hf. apply negb_true_iff, Hf, list_elem_of_In, elem_of_seqZ. lia. }
  intros Hs. apply trim_id.
  - destruct s as [|b s]; [done|]. apply Forall_cons in Hs as [Hb _]. by apply Hg.
  - destruct (list.last s) as [b|] eqn:Hb; [|done]. apply Hg.
    rewrite list.Forall_forall in Hs. apply Hs. by apply last_Some_elem_of.
Qed.
