(* ===== verification/DeviceConfig.v ===== *)
(** * Device configurations

    Models [ferrowl/src/module/modbus/config/device.rs], its [value_types.rs]
    and [ferrowl/src/config/script.rs]: register definitions as a configuration
    file spells them, explicit read ranges and scripts. Names are strings;
    texts that are parsed are bytes. A resolution and a float are their IEEE 754
    bit patterns, as in [Format.v]. *)

From stdpp Require Import base list numbers strings.
From S2P Require Import Prelude Slice Bytes IntText Text Format Codec Key.

Local Open Scope Z_scope.

(** ** Spellings of value types ([value_types.rs]) *)

(** [parse_f64] reads an [f64] as [str::parse] does, [display_f64] prints it. *)
Inductive Scalar := S_Int (i : Z) | S_Float (bits : Z) | S_Text (s : list Z).

Inductive ValueType :=
| VT_U8 | VT_U16 | VT_U32 | VT_U64 | VT_U128
| VT_I8 | VT_I16 | VT_I32 | VT_I64 | VT_I128
| VT_F32 | VT_F64 | VT_Ascii.

Inductive AccessCfg := AC_ReadOnly | AC_WriteOnly | AC_ReadWrite.
Inductive EndianCfg := EC_Big | EC_Little.
Inductive WordOrderCfg := WC_Normal | WC_Reversed.
Inductive AlignmentCfg := LC_Left | LC_Right.

Definition Scalar_display (display_f64 : Z → list Z) (self : Scalar) : list Z :=
  match self with S_Int v => int_display v | S_Float b => display_f64 b | S_Text s => s end.

Definition Scalar_from_input (parse_f64 : list Z → option Z) (s : list Z) : Scalar :=
  let t := trim s in
  match from_str_radix true 64 t 10 with
  | Ok i => S_Int i
  | Err _ => match parse_f64 t with Some f => S_Float f | None => S_Text s end
  end.

Definition Scalar_to_value (self : Scalar) (res : Z) : Value :=
  match self with
  | S_Int i => V_Numeric (NP_I64 i) (mkResolution res)
  | S_Float f => V_Numeric (NP_F64 f) (mkResolution res)
  | S_Text s => V_Ascii s
  end.

(** [str::parse::<u128>] and the like. *)
Definition parse_unsigned (w : Z) (s : list Z) : option Z :=
  match from_str_radix false w s 10 with Ok v => Some v | Err _ => None end.

Definition parse_bitmask (s : option (list Z)) : BitField :=
  mkBitField
    match trim <$> s with
    | None | Some [] => u128_max
    | Some s =>
        let hex :=
          match strip_prefix (bytes_of "0x") s with
          | Some h => Some h
          | None => strip_prefix (bytes_of "0X") s
          end in
        match match hex with
              | None => from_str_radix false 128 s 10
              | Some h => from_str_radix false 128 h 16
              end with
        | Ok m => m
        | Err _ => u128_max
        end
    end.

Definition access_from (a : AccessCfg) : RegAccess :=
  match a with
  | AC_ReadOnly => RA_ReadOnly | AC_WriteOnly => RA_WriteOnly | AC_ReadWrite => RA_ReadWrite
  end.

Definition endian_from (e : EndianCfg) : Endian :=
  match e with EC_Big => E_Big | EC_Little => E_Little end.

Definition word_order_from (w : WordOrderCfg) : WordOrder :=
  match w with WC_Normal => WO_Normal | WC_Reversed => WO_Reversed end.

Definition alignment_from (a : AlignmentCfg) : Alignment :=
  match a with LC_Left => AL_Left | LC_Right => AL_Right end.

Definition format_of (value_type : ValueType) (endian : EndianCfg) (word_order : WordOrderCfg)
    (resolution : Z) (bf : BitField) (alignment : AlignmentCfg) (length : nat) : Format :=
  let res := mkResolution resolution in
  let endian := endian_from endian in
  let wo := word_order_from word_order in
  match value_type with
  | VT_U8 => Format_int IK_U8 endian wo res bf
  | VT_U16 => Format_int IK_U16 endian wo res bf
  | VT_U32 => Format_int IK_U32 endian wo res bf
  | VT_U64 => Format_int IK_U64 endian wo res bf
  | VT_U128 => Format_int IK_U128 endian wo res bf
  | VT_I8 => Format_int IK_I8 endian wo res bf
  | VT_I16 => Format_int IK_I16 endian wo res bf
  | VT_I32 => Format_int IK_I32 endian wo res bf
  | VT_I64 => Format_int IK_I64 endian wo res bf
  | VT_I128 => Format_int IK_I128 endian wo res bf
  | VT_F32 => Format_float FK_F32 endian wo res
  | VT_F64 => Format_float FK_F64 endian wo res
  | VT_Ascii => F_Ascii (alignment_from alignment) length
  end.

Definition address_of (is_virtual : bool) (address : option Z) : Address :=
  match is_virtual, address with
  | false, Some addr => Fixed addr
  | _, _ => Virtual
  end.

(** ** Scripts ([config/script.rs]) *)

Inductive Selection := Sel_Names (names : list string) | Sel_All.

(** [ModbusTrigger::Register]. *)
Inductive ModbusTrigger := MT_Register (registers : Selection) (every_write : bool).

Record ScriptDef (T : Type) := mkScriptDef {
  sd_name : string; sd_code : list Z; sd_enabled : bool; sd_trigger : option T
}.
Arguments mkScriptDef {T}.
Arguments sd_name {T}.
Arguments sd_code {T}.
Arguments sd_enabled {T}.
Arguments sd_trigger {T}.

(** [OcppTrigger] has no variant. *)
Inductive ScriptList :=
| SL_Modbus (scripts : list (ScriptDef ModbusTrigger))
| SL_Ocpp (scripts : list (ScriptDef Empty_set)).

Inductive TriggerMismatch := mkTriggerMismatch (script : string).

(** [retype]: the first mismatch ends the collection. *)
Fixpoint retype {A B} (scripts : list (ScriptDef A)) (convert : A → option B)
  : Result (list (ScriptDef B)) TriggerMismatch :=
  match scripts with
  | [] => Ok []
  | s :: rest =>
      match match sd_trigger s with
            | None => Ok None
            | Some t =>
                match convert t with
                | Some t' => Ok (Some t')
                | None => Err (mkTriggerMismatch (sd_name s))
                end
            end with
      | Err e => Err e
      | Ok trigger =>
          match retype rest convert with
          | Err e => Err e
          | Ok l => Ok (mkScriptDef (sd_name s) (sd_code s) (sd_enabled s) trigger :: l)
          end
      end
  end.

Definition into_modbus (self : ScriptList)
  : Result (list (ScriptDef ModbusTrigger)) TriggerMismatch :=
  match self with
  | SL_Modbus s => Ok s
  | SL_Ocpp s => retype s (λ t : Empty_set, match t with end)
  end.

Definition into_ocpp (self : ScriptList) : Result (list (ScriptDef Empty_set)) TriggerMismatch :=
  match self with
  | SL_Ocpp s => Ok s
  | SL_Modbus s => retype s (λ _, None)
  end.

(** ** Read ranges *)

Record ReadRanges := mkReadRanges {
  rr_holding : option (list Z);
  rr_input : option (list Z);
  rr_coils : option (list Z);
  rr_discrete : option (list Z)
}.

Definition ReadRanges_default : ReadRanges := mkReadRanges None None None None.

(** [parse_entry] of a trimmed entry. [end - start + 1] is a [usize]; it and
    [Range::new] are where a huge bound shows: the sum wraps, the range panics.
    44 is [','], 45 is ['-']. *)
Definition parse_entry (part : list Z) : Outcome (option Range) :=
  match split_once 45 part with
  | Some (a, b) =>
      match parse_unsigned 64 (trim a) with
      | None => Ret None
      | Some start =>
          match parse_unsigned 64 (trim b) with
          | None => Ret None
          | Some end_ =>
              if end_ >=? start
              then range ← Range_new start (as_uint 64 (end_ - start + 1)); Ret (Some range)
              else Ret None
          end
      end
  | None =>
      match parse_unsigned 64 part with
      | None => Ret None
      | Some addr => range ← Range_new addr 1; Ret (Some range)
      end
  end.

(** The entries [split(',').map(trim).filter(non-empty)]. *)
Definition range_entries (spec : list Z) : list (list Z) :=
  filter (λ p, p ≠ []) (trim <$> split 44 spec).

Fixpoint parse_entries (parts : list (list Z)) : Outcome (list Range) :=
  match parts with
  | [] => Ret []
  | part :: parts' =>
      entry ← parse_entry part;
      rest ← parse_entries parts';
      Ret (match entry with Some r => r :: rest | None => rest end)
  end.

Definition parse_ranges (spec : list Z) : Outcome (list Range) :=
  parse_entries (range_entries spec).

Definition ranges_for (self : ReadRanges) (kind : Kind) : Outcome (list Range) :=
  match match kind with
        | K_HoldingRegister => rr_holding self
        | K_InputRegister => rr_input self
        | K_Coil => rr_coils self
        | K_DiscreteInput => rr_discrete self
        end with
  | Some spec => parse_ranges spec
  | None => Ret []
  end.

(** [check_range_spec]; the error names the entry. *)
Fixpoint check_entries (parts : list (list Z)) : Outcome (Result unit (list Z)) :=
  match parts with
  | [] => Ret (Ok tt)
  | part :: parts' =>
      entry ← parse_entry part;
      match entry with None => Ret (Err part) | Some _ => check_entries parts' end
  end.

Definition check_range_spec (spec : list Z) : Outcome (Result unit (list Z)) :=
  check_entries (range_entries spec).

(** ** Register definitions *)

Record NamedValue := mkNamedValue { nv_name : string; nv_value : Scalar }.

Record RegisterDef := mkRegisterDef {
  rd_slave_id : Z;
  rd_kind : Kind;
  rd_address : option Z;
  rd_is_virtual : bool;
  rd_access : AccessCfg;
  rd_value_type : ValueType;
  rd_endian : EndianCfg;
  rd_word_order : WordOrderCfg;
  rd_resolution : Z;
  rd_bitmask : option (list Z);
  rd_length : nat;
  rd_alignment : AlignmentCfg;
  rd_values : list NamedValue;
  rd_update : option (list Z);
  rd_description : string;
  rd_default : option Scalar
}.

Definition kind_cell_type (kind : Kind) : CellType :=
  match kind with
  | K_Coil | K_DiscreteInput => CT_Coil
  | K_HoldingRegister | K_InputRegister => CT_Register
  end.

Definition RegisterDef_mem_type (self : RegisterDef) : CellType := kind_cell_type (rd_kind self).

Definition RegisterDef_bitfield (self : RegisterDef) : BitField := parse_bitmask (rd_bitmask self).

Definition RegisterDef_format (self : RegisterDef) : Format :=
  format_of (rd_value_type self) (rd_endian self) (rd_word_order self) (rd_resolution self)
    (RegisterDef_bitfield self) (rd_alignment self) (rd_length self).

Definition RegisterDef_address (self : RegisterDef) : Address :=
  address_of (rd_is_virtual self) (rd_address self).

Definition RegisterDef_mem_range (self : RegisterDef) : Outcome (option Range) :=
  match RegisterDef_address self with
  | Fixed addr =>
      range ← Range_new addr (Z.of_nat (Format_width (RegisterDef_format self)));
      Ret (Some range)
  | Virtual => Ret None
  end.

(** The builder is given every field, so [build] does not fail. *)
Definition RegisterDef_register (self : RegisterDef) : Register :=
  mkRegister (rd_slave_id self) (access_from (rd_access self)) (rd_kind self)
    (RegisterDef_address self) (RegisterDef_format self).

(** ** Device configurations

    The fields [version], [tls], [log_file] and [script_interval] are carried
    along and left out. [definitions] is a [BTreeMap], listed in key order. *)

Record DeviceConfig := mkDeviceConfig {
  dc_timeout_ms : option Z;
  dc_delay_ms : option Z;
  dc_interval_ms : option Z;
  dc_reconnect : option bool;
  dc_read_ranges : ReadRanges;
  dc_definitions : list (string * RegisterDef);
  dc_scripts : list (ScriptDef ModbusTrigger)
}.

Definition clear_update (def : RegisterDef) : RegisterDef :=
  mkRegisterDef (rd_slave_id def) (rd_kind def) (rd_address def) (rd_is_virtual def)
    (rd_access def) (rd_value_type def) (rd_endian def) (rd_word_order def) (rd_resolution def)
    (rd_bitmask def) (rd_length def) (rd_alignment def) (rd_values def) None
    (rd_description def) (rd_default def).

(** The script a definition's snippet becomes. *)
Definition migrate_update (scripts : list (ScriptDef ModbusTrigger)) (name : string)
    (def : RegisterDef) : list (ScriptDef ModbusTrigger) :=
  match rd_update def with
  | None => scripts
  | Some code =>
      if bool_decide (trim code = []) || existsb (λ s, String.eqb (sd_name s) name) scripts
      then scripts
      else scripts ++ [mkScriptDef name code true None]
  end.

Definition migrate_update_scripts (self : DeviceConfig) : DeviceConfig :=
  mkDeviceConfig (dc_timeout_ms self) (dc_delay_ms self) (dc_interval_ms self)
    (dc_reconnect self) (dc_read_ranges self)
    ((λ p, (p.1, clear_update p.2)) <$> dc_definitions self)
    (foldl (λ scripts p, migrate_update scripts p.1 p.2) (dc_scripts self) (dc_definitions self)).

(** ** Timing ([module.rs]) *)

Definition DEFAULT_TIMEOUT_MS : Z := 3000.
Definition DEFAULT_DELAY_MS : Z := 1000.
Definition DEFAULT_INTERVAL_MS : Z := 1000.
Definition DEFAULT_RECONNECT : bool := true.

Record Timing := mkTiming {
  tm_timeout_ms : Z; tm_delay_ms : Z; tm_interval_ms : Z; tm_reconnect : bool
}.

Definition resolve_timing (device : DeviceConfig) : Timing :=
  mkTiming (default DEFAULT_TIMEOUT_MS (dc_timeout_ms device))
    (default DEFAULT_DELAY_MS (dc_delay_ms device))
    (default DEFAULT_INTERVAL_MS (dc_interval_ms device))
    (default DEFAULT_RECONNECT (dc_reconnect device)).
