(* ===== verification/Registers.v ===== *)
(** * Registers of a module

    Models [ferrowl/src/module/modbus/registers.rs] and the memory part of
    [build.rs]: the store binding of a register, the command that writes it, and
    the write-back of an edited register into its definition. *)

From stdpp Require Import base list numbers strings.
From S2P Require Import Prelude Slice Bytes IntText Text Format Codec Key DeviceConfig.

Local Open Scope Z_scope.

Definition mem_type (register : Register) : CellType := kind_cell_type (reg_kind register).

Definition collect_scripts (device : DeviceConfig) : list (ScriptDef ModbusTrigger) :=
  filter (λ s, sd_enabled s && negb (bool_decide (trim (sd_code s) = [])) = true)
    (dc_scripts device).

(** The store key of a register's device and kind. *)
Definition register_key (register : Register) : Key SlaveKey :=
  mkKey (mkSlaveKey (reg_slave_id register) (reg_kind register)).

Definition kind_cell_kind (kind : Kind) (ty : CellType) : CellKind :=
  match kind with
  | K_Coil | K_HoldingRegister => CellKind_read_write ty
  | K_DiscreteInput | K_InputRegister => CellKind_read ty
  end.

Definition register_mem_binding (register : Register)
  : Outcome (option (CellKind * Key SlaveKey * Range)) :=
  match reg_address register with
  | Virtual => Ret None
  | Fixed addr =>
      range ← Range_new addr (Z.of_nat (Format_width (reg_format register)));
      Ret (Some (kind_cell_kind (reg_kind register) (mem_type register),
                 register_key register, range))
  end.

Definition write_command (register : Register) (slave : UnitId) (addr : Z) (raw : list Z)
  : Command :=
  match reg_kind register with
  | K_Coil | K_DiscreteInput =>
      match raw with
      | [v] => CMD_WriteSingleCoil slave addr (negb (v =? 0))
      | _ => CMD_WriteMultipleCoils slave addr ((λ v, negb (v =? 0)) <$> raw)
      end
  | K_HoldingRegister | K_InputRegister =>
      match raw with
      | [v] => CMD_WriteSingleRegister slave addr v
      | _ => CMD_WriteMultipleRegister slave addr raw
      end
  end.

(** ** Writing an edit back *)

Definition endian_cfg (e : Endian) : EndianCfg :=
  match e with E_Big => EC_Big | E_Little => EC_Little end.

Definition word_order_cfg (w : WordOrder) : WordOrderCfg :=
  match w with WO_Normal => WC_Normal | WO_Reversed => WC_Reversed end.

Definition int_value_type (kind : IntKind) : ValueType :=
  match kind with
  | IK_U8 => VT_U8 | IK_U16 => VT_U16 | IK_U32 => VT_U32 | IK_U64 => VT_U64 | IK_U128 => VT_U128
  | IK_I8 => VT_I8 | IK_I16 => VT_I16 | IK_I32 => VT_I32 | IK_I64 => VT_I64 | IK_I128 => VT_I128
  end.

(** The fields the format decides: type, byte and word order, resolution,
    bit mask, length, alignment. [{:X}] pads to nothing. *)
Definition sync_format (def : RegisterDef) (format : Format)
  : ValueType * EndianCfg * WordOrderCfg * Z * option (list Z) * nat * AlignmentCfg :=
  match format with
  | F_Numeric nf =>
      (int_value_type (nf_kind nf), endian_cfg (nf_endian nf), word_order_cfg (nf_word_order nf),
       res_bits (nf_resolution nf),
       if BitField_is_full (nf_bit_field nf) then None
       else Some (bytes_of "0x" ++ hex_padded (bf_mask (nf_bit_field nf)) 0),
       rd_length def, rd_alignment def)
  | F_Float ff =>
      (match ff_kind ff with FK_F32 => VT_F32 | FK_F64 => VT_F64 end,
       endian_cfg (ff_endian ff), word_order_cfg (ff_word_order ff),
       res_bits (ff_resolution ff), None, rd_length def, rd_alignment def)
  | F_Ascii align width =>
      (VT_Ascii, rd_endian def, rd_word_order def, rd_resolution def, None, width,
       match align with AL_Left => LC_Left | AL_Right => LC_Right end)
  end.

Definition sync_register_def (def : RegisterDef) (register : Register) : RegisterDef :=
  let access :=
    match reg_access register with
    | RA_ReadOnly => AC_ReadOnly | RA_WriteOnly => AC_WriteOnly | RA_ReadWrite => AC_ReadWrite
    end in
  let '(address, is_virtual) :=
    match reg_address register with Fixed addr => (Some addr, false) | Virtual => (None, true) end in
  let '(value_type, endian, word_order, resolution, bitmask, length, alignment) :=
    sync_format def (reg_format register) in
  mkRegisterDef (reg_slave_id register) (reg_kind register) address is_virtual access value_type
    endian word_order resolution bitmask length alignment (rd_values def) (rd_update def)
    (rd_description def) (rd_default def).

(** ** Properties *)

(** What a register's type guarantees of its mask. *)
Definition mask_ok (format : Format) : Prop :=
  match format with F_Numeric nf => is_uint 128 (bf_mask (nf_bit_field nf)) | _ => True end.

Lemma hex_graphic v n : 0 <= v <= 2 ^ 128 → Forall (λ b, 33 <= b <= 126) (hex_padded v n).
Proof.
  intros Hv. destruct (hex_padded_digits v n Hv) as (ds & -> & _ & Hds & _).
  apply list.Forall_forall. intros c (d & -> & Hd)%list_elem_of_fmap.
  rewrite list.Forall_forall in Hds. apply Hds in Hd. unfold digit_char.
  destruct (d <? 10) eqn:E; zbool; lia.
Qed.

(** A mask printed by [{:X}] is read back. *)
Lemma parse_bitmask_hex m :
  is_uint 128 m → parse_bitmask (Some (bytes_of "0x" ++ hex_padded m 0)) = mkBitField m.
Proof.
  intros Hm.
  assert (trim (bytes_of "0x" ++ hex_padded m 0) = bytes_of "0x" ++ hex_padded m 0) as Ht.
  { apply trim_graphic. change (bytes_of "0x") with [48; 120].
    constructor; [lia|]. constructor; [lia|].
    apply hex_graphic. unfold is_uint in Hm. lia. }
  unfold parse_bitmask. change (trim <$> Some (bytes_of "0x" ++ hex_padded m 0)) with
    (Some (trim (bytes_of "0x" ++ hex_padded m 0))). rewrite Ht.
  simpl. rewrite from_str_radix_hex; [done|lia|done].
Qed.

Lemma parse_bitmask_none : parse_bitmask None = BitField_default.
Proof. reflexivity. Qed.

Lemma format_int_from kind e w r bf a n :
  format_of (int_value_type kind) (endian_cfg e) (word_order_cfg w) r bf a n =
  F_Numeric (mkNumericFormat kind e w (mkResolution r) bf).
Proof. by destruct kind, e, w. Qed.

Lemma format_float_from kind e w r bf a n :
  format_of match kind with FK_F32 => VT_F32 | FK_F64 => VT_F64 end
    (endian_cfg e) (word_order_cfg w) r bf a n =
  F_Float (mkFloatFormat kind e w (mkResolution r)).
Proof. by destruct kind, e, w. Qed.

(** The format fields written back describe the format. *)
Lemma sync_format_ok (def : RegisterDef) (format : Format) :
  mask_ok format →
  let '(value_type, endian, word_order, resolution, bitmask, length, alignment) :=
    sync_format def format in
  format_of value_type endian word_order resolution (parse_bitmask bitmask) alignment length =
  format.
Proof.
  intros Hm. destruct format as [[k e w [r] [m]]|[k e w [r]]|align width]; simpl in *.
  - destruct (BitField_is_full (mkBitField m)) eqn:Hf; rewrite format_int_from; do 2 f_equal.
    + unfold BitField_is_full in Hf. simpl in Hf. zbool. by subst m.
    + by apply parse_bitmask_hex.
  - by rewrite format_float_from.
  - by destruct align.
Qed.

(** The definition an edited register is written back into describes it. *)
Lemma synced_register (def : RegisterDef) (register : Register) :
  mask_ok (reg_format register) →
  let def' := sync_register_def def register in
  RegisterDef_register def' = register ∧ rd_values def' = rd_values def ∧
  rd_description def' = rd_description def ∧ rd_default def' = rd_default def.
Proof.
  intros Hm. pose proof (sync_format_ok def (reg_format register) Hm) as Hf.
  unfold sync_register_def.
  destruct (sync_format def (reg_format register)) as [[[[[[vt e] w] r] bm] n] al].
  destruct register as [slave access kind address format]. simpl in Hf |- *.
  unfold RegisterDef_register, RegisterDef_format, RegisterDef_bitfield, RegisterDef_address.
  destruct address, access; simpl; by rewrite Hf.
Qed.

(** An edited register survives being saved: the definition it is written
    back into describes exactly that register again, whatever the definition
    said before, and keeps the values, the description and the default it had. *)
Theorem sync_register_roundtrip (def : RegisterDef) (register : Register) :
  mask_ok (reg_format register) →
  let def' := sync_register_def def register in
  RegisterDef_register def' = register ∧ rd_values def' = rd_values def ∧
  rd_description def' = rd_description def ∧ rd_default def' = rd_default def.
Proof. apply synced_register. Qed.

Definition demo_def : RegisterDef :=
  mkRegisterDef 1 K_Coil None true AC_ReadOnly VT_Ascii EC_Big WC_Normal 0 None 4 LC_Left [] None
    "limit" None.

Lemma sync_register_roundtrip_witness :
  let r := mkRegister 3 RA_ReadWrite K_HoldingRegister (Fixed 100)
             (Format_int IK_U32 E_Little WO_Reversed Resolution_default (mkBitField 0xFF00)) in
  RegisterDef_register (sync_register_def demo_def r) = r ∧
  rd_bitmask (sync_register_def demo_def r) = Some (bytes_of "0xFF00").
Proof.
  intros r. split; [|reflexivity]. apply (sync_register_roundtrip demo_def r).
  split; [discriminate|reflexivity].
Defined.

(** The strict check of a range text accepts exactly the texts the lenient
    parser takes whole: it names the first entry that parser would skip, and it
    panics when and only when that parser does, or after the entry it names. *)
Theorem range_check_agrees (spec : list Z) :
  match check_range_spec spec with
  | Panic => parse_ranges spec = Panic
  | Ret (Ok _) =>
      ∃ ranges, parse_ranges spec = Ret ranges ∧
        Forall2 (λ part r, parse_entry part = Ret (Some r)) (range_entries spec) ranges
  | Ret (Err part) =>
      ∃ before after, range_entries spec = before ++ part :: after ∧
        parse_entry part = Ret None ∧
        Forall (λ p, ∃ r, parse_entry p = Ret (Some r)) before
  end.
Proof.
  unfold check_range_spec, parse_ranges. induction (range_entries spec) as [|part l IH]; simpl.
  - exists []. by split.
  - unfold mbind in *. simpl. destruct (parse_entry part) as [[r|]|] eqn:Hp; simpl.
    + destruct (check_entries l) as [[u|bad]|]; simpl.
      * destruct IH as (rs & Hrs & Hf). rewrite Hrs. simpl. exists (r :: rs). split; [done|].
        by constructor.
      * destruct IH as (b & a & -> & Hb & Hf). exists (part :: b), a. split; [done|].
        split; [done|]. constructor; [by exists r|done].
      * by rewrite IH.
    + exists [], l. by split.
    + done.
Qed.

(** A range entry with a bound near the end of the address space panics, in
    the check of a text as it is typed too. *)
Theorem range_check_panics :
  check_range_spec (bytes_of "5-18446744073709551615") = Panic ∧
  check_range_spec (bytes_of "18446744073709551615") = Panic.
Proof. by split; vm_compute. Qed.

(** *** Migration *)

Definition script_names (scripts : list (ScriptDef ModbusTrigger)) : list string :=
  sd_name <$> scripts.

Lemma existsb_names (scripts : list (ScriptDef ModbusTrigger)) name :
  existsb (λ s, String.eqb (sd_name s) name) scripts = true ↔ name ∈ script_names scripts.
Proof.
  rewrite existsb_exists. unfold script_names. rewrite list_elem_of_fmap. split.
  - intros (s & Hin & He%String.eqb_eq). exists s. split; [done|]. by apply list_elem_of_In.
  - intros (s & -> & Hin). exists s. split; [by apply list_elem_of_In|by apply String.eqb_eq].
Qed.

Lemma migrate_step (scripts : list (ScriptDef ModbusTrigger)) name def :
  let scripts' := migrate_update scripts name def in
  prefix scripts scripts' ∧
  (∀ code, rd_update def = Some code → trim code ≠ [] → name ∈ script_names scripts') ∧
  (NoDup (script_names scripts) → NoDup (script_names scripts')).
Proof.
  unfold migrate_update. destruct (rd_update def) as [code|]; [|by split_and!].
  destruct (bool_decide (trim code = [])) eqn:Ht; simpl.
  { split_and!; try done. intros c [= <-] Hc. by apply bool_decide_eq_true in Ht. }
  pose proof (existsb_names scripts name) as Hn.
  destruct (existsb _ _); simpl; split_and!; try done.
  - intros c _ _. by apply Hn.
  - by apply prefix_app_r.
  - intros c _ _. unfold script_names. rewrite fmap_app. apply elem_of_app. right.
    apply list_elem_of_here.
  - intros Hnd. unfold script_names. rewrite fmap_app. apply NoDup_app.
    split; [done|]. split; [|apply NoDup_singleton].
    intros x Hx Hs%list_elem_of_singleton. subst x. by apply Hn in Hx.
Qed.

Lemma migrate_loop defs (scripts : list (ScriptDef ModbusTrigger)) :
  let scripts' := foldl (λ scripts p, migrate_update scripts p.1 p.2) scripts defs in
  prefix scripts scripts' ∧
  (∀ name def code, (name, def) ∈ defs → rd_update def = Some code → trim code ≠ [] →
     name ∈ script_names scripts') ∧
  (NoDup (script_names scripts) → NoDup (script_names scripts')).
Proof.
  revert scripts. induction defs as [|[name def] defs IH]; intros scripts.
  { split_and!; [done| |done]. intros name def code Hin. by apply elem_of_nil in Hin. }
  simpl. destruct (migrate_step scripts name def) as (H1 & H2 & H3).
  destruct (IH (migrate_update scripts name def)) as (H4 & H5 & H6). split_and!.
  - by etransitivity.
  - intros name' def' code [[= <- <-]|Hin]%elem_of_cons Hu Ht; [|by eapply H5].
    specialize (H2 code Hu Ht). destruct H4 as [l Hl]. unfold script_names in *.
    rewrite Hl, fmap_app. apply elem_of_app. by left.
  - auto.
Qed.

(** Definitions without a snippet add no script. *)
Lemma migrate_loop_none defs (scripts : list (ScriptDef ModbusTrigger)) :
  Forall (λ p, rd_update p.2 = None) defs →
  foldl (λ scripts p, migrate_update scripts p.1 p.2) scripts defs = scripts.
Proof.
  induction 1 as [|[name def] defs Hn _ IH]; [done|]. simpl in *.
  unfold migrate_update at 2. by rewrite Hn.
Qed.

Lemma clear_update_none (defs : list (string * RegisterDef)) :
  Forall (λ p, rd_update p.2 = None) ((λ p, (p.1, clear_update p.2)) <$> defs).
Proof. apply list.Forall_forall. by intros p (q & -> & _)%list_elem_of_fmap. Qed.

(** Migrating legacy snippets loses none of them: the scripts that were there
    stay, every definition with a snippet that is not blank ends up with a script
    of its name, names stay distinct, no definition keeps a snippet, and
    migrating once more changes nothing. *)
Theorem migrate_keeps_scripts (device : DeviceConfig) :
  let device' := migrate_update_scripts device in
  prefix (dc_scripts device) (dc_scripts device') ∧
  (∀ name def code, (name, def) ∈ dc_definitions device → rd_update def = Some code →
     trim code ≠ [] → name ∈ script_names (dc_scripts device')) ∧
  (NoDup (script_names (dc_scripts device)) → NoDup (script_names (dc_scripts device'))) ∧
  Forall (λ p, rd_update p.2 = None) (dc_definitions device') ∧
  migrate_update_scripts device' = device'.
Proof.
  intros device'. destruct (migrate_loop (dc_definitions device) (dc_scripts device))
    as (H1 & H2 & H3). split_and!; [done|done|done|apply clear_update_none|].
  unfold device'. unfold migrate_update_scripts at 1. simpl.
  rewrite migrate_loop_none by apply clear_update_none.
  unfold migrate_update_scripts. f_equal.
  rewrite <-list_fmap_compose. by apply list_fmap_ext.
Qed.
