(* ===== verification/ReadPlan.v ===== *)
(** * Planning the reads of a module

    Models [ferrowl/src/module/modbus/build.rs]: the batched read operations a
    client polls, the gap cells explicit read ranges need, and the values a
    register starts with. A span is a pair of [usize] bounds. *)

From stdpp Require Import base sorting list numbers strings.
From S2P Require Import Prelude BTree Slice Bytes IntText Text Format Codec Memory Key DeviceConfig Registers.

Local Open Scope Z_scope.

(** A row of the module's register list: name, label, register, named values. *)
Definition RegisterRow : Type := string * string * Register * list NamedValue.

Definition row_register (row : RegisterRow) : Register := let '(_, _, register, _) := row in register.

(** ** Values *)

Definition default_value (register : Register) : Value :=
  match Register_decode register (replicate (Format_width (reg_format register)) 0) with
  | Ok value => value
  | Err _ => V_Ascii []
  end.

(** The bit pattern of [1.0]. *)
Definition one_bits : Z := 0x3FF0000000000000.

Definition str_to_value (parse_f64 : list Z → option Z) (s : list Z) (register : Register)
  : Value :=
  let res :=
    match Format_resolution (reg_format register) with
    | Some r => res_bits r
    | None => one_bits
    end in
  Scalar_to_value (Scalar_from_input parse_f64 s) res.

(** ** Spans *)

Abbreviation span := (Z * Z)%type.

Definition span_lt (a b : span) : Prop := a.1 < b.1 ∨ (a.1 = b.1 ∧ a.2 < b.2).

#[export] Instance span_lt_dec : RelDecision span_lt.
Proof. intros a b. unfold span_lt. tc_solve. Defined.

#[export] Instance span_key_order : KeyOrder span.
Proof.
  refine {| key_lt := span_lt |}.
  - split.
    + intros a. unfold complement, span_lt. lia.
    + intros a b c. unfold span_lt. lia.
  - intros [a1 a2] [b1 b2]. unfold span_lt; simpl.
    destruct (decide (a1 = b1)) as [->|]; [|lia].
    destruct (decide (a2 = b2)) as [->|]; [auto|lia].
Defined.

Definition span_le (a b : span) : Prop := a.1 < b.1 ∨ (a.1 = b.1 ∧ a.2 <= b.2).

#[export] Instance span_le_dec : RelDecision span_le.
Proof. intros a b. unfold span_le. tc_solve. Defined.

(** [sort_unstable]: equal spans are interchangeable. *)
Definition sort_spans (spans : list span) : list span := merge_sort span_le spans.

(** [merge_spans]; [out] is kept in reverse. *)
Definition merge_step (out : list span) (s : span) : list span :=
  match out with
  | last :: out' =>
      if s.1 <=? last.2 then (last.1, Z.max last.2 s.2) :: out' else s :: out
  | [] => [s]
  end.

Definition merge_spans (spans : list span) : list span := reverse (foldl merge_step [] spans).

(** [subtract_spans]: its loop from [cur] on. *)
Fixpoint subtract_loop (covered : list span) (cur end_ : Z) : Outcome (list Range) :=
  match covered with
  | [] => if cur <? end_ then gap ← Range_new cur (end_ - cur); Ret [gap] else Ret []
  | (cs, ce) :: covered' =>
      if (ce <=? cur) || (end_ <=? cs) then subtract_loop covered' cur end_
      else
        gap ← (if cur <? cs then gap ← Range_new cur (cs - cur); Ret [gap] else Ret []);
        let cur := Z.max cur ce in
        rest ← (if end_ <=? cur then Ret [] else subtract_loop covered' cur end_);
        Ret (gap ++ rest)
  end.

Definition subtract_spans (start end_ : Z) (covered : list span) : Outcome (list Range) :=
  subtract_loop covered start end_.

(** ** Grouping *)

Definition function_code (register : Register) : FunctionCode :=
  match reg_kind register with
  | K_Coil => FC_ReadCoils
  | K_DiscreteInput => FC_ReadDiscreteInputs
  | K_HoldingRegister => FC_ReadHoldingRegisters
  | K_InputRegister => FC_ReadInputRegisters
  end.

Definition MAX_COILS_PER_READ : Z := 2000.
Definition MAX_REGISTERS_PER_READ : Z := 125.

Definition read_limit (fc : FunctionCode) : Z :=
  match fc with
  | FC_ReadCoils | FC_ReadDiscreteInputs => MAX_COILS_PER_READ
  | _ => MAX_REGISTERS_PER_READ
  end.

Definition fn_code_key (fc : FunctionCode) : Z :=
  match fc with
  | FC_ReadCoils => 1
  | FC_ReadDiscreteInputs => 2
  | FC_ReadHoldingRegisters => 3
  | FC_ReadInputRegisters => 4
  | _ => 0
  end.

(** Keyed by slave and function-code key. *)
Definition ReadableSpanGroups : Type := list (span * (FunctionCode * Kind * list span)).

(** [groups.entry(key).or_insert_with(..).2.push(span)]. *)
Definition push_span (groups : ReadableSpanGroups) (key : span) (fc : FunctionCode) (kind : Kind)
    (s : span) : ReadableSpanGroups :=
  match bt_get key groups with
  | None => bt_insert key (fc, kind, [s]) groups
  | Some (fc', kind', spans) => bt_insert key (fc', kind', spans ++ [s]) groups
  end.

(** The span of a register, [usize] arithmetic. *)
Definition register_span (register : Register) (addr : Z) : span :=
  (addr, as_uint 64 (addr + Z.of_nat (Format_width (reg_format register)))).

Definition group_register (include_write_only : bool) (groups : ReadableSpanGroups)
    (register : Register) : ReadableSpanGroups :=
  match reg_address register with
  | Virtual => groups
  | Fixed addr =>
      if negb include_write_only && match reg_access register with RA_WriteOnly => true | _ => false end
      then groups
      else
        let fc := function_code register in
        push_span groups (reg_slave_id register, fn_code_key fc) fc (reg_kind register)
          (register_span register addr)
  end.

Definition group_readable_spans (registers : list RegisterRow) (include_write_only : bool)
  : ReadableSpanGroups :=
  foldl (λ groups row, group_register include_write_only groups (row_register row)) [] registers.

(** ** Batches *)

(** [partition_point] of a slice it partitions. *)
Fixpoint partition_point {A} (p : A → bool) (l : list A) : nat :=
  match l with
  | [] => 0
  | x :: l' => if p x then S (partition_point p l') else 0
  end.

(** [iter().position]. *)
Fixpoint position {A} (p : A → bool) (l : list A) : option nat :=
  match l with
  | [] => None
  | x :: l' => if p x then Some 0%nat else S <$> position p l'
  end.

Definition range_span (r : Range) : span := (r_start r, r_end r).

(** [get_or_insert((s, e))] and the updates of both bounds. *)
Definition widen_bound (s : span) (b : option span) : option span :=
  let b := default s b in Some (Z.min b.1 s.1, Z.max b.2 s.2).

Definition window_step (windows : list span) (acc : list (option span) * list span) (s : span)
  : list (option span) * list span :=
  match position (λ w, (s.1 <? w.2) && (w.1 <? s.2)) windows with
  | Some i => (alter (widen_bound s) i acc.1, acc.2)
  | None => (acc.1, acc.2 ++ [s])
  end.

(** The batches when explicit ranges are given; [spans] are sorted. *)
Definition explicit_batches (explicit : list Range) (spans : list span) : list span :=
  let windows := merge_spans (sort_spans (range_span <$> explicit)) in
  let '(bounds, uncovered) :=
    foldl (window_step windows) (replicate (length windows) None, []) spans in
  sort_spans (omap id bounds ++ sort_spans uncovered).

(** Where the request that starts at [s] ends; [spans] carries [reg_starts] and
    [reg_ends]. *)
Definition cut_point (limit : Z) (spans : list span) (s end_ : Z) : Z :=
  let naive_e := Z.min (as_uint 64 (s + limit)) end_ in
  if naive_e <? end_ then
    match partition_point (λ sp, sp.1 <? naive_e) spans with
    | O => naive_e
    | S i =>
        match spans !! i with
        | Some (rs, re) => if naive_e <? re then rs else naive_e
        | None => naive_e
        end
    end
  else naive_e.

(** The [while] loop of one batch; [None]: the fuel is used up. [e - s] is a
    [usize]. *)
Fixpoint split_batch (fuel : nat) (limit : Z) (spans : list span) (s end_ : Z)
  : Outcome (option (list Range)) :=
  if s <? end_ then
    match fuel with
    | O => Ret None
    | S fuel' =>
        let e := cut_point limit spans s end_ in
        range ← Range_new s (as_uint 64 (e - s));
        rest ← split_batch fuel' limit spans e end_;
        Ret (option_map (cons range) rest)
    end
  else Ret (Some []).

(** Each part of a plan in turn; one that never ends leaves no plan. *)
Fixpoint plan_all {A B} (f : A → Outcome (option (list B))) (l : list A)
  : Outcome (option (list B)) :=
  match l with
  | [] => Ret (Some [])
  | x :: l' =>
      ops ← f x;
      match ops with
      | None => Ret None
      | Some ops => rest ← plan_all f l'; Ret (option_map (app ops) rest)
      end
  end.

Definition group_batches (explicit : list Range) (spans : list span) : list span :=
  match explicit with [] => spans | _ => explicit_batches explicit spans end.

Definition group_operations (fuel : nat) (read_ranges : ReadRanges)
    (group : span * (FunctionCode * Kind * list span)) : Outcome (option (list Operation)) :=
  let '((slave, _), (fc, kind, spans)) := group in
  let limit := read_limit fc in
  let spans := sort_spans spans in
  explicit ← ranges_for read_ranges kind;
  ranges ← plan_all (λ b, split_batch fuel limit spans b.1 b.2) (group_batches explicit spans);
  Ret (option_map (map (mkOperation slave fc)) ranges).

Definition build_read_operations (fuel : nat) (registers : list RegisterRow)
    (read_ranges : ReadRanges) : Outcome (option (list Operation)) :=
  plan_all (group_operations fuel read_ranges) (group_readable_spans registers false).

(** ** Declarations *)

(** [declare_or_reject_msg]; the error carries the subject and the range of the
    warning. *)
Definition declare_or_reject_msg {Tap} (memory : Memory (Key SlaveKey) Tap) (key : Key SlaveKey)
    (kind : CellKind) (range : Range) (subject : list Z)
  : Outcome (Result unit (list Z * Range) * Memory (Key SlaveKey) Tap) :=
  '(ok, memory) ← Memory_add_ranges memory key kind [range];
  Ret (if (ok : bool) then Ok tt else Err (subject, range), memory).

(** The gaps of one group. *)
Definition group_coverage (read_ranges : ReadRanges)
    (group : span * (FunctionCode * Kind * list span))
  : Outcome (list (Key SlaveKey * CellKind * Range)) :=
  let '((slave, _), (_, kind, spans)) := group in
  explicit ← ranges_for read_ranges kind;
  let covered := merge_spans (sort_spans spans) in
  let key := mkKey (mkSlaveKey slave kind) in
  foldr (λ r rest,
    gaps ← subtract_spans (r_start r) (r_end r) covered;
    rest ← rest;
    Ret (((λ gap, (key, CellKind_read (kind_cell_type kind), gap)) <$> gaps) ++ rest))
    (Ret []) explicit.

Definition explicit_read_coverage (registers : list RegisterRow) (read_ranges : ReadRanges)
  : Outcome (list (Key SlaveKey * CellKind * Range)) :=
  foldr (λ group rest,
    gaps ← group_coverage read_ranges group; rest ← rest; Ret (gaps ++ rest))
    (Ret []) (group_readable_spans registers true).
