(* ===== verification/ReadPlanProps.v ===== *)
(** * Properties of the read plan

    What [build_read_operations] and [explicit_read_coverage] promise each
    other, the registers and the protocol. *)

From stdpp Require Import base sorting list sets numbers strings.
From S2P Require Import Prelude BTree Slice Bytes IntText Text Format Codec Memory Key DeviceConfig Registers ReadPlan.

Local Open Scope Z_scope.

(** ** Spans as sets of addresses *)

Definition in_span (x : Z) (s : span) : Prop := s.1 <= x < s.2.

Definition in_spans (x : Z) (l : list span) : Prop := ∃ s, s ∈ l ∧ in_span x s.

#[export] Instance in_span_dec x s : Decision (in_span x s).
Proof. unfold in_span. tc_solve. Defined.

Lemma in_spans_dec x l : in_spans x l ∨ ¬ in_spans x l.
Proof.
  destruct (decide (Exists (in_span x) l)) as [H|H]; rewrite list.Exists_exists in H; auto.
Qed.

Lemma in_spans_nil x : ¬ in_spans x [].
Proof. intros (s & Hs & _). by apply not_elem_of_nil in Hs. Qed.

Lemma in_spans_cons x s l : in_spans x (s :: l) ↔ in_span x s ∨ in_spans x l.
Proof.
  unfold in_spans. setoid_rewrite elem_of_cons. split.
  - intros (s' & [->|Hin] & Hx); [by left|by eauto].
  - intros [Hx|(s' & Hin & Hx)]; eauto.
Qed.

Lemma in_spans_perm x l k : l ≡ₚ k → in_spans x l ↔ in_spans x k.
Proof. intros Hp. unfold in_spans. by setoid_rewrite Hp. Qed.

(** Two spans with no address in common, neither inside the other. *)
Definition apart (a b : span) : Prop := a.2 <= b.1 ∨ b.2 <= a.1.

#[export] Instance span_le_trans : Transitive span_le.
Proof. intros a b c. unfold span_le. lia. Qed.

#[export] Instance span_le_total : Total span_le.
Proof. intros a b. unfold span_le. lia. Qed.

Lemma sort_spans_perm l : sort_spans l ≡ₚ l.
Proof. apply merge_sort_Permutation. Qed.

Lemma sort_spans_sorted l : StronglySorted span_le (sort_spans l).
Proof. apply (StronglySorted_merge_sort span_le). Qed.

Lemma elem_of_sort_spans s l : s ∈ sort_spans l ↔ s ∈ l.
Proof. by rewrite sort_spans_perm. Qed.

Lemma sorted_cons s l :
  StronglySorted span_le (s :: l) ↔ (∀ s', s' ∈ l → span_le s s') ∧ StronglySorted span_le l.
Proof.
  split.
  - intros [Hs Hall]%StronglySorted_inv. by rewrite list.Forall_forall in Hall.
  - intros [Hall Hs]. constructor; [done|]. by apply list.Forall_forall.
Qed.

(** The merged spans, most recent first, while the input is in order. *)
Lemma merge_loop (spans out : list span) :
  StronglySorted span_le spans →
  (∀ last, head out = Some last → ∀ s, s ∈ spans → last.1 <= s.1) →
  ∀ x, in_spans x (foldl merge_step out spans) ↔ in_spans x out ∨ in_spans x spans.
Proof.
  revert out. induction spans as [|s spans IH]; intros out Hs Hlast x; simpl.
  { pose proof (in_spans_nil x). tauto. }
  apply sorted_cons in Hs as [Hle Hs]. rewrite IH; [|done|].
  - rewrite in_spans_cons. destruct out as [|last out]; simpl; rewrite ?in_spans_cons.
    { tauto. }
    specialize (Hlast last eq_refl s (list_elem_of_here _ _)). zcase; rewrite !in_spans_cons.
    + unfold in_span; simpl. split; intros; destruct_or?; auto; lia.
    + tauto.
  - intros last Hh s' Hin. specialize (Hle s' Hin). unfold span_le in Hle.
    destruct out as [|l0 out]; simpl in Hh; [simplify_eq; lia|].
    specialize (Hlast l0 eq_refl s (list_elem_of_here _ _)).
    zcase; simpl in Hh; simplify_eq; simpl; lia.
Qed.

(** Merging keeps the addresses and the order. *)
Lemma merge_spans_in x spans :
  StronglySorted span_le spans → in_spans x (merge_spans spans) ↔ in_spans x spans.
Proof.
  intros Hs. unfold merge_spans. rewrite (in_spans_perm _ _ _ (reverse_Permutation _)).
  rewrite merge_loop; [|done|done]. pose proof (in_spans_nil x). tauto.
Qed.

Lemma merge_loop_sorted (spans out : list span) :
  StronglySorted span_le spans →
  StronglySorted (λ a b, b.1 <= a.1) out →
  (∀ last, head out = Some last → ∀ s, s ∈ spans → last.1 <= s.1) →
  StronglySorted (λ a b, b.1 <= a.1) (foldl merge_step out spans).
Proof.
  revert out. induction spans as [|s spans IH]; intros out Hs Ho Hlast; simpl; [done|].
  apply sorted_cons in Hs as [Hle Hs]. apply IH; [done| |].
  - destruct out as [|last out]; simpl; [repeat constructor|].
    specialize (Hlast last eq_refl s (list_elem_of_here _ _)).
    apply StronglySorted_inv in Ho as [Ho Hall].
    zcase; constructor; try done; [by constructor|].
    constructor; [done|]. eapply list.Forall_impl; [done|]. simpl. lia.
  - intros last Hh s' Hin. specialize (Hle s' Hin). unfold span_le in Hle.
    destruct out as [|l0 out]; simpl in Hh; [simplify_eq; lia|].
    specialize (Hlast l0 eq_refl s (list_elem_of_here _ _)).
    zcase; simpl in Hh; simplify_eq; simpl; lia.
Qed.

Lemma merge_spans_sorted spans :
  StronglySorted span_le spans → StronglySorted (λ a b, a.1 <= b.1) (merge_spans spans).
Proof.
  intros Hs. unfold merge_spans.
  pose proof (merge_loop_sorted spans [] Hs ltac:(constructor) ltac:(done)) as Ho.
  induction Ho as [|s l Hl IH Hall]; [constructor|].
  rewrite reverse_cons. apply StronglySorted_app. split_and!; [|done|repeat constructor].
  intros a b Ha Hb%list_elem_of_singleton. rewrite elem_of_reverse in Ha. subst b.
  rewrite list.Forall_forall in Hall. exact (Hall a Ha).
Qed.

(** A merged span starts where one of the spans does. *)
Lemma merge_loop_starts (spans out : list span) s :
  s ∈ foldl merge_step out spans → ∃ s', s' ∈ out ++ spans ∧ s.1 = s'.1.
Proof.
  revert out. induction spans as [|s0 spans IH]; intros out; simpl.
  { rewrite app_nil_r. eauto. }
  intros (s' & [Hin|Hin]%elem_of_app & ->)%IH.
  2:{ exists s'. split; [|done]. apply elem_of_app. right. by apply elem_of_cons; right. }
  destruct out as [|last out]; simpl in Hin.
  { apply list_elem_of_singleton in Hin as ->. exists s0. split; [apply list_elem_of_here|done]. }
  destruct (s0.1 <=? last.2); apply elem_of_cons in Hin as [->|Hin]; simpl.
  - exists last. split; [apply list_elem_of_here|done].
  - exists s'. split; [|done]. apply elem_of_cons. right. apply elem_of_app. by left.
  - exists s0. split; [|done]. apply elem_of_cons. right. apply elem_of_app. right.
    apply list_elem_of_here.
  - exists s'. split; [|done]. apply elem_of_cons. apply elem_of_cons in Hin as [->|?]; [by left|].
    right. apply elem_of_app. by left.
Qed.

Lemma merge_spans_starts spans s : s ∈ merge_spans spans → ∃ s', s' ∈ spans ∧ s.1 = s'.1.
Proof. unfold merge_spans. rewrite elem_of_reverse. apply merge_loop_starts. Qed.

(** The gaps are what the covered spans leave. *)
Lemma subtract_loop_spec (covered : list span) (cur end_ : Z) :
  StronglySorted (λ a b, a.1 <= b.1) covered → 0 <= cur → end_ <= usize_max →
  Forall (λ s, s.1 <= usize_max) covered →
  ∃ gaps, subtract_loop covered cur end_ = Ret gaps ∧
    ∀ x, (∃ g, g ∈ gaps ∧ in_range x g) ↔ cur <= x < end_ ∧ ¬ in_spans x covered.
Proof.
  intros Hs. revert cur. induction Hs as [|[cs ce] covered Hs IH Hall]; intros cur Hc He Hb; simpl.
  { zcase.
    - rewrite Range_new_Ret by lia. simpl. eexists. split; [done|]. intros x.
      setoid_rewrite list_elem_of_singleton. split.
      + intros (g & -> & Hx). unfold in_range, Range_span in Hx. simpl in Hx.
        split; [lia|apply in_spans_nil].
      + intros [Hx _]. eexists. split; [done|]. unfold in_range, Range_span. simpl. lia.
    - exists []. split; [done|]. intros x. split; [|lia].
      by intros (g & Hg%not_elem_of_nil & _). }
  apply list.Forall_cons in Hb as [Hcs Hb]. simpl in Hcs.
  assert (∀ x, x < cs → ¬ in_spans x covered) as Hbefore.
  { intros x Hx (s & Hin & Hxs). rewrite list.Forall_forall in Hall. specialize (Hall s Hin).
    unfold in_span in Hxs. simpl in *. lia. }
  setoid_rewrite in_spans_cons. unfold in_span; simpl.
  destruct ((ce <=? cur) || (end_ <=? cs)) eqn:Hskip.
  { destruct (IH cur Hc He Hb) as (gaps & -> & Hg). exists gaps. split; [done|].
    intros x. rewrite Hg. assert (cur <= x < end_ → ¬ cs <= x < ce) as Hno.
    { apply orb_true_iff in Hskip as [?|?]; zbool; lia. }
    tauto. }
  apply orb_false_iff in Hskip as [Hk1 Hk2]; zbool.
  assert (∃ rest, (if end_ <=? Z.max cur ce then Ret [] else
      subtract_loop covered (Z.max cur ce) end_) = Ret rest ∧
      ∀ x, (∃ g, g ∈ rest ∧ in_range x g) ↔
        Z.max cur ce <= x < end_ ∧ ¬ in_spans x covered) as (rest & -> & Hrest).
  { zcase; [|apply IH; [lia|done|done]]. exists []. split; [done|]. intros x.
    split; [|lia]. by intros (g & Hg%not_elem_of_nil & _). }
  zcase.
  - rewrite Range_new_Ret by lia. simpl. eexists. split; [done|]. intros x.
    setoid_rewrite elem_of_cons. split.
    + intros (g & [->|Hin] & Hx).
      * unfold in_range, Range_span in Hx; simpl in Hx. split; [lia|].
        intros [?|?]; [lia|]. by apply (Hbefore x); [lia|].
      * destruct (proj1 (Hrest x)) as [Hx1 Hx2]; [by exists g|]. split; [lia|].
        intros [?|?]; [lia|done].
    + intros [Hx Hn]. destruct (decide (x < cs)).
      * eexists. split; [by left|]. unfold in_range, Range_span; simpl. lia.
      * destruct (proj2 (Hrest x)) as (g & Hg & Hxg); [|by eauto].
        split; [|tauto]. split; [|lia]. assert (¬ cs <= x < ce) by tauto. lia.
  - simpl. exists rest. split; [done|]. intros x. rewrite Hrest. split.
    + intros [Hx Hn]. split; [lia|]. intros [?|?]; [lia|done].
    + intros [Hx Hn]. split; [|tauto]. assert (¬ cs <= x < ce) by tauto. lia.
Qed.

(** ** One batch *)

Lemma partition_point_S {A} (p : A → bool) (l : list A) (i : nat) :
  partition_point p l = S i →
  ∃ x, l !! i = Some x ∧ p x = true ∧ ∀ y, l !! S i = Some y → p y = false.
Proof.
  revert i. induction l as [|x l IH]; intros i; simpl; [done|].
  destruct (p x) eqn:Hx; [|done]. intros [= Hl]. destruct i as [|i].
  - exists x. split_and!; [done|done|]. intros y Hy. destruct l as [|y' l]; [done|].
    simpl in Hl, Hy. simplify_eq. by destruct (p y).
  - exact (IH i Hl).
Qed.

Lemma partition_point_O {A} (p : A → bool) (l : list A) :
  partition_point p l = 0%nat → ∀ y, l !! 0%nat = Some y → p y = false.
Proof. destruct l as [|x l]; simpl; [done|]. destruct (p x) eqn:Hx; [done|]. by intros _ y [= <-]. Qed.

Section batch.
Context (limit : Z) (spans : list span).
Context (Hlimit : 0 < limit <= 65536).
Context (Hsorted : StronglySorted span_le spans).
Context (Hwidth : ∀ s, s ∈ spans → 0 <= s.1 <= s.2 ∧ s.2 <= s.1 + limit ∧ s.2 <= 2 ^ 18).

Lemma sorted_lookup (i j : nat) (a b : span) :
  (i <= j)%nat → spans !! i = Some a → spans !! j = Some b → span_le a b.
Proof.
  intros Hij Ha Hb. destruct (decide (i = j)) as [->|Hne].
  { simplify_eq. unfold span_le. lia. }
  rewrite <-(take_drop j spans) in Hsorted.
  apply StronglySorted_app in Hsorted as (Hle & _ & _). apply Hle.
  - apply list_elem_of_lookup_2 with i. rewrite lookup_take_lt; [done|lia].
  - apply list_elem_of_lookup_2 with 0%nat. by rewrite lookup_drop, Nat.add_0_r.
Qed.

(** The register the cut looks at is the last that starts before it. *)
Lemma last_before (x : Z) :
  (partition_point (λ sp, sp.1 <? x) spans = 0%nat ∧ ∀ r, r ∈ spans → x <= r.1) ∨
  ∃ i r0, partition_point (λ sp, sp.1 <? x) spans = S i ∧ spans !! i = Some r0 ∧ r0 ∈ spans ∧
    r0.1 < x ∧ ∀ r, r ∈ spans → r.1 < x → span_le r r0.
Proof.
  destruct (partition_point (λ sp, sp.1 <? x) spans) as [|i] eqn:Hp; [left|right].
  - split; [done|]. intros r [j Hj]%list_elem_of_lookup_1.
    destruct (spans !! 0%nat) as [y|] eqn:Hy; [|by destruct spans].
    pose proof (partition_point_O _ _ Hp y Hy) as Hlt. simpl in Hlt. zbool.
    pose proof (sorted_lookup 0 j y r ltac:(lia) Hy Hj) as Hle. unfold span_le in Hle. lia.
  - destruct (partition_point_S _ _ _ Hp) as (r0 & Hr0 & Hlt & Hnext). simpl in Hlt. zbool.
    exists i, r0. split_and!; [done|done|by eapply list_elem_of_lookup_2|done|].
    intros r [j Hj]%list_elem_of_lookup_1 Hr. destruct (decide (j <= i)%nat) as [Hij|Hij].
    { by apply (sorted_lookup j i). }
    destruct (spans !! S i) as [y|] eqn:Hy.
    2:{ apply lookup_ge_None_1 in Hy. apply lookup_lt_Some in Hj. exfalso. lia. }
    specialize (Hnext y eq_refl). simpl in Hnext. zbool.
    pose proof (sorted_lookup (S i) j y r ltac:(lia) Hy Hj) as Hle. unfold span_le in Hle. exfalso. lia.
Qed.

(** The cut makes progress within the limit, and splits no register when the
    registers are apart. *)
Lemma cut_point_spec (s end_ : Z) :
  0 <= s < end_ → end_ <= 2 ^ 18 →
  let e := cut_point limit spans s end_ in
  s < e <= end_ ∧ e - s <= limit ∧
  ((∀ a b, a ∈ spans → b ∈ spans → a = b ∨ apart a b) → e < end_ →
   ∀ r, r ∈ spans → r.1 < e → r.2 <= e).
Proof.
  intros Hs He. unfold cut_point. rewrite (as_uint_small 64 (s + limit)) by (unfold is_uint; lia).
  zcase; [|simpl; lia].
  destruct (last_before (Z.min (s + limit) end_)) as [[-> Hnone]|(i & r0 & -> & -> & Hin & Hlt & Hlast)].
  { simpl. split_and!; try lia. intros _ _ r Hr. specialize (Hnone r Hr). lia. }
  destruct r0 as [rs re]. pose proof (Hwidth _ Hin) as Hw. simpl in Hw, Hlt.
  zcase; simpl; split_and!; try lia; intros Hap Hend r Hr Hre;
    specialize (Hap r _ Hr Hin); specialize (Hlast r Hr); unfold span_le, apart in *;
    destruct Hap as [->|Hap]; simpl in *; lia.
Qed.

(** The requests of one batch. *)
Lemma split_batch_spec (fuel : nat) (s end_ : Z) :
  0 <= s → end_ <= 2 ^ 18 → end_ - s <= Z.of_nat fuel →
  ∃ ranges, split_batch fuel limit spans s end_ = Ret (Some ranges) ∧
    Forall (λ r, 0 < Range_length r <= limit ∧ s <= r_start r ∧ r_end r <= end_) ranges ∧
    ((∀ a b, a ∈ spans → b ∈ spans → a = b ∨ apart a b) →
     ∀ r, r ∈ spans → s <= r.1 < r.2 → r.2 <= end_ →
       ∃ range, range ∈ ranges ∧ r_start range <= r.1 ∧ r.2 <= r_end range).
Proof.
  revert s. induction fuel as [|fuel IH]; intros s Hs He Hf; simpl.
  { rewrite (proj2 (Z.ltb_ge _ _)) by lia. exists []. split_and!; [done|done|]. intros; lia. }
  zcase; [|exists []; split_and!; [done|done|]; intros; lia].
  destruct (cut_point_spec s end_) as (Hlt & Hlen & Hcut); [lia|done|].
  set (e := cut_point limit spans s end_) in *.
  rewrite as_uint_small by (unfold is_uint; lia).
  rewrite Range_new_Ret by (unfold usize_max; lia).
  destruct (IH e) as (ranges & Hr & Hall & Hcov); [lia|lia|lia|]. simpl. rewrite Hr. simpl.
  eexists. split; [done|]. split.
  { constructor.
    - unfold Range_length, Range_span. simpl. lia.
    - eapply list.Forall_impl; [done|]. simpl. lia. }
  intros Hap r Hin Hr1 Hr2. destruct (decide (r.1 < e)).
  - eexists. split; [apply list_elem_of_here|]. unfold Range_span. simpl. split; [lia|].
    destruct (decide (e < end_)); [|lia]. specialize (Hcut Hap ltac:(lia) r Hin). lia.
  - destruct (Hcov Hap r Hin) as (range & Hrange & Hc); [lia|lia|]. exists range.
    split; [by apply list_elem_of_further|done].
Qed.
End batch.

(** ** Explicit ranges *)

Definition overlaps (s w : span) : Prop := s.1 < w.2 ∧ w.1 < s.2.

Lemma position_Some {A} (p : A → bool) (l : list A) (i : nat) :
  position p l = Some i → ∃ x, l !! i = Some x ∧ p x = true.
Proof.
  revert i. induction l as [|x l IH]; intros i; simpl; [done|].
  destruct (p x) eqn:Hx; [intros [= <-]; by exists x|].
  destruct (position p l) as [j|] eqn:Hp; [|done]. intros [= <-]. by apply IH.
Qed.

(** What a window has gathered: from the start of one register that overlaps it
    to the end of another. *)
Definition gathered (seen : list span) (w b : span) : Prop :=
  ∃ a c, a ∈ seen ∧ c ∈ seen ∧ overlaps a w ∧ overlaps c w ∧ b = (a.1, c.2).

Definition window_inv (windows seen : list span) (acc : list (option span) * list span) : Prop :=
  length acc.1 = length windows ∧
  (∀ i b, acc.1 !! i = Some (Some b) → ∃ w, windows !! i = Some w ∧ gathered seen w b) ∧
  (∀ s, s ∈ acc.2 → s ∈ seen) ∧
  (∀ s, s ∈ seen → s ∈ acc.2 ∨
     ∃ i b, acc.1 !! i = Some (Some b) ∧ b.1 <= s.1 ∧ s.2 <= b.2).

Lemma gathered_more seen s w b : gathered seen w b → gathered (seen ++ [s]) w b.
Proof.
  intros (a & c & Ha & Hc & H). exists a, c. rewrite !elem_of_app. tauto.
Qed.

Lemma widen_bound_gathered seen s w b :
  overlaps s w → (∀ b', b = Some b' → gathered seen w b') →
  ∃ b', widen_bound s b = Some b' ∧ gathered (seen ++ [s]) w b' ∧
    b'.1 <= s.1 ∧ s.2 <= b'.2 ∧ (∀ b0, b = Some b0 → b'.1 <= b0.1 ∧ b0.2 <= b'.2).
Proof.
  intros Hs Hb. unfold widen_bound. eexists. split; [done|]. simpl.
  destruct b as [b|]; simpl; (split; [|split_and!; try lia; intros b0 [= <-]; lia]).
  - destruct (Hb b eq_refl) as (a & c & Ha & Hc & Hoa & Hoc & ->). simpl.
    exists (if a.1 <=? s.1 then a else s), (if s.2 <=? c.2 then c else s).
    rewrite !elem_of_app, !list_elem_of_singleton.
    destruct (a.1 <=? s.1) eqn:E1, (s.2 <=? c.2) eqn:E2; zbool; split_and!;
      try tauto; f_equal; lia.
  - exists s, s. rewrite !elem_of_app, !list_elem_of_singleton.
    split_and!; try tauto. f_equal; lia.
Qed.

Lemma window_step_inv windows seen acc s :
  window_inv windows seen acc → window_inv windows (seen ++ [s]) (window_step windows acc s).
Proof.
  intros (Hlen & Hb & Hu & Hc). unfold window_step.
  destruct (position _ windows) as [i|] eqn:Hp.
  - destruct (position_Some _ _ _ Hp) as (w & Hw & Ho). simpl in Ho. zbool.
    destruct (acc.1 !! i) as [b|] eqn:Hi.
    2:{ apply lookup_ge_None_1 in Hi. apply lookup_lt_Some in Hw. lia. }
    destruct (widen_bound_gathered seen s w b) as (b' & Hb' & Hg & H1 & H2 & H3).
    { by split. }
    { intros b0 ->. destruct (Hb i b0 Hi) as (w' & Hw' & Hg). by simplify_eq. }
    split_and!; simpl.
    + by rewrite length_alter.
    + intros j bj. rewrite list_lookup_alter. case_decide as Hij; [subst j|].
      * rewrite Hi. simpl. rewrite Hb'. intros [= <-]. by exists w.
      * intros Hj. destruct (Hb j bj Hj) as (wj & Hwj & Hgj). exists wj.
        split; [done|by apply gathered_more].
    + intros x Hx. apply elem_of_app. left. by apply Hu.
    + intros x [Hx| ->%list_elem_of_singleton]%elem_of_app.
      * destruct (Hc x Hx) as [?|(j & bj & Hj & Hj1 & Hj2)]; [by left|right].
        destruct (decide (j = i)) as [->|Hne].
        -- simplify_eq. exists i, b'. rewrite list_lookup_alter, decide_True, Hi by done.
           simpl. rewrite Hb'. destruct (H3 bj eq_refl). split_and!; [done|lia|lia].
        -- exists j, bj. rewrite list_lookup_alter, decide_False by congruence. done.
      * right. exists i, b'. rewrite list_lookup_alter, decide_True, Hi by done. simpl.
        by rewrite Hb'.
  - split_and!; simpl; [done| | |].
    + intros i b Hi. destruct (Hb i b Hi) as (w & Hw & Hg). exists w.
      split; [done|by apply gathered_more].
    + intros x [Hx|Hx]%elem_of_app; apply elem_of_app; [left; by apply Hu|by right].
    + intros x [Hx|Hx]%elem_of_app; [|left; apply elem_of_app; by right].
      destruct (Hc x Hx) as [?|?]; [left; apply elem_of_app; by left|by right].
Qed.

Lemma window_fold_inv windows spans :
  window_inv windows spans
    (foldl (window_step windows) (replicate (length windows) None, []) spans).
Proof.
  induction spans as [|s spans IH] using rev_ind.
  - split_and!; simpl; [by rewrite length_replicate| |by intros s ?%not_elem_of_nil|].
    + intros i b Hi. by apply lookup_replicate in Hi as [? _].
    + by intros s ?%not_elem_of_nil.
  - rewrite foldl_snoc. by apply window_step_inv.
Qed.

Definition windows_of (explicit : list Range) : list span :=
  merge_spans (sort_spans (range_span <$> explicit)).

(** A batch is a register or what a window gathered, and each register is inside
    a batch. *)
Lemma group_batches_spec (explicit : list Range) (spans : list span) :
  (∀ b, b ∈ group_batches explicit spans →
     b ∈ spans ∨ ∃ w, w ∈ windows_of explicit ∧ gathered spans w b) ∧
  (∀ s, s ∈ spans → ∃ b, b ∈ group_batches explicit spans ∧ b.1 <= s.1 ∧ s.2 <= b.2).
Proof.
  unfold group_batches. destruct explicit as [|r explicit'].
  { split; [by left|]. intros s Hs. exists s. split; [done|lia]. }
  set (explicit := r :: explicit'). unfold explicit_batches. fold (windows_of explicit).
  pose proof (window_fold_inv (windows_of explicit) spans) as (_ & Hb & Hu & Hc).
  destruct (foldl _ _ spans) as [bounds uncovered]. simpl in *. split.
  - intros b. rewrite elem_of_sort_spans, elem_of_app, elem_of_sort_spans, list_elem_of_omap.
    intros [([b'|] & Hb' & Hid)|Hin]; [|done|left; by apply Hu]. simpl in Hid. simplify_eq.
    apply list_elem_of_lookup_1 in Hb' as [i Hi]. destruct (Hb i b Hi) as (w & Hw & Hg).
    right. exists w. split; [by eapply list_elem_of_lookup_2|done].
  - intros s Hs. destruct (Hc s Hs) as [Hin|(i & b & Hi & Hle)].
    + exists s. rewrite elem_of_sort_spans, elem_of_app, elem_of_sort_spans.
      split; [by right|lia].
    + exists b. rewrite elem_of_sort_spans, elem_of_app, list_elem_of_omap.
      split; [left|done]. exists (Some b). split; [by eapply list_elem_of_lookup_2|done].
Qed.

(** The windows hold the addresses of the ranges. *)
Lemma windows_of_in x explicit :
  in_spans x (windows_of explicit) ↔ ∃ r, r ∈ explicit ∧ in_range x r.
Proof.
  unfold windows_of. rewrite merge_spans_in by apply sort_spans_sorted.
  rewrite (in_spans_perm _ _ _ (sort_spans_perm _)). unfold in_spans, in_range, in_span.
  split.
  - intros (s & (r & -> & Hr)%list_elem_of_fmap & Hx). by exists r.
  - intros (r & Hr & Hx). exists (range_span r). split; [|done]. apply list_elem_of_fmap. eauto.
Qed.

(** An address of a batch is a register's or inside a range. *)
Lemma batch_address (explicit : list Range) (spans : list span) (b : span) (x : Z) :
  b ∈ group_batches explicit spans → in_span x b →
  in_spans x spans ∨ ∃ r, r ∈ explicit ∧ in_range x r.
Proof.
  intros Hb Hx. destruct (group_batches_spec explicit spans) as [Hspec _].
  destruct (Hspec b Hb) as [Hin|(w & Hw & a & c & Ha & Hc & Hoa & Hoc & ->)]; [left; by exists b|].
  rewrite <-windows_of_in. unfold in_spans, in_span, overlaps in *. simpl in Hx.
  destruct (decide (x < w.1)); [left; exists a; split; [done|lia]|].
  destruct (decide (w.2 <= x)); [left; exists c; split; [done|lia]|].
  right. exists w. split; [done|lia].
Qed.

(** ** Groups *)

Definition kind_function (kind : Kind) : FunctionCode :=
  match kind with
  | K_Coil => FC_ReadCoils
  | K_DiscreteInput => FC_ReadDiscreteInputs
  | K_HoldingRegister => FC_ReadHoldingRegisters
  | K_InputRegister => FC_ReadInputRegisters
  end.

(** The key of a slave's registers of one kind. *)
Definition group_key (slave : Z) (kind : Kind) : span := (slave, fn_code_key (kind_function kind)).

Lemma group_key_inj slave1 kind1 slave2 kind2 :
  group_key slave1 kind1 = group_key slave2 kind2 → slave1 = slave2 ∧ kind1 = kind2.
Proof. by destruct kind1, kind2; intros [= ->]. Qed.

Lemma function_code_kind register : function_code register = kind_function (reg_kind register).
Proof. done. Qed.

Definition planned (include_write_only : bool) (register : Register) : bool :=
  include_write_only || match reg_access register with RA_WriteOnly => false | _ => true end.

(** The span a register adds to the group of [slave] and [kind]. *)
Definition group_span (include_write_only : bool) (slave : Z) (kind : Kind) (row : RegisterRow)
  : option span :=
  let register := row_register row in
  match reg_address register with
  | Virtual => None
  | Fixed addr =>
      if planned include_write_only register &&
         bool_decide (group_key (reg_slave_id register) (reg_kind register) = group_key slave kind)
      then Some (register_span register addr) else None
  end.

Lemma push_span_get groups slave kind s slave' kind' :
  bt_sorted groups →
  (∀ v, bt_get (group_key slave kind) groups = Some v → v.1 = (kind_function kind, kind)) →
  bt_get (group_key slave' kind')
    (push_span groups (group_key slave kind) (kind_function kind) kind s) =
  if decide (group_key slave kind = group_key slave' kind')
  then Some (kind_function kind, kind,
             from_option snd [] (bt_get (group_key slave kind) groups) ++ [s])
  else bt_get (group_key slave' kind') groups.
Proof.
  intros Hs Hv. unfold push_span.
  destruct (bt_get (group_key slave kind) groups) as [[[fc k] spans]|] eqn:Hg;
    rewrite bt_get_insert by done; simpl.
  - pose proof (Hv _ eq_refl) as Hfk. simpl in Hfk. injection Hfk as -> ->.
    do 2 case_decide; congruence || done.
  - do 2 case_decide; congruence || done.
Qed.

Lemma push_span_sorted groups key fc kind s :
  bt_sorted groups → bt_sorted (push_span groups key fc kind s).
Proof.
  intros Hs. unfold push_span. destruct (bt_get key groups) as [[[fc' k] spans]|];
    by apply bt_insert_sorted.
Qed.

Definition group_value (kind : Kind) (spans : list span) : option (FunctionCode * Kind * list span) :=
  match spans with [] => None | _ => Some (kind_function kind, kind, spans) end.

Definition groups_ok (groups : ReadableSpanGroups) (f : Z → Kind → list span) : Prop :=
  bt_sorted groups ∧
  ∀ slave kind, bt_get (group_key slave kind) groups = group_value kind (f slave kind).

Lemma group_register_ok groups f iwo row :
  groups_ok groups f →
  groups_ok (group_register iwo groups (row_register row))
    (λ slave kind, f slave kind ++ option_list (group_span iwo slave kind row)).
Proof.
  intros [Hs Hf]. unfold group_register, group_span.
  set (register := row_register row).
  destruct (reg_address register) as [addr|].
  2:{ split; [done|]. intros. simpl. by rewrite app_nil_r. }
  assert (planned iwo register =
    negb (negb iwo && match reg_access register with RA_WriteOnly => true | _ => false end)) as ->
    by (unfold planned; by destruct iwo, (reg_access register)).
  destruct (negb iwo && _); simpl.
  { split; [done|]. intros. by rewrite app_nil_r. }
  rewrite function_code_kind. fold (group_key (reg_slave_id register) (reg_kind register)).
  split; [by apply push_span_sorted|]. intros slave kind. rewrite push_span_get; [|done|].
  - case_decide as Hk; [rewrite bool_decide_true by done|rewrite bool_decide_false by done]; simpl.
    + apply group_key_inj in Hk as [<- <-]. rewrite Hf.
      by destruct (f (reg_slave_id register) (reg_kind register)).
    + by rewrite app_nil_r, Hf.
  - intros v. rewrite Hf. destruct (f _ _); [done|]. by intros [= <-].
Qed.

(** Each group lists, in order, the spans of the registers that share its key. *)
Lemma group_readable_spans_ok rows iwo :
  groups_ok (group_readable_spans rows iwo) (λ slave kind, omap (group_span iwo slave kind) rows).
Proof.
  unfold group_readable_spans. induction rows as [|row rows IH] using rev_ind.
  { split; [apply bt_sorted_nil|done]. }
  rewrite foldl_app. simpl. destruct (group_register_ok _ _ iwo row IH) as [Hs Hg].
  split; [done|]. intros slave kind. rewrite Hg, omap_app. simpl.
  by destruct (group_span iwo slave kind row).
Qed.

(** The spans of the registers of [slave] and [kind]. *)
Definition spans_of (iwo : bool) (rows : list RegisterRow) (slave : Z) (kind : Kind) : list span :=
  omap (group_span iwo slave kind) rows.

Lemma elem_of_spans_of iwo rows slave kind s :
  s ∈ spans_of iwo rows slave kind ↔
  ∃ row addr, row ∈ rows ∧ reg_address (row_register row) = Fixed addr ∧
    planned iwo (row_register row) = true ∧ reg_slave_id (row_register row) = slave ∧
    reg_kind (row_register row) = kind ∧ s = register_span (row_register row) addr.
Proof.
  unfold spans_of. rewrite list_elem_of_omap. unfold group_span. split.
  - intros (row & Hin & Hs). destruct (reg_address (row_register row)) as [addr|] eqn:Ha; [|done].
    destruct (planned iwo (row_register row)) eqn:Hp; [|done]. simpl in Hs.
    case_bool_decide as Hk; [|done]. apply group_key_inj in Hk as [? ?]. simplify_eq.
    by exists row, addr.
  - intros (row & addr & Hin & Ha & Hp & <- & <- & ->). exists row. rewrite Ha, Hp.
    by rewrite bool_decide_true.
Qed.

(** The groups of a plan. *)
Lemma elem_of_groups iwo rows slave kind spans :
  spans = spans_of iwo rows slave kind → spans ≠ [] →
  (group_key slave kind, (kind_function kind, kind, spans)) ∈ group_readable_spans rows iwo.
Proof.
  intros -> Hne. destruct (group_readable_spans_ok rows iwo) as [Hs Hg].
  apply bt_get_elem; [done|]. rewrite Hg. fold (spans_of iwo rows slave kind).
  by destruct (spans_of iwo rows slave kind).
Qed.

(** Every group's key is that of some register. *)
Lemma groups_keys rows iwo key v :
  (key, v) ∈ group_readable_spans rows iwo → ∃ slave kind, key = group_key slave kind.
Proof.
  revert v. unfold group_readable_spans. induction rows as [|row rows IH] using rev_ind; intros v.
  { by intros ?%not_elem_of_nil. }
  rewrite foldl_app. simpl.
  destruct (group_readable_spans_ok rows iwo) as [Hs _]. unfold group_readable_spans in Hs.
  unfold group_register at 1. destruct (reg_address _); [|apply IH].
  destruct (negb iwo && _); [apply IH|]. unfold push_span.
  destruct (bt_get _ _) as [[[fc k] spans]|];
    (intros [[= -> ->]|[Hin _]]%bt_insert_elem; [by eexists _, _|by eapply IH|done]).
Qed.

Lemma groups_elem rows iwo g :
  g ∈ group_readable_spans rows iwo →
  ∃ slave kind, g = (group_key slave kind, (kind_function kind, kind, spans_of iwo rows slave kind)).
Proof.
  destruct g as [key v]. intros Hin. destruct (groups_keys rows iwo key v Hin) as (slave & kind & ->).
  destruct (group_readable_spans_ok rows iwo) as [Hs Hg].
  apply (bt_get_elem _ _ _ Hs) in Hin. rewrite Hg in Hin. fold (spans_of iwo rows slave kind) in Hin.
  exists slave, kind. f_equal. unfold group_value in Hin. by destruct (spans_of _ _ _ _); simplify_eq.
Qed.

(** ** Parsed ranges are well formed *)

Lemma parse_digits_in_int signed w radix positive digits result v :
  in_int signed w result = true →
  parse_digits signed w radix positive digits result = Ok v → in_int signed w v = true.
Proof.
  revert result. induction digits as [|c digits IH]; intros result Hr; simpl; [by intros [= <-]|].
  destruct (to_digit c radix) as [x|]; [|done].
  destruct (in_int signed w (result * radix)); [|done].
  destruct (in_int signed w (if positive then _ else _)) eqn:Hx; [|done]. by apply IH.
Qed.

Lemma from_str_radix_in_int signed w src radix v :
  in_int signed w 0 = true → from_str_radix signed w src radix = Ok v → in_int signed w v = true.
Proof.
  intros H0 Hv. unfold from_str_radix in Hv.
  destruct src as [|c [|c' s]]; [done| |]; repeat case_match; try done;
    by eapply parse_digits_in_int.
Qed.

Lemma parse_unsigned_uint w s v : 0 < w → parse_unsigned w s = Some v → is_uint w v.
Proof.
  intros Hw. unfold parse_unsigned. destruct (from_str_radix false w s 10) as [v'|] eqn:Hp; [|done].
  intros [= ->]. apply from_str_radix_in_int in Hp.
  - unfold in_int in Hp. simpl in Hp. zbool. unfold is_uint. lia.
  - unfold in_int. simpl. pose proof (Z.pow_pos_nonneg 2 w). lia.
Qed.

Lemma parse_entry_valid part r : parse_entry part = Ret (Some r) → Range_valid r.
Proof.
  unfold parse_entry. destruct (split_once 45 part) as [[a b]|].
  - destruct (parse_unsigned 64 (trim a)) as [s|] eqn:Hs; [|done].
    destruct (parse_unsigned 64 (trim b)) as [e|]; [|done].
    apply parse_unsigned_uint in Hs; [|done]. zcase; [|done].
    destruct (Range_new s _) as [r'|] eqn:Hr; [|done]. intros [= <-].
    eapply Range_new_valid; [| |done]; [unfold is_uint in Hs; lia|].
    apply (as_uint_range 64); lia.
  - destruct (parse_unsigned 64 part) as [s|] eqn:Hs; [|done].
    apply parse_unsigned_uint in Hs; [|done].
    destruct (Range_new s 1) as [r'|] eqn:Hr; [|done]. intros [= <-].
    eapply Range_new_valid; [| |done]; [unfold is_uint in Hs; lia|lia].
Qed.

Lemma ranges_for_valid rr kind rs : ranges_for rr kind = Ret rs → Forall Range_valid rs.
Proof.
  unfold ranges_for. destruct (match kind with K_Coil => _ | _ => _ end) as [spec|].
  2:{ by intros [= <-]. }
  unfold parse_ranges. revert rs. induction (range_entries spec) as [|p ps IH]; intros rs; simpl.
  { by intros [= <-]. }
  destruct (parse_entry p) as [[r|]|] eqn:Hp; simpl; [| |done].
  - destruct (parse_entries ps) as [rest|]; simpl; [|done]. intros [= <-].
    constructor; [by eapply parse_entry_valid|by apply IH].
  - destruct (parse_entries ps) as [rest|]; simpl; [|done]. intros [= <-]. by apply IH.
Qed.

(** ** Whole plans *)

Lemma plan_all_spec {A B} (f : A → Outcome (option (list B))) (l : list A) :
  (∀ x, x ∈ l → ∃ ops, f x = Ret (Some ops)) →
  ∃ res, plan_all f l = Ret (Some res) ∧
    ∀ o, o ∈ res ↔ ∃ x ops, x ∈ l ∧ f x = Ret (Some ops) ∧ o ∈ ops.
Proof.
  induction l as [|x l IH]; intros Hf; simpl.
  { exists []. split; [done|]. intros o. split; [by intros ?%not_elem_of_nil|].
    by intros (x & ops & Hx%not_elem_of_nil & _). }
  destruct (Hf x (list_elem_of_here _ _)) as (ops & Hx). rewrite Hx. simpl.
  destruct IH as (res & -> & Hres); [intros; apply Hf; by right|]. simpl.
  eexists. split; [done|]. intros o. rewrite elem_of_app, Hres. split.
  - intros [Ho|(y & ops' & Hy & Hfy & Ho)]; [exists x, ops|exists y, ops'];
      (split; [|done]); apply elem_of_cons; auto.
  - intros (y & ops' & [->|Hy]%elem_of_cons & Hfy & Ho); [left|right; eauto].
    rewrite Hx in Hfy. by injection Hfy as ->.
Qed.

(** The address and the width of a row with an address. *)
Definition occupies (row : RegisterRow) (slave : Z) (fc : FunctionCode) (addr width : Z) : Prop :=
  reg_address (row_register row) = Fixed addr ∧ reg_slave_id (row_register row) = slave ∧
  function_code (row_register row) = fc ∧
  width = Z.of_nat (Format_width (reg_format (row_register row))).

(** No register is wider than a request may be. *)
Definition rows_fit (rows : list RegisterRow) : Prop :=
  ∀ row addr, row ∈ rows → reg_address (row_register row) = Fixed addr →
  is_uint 16 addr ∧
  Z.of_nat (Format_width (reg_format (row_register row))) <=
    read_limit (function_code (row_register row)).

(** Registers of a device and function code share all of their addresses or none. *)
Definition rows_apart (rows : list RegisterRow) : Prop :=
  ∀ row1 row2 slave fc addr1 addr2 width1 width2, row1 ∈ rows → row2 ∈ rows →
  occupies row1 slave fc addr1 width1 → occupies row2 slave fc addr2 width2 →
  (addr1 = addr2 ∧ width1 = width2) ∨ addr1 + width1 <= addr2 ∨ addr2 + width2 <= addr1.

Section plan.
Context (rows : list RegisterRow) (rr : ReadRanges) (fuel : nat).
Context (Hrows : rows_fit rows).
Context (Hranges : ∀ kind, ranges_for rr kind ≠ Panic).
Context (Hfuel : 2 ^ 18 <= Z.of_nat fuel).

Lemma read_limit_bounds fc : 0 < read_limit fc <= 65536.
Proof. by destruct fc. Qed.

Lemma register_span_width row addr :
  row ∈ rows → reg_address (row_register row) = Fixed addr →
  register_span (row_register row) addr =
    (addr, addr + Z.of_nat (Format_width (reg_format (row_register row)))).
Proof.
  intros Hin Ha. destruct (Hrows row addr Hin Ha) as [Hu Hw]. unfold register_span.
  pose proof (read_limit_bounds (function_code (row_register row))).
  rewrite as_uint_small; [done|]. unfold is_uint in *. lia.
Qed.

Lemma group_spans_width iwo slave kind s :
  s ∈ spans_of iwo rows slave kind →
  0 <= s.1 <= s.2 ∧ s.2 <= s.1 + read_limit (kind_function kind) ∧ s.2 <= 2 ^ 18.
Proof.
  rewrite elem_of_spans_of. intros (row & addr & Hin & Ha & _ & _ & <- & ->).
  rewrite register_span_width by done. destruct (Hrows row addr Hin Ha) as [Hu Hw].
  rewrite function_code_kind in Hw.
  pose proof (read_limit_bounds (kind_function (reg_kind (row_register row)))).
  unfold is_uint in Hu. simpl. lia.
Qed.

Lemma explicit_ranges kind : ∃ rs, ranges_for rr kind = Ret rs ∧ Forall Range_valid rs.
Proof.
  specialize (Hranges kind). destruct (ranges_for rr kind) as [rs|] eqn:Hr; [|done].
  exists rs. split; [done|by eapply ranges_for_valid].
Qed.

(** What the batches of a group cover. *)
Definition batches (slave : Z) (kind : Kind) : list span :=
  match ranges_for rr kind with
  | Ret rs => group_batches rs (sort_spans (spans_of false rows slave kind))
  | Panic => []
  end.

Lemma batch_bounds slave kind b : b ∈ batches slave kind → 0 <= b.1 ∧ b.2 <= 2 ^ 18.
Proof.
  unfold batches. destruct (ranges_for rr kind) as [rs|]; [|by intros ?%not_elem_of_nil].
  intros Hb. destruct (group_batches_spec rs (sort_spans (spans_of false rows slave kind)))
    as [Hspec _].
  destruct (Hspec b Hb) as [Hin|(w & _ & a & c & Ha & Hc & _ & _ & ->)];
    repeat match goal with H : _ ∈ sort_spans _ |- _ =>
      rewrite elem_of_sort_spans in H; apply group_spans_width in H end; simpl; lia.
Qed.

(** The requests of a group: each within one batch and the limit; each register
    inside one, when the registers are apart. *)
Lemma group_operations_spec slave kind :
  ∃ ops, group_operations fuel rr
      (group_key slave kind, (kind_function kind, kind, spans_of false rows slave kind)) =
    Ret (Some ops) ∧
  (∀ op, op ∈ ops →
     op_slave_id op = slave ∧ op_fn_code op = kind_function kind ∧
     0 < Range_length (op_range op) <= read_limit (kind_function kind) ∧
     ∃ b, b ∈ batches slave kind ∧ b.1 <= r_start (op_range op) ∧ r_end (op_range op) <= b.2) ∧
  ((∀ a b, a ∈ spans_of false rows slave kind → b ∈ spans_of false rows slave kind →
      a = b ∨ apart a b) →
   ∀ s, s ∈ spans_of false rows slave kind → s.1 < s.2 →
     ∃ op, op ∈ ops ∧ r_start (op_range op) <= s.1 ∧ s.2 <= r_end (op_range op)).
Proof.
  unfold group_operations, group_key. set (spans := spans_of false rows slave kind).
  pose proof (batch_bounds slave kind) as Hbb.
  destruct (explicit_ranges kind) as (rs & Hrs & _). unfold batches in Hbb |- *.
  rewrite Hrs in Hbb |- *. simpl. fold spans in Hbb |- *.
  assert (∀ s, s ∈ sort_spans spans →
    0 <= s.1 <= s.2 ∧ s.2 <= s.1 + read_limit (kind_function kind) ∧ s.2 <= 2 ^ 18) as Hw.
  { intros s. rewrite elem_of_sort_spans. apply group_spans_width. }
  pose proof (λ b, split_batch_spec (read_limit (kind_function kind)) (sort_spans spans)
    (read_limit_bounds _) (sort_spans_sorted _) Hw fuel b.1 b.2) as Hsplit.
  destruct (plan_all_spec
    (λ b, split_batch fuel (read_limit (kind_function kind)) (sort_spans spans) b.1 b.2)
    (group_batches rs (sort_spans spans))) as (ranges & Hplan & Hel).
  { intros b Hb. destruct (Hbb b Hb). destruct (Hsplit b) as (ops & Hops & _); [lia|lia|lia|].
    by exists ops. }
  rewrite Hplan. simpl. eexists. split; [done|]. split.
  - intros op (r & -> & Hr)%list_elem_of_fmap. simpl.
    apply Hel in Hr as (b & l & Hb & Hl & Hr). destruct (Hbb b Hb).
    destruct (Hsplit b) as (l' & Hl' & Hall & _); [lia|lia|lia|].
    simpl in Hl. rewrite Hl in Hl'. injection Hl' as <-.
    rewrite list.Forall_forall in Hall. specialize (Hall r Hr).
    split; [done|]. split; [done|]. split; [lia|]. exists b. split; [done|lia].
  - intros Hap s Hs Hlt.
    destruct (group_batches_spec rs (sort_spans spans)) as [_ Hcov].
    destruct (Hcov s) as (b & Hb & H1 & H2); [by rewrite elem_of_sort_spans|].
    destruct (Hbb b Hb). destruct (Hsplit b) as (l & Hl & _ & Hin); [lia|lia|lia|].
    assert (∀ a c, a ∈ sort_spans spans → c ∈ sort_spans spans → a = c ∨ apart a c) as Hap'.
    { intros a c. rewrite !elem_of_sort_spans. apply Hap. }
    destruct (Hin Hap' s) as (r & Hr & Hr12); [by rewrite elem_of_sort_spans|lia|lia|].
    exists (mkOperation slave (kind_function kind) r). simpl. split; [|done].
    apply list_elem_of_fmap. exists r. split; [done|]. apply Hel. eauto.
Qed.

(** The gaps of a group: its ranges without its registers, as readable cells. *)
Lemma coverage_loop (key : Key SlaveKey) (ck : CellKind) (covered : list span) (rs : list Range) :
  Forall Range_valid rs → StronglySorted (λ a b, a.1 <= b.1) covered →
  Forall (λ s, s.1 <= usize_max) covered →
  ∃ gaps, foldr (λ r rest,
      gaps ← subtract_spans (r_start r) (r_end r) covered;
      rest ← rest;
      Ret (((λ gap, (key, ck, gap)) <$> gaps) ++ rest)) (Ret []) rs = Ret gaps ∧
    (∀ e, e ∈ gaps → e.1 = (key, ck)) ∧
    ∀ x, (∃ e, e ∈ gaps ∧ in_range x e.2) ↔
      (∃ r, r ∈ rs ∧ in_range x r) ∧ ¬ in_spans x covered.
Proof.
  intros Hwf Hs Hb. induction Hwf as [|r rs Hr Hrs IH]; simpl.
  { exists []. split_and!; [done|by intros e ?%not_elem_of_nil|]. intros x. split.
    - by intros (e & ?%not_elem_of_nil & _).
    - by intros [(r & ?%not_elem_of_nil & _) _]. }
  destruct IH as (rest & Hrest & Hkey & Hx). rewrite Hrest.
  destruct (subtract_loop_spec covered (r_start r) (r_end r)) as (gaps & Hg & Hgx);
    [done|unfold Range_valid in Hr; lia|unfold Range_valid in Hr; lia|done|].
  unfold subtract_spans. rewrite Hg. simpl. eexists. split; [done|]. split.
  - intros e [(g & -> & _)%list_elem_of_fmap|He]%elem_of_app; [done|by apply Hkey].
  - intros x. setoid_rewrite elem_of_app. setoid_rewrite elem_of_cons.
    specialize (Hx x). specialize (Hgx x). fold (in_range x r) in Hgx. split.
    + intros (e & [(g & -> & Hgin)%list_elem_of_fmap|He] & Hex); simpl in Hex.
      * destruct (proj1 Hgx) as [H1 H2]; [by exists g|]. split; [exists r; auto|done].
      * destruct (proj1 Hx) as [(r' & Hr' & Hxr) H2]; [by exists e|]. split; [exists r'; auto|done].
    + intros [(r' & [->|Hr'] & Hxr) Hn].
      * destruct (proj2 Hgx (conj Hxr Hn)) as (g & Hgin & Hgr). exists (key, ck, g).
        split; [|done]. left. apply list_elem_of_fmap. by exists g.
      * destruct (proj2 Hx) as (e & He & Hex); [split; [by exists r'|done]|]. exists e. auto.
Qed.

Lemma group_coverage_spec slave kind rs :
  ranges_for rr kind = Ret rs →
  ∃ gaps, group_coverage rr
      (group_key slave kind, (kind_function kind, kind, spans_of true rows slave kind)) = Ret gaps ∧
    (∀ e, e ∈ gaps → e.1 = (mkKey (mkSlaveKey slave kind), CellKind_read (kind_cell_type kind))) ∧
    ∀ x, (∃ e, e ∈ gaps ∧ in_range x e.2) ↔
      (∃ r, r ∈ rs ∧ in_range x r) ∧ ¬ in_spans x (spans_of true rows slave kind).
Proof.
  intros Hrs. unfold group_coverage, group_key. rewrite Hrs. simpl.
  set (covered := merge_spans (sort_spans (spans_of true rows slave kind))).
  assert (∀ x, in_spans x covered ↔ in_spans x (spans_of true rows slave kind)) as Hcov.
  { intros x. unfold covered. rewrite merge_spans_in by apply sort_spans_sorted.
    apply in_spans_perm, sort_spans_perm. }
  setoid_rewrite <-Hcov. apply coverage_loop.
  - by eapply ranges_for_valid.
  - apply merge_spans_sorted, sort_spans_sorted.
  - apply list.Forall_forall. intros s Hs. unfold covered in Hs.
    apply merge_spans_starts in Hs as (s' & Hs' & ->). rewrite elem_of_sort_spans in Hs'.
    apply group_spans_width in Hs'. unfold usize_max. lia.
Qed.

Lemma kind_function_inj k1 k2 : kind_function k1 = kind_function k2 → k1 = k2.
Proof. by destruct k1, k2. Qed.

(** Every planned request belongs to a group. *)
Lemma build_read_operations_spec :
  ∃ ops, build_read_operations fuel rows rr = Ret (Some ops) ∧
  ∀ op, op ∈ ops ↔ ∃ slave kind l,
    spans_of false rows slave kind ≠ [] ∧
    group_operations fuel rr
      (group_key slave kind, (kind_function kind, kind, spans_of false rows slave kind)) =
    Ret (Some l) ∧ op ∈ l.
Proof.
  unfold build_read_operations.
  destruct (plan_all_spec (group_operations fuel rr) (group_readable_spans rows false))
    as (ops & Hops & Hel).
  { intros g (slave & kind & ->)%groups_elem.
    destruct (group_operations_spec slave kind) as (l & Hl & _). by exists l. }
  exists ops. split; [done|]. intros op. rewrite Hel. split.
  - intros (g & l & Hg & Hl & Ho). destruct (groups_elem _ _ _ Hg) as (slave & kind & ->).
    exists slave, kind, l. split; [|done]. intros He.
    destruct (group_readable_spans_ok rows false) as [Hs Hv].
    apply (bt_get_elem _ _ _ Hs) in Hg. rewrite Hv in Hg. unfold spans_of in *.
    by rewrite He in Hg.
  - intros (slave & kind & l & Hne & Hl & Ho). eexists _, l. split; [|done].
    by apply elem_of_groups.
Qed.

(** C24: for registers with a 16-bit address of which none is wider than one
    request may be ([rows_fit]; with a wider one the planner never ends,
    [oversized_register_hangs]) and read ranges that parse without a panic (a
    range that ends past the largest [usize] panics, [range_check_panics]), a
    plan is found within 2^18 rounds of the splitting loop, each of its requests
    is one the protocol allows, and when no two registers overlap every register
    that may be read is read whole by one request. *)
Theorem read_plan_complete :
  ∃ ops, build_read_operations fuel rows rr = Ret (Some ops) ∧
  (∀ op, op ∈ ops → 0 < Range_length (op_range op) <= read_limit (op_fn_code op)) ∧
  (rows_apart rows →
   ∀ row slave fc addr width, row ∈ rows → occupies row slave fc addr width →
     reg_access (row_register row) ≠ RA_WriteOnly → 0 < width →
     ∃ op, op ∈ ops ∧ op_slave_id op = slave ∧ op_fn_code op = fc ∧
       r_start (op_range op) <= addr ∧ addr + width <= r_end (op_range op)).
Proof.
  destruct build_read_operations_spec as (ops & Hops & Hel). exists ops. split; [done|]. split.
  - intros op (slave & kind & l & _ & Hl & Ho)%Hel.
    destruct (group_operations_spec slave kind) as (l' & Hl' & Hspec & _).
    rewrite Hl in Hl'. injection Hl' as <-.
    destruct (Hspec op Ho) as (_ & -> & Hlen & _). done.
  - intros Hap row slave fc addr width Hin (Ha & <- & <- & ->) Hacc Hw.
    set (reg := row_register row) in *.
    assert ((addr, addr + Z.of_nat (Format_width (reg_format reg))) ∈
      spans_of false rows (reg_slave_id reg) (reg_kind reg)) as Hs.
    { unfold reg at 1. rewrite <-(register_span_width row addr) by done. apply elem_of_spans_of.
      exists row, addr. split_and!; try done. unfold planned. by destruct (reg_access _). }
    destruct (group_operations_spec (reg_slave_id reg) (reg_kind reg)) as (l & Hl & Hspec & Hcov).
    assert (∀ a b, a ∈ spans_of false rows (reg_slave_id reg) (reg_kind reg) →
      b ∈ spans_of false rows (reg_slave_id reg) (reg_kind reg) → a = b ∨ apart a b) as Hap'.
    { intros a b. rewrite !elem_of_spans_of.
      intros (r1 & a1 & Hr1 & Ha1 & _ & Hs1 & Hk1 & ->) (r2 & a2 & Hr2 & Ha2 & _ & Hs2 & Hk2 & ->).
      rewrite !register_span_width by done. unfold apart. simpl.
      destruct (Hap r1 r2 (reg_slave_id reg) (function_code reg) a1 a2
        (Z.of_nat (Format_width (reg_format (row_register r1))))
        (Z.of_nat (Format_width (reg_format (row_register r2)))) Hr1 Hr2) as [[-> ->]|?];
        [| |by left|by right].
      all: unfold occupies; rewrite !function_code_kind; split_and!; congruence. }
    destruct (Hcov Hap' _ Hs) as (op & Ho & H1 & H2); [simpl; lia|].
    destruct (Hspec op Ho) as (Hsl & Hfc & _). exists op. split; [|done]. apply Hel.
    eexists _, _, l. split; [|done]. intros He. rewrite He in Hs. by apply not_elem_of_nil in Hs.
Qed.

Lemma coverage_all (f : span * (FunctionCode * Kind * list span) →
    Outcome (list (Key SlaveKey * CellKind * Range))) l :
  (∀ g, g ∈ l → ∃ gaps, f g = Ret gaps) →
  ∃ all, foldr (λ group rest, gaps ← f group; rest ← rest; Ret (gaps ++ rest)) (Ret []) l = Ret all ∧
    ∀ e, e ∈ all ↔ ∃ g gaps, g ∈ l ∧ f g = Ret gaps ∧ e ∈ gaps.
Proof.
  induction l as [|g l IH]; intros Hf; simpl.
  { exists []. split; [done|]. intros e. split; [by intros ?%not_elem_of_nil|].
    by intros (g & gaps & ?%not_elem_of_nil & _). }
  destruct (Hf g (list_elem_of_here _ _)) as (gaps & Hg).
  destruct IH as (all & -> & Hall); [intros; apply Hf; by right|].
  rewrite Hg. simpl. eexists. split; [done|]. intros e. rewrite elem_of_app, Hall. split.
  - intros [He|(g' & gaps' & Hg' & Hfg & He)]; [exists g, gaps|exists g', gaps'];
      (split; [|done]); apply elem_of_cons; auto.
  - intros (g' & gaps' & [->|Hg']%elem_of_cons & Hfg & He); [left|right; eauto].
    rewrite Hg in Hfg. by injection Hfg as ->.
Qed.

Lemma explicit_read_coverage_spec :
  ∃ gaps, explicit_read_coverage rows rr = Ret gaps ∧
  ∀ key ck x, (∃ gap, (key, ck, gap) ∈ gaps ∧ in_range x gap) ↔
    ∃ slave kind rs, key = mkKey (mkSlaveKey slave kind) ∧
      ck = CellKind_read (kind_cell_type kind) ∧ spans_of true rows slave kind ≠ [] ∧
      ranges_for rr kind = Ret rs ∧ (∃ r, r ∈ rs ∧ in_range x r) ∧
      ¬ in_spans x (spans_of true rows slave kind).
Proof.
  unfold explicit_read_coverage.
  destruct (coverage_all (group_coverage rr) (group_readable_spans rows true))
    as (gaps & Hgaps & Hel).
  { intros g (slave & kind & ->)%groups_elem. destruct (explicit_ranges kind) as (rs & Hrs & _).
    destruct (group_coverage_spec slave kind rs Hrs) as (l & Hl & _). by exists l. }
  exists gaps. split; [done|]. intros key ck x. split.
  - intros (gap & (g & l & Hg & Hl & Hin)%Hel & Hx).
    destruct (groups_elem _ _ _ Hg) as (slave & kind & ->).
    destruct (explicit_ranges kind) as (rs & Hrs & _).
    destruct (group_coverage_spec slave kind rs Hrs) as (l' & Hl' & Hkey & Hcov).
    rewrite Hl in Hl'. injection Hl' as <-.
    specialize (Hkey _ Hin). simpl in Hkey. injection Hkey as -> ->.
    destruct (proj1 (Hcov x)) as [Hr Hn]; [by eexists|].
    exists slave, kind, rs. split_and!; try done. intros He.
    destruct (group_readable_spans_ok rows true) as [Hs Hv].
    apply (bt_get_elem _ _ _ Hs) in Hg. rewrite Hv in Hg. unfold spans_of in He.
    by rewrite He in Hg.
  - intros (slave & kind & rs & -> & -> & Hne & Hrs & Hr & Hn).
    destruct (group_coverage_spec slave kind rs Hrs) as (l & Hl & Hkey & Hcov).
    destruct (proj2 (Hcov x) (conj Hr Hn)) as ([p gap] & He & Hx).
    pose proof (Hkey _ He) as Hp. simpl in Hp. subst p. exists gap. split; [|done].
    apply Hel. eexists _, l. split; [|done]. by apply elem_of_groups.
Qed.

Lemma spans_of_nonempty slave kind :
  spans_of false rows slave kind ≠ [] → spans_of true rows slave kind ≠ [].
Proof.
  intros Hne He. destruct (spans_of false rows slave kind) as [|s l] eqn:Hf; [done|].
  assert (s ∈ spans_of true rows slave kind) as Hs; [|by rewrite He in Hs; apply not_elem_of_nil in Hs].
  assert (s ∈ spans_of false rows slave kind) as Hin by (rewrite Hf; apply list_elem_of_here).
  apply elem_of_spans_of in Hin as (row & addr & H1 & H2 & _ & H3). apply elem_of_spans_of.
  by exists row, addr.
Qed.

(** An address of a register's span is occupied. *)
Lemma span_occupied iwo slave kind x :
  in_spans x (spans_of iwo rows slave kind) →
  ∃ row addr width, row ∈ rows ∧ occupies row slave (kind_function kind) addr width ∧
    addr <= x < addr + width.
Proof.
  intros (s & (row & addr & Hin & Ha & _ & Hs & Hk & ->)%elem_of_spans_of & Hx).
  rewrite register_span_width in Hx by done. unfold in_span in Hx. simpl in Hx.
  exists row, addr. eexists. split; [done|]. split; [|exact Hx].
  unfold occupies. rewrite function_code_kind. by subst.
Qed.

Lemma occupied_span slave kind row addr width x :
  row ∈ rows → occupies row slave (kind_function kind) addr width → addr <= x < addr + width →
  in_spans x (spans_of true rows slave kind).
Proof.
  intros Hin (Ha & <- & Hf & ->) Hx. rewrite function_code_kind in Hf.
  apply kind_function_inj in Hf. eexists. split; [apply elem_of_spans_of|].
  - exists row, addr. by split_and!.
  - by rewrite register_span_width.
Qed.

(** The gaps of an answer are not empty. *)
Definition gap_ok (g : Range) : Prop := Range_valid g ∧ r_start g < r_end g.

Lemma subtract_loop_wf (covered : list span) (cur end_ : Z) gaps :
  0 <= cur → subtract_loop covered cur end_ = Ret gaps → Forall gap_ok gaps.
Proof.
  assert (∀ a b g, 0 <= a → a < b → Range_new a (b - a) = Ret g → gap_ok g) as Hnew.
  { intros a b g Ha Hb Hg. split; [eapply Range_new_valid; [| |done]; lia|].
    unfold Range_new in Hg. destruct (_ <=? _); [|done]. injection Hg as <-.
    unfold Range_span. simpl. lia. }
  revert cur gaps. induction covered as [|[cs ce] covered IH]; intros cur gaps Hc; simpl.
  { zcase; [|by intros [= <-]]. destruct (Range_new cur _) as [g|] eqn:Hg; [|done]. simpl.
    intros [= <-]. apply list.Forall_singleton. by eapply Hnew. }
  destruct (_ || _); [by apply IH|].
  set (here := if cur <? cs then _ else _). intros H.
  assert (∀ l, here = Ret l → Forall gap_ok l) as Hhere.
  { unfold here. intros l. zcase; [|by intros [= <-]].
    destruct (Range_new cur _) as [g|] eqn:Hg; [|done]. simpl. intros [= <-].
    apply list.Forall_singleton. by eapply Hnew. }
  destruct here as [l|]; [|done]. simpl in H. specialize (Hhere l eq_refl).
  destruct (_ <=? _); simpl in H; [injection H as <-; by rewrite app_nil_r|].
  destruct (subtract_loop covered _ _) as [rest|] eqn:Hrest; [|done]. simpl in H. injection H as <-.
  apply Forall_app. split; [done|]. eapply IH; [|done]. lia.
Qed.

Lemma group_coverage_wf group gaps e :
  group_coverage rr group = Ret gaps → e ∈ gaps → gap_ok e.2.
Proof.
  destruct group as [[slave fk] [[fc kind] spans]]. unfold group_coverage.
  destruct (ranges_for rr kind) as [rs|] eqn:Hrs; [|done]. simpl.
  apply ranges_for_valid in Hrs. revert gaps.
  induction Hrs as [|r rs Hr _ IH]; intros gaps; simpl; [by intros [= <-] ?%not_elem_of_nil|].
  destruct (subtract_spans _ _ _) as [here|] eqn:Hh; [|done]. simpl.
  destruct (foldr _ _ rs) as [rest|]; [|done]. simpl.
  intros [= <-] [(g & -> & Hg)%list_elem_of_fmap|He]%elem_of_app; [|by eapply IH].
  apply subtract_loop_wf in Hh; [|unfold Range_valid in Hr; lia].
  rewrite list.Forall_forall in Hh. by apply Hh.
Qed.

Lemma coverage_wf gaps e : explicit_read_coverage rows rr = Ret gaps → e ∈ gaps → gap_ok e.2.
Proof.
  unfold explicit_read_coverage. revert gaps.
  induction (group_readable_spans rows true) as [|g l IH]; intros gaps; simpl;
    [by intros [= <-] ?%not_elem_of_nil|].
  destruct (group_coverage rr g) as [here|] eqn:Hg; [|done]. simpl.
  destruct (foldr _ _ l) as [rest|]; [|done]. simpl.
  intros [= <-] [He|He]%elem_of_app; [by eapply group_coverage_wf|by eapply IH].
Qed.

(** A planned address is a register's or a gap's. *)
Lemma planned_address ops gaps op x :
  build_read_operations fuel rows rr = Ret (Some ops) →
  explicit_read_coverage rows rr = Ret gaps → op ∈ ops → in_range x (op_range op) →
  (∃ row addr width, row ∈ rows ∧
     occupies row (op_slave_id op) (op_fn_code op) addr width ∧ addr <= x < addr + width) ∨
  (∃ ck gap, (mkKey (SlaveKey_from_slave_fn (op_slave_id op) (op_fn_code op)), ck, gap) ∈ gaps ∧
     in_range x gap).
Proof.
  destruct build_read_operations_spec as (ops' & -> & Hel). intros [= <-].
  destruct explicit_read_coverage_spec as (gaps' & -> & Hcov). intros [= <-].
  intros (slave & kind & l & Hne & Hl & Ho)%Hel Hx.
  destruct (group_operations_spec slave kind) as (l' & Hl' & Hspec & _).
  rewrite Hl in Hl'. injection Hl' as <-.
  destruct (Hspec op Ho) as (-> & -> & _ & b & Hb & H1 & H2).
  unfold batches in Hb. destruct (explicit_ranges kind) as (rs & Hrs & _). rewrite Hrs in Hb.
  apply (batch_address _ _ _ x) in Hb; [|unfold in_range, in_span in *; lia].
  rewrite (in_spans_perm _ _ _ (sort_spans_perm _)) in Hb.
  destruct Hb as [Hb|Hr]; [left; by eapply span_occupied|].
  destruct (in_spans_dec x (spans_of true rows slave kind)) as [Hin|Hn];
    [left; by eapply span_occupied|right].
  destruct (proj2 (Hcov (mkKey (mkSlaveKey slave kind)) (CellKind_read (kind_cell_type kind)) x))
    as (gap & Hgap & Hxg).
  { exists slave, kind, rs. split_and!; try done. by apply spans_of_nonempty. }
  exists (CellKind_read (kind_cell_type kind)), gap. split; [|done]. by destruct kind.
Qed.

(** Whatever a planned request reads has a cell declared for it: each of its
    addresses is a register's of that device, or one of the gaps the explicit
    ranges have declared under the key a client stores the answer at; and a gap
    holds no register. *)
Theorem read_plan_declared :
  ∃ ops gaps, build_read_operations fuel rows rr = Ret (Some ops) ∧
  explicit_read_coverage rows rr = Ret gaps ∧
  (∀ op x, op ∈ ops → in_range x (op_range op) →
     (∃ row addr width, row ∈ rows ∧
        occupies row (op_slave_id op) (op_fn_code op) addr width ∧ addr <= x < addr + width) ∨
     (∃ ck gap, (mkKey (SlaveKey_from_slave_fn (op_slave_id op) (op_fn_code op)), ck, gap) ∈ gaps ∧
        in_range x gap)) ∧
  (∀ key ck gap x row addr width, (key, ck, gap) ∈ gaps → in_range x gap → row ∈ rows →
     occupies row (sk_slave_id (key_id key)) (kind_function (sk_kind (key_id key))) addr width →
     ¬ addr <= x < addr + width).
Proof.
  destruct build_read_operations_spec as (ops & Hops & Hel).
  destruct explicit_read_coverage_spec as (gaps & Hgaps & Hcov).
  exists ops, gaps. split; [done|]. split; [done|]. split.
  - intros op x. by apply planned_address.
  - intros key ck gap x row addr width Hgap Hx Hin Hocc Hax.
    destruct (proj1 (Hcov key ck x)) as (slave & kind & rs & -> & _ & _ & _ & _ & Hn);
      [by exists gap|].
    apply Hn. by eapply occupied_span.
Qed.
End plan.

(** ** A register wider than a request *)

Lemma cut_point_snaps (limit addr width : Z) :
  0 < limit < width → 0 <= addr → addr + width < 2 ^ 64 →
  cut_point limit [(addr, addr + width)] addr (addr + width) = addr.
Proof.
  intros Hl Ha Hw. unfold cut_point. rewrite as_uint_small by (unfold is_uint; lia).
  rewrite Z.min_l by lia. rewrite (proj2 (Z.ltb_lt _ _)) by lia. simpl.
  rewrite (proj2 (Z.ltb_lt addr _)) by lia. simpl.
  by rewrite (proj2 (Z.ltb_lt (addr + limit) _)) by lia.
Qed.

Lemma split_batch_stuck (fuel : nat) (limit addr width : Z) :
  0 < limit < width → 0 <= addr → addr + width < 2 ^ 64 →
  split_batch fuel limit [(addr, addr + width)] addr (addr + width) = Ret None.
Proof.
  intros Hl Ha Hw. induction fuel as [|fuel IH]; simpl;
    rewrite (proj2 (Z.ltb_lt _ _)) by lia; [done|].
  rewrite cut_point_snaps by done. rewrite Z.sub_diag, as_uint_small by done.
  rewrite Range_new_Ret by (unfold usize_max; lia). simpl. by rewrite IH.
Qed.

Lemma sort_one s : sort_spans [s] = [s].
Proof. reflexivity. Qed.

(** A register wider than one request may be, a text of 126 words for one,
    leaves the planner in a loop that never ends, whatever the fuel: the cut
    snaps back to where the request starts. *)
Theorem oversized_register_hangs (name label : string) (register : Register)
    (values : list NamedValue) (addr : Z) (fuel : nat) :
  reg_address register = Fixed addr → is_uint 16 addr → reg_access register ≠ RA_WriteOnly →
  read_limit (function_code register) < Z.of_nat (Format_width (reg_format register)) < 2 ^ 63 →
  build_read_operations fuel [(name, label, register, values)] ReadRanges_default = Ret None.
Proof.
  intros Ha Hu Hacc Hw. unfold is_uint in Hu. pose proof (read_limit_bounds (function_code register)).
  unfold build_read_operations, group_readable_spans. simpl. unfold group_register. rewrite Ha.
  assert (match reg_access register with RA_WriteOnly => true | _ => false end = false) as ->
    by (by destruct (reg_access register)).
  simpl. unfold register_span. rewrite as_uint_small by (unfold is_uint; lia).
  assert (ranges_for ReadRanges_default (reg_kind register) = Ret []) as Hr
    by (by destruct (reg_kind register)).
  rewrite Hr. simpl. rewrite sort_one, split_batch_stuck by lia. done.
Qed.

Definition demo_text : Register :=
  mkRegister 1 RA_ReadWrite K_HoldingRegister (Fixed 10) (F_Ascii AL_Left 126%nat).

Lemma oversized_register_hangs_witness :
  build_read_operations 1000 [("t"%string, ""%string, demo_text, [])] ReadRanges_default = Ret None.
Proof. apply (oversized_register_hangs _ _ demo_text _ 10); [done|done|done|done]. Defined.

(** ** Witnesses *)

Definition demo_row (addr : Z) (kind : IntKind) : RegisterRow :=
  ("r"%string, ""%string,
   mkRegister 1 RA_ReadWrite K_HoldingRegister (Fixed addr)
     (Format_int kind E_Big WO_Normal Resolution_default BitField_default), []).

Definition demo_rows : list RegisterRow := [demo_row 0 IK_U16; demo_row 120 IK_U128; demo_row 140 IK_U32].

Definition demo_ranges : ReadRanges := mkReadRanges (Some (bytes_of "0-150")) None None None.

(** The [U128] at 120 is not cut at 125. *)
Example demo_plan :
  build_read_operations 10 demo_rows demo_ranges =
  Ret (Some (mkOperation 1 FC_ReadHoldingRegisters <$> [mkRange 0 120; mkRange 120 142])).
Proof. vm_compute. reflexivity. Qed.

Lemma demo_rows_fit : rows_fit demo_rows.
Proof.
  intros row addr Hin Ha. unfold demo_rows in Hin.
  repeat (apply elem_of_cons in Hin as [->|Hin]; [by injection Ha as <-|]).
  by apply not_elem_of_nil in Hin.
Qed.

Lemma demo_rows_apart : rows_apart demo_rows.
Proof.
  intros row1 row2 slave fc addr1 addr2 width1 width2 Hin1 Hin2 (Ha1 & _ & _ & ->) (Ha2 & _ & _ & ->).
  unfold demo_rows in Hin1, Hin2. rewrite !elem_of_cons in Hin1, Hin2.
  destruct Hin1 as [->|[->|[->|H1%not_elem_of_nil]]], Hin2 as [->|[->|[->|H2%not_elem_of_nil]]];
    try done; injection Ha1 as <-; injection Ha2 as <-;
    first [by left | by right; left; vm_compute | by right; right; vm_compute].
Qed.

Lemma demo_ranges_ok kind : ranges_for demo_ranges kind ≠ Panic.
Proof. by destruct kind. Qed.

Lemma read_plan_complete_witness :
  ∃ ops, build_read_operations (Z.to_nat (2 ^ 18)) demo_rows demo_ranges = Ret (Some ops) ∧
  ∃ op, op ∈ ops ∧ r_start (op_range op) <= 120 ∧ 128 <= r_end (op_range op).
Proof.
  destruct (read_plan_complete demo_rows demo_ranges (Z.to_nat (2 ^ 18)) demo_rows_fit
    demo_ranges_ok) as (ops & Hops & _ & Hcov); [by rewrite Z2Nat.id|].
  exists ops. split; [exact Hops|]. clear Hops.
  destruct (Hcov demo_rows_apart (demo_row 120 IK_U128) 1 FC_ReadHoldingRegisters 120 8)
    as (op & Hin & _ & _ & Hr); [|by split_and!|discriminate|reflexivity|].
  - apply elem_of_cons. right. apply list_elem_of_here.
  - exists op. split; [exact Hin|exact Hr].
Defined.

Lemma read_plan_declared_witness :
  ∃ ops gaps, build_read_operations (Z.to_nat (2 ^ 18)) demo_rows demo_ranges = Ret (Some ops) ∧
  explicit_read_coverage demo_rows demo_ranges = Ret gaps.
Proof.
  destruct (read_plan_declared demo_rows demo_ranges (Z.to_nat (2 ^ 18)) demo_rows_fit
    demo_ranges_ok) as (ops & gaps & Hops & Hgaps & _); [by rewrite Z2Nat.id|].
  exists ops, gaps. split; [exact Hops|exact Hgaps].
Defined.
