(* ===== verification/RegEvents.v ===== *)
(** * Register events

    Models [ferrowl/src/module/modbus/events.rs]: what the store's write tap and
    the virtual registers publish for scripts. A float is its bit pattern; the
    text of one is a parameter. A completed store write publishes one event per
    register it touches, with the values before and after; a change is never
    taken for none. *)

From stdpp Require Import base list gmap numbers strings.
From S2P Require Import Prelude Slice Memory MemorySpec Store StoreRefine StoreProps Bytes IntText Format Codec CodecSpec CodecProps Key DeviceConfig Registers SimScheduler SimProps.

Local Open Scope Z_scope.

Inductive RegisterEventSource :=
| RES_Remote
| RES_Poll
| RES_Set
| RES_Lua (script : option ScriptId).

Record RegisterEvent := mkRegisterEvent {
  re_seq : Z;
  re_timestamp_ms : Z;
  re_name : string;
  re_old : option Value;
  re_new : option Value;
  re_source : RegisterEventSource;
  re_changed : bool
}.

(** ** Equality of values *)

(** IEEE 754 comparison of the bit patterns of a format with [w] bits whose
    infinity is [inf]. *)
Definition float_is_nan (w inf bits : Z) : bool := inf <? Z.land bits (2 ^ (w - 1) - 1).

Definition float_is_zero (w bits : Z) : bool := Z.land bits (2 ^ (w - 1) - 1) =? 0.

Definition float_eq (w inf a b : Z) : bool :=
  negb (float_is_nan w inf a) && negb (float_is_nan w inf b) &&
  ((a =? b) || (float_is_zero w a && float_is_zero w b)).

Definition f32_inf : Z := 0x7F800000.
Definition f64_inf : Z := 0x7FF0000000000000.

Section values.
Context (display_float : NumericPrimitive → list Z).

Definition primitives_equal (a b : NumericPrimitive) : bool :=
  match a, b with
  | NP_F32 x, NP_F32 y =>
      float_eq 32 f32_inf x y || (float_is_nan 32 f32_inf x && float_is_nan 32 f32_inf y)
  | NP_F64 x, NP_F64 y =>
      float_eq 64 f64_inf x y || (float_is_nan 64 f64_inf x && float_is_nan 64 f64_inf y)
  | _, _ => bool_decide (prim_display display_float a = prim_display display_float b)
  end.

Definition values_equal (a b : Value) : bool :=
  match a, b with
  | V_Numeric p rp, V_Numeric q rq =>
      float_eq 64 f64_inf (res_bits rp) (res_bits rq) && primitives_equal p q
  | V_Ascii x, V_Ascii y => bool_decide (x = y)
  | _, _ => false
  end.
End values.

(** ** The write tap *)

(** [dst[at..at + span].copy_from_slice(src)]. *)
Definition copy_words (dst : list Z) (at_ span : Z) (src : list Z) : Outcome (list Z) :=
  _ ← index_range dst at_ (at_ + span);
  if Z.of_nat (length src) =? span
  then Ret (take (Z.to_nat at_) dst ++ src ++ drop (Z.to_nat (at_ + span)) dst)
  else Panic.

(** [(i..i + n).any(f)]. *)
Fixpoint any_from (f : Z → Outcome bool) (i : Z) (n : nat) : Outcome bool :=
  match n with
  | O => Ret false
  | S n' => b ← f i; if (b : bool) then Ret true else any_from f (i + 1) n'
  end.

Definition event_source (source : WriteSource) (executing : option ScriptId)
  : RegisterEventSource :=
  match source with
  | WS_Remote => RES_Remote
  | WS_Poll => RES_Poll
  | WS_Command => RES_Set
  | WS_Script => RES_Lua executing
  end.

Definition decode_ok (register : Register) (words : list Z) : option Value :=
  match Register_decode register words with Ok v => Some v | Err _ => None end.

Section tap.
Context {Tap : Type}.
(** The clock, read as the event of a sequence number is built. *)
Context (now_ms : Z → Z).
(** [executing_script()] on the thread of the write. *)
Context (executing : option ScriptId).

(** The closure of [written]. *)
Definition build_event (write : StoreWrite (Key SlaveKey)) (memory : Memory (Key SlaveKey) Tap)
    (name : string) (register : Register) (key : Key SlaveKey) (reg_range overlap : Range)
    (seq : Z) : Outcome RegisterEvent :=
  let in_register := r_start overlap - r_start reg_range in
  let in_write := r_start overlap - r_start (sw_range write) in
  let span := Range_length overlap in
  new_words ← Memory_read_unchecked memory key reg_range;
  old_words ←
    match new_words with
    | None => Ret None
    | Some words =>
        src ← index_range (sw_old write) in_write (in_write + span);
        old ← copy_words words in_register span src;
        Ret (Some old)
    end;
  let mask := mask_words (reg_format register) in
  changed ← any_from (λ i,
      let bits := default 65535 (mask !! Z.to_nat (in_register + i)) in
      old ← index (sw_old write) (in_write + i);
      new ← index (sw_new write) (in_write + i);
      Ret (negb (Z.land (Z.lxor old new) bits =? 0))) 0 (Z.to_nat span);
  Ret (mkRegisterEvent seq (now_ms seq) name
         (old_words ≫= decode_ok register) (new_words ≫= decode_ok register)
         (event_source (sw_source write) executing) changed).

(** One turn of the loop of [written]. *)
Definition tap_register (write : StoreWrite (Key SlaveKey)) (memory : Memory (Key SlaveKey) Tap)
    (hub : Hub RegisterEvent) (entry : string * Register) : Outcome (Hub RegisterEvent) :=
  let '(name, register) := entry in
  binding ← register_mem_binding register;
  match binding with
  | None => Ret hub
  | Some (_, key, reg_range) =>
      if decide (key = sw_id write) then
        match Range_intersect reg_range (sw_range write) with
        | None => Ret hub
        | Some overlap =>
            publish_with hub (build_event write memory name register key reg_range overlap)
        end
      else Ret hub
  end.

(** [RegisterTap::written]; [registers] lists the shared map in the order the
    hash map is visited. *)
Fixpoint tap_written (write : StoreWrite (Key SlaveKey)) (memory : Memory (Key SlaveKey) Tap)
    (registers : list (string * Register)) (hub : Hub RegisterEvent)
  : Outcome (Hub RegisterEvent) :=
  match registers with
  | [] => Ret hub
  | entry :: registers' =>
      hub ← tap_register write memory hub entry; tap_written write memory registers' hub
  end.

(** What the store does with the calls of a write. *)
Fixpoint tap_calls (calls : list (TapCall (Key SlaveKey) Tap))
    (registers : list (string * Register)) (hub : Hub RegisterEvent)
  : Outcome (Hub RegisterEvent) :=
  match calls with
  | [] => Ret hub
  | call :: calls' =>
      hub ← tap_written (tc_write call) (tc_memory call) registers hub;
      tap_calls calls' registers hub
  end.
End tap.

(** ** Virtual registers *)

Definition publish_virtual (display_float : NumericPrimitive → list Z) (now_ms : Z → Z)
    (hub : Hub RegisterEvent) (name : string) (old : option Value) (new : Value)
    (source : RegisterEventSource) : Outcome (Hub RegisterEvent) :=
  publish_with hub (λ seq,
    Ret (mkRegisterEvent seq (now_ms seq) name old (Some new) source
           match old with
           | None => true
           | Some old => negb (values_equal display_float old new)
           end)).

(** ** Selection *)

Definition names_register (selection : Selection) (name : string) : bool :=
  match selection with
  | Sel_All => true
  | Sel_Names names => existsb (λ n, String.eqb n name) names
  end.

Definition own_write (event : RegisterEvent) (me : ScriptId) : bool :=
  match re_source event with RES_Lua (Some id) => bool_decide (id = me) | _ => false end.

Definition register_selector (trigger : ModbusTrigger) (me : ScriptId) (event : RegisterEvent)
  : bool :=
  let '(MT_Register registers every_write) := trigger in
  names_register registers (re_name event) && (every_write || re_changed event) &&
  negb (own_write event me).

(** ** Words that agree under a mask *)

(** The bits of [m] agree in [o] and [n]. *)
Definition agree (mon : Z * Z * Z) : Prop := let '(m, o, n) := mon in Z.land (Z.lxor o n) m = 0.

Lemma agree_mergeZ m o n : agree (m, o, n) → mergeZ m o n = o.
Proof.
  intros H. apply Z.bits_inj'. intros i Hi. rewrite mergeZ_testbit by done.
  pose proof (f_equal (λ z, Z.testbit z i) H) as Hb. simpl in Hb.
  rewrite Z.land_spec, Z.lxor_spec, Z.bits_0 in Hb.
  by destruct (Z.testbit m i), (Z.testbit o i), (Z.testbit n i).
Qed.

Lemma agree_full o n : is_word o → is_word n → agree (65535, o, n) → o = n.
Proof.
  intros Ho Hn H. unfold agree in H. change 65535 with (Z.ones 16) in H.
  apply Z.lxor_eq. rewrite Z.land_ones in H by lia.
  unfold is_word, is_uint in *. rewrite Z.mod_small in H; [done|].
  assert (0 <= Z.lxor o n) by (apply Z.lxor_nonneg; lia). split; [done|].
  apply Z.bounded_iff_bits_nonneg; [done|done|]. intros i Hi. rewrite Z.lxor_spec.
  by rewrite !(testbit_small 16) by (lia || done).
Qed.

Lemma shift_field (w : Z) (bf : BitField) (raw1 raw2 : Z) :
  1 <= w <= 128 → is_uint 128 (bf_mask bf) → BitField_fits bf w = true →
  Z.land raw1 (bf_mask bf) mod 2 ^ w = Z.land raw2 (bf_mask bf) mod 2 ^ w →
  Z.shiftr (Z.land raw1 (bf_mask bf)) (BitField_shift bf) mod 2 ^ w =
  Z.shiftr (Z.land raw2 (bf_mask bf)) (BitField_shift bf) mod 2 ^ w.
Proof.
  intros Hw Hm Hfit Heq. apply (BitField_fits_spec bf w Hm ltac:(lia)) in Hfit as [Hfull|Hlt].
  - by rewrite (BitField_shift_full bf Hfull), !Z.shiftr_0_r.
  - do 2 f_equal. rewrite !Z.mod_small in Heq; [done| |];
      pose proof (land_le_mask raw1 (bf_mask bf)); pose proof (land_le_mask raw2 (bf_mask bf));
      unfold is_uint in Hm; lia.
Qed.

Lemma kind_cast_mod k z1 z2 :
  z1 mod 2 ^ IntKind_bits k = z2 mod 2 ^ IntKind_bits k → kind_cast k z1 = kind_cast k z2.
Proof. intros H. unfold kind_cast. destruct (kind_signed k); [by apply as_sint_mod|by apply as_uint_mod]. Qed.

(** Words of an integer register that agree under its mask decode alike. *)
Lemma numeric_agree (nf : NumericFormat) (os ns : list Z) :
  is_uint 128 (bf_mask (nf_bit_field nf)) → Forall is_word os → Forall is_word ns →
  length os = kind_words (nf_kind nf) → length ns = kind_words (nf_kind nf) →
  Forall agree (zip3 (mask_words (F_Numeric nf)) os ns) →
  decode (F_Numeric nf) os = decode (F_Numeric nf) ns.
Proof.
  intros Hm Hwo Hwn Hlo Hln Hag. set (f := F_Numeric nf) in *. set (k := nf_kind nf) in *.
  destruct (BitField_fits (nf_bit_field nf) (IntKind_bits k)) eqn:Hfit.
  2:{ unfold decode, f. simpl. fold k. fold (kind_words k). rewrite Hlo, Hln, Hfit.
      by rewrite Nat.ltb_irrefl. }
  unfold f. rewrite !decode_numeric by (fold k; lia || done). fold k f.
  rewrite !take_kind_words by done. do 3 f_equal. apply kind_cast_mod.
  apply shift_field; [apply kind_bits_range|done|done|].
  destruct (mask_pack_spec k (nf_endian nf) (bf_mask (nf_bit_field nf))) as (Hlm & Hwm & Hrm).
  set (ms := mask_pack _ _ _) in *.
  assert (mask_words f = order_words f ms) as Hms by apply mask_words_numeric.
  destruct (zip3_spec ms (order_words f os) (order_words f ns) (kind_words k))
    as (Hz1 & Hz2 & Hz3 & Hz4 & Hz5); [done|by rewrite length_order_words..|].
  specialize (Hz5 Hwm (Forall_order_words _ f _ Hwo) (Forall_order_words _ f _ Hwn)).
  pose proof (decode_raw_mergeZ (nf_endian nf) _ (kind_words k) Hz1 Hz5) as Hmz.
  cbv zeta beta in Hmz. rewrite Hz2, Hz3, Hz4, Hrm in Hmz.
  assert ((λ '(m, o, v), mergeZ m o v) <$> zip3 ms (order_words f os) (order_words f ns) =
          order_words f os) as Hid.
  { rewrite <-Hz3 at 2. apply list_fmap_ext. intros i [[m o] n] Hi. apply agree_mergeZ.
    assert (Forall agree (zip3 ms (order_words f os) (order_words f ns))) as Hall.
    { rewrite <-(order_words_involutive f ms), <-Hms, (zip3_order f _ os ns (kind_words k));
        [|by rewrite Hms, length_order_words|done|done].
      case_bool_decide; [by apply Forall_reverse|done]. }
    by eapply Forall_lookup_1 in Hall. }
  rewrite Hid in Hmz. rewrite Hmz at 1. apply land_mergeZ. destruct k; simpl; lia.
Qed.

(** ... and so do the words of any register. *)
Lemma masked_agree (f : Format) (os ns : list Z) :
  mask_ok f → Forall is_word os → Forall is_word ns →
  length os = Format_width f → length ns = Format_width f →
  (∀ i o n, os !! i = Some o → ns !! i = Some n → agree (default 65535 (mask_words f !! i), o, n)) →
  decode f os = decode f ns.
Proof.
  intros Hm Hwo Hwn Hlo Hln Hag.
  assert (∀ g, f = g → mask_words g = order_words g (replicate (Format_width g) 65535) →
    decode f os = decode f ns) as Hfull.
  { intros g -> Hmask. f_equal. apply list_eq_same_length with (Format_width g); [done..|].
    intros i o n _ Ho Hn. specialize (Hag i o n Ho Hn).
    assert (default 65535 (mask_words g !! i) = 65535) as Hd.
    { destruct (mask_words g !! i) as [m|] eqn:E; [|done]. rewrite Hmask in E.
      apply list_elem_of_lookup_2 in E. unfold order_words in E.
      case_bool_decide; [rewrite elem_of_reverse in E|]; by apply elem_of_replicate in E as [-> _]. }
    rewrite Hd in Hag.
    apply agree_full; [exact (Forall_lookup_1 _ _ _ _ Hwo Ho)|exact (Forall_lookup_1 _ _ _ _ Hwn Hn)|done]. }
  destruct f as [nf|ff|a w]; [|by apply (Hfull (F_Float ff))|by apply (Hfull (F_Ascii a w))].
  apply numeric_agree; try done. apply Forall_lookup_2. intros i [[m o] n] Hi.
  unfold zip3 in Hi. apply lookup_zip_Some in Hi as [Hmo Hn].
  apply lookup_zip_Some in Hmo as [Hm' Ho]. specialize (Hag i o n Ho Hn). by rewrite Hm' in Hag.
Qed.

(** ** Completed writes *)

Lemma dev_words_Some (d : Device) (r : Range) (l : list Z) :
  Range_wf r →
  dev_words d r = Some l ↔
  Z.of_nat (length l) = Range_length r ∧
  ∀ i v, l !! i = Some v → c_value <$> d (r_start r + Z.of_nat i) = Some v.
Proof.
  intros Hr. unfold dev_words. rewrite mapM_Some. split.
  - intros H. pose proof (Forall2_length _ _ _ H) as Hl. rewrite length_addresses in Hl.
    unfold Range_wf in Hr. unfold Range_length in *. split; [lia|]. intros i v Hv.
    assert (Z.of_nat i < Range_length r) as Hi
      by (apply lookup_lt_Some in Hv; unfold Range_length; lia).
    exact (Forall2_lookup_lr _ _ _ _ _ _ H (addresses_lookup r i Hi) Hv).
  - intros [Hl Hv]. apply Forall2_same_length_lookup_2.
    + rewrite length_addresses. lia.
    + intros i a v Ha Hi.
      assert (Z.of_nat i < Range_length r) as Hlt by (apply lookup_lt_Some in Hi; lia).
      rewrite addresses_lookup in Ha by done. injection Ha as <-. by apply Hv.
Qed.

Lemma dev_words_None (d : Device) (r : Range) :
  dev_words d r = None ↔ ∃ a, in_range a r ∧ d a = None.
Proof.
  unfold dev_words. rewrite mapM_None, list.Exists_exists. split.
  - intros (a & Ha%elem_of_addresses & Hn%fmap_None). by exists a.
  - intros (a & Ha & Hn). exists a. rewrite elem_of_addresses, fmap_None. done.
Qed.

Section events.
Context {Tap : Type}.
Implicit Types (mem : Memory (Key SlaveKey) Tap) (write : StoreWrite (Key SlaveKey)).

(** The write is stored, and reported as the tap is told of it. *)
Definition completed mem write mem' : Prop :=
  Memory_wf mem ∧ Memory_wf mem' ∧ Range_wf (sw_range write) ∧
  Z.of_nat (length (sw_new write)) = Range_length (sw_range write) ∧
  ∃ d, Memory_abs mem (sw_id write) = Some d ∧
    dev_words d (sw_range write) = Some (sw_old write) ∧
    Memory_abs mem' ≡ store_set (Memory_abs mem) (sw_id write)
      (dev_store d (sw_range write) (sw_new write)).

(** The store holds words. *)
Definition mem_words mem : Prop :=
  ∀ id d a c, Memory_abs mem id = Some d → d a = Some c → is_word (c_value c).

(** The words and the value of a register with an address. *)
Definition register_words mem (register : Register) : option (list Z) :=
  match register_mem_binding register with
  | Ret (Some (_, key, range)) =>
      match Memory_read_unchecked mem key range with Ret words => words | Panic => None end
  | _ => None
  end.

Definition register_value mem (register : Register) : option Value :=
  register_words mem register ≫= decode_ok register.

Lemma any_from_spec (f : Z → Outcome bool) (i : Z) (n : nat) :
  (∀ j, i <= j < i + Z.of_nat n → ∃ b, f j = Ret b) →
  ∃ b, any_from f i n = Ret b ∧
    if b then ∃ j, i <= j < i + Z.of_nat n ∧ f j = Ret true
    else ∀ j, i <= j < i + Z.of_nat n → f j = Ret false.
Proof.
  revert i. induction n as [|n IH]; intros i Hf; simpl.
  { exists false. split; [done|]. lia. }
  destruct (Hf i) as [b Hb]; [lia|]. rewrite Hb. simpl. destruct b.
  { exists true. split; [done|]. exists i. split; [lia|done]. }
  destruct (IH (i + 1)) as (b & Hany & Hspec); [intros j Hj; apply Hf; lia|].
  exists b. split; [done|]. destruct b.
  - destruct Hspec as (j & Hj & Hfj). exists j. split; [lia|done].
  - intros j Hj. destruct (decide (j = i)) as [->|]; [done|]. apply Hspec. lia.
Qed.

(** A word outside the written range is as it was. *)
Lemma dev_store_outside (d : Device) (r : Range) (new : list Z) (a v : Z) :
  ¬ in_range a r → c_value <$> dev_store d r new a = Some v → c_value <$> d a = Some v.
Proof. intros Ha. unfold dev_store. by rewrite decide_False. Qed.

(** The words of a register before a write, rebuilt from those after it. *)
Lemma copy_words_before (d : Device) (r rr ov : Range) (old new words : list Z) :
  Range_wf r → Range_wf rr → Range_intersect rr r = Some ov →
  dev_words d r = Some old → dev_words (dev_store d r new) rr = Some words →
  ∃ src before,
    index_range old (r_start ov - r_start r) (r_start ov - r_start r + Range_length ov) = Ret src ∧
    copy_words words (r_start ov - r_start rr) (Range_length ov) src = Ret before ∧
    dev_words d rr = Some before.
Proof.
  intros Hr Hrr (H1 & H2 & H3)%Range_intersect_Some Hold Hwords.
  apply (dev_words_Some _ _ _ Hr) in Hold as [Hlo Ho].
  apply (dev_words_Some _ _ _ Hrr) in Hwords as [Hlw Hw].
  unfold Range_wf, Range_length, in_range in *.
  set (at_ := r_start ov - r_start rr) in *. set (len := r_end ov - r_start ov) in *.
  eexists _, _. split; [|split].
  - rewrite index_range_Ret by lia. done.
  - unfold copy_words. rewrite index_range_Ret by lia. simpl.
    rewrite length_take, length_drop, (proj2 (Z.eqb_eq _ _)) by lia. done.
  - apply dev_words_Some; [done|]. split.
    { rewrite !length_app, !length_take, !length_drop. unfold Range_length. lia. }
    intros i v Hv. rewrite lookup_app, length_take in Hv.
    destruct (take (Z.to_nat at_) words !! i) as [v'|] eqn:E1.
    { injection Hv as ->. apply lookup_take_Some in E1 as [E1 Hi].
      apply (dev_store_outside d r new); [unfold in_range; lia|by apply Hw]. }
    apply lookup_ge_None_1 in E1. rewrite length_take in E1.
    rewrite lookup_app, length_take, length_drop in Hv.
    destruct (take _ _ !! _) as [v'|] eqn:E2 in Hv.
    { injection Hv as ->. apply lookup_take_Some in E2 as [E2 Hi]. rewrite lookup_drop in E2.
      apply Ho in E2. rewrite <-E2. do 2 f_equal. lia. }
    apply lookup_ge_None_1 in E2. rewrite length_take, length_drop in E2.
    rewrite lookup_drop in Hv. pose proof (lookup_lt_Some _ _ _ Hv). apply Hw in Hv.
    apply (dev_store_outside d r new); [unfold in_range; lia|].
    rewrite <-Hv. do 2 f_equal. lia.
Qed.

(** A write changes which addresses are declared nowhere. *)
Lemma dev_words_undeclared (d : Device) (r rr : Range) (new : list Z) :
  Range_length r = Z.of_nat (length new) →
  dev_words (dev_store d r new) rr = None → dev_words d rr = None.
Proof.
  intros Hl (a & Ha & Hn)%dev_words_None. apply dev_words_None. exists a. split; [done|].
  unfold dev_store in Hn. case_decide as Hin; [|done]. destruct (d a) as [c|]; [|done]. simpl in Hn.
  destruct (lookup_lt_is_Some_2 new (Z.to_nat (a - r_start r))) as [v Hv];
    [unfold in_range, Range_length in *; lia|]. by rewrite Hv in Hn.
Qed.

(** What [register_words] reads around a completed write to its device. *)
Lemma completed_reads mem write mem' rr :
  completed mem write mem' → Range_wf rr →
  ∃ d, Memory_abs mem (sw_id write) = Some d ∧
    dev_words d (sw_range write) = Some (sw_old write) ∧
    Memory_read_unchecked mem (sw_id write) rr = Ret (dev_words d rr) ∧
    Memory_read_unchecked mem' (sw_id write) rr =
      Ret (dev_words (dev_store d (sw_range write) (sw_new write)) rr).
Proof.
  intros (Hwf & Hwf' & _ & _ & d & Hd & Hold & Hst) Hrr. exists d. split; [done|]. split; [done|].
  rewrite !Memory_read_unchecked_refines by done.
  rewrite (store_read_unchecked_proper _ _ Hst _ _ eq_refl _ _ eq_refl).
  unfold store_read_unchecked, store_set. by rewrite Hd, decide_True.
Qed.

Lemma binding_wf register ck key rr :
  (∀ addr, reg_address register = Fixed addr → is_uint 16 addr ∧
     8 * (addr + Z.of_nat (Format_width (reg_format register))) <= usize_max) →
  register_mem_binding register = Ret (Some (ck, key, rr)) →
  Range_wf rr ∧ Range_length rr = Z.of_nat (Format_width (reg_format register)).
Proof.
  intros Ha. unfold register_mem_binding. destruct (reg_address register) as [addr|]; [|done].
  destruct (Ha addr eq_refl) as [Hu Hmax]. unfold is_uint in Hu.
  destruct (Range_new addr _) as [r|] eqn:Hr; [|done]. simpl. intros [= _ _ <-]. split.
  - eapply Range_new_wf; [| | |done]; lia.
  - unfold Range_new in Hr. destruct (_ <=? _); [|done]. injection Hr as <-.
    unfold Range_length, Range_span. simpl. lia.
Qed.

Lemma dev_words_are_words (d : Device) (r : Range) (l : list Z) :
  Range_wf r → (∀ a c, d a = Some c → is_word (c_value c)) → dev_words d r = Some l →
  Forall is_word l.
Proof.
  intros Hr Hd [_ Hl]%dev_words_Some; [|done]. apply Forall_lookup_2. intros i v Hv.
  specialize (Hl i v Hv). apply fmap_Some in Hl as (c & Hc & ->). by eapply Hd.
Qed.

(** The register is one the tap can read: its address is a [u16], its words end
    where cells can, its mask is a [u128]. *)
Definition register_ok (register : Register) : Prop :=
  (∀ addr, reg_address register = Fixed addr → is_uint 16 addr ∧
     8 * (addr + Z.of_nat (Format_width (reg_format register))) <= usize_max) ∧
  mask_ok (reg_format register).

(** The event tells of the register's write: the value before and after, and no
    change only if there is none. *)
Definition describes (now_ms : Z → Z) (executing : option ScriptId) mem write mem'
    (name : string) (register : Register) (seq : Z) (ev : RegisterEvent) : Prop :=
  re_seq ev = seq ∧ re_timestamp_ms ev = now_ms seq ∧ re_name ev = name ∧
  re_source ev = event_source (sw_source write) executing ∧
  re_old ev = register_value mem register ∧ re_new ev = register_value mem' register ∧
  (re_changed ev = false → re_old ev = re_new ev) ∧
  (re_changed ev = true → is_Some (register_words mem register) →
     register_words mem register ≠ register_words mem' register).

(** Word [i] of the overlap as the write has it and as the register has it. *)
Lemma overlap_word (d : Device) (r rr ov : Range) (old new before after : list Z) (i : Z) :
  Range_wf r → Range_wf rr → Range_intersect rr r = Some ov →
  Z.of_nat (length new) = Range_length r → dev_words d r = Some old →
  dev_words d rr = Some before → dev_words (dev_store d r new) rr = Some after →
  0 <= i < Range_length ov →
  let at_ := Z.to_nat (r_start ov - r_start rr + i) in
  let in_ := Z.to_nat (r_start ov - r_start r + i) in
  ∃ o n, old !! in_ = Some o ∧ new !! in_ = Some n ∧ before !! at_ = Some o ∧ after !! at_ = Some n.
Proof.
  intros Hr Hrr (H1 & H2 & H3)%Range_intersect_Some Hl Hold Hbef Haft Hi at_ in_.
  apply (dev_words_Some _ _ _ Hr) in Hold as [Hlo Ho].
  apply (dev_words_Some _ _ _ Hrr) in Hbef as [Hlb Hb].
  apply (dev_words_Some _ _ _ Hrr) in Haft as [Hla Ha].
  unfold Range_wf, Range_length in *.
  destruct (lookup_lt_is_Some_2 old in_) as [o Hoi]; [unfold in_; lia|].
  destruct (lookup_lt_is_Some_2 new in_) as [n Hni]; [unfold in_; lia|].
  destruct (lookup_lt_is_Some_2 before at_) as [o' Hbi]; [unfold at_; lia|].
  destruct (lookup_lt_is_Some_2 after at_) as [n' Hai]; [unfold at_; lia|].
  exists o, n. apply Ho in Hoi as Ho1. apply Hb in Hbi as Hb1. apply Ha in Hai as Ha1.
  assert (r_start rr + Z.of_nat at_ = r_start r + Z.of_nat in_) as Hsame by (unfold at_, in_; lia).
  rewrite Hsame in Hb1, Ha1. assert (o' = o) as -> by congruence.
  unfold dev_store in Ha1. rewrite decide_True in Ha1 by (unfold in_range, in_; lia).
  replace (Z.to_nat (r_start r + Z.of_nat in_ - r_start r)) with in_ in Ha1 by lia.
  rewrite Hni in Ha1. apply fmap_Some in Ho1 as (c & Hc & _). rewrite Hc in Ha1. simpl in Ha1.
  by simplify_eq.
Qed.

(** The test of one overlapping word. *)
Definition word_changed (format : Format) write (rr ov : Range) (i : Z) : Outcome bool :=
  let bits := default 65535 (mask_words format !! Z.to_nat (r_start ov - r_start rr + i)) in
  old ← index (sw_old write) (r_start ov - r_start (sw_range write) + i);
  new ← index (sw_new write) (r_start ov - r_start (sw_range write) + i);
  Ret (negb (Z.land (Z.lxor old new) bits =? 0)).

Lemma word_changed_total format write rr ov i :
  Range_wf (sw_range write) → Range_intersect rr (sw_range write) = Some ov →
  Z.of_nat (length (sw_old write)) = Range_length (sw_range write) →
  Z.of_nat (length (sw_new write)) = Range_length (sw_range write) →
  0 <= i < Range_length ov →
  ∃ o n, sw_old write !! Z.to_nat (r_start ov - r_start (sw_range write) + i) = Some o ∧
    sw_new write !! Z.to_nat (r_start ov - r_start (sw_range write) + i) = Some n ∧
    word_changed format write rr ov i =
    Ret (negb (Z.land (Z.lxor o n)
      (default 65535 (mask_words format !! Z.to_nat (r_start ov - r_start rr + i))) =? 0)).
Proof.
  intros Hr (H1 & H2 & H3)%Range_intersect_Some Hlo Hln Hi. unfold Range_wf, Range_length in *.
  set (j := r_start ov - r_start (sw_range write) + i).
  destruct (lookup_lt_is_Some_2 (sw_old write) (Z.to_nat j)) as [o Ho]; [unfold j; lia|].
  destruct (lookup_lt_is_Some_2 (sw_new write) (Z.to_nat j)) as [n Hn]; [unfold j; lia|].
  exists o, n. split; [done|]. split; [done|]. unfold word_changed. fold j.
  assert (0 <= j) as Hj by (unfold j; lia).
  by rewrite (index_Ret _ _ o Hj Ho), (index_Ret _ _ n Hj Hn).
Qed.

(** If no overlapping word changed under the mask, the register's words agree. *)
Lemma unchanged_agree format write (d : Device) (rr ov : Range) (before after : list Z) :
  Range_wf (sw_range write) → Range_wf rr → Range_intersect rr (sw_range write) = Some ov →
  Z.of_nat (length (sw_new write)) = Range_length (sw_range write) →
  dev_words d (sw_range write) = Some (sw_old write) → dev_words d rr = Some before →
  dev_words (dev_store d (sw_range write) (sw_new write)) rr = Some after →
  (∀ i, 0 <= i < Range_length ov → word_changed format write rr ov i = Ret false) →
  ∀ k o n, before !! k = Some o → after !! k = Some n →
    agree (default 65535 (mask_words format !! k), o, n).
Proof.
  intros Hr Hrr Hov Hln Hold Hbef Haft Hch k o n Ho Hn.
  pose proof Hov as (H1 & H2 & H3)%Range_intersect_Some.
  pose proof (proj1 (dev_words_Some _ _ _ Hr) Hold) as [Hlo _].
  pose proof (proj1 (dev_words_Some _ _ _ Hrr) Hbef) as [Hlb Hb].
  pose proof (proj1 (dev_words_Some _ _ _ Hrr) Haft) as [Hla Ha].
  destruct (decide (in_range (r_start rr + Z.of_nat k) (sw_range write))) as [Hin|Hout].
  - set (i := Z.of_nat k - (r_start ov - r_start rr)).
    assert (0 <= i < Range_length ov) as Hi.
    { apply lookup_lt_Some in Ho. unfold in_range, Range_length in *. unfold i. lia. }
    destruct (overlap_word d _ _ _ _ _ _ _ i Hr Hrr Hov Hln Hold Hbef Haft Hi)
      as (o' & n' & Ho1 & Hn1 & Ho2 & Hn2).
    destruct (word_changed_total format write rr ov i Hr Hov Hlo Hln Hi) as (o2 & n2 & Ho3 & Hn3 & Hw).
    rewrite (Hch i Hi) in Hw. injection Hw as Hw. symmetry in Hw.
    apply negb_false_iff, Z.eqb_eq in Hw.
    replace (Z.to_nat (r_start ov - r_start rr + i)) with k in * by (unfold i; lia).
    unfold agree. by simplify_eq.
  - apply Hb in Ho. apply Ha in Hn. apply (dev_store_outside d) in Hn; [|done].
    assert (o = n) as -> by congruence. unfold agree. by rewrite Z.lxor_nilpotent.
Qed.

Lemma build_event_spec now_ms executing mem write mem' name register ck rr ov seq :
  completed mem write mem' → register_ok register → mem_words mem → mem_words mem' →
  register_mem_binding register = Ret (Some (ck, sw_id write, rr)) →
  Range_intersect rr (sw_range write) = Some ov →
  ∃ ev, build_event now_ms executing write mem' name register (sw_id write) rr ov seq = Ret ev ∧
    describes now_ms executing mem write mem' name register seq ev.
Proof.
  intros Hc [Haddr Hmask] Hmw Hmw' Hbind Hov.
  destruct (binding_wf _ _ _ _ Haddr Hbind) as [Hrr Hlen].
  destruct (completed_reads _ _ _ _ Hc Hrr) as (d & Hd & Hold & Hread & Hread').
  destruct Hc as (Hwf & Hwf' & Hr & Hln & d0 & Hd0 & _ & Hst). assert (d0 = d) as -> by congruence.
  pose proof (proj1 (dev_words_Some _ _ _ Hr) Hold) as [Hlo _].
  set (d' := dev_store d (sw_range write) (sw_new write)) in *.
  assert (register_words mem register = dev_words d rr) as Hw0
    by (unfold register_words; by rewrite Hbind, Hread).
  assert (register_words mem' register = dev_words d' rr) as Hw1
    by (unfold register_words; by rewrite Hbind, Hread').
  destruct (any_from_spec (word_changed (reg_format register) write rr ov) 0
    (Z.to_nat (Range_length ov))) as (b & Hany & Hb).
  { intros j Hj. pose proof Hov as (_ & _ & Hpos)%Range_intersect_Some.
    destruct (word_changed_total (reg_format register) write rr ov j Hr Hov Hlo Hln)
      as (o & n & _ & _ & ->); [unfold Range_length in *; lia|by eexists]. }
  unfold build_event. rewrite Hread'. cbn [mbind outcome_bind].
  unfold word_changed in Hany. unfold describes, register_value. rewrite Hw0, Hw1.
  destruct (dev_words d' rr) as [after|] eqn:Haft.
  - destruct (copy_words_before d _ rr ov _ _ after Hr Hrr Hov Hold Haft)
      as (src & before & Hsrc & Hcopy & Hbef).
    rewrite Hsrc. cbn [mbind outcome_bind]. rewrite Hcopy. cbn [mbind outcome_bind].
    rewrite Hany. eexists. split; [done|]. simpl. rewrite Hbef. split_and!; try done.
    + intros ->. unfold decode_ok, Register_decode.
      rewrite (masked_agree (reg_format register) before after); [done|done|..].
      * eapply dev_words_are_words; [done| |done]. intros a c Hac. by eapply Hmw.
      * specialize (Hst (sw_id write)). unfold store_set in Hst. rewrite decide_True in Hst by done.
        inversion Hst as [e1 e2 He Hm' Heq|]; subst. symmetry in Hm'.
        eapply dev_words_are_words; [done|intros a c Hac; by eapply Hmw'|].
        by rewrite (dev_words_proper _ _ He rr rr eq_refl).
      * pose proof (proj1 (dev_words_Some _ _ _ Hrr) Hbef). lia.
      * pose proof (proj1 (dev_words_Some _ _ _ Hrr) Haft). lia.
      * eapply (unchanged_agree _ write d rr ov); try done.
        intros j Hj. apply Hb. lia.
    + intros -> _ [= ->]. destruct Hb as (j & Hj & Hjt).
      pose proof Hov as (_ & _ & Hpos)%Range_intersect_Some.
      assert (0 <= j < Range_length ov) as Hj' by (unfold Range_length in *; lia).
      destruct (word_changed_total (reg_format register) write rr ov j Hr Hov Hlo Hln Hj')
        as (o & n & Ho & Hn & Hwc).
      destruct (overlap_word d _ _ _ _ _ _ _ j Hr Hrr Hov Hln Hold Hbef Haft Hj')
        as (o' & n' & Ho1 & Hn1 & Ho2 & Hn2).
      rewrite Hjt in Hwc. simplify_eq. rewrite Z.lxor_nilpotent in Hwc. done.
  - cbn [mbind outcome_bind]. rewrite Hany. eexists. split; [done|]. simpl.
    rewrite (dev_words_undeclared d (sw_range write) rr (sw_new write)) by (lia || done).
    split_and!; done.
Qed.

Lemma completed_words mem write mem' :
  completed mem write mem' → mem_words mem → Forall is_word (sw_new write) → mem_words mem'.
Proof.
  intros (_ & _ & _ & _ & d & Hd & _ & Hst) Hmw Hnew id d' a c Hd' Ha.
  specialize (Hst id). rewrite Hd' in Hst. unfold store_set in Hst.
  case_decide as Hid; [subst id|].
  - inversion Hst as [e1 e2 He|]; subst. rewrite (He a) in Ha. unfold dev_store in Ha.
    case_decide; [|exact (Hmw _ _ _ _ Hd Ha)]. destruct (d a) as [c0|]; [|done]. simpl in Ha.
    destruct (sw_new write !! _) as [v|] eqn:Hv; [|done]. simpl in Ha. injection Ha as <-.
    exact (Forall_lookup_1 _ _ _ _ Hnew Hv).
  - inversion Hst as [e1 e2 He H1 H2|]; subst. rewrite (He a) in Ha. symmetry in H2.
    exact (Hmw _ _ _ _ H2 Ha).
Qed.

(** Declaring keeps the store one of words. *)
Lemma dev_declare_words kind (d d' : Device) r :
  (∀ a c, d a = Some c → is_word (c_value c)) → dev_declare kind d r = Some d' →
  ∀ a c, d' a = Some c → is_word (c_value c).
Proof.
  intros Hd. unfold dev_declare. destruct (forallb _ _); [|done]. intros [= <-] a c.
  case_decide; [|apply Hd]. destruct (d a) as [c0|] eqn:Ha.
  - unfold cell_declare. case_bool_decide; [|done]. intros (acc & _ & ->)%fmap_Some. simpl. by eapply Hd.
  - intros [= <-]. done.
Qed.

Lemma dev_declare_all_words kind rs (d d' : Device) :
  (∀ a c, d a = Some c → is_word (c_value c)) → dev_declare_all kind d rs = Some d' →
  ∀ a c, d' a = Some c → is_word (c_value c).
Proof.
  revert d. induction rs as [|r rs IH]; intros d Hd; simpl; [by intros [= <-]|].
  destruct (dev_declare kind d r) as [d1|] eqn:E; [|done]. simpl.
  apply IH. by eapply dev_declare_words.
Qed.

Lemma add_ranges_words mem id kind rs b mem' :
  Memory_wf mem → Forall Range_wf rs → mem_words mem →
  Memory_add_ranges mem id kind rs = Ret (b, mem') → mem_words mem'.
Proof.
  intros Hwf Hrs Hmw Ha.
  destruct (Memory_add_ranges_refines mem id kind rs Hwf Hrs) as (m1 & Ha1 & _ & _ & Hst).
  rewrite Ha in Ha1. injection Ha1 as _ <-. intros id' d' a c Hd' Hc. specialize (Hst id').
  rewrite Hd' in Hst. unfold store_declare in Hst. destruct rs as [|r rs].
  { simpl in Hst. inversion Hst as [x y He Hx Hy|]; subst. rewrite (He a) in Hc.
    exact (Hmw _ _ _ _ (eq_sym Hy) Hc). }
  destruct (dev_declare_all _ _ _) as [d1|] eqn:Hd1; simpl in Hst.
  2:{ inversion Hst as [x y He Hx Hy|]; subst. rewrite (He a) in Hc.
      exact (Hmw _ _ _ _ (eq_sym Hy) Hc). }
  unfold store_set in Hst. case_decide as Hid; [subst id'|].
  - inversion Hst as [x y He|]; subst. rewrite (He a) in Hc.
    eapply dev_declare_all_words; [|exact Hd1|exact Hc]. intros a0 c0 Hac.
    destruct (Memory_abs mem id) as [d0|] eqn:E; [|done]. exact (Hmw _ _ _ _ E Hac).
  - inversion Hst as [x y He Hx Hy|]; subst. rewrite (He a) in Hc.
    exact (Hmw _ _ _ _ (eq_sym Hy) Hc).
Qed.

Lemma mem_words_default : mem_words Memory_default.
Proof. intros id d a c. unfold Memory_abs. simpl. by rewrite lookup_empty. Qed.

(** Does the write touch the register of the entry? *)
Definition touches write (entry : string * Register) : bool :=
  match register_mem_binding entry.2 with
  | Ret (Some (_, key, rr)) =>
      bool_decide (key = sw_id write) && bool_decide (is_Some (Range_intersect rr (sw_range write)))
  | _ => false
  end.

Definition registers_ok (registers : list (string * Register)) : Prop :=
  Forall (λ entry, register_ok entry.2 ∧ register_mem_binding entry.2 ≠ Panic) registers.

(** One register: left alone, or published. *)
Lemma tap_register_spec now_ms executing mem write mem' name register hub :
  completed mem write mem' → mem_words mem → mem_words mem' →
  register_ok register → register_mem_binding register ≠ Panic →
  if touches write (name, register)
  then ∃ build, tap_register now_ms executing write mem' hub (name, register) =
         Ret (publish hub build) ∧
       ∀ seq, describes now_ms executing mem write mem' name register seq (build seq)
  else tap_register now_ms executing write mem' hub (name, register) = Ret hub.
Proof.
  intros Hc Hmw Hmw' Hreg Hpanic. unfold touches, tap_register. simpl.
  destruct (register_mem_binding register) as [[[[ck key] rr]|]|] eqn:Hb; [|done|done].
  cbn [mbind outcome_bind]. case_bool_decide as Hk; [subst key|by rewrite decide_False].
  rewrite decide_True by done. simpl.
  destruct (Range_intersect rr (sw_range write)) as [ov|] eqn:Hov; case_bool_decide as Hov';
    [|by destruct Hov'; eexists|by destruct Hov'|done].
  set (build := λ seq, match build_event now_ms executing write mem' name register
      (sw_id write) rr ov seq with
    | Ret ev => ev
    | Panic => mkRegisterEvent seq 0 name None None RES_Set false
    end).
  assert (∀ seq, build_event now_ms executing write mem' name register (sw_id write) rr ov seq =
      Ret (build seq) ∧ describes now_ms executing mem write mem' name register seq (build seq))
    as Hbuild.
  { intros seq. destruct (build_event_spec now_ms executing mem write mem' name register ck rr ov seq)
      as (ev & Hev & Hd); [done..|]. unfold build. by rewrite Hev. }
  exists build. split; [|apply Hbuild]. rewrite <-publish_with_Ret. unfold publish_with. simpl.
  destruct (es_queues (h_stream hub)); [done|]. by rewrite (proj1 (Hbuild _)).
Qed.

(** The tap publishes once per touched register. *)
Lemma tap_written_publishes now_ms executing mem write mem' registers hub :
  completed mem write mem' → mem_words mem → Forall is_word (sw_new write) →
  registers_ok registers →
  ∃ builds, tap_written now_ms executing write mem' registers hub = Ret (foldl publish hub builds) ∧
    Forall2 (λ entry build, ∀ seq,
        describes now_ms executing mem write mem' entry.1 entry.2 seq (build seq))
      (filter (λ entry, touches write entry = true) registers) builds.
Proof.
  intros Hc Hmw Hnew Hok. pose proof (completed_words _ _ _ Hc Hmw Hnew) as Hmw'.
  revert hub. induction Hok as [|[name register] registers [Hreg Hbind] _ IH]; intros hub.
  { exists []. split; [done|constructor]. }
  pose proof (tap_register_spec now_ms executing mem write mem' name register hub
    Hc Hmw Hmw' Hreg Hbind) as Hspec.
  cbn [tap_written]. rewrite filter_cons. destruct (touches write (name, register)).
  - destruct Hspec as (build & -> & Hd). rewrite decide_True by done. cbn [mbind outcome_bind].
    destruct (IH (publish hub build)) as (builds & -> & Hall).
    exists (build :: builds). split; [done|]. by constructor.
  - rewrite Hspec, decide_False by done. apply IH.
Qed.
End events.

(** ** What the queues of the scripts get *)

(** The events of consecutive publications. *)
Fixpoint events_of (seq : Z) (builds : list (Z → RegisterEvent)) : list RegisterEvent :=
  match builds with
  | [] => []
  | build :: builds' => build seq :: events_of (as_uint 64 (seq + 1)) builds'
  end.

Lemma publish_next_seq (hub : Hub RegisterEvent) build :
  es_next_seq (h_stream (publish hub build)) = as_uint 64 (es_next_seq (h_stream hub) + 1).
Proof. rewrite publish_all, offer_all_stream. done. Qed.

(** A queue with room keeps what it selects, in order. *)
Lemma published_pending (hub : Hub RegisterEvent) (k : nat) builds :
  NoDup (es_queues (h_stream hub)) → k ∈ es_queues (h_stream hub) →
  (length (pending hub k) + length builds ≤ QUEUE_CAPACITY)%nat →
  pending (foldl publish hub builds) k =
  pending hub k ++ filter (λ ev, selects hub k ev = true)
    (events_of (es_next_seq (h_stream hub)) builds).
Proof.
  intros Hnd Hk. revert hub Hnd Hk. induction builds as [|build builds IH]; intros hub Hnd Hk Hroom.
  { simpl. by rewrite app_nil_r. }
  pose proof (publish_shape hub build) as Hshape. pose proof Hshape as (Hq & _).
  pose proof (publish_pending hub build k Hnd Hk) as Hp. cbv zeta in Hp.
  simpl in Hroom |- *. rewrite IH; [|by rewrite Hq|by rewrite Hq|].
  - rewrite publish_next_seq, Hp, filter_cons.
    rewrite (list_filter_iff _ (λ ev, selects hub k ev = true) (events_of _ builds))
      by (intros ev; by rewrite (shape_selects hub)).
    destruct (selects hub k (build _)) eqn:Hs; [rewrite decide_True|rewrite decide_False]; try done.
    unfold push_event. rewrite (proj2 (Nat.leb_gt _ _)) by lia. by rewrite <-app_assoc.
  - rewrite Hp. destruct (selects _ _ _); [|lia]. unfold push_event.
    rewrite (proj2 (Nat.leb_gt _ _)) by lia. rewrite length_app. simpl. lia.
Qed.

Lemma events_of_seq seq builds :
  0 <= seq → seq + Z.of_nat (length builds) < 2 ^ 64 →
  Forall (λ build, ∀ n, re_seq (build n) = n) builds →
  re_seq <$> events_of seq builds = seqZ seq (Z.of_nat (length builds)).
Proof.
  intros H0 Hlt Hall. revert seq H0 Hlt. induction Hall as [|build builds Hb Hall IH];
    intros seq H0 Hlt; [done|].
  change (length (build :: builds)) with (S (length builds)) in *.
  rewrite Nat2Z.inj_succ in *. rewrite seqZ_cons by lia. simpl. rewrite Hb. f_equal.
  rewrite as_uint_small by (unfold is_uint; lia).
  rewrite IH by lia. f_equal. lia.
Qed.

Lemma events_of_forall2 {A} (P : A → RegisterEvent → Prop) (l : list A) builds seq :
  Forall2 (λ x build, ∀ n, P x (build n)) l builds → Forall2 P l (events_of seq builds).
Proof. intros H. revert seq. induction H; intros seq; constructor; auto. Qed.

Section delivery.
Context {Tap : Type}.
Implicit Types (mem : Memory (Key SlaveKey) Tap).

(** A write the store completed, checked or not, with the calls it makes. *)
Inductive stored_write mem (source : WriteSource) (id : Key SlaveKey) (range : Range)
    (vs : list Z) mem' (calls : list (TapCall (Key SlaveKey) Tap)) : Prop :=
| SW_checked ty : Memory_write_from mem source id ty range vs = Ret (Ok tt, mem', calls) →
    stored_write mem source id range vs mem' calls
| SW_unchecked : Memory_write_unchecked_from mem source id range vs = Ret (true, mem', calls) →
    stored_write mem source id range vs mem' calls.

(** The tap is called once, with a report that is true. *)
Lemma stored_write_completed mem source id range vs mem' calls tap :
  Memory_wf mem → Range_wf range → m_tap mem = Some tap →
  stored_write mem source id range vs mem' calls →
  ∃ old, let write := mkStoreWrite source id range old vs in
    calls = [mkTapCall tap write mem'] ∧ completed mem write mem'.
Proof.
  intros Hwf Hr Htap Hw.
  assert (∃ d, Memory_abs mem id = Some d ∧ Range_length range = Z.of_nat (length vs) ∧
    is_Some (dev_words d range) ∧ Memory_wf mem' ∧
    Memory_abs mem' ≡ store_set (Memory_abs mem) id (dev_store d range vs) ∧
    Forall (λ call, tc_memory call = mem' ∧ Some (tc_tap call) = m_tap mem) calls ∧
    notes calls = store_notes true true (Memory_abs mem) source id range vs)
    as (d & Hd & Hl & [old Hold] & Hwf' & Hst & Hcalls & Hnotes).
  { destruct Hw as [ty Hw|Hw].
    - destruct (Memory_write_from_refines mem source id ty range vs Hwf Hr)
        as (m1 & c1 & Hw1 & (Hwf1 & _ & Hst) & Hcalls & Hn).
      rewrite Hw in Hw1. injection Hw1 as Hres <- <-.
      destruct (store_write (Memory_abs mem) id ty range vs) as [res st] eqn:Es. simpl in *. subst res.
      apply store_write_Ok in Es as (d & Hd & Hl & Hall & ->). exists d.
      unfold tapped in Hn. rewrite Htap in Hn. split_and!; try done.
      destruct (dev_words d range) eqn:E; [done|]. apply dev_words_None in E as (a & Ha & Hna).
      apply (proj1 (dev_all_true _ _ _) Hall) in Ha as (c & Hc & _). congruence.
    - destruct (Memory_write_unchecked_from_refines mem source id range vs Hwf Hr)
        as (m1 & c1 & Hw1 & (Hwf1 & _ & Hst) & Hcalls & Hn).
      rewrite Hw in Hw1. injection Hw1 as Hres <- <-.
      unfold tapped in Hn. rewrite Htap, <-Hres in Hn. unfold store_write_unchecked in Hres, Hst.
      destruct (Range_length range =? Z.of_nat (length vs)) eqn:Hl; [|done]. zbool. simpl in *.
      destruct (Memory_abs mem id) as [d|] eqn:Hd; [|done]. simpl in *.
      symmetry in Hres. apply bool_decide_eq_true in Hres. exists d.
      rewrite dev_prefix_covered in Hst; [by split_and!|done|].
      intros a Ha. by apply (dev_words_covered d range). }
  exists old. unfold store_notes, store_read_unchecked in Hnotes. rewrite Hd in Hnotes. simpl in Hnotes.
  rewrite Hold in Hnotes. split.
  - destruct calls as [|call [|c2 cs]]; [done| |done]. injection Hnotes as Hn.
    apply Forall_cons_1 in Hcalls as [[H1 H2] _]. rewrite Htap in H2.
    destruct call; simpl in *. by simplify_eq.
  - split_and!; [done|done|done|simpl; lia|]. by exists d.
Qed.

(** What a stored write adds to a queue that has room. *)
Lemma stored_write_pending now_ms executing mem source id range vs mem' calls tap registers hub k :
  Memory_wf mem → mem_words mem → m_tap mem = Some tap → Range_wf range → Forall is_word vs →
  registers_ok registers → stored_write mem source id range vs mem' calls →
  NoDup (es_queues (h_stream hub)) → k ∈ es_queues (h_stream hub) →
  (length (pending hub k) + length registers ≤ QUEUE_CAPACITY)%nat →
  0 <= es_next_seq (h_stream hub) → 
  es_next_seq (h_stream hub) + Z.of_nat (length registers) < 2 ^ 64 →
  ∃ old hub' evs, let write := mkStoreWrite source id range old vs in
    tap_calls now_ms executing calls registers hub = Ret hub' ∧
    Forall2 (λ entry ev,
        describes now_ms executing mem write mem' entry.1 entry.2 (re_seq ev) ev)
      (filter (λ entry, touches write entry = true) registers) evs ∧
    re_seq <$> evs = seqZ (es_next_seq (h_stream hub)) (Z.of_nat (length evs)) ∧
    pending hub' k = pending hub k ++ filter (λ ev, selects hub k ev = true) evs.
Proof.
  intros Hwf Hmw Htap Hr Hvs Hok Hw Hnd Hk Hroom H0 Hseq.
  destruct (stored_write_completed _ _ _ _ _ _ _ _ Hwf Hr Htap Hw) as (old & -> & Hc).
  destruct (tap_written_publishes now_ms executing _ _ _ registers hub Hc Hmw Hvs Hok)
    as (builds & Htw & Hall).
  set (write := mkStoreWrite source id range old vs) in *.
  assert (length builds ≤ length registers)%nat as Hlen.
  { rewrite <-(Forall2_length _ _ _ Hall). apply length_filter. }
  exists old, (foldl publish hub builds), (events_of (es_next_seq (h_stream hub)) builds).
  assert (length (events_of (es_next_seq (h_stream hub)) builds) = length builds) as Hle.
  { generalize (es_next_seq (h_stream hub)). clear. induction builds; intros; simpl; auto. }
  split; [|split; [|split]].
  - simpl. fold write. by rewrite Htw.
  - apply events_of_forall2. eapply Forall2_impl; [done|]. intros entry build Hd n.
    pose proof (Hd n) as Hdn. by rewrite (proj1 Hdn).
  - rewrite Hle. apply events_of_seq; [done|lia|].
    apply Forall_lookup_2. intros i build Hb.
    destruct (Forall2_lookup_r _ _ _ _ _ Hall Hb) as (entry & _ & Hd). intros n. apply (Hd n).
  - apply published_pending; [done|done|lia].
Qed.

(** A completed store write, checked or forced, publishes exactly one event
    for each register of the module it touches, in one go and without panic. The
    event carries the value the register read as before and reads as after the
    write, its source, and is marked unchanged only if both are the same; marked
    changed, the register's words differ. *)
Theorem store_write_publishes now_ms executing mem source id range vs mem' calls tap registers hub :
  Memory_wf mem → mem_words mem → m_tap mem = Some tap → Range_wf range → Forall is_word vs →
  registers_ok registers → stored_write mem source id range vs mem' calls →
  ∃ old builds, let write := mkStoreWrite source id range old vs in
    Memory_read_unchecked mem id range = Ret (Some old) ∧
    tap_calls now_ms executing calls registers hub = Ret (foldl publish hub builds) ∧
    Forall2 (λ entry build, ∀ seq,
        describes now_ms executing mem write mem' entry.1 entry.2 seq (build seq))
      (filter (λ entry, touches write entry = true) registers) builds.
Proof.
  intros Hwf Hmw Htap Hr Hvs Hok Hw.
  destruct (stored_write_completed _ _ _ _ _ _ _ _ Hwf Hr Htap Hw) as (old & -> & Hc).
  destruct (tap_written_publishes now_ms executing _ _ _ registers hub Hc Hmw Hvs Hok)
    as (builds & Htw & Hall).
  exists old, builds. split; [|split; [|done]].
  - destruct (completed_reads _ _ _ range Hc Hr) as (d & _ & Hd & Hread & _). simpl in Hd, Hread.
    by rewrite Hread, Hd.
  - cbn [tap_calls tc_write tc_memory]. by rewrite Htw.
Qed.

(** A script with a register trigger is queued an event for every register it
    names whose value a write changes, or that is written at all if it asks for
    every write, and for nothing else; its own writes never reach it. *)
Theorem script_hears_changes now_ms executing mem source id range vs mem' calls tap registers hub
    k q selection every_write me :
  Memory_wf mem → mem_words mem → m_tap mem = Some tap → Range_wf range → Forall is_word vs →
  registers_ok registers → stored_write mem source id range vs mem' calls →
  NoDup (es_queues (h_stream hub)) → k ∈ es_queues (h_stream hub) →
  h_queues hub !! k = Some q → q_selector q = register_selector (MT_Register selection every_write) me →
  (length (pending hub k) + length registers ≤ QUEUE_CAPACITY)%nat →
  0 <= es_next_seq (h_stream hub) →
  es_next_seq (h_stream hub) + Z.of_nat (length registers) < 2 ^ 64 →
  ∃ old hub' heard, let write := mkStoreWrite source id range old vs in
    tap_calls now_ms executing calls registers hub = Ret hub' ∧
    pending hub' k = pending hub k ++ heard ∧
    (event_source source executing = RES_Lua (Some me) → heard = []) ∧
    (∀ name register, (name, register) ∈ registers → touches write (name, register) = true →
       names_register selection name = true → event_source source executing ≠ RES_Lua (Some me) →
       every_write = true ∨ register_value mem register ≠ register_value mem' register →
       ∃ ev, ev ∈ heard ∧ re_name ev = name ∧
         re_old ev = register_value mem register ∧ re_new ev = register_value mem' register) ∧
    (∀ ev, ev ∈ heard → ∃ register, (re_name ev, register) ∈ registers ∧
       touches write (re_name ev, register) = true ∧ names_register selection (re_name ev) = true ∧
       (every_write = true ∨ (is_Some (register_words mem register) →
          register_words mem register ≠ register_words mem' register))).
Proof.
  intros Hwf Hmw Htap Hr Hvs Hok Hw Hnd Hk Hq Hsel Hroom H0 Hseq.
  destruct (stored_write_pending now_ms executing mem source id range vs mem' calls tap registers
    hub k) as (old & hub' & evs & Hcalls & Hall & _ & Hpend); [done..|].
  set (write := mkStoreWrite source id range old vs) in *.
  assert (∀ ev, selects hub k ev = register_selector (MT_Register selection every_write) me ev) as Hs.
  { intros ev. unfold selects. by rewrite Hq, Hsel. }
  exists old, hub', (filter (λ ev, selects hub k ev = true) evs).
  split; [done|]. split; [done|]. split; [|split].
  - intros Hown. assert (∀ ev, ev ∉ filter (λ ev, selects hub k ev = true) evs) as Hno.
    { intros ev [Hse Hin]%list_elem_of_filter. apply list_elem_of_lookup_1 in Hin as [i Hi].
      destruct (Forall2_lookup_r _ _ _ _ _ Hall Hi) as (entry & _ & _ & _ & _ & Hsrc & _).
      rewrite Hs in Hse. unfold register_selector, own_write in Hse. simpl in Hsrc.
      rewrite Hsrc, Hown, bool_decide_true, andb_false_r in Hse by done. done. }
    destruct (filter _ evs) as [|ev l]; [done|]. by destruct (Hno ev (list_elem_of_here _ _)).
  - intros name register Hin Ht Hn Hown Hch.
    assert ((name, register) ∈ filter (λ entry, touches write entry = true) registers) as Hf
      by by apply list_elem_of_filter.
    apply list_elem_of_lookup_1 in Hf as [i Hi].
    destruct (Forall2_lookup_l _ _ _ _ _ Hall Hi)
      as (ev & Hev & _ & _ & Hname & Hsrc & Ho & Hnew & Hunch & _). simpl in *.
    exists ev. split; [|done]. apply list_elem_of_filter.
    split; [|by eapply list_elem_of_lookup_2]. rewrite Hs. unfold register_selector, own_write.
    rewrite Hname, Hn, Hsrc. apply andb_true_iff. split.
    + destruct every_write; [done|]. simpl. destruct (re_changed ev); [done|].
      specialize (Hunch eq_refl). destruct Hch as [?|Hch]; [done|]. by rewrite Ho, Hnew in Hunch.
    + apply negb_true_iff. destruct (event_source source executing) as [| | |[me'|]]; try done.
      apply bool_decide_eq_false. congruence.
  - intros ev [Hse Hin]%list_elem_of_filter. apply list_elem_of_lookup_1 in Hin as [i Hi].
    destruct (Forall2_lookup_r _ _ _ _ _ Hall Hi)
      as ([name register] & He & _ & _ & Hname & Hsrc & _ & _ & _ & Hch). simpl in *. subst name.
    apply list_elem_of_lookup_2, list_elem_of_filter in He as [Ht Hreg].
    exists register. split; [done|]. split; [done|].
    rewrite Hs in Hse. unfold register_selector in Hse. simpl in Hse.
    apply andb_true_iff in Hse as [[Hn Hc]%andb_true_iff _]. split; [done|].
    destruct every_write; [by left|right]. by apply Hch.
Qed.
End delivery.

(** ** Witnesses *)

Definition demo_key : Key SlaveKey := mkKey (mkSlaveKey 1 K_HoldingRegister).

(** One holding register of device 1 at address 2. *)
Definition demo_register : Register :=
  mkRegister 1 RA_ReadWrite K_HoldingRegister (Fixed 2)
    (Format_int IK_U16 E_Big WO_Normal Resolution_default BitField_default).

Definition demo_cells : Memory (Key SlaveKey) unit :=
  match Memory_add_ranges Memory_default demo_key (CellKind_read_write CT_Register) [mkRange 0 4] with
  | Ret (_, mem) => Memory_set_write_tap mem tt
  | Panic => Memory_default
  end.

Definition demo_cells_written : Memory (Key SlaveKey) unit :=
  match Memory_write_unchecked demo_cells demo_key (mkRange 2 3) [7] with
  | Ret (_, mem) => mem
  | Panic => Memory_default
  end.

Definition demo_me : ScriptId := mkScriptId SO_Module "s".

Definition demo_hub : Hub RegisterEvent :=
  (feed_attach (mkHub EventStream_new [] [false])
     (register_selector (MT_Register Sel_All false) demo_me) 0).2.

Definition demo_calls : list (TapCall (Key SlaveKey) unit) :=
  [mkTapCall tt (mkStoreWrite WS_Poll demo_key (mkRange 2 3) [0] [7]) demo_cells_written].

Lemma demo_cells_ok : Memory_wf demo_cells ∧ mem_words demo_cells.
Proof.
  assert (Forall Range_wf [mkRange 0 4]) as Hr by (repeat constructor; by vm_compute).
  destruct (Memory_add_ranges_refines (Tap := unit) Memory_default demo_key
    (CellKind_read_write CT_Register) _ Memory_wf_default Hr) as (mem & Ha & Hwf & _ & _).
  assert (demo_cells = Memory_set_write_tap mem tt) as ->
    by (unfold demo_cells; by rewrite Ha).
  split; [exact Hwf|].
  exact (add_ranges_words _ _ _ _ _ _ Memory_wf_default Hr mem_words_default Ha).
Qed.

Lemma demo_registers_ok : registers_ok [("r"%string, demo_register)].
Proof.
  apply list.Forall_singleton. split; [split|discriminate].
  - intros addr [= <-]. split; by vm_compute.
  - by vm_compute.
Qed.

Lemma demo_write_stored : stored_write demo_cells WS_Poll demo_key (mkRange 2 3) [7]
  demo_cells_written demo_calls.
Proof. apply SW_unchecked. vm_compute. reflexivity. Qed.

Lemma store_write_publishes_witness :
  ∃ old builds, Memory_read_unchecked demo_cells demo_key (mkRange 2 3) = Ret (Some old) ∧
    tap_calls (λ _, 5) None demo_calls [("r"%string, demo_register)] demo_hub =
      Ret (foldl publish demo_hub builds).
Proof.
  destruct (store_write_publishes (λ _, 5) None demo_cells WS_Poll demo_key (mkRange 2 3) [7]
    demo_cells_written demo_calls tt [("r"%string, demo_register)] demo_hub
    (proj1 demo_cells_ok) (proj2 demo_cells_ok) eq_refl) as (old & builds & H1 & H2 & _);
    [by vm_compute|repeat constructor; by vm_compute|exact demo_registers_ok
    |exact demo_write_stored|].
  exists old, builds. split; [exact H1|exact H2].
Defined.

Lemma script_hears_changes_witness :
  ∃ hub' heard, tap_calls (λ _, 5) None demo_calls [("r"%string, demo_register)] demo_hub = Ret hub' ∧
    pending hub' 0 = heard ∧
    ∃ ev, ev ∈ heard ∧ re_old ev = Some (V_Numeric (NP_U16 0) Resolution_default) ∧
      re_new ev = Some (V_Numeric (NP_U16 7) Resolution_default).
Proof.
  destruct (script_hears_changes (λ _, 5) None demo_cells WS_Poll demo_key (mkRange 2 3) [7]
    demo_cells_written demo_calls tt [("r"%string, demo_register)] demo_hub 0
    (mkQueue (register_selector (MT_Register Sel_All false) demo_me) 0 []) Sel_All false demo_me
    (proj1 demo_cells_ok) (proj2 demo_cells_ok) eq_refl) as (old & hub' & heard & H1 & H2 & _ & H3 & _);
    [by vm_compute|repeat constructor; by vm_compute|exact demo_registers_ok
    |exact demo_write_stored|apply NoDup_singleton|apply list_elem_of_here|reflexivity|reflexivity
    |apply Nat.leb_le; vm_compute; reflexivity|by vm_compute|by vm_compute|].
  exists hub', heard. split; [exact H1|]. split; [exact H2|].
  destruct (H3 "r"%string demo_register) as (ev & Hin & _ & Ho & Hn);
    [apply list_elem_of_here|reflexivity|reflexivity|discriminate|right; by vm_compute|].
  exists ev. split; [exact Hin|]. split; [rewrite Ho|rewrite Hn]; by vm_compute.
Defined.
