(* ===== verification/LuaBridge.v ===== *)
(** * Register access from scripts

    Models [ferrowl/src/lua.rs] and [lua/value_conv.rs]: the [C_Register]
    accessor of a module, the conversions of Lua values, and the plan of the
    module's simulation thread. A float is its bit pattern; rounding a number to
    a float and the text of one are parameters. *)

From stdpp Require Import base list gmap numbers strings.
From S2P Require Import Prelude Slice Memory Bytes IntText Format Codec CodecSpec Key DeviceConfig Registers ReadPlan SimScheduler RegEvents.

Local Open Scope Z_scope.

(** ** Lua values *)

Inductive LuaValue :=
| LV_Int (v : Z)
| LV_Float (bits : Z)
| LV_String (s : list Z)
| LV_Bool (b : bool)
| LV_Nil.

Inductive BridgeError :=
| BE_UnknownRegister (name : string)
| BE_VirtualNotSet (name : string)
| BE_NotReadable (name : string)
| BE_Decode (name : string) (e : CodecError)
| BE_Encode (name : string) (e : CodecError)
| BE_SetNil
| BE_IntRange (v : Z) (format : Format)
| BE_NotWhole (bits : Z) (format : Format)
| BE_FloatRange (bits : Z) (format : Format)
| BE_NotWritable (name : string).

(** The integer an [f64] is, when it is finite and has no fraction. *)
Definition f64_whole (bits : Z) : option Z :=
  let exponent := Z.land (Z.shiftr bits 52) 0x7FF in
  let mantissa := Z.land bits (2 ^ 52 - 1) in
  if exponent =? 0x7FF then None
  else
    let '(m, e) :=
      if exponent =? 0 then (mantissa, -1074) else (mantissa + 2 ^ 52, exponent - 1075) in
    let signed := λ v, if Z.testbit bits 63 then - v else v in
    if 0 <=? e then Some (signed (m * 2 ^ e))
    else if m mod 2 ^ (- e) =? 0 then Some (signed (m / 2 ^ (- e))) else None.

Definition kind_min (kind : IntKind) : Z := int_min (kind_signed kind) (IntKind_bits kind).
Definition kind_max (kind : IntKind) : Z := int_max (kind_signed kind) (IntKind_bits kind).

(** [<$ty>::MAX as f64]: rounded up to the power of two where 53 bits do not
    hold it. *)
Definition kind_max_f64 (kind : IntKind) : Z :=
  if IntKind_bits kind <=? 32 then kind_max kind else kind_max kind + 1.

Section conv.
(** [v as f32] and [v as f64] of integers, and between the two; [to_string] of an
    [f64]; [str::parse]. *)
Context (i128_to_f32 i128_to_f64 f64_to_f32 f32_to_f64 : Z → Z).
Context (display_f64 : Z → list Z) (parse_f32 parse_f64 : list Z → option Z).

Definition format_resolution (format : Format) : Resolution :=
  default Resolution_default (Format_resolution format).

Definition virtual_value_from_type (value : LuaValue) (register : Register)
  : Result Value BridgeError :=
  let res := format_resolution (reg_format register) in
  match value with
  | LV_Nil => Err BE_SetNil
  | LV_String s => Ok (str_to_value parse_f64 s register)
  | LV_Bool b => Ok (V_Numeric (NP_I64 (Z.b2z b)) res)
  | LV_Int v =>
      Ok (if in_int true 64 v then V_Numeric (NP_I64 v) res
          else V_Numeric (NP_F64 (i128_to_f64 v)) res)
  | LV_Float v => Ok (V_Numeric (NP_F64 v) res)
  end.

Definition int_value_for_format (v : Z) (format : Format) : Result Value BridgeError :=
  let res := format_resolution format in
  match format with
  | F_Numeric nf =>
      if in_int (kind_signed (nf_kind nf)) (IntKind_bits (nf_kind nf)) v
      then Ok (V_Numeric (kind_prim (nf_kind nf) v) res)
      else Err (BE_IntRange v format)
  | F_Float ff =>
      Ok (V_Numeric match ff_kind ff with
                    | FK_F32 => NP_F32 (i128_to_f32 v)
                    | FK_F64 => NP_F64 (i128_to_f64 v)
                    end res)
  | F_Ascii _ _ => Ok (V_Ascii (int_display v))
  end.

(** [float_int_variant!]: the cast saturates. *)
Definition float_int_variant (kind : IntKind) (bits : Z) (res : Resolution) (format : Format)
  : Result Value BridgeError :=
  match f64_whole bits with
  | None => Err (BE_NotWhole bits format)
  | Some v =>
      if (v <? kind_min kind) || (kind_max_f64 kind <? v) then Err (BE_FloatRange bits format)
      else Ok (V_Numeric (kind_prim kind (Z.max (kind_min kind) (Z.min (kind_max kind) v))) res)
  end.

Definition float_value_for_format (v : Z) (format : Format) : Result Value BridgeError :=
  let res := format_resolution format in
  match format with
  | F_Numeric nf => float_int_variant (nf_kind nf) v res format
  | F_Float ff =>
      Ok (V_Numeric match ff_kind ff with
                    | FK_F32 => NP_F32 (f64_to_f32 v)
                    | FK_F64 => NP_F64 v
                    end res)
  | F_Ascii _ _ => Ok (V_Ascii (display_f64 v))
  end.

(** [typed_value_from_type]; a string does not get here. *)
Definition typed_value_from_type (value : LuaValue) (format : Format)
  : Outcome (Result Value BridgeError) :=
  match value with
  | LV_Nil => Ret (Err BE_SetNil)
  | LV_String _ => Panic
  | LV_Bool b => Ret (int_value_for_format (Z.b2z b) format)
  | LV_Int v => Ret (int_value_for_format v format)
  | LV_Float v => Ret (float_value_for_format v format)
  end.

Definition value_to_type (value : Value) : LuaValue :=
  match value with
  | V_Numeric p _ =>
      match p with
      | NP_U8 v | NP_U16 v | NP_U32 v | NP_U64 v
      | NP_I8 v | NP_I16 v | NP_I32 v | NP_I64 v | NP_I128 v => LV_Int v
      | NP_U128 v => LV_Int (as_sint 128 v)
      | NP_F32 v => LV_Float (f32_to_f64 v)
      | NP_F64 v => LV_Float v
      end
  | V_Ascii s => LV_String s
  end.

(** ** The accessor *)

Section bridge.
Context {Tap : Type}.
Context (display_float : NumericPrimitive → list Z).

(** The module's shared state, as [RegisterBridge] holds it. *)
Record Bridge := mkBridge {
  br_memory : Memory (Key SlaveKey) Tap;
  br_virtual : gmap string Value;
  br_registers : gmap string Register;
  br_hub : Hub RegisterEvent
}.

Definition bridge_register (self : Bridge) (name : string) : Result Register BridgeError :=
  match br_registers self !! name with
  | Some register => Ok register
  | None => Err (BE_UnknownRegister name)
  end.

Definition bridge_read (self : Bridge) (name : string) : Outcome (Result LuaValue BridgeError) :=
  match bridge_register self name with
  | Err e => Ret (Err e)
  | Ok register =>
      match reg_address register with
      | Virtual =>
          Ret match br_virtual self !! name with
              | Some v => Ok (value_to_type v)
              | None => Err (BE_VirtualNotSet name)
              end
      | Fixed addr =>
          range ← Range_new addr (Z.of_nat (Format_width (reg_format register)));
          words ← Memory_read_unchecked (br_memory self) (register_key register) range;
          Ret match words with
              | None => Err (BE_NotReadable name)
              | Some raw =>
                  match Register_decode register raw with
                  | Ok value => Ok (value_to_type value)
                  | Err e => Err (BE_Decode name e)
                  end
              end
      end
  end.

(** The words a value is written as. *)
Definition encode_type (register : Register) (name : string) (value : LuaValue)
  : Outcome (Result (list Z) BridgeError) :=
  match value with
  | LV_String s =>
      Ret match Register_encode parse_f32 parse_f64 register s with
          | Ok raw => Ok raw
          | Err e => Err (BE_Encode name e)
          end
  | _ =>
      typed ← typed_value_from_type value (reg_format register);
      Ret match typed with
          | Err e => Err e
          | Ok typed =>
              match Register_encode_value register typed with
              | Ok raw => Ok raw
              | Err e => Err (BE_Encode name e)
              end
          end
  end.

(** [write] on the thread of the script [executing]; the tap visits the registers
    in the order the map lists them. *)
Definition bridge_write (now_ms : Z → Z) (executing : option ScriptId) (self : Bridge)
    (name : string) (value : LuaValue) : Outcome (Result unit BridgeError * Bridge) :=
  match bridge_register self name with
  | Err e => Ret (Err e, self)
  | Ok register =>
      match reg_address register with
      | Virtual =>
          match virtual_value_from_type value register with
          | Err e => Ret (Err e, self)
          | Ok v =>
              let old := br_virtual self !! name in
              hub ← publish_virtual display_float now_ms (br_hub self) name old v
                      (RES_Lua executing);
              Ret (Ok tt, mkBridge (br_memory self) (<[name := v]> (br_virtual self))
                            (br_registers self) hub)
          end
      | Fixed addr =>
          words ← encode_type register name value;
          match words with
          | Err e => Ret (Err e, self)
          | Ok raw =>
              range ← Range_new addr (Z.of_nat (length raw));
              '(ok, memory, calls) ← Memory_write_unchecked_from (br_memory self) WS_Script
                                       (register_key register) range raw;
              hub ← tap_calls now_ms executing calls (map_to_list (br_registers self)) (br_hub self);
              Ret (if (ok : bool) then Ok tt else Err (BE_NotWritable name),
                   mkBridge memory (br_virtual self) (br_registers self) hub)
          end
      end
  end.

Definition bridge_has (self : Bridge) (name : string) : bool :=
  match bridge_register self name with Ok _ => true | Err _ => false end.
End bridge.
End conv.

Arguments Bridge Tap : clear implicits.

(** ** The plan of the simulation thread *)

Definition sim_script_id (script : ScriptDef ModbusTrigger) : ScriptId :=
  mkScriptId SO_Module (sd_name script).

(** One script of [run_sim]; [acc] holds the plan, the watch list and the hub. *)
Definition plan_script (wake : nat)
    (acc : list PlannedScript * list (string * Selection) * Hub RegisterEvent)
    (script : ScriptDef ModbusTrigger)
  : list PlannedScript * list (string * Selection) * Hub RegisterEvent :=
  let '(planned, watched, hub) := acc in
  let id := sim_script_id script in
  match sd_trigger script with
  | None => (planned ++ [mkPlanned id SS_EveryCycle], watched, hub)
  | Some trigger =>
      let '(MT_Register registers _) := trigger in
      let '(k, hub) := feed_attach hub (register_selector trigger id) wake in
      (planned ++ [mkPlanned id (SS_Events k)], watched ++ [(sd_name script, registers)], hub)
  end.

(** [SimWake::default]. *)
Definition wake_new (hub : Hub RegisterEvent) : nat * Hub RegisterEvent :=
  (length (h_wakes hub), mkHub (h_stream hub) (h_queues hub) (h_wakes hub ++ [false])).

(** [run_sim] until the thread is spawned. *)
Definition run_sim_plan (scripts : list (ScriptDef ModbusTrigger)) (hub : Hub RegisterEvent)
  : option (list PlannedScript * list (string * Selection) * nat * Hub RegisterEvent) :=
  match scripts with
  | [] => None
  | _ =>
      let '(wake, hub) := wake_new hub in
      let '(planned, watched, hub) := foldl (plan_script wake) ([], [], hub) scripts in
      Some (planned, watched, wake, hub)
  end.

(** The warnings about what scripts watch. *)
Inductive WatchWarning := WW_WatchesNone (script : string) | WW_Unknown (script name : string).

Definition watch_warnings (known : gmap string Register) (watched : list (string * Selection))
  : list WatchWarning :=
  watched ≫= λ '(script, selection),
    match selection with
    | Sel_All => []
    | Sel_Names [] => [WW_WatchesNone script]
    | Sel_Names names =>
        (λ name, WW_Unknown script name) <$> filter (λ name, known !! name = None) names
    end.
