(* ===== verification/LuaBridgeProps.v ===== *)
(** * Properties of register access from scripts

    A script reads back what it sets; what a set does to its neighbours; the plan
    of the simulation thread is one its scheduler may run. *)

From stdpp Require Import base list gmap numbers strings.
From S2P Require Import Prelude Slice Memory MemorySpec Store StoreRefine StoreProps Bytes IntText Format Codec CodecSpec CodecProps Key DeviceConfig Registers ReadPlan SimScheduler SimProps RegEvents LuaBridge.

Local Open Scope Z_scope.

Section bridge.
Context (i128_to_f32 i128_to_f64 f64_to_f32 f32_to_f64 : Z → Z).
Context (display_f64 : Z → list Z) (parse_f32 parse_f64 : list Z → option Z).
Context {Tap : Type}.
Context (display_float : NumericPrimitive → list Z) (now_ms : Z → Z) (executing : option ScriptId).
Implicit Types (self : Bridge Tap).

Abbreviation write := (bridge_write i128_to_f32 i128_to_f64 f64_to_f32 display_f64 parse_f32
  parse_f64 display_float now_ms executing).
Abbreviation read := (bridge_read f32_to_f64).
Abbreviation encode_lua := (encode_type i128_to_f32 i128_to_f64 f64_to_f32 display_f64 parse_f32
  parse_f64).

(** A module's state between accesses. *)
Definition bridge_ok self : Prop :=
  Memory_wf (br_memory self) ∧ mem_words (br_memory self) ∧
  registers_ok (map_to_list (br_registers self)).

(** The range of a register with an address. *)
Definition register_range (register : Register) (addr : Z) : Range :=
  Range_span addr (Z.of_nat (Format_width (reg_format register))).

Lemma bridge_register_ok self name register :
  bridge_ok self → br_registers self !! name = Some register →
  register_ok register ∧ register_mem_binding register ≠ Panic.
Proof.
  intros (_ & _ & Hok) Hr. unfold registers_ok in Hok. rewrite list.Forall_forall in Hok.
  apply (Hok (name, register)). by apply elem_of_map_to_list.
Qed.

Lemma register_new register addr :
  register_ok register → register_mem_binding register ≠ Panic →
  reg_address register = Fixed addr →
  Range_new addr (Z.of_nat (Format_width (reg_format register))) = Ret (register_range register addr) ∧
  Range_wf (register_range register addr) ∧
  register_mem_binding register =
    Ret (Some (kind_cell_kind (reg_kind register) (mem_type register), register_key register,
               register_range register addr)).
Proof.
  intros [Ha _] Hp Haddr. destruct (Ha addr Haddr) as [Hu Hmax]. unfold register_mem_binding in *.
  rewrite Haddr in *. unfold Range_new in *. destruct (_ <=? _) eqn:E; [|done]. zbool. simpl in *.
  split; [done|]. split; [|done]. unfold Range_wf, register_range, Range_span, is_uint in *. simpl. lia.
Qed.

(** The calls of a forced write never panic the tap. *)
Lemma tap_calls_total mem source id range vs b mem' calls registers hub :
  Memory_wf mem → mem_words mem → Range_wf range → Forall is_word vs → registers_ok registers →
  Memory_write_unchecked_from mem source id range vs = Ret (b, mem', calls) →
  ∃ hub', tap_calls (Tap := Tap) now_ms executing calls registers hub = Ret hub'.
Proof.
  intros Hwf Hmw Hr Hvs Hok Hw.
  destruct (Memory_write_unchecked_from_refines mem source id range vs Hwf Hr)
    as (m1 & c1 & Hw1 & _ & _ & Hn). rewrite Hw in Hw1. injection Hw1 as Hb <- <-.
  assert (calls = [] ∨ b = true ∧ ∃ tap, m_tap mem = Some tap) as [->|[-> [tap Htap]]].
  { destruct (m_tap mem) as [tap|] eqn:Htap.
    - destruct b; [right; eauto|left]. rewrite <-Hb in Hn. unfold store_notes in Hn.
      rewrite andb_false_r in Hn. by destruct calls.
    - left. unfold tapped in Hn. rewrite Htap in Hn. by destruct calls. }
  { by exists hub. }
  destruct (stored_write_completed mem source id range vs mem' calls tap Hwf Hr Htap)
    as (old & -> & Hc); [by apply SW_unchecked|].
  destruct (tap_written_publishes now_ms executing _ _ _ registers hub Hc Hmw Hvs Hok)
    as (builds & Htw & _).
  exists (foldl publish hub builds). cbn [tap_calls tc_write tc_memory]. by rewrite Htw.
Qed.

(** A forced write of all of a register: what it reads as then, and what it leaves
    alone. *)
Definition writes_register (mem mem' : Memory (Key SlaveKey) Tap) (register : Register) (addr : Z)
    (raw : list Z) : Prop :=
  Memory_wf mem' ∧ register_words mem' register = Some raw ∧
  ∀ other addr', reg_address other = Fixed addr' → register_ok other →
    register_mem_binding other ≠ Panic →
    register_key other ≠ register_key register ∨
    disjoint_ranges (register_range register addr) (register_range other addr') →
    register_words mem' other = register_words mem other.

Lemma store_writes_register mem mem' register addr raw old :
  Memory_wf mem → Memory_wf mem' → register_ok register → register_mem_binding register ≠ Panic →
  reg_address register = Fixed addr → length raw = Format_width (reg_format register) →
  register_words mem register = Some old →
  Memory_abs mem' ≡ (store_write_unchecked (Memory_abs mem) (register_key register)
    (register_range register addr) raw).2 →
  (store_write_unchecked (Memory_abs mem) (register_key register) (register_range register addr) raw).1 =
    true ∧ writes_register mem mem' register addr raw.
Proof.
  intros Hwf Hwf' Hro Hrp Ha Hlen Hold Hst. destruct (register_new _ _ Hro Hrp Ha) as (_ & Hrw & Hbind).
  set (range := register_range register addr) in *. set (key := register_key register) in *.
  assert (Range_length range = Z.of_nat (length raw)) as Hrl.
  { unfold range, register_range, Range_length, Range_span. simpl. rewrite Hlen. lia. }
  unfold register_words in Hold. rewrite Hbind, Memory_read_unchecked_refines in Hold by done.
  destruct (store_write_unchecked_read (Memory_abs mem) key range raw Hrw Hrl (ex_intro _ _ Hold))
    as [Hb Hread]. split; [done|]. split; [done|]. split.
  - unfold register_words. rewrite Hbind, Memory_read_unchecked_refines by done.
    by rewrite (store_read_unchecked_proper _ _ Hst _ _ eq_refl _ _ eq_refl).
  - intros other addr' Ha' Hoo Hop Hdis.
    destruct (register_new _ _ Hoo Hop Ha') as (_ & How & Hob).
    unfold register_words. rewrite Hob, !Memory_read_unchecked_refines by done.
    rewrite (store_read_unchecked_proper _ _ Hst _ _ eq_refl _ _ eq_refl).
    unfold store_read_unchecked, store_write_unchecked.
    rewrite (proj2 (Z.eqb_eq _ _) Hrl). cbn [negb snd].
    destruct (Memory_abs mem key) as [d|] eqn:Hd; [|done]. cbn [snd].
    unfold store_set. case_decide as Hk; [|done]. rewrite Hk, Hd.
    destruct Hdis as [?|Hdis]; [done|]. simpl.
    unfold store_read_unchecked in Hold. rewrite Hd in Hold. simpl in Hold.
    rewrite dev_prefix_covered; [|done|]; [|intros a Hain; by apply (dev_words_covered d range)].
    by apply (dev_store_frame (λ _, true)).
Qed.

Lemma forced_write_register mem source register addr raw old :
  Memory_wf mem → register_ok register → register_mem_binding register ≠ Panic →
  reg_address register = Fixed addr → length raw = Format_width (reg_format register) →
  register_words mem register = Some old →
  ∃ mem' calls, Memory_write_unchecked_from mem source (register_key register)
      (register_range register addr) raw = Ret (true, mem', calls) ∧
    writes_register mem mem' register addr raw.
Proof.
  intros Hwf Hro Hrp Ha Hlen Hold. destruct (register_new _ _ Hro Hrp Ha) as (_ & Hrw & _).
  destruct (Memory_write_unchecked_from_refines mem source (register_key register)
    (register_range register addr) raw Hwf Hrw) as (mem' & calls & Hw & (Hwf' & _ & Hst) & _).
  destruct (store_writes_register mem mem' register addr raw old) as [Hb Hwr]; try done.
  rewrite Hb in Hw. by exists mem', calls.
Qed.

(** A set of a register whose cells are declared stores the encoded words and
    nothing else. *)
Lemma bridge_write_fixed self name register addr value raw old :
  bridge_ok self → br_registers self !! name = Some register →
  reg_address register = Fixed addr →
  encode_lua register name value = Ret (Ok raw) → Forall is_word raw →
  length raw = Format_width (reg_format register) →
  register_words (br_memory self) register = Some old →
  ∃ self', write self name value = Ret (Ok tt, self') ∧
    br_registers self' = br_registers self ∧ br_virtual self' = br_virtual self ∧
    writes_register (br_memory self) (br_memory self') register addr raw.
Proof.
  intros Hok Hr Ha Henc Hraw Hlen Hold. pose proof Hok as (Hwf & Hmw & Hregs).
  destruct (bridge_register_ok _ _ _ Hok Hr) as [Hro Hrp].
  destruct (register_new _ _ Hro Hrp Ha) as (Hnew & Hrw & _).
  destruct (forced_write_register (br_memory self) WS_Script register addr raw old)
    as (mem' & calls & Hw & Hwr); try done.
  destruct (tap_calls_total _ _ _ _ _ _ _ _ (map_to_list (br_registers self)) (br_hub self)
    Hwf Hmw Hrw Hraw Hregs Hw) as (hub' & Htap).
  exists (mkBridge mem' (br_virtual self) (br_registers self) hub'). split; [|done].
  unfold bridge_write, bridge_register. rewrite Hr, Ha, Henc. cbn [mbind outcome_bind].
  rewrite Hlen, Hnew. cbn [mbind outcome_bind]. rewrite Hw. cbn [mbind outcome_bind].
  by rewrite Htap.
Qed.

(** The words a register reads as, as a script sees them. *)
Definition script_value (name : string) (register : Register) (words : option (list Z))
  : Result LuaValue BridgeError :=
  match words with
  | None => Err (BE_NotReadable name)
  | Some raw =>
      match Register_decode register raw with
      | Ok value => Ok (value_to_type f32_to_f64 value)
      | Err e => Err (BE_Decode name e)
      end
  end.

Lemma bridge_read_fixed self name register addr :
  Memory_wf (br_memory self) → br_registers self !! name = Some register →
  register_ok register → register_mem_binding register ≠ Panic → reg_address register = Fixed addr →
  read self name = Ret (script_value name register (register_words (br_memory self) register)).
Proof.
  intros Hwf Hr Hro Hrp Ha. destruct (register_new _ _ Hro Hrp Ha) as (Hnew & Hrw & Hbind).
  unfold bridge_read, bridge_register, register_words. rewrite Hr, Ha, Hnew, Hbind.
  cbn [mbind outcome_bind]. by rewrite Memory_read_unchecked_refines by done.
Qed.

Lemma int_ok_in_int nf v :
  int_ok nf v → in_int (kind_signed (nf_kind nf)) (IntKind_bits (nf_kind nf)) v = true.
Proof.
  intros (_ & _ & Hv & _). unfold in_int.
  destruct (nf_kind nf); simpl in *; unfold is_uint, is_sint in Hv; zbool; simpl; lia.
Qed.

(** An integer a script sets is the integer it gets back, for a register with
    an address and every integer its field holds, below 2^127 if it is 128 bits
    wide and unsigned; registers elsewhere in memory still read as before. *)
Theorem lua_set_get self name register addr nf v old :
  bridge_ok self → br_registers self !! name = Some register →
  reg_address register = Fixed addr → reg_format register = F_Numeric nf →
  int_ok nf v → (nf_kind nf = IK_U128 → v < 2 ^ 127) →
  register_words (br_memory self) register = Some old →
  ∃ self', write self name (LV_Int v) = Ret (Ok tt, self') ∧
    read self' name = Ret (Ok (LV_Int v)) ∧
    ∀ name' other addr', br_registers self !! name' = Some other →
      reg_address other = Fixed addr' →
      register_key other ≠ register_key register ∨
      disjoint_ranges (register_range register addr) (register_range other addr') →
      read self' name' = read self name'.
Proof.
  intros Hok Hr Ha Hf Hv Hbig Hold. pose proof (int_ok_in_int _ _ Hv) as Hin.
  destruct (bridge_register_ok _ _ _ Hok Hr) as [Hro Hrp].
  destruct (encode_field nf v (nf_resolution nf) Hv) as (Henc & Hlen & Hw & Hraw). cbv zeta in *.
  set (ws := kind_pack _ _ _) in *.
  destruct (bridge_write_fixed self name register addr (LV_Int v) (order_words (F_Numeric nf) ws)
    old) as (self' & Hwr & Hregs & Hvirt & Hwf' & Hnew & Hframe); try done.
  { cbn [encode_type typed_value_from_type]. rewrite Hf. cbn [int_value_for_format]. rewrite Hin.
    cbn [mbind outcome_bind]. unfold Register_encode_value. rewrite Hf.
    change (format_resolution (F_Numeric nf)) with (nf_resolution nf). by rewrite Henc. }
  { by apply Forall_order_words. }
  { rewrite length_order_words, Hlen, Hf. by destruct nf as [? ? ? ? []]. }
  exists self'. split; [done|]. split.
  - rewrite (bridge_read_fixed self' name register addr) by (by rewrite ?Hregs). rewrite Hnew.
    unfold script_value, Register_decode. rewrite Hf, (decode_field nf v); [|done| |].
    + do 2 f_equal. destruct (nf_kind nf) eqn:Hk; try done. cbn.
      f_equal. apply as_sint_small; [lia|]. destruct Hv as (_ & _ & Hv & _). rewrite Hk in Hv.
      specialize (Hbig eq_refl). unfold prim_wf, kind_prim, is_uint, is_sint in *. lia.
    + by rewrite length_order_words.
    + by rewrite order_words_involutive.
  - intros name' other addr' Ho Ha' Hdis. destruct (bridge_register_ok _ _ _ Hok Ho) as [Hoo Hop].
    rewrite (bridge_read_fixed self' name' other addr'), (bridge_read_fixed self name' other addr')
      by (rewrite ?Hregs; done || apply Hok). by rewrite (Hframe other addr').
Qed.
End bridge.

(** ** The plan of the simulation thread *)

(** The event script planned for a script with a trigger. *)
Definition planned_for (wake : nat) (hub : Hub RegisterEvent) (script : ScriptDef ModbusTrigger)
    (ev : EventScript) : Prop :=
  ev_id ev = sim_script_id script ∧ ev_key ev = sd_name script ∧
  ∃ trigger, sd_trigger script = Some trigger ∧ ev_feed ev ∈ es_queues (h_stream hub) ∧
    h_queues hub !! ev_feed ev =
      Some (mkQueue (register_selector trigger (sim_script_id script)) wake []).

Definition triggered (scripts : list (ScriptDef ModbusTrigger)) : list (ScriptDef ModbusTrigger) :=
  filter (λ s, is_Some (sd_trigger s)) scripts.

Definition untriggered (scripts : list (ScriptDef ModbusTrigger)) : gset string :=
  list_to_set (sd_name <$> filter (λ s, sd_trigger s = None) scripts).

(** What the plan of the first scripts has set up. *)
Definition plan_ok (wake : nat) (scripts : list (ScriptDef ModbusTrigger))
    (planned : list PlannedScript) (hub : Hub RegisterEvent) : Prop :=
  let sched := foldl add_planned (∅, []) planned in
  hub_wf hub ∧ (wake < length (h_wakes hub))%nat ∧ sched.1 = untriggered scripts ∧
  NoDup (ev_feed <$> sched.2) ∧ Forall2 (planned_for wake hub) (triggered scripts) sched.2.

Lemma planned_for_attach wake hub hub' qs q scripts evs :
  es_queues (h_stream hub') = es_queues (h_stream hub) ++ qs →
  h_queues hub' = h_queues hub ++ [q] →
  Forall2 (planned_for wake hub) scripts evs → Forall2 (planned_for wake hub') scripts evs.
Proof.
  intros Hs Hq Hall. eapply Forall2_impl; [exact Hall|]. intros script ev (H1 & H2 & t & H3 & H4 & H5).
  split_and!; [done|done|]. exists t. rewrite Hs, Hq.
  split_and!; [done|apply elem_of_app; by left|by apply lookup_app_l_Some].
Qed.

Lemma plan_script_ok wake scripts script planned watched hub :
  plan_ok wake scripts planned hub →
  let '(planned', _, hub') := plan_script wake (planned, watched, hub) script in
  plan_ok wake (scripts ++ [script]) planned' hub'.
Proof.
  intros (Hwf & Hlt & Hc & Hnd & Hall). unfold plan_script, plan_ok, triggered, untriggered in *.
  destruct (sd_trigger script) as [[registers every]|] eqn:Ht.
  - set (sel := register_selector (MT_Register registers every) (sim_script_id script)).
    pose proof (feed_attach_spec hub sel wake Hwf) as Hf.
    destruct (feed_attach hub sel wake) as [k hub']. destruct Hf as (Hwf' & Hk & Hs & Hq & Hkl & Hw).
    rewrite !foldl_app. simpl. destruct (foldl add_planned (∅, []) planned) as [cyc evs].
    simpl in *. split; [done|]. split; [by rewrite Hw|].
    rewrite !filter_app, (filter_cons_False _ script), (filter_cons_True _ script) by (rewrite Ht; done).
    rewrite app_nil_r. split; [done|]. split.
    + rewrite fmap_app. apply NoDup_app. split; [done|]. split; [|apply NoDup_singleton].
      intros x Hx ->%list_elem_of_singleton. apply Hk. simpl in Hx.
      apply list_elem_of_fmap in Hx as (ev & -> & Hev).
      apply list_elem_of_lookup_1 in Hev as [i Hi].
      destruct (Forall2_lookup_r _ _ _ _ _ Hall Hi) as (? & _ & _ & _ & ? & _ & Hin & _). done.
    + apply Forall2_app; [by apply (planned_for_attach wake hub hub' [k] _ _ _ Hs Hq)|].
      constructor; [|constructor]. split_and!; [done|done|]. exists (MT_Register registers every).
      simpl. rewrite Hs, Hq, Hkl, lookup_app_r, Nat.sub_diag by done.
      split_and!; [done|apply elem_of_app; right; apply list_elem_of_here|done].
  - rewrite !foldl_app. simpl. destruct (foldl add_planned (∅, []) planned) as [cyc evs].
    simpl in *. rewrite !filter_app, (filter_cons_True _ script), (filter_cons_False _ script)
      by (rewrite Ht; done || apply is_Some_None). rewrite app_nil_r, fmap_app.
    split_and!; [done|done| |done|done].
    rewrite Hc, list_to_set_app_L, (comm_L (∪)). simpl. by rewrite (right_id_L ∅ (∪)).
Qed.

Lemma plan_scripts_ok wake scripts hub :
  hub_wf hub → (wake < length (h_wakes hub))%nat →
  let '(planned, _, hub') := foldl (plan_script wake) ([], [], hub) scripts in
  plan_ok wake scripts planned hub'.
Proof.
  intros Hwf Hlt. induction scripts as [|script scripts IH] using rev_ind.
  { split_and!; [done|done|done|apply NoDup_nil_2|constructor]. }
  rewrite foldl_app. simpl. destruct (foldl _ _ scripts) as [[planned watched] hub'].
  by apply plan_script_ok.
Qed.

Lemma plan_wakes wake scripts hub :
  let '(_, _, hub') := foldl (plan_script wake) ([], [], hub) scripts in
  h_wakes hub' = h_wakes hub.
Proof.
  induction scripts as [|script scripts IH] using rev_ind; [done|].
  rewrite foldl_app. simpl. destruct (foldl _ _ scripts) as [[planned watched] hub'].
  simpl. by destruct (sd_trigger script) as [[]|].
Qed.

Lemma plan_thread_ok scripts hub planned watched wake hub' cycle :
  hub_wf hub → run_sim_plan scripts hub = Some (planned, watched, wake, hub') →
  let sched := SimScheduler_new planned cycle wake in
  hub_ok sched hub' ∧ hub_wf hub' ∧ woken hub' wake = false ∧
  sc_every_cycle sched = untriggered scripts ∧
  Forall2 (planned_for wake hub') (triggered scripts) (sc_events sched).
Proof.
  intros Hwf Hplan. unfold run_sim_plan, wake_new in Hplan.
  destruct scripts as [|s l]; [done|]. set (scripts := s :: l) in *.
  set (hub1 := mkHub (h_stream hub) (h_queues hub) (h_wakes hub ++ [false])) in *.
  assert (hub_wf hub1) as Hwf1 by exact Hwf.
  pose proof (plan_scripts_ok (length (h_wakes hub)) scripts hub1 Hwf1) as Hok.
  assert (woken hub1 (length (h_wakes hub)) = false) as Hw.
  { unfold woken, hub1. simpl. by rewrite lookup_app_r, Nat.sub_diag. }
  pose proof (plan_wakes (length (h_wakes hub)) scripts hub1) as Hwk.
  destruct (foldl _ _ scripts) as [[planned1 watched1] hub2]. injection Hplan as -> -> <- ->.
  unfold woken in *. rewrite <-Hwk in Hw.
  destruct Hok as (Hwf2 & Hlt & Hc & Hnd & Hall).
  { unfold hub1. simpl. rewrite length_app. simpl. lia. }
  unfold SimScheduler_new. destruct (foldl add_planned _ planned) as [cyc evs]. simpl in *.
  split; [split; [done|split; [apply Hwf2|split; [done|]]]|done]. intros i ev Hi.
  destruct (Forall2_lookup_r _ _ _ _ _ Hall Hi) as (? & _ & _ & _ & ? & _ & Hin & Hq).
  split; [done|]. simpl. eauto.
Qed.

(** The simulation thread of a module starts in a state its scheduler may run
    from: every script without a trigger runs each cycle, every other one, in
    the order of the configuration, has an empty queue of its own that is
    attached to the module's events, selects what its trigger names, and wakes
    this thread. *)
Theorem sim_plan_ok scripts hub planned watched wake hub' cycle :
  hub_wf hub → run_sim_plan scripts hub = Some (planned, watched, wake, hub') →
  let sched := SimScheduler_new planned cycle wake in
  hub_ok sched hub' ∧ hub_wf hub' ∧ woken hub' wake = false ∧
  sc_every_cycle sched = untriggered scripts ∧
  Forall2 (planned_for wake hub') (triggered scripts) (sc_events sched).
Proof. apply plan_thread_ok. Qed.

(** ** Where a script's number is not the register's *)

(** A float set on an integer register is taken iff it is whole and in the
    register's range, and then exactly; one past the largest value is taken too
    if the format is wider than 32 bits, and stored as the largest. *)
Theorem float_set_spec f64_to_f32 display_f64 nf bits :
  float_value_for_format f64_to_f32 display_f64 bits (F_Numeric nf) =
    let kind := nf_kind nf in
    match f64_whole bits with
    | None => Err (BE_NotWhole bits (F_Numeric nf))
    | Some v =>
        if in_int (kind_signed kind) (IntKind_bits kind) v
        then Ok (V_Numeric (kind_prim kind v) (nf_resolution nf))
        else if (32 <? IntKind_bits kind) && (v =? kind_max kind + 1)
        then Ok (V_Numeric (kind_prim kind (kind_max kind)) (nf_resolution nf))
        else Err (BE_FloatRange bits (F_Numeric nf))
    end.
Proof.
  cbn [float_value_for_format]. unfold float_int_variant. cbv zeta.
  destruct (f64_whole bits) as [v|]; [|done].
  change (format_resolution (F_Numeric nf)) with (nf_resolution nf).
  unfold in_int, kind_max_f64, kind_max, kind_min.
  assert (int_min (kind_signed (nf_kind nf)) (IntKind_bits (nf_kind nf)) <=
    int_max (kind_signed (nf_kind nf)) (IntKind_bits (nf_kind nf))) as Hle
    by (destruct (nf_kind nf); by vm_compute).
  set (lo := int_min _ _) in *. set (hi := int_max _ _) in *.
  destruct (lo <=? v) eqn:E1, (v <=? hi) eqn:E2, (IntKind_bits (nf_kind nf) <=? 32) eqn:E3,
    (32 <? IntKind_bits (nf_kind nf)) eqn:E4; zbool; try lia; simpl;
    repeat match goal with |- context [?a <? ?b] => destruct (Z.ltb_spec a b) end;
    repeat match goal with |- context [?a =? ?b] => destruct (Z.eqb_spec a b) end; simpl;
    try lia; try done; do 3 f_equal; lia.
Qed.

(** A [u128] in its upper half is read as a negative number, which cannot be set. *)
Theorem u128_get_not_settable i128_to_f32 i128_to_f64 f32_to_f64 v r nf :
  2 ^ 127 <= v < 2 ^ 128 → nf_kind nf = IK_U128 →
  value_to_type f32_to_f64 (V_Numeric (NP_U128 v) r) = LV_Int (v - 2 ^ 128) ∧
  int_value_for_format i128_to_f32 i128_to_f64 (v - 2 ^ 128) (F_Numeric nf) =
    Err (BE_IntRange (v - 2 ^ 128) (F_Numeric nf)).
Proof.
  intros Hv Hk. split.
  - cbn. unfold as_sint. f_equal. rewrite Z.mod_small by lia.
    destruct (Z.ltb_spec v (2 ^ (128 - 1))); lia.
  - cbn [int_value_for_format]. rewrite Hk. unfold in_int. simpl.
    by rewrite (proj2 (Z.leb_gt _ _)) by lia.
Qed.

(** ** Witnesses *)

Definition byte_field (mask : Z) : Register :=
  mkRegister 1 RA_ReadWrite K_HoldingRegister (Fixed 2)
    (Format_int IK_U16 E_Big WO_Normal Resolution_default (mkBitField mask)).

(** Two registers that share the word at address 2. *)
Definition demo_fields : Bridge unit :=
  mkBridge
    match Memory_write_unchecked demo_cells demo_key (mkRange 2 3) [0x1234] with
    | Ret (_, mem) => mem
    | Panic => demo_cells
    end
    ∅ {["low"%string := byte_field 0x00FF; "high"%string := byte_field 0xFF00]}
    (mkHub EventStream_new [] []).

(** A script that sets a register owning some bits of a word clears the bits
    that belong to the registers sharing the word: the encoded word is stored as
    it is, not merged as [Register::merge_write] would. *)
Theorem script_set_clears_neighbour i128_to_f32 i128_to_f64 f64_to_f32 f32_to_f64 display_f64
    parse_f32 parse_f64 display_float now_ms executing :
  let write := bridge_write i128_to_f32 i128_to_f64 f64_to_f32 display_f64 parse_f32 parse_f64
    display_float now_ms executing in
  let read := bridge_read f32_to_f64 in
  read demo_fields "high"%string = Ret (Ok (LV_Int 0x12)) ∧
  (∃ self', write demo_fields "low"%string (LV_Int 5) = Ret (Ok tt, self') ∧
     read self' "low"%string = Ret (Ok (LV_Int 5)) ∧
     read self' "high"%string = Ret (Ok (LV_Int 0))) ∧
  Register_merge_write (byte_field 0x00FF) [0x1234] [5] = [0x1205].
Proof.
  cbv zeta. split; [by vm_compute|]. split; [|by vm_compute].
  eexists. split; [vm_compute; reflexivity|]. split; by vm_compute.
Qed.

Definition demo_bridge : Bridge unit :=
  mkBridge demo_cells ∅ {["r"%string := demo_register]} (mkHub EventStream_new [] []).

Lemma demo_bridge_ok : bridge_ok demo_bridge.
Proof.
  split; [apply demo_cells_ok|]. split; [apply demo_cells_ok|].
  change (br_registers demo_bridge) with ({["r"%string := demo_register]} : gmap string Register).
  rewrite map_to_list_singleton. exact demo_registers_ok.
Qed.

Lemma lua_set_get_witness :
  ∃ self', bridge_write (λ v, v) (λ v, v) (λ v, v) (λ _, []) (λ _, None) (λ _, None) (λ _, [])
      (λ _, 5) None demo_bridge "r" (LV_Int 7) = Ret (Ok tt, self') ∧
    bridge_read (λ v, v) self' "r" = Ret (Ok (LV_Int 7)).
Proof.
  destruct (lua_set_get (λ v, v) (λ v, v) (λ v, v) (λ v, v) (λ _, []) (λ _, None) (λ _, None)
    (λ _, []) (λ _, 5) None demo_bridge "r" demo_register 2
    (mkNumericFormat IK_U16 E_Big WO_Normal Resolution_default BitField_default) 7 [0]
    demo_bridge_ok) as (self' & H1 & H2 & _);
    [by vm_compute|reflexivity|reflexivity|split_and!; by vm_compute|discriminate|by vm_compute|].
  exists self'. split; [exact H1|exact H2].
Defined.

Definition demo_scripts : list (ScriptDef ModbusTrigger) :=
  [mkScriptDef "tick" [] true None;
   mkScriptDef "hear" [] true (Some (MT_Register Sel_All false))].

Lemma sim_plan_ok_witness :
  ∃ planned watched wake hub', 
    run_sim_plan demo_scripts (mkHub EventStream_new [] []) = Some (planned, watched, wake, hub') ∧
    hub_ok (SimScheduler_new planned 100 wake) hub' ∧
    sc_every_cycle (SimScheduler_new planned 100 wake) = {["tick"%string]}.
Proof.
  destruct (run_sim_plan demo_scripts (mkHub EventStream_new [] []))
    as [[[[planned watched] wake] hub']|] eqn:E; [|discriminate].
  destruct (sim_plan_ok demo_scripts (mkHub EventStream_new [] []) planned watched wake hub' 100)
    as (H1 & _ & _ & H2 & _); [|exact E|].
  - split; [apply NoDup_nil_2|]. intros k Hk. by apply not_elem_of_nil in Hk.
  - exists planned, watched, wake, hub'. split; [reflexivity|]. split; [exact H1|].
    rewrite H2. by vm_compute.
Defined.
