(* ===== verification/ModbusModule.v ===== *)
(** * Modules

    Models [ferrowl/src/module/modbus/module.rs]: building a module from a device
    configuration, its register list and the view scripts have of it, its read
    ranges, and the life of its simulation thread. The network instance is in
    [Instance.v]. *)

From stdpp Require Import base list gmap numbers strings.
From S2P Require Import Prelude Slice Memory Bytes IntText Text Format Codec Key DeviceConfig Registers ReadPlan SimScheduler RegEvents LuaBridge.

Local Open Scope Z_scope.

(** [Debug] of a kind. *)
Definition Kind_debug (self : Kind) : string :=
  match self with
  | K_Coil => "Coil"
  | K_DiscreteInput => "DiscreteInput"
  | K_HoldingRegister => "HoldingRegister"
  | K_InputRegister => "InputRegister"
  end.

Definition gap_cell_subject (key : Key SlaveKey) : list Z :=
  bytes_of "read-range gap cell (slave " ++ int_display (sk_slave_id (key_id key)) ++
  bytes_of ", " ++ bytes_of (Kind_debug (sk_kind (key_id key))) ++ bytes_of ")".

Section module.
Context {Tap : Type} (tap : Tap).
(** [str::parse] of the float types, [to_string] of an [f64], the text of a float
    value. *)
Context (parse_f32 parse_f64 : list Z → option Z) (display_f64 : Z → list Z).
Context (display_float : NumericPrimitive → list Z) (now_ms : Z → Z).

(** A running simulation thread, by the plan it was given. *)
Record SimThread := mkSimThread {
  sth_planned : list PlannedScript;
  sth_watched : list (string * Selection);
  sth_wake : nat
}.

(** A rejected declaration's warning: subject and range. *)
Definition ModuleLogLine : Type := Level * (list Z * Range).

Record Module_ := mkModule {
  md_name : string;
  md_registers : list RegisterRow;
  md_lua_registers : gmap string Register;
  md_operations : list Operation;
  md_memory : Memory (Key SlaveKey) Tap;
  md_log : list ModuleLogLine;
  md_scripts : list (ScriptDef ModbusTrigger);
  md_read_ranges : ReadRanges;
  md_sim : option SimThread;
  md_virtual : gmap string Value;
  md_hub : Hub RegisterEvent
}.

(** ** Building *)

(** What the loop over the definitions fills. *)
Record Building := mkBuilding {
  bd_memory : Memory (Key SlaveKey) Tap;
  bd_log : list ModuleLogLine;
  bd_registers : list RegisterRow;
  bd_virtual : gmap string Value
}.

Definition declare (memory : Memory (Key SlaveKey) Tap) (log : list ModuleLogLine)
    (key : Key SlaveKey) (kind : CellKind) (range : Range) (subject : list Z)
  : Outcome (Memory (Key SlaveKey) Tap * list ModuleLogLine) :=
  '(res, memory) ← declare_or_reject_msg memory key kind range subject;
  Ret (memory, match res with Ok _ => log | Err msg => log ++ [(L_Warning, msg)] end).

Definition def_key (def : RegisterDef) : Key SlaveKey :=
  mkKey (mkSlaveKey (rd_slave_id def) (reg_kind (RegisterDef_register def))).

(** The value a virtual register starts with. *)
Definition virtual_initial (def : RegisterDef) : Value :=
  match rd_default def with
  | None => default_value (RegisterDef_register def)
  | Some s => Scalar_to_value s (rd_resolution def)
  end.

Definition write_default (memory : Memory (Key SlaveKey) Tap) (def : RegisterDef) (range : Range)
  : Outcome (Memory (Key SlaveKey) Tap) :=
  match rd_default def with
  | None => Ret memory
  | Some scalar =>
      match Register_encode parse_f32 parse_f64 (RegisterDef_register def)
              (Scalar_display display_f64 scalar) with
      | Err _ => Ret memory
      | Ok raw =>
          range ← Range_new (r_start range) (Z.of_nat (length raw));
          '(_, memory) ← Memory_write_unchecked memory (def_key def) range raw;
          Ret memory
      end
  end.

(** One turn of the loop over [device.definitions]. *)
Definition build_definition (acc : Building) (entry : string * RegisterDef) : Outcome Building :=
  let '(name, def) := entry in
  let register := RegisterDef_register def in
  let registers := bd_registers acc ++ [(name, rd_description def, register, rd_values def)] in
  let virtual :=
    match reg_address register with
    | Virtual => <[name := virtual_initial def]> (bd_virtual acc)
    | Fixed _ => bd_virtual acc
    end in
  range ← RegisterDef_mem_range def;
  match range with
  | None => Ret (mkBuilding (bd_memory acc) (bd_log acc) registers virtual)
  | Some range =>
      '(memory, log) ←
        declare (bd_memory acc) (bd_log acc) (def_key def)
          (kind_cell_kind (rd_kind def) (RegisterDef_mem_type def)) range
          (bytes_of ("register '" +:+ name +:+ "'"));
      memory ← write_default memory def range;
      Ret (mkBuilding memory log registers virtual)
  end.

Fixpoint build_definitions (acc : Building) (definitions : list (string * RegisterDef))
  : Outcome Building :=
  match definitions with
  | [] => Ret acc
  | entry :: rest => acc ← build_definition acc entry; build_definitions acc rest
  end.

(** The loop over the gap cells. *)
Fixpoint declare_gaps (memory : Memory (Key SlaveKey) Tap) (log : list ModuleLogLine)
    (gaps : list (Key SlaveKey * CellKind * Range))
  : Outcome (Memory (Key SlaveKey) Tap * list ModuleLogLine) :=
  match gaps with
  | [] => Ret (memory, log)
  | (key, kind, range) :: rest =>
      '(memory, log) ← declare memory log key kind range (gap_cell_subject key);
      declare_gaps memory log rest
  end.

(** The names and registers of the rows, later ones first for a duplicate. *)
Definition row_name (row : RegisterRow) : string := let '(name, _, _, _) := row in name.

Definition lua_view (registers : list RegisterRow) : gmap string Register :=
  foldl (λ m row, <[row_name row := row_register row]> m) ∅ registers.

(** ** The simulation thread *)

(** [SimHandle::stop] joins the thread, which drops its feeds. *)
Definition feed_of (script : PlannedScript) : list nat :=
  match ps_schedule script with SS_EveryCycle => [] | SS_Events feed => [feed] end.

Definition sim_feeds (sim : option SimThread) : list nat :=
  match sim with None => [] | Some t => sth_planned t ≫= feed_of end.

Definition with_sim (self : Module_) (sim : option SimThread) (hub : Hub RegisterEvent) : Module_ :=
  mkModule (md_name self) (md_registers self) (md_lua_registers self) (md_operations self)
    (md_memory self) (md_log self) (md_scripts self) (md_read_ranges self) sim (md_virtual self) hub.

Definition stop_sim (self : Module_) : Module_ :=
  with_sim self None (foldl feed_drop (md_hub self) (sim_feeds (md_sim self))).

Definition ensure_sim (self : Module_) : Module_ :=
  let self := stop_sim self in
  match run_sim_plan (md_scripts self) (md_hub self) with
  | None => with_sim self None (md_hub self)
  | Some (planned, watched, wake, hub) =>
      with_sim self (Some (mkSimThread planned watched wake)) hub
  end.

Definition reload_scripts (self : Module_) (scripts : list (ScriptDef ModbusTrigger)) : Module_ :=
  ensure_sim (mkModule (md_name self) (md_registers self) (md_lua_registers self)
    (md_operations self) (md_memory self) (md_log self) scripts (md_read_ranges self) (md_sim self)
    (md_virtual self) (md_hub self)).

(** [new_with_events]; [None]: planning the reads never ends. *)
Definition new_with_events (fuel : nat) (name : string) (device : DeviceConfig)
    (events : Hub RegisterEvent) : Outcome (option Module_) :=
  acc ← build_definitions (mkBuilding Memory_default [] [] ∅) (dc_definitions device);
  let registers := bd_registers acc in
  gaps ← explicit_read_coverage registers (dc_read_ranges device);
  '(memory, log) ← declare_gaps (bd_memory acc) (bd_log acc) gaps;
  operations ← build_read_operations fuel registers (dc_read_ranges device);
  Ret match operations with
      | None => None
      | Some operations =>
          Some (ensure_sim
            (mkModule name registers (lua_view registers) operations
               (Memory_set_write_tap memory tap) log (collect_scripts device)
               (dc_read_ranges device) None (bd_virtual acc) events))
      end.

(** ** The register list *)

Definition with_registers (self : Module_) (registers : list RegisterRow)
    (lua : gmap string Register) : Module_ :=
  mkModule (md_name self) registers lua (md_operations self) (md_memory self) (md_log self)
    (md_scripts self) (md_read_ranges self) (md_sim self) (md_virtual self) (md_hub self).

Definition add_register (self : Module_) (row : RegisterRow) : Module_ :=
  with_registers self (md_registers self ++ [row])
    (<[row_name row := row_register row]> (md_lua_registers self)).

Definition remove_register_by_name (self : Module_) (name : string) : Module_ :=
  with_registers self (filter (λ row, row_name row ≠ name) (md_registers self))
    (delete name (md_lua_registers self)).

Definition update_register (self : Module_) (idx : nat) (row : RegisterRow) : Module_ :=
  match md_registers self !! idx with
  | None => self
  | Some slot =>
      with_registers self (<[idx := row]> (md_registers self))
        (<[row_name row := row_register row]> (delete (row_name slot) (md_lua_registers self)))
  end.

(** [rebuild_operations]; [None]: it never ends. *)
Definition rebuild_operations (fuel : nat) (self : Module_) : Outcome (option Module_) :=
  operations ← build_read_operations fuel (md_registers self) (md_read_ranges self);
  Ret (option_map (λ operations,
    mkModule (md_name self) (md_registers self) (md_lua_registers self) operations
      (md_memory self) (md_log self) (md_scripts self) (md_read_ranges self) (md_sim self)
      (md_virtual self) (md_hub self)) operations).

Definition set_read_ranges (fuel : nat) (self : Module_) (read_ranges : ReadRanges)
  : Outcome (option Module_) :=
  gaps ← explicit_read_coverage (md_registers self) read_ranges;
  '(memory, log) ← declare_gaps (md_memory self) (md_log self) gaps;
  rebuild_operations fuel
    (mkModule (md_name self) (md_registers self) (md_lua_registers self) (md_operations self)
       memory log (md_scripts self) read_ranges (md_sim self) (md_virtual self) (md_hub self)).

(** ** Virtual values *)

Definition with_virtual (self : Module_) (virtual : gmap string Value) (hub : Hub RegisterEvent)
  : Module_ :=
  mkModule (md_name self) (md_registers self) (md_lua_registers self) (md_operations self)
    (md_memory self) (md_log self) (md_scripts self) (md_read_ranges self) (md_sim self) virtual hub.

Definition set_virtual_value (self : Module_) (name : string) (v : Value) : Module_ :=
  with_virtual self (<[name := v]> (md_virtual self)) (md_hub self).

Definition set_virtual_value_from_command (self : Module_) (name : string) (v : Value)
  : Outcome Module_ :=
  hub ← publish_virtual display_float now_ms (md_hub self) name (md_virtual self !! name) v RES_Set;
  Ret (with_virtual self (<[name := v]> (md_virtual self)) hub).

(** The shared state a script of the module works on. *)
Definition module_bridge (self : Module_) : Bridge Tap :=
  mkBridge (md_memory self) (md_virtual self) (md_lua_registers self) (md_hub self).
End module.

Arguments Module_ Tap : clear implicits.
Arguments Building Tap : clear implicits.
