(* ===== verification/ModbusModuleProps.v ===== *)
(** * Properties of modules

    A module built from a device configuration holds what the configuration
    says, and its register list, the view scripts have of it and its simulation
    thread stay consistent. *)

From stdpp Require Import base list gmap numbers strings.
From S2P Require Import Prelude Slice Memory MemorySpec Store StoreRefine StoreProps Bytes IntText Text Format Codec CodecSpec CodecProps Key DeviceConfig Registers ReadPlan ReadPlanProps SimScheduler SimProps RegEvents LuaBridge LuaBridgeProps ModbusModule.

Local Open Scope Z_scope.

(** ** Encoded values *)

Lemma pack_bytes_words (k : nat) (e : Endian) (x : Z) :
  length (pack_bytes (16 * Z.of_nat k) e x) = k ∧ Forall is_word (pack_bytes (16 * Z.of_nat k) e x).
Proof.
  unfold pack_bytes. assert (Z.to_nat (16 * Z.of_nat k / 8) = 2 * k)%nat as ->.
  { replace (16 * Z.of_nat k) with (2 * Z.of_nat k * 8) by lia. rewrite Z.div_mul by lia. lia. }
  destruct (to_be_bytes_spec (2 * k) x) as [Hl Hb]. destruct e.
  - destruct (word_bytes_into_vec k (to_le_bytes (2 * k) x)) as (_ & Hlen & Hf);
      [apply to_le_bytes_range|by rewrite length_to_le_bytes|done].
  - by destruct (word_bytes_into_vec k (to_be_bytes (2 * k) x)) as (_ & Hlen & Hf).
Qed.

Lemma ascii_words (a : Alignment) (w : nat) (s : list Z) :
  Forall is_byte s →
  let len := (2 * w)%nat in
  let zeroes := replicate (len - length s) 0 in
  let bytes := match a with
               | AL_Left => take len (s ++ zeroes)
               | AL_Right => take len (zeroes ++ drop (length s - len) s)
               end in
  length (into_vec bytes) = w ∧ Forall is_word (into_vec bytes).
Proof.
  intros Hs len zeroes bytes.
  assert (Forall is_byte zeroes) as Hz by (apply Forall_replicate; by split).
  destruct (word_bytes_into_vec w bytes) as (_ & H1 & H2); [| |done].
  - unfold bytes. destruct a; apply Forall_take, Forall_app; split; try done. by apply Forall_drop.
  - unfold bytes. destruct a; rewrite length_take, length_app; unfold zeroes;
      rewrite length_replicate, ?length_drop; unfold len; lia.
Qed.

Ltac encoded_words :=
  unfold encode_uint, encode_int;
  match goal with
  | |- context [byte_word ?e ?y] =>
      let H1 := fresh in let H2 := fresh in
      destruct (byte_word_spec e y) as (H1 & H2 & _); split; [exact H1|exact H2]
  | |- context [pack_bytes 16 ?e ?y] => exact (pack_bytes_words 1 e y)
  | |- context [pack_bytes 32 ?e ?y] => exact (pack_bytes_words 2 e y)
  | |- context [pack_bytes 64 ?e ?y] => exact (pack_bytes_words 4 e y)
  | |- context [pack_bytes 128 ?e ?y] => exact (pack_bytes_words 8 e y)
  end.

(** Encoding gives words, as many as the format is wide. *)
Lemma encode_value_words (f : Format) (v : Value) (ws : list Z) :
  (∀ s, v = V_Ascii s → Forall is_byte s) → encode_value f v = Ok ws →
  length ws = Format_width f ∧ Forall is_word ws.
Proof.
  intros Hs. unfold encode_value. destruct (encode_words f v) as [raw|e] eqn:He; [|done].
  intros [= <-]. rewrite length_order_words.
  assert (length raw = Format_width f ∧ Forall is_word raw) as [Hl Hw];
    [|split; [done|by apply Forall_order_words]].
  destruct f as [[k e wo r bf]|[k e wo r]|a w]; simpl in He.
  - destruct (BitField_fits _ _); [|done]. destruct v as [p res|]; [|done]. simpl in He.
    destruct k, p; try discriminate He; injection He as <-; encoded_words.
  - destruct v as [p res|]; [|done].
    destruct k, p; try discriminate He; injection He as <-; encoded_words.
  - destruct v as [|s]; [done|]. specialize (Hs s eq_refl).
    pose proof (ascii_words a w s Hs) as Hw. destruct a; injection He as <-; exact Hw.
Qed.

Lemma encode_words_text parse_f32 parse_f64 (f : Format) (s ws : list Z) :
  Forall is_byte s → encode parse_f32 parse_f64 f s = Ok ws →
  length ws = Format_width f ∧ Forall is_word ws.
Proof.
  intros Hs. unfold encode. destruct (parse_value _ _ f s) as [v|] eqn:Hv; [|done].
  apply encode_value_words. intros s' ->. unfold parse_value in Hv.
  assert (∀ res r, with_resolution res r ≠ Ok (V_Ascii s')) as Hno by (by intros []).
  destruct f as [nf|ff|a w]; [|by apply Hno in Hv|by injection Hv as <-].
  destruct (negb _); [done|]. by apply Hno in Hv.
Qed.

(** ** Cells of the store *)

Section cells.
Context {Tap : Type}.
Implicit Types (mem : Memory (Key SlaveKey) Tap) (key : Key SlaveKey) (r : Range).

Definition mem_cell mem key (a : Z) : option Cell := Memory_abs mem key ≫= λ d, d a.

Lemma mem_cell_equiv mem (st : Store (Key SlaveKey)) key a :
  Memory_abs mem ≡ st → mem_cell mem key a = st key ≫= λ d, d a.
Proof.
  intros He. unfold mem_cell. specialize (He key). by destruct He as [d d' Hd|]; [apply Hd|].
Qed.

Lemma cell_declare_same c : cell_declare (c_kind c) c = Some c.
Proof.
  unfold cell_declare, widen_access. rewrite !bool_decide_eq_true_2 by done. by destruct c as [[]].
Qed.

(** Declaring over cells of the same kind adds the missing ones. *)
Lemma declare_cells mem key kind r :
  Memory_wf mem → Range_wf r →
  (∀ a c, in_range a r → mem_cell mem key a = Some c → c_kind c = kind) →
  ∃ mem', Memory_add_ranges mem key kind [r] = Ret (true, mem') ∧ Memory_wf mem' ∧
    ∀ key' a, mem_cell mem' key' a =
      if decide (key' = key ∧ in_range a r) then Some (default (Cell_zeroed kind) (mem_cell mem key a))
      else mem_cell mem key' a.
Proof.
  intros Hwf Hr Hk.
  destruct (Memory_add_ranges_refines mem key kind [r] Hwf (proj2 (list.Forall_singleton _ _) Hr))
    as (mem' & Ha & Hwf' & _ & Hst).
  set (d := default (λ _, None) (Memory_abs mem key)).
  assert (∀ a, d a = mem_cell mem key a) as Hd.
  { intros a. unfold d, mem_cell. by destruct (Memory_abs mem key). }
  assert (∀ a, in_range a r → ∀ c, d a = Some c → cell_declare kind c = Some c) as Hc.
  { intros a Hin c Hca. rewrite <-(Hk a c Hin) by (by rewrite <-Hd). apply cell_declare_same. }
  unfold store_declare in *. simpl in *. fold d in Ha, Hst. unfold dev_declare in *.
  assert (forallb (λ a, match d a with Some c => bool_decide (is_Some (cell_declare kind c))
    | None => true end) (addresses r) = true) as Hall.
  { apply forallb_forall. intros a Hin%list_elem_of_In%elem_of_addresses.
    destruct (d a) as [c|] eqn:Hda; [|done]. rewrite (Hc a Hin c Hda). done. }
  rewrite Hall in Ha, Hst. simpl in Ha, Hst. exists mem'. split; [done|]. split; [done|].
  intros key' a. rewrite (mem_cell_equiv _ _ _ _ Hst). unfold store_set.
  destruct (decide (key' = key)) as [->|Hne].
  - simpl. destruct (decide (in_range a r)) as [Hin|Hn].
    + rewrite decide_True by done. rewrite <-Hd. destruct (d a) as [c|] eqn:Hda; [|done].
      by rewrite (Hc a Hin c Hda).
    + rewrite decide_False by tauto. by rewrite Hd.
  - rewrite decide_False by tauto. done.
Qed.

Lemma covered_words (d : Device) r : (∀ a, in_range a r → is_Some (d a)) → is_Some (dev_words d r).
Proof.
  intros Hc. destruct (dev_words d r) as [ws|] eqn:Hw; [done|].
  apply dev_words_None in Hw as (a & Hin & Hn). destruct (Hc a Hin) as [c Hs]. congruence.
Qed.

(** A forced write of a declared range sets its values. *)
Lemma write_cells mem key r vs :
  Memory_wf mem → Range_wf r → Range_length r = Z.of_nat (length vs) →
  (∀ a, in_range a r → is_Some (mem_cell mem key a)) →
  ∃ mem', Memory_write_unchecked mem key r vs =
      Ret (bool_decide (is_Some (Memory_abs mem key)), mem') ∧ Memory_wf mem' ∧
    ∀ key' a, mem_cell mem' key' a =
      if decide (key' = key ∧ in_range a r)
      then c ← mem_cell mem key a; v ← vs !! Z.to_nat (a - r_start r); Some (Cell_set_value c v)
      else mem_cell mem key' a.
Proof.
  intros Hwf Hr Hl Hcov.
  destruct (Memory_write_unchecked_refines mem key r vs Hwf Hr) as (mem' & Hw & Hwf' & _ & Hst).
  unfold store_write_unchecked in *. rewrite (proj2 (Z.eqb_eq _ _) Hl) in Hw, Hst. simpl in Hw, Hst.
  unfold mem_cell in Hcov. destruct (Memory_abs mem key) as [d|] eqn:Hd; simpl in *.
  - rewrite bool_decide_eq_true_2 in Hw by by apply covered_words.
    exists mem'. split; [done|]. split; [done|]. intros key' a.
    rewrite (mem_cell_equiv _ _ _ _ Hst). rewrite dev_prefix_covered by done. unfold store_set.
    destruct (decide (key' = key)) as [->|Hne].
    + simpl. unfold dev_store. destruct (decide (in_range a r)).
      * rewrite decide_True by done. unfold mem_cell. by rewrite Hd.
      * rewrite decide_False by tauto. unfold mem_cell. by rewrite Hd.
    + by rewrite decide_False by tauto.
  - exists mem'. split; [done|]. split; [done|]. intros key' a.
    rewrite (mem_cell_equiv _ _ _ _ Hst). case_decide as Hc; [|done]. destruct Hc as [-> Hin].
    by destruct (Hcov a Hin).
Qed.
End cells.

(** ** Building a module *)

(** The row a definition becomes. *)
Definition def_row (entry : string * RegisterDef) : RegisterRow :=
  (entry.1, rd_description entry.2, RegisterDef_register entry.2, rd_values entry.2).

Definition def_width (def : RegisterDef) : nat := Format_width (RegisterDef_format def).

(** The definition's cells. *)
Definition covers (def : RegisterDef) (key : Key SlaveKey) (a : Z) : Prop :=
  def_key def = key ∧
  ∃ addr, RegisterDef_address def = Fixed addr ∧ addr <= a < addr + Z.of_nat (def_width def).

(** The kind of the cells of a register, and of a gap, under a key. *)
Definition key_kind (key : Key SlaveKey) : CellKind :=
  kind_cell_kind (sk_kind (key_id key)) (kind_cell_type (sk_kind (key_id key))).

Definition gap_kind (key : Key SlaveKey) : CellKind := CellKind_read (kind_cell_type (sk_kind (key_id key))).

Section build.
Context {Tap : Type} (tap : Tap).
Context (parse_f32 parse_f64 : list Z → option Z) (display_f64 : Z → list Z).
Implicit Types (mem : Memory (Key SlaveKey) Tap) (key : Key SlaveKey) (acc : Building Tap).

Abbreviation build_def := (build_definition (Tap := Tap) parse_f32 parse_f64 display_f64).
Abbreviation build_defs := (build_definitions (Tap := Tap) parse_f32 parse_f64 display_f64).

(** The address is a [u16], the register fits a request, the default's text is
    bytes. *)
Definition def_ok (def : RegisterDef) : Prop :=
  (∀ addr, RegisterDef_address def = Fixed addr →
     is_uint 16 addr ∧ Z.of_nat (def_width def) <= read_limit (function_code (RegisterDef_register def))) ∧
  ∀ s, rd_default def = Some s → Forall is_byte (Scalar_display display_f64 s).

(** The words the cells start with. *)
Definition initial_words (def : RegisterDef) : list Z :=
  let zeros := replicate (def_width def) 0 in
  match rd_default def with
  | None => zeros
  | Some s =>
      match Register_encode parse_f32 parse_f64 (RegisterDef_register def)
              (Scalar_display display_f64 s) with
      | Ok raw => raw
      | Err _ => zeros
      end
  end.

Lemma initial_words_ok def :
  def_ok def → length (initial_words def) = def_width def ∧ Forall is_word (initial_words def).
Proof.
  intros [_ Hd]. unfold initial_words.
  assert (length (replicate (def_width def) 0) = def_width def ∧
    Forall is_word (replicate (def_width def) 0)) as Hz.
  { split; [apply length_replicate|]. apply Forall_replicate. by split. }
  destruct (rd_default def) as [s|]; [|done]. specialize (Hd s eq_refl).
  destruct (Register_encode _ _ _ _) as [raw|] eqn:He; [|done].
  by eapply encode_words_text.
Qed.

(** The cells hold words; their kinds are those of registers. *)
Definition cells_ok mem : Prop :=
  ∀ key a c, mem_cell mem key a = Some c → is_word (c_value c).

Definition kinds_ok mem : Prop := ∀ key a c, mem_cell mem key a = Some c → c_kind c = key_kind key.

(** The range of a definition with an address. *)
Lemma def_range def addr :
  def_ok def → RegisterDef_address def = Fixed addr →
  let r := Range_span addr (Z.of_nat (def_width def)) in
  RegisterDef_mem_range def = Ret (Some r) ∧ Range_new addr (Z.of_nat (def_width def)) = Ret r ∧
  Range_wf r ∧ Range_length r = Z.of_nat (def_width def) ∧
  ∀ key a, covers def key a ↔ key = def_key def ∧ in_range a r.
Proof.
  intros [Hd _] Ha r. destruct (Hd addr Ha) as [Hu Hw]. unfold is_uint in Hu.
  pose proof (read_limit_bounds (function_code (RegisterDef_register def))).
  assert (Range_new addr (Z.of_nat (def_width def)) = Ret r) as Hn
    by (apply Range_new_Ret; unfold usize_max; lia).
  split_and!; [|done| | |].
  - unfold RegisterDef_mem_range. rewrite Ha. unfold def_width in Hn. by rewrite Hn.
  - unfold Range_wf, r, Range_span. simpl. unfold usize_max. lia.
  - unfold Range_length, r, Range_span. simpl. lia.
  - intros key a. unfold covers, in_range, r, Range_span. rewrite Ha. simpl. split.
    + intros [-> (addr' & [= <-] & Hin)]. done.
    + intros [-> Hin]. split; [done|]. by exists addr.
Qed.

(** Writing the default over fresh or old cells of the definition. *)
Lemma write_default_spec mem def addr :
  def_ok def → RegisterDef_address def = Fixed addr → Memory_wf mem → cells_ok mem → kinds_ok mem →
  (∀ a, covers def (def_key def) a → is_Some (mem_cell mem (def_key def) a)) →
  ∃ mem', write_default parse_f32 parse_f64 display_f64 mem def
      (Range_span addr (Z.of_nat (def_width def))) = Ret mem' ∧
    Memory_wf mem' ∧ cells_ok mem' ∧ kinds_ok mem' ∧
    (∀ key a, ¬ covers def key a → mem_cell mem' key a = mem_cell mem key a) ∧
    (∀ key a, is_Some (mem_cell mem' key a) ↔ is_Some (mem_cell mem key a)) ∧
    ((∀ key a c, covers def key a → mem_cell mem key a = Some c → c_value c = 0) →
     ∀ key a, covers def key a →
       c_value <$> mem_cell mem' key a = initial_words def !! Z.to_nat (a - addr)).
Proof.
  intros Hok Ha Hwf Hc Hk Hcov. destruct (def_range def addr Hok Ha) as (_ & Hnew & Hrw & Hrl & Hcv).
  destruct (initial_words_ok def Hok) as [Hil Hiw].
  assert (∀ words : list Z, words = replicate (def_width def) 0 →
    (∀ key a c, covers def key a → mem_cell mem key a = Some c → c_value c = 0) →
    ∀ key a, covers def key a →
      c_value <$> mem_cell mem key a = words !! Z.to_nat (a - addr)) as Hzero.
  { intros words -> Hz key a Hin. pose proof (proj1 (Hcv key a) Hin) as [-> Hr].
    destruct (Hcov a Hin) as [c Hmc]. rewrite Hmc. simpl. rewrite (Hz _ _ _ Hin Hmc).
    symmetry. apply lookup_replicate_2. unfold in_range, Range_span in Hr. simpl in Hr. lia. }
  unfold write_default, initial_words in *. destruct (rd_default def) as [s|].
  2:{ exists mem. split_and!; try done. by apply Hzero. }
  destruct (Register_encode _ _ _ _) as [raw|]; [|exists mem; split_and!; try done; by apply Hzero].
  simpl (r_start _). rewrite Hil, Hnew. cbn [mbind outcome_bind].
  destruct (write_cells mem (def_key def) (Range_span addr (Z.of_nat (def_width def))) raw)
    as (mem' & Hw & Hwf' & Hcell); [done|done|by rewrite Hil| |].
  { intros a Hin. apply Hcov, Hcv. done. }
  rewrite Hw. cbn [mbind outcome_bind]. exists mem'.
  assert (∀ key a, covers def key a → ∃ c v, mem_cell mem key a = Some c ∧
    raw !! Z.to_nat (a - addr) = Some v ∧ mem_cell mem' key a = Some (Cell_set_value c v)) as Hin'.
  { intros key a Hin. pose proof (proj1 (Hcv key a) Hin) as [-> Hr].
    destruct (Hcov a Hin) as [c Hmc]. destruct (lookup_lt_is_Some_2 raw (Z.to_nat (a - addr))) as [v Hv].
    { unfold in_range, Range_span in Hr. simpl in Hr. lia. }
    exists c, v. split_and!; [done|done|]. rewrite Hcell, decide_True by done. simpl.
    by rewrite Hmc, Hv. }
  assert (∀ key a, ¬ covers def key a → mem_cell mem' key a = mem_cell mem key a) as Hout.
  { intros key a Hn. rewrite Hcell, decide_False; [done|]. intros [-> Hr]. by apply Hn, Hcv. }
  assert (∀ key a, covers def key a ∨ ¬ covers def key a) as Hdec.
  { intros key a. destruct (decide (key = def_key def ∧
      in_range a (Range_span addr (Z.of_nat (def_width def))))); rewrite Hcv; tauto. }
  split_and!; try done.
  - intros key a c Hm. destruct (Hdec key a) as [Hin|Hn]; [|rewrite Hout in Hm by done; by eapply Hc].
    destruct (Hin' key a Hin) as (c0 & v & _ & Hv & Hm'). rewrite Hm in Hm'. injection Hm' as ->.
    exact (Forall_lookup_1 _ _ _ _ Hiw Hv).
  - intros key a c Hm. destruct (Hdec key a) as [Hin|Hn]; [|rewrite Hout in Hm by done; by eapply Hk].
    destruct (Hin' key a Hin) as (c0 & v & Hm0 & _ & Hm'). rewrite Hm in Hm'. injection Hm' as ->.
    exact (Hk _ _ _ Hm0).
  - intros key a. destruct (Hdec key a) as [Hin|Hn]; [|by rewrite Hout].
    destruct (Hin' key a Hin) as (c0 & v & -> & _ & ->). done.
  - intros _ key a Hin. destruct (Hin' key a Hin) as (c0 & v & _ & Hv & ->). by rewrite Hv.
Qed.

(** What the loop over the definitions maintains. *)
Definition building_ok acc : Prop :=
  Memory_wf (bd_memory acc) ∧ cells_ok (bd_memory acc) ∧ kinds_ok (bd_memory acc) ∧
  bd_log acc = [].

(** Declaring the cells of a definition. *)
Lemma declare_def_spec mem def addr :
  def_ok def → RegisterDef_address def = Fixed addr → Memory_wf mem → cells_ok mem → kinds_ok mem →
  ∃ mem', Memory_add_ranges mem (def_key def) (key_kind (def_key def))
      [Range_span addr (Z.of_nat (def_width def))] = Ret (true, mem') ∧
    Memory_wf mem' ∧ cells_ok mem' ∧ kinds_ok mem' ∧
    (∀ key a, ¬ covers def key a → mem_cell mem' key a = mem_cell mem key a) ∧
    (∀ key a, covers def key a →
       mem_cell mem' key a = Some (default (Cell_zeroed (key_kind key)) (mem_cell mem key a))).
Proof.
  intros Hok Ha Hwf Hc Hk. destruct (def_range def addr Hok Ha) as (_ & _ & Hrw & _ & Hcv).
  destruct (declare_cells mem (def_key def) (key_kind (def_key def))
    (Range_span addr (Z.of_nat (def_width def))) Hwf Hrw) as (mem' & Hd & Hwf' & Hcell).
  { intros a c _ Hm. by eapply Hk. }
  assert (∀ key a, covers def key a →
    mem_cell mem' key a = Some (default (Cell_zeroed (key_kind key)) (mem_cell mem key a))) as Hin.
  { intros key a [-> Hr]%Hcv. by rewrite Hcell, decide_True. }
  assert (∀ key a, ¬ covers def key a → mem_cell mem' key a = mem_cell mem key a) as Hout.
  { intros key a Hn. rewrite Hcell, decide_False; [done|]. intros Hr. by apply Hn, Hcv. }
  assert (∀ key a c, mem_cell mem' key a = Some c →
    mem_cell mem key a = Some c ∨ c = Cell_zeroed (key_kind key)) as Hcases.
  { intros key a c. rewrite Hcell. case_decide as Hr; [|by left]. destruct Hr as [-> _].
    destruct (mem_cell mem (def_key def) a); simpl; intros [= <-]; auto. }
  exists mem'. split_and!; try done.
  - intros key a c [Hm| ->]%Hcases; [by eapply Hc|done].
  - intros key a c [Hm| ->]%Hcases; [by eapply Hk|done].
Qed.

(** One definition: its cells are declared and start with its default, no other
    cell changes, nothing is rejected. *)
Lemma build_definition_spec acc name def :
  def_ok def → building_ok acc →
  ∃ acc', build_def acc (name, def) = Ret acc' ∧ building_ok acc' ∧
    bd_registers acc' = bd_registers acc ++ [def_row (name, def)] ∧
    (∀ key a, ¬ covers def key a → mem_cell (bd_memory acc') key a = mem_cell (bd_memory acc) key a) ∧
    (∀ key a, covers def key a → is_Some (mem_cell (bd_memory acc') key a)) ∧
    ((∀ key a, covers def key a → mem_cell (bd_memory acc) key a = None) →
     ∀ key a addr, covers def key a → RegisterDef_address def = Fixed addr →
       c_value <$> mem_cell (bd_memory acc') key a = initial_words def !! Z.to_nat (a - addr)).
Proof.
  intros Hok (Hwf & Hc & Hk & Hlog). unfold build_definition.
  destruct (RegisterDef_address def) as [addr|] eqn:Ha.
  2:{ unfold RegisterDef_mem_range. rewrite Ha. cbn [mbind outcome_bind].
      eexists. split; [done|]. cbn [bd_memory bd_registers bd_log].
      assert (∀ key a, ¬ covers def key a) as Hno by (intros key a (_ & ? & Hx & _); congruence).
      split_and!; try done. by intros key a ?%Hno. }
  destruct (def_range def addr Hok Ha) as (Hr & _).
  rewrite Hr. cbn [mbind outcome_bind]. unfold declare, declare_or_reject_msg.
  destruct (declare_def_spec (bd_memory acc) def addr Hok Ha Hwf Hc Hk)
    as (mem1 & Hd & Hwf1 & Hc1 & Hk1 & Hout1 & Hin1).
  change (kind_cell_kind (rd_kind def) (RegisterDef_mem_type def)) with (key_kind (def_key def)).
  rewrite Hd. cbn [mbind outcome_bind].
  destruct (write_default_spec mem1 def addr Hok Ha Hwf1 Hc1 Hk1)
    as (mem2 & Hw & Hwf2 & Hc2 & Hk2 & Hf2 & Hs2 & Hv2).
  { intros a Hin. by rewrite Hin1. }
  rewrite Hw. cbn [mbind outcome_bind]. eexists. split; [done|].
  cbn [bd_memory bd_registers bd_log]. split_and!; try done.
  - intros key a Hn. by rewrite Hf2, Hout1.
  - intros key a Hin. apply Hs2. by rewrite Hin1.
  - intros Hfresh key a addr' Hin [= <-]. apply Hv2; [|done]. intros key' a' c Hin' Hm.
    rewrite Hin1, Hfresh in Hm by done. by injection Hm as <-.
Qed.

Lemma build_definitions_snoc acc defs e :
  build_defs acc (defs ++ [e]) = (acc' ← build_defs acc defs; build_def acc' e).
Proof.
  revert acc. induction defs as [|e' defs IH]; intros acc; simpl.
  { by destruct (build_def acc e). }
  destruct (build_def acc e') as [acc'|]; [|done]. simpl. apply IH.
Qed.

(** Definitions apart from one: they share no cell with it. *)
Definition def_apart (defs : list (string * RegisterDef)) (i : nat) (def : RegisterDef) : Prop :=
  ∀ j e key a, j ≠ i → defs !! j = Some e → covers def key a → ¬ covers e.2 key a.

(** The memory holds the definition's default. *)
Definition initialised mem (def : RegisterDef) : Prop :=
  ∀ key a addr, covers def key a → RegisterDef_address def = Fixed addr →
    c_value <$> mem_cell mem key a = initial_words def !! Z.to_nat (a - addr).

Lemma covers_dec def key a : covers def key a ∨ ¬ covers def key a.
Proof.
  unfold covers. destruct (decide (def_key def = key)); [|tauto].
  destruct (RegisterDef_address def) as [addr|]; [|right; by intros (_ & ? & ? & _)].
  destruct (decide (addr <= a < addr + Z.of_nat (def_width def))); [left; eauto|right].
  by intros (_ & ? & [= <-] & ?).
Qed.

Lemma build_definitions_spec defs :
  Forall (λ e, def_ok e.2) defs →
  ∃ acc, build_defs (mkBuilding Memory_default [] [] ∅) defs = Ret acc ∧ building_ok acc ∧
    bd_registers acc = def_row <$> defs ∧
    (∀ key a, is_Some (mem_cell (bd_memory acc) key a) ↔ ∃ e, e ∈ defs ∧ covers e.2 key a) ∧
    ∀ i e, defs !! i = Some e → def_apart defs i e.2 → initialised (bd_memory acc) e.2.
Proof.
  induction defs as [|[name def] defs IH] using rev_ind; intros Hok.
  { eexists. split; [done|].
    assert (∀ key a, mem_cell (Tap := Tap) Memory_default key a = None) as Hno.
    { intros key a. unfold mem_cell, Memory_abs. simpl. by rewrite lookup_empty. }
    split; [split_and!; [apply Memory_wf_default| | |done]; intros key a c; simpl; by rewrite Hno|].
    split; [done|]. split; [|done].
    intros key a. simpl. rewrite Hno. split; [by intros []|]. by intros (e & ?%not_elem_of_nil & _). }
  apply Forall_app in Hok as [Hoks Hok]. rewrite list.Forall_singleton in Hok. simpl in Hok.
  destruct (IH Hoks) as (acc & Hb & Hacc & Hreg & Hcov & Hinit).
  rewrite build_definitions_snoc, Hb. cbn [mbind outcome_bind].
  destruct (build_definition_spec acc name def Hok Hacc) as (acc' & Hb' & Hacc' & Hreg' & Hout & Hin & Hval).
  exists acc'. split_and!; [done|done|by rewrite Hreg', Hreg, fmap_app| |].
  - intros key a. setoid_rewrite elem_of_app. setoid_rewrite list_elem_of_singleton.
    destruct (covers_dec def key a) as [Hc|Hn].
    + split; [|by intros _; apply Hin]. intros _. exists (name, def). auto.
    + rewrite (Hout key a Hn), Hcov. split; [intros (e & He & Hc); exists e; auto|].
      intros (e & [He| ->] & Hc); [by exists e|done].
  - intros i e Hi Hap. apply lookup_snoc_Some in Hi as [[Hlt Hi]|[-> <-]].
    + intros key a addr Hc Ha. rewrite Hout.
      * apply (Hinit i e Hi); [|done|done]. intros j e' key' a' Hj He'. apply (Hap j); [done|].
        by apply lookup_app_l_Some.
      * apply (Hap (length defs) (name, def) key a); [lia| |done]. by rewrite lookup_app_r, Nat.sub_diag.
    + unfold initialised. simpl in Hap |- *. apply Hval. intros key a Hc. destruct (mem_cell _ key a) as [c|] eqn:Hm; [|done]. exfalso.
      destruct (proj1 (Hcov key a)) as (e & [j He]%list_elem_of_lookup_1 & Hce); [by rewrite Hm|].
      apply (Hap j e key a); [apply lookup_lt_Some in He; lia| |done|done].
      by apply lookup_app_l_Some.
Qed.

(** *** Gaps *)

(** The gap cells are declared too, and change nothing else. *)
Lemma declare_gaps_spec mem log gaps :
  Memory_wf mem → cells_ok mem →
  (∀ key ck gap, (key, ck, gap) ∈ gaps → ck = gap_kind key ∧ Range_wf gap ∧
     ∀ a c, in_range a gap → mem_cell mem key a = Some c → c_kind c = gap_kind key) →
  ∃ mem', declare_gaps mem log gaps = Ret (mem', log) ∧ Memory_wf mem' ∧ cells_ok mem' ∧
    (∀ key a c, mem_cell mem key a = Some c → mem_cell mem' key a = Some c) ∧
    (∀ key a ck gap, (key, ck, gap) ∈ gaps → in_range a gap → is_Some (mem_cell mem' key a)).
Proof.
  revert mem. induction gaps as [|[[key ck] gap] gaps IH]; intros mem Hwf Hc Hg; simpl.
  { exists mem. split_and!; try done. by intros ? ? ? ? ?%not_elem_of_nil. }
  destruct (Hg key ck gap) as (-> & Hr & Hk); [apply list_elem_of_here|].
  destruct (declare_cells mem key (gap_kind key) gap Hwf Hr Hk) as (mem1 & Hd & Hwf1 & Hcell).
  unfold declare, declare_or_reject_msg. rewrite Hd. cbn [mbind outcome_bind].
  assert (∀ key' a c, mem_cell mem1 key' a = Some c →
    mem_cell mem key' a = Some c ∨ c = Cell_zeroed (gap_kind key')) as Hcases.
  { intros key' a c. rewrite Hcell. case_decide as Hin; [|by left]. destruct Hin as [-> _].
    destruct (mem_cell mem key a); simpl; intros [= <-]; auto. }
  assert (∀ key' a c, mem_cell mem key' a = Some c → mem_cell mem1 key' a = Some c) as Hkeep.
  { intros key' a c Hm. rewrite Hcell. case_decide as Hin; [|done]. destruct Hin as [-> _].
    by rewrite Hm. }
  destruct (IH mem1 Hwf1) as (mem' & Hd' & Hwf' & Hc' & Hkeep' & Hall).
  { intros key' a c [Hm| ->]%Hcases; [by eapply Hc|done]. }
  { intros key' ck' gap' Hin. destruct (Hg key' ck' gap') as (-> & Hr' & Hk'); [by apply elem_of_cons; right|].
    split_and!; [done|done|]. intros a c Ha [Hm| ->]%Hcases; [by eapply Hk'|done]. }
  exists mem'. split_and!; [done|done|done|auto|].
  intros key' a ck' gap' [[= -> -> ->]|Hin]%elem_of_cons Ha; [|by eapply Hall].
  assert (mem_cell mem1 key a = Some (default (Cell_zeroed (gap_kind key)) (mem_cell mem key a))) as Hm
    by (by rewrite Hcell, decide_True).
  by rewrite (Hkeep' _ _ _ Hm).
Qed.

(** *** Definitions and rows *)

Lemma parse_bitmask_uint s : is_uint 128 (bf_mask (parse_bitmask s)).
Proof.
  assert (is_uint 128 u128_max) as Hm by (unfold is_uint, u128_max; lia).
  assert (∀ src radix, is_uint 128
    match from_str_radix false 128 src radix with Ok m => m | Err _ => u128_max end) as Hp.
  { intros src radix. destruct (from_str_radix false 128 src radix) as [m|] eqn:E; [|done].
    apply from_str_radix_in_int in E; [|done]. unfold in_int in E. simpl in E.
    unfold is_uint. zbool. lia. }
  unfold parse_bitmask. cbn [bf_mask]. destruct (trim <$> s) as [[|c t]|]; [done| |done].
  destruct (strip_prefix (bytes_of "0x") (c :: t)); [apply Hp|].
  destruct (strip_prefix (bytes_of "0X") (c :: t)); apply Hp.
Qed.

Lemma def_mask_ok def : mask_ok (reg_format (RegisterDef_register def)).
Proof.
  pose proof (parse_bitmask_uint (rd_bitmask def)) as Hm. simpl.
  unfold RegisterDef_format, RegisterDef_bitfield. by destruct (rd_value_type def).
Qed.

Lemma rows_of_defs_fit defs : Forall (λ e, def_ok e.2) defs → rows_fit (def_row <$> defs).
Proof.
  intros Hok row addr (e & -> & He)%list_elem_of_fmap Ha. rewrite list.Forall_forall in Hok.
  destruct (Hok e He) as [Hd _]. apply (Hd addr Ha).
Qed.

Lemma occupies_covers e slave kind addr width a :
  occupies (def_row e) slave (kind_function kind) addr width → addr <= a < addr + width →
  covers e.2 (mkKey (mkSlaveKey slave kind)) a.
Proof.
  intros (Ha & Hs & Hf & ->) Hin. rewrite function_code_kind in Hf. apply kind_function_inj in Hf.
  simpl in *. split; [|by exists addr]. unfold def_key. simpl. by subst.
Qed.

Lemma covers_occupies e key a :
  covers e.2 key a → ∃ addr width,
    occupies (def_row e) (sk_slave_id (key_id key)) (kind_function (sk_kind (key_id key))) addr width ∧
    addr <= a < addr + width.
Proof.
  intros (<- & addr & Ha & Hin). exists addr. eexists. split; [|exact Hin].
  unfold occupies, def_key. simpl. by rewrite function_code_kind.
Qed.

Lemma op_key op kind :
  op_fn_code op = kind_function kind →
  mkKey (SlaveKey_from_slave_fn (op_slave_id op) (op_fn_code op)) =
    mkKey (mkSlaveKey (op_slave_id op) kind).
Proof. intros ->. by destruct kind. Qed.

(** The words of a register whose cells are declared. *)
Lemma register_words_cells mem def addr words :
  Memory_wf mem → def_ok def → RegisterDef_address def = Fixed addr →
  is_Some (Memory_abs mem (def_key def)) → length words = def_width def →
  (∀ a, covers def (def_key def) a → c_value <$> mem_cell mem (def_key def) a = words !! Z.to_nat (a - addr)) →
  register_words mem (RegisterDef_register def) = Some words.
Proof.
  intros Hwf Hok Ha [d Hd] Hl Hw. destruct (def_range def addr Hok Ha) as (_ & Hn & Hrw & Hrl & Hcv).
  unfold register_words, register_mem_binding. simpl. rewrite Ha. unfold def_width in Hn. rewrite Hn.
  cbn [mbind outcome_bind]. change (register_key (RegisterDef_register def)) with (def_key def).
  rewrite Memory_read_unchecked_refines by done. unfold store_read_unchecked. rewrite Hd. simpl.
  apply dev_words_Some; [done|]. split; [by rewrite Hl, <-Hrl|]. intros i v Hi.
  assert (covers def (def_key def) (addr + Z.of_nat i)) as Hc.
  { apply lookup_lt_Some in Hi. split; [done|]. exists addr. split; [done|]. lia. }
  specialize (Hw _ Hc). unfold mem_cell in Hw. rewrite Hd in Hw. simpl in Hw. simpl (r_start _).
  rewrite Hw. replace (Z.to_nat (addr + Z.of_nat i - addr)) with i by lia. done.
Qed.

Lemma register_key_known mem def addr :
  def_ok def → RegisterDef_address def = Fixed addr → (0 < def_width def)%nat →
  (∀ a, covers def (def_key def) a → is_Some (mem_cell mem (def_key def) a)) →
  is_Some (Memory_abs mem (def_key def)).
Proof.
  intros Hok Ha Hw Hc. destruct (Hc addr) as [c Hm].
  { split; [done|]. exists addr. split; [done|]. lia. }
  unfold mem_cell in Hm. by destruct (Memory_abs mem (def_key def)).
Qed.

(** *** The module *)

Lemma mem_words_cells mem : cells_ok mem → mem_words mem.
Proof.
  intros Hc id d a c Hd Ha. apply (Hc id a). unfold mem_cell. by rewrite Hd.
Qed.

(** Every register scripts see is a row's. *)
Lemma lua_view_row rows name register :
  lua_view rows !! name = Some register → ∃ row, row ∈ rows ∧ row_name row = name ∧ row_register row = register.
Proof.
  unfold lua_view. induction rows as [|row rows IH] using rev_ind; [done|].
  rewrite foldl_app. simpl. intros [[<- <-]|[_ H]]%lookup_insert_Some.
  - exists row. split; [apply elem_of_app; right; apply list_elem_of_here|done].
  - destruct (IH H) as (row' & Hin & Hrow). exists row'. split; [apply elem_of_app; by left|done].
Qed.

Lemma lua_view_ok defs :
  Forall (λ e, def_ok e.2) defs → registers_ok (map_to_list (lua_view (def_row <$> defs))).
Proof.
  intros Hok. apply list.Forall_forall. intros [name register] Hin.
  apply elem_of_map_to_list, lua_view_row in Hin as (row & (e & -> & He)%list_elem_of_fmap & _ & Hr).
  simpl in Hr. subst register. rewrite list.Forall_forall in Hok. specialize (Hok e He). simpl.
  split; [split; [|apply def_mask_ok]|].
  - intros addr Ha. destruct (def_range e.2 addr Hok Ha) as (_ & _ & [_ Hmax] & _).
    split; [by apply Hok|exact Hmax].
  - unfold register_mem_binding. destruct (reg_address _) as [addr|] eqn:Ha; [|done].
    destruct (def_range e.2 addr Hok Ha) as (_ & Hn & _). simpl.
    unfold def_width in Hn. by rewrite Hn.
Qed.

(** What an answer to a request does to memory: it is stored. *)
Definition storable mem (op : Operation) : Prop :=
  ∀ words, Z.of_nat (length words) = Range_length (op_range op) →
  ∃ mem' calls, Memory_write_unchecked_from mem WS_Poll
    (mkKey (SlaveKey_from_slave_fn (op_slave_id op) (op_fn_code op))) (op_range op) words =
    Ret (true, mem', calls).

Lemma covered_storable mem op :
  Memory_wf mem → Range_wf (op_range op) → 0 < Range_length (op_range op) →
  (∀ a, in_range a (op_range op) →
     is_Some (mem_cell mem (mkKey (SlaveKey_from_slave_fn (op_slave_id op) (op_fn_code op))) a)) →
  storable mem op.
Proof.
  intros Hwf Hr Hpos Hcov words Hl.
  destruct (Memory_write_unchecked_from_refines mem WS_Poll
    (mkKey (SlaveKey_from_slave_fn (op_slave_id op) (op_fn_code op))) (op_range op) words Hwf Hr)
    as (mem' & calls & Hw & _). exists mem', calls. rewrite Hw. do 3 f_equal.
  unfold store_write_unchecked. rewrite (proj2 (Z.eqb_eq _ _)) by done. simpl.
  unfold mem_cell in Hcov. set (key := mkKey _) in *.
  destruct (Memory_abs mem key) as [d|]; simpl in *.
  - by apply bool_decide_eq_true_2, covered_words.
  - destruct (Hcov (r_start (op_range op))) as [? ?]; [|done].
    unfold in_range, Range_length in *. lia.
Qed.

Lemma ensure_sim_keeps (m : Module_ Tap) :
  md_memory (ensure_sim m) = md_memory m ∧ md_operations (ensure_sim m) = md_operations m ∧
  md_log (ensure_sim m) = md_log m ∧ md_registers (ensure_sim m) = md_registers m ∧
  md_lua_registers (ensure_sim m) = md_lua_registers m.
Proof.
  unfold ensure_sim. destruct (run_sim_plan _ _) as [[[[planned watched] wake] hub]|]; done.
Qed.

(** The read ranges parse, and memory can hold a cell for each address of them. *)
Definition ranges_fit (rr : ReadRanges) : Prop :=
  ∀ kind, ∃ rs, ranges_for rr kind = Ret rs ∧ Forall Range_wf rs.

Section device.
Context (fuel : nat) (name : string) (device : DeviceConfig) (events : Hub RegisterEvent).
Context (Hdefs : Forall (λ e, def_ok e.2) (dc_definitions device)).
Context (Hread : ranges_fit (dc_read_ranges device)).
Context (Hfuel : 2 ^ 18 <= Z.of_nat fuel).

Abbreviation build := (new_with_events tap parse_f32 parse_f64 display_f64 fuel name device events).

Lemma device_fit : rows_fit (def_row <$> dc_definitions device).
Proof. by apply rows_of_defs_fit. Qed.

Lemma device_ranges kind : ranges_for (dc_read_ranges device) kind ≠ Panic.
Proof. destruct (Hread kind) as (rs & -> & _). done. Qed.

(** A gap has the kind of gaps and shares no cell with a register. *)
Lemma coverage_apart gaps key ck gap :
  explicit_read_coverage (def_row <$> dc_definitions device) (dc_read_ranges device) = Ret gaps →
  (key, ck, gap) ∈ gaps →
  ck = gap_kind key ∧ Range_wf gap ∧
  ∀ x, in_range x gap → ¬ ∃ e, e ∈ dc_definitions device ∧ covers e.2 key x.
Proof.
  intros Hgaps Hin. pose proof (coverage_wf _ _ fuel _ _ Hgaps Hin) as [[Hgs _] Hgl].
  simpl in Hgs, Hgl.
  destruct (explicit_read_coverage_spec _ _ fuel device_fit device_ranges) as (gaps' & Hg' & Hgx).
  rewrite Hgaps in Hg'. injection Hg' as <-.
  assert (∀ x, in_range x gap → ck = gap_kind key ∧ 8 * (x + 1) <= usize_max ∧
    ¬ ∃ e, e ∈ dc_definitions device ∧ covers e.2 key x) as Hx.
  { intros x Hx. destruct (proj1 (Hgx key ck x)) as (slave & kind & rs & -> & -> & _ & Hrs & Hxr & Hn);
      [by exists gap|]. split; [done|]. split.
    { destruct (Hread kind) as (rs' & Hrs' & Hfit). rewrite Hrs in Hrs'. injection Hrs' as <-.
      destruct Hxr as (r & Hr & Hxr). rewrite list.Forall_forall in Hfit. specialize (Hfit r Hr).
      unfold Range_wf, in_range in *. lia. }
    intros (e & He & (addr & width & Hocc & Ha)%covers_occupies).
    apply Hn. eapply (occupied_span _ fuel device_fit _ _ (def_row e));
      [by apply list_elem_of_fmap_2|done|done]. }
  split; [apply (Hx (r_start gap)); unfold in_range; lia|]. split; [|intros x Hxg; by apply Hx].
  destruct (Hx (r_end gap - 1)) as (_ & Hmax & _); [unfold in_range; lia|]. unfold Range_wf. lia.
Qed.

(** A memory that holds the registers and the gaps stores every planned answer. *)
Lemma planned_storable mem ops gaps op :
  build_read_operations fuel (def_row <$> dc_definitions device) (dc_read_ranges device) = Ret (Some ops) →
  explicit_read_coverage (def_row <$> dc_definitions device) (dc_read_ranges device) = Ret gaps →
  Memory_wf mem →
  (∀ e key a, e ∈ dc_definitions device → covers e.2 key a → is_Some (mem_cell mem key a)) →
  (∀ key a ck gap, (key, ck, gap) ∈ gaps → in_range a gap → is_Some (mem_cell mem key a)) →
  op ∈ ops → storable mem op.
Proof.
  intros Hops Hgaps Hwf Hdecl Hall Hop.
  destruct (build_read_operations_spec _ (dc_read_ranges device) fuel device_fit device_ranges Hfuel)
    as (ops' & Hops' & Hel). rewrite Hops in Hops'. injection Hops' as <-.
  pose proof (proj1 (Hel op) Hop) as (slave & kind & l & _ & Hl & Ho).
  destruct (group_operations_spec _ _ fuel device_fit device_ranges Hfuel slave kind) as (l' & Hl' & Hspec & _).
  rewrite Hl in Hl'. injection Hl' as <-. destruct (Hspec op Ho) as (_ & Hfn & Hlen & b & Hb' & H1 & H2).
  apply (batch_bounds _ _ fuel device_fit) in Hb' as [Hb1 Hb2].
  apply covered_storable; [done| |lia|].
  { unfold Range_wf, Range_length, usize_max in *. lia. }
  intros a Ha. rewrite (op_key op kind Hfn).
  destruct (planned_address _ _ fuel device_fit device_ranges Hfuel ops gaps op a Hops Hgaps Hop Ha)
    as [(row & addr & width & Hin & Hocc & Hax)|(ck & gap & Hin & Hax)].
  - apply list_elem_of_fmap in Hin as (e & -> & He). apply (Hdecl e); [done|].
    rewrite Hfn in Hocc. by eapply occupies_covers.
  - rewrite (op_key op kind Hfn) in Hin. by eapply Hall.
Qed.

(** Everything about the module built. *)
Lemma new_with_events_spec :
  ∃ m, build = Ret (Some m) ∧ md_log m = [] ∧
    Memory_wf (md_memory m) ∧ cells_ok (md_memory m) ∧
    md_registers m = def_row <$> dc_definitions device ∧
    md_lua_registers m = lua_view (md_registers m) ∧
    build_read_operations fuel (md_registers m) (dc_read_ranges device) = Ret (Some (md_operations m)) ∧
    (∀ op, op ∈ md_operations m → storable (md_memory m) op) ∧
    (∀ e key a, e ∈ dc_definitions device → covers e.2 key a → is_Some (mem_cell (md_memory m) key a)) ∧
    ∀ i e, dc_definitions device !! i = Some e → def_apart (dc_definitions device) i e.2 →
      initialised (md_memory m) e.2.
Proof.
  destruct (build_definitions_spec (dc_definitions device) Hdefs)
    as (acc & Hb & (Hwf & Hc & Hk & Hlog) & Hreg & Hcov & Hinit).
  destruct (explicit_read_coverage_spec _ _ fuel device_fit device_ranges) as (gaps & Hgaps & _).
  destruct (build_read_operations_spec _ _ fuel device_fit device_ranges Hfuel) as (ops & Hops & _).
  destruct (declare_gaps_spec (bd_memory acc) (bd_log acc) gaps Hwf Hc)
    as (mem' & Hd & Hwf' & Hc' & Hkeep & Hall).
  { intros key ck gap Hin. destruct (coverage_apart gaps key ck gap Hgaps Hin) as (Hck & Hgw & Hx).
    split; [done|]. split; [done|]. intros a c Ha Hm. destruct (Hx a Ha). apply Hcov. by rewrite Hm. }
  unfold new_with_events. rewrite Hb. cbn [mbind outcome_bind]. rewrite Hreg, Hgaps.
  cbn [mbind outcome_bind]. rewrite Hd. cbn [mbind outcome_bind]. rewrite Hops. cbn [mbind outcome_bind].
  eexists. split; [done|].
  match goal with |- context [ensure_sim ?m] => pose proof (ensure_sim_keeps m) as (-> & -> & -> & -> & ->) end.
  cbn [md_memory md_operations md_log md_registers md_lua_registers].
  assert (∀ e key a, e ∈ dc_definitions device → covers e.2 key a → is_Some (mem_cell mem' key a)) as Hdecl.
  { intros e key a He Ha. destruct (proj2 (Hcov key a)) as [c Hm]; [by exists e|].
    by rewrite (Hkeep _ _ _ Hm). }
  split; [by rewrite Hlog|]. split; [exact Hwf'|]. split; [exact Hc'|]. split; [done|]. split; [done|].
  split; [done|]. split; [|split; [exact Hdecl|]].
  - intros op. by apply (planned_storable (Memory_set_write_tap mem' tap) ops gaps).
  - intros i e Hi Hap key a addr Ha Hfix. rewrite <-(Hinit i e Hi Hap key a addr Ha Hfix).
    destruct (proj2 (Hcov key a)) as [c Hm].
    { exists e. split; [by eapply list_elem_of_lookup_2|done]. }
    change (mem_cell (Memory_set_write_tap mem' tap) key a) with (mem_cell mem' key a).
    by rewrite (Hkeep _ _ _ Hm), Hm.
Qed.

(** C25: building a module from a configuration whose registers have 16-bit
    addresses and fit a request, whose default texts are bytes ([def_ok]), and
    whose read ranges parse without a panic and end where cells can, below 2^61
    ([ranges_fit]; [oversized_register_hangs], [range_check_panics] and
    [huge_gap_panics] show what happens otherwise), does not panic, hang (2^18
    rounds of the planner are enough) or reject a declaration, and leaves a
    state scripts can work on; whatever a planned request is answered with can
    be stored. *)
Theorem module_build_total :
  ∃ m, build = Ret (Some m) ∧ md_log m = [] ∧ bridge_ok (module_bridge m) ∧
    build_read_operations fuel (md_registers m) (dc_read_ranges device) = Ret (Some (md_operations m)) ∧
    ∀ op, op ∈ md_operations m → storable (md_memory m) op.
Proof.
  destruct new_with_events_spec as (m & Hm & Hlog & Hwf & Hc & Hreg & Hlua & Hops & Hst & _).
  exists m. split; [done|]. split; [done|]. split; [|done].
  split; [done|]. split; [by apply mem_words_cells|]. simpl. rewrite Hlua, Hreg. by apply lua_view_ok.
Qed.

(** A register that shares no cell with another one starts with the words of
    its configured default, or zeros if it has none or one its format cannot
    encode; a script reads them back at once. *)
Theorem module_starts_with_defaults i rname def addr :
  dc_definitions device !! i = Some (rname, def) → def_apart (dc_definitions device) i def →
  RegisterDef_address def = Fixed addr → (0 < def_width def)%nat →
  ∃ m, build = Ret (Some m) ∧
    register_words (md_memory m) (RegisterDef_register def) = Some (initial_words def).
Proof.
  intros Hi Hap Ha Hw. destruct new_with_events_spec
    as (m & Hm & _ & Hwf & _ & _ & _ & _ & _ & Hcov & Hinit).
  assert (def_ok def) as Hok by exact (Forall_lookup_1 _ _ _ _ Hdefs Hi).
  assert ((rname, def) ∈ dc_definitions device) as Hin by by eapply list_elem_of_lookup_2.
  exists m. split; [done|]. apply (register_words_cells _ _ addr); try done.
  - apply (register_key_known _ _ addr); try done. intros a Hc. by eapply (Hcov (rname, def)).
  - by apply initial_words_ok.
  - intros a Hc. by apply (Hinit i (rname, def)).
Qed.
End device.
End build.

(** ** The register list and the view of it *)

Section registers.
Context {Tap : Type}.
Implicit Types (m : Module_ Tap).

(** Names are distinct, and scripts see exactly the registers of the list. *)
Definition view_ok m : Prop :=
  NoDup (row_name <$> md_registers m) ∧ md_lua_registers m = lua_view (md_registers m).

Lemma row_name_inj (rows : list RegisterRow) row row' :
  NoDup (row_name <$> rows) → row ∈ rows → row' ∈ rows → row_name row = row_name row' → row = row'.
Proof.
  intros Hnd [i Hi]%list_elem_of_lookup_1 [j Hj]%list_elem_of_lookup_1 He.
  assert (i = j) as ->; [|by simplify_eq]. eapply (NoDup_lookup (row_name <$> rows)); [done| |].
  - by rewrite list_lookup_fmap, Hi.
  - by rewrite list_lookup_fmap, Hj, He.
Qed.

(** The view of distinct rows, by lookups. *)
Lemma lua_view_spec (rows : list RegisterRow) name register :
  NoDup (row_name <$> rows) →
  lua_view rows !! name = Some register ↔
  ∃ row, row ∈ rows ∧ row_name row = name ∧ row_register row = register.
Proof.
  intros Hnd. split; [apply lua_view_row|]. intros (row & Hin & <- & <-).
  revert Hnd Hin. unfold lua_view. induction rows as [|row' rows IH] using rev_ind; [by intros _ ?%not_elem_of_nil|].
  rewrite fmap_app, foldl_app. simpl. intros (Hnd & Hnew & _)%NoDup_app [Hin|Hin]%elem_of_app.
  - rewrite lookup_insert_ne; [by apply IH|]. intros He. apply (Hnew (row_name row)).
    + by apply list_elem_of_fmap_2.
    + rewrite He. apply list_elem_of_here.
  - apply list_elem_of_singleton in Hin as ->. by rewrite lookup_insert_eq.
Qed.

Lemma lua_view_ext (rows rows' : list RegisterRow) :
  NoDup (row_name <$> rows) → NoDup (row_name <$> rows') → (∀ row, row ∈ rows ↔ row ∈ rows') →
  lua_view rows = lua_view rows'.
Proof.
  intros H1 H2 He. apply map_eq. intros name. apply option_eq. intros register.
  rewrite !lua_view_spec by done. by setoid_rewrite He.
Qed.

(** The edits of the list a view makes. *)
Inductive RegisterEdit :=
| RE_Add (row : RegisterRow)
| RE_Remove (name : string)
| RE_Update (idx : nat) (row : RegisterRow).

Definition edit m (e : RegisterEdit) : Module_ Tap :=
  match e with
  | RE_Add row => add_register m row
  | RE_Remove name => remove_register_by_name m name
  | RE_Update idx row => update_register m idx row
  end.

(** No other row has the name of the new one. *)
Definition edit_fresh m (e : RegisterEdit) : Prop :=
  match e with
  | RE_Add row => row_name row ∉ row_name <$> md_registers m
  | RE_Remove _ => True
  | RE_Update idx row =>
      ∀ j row', md_registers m !! j = Some row' → j ≠ idx → row_name row' ≠ row_name row
  end.

Lemma add_view_ok m row :
  view_ok m → row_name row ∉ row_name <$> md_registers m → view_ok (add_register m row).
Proof.
  intros [Hnd Hv] Hn. split; simpl.
  - rewrite fmap_app. apply NoDup_app. split; [done|]. split; [|apply NoDup_singleton].
    by intros x Hx ->%list_elem_of_singleton.
  - rewrite Hv. unfold lua_view. by rewrite foldl_app.
Qed.

Lemma remove_view_ok m name : view_ok m → view_ok (remove_register_by_name m name).
Proof.
  intros [Hnd Hv]. assert (NoDup (row_name <$> filter (λ row, row_name row ≠ name) (md_registers m)))
    as Hnd'. { eapply sublist_NoDup; [exact Hnd|]. apply fmap_sublist, sublist_filter. }
  split; [done|]. simpl. rewrite Hv. apply map_eq. intros n. apply option_eq. intros r.
  rewrite lookup_delete_Some, !lua_view_spec by done. setoid_rewrite list_elem_of_filter. split.
  - intros (Hne & row & Hin & <- & <-). eauto 10.
  - intros (row & (Hne & Hin) & <- & <-). eauto 10.
Qed.

Lemma update_view_ok m idx row :
  view_ok m → edit_fresh m (RE_Update idx row) → view_ok (update_register m idx row).
Proof.
  intros Hok Hf. pose proof Hok as [Hnd Hv]. unfold update_register.
  destruct (md_registers m !! idx) as [slot|] eqn:Hs; [|done].
  set (rows := md_registers m) in *. simpl in Hf. fold rows in Hf.
  assert (NoDup (row_name <$> <[idx:=row]> rows)) as Hnd'.
  { rewrite list_fmap_insert. apply NoDup_alt. intros i j x Hi Hj.
    apply list_lookup_insert_Some in Hi as [(<- & <- & _)|[Hni Hi]];
      apply list_lookup_insert_Some in Hj as [(<- & Hx & _)|[Hnj Hj]]; try done.
    - rewrite list_lookup_fmap in Hj. apply fmap_Some in Hj as (row' & Hj & Hx).
      by destruct (Hf j row' Hj).
    - subst x. rewrite list_lookup_fmap in Hi. apply fmap_Some in Hi as (row' & Hi & Hx).
      by destruct (Hf i row' Hi).
    - eapply NoDup_lookup; [exact Hnd|done|done]. }
  split; [done|]. simpl. rewrite Hv. apply map_eq. intros n. apply option_eq. intros r.
  rewrite lookup_insert_Some, lookup_delete_Some, !lua_view_spec by done. split.
  - intros [[<- <-]|(Hn & Hns & row' & [j Hj]%list_elem_of_lookup_1 & <- & <-)].
    + exists row. split; [|done]. apply (list_elem_of_lookup_2 _ idx).
      apply list_lookup_insert_eq. by eapply lookup_lt_Some.
    + exists row'. split; [|done]. apply (list_elem_of_lookup_2 _ j).
      rewrite list_lookup_insert_ne; [done|]. intros ->. congruence.
  - intros (row' & [j Hj]%list_elem_of_lookup_1 & <- & <-).
    apply list_lookup_insert_Some in Hj as [(<- & <- & _)|[Hne Hj]]; [by left|right].
    split; [by apply not_eq_sym, (Hf j)|]. split; [|exists row'; split; [by eapply list_elem_of_lookup_2|done]].
    intros He. apply Hne. eapply (NoDup_lookup (row_name <$> rows)); [exact Hnd| |].
    + by rewrite list_lookup_fmap, Hs.
    + by rewrite list_lookup_fmap, Hj, He.
Qed.

(** Through any edits that keep names distinct, scripts see exactly the
    registers of the list, by name; an edit out of range does nothing. *)
Theorem register_view_consistent m e name register :
  view_ok m → edit_fresh m e →
  view_ok (edit m e) ∧
  (md_lua_registers (edit m e) !! name = Some register ↔
   ∃ row, row ∈ md_registers (edit m e) ∧ row_name row = name ∧ row_register row = register).
Proof.
  intros Hok Hf. assert (view_ok (edit m e)) as Hok'.
  { destruct e; [by apply add_view_ok|by apply remove_view_ok|by apply update_view_ok]. }
  split; [done|]. destruct Hok' as [Hnd ->]. by apply lua_view_spec.
Qed.
End registers.

(** ** The life of the simulation thread *)

Section sim.
Context {Tap : Type}.
Implicit Types (m : Module_ Tap) (hub : Hub RegisterEvent).

Lemma filter_kept {A} (P : A → Prop) `{∀ x, Decision (P x)} (l : list A) :
  (∀ x, x ∈ l → P x) → filter P l = l.
Proof.
  induction l as [|x l IH]; intros HP; [done|].
  rewrite filter_cons_True by (apply HP, list_elem_of_here).
  f_equal. apply IH. intros y Hy. by apply HP, elem_of_cons; right.
Qed.

Lemma filter_gone {A} (P : A → Prop) `{∀ x, Decision (P x)} (l : list A) :
  (∀ x, x ∈ l → ¬ P x) → filter P l = [].
Proof.
  induction l as [|x l IH]; intros HP; [done|].
  rewrite filter_cons_False by (apply HP, list_elem_of_here).
  apply IH. intros y Hy. by apply HP, elem_of_cons; right.
Qed.

Lemma feed_drop_all hub feeds :
  es_queues (h_stream (foldl feed_drop hub feeds)) =
    filter (λ q, q ∉ feeds) (es_queues (h_stream hub)) ∧
  h_queues (foldl feed_drop hub feeds) = h_queues hub.
Proof.
  revert hub. induction feeds as [|k feeds IH]; intros hub; simpl.
  { split; [|done]. induction (es_queues (h_stream hub)) as [|q l IHl]; [done|].
    rewrite filter_cons_True by apply not_elem_of_nil. by rewrite <-IHl. }
  destruct (IH (feed_drop hub k)) as [H1 H2]. rewrite H1, H2. split; [|done].
  unfold feed_drop, detach, set_attached. simpl. rewrite list_filter_filter.
  apply list_filter_iff. intros q. rewrite not_elem_of_cons. tauto.
Qed.

(** Stopping the thread detaches its queues, and no others. *)
Lemma stop_sim_queues m base :
  hub_wf (md_hub m) → es_queues (h_stream (md_hub m)) = base ++ sim_feeds (md_sim m) →
  hub_wf (md_hub (stop_sim m)) ∧ es_queues (h_stream (md_hub (stop_sim m))) = base.
Proof.
  intros [Hnd Hex] Hq. destruct (feed_drop_all (md_hub m) (sim_feeds (md_sim m))) as [H1 H2].
  assert (es_queues (h_stream (md_hub (stop_sim m))) = base) as Hbase.
  { simpl. rewrite H1, Hq, filter_app. rewrite Hq in Hnd.
    apply NoDup_app in Hnd as (_ & Hdis & _).
    rewrite (filter_kept _ base), (filter_gone _ (sim_feeds _)), app_nil_r; [done| |done].
    intros q Hin Hn. by apply Hn. }
  split; [|done]. unfold hub_wf. rewrite Hbase. rewrite Hq in Hnd, Hex. split.
  - by apply NoDup_app in Hnd as (? & _).
  - intros k Hk. simpl. rewrite H2. apply Hex, elem_of_app. by left.
Qed.

Lemma plan_queues wake scripts hub :
  let '(planned, _, hub') := foldl (plan_script wake) ([], [], hub) scripts in
  es_queues (h_stream hub') = es_queues (h_stream hub) ++ (planned ≫= feed_of).
Proof.
  induction scripts as [|script scripts IH] using rev_ind; simpl; [by rewrite app_nil_r|].
  rewrite foldl_app. simpl. destruct (foldl _ _ scripts) as [[planned watched] hub'].
  simpl. destruct (sd_trigger script) as [[]|]; simpl; rewrite bind_app, IH; simpl;
    rewrite ?app_nil_r; [by rewrite (assoc_L (++))|done].
Qed.

(** Reloading its scripts replaces a module's simulation thread: the queues of
    the old thread are all detached and those of the new one attached, so none
    is left behind however often scripts are reloaded; queues of others stay;
    the new thread may run from here, and there is none without a script. *)
Theorem reload_replaces_scripts m base scripts cycle :
  hub_wf (md_hub m) → es_queues (h_stream (md_hub m)) = base ++ sim_feeds (md_sim m) →
  let m' := reload_scripts m scripts in
  hub_wf (md_hub m') ∧ es_queues (h_stream (md_hub m')) = base ++ sim_feeds (md_sim m') ∧
  (md_sim m' = None ↔ scripts = []) ∧
  ∀ t, md_sim m' = Some t →
    let sched := SimScheduler_new (sth_planned t) cycle (sth_wake t) in
    hub_ok sched (md_hub m') ∧
    Forall2 (planned_for (sth_wake t) (md_hub m')) (triggered scripts) (sc_events sched).
Proof.
  intros Hwf Hq m'. unfold m', reload_scripts. set (m0 := mkModule _ _ _ _ _ _ _ _ _ _ _).
  destruct (stop_sim_queues m0 base Hwf Hq) as [Hwf1 Hq1]. unfold ensure_sim.
  change (md_scripts (stop_sim m0)) with scripts. set (hub1 := md_hub (stop_sim m0)) in *.
  destruct (run_sim_plan scripts hub1) as [[[[planned watched] wake] hub2]|] eqn:Hplan.
  - destruct (plan_thread_ok scripts hub1 planned watched wake hub2 cycle Hwf1 Hplan)
      as (Hok & Hwf2 & _ & _ & Hall).
    split; [exact Hwf2|]. split; [|split].
    + simpl. unfold run_sim_plan, wake_new in Hplan. destruct scripts as [|s l]; [done|].
      pose proof (plan_queues (length (h_wakes hub1)) (s :: l)
        (mkHub (h_stream hub1) (h_queues hub1) (h_wakes hub1 ++ [false]))) as Hpq.
      destruct (foldl _ _ (s :: l)) as [[planned1 watched1] hub3]. injection Hplan as -> -> <- ->.
      rewrite Hpq. simpl. by rewrite Hq1.
    + simpl. split; [done|]. intros ->. discriminate Hplan.
    + simpl. intros t [= <-]. split; [exact Hok|exact Hall].
  - split; [exact Hwf1|]. split; [|split; [|done]].
    + simpl. fold hub1. by rewrite Hq1, app_nil_r.
    + split; [|done]. intros _. unfold run_sim_plan, wake_new in Hplan. destruct scripts as [|s l]; [done|].
      by destruct (foldl _ _ (s :: l)) as [[? ?] ?].
Qed.
End sim.

(** ** Witnesses *)

Definition demo_word (addr : Z) (default : option Scalar) : RegisterDef :=
  mkRegisterDef 1 K_HoldingRegister (Some addr) false AC_ReadWrite VT_U16 EC_Big WC_Normal one_bits
    None 1 LC_Left [] None "word" default.

(** Two words, the second with a default, read with all from 0 to 9. *)
Definition demo_device : DeviceConfig :=
  mkDeviceConfig None None None None (mkReadRanges (Some (bytes_of "0-9")) None None None)
    [("a"%string, demo_word 2 None); ("b"%string, demo_word 4 (Some (S_Int 7)))] [].

Lemma demo_word_ok addr default :
  is_uint 16 addr → (∀ s, default = Some s → Forall is_byte (Scalar_display (λ _, []) s)) →
  def_ok (λ _, []) (demo_word addr default).
Proof. intros Ha Hd. split; [|exact Hd]. intros addr' [= <-]. by split. Qed.

Lemma demo_defs_ok : Forall (λ e, def_ok (λ _, []) e.2) (dc_definitions demo_device).
Proof.
  constructor; [by apply demo_word_ok|]. constructor; [|constructor]. apply demo_word_ok; [done|].
  intros s [= <-]. constructor; [by vm_compute|constructor].
Qed.

Lemma demo_device_ranges : ranges_fit (dc_read_ranges demo_device).
Proof.
  intros kind. destruct kind; (eexists; split; [reflexivity|]); repeat constructor; by vm_compute.
Qed.

Lemma demo_fuel : 2 ^ 18 <= Z.of_nat (Z.to_nat (2 ^ 18)).
Proof. rewrite Z2Nat.id; lia. Qed.

Abbreviation demo_build := (new_with_events tt (λ _, None) (λ _, None) (λ _, [])
  (Z.to_nat (2 ^ 18)) "m" demo_device (mkHub EventStream_new [] [])).

Lemma module_build_total_witness :
  ∃ m, demo_build = Ret (Some m) ∧ md_log m = [] ∧ bridge_ok (module_bridge m).
Proof.
  destruct (module_build_total tt (λ _, None) (λ _, None) (λ _, []) (Z.to_nat (2 ^ 18)) "m"
    demo_device (mkHub EventStream_new [] []) demo_defs_ok demo_device_ranges demo_fuel)
    as (m & H1 & H2 & H3 & _).
  exists m. split; [exact H1|]. split; [exact H2|exact H3].
Defined.

Lemma demo_apart : def_apart (dc_definitions demo_device) 1 (demo_word 4 (Some (S_Int 7))).
Proof.
  intros [|[|j]] e key a Hne He; [|done|by destruct j].
  injection He as <-. intros (_ & addr & [= <-] & H1) (_ & addr' & [= <-] & H2).
  change (def_width _) with 1%nat in H1. change (def_width _) with 1%nat in H2. lia.
Qed.

(** A read range of 2^62 addresses is declared as one gap, whose cells cannot be
    allocated: the build panics. *)
Example huge_gap_panics :
  new_with_events (Tap := unit) tt (λ _, None) (λ _, None) (λ _, []) 10 "m"
    (mkDeviceConfig None None None None
      (mkReadRanges (Some (bytes_of "0-4611686018427387903")) None None None)
      [("a"%string, demo_word 2 None)] []) (mkHub EventStream_new [] []) = Panic.
Proof. vm_compute. reflexivity. Qed.

Lemma module_starts_with_defaults_witness :
  ∃ m, demo_build = Ret (Some m) ∧
    register_words (md_memory m) (RegisterDef_register (demo_word 4 (Some (S_Int 7)))) = Some [7].
Proof.
  exact (module_starts_with_defaults tt (λ _, None) (λ _, None) (λ _, []) (Z.to_nat (2 ^ 18)) "m"
    demo_device (mkHub EventStream_new [] []) demo_defs_ok demo_device_ranges demo_fuel 1 "b"
    (demo_word 4 (Some (S_Int 7))) 4 eq_refl demo_apart eq_refl (le_n 1)).
Defined.

Definition demo_module : Module_ unit :=
  mkModule "m" [def_row ("a"%string, demo_word 2 None)]
    (lua_view [def_row ("a"%string, demo_word 2 None)]) [] Memory_default [] [] ReadRanges_default
    None ∅ (mkHub EventStream_new [] []).

Lemma register_view_consistent_witness :
  md_lua_registers (edit demo_module (RE_Update 0 (def_row ("c"%string, demo_word 4 None)))) !! "c"%string =
    Some (RegisterDef_register (demo_word 4 None)).
Proof.
  destruct (register_view_consistent demo_module (RE_Update 0 (def_row ("c"%string, demo_word 4 None)))
    "c" (RegisterDef_register (demo_word 4 None))) as [_ H].
  - split; [apply NoDup_singleton|reflexivity].
  - intros [|j] row' Hj Hne; [by destruct Hne|by destruct j].
  - apply H. eexists. split; [apply list_elem_of_here|]. split; reflexivity.
Defined.

Lemma reload_replaces_scripts_witness :
  ∃ t, md_sim (reload_scripts demo_module demo_scripts) = Some t ∧
    es_queues (h_stream (md_hub (reload_scripts demo_module demo_scripts))) = [0%nat] ∧
    hub_ok (SimScheduler_new (sth_planned t) 100 (sth_wake t))
      (md_hub (reload_scripts demo_module demo_scripts)).
Proof.
  destruct (reload_replaces_scripts demo_module [] demo_scripts 100) as (_ & H1 & _ & H2).
  - split; [apply NoDup_nil_2|]. intros k Hk. by apply not_elem_of_nil in Hk.
  - reflexivity.
  - eexists. split; [reflexivity|]. split; [exact H1|]. exact (proj1 (H2 _ eq_refl)).
Defined.
