(* ===== verification/Instance.v ===== *)
(** * Instances and serial paths

    Models [ferrowl/src/instance/mod.rs], its [handle.rs] and [error.rs],
    [module/modbus/serial_paths.rs] and the start and stop of [module.rs]: the
    life of a module's background task and the claims on serial paths. A task is
    named by its number among those the instance has spawned; what happens inside
    it, and how it ends, is the world's to say. Times are milliseconds. *)

From stdpp Require Import base list gmap numbers strings.
From S2P Require Import Prelude Key.

Local Open Scope Z_scope.

(** Commands a channel holds. *)
Definition CHANNEL_CAPACITY : nat := 10.

(** Grace of a stop before the task is aborted. *)
Definition STOP_GRACE : Z := 100.

Inductive ConnStatus := CS_Connected | CS_Reconnecting | CS_Disconnected.

Section instance.
(** Errors of [ferrowl_modbus], and addresses of sockets. *)
Context {NetError SocketAddr : Type}.

Inductive InstanceError :=
| IE_AlreadyActive
| IE_NotRunning
| IE_CancelFailed
| IE_SendError (command : Command)
| IE_InvalidOperation.

Inductive LifecycleError := LE_Net (e : NetError) | LE_Instance (e : InstanceError).

Definition is_not_running (self : LifecycleError) : bool :=
  match self with LE_Instance IE_NotRunning => true | _ => false end.

(** How a task ends, as its join handle tells. *)
Inductive TaskEnd := TE_Returned (res : Result unit NetError) | TE_Cancelled | TE_Panicked.

(** What only one role's handle has. *)
Inductive HandleSide :=
| HS_Client (connected : bool)
| HS_Server (bound_addr : option SocketAddr) (open : bool).

(** A spawned task with its channel. One that has ended has dropped its end of the
    channel. *)
Record Task := mkTask {
  tk_end : option TaskEnd;
  tk_queue : list (Command + ServerCommand);
  tk_side : HandleSide
}.

Inductive TaskState :=
| TS_Idle
| TS_Running (handle : nat)
| TS_Stopping (handle : nat) (deadline : Z).

(** [in_tasks]: every task spawned so far. *)
Record Instance := mkInstance { in_tasks : list Task; in_task : TaskState }.

Definition Instance_new : Instance := mkInstance [] TS_Idle.

Definition Instance_handle (self : Instance) : option nat :=
  match in_task self with
  | TS_Idle => None
  | TS_Running h | TS_Stopping h _ => Some h
  end.

Definition task_of (self : Instance) : option Task :=
  h ← Instance_handle self; in_tasks self !! h.

Definition task_finished (task : Task) : bool := bool_decide (is_Some (tk_end task)).

Definition Instance_active (self : Instance) : bool :=
  match task_of self with Some task => negb (task_finished task) | None => false end.

(** [start], given what the builder's [spawn] gives. *)
Definition Instance_start (self : Instance) (spawned : Result Task NetError)
  : Result unit LifecycleError * Instance :=
  if Instance_active self then (Err (LE_Instance IE_AlreadyActive), self)
  else
    match spawned with
    | Err e => (Err (LE_Net e), self)
    | Ok task => (Ok tt, mkInstance (in_tasks self ++ [task]) (TS_Running (length (in_tasks self))))
    end.

Definition Instance_bound_addr (self : Instance) : option SocketAddr :=
  match tk_side <$> task_of self with Some (HS_Server addr _) => addr | _ => None end.

Definition connection_status (self : Instance) : ConnStatus :=
  match task_of self with
  | None => CS_Disconnected
  | Some task =>
      if task_finished task then CS_Disconnected
      else
        let up := match tk_side task with
                  | HS_Client connected => connected
                  | HS_Server addr open => bool_decide (is_Some addr) || open
                  end in
        if up then CS_Connected else CS_Reconnecting
  end.

(** [Sender::send]: it waits while the channel is full and the task is there to
    empty it; [None] then. [Some false]: the task is gone. *)
Definition channel_send (task : Task) (c : Command + ServerCommand) : option (bool * Task) :=
  if task_finished task then Some (false, task)
  else if (length (tk_queue task) <? CHANNEL_CAPACITY)%nat
  then Some (true, mkTask (tk_end task) (tk_queue task ++ [c]) (tk_side task))
  else None.

Definition set_task (self : Instance) (h : nat) (task : Task) : Instance :=
  mkInstance (<[h := task]> (in_tasks self)) (in_task self).

Definition terminate_of (task : Task) : Command + ServerCommand :=
  match tk_side task with HS_Client _ => inl CMD_Terminate | HS_Server _ _ => inr SC_Terminate end.

(** [request_stop]; [None]: it waits to send. *)
Definition Instance_request_stop (self : Instance) (now : Z)
  : option (Result unit LifecycleError * Instance) :=
  match in_task self with
  | TS_Running h =>
      match in_tasks self !! h with
      | None => Some (Ok tt, mkInstance (in_tasks self) (TS_Stopping h (now + STOP_GRACE)))
      | Some task =>
          '(_, task) ← channel_send task (terminate_of task);
          Some (Ok tt, mkInstance (<[h := task]> (in_tasks self)) (TS_Stopping h (now + STOP_GRACE)))
      end
  | _ => Some (Err (LE_Instance IE_NotRunning), self)
  end.

(** The result of joining a task. *)
Definition join_result (e : TaskEnd) : Result unit LifecycleError :=
  match e with
  | TE_Returned (Ok _) => Ok tt
  | TE_Returned (Err e) => Err (LE_Net e)
  | TE_Cancelled => Ok tt
  | TE_Panicked => Err (LE_Instance IE_CancelFailed)
  end.

(** [poll_stop]; [aborted] is how the task ends if it has to be aborted. *)
Definition Instance_poll_stop (self : Instance) (now : Z) (aborted : TaskEnd)
  : option (Result unit LifecycleError) * Instance :=
  match in_task self with
  | TS_Stopping h deadline =>
      match in_tasks self !! h with
      | None => (None, self)
      | Some task =>
          if negb (task_finished task) && (now <? deadline) then (None, self)
          else if task_finished task then (Some (Ok tt), mkInstance (in_tasks self) TS_Idle)
          else
            (Some (join_result aborted),
             mkInstance (<[h := mkTask (Some aborted) (tk_queue task) (tk_side task)]> (in_tasks self))
               TS_Idle)
      end
  | _ => (None, self)
  end.

(** [send_command]; [None]: it waits to send. *)
Definition Instance_send_command (self : Instance) (command : Command)
  : option (Result unit LifecycleError * Instance) :=
  match Instance_handle self with
  | None => Some (Err (LE_Instance IE_NotRunning), self)
  | Some h =>
      match in_tasks self !! h with
      | None => Some (Err (LE_Instance IE_InvalidOperation), self)
      | Some task =>
          match tk_side task with
          | HS_Client _ =>
              '(sent, task) ← channel_send task (inl command);
              Some (if (sent : bool) then (Ok tt, set_task self h task)
                    else (Err (LE_Instance (IE_SendError command)), self))
          | HS_Server _ _ => Some (Err (LE_Instance IE_InvalidOperation), self)
          end
      end
  end.

(** ** The world *)

(** What a task may do by itself. *)
Inductive TaskEvent :=
| EV_TakeCommand
| EV_Side (side : HandleSide)
| EV_End (e : TaskEnd).

Definition task_event (self : Instance) (h : nat) (ev : TaskEvent) : Instance :=
  match in_tasks self !! h with
  | None => self
  | Some task =>
      if task_finished task then self
      else set_task self h
        match ev with
        | EV_TakeCommand => mkTask None (tail (tk_queue task)) (tk_side task)
        | EV_Side side => mkTask None (tk_queue task) side
        | EV_End e => mkTask (Some e) (tk_queue task) (tk_side task)
        end
  end.

(** ** Serial paths *)

(** Instance name to expanded path. *)
Definition SerialPathRegistry : Type := gmap string string.

Definition claim (self : SerialPathRegistry) (name path : string) : SerialPathRegistry :=
  <[name := path]> self.

Definition release (self : SerialPathRegistry) (name : string) : SerialPathRegistry := delete name self.

(** The first entry, in the order the map lists them. *)
Definition conflict (self : SerialPathRegistry) (name path : string) : option string :=
  fst ∘ snd <$> list_find (λ p, p.1 ≠ name ∧ p.2 = path) (map_to_list self).

(** A module, as far as its task goes: [name] is fixed when it is built. *)
Record NetModule := mkNetModule {
  nm_name : string; nm_instance : Instance; nm_serial_path : option string
}.

(** The modules of a session, by tab, and its registry. A tab's own name is not
    its module's: a rename changes the first only. *)
Record Session := mkSession {
  se_modules : gmap nat NetModule;
  se_claims : SerialPathRegistry
}.

Definition set_module (s : Session) (id : nat) (m : NetModule) (claims : SerialPathRegistry)
  : Session := mkSession (<[id := m]> (se_modules s)) claims.

Definition with_instance (m : NetModule) (instance : Instance) : NetModule :=
  mkNetModule (nm_name m) instance (nm_serial_path m).

(** [ModbusModule::start]. *)
Definition module_start (s : Session) (id : nat) (m : NetModule) (spawned : Result Task NetError)
  : Session :=
  let '(result, instance) := Instance_start (nm_instance m) spawned in
  set_module s id (with_instance m instance)
    match result, nm_serial_path m with
    | Ok _, Some path => claim (se_claims s) (nm_name m) path
    | _, _ => se_claims s
    end.

(** [ModbusModule::request_stop], unless it waits. *)
Definition module_request_stop (s : Session) (id : nat) (m : NetModule) (now : Z) : Session :=
  match Instance_request_stop (nm_instance m) now with
  | None => s
  | Some (result, instance) =>
      set_module s id (with_instance m instance)
        match result with
        | Err _ => if Instance_active instance then se_claims s else release (se_claims s) (nm_name m)
        | Ok _ => se_claims s
        end
  end.

(** [ModbusModule::poll_stop]. *)
Definition module_poll_stop (s : Session) (id : nat) (m : NetModule) (now : Z)
    (aborted : TaskEnd) : Session :=
  let '(result, instance) := Instance_poll_stop (nm_instance m) now aborted in
  set_module s id (with_instance m instance)
    match result with Some _ => release (se_claims s) (nm_name m) | None => se_claims s end.

(** [ModbusModule::reconfigure]: a fresh instance and the new path. *)
Definition module_reconfigure (s : Session) (id : nat) (m : NetModule) (path : option string)
  : Session :=
  set_module s id (mkNetModule (nm_name m) Instance_new path) (se_claims s).

(** A module built anew, in a new tab or by [:reload]. *)
Definition module_new (s : Session) (id : nat) (name : string) (path : option string) : Session :=
  set_module s id (mkNetModule name Instance_new path) (se_claims s).

(** What may happen in a session. A module is reconfigured or reloaded once its
    stop is settled; a reload builds it with the tab's present name. *)
Inductive SessionEvent :=
| SV_Open (id : nat) (name : string) (path : option string)
| SV_Close (id : nat)
| SV_Start (id : nat) (spawned : Result Task NetError)
| SV_RequestStop (id : nat) (now : Z)
| SV_PollStop (id : nat) (now : Z) (aborted : TaskEnd)
| SV_Reconfigure (id : nat) (path : option string)
| SV_Reload (id : nat) (name : string) (path : option string)
| SV_Task (id : nat) (h : nat) (ev : TaskEvent).

Definition session_step (s : Session) (ev : SessionEvent) : Session :=
  let on := λ id f, match se_modules s !! id with Some m => f m | None => s end in
  match ev with
  | SV_Open id name path =>
      match se_modules s !! id with Some _ => s | None => module_new s id name path end
  | SV_Close id => mkSession (delete id (se_modules s)) (se_claims s)
  | SV_Start id spawned => on id (λ m, module_start s id m spawned)
  | SV_RequestStop id now => on id (λ m, module_request_stop s id m now)
  | SV_PollStop id now aborted => on id (λ m, module_poll_stop s id m now aborted)
  | SV_Reconfigure id path =>
      on id (λ m, if Instance_active (nm_instance m) then s else module_reconfigure s id m path)
  | SV_Reload id name path =>
      on id (λ m, if Instance_active (nm_instance m) then s else module_new s id name path)
  | SV_Task id h ev =>
      on id (λ m, set_module s id (with_instance m (task_event (nm_instance m) h ev)) (se_claims s))
  end.

Definition session_run (s : Session) (evs : list SessionEvent) : Session := foldl session_step s evs.
End instance.

Arguments LifecycleError : clear implicits.
Arguments TaskEnd : clear implicits.
Arguments Task : clear implicits.
Arguments Instance : clear implicits.
Arguments Session : clear implicits.
Arguments SessionEvent : clear implicits.
