(* ===== verification/InstanceProps.v ===== *)
(** * Properties of instances and serial paths

    An instance has at most one task at a time and a stop settles; a serial path
    in use is claimed, in every run of a session. *)

From stdpp Require Import base list gmap numbers strings.
From S2P Require Import Prelude Key Instance.

Local Open Scope Z_scope.

Section instance.
Context {NetError SocketAddr : Type}.
Implicit Types (self : Instance NetError SocketAddr) (task : Task NetError SocketAddr).
Implicit Types (s : Session NetError SocketAddr).

(** The task is alive. *)
Definition live self (h : nat) : Prop :=
  ∃ task, in_tasks self !! h = Some task ∧ task_finished task = false.

(** Only the task of the handle is alive. *)
Definition inst_ok self : Prop :=
  (∀ h, live self h → Instance_handle self = Some h) ∧
  (∀ h, Instance_handle self = Some h → (h < length (in_tasks self))%nat).

Lemma active_live self : inst_ok self → Instance_active self = true ↔ ∃ h, live self h.
Proof.
  intros [Ho _]. unfold Instance_active, task_of. split.
  - destruct (Instance_handle self) as [h|] eqn:Hh; [|done]. simpl.
    destruct (in_tasks self !! h) as [task|] eqn:Ht; [|done]. intros Hf%negb_true_iff. by exists h, task.
  - intros [h Hl]. rewrite (Ho h Hl). destruct Hl as (task & Ht & Hf). simpl. by rewrite Ht, Hf.
Qed.

Lemma inst_ok_new : inst_ok Instance_new.
Proof. split; [|done]. intros h (task & Ht & _). simpl in Ht. done. Qed.

Lemma live_snoc self task st h :
  live (mkInstance (in_tasks self ++ [task]) st) h → live self h ∨ h = length (in_tasks self).
Proof.
  intros (t & Ht & Hf). simpl in Ht. apply lookup_snoc_Some in Ht as [[_ Ht]|[-> _]]; [left|by right].
  by exists t.
Qed.

Lemma instance_start_ok self spawned r self' :
  inst_ok self → Instance_start self spawned = (r, self') → inst_ok self'.
Proof.
  intros Hok. unfold Instance_start. destruct (Instance_active self) eqn:Ha; [by intros [= _ <-]|].
  destruct spawned as [task|e]; intros [= _ <-]; [|done]. split.
  - intros h [Hl| ->]%live_snoc; [|done]. exfalso.
    assert (Instance_active self = true); [|congruence]. apply active_live; [done|]. by exists h.
  - intros h [= <-]. simpl. rewrite length_app. simpl. lia.
Qed.

(** Replacing a task by one that is no more alive. *)
Lemma live_insert self h task st k :
  (task_finished task = false → live self h) → live (mkInstance (<[h:=task]> (in_tasks self)) st) k →
  live self k.
Proof.
  intros Hl (t & Ht & Hf). simpl in Ht. apply list_lookup_insert_Some in Ht as [(<- & <- & _)|[_ Ht]];
    [by apply Hl|by exists t].
Qed.

Lemma send_keeps task c sent task' : channel_send task c = Some (sent, task') → tk_end task' = tk_end task.
Proof. unfold channel_send.
  destruct (task_finished task), (length (tk_queue task) <? CHANNEL_CAPACITY)%nat; by intros [= _ <-]. Qed.

Lemma finished_same task task' : tk_end task' = tk_end task → task_finished task' = task_finished task.
Proof. unfold task_finished. by intros ->. Qed.

Lemma request_stop_ok self now r self' :
  inst_ok self → Instance_request_stop self now = Some (r, self') →
  inst_ok self' ∧ (∀ h, live self' h → live self h).
Proof.
  intros [Ho Hb]. unfold Instance_request_stop. destruct (in_task self) as [|h|h d] eqn:Ht;
    [by intros [= _ <-]| |by intros [= _ <-]].
  assert (Instance_handle self = Some h) as Hh by (unfold Instance_handle; by rewrite Ht).
  destruct (in_tasks self !! h) as [task|] eqn:Hl; simpl.
  - destruct (channel_send task _) as [[sent task']|] eqn:Hs; [|done]. intros [= _ <-].
    assert (∀ k, live (mkInstance (<[h:=task']> (in_tasks self)) (TS_Stopping h (now + STOP_GRACE))) k →
      live self k) as Hlive.
    { intros k. apply live_insert. rewrite (finished_same _ _ (send_keeps _ _ _ _ Hs)).
      intros Hf. by exists task. }
    split; [|done]. split.
    + intros k Hk%Hlive. rewrite (Ho k Hk) in Hh. by injection Hh as ->.
    + intros k [= <-]. simpl. rewrite length_insert. by apply Hb.
  - intros [= _ <-]. split; [|done]. split; [|intros k [= <-]; by apply Hb].
    intros k Hk. rewrite (Ho k Hk) in Hh. by injection Hh as ->.
Qed.

Lemma poll_stop_ok self now aborted r self' :
  inst_ok self → Instance_poll_stop self now aborted = (r, self') →
  inst_ok self' ∧ (∀ h, live self' h → live self h) ∧ (is_Some r → ∀ h, ¬ live self' h).
Proof.
  intros [Ho Hb]. unfold Instance_poll_stop.
  destruct (in_task self) as [|h|h d] eqn:Ht;
    [by intros [= <- <-]; split_and!; [| |intros []]..|].
  assert (Instance_handle self = Some h) as Hh by (unfold Instance_handle; by rewrite Ht).
  destruct (in_tasks self !! h) as [task|] eqn:Hl; [|by intros [= <- <-]; split_and!; [| |intros []]].
  destruct (negb _ && _); [by intros [= <- <-]; split_and!; [| |intros []]|].
  assert (∀ tasks, (∀ k task', tasks !! k = Some task' → k ≠ h → in_tasks self !! k = Some task') →
    (∀ task', tasks !! h = Some task' → task_finished task' = true) →
    ∀ k, ¬ live (mkInstance tasks TS_Idle) k) as Hnone.
  { intros tasks H1 H2 k (task' & Hk & Hf). simpl in Hk. destruct (decide (k = h)) as [->|Hne].
    - rewrite (H2 task' Hk) in Hf. done.
    - assert (live self k) as Hlk by (exists task'; auto). rewrite (Ho k Hlk) in Hh. congruence. }
  assert (∀ tasks, (∀ k, ¬ live (mkInstance tasks TS_Idle) k) →
    inst_ok (mkInstance tasks TS_Idle) ∧
    (∀ k, live (mkInstance tasks TS_Idle) k → live self k) ∧
    (is_Some r → ∀ k, ¬ live (mkInstance tasks TS_Idle) k)) as Hdone.
  { intros tasks Hn. split; [split; [|done]|split; [|done]]; intros k Hk; by apply Hn in Hk. }
  destruct (task_finished task) eqn:Hf; intros [= <- <-]; apply Hdone, Hnone.
  - auto.
  - intros task' Hk. rewrite Hl in Hk. by injection Hk as <-.
  - intros k task' Hk Hne. by rewrite list_lookup_insert_ne in Hk.
  - intros task' Hk. apply list_lookup_insert_Some in Hk as [(_ & <- & _)|[? _]]; done.
Qed.

Lemma task_event_ok self h ev : inst_ok self → inst_ok (task_event self h ev) ∧
  (∀ k, live (task_event self h ev) k → live self k) ∧ in_task (task_event self h ev) = in_task self.
Proof.
  intros Hok. pose proof Hok as [Ho Hb]. unfold task_event.
  destruct (in_tasks self !! h) as [task|] eqn:Ht; [|done].
  destruct (task_finished task) eqn:Hf; [done|].
  set (task' := match ev with EV_TakeCommand => _ | EV_Side _ => _ | EV_End _ => _ end).
  assert (∀ k, live (set_task self h task') k → live self k) as Hlive.
  { intros k. apply live_insert. intros _. by exists task. }
  split; [|done]. split.
  - intros k Hk%Hlive. by apply Ho.
  - intros k Hk. simpl. rewrite length_insert. by apply Hb.
Qed.

(** C29: a stop settles: once it is requested, polling reports the end as soon as
    the task has ended, and after the grace period in any case, leaving the
    instance idle without a living task; until then it reports nothing and
    changes nothing, whatever the task does meanwhile. *)
Theorem stop_settles self now self1 evs now' aborted :
  inst_ok self → Instance_request_stop self now = Some (Ok tt, self1) →
  let self2 := foldl (λ i ev, task_event i ev.1 ev.2) self1 evs in
  let '(r, self3) := Instance_poll_stop self2 now' aborted in
  if Instance_active self2 && (now' <? now + STOP_GRACE) then r = None ∧ self3 = self2
  else is_Some r ∧ in_task self3 = TS_Idle ∧ Instance_active self3 = false ∧ ∀ h, ¬ live self3 h.
Proof.
  intros Hok Hreq. destruct (request_stop_ok _ _ _ _ Hok Hreq) as [Hok1 _].
  assert (∃ h, in_task self1 = TS_Stopping h (now + STOP_GRACE)) as [h Hh].
  { unfold Instance_request_stop in Hreq. destruct (in_task self) as [|h|]; try done.
    exists h. destruct (in_tasks self !! h) as [task|]; simpl in Hreq; [|by injection Hreq as <-].
    destruct (channel_send _ _) as [[sent task']|]; [|done]. by injection Hreq as <-. }
  assert (∀ evs, inst_ok (foldl (λ i ev, task_event i ev.1 ev.2) self1 evs) ∧
    in_task (foldl (λ i ev, task_event i ev.1 ev.2) self1 evs) = TS_Stopping h (now + STOP_GRACE)) as Hrun.
  { clear evs. intros evs. induction evs as [|[k ev] evs IH] using rev_ind; [done|].
    rewrite foldl_app. simpl. destruct IH as [IH1 IH2].
    destruct (task_event_ok _ k ev IH1) as (H1 & _ & H2). by rewrite H2. }
  destruct (Hrun evs) as [Hok2 Hst]. intros self2. fold self2 in Hok2, Hst.
  destruct (Instance_poll_stop self2 now' aborted) as [r self3] eqn:Hp.
  destruct (poll_stop_ok _ _ _ _ _ Hok2 Hp) as (_ & _ & Hdead).
  destruct Hok2 as [_ Hb]. assert (Instance_handle self2 = Some h) as Hh2
    by (unfold Instance_handle; by rewrite Hst).
  destruct (lookup_lt_is_Some_2 (in_tasks self2) h) as [task Ht]; [by apply Hb|].
  unfold Instance_poll_stop in Hp. rewrite Hst, Ht in Hp.
  assert (Instance_active self2 = negb (task_finished task)) as ->
    by (unfold Instance_active, task_of; rewrite Hh2; simpl; by rewrite Ht).
  destruct (negb (task_finished task) && (now' <? now + STOP_GRACE)) eqn:Hw.
  - by injection Hp as <- <-.
  - assert (in_task self3 = TS_Idle ∧ is_Some r) as [Hi Hr]
      by (destruct (task_finished task); injection Hp as <- <-; done).
    split; [done|]. split; [done|]. split; [|by apply Hdead].
    unfold Instance_active, task_of, Instance_handle. by rewrite Hi.
Qed.

(** A stop request waits only while the channel to a living task is full. *)
Theorem request_stop_waits self now :
  Instance_request_stop self now = None ↔
  ∃ h task, in_task self = TS_Running h ∧ in_tasks self !! h = Some task ∧
    task_finished task = false ∧ (CHANNEL_CAPACITY ≤ length (tk_queue task))%nat.
Proof.
  unfold Instance_request_stop. split.
  - destruct (in_task self) as [|h|] eqn:Ht; try done.
    destruct (in_tasks self !! h) as [task|] eqn:Hl; [|done]. simpl. unfold channel_send.
    destruct (task_finished task) eqn:Hf; [done|].
    destruct (length (tk_queue task) <? CHANNEL_CAPACITY)%nat eqn:Hq; [done|]. intros _. exists h, task.
    apply Nat.ltb_ge in Hq. done.
  - intros (h & task & -> & -> & Hf & Hq). simpl. unfold channel_send.
    rewrite Hf, (proj2 (Nat.ltb_ge _ _)) by done. done.
Qed.

(** ** Sessions *)

(** Modules are in order, and a living task's path is claimed under its
    module's name. *)
Definition session_ok s : Prop :=
  ∀ id m, se_modules s !! id = Some m →
    inst_ok (nm_instance m) ∧
    ∀ h path, live (nm_instance m) h → nm_serial_path m = Some path →
      se_claims s !! nm_name m = Some path.

(** No two modules have the same name. *)
Definition names_apart s : Prop :=
  ∀ i j mi mj, se_modules s !! i = Some mi → se_modules s !! j = Some mj →
    nm_name mi = nm_name mj → i = j.

(** Nor at any time of a run. *)
Fixpoint apart_throughout s (evs : list (SessionEvent NetError SocketAddr)) : Prop :=
  names_apart s ∧
  match evs with [] => True | ev :: evs => apart_throughout (session_step s ev) evs end.

Lemma set_module_ok s id m m' claims :
  session_ok s → names_apart s → se_modules s !! id = Some m → nm_name m' = nm_name m →
  inst_ok (nm_instance m') →
  (∀ h path, live (nm_instance m') h → nm_serial_path m' = Some path →
     claims !! nm_name m = Some path) →
  (∀ other, other ≠ nm_name m → claims !! other = se_claims s !! other) →
  session_ok (set_module s id m' claims).
Proof.
  intros Hs Ha Hid Hn Hm Hl Ho j mj. simpl.
  intros [[<- <-]|[Hne Hj]]%lookup_insert_Some; [by rewrite Hn|].
  rewrite Ho; [by apply (Hs j)|]. intros He. by eapply Hne, Ha.
Qed.

Lemma module_new_ok s id name path : session_ok s → session_ok (module_new s id name path).
Proof.
  intros Hs j mj. simpl. intros [[<- <-]|[_ Hj]]%lookup_insert_Some; [|exact (Hs j mj Hj)].
  split; [apply inst_ok_new|]. intros h p (task & Ht & _). done.
Qed.

Lemma module_start_ok s id m spawned :
  session_ok s → names_apart s → se_modules s !! id = Some m →
  session_ok (module_start s id m spawned).
Proof.
  intros Hs Ha Hm. destruct (Hs id m Hm) as [Hok Hcl]. unfold module_start.
  destruct (Instance_start _ _) as [r i] eqn:He.
  pose proof (instance_start_ok _ _ _ _ Hok He) as Hok'. eapply set_module_ok; try done.
  - simpl. intros h path Hl Hp. unfold Instance_start in He. rewrite Hp in *.
    destruct (Instance_active _); [injection He as <- <-; by eapply Hcl|].
    destruct spawned; injection He as <- <-; [by apply lookup_insert_eq|by eapply Hcl].
  - intros other Hne. destruct r, (nm_serial_path m); try done. by apply lookup_insert_ne.
Qed.

Lemma module_request_stop_ok s id m now :
  session_ok s → names_apart s → se_modules s !! id = Some m →
  session_ok (module_request_stop s id m now).
Proof.
  intros Hs Ha Hm. destruct (Hs id m Hm) as [Hok Hcl]. unfold module_request_stop.
  destruct (Instance_request_stop _ _) as [[r i]|] eqn:He; [|done].
  destruct (request_stop_ok _ _ _ _ Hok He) as [Hok' Hlive]. eapply set_module_ok; try done.
  - simpl. intros h path Hl Hp. assert (Instance_active i = true) as Hact
      by (apply active_live; eauto). rewrite Hact.
    destruct r; by eapply Hcl; [apply Hlive|].
  - intros other Hne. destruct r; [done|]. destruct (Instance_active i); [done|].
    by apply lookup_delete_ne.
Qed.

Lemma module_poll_stop_ok s id m now aborted :
  session_ok s → names_apart s → se_modules s !! id = Some m →
  session_ok (module_poll_stop s id m now aborted).
Proof.
  intros Hs Ha Hm. destruct (Hs id m Hm) as [Hok Hcl]. unfold module_poll_stop.
  destruct (Instance_poll_stop _ _ _) as [r i] eqn:He.
  destruct (poll_stop_ok _ _ _ _ _ Hok He) as (Hok' & Hlive & Hdead). eapply set_module_ok; try done.
  - simpl. intros h path Hl Hp. destruct r; [by destruct (Hdead (mk_is_Some _ _ eq_refl) h)|].
    by eapply Hcl; [apply Hlive|].
  - intros other Hne. destruct r; [by apply lookup_delete_ne|done].
Qed.

Lemma session_step_ok s ev : session_ok s → names_apart s → session_ok (session_step s ev).
Proof.
  intros Hs Ha. destruct ev as [id name path|id|id sp|id now|id now ab|id path|id name path|id h ev];
    simpl; try (destruct (se_modules s !! id) as [m|] eqn:Hm; try done).
  - by apply module_new_ok.
  - intros j mj. simpl. intros [_ Hj]%lookup_delete_Some. exact (Hs j mj Hj).
  - intros j mj. simpl. intros [_ Hj]%lookup_delete_Some. exact (Hs j mj Hj).
  - by apply module_start_ok.
  - by apply module_request_stop_ok.
  - by apply module_poll_stop_ok.
  - destruct (Instance_active _); [done|]. eapply set_module_ok; try done; [apply inst_ok_new|].
    intros h p (task & Ht & _). done.
  - destruct (Instance_active _); [done|]. by apply module_new_ok.
  - destruct (Hs id m Hm) as [Hok Hcl]. destruct (task_event_ok _ h ev Hok) as (Hok' & Hlive & _).
    eapply set_module_ok; try done. simpl. intros k p Hl Hp. by eapply Hcl; [apply Hlive|].
Qed.

Lemma session_run_ok s evs : session_ok s → apart_throughout s evs → session_ok (session_run s evs).
Proof.
  revert s. induction evs as [|ev evs IH]; intros s Hs; [done|]. intros [Ha Hr].
  apply IH; [by apply session_step_ok|done].
Qed.

Lemma session_run_apart s evs : apart_throughout s evs → names_apart (session_run s evs).
Proof. revert s. induction evs as [|ev evs IH]; intros s [Ha Hr]; [done|]. by apply IH. Qed.

Lemma conflict_spec (claims : SerialPathRegistry) name path :
  match conflict claims name path with
  | Some other => other ≠ name ∧ claims !! other = Some path
  | None => ∀ other, other ≠ name → claims !! other ≠ Some path
  end.
Proof.
  unfold conflict. destruct (list_find _ _) as [[i [other p]]|] eqn:Hf; simpl.
  - apply list_find_Some in Hf as (Hl & [Hne Hp] & _). simpl in *. split; [done|].
    subst p. apply elem_of_map_to_list. by eapply list_elem_of_lookup_2.
  - intros other Hne Hc. apply list_find_None in Hf. rewrite list.Forall_forall in Hf.
    apply elem_of_map_to_list, Hf in Hc. by apply Hc.
Qed.

(** C30: in every run of a session in which no two modules have the same name at
    the same time, a module has at most one living task, and a serial path a task
    lives on is reported as a conflict to every other module. The code does not
    keep the names apart: renaming a tab leaves its module's name, which a new
    tab may then take ([renamed_tab_hides_conflict]). *)
Theorem serial_claims_sound s evs id m h path :
  session_ok s → apart_throughout s evs → se_modules (session_run s evs) !! id = Some m →
  live (nm_instance m) h → nm_serial_path m = Some path →
  (∀ k, live (nm_instance m) k → k = h) ∧
  ∀ other m', other ≠ id → se_modules (session_run s evs) !! other = Some m' →
    ∃ holder, conflict (se_claims (session_run s evs)) (nm_name m') path = Some holder ∧
      holder ≠ nm_name m' ∧ se_claims (session_run s evs) !! holder = Some path.
Proof.
  intros Hs Ha Hm Hl Hp. destruct (session_run_ok s evs Hs Ha id m Hm) as [[Ho _] Hcl]. split.
  - intros k Hk. apply Ho in Hk. apply Ho in Hl. congruence.
  - intros other m' Hne Hm'. set (claims := se_claims (session_run s evs)) in *.
    pose proof (conflict_spec claims (nm_name m') path) as Hc.
    destruct (conflict _ _ _) as [holder|]; [by exists holder; destruct Hc|].
    destruct (Hc (nm_name m)); [|by apply (Hcl h)].
    intros He. by apply Hne, eq_sym, (session_run_apart s evs Ha id other m m').
Qed.

(** ** A task that ends by itself *)

Definition demo_task : Task NetError SocketAddr := mkTask None [] (HS_Client false).

Definition demo_session : Session NetError SocketAddr :=
  mkSession {[0%nat := mkNetModule "a" Instance_new (Some "/dev/ttyS0"%string);
              1%nat := mkNetModule "b" Instance_new (Some "/dev/ttyS0"%string)]} ∅.

(** The task of module [a] has ended, nobody has stopped it. *)
Definition demo_ended (e : TaskEnd NetError) : Session NetError SocketAddr :=
  session_run demo_session [SV_Start 0 (Ok demo_task); SV_Task 0 0 (EV_End e)].

(** A module whose task has ended by itself shows as disconnected and still
    counts as a conflict on its serial path, until it is told to stop and the
    stop is polled. *)
Theorem ended_task_keeps_claim e now aborted :
  let s := demo_ended e in
  connection_status <$> (nm_instance <$> se_modules s !! 0%nat) = Some CS_Disconnected ∧
  conflict (se_claims s) "b" "/dev/ttyS0" = Some "a"%string ∧
  conflict (se_claims (session_run s [SV_RequestStop 0 now; SV_PollStop 0 now aborted]))
    "b" "/dev/ttyS0" = None.
Proof. split_and!; by vm_compute. Qed.

(** The tab of module [a] was renamed, a new tab has taken its name: both have a
    task on the same port, and neither is told of a conflict. *)
Theorem renamed_tab_hides_conflict :
  let s := session_run (mkSession ∅ ∅)
    [SV_Open 0 "a" (Some "/dev/ttyS0"%string); SV_Start 0 (Ok demo_task);
     SV_Open 1 "a" (Some "/dev/ttyS0"%string); SV_Start 1 (Ok demo_task)] in
  (∀ id, id ∈ [0; 1]%nat → ∃ m, se_modules s !! id = Some m ∧ live (nm_instance m) 0) ∧
  conflict (se_claims s) "a" "/dev/ttyS0" = None.
Proof.
  split; [|by vm_compute].
  intros id [->|[->|[]%elem_of_nil]%elem_of_cons]%elem_of_cons;
    (eexists; split; [by vm_compute|]); exists demo_task; by split.
Qed.
End instance.

(** ** Witnesses *)

Definition demo_running : Instance unit unit :=
  mkInstance [mkTask None [] (HS_Client true)] (TS_Running 0).

Lemma demo_running_ok : inst_ok demo_running.
Proof.
  split.
  - intros [|h] (task & Ht & _); [done|by destruct h].
  - intros h [= <-]. simpl. lia.
Qed.

Lemma stop_settles_witness :
  ∃ self1, Instance_request_stop demo_running 0 = Some (Ok tt, self1) ∧
    (Instance_poll_stop self1 50 TE_Cancelled).1 = None ∧
    is_Some (Instance_poll_stop self1 100 TE_Cancelled).1.
Proof.
  eexists. split; [reflexivity|]. split.
  - exact (proj1 (stop_settles demo_running 0 _ [] 50 TE_Cancelled demo_running_ok eq_refl)).
  - exact (proj1 (stop_settles demo_running 0 _ [] 100 TE_Cancelled demo_running_ok eq_refl)).
Defined.

Lemma demo_session_ok : session_ok (demo_session (NetError := unit) (SocketAddr := unit)).
Proof.
  intros id m Hm. unfold demo_session in Hm. simpl in Hm.
  apply lookup_insert_Some in Hm as [[_ <-]|[_ Hm%lookup_singleton_Some]]; [|destruct Hm as [_ <-]];
    (split; [apply inst_ok_new|]); intros h path (task & Ht & _); done.
Qed.

Lemma apart_two s (m0 m1 : NetModule (NetError := unit) (SocketAddr := unit)) :
  se_modules s = {[0%nat := m0; 1%nat := m1]} → nm_name m0 ≠ nm_name m1 → names_apart s.
Proof.
  intros Hs Hne i j mi mj Hi Hj Hn. rewrite Hs in *.
  apply lookup_insert_Some in Hi as [[<- <-]|[_ Hi%lookup_singleton_Some]];
    apply lookup_insert_Some in Hj as [[<- <-]|[_ Hj%lookup_singleton_Some]]; naive_solver.
Qed.

Lemma serial_claims_sound_witness :
  ∃ holder, conflict (se_claims (session_run (demo_session (NetError := unit) (SocketAddr := unit))
    [SV_Start 0 (Ok demo_task)])) "b" "/dev/ttyS0" = Some holder.
Proof.
  destruct (serial_claims_sound (demo_session (NetError := unit) (SocketAddr := unit))
    [SV_Start 0 (Ok demo_task)] 0
    (mkNetModule "a" (mkInstance [demo_task] (TS_Running 0)) (Some "/dev/ttyS0"%string)) 0 "/dev/ttyS0"
    demo_session_ok) as [_ H].
  - split; [by eapply apart_two|]. split; [|exact I].
    eapply (apart_two _ (mkNetModule "a" (mkInstance [demo_task] (TS_Running 0)) _));
      [vm_compute; reflexivity|discriminate].
  - vm_compute. reflexivity.
  - exists demo_task. split; reflexivity.
  - reflexivity.
  - destruct (H 1%nat (mkNetModule "b" Instance_new (Some "/dev/ttyS0"%string)))
      as (holder & Hc & _); [discriminate|vm_compute; reflexivity|]. exists holder. exact Hc.
Defined.
