(* ===== verification/RegisterView.v ===== *)
(** * The register table of a module

    Models [ferrowl/src/module/modbus/view/mutate.rs], the rows of [table.rs] and
    the parts of [view/mod.rs] that fill, sort and edit them: a view's table of
    registers, what confirming a dialog does to it, to the module and to the
    device configuration, and [:set] and [:order]. The highlight of a row and the
    drawing are left out. *)

From stdpp Require Import base list gmap numbers strings.
From S2P Require Import Prelude Slice Memory Bytes IntText Text Format Codec Key DeviceConfig Registers ReadPlan SimScheduler RegEvents LuaBridge ModbusModule.

Local Open Scope Z_scope.

#[export] Instance Address_eq_dec : EqDecision Address.
Proof. solve_decision. Defined.

Inductive ClientOrServer := COS_Client | COS_Server.

(** ** Rows *)

(** [table::Definition]. *)
Record TableRow := mkTableRow {
  tr_name : string;
  tr_description : string;
  tr_register : Register;
  tr_named_values : list NamedValue;
  tr_value : Value;
  tr_raw_value : list Z
}.

(** [Definition::new]. *)
Definition TableRow_new (row : RegisterRow) : TableRow :=
  let '(name, description, register, values) := row in
  mkTableRow name description register values (V_Ascii []) [].

(** [{:04x}] of each word, in brackets. *)
Definition lower_digit (c : Z) : Z := if 65 <=? c then c + 32 else c.

Definition raw_hex (raw : list Z) : list Z :=
  [91] ++ concat (imap (λ i v, (if (0 <? i)%nat then [32] else []) ++
                                 (lower_digit <$> hex_padded v 4)) raw) ++ [93].

Fixpoint parse_raw_words (result : Z) (words : list (list Z)) : option Z :=
  match words with
  | [] => Some (as_sint 64 result)
  | word :: words' =>
      match from_str_radix false 64 word 16 with
      | Ok w => parse_raw_words (Z.lor (as_uint 64 (Z.shiftl result 16)) w) words'
      | Err _ => None
      end
  end.

Definition parse_raw_value (raw : list Z) : option Z :=
  inner ← strip_prefix [91] (trim raw);
  inner ← reverse <$> strip_prefix [93] (reverse inner);
  parse_raw_words 0 (split_whitespace (length inner) [] inner).

(** A character that is not printable ASCII shows as a point; the bytes of one
    above ASCII are one character. *)
Definition printable (s : list Z) : list Z :=
  omap (λ b, if (32 <=? b) && (b <=? 126) then Some b
             else if (128 <=? b) && (b <? 192) then None else Some 46) s.

Section view.
Context {Tap NetError : Type}.
(** [str::parse] of the float types, [to_string] of an [f64], the text of a float
    value, the text of a scaled value, [partial_cmp] of [f64]; the lower case of a
    string, and that of each of its characters. *)
Context (parse_f32 parse_f64 : list Z → option Z) (display_f64 : Z → list Z).
Context (display_float : NumericPrimitive → list Z).
Context (display_scaled : NumericPrimitive → Resolution → list Z).
Context (partial_cmp : Z → Z → option comparison).
Context (to_lowercase char_lowercase : list Z → list Z).
Context (now_ms : Z → Z).
(** What the instance answers to a command. *)
Context (send_command : Command → Result unit NetError).

Definition Value_display (self : Value) : list Z :=
  match self with V_Numeric p r => display_scaled p r | V_Ascii s => s end.

Definition UnscaledValue_display (self : UnscaledValue) : list Z :=
  match self with UV_Numeric p => prim_display display_float p | UV_Ascii s => s end.

Definition Address_display (self : Address) : list Z :=
  match self with Fixed a => int_display a | Virtual => bytes_of "virtual" end.

(** Does the named value name what the row shows? *)
Definition names_value (raw_int : option Z) (value : list Z) (nv : NamedValue) : bool :=
  match nv_value nv with
  | S_Int v => bool_decide (raw_int = Some v) || bool_decide (value = int_display v)
  | other => bool_decide (value = Scalar_display display_f64 other)
  end.

Definition shown_value (row : TableRow) : list Z :=
  let raw_int := parse_raw_value (tr_raw_value row) in
  let value := Value_display (tr_value row) in
  printable match List.find (names_value raw_int value) (tr_named_values row) with
            | Some named => bytes_of (nv_name named) ++ bytes_of " (" ++ value ++ bytes_of ")"
            | None => value
            end.

(** [TableEntry::values]. *)
Definition row_values (row : TableRow) : list (list Z) :=
  let register := tr_register row in
  [ bytes_of (tr_name row);
    bytes_of (tr_description row);
    int_display (reg_slave_id register);
    Address_display (reg_address register);
    bytes_of (RegAccess_display (reg_access register));
    bytes_of (Kind_display (reg_kind register));
    bytes_of (Format_display (reg_format register));
    int_display (Z.of_nat (Format_width (reg_format register)));
    match Format_resolution (reg_format register) with
    | Some r => display_f64 (res_bits r)
    | None => bytes_of "None"
    end;
    shown_value row;
    tr_raw_value row ].

(** The order of byte strings. *)
Fixpoint bytes_compare (a b : list Z) : comparison :=
  match a, b with
  | [], [] => Eq
  | [], _ => Lt
  | _, [] => Gt
  | x :: a', y :: b' => match x ?= y with Eq => bytes_compare a' b' | c => c end
  end.

(** [cmp_table_entry]. *)
Definition cmp_rows (column : nat) (descending : bool) (a b : TableRow) : comparison :=
  let sa := default [] (row_values a !! column) in
  let sb := default [] (row_values b !! column) in
  let ord :=
    match parse_f64 sa, parse_f64 sb with
    | Some na, Some nb => default Eq (partial_cmp na nb)
    | _, _ => bytes_compare (to_lowercase sa) (to_lowercase sb)
    end in
  if descending then CompOpp ord else ord.

(** [sort_by]: stable. It may panic where the comparison is no total order; the
    model then gives some order. *)
Fixpoint insert_by {A} (cmp : A → A → comparison) (x : A) (l : list A) : list A :=
  match l with
  | [] => [x]
  | y :: l' => match cmp x y with Gt => y :: insert_by cmp x l' | _ => x :: l end
  end.

Definition sort_by {A} (cmp : A → A → comparison) (l : list A) : list A := foldr (insert_by cmp) [] l.

Definition table_header : list string :=
  ["Name"; "Description"; "Slave ID"; "Address"; "Access"; "Kind"; "Format"; "Length"; "Resolution";
   "Value"; "Raw Value"]%string.

Definition normalize (s : list Z) : list Z :=
  char_lowercase (concat (split_whitespace (length s) [] s)).

Definition column_index (name : list Z) : option nat :=
  position (λ h, bool_decide (normalize (bytes_of h) = normalize name)) table_header.

(** ** The view *)

Inductive ValueWrite := VW_Command | VW_Silent.

Inductive SetOutcome :=
| SET_Unknown
| SET_Virtual
| SET_VirtualOnClient
| SET_EncodeError (e : CodecError)
| SET_Stored
| SET_Rejected (addr slave : Z) (raw : list Z)
| SET_Sent
| SET_SendFailed (e : NetError)
| SET_Nothing.

Inductive ViewLogLine :=
| VL_Rejected (subject : list Z) (range : Range)
| VL_Set (name : string) (value : list Z) (outcome : SetOutcome).

(** [rv_sent]: the commands given to the instance. *)
Record RegisterView := mkView {
  rv_module : Module_ Tap;
  rv_rows : list TableRow;
  rv_selected : option nat;
  rv_definitions : gmap string RegisterDef;
  rv_role : ClientOrServer;
  rv_sort : option (nat * bool);
  rv_sent : list Command;
  rv_log : list ViewLogLine
}.

Definition with_module (self : RegisterView) (m : Module_ Tap) : RegisterView :=
  mkView m (rv_rows self) (rv_selected self) (rv_definitions self) (rv_role self) (rv_sort self)
    (rv_sent self) (rv_log self).

Definition with_log (self : RegisterView) (l : list ViewLogLine) : RegisterView :=
  mkView (rv_module self) (rv_rows self) (rv_selected self) (rv_definitions self) (rv_role self)
    (rv_sort self) (rv_sent self) (rv_log self ++ l).

Definition with_definitions (self : RegisterView) (d : gmap string RegisterDef) : RegisterView :=
  mkView (rv_module self) (rv_rows self) (rv_selected self) d (rv_role self) (rv_sort self)
    (rv_sent self) (rv_log self).

Definition with_sent (self : RegisterView) (c : Command) : RegisterView :=
  mkView (rv_module self) (rv_rows self) (rv_selected self) (rv_definitions self) (rv_role self)
    (rv_sort self) (rv_sent self ++ [c]) (rv_log self).

(** [TableState::set_values]: the selection stays in range. *)
Definition set_rows (self : RegisterView) (rows : list TableRow) : RegisterView :=
  mkView (rv_module self) rows
    match rows with
    | [] => None
    | _ => Some (Nat.min (default 0%nat (rv_selected self)) (length rows - 1))
    end
    (rv_definitions self) (rv_role self) (rv_sort self) (rv_sent self) (rv_log self).

(** [select_first]. *)
Definition select_first (self : RegisterView) : RegisterView :=
  mkView (rv_module self) (rv_rows self)
    match rv_rows self with [] => None | _ => Some 0%nat end
    (rv_definitions self) (rv_role self) (rv_sort self) (rv_sent self) (rv_log self).

Definition set_sort (self : RegisterView) (sort : option (nat * bool)) : RegisterView :=
  mkView (rv_module self) (rv_rows self) (rv_selected self) (rv_definitions self) (rv_role self) sort
    (rv_sent self) (rv_log self).

Definition module_rows (m : Module_ Tap) : list TableRow := TableRow_new <$> md_registers m.

(** [ModbusModuleView::new]. *)
Definition RegisterView_new (m : Module_ Tap) (definitions : gmap string RegisterDef)
    (role : ClientOrServer) : RegisterView :=
  mkView m (module_rows m)
    match module_rows m with [] => None | _ => Some 0%nat end definitions role None [] [].

(** [apply_order], and [:order] without a column. *)
Definition apply_order (self : RegisterView) (col : list Z) (descending : bool) : RegisterView :=
  match column_index col with
  | None => self
  | Some idx =>
      let self := set_sort self (Some (idx, descending)) in
      set_rows self (sort_by (cmp_rows idx descending) (rv_rows self))
  end.

Definition clear_order (self : RegisterView) : RegisterView :=
  set_rows (set_sort self None) (module_rows (rv_module self)).

(** [decode_definition]. *)
Definition decode_row (memory : Memory (Key SlaveKey) Tap) (virtual : gmap string Value)
    (row : TableRow) : Outcome TableRow :=
  let register := tr_register row in
  let filled := mkTableRow (tr_name row) (tr_description row) register (tr_named_values row) in
  match reg_address register with
  | Fixed addr =>
      let width := Format_width (reg_format register) in
      range ← Range_new addr (Z.of_nat width);
      words ← Memory_read_unchecked memory (register_key register) range;
      let raw := default (replicate width 0) words in
      Ret (filled match Register_decode register raw with
                  | Ok v => v
                  | Err _ => V_Ascii (bytes_of "Error")
                  end (raw_hex raw))
  | Virtual =>
      Ret match virtual !! tr_name row with
          | Some v =>
              filled v match Register_encode parse_f32 parse_f64 register
                               (UnscaledValue_display (Value_unscaled v)) with
                       | Ok raw => raw_hex raw
                       | Err _ => []
                       end
          | None => filled (V_Ascii []) []
          end
  end.

Fixpoint decode_rows (memory : Memory (Key SlaveKey) Tap) (virtual : gmap string Value)
    (rows : list TableRow) : Outcome (list TableRow) :=
  match rows with
  | [] => Ret []
  | row :: rows' =>
      row ← decode_row memory virtual row;
      rest ← decode_rows memory virtual rows';
      Ret (row :: rest)
  end.

(** The part of [refresh] that fills the table. *)
Definition refresh_rows (self : RegisterView) : Outcome RegisterView :=
  let m := rv_module self in
  updated ← decode_rows (md_memory m) (md_virtual m) (rv_rows self);
  Ret (set_rows self
    match rv_sort self with
    | Some (column, descending) => sort_by (cmp_rows column descending) updated
    | None => updated
    end).

(** ** Setting a value *)

Definition with_memory (self : RegisterView) (memory : Memory (Key SlaveKey) Tap)
    (hub : Hub RegisterEvent) : RegisterView :=
  let m := rv_module self in
  with_module self
    (mkModule (md_name m) (md_registers m) (md_lua_registers m) (md_operations m) memory (md_log m)
       (md_scripts m) (md_read_ranges m) (md_sim m) (md_virtual m) hub).

(** A command's write is told to the tap, a seed is not. *)
Definition write_merged (self : RegisterView) (write : ValueWrite) (key : Key SlaveKey) (range : Range)
    (words : list Z) : Outcome (bool * RegisterView) :=
  let m := rv_module self in
  match write with
  | VW_Command =>
      '(ok, memory, calls) ← Memory_write_unchecked_from (md_memory m) WS_Command key range words;
      hub ← tap_calls now_ms None calls (map_to_list (md_lua_registers m)) (md_hub m);
      Ret (ok, with_memory self memory hub)
  | VW_Silent =>
      '(ok, memory) ← Memory_write_unchecked (md_memory m) key range words;
      Ret (ok, with_memory self memory (md_hub m))
  end.

Definition set_virtual (self : RegisterView) (name : string) (value : list Z) (register : Register)
    (write : ValueWrite) : Outcome RegisterView :=
  let v := str_to_value parse_f64 value register in
  match write with
  | VW_Command =>
      m ← set_virtual_value_from_command display_float now_ms (rv_module self) name v;
      Ret (with_module self m)
  | VW_Silent => Ret (with_module self (set_virtual_value (rv_module self) name v))
  end.

Definition set_fixed (self : RegisterView) (register : Register) (addr : Z) (raw : list Z)
    (write : ValueWrite) : Outcome (SetOutcome * RegisterView) :=
  let key := register_key register in
  range ← Range_new addr (Z.of_nat (length raw));
  old ← Memory_read_unchecked (md_memory (rv_module self)) key range;
  let merged := Register_merge_write register (default [] old) raw in
  match rv_role self with
  | COS_Server =>
      '(ok, self) ← write_merged self write key range merged;
      Ret (if (ok : bool) then SET_Stored else SET_Rejected addr (reg_slave_id register) raw, self)
  | COS_Client =>
      match reg_access register with
      | RA_ReadOnly => Ret (SET_Nothing, self)
      | access =>
          let command := write_command register (reg_slave_id register) addr merged in
          let self := with_sent self command in
          match send_command command with
          | Err e => Ret (SET_SendFailed e, self)
          | Ok _ =>
              match access with
              | RA_WriteOnly =>
                  '(_, self) ← write_merged self write key range merged; Ret (SET_Sent, self)
              | _ => Ret (SET_Sent, self)
              end
          end
      end
  end.

Definition set_register_value (self : RegisterView) (name : string) (value : list Z)
    (write : ValueWrite) : Outcome (SetOutcome * RegisterView) :=
  match List.find (λ row, String.eqb (tr_name row) name) (rv_rows self) with
  | None => Ret (SET_Unknown, self)
  | Some row =>
      let register := tr_register row in
      match reg_address register with
      | Virtual =>
          match rv_role self with
          | COS_Server => self ← set_virtual self name value register write; Ret (SET_Virtual, self)
          | COS_Client => Ret (SET_VirtualOnClient, self)
          end
      | Fixed addr =>
          match Register_encode parse_f32 parse_f64 register value with
          | Err e => Ret (SET_EncodeError e, self)
          | Ok raw => set_fixed self register addr raw write
          end
      end
  end.

(** Setting a value from a dialog and logging the outcome. *)
Definition set_and_log (self : RegisterView) (name : string) (value : list Z) (write : ValueWrite)
  : Outcome RegisterView :=
  '(outcome, self) ← set_register_value self name value write;
  Ret match outcome with
      | SET_Nothing => self
      | _ => with_log self [VL_Set name value outcome]
      end.

(** ** Dialogs *)

(** [EditedRegister]: what a confirmed dialog holds. *)
Record EditedRegister := mkEdited {
  ed_name : string;
  ed_description : string;
  ed_register : Register;
  ed_value : option (list Z);
  ed_named_values : option (list NamedValue);
  ed_default : option Scalar
}.

(** All but the setup dialog's. *)
Inductive PendingAction :=
| PA_Add (edited : EditedRegister)
| PA_Edit (edited : EditedRegister) (idx : nat) (original_name : string)
| PA_Delete (name : string)
| PA_SetReadRanges (ranges : ReadRanges).

Definition row_at (self : RegisterView) : option TableRow := k ← rv_selected self; rv_rows self !! k.

(** [confirm_overlay]; [None]: the name is in use, or nothing is selected. *)
Definition confirm_overlay (self : RegisterView) (is_add : bool) (edited : EditedRegister)
  : option PendingAction :=
  let current_name := tr_name <$> row_at self in
  let used := bool_decide (is_Some (rv_definitions self !! ed_name edited)) in
  if is_add then if used then None else Some (PA_Add edited)
  else
    let renamed := match current_name with
                   | Some original => negb (String.eqb (ed_name edited) original)
                   | None => false
                   end in
    if renamed && used then None
    else idx ← rv_selected self; Some (PA_Edit edited idx (default ""%string current_name)).

(** Declaring the cells of an edited register. *)
Definition declare_edited (self : RegisterView) (edited : EditedRegister) : Outcome RegisterView :=
  binding ← register_mem_binding (ed_register edited);
  match binding with
  | None => Ret self
  | Some (kind, key, range) =>
      '(res, memory) ← declare_or_reject_msg (md_memory (rv_module self)) key kind range
                         (bytes_of ("register '" +:+ ed_name edited +:+ "'"));
      let self := with_memory self memory (md_hub (rv_module self)) in
      Ret match res with
          | Ok _ => self
          | Err (subject, range) => with_log self [VL_Rejected subject range]
          end
  end.

(** [rebuild_operations] of the module, if it ends. *)
Definition rebuilt (fuel : nat) (self : RegisterView) (k : RegisterView → Outcome RegisterView)
  : Outcome (option RegisterView) :=
  m ← rebuild_operations fuel (rv_module self);
  match m with
  | None => Ret None
  | Some m => self ← k (with_module self m); Ret (Some self)
  end.

(** The definition a new register starts from. *)
Definition blank_def (edited : EditedRegister) (named_values : list NamedValue) : RegisterDef :=
  mkRegisterDef 0 K_HoldingRegister None false AC_ReadWrite VT_U16 EC_Big WC_Normal one_bits None 1
    LC_Left named_values None (ed_description edited) (ed_default edited).

Definition edited_row (edited : EditedRegister) (named_values : list NamedValue) : RegisterRow :=
  (ed_name edited, ed_description edited, ed_register edited, named_values).

(** What [apply_add] does once the operations are rebuilt. *)
Definition finish_add (edited : EditedRegister) (row : RegisterRow) (self : RegisterView)
  : Outcome RegisterView :=
  let self := set_rows self (rv_rows self ++ [TableRow_new row]) in
  let self :=
    match reg_address (ed_register edited) with
    | Virtual =>
        with_module self (set_virtual_value (rv_module self) (ed_name edited)
                            (default_value (ed_register edited)))
    | Fixed _ => self
    end in
  match ed_value edited with
  | None =>
      match ed_default edited with
      | Some scalar => set_and_log self (ed_name edited) (Scalar_display display_f64 scalar) VW_Silent
      | None => Ret self
      end
  | Some value => set_and_log self (ed_name edited) value VW_Command
  end.

Definition apply_add (fuel : nat) (self : RegisterView) (edited : EditedRegister)
  : Outcome (option RegisterView) :=
  let named_values := default [] (ed_named_values edited) in
  let row := edited_row edited named_values in
  let def := sync_register_def (blank_def edited named_values) (ed_register edited) in
  let self := with_definitions self (<[ed_name edited := def]> (rv_definitions self)) in
  let self := with_module self (add_register (rv_module self) row) in
  self ← declare_edited self edited;
  rebuilt fuel self (finish_add edited row).

(** The definition of the device configuration after an edit. *)
Definition edit_def (edited : EditedRegister) (def : RegisterDef) : RegisterDef :=
  let def := sync_register_def def (ed_register edited) in
  mkRegisterDef (rd_slave_id def) (rd_kind def) (rd_address def) (rd_is_virtual def) (rd_access def)
    (rd_value_type def) (rd_endian def) (rd_word_order def) (rd_resolution def) (rd_bitmask def)
    (rd_length def) (rd_alignment def) (default (rd_values def) (ed_named_values edited))
    (rd_update def) (ed_description edited) (ed_default edited).

Definition edit_definitions (edited : EditedRegister) (original_name : string)
    (definitions : gmap string RegisterDef) : gmap string RegisterDef :=
  let definitions := alter (edit_def edited) original_name definitions in
  if String.eqb (ed_name edited) original_name then definitions
  else
    match definitions !! original_name with
    | None => definitions
    | Some def => <[ed_name edited := def]> (delete original_name definitions)
    end.

(** The value an edit keeps: on a server, if the address stays. *)
Definition preserved_value (self : RegisterView) (edited : EditedRegister) (slot : TableRow)
  : option (list Z) :=
  match rv_role self, ed_value edited with
  | COS_Server, None =>
      if bool_decide (reg_address (tr_register slot) = reg_address (ed_register edited)) &&
         negb (Value_is_empty (tr_value slot))
      then Some (UnscaledValue_display (Value_unscaled (tr_value slot))) else None
  | _, _ => None
  end.

(** What [apply_edit] does once the operations are rebuilt. *)
Definition finish_edit (edited : EditedRegister) (preserved : option (list Z)) (self : RegisterView)
  : Outcome RegisterView :=
  match ed_value edited with
  | None =>
      match preserved with
      | Some v => set_and_log self (ed_name edited) v VW_Silent
      | None => Ret self
      end
  | Some value => set_and_log self (ed_name edited) value VW_Command
  end.

Definition apply_edit (fuel : nat) (self : RegisterView) (edited : EditedRegister) (idx : nat)
    (original_name : string) : Outcome (option RegisterView) :=
  match rv_rows self !! idx with
  | None => rebuilt fuel (set_rows self (rv_rows self)) (finish_edit edited None)
  | Some slot =>
      let named_values := default (tr_named_values slot) (ed_named_values edited) in
      let row := edited_row edited named_values in
      let preserved := preserved_value self edited slot in
      let self := with_module self (update_register (rv_module self) idx row) in
      let self := with_definitions self (edit_definitions edited original_name (rv_definitions self)) in
      let self := set_rows self (<[idx := TableRow_new row]> (rv_rows self)) in
      self ← declare_edited self edited;
      rebuilt fuel self (finish_edit edited preserved)
  end.

Definition delete_register_by_name (fuel : nat) (self : RegisterView) (name : string)
  : Outcome (option RegisterView) :=
  let self := with_definitions self (delete name (rv_definitions self)) in
  let self := with_module self (remove_register_by_name (rv_module self) name) in
  let self := set_rows self (filter (λ row, tr_name row ≠ name) (rv_rows self)) in
  rebuilt fuel (select_first self) Ret.

(** [apply_read_ranges]: the module holds the ranges of the device configuration. *)
Definition apply_read_ranges (fuel : nat) (self : RegisterView) (ranges : ReadRanges)
  : Outcome (option RegisterView) :=
  m ← set_read_ranges fuel (rv_module self) ranges;
  Ret (option_map (with_module self) m).

(** The part of [refresh] that applies a pending action. *)
Definition apply_pending (fuel : nat) (self : RegisterView) (pending : PendingAction)
  : Outcome (option RegisterView) :=
  match pending with
  | PA_Add edited => apply_add fuel self edited
  | PA_Edit edited idx original_name => apply_edit fuel self edited idx original_name
  | PA_Delete name => delete_register_by_name fuel self name
  | PA_SetReadRanges ranges => apply_read_ranges fuel self ranges
  end.
End view.

Arguments RegisterView : clear implicits.
Arguments SetOutcome : clear implicits.
Arguments ViewLogLine : clear implicits.
