(* ===== verification/RegisterViewProps.v ===== *)
(** * Properties of the register table

    Confirmed dialogs keep the table, the module and the device configuration in
    step as long as the table is not sorted; what sorting does to that; setting a
    value merges it. *)

From stdpp Require Import base list gmap numbers strings.
From S2P Require Import Prelude Slice Memory MemorySpec Store StoreRefine StoreProps Bytes IntText Text Format Codec CodecSpec CodecProps Key DeviceConfig Registers ReadPlan ReadPlanProps SimScheduler SimProps RegEvents LuaBridge LuaBridgeProps ModbusModule ModbusModuleProps RegisterView.

Local Open Scope Z_scope.

(** ** Merged words *)

Lemma mask_words_words (f : Format) : mask_ok f → Forall is_word (mask_words f).
Proof.
  intros Hm. destruct f as [nf|ff|a w].
  - rewrite mask_words_numeric. apply Forall_order_words.
    by destruct (mask_pack_spec (nf_kind nf) (nf_endian nf) (bf_mask (nf_bit_field nf))) as (_ & ? & _).
  - unfold mask_words. apply Forall_order_words, Forall_replicate. by split.
  - unfold mask_words. apply Forall_order_words, Forall_replicate. by split.
Qed.

Lemma merge_write_words (f : Format) (old raw : list Z) :
  mask_ok f → Forall is_word old → Forall is_word raw →
  length (merge_write f old raw) = length raw ∧ Forall is_word (merge_write f old raw).
Proof.
  intros Hm Ho Hr. unfold merge_write. split; [apply length_imap|].
  apply Forall_lookup_2. intros i w Hw. rewrite list_lookup_imap in Hw.
  destruct (raw !! i) as [v|] eqn:Hv; [|done]. simpl in Hw. injection Hw as <-.
  assert (is_word (default 65535 (mask_words f !! i))) as Hmi.
  { destruct (mask_words f !! i) as [m|] eqn:Hi; [|done]. simpl.
    exact (Forall_lookup_1 _ _ _ _ (mask_words_words f Hm) Hi). }
  assert (is_word (default 0 (old !! i))) as Hoi.
  { destruct (old !! i) as [o|] eqn:Hi; [|done]. simpl. exact (Forall_lookup_1 _ _ _ _ Ho Hi). }
  rewrite merge_word_mergeZ by done. apply (mergeZ_range 16); [lia|done|done|].
  exact (Forall_lookup_1 _ _ _ _ Hr Hv).
Qed.

(** ** Views in order *)

Section view.
Context {Tap NetError : Type}.
Context (parse_f32 parse_f64 : list Z → option Z) (display_f64 : Z → list Z).
Context (display_float : NumericPrimitive → list Z).
Context (now_ms : Z → Z) (send_command : Command → Result unit NetError).
Implicit Types (m : Module_ Tap) (v : RegisterView Tap NetError) (mem : Memory (Key SlaveKey) Tap).

Abbreviation set_value := (set_register_value parse_f32 parse_f64 display_float now_ms send_command).
Abbreviation set_log := (set_and_log parse_f32 parse_f64 display_float now_ms send_command).

(** The module of a view between two commands. *)
Definition module_ok m : Prop :=
  Memory_wf (md_memory m) ∧ mem_words (md_memory m) ∧ view_ok m ∧
  Forall (λ row, mask_ok (reg_format (row_register row))) (md_registers m) ∧
  rows_fit (md_registers m) ∧ ∀ kind, ranges_for (md_read_ranges m) kind ≠ Panic.

Lemma fit_register_ok (rows : list RegisterRow) row :
  Forall (λ row, mask_ok (reg_format (row_register row))) rows → rows_fit rows → row ∈ rows →
  register_ok (row_register row) ∧ register_mem_binding (row_register row) ≠ Panic.
Proof.
  intros Hm Hf Hin. rewrite list.Forall_forall in Hm. split; [split|].
  - intros addr Ha. destruct (Hf row addr Hin Ha) as [Hu Hw]. split; [done|]. unfold is_uint in Hu.
    pose proof (read_limit_bounds (function_code (row_register row))). unfold usize_max. lia.
  - by apply Hm.
  - unfold register_mem_binding. destruct (reg_address (row_register row)) as [addr|] eqn:Ha; [|done].
    destruct (Hf row addr Hin Ha) as [Hu Hw]. unfold is_uint in Hu.
    pose proof (read_limit_bounds (function_code (row_register row))).
    by rewrite Range_new_Ret by (unfold usize_max; lia).
Qed.

Lemma module_bridge_ok m : module_ok m → bridge_ok (module_bridge m).
Proof.
  intros (Hwf & Hmw & [Hnd Hv] & Hm & Hf & _). split; [done|]. split; [done|].
  apply list.Forall_forall. intros [name register] Hin. simpl in *.
  apply elem_of_map_to_list in Hin. rewrite Hv in Hin.
  apply lua_view_row in Hin as (row & Hin & _ & <-). by apply (fit_register_ok (md_registers m)).
Qed.

(** Everything but memory, virtual values and events is as before. *)
Definition same_registers m m' : Prop :=
  md_registers m' = md_registers m ∧ md_lua_registers m' = md_lua_registers m ∧
  md_read_ranges m' = md_read_ranges m ∧ md_operations m' = md_operations m.

Lemma module_ok_same m m' :
  module_ok m → same_registers m m' → Memory_wf (md_memory m') → mem_words (md_memory m') →
  module_ok m'.
Proof.
  intros (_ & _ & Hv & Hm & Hf & Hr) (H1 & H2 & H3 & _) Hwf Hmw. unfold module_ok, view_ok.
  rewrite H1, H2, H3. done.
Qed.

(** A forced write keeps the store one of words. *)
Lemma write_unchecked_words mem mem' key range words :
  Range_wf range → mem_words mem → Forall is_word words →
  Memory_abs mem' ≡ (store_write_unchecked (Memory_abs mem) key range words).2 → mem_words mem'.
Proof.
  intros Hr Hmw Hw Hst id d' a c Hd' Hc.
  assert (mem_cell mem' id a = Some c) as Hcell by (unfold mem_cell; by rewrite Hd').
  rewrite (mem_cell_equiv _ _ _ _ Hst) in Hcell. unfold store_write_unchecked in Hcell.
  assert (∀ c', Memory_abs mem id ≫= (λ d, d a) = Some c' → is_word (c_value c')) as Hold.
  { intros c' Hc'. destruct (Memory_abs mem id) as [d|] eqn:Hd; [|done]. by eapply Hmw. }
  destruct (negb _); [by apply Hold|]. destruct (Memory_abs mem key) as [d|] eqn:Hd; [|by apply Hold].
  simpl in Hcell. unfold store_set in Hcell. case_decide as Hid; [|by apply Hold]. subst id.
  simpl in Hcell. unfold dev_store in Hcell. case_decide; [|apply Hold; by rewrite Hd].
  destruct (d a) as [c0|]; [|done]. simpl in Hcell. destruct (words !! _) as [w|] eqn:Hl; [|done].
  simpl in Hcell. injection Hcell as <-. exact (Forall_lookup_1 _ _ _ _ Hw Hl).
Qed.

(** Words read from such a store are words. *)
Lemma read_words mem key range old :
  Range_wf range → mem_words mem → store_read_unchecked (Memory_abs mem) key range = Some old →
  Forall is_word old.
Proof.
  intros Hr Hmw. unfold store_read_unchecked.
  destruct (Memory_abs mem key) as [d|] eqn:Hd; [|done]. simpl. intros Hws.
  eapply (dev_words_are_words d); [done| |done]. intros a c Hc. by eapply Hmw.
Qed.

(** What setting a value may change. *)
Definition only_values v v' : Prop :=
  same_registers (rv_module v) (rv_module v') ∧ rv_rows v' = rv_rows v ∧
  rv_selected v' = rv_selected v ∧ rv_definitions v' = rv_definitions v ∧ rv_role v' = rv_role v ∧
  rv_sort v' = rv_sort v.

Lemma write_merged_total v write key range words :
  module_ok (rv_module v) → Range_wf range → Forall is_word words →
  ∃ ok v', write_merged (NetError := NetError) now_ms v write key range words = Ret (ok, v') ∧
    module_ok (rv_module v') ∧ only_values v v'.
Proof.
  intros Hok Hr Hw. pose proof Hok as (Hwf & Hmw & _). pose proof (module_bridge_ok _ Hok) as (_ & _ & Hregs).
  simpl in Hregs. unfold write_merged. destruct write.
  - destruct (Memory_write_unchecked_from_refines (md_memory (rv_module v)) WS_Command key range words
      Hwf Hr) as (mem' & calls & Hwr & (Hwf' & _ & Hst) & _).
    rewrite Hwr. cbn [mbind outcome_bind].
    destruct (tap_calls_total now_ms None _ _ _ _ _ _ _ _ _ (md_hub (rv_module v)) Hwf Hmw Hr Hw Hregs
      Hwr) as (hub' & ->). cbn [mbind outcome_bind]. eexists _, _. split; [done|]. split; [|done].
    apply (module_ok_same (rv_module v)); [done|done|done|]. simpl. by eapply write_unchecked_words.
  - destruct (Memory_write_unchecked_refines (md_memory (rv_module v)) key range words Hwf Hr)
      as (mem' & Hwr & (Hwf' & _ & Hst)). rewrite Hwr. cbn [mbind outcome_bind].
    eexists _, _. split; [done|]. split; [|done].
    apply (module_ok_same (rv_module v)); [done|done|done|]. simpl. by eapply write_unchecked_words.
Qed.

Lemma set_virtual_total v name value register write :
  module_ok (rv_module v) →
  ∃ v', set_virtual (NetError := NetError) parse_f64 display_float now_ms v name value register write =
      Ret v' ∧ module_ok (rv_module v') ∧ only_values v v'.
Proof.
  intros Hok. pose proof Hok as (Hwf & Hmw & _). unfold set_virtual. destruct write.
  - unfold set_virtual_value_from_command, publish_virtual. rewrite publish_with_Ret.
    cbn [mbind outcome_bind]. eexists. split; [done|]. split; [|done].
    by apply (module_ok_same (rv_module v)).
  - eexists. split; [done|]. split; [|done]. by apply (module_ok_same (rv_module v)).
Qed.

(** The row with the name is one of the table. *)
Lemma find_row (rows : list TableRow) name row :
  List.find (λ row, String.eqb (tr_name row) name) rows = Some row → row ∈ rows ∧ tr_name row = name.
Proof.
  intros [Hin He]%List.find_some. split; [by apply list_elem_of_In|by apply String.eqb_eq].
Qed.

(** The table's registers are ones the tap can read. *)
Definition rows_ok v : Prop :=
  Forall (λ row, register_ok (tr_register row) ∧ register_mem_binding (tr_register row) ≠ Panic)
    (rv_rows v).

Lemma set_fixed_total v register addr raw write :
  module_ok (rv_module v) → register_ok register → register_mem_binding register ≠ Panic →
  reg_address register = Fixed addr → length raw = Format_width (reg_format register) →
  Forall is_word raw →
  ∃ o v', set_fixed now_ms send_command v register addr raw write = Ret (o, v') ∧
    module_ok (rv_module v') ∧ only_values v v'.
Proof.
  intros Hok Hro Hrp Ha Hl Hw. pose proof Hok as (Hwf & Hmw & _).
  destruct (register_new _ _ Hro Hrp Ha) as (Hnew & Hrw & _). unfold set_fixed. rewrite Hl, Hnew.
  cbn [mbind outcome_bind]. rewrite Memory_read_unchecked_refines by done. cbn [mbind outcome_bind].
  set (range := register_range register addr) in *. set (key := register_key register) in *.
  set (old := store_read_unchecked _ _ _).
  assert (Forall is_word (default [] old)) as Hold.
  { destruct old as [ws|] eqn:Hws; [|constructor]. by apply (read_words _ _ _ _ Hrw Hmw Hws). }
  destruct (merge_write_words (reg_format register) (default [] old) raw (proj2 Hro) Hold Hw) as [_ Hmw'].
  change (merge_write (reg_format register)) with (Register_merge_write register) in Hmw'.
  destruct (rv_role v).
  - set (v1 := with_sent v _).
    destruct (write_merged_total v1 write key range _ Hok Hrw Hmw') as (ok & v' & Hww & Hok' & Hsame).
    destruct (reg_access register); [by eexists _, _| |];
      (destruct (send_command _); [|by eexists _, _]); [|by eexists _, _].
    fold v1. rewrite Hww. cbn [mbind outcome_bind]. eexists _, _. split; [done|]. split; [done|exact Hsame].
  - destruct (write_merged_total v write key range _ Hok Hrw Hmw') as (ok & v' & Hww & Hok' & Hsame).
    rewrite Hww. cbn [mbind outcome_bind]. by eexists _, _.
Qed.

(** Setting a value never panics and changes values only. *)
Lemma set_register_value_total v name value write :
  module_ok (rv_module v) → rows_ok v → Forall is_byte value →
  ∃ o v', set_value v name value write = Ret (o, v') ∧
    module_ok (rv_module v') ∧ only_values v v'.
Proof.
  intros Hok Hrows Hb. unfold set_register_value.
  destruct (List.find _ _) as [row|] eqn:Hf; [|by eexists _, _].
  apply find_row in Hf as [Hin _]. unfold rows_ok in Hrows. rewrite list.Forall_forall in Hrows.
  destruct (Hrows row Hin) as [Hro Hrp].
  destruct (reg_address (tr_register row)) as [addr|] eqn:Ha.
  - destruct (Register_encode _ _ _ _) as [raw|e] eqn:He; [|by eexists _, _].
    destruct (encode_words_text parse_f32 parse_f64 _ _ _ Hb He) as [Hl Hw].
    by apply set_fixed_total.
  - destruct (rv_role v); [by eexists _, _|].
    destruct (set_virtual_total v name value (tr_register row) write Hok) as (v' & -> & Hok' & Hs).
    cbn [mbind outcome_bind]. by eexists _, _.
Qed.

Lemma set_and_log_total v name value write :
  module_ok (rv_module v) → rows_ok v → Forall is_byte value →
  ∃ v', set_log v name value write = Ret v' ∧ module_ok (rv_module v') ∧ only_values v v'.
Proof.
  intros Hok Hrows Hb.
  destruct (set_register_value_total v name value write Hok Hrows Hb) as (o & v' & Hs & Hok' & Hsame).
  unfold set_and_log. rewrite Hs. cbn [mbind outcome_bind]. eexists. split; [done|]. by destruct o.
Qed.

(** ** Dialogs *)

Definition row_of (row : TableRow) : RegisterRow :=
  (tr_name row, tr_description row, tr_register row, tr_named_values row).

(** The table shows the module's registers, in their order; the configuration
    defines the same names; the selection is a row. *)
Definition in_step v : Prop :=
  (row_of <$> rv_rows v) = md_registers (rv_module v) ∧
  (∀ name, is_Some (rv_definitions v !! name) ↔ name ∈ row_name <$> md_registers (rv_module v)) ∧
  ∀ idx, rv_selected v = Some idx → (idx < length (rv_rows v))%nat.

Lemma in_step_rows_ok v : module_ok (rv_module v) → in_step v → rows_ok v.
Proof.
  intros (_ & _ & _ & Hm & Hf & _) [Hr _]. apply list.Forall_forall. intros row Hin.
  apply (fit_register_ok (md_registers (rv_module v)) (row_of row)); [done|done|].
  rewrite <-Hr. by apply list_elem_of_fmap_2.
Qed.

Lemma only_values_in_step v v' : only_values v v' → in_step v → in_step v'.
Proof.
  intros ((H1 & _) & Hr & Hs & Hd & _) Hi. unfold in_step. by rewrite H1, Hr, Hs, Hd.
Qed.

(** A dialog's register fits a request, its texts are bytes. *)
Definition edited_ok (edited : EditedRegister) : Prop :=
  mask_ok (reg_format (ed_register edited)) ∧
  (∀ addr, reg_address (ed_register edited) = Fixed addr → is_uint 16 addr ∧
     Z.of_nat (Format_width (reg_format (ed_register edited))) <= read_limit (function_code (ed_register edited))) ∧
  (∀ value, ed_value edited = Some value → Forall is_byte value) ∧
  ∀ s, ed_default edited = Some s → Forall is_byte (Scalar_display display_f64 s).

Lemma edited_register_ok edited :
  edited_ok edited →
  register_ok (ed_register edited) ∧ register_mem_binding (ed_register edited) ≠ Panic.
Proof.
  intros (Hm & Hf & _). apply (fit_register_ok [edited_row edited []] (edited_row edited [])).
  - by apply list.Forall_singleton.
  - intros row addr ->%list_elem_of_singleton. apply Hf.
  - apply list_elem_of_here.
Qed.

Lemma declare_edited_total v edited :
  module_ok (rv_module v) → edited_ok edited →
  ∃ v', declare_edited (NetError := NetError) v edited = Ret v' ∧ module_ok (rv_module v') ∧
    only_values v v'.
Proof.
  intros Hok He. destruct (edited_register_ok edited He) as [Hro Hrp]. unfold declare_edited.
  pose proof Hok as (Hwf & Hmw & _).
  destruct (reg_address (ed_register edited)) as [addr|] eqn:Ha.
  2:{ unfold register_mem_binding. rewrite Ha. cbn [mbind outcome_bind]. by eexists. }
  destruct (register_new _ _ Hro Hrp Ha) as (_ & Hrw & Hbind). rewrite Hbind. cbn [mbind outcome_bind].
  set (key := register_key _). set (kind := kind_cell_kind _ _). set (range := register_range _ _) in *.
  assert (Forall Range_wf [range]) as Hall by by apply list.Forall_singleton.
  destruct (Memory_add_ranges_refines (md_memory (rv_module v)) key kind [range] Hwf Hall)
    as (mem' & Hadd & Hwf' & _). unfold declare_or_reject_msg. rewrite Hadd.
  pose proof (add_ranges_words _ _ _ _ _ _ Hwf Hall Hmw Hadd) as Hmw'.
  cbn [mbind outcome_bind]. eexists. split; [done|].
  destruct (store_declare _ _ _ _).1; (split; [|done]);
    by apply (module_ok_same (rv_module v)).
Qed.

(** After the operations are rebuilt, the rest runs. *)
Lemma rebuilt_total fuel v k :
  module_ok (rv_module v) → 2 ^ 18 <= Z.of_nat fuel →
  ∃ m, rebuilt fuel v k = (v' ← k (with_module v m); Ret (Some v')) ∧ module_ok m ∧
    md_registers m = md_registers (rv_module v).
Proof.
  intros Hok Hfuel. pose proof Hok as (Hwf & Hmw & Hv & Hm & Hf & Hr).
  destruct (build_read_operations_spec (md_registers (rv_module v)) (md_read_ranges (rv_module v)) fuel
    Hf Hr Hfuel) as (ops & Hops & _).
  unfold rebuilt, rebuild_operations. rewrite Hops. cbn [mbind outcome_bind option_map].
  eexists. split; [done|]. split; [|done]. done.
Qed.

Lemma edit_definitions_dom edited original definitions name :
  is_Some (definitions !! original) →
  is_Some (edit_definitions edited original definitions !! name) ↔
    name = ed_name edited ∨ (name ≠ original ∧ is_Some (definitions !! name)).
Proof.
  intros Ho. unfold edit_definitions.
  assert (∀ n, is_Some (alter (edit_def edited) original definitions !! n) ↔ is_Some (definitions !! n))
    as Halt by (intros n; apply lookup_alter_is_Some).
  destruct (String.eqb_spec (ed_name edited) original) as [He|Hne].
  - rewrite Halt, He. destruct (decide (name = original)) as [->|Hn]; [by split; [left|]|].
    split; [by right|]. by intros [?|[_ ?]].
  - destruct (alter _ _ _ !! original) as [def|] eqn:Hd.
    + rewrite lookup_insert_is_Some, lookup_delete_is_Some, Halt. split.
      * intros [<-|(_ & Hn & Hi)]; [by left|right; split; [by apply not_eq_sym|done]].
      * intros [->|[Hn Hi]]; [by left|]. destruct (decide (ed_name edited = name)); [by left|right].
        split; [done|]. split; [by apply not_eq_sym|done].
    + apply eq_None_not_Some in Hd. by rewrite Halt in Hd.
Qed.

(** The definition edited describes the register. *)
Lemma edit_definitions_register edited original definitions :
  mask_ok (reg_format (ed_register edited)) → is_Some (definitions !! original) →
  RegisterDef_register <$> edit_definitions edited original definitions !! ed_name edited =
    Some (ed_register edited).
Proof.
  intros Hm [def Hd]. unfold edit_definitions.
  assert (RegisterDef_register (edit_def edited def) = ed_register edited) as Hr
    by exact (proj1 (synced_register def (ed_register edited) Hm)).
  destruct (String.eqb_spec (ed_name edited) original) as [He|Hne].
  - rewrite He, lookup_alter_eq, Hd. simpl. by rewrite Hr.
  - rewrite lookup_alter_eq, Hd. simpl. rewrite lookup_insert_eq. simpl. by rewrite Hr.
Qed.

(** *** Adding *)

Lemma edited_row_fits edited nv row :
  edited_ok edited → row = edited_row edited nv →
  mask_ok (reg_format (row_register row)) ∧
  ∀ addr, reg_address (row_register row) = Fixed addr → is_uint 16 addr ∧
    Z.of_nat (Format_width (reg_format (row_register row))) <=
      read_limit (function_code (row_register row)).
Proof. by intros (? & ? & _) ->. Qed.

Lemma added_ok m edited nv :
  module_ok m → edited_ok edited → ed_name edited ∉ row_name <$> md_registers m →
  module_ok (add_register m (edited_row edited nv)).
Proof.
  intros (Hwf & Hmw & Hv & Hm & Hf & Hr) He Hn.
  destruct (edited_row_fits edited nv _ He eq_refl) as [Hme Hfe].
  split; [done|]. split; [done|]. split; [by apply add_view_ok|]. split; [|split; [|done]].
  - apply Forall_app. split; [done|]. by apply list.Forall_singleton.
  - intros row addr [Hin | ->%list_elem_of_singleton]%elem_of_app; [by apply Hf|apply Hfe].
Qed.

Lemma edited_value_bytes edited value :
  edited_ok edited → ed_value edited = Some value → Forall is_byte value.
Proof. intros (_ & _ & Hv & _). apply Hv. Qed.

Lemma rows_ok_snoc v edited nv :
  rows_ok v → edited_ok edited →
  rows_ok (set_rows v (rv_rows v ++ [TableRow_new (edited_row edited nv)])).
Proof.
  intros Hr He. apply Forall_app. split; [done|]. apply list.Forall_singleton.
  by apply edited_register_ok.
Qed.

Lemma only_values_trans v1 v2 v3 : only_values v1 v2 → only_values v2 v3 → only_values v1 v3.
Proof.
  unfold only_values, same_registers. intros ((?&?&?&?)&?&?&?&?&?) ((?&?&?&?)&?&?&?&?&?).
  split_and!; congruence.
Qed.

(** A value set when the dialog is applied, if any. *)
Definition set_if v name (value : option (list Z)) write : Outcome (RegisterView Tap NetError) :=
  match value with Some value => set_log v name value write | None => Ret v end.

Lemma set_if_total v name value write :
  module_ok (rv_module v) → rows_ok v → (∀ s, value = Some s → Forall is_byte s) →
  ∃ v', set_if v name value write = Ret v' ∧ module_ok (rv_module v') ∧ only_values v v'.
Proof.
  intros Hok Hr Hb. destruct value as [s|]; [|by eexists]. by apply set_and_log_total, Hb.
Qed.

Lemma finish_add_total v edited nv :
  module_ok (rv_module v) → rows_ok v → edited_ok edited →
  ∃ v', finish_add parse_f32 parse_f64 display_f64 display_float now_ms send_command edited
      (edited_row edited nv) v = Ret v' ∧
    module_ok (rv_module v') ∧
    only_values (set_rows v (rv_rows v ++ [TableRow_new (edited_row edited nv)])) v'.
Proof.
  intros Hok Hr He. unfold finish_add. set (v1 := set_rows v _).
  set (v2 := match reg_address (ed_register edited) with Fixed _ => v1 | Virtual => _ end).
  assert (module_ok (rv_module v2) ∧ rows_ok v2 ∧ only_values v1 v2) as (Hok2 & Hr2 & H12).
  { assert (rows_ok v1) as Hr1 by by apply rows_ok_snoc. unfold v2.
    destruct (reg_address (ed_register edited)); [done|]. split; [|done].
    by apply (module_ok_same (rv_module v)); [| |apply Hok|apply Hok]. }
  assert (∃ v', match ed_value edited with
      | None => set_if v2 (ed_name edited) (Scalar_display display_f64 <$> ed_default edited) VW_Silent
      | Some value => set_if v2 (ed_name edited) (Some value) VW_Command
      end = Ret v' ∧ module_ok (rv_module v') ∧ only_values v2 v') as (v' & Hs & Hok' & H2).
  { destruct He as (_ & _ & Hv & Hd). destruct (ed_value edited).
    - apply set_if_total; [done|done|]. intros s [= <-]. by apply Hv.
    - apply set_if_total; [done|done|]. intros s Hs. destruct (ed_default edited); [|done].
      injection Hs as <-. by apply Hd. }
  exists v'. split; [|split; [done|by eapply only_values_trans]].
  by destruct (ed_value edited), (ed_default edited).
Qed.

(** *** Editing *)

Lemma update_ok m idx slot edited nv :
  module_ok m → edited_ok edited → md_registers m !! idx = Some slot →
  (ed_name edited = row_name slot ∨ ed_name edited ∉ row_name <$> md_registers m) →
  module_ok (update_register m idx (edited_row edited nv)).
Proof.
  intros (Hwf & Hmw & Hv & Hm & Hf & Hr) He Hs Hn.
  destruct (edited_row_fits edited nv _ He eq_refl) as [Hme Hfe].
  assert (view_ok (update_register m idx (edited_row edited nv))) as Hv'.
  { apply update_view_ok; [done|]. intros j row' Hj Hne Heq. simpl in Heq. destruct Hn as [Hn|Hn].
    - apply Hne. destruct Hv as [Hnd _]. rewrite NoDup_alt in Hnd.
      apply (Hnd j idx (row_name slot)); rewrite list_lookup_fmap; [|by rewrite Hs].
      rewrite Hj. simpl. congruence.
    - apply Hn. rewrite <-Heq. apply list_elem_of_fmap_2. by eapply list_elem_of_lookup_2. }
  unfold update_register in *. rewrite Hs in *. unfold module_ok. simpl.
  split; [done|]. split; [done|]. split; [exact Hv'|].
  assert (∀ row, row ∈ <[idx:=edited_row edited nv]> (md_registers m) →
    row = edited_row edited nv ∨ row ∈ md_registers m) as Hin.
  { intros row [j Hj]%list_elem_of_lookup_1. apply list_lookup_insert_Some in Hj as [(_ & <- & _)|[_ Hj]];
      [by left|right; by eapply list_elem_of_lookup_2]. }
  split; [|split; [|done]].
  - apply list.Forall_forall. intros row [->|Hi]%Hin; [done|].
    rewrite list.Forall_forall in Hm. by apply Hm.
  - intros row addr [->|Hi]%Hin; [apply Hfe|by apply Hf].
Qed.

Lemma rows_ok_insert v edited nv idx :
  rows_ok v → edited_ok edited →
  rows_ok (set_rows v (<[idx := TableRow_new (edited_row edited nv)]> (rv_rows v))).
Proof. intros Hr He. apply list.Forall_insert; [done|]. by apply edited_register_ok. Qed.

Lemma finish_edit_total v edited preserved :
  module_ok (rv_module v) → rows_ok v → edited_ok edited →
  (∀ s, preserved = Some s → Forall is_byte s) →
  ∃ v', finish_edit parse_f32 parse_f64 display_float now_ms send_command edited preserved v = Ret v' ∧
    module_ok (rv_module v') ∧ only_values v v'.
Proof.
  intros Hok Hr (_ & _ & Hv & _) Hp. unfold finish_edit. destruct (ed_value edited) as [value|].
  - by apply set_and_log_total, Hv.
  - destruct preserved; [by apply set_and_log_total, Hp|by eexists].
Qed.

(** *** Confirmed dialogs *)

Lemma rows_ok_same v v' : rows_ok v → rv_rows v' = rv_rows v → rows_ok v'.
Proof. unfold rows_ok. by intros ? ->. Qed.

Lemma apply_add_step fuel v edited :
  module_ok (rv_module v) → in_step v → edited_ok edited →
  rv_definitions v !! ed_name edited = None → 2 ^ 18 <= Z.of_nat fuel →
  let row := edited_row edited (default [] (ed_named_values edited)) in
  ∃ v', apply_add parse_f32 parse_f64 display_f64 display_float now_ms send_command fuel v edited =
      Ret (Some v') ∧ module_ok (rv_module v') ∧
    rv_rows v' = rv_rows v ++ [TableRow_new row] ∧
    md_registers (rv_module v') = md_registers (rv_module v) ++ [row] ∧
    (∃ def, RegisterDef_register def = ed_register edited ∧
       rv_definitions v' = <[ed_name edited := def]> (rv_definitions v)) ∧
    ∀ idx, rv_selected v' = Some idx → (idx < length (rv_rows v'))%nat.
Proof.
  intros Hok Hstep He Hfresh Hfuel row. pose proof (in_step_rows_ok v Hok Hstep) as Hrows.
  destruct Hstep as (Hr & Hd & _).
  assert (ed_name edited ∉ row_name <$> md_registers (rv_module v)) as Hn.
  { intros Hin. apply Hd in Hin. rewrite Hfresh in Hin. by destruct Hin. }
  unfold apply_add. fold row. set (def := sync_register_def _ _). set (v1 := with_module _ _).
  assert (module_ok (rv_module v1)) as Hok1 by by apply added_ok.
  destruct (declare_edited_total v1 edited Hok1 He) as (v2 & Hdec & Hok2 & H12).
  rewrite Hdec. cbn [mbind outcome_bind].
  destruct (rebuilt_total fuel v2 (finish_add parse_f32 parse_f64 display_f64 display_float now_ms
    send_command edited row) Hok2 Hfuel) as (m & Hreb & Hokm & Hregs).
  rewrite Hreb. destruct H12 as ((Hm1 & _) & Hr2 & Hs2 & Hd2 & _).
  destruct (finish_add_total (with_module v2 m) edited (default [] (ed_named_values edited)) Hokm)
    as (v' & Hfin & Hok' & ((Hm' & _) & Hr' & Hs' & Hd' & _)); [|done|].
  { by apply (rows_ok_same v). }
  fold row in Hfin. rewrite Hfin. cbn [mbind outcome_bind]. exists v'. simpl in *.
  split; [done|]. split; [done|]. split; [by rewrite Hr', Hr2|]. split; [congruence|]. split.
  - exists def. split; [|by rewrite Hd', Hd2].
    exact (proj1 (synced_register _ (ed_register edited) (proj1 He))).
  - intros idx. rewrite Hs', Hr'. rewrite Hr2. destruct (rv_rows v) as [|r l]; simpl.
    + intros [= <-]. lia.
    + intros [= <-]. rewrite length_app. simpl. lia.
Qed.

Lemma preserved_bytes v edited slot s :
  Forall is_byte (UnscaledValue_display display_float (Value_unscaled (tr_value slot))) →
  preserved_value display_float v edited slot = Some s → Forall is_byte s.
Proof.
  intros Hb. unfold preserved_value. destruct (rv_role v), (ed_value edited); [done..|].
  destruct (_ && _); [|done]. by intros [= <-].
Qed.

Lemma apply_edit_step fuel v edited idx slot :
  module_ok (rv_module v) → in_step v → edited_ok edited → rv_rows v !! idx = Some slot →
  rv_selected v = Some idx →
  Forall is_byte (UnscaledValue_display display_float (Value_unscaled (tr_value slot))) →
  (ed_name edited = tr_name slot ∨ rv_definitions v !! ed_name edited = None) →
  2 ^ 18 <= Z.of_nat fuel →
  let row := edited_row edited (default (tr_named_values slot) (ed_named_values edited)) in
  ∃ v', apply_edit parse_f32 parse_f64 display_float now_ms send_command fuel v edited idx
      (tr_name slot) = Ret (Some v') ∧ module_ok (rv_module v') ∧
    rv_rows v' = <[idx := TableRow_new row]> (rv_rows v) ∧
    md_registers (rv_module v') = <[idx := row]> (md_registers (rv_module v)) ∧
    rv_definitions v' = edit_definitions edited (tr_name slot) (rv_definitions v) ∧
    rv_selected v' = Some idx.
Proof.
  intros Hok Hstep He Hslot Hsel Hb Hfresh Hfuel row.
  pose proof (in_step_rows_ok v Hok Hstep) as Hrows. destruct Hstep as (Hr & Hd & _).
  assert (md_registers (rv_module v) !! idx = Some (row_of slot)) as Hreg
    by (by rewrite <-Hr, list_lookup_fmap, Hslot).
  unfold apply_edit. rewrite Hslot. fold row. set (pres := preserved_value _ _ _ _).
  set (v1 := set_rows _ _).
  assert (module_ok (rv_module v1)) as Hok1.
  { apply (update_ok _ idx (row_of slot)); [done..|]. destruct Hfresh as [?|Hf]; [by left|right].
    intros Hin%Hd. rewrite Hf in Hin. by destruct Hin. }
  destruct (declare_edited_total v1 edited Hok1 He) as (v2 & Hdec & Hok2 & H12).
  rewrite Hdec. cbn [mbind outcome_bind].
  destruct (rebuilt_total fuel v2 (finish_edit parse_f32 parse_f64 display_float now_ms
    send_command edited pres) Hok2 Hfuel) as (m & Hreb & Hokm & Hregs).
  rewrite Hreb. destruct H12 as ((Hm1 & _) & Hr2 & Hs2 & Hd2 & _).
  destruct (finish_edit_total (with_module v2 m) edited pres Hokm)
    as (v' & Hfin & Hok' & ((Hm' & _) & Hr' & Hs' & Hd' & _)); [|done| |].
  { apply (rows_ok_same v1); [by apply (rows_ok_insert v)|done]. }
  { intros s. by apply preserved_bytes. }
  rewrite Hfin. cbn [mbind outcome_bind]. exists v'. simpl in *.
  split; [done|]. split; [done|]. split; [by rewrite Hr', Hr2|]. split; [|split; [by rewrite Hd', Hd2|]].
  - rewrite Hm', Hregs, Hm1. unfold update_register. by rewrite Hreg.
  - rewrite Hs', Hs2. simpl. rewrite Hsel. simpl. pose proof (lookup_lt_Some _ _ _ Hslot).
    destruct (<[idx:=_]> (rv_rows v)) as [|x l] eqn:Hi.
    + apply (f_equal length) in Hi. rewrite length_insert in Hi. simpl in Hi. lia.
    + apply (f_equal length) in Hi. rewrite length_insert in Hi. f_equal. simpl in *. lia.
Qed.

(** What a confirmed dialog makes of the register list. *)
Definition registers_after v (pending : PendingAction) : option (list RegisterRow) :=
  let rows := md_registers (rv_module v) in
  match pending with
  | PA_Add edited => Some (rows ++ [edited_row edited (default [] (ed_named_values edited))])
  | PA_Edit edited idx _ =>
      slot ← rv_rows v !! idx;
      Some (<[idx := edited_row edited (default (tr_named_values slot) (ed_named_values edited))]> rows)
  | PA_Delete name => Some (filter (λ row, row_name row ≠ name) rows)
  | PA_SetReadRanges _ => Some rows
  end.

Lemma confirmed_edit v edited pending :
  in_step v → confirm_overlay v false edited = Some pending →
  ∃ idx slot, pending = PA_Edit edited idx (tr_name slot) ∧ rv_selected v = Some idx ∧
    rv_rows v !! idx = Some slot ∧
    (ed_name edited = tr_name slot ∨ rv_definitions v !! ed_name edited = None).
Proof.
  intros (_ & _ & Hsel). unfold confirm_overlay, row_at.
  destruct (rv_selected v) as [idx|] eqn:Hs; cbn [mbind option_bind option_map fmap option_fmap].
  2:{ by destruct (_ && _). }
  destruct (lookup_lt_is_Some_2 _ _ (Hsel idx eq_refl)) as [slot Hslot]. rewrite Hslot. simpl.
  destruct (String.eqb_spec (ed_name edited) (tr_name slot)) as [He|Hne]; simpl.
  - intros [= <-]. exists idx, slot. by split; [|split; [|split; [|left]]].
  - case_bool_decide as Hd; [done|]. intros [= <-]. exists idx, slot.
    split; [done|]. split; [done|]. split; [done|]. right. by apply eq_None_not_Some.
Qed.

(** The names of a list in which one row is replaced. *)
Lemma renamed_names (names : list string) idx original new name :
  NoDup names → names !! idx = Some original →
  name = new ∨ name ≠ original ∧ name ∈ names ↔ name ∈ <[idx := new]> names.
Proof.
  intros Hnd Hi. pose proof (lookup_lt_Some _ _ _ Hi). split.
  - intros [->|[Hne [j Hj]%list_elem_of_lookup_1]].
    + eapply list_elem_of_lookup_2. by apply list_lookup_insert_eq.
    + apply (list_elem_of_lookup_2 _ j). rewrite list_lookup_insert_ne; [done|congruence].
  - intros [j Hj]%list_elem_of_lookup_1. apply list_lookup_insert_Some in Hj as [(_ & <- & _)|[Hne Hj]];
      [by left|right]. split; [|by eapply list_elem_of_lookup_2].
    intros ->. by apply Hne, (proj1 (NoDup_alt names) Hnd idx j original).
Qed.

(** C28: confirming the add or the edit dialog of a table that shows the module's
    registers in their order (no [:order] since), where the register of the
    dialog and those of the module have 16-bit addresses and fit one request
    ([edited_ok], [module_ok]: the dialog itself takes a text of any width, with
    which rebuilding the requests never ends, [oversized_edit_hangs]) and the
    read ranges parse without a panic, ends within 2^18 rounds of the planner
    without a panic and keeps the table, the module's list, the scripts' view of
    it and the names of the device configuration in step: a new register is
    appended, an edited one replaces the selected one in place, and the
    configuration describes the confirmed register. *)
Theorem dialogs_stay_in_step fuel v is_add edited pending :
  module_ok (rv_module v) → in_step v → edited_ok edited →
  Forall (λ row, Forall is_byte (UnscaledValue_display display_float (Value_unscaled (tr_value row))))
    (rv_rows v) →
  confirm_overlay v is_add edited = Some pending → 2 ^ 18 <= Z.of_nat fuel →
  ∃ v', apply_pending parse_f32 parse_f64 display_f64 display_float now_ms send_command fuel v pending =
      Ret (Some v') ∧ module_ok (rv_module v') ∧ in_step v' ∧
    Some (md_registers (rv_module v')) = registers_after v pending ∧
    RegisterDef_register <$> rv_definitions v' !! ed_name edited = Some (ed_register edited).
Proof.
  intros Hok Hstep He Hb Hc Hfuel. destruct is_add.
  - unfold confirm_overlay in Hc. case_bool_decide as Hu; [done|]. injection Hc as <-.
    apply eq_None_not_Some in Hu.
    destruct (apply_add_step fuel v edited Hok Hstep He Hu Hfuel)
      as (v' & Ha & Hok' & Hr' & Hm' & (def & Hdef & Hd') & Hs'). exists v'.
    destruct Hstep as (Hr & Hd & _).
    split; [done|]. split; [done|]. split; [|split; [by rewrite Hm'|]].
    + split; [|split; [|done]]; [by rewrite Hr', Hm', fmap_app, Hr|].
      intros name. rewrite Hd', Hm', fmap_app, elem_of_app, <-Hd. simpl.
      rewrite list_elem_of_singleton, lookup_insert_is_Some. destruct (decide (ed_name edited = name)) as [<-|Hne].
      * split; [by right|by left].
      * split; [intros [?|[_ ?]]; [done|by left]|intros [?|?]; [by right|by left]].
    + rewrite Hd', lookup_insert_eq. simpl. by rewrite Hdef.
  - destruct (confirmed_edit v edited pending Hstep Hc) as (idx & slot & -> & Hsel & Hslot & Hfresh).
    pose proof (Forall_lookup_1 _ _ _ _ Hb Hslot) as Hbs.
    destruct (apply_edit_step fuel v edited idx slot Hok Hstep He Hslot Hsel Hbs Hfresh Hfuel)
      as (v' & Ha & Hok' & Hr' & Hm' & Hd' & Hs'). exists v'.
    pose proof Hstep as (Hr & Hd & _).
    assert (md_registers (rv_module v) !! idx = Some (row_of slot)) as Hreg
      by (by rewrite <-Hr, list_lookup_fmap, Hslot).
    assert (is_Some (rv_definitions v !! tr_name slot)) as Hdef.
    { apply Hd. apply (list_elem_of_fmap_2 row_name _ (row_of slot)). by eapply list_elem_of_lookup_2. }
    split; [done|]. split; [done|]. split; [|split; [by rewrite Hm'; simpl; rewrite Hslot|]].
    + split; [by rewrite Hr', Hm', list_fmap_insert, Hr|]. split.
      * intros name. rewrite Hd', Hm', edit_definitions_dom, list_fmap_insert by done.
        rewrite Hd. apply renamed_names; [by destruct Hok as (_ & _ & [? _] & _)|].
        by rewrite list_lookup_fmap, Hreg.
      * intros i. rewrite Hs', Hr', length_insert. intros [= <-]. by eapply lookup_lt_Some.
    + rewrite Hd'. apply edit_definitions_register; [apply He|done].
Qed.

(** *** Deleting *)

Lemma removed_ok m name : module_ok m → module_ok (remove_register_by_name m name).
Proof.
  intros (Hwf & Hmw & Hv & Hm & Hf & Hr). split; [done|]. split; [done|].
  split; [by apply remove_view_ok|]. split; [|split; [|done]].
  - apply list.Forall_forall. intros row [_ Hin]%list_elem_of_filter.
    rewrite list.Forall_forall in Hm. by apply Hm.
  - intros row addr [_ Hin]%list_elem_of_filter. by apply Hf.
Qed.

Lemma filter_rows (rows : list TableRow) name :
  row_of <$> filter (λ row, tr_name row ≠ name) rows =
    filter (λ row, row_name row ≠ name) (row_of <$> rows).
Proof.
  induction rows as [|row rows IH]; [done|]. rewrite filter_cons, fmap_cons, filter_cons.
  change (row_name (row_of row)) with (tr_name row).
  case_decide; [|done]. by rewrite fmap_cons, IH.
Qed.

(** Deleting a register ends, never panics and removes its name, and no other,
    from the table, the module's list, the scripts' view of it and the device
    configuration. *)
Theorem delete_stays_in_step fuel v name :
  module_ok (rv_module v) → in_step v → 2 ^ 18 <= Z.of_nat fuel →
  ∃ v', delete_register_by_name fuel v name = Ret (Some v') ∧ module_ok (rv_module v') ∧ in_step v' ∧
    md_registers (rv_module v') = filter (λ row, row_name row ≠ name) (md_registers (rv_module v)) ∧
    rv_definitions v' = delete name (rv_definitions v).
Proof.
  intros Hok (Hr & Hd & Hs) Hfuel. unfold delete_register_by_name. set (v1 := select_first _).
  destruct (rebuilt_total fuel v1 Ret (removed_ok _ name Hok) Hfuel) as (m & Hreb & Hokm & Hregs).
  rewrite Hreb. cbn [mbind outcome_bind]. exists (with_module v1 m).
  split; [done|]. split; [done|]. split; [|done]. split; [|split].
  - simpl. by rewrite Hregs, filter_rows, Hr.
  - intros n. simpl. rewrite Hregs, lookup_delete_is_Some, Hd. simpl. rewrite !list_elem_of_fmap. split.
    + intros (Hne & row & -> & Hin). exists row. rewrite list_elem_of_filter. split; [done|].
      split; [by apply not_eq_sym|done].
    + intros (row & -> & [Hne Hin]%list_elem_of_filter). split; [by apply not_eq_sym|]. by exists row.
  - simpl. intros idx. destruct (filter _ (rv_rows v)); [done|]. intros [= <-]. simpl. lia.
Qed.
(** *** Setting a value *)

Lemma write_merged_fixed v write register addr raw old :
  module_ok (rv_module v) → register_ok register → register_mem_binding register ≠ Panic →
  reg_address register = Fixed addr → length raw = Format_width (reg_format register) →
  Forall is_word raw → register_words (md_memory (rv_module v)) register = Some old →
  ∃ v', write_merged (NetError := NetError) now_ms v write (register_key register)
      (register_range register addr) raw = Ret (true, v') ∧
    writes_register (md_memory (rv_module v)) (md_memory (rv_module v')) register addr raw.
Proof.
  intros Hok Hro Hrp Ha Hl Hw Hold. pose proof Hok as (Hwf & Hmw & _).
  pose proof (module_bridge_ok _ Hok) as (_ & _ & Hregs). simpl in Hregs.
  destruct (register_new _ _ Hro Hrp Ha) as (_ & Hrw & _). unfold write_merged. destruct write.
  - destruct (forced_write_register (md_memory (rv_module v)) WS_Command register addr raw old Hwf Hro
      Hrp Ha Hl Hold) as (mem' & calls & Hwr & Hwr'). rewrite Hwr. cbn [mbind outcome_bind].
    destruct (tap_calls_total now_ms None _ _ _ _ _ _ _ _ _ (md_hub (rv_module v)) Hwf Hmw Hrw Hw Hregs
      Hwr) as (hub' & ->). cbn [mbind outcome_bind]. by eexists.
  - destruct (Memory_write_unchecked_refines (md_memory (rv_module v)) (register_key register)
      (register_range register addr) raw Hwf Hrw) as (mem' & Hwr & (Hwf' & _ & Hst)).
    destruct (store_writes_register _ mem' register addr raw old Hwf Hwf' Hro Hrp Ha Hl Hold Hst)
      as [Hb Hwr']. rewrite Hwr, Hb. cbn [mbind outcome_bind]. by eexists.
Qed.

(** On a server, setting a numeric register to a decimal text stores it: the
    register reads back as that integer, the bits of its words outside its mask
    and every register elsewhere in memory stay as they were. *)
Theorem set_value_stores v name write row nf x addr old :
  module_ok (rv_module v) → rows_ok v → rv_role v = COS_Server →
  List.find (λ row, String.eqb (tr_name row) name) (rv_rows v) = Some row →
  reg_address (tr_register row) = Fixed addr → reg_format (tr_register row) = F_Numeric nf →
  int_ok nf x → register_words (md_memory (rv_module v)) (tr_register row) = Some old →
  ∃ v' words, set_value v name (int_display x) write = Ret (SET_Stored, v') ∧
    writes_register (md_memory (rv_module v)) (md_memory (rv_module v')) (tr_register row) addr words ∧
    Register_decode (tr_register row) words =
      Ok (V_Numeric (kind_prim (nf_kind nf) x) (nf_resolution nf)) ∧
    ∀ i w mask, words !! i = Some w → Register_write_mask (tr_register row) !! i = Some mask →
      Z.land w (word_not mask) = Z.land (default 0 (old !! i)) (word_not mask).
Proof.
  intros Hok Hrows Hrole Hfind Ha Hf Hx Hold. pose proof Hok as (Hwf & Hmw & _).
  pose proof (find_row _ _ _ Hfind) as [Hin _]. unfold rows_ok in Hrows.
  rewrite list.Forall_forall in Hrows. destruct (Hrows row Hin) as [Hro Hrp].
  set (register := tr_register row) in *.
  destruct (register_new _ _ Hro Hrp Ha) as (Hnew & Hrw & Hbind).
  assert (store_read_unchecked (Memory_abs (md_memory (rv_module v))) (register_key register)
    (register_range register addr) = Some old) as Hread.
  { unfold register_words in Hold. by rewrite Hbind, Memory_read_unchecked_refines in Hold. }
  pose proof (read_words _ _ _ _ Hrw Hmw Hread) as How.
  destruct (merged_field nf x (nf_resolution nf) old Hx How) as (ws & Henc & Hdec & Hlen & Hbits).
  assert (encode parse_f32 parse_f64 (F_Numeric nf) (int_display x) = Ok ws) as Het.
  { pose proof Hx as (_ & Hfits & Hwfx & _). unfold encode.
    assert (int_display x = prim_display (λ _, []) (kind_prim (nf_kind nf) x)) as ->
      by by destruct (nf_kind nf).
    by rewrite decimal_parses. }
  destruct (encode_field nf x (nf_resolution nf) Hx) as (Henc' & Hlw & Hww & _). cbv zeta in *.
  rewrite Henc in Henc'. injection Henc' as Hws.
  assert (Forall is_word ws) as Hws' by (rewrite Hws; by apply Forall_order_words).
  assert (length ws = Format_width (reg_format register)) as Hl
    by (rewrite Hf, <-Hlen; unfold merge_write; by rewrite length_imap).
  destruct (merge_write_words (reg_format register) old ws (proj2 Hro) How Hws') as [Hlm Hwm].
  destruct (write_merged_fixed v write register addr _ old Hok Hro Hrp Ha (eq_trans Hlm Hl) Hwm Hold)
    as (v' & Hwr & Hwrites).
  exists v', (merge_write (reg_format register) old ws). split; [|split; [done|split]].
  - unfold set_register_value. rewrite Hfind. fold register. rewrite Ha. unfold Register_encode.
    rewrite Hf, Het. unfold set_fixed. rewrite Hl, Hnew. cbn [mbind outcome_bind].
    rewrite Memory_read_unchecked_refines, Hread, Hrole by done. cbn [mbind outcome_bind default].
    change (Register_merge_write _ _ ws) with (merge_write (reg_format register) old ws). by rewrite Hwr.
  - unfold Register_decode. by rewrite Hf.
  - unfold Register_write_mask. rewrite Hf. exact Hbits.
Qed.
End view.

(** ** Witnesses and a table out of step *)

Definition demo_view : RegisterView unit unit :=
  RegisterView_new demo_module {["a"%string := demo_word 2 None]} COS_Server.

Definition demo_edited : EditedRegister :=
  mkEdited "c" "word" (RegisterDef_register (demo_word 4 None)) None None None.

Lemma demo_module_ok : module_ok demo_module.
Proof.
  split; [apply Memory_wf_default|]. split; [apply mem_words_default|].
  split; [split; [apply NoDup_singleton|reflexivity]|].
  split; [|split; [|by destruct kind]].
  - constructor; [by vm_compute|constructor].
  - intros row addr ->%list_elem_of_singleton [= <-]. split; [by vm_compute|]. by vm_compute.
Qed.

Lemma demo_in_step : in_step demo_view.
Proof.
  split; [reflexivity|]. split; [|intros idx [= <-]; by vm_compute].
  intros name. simpl. rewrite list_elem_of_singleton. rewrite lookup_singleton_is_Some. by split.
Qed.

Lemma demo_edited_ok : edited_ok (λ _, []) demo_edited.
Proof.
  split; [by vm_compute|]. split; [|by split].
  intros addr [= <-]. split; [by vm_compute|]. by vm_compute.
Qed.

Abbreviation demo_apply := (apply_pending (λ _, None) (λ _, None) (λ _, []) (λ _, []) (λ _, 5)
  (λ _, Ok tt) (Z.to_nat (2 ^ 18))).

Lemma dialogs_stay_in_step_witness :
  ∃ v', demo_apply demo_view (PA_Edit demo_edited 0 "a") = Ret (Some v') ∧
    row_name <$> md_registers (rv_module v') = ["c"%string].
Proof.
  destruct (dialogs_stay_in_step (λ _, None) (λ _, None) (λ _, []) (λ _, []) (λ _, 5) (λ _, Ok tt)
    (Z.to_nat (2 ^ 18)) demo_view false demo_edited (PA_Edit demo_edited 0 "a") demo_module_ok
    demo_in_step demo_edited_ok) as (v' & H1 & _ & _ & H2 & _).
  - constructor; [|constructor]. constructor.
  - vm_compute. reflexivity.
  - exact demo_fuel.
  - exists v'. split; [exact H1|]. injection H2 as ->. reflexivity.
Defined.

Lemma delete_stays_in_step_witness :
  ∃ v', delete_register_by_name (Z.to_nat (2 ^ 18)) demo_view "a" = Ret (Some v') ∧
    rv_definitions v' = delete "a"%string (rv_definitions demo_view).
Proof.
  destruct (delete_stays_in_step (Z.to_nat (2 ^ 18)) demo_view "a" demo_module_ok demo_in_step
    demo_fuel) as (v' & H1 & _ & _ & _ & H2).
  exists v'. split; [exact H1|exact H2].
Defined.

(** Two virtual registers, sorted by name backwards: the table shows [b] first. *)
Definition virtual_word : RegisterDef :=
  mkRegisterDef 1 K_HoldingRegister None true AC_ReadWrite VT_U16 EC_Big WC_Normal one_bits
    None 1 LC_Left [] None "word" None.

Definition sorted_view : RegisterView unit unit :=
  let rows := [def_row ("a"%string, virtual_word); def_row ("b"%string, virtual_word)] in
  let m := mkModule "m" rows (lua_view rows) [] Memory_default [] [] ReadRanges_default None ∅
             (mkHub EventStream_new [] []) in
  apply_order (λ _, None) (λ _, []) (λ _ _, []) (λ _ _, None) (λ s, s) (λ s, s)
    (RegisterView_new m {["a"%string := virtual_word; "b"%string := virtual_word]} COS_Server)
    (bytes_of "Name") true.

Definition edited_b : EditedRegister :=
  mkEdited "b" "edited" (RegisterDef_register virtual_word) None None None.

(** In a table sorted by [:order] the edit dialog of the selected row replaces
    another register of the module: here the dialog of [b], the table's first
    row, overwrites [a], which scripts can then no longer reach, and leaves the
    old [b] in the list beside the new one. *)
Theorem order_misdirects_edit :
  tr_name <$> row_at sorted_view = Some "b"%string ∧
  confirm_overlay sorted_view false edited_b = Some (PA_Edit edited_b 0 "b") ∧
  ∃ v', apply_pending (λ _, None) (λ _, None) (λ _, []) (λ _, []) (λ _, 5) (λ _, Ok tt) 10 sorted_view
      (PA_Edit edited_b 0 "b") = Ret (Some v') ∧
    tr_name <$> rv_rows v' = ["b"; "a"]%string ∧
    row_name <$> md_registers (rv_module v') = ["b"; "b"]%string ∧
    md_lua_registers (rv_module v') !! "a"%string = None ∧
    is_Some (rv_definitions v' !! "a"%string).
Proof.
  split; [vm_compute; reflexivity|]. split; [vm_compute; reflexivity|].
  eexists. split; [vm_compute; reflexivity|].
  split; [vm_compute; reflexivity|]. split; [vm_compute; reflexivity|].
  split; [vm_compute; reflexivity|]. eexists. vm_compute. reflexivity.
Qed.

(** A dialog may confirm a text of 126 words, one more than a request may read:
    the planner is then stuck, whatever its fuel. *)
Definition wide_text : EditedRegister := mkEdited "t" "wide" demo_text None None None.

Lemma oversized_edit_hangs (fuel : nat) :
  let v := RegisterView_new (NetError := unit)
    (mkModule (Tap := unit) "m" [] ∅ [] Memory_default [] [] ReadRanges_default None ∅
      (mkHub EventStream_new [] [])) ∅ COS_Server in
  confirm_overlay v true wide_text = Some (PA_Add wide_text) ∧
  apply_pending (λ _, None) (λ _, None) (λ _, []) (λ _, []) (λ _, 5) (λ _, Ok tt) fuel v
    (PA_Add wide_text) = Ret None.
Proof.
  intros v. split; [vm_compute; reflexivity|]. cbn [apply_pending]. unfold apply_add.
  set (v1 := with_module _ _).
  assert (∃ v2, declare_edited v1 wide_text = Ret v2 ∧
    md_registers (rv_module v2) = [edited_row wide_text []] ∧
    md_read_ranges (rv_module v2) = ReadRanges_default) as (v2 & -> & Hregs & Hranges).
  { eexists. split; [vm_compute; reflexivity|]. split; reflexivity. }
  cbn [mbind outcome_bind]. unfold rebuilt, rebuild_operations. rewrite Hregs, Hranges.
  change (edited_row wide_text []) with ("t"%string, "wide"%string, demo_text, [] : list NamedValue).
  by rewrite (oversized_register_hangs _ _ demo_text _ 10).
Qed.

Definition demo_row : RegisterRow := ("r"%string, ""%string, demo_register, []).

Definition cells_view : RegisterView unit unit :=
  RegisterView_new
    (mkModule "m" [demo_row] (lua_view [demo_row]) [] demo_cells [] [] ReadRanges_default None ∅
       (mkHub EventStream_new [] [])) ∅ COS_Server.

Lemma cells_view_ok : module_ok (rv_module cells_view) ∧ rows_ok cells_view.
Proof.
  split; [|constructor; [exact (proj1 (Forall_cons_1 _ _ _ demo_registers_ok))|constructor]].
  split; [apply demo_cells_ok|]. split; [apply demo_cells_ok|].
  split; [split; [apply NoDup_singleton|reflexivity]|]. split; [|split; [|by destruct kind]].
  - constructor; [by vm_compute|constructor].
  - intros row addr ->%list_elem_of_singleton [= <-]. split; [by vm_compute|]. by vm_compute.
Qed.

Lemma set_value_stores_witness :
  ∃ v', set_register_value (λ _, None) (λ _, None) (λ _, []) (λ _, 5) (λ _, Ok tt) cells_view "r"
      (bytes_of "7") VW_Command = Ret (SET_Stored, v') ∧
    register_words (md_memory (rv_module v')) demo_register = Some [7].
Proof.
  destruct (set_value_stores (λ _, None) (λ _, None) (λ _, []) (λ _, 5) (λ _, Ok tt) cells_view "r"
    VW_Command (TableRow_new demo_row)
    (mkNumericFormat IK_U16 E_Big WO_Normal Resolution_default BitField_default) 7 2 [0]
    (proj1 cells_view_ok) (proj2 cells_view_ok)) as (v' & words & H1 & _);
    [reflexivity|reflexivity|reflexivity|reflexivity|split_and!; by vm_compute|by vm_compute|].
  eexists. split; [vm_compute; reflexivity|]. vm_compute. reflexivity.
Defined.

(** A virtual register with nothing but a name. *)
Definition named_row (name : string) : TableRow :=
  TableRow_new (name, ""%string, mkRegister 1 RA_ReadWrite K_HoldingRegister Virtual (F_Ascii AL_Left 1%nat), []).

(** The numbers 9 and 10. *)
Definition parse_small (s : list Z) : option Z :=
  if decide (s = bytes_of "9") then Some 9 else if decide (s = bytes_of "10") then Some 10 else None.

(** The order of a column is no total order: 9 comes before 10 as a number, 10
    before 1a and 1a before 9 as texts. *)
Lemma order_is_cyclic :
  let cmp := cmp_rows parse_small (λ _, []) (λ _ _, []) (λ a b, Some (a ?= b)) (λ s, s) 0 false in
  cmp (named_row "9") (named_row "10") = Lt ∧ cmp (named_row "10") (named_row "1a") = Lt ∧
  cmp (named_row "1a") (named_row "9") = Lt.
Proof. split_and!; vm_compute; reflexivity. Qed.
