(* ===== verification/ModbusBridge.v ===== *)
(** * The bridge between two Modbus sides

    Models [ferrowl-modbus/src/bridge/]: the unit-id filter of [config.rs], the
    downstream link and its reconnecting task of [downstream.rs], the relaying
    of [service.rs] and the runs of the upstream side ([upstream_tcp.rs],
    [upstream_rtu.rs]). A run interleaves requests with the steps of the
    reconnecting task. A request holds the link's lock until the client has
    answered, so it is one step; the client's connections are numbered, and what
    a connect attempt and a client answer are the environment's to say. *)

From stdpp Require Import base list gmap numbers strings.
From S2P Require Import Prelude IntText Text Key Channel Backoff DeviceConfig ServerRun.

Local Open Scope Z_scope.

(** ** Unit ids *)

Inductive SegmentError := SEG_Invalid (part : list Z) | SEG_Reversed (part : list Z).

Definition UnitIdFilter : Type := gset Z.

(** One segment, neither empty nor with spaces around; 45 is ['-']. *)
Definition parse_segment (part : list Z) : Result (list Z) SegmentError :=
  match split_once 45 part with
  | Some (lo, hi) =>
      match parse_unsigned 8 (trim lo), parse_unsigned 8 (trim hi) with
      | Some lo, Some hi =>
          if hi <? lo then Err (SEG_Reversed part) else Ok (seqZ lo (hi - lo + 1))
      | _, _ => Err (SEG_Invalid part)
      end
  | None =>
      match parse_unsigned 8 part with
      | Some id => Ok [id]
      | None => Err (SEG_Invalid part)
      end
  end.

Fixpoint parse_segments (ids : UnitIdFilter) (parts : list (list Z))
  : Result UnitIdFilter SegmentError :=
  match parts with
  | [] => Ok ids
  | part :: parts' =>
      let part := trim part in
      match part with
      | [] => parse_segments ids parts'
      | _ =>
          match parse_segment part with
          | Ok l => parse_segments (ids ∪ list_to_set l) parts'
          | Err e => Err e
          end
      end
  end.

(** [UnitIdFilter::parse]; 44 is [',']. *)
Definition UnitIdFilter_parse (input : list Z) : Result UnitIdFilter SegmentError :=
  parse_segments ∅ (split 44 input).

Definition allows (self : UnitIdFilter) (unit : UnitId) : bool := bool_decide (unit ∈ self).

(** ** The downstream link *)

Section link.
(** Errors of a connect attempt and of an exchange. *)
Context {ConnectError CallError : Type}.

(** Where the reconnecting task is. *)
Inductive LinkPc :=
| LP_Waiting
| LP_Connecting (backoff : Z)
| LP_Sleeping (backoff : Z)
| LP_Done.

Inductive BridgeMsg :=
| BM_Connected
| BM_ConnectFailed (e : ConnectError) (secs : Z)
| BM_Relaying (unit : UnitId)
| BM_Gateway (unit : UnitId) (e : ExceptionCode).

(** An exchange on a connection, with what the client made of it. *)
Record Exchange := mkExchange {
  xc_connection : nat;
  xc_unit : UnitId;
  xc_request : RequestPdu;
  xc_result : Result (option ResponsePdu) CallError
}.

(** [DownstreamHandle] with its task: the client's connection, the permit of
    [reconnect_needed], how many connections there have been, the exchanges and
    the log. *)
Record Link := mkLink {
  lk_reconnect : bool;
  lk_client : option nat;
  lk_permit : bool;
  lk_pc : LinkPc;
  lk_connections : nat;
  lk_exchanges : list Exchange;
  lk_log : list (Level * BridgeMsg)
}.

Definition lk_say (self : Link) (level : Level) (msg : BridgeMsg) : Link :=
  mkLink (lk_reconnect self) (lk_client self) (lk_permit self) (lk_pc self) (lk_connections self)
    (lk_exchanges self) (lk_log self ++ [(level, msg)]).

Definition lk_goto (self : Link) (pc : LinkPc) : Link :=
  mkLink (lk_reconnect self) (lk_client self) (lk_permit self) pc (lk_connections self)
    (lk_exchanges self) (lk_log self).

(** [DownstreamHandle::spawn]: the task waits, and is told to connect. *)
Definition Link_spawn (reconnect : bool) : Link := mkLink reconnect None true LP_Waiting 0 [] [].

(** The task takes its permit. *)
Definition link_notified (self : Link) : Link :=
  if lk_permit self
  then
    mkLink (lk_reconnect self) (lk_client self) false
      (LP_Connecting (bp_initial BackoffPolicy_default)) (lk_connections self) (lk_exchanges self)
      (lk_log self)
  else self.

Definition link_connected (self : Link) : Link :=
  let self := lk_say self L_Info BM_Connected in
  mkLink (lk_reconnect self) (Some (lk_connections self)) (lk_permit self)
    (if lk_reconnect self then LP_Waiting else LP_Done) (S (lk_connections self))
    (lk_exchanges self) (lk_log self).

Definition link_failed (self : Link) (backoff : Z) (e : ConnectError) : Link :=
  let self := lk_say self L_Error (BM_ConnectFailed e (backoff / from_secs 1)) in
  lk_goto self (if lk_reconnect self then LP_Sleeping backoff else LP_Done).

(** A step of the task; [attempt] is what the next connect attempt gives. *)
Definition link_step (self : Link) (attempt : Result unit ConnectError) : Outcome Link :=
  match lk_pc self with
  | LP_Waiting => Ret (link_notified self)
  | LP_Connecting backoff =>
      Ret match attempt with
          | Ok _ => link_connected self
          | Err e => link_failed self backoff e
          end
  | LP_Sleeping backoff =>
      d ← duration_double backoff;
      Ret (lk_goto self (LP_Connecting (Z.min d (bp_max BackoffPolicy_default))))
  | LP_Done => Ret self
  end.

(** [DownstreamHandle::forward]; [result] is what the client would answer. *)
Definition forward (self : Link) (unit : UnitId) (request : RequestPdu)
    (result : Result (option ResponsePdu) CallError)
  : Result (option ResponsePdu) ExceptionCode * Link :=
  match lk_client self with
  | None => (Err EX_GatewayPathUnavailable, self)
  | Some n =>
      let exchanges := lk_exchanges self ++ [mkExchange n unit request result] in
      match result with
      | Ok resp =>
          (Ok resp,
           mkLink (lk_reconnect self) (lk_client self) (lk_permit self) (lk_pc self)
             (lk_connections self) exchanges (lk_log self))
      | Err _ =>
          (Err EX_GatewayTargetDeviceFailedToRespond,
           mkLink (lk_reconnect self) None true (lk_pc self) (lk_connections self) exchanges
             (lk_log self))
      end
  end.

(** [forward_and_relay]. *)
Definition forward_and_relay (unit_filter : option UnitIdFilter) (self : Link) (unit : UnitId)
    (request : RequestPdu) (result : Result (option ResponsePdu) CallError)
  : Result (option ResponsePdu) ExceptionCode * Link :=
  if match unit_filter with Some f => negb (allows f unit) | None => false end
  then (Ok None, self)
  else
    let self := lk_say self L_Info (BM_Relaying unit) in
    let '(answer, self) := forward self unit request result in
    (answer, match answer with
             | Ok _ => self
             | Err e => lk_say self L_Error (BM_Gateway unit e)
             end).

(** ** Runs *)

Inductive BridgeEvent :=
| BE_Request (unit : UnitId) (request : RequestPdu) (result : Result (option ResponsePdu) CallError)
| BE_Task (attempt : Result unit ConnectError).

(** The link and the answers given upstream, each with its request. *)
Record BridgeState := mkBridgeState {
  bs_link : Link;
  bs_answers : list (UnitId * RequestPdu * Result (option ResponsePdu) ExceptionCode)
}.

Definition bridge_step (unit_filter : option UnitIdFilter) (s : BridgeState) (ev : BridgeEvent)
  : Outcome BridgeState :=
  match ev with
  | BE_Request unit request result =>
      let '(answer, link) := forward_and_relay unit_filter (bs_link s) unit request result in
      Ret (mkBridgeState link (bs_answers s ++ [(unit, request, answer)]))
  | BE_Task attempt => link ← link_step (bs_link s) attempt; Ret (mkBridgeState link (bs_answers s))
  end.

Fixpoint bridge_run (unit_filter : option UnitIdFilter) (s : BridgeState) (evs : list BridgeEvent)
  : Outcome BridgeState :=
  match evs with
  | [] => Ret s
  | ev :: evs' => s ← bridge_step unit_filter s ev; bridge_run unit_filter s evs'
  end.

Definition bridge_start (reconnect : bool) : BridgeState := mkBridgeState (Link_spawn reconnect) [].
End link.

Arguments LinkPc : clear implicits.
Arguments BridgeMsg : clear implicits.
Arguments Exchange : clear implicits.
Arguments Link : clear implicits.
Arguments BridgeEvent : clear implicits.
Arguments BridgeState : clear implicits.

(** ** The upstream side *)

Section upstream.
Context {AE TLE RE : Type} (unexpected_eof : RE) (default_config : SerialConfig).

(** The result of a spawned upstream task, or why there is none. *)
Definition Upstream : Type := Result (Result unit (Error AE TLE RE)) (Error AE TLE RE).

(** [upstream_tcp::run_framed]: the task's result, and whether the fallback to an
    ephemeral certificate was logged. *)
Definition run_framed (addr : Result unit AE) (tls : TlsSetup (TLE := TLE)) (bind serve : Result unit RE)
  : Upstream * bool :=
  let bound :=
    match bind with
    | Ok _ => Ok match serve with Ok _ => Ok tt | Err e => Err (ER_Server e) end
    | Err e => Err (ER_Server e)
    end in
  match addr with
  | Err e => (Err (ER_Tcp (TE_Address e)), false)
  | Ok _ =>
      match tls with
      | TLS_None => (bound, false)
      | TLS_Build (Err e) => (Err (ER_Tcp (TE_Tls e)), false)
      | TLS_Build (Ok used_fallback) => (bound, used_fallback)
      end
  end.

(** [upstream_rtu::link_end]: any end of the link is a loss. *)
Definition link_end (result : Result unit RE) : Result unit (Error AE TLE RE) :=
  match result with
  | Ok _ => Err (ER_Server unexpected_eof)
  | Err e => Err (ER_Server e)
  end.

(** [upstream_rtu::run]. *)
Definition run_rtu (baud_rate : Z) (data_bits stop_bits : option Z) (parity : option string)
    (open serve : Result unit RE) : Upstream :=
  match serial_config_from default_config baud_rate data_bits stop_bits parity with
  | Err e => Err (ER_Serial e)
  | Ok _ =>
      match open with
      | Ok _ => Ok (link_end serve)
      | Err e => Err (ER_Serial (SERR_Error e))
      end
  end.
End upstream.
