(* ===== verification/ModbusBridgeProps.v ===== *)
(** * Properties of the bridge

    The link recovers and never works while it is up; the device sees the
    allowed requests that found a link, once each and in order, and its answers
    are relayed as they are; a connection that failed is not used again; a filter
    allows the units its text lists. *)

From stdpp Require Import base list gmap numbers strings.
From S2P Require Import Prelude IntText Text Key Channel Backoff DeviceConfig ServerRun ModbusBridge.

Local Open Scope Z_scope.

Section bridge.
Context {ConnectError CallError : Type}.
Implicit Types (l : Link ConnectError CallError) (s : BridgeState ConnectError CallError).

(** ** The link *)

(** The waits between attempts: a second, doubled up to half a minute. *)
Definition outage_wait (k : nat) : Z := Z.min (from_secs (2 ^ Z.of_nat k)) (from_secs 30).

Definition at_wait (backoff : Z) : Prop := ∃ k, backoff = outage_wait k.

(** The task works exactly while there is no connection, and then it works, or
    has been told to, unless it may not connect again. *)
Definition link_ok l : Prop :=
  match lk_pc l with
  | LP_Waiting => if lk_permit l then lk_client l = None else is_Some (lk_client l)
  | LP_Connecting backoff => at_wait backoff ∧ lk_client l = None ∧ lk_permit l = false
  | LP_Sleeping backoff =>
      at_wait backoff ∧ lk_client l = None ∧ lk_permit l = false ∧ lk_reconnect l = true
  | LP_Done => lk_reconnect l = false
  end ∧
  (lk_client l = None ∨ lk_client l = Some (pred (lk_connections l)) ∧ (0 < lk_connections l)%nat) ∧
  (lk_reconnect l = false → (lk_connections l ≤ 1)%nat ∧
     (lk_pc l ≠ LP_Done → lk_connections l = 0%nat)).

Lemma spawn_ok reconnect : link_ok (Link_spawn (ConnectError := ConnectError) (CallError := CallError) reconnect).
Proof. split; [done|]. split; [by left|]. intros _. simpl. by split; [lia|]. Qed.

Lemma outage_double k :
  duration_double (outage_wait k) = Ret (outage_wait k * 2) ∧
  Z.min (outage_wait k * 2) (bp_max BackoffPolicy_default) = outage_wait (S k).
Proof.
  unfold outage_wait, duration_double, duration_max, from_secs. simpl bp_max. unfold from_secs.
  rewrite Nat2Z.inj_succ, Z.pow_succ_r by lia. split.
  - zcase; [done|]. lia.
  - lia.
Qed.

Lemma link_step_ok l attempt : link_ok l → ∃ l', link_step l attempt = Ret l' ∧ link_ok l'.
Proof.
  intros (Hpc & Hc & Hn). unfold link_step. destruct (lk_pc l) as [|b|b|] eqn:Hp in *.
  - eexists. split; [done|]. unfold link_notified. destruct (lk_permit l) eqn:Hpm in *.
    + split; [|split; [done|]].
      * simpl. split; [|done]. exists 0%nat. reflexivity.
      * intros Hr. destruct (Hn Hr) as [? H0]. split; [done|]. intros _. by apply H0.
    + split; [by rewrite Hp, Hpm|]. split; [done|]. by rewrite Hp.
  - destruct Hpc as (Hw & Hcl & Hpm). eexists. split; [done|]. destruct attempt as [u|e].
    + split; [|split; [right; simpl; by split; [|lia]|]].
      * simpl. destruct (lk_reconnect l) eqn:Hr in *; simpl; [rewrite Hpm; by eexists|done].
      * simpl. intros Hr. destruct (Hn Hr) as [? H0]. rewrite H0, Hr by done. split; [lia|done].
    + split; [|split; [by left|]].
      * simpl. destruct (lk_reconnect l) eqn:Hr in *; simpl; [done|done].
      * simpl. intros Hr. destruct (Hn Hr) as [? H0]. rewrite Hr. by split.
  - destruct Hpc as ((k & ->) & Hcl & Hpm & Hr). destruct (outage_double k) as [Hd Hm].
    rewrite Hd. cbn [mbind outcome_bind]. rewrite Hm. eexists. split; [done|].
    split; [|split; [by left|]]; simpl.
    + split; [by eexists|done].
    + rewrite Hr. done.
  - eexists. split; [done|]. split; [by rewrite Hp|]. split; [done|]. by rewrite Hp.
Qed.

Lemma forward_ok l unit request result :
  link_ok l → link_ok (forward l unit request result).2.
Proof.
  intros (Hpc & Hc & Hn). unfold forward. destruct (lk_client l) as [n|] eqn:Hcl in *.
  2:{ simpl. unfold link_ok. by rewrite Hcl. }
  destruct result as [resp|e]; simpl.
  - split; [|split; [done|done]]. simpl.
    destruct (lk_pc l) in *; [by destruct (lk_permit l) in *|by destruct Hpc as (_ & ? & _)
      |by destruct Hpc as (_ & ? & _)|done].
  - split; [|split; [by left|done]]. simpl.
    destruct (lk_pc l) in *; [done|by destruct Hpc as (_ & ? & _)|by destruct Hpc as (_ & ? & _)|done].
Qed.

Lemma say_ok l level msg : link_ok l → link_ok (lk_say l level msg).
Proof. done. Qed.

Lemma relay_ok f l unit request result :
  link_ok l → link_ok (forward_and_relay f l unit request result).2.
Proof.
  intros Hok. unfold forward_and_relay. destruct (match f with Some _ => _ | None => _ end); [done|].
  pose proof (forward_ok (lk_say l L_Info (BM_Relaying unit)) unit request result Hok) as Hf.
  destruct (forward _ _ _ _) as [answer l']. simpl in *. by destruct answer.
Qed.

Lemma bridge_step_ok f s ev :
  link_ok (bs_link s) → ∃ s', bridge_step f s ev = Ret s' ∧ link_ok (bs_link s').
Proof.
  intros Hok. destruct ev as [unit request result|attempt]; simpl.
  - pose proof (relay_ok f (bs_link s) unit request result Hok) as Hr.
    destruct (forward_and_relay _ _ _ _ _) as [answer l']. by eexists.
  - destruct (link_step_ok (bs_link s) attempt Hok) as (l' & -> & Hok'). by eexists.
Qed.

(** What every step keeps, a run keeps. *)
Lemma bridge_run_inv f (P : BridgeState ConnectError CallError → Prop) s evs :
  (∀ s ev s', P s → link_ok (bs_link s) → bridge_step f s ev = Ret s' → P s') →
  P s → link_ok (bs_link s) →
  ∃ s', bridge_run f s evs = Ret s' ∧ link_ok (bs_link s') ∧ P s'.
Proof.
  intros Hstep. revert s. induction evs as [|ev evs IH]; intros s HP Hok; [by exists s|]. simpl.
  destruct (bridge_step_ok f s ev Hok) as (s1 & Hs & Hok1). rewrite Hs. cbn [mbind outcome_bind].
  apply IH; [by eapply Hstep|done].
Qed.

(** The task is let run on its own, and its attempts succeed. *)
Definition let_connect (n : nat) l : Outcome (Link ConnectError CallError) :=
  Nat.iter n (λ o, o ≫= λ l, link_step l (Ok tt)) (Ret l).

(** Whatever requests arrive and whatever the downstream side does, the
    reconnecting task never panics, it is idle while a connection is up, and a
    lost connection is never forgotten: with reconnecting enabled the task
    connects within two of its steps once connecting works again. Without
    it there is one connection at most. *)
Theorem link_recovers f reconnect evs :
  ∃ s, bridge_run f (bridge_start reconnect) evs = Ret s ∧
    match lk_client (bs_link s) with
    | Some _ =>
        ∀ attempt, link_step (bs_link s) attempt = Ret (bs_link s)
    | None =>
        reconnect = true →
        ∃ n l, (n ≤ 2)%nat ∧ let_connect n (bs_link s) = Ret l ∧ is_Some (lk_client l)
    end ∧
    (reconnect = false → (lk_connections (bs_link s) ≤ 1)%nat).
Proof.
  destruct (bridge_run_inv f (λ s, lk_reconnect (bs_link s) = reconnect) (bridge_start reconnect) evs)
    as (s & Hs & (Hpc & Hc & Hn) & Hr); [|done|apply spawn_ok|].
  { intros s ev s' Hr Hok. destruct ev as [unit request result|attempt]; simpl.
    - destruct (forward_and_relay _ _ _ _ _) as [answer l'] eqn:Hf. intros [= <-]. simpl.
      unfold forward_and_relay, forward in Hf. simpl in Hf.
      destruct (match f with Some _ => _ | None => _ end), (lk_client (bs_link s)), result;
        by injection Hf as <- <-.
    - unfold link_step, link_notified.
      destruct (lk_pc (bs_link s)), (lk_permit (bs_link s)), attempt; simpl; intros Hs;
        try (by injection Hs as <-); unfold duration_double in Hs; destruct (_ <=? _); try done;
        by injection Hs as <-. }
  exists s. split; [done|]. rewrite Hr in *. split; [|intros H; by apply Hn].
  set (l := bs_link s) in *. destruct (lk_client l) as [n|] eqn:Hcl in *.
  - intros attempt. unfold link_step, link_notified. destruct (lk_pc l) in *.
    + by destruct (lk_permit l) in *.
    + by destruct Hpc as (_ & ? & _).
    + by destruct Hpc as (_ & ? & _).
    + done.
  - intros ->. destruct (lk_pc l) as [|b|b|] eqn:Hp in *.
    + destruct (lk_permit l) eqn:Hpm in *; [|by destruct Hpc].
      exists 2%nat. unfold let_connect, link_step, link_notified. simpl. rewrite Hp, Hpm. simpl. eauto.
    + exists 1%nat. unfold let_connect, link_step. simpl. rewrite Hp. simpl. eauto.
    + destruct Hpc as ((k & ->) & _). destruct (outage_double k) as [Hd _].
      exists 2%nat. unfold let_connect, link_step. simpl. rewrite Hp, Hd. simpl. eauto.
    + done.
Qed.

(** ** Relaying *)

Definition allowed (f : option UnitIdFilter) (unit : UnitId) : bool :=
  match f with Some f => allows f unit | None => true end.

(** A request with the connection the link had when it arrived, and what the
    client there answers. *)
Record Seen := mkSeen {
  sn_client : option nat;
  sn_unit : UnitId;
  sn_request : RequestPdu;
  sn_result : Result (option ResponsePdu) CallError
}.

(** The requests of a run, in order. *)
Fixpoint requests_seen (f : option UnitIdFilter) s (evs : list (BridgeEvent ConnectError CallError))
  : list Seen :=
  match evs with
  | [] => []
  | ev :: evs' =>
      match ev with
      | BE_Request unit request result => [mkSeen (lk_client (bs_link s)) unit request result]
      | BE_Task _ => []
      end ++
      match bridge_step f s ev with Ret s' => requests_seen f s' evs' | Panic => [] end
  end.

Definition requested (ev : BridgeEvent ConnectError CallError)
  : option (UnitId * RequestPdu * Result (option ResponsePdu) CallError) :=
  match ev with
  | BE_Request unit request result => Some (unit, request, result)
  | BE_Task _ => None
  end.

(** What such a request is to be answered. *)
Definition due_answer (f : option UnitIdFilter) (r : Seen) : Result (option ResponsePdu) ExceptionCode :=
  if allowed f (sn_unit r) then
    match sn_client r, sn_result r with
    | None, _ => Err EX_GatewayPathUnavailable
    | Some _, Ok response => Ok response
    | Some _, Err _ => Err EX_GatewayTargetDeviceFailedToRespond
    end
  else Ok None.

(** What the device is to be given for it. *)
Definition due_exchange (f : option UnitIdFilter) (r : Seen) : option (Exchange CallError) :=
  match sn_client r with
  | Some n =>
      if allowed f (sn_unit r)
      then Some (mkExchange n (sn_unit r) (sn_request r) (sn_result r)) else None
  | None => None
  end.

(** The connection after an event: a connect attempt that succeeds makes one,
    and it is kept until an exchange on it fails. *)
Definition due_client (f : option UnitIdFilter) l (ev : BridgeEvent ConnectError CallError)
  : option nat :=
  match lk_client l, ev with
  | Some n, BE_Task _ => Some n
  | Some n, BE_Request unit _ result =>
      match result with Err _ => if allowed f unit then None else Some n | Ok _ => Some n end
  | None, BE_Task (Ok _) =>
      match lk_pc l with LP_Connecting _ => Some (lk_connections l) | _ => None end
  | None, _ => None
  end.

Lemma filtered f unit :
  match f with Some f => negb (allows f unit) | None => false end = negb (allowed f unit).
Proof. by destruct f. Qed.

Lemma relay_step f s unit request result :
  let '(answer, link) := forward_and_relay f (bs_link s) unit request result in
  let r := mkSeen (lk_client (bs_link s)) unit request result in
  answer = due_answer f r ∧
  lk_exchanges link = lk_exchanges (bs_link s) ++ option_list (due_exchange f r) ∧
  lk_client link = due_client f (bs_link s) (BE_Request unit request result).
Proof.
  unfold forward_and_relay, due_answer, due_exchange, due_client. rewrite filtered. simpl.
  destruct (allowed f unit); simpl.
  - unfold forward, lk_say. simpl.
    destruct (lk_client (bs_link s)), result; simpl; by rewrite ?app_nil_r.
  - destruct (lk_client (bs_link s)), result; simpl; by rewrite ?app_nil_r.
Qed.

Lemma link_step_exchanges l attempt l' :
  link_step l attempt = Ret l' → lk_exchanges l' = lk_exchanges l.
Proof.
  unfold link_step, link_notified. destruct (lk_pc l), (lk_permit l), attempt; simpl; intros Hs;
    try (by injection Hs as <-); unfold duration_double in Hs; destruct (_ <=? _); try done;
    by injection Hs as <-.
Qed.

Lemma link_step_client f l attempt l' :
  link_ok l → link_step l attempt = Ret l' → lk_client l' = due_client f l (BE_Task attempt).
Proof.
  intros (Hpc & _ & _). unfold due_client, link_step, link_notified.
  destruct (lk_pc l) as [|b|b|] eqn:Hp in *.
  - intros [= <-]. destruct (lk_client l) as [n|] eqn:Hc, (lk_permit l), attempt; by rewrite ?Hc.
  - destruct Hpc as (_ & Hc & _). rewrite Hc. by destruct attempt; intros [= <-].
  - destruct Hpc as (_ & Hc & _). rewrite Hc. unfold duration_double. destruct (_ <=? _); [|done].
    intros [= <-]. simpl. rewrite Hc. by destruct attempt.
  - intros [= <-]. destruct (lk_client l), attempt; done.
Qed.

(** A step answers its request, gives the device what it is due, and leaves the
    connection that is due. *)
Lemma bridge_step_spec f s ev s' :
  link_ok (bs_link s) → bridge_step f s ev = Ret s' →
  let seen := requests_seen f s [ev] in
  bs_answers s' = bs_answers s ++ ((λ r, (sn_unit r, sn_request r, due_answer f r)) <$> seen) ∧
  lk_exchanges (bs_link s') = lk_exchanges (bs_link s) ++ omap (due_exchange f) seen ∧
  lk_client (bs_link s') = due_client f (bs_link s) ev.
Proof.
  intros Hok. destruct ev as [unit request result|attempt]; simpl.
  - pose proof (relay_step f s unit request result) as Hr.
    destruct (forward_and_relay _ _ _ _ _) as [answer link]. simpl in *.
    destruct Hr as (-> & He & Hc). intros [= <-]. simpl. rewrite Hc, He. split; [done|].
    split; [|done]. by destruct (due_exchange _ _).
  - destruct (link_step (bs_link s) attempt) as [link|] eqn:Hl; [|done]. intros [= <-]. simpl.
    rewrite !app_nil_r. split; [done|]. split; [by eapply link_step_exchanges|].
    by eapply link_step_client.
Qed.

Lemma requests_seen_cons f s ev s' evs :
  bridge_step f s ev = Ret s' →
  requests_seen f s (ev :: evs) = requests_seen f s [ev] ++ requests_seen f s' evs.
Proof.
  intros Hs. cbn [requests_seen]. rewrite Hs. by destruct ev.
Qed.

Lemma bridge_run_spec f s evs :
  link_ok (bs_link s) →
  let seen := requests_seen f s evs in
  ∃ s', bridge_run f s evs = Ret s' ∧
    ((λ r, (sn_unit r, sn_request r, sn_result r)) <$> seen) = omap requested evs ∧
    bs_answers s' = bs_answers s ++ ((λ r, (sn_unit r, sn_request r, due_answer f r)) <$> seen) ∧
    lk_exchanges (bs_link s') = lk_exchanges (bs_link s) ++ omap (due_exchange f) seen.
Proof.
  revert s. induction evs as [|ev evs IH]; intros s Hok.
  { exists s. simpl. by rewrite !app_nil_r. }
  destruct (bridge_step_ok f s ev Hok) as (s1 & Hs & Hok1). cbn zeta.
  rewrite (requests_seen_cons f s ev s1 evs Hs).
  destruct (bridge_step_spec f s ev s1 Hok Hs) as (Ha & He & _).
  destruct (IH s1 Hok1) as (s' & Hrun & Hreq & Ha' & He'). exists s'.
  rewrite Ha', He', Ha, He, !fmap_app, omap_app, !(assoc_L (++)), Hreq. split_and!; try done.
  - simpl. by rewrite Hs.
  - cbn [requests_seen]. rewrite Hs. by destruct ev.
Qed.

(** C31: every request is answered once, in order. A request for a unit that is
    not allowed gets no answer; if the link has no connection at that time, the
    answer is that the path is unavailable; otherwise the device is given the
    request, unmodified and on that connection, and the answer is what the
    client there answers, a failed exchange as the gateway's. The device is given
    nothing else. A connect attempt that succeeds makes the connection, and it is
    kept until an exchange on it fails. *)
Theorem bridge_relays f reconnect evs :
  let seen := requests_seen f (bridge_start reconnect) evs in
  ∃ s, bridge_run f (bridge_start reconnect) evs = Ret s ∧
    ((λ r, (sn_unit r, sn_request r, sn_result r)) <$> seen) = omap requested evs ∧
    bs_answers s = ((λ r, (sn_unit r, sn_request r, due_answer f r)) <$> seen) ∧
    lk_exchanges (bs_link s) = omap (due_exchange f) seen ∧
    ∀ pre ev post, evs = pre ++ ev :: post → ∃ s1 s2,
      bridge_run f (bridge_start reconnect) pre = Ret s1 ∧ bridge_step f s1 ev = Ret s2 ∧
      lk_client (bs_link s2) = due_client f (bs_link s1) ev.
Proof.
  intros seen. destruct (bridge_run_spec f (bridge_start reconnect) evs) as (s & Hs & Hr & Ha & He);
    [apply spawn_ok|].
  exists s. split_and!; try done. intros pre ev post ->.
  destruct (bridge_run_inv f (λ _, True) (bridge_start reconnect) pre) as (s1 & Hs1 & Hok & _);
    [done|done|apply spawn_ok|].
  destruct (bridge_step_ok f s1 ev Hok) as (s2 & Hs2 & _). exists s1, s2.
  split_and!; try done. by eapply bridge_step_spec.
Qed.

(** ** Failed connections *)

Definition failed (x : Exchange CallError) : Prop := match xc_result x with Ok _ => False | Err _ => True end.

(** Connections come one after the other, and an exchange that fails is the last
    of its own. *)
Definition exchanges_ok l : Prop :=
  (∀ i j x y, (i < j)%nat → lk_exchanges l !! i = Some x → lk_exchanges l !! j = Some y →
     (xc_connection x ≤ xc_connection y)%nat ∧ (failed x → (xc_connection x < xc_connection y)%nat)) ∧
  ∀ i x, lk_exchanges l !! i = Some x →
    (xc_connection x < lk_connections l)%nat ∧
    (failed x → ∀ n, lk_client l = Some n → (xc_connection x < n)%nat).

Lemma exchanges_same l l' :
  exchanges_ok l → lk_exchanges l' = lk_exchanges l →
  (lk_connections l' = lk_connections l ∧ lk_client l' = lk_client l) ∨
    (lk_connections l' = S (lk_connections l) ∧ lk_client l' = Some (lk_connections l)) →
  exchanges_ok l'.
Proof.
  intros [Ho Hx] He [[Hn Hc]|[Hn Hc]]; unfold exchanges_ok; rewrite He, Hn, Hc; [done|].
  split; [done|]. intros i x Hi. destruct (Hx i x Hi) as [Hlt _]. split; [lia|].
  intros _ n [= <-]. done.
Qed.

Lemma forward_exchanges l unit request result :
  link_ok l → exchanges_ok l → exchanges_ok (forward l unit request result).2.
Proof.
  intros (_ & Hc & _) [Ho Hx]. unfold forward. destruct (lk_client l) as [n|] eqn:Hcl; [|simpl; split; [exact Ho|]; intros i y Hi; destruct (Hx i y Hi) as [? _]; by rewrite Hcl].
  destruct Hc as [?|[[= Hn] Hpos]]; [done|].
  set (x := mkExchange n unit request result).
  assert ((∀ i j x1 x2, (i < j)%nat → (lk_exchanges l ++ [x]) !! i = Some x1 →
      (lk_exchanges l ++ [x]) !! j = Some x2 → (xc_connection x1 ≤ xc_connection x2)%nat ∧
      (failed x1 → (xc_connection x1 < xc_connection x2)%nat)) ∧
    (∀ i x1, (lk_exchanges l ++ [x]) !! i = Some x1 →
      (xc_connection x1 < lk_connections l)%nat ∧
      (failed x1 → ¬ failed x → (xc_connection x1 < n)%nat))) as [H1 H2].
  { split.
    - intros i j x1 x2 Hij H1 H2. apply lookup_snoc_Some in H1 as [[? H1]|[-> <-]].
      + apply lookup_snoc_Some in H2 as [[? H2]|[-> <-]]; [exact (Ho i j x1 x2 Hij H1 H2)|].
        destruct (Hx i x1 H1) as [? Hf]. change (xc_connection x) with n. split; [lia|]. intros Hfx. by apply Hf.
      + apply lookup_lt_Some in H2. rewrite length_app in H2. simpl in H2. lia.
    - intros i x1 H1. apply lookup_snoc_Some in H1 as [[? H1]|[-> <-]].
      + destruct (Hx i x1 H1) as [? Hf]. split; [done|]. intros Hfx _. by apply Hf.
      + change (xc_connection x) with n. split; [lia|]. done. }
  destruct result as [resp|e]; simpl; (split; [exact H1|]); simpl; intros i x1 Hi;
    destruct (H2 i x1 Hi) as [? Hf]; (split; [done|]); [|done].
  intros Hfx n' [= <-]. apply Hf; [done|]. intros Hff. exact Hff.
Qed.

Lemma relay_exchanges f l unit request result :
  link_ok l → exchanges_ok l → exchanges_ok (forward_and_relay f l unit request result).2.
Proof.
  intros Hok Hx. unfold forward_and_relay.
  destruct (match f with Some _ => _ | None => _ end); [done|].
  pose proof (forward_exchanges (lk_say l L_Info (BM_Relaying unit)) unit request result Hok Hx) as Hf.
  destruct (forward _ _ _ _) as [answer l']. simpl in *. by destruct answer.
Qed.

(** An exchange that fails is the last on its connection: the client that
    may be out of step is dropped, and every later exchange runs on a newer
    connection. *)
Theorem failed_connection_abandoned f reconnect evs :
  ∃ s, bridge_run f (bridge_start reconnect) evs = Ret s ∧
    ∀ i j x y, (i < j)%nat → lk_exchanges (bs_link s) !! i = Some x →
      lk_exchanges (bs_link s) !! j = Some y → failed x → (xc_connection x < xc_connection y)%nat.
Proof.
  destruct (bridge_run_inv f (λ s, exchanges_ok (bs_link s)) (bridge_start reconnect) evs)
    as (s & Hs & _ & [Ho _]); [| |apply spawn_ok|].
  - intros s ev s' Hx Hok. destruct ev as [unit request result|attempt]; simpl.
    + pose proof (relay_exchanges f (bs_link s) unit request result Hok Hx) as Hr.
      destruct (forward_and_relay _ _ _ _ _) as [answer l']. by intros [= <-].
    + destruct (link_step (bs_link s) attempt) as [l'|] eqn:Hl; [|done]. intros [= <-]. simpl.
      apply (exchanges_same (bs_link s)); [done|by eapply link_step_exchanges|].
      unfold link_step, link_notified in Hl.
      destruct (lk_pc (bs_link s)), (lk_permit (bs_link s)), attempt; simpl in Hl;
        try (injection Hl as <-; by auto);
        unfold duration_double in Hl; destruct (_ <=? _); try done; injection Hl as <-; by auto.
  - split; [intros i j x y _ Hi|intros i x Hi]; by destruct i.
  - exists s. split; [done|]. intros i j x y Hij Hi Hj. by apply (Ho i j x y).
Qed.
(** ** An outage *)

(** Attempts that fail one after the other, each with the wait after it. *)
Definition outage (es : list ConnectError) l : Outcome (Link ConnectError CallError) :=
  foldl (λ o e, l ← o; l ← link_step l (Err e); link_step l (Err e)) (Ret l) es.

(** While connecting fails, the waits are one second, doubled up to thirty, and
    each failure is logged with its wait. *)
Lemma outage_schedule es k l :
  lk_reconnect l = true → lk_pc l = LP_Connecting (outage_wait k) →
  ∃ l', outage es l = Ret l' ∧ lk_reconnect l' = true ∧
    lk_pc l' = LP_Connecting (outage_wait (k + length es)) ∧
    lk_log l' = lk_log l ++ imap (λ i e,
      (L_Error, BM_ConnectFailed e (outage_wait (k + i) / from_secs 1))) es.
Proof.
  intros Hr Hp. induction es as [|e es IH] using rev_ind.
  { exists l. rewrite Nat.add_0_r, app_nil_r. done. }
  destruct IH as (l' & Ho & Hr' & Hp' & Hl). unfold outage in *. rewrite foldl_app, Ho.
  set (w := outage_wait (k + length es)) in *. cbn [foldl mbind outcome_bind].
  assert (link_step l' (Err e) = Ret (link_failed l' w e)) as -> by (unfold link_step; by rewrite Hp').
  assert (lk_pc (link_failed l' w e) = LP_Sleeping w) as Hs by (cbn; by rewrite Hr').
  destruct (outage_double (k + length es)) as [Hd Hm]. fold w in Hd, Hm.
  assert (link_step (link_failed l' w e) (Err e) =
    Ret (lk_goto (link_failed l' w e) (LP_Connecting (outage_wait (S (k + length es)))))) as Hstep.
  { unfold link_step. rewrite Hs, Hd. cbn [mbind outcome_bind]. by rewrite Hm. }
  cbn [mbind outcome_bind]. rewrite Hstep. eexists. split; [done|]. split; [done|]. split.
  - cbn [lk_pc lk_goto]. do 2 f_equal. rewrite length_app. cbn [length]. lia.
  - cbn [lk_log lk_goto link_failed lk_say]. rewrite Hl, imap_app, <-(assoc_L (++)). do 2 f_equal.
    cbn [imap]. by rewrite Nat.add_0_r.
Qed.
End bridge.

(** *** A short run *)

(** A request before the connection is up, two on it, the second of which fails,
    one after that, and one for a unit that is not allowed. *)
Definition demo_request : RequestPdu := RQ_ReadCoils 0 1.

Definition demo_bridge : list (BridgeEvent unit unit) :=
  [BE_Task (Ok tt); BE_Request 1 demo_request (Ok None); BE_Task (Ok tt);
   BE_Request 1 demo_request (Ok (Some (RS_ReadCoils [true]))); BE_Request 1 demo_request (Err tt);
   BE_Request 1 demo_request (Ok None); BE_Request 2 demo_request (Ok None)].

Lemma bridge_relays_witness :
  ∃ s, bridge_run (Some {[1]}) (bridge_start true) demo_bridge = Ret s ∧
    (snd <$> bs_answers s) =
      [Err EX_GatewayPathUnavailable; Ok (Some (RS_ReadCoils [true]));
       Err EX_GatewayTargetDeviceFailedToRespond; Err EX_GatewayPathUnavailable; Ok None] ∧
    ∃ s1 s2 : BridgeState unit unit,
      bridge_run (Some {[1]}) (bridge_start true) [BE_Task (Ok tt)] = Ret s1 ∧
      bridge_step (Some {[1]}) s1 (BE_Request 1 demo_request (Ok None)) = Ret s2 ∧
      lk_client (bs_link s2) = None.
Proof.
  destruct (bridge_relays (Some {[1]}) true demo_bridge) as (s & Hs & _ & Ha & _ & Hc).
  exists s. split; [exact Hs|]. split; [rewrite Ha; vm_compute; reflexivity|].
  destruct (Hc [BE_Task (Ok tt)] (BE_Request 1 demo_request (Ok None)) (drop 2 demo_bridge) eq_refl)
    as (s1 & s2 & H1 & H2 & H3).
  exists s1, s2. split; [exact H1|]. split; [exact H2|]. rewrite H3.
  injection H1 as <-. reflexivity.
Defined.

(** ** Unit-id filters *)

Inductive UnitSegment := US_Id (id : Z) | US_Range (lo hi : Z).

Definition segment_ok (seg : UnitSegment) : Prop :=
  match seg with
  | US_Id id => is_uint 8 id
  | US_Range lo hi => is_uint 8 lo ∧ is_uint 8 hi ∧ lo <= hi
  end.

Definition segment_text (seg : UnitSegment) : list Z :=
  match seg with
  | US_Id id => int_display id
  | US_Range lo hi => int_display lo ++ [45] ++ int_display hi
  end.

Definition in_segment (unit : UnitId) (seg : UnitSegment) : Prop :=
  match seg with US_Id id => unit = id | US_Range lo hi => lo <= unit <= hi end.

Lemma u8_display v : is_uint 8 v → parse_unsigned 8 (int_display v) = Some v.
Proof.
  intros Hv. unfold parse_unsigned. rewrite from_str_radix_display; [done|lia|].
  unfold is_uint in Hv. unfold in_int, int_min, int_max. rewrite andb_true_iff, !Z.leb_le. lia.
Qed.

(** A decimal is made of digits. *)
Lemma u8_digits v : is_uint 8 v → Forall (λ c, 48 <= c <= 57) (int_display v) ∧ int_display v ≠ [].
Proof.
  intros Hv. unfold is_uint in Hv.
  assert (∀ n, (n < 256)%nat → forallb (λ c, (48 <=? c) && (c <=? 57)) (int_display (Z.of_nat n)) = true ∧
    int_display (Z.of_nat n) ≠ []) as Hall.
  { assert (forallb (λ n, forallb (λ c, (48 <=? c) && (c <=? 57)) (int_display (Z.of_nat n)) &&
      negb (bool_decide (int_display (Z.of_nat n) = []))) (seq 0 256) = true) as Hc by by vm_compute.
    rewrite forallb_forall in Hc. intros n Hn. specialize (Hc n (proj2 (in_seq 256 0 n) ltac:(lia))).
    apply andb_prop in Hc as [? Hne]. split; [done|]. by case_bool_decide. }
  destruct (Hall (Z.to_nat v)) as [Hd Hne]; [lia|]. rewrite Z2Nat.id in * by lia. split; [|done].
  apply list.Forall_forall. intros c Hc%list_elem_of_In. rewrite forallb_forall in Hd.
  specialize (Hd c Hc). zbool. lia.
Qed.

Lemma digits_no c (s : list Z) : ¬ 48 <= c <= 57 → Forall (λ c, 48 <= c <= 57) s → c ∉ s.
Proof. intros Hc Hs Hin. rewrite list.Forall_forall in Hs. by apply Hc, Hs. Qed.

Lemma digits_trim (s : list Z) : Forall (λ c, 48 <= c <= 57) s → trim s = s.
Proof. intros Hs. apply trim_graphic. eapply Forall_impl; [done|]. simpl. lia. Qed.

(** A segment's text is parsed as the segment. *)
Lemma segment_parsed seg :
  segment_ok seg →
  ∃ l, parse_segment (segment_text seg) = Ok l ∧ trim (segment_text seg) = segment_text seg ∧
    segment_text seg ≠ [] ∧ (44 ∉ segment_text seg) ∧ ∀ unit, unit ∈ l ↔ in_segment unit seg.
Proof.
  destruct seg as [id|lo hi]; simpl.
  - intros Hid. destruct (u8_digits id Hid) as [Hd Hne]. exists [id].
    split; [|split; [by apply digits_trim|split; [done|split; [apply digits_no; [lia|done]|]]]].
    + unfold parse_segment. rewrite split_once_None by (apply digits_no; [lia|done]). by rewrite u8_display.
    + intros unit. apply list_elem_of_singleton.
  - intros (Hlo & Hhi & Hle). destruct (u8_digits lo Hlo) as [Hd1 Hne], (u8_digits hi Hhi) as [Hd2 _].
    exists (seqZ lo (hi - lo + 1)). split; [|split; [|split; [|split]]].
    + unfold parse_segment. simpl. rewrite split_once_app by (apply digits_no; [lia|done]).
      rewrite !digits_trim, !u8_display by done. by rewrite (proj2 (Z.ltb_ge _ _)).
    + apply trim_graphic. apply Forall_app. split; [eapply Forall_impl; [exact Hd1|]; simpl; lia|].
      constructor; [lia|]. eapply Forall_impl; [exact Hd2|]. simpl. lia.
    + intros Hnil%(f_equal length). rewrite length_app in Hnil. simpl in Hnil. lia.
    + rewrite not_elem_of_app. split; [apply digits_no; [lia|done]|]. simpl. apply not_elem_of_cons.
      split; [done|]. apply digits_no; [lia|done].
    + intros unit. rewrite elem_of_seqZ. lia.
Qed.

(** The text of a list of ids and ranges is parsed as the filter that allows
    exactly the units of those. *)
Theorem unit_filter_roundtrip segs :
  Forall segment_ok segs →
  ∃ f, UnitIdFilter_parse (join 44 (segment_text <$> segs)) = Ok f ∧
    ∀ unit, allows f unit = true ↔ ∃ seg, seg ∈ segs ∧ in_segment unit seg.
Proof.
  intros Hok.
  assert (∀ ids, ∃ f, parse_segments ids (segment_text <$> segs) = Ok f ∧
    ∀ unit, unit ∈ f ↔ unit ∈ ids ∨ ∃ seg, seg ∈ segs ∧ in_segment unit seg) as Hgo.
  { induction Hok as [|seg segs Hseg Hsegs IH]; intros ids.
    { exists ids. split; [done|]. intros unit. split; [by left|]. intros [?|(seg & Hin & _)]; [done|].
      by apply not_elem_of_nil in Hin. }
    destruct (segment_parsed seg Hseg) as (l & Hp & Ht & Hne & _ & Hl). simpl. rewrite Ht.
    destruct (IH (ids ∪ list_to_set l)) as (f & Hf & Hin). exists f. split.
    { rewrite Hp. by destruct (segment_text seg). }
    intros unit. rewrite Hin, elem_of_union, elem_of_list_to_set, Hl. split.
    - intros [[?|?]|(s & ? & ?)]; [by left|right; exists seg|right; exists s];
        (split; [rewrite elem_of_cons; by auto|done]).
    - intros [?|(s & [->|?]%elem_of_cons & ?)]; [by left; left|by left; right|right; by exists s]. }
  destruct (Hgo ∅) as (f & Hf & Hin). exists f. split.
  - unfold UnitIdFilter_parse. destruct segs as [|seg segs']; [exact Hf|].
    rewrite split_join; [done|done|]. apply list.Forall_forall. intros t (s & -> & Hs)%list_elem_of_fmap.
    rewrite list.Forall_forall in Hok. by destruct (segment_parsed s (Hok s Hs)) as (_ & _ & _ & _ & ? & _).
  - intros unit. unfold allows. rewrite bool_decide_eq_true, Hin. split; [|by right].
    intros [?|?]; [|done]. by apply not_elem_of_empty in H.
Qed.

Lemma unit_filter_roundtrip_witness :
  ∃ f, UnitIdFilter_parse (bytes_of "1,3,5-8") = Ok f ∧ allows f 6 = true.
Proof.
  destruct (unit_filter_roundtrip [US_Id 1; US_Id 3; US_Range 5 8]) as (f & H1 & H2).
  - repeat constructor; by vm_compute.
  - exists f. split; [exact H1|]. apply H2. exists (US_Range 5 8).
    split; [apply list_elem_of_In; simpl; tauto|]. by vm_compute.
Defined.

(** A descriptor's reversed or malformed segment is named. *)
Lemma filter_errors :
  UnitIdFilter_parse (bytes_of "1, 8-5 ,x") = Err (SEG_Reversed (bytes_of "8-5")) ∧
  UnitIdFilter_parse (bytes_of "1,256") = Err (SEG_Invalid (bytes_of "256")).
Proof. by vm_compute. Qed.

(** An upstream serial link that ends is always an error. *)
Lemma rtu_upstream_lost {AE TLE RE} (eof : RE) (dflt : SerialConfig) baud data stop parity open serve r :
  run_rtu (AE := AE) (TLE := TLE) eof dflt baud data stop parity open serve = Ok r →
  ∃ e, r = Err (ER_Server e).
Proof.
  unfold run_rtu. destruct (serial_config_from _ _ _ _ _); [|done]. destruct open; [|done].
  intros [= <-]. destruct serve; by eexists.
Qed.
