(* ===== verification/Path.v ===== *)
(** * Paths

    Models [ferrowl-util/src/path.rs] on the paths of the standard library it
    uses, for Unix and as bytes: a leading root or current directory and the
    pieces between separators, of which empty ones and further dots name no
    component. The home and working directories are those of the environment.
    A relative path read from a file and resolved against the file's directory
    is written back as it was; a held path under that directory is found again
    from what is written. *)

From stdpp Require Import base list numbers strings.
From S2P Require Import Prelude IntText Text.

Local Open Scope Z_scope.

(** ** Paths of the standard library *)

Inductive Component := C_RootDir | C_CurDir | C_ParentDir | C_Normal (name : list Z).

#[export] Instance Component_eq_dec : EqDecision Component.
Proof. solve_decision. Defined.

Definition is_absolute (path : list Z) : bool :=
  match path with 47 :: _ => true | _ => false end.

(** The path starts with the component [.]. *)
Definition include_cur_dir (path : list Z) : bool :=
  match path with [46] | 46 :: 47 :: _ => true | _ => false end.

(** The component of one piece. *)
Definition parse_single (piece : list Z) : option Component :=
  if bool_decide (piece = []) || bool_decide (piece = [46]) then None
  else if bool_decide (piece = [46; 46]) then Some C_ParentDir
  else Some (C_Normal piece).

(** The first component, if it is one of the two that only start a path, and
    the pieces of the rest. *)
Definition path_start (path : list Z) : list Component :=
  if is_absolute path then [C_RootDir] else if include_cur_dir path then [C_CurDir] else [].

Definition path_pieces (path : list Z) : list (list Z) :=
  split 47 (drop (length (path_start path)) path).

(** [Path::components]; two paths are equal if these are. *)
Definition components (path : list Z) : list Component :=
  path_start path ++ omap parse_single (path_pieces path).

(** [Path::join]. *)
Definition path_join (base path : list Z) : list Z :=
  if is_absolute path then path
  else
    match list.last base with
    | None | Some 47 => base ++ path
    | Some _ => base ++ 47 :: path
    end.

(** Pieces without those at the front that name no component. *)
Fixpoint trim_pieces (pieces : list (list Z)) : list (list Z) :=
  match pieces with
  | [] => []
  | p :: pieces' => match parse_single p with None => trim_pieces pieces' | Some _ => pieces end
  end.

Definition trim_pieces_end (pieces : list (list Z)) : list (list Z) :=
  reverse (trim_pieces (reverse pieces)).

(** What is left of the pieces after the components [prefix]. *)
Fixpoint pieces_after (pieces : list (list Z)) (prefix : list Component) : option (list (list Z)) :=
  match prefix with
  | [] => Some pieces
  | c :: prefix' =>
      match pieces with
      | [] => None
      | p :: pieces' =>
          match parse_single p with
          | None => pieces_after pieces' prefix
          | Some c' => if decide (c = c') then pieces_after pieces' prefix' else None
          end
      end
  end.

(** [Path::strip_prefix]. *)
Definition path_strip_prefix (path base : list Z) : option (list Z) :=
  match components base with
  | [] =>
      let start := take (length (path_start path)) path in
      Some (start ++ join 47 (trim_pieces_end (path_pieces path)))
  | prefix =>
      let start := path_start path in
      let n := length start in
      if decide (take n prefix = start)
      then
        pieces ← pieces_after (path_pieces path) (drop n prefix);
        Some (join 47 (trim_pieces_end (trim_pieces pieces)))
      else None
  end.

(** [Path::parent]. *)
Definition path_parent (path : list Z) : option (list Z) :=
  let start := path_start path in
  match trim_pieces (reverse (path_pieces path)) with
  | _ :: pieces =>
      Some (take (length start) path ++ join 47 (reverse (trim_pieces pieces)))
  | [] => if decide (start = [C_CurDir]) then Some [] else None
  end.

(** ** The program's paths *)

(** [expand_with_home]; [expand] for the user's home directory. *)
Definition expand_with_home (path : list Z) (home : option (list Z)) : list Z :=
  match path, home with
  | 126 :: 47 :: rest, Some home => path_join home rest
  | [126], Some home => home
  | _, _ => path
  end.

Definition base_dir_of_with_cwd (home : option (list Z)) (file : list Z) (cwd : option (list Z))
  : list Z :=
  let parent := default [] (path_parent (expand_with_home file home)) in
  if is_absolute parent then parent
  else match cwd with Some cwd => path_join cwd parent | None => parent end.

Definition resolve_against (home : option (list Z)) (base path : list Z) : list Z :=
  if bool_decide (trim path = []) then path
  else
    let expanded := expand_with_home path home in
    if is_absolute expanded then expanded else path_join base expanded.

Definition relativize_under (base path : list Z) : list Z :=
  if bool_decide (trim path = []) then path
  else match path_strip_prefix path base with Some rest => rest | None => path end.

(** ** Pieces *)

Abbreviation skipped := (λ p, parse_single p = None).

Lemma trim_pieces_skip T Q : Forall skipped T → trim_pieces (T ++ Q) = trim_pieces Q.
Proof. induction 1 as [|p T Hp _ IH]; [done|]. simpl. by rewrite Hp. Qed.

Lemma omap_trim P : omap parse_single (trim_pieces P) = omap parse_single P.
Proof.
  induction P as [|p P IH]; [done|]. simpl. destruct (parse_single p) eqn:Hp; [|done].
  simpl. by rewrite Hp.
Qed.

Lemma omap_cons_pieces p P :
  omap parse_single (p :: P) = option_list (parse_single p) ++ omap parse_single P.
Proof. simpl. by destruct (parse_single p). Qed.

Lemma omap_snoc_pieces P p :
  omap parse_single (P ++ [p]) = omap parse_single P ++ option_list (parse_single p).
Proof. rewrite omap_app. simpl. by destruct (parse_single p). Qed.

Lemma omap_reverse_pieces P : omap parse_single (reverse P) = reverse (omap parse_single P).
Proof.
  induction P as [|p P IH]; [done|]. rewrite reverse_cons, omap_snoc_pieces, IH. simpl.
  destruct (parse_single p); simpl; [by rewrite reverse_cons|by rewrite app_nil_r].
Qed.

Lemma omap_trim_end P : omap parse_single (trim_pieces_end P) = omap parse_single P.
Proof.
  unfold trim_pieces_end. by rewrite omap_reverse_pieces, omap_trim, omap_reverse_pieces,
    reverse_involutive.
Qed.

(** What is trimmed is part of the pieces. *)
Lemma trim_pieces_suffix P : ∃ T, P = T ++ trim_pieces P.
Proof.
  induction P as [|p P [T IH]]; [by exists []|]. simpl. destruct (parse_single p); [by exists []|].
  exists (p :: T). simpl. by rewrite <-IH.
Qed.

Lemma trim_pieces_end_prefix P : ∃ T, P = trim_pieces_end P ++ T.
Proof.
  destruct (trim_pieces_suffix (reverse P)) as [T HT]. exists (reverse T).
  unfold trim_pieces_end. by rewrite <-reverse_app, <-HT, reverse_involutive.
Qed.

Lemma pieces_after_suffix P cs R : pieces_after P cs = Some R → ∃ T, P = T ++ R.
Proof.
  revert cs. induction P as [|p P IH]; intros [|c cs]; simpl;
    try (intros [= <-]; by exists []).
  destruct (parse_single p) as [c'|].
  - destruct (decide (c = c')); [|done]. intros [T ->]%IH. by exists (p :: T).
  - intros [T ->]%IH. by exists (p :: T).
Qed.

(** Taking the components of some pieces off leaves the others. *)
Lemma pieces_after_app P Q :
  ∃ T, Forall skipped T ∧ pieces_after (P ++ Q) (omap parse_single P) = Some (T ++ Q).
Proof.
  induction P as [|p P (T & HT & IH)]; [exists []; by destruct Q|]. simpl.
  destruct (parse_single p) as [c|] eqn:Hp; simpl.
  - destruct (decide (c = c)); [|done]. by exists T.
  - change (list_omap _ _ parse_single P) with (omap parse_single P).
    destruct (omap parse_single P) as [|c cs] eqn:Ho.
    + exists (p :: P). simpl. split; [|done]. constructor; [done|].
      clear -Ho. induction P as [|q P IH]; [done|]. simpl in Ho.
      destruct (parse_single q) eqn:Hq; [done|]. constructor; [done|by apply IH].
    + by exists T.
Qed.

Lemma pieces_after_sound P cs R :
  pieces_after P cs = Some R → omap parse_single P = cs ++ omap parse_single R.
Proof.
  revert cs. induction P as [|p P IH]; intros [|c cs]; try (by intros [= <-]).
  rewrite omap_cons_pieces. simpl.
  destruct (parse_single p) as [c'|]; simpl; [|by intros ->%IH].
  destruct (decide (c = c')) as [->|]; [|done]. by intros ->%IH.
Qed.

(** ** Joining *)

Lemma absolute_start base : is_absolute base = true →
  ∃ t, base = 47 :: t ∧ path_start base = [C_RootDir] ∧ path_pieces base = split 47 t.
Proof.
  intros H. unfold path_pieces, path_start. rewrite H. destruct base as [|x t]; [done|].
  exists t. simpl in H. destruct x as [|x|x]; try done. by do 6 (destruct x; try done).
Qed.

(** A relative path joined to an absolute base adds its pieces. *)
Lemma join_pieces base q :
  is_absolute base = true → is_absolute q = false →
  is_absolute (path_join base q) = true ∧
  ∃ P, path_pieces (path_join base q) = P ++ split 47 q ∧
       components base = C_RootDir :: omap parse_single P.
Proof.
  intros Hb Hq. destruct (absolute_start base Hb) as (t & Hbase & Hs & Hp).
  assert (∃ u, path_join base q = 47 :: u ∧
    ∃ P, split 47 u = P ++ split 47 q ∧ omap parse_single (split 47 t) = omap parse_single P)
    as (u & Hu & P & HP & Ht).
  { unfold path_join. rewrite Hq, Hbase. destruct t as [|a t'] using rev_ind.
    - exists q. simpl. split; [done|]. by exists [].
    - clear IHt'. rewrite app_comm_cons, last_snoc.
      destruct (decide (a = 47)) as [->|Ha].
      + exists (t' ++ 47 :: q). split; [by rewrite app_comm_cons, <-app_assoc|].
        exists (split 47 t'). rewrite !split_app_sep. split; [done|].
        rewrite omap_app. simpl. by rewrite app_nil_r.
      + exists ((t' ++ [a]) ++ 47 :: q). split.
        * destruct a as [|a|a]; try done. by do 6 (destruct a; try done).
        * exists (split 47 (t' ++ [a])). by rewrite split_app_sep. }
  split; [by rewrite Hu|]. exists P. unfold components. rewrite Hs, Hp, Ht. split; [|done].
  rewrite Hu. exact HP.
Qed.

(** Text with a byte that no white space holds is not blank. *)
Lemma strip_all_last n cs s b :
  Forall (λ c, b ∉ c) cs → ∃ t, strip_all n cs (s ++ [b]) = t ++ [b].
Proof.
  intros Hcs. revert s. induction n as [|n IH]; intros s; simpl; [by eexists|].
  destruct (strip_any cs (s ++ [b])) as [t|] eqn:Ht; [|by eexists].
  assert (∃ u, t = u ++ [b]) as [u ->]; [|apply IH].
  clear IH. induction Hcs as [|c cs Hc _ IHc]; simpl in Ht; [done|].
  destruct (strip_prefix c (s ++ [b])) as [t'|] eqn:Hp; [|by apply IHc].
  injection Ht as ->. apply strip_prefix_Some in Hp.
  destruct t as [|x t' _] using rev_ind.
  - exfalso. apply Hc. rewrite app_nil_r in Hp. rewrite <-Hp. apply elem_of_app. right. by constructor.
  - rewrite app_assoc in Hp. apply app_inj_tail in Hp as [_ ->]. by exists t'.
Qed.

Lemma absolute_not_blank path : is_absolute path = true → trim path ≠ [].
Proof.
  intros H. destruct (absolute_start path H) as (t & -> & _). unfold trim, trim_start, trim_end.
  rewrite (strip_all_id _ 47 t); [|done|intros c Hc; by apply elem_of_app; left].
  rewrite reverse_cons.
  destruct (strip_all_last (length (47 :: t)) (reverse <$> white_space) (reverse t) 47) as [u Hu].
  { apply list.Forall_forall. intros c Hc.
    assert (forallb (λ c, bool_decide (47 ∉ c)) (reverse <$> white_space) = true) as Hf by reflexivity.
    rewrite forallb_forall in Hf. apply list_elem_of_In, Hf in Hc. by apply bool_decide_eq_true in Hc. }
  rewrite Hu, reverse_snoc. done.
Qed.

(** ** Writing and reading back *)

(** The path starts and ends with a name and is not blank. *)
Definition plain_path (q : list Z) : Prop :=
  trim_pieces (split 47 q) = split 47 q ∧ trim_pieces_end (split 47 q) = split 47 q ∧ trim q ≠ [].

(** The home directory has no say in what the path means. *)
Definition no_home (home : option (list Z)) (q : list Z) : Prop := expand_with_home q home = q.

Lemma trimmed_head P : trim_pieces P = P →
  match P with [] => True | p :: _ => parse_single p ≠ None end.
Proof.
  destruct P as [|p P]; [done|]. simpl. destruct (parse_single p); [done|]. intros H _.
  destruct (trim_pieces_suffix P) as [T HT]. apply (f_equal length) in HT.
  rewrite length_app, H in HT. simpl in HT. lia.
Qed.

Lemma not_absolute_47 q : is_absolute q = false → head q ≠ Some 47.
Proof. by destruct q as [|x q]; [|intros H [= ->]]. Qed.

(** A path whose first piece is a name is relative and has no leading dot. *)
Lemma trimmed_relative q :
  trim_pieces (split 47 q) = split 47 q → path_start q = [].
Proof.
  intros H%trimmed_head. unfold path_start.
  destruct (is_absolute q) eqn:Ha.
  { destruct (absolute_start q Ha) as (t & -> & _). done. }
  destruct (include_cur_dir q) eqn:Hc; [|done]. exfalso.
  assert (q = [46] ∨ ∃ t, q = 46 :: 47 :: t) as [-> | [t ->]]; [|done|done].
  destruct q as [|x q]; [done|].
  assert (x = 46) as ->.
  { destruct x as [|x|x]; try done. by do 6 (destruct x; try done). }
  destruct q as [|y q]; [by left|]. right. exists q.
  assert (y = 47) as ->; [|done]. destruct y as [|y|y]; try done. by do 6 (destruct y; try done).
Qed.

Lemma relative_start q : path_start q = [] → is_absolute q = false.
Proof. unfold path_start. by destruct (is_absolute q). Qed.

(** What the prefix of a joined path leaves. *)
Lemma strip_joined base q :
  is_absolute base = true → plain_path q → path_strip_prefix (path_join base q) base = Some q.
Proof.
  intros Hb (Hh & Hl & _). pose proof (relative_start q (trimmed_relative q Hh)) as Hq.
  destruct (join_pieces base q Hb Hq) as (Hj & P & HP & Hc).
  destruct (absolute_start _ Hj) as (u & _ & Hs & _).
  unfold path_strip_prefix. rewrite Hc, Hs, HP. cbn [length take drop].
  rewrite take_0, drop_0. destruct (decide ([C_RootDir] = [C_RootDir])); [|done].
  destruct (pieces_after_app P (split 47 q)) as (T & HT & ->). cbn [mbind option_bind].
  by rewrite (trim_pieces_skip T _ HT), Hh, Hl, join_split.
Qed.

(** A relative path read from a file in [base] is written back unchanged. *)
Lemma relativize_resolved home base q :
  is_absolute base = true → plain_path q → no_home home q →
  relativize_under base (resolve_against home base q) = q.
Proof.
  intros Hb Hp Hh. pose proof Hp as (Hh1 & _ & Hne).
  pose proof (relative_start q (trimmed_relative q Hh1)) as Hq.
  unfold resolve_against. rewrite bool_decide_false by done.
  unfold no_home in Hh. rewrite Hh, Hq.
  destruct (join_pieces base q Hb Hq) as (Hj & _). unfold relativize_under.
  rewrite bool_decide_false by by apply absolute_not_blank. by rewrite strip_joined.
Qed.

Lemma trim_both_head R : trim_pieces (trim_pieces_end (trim_pieces R)) =
  trim_pieces_end (trim_pieces R).
Proof.
  assert (∀ P, trim_pieces (trim_pieces P) = trim_pieces P) as Hid.
  { intros P. induction P as [|p P IH]; [done|]. simpl. destruct (parse_single p) eqn:Hp; [|done].
    simpl. by rewrite Hp. }
  specialize (Hid R). set (P := trim_pieces R) in *.
  destruct (trim_pieces_end_prefix P) as [T HT].
  destruct (trim_pieces_end P) as [|p L]; [done|].
  apply trimmed_head in Hid. rewrite HT in Hid. simpl in *. by destruct (parse_single p).
Qed.

(** The path that a stripped prefix leaves, read as one. *)
Lemma stripped_components path base rest :
  is_absolute base = true → path_strip_prefix path base = Some rest →
  is_absolute path = true ∧
  components path = components base ++ omap parse_single (split 47 rest) ∧
  (rest ≠ [] → path_start rest = []).
Proof.
  intros Hb Hrest. destruct (absolute_start base Hb) as (t & _ & Hbs & Hbp).
  unfold path_strip_prefix in Hrest. unfold components in Hrest at 1. rewrite Hbs in Hrest.
  simpl in Hrest. destruct (decide _) as [Hd|]; [|done].
  destruct (pieces_after _ _) as [R|] eqn:HR; [|done]. simpl in Hrest. injection Hrest as Hrest.
  destruct (is_absolute path) eqn:Hp.
  2: { exfalso. unfold path_start in Hd, HR. rewrite Hp in Hd, HR.
       destruct (include_cur_dir path); [done|]. apply pieces_after_sound in HR.
       assert (C_RootDir ∈ omap parse_single (path_pieces path)) as Hin
         by (rewrite HR; apply elem_of_app; left; constructor).
       apply list_elem_of_omap in Hin as (p & _ & Hpp). unfold parse_single in Hpp.
       by repeat case_bool_decide. }
  split; [done|]. destruct (absolute_start path Hp) as (u & _ & Hs & Hpp).
  unfold components. rewrite Hs, Hbs. rewrite Hs in HR. simpl in HR.
  set (L := trim_pieces_end (trim_pieces R)) in *.
  assert (L = [] ∨ split 47 rest = L) as HL.
  { destruct (decide (L = [])); [by left|]. right. rewrite <-Hrest. apply split_join; [done|].
    destruct (pieces_after_suffix _ _ _ HR) as [T1 HT1].
    destruct (trim_pieces_suffix R) as [T2 HT2].
    destruct (trim_pieces_end_prefix (trim_pieces R)) as [T3 HT3].
    pose proof (split_pieces 47 u) as Hf. rewrite <-Hpp, HT1, HT2, HT3 in Hf.
    by rewrite !Forall_app in Hf; destruct_and!. }
  split.
  - rewrite (pieces_after_sound _ _ _ HR), Hbp. simpl. f_equal. f_equal.
    rewrite <-(omap_trim R), <-(omap_trim_end (trim_pieces R)). fold L.
    destruct HL as [HL|HL]; [|by rewrite HL]. rewrite HL. rewrite HL in Hrest. by rewrite <-Hrest.
  - intros Hne. apply trimmed_relative. destruct HL as [HL|HL].
    + rewrite HL in Hrest. by rewrite <-Hrest in Hne.
    + rewrite HL. apply trim_both_head.
Qed.

(** An absolute path that lies under the file's directory is written so that
    it names the same components when it is read back from there, unless what
    is written is blank or begins with the home directory's sign; any other
    absolute path is written and read back unchanged. *)
Theorem saved_path_found home base path :
  is_absolute base = true → is_absolute path = true →
  let saved := relativize_under base path in
  trim saved ≠ [] → no_home home saved →
  components (resolve_against home base saved) = components path ∧
  (is_absolute saved = true → saved = path).
Proof.
  intros Hb Hp saved Hne Hh. unfold resolve_against. rewrite bool_decide_false by done.
  unfold no_home in Hh. rewrite Hh. subst saved. unfold relativize_under in *.
  rewrite bool_decide_false in * by by apply absolute_not_blank.
  destruct (path_strip_prefix path base) as [rest|] eqn:Hr; [|by rewrite Hp].
  destruct (stripped_components path base rest Hb Hr) as (_ & Hc & Hs).
  assert (path_start rest = []) as Hrs by (apply Hs; by intros ->).
  pose proof (relative_start rest Hrs) as Ha. rewrite Ha. split; [|done].
  destruct (join_pieces base rest Hb Ha) as (Hj & P & HP & Hcb).
  destruct (absolute_start _ Hj) as (_ & _ & Hjs & _).
  unfold components at 1. rewrite Hjs, HP, omap_app, Hc, Hcb. done.
Qed.

Lemma saved_path_found_witness :
  components (resolve_against (Some (bytes_of "/home/me")) (bytes_of "/etc/ferrowl/")
    (bytes_of "sub/dev.toml")) =
  [C_RootDir; C_Normal (bytes_of "etc"); C_Normal (bytes_of "ferrowl"); C_Normal (bytes_of "sub");
   C_Normal (bytes_of "dev.toml")].
Proof.
  refine (eq_trans (proj1 (saved_path_found (Some (bytes_of "/home/me"))
    (bytes_of "/etc/ferrowl/") (bytes_of "/etc//ferrowl/./sub/dev.toml") _ _ _ _)) _).
  - reflexivity.
  - reflexivity.
  - vm_compute. discriminate.
  - reflexivity.
  - vm_compute. reflexivity.
Defined.

(** A path in a directory named [~] under the file's directory is written with
    that name first, and so read back as a path of the home directory. *)
Theorem tilde_directory_lost :
  let base := bytes_of "/etc/ferrowl" in
  let saved := relativize_under base (bytes_of "/etc/ferrowl/~/cert.pem") in
  saved = bytes_of "~/cert.pem" ∧
  resolve_against (Some (bytes_of "/home/me")) base saved = bytes_of "/home/me/cert.pem".
Proof. by vm_compute. Qed.
