(* ===== verification/TlsMaterial.v ===== *)
(** * TLS policies and material

    Models [ferrowl-util/src/tls.rs], what a configuration says about an
    endpoint's own certificate and the verification of its peer's, and how the
    OCPP crate ([ferrowl-ocpp/src/security.rs]) and the Modbus crate
    ([ferrowl-modbus/src/tcp/tls.rs]) turn a policy into the material of a
    connection: files, trust anchors, and the self-signed pair that is
    generated once and cached. Reading and parsing PEM files, generating
    certificates and assembling a configuration are the libraries'. *)

From stdpp Require Import base list numbers strings.
From S2P Require Import Prelude IntText Text Path.

Inductive PolicyError := PE_EmptyCaFiles | PE_EphemeralClientIdentity | PE_RootStoreOnServer.

Inductive CertSource :=
| CS_Ephemeral
| CS_SelfSigned
| CS_Files (cert_file key_file : list Z).

Inductive CertVerification :=
| CV_Skip
| CV_RootStore (extra_ca_files : list (list Z))
| CV_CaFiles (ca_files : list (list Z)).

Inductive ServerTlsPolicy :=
| SP_None
| SP_Tls (identity : CertSource)
| SP_Mutual (identity : CertSource) (verification : CertVerification).

Inductive ClientTlsPolicy :=
| CP_None
| CP_Tls (verification : CertVerification)
| CP_Mutual (verification : CertVerification) (identity : CertSource).

(** A rewriting of every path of a policy. *)
Definition cert_source_paths (f : list Z → list Z) (source : CertSource) : CertSource :=
  match source with
  | CS_Files cert_file key_file => CS_Files (f cert_file) (f key_file)
  | _ => source
  end.

Definition verification_paths (f : list Z → list Z) (v : CertVerification) : CertVerification :=
  match v with
  | CV_RootStore files => CV_RootStore (f <$> files)
  | CV_CaFiles files => CV_CaFiles (f <$> files)
  | CV_Skip => CV_Skip
  end.

Definition server_policy_paths (f : list Z → list Z) (p : ServerTlsPolicy) : ServerTlsPolicy :=
  match p with
  | SP_None => SP_None
  | SP_Tls identity => SP_Tls (cert_source_paths f identity)
  | SP_Mutual identity verification =>
      SP_Mutual (cert_source_paths f identity) (verification_paths f verification)
  end.

Definition client_policy_paths (f : list Z → list Z) (p : ClientTlsPolicy) : ClientTlsPolicy :=
  match p with
  | CP_None => CP_None
  | CP_Tls verification => CP_Tls (verification_paths f verification)
  | CP_Mutual verification identity =>
      CP_Mutual (verification_paths f verification) (cert_source_paths f identity)
  end.

(** [resolve_paths] and [relativize_paths] of the two policies. *)
Definition server_resolve_paths (home : option (list Z)) (base : list Z) :=
  server_policy_paths (resolve_against home base).
Definition server_relativize_paths (base : list Z) := server_policy_paths (relativize_under base).
Definition client_resolve_paths (home : option (list Z)) (base : list Z) :=
  client_policy_paths (resolve_against home base).
Definition client_relativize_paths (base : list Z) := client_policy_paths (relativize_under base).

Definition ServerTlsPolicy_validate (p : ServerTlsPolicy) : Result unit PolicyError :=
  match p with
  | SP_Mutual _ (CV_CaFiles []) => Err PE_EmptyCaFiles
  | SP_Mutual _ (CV_RootStore _) => Err PE_RootStoreOnServer
  | _ => Ok tt
  end.

Definition ClientTlsPolicy_validate (p : ClientTlsPolicy) : Result unit PolicyError :=
  match p with
  | CP_Tls (CV_CaFiles []) => Err PE_EmptyCaFiles
  | CP_Mutual (CV_CaFiles []) _ => Err PE_EmptyCaFiles
  | CP_Mutual _ CS_Ephemeral => Err PE_EphemeralClientIdentity
  | _ => Ok tt
  end.

(** ** The files of a policy *)

Definition source_files (source : CertSource) : list (list Z) :=
  match source with CS_Files cert_file key_file => [cert_file; key_file] | _ => [] end.

Definition verification_files (v : CertVerification) : list (list Z) :=
  match v with CV_RootStore files | CV_CaFiles files => files | CV_Skip => [] end.

Definition server_policy_files (p : ServerTlsPolicy) : list (list Z) :=
  match p with
  | SP_None => []
  | SP_Tls identity => source_files identity
  | SP_Mutual identity verification => source_files identity ++ verification_files verification
  end.

Definition client_policy_files (p : ClientTlsPolicy) : list (list Z) :=
  match p with
  | CP_None => []
  | CP_Tls verification => verification_files verification
  | CP_Mutual verification identity => verification_files verification ++ source_files identity
  end.

Section roundtrip.
Context (f g : list Z → list Z).

Lemma source_paths_cancel source :
  Forall (λ p, g (f p) = p) (source_files source) →
  cert_source_paths g (cert_source_paths f source) = source.
Proof. destruct source; simpl; [done|done|]. rewrite !Forall_cons. by intros (-> & -> & _). Qed.

Lemma verification_paths_cancel v :
  Forall (λ p, g (f p) = p) (verification_files v) →
  verification_paths g (verification_paths f v) = v.
Proof.
  assert (∀ l, Forall (λ p, g (f p) = p) l → g <$> (f <$> l) = l) as Hl.
  { intros l Hl. rewrite <-list_fmap_compose. rewrite <-(list_fmap_id l) at 2.
    apply list_fmap_ext. intros i p Hp. by eapply Forall_lookup_1 in Hl. }
  destruct v; simpl; [done| |]; intros; by rewrite Hl.
Qed.
End roundtrip.

(** A policy whose paths are plain is saved as it was loaded. *)
Definition portable (home : option (list Z)) (files : list (list Z)) : Prop :=
  Forall (λ p, plain_path p ∧ no_home home p) files.

Lemma portable_cancel home base files :
  is_absolute base = true → portable home files →
  Forall (λ p, relativize_under base (resolve_against home base p) = p) files.
Proof.
  intros Hb Hf. eapply Forall_impl; [exact Hf|]. intros p [Hp Hh]. by apply relativize_resolved.
Qed.

(** The relative paths of a TLS policy, resolved against the directory of the
    file it was read from, are written back to that directory as they were:
    loading and saving a policy changes nothing in it. *)
Theorem policy_paths_roundtrip home base server client :
  is_absolute base = true →
  portable home (server_policy_files server) → portable home (client_policy_files client) →
  server_relativize_paths base (server_resolve_paths home base server) = server ∧
  client_relativize_paths base (client_resolve_paths home base client) = client ∧
  ServerTlsPolicy_validate (server_resolve_paths home base server) =
    ServerTlsPolicy_validate server ∧
  ClientTlsPolicy_validate (client_resolve_paths home base client) =
    ClientTlsPolicy_validate client.
Proof.
  intros Hb Hs%(portable_cancel _ base) Hc%(portable_cancel _ base); [|done|done]. split_and!.
  - destruct server as [|i|i v]; simpl in *; [done| |].
    + unfold server_relativize_paths, server_resolve_paths. simpl. by rewrite source_paths_cancel.
    + apply Forall_app in Hs as [H1 H2]. unfold server_relativize_paths, server_resolve_paths. simpl.
      by rewrite source_paths_cancel, verification_paths_cancel.
  - destruct client as [|v|v i]; simpl in *; [done| |].
    + unfold client_relativize_paths, client_resolve_paths. simpl.
      by rewrite verification_paths_cancel.
    + apply Forall_app in Hc as [H1 H2]. unfold client_relativize_paths, client_resolve_paths. simpl.
      by rewrite source_paths_cancel, verification_paths_cancel.
  - by destruct server as [| |i [| |[]]].
  - by destruct client as [|[| |[]]|[| |[]] []].
Qed.

Definition demo_server_policy : ServerTlsPolicy :=
  SP_Mutual (CS_Files (bytes_of "tls/cert.pem") (bytes_of "tls/key.pem"))
    (CV_CaFiles [bytes_of "ca.pem"]).
Definition demo_client_policy : ClientTlsPolicy :=
  CP_Mutual (CV_RootStore [bytes_of "../ca.pem"]) CS_SelfSigned.

Lemma policy_paths_roundtrip_witness :
  server_relativize_paths (bytes_of "/etc/ferrowl")
    (server_resolve_paths None (bytes_of "/etc/ferrowl") demo_server_policy) = demo_server_policy.
Proof.
  refine (proj1 (policy_paths_roundtrip None (bytes_of "/etc/ferrowl") demo_server_policy
    demo_client_policy _ _ _)).
  - reflexivity.
  - repeat constructor; vm_compute; discriminate.
  - repeat constructor; vm_compute; discriminate.
Defined.

(** ** State and errors *)

(** The self-signed cache, and how many key pairs were generated so far, which
    is what the generator's answers depend on. *)
Record TlsState (Cert Key : Type) := mkTlsState {
  ts_cache : option (list Cert * Key);
  ts_generated : nat
}.
Arguments mkTlsState {Cert Key}.
Arguments ts_cache {Cert Key}.
Arguments ts_generated {Cert Key}.

Inductive SelfSignedStep := SS_CertGeneration | SS_KeyGeneration | SS_KeyEncoding.

(** The error types of the two crates. *)
Inductive OcTlsError (IE GE RE : Type) :=
| OT_Io (path : list Z) (source : IE)
| OT_NoCertificates (path : list Z)
| OT_NoPrivateKey (path : list Z)
| OT_EmptyCaFiles
| OT_EphemeralClientIdentity
| OT_RootStoreOnServer
| OT_ClientVerifier (detail : string)
| OT_SelfSignedGen (e : GE)
| OT_SelfSignedKeyEncoding (detail : string)
| OT_Rustls (e : RE).
Arguments OT_Io {IE GE RE}.
Arguments OT_NoCertificates {IE GE RE}.
Arguments OT_NoPrivateKey {IE GE RE}.
Arguments OT_EmptyCaFiles {IE GE RE}.
Arguments OT_EphemeralClientIdentity {IE GE RE}.
Arguments OT_RootStoreOnServer {IE GE RE}.
Arguments OT_ClientVerifier {IE GE RE}.
Arguments OT_SelfSignedGen {IE GE RE}.
Arguments OT_SelfSignedKeyEncoding {IE GE RE}.
Arguments OT_Rustls {IE GE RE}.

Inductive MbTlsError (IE GE RE : Type) :=
| MT_Io (path : list Z) (source : IE)
| MT_Pem (path : list Z) (source : RE)
| MT_NoCertificates (path : list Z)
| MT_EmptyCaFiles
| MT_EphemeralClientIdentity
| MT_RootStoreOnServer
| MT_SelfSigned (step : SelfSignedStep) (detail : GE).
Arguments MT_Io {IE GE RE}.
Arguments MT_Pem {IE GE RE}.
Arguments MT_NoCertificates {IE GE RE}.
Arguments MT_EmptyCaFiles {IE GE RE}.
Arguments MT_EphemeralClientIdentity {IE GE RE}.
Arguments MT_RootStoreOnServer {IE GE RE}.
Arguments MT_SelfSigned {IE GE RE}.

Definition oc_policy_error {IE GE RE} (e : PolicyError) : OcTlsError IE GE RE :=
  match e with
  | PE_EmptyCaFiles => OT_EmptyCaFiles
  | PE_EphemeralClientIdentity => OT_EphemeralClientIdentity
  | PE_RootStoreOnServer => OT_RootStoreOnServer
  end.

Definition mb_policy_error {IE GE RE} (e : PolicyError) : MbTlsError IE GE RE :=
  match e with
  | PE_EmptyCaFiles => MT_EmptyCaFiles
  | PE_EphemeralClientIdentity => MT_EphemeralClientIdentity
  | PE_RootStoreOnServer => MT_RootStoreOnServer
  end.

(** Steps that may fail and use the cache. *)
Definition TlsM (St E A : Type) : Type := St → Result A E * St.

#[export] Instance tls_ret {St E} : MRet (TlsM St E) := λ A a s, (Ok a, s).
#[export] Instance tls_bind {St E} : MBind (TlsM St E) := λ A B f m s,
  match m s with (Ok a, s') => f a s' | (Err e, s') => (Err e, s') end.

Definition tls_fail {St E A} (e : E) : TlsM St E A := λ s, (Err e, s).

(** A library's answer under the crate's error. *)
Definition tls_lift {St E E' A} (wrap : E' → E) (r : Result A E') : TlsM St E A :=
  λ s, (match r with Ok a => Ok a | Err e => Err (wrap e) end, s).

Fixpoint tls_fold {St E A B} (f : A → B → TlsM St E A) (l : list B) (a : A) : TlsM St E A :=
  match l with
  | [] => mret a
  | b :: l' => a' ← f a b; tls_fold f l' a'
  end.

(** ** The parameters *)

(** [rcgen]: parameters for some names under a common name, the [n]-th key pair,
    and the signed certificate; each step's failure. [rustls] and its PEM
    reader; [RE] is its error. *)
Class TlsLib (Cert Key Params KeyPair Roots IE GE RE : Type) := {
  certificate_params : list (list Z) → string → Result Params GE;
  generate_key : nat → Result KeyPair GE;
  self_signed : Params → KeyPair → Result Cert GE;
  serialize_key : KeyPair → Result Key GE;
  roots_empty : Roots;
  roots_default : Roots
}.

(** What only the OCPP crate uses: PEM readers whose key reader answers [None]
    for a file without a key, single certificates added to a store. *)
Class OcTls (Cert Key Roots Verifier CConfig SConfig IE RE : Type) := {
  pem_certs : list Z → Result (list Cert) IE;
  pem_key : list Z → Result Key (option IE);
  roots_add : Roots → Cert → Result Roots RE;
  client_verifier : Roots → Result Verifier string;
  with_client_auth_cert : option Roots → list Cert → Key → Result CConfig RE;
  with_no_client_auth : option Roots → CConfig;
  with_single_cert : option (option Verifier) → list Cert → Key → Result SConfig RE
}.

(** What only the Modbus crate uses: files read as bytes, and the protocol
    library's PEM parsers. *)
Class MbTls (Cert Key Roots IE RE : Type) := {
  fs_read : list Z → Result (list Z) IE;
  load_pem_cert_chain : list Z → Result (list Cert) RE;
  load_pem_private_key : list Z → Result Key RE;
  roots_add_pem : Roots → list Z → Result Roots RE
}.

Section ocpp.
Context {Cert Key Params KeyPair Roots Verifier CConfig SConfig IE GE RE : Type}.
Context `{!TlsLib Cert Key Params KeyPair Roots IE GE RE}.
Context `{!OcTls Cert Key Roots Verifier CConfig SConfig IE RE}.
Context (home : option (list Z)) (key_encoding_text : GE → string).

Abbreviation M := (TlsM (TlsState Cert Key) (OcTlsError IE GE RE)).

Definition oc_load_certs (path : list Z) : M (list Cert) :=
  certs ← tls_lift (OT_Io path) (pem_certs (expand_with_home path home));
  match certs with [] => tls_fail (OT_NoCertificates path) | _ => mret certs end.

Definition oc_load_private_key (path : list Z) : M Key :=
  tls_lift (λ e, match e with None => OT_NoPrivateKey path | Some io => OT_Io path io end)
    (pem_key (expand_with_home path home)).

(** The names of a generated certificate. *)
Definition san_names (host : list Z) : list (list Z) :=
  host :: if bool_decide (host = bytes_of "localhost") then [] else [bytes_of "localhost"].

(** One more key pair was generated. *)
Definition count_key (s : TlsState Cert Key) : TlsState Cert Key :=
  mkTlsState (ts_cache s) (S (ts_generated s)).

Definition oc_generate_self_signed (host : list Z) : M (list Cert * Key) :=
  params ← tls_lift OT_SelfSignedGen (certificate_params (san_names host) "ferrowl CSMS");
  key_pair ← ((λ s, tls_lift OT_SelfSignedGen (generate_key (ts_generated s)) (count_key s))
              : M KeyPair);
  cert ← tls_lift OT_SelfSignedGen (self_signed params key_pair);
  key ← tls_lift (λ e, OT_SelfSignedKeyEncoding (key_encoding_text e)) (serialize_key key_pair);
  mret ([cert], key).

Definition oc_resolve_self_signed (host : list Z) : M (list Cert * Key) := λ s,
  match ts_cache s with
  | Some material => (Ok material, s)
  | None =>
      match oc_generate_self_signed host s with
      | (Ok material, s') => (Ok material, mkTlsState (Some material) (ts_generated s'))
      | (Err e, s') => (Err e, s')
      end
  end.

(** Every certificate of every file, added to a store. *)
Definition oc_trust (roots : Roots) (files : list (list Z)) : M Roots :=
  tls_fold (λ roots path,
    certs ← oc_load_certs path;
    tls_fold (λ roots cert, tls_lift OT_Rustls (roots_add roots cert)) certs roots) files roots.

Inductive Connector := CN_Plain | CN_Rustls (config : CConfig).

(** The roots a client verifies the server by; [None]: any certificate. *)
Definition oc_server_verification (v : CertVerification) : M (option Roots) :=
  match v with
  | CV_Skip => mret None
  | CV_RootStore extra_ca_files => roots ← oc_trust roots_default extra_ca_files; mret (Some roots)
  | CV_CaFiles ca_files => roots ← oc_trust roots_empty ca_files; mret (Some roots)
  end.

Definition build_connector (policy : ClientTlsPolicy) : M Connector :=
  _ ← tls_lift oc_policy_error (ClientTlsPolicy_validate policy);
  match policy with
  | CP_None => mret CN_Plain
  | CP_Tls verification =>
      roots ← oc_server_verification verification;
      mret (CN_Rustls (with_no_client_auth roots))
  | CP_Mutual verification identity =>
      roots ← oc_server_verification verification;
      config ←
        (match identity with
         | CS_Files cert_file key_file =>
             certs ← oc_load_certs cert_file;
             key ← oc_load_private_key key_file;
             tls_lift OT_Rustls (with_client_auth_cert roots certs key)
         | CS_SelfSigned =>
             '(chain, key) ← oc_resolve_self_signed (bytes_of "ferrowl-ocpp-client");
             tls_lift OT_Rustls (with_client_auth_cert roots chain key)
         | CS_Ephemeral => tls_fail OT_EphemeralClientIdentity
         end);
      mret (CN_Rustls config)
  end.

Definition clear_cache {E} : TlsM (TlsState Cert Key) E unit :=
  λ s, (Ok tt, mkTlsState None (ts_generated s)).

(** The presented pair, and whether it is an unrequested fallback. *)
Definition oc_resolve_server_identity (identity : CertSource) (host : list Z)
  : M (list Cert * Key * bool) :=
  match identity with
  | CS_SelfSigned => material ← oc_resolve_self_signed host; mret (material, false)
  | CS_Files cert_file key_file =>
      _ ← clear_cache;
      certs ← oc_load_certs cert_file;
      key ← oc_load_private_key key_file;
      mret (certs, key, false)
  | CS_Ephemeral => material ← oc_resolve_self_signed host; mret (material, true)
  end.

(** The verifier of client certificates: none asked for, any accepted, or one
    signed by a trusted authority. *)
Definition oc_client_verification (v : option CertVerification) : M (option (option Verifier)) :=
  match v with
  | None => mret None
  | Some (CV_CaFiles ca_files) =>
      roots ← oc_trust roots_empty ca_files;
      verifier ← tls_lift OT_ClientVerifier (client_verifier roots);
      mret (Some (Some verifier))
  | Some CV_Skip => mret (Some None)
  | Some (CV_RootStore _) => tls_fail OT_RootStoreOnServer
  end.

Definition build_server_config (policy : ServerTlsPolicy) (host : list Z)
  : M (option (SConfig * bool)) :=
  _ ← tls_lift oc_policy_error (ServerTlsPolicy_validate policy);
  let build identity verification :=
    '(certs, key, used_fallback) ← oc_resolve_server_identity identity host;
    client_auth ← oc_client_verification verification;
    config ← tls_lift OT_Rustls (with_single_cert client_auth certs key);
    mret (Some (config, used_fallback)) in
  match policy with
  | SP_None => mret None
  | SP_Tls identity => build identity None
  | SP_Mutual identity verification => build identity (Some verification)
  end.
End ocpp.
Arguments Connector : clear implicits.
Arguments CN_Plain {CConfig}.
Arguments CN_Rustls {CConfig}.

Section modbus.
Context {Cert Key Params KeyPair Roots IE GE RE : Type}.
Context `{!TlsLib Cert Key Params KeyPair Roots IE GE RE} `{!MbTls Cert Key Roots IE RE}.
Context (home : option (list Z)).

Abbreviation M := (TlsM (TlsState Cert Key) (MbTlsError IE GE RE)).

(** Both policies of an endpoint. *)
Record ModbusTlsConfig := mkModbusTlsConfig {
  mtc_server : ServerTlsPolicy; mtc_client : ClientTlsPolicy
}.

Definition ModbusTlsConfig_is_none (c : ModbusTlsConfig) : bool :=
  match mtc_server c, mtc_client c with SP_None, CP_None => true | _, _ => false end.

Definition read_pem (path : list Z) : M (list Z) :=
  tls_lift (MT_Io path) (fs_read (expand_with_home path home)).

(** [load(&read_pem(path)?).map_err(pem_err(path))?]. *)
Definition mb_load {A} (load : list Z → Result A RE) (path : list Z) : M A :=
  pem ← read_pem path; tls_lift (MT_Pem path) (load pem).

Definition mb_generate_self_signed (host : list Z) : M (list Cert * Key) :=
  params ← tls_lift (MT_SelfSigned SS_CertGeneration)
             (certificate_params (san_names host) "ferrowl Modbus");
  key_pair ← ((λ s, tls_lift (MT_SelfSigned SS_KeyGeneration) (generate_key (ts_generated s))
                      (count_key s)) : M KeyPair);
  cert ← tls_lift (MT_SelfSigned SS_CertGeneration) (self_signed params key_pair);
  key ← tls_lift (MT_SelfSigned SS_KeyEncoding) (serialize_key key_pair);
  mret ([cert], key).

Definition mb_resolve_self_signed (host : list Z) : M (list Cert * Key) := λ s,
  match ts_cache s with
  | Some material => (Ok material, s)
  | None =>
      match mb_generate_self_signed host s with
      | (Ok material, s') => (Ok material, mkTlsState (Some material) (ts_generated s'))
      | (Err e, s') => (Err e, s')
      end
  end.

Definition mb_trust (roots : Roots) (files : list (list Z)) : M Roots :=
  tls_fold (λ roots path, mb_load (roots_add_pem roots) path) files roots.

Record TlsClientConfig := mkTlsClientConfig {
  tcc_roots : option Roots; tcc_identity : option (list Cert * Key)
}.

Inductive ClientCertPolicy := CCP_None | CCP_Require (roots : Roots) | CCP_AllowAny.

Record TlsServerConfig := mkTlsServerConfig {
  tsc_chain : list Cert; tsc_key : Key; tsc_client_certs : ClientCertPolicy
}.

Definition mb_server_verification (v : CertVerification) : M (option Roots) :=
  match v with
  | CV_Skip => mret None
  | CV_RootStore extra_ca_files => roots ← mb_trust roots_default extra_ca_files; mret (Some roots)
  | CV_CaFiles ca_files => roots ← mb_trust roots_empty ca_files; mret (Some roots)
  end.

Definition build_client_tls_config (policy : ClientTlsPolicy) : M (option TlsClientConfig) :=
  _ ← tls_lift mb_policy_error (ClientTlsPolicy_validate policy);
  match policy with
  | CP_None => mret None
  | CP_Tls verification =>
      roots ← mb_server_verification verification;
      mret (Some (mkTlsClientConfig roots None))
  | CP_Mutual verification identity =>
      roots ← mb_server_verification verification;
      material ←
        (match identity with
         | CS_Files cert_file key_file =>
             chain ← mb_load load_pem_cert_chain cert_file;
             key ← mb_load load_pem_private_key key_file;
             mret (chain, key)
         | CS_SelfSigned => mb_resolve_self_signed (bytes_of "ferrowl-modbus-client")
         | CS_Ephemeral => tls_fail MT_EphemeralClientIdentity
         end);
      mret (Some (mkTlsClientConfig roots (Some material)))
  end.

Definition mb_resolve_server_identity (identity : CertSource) (bind_host : list Z)
  : M (list Cert * Key * bool) :=
  match identity with
  | CS_SelfSigned => material ← mb_resolve_self_signed bind_host; mret (material, false)
  | CS_Files cert_file key_file =>
      _ ← clear_cache;
      chain ← mb_load load_pem_cert_chain cert_file;
      match chain with
      | [] => tls_fail (MT_NoCertificates cert_file)
      | _ =>
          key ← mb_load load_pem_private_key key_file;
          mret (chain, key, false)
      end
  | CS_Ephemeral => material ← mb_resolve_self_signed bind_host; mret (material, true)
  end.

Definition mb_client_verification (v : option CertVerification) : M ClientCertPolicy :=
  match v with
  | None => mret CCP_None
  | Some (CV_CaFiles ca_files) => roots ← mb_trust roots_empty ca_files; mret (CCP_Require roots)
  | Some CV_Skip => mret CCP_AllowAny
  | Some (CV_RootStore _) => tls_fail MT_RootStoreOnServer
  end.

Definition build_server_tls_config (policy : ServerTlsPolicy) (bind_host : list Z)
  : M (option (TlsServerConfig * bool)) :=
  _ ← tls_lift mb_policy_error (ServerTlsPolicy_validate policy);
  let build identity verification :=
    '(chain, key, used_fallback) ← mb_resolve_server_identity identity bind_host;
    client_certs ← mb_client_verification verification;
    mret (Some (mkTlsServerConfig chain key client_certs, used_fallback)) in
  match policy with
  | SP_None => mret None
  | SP_Tls identity => build identity None
  | SP_Mutual identity verification => build identity (Some verification)
  end.
End modbus.
Arguments TlsClientConfig : clear implicits.
Arguments TlsServerConfig : clear implicits.
