(* ===== verification/TlsMaterialProps.v ===== *)
(** * TLS material: when the self-signed pair changes

    The builders of both crates use their cache as one small machine does
    ([cache_step]); what follows for any sequence of builds is proved once, of
    the machine. *)

From stdpp Require Import base list numbers strings.
From S2P Require Import Prelude IntText Text Path TlsMaterial.

(** ** The machine *)

(** What a build does with the cache. *)
Inductive CacheUse := CU_None | CU_SelfSigned | CU_Files.

#[export] Instance CacheUse_eq_dec : EqDecision CacheUse.
Proof. solve_decision. Defined.

Definition source_use (identity : CertSource) : CacheUse :=
  match identity with CS_Files _ _ => CU_Files | _ => CU_SelfSigned end.

Definition server_use (policy : ServerTlsPolicy) : CacheUse :=
  match ServerTlsPolicy_validate policy, policy with
  | Err _, _ | Ok _, SP_None => CU_None
  | Ok _, (SP_Tls identity | SP_Mutual identity _) => source_use identity
  end.

Section machine.
Context {Cert Key Build : Type}.
Implicit Types (s : TlsState Cert Key) (b : Build).

(** The uses of files clear the cache if [clears] holds. *)
Definition cache_step (clears : bool) (use : CacheUse) s s' : Prop :=
  match use with
  | CU_None => s' = s
  | CU_Files => s' = if clears then mkTlsState None (ts_generated s) else s
  | CU_SelfSigned =>
      match ts_cache s with
      | Some _ => s' = s
      | None =>
          (ts_generated s ≤ ts_generated s')%nat ∧
          (ts_cache s' = None ∨ ts_generated s' = S (ts_generated s))
      end
  end.

Context (clears : bool) (use : Build → CacheUse) (step : Build → TlsState Cert Key → TlsState Cert Key).
Context (step_ok : ∀ b s, cache_step clears (use b) s (step b s)).

Definition build_run (bs : list Build) s : TlsState Cert Key := foldl (λ s b, step b s) s bs.

Definition renews b : bool := clears && bool_decide (use b = CU_Files).

Lemma step_generated b s : (ts_generated s ≤ ts_generated (step b s))%nat.
Proof.
  pose proof (step_ok b s) as H. unfold cache_step in H. destruct (use b).
  - by rewrite H.
  - destruct (ts_cache s); [by rewrite H|by destruct H].
  - rewrite H. by destruct clears.
Qed.

Lemma run_generated bs s : (ts_generated s ≤ ts_generated (build_run bs s))%nat.
Proof.
  revert s. induction bs as [|b bs IH]; intros s; simpl; [done|].
  etrans; [apply (step_generated b)|apply IH].
Qed.

Lemma run_keeps bs s material :
  ts_cache s = Some material → existsb renews bs = false → build_run bs s = s.
Proof.
  intros Hc. induction bs as [|b bs IH]; simpl; [done|]. intros [Hb Hbs]%orb_false_iff.
  assert (step b s = s) as ->; [|by apply IH].
  pose proof (step_ok b s) as H. unfold cache_step in H. rewrite Hc in H. unfold renews in Hb.
  destruct (use b); [done|done|]. by destruct clears.
Qed.

(** The cache is empty, or a key pair was generated since. *)
Lemma run_renews bs s :
  existsb renews bs = true →
  ts_cache (build_run bs s) = None ∨ (ts_generated s < ts_generated (build_run bs s))%nat.
Proof.
  revert s. induction bs as [|b bs IH] using rev_ind; intros s; [done|].
  rewrite existsb_app. unfold build_run. rewrite foldl_app. simpl. fold (build_run bs s).
  intros H. pose proof (step_ok b (build_run bs s)) as Hs. unfold cache_step in Hs.
  destruct (renews b) eqn:Hb.
  - unfold renews in Hb. apply andb_prop in Hb as [Hcl Hu]. rewrite Hcl in Hs.
    apply bool_decide_eq_true in Hu. rewrite Hu in Hs. rewrite Hs. by left.
  - rewrite !orb_false_r in H. specialize (IH s H).
    pose proof (step_generated b (build_run bs s)) as Hg.
    destruct (use b); [by rewrite Hs| |].
    + destruct (ts_cache (build_run bs s)) eqn:Hc; [by rewrite Hs, Hc|].
      destruct Hs as [_ [Hs|Hs]]; [by left|]. right. rewrite Hs.
      pose proof (run_generated bs s). lia.
    + rewrite Hs. unfold renews in Hb. destruct clears; [by left|done].
Qed.

(** Of two builds of a self-signed pair, the second finds the pair of the first
    in the cache, unless one in between renews it; then a new key pair has been
    generated when it is done. *)
Lemma self_signed_again b1 bs b2 s material material' :
  use b1 = CU_SelfSigned → use b2 = CU_SelfSigned →
  let s1 := step b1 s in
  let s3 := step b2 (build_run bs s1) in
  ts_cache s1 = Some material → ts_cache s3 = Some material' →
  if existsb renews bs then (ts_generated s1 < ts_generated s3)%nat
  else s3 = s1 ∧ material' = material.
Proof.
  intros Hu1 Hu2 s1 s3 Hm Hm'. destruct (existsb renews bs) eqn:Hr.
  - pose proof (step_ok b2 (build_run bs s1)) as Hs. rewrite Hu2 in Hs. fold s3 in Hs.
    pose proof (run_generated bs s1) as Hg. pose proof (step_generated b2 (build_run bs s1)) as Hg2.
    fold s3 in Hg2. simpl in Hs.
    destruct (run_renews bs s1 Hr) as [Hn|Hlt]; [|lia]. rewrite Hn in Hs.
    destruct Hs as [_ [Hs|Hs]]; [by rewrite Hm' in Hs|lia].
  - assert (s3 = s1) as Hs.
    { subst s3. rewrite (run_keeps bs s1 material Hm Hr).
      pose proof (step_ok b2 s1) as Hs. rewrite Hu2 in Hs. simpl in Hs. by rewrite Hm in Hs. }
    split; [done|]. rewrite Hs, Hm in Hm'. by injection Hm'.
Qed.
End machine.

(** ** The step monad *)

Section monad.
Context {St E A B : Type}.

Lemma tls_bind_state (m : TlsM St E A) (f : A → TlsM St E B) s s1 :
  (m s).2 = s1 → (∀ a, (f a s1).2 = s1) → ((m ≫= f) s).2 = s1.
Proof. unfold mbind, tls_bind. destruct (m s) as [[a|e] s']; simpl; intros -> H; [apply H|done]. Qed.

Lemma tls_bind_Ok (m : TlsM St E A) (f : A → TlsM St E B) s b s' :
  (m ≫= f) s = (Ok b, s') → ∃ a s1, m s = (Ok a, s1) ∧ f a s1 = (Ok b, s').
Proof. unfold mbind, tls_bind. destruct (m s) as [[a|e] s1]; [|done]. by eexists _, _. Qed.

Lemma tls_lift_state {E'} (wrap : E' → E) (r : Result A E') s :
  ((tls_lift wrap r : TlsM St E A) s).2 = s.
Proof. done. Qed.

Lemma tls_lift_Ok {E'} (wrap : E' → E) (r : Result A E') s a s' :
  (tls_lift wrap r : TlsM St E A) s = (Ok a, s') → r = Ok a ∧ s' = s.
Proof. unfold tls_lift. destruct r; [|done]. by intros [= -> ->]. Qed.

End monad.

Lemma tls_fold_state {St E A B} (f : A → B → TlsM St E A) l a s :
  (∀ a b, (f a b s).2 = s) → (tls_fold f l a s).2 = s.
Proof.
  intros Hf. revert a. induction l as [|b l IH]; intros a; simpl; [done|].
  apply tls_bind_state; [apply Hf|apply IH].
Qed.

#[export] Hint Resolve tls_bind_state tls_lift_state tls_fold_state : ferrowl.

(** ** The builders of the OCPP crate *)

Section ocpp.
Context {Cert Key Params KeyPair Roots Verifier CConfig SConfig IE GE RE : Type}.
Context `{!TlsLib Cert Key Params KeyPair Roots IE GE RE}.
Context `{!OcTls Cert Key Roots Verifier CConfig SConfig IE RE}.
Context (home : option (list Z)) (key_encoding_text : GE → string).

Abbreviation State := (TlsState Cert Key).
Abbreviation serve := (build_server_config (Params := Params) (KeyPair := KeyPair) (GE := GE)
  (Verifier := Verifier) (SConfig := SConfig) (Roots := Roots) (IE := IE) (RE := RE)
  (CConfig := CConfig) home key_encoding_text).
Abbreviation connect := (build_connector (Params := Params) (KeyPair := KeyPair) (GE := GE)
  (Verifier := Verifier) (SConfig := SConfig) (Roots := Roots) (IE := IE) (RE := RE)
  (CConfig := CConfig) home key_encoding_text).
Abbreviation resolve := (oc_resolve_self_signed (Params := Params) (KeyPair := KeyPair) (GE := GE)
  (Roots := Roots) (IE := IE) (RE := RE) key_encoding_text).
Implicit Types (s : State).

Lemma oc_resolve_spec host s :
  match resolve host s with
  | (Ok material, s') =>
      ts_cache s' = Some material ∧
      match ts_cache s with
      | Some _ => s' = s
      | None => ts_generated s' = S (ts_generated s)
      end
  | (Err _, s') => ts_cache s = None ∧ ts_cache s' = None ∧
      (ts_generated s ≤ ts_generated s')%nat
  end.
Proof.
  unfold oc_resolve_self_signed. destruct (ts_cache s) as [material|] eqn:Hc; [done|].
  unfold oc_generate_self_signed, mbind, tls_bind, tls_lift.
  destruct (certificate_params _ _); [|by rewrite Hc].
  destruct (generate_key _); simpl; [|rewrite Hc; split_and!; [done|done|lia]].
  destruct (self_signed _ _); simpl; [|rewrite Hc; split_and!; [done|done|lia]].
  destruct (serialize_key _); simpl; [done|rewrite Hc; split_and!; [done|done|lia]].
Qed.

(** Whether and how the cache was used shows in the state alone. *)
Lemma oc_resolve_step host s : cache_step true CU_SelfSigned s (resolve host s).2.
Proof.
  pose proof (oc_resolve_spec host s) as H. simpl. destruct (resolve host s) as [[m|e] s']; simpl.
  - destruct H as [Hc Hs]. destruct (ts_cache s); [done|]. split; [lia|by right].
  - destruct H as (-> & Hs & Hg). split; [done|by left].
Qed.

Lemma oc_load_certs_state path s : (oc_load_certs home path s : Result (list Cert) (OcTlsError IE GE RE) * State).2 = s.
Proof. unfold oc_load_certs. apply tls_bind_state; [done|]. by intros []. Qed.

Lemma oc_trust_state roots files s :
  (oc_trust home roots files s : Result Roots (OcTlsError IE GE RE) * State).2 = s.
Proof.
  apply tls_fold_state. intros r path. apply tls_bind_state; [apply oc_load_certs_state|].
  intros certs. by apply tls_fold_state.
Qed.

Lemma oc_client_verification_state v s :
  (oc_client_verification home v s : Result (option (option Verifier)) (OcTlsError IE GE RE) * State).2 = s.
Proof.
  destruct v as [[| |files]|]; try done. apply tls_bind_state; [apply oc_trust_state|].
  intros r. by apply tls_bind_state.
Qed.

Lemma oc_server_verification_state v s :
  (oc_server_verification home v s : Result (option Roots) (OcTlsError IE GE RE) * State).2 = s.
Proof. destruct v; [done| |]; apply tls_bind_state; try done; apply oc_trust_state. Qed.

Lemma oc_identity_state identity host s :
  cache_step true (source_use identity) s
    (oc_resolve_server_identity (RE := RE) (IE := IE) home key_encoding_text identity host s).2.
Proof.
  destruct identity as [| |cert_file key_file]; cbn [oc_resolve_server_identity source_use].
  1,2: pose proof (oc_resolve_step host s) as H; unfold mbind, tls_bind;
    by destruct (resolve host s) as [[m|e] s'].
  unfold cache_step. unfold mbind at 1, tls_bind at 1, clear_cache. 
  apply tls_bind_state; [apply oc_load_certs_state|]. intros certs.
  apply tls_bind_state; [done|]. done.
Qed.

(** What follows the choice of the identity leaves the state as it is. *)
Lemma oc_serve_tail verification (p : list Cert * Key * bool) s :
  ((let '(certs, key, used_fallback) := p in
    client_auth ← oc_client_verification home verification;
    config ← tls_lift OT_Rustls (with_single_cert client_auth certs key);
    mret (Some (config, used_fallback)) :
      TlsM State (OcTlsError IE GE RE) (option (SConfig * bool))) s).2 = s.
Proof.
  destruct p as [[certs key] fb]. apply tls_bind_state; [apply oc_client_verification_state|].
  intros auth. by apply tls_bind_state.
Qed.

Lemma oc_serve_step policy host s :
  cache_step true (server_use policy) s (serve policy host s).2.
Proof.
  unfold build_server_config, server_use. unfold mbind at 1, tls_bind at 1, tls_lift at 1.
  destruct (ServerTlsPolicy_validate policy); [|done].
  destruct policy as [|identity|identity v]; [done| |];
    pose proof (oc_identity_state identity host s) as H;
    unfold mbind at 1, tls_bind at 1;
    destruct (oc_resolve_server_identity _ _ _ _ _) as [[p|e] s1] eqn:Hi; try exact H;
    by rewrite oc_serve_tail.
Qed.

Lemma oc_resolve_Ok host s material s' : resolve host s = (Ok material, s') → ts_cache s' = Some material.
Proof. intros H. pose proof (oc_resolve_spec host s) as Hs. rewrite H in Hs. by destruct Hs. Qed.

(** A configuration presents a pair: some client authentication and the pair
    were assembled into it. *)
Definition server_presents (config : SConfig) (material : list Cert * Key) : Prop :=
  ∃ auth, with_single_cert (Cert := Cert) (Verifier := Verifier) (RE := RE) auth material.1 material.2 =
    Ok config.

Definition client_presents (connector : Connector CConfig) (material : list Cert * Key) : Prop :=
  ∃ roots config, connector = CN_Rustls config ∧
    with_client_auth_cert (Cert := Cert) (RE := RE) roots material.1 material.2 = Ok config.

Lemma oc_serve_presents policy host s config fb s' :
  serve policy host s = (Ok (Some (config, fb)), s') → server_use policy = CU_SelfSigned →
  ∃ material, ts_cache s' = Some material ∧ server_presents config material.
Proof.
  unfold build_server_config, server_use. intros H Hu.
  apply tls_bind_Ok in H as (? & s0 & [Hv ->]%tls_lift_Ok & H). rewrite Hv in Hu.
  assert (∃ identity v host', source_use identity = CU_SelfSigned ∧
    (p ← oc_resolve_server_identity (RE := RE) (IE := IE) home key_encoding_text identity host';
     let '(certs, key, used_fallback) := p in
     client_auth ← oc_client_verification home v;
     config ← tls_lift OT_Rustls (with_single_cert client_auth certs key);
     mret (Some (config, used_fallback))) s = (Ok (Some (config, fb)), s'))
    as (identity & v & host' & Hi & Hb).
  { destruct policy as [|i|i v]; [done| |]; [exists i, None, host|exists i, (Some v), host];
      (split; [done|]); exact H. }
  clear H. apply tls_bind_Ok in Hb as (p & s1 & Hr & Hb).
  assert (ts_cache s1 = Some p.1) as Hc.
  { destruct identity; [| |done]; cbn [oc_resolve_server_identity] in Hr;
      apply tls_bind_Ok in Hr as (m & s2 & Hm%oc_resolve_Ok & Hp); by injection Hp as <- <-. }
  pose proof (oc_serve_tail v p s1) as Ht. destruct p as [[certs key] fb'].
  rewrite Hb in Ht. simpl in Ht. subst s1. exists (certs, key). split; [done|].
  apply tls_bind_Ok in Hb as (auth & s2 & _ & Hb).
  apply tls_bind_Ok in Hb as (c & s3 & [Hw _]%tls_lift_Ok & Hc'). injection Hc' as <- <- <-.
  by exists auth.
Qed.

Definition client_use (policy : ClientTlsPolicy) : CacheUse :=
  match ClientTlsPolicy_validate policy, policy with
  | Ok _, CP_Mutual _ identity => source_use identity
  | _, _ => CU_None
  end.

Lemma oc_connect_step policy s : cache_step false (client_use policy) s (connect policy s).2.
Proof.
  unfold build_connector, client_use. unfold mbind at 1, tls_bind at 1, tls_lift at 1.
  destruct (ClientTlsPolicy_validate policy) eqn:Hv; [|done].
  destruct policy as [|v|v identity]; [done| |].
  - apply tls_bind_state; [apply oc_server_verification_state|done].
  - unfold mbind at 1, tls_bind at 1.
    pose proof (oc_server_verification_state v s) as Hs.
    destruct (oc_server_verification _ _ _) as [[roots|e] s1]; simpl in Hs; subst s1.
    2: { destruct identity; simpl; [..|done]; destruct (ts_cache s) eqn:Hc; try done;
           (split; [done|by left]). }
    destruct identity as [| |cert_file key_file]; [| |].
    + by destruct v as [| |[]].
    + pose proof (oc_resolve_step (bytes_of "ferrowl-ocpp-client") s) as H.
      unfold mbind, tls_bind in *. simpl in *.
      destruct (resolve _ s) as [[[chain key]|e] s1]; simpl in *; [|done].
      unfold tls_lift. by destruct (with_client_auth_cert _ _ _).
    + simpl. apply tls_bind_state; [|done].
      apply tls_bind_state; [apply oc_load_certs_state|]. intros certs.
      by apply tls_bind_state.
Qed.

Lemma oc_connect_presents policy s connector s' :
  connect policy s = (Ok connector, s') → client_use policy = CU_SelfSigned →
  ∃ material, ts_cache s' = Some material ∧ client_presents connector material.
Proof.
  unfold build_connector, client_use. intros H Hu.
  apply tls_bind_Ok in H as (? & s0 & [Hv ->]%tls_lift_Ok & H). rewrite Hv in Hu.
  destruct policy as [|v|v identity]; [done|done|].
  apply tls_bind_Ok in H as (roots & s1 & _ & H).
  apply tls_bind_Ok in H as (config & s2 & H & Hc). injection Hc as <- <-.
  destruct identity; [done| |done].
  apply tls_bind_Ok in H as ([chain key] & s3 & Hr%oc_resolve_Ok & [Hw ->]%tls_lift_Ok).
  exists (chain, key). split; [done|]. by exists roots, config.
Qed.

(** ** When a pair is renewed *)

Abbreviation serve_run := (build_run (Cert := Cert) (Key := Key)
  (λ (b : ServerTlsPolicy * list Z) s, (serve b.1 b.2 s).2)).
Abbreviation connect_run := (build_run (Cert := Cert) (Key := Key)
  (λ policy s, (connect policy s).2)).

Definition uses_files (b : ServerTlsPolicy * list Z) : bool :=
  bool_decide (server_use b.1 = CU_Files).

(** Whatever a server is configured with between two builds of a self-signed
    certificate, successful or not, the second presents the pair of the first,
    unless a certificate from files was configured in between; then a new key
    pair has been generated. *)
Theorem server_pair_renewed p1 h1 p2 h2 bs s c1 f1 s1 c2 f2 s3 :
  server_use p1 = CU_SelfSigned → server_use p2 = CU_SelfSigned →
  serve p1 h1 s = (Ok (Some (c1, f1)), s1) →
  serve p2 h2 (serve_run bs s1) = (Ok (Some (c2, f2)), s3) →
  ∃ material material',
    server_presents c1 material ∧ server_presents c2 material' ∧
    if existsb uses_files bs then (ts_generated s1 < ts_generated s3)%nat
    else material' = material ∧ s3 = s1.
Proof.
  intros Hu1 Hu2 H1 H2.
  destruct (oc_serve_presents _ _ _ _ _ _ H1 Hu1) as (m & Hm & Hp).
  destruct (oc_serve_presents _ _ _ _ _ _ H2 Hu2) as (m' & Hm' & Hp').
  exists m, m'. split; [done|]. split; [done|].
  pose proof (self_signed_again true (λ b : ServerTlsPolicy * list Z, server_use b.1)
    (λ b s, (serve b.1 b.2 s).2) (λ b s, oc_serve_step b.1 b.2 s)
    (p1, h1) bs (p2, h2) s m m' Hu1 Hu2) as H.
  cbn [fst snd] in H. rewrite H1 in H. cbn [snd] in H. rewrite H2 in H. specialize (H Hm Hm').
  change (existsb uses_files bs) with
    (existsb (renews true (λ b : ServerTlsPolicy * list Z, server_use b.1)) bs).
  destruct (existsb _ bs); [done|]. by destruct H.
Qed.

(** A client's self-signed pair is never renewed: whatever identities are
    configured in between, files included, a later self-signed identity
    presents the pair that was generated first. *)
Theorem client_pair_never_renewed p1 p2 ps s c1 s1 c2 s3 :
  client_use p1 = CU_SelfSigned → client_use p2 = CU_SelfSigned →
  connect p1 s = (Ok c1, s1) → connect p2 (connect_run ps s1) = (Ok c2, s3) →
  ∃ material, client_presents c1 material ∧ client_presents c2 material ∧ s3 = s1.
Proof.
  intros Hu1 Hu2 H1 H2.
  destruct (oc_connect_presents _ _ _ _ H1 Hu1) as (m & Hm & Hp).
  destruct (oc_connect_presents _ _ _ _ H2 Hu2) as (m' & Hm' & Hp').
  pose proof (self_signed_again false client_use (λ policy s, (connect policy s).2)
    oc_connect_step p1 ps p2 s m m' Hu1 Hu2) as H.
  cbv beta zeta in H. rewrite H1 in H. cbn [snd] in H. rewrite H2 in H. specialize (H Hm Hm').
  assert (existsb (renews false client_use) ps = false) as Hn
    by (clear; by induction ps).
  rewrite Hn in H. cbn [snd] in H. destruct H as [-> ->]. by exists m.
Qed.
End ocpp.
Arguments server_presents {Cert Key Roots Verifier CConfig SConfig IE RE _}.
Arguments client_presents {Cert Key Roots Verifier CConfig SConfig IE RE _}.

(** ** A world *)

(** Certificates, keys and configurations that show what they were made from;
    every file holds one certificate and one key. *)
#[export] Instance demo_tls : TlsLib nat nat unit nat (list nat) unit unit unit := {
  certificate_params _ _ := Ok tt;
  generate_key n := Ok n;
  self_signed _ k := Ok k;
  serialize_key k := Ok k;
  roots_empty := [];
  roots_default := []
}.

#[export] Instance demo_oc_tls : OcTls nat nat (list nat) (list nat)
    (list nat * nat) (list nat * nat) unit unit := {
  pem_certs _ := Ok [100%nat];
  pem_key _ := Ok 100%nat;
  roots_add roots cert := Ok (roots ++ [cert]);
  client_verifier roots := Ok roots;
  with_client_auth_cert _ certs key := Ok (certs, key);
  with_no_client_auth _ := ([], 0%nat);
  with_single_cert _ certs key := Ok (certs, key)
}.

Abbreviation demo_build := (build_server_config (Params := unit) (KeyPair := nat)
  (Roots := list nat) (Verifier := list nat) (CConfig := (list nat * nat)%type)
  (SConfig := (list nat * nat)%type) (IE := unit) (GE := unit) (RE := unit) None (λ _, EmptyString)).

Lemma server_pair_renewed_witness :
  ∃ material material',
    server_presents (RE := unit) (IE := unit) ([0%nat], 0%nat) material ∧
    server_presents (RE := unit) (IE := unit) ([1%nat], 1%nat) material' ∧ (1 < 2)%nat.
Proof.
  refine (server_pair_renewed (Params := unit) (KeyPair := nat) (Roots := list nat)
    (Verifier := list nat) (IE := unit) (GE := unit) (RE := unit) None (λ _, EmptyString)
    (SP_Tls CS_SelfSigned) (bytes_of "localhost") (SP_Tls CS_Ephemeral) (bytes_of "localhost")
    [(SP_None, []); (SP_Tls (CS_Files [] []), [])] (mkTlsState None 0)
    ([0%nat], 0%nat) false (mkTlsState (Some ([0%nat], 0%nat)) 1)
    ([1%nat], 1%nat) true (mkTlsState (Some ([1%nat], 1%nat)) 2) _ _ _ _); reflexivity.
Defined.

(** ** The builders of the Modbus crate *)

Section modbus.
Context {Cert Key Params KeyPair Roots IE GE RE : Type}.
Context `{!TlsLib Cert Key Params KeyPair Roots IE GE RE} `{!MbTls Cert Key Roots IE RE}.
Context (home : option (list Z)).

Abbreviation State := (TlsState Cert Key).
Abbreviation mb_resolve := (mb_resolve_self_signed (Params := Params) (KeyPair := KeyPair) (GE := GE)
  (Roots := Roots) (IE := IE) (RE := RE)).
Abbreviation mb_serve := (build_server_tls_config (Params := Params) (KeyPair := KeyPair) (GE := GE)
  (Roots := Roots) (IE := IE) (RE := RE) home).
Abbreviation mb_connect := (build_client_tls_config (Params := Params) (KeyPair := KeyPair) (GE := GE)
  (Roots := Roots) (IE := IE) (RE := RE) home).
Abbreviation TE := (MbTlsError IE GE RE).
Implicit Types (s : State).

(** Where the pair a build presents comes from. *)
Lemma mb_resolve_spec host s :
  match mb_resolve host s with
  | (Ok material, s') =>
      ts_cache s' = Some material ∧ material.1 ≠ [] ∧
      match ts_cache s with
      | Some _ => s' = s
      | None => ts_generated s' = S (ts_generated s)
      end ∨ ts_cache s = Some material ∧ s' = s
  | (Err _, s') => ts_cache s = None ∧ ts_cache s' = None ∧
      (ts_generated s ≤ ts_generated s')%nat
  end.
Proof.
  unfold mb_resolve_self_signed. destruct (ts_cache s) as [material|] eqn:Hc; [by right|].
  unfold mb_generate_self_signed, mbind, tls_bind, tls_lift.
  destruct (certificate_params _ _); [|by rewrite Hc].
  destruct (generate_key _); simpl; [|rewrite Hc; split_and!; [done|done|lia]].
  destruct (self_signed _ _); simpl; [|rewrite Hc; split_and!; [done|done|lia]].
  destruct (serialize_key _); simpl; [by left|rewrite Hc; split_and!; [done|done|lia]].
Qed.

Lemma mb_resolve_step host s : cache_step true CU_SelfSigned s (mb_resolve host s).2.
Proof.
  pose proof (mb_resolve_spec host s) as H. simpl.
  destruct (mb_resolve host s) as [[m|e] s']; simpl.
  - destruct H as [(Hc & _ & Hs)|[-> ->]]; [|done]. destruct (ts_cache s); [done|].
    split; [lia|by right].
  - destruct H as (-> & Hs & Hg). split; [done|by left].
Qed.

Lemma mb_load_state {A} (load : list Z → Result A RE) path s :
  (mb_load home load path s : Result A TE * State).2 = s.
Proof. by apply tls_bind_state. Qed.

Lemma mb_trust_state roots files s : (mb_trust home roots files s : Result Roots TE * State).2 = s.
Proof. apply tls_fold_state. intros r path. apply mb_load_state. Qed.

Lemma mb_server_verification_state v s :
  (mb_server_verification home v s : Result (option Roots) TE * State).2 = s.
Proof. destruct v; [done| |]; apply tls_bind_state; try done; apply mb_trust_state. Qed.

Lemma mb_client_verification_state v s :
  (mb_client_verification home v s : Result (@ClientCertPolicy Roots) TE * State).2 = s.
Proof. destruct v as [[| |files]|]; try done. apply tls_bind_state; [apply mb_trust_state|done]. Qed.

Lemma mb_identity_state identity host s :
  cache_step true (source_use identity) s
    (mb_resolve_server_identity (RE := RE) (IE := IE) home identity host s).2.
Proof.
  destruct identity as [| |cert_file key_file]; cbn [mb_resolve_server_identity source_use].
  1,2: pose proof (mb_resolve_step host s) as H; unfold mbind, tls_bind;
    by destruct (mb_resolve host s) as [[m|e] s'].
  unfold cache_step. unfold mbind at 1, tls_bind at 1, clear_cache.
  apply tls_bind_state; [apply mb_load_state|]. intros [|c chain]; [done|].
  apply tls_bind_state; [apply mb_load_state|done].
Qed.

Lemma mb_serve_step policy host s : cache_step true (server_use policy) s (mb_serve policy host s).2.
Proof.
  unfold build_server_tls_config, server_use. unfold mbind at 1, tls_bind at 1, tls_lift at 1.
  destruct (ServerTlsPolicy_validate policy); [|done].
  destruct policy as [|identity|identity v]; [done| |];
    pose proof (mb_identity_state identity host s) as H;
    unfold mbind at 1, tls_bind at 1;
    destruct (mb_resolve_server_identity _ _ _ _) as [[[[chain key] fb]|e] s1] eqn:Hi; try exact H;
    by rewrite tls_bind_state with (s1 := s1); [|apply mb_client_verification_state|].
Qed.

Lemma mb_connect_step policy s : cache_step false (client_use policy) s (mb_connect policy s).2.
Proof.
  unfold build_client_tls_config, client_use. unfold mbind at 1, tls_bind at 1, tls_lift at 1.
  destruct (ClientTlsPolicy_validate policy) eqn:Hv; [|done].
  destruct policy as [|v|v identity]; [done| |].
  - apply tls_bind_state; [apply mb_server_verification_state|done].
  - unfold mbind at 1, tls_bind at 1.
    pose proof (mb_server_verification_state v s) as Hs.
    destruct (mb_server_verification _ _ _) as [[roots|e] s1]; simpl in Hs; subst s1.
    2: { destruct identity; simpl; [..|done]; destruct (ts_cache s) eqn:Hc; try done;
           (split; [done|by left]). }
    destruct identity as [| |cert_file key_file].
    + by destruct v as [| |[]].
    + pose proof (mb_resolve_step (bytes_of "ferrowl-modbus-client") s) as H.
      unfold mbind, tls_bind in *. simpl in *. by destruct (mb_resolve _ s) as [[[chain key]|e] s1].
    + simpl. apply tls_bind_state; [|done].
      apply tls_bind_state; [apply mb_load_state|]. intros certs.
      apply tls_bind_state; [apply mb_load_state|done].
Qed.

(** The chain and key of a configuration for a self-signed certificate. *)
Lemma mb_serve_presents policy host s config fb s' :
  mb_serve policy host s = (Ok (Some (config, fb)), s') → server_use policy = CU_SelfSigned →
  ts_cache s' = Some (tsc_chain config, tsc_key config).
Proof.
  unfold build_server_tls_config, server_use. intros H Hu.
  apply tls_bind_Ok in H as (? & s0 & [Hv ->]%tls_lift_Ok & H). rewrite Hv in Hu.
  assert (∃ identity v, source_use identity = CU_SelfSigned ∧
    ('(chain, key, used_fallback) ← mb_resolve_server_identity (RE := RE) (IE := IE) home identity host;
     client_certs ← mb_client_verification home v;
     mret (Some (mkTlsServerConfig chain key client_certs, used_fallback))) s =
      (Ok (Some (config, fb)), s')) as (identity & v & Hi & Hb).
  { destruct policy as [|i|i v]; [done| |]; [exists i, None|exists i, (Some v)];
      (split; [done|]); exact H. }
  clear H. apply tls_bind_Ok in Hb as ([[chain key] fb'] & s1 & Hr & Hb).
  pose proof (mb_client_verification_state v s1) as Ht.
  apply tls_bind_Ok in Hb as (auth & s2 & Hc & Hb). rewrite Hc in Ht. simpl in Ht. subst s2.
  injection Hb as <- _ <-. simpl.
  destruct identity; [| |done]; cbn [mb_resolve_server_identity] in Hr;
    apply tls_bind_Ok in Hr as (m & s2 & Hm & Hp); injection Hp as -> _ ->;
    pose proof (mb_resolve_spec host s) as Hs; rewrite Hm in Hs;
    by destruct Hs as [[? _]|[? ->]].
Qed.

(** For a Modbus server too, the pair of a later self-signed build is that of
    the first, unless certificates from files were configured in between; then
    a new key pair has been generated. *)
Theorem modbus_pair_renewed p1 h1 p2 h2 bs s c1 f1 s1 c2 f2 s3 :
  server_use p1 = CU_SelfSigned → server_use p2 = CU_SelfSigned →
  mb_serve p1 h1 s = (Ok (Some (c1, f1)), s1) →
  mb_serve p2 h2 (build_run (λ (b : ServerTlsPolicy * list Z) s, (mb_serve b.1 b.2 s).2) bs s1) =
    (Ok (Some (c2, f2)), s3) →
  if existsb uses_files bs then (ts_generated s1 < ts_generated s3)%nat
  else tsc_chain c2 = tsc_chain c1 ∧ tsc_key c2 = tsc_key c1 ∧ s3 = s1.
Proof.
  intros Hu1 Hu2 H1 H2.
  pose proof (mb_serve_presents _ _ _ _ _ _ H1 Hu1) as Hm.
  pose proof (mb_serve_presents _ _ _ _ _ _ H2 Hu2) as Hm'.
  pose proof (self_signed_again true (λ b : ServerTlsPolicy * list Z, server_use b.1)
    (λ b s, (mb_serve b.1 b.2 s).2) (λ b s, mb_serve_step b.1 b.2 s)
    (p1, h1) bs (p2, h2) s
    (tsc_chain c1, tsc_key c1) (tsc_chain c2, tsc_key c2) Hu1 Hu2) as H.
  cbn [fst snd] in H. rewrite H1 in H. cbn [snd] in H. rewrite H2 in H. specialize (H Hm Hm').
  change (existsb uses_files bs) with
    (existsb (renews true (λ b : ServerTlsPolicy * list Z, server_use b.1)) bs).
  destruct (existsb _ bs); [done|]. destruct H as [? [= -> ->]]. done.
Qed.
End modbus.
