(* ===== verification/OcppHandshake.v ===== *)
(** * The OCPP handshake

    Models how a charging station asks for a connection and how a management
    system answers: credentials and extra headers of [ferrowl-ocpp/src/security.rs],
    the request of [dial] in [cs/mod.rs], and the callback of the accept loop in
    [csms/mod.rs]. Text is bytes; requests and headers are the HTTP library's. *)

From stdpp Require Import base list numbers strings.
From S2P Require Import Prelude IntText Text TlsMaterial.

Local Open Scope Z_scope.

(** ** The libraries *)

(** A request, its headers by name and its target; which texts are header names
    and values, and which values are text. *)
Class Http (Request HE : Type) := {
  into_client_request : list Z → Result Request HE;
  header_insert : Request → list Z → list Z → Request;
  header_get_all : Request → list Z → list (list Z);
  uri_path : Request → list Z;
  uri_scheme : Request → option (list Z);
  header_name_ok : list Z → bool;
  header_value_ok : list Z → bool;
  value_is_text : list Z → bool
}.

Definition to_ascii_lowercase (s : list Z) : list Z :=
  (λ b, if (65 <=? b) && (b <=? 90) then b + 32 else b) <$> s.

Definition is_printable (b : Z) : bool := (32 <=? b) && (b <=? 126).

Definition is_ascii_alphanumeric (b : Z) : bool :=
  (48 <=? b) && (b <=? 57) || (65 <=? b) && (b <=? 90) || (97 <=? b) && (b <=? 122).

Definition is_tchar (b : Z) : bool :=
  is_ascii_alphanumeric b || bool_decide (b ∈ bytes_of "!#$%&'*+-.^_`|~").

(** What the library documents: names are compared without case, an insertion
    replaces the values of its name and nothing else; tokens of at most 65,535
    bytes are names, printable texts are values and text. *)
Class HttpLaws (Request HE : Type) `{!Http Request HE} := {
  get_insert r n v m :
    header_get_all (header_insert r n v) m =
    if decide (to_ascii_lowercase n = to_ascii_lowercase m) then [v] else header_get_all r m;
  path_insert r n v : uri_path (header_insert r n v) = uri_path r;
  scheme_insert r n v : uri_scheme (header_insert r n v) = uri_scheme r;
  name_token n : n ≠ [] → forallb is_tchar n = true → Z.of_nat (length n) <= 65535 →
    header_name_ok n = true;
  value_printable v : forallb is_printable v = true → header_value_ok v = true;
  text_printable v : forallb is_printable v = true → value_is_text v = true
}.

(** ** Credentials and extra headers *)

Record BasicAuth := mkBasicAuth { ba_username : list Z; ba_password : list Z }.
Record HeaderDef := mkHeaderDef { hd_name : list Z; hd_value : list Z }.

Inductive HeaderError := HE_Reserved (name : list Z) | HE_InvalidName (name : list Z)
| HE_InvalidValue (name : list Z).

Definition RESERVED_HEADER_NAMES : list (list Z) :=
  bytes_of <$> ["authorization"; "host"; "upgrade"; "connection"; "sec-websocket-key";
    "sec-websocket-version"; "sec-websocket-protocol"; "sec-websocket-extensions"]%string.

Definition HeaderDef_new (name value : list Z) : Result HeaderDef HeaderError :=
  if bool_decide (to_ascii_lowercase name ∈ RESERVED_HEADER_NAMES) then Err (HE_Reserved name)
  else if bool_decide (name = []) || negb (forallb is_tchar name) then Err (HE_InvalidName name)
  else if negb (forallb is_printable value) then Err (HE_InvalidValue name)
  else Ok (mkHeaderDef name value).

Inductive OcppVersion := V1_6 | V2_0_1 | V2_1.

#[export] Instance OcppVersion_eq_dec : EqDecision OcppVersion.
Proof. solve_decision. Defined.

Section handshake.
Context {Request HE : Type} `{!Http Request HE}.
(** The standard base64 encoding. *)
Context (base64 : list Z → list Z).

Definition credential_text (a : BasicAuth) : list Z := ba_username a ++ 58 :: ba_password a.

Definition basic_value (a : BasicAuth) : list Z :=
  bytes_of "Basic " ++ base64 (credential_text a).

(** [HeaderValue::from_str(..).expect(..)]. *)
Definition header_value_expect (v : list Z) : Outcome (list Z) :=
  if header_value_ok v then Ret v else Panic.

Definition BasicAuth_header_value (a : BasicAuth) : Outcome (list Z) :=
  header_value_expect (basic_value a).

Definition BasicAuth_matches (a : BasicAuth) (header : option (list Z)) : Outcome bool :=
  match header with
  | None => Ret false
  | Some got =>
      expected ← BasicAuth_header_value a;
      Ret (bool_decide (length got = length expected) && bool_decide (got = expected))
  end.

(** ** The station's request *)

Definition subprotocol (v : OcppVersion) : list Z :=
  match v with
  | V1_6 => bytes_of "ocpp1.6"
  | V2_0_1 => bytes_of "ocpp2.0.1"
  | V2_1 => bytes_of "ocpp2.1"
  end.

Record CsConfig := mkCsConfig {
  cc_url : list Z;
  cc_timeout_ms : Z;
  cc_basic_auth : option BasicAuth;
  cc_tls : ClientTlsPolicy;
  cc_extra_headers : list HeaderDef;
  cc_reconnect : bool
}.

Definition insert_extra (r : Request) (h : HeaderDef) : Outcome Request :=
  if header_name_ok (hd_name h)
  then value ← header_value_expect (hd_value h); Ret (header_insert r (hd_name h) value)
  else Panic.

Fixpoint insert_extras (r : Request) (hs : list HeaderDef) : Outcome Request :=
  match hs with
  | [] => Ret r
  | h :: hs' => r ← insert_extra r h; insert_extras r hs'
  end.

(** The upgrade request of [dial]. *)
Definition dial_request (version : OcppVersion) (config : CsConfig) : Outcome (Result Request HE) :=
  match into_client_request (cc_url config) with
  | Err e => Ret (Err e)
  | Ok r =>
      let r := header_insert r (bytes_of "Sec-WebSocket-Protocol") (subprotocol version) in
      r ←
        (match cc_basic_auth config with
         | None => Ret r
         | Some auth =>
             value ← BasicAuth_header_value auth;
             Ret (header_insert r (bytes_of "Authorization") value)
         end);
      r ← insert_extras r (cc_extra_headers config);
      Ret (Ok r)
  end.

(** ** The management system's answer *)

(** The last non-empty segment of the path. *)
Definition identity_from_path (path : list Z) : option (list Z) :=
  List.find (λ seg, negb (bool_decide (seg = []))) (reverse (split 47 path)).

Definition subprotocol_matches (req : Request) (expected : list Z) : bool :=
  existsb (λ value, value_is_text value && existsb (λ t, bool_decide (trim t = expected)) (split 44 value))
    (header_get_all req (bytes_of "sec-websocket-protocol")).

(** The response: accepted under the version's subprotocol, or refused. *)
Inductive HandshakeResponse := RSP_Switching (subprotocol : list Z) | RSP_Unauthorized | RSP_BadRequest.

Definition header_get (req : Request) (name : list Z) : option (list Z) :=
  head (header_get_all req name).

(** The handshake callback, with the identity it notes. *)
Definition handshake_callback (basic_auth : option BasicAuth) (version : OcppVersion) (req : Request)
  : Outcome (option (list Z) * HandshakeResponse) :=
  let identity := identity_from_path (uri_path req) in
  authorized ←
    (match basic_auth with
     | None => Ret true
     | Some auth => BasicAuth_matches auth (header_get req (bytes_of "authorization"))
     end);
  if negb authorized then Ret (identity, RSP_Unauthorized)
  else if negb (subprotocol_matches req (subprotocol version)) then Ret (identity, RSP_BadRequest)
  else Ret (identity, RSP_Switching (subprotocol version)).
End handshake.

(** ** What station and system agree on *)

Section accepted.
Context {Request HE : Type} `{!Http Request HE} `{!HttpLaws Request HE}.
Context (base64 : list Z → list Z).
Context (base64_inj : Inj (=) (=) base64).
Context (base64_printable : ∀ s, forallb is_printable (base64 s) = true).

Definition valid_header (h : HeaderDef) : Prop :=
  HeaderDef_new (hd_name h) (hd_value h) = Ok h ∧ Z.of_nat (length (hd_name h)) <= 65535.

Lemma basic_value_printable a : forallb is_printable (basic_value base64 a) = true.
Proof. unfold basic_value. rewrite forallb_app, base64_printable. done. Qed.

Lemma BasicAuth_value a : BasicAuth_header_value (Request := Request) (HE := HE) base64 a =
  Ret (basic_value base64 a).
Proof.
  unfold BasicAuth_header_value, header_value_expect.
  by rewrite value_printable by apply basic_value_printable.
Qed.

Lemma reserved name :
  bool_decide (to_ascii_lowercase name ∈ RESERVED_HEADER_NAMES) = true →
  to_ascii_lowercase name ∈ RESERVED_HEADER_NAMES.
Proof. apply bool_decide_eq_true. Qed.

(** Valid extra headers are inserted, and touch no reserved name. *)
Lemma extras_inserted r hs :
  Forall valid_header hs →
  ∃ r', insert_extras r hs = Ret r' ∧ uri_path r' = uri_path r ∧
    ∀ name, to_ascii_lowercase name ∈ RESERVED_HEADER_NAMES →
      header_get_all r' name = header_get_all r name.
Proof.
  intros Hhs. revert r. induction Hhs as [|h hs [Hv Hl] _ IH]; intros r; simpl; [by exists r|].
  unfold HeaderDef_new in Hv. destruct (bool_decide _) eqn:Hres in Hv; [done|].
  apply bool_decide_eq_false in Hres.
  destruct (_ || _) eqn:Hn in Hv; [done|].
  apply orb_false_iff in Hn as [Hne%bool_decide_eq_false Ht%negb_false_iff].
  destruct (negb _) eqn:Hp in Hv; [done|]. apply negb_false_iff in Hp.
  unfold insert_extra. rewrite name_token by done.
  unfold header_value_expect. rewrite value_printable by done. cbn [mbind outcome_bind].
  destruct (IH (header_insert r (hd_name h) (hd_value h))) as (r' & -> & Hpath & Hget).
  exists r'. split; [done|]. split; [by rewrite Hpath, path_insert|].
  intros name Hname. rewrite Hget, get_insert by done.
  destruct (decide _) as [Heq|]; [|done]. by rewrite Heq in Hres.
Qed.

Lemma subprotocol_facts v w :
  value_is_text (Request := Request) (HE := HE) (subprotocol v) = true ∧
  existsb (λ t, bool_decide (trim t = subprotocol w)) (split 44 (subprotocol v)) =
    bool_decide (v = w).
Proof.
  split; [apply text_printable; by destruct v|]. by destruct v, w.
Qed.

(** The request is built without panic. *)
Lemma dial_request_total config v :
  Forall valid_header (cc_extra_headers config) →
  ∃ r, dial_request (HE := HE) (Request := Request) base64 v config = Ret r.
Proof.
  intros Hext. unfold dial_request. destruct (into_client_request _) as [r0|e]; [|by eexists].
  destruct (cc_basic_auth config) as [a|]; [rewrite BasicAuth_value|]; cbn [mbind outcome_bind];
    match goal with |- context [insert_extras ?r _] =>
      destruct (extras_inserted r (cc_extra_headers config) Hext) as (r' & -> & _) end;
    by eexists.
Qed.

(** The credential a station sends is one the system expects. *)
Definition credentials_accepted (server client : option BasicAuth) : bool :=
  match server, client with
  | None, _ => true
  | Some _, None => false
  | Some a, Some b => bool_decide (credential_text b = credential_text a)
  end.

Lemma matches_spec a values :
  BasicAuth_matches (Request := Request) (HE := HE) base64 a (head values) =
  Ret (match values with [] => false | v :: _ => bool_decide (v = basic_value base64 a) end).
Proof.
  destruct values as [|v values]; [done|]. simpl. rewrite BasicAuth_value. simpl. f_equal.
  destruct (decide (v = basic_value base64 a)) as [->|Hne]; [by rewrite !bool_decide_true|].
  by rewrite (bool_decide_false (v = _)), andb_false_r.
Qed.

Lemma basic_value_eq a b :
  bool_decide (basic_value base64 b = basic_value base64 a) =
  bool_decide (credential_text b = credential_text a).
Proof.
  apply bool_decide_ext. unfold basic_value. split; [|by intros ->].
  by intros ?%app_inv_head%(inj base64).
Qed.

(** A station whose configuration holds valid extra headers always gets its
    request out, and the management system notes the identity of the requested
    path and accepts the connection exactly if it asks for no credential or the
    station sends the one it expects, and both speak the same version; no extra
    header can change that. *)
Theorem dial_accepted config v w server_auth r0 :
  into_client_request (cc_url config) = Ok r0 →
  header_get_all r0 (bytes_of "authorization") = [] →
  Forall valid_header (cc_extra_headers config) →
  ∃ req, dial_request (HE := HE) base64 v config = Ret (Ok req) ∧
    handshake_callback (HE := HE) base64 server_auth w req =
    Ret (identity_from_path (uri_path r0),
         if credentials_accepted server_auth (cc_basic_auth config)
         then if bool_decide (v = w) then RSP_Switching (subprotocol w) else RSP_BadRequest
         else RSP_Unauthorized).
Proof.
  intros Hr0 Hauth Hext. unfold dial_request. rewrite Hr0.
  set (r1 := header_insert r0 _ _).
  assert (∃ r2, (match cc_basic_auth config with
      | None => Ret r1
      | Some auth =>
          value ← BasicAuth_header_value (HE := HE) (Request := Request) base64 auth;
          Ret (header_insert r1 (bytes_of "Authorization") value)
      end) = Ret r2 ∧ uri_path r2 = uri_path r0 ∧
    header_get_all r2 (bytes_of "sec-websocket-protocol") = [subprotocol v] ∧
    header_get_all r2 (bytes_of "authorization") =
      match cc_basic_auth config with None => [] | Some a => [basic_value base64 a] end)
    as (r2 & -> & Hp2 & Hs2 & Ha2).
  { destruct (cc_basic_auth config) as [a|].
    - rewrite BasicAuth_value. cbn [mbind outcome_bind]. eexists. split; [done|].
      unfold r1. by rewrite !path_insert, !get_insert.
    - exists r1. unfold r1. by rewrite path_insert, !get_insert. }
  cbn [mbind outcome_bind].
  destruct (extras_inserted r2 (cc_extra_headers config) Hext) as (r3 & -> & Hp3 & Hg3).
  exists r3. split; [done|]. unfold handshake_callback, header_get, subprotocol_matches.
  rewrite !Hg3 by (apply reserved; reflexivity). rewrite Hp3, Hp2, Hs2, Ha2.
  destruct (subprotocol_facts v w) as [Ht Hm]. simpl. rewrite Ht, Hm, orb_false_r. simpl.
  destruct server_auth as [a|]; simpl.
  - rewrite matches_spec. destruct (cc_basic_auth config) as [b|]; simpl; [|done].
    rewrite basic_value_eq. destruct (bool_decide (_ = credential_text a)); [|done].
    simpl. by destruct (bool_decide (v = w)).
  - by destruct (bool_decide (v = w)).
Qed.
End accepted.

(** ** A world *)

(** A request as its target and its headers under lower-case names; an encoding
    in hexadecimal digits. *)
#[export] Instance demo_http : Http (list Z * list (list Z * list Z)) unit := {
  into_client_request url := Ok (url, []);
  header_insert r n v :=
    (r.1, (to_ascii_lowercase n, v) :: filter (λ h, h.1 ≠ to_ascii_lowercase n) r.2);
  header_get_all r m := (filter (λ h, h.1 = to_ascii_lowercase m) r.2).*2;
  uri_path r := r.1;
  uri_scheme _ := None;
  header_name_ok _ := true;
  header_value_ok _ := true;
  value_is_text _ := true
}.

#[export] Instance demo_http_laws : HttpLaws (list Z * list (list Z * list Z)) unit.
Proof.
  split; try done. intros [url hs] n v m. simpl. destruct (decide _) as [Heq|Hne].
  - rewrite filter_cons_True by done. simpl. f_equal. rewrite <-Heq.
    induction hs as [|h hs IH]; [done|].
    destruct (decide (h.1 = to_ascii_lowercase n)) as [H|H].
    + rewrite (filter_cons_False (λ h, h.1 ≠ _)) by (by intros Hn). done.
    + rewrite (filter_cons_True (λ h, h.1 ≠ _)) by done.
      by rewrite (filter_cons_False (λ h, h.1 = _)) by done.
  - rewrite filter_cons_False by done.
    f_equal. induction hs as [|h hs IH]; [done|].
    destruct (decide (h.1 = to_ascii_lowercase n)) as [H|H].
    + rewrite (filter_cons_False (λ h, h.1 ≠ _)) by (by intros Hn).
      rewrite (filter_cons_False (λ h, h.1 = to_ascii_lowercase m)); [done|]. congruence.
    + rewrite (filter_cons_True (λ h, h.1 ≠ _)) by done.
      destruct (decide (h.1 = to_ascii_lowercase m)).
      * rewrite !(filter_cons_True (λ h, h.1 = to_ascii_lowercase m)) by done. by rewrite IH.
      * by rewrite !(filter_cons_False (λ h, h.1 = to_ascii_lowercase m)) by done.
Qed.

(** An injective printable encoding: each integer in unary, its sign by the digit. *)
Definition demo_base64 (s : list Z) : list Z :=
  mjoin ((λ b, repeat 65 (Z.to_nat b) ++ repeat 66 (Z.to_nat (- b)) ++ [61]) <$> s).

Fixpoint demo_decode (acc : Z) (s : list Z) : list Z :=
  match s with
  | [] => []
  | c :: s' =>
      if c =? 61 then acc :: demo_decode 0 s'
      else demo_decode (if c =? 65 then acc + 1 else acc - 1) s'
  end.

Lemma demo_decode_digits c n acc s :
  c ≠ 61 →
  demo_decode acc (repeat c n ++ s) =
  demo_decode (if c =? 65 then acc + Z.of_nat n else acc - Z.of_nat n) s.
Proof.
  intros Hc. revert acc. induction n as [|n IH]; intros acc.
  - simpl. f_equal. zcase; lia.
  - cbn [repeat app demo_decode]. destruct (Z.eqb_spec c 61); [done|]. rewrite IH. f_equal.
    zcase; lia.
Qed.

#[export] Instance demo_base64_inj : Inj (=) (=) demo_base64.
Proof.
  assert (∀ s, demo_decode 0 (demo_base64 s) = s) as Hd.
  { unfold demo_base64. induction s as [|b s IH]; [done|]. cbn [fmap list_fmap mjoin list_join].
    rewrite <-!app_assoc, !demo_decode_digits by done. cbn.
    f_equal; [lia|]. exact IH. }
  intros s t H. by rewrite <-(Hd s), H, Hd.
Qed.

Lemma demo_base64_printable s : forallb is_printable (demo_base64 s) = true.
Proof.
  unfold demo_base64. induction s as [|b s IH]; [done|]. cbn [fmap list_fmap mjoin list_join].
  rewrite !forallb_app. apply andb_true_intro. split; [|exact IH].
  assert (∀ c n, is_printable c = true → forallb is_printable (repeat c n) = true) as Hr
    by (intros c n Hc; induction n as [|n IHn]; simpl; [done|by rewrite Hc]).
  by rewrite !Hr.
Qed.

Definition demo_config : CsConfig :=
  mkCsConfig (bytes_of "ws://host:9000/ocpp/CS001/") 30000
    (Some (mkBasicAuth (bytes_of "station") (bytes_of "secret"))) CP_None
    [mkHeaderDef (bytes_of "X-Site") (bytes_of "a b")] true.

Lemma dial_accepted_witness :
  ∃ req, dial_request (HE := unit) (Request := list Z * list (list Z * list Z))
      demo_base64 V2_0_1 demo_config = Ret (Ok req) ∧
    handshake_callback (HE := unit) demo_base64
      (Some (mkBasicAuth (bytes_of "station") (bytes_of "secret"))) V2_0_1 req =
    Ret (Some (bytes_of "CS001"), RSP_Switching (bytes_of "ocpp2.0.1")).
Proof.
  destruct (dial_accepted (HE := unit) demo_base64 demo_base64_inj demo_base64_printable
    demo_config V2_0_1 V2_0_1 (Some (mkBasicAuth (bytes_of "station") (bytes_of "secret")))
    (bytes_of "ws://host:9000/ocpp/CS001/", [])) as (req & H1 & H2).
  - reflexivity.
  - reflexivity.
  - constructor; [|constructor]. split; [reflexivity|vm_compute; discriminate].
  - exists req. split; [exact H1|]. rewrite H2. reflexivity.
Defined.
