(* ===== verification/OcppClient.v ===== *)
(** * The charging station's client task

    Models [ferrowl-ocpp/src/cs/]: dialing the management system, the command
    loop of a connected station and the reconnect loop around them. What the
    environment does is an input: the outcome of a connect, the steps of the
    connection's own tasks, when commands are received. A caller that awaits a
    reply is a number; where its reply channel went is recorded. *)

From stdpp Require Import base list gmap numbers strings.
From S2P Require Import Prelude IntText Text TlsMaterial OcppHandshake OcppMessage OcppConn Backoff Channel.

(** Each of the two crates has its own levels. *)
Inductive OcLevel := OL_Info | OL_Warning | OL_Error.

Inductive CsCommand (Action : Type) :=
| CSC_Terminate
| CSC_SendAction (action : Action)
| CSC_SendActionAwait (action : Action) (caller : nat).
Arguments CSC_Terminate {Action}.
Arguments CSC_SendAction {Action}.
Arguments CSC_SendActionAwait {Action}.

(** Where the reply channel of a caller went: to the waiter of a call on the
    numbered connection, or dropped, which the caller sees as a closed
    channel. *)
Inductive CallerFate := CF_Call (conn waiter : nat) | CF_Dropped.

Inductive CsError (IE GE RE WE : Type) :=
| CSE_Ws (e : WE) | CSE_Tls (e : OcTlsError IE GE RE) | CSE_Disconnected.
Arguments CSE_Ws {IE GE RE WE}.
Arguments CSE_Tls {IE GE RE WE}.
Arguments CSE_Disconnected {IE GE RE WE}.

Inductive AttemptResult (E : Type) := AR_DialFailed (e : E) | AR_Terminated | AR_Disconnected.
Arguments AR_DialFailed {E}.
Arguments AR_Terminated {E}.
Arguments AR_Disconnected {E}.

Definition classify_attempt {IE GE RE WE} (result : AttemptResult (CsError IE GE RE WE))
    (reconnect : bool) : AttemptOutcome (CsError IE GE RE WE) :=
  match result with
  | AR_DialFailed error => AO_Failed error reconnect false
  | AR_Terminated => AO_Done
  | AR_Disconnected => AO_Failed CSE_Disconnected reconnect true
  end.

Inductive RunEnd := RE_Terminated | RE_Disconnected.

Section client.
Context {Num Text JE VE Action Response : Type} `{Version Num JE VE Action Response}.
Context {Request Cert Key Params KeyPair Roots Verifier CConfig SConfig IE GE RE WE : Type}.
Context `{!Http Request WE} `{!TlsLib Cert Key Params KeyPair Roots IE GE RE}.
Context `{!OcTls Cert Key Roots Verifier CConfig SConfig IE RE}.
(** Of the libraries: JSON texts, the printed form of errors, base64; of the
    environment: the home directory; of the application: what it answers. *)
Context (json_from_str : Text → Result (Json Num) JE).
Context (json_error_text : JE → string) (validation_text : VE → string).
Context (handle : Action → Result Response (CallError Num)).
Context (base64 : list Z → list Z) (home : option (list Z)) (key_encoding_text : GE → string).
Context (version : OcppVersion).

Abbreviation Conn := (ConnState (Num := Num) (JE := JE) (WE := WE)
  (Action := Action) (Response := Response)).
Abbreviation CsErr := (CsError IE GE RE WE).
Abbreviation Tls := (TlsState Cert Key).

(** ** Dialing *)

(** [connect_async_tls_with_config]. *)
Definition Connect : Type := Request → option (Connector CConfig) → Result unit WE.

Definition dial (config : CsConfig) (connect : Connect) (tls : Tls)
  : Outcome (Result unit CsErr * Tls) :=
  request ← dial_request (HE := WE) base64 version config;
  match request with
  | Err e => Ret (Err (CSE_Ws e), tls)
  | Ok request =>
      let '(connector, tls) :=
        (if bool_decide (uri_scheme request = Some (bytes_of "wss"))
         then
           let '(built, tls) :=
             build_connector (Verifier := Verifier) (SConfig := SConfig) home key_encoding_text
               (cc_tls config) tls in
           (match built with Ok c => Ok (Some c) | Err e => Err e end, tls)
         else (Ok None, tls)) in
      match connector with
      | Err e => Ret (Err (CSE_Tls e), tls)
      | Ok connector =>
          Ret (match connect request connector with Ok _ => Ok tt | Err e => Err (CSE_Ws e) end, tls)
      end
  end.

(** ** A connected station *)

Inductive CsMsg :=
| CSM_CommandDropped
| CSM_SendFailed (action : Action)
| CSM_DialFailed (e : CsErr)
| CSM_Connected
| CSM_ConnectionDropped
| CSM_Reconnecting (seconds : Z)
| CSM_Disconnected.

(** A step of the connection's reader, its waiting and handler tasks or its
    writer. *)
Inductive ConnTask :=
| TE_Item (item : StreamItem (Text := Text) (WE := WE))
| TE_Timeout (w : nat)
| TE_HandlerDone (k : nat)
| TE_WriterEnds.

Definition task_step (ev : ConnTask) (c : Conn) : Conn :=
  conn_step json_from_str json_error_text validation_text handle c
    (match ev with
     | TE_Item item => CE_Item item
     | TE_Timeout w => CE_Timeout w
     | TE_HandlerDone k => CE_HandlerDone k
     | TE_WriterEnds => CE_WriterEnds
     end).

(** What happens next while connected: a task's step, or a branch of the
    command loop's [select!], with the id generated if a call is sent. *)
Inductive CsEvent := CV_Task (ev : ConnTask) | CV_Notified | CV_Recv (id : string).

(** The connection, the commands, and what became of the callers so far. *)
Record CsRun := mkCsRun {
  cr_conn : Conn;
  cr_commands : Commands (CsCommand Action);
  cr_callers : list (nat * CallerFate);
  cr_log : list (OcLevel * CsMsg)
}.

(** One event of the loop of [core::run]; [Some] ends it. [number] counts the
    connections before this one. *)
Definition cs_run_step (number : nat) (s : CsRun) (ev : CsEvent) : option RunEnd * CsRun :=
  match ev with
  | CV_Task ev => (None, mkCsRun (task_step ev (cr_conn s)) (cr_commands s) (cr_callers s) (cr_log s))
  | CV_Notified => (if cn_notified (cr_conn s) then Some RE_Disconnected else None, s)
  | CV_Recv id =>
      let '(cmd, commands) := Commands_recv (cr_commands s) in
      match cmd with
      | None | Some CSC_Terminate =>
          (Some RE_Terminated, mkCsRun (cr_conn s) commands (cr_callers s) (cr_log s))
      | Some (CSC_SendAction action) =>
          let '(sent, c) := conn_fire (cr_conn s) id action in
          let log := if sent then cr_log s else cr_log s ++ [(OL_Error, CSM_SendFailed action)] in
          (None, mkCsRun c commands (cr_callers s) log)
      | Some (CSC_SendActionAwait action caller) =>
          let w := length (cn_waiters (cr_conn s)) in
          let c := conn_call json_error_text validation_text (cr_conn s) id action in
          (None, mkCsRun c commands (cr_callers s ++ [(caller, CF_Call number w)]) (cr_log s))
      end
  end.

Fixpoint cs_run_events (number : nat) (events : list CsEvent) (s : CsRun) : option RunEnd * CsRun :=
  match events with
  | [] => (None, s)
  | ev :: events' =>
      match cs_run_step number s ev with
      | (Some r, s) => (Some r, s)
      | (None, s) => cs_run_events number events' s
      end
  end.

(** [core::run]: the loop from a fresh connection, then the teardown. *)
Definition cs_run (number : nat) (events : list CsEvent) (commands : Commands (CsCommand Action))
    (callers : list (nat * CallerFate)) (log : list (OcLevel * CsMsg)) : option RunEnd * CsRun :=
  match cs_run_events number events (mkCsRun Connection_start commands callers log) with
  | (None, s) => (None, s)
  | (Some r, s) =>
      (Some r, mkCsRun (conn_shutdown (cr_conn s)) (cr_commands s) (cr_callers s) (cr_log s))
  end.

(** ** The reconnect loop *)

(** What the environment does in one round: the configuration found, the race
    of the dial and whether it had run when it was abandoned, the connect's
    answer, the events while connected, and the arrivals during the wait. *)
Record CsRound := mkCsRound {
  sr_config : CsConfig;
  sr_race : list RaceEvent;
  sr_dialled : bool;
  sr_connect : Connect;
  sr_run : list CsEvent;
  sr_wait : list (Z * bool)
}.

(** [ct_conns]: the connections made so far, the last one perhaps still up. *)
Record CsTask := mkCsTask {
  ct_receiver : Receiver (CsCommand Action);
  ct_tls : Tls;
  ct_conns : list Conn;
  ct_callers : list (nat * CallerFate);
  ct_log : list (OcLevel * CsMsg);
  ct_status : list (OcLevel * CsMsg);
  ct_wait : list (Z * bool);
  ct_rounds : list CsRound
}.

Definition cs_is_terminate (cmd : CsCommand Action) : bool :=
  match cmd with CSC_Terminate => true | _ => false end.

(** The callers of commands that are dropped. *)
Definition dropped_callers (cmds : list (CsCommand Action)) : list (nat * CallerFate) :=
  omap (λ cmd, match cmd with CSC_SendActionAwait _ k => Some (k, CF_Dropped) | _ => None end) cmds.

Definition ct_say (t : CsTask) (level : OcLevel) (msg : CsMsg) : CsTask :=
  mkCsTask (ct_receiver t) (ct_tls t) (ct_conns t) (ct_callers t) (ct_log t)
    (ct_status t ++ [(level, msg)]) (ct_wait t) (ct_rounds t).

(** Some commands dropped, each with the log line if [logged]. *)
Definition ct_drop (t : CsTask) (logged : bool) (cmds : list (CsCommand Action)) : CsTask :=
  mkCsTask (ct_receiver t) (ct_tls t) (ct_conns t) (ct_callers t ++ dropped_callers cmds)
    (ct_log t ++ if logged then (λ _, (OL_Warning, CSM_CommandDropped)) <$> cmds else [])
    (ct_status t) (ct_wait t) (ct_rounds t).

Definition ct_with_receiver (t : CsTask) (receiver : Receiver (CsCommand Action)) : CsTask :=
  mkCsTask receiver (ct_tls t) (ct_conns t) (ct_callers t) (ct_log t) (ct_status t)
    (ct_wait t) (ct_rounds t).

Definition ct_with_tls (t : CsTask) (tls : Tls) : CsTask :=
  mkCsTask (ct_receiver t) tls (ct_conns t) (ct_callers t) (ct_log t) (ct_status t)
    (ct_wait t) (ct_rounds t).

(** A connection's run brought back into the task; while it is running its
    queued commands are still to be received. *)
Definition ct_ran (t : CsTask) (s : CsRun) : CsTask :=
  mkCsTask (cm_receiver (cr_commands s)) (ct_tls t) (ct_conns t ++ [cr_conn s]) (cr_callers s)
    (cr_log s) (ct_status t) (ct_wait t) (ct_rounds t).

(** The closure [attempt] of [run_reconnect_loop]. The commands still parked
    when an attempt ends are dropped with the attempt. *)
Definition cs_attempt (t : CsTask) : Outcome (option (AttemptOutcome CsErr) * CsTask) :=
  match ct_rounds t with
  | [] => Ret (None, t)
  | rd :: rounds =>
      let t := mkCsTask (ct_receiver t) (ct_tls t) (ct_conns t) (ct_callers t) (ct_log t)
                 (ct_status t) (sr_wait rd) rounds in
      let config := sr_config rd in
      dialled ← dial config (sr_connect rd) (ct_tls t);
      let reconnect := cc_reconnect config in
      match race_terminate dialled cs_is_terminate (sr_race rd) (ct_receiver t) [] with
      | (None, receiver, parked) => Ret (None, ct_with_receiver t (parked ++ receiver))
      | (Some None, receiver, parked) =>
          let t := if sr_dialled rd then ct_with_tls t dialled.2 else t in
          Ret (Some AO_Done, ct_drop (ct_with_receiver t receiver) false parked)
      | (Some (Some (dial_result, tls)), receiver, parked) =>
          let t := ct_with_tls (ct_with_receiver t receiver) tls in
          match dial_result with
          | Err e =>
              let t := ct_say (ct_drop t true parked) OL_Error (CSM_DialFailed e) in
              Ret (Some (classify_attempt (AR_DialFailed e) reconnect), t)
          | Ok _ =>
              let t := ct_say t OL_Info CSM_Connected in
              let '(run_end, s) :=
                cs_run (length (ct_conns t)) (sr_run rd) (mkCommands receiver parked)
                  (ct_callers t) (ct_log t) in
              let t := ct_ran t s in
              let queued := cm_queued (cr_commands s) in
              match run_end with
              | None => Ret (None, ct_with_receiver t (queued ++ ct_receiver t))
              | Some RE_Terminated =>
                  Ret (Some (classify_attempt AR_Terminated reconnect), ct_drop t false queued)
              | Some RE_Disconnected =>
                  let t := ct_say t OL_Warning CSM_ConnectionDropped in
                  Ret (Some (classify_attempt AR_Disconnected reconnect), ct_drop t false queued)
              end
          end
      end
  end.

(** The closure [wait_abortable]. *)
Definition cs_wait (backoff : Z) (t : CsTask) : bool * CsTask :=
  let t := ct_say t OL_Info (CSM_Reconnecting (backoff `div` 10 ^ 9)) in
  let arrivals := imap (λ i w, mkArrival w.1 (ct_receiver t !! i) w.2) (ct_wait t) in
  let '(aborted, _, dropped) := wait_backoff cs_is_terminate 0 backoff arrivals in
  let t := ct_drop t true (take dropped (ct_receiver t)) in
  let taken := if aborted then S dropped else dropped in
  (aborted, mkCsTask (drop taken (ct_receiver t)) (ct_tls t) (ct_conns t) (ct_callers t) (ct_log t)
              (ct_status t) [] (ct_rounds t)).

(** [run_reconnect_loop]; at its end the command channel goes with it. *)
Definition cs_reconnect_loop (fuel : nat) (t : CsTask) : Outcome (option (Result unit CsErr) * CsTask) :=
  '(result, t) ← run_with_backoff cs_attempt cs_wait BackoffPolicy_default fuel t;
  match result with
  | None => Ret (None, t)
  | Some r =>
      let t := ct_drop (ct_say t OL_Info CSM_Disconnected) false (ct_receiver t) in
      Ret (Some r, ct_with_receiver t [])
  end.

(** A task just spawned. *)
Definition cs_spawn (receiver : Receiver (CsCommand Action)) (tls : Tls) (rounds : list CsRound)
  : CsTask := mkCsTask receiver tls [] [] [] [] [] rounds.
End client.
Arguments CsMsg : clear implicits.
Arguments CsRound : clear implicits.
Arguments CsTask : clear implicits.
