(* ===== verification/OcppClientProps.v ===== *)
(** * Properties of the charging station's client task *)

From stdpp Require Import base list gmap numbers strings.
From S2P Require Import Prelude IntText Text TlsMaterial TlsMaterialProps OcppHandshake OcppMessage OcppConn OcppConnProps Backoff Channel OcppClient.

Section props.
Context {Num Text JE VE Action Response : Type} `{Version Num JE VE Action Response}.
Context {Request Cert Key Params KeyPair Roots Verifier CConfig SConfig IE GE RE WE : Type}.
Context `{!Http Request WE} `{!HttpLaws Request WE} `{!TlsLib Cert Key Params KeyPair Roots IE GE RE}.
Context `{!OcTls Cert Key Roots Verifier CConfig SConfig IE RE}.
Context (json_from_str : Text → Result (Json Num) JE).
Context (json_error_text : JE → string) (validation_text : VE → string).
Context (handle : Action → Result Response (CallError Num)).
Context (base64 : list Z → list Z) (home : option (list Z)) (key_encoding_text : GE → string).
Context (base64_printable : ∀ s, forallb is_printable (base64 s) = true).
Context (version : OcppVersion).

Abbreviation Conn := (ConnState (Num := Num) (JE := JE) (WE := WE)
  (Action := Action) (Response := Response)).
Abbreviation call := (conn_call (WE := WE) json_error_text validation_text).
Abbreviation Cmd := (CsCommand Action).
Abbreviation ClientTask := (CsTask Num Text JE Action Response Request Cert Key CConfig IE GE RE WE).
Abbreviation Run := (CsRun (Num := Num) (JE := JE) (Action := Action) (Response := Response)
  (IE := IE) (GE := GE) (RE := RE) (WE := WE)).
Abbreviation cs_step := (cs_run_step (IE := IE) (GE := GE) (RE := RE)
  json_from_str json_error_text validation_text handle).
Abbreviation cs_events := (cs_run_events (IE := IE) (GE := GE) (RE := RE)
  json_from_str json_error_text validation_text handle).
Abbreviation attempt := (cs_attempt (Verifier := Verifier) (SConfig := SConfig) (Params := Params)
  (KeyPair := KeyPair) (Roots := Roots) json_from_str json_error_text validation_text handle
  base64 home key_encoding_text version).
Abbreviation loop := (cs_reconnect_loop (Verifier := Verifier) (SConfig := SConfig) (Params := Params)
  (KeyPair := KeyPair) (Roots := Roots) json_from_str json_error_text validation_text handle
  base64 home key_encoding_text version).
Implicit Types (c : Conn) (t : ClientTask) (s : Run) (conns : list Conn).

(** ** Callers *)

(** The callers among some commands, with the action each wants called. *)
Definition awaiting (cmds : list Cmd) : list (nat * Action) :=
  omap (λ cmd, match cmd with CSC_SendActionAwait a k => Some (k, a) | _ => None end) cmds.

(** The fate recorded for a caller is true: a call of its action was made on
    that connection. *)
Definition fate_ok conns (caller : nat * Action) (f : nat * CallerFate) : Prop :=
  f.1 = caller.1 ∧
  match f.2 with
  | CF_Call i w => ∃ c x, conns !! i = Some c ∧ cn_waiters c !! w = Some x ∧ w_action x = caller.2
  | CF_Dropped => True
  end.

(** Of the callers [all], those recorded come first, each with its fate, and the
    others are still to be received. *)
Definition accounted (all : list (nat * Action)) conns (fates : list (nat * CallerFate))
    (cmds : list Cmd) : Prop :=
  ∃ taken, all = taken ++ awaiting cmds ∧ Forall2 (fate_ok conns) taken fates.

Lemma awaiting_app l l' : awaiting (l ++ l') = awaiting l ++ awaiting l'.
Proof. apply omap_app. Qed.

Lemma fate_ok_more conns conns' caller f :
  (∀ i c, conns !! i = Some c → ∃ c', conns' !! i = Some c' ∧
     keeps_replies (cn_waiters c) (cn_waiters c')) →
  fate_ok conns caller f → fate_ok conns' caller f.
Proof.
  intros Hc [H1 H2]. split; [done|]. destruct (f.2) as [i w|]; [|done].
  destruct H2 as (c & x & Hi & Hx & Ha). destruct (Hc i c Hi) as (c' & Hi' & Hk).
  destruct (Hk w x Hx) as (x' & Hx' & Ha' & _). exists c', x'. by rewrite Ha'.
Qed.

Lemma accounted_more all conns conns' fates cmds :
  (∀ i c, conns !! i = Some c → ∃ c', conns' !! i = Some c' ∧
     keeps_replies (cn_waiters c) (cn_waiters c')) →
  accounted all conns fates cmds → accounted all conns' fates cmds.
Proof.
  intros Hc (taken & Ht & Hf). exists taken. split; [done|].
  eapply Forall2_impl; [exact Hf|]. intros. by eapply fate_ok_more.
Qed.

(** The connection that is up changes. *)
Lemma accounted_last all conns c c' fates cmds :
  keeps_replies (cn_waiters c) (cn_waiters c') →
  accounted all (conns ++ [c]) fates cmds → accounted all (conns ++ [c']) fates cmds.
Proof.
  intros Hk. apply accounted_more. intros i x [Hi|[Hge Hi]]%lookup_app_Some.
  - exists x. split; [by apply lookup_app_l_Some|apply keeps_refl].
  - apply list_lookup_singleton_Some in Hi as [Hz <-]. exists c'. split; [|done].
    rewrite lookup_app_r by done. by rewrite Hz.
Qed.

Lemma accounted_new all conns c fates cmds :
  accounted all conns fates cmds → accounted all (conns ++ [c]) fates cmds.
Proof.
  apply accounted_more. intros i x Hi. exists x. split; [by apply lookup_app_l_Some|apply keeps_refl].
Qed.

(** Dropping commands gives their callers their fate. *)
Lemma accounted_drop all conns fates cmds cmds' :
  accounted all conns fates (cmds ++ cmds') →
  accounted all conns (fates ++ dropped_callers cmds) cmds'.
Proof.
  intros (taken & -> & Hf). exists (taken ++ awaiting cmds).
  rewrite awaiting_app, app_assoc. split; [done|]. apply Forall2_app; [done|].
  clear. induction cmds as [|[|a|a k] cmds IH]; [done|exact IH|exact IH|].
  constructor; [done|exact IH].
Qed.

Lemma accounted_skip all conns fates cmd cmds :
  match cmd with CSC_SendActionAwait _ _ => False | _ => True end →
  accounted all conns fates (cmd :: cmds) ↔ accounted all conns fates cmds.
Proof. by destruct cmd. Qed.

(** ** A connected station *)

(** The connection is consistent and every caller accounted for. *)
Definition run_ok (all : list (nat * Action)) conns s : Prop :=
  table_ok (cr_conn s) ∧ tracked_ok (cr_conn s) ∧
  accounted all (conns ++ [cr_conn s]) (cr_callers s)
    (cm_queued (cr_commands s) ++ cm_receiver (cr_commands s)).

(** The connection takes a step of its own. *)
Lemma run_ok_conn all conns s ev commands log :
  run_ok all conns s →
  cm_queued commands ++ cm_receiver commands =
    cm_queued (cr_commands s) ++ cm_receiver (cr_commands s) →
  let c := conn_step json_from_str json_error_text validation_text handle (cr_conn s) ev in
  run_ok all conns (mkCsRun c commands (cr_callers s) log).
Proof.
  intros (Ht & Htr & Ha) Hc c. destruct (conn_step_ok json_from_str json_error_text validation_text
    handle (cr_conn s) ev Ht) as [H1 H2].
  split_and!; [exact H1|by apply step_tracked|]. simpl. rewrite Hc. by eapply accounted_last.
Qed.

Lemma run_step_ok all conns s ev :
  run_ok all conns s → run_ok all conns (cs_step (length conns) s ev).2.
Proof.
  intros Hok. destruct ev as [ev| |id]; simpl.
  - by apply run_ok_conn.
  - done.
  - pose proof (Commands_recv_order (cr_commands s)) as Ho.
    destruct (Commands_recv (cr_commands s)) as [[cmd|] commands].
    2: { destruct Ho as [Ho1 Ho2]. destruct Hok as (Ht & Htr & Ha). split_and!; [done|done|].
         simpl. by rewrite Ho2, <-Ho1. }
    destruct Hok as (Ht & Htr & Ha). rewrite Ho in Ha. destruct cmd as [|a|a k].
    + split_and!; [done|done|]. exact Ha.
    + pose proof (run_ok_conn all conns
        (mkCsRun (cr_conn s) commands (cr_callers s) (cr_log s)) (CE_Fire id a) commands
        (if (conn_fire (cr_conn s) id a).1 then cr_log s
         else cr_log s ++ [(OL_Error, CSM_SendFailed a)])) as Hr.
      simpl in Hr. destruct (conn_fire (cr_conn s) id a) as [sent c]. apply Hr; [|done].
      split_and!; [done|done|exact Ha].
    + destruct (conn_step_ok json_from_str json_error_text validation_text handle (cr_conn s)
        (CE_Call id a) Ht) as [H1 H2].
      split_and!; [exact H1| |].
      * by apply (step_tracked json_from_str json_error_text validation_text handle (cr_conn s)
          (CE_Call id a)).
      * simpl. eapply accounted_last in Ha; [|exact H2]. simpl in Ha.
        destruct Ha as (taken & Hall & Hf). exists (taken ++ [(k, a)]). split.
        { rewrite Hall. by rewrite <-app_assoc. }
        apply Forall2_app; [done|]. constructor; [|constructor]. split; [done|].
        destruct (call_waiter json_error_text validation_text (cr_conn s) id a) as (x & Hx & Hxa).
        eexists _, x. split; [by rewrite lookup_app_r, Nat.sub_diag|]. done.
Qed.

Lemma run_events_ok all conns events s :
  run_ok all conns s → run_ok all conns (cs_events (length conns) events s).2.
Proof.
  revert s. induction events as [|ev events IH]; intros s Hok; simpl; [done|].
  pose proof (run_step_ok all conns s ev Hok) as H1.
  destruct (cs_step (length conns) s ev) as [[r|] s1]; [done|by apply IH].
Qed.

(** A connection that is over: no caller waits and nothing runs. *)
Definition conn_over c : Prop := settled c ∧ torn_down c.

Lemma shutdown_over c :
  table_ok c → tracked_ok c →
  conn_over (conn_shutdown c) ∧ keeps_replies (cn_waiters c) (cn_waiters (conn_shutdown c)).
Proof.
  intros Ht Htr. destruct (fail_all_replied (abort_all (cn_abort_reader c))
    (CallError_new CC_GenericError "connection terminated") Ht) as [Hr Hk].
  split; [|exact Hk]. split; [by split|]. split; [done|]. split; [done|].
  by apply (abort_none_running (cn_abort_reader c)).
Qed.

Lemma start_run_ok all conns commands callers log :
  accounted all conns callers (cm_queued commands ++ cm_receiver commands) →
  run_ok all conns (mkCsRun (IE := IE) (GE := GE) (RE := RE) Connection_start commands callers log).
Proof. intros Ha. split_and!; [apply start_ok|by intros k h|]. by apply accounted_new. Qed.

(** What a whole run of the connection leaves. *)
Lemma cs_run_ok all conns events commands callers log :
  accounted all conns callers (cm_queued commands ++ cm_receiver commands) →
  let '(r, s) := cs_run (IE := IE) (GE := GE) (RE := RE) json_from_str json_error_text
    validation_text handle (length conns) events commands callers log in
  accounted all (conns ++ [cr_conn s]) (cr_callers s)
    (cm_queued (cr_commands s) ++ cm_receiver (cr_commands s)) ∧
  (r ≠ None → conn_over (cr_conn s)).
Proof.
  intros Ha. unfold cs_run.
  pose proof (run_events_ok all conns events _ (start_run_ok all conns commands callers log Ha)) as Hok.
  destruct (cs_events _ _ _) as [[r|] s]; simpl in Hok; destruct Hok as (Ht & Htr & Hacc).
  - destruct (shutdown_over (cr_conn s) Ht Htr) as [Hov Hk]. simpl. split; [|done].
    by eapply accounted_last.
  - by split.
Qed.

(** ** The task *)

Context (all : list (nat * Action)).
Context (rounds0 : list (CsRound Text Request CConfig WE)).

(** What holds between rounds: every caller is accounted for, every connection
    made is over, and the rounds to come are among [rounds0]. *)
Definition task_ok t : Prop :=
  accounted all (ct_conns t) (ct_callers t) (ct_receiver t) ∧
  Forall conn_over (ct_conns t) ∧
  (∀ rd, rd ∈ ct_rounds t → rd ∈ rounds0).

Lemma ct_drop_ok t logged cmds receiver :
  ct_receiver t = cmds ++ receiver → task_ok t → task_ok (ct_with_receiver (ct_drop t logged cmds) receiver).
Proof.
  intros Hr (Ha & Hc & Hrd). split; [|by split]. simpl. rewrite Hr in Ha. by apply accounted_drop.
Qed.

Lemma dial_total config connect tls :
  Forall valid_header (cc_extra_headers config) →
  ∃ r, dial (Verifier := Verifier) (SConfig := SConfig) (Params := Params) (KeyPair := KeyPair)
    (Roots := Roots) (IE := IE) (GE := GE) (RE := RE) (CConfig := CConfig) (Request := Request)
    (WE := WE) (Cert := Cert) (Key := Key)
    base64 home key_encoding_text version config connect tls = Ret r.
Proof.
  intros Hv. unfold dial.
  destruct (dial_request_total (HE := WE) base64 base64_printable config version Hv) as [[req|e] ->];
    cbn [mbind outcome_bind]; [|by eexists].
  case_bool_decide; [destruct (build_connector _ _ _ _) as [[cn|e] tls']|]; by eexists.
Qed.

(** Only a configuration without reconnecting makes a failure final. *)
Definition outcome_ok (out : AttemptOutcome (CsError IE GE RE WE)) : Prop :=
  match out with
  | AO_Failed _ false _ => ∃ rd, rd ∈ rounds0 ∧ cc_reconnect (sr_config rd) = false
  | _ => True
  end.

Lemma classify_ok rd result :
  rd ∈ rounds0 → outcome_ok (classify_attempt result (cc_reconnect (sr_config rd))).
Proof.
  intros Hrd. destruct result; simpl; [|done|];
    (destruct (cc_reconnect _) eqn:Hr; [done|by exists rd]).
Qed.

Lemma attempt_ok t :
  Forall (λ rd, Forall valid_header (cc_extra_headers (sr_config rd))) rounds0 →
  task_ok t →
  ∃ out t', attempt t = Ret (out, t') ∧
    match out with Some out => task_ok t' ∧ outcome_ok out | None => True end.
Proof.
  intros Hv (Ha & Hc & Hrd). unfold cs_attempt.
  destruct (ct_rounds t) as [|rd rounds] eqn:Hrs; [by do 2 eexists|].
  assert (rd ∈ rounds0) as Hin by (apply Hrd; constructor).
  assert (∀ rd', rd' ∈ rounds → rd' ∈ rounds0) as Hrest by (intros; apply Hrd; by constructor).
  rewrite list.Forall_forall in Hv. cbn [ct_tls ct_receiver].
  destruct (dial_total (sr_config rd) (sr_connect rd) (ct_tls t) (Hv rd Hin)) as [dialled ->].
  cbn [mbind outcome_bind].
  destruct (race_terminate_spec dialled (cs_is_terminate (Action := Action)) (sr_race rd) (ct_receiver t) [])
    as (taken & Hnt & Hrace).
  destruct (race_terminate _ _ _ _ _) as [[[[[r tls]|]|] receiver] parked]; [| |by do 2 eexists].
  2: { do 2 eexists. split; [done|]. split; [|done]. destruct Hrace as (-> & Hrace).
       assert (accounted all (ct_conns t) (ct_callers t ++ dropped_callers taken) receiver) as Ha'.
       { apply accounted_drop. destruct Hrace as [[Hr ->]|(c & Hct & Hr)]; rewrite Hr in Ha;
           [by rewrite app_nil_r|]. destruct Ha as (tk & Hall & Hf). exists tk. split; [|done].
         rewrite Hall, !awaiting_app. by destruct c. }
       by destruct (sr_dialled rd). }
  destruct Hrace as (<- & -> & Hr). rewrite Hr in Ha. clear Hr.
  destruct r as [u|e].
  - pose proof (cs_run_ok all (ct_conns t) (sr_run rd) (mkCommands receiver ([] ++ taken))
      (ct_callers t) (ct_log t) Ha) as Hrun.
    cbn [ct_conns ct_say ct_with_tls ct_with_receiver ct_callers ct_log].
    destruct (cs_run _ _ _ _ _ _ _ _ _) as [run_end s]. destruct Hrun as [Hacc Hov].
    assert (∀ t', ct_conns t' = ct_conns t ++ [cr_conn s] → ct_callers t' = cr_callers s →
      ct_receiver t' = cm_receiver (cr_commands s) → ct_rounds t' = rounds → run_end ≠ None →
      task_ok (ct_drop t' false (cm_queued (cr_commands s)))) as Hdone.
    { intros t' E1 E2 E3 E4 Hne. split; [|split].
      - simpl. rewrite E1, E2, E3. by apply accounted_drop.
      - simpl. rewrite E1. apply Forall_app. split; [done|]. constructor; [by apply Hov|constructor].
      - simpl. by rewrite E4. }
    destruct run_end as [[]|]; do 2 eexists; (split; [done|]); [..|done];
      (split; [by apply Hdone|]); by apply classify_ok.
  - do 2 eexists. split; [done|]. split; [|by apply classify_ok].
    split; [|by split]. simpl. by apply accounted_drop.
Qed.

(** What ends a wait early is a terminate command or the end of the channel. *)
Lemma wait_loop_abort {C} (is_t : C → bool) deadline arrivals d at_ n :
  wait_loop is_t deadline arrivals d = (true, at_, n) →
  (d ≤ n)%nat ∧ ∃ a, arrivals !! (n - d)%nat = Some a ∧
    match ar_cmd a with None => True | Some c => is_t c = true end.
Proof.
  revert d. induction arrivals as [|a arrivals IH]; intros d; simpl; [done|].
  destruct (_ || _); [done|]. destruct (ar_cmd a) as [c|] eqn:Hc.
  - destruct (is_t c) eqn:Ht.
    + intros [= _ <-]. split; [done|]. exists a. by rewrite Nat.sub_diag, Hc.
    + intros (Hle & a' & Ha & Ha')%IH. split; [lia|]. exists a'.
      replace (n - d)%nat with (S (n - S d)) by lia. done.
  - intros [= _ <-]. split; [done|]. exists a. by rewrite Nat.sub_diag, Hc.
Qed.

Lemma wait_ok d t : task_ok t → task_ok (cs_wait d t).2.
Proof.
  intros (Ha & Hc & Hrd). unfold cs_wait, wait_backoff.
  set (arrivals := imap _ _).
  destruct (wait_loop _ _ _ _) as [[aborted at_] n] eqn:Hw. simpl. split; [|by split].
  simpl. apply accounted_drop.
  destruct aborted; [|by rewrite take_drop].
  destruct (wait_loop_abort _ _ _ _ _ _ Hw) as (_ & a & Hl & Hat).
  rewrite Nat.sub_0_r in Hl. unfold arrivals in Hl. rewrite list_lookup_imap in Hl.
  cbn [ct_say ct_wait ct_receiver] in Hl.
  destruct (ct_wait t !! n) as [w|]; [|done]. injection Hl as <-. simpl in Hat.
  destruct (ct_receiver t !! n) as [c|] eqn:Hn.
  - rewrite <-(take_drop_middle (ct_receiver t) n c Hn) in Ha.
    destruct Ha as (tk & Hall & Hf). exists tk. split; [|done].
    rewrite Hall, !awaiting_app. by destruct c.
  - apply lookup_ge_None in Hn. by rewrite drop_ge, app_nil_r, take_ge by lia.
Qed.
End props.

Section theorem.
Context {Num Text JE VE Action Response : Type} `{Version Num JE VE Action Response}.
Context {Request Cert Key Params KeyPair Roots Verifier CConfig SConfig IE GE RE WE : Type}.
Context `{!Http Request WE} `{!HttpLaws Request WE} `{!TlsLib Cert Key Params KeyPair Roots IE GE RE}.
Context `{!OcTls Cert Key Roots Verifier CConfig SConfig IE RE}.
Context (json_from_str : Text → Result (Json Num) JE).
Context (json_error_text : JE → string) (validation_text : VE → string).
Context (handle : Action → Result Response (CallError Num)).
Context (base64 : list Z → list Z) (home : option (list Z)) (key_encoding_text : GE → string).
Context (version : OcppVersion).

Abbreviation ClientTask := (CsTask Num Text JE Action Response Request Cert Key CConfig IE GE RE WE).
Abbreviation loop := (cs_reconnect_loop (Verifier := Verifier) (SConfig := SConfig) (Params := Params)
  (KeyPair := KeyPair) (Roots := Roots) json_from_str json_error_text validation_text handle
  base64 home key_encoding_text version).

(** C12: with valid extra headers a station's client task never panics, whatever
    its dials, connections, waits and commands do. When it has ended it says
    so; every connection it made is torn down; every caller that awaited a
    reply, in the order of its commands, was either dropped or had its own
    action called on a connection, where it has been answered; and it ended
    with an error only if its configuration does not reconnect. *)
Theorem cs_calls_settle fuel receiver tls (rounds : list (CsRound Text Request CConfig WE)) :
  (∀ s, forallb is_printable (base64 s) = true) →
  Forall (λ rd, Forall valid_header (cc_extra_headers (sr_config rd))) rounds →
  ∃ res t, loop fuel (cs_spawn receiver tls rounds) = Ret (res, t) ∧
  match res with
  | None => True
  | Some r =>
      list.last (ct_status t) = Some (OL_Info, CSM_Disconnected) ∧ ct_receiver t = [] ∧
      Forall torn_down (ct_conns t) ∧
      Forall2 (λ caller f, f.1 = caller.1 ∧
        match f.2 with
        | CF_Dropped => True
        | CF_Call i w => ∃ c x, ct_conns t !! i = Some c ∧ cn_waiters c !! w = Some x ∧
            w_action x = caller.2 ∧ is_Some (w_reply x)
        end) (awaiting receiver) (ct_callers t) ∧
      match r with
      | Err _ => ∃ rd, rd ∈ rounds ∧ cc_reconnect (sr_config rd) = false
      | Ok _ => True
      end
  end.
Proof.
  intros Hb64 Hv. unfold cs_reconnect_loop, run_with_backoff.
  destruct (backoff_loop_inv (cs_attempt (Verifier := Verifier) (SConfig := SConfig)
      (Params := Params) (KeyPair := KeyPair) (Roots := Roots) json_from_str json_error_text
      validation_text handle base64 home key_encoding_text version) cs_wait
    (task_ok (awaiting receiver) rounds)
    (λ r t, task_ok (awaiting receiver) rounds t ∧
       match r with Err _ => ∃ rd, rd ∈ rounds ∧ cc_reconnect (sr_config rd) = false
       | Ok _ => True end))
    with (policy := BackoffPolicy_default) (fuel := fuel)
         (backoff := bp_initial BackoffPolicy_default)
         (s := (cs_spawn receiver tls rounds : ClientTask))
    as (res & t & -> & Hres).
  - intros t Ht. destruct (attempt_ok (Verifier := Verifier) (SConfig := SConfig) (Params := Params)
      (KeyPair := KeyPair) (Roots := Roots) json_from_str json_error_text validation_text handle
      base64 home key_encoding_text Hb64 version (awaiting receiver) rounds t Hv Ht)
      as (out & t' & -> & Hout). exists out, t'. split; [done|].
    destruct out as [[|e [] rs]|]; [by destruct Hout| |by destruct Hout|done].
    intros d. destruct Hout as [Hok _]. pose proof (wait_ok (awaiting receiver) rounds d t' Hok) as Hw.
    by destruct (cs_wait d t') as [[] t''].
  - split; [|by split]. exists []. split; [done|constructor].
  - apply policy_default_ok.
  - by left.
  - cbn [mbind outcome_bind]. destruct res as [r|]; [|by do 2 eexists].
    do 2 eexists. split; [done|]. destruct Hres as ((Ha & Hc & _) & Hr). simpl.
    split; [by rewrite last_snoc|]. split; [done|].
    split; [eapply Forall_impl; [exact Hc|]; by intros c [_ ?]|]. split; [|done].
    assert (accounted (awaiting receiver) (ct_conns t)
      (ct_callers t ++ dropped_callers (ct_receiver t)) []) as (taken & Htk & Hfs)
      by (apply accounted_drop; by rewrite app_nil_r).
    rewrite Htk, app_nil_r. eapply Forall2_impl; [exact Hfs|].
    intros caller g [H1 H2]. split; [done|]. destruct (g.2) as [i w|]; [|done].
    destruct H2 as (c & x & Hi & Hx & Hxa). exists c, x. split_and!; [done|done|done|].
    rewrite list.Forall_forall in Hc. apply list_elem_of_lookup_2 in Hi.
    destruct (Hc c Hi) as [[_ [_ Hrep]] _]. by eapply Hrep.
Qed.
End theorem.

(** ** A station *)

Abbreviation DemoRequest := (list Z * list (list Z * list Z))%type.
Abbreviation demo_loop := (cs_reconnect_loop (Text := Json unit) (WE := unit) (Request := DemoRequest)
  (Cert := nat) (Key := nat) (Params := unit) (KeyPair := nat) (Roots := list nat)
  (Verifier := list nat) (CConfig := (list nat * nat)%type) (SConfig := (list nat * nat)%type)
  (IE := unit) (GE := unit) (RE := unit)
  json_id id id echo_handle demo_base64 None (λ _, EmptyString) V1_6).

Definition demo_round (race : list RaceEvent) (run : list (CsEvent (Text := Json unit) (WE := unit)))
    (wait : list (Z * bool)) : CsRound (Json unit) DemoRequest (list nat * nat) unit :=
  mkCsRound demo_config race true (λ _ _, Ok tt) run wait.

(** A call is made and the peer closes; a second call arrives during the wait;
    the station is terminated while it dials again. *)
Definition demo_commands : list (CsCommand echo_action) :=
  [CSC_SendActionAwait ("Heartbeat", J_Null)%string 7; CSC_SendActionAwait ("Reset", J_Null)%string 8;
   CSC_Terminate].

Definition demo_rounds : list (CsRound (Json unit) DemoRequest (list nat * nat) unit) :=
  [demo_round [RC_Future] [CV_Recv "a"; CV_Task (TE_Item SI_Close); CV_Notified] [(10%Z, false)];
   demo_round [RC_Recv] [] []].

Abbreviation DemoTask := (CsTask unit (Json unit) string echo_action (Json unit) DemoRequest
  nat nat (list nat * nat)%type unit unit unit unit).
Definition demo_task : DemoTask := cs_spawn demo_commands (mkTlsState None 0) demo_rounds.

Definition demo_end : DemoTask :=
  match demo_loop 3 demo_task with Ret (_, t) => t | Panic => demo_task end.

Lemma demo_loop_end : demo_loop 3 demo_task = Ret (Some (Ok tt), demo_end).
Proof. vm_compute. reflexivity. Qed.

Lemma Ret_pair_inj {A B} (a c : A) (b d : B) : Ret (a, b) = Ret (c, d) → a = c ∧ b = d.
Proof. by intros [= -> ->]. Qed.

Lemma cs_calls_settle_witness :
  ct_callers demo_end = [(7%nat, CF_Call 0 0); (8%nat, CF_Dropped)] ∧
  list.last (ct_status demo_end) = Some (OL_Info, CSM_Disconnected) ∧
  Forall torn_down (ct_conns demo_end).
Proof.
  split; [vm_compute; reflexivity|].
  destruct (cs_calls_settle (Params := unit) (KeyPair := nat) (Roots := list nat)
    (Verifier := list nat) (SConfig := (list nat * nat)%type) (IE := unit) (GE := unit) (RE := unit)
    json_id id id echo_handle demo_base64 None (λ _, EmptyString) V1_6 3 demo_commands
    (mkTlsState None 0) demo_rounds) as (res & t & Heq & H).
  - exact demo_base64_printable.
  - repeat constructor; vm_compute; discriminate.
  - pose proof demo_loop_end as He. unfold demo_task in He. rewrite He in Heq.
    apply Ret_pair_inj in Heq as [<- <-].
    destruct H as (H1 & _ & H2 & _). by split.
Defined.

(** A command parked while the station was dialing is dropped without a log
    line when the connection is lost before the command is received from the
    queue: nothing was called, and nothing was logged. *)
Theorem cs_parked_command_lost :
  ∃ t, demo_loop 1 (cs_spawn [CSC_SendActionAwait ("Heartbeat", J_Null)%string 7; CSC_Terminate]
      (mkTlsState None 0)
      [demo_round [RC_Recv; RC_Future] [CV_Task (TE_Item SI_Close); CV_Notified] []]) =
    Ret (None, t) ∧
  ct_callers t = [(7%nat, CF_Dropped)] ∧ ct_log t = [] ∧ ct_receiver t = [CSC_Terminate].
Proof. eexists. split; [vm_compute; reflexivity|]. done. Qed.
