(* ===== verification/Csms.v ===== *)
(** * The management system's server

    Models [ferrowl-ocpp/src/csms/]: the registry of connections, the accept
    loop that routes commands, and the task of each accepted station. The tasks
    interleave: a run is a list of events, each the next step of one of them. A
    caller that awaits a reply is a number; what became of it is recorded. *)

From stdpp Require Import base list gmap numbers strings.
From S2P Require Import Prelude IntText Text OcppHandshake OcppMessage OcppConn OcppClient Backoff Channel.

Local Open Scope Z_scope.

(** ** Commands *)

Inductive CsmsCommand (Action : Type) :=
| KC_Terminate
| KC_SendToConnection (id : Z) (action : Action)
| KC_SendToConnectionAwait (id : Z) (action : Action) (caller : nat)
| KC_Broadcast (action : Action)
| KC_DisconnectConnection (id : Z).
Arguments KC_Terminate {Action}.
Arguments KC_SendToConnection {Action}.
Arguments KC_SendToConnectionAwait {Action}.
Arguments KC_Broadcast {Action}.
Arguments KC_DisconnectConnection {Action}.

Inductive ConnCommand (Action : Type) :=
| NC_Terminate
| NC_Fire (action : Action)
| NC_Call (action : Action) (caller : nat).
Arguments NC_Terminate {Action}.
Arguments NC_Fire {Action}.
Arguments NC_Call {Action}.

Definition COMMAND_CHANNEL_CAP : nat := 32.

(** A caller's end: a call on the numbered station's connection, an error reply
    because there is no such connection, or its reply channel dropped. *)
Inductive CsmsFate := KF_Call (station waiter : nat) | KF_NoSuchConnection | KF_Dropped.

(** ** The registry *)

(** A command channel is named by the number of the station that receives from
    it. *)
Record ConnectionHandle := mkConnectionHandle { ch_cmd_tx : nat; ch_identity : option (list Z) }.

Record ConnectionRegistry := mkRegistry {
  rg_next_id : Z;
  rg_connections : gmap Z ConnectionHandle
}.

Definition registry_new : ConnectionRegistry := mkRegistry 1 ∅.

(** [fetch_add] wraps. *)
Definition registry_next_id (r : ConnectionRegistry) : Z * ConnectionRegistry :=
  (rg_next_id r, mkRegistry (as_uint 64 (rg_next_id r + 1)) (rg_connections r)).

Definition registry_insert (r : ConnectionRegistry) (id : Z) (cmd_tx : nat)
    (identity : option (list Z)) : ConnectionRegistry :=
  mkRegistry (rg_next_id r) (<[id := mkConnectionHandle cmd_tx identity]> (rg_connections r)).

Definition registry_remove (r : ConnectionRegistry) (id : Z) : ConnectionRegistry :=
  mkRegistry (rg_next_id r) (delete id (rg_connections r)).

Definition registry_sender (r : ConnectionRegistry) (id : Z) : option nat :=
  ch_cmd_tx <$> rg_connections r !! id.

(** In the map's order, which nothing depends on. *)
Definition registry_all_senders (r : ConnectionRegistry) : list nat :=
  (λ p, ch_cmd_tx p.2) <$> map_to_list (rg_connections r).

Definition registry_connection_ids (r : ConnectionRegistry) : list Z :=
  (map_to_list (rg_connections r)).*1.

Definition registry_identity (r : ConnectionRegistry) (id : Z) : option (list Z) :=
  rg_connections r !! id ≫= ch_identity.

Section csms.
Context {Num Text JE VE WE Action Response : Type} `{Version Num JE VE Action Response}.
Context {Request HE : Type} `{!Http Request HE}.
Context (json_from_str : Text → Result (Json Num) JE).
Context (json_error_text : JE → string) (validation_text : VE → string).
(** The application's answer, with the connection a call came in on. *)
Context (handle : Z → Action → Result Response (CallError Num)).
Context (base64 : list Z → list Z) (version : OcppVersion) (basic_auth : option BasicAuth).

Abbreviation Conn := (ConnState (Num := Num) (JE := JE) (WE := WE)
  (Action := Action) (Response := Response)).

(** ** State *)

(** Where the task of an accepted socket is. *)
Inductive StationPhase :=
| PH_Handshaking
| PH_Failed
| PH_Running (id : Z) (c : Conn)
| PH_Leaving (id : Z) (c : Conn)
| PH_Gone (id : Z) (c : Conn).

Record Station := mkStation { sn_phase : StationPhase; sn_queue : list (ConnCommand Action) }.

Inductive CsmsMsg :=
| KM_AcceptError
| KM_TlsFailed
| KM_HandshakeFailed
| KM_Connected (identity : option (list Z)) (id : Z)
| KM_Disconnected (identity : option (list Z)) (id : Z)
| KM_NoSuchConnection (id : Z)
| KM_SendFailed (id : Z) (action : Action)
| KM_CommandDropped
| KM_BindFailed
| KM_Listening.

(** Where the accept loop is: at its [select!], sending commands one after the
    other before it goes on or, if [stop], ends. *)
Inductive LoopPc := LP_Select | LP_Sending (sends : list (nat * ConnCommand Action)) (stop : bool) | LP_Ended.

Record CsmsState := mkCsmsState {
  km_registry : ConnectionRegistry;
  km_stations : list Station;
  km_pc : LoopPc;
  km_paused : bool;
  km_commands : Commands (CsmsCommand Action);
  km_callers : list (nat * CsmsFate);
  km_log : list (OcLevel * CsmsMsg)
}.
Implicit Types (s : CsmsState).

Definition km_say s (level : OcLevel) (msg : CsmsMsg) : CsmsState :=
  mkCsmsState (km_registry s) (km_stations s) (km_pc s) (km_paused s) (km_commands s)
    (km_callers s) (km_log s ++ [(level, msg)]).

Definition km_fate s (fates : list (nat * CsmsFate)) : CsmsState :=
  mkCsmsState (km_registry s) (km_stations s) (km_pc s) (km_paused s) (km_commands s)
    (km_callers s ++ fates) (km_log s).

Definition km_with_stations s (stations : list Station) : CsmsState :=
  mkCsmsState (km_registry s) stations (km_pc s) (km_paused s) (km_commands s)
    (km_callers s) (km_log s).

Definition km_with_registry s (registry : ConnectionRegistry) : CsmsState :=
  mkCsmsState registry (km_stations s) (km_pc s) (km_paused s) (km_commands s)
    (km_callers s) (km_log s).

Definition km_goto s (pc : LoopPc) : CsmsState :=
  mkCsmsState (km_registry s) (km_stations s) pc (km_paused s) (km_commands s)
    (km_callers s) (km_log s).

Definition km_pause s (paused : bool) : CsmsState :=
  mkCsmsState (km_registry s) (km_stations s) (km_pc s) paused (km_commands s)
    (km_callers s) (km_log s).

Definition km_with_commands s (commands : Commands (CsmsCommand Action)) : CsmsState :=
  mkCsmsState (km_registry s) (km_stations s) (km_pc s) (km_paused s) commands
    (km_callers s) (km_log s).

(** ** Routing *)

Definition conn_callers (cmds : list (ConnCommand Action)) : list nat :=
  omap (λ cmd, match cmd with NC_Call _ k => Some k | _ => None end) cmds.

Definition server_callers (cmds : list (CsmsCommand Action)) : list nat :=
  omap (λ cmd, match cmd with KC_SendToConnectionAwait _ _ k => Some k | _ => None end) cmds.

Definition all_dropped (callers : list nat) : list (nat * CsmsFate) := (., KF_Dropped) <$> callers.

(** The accept loop returns and the commands left are dropped with it. *)
Definition loop_ends s : CsmsState :=
  let left := cm_queued (km_commands s) ++ cm_receiver (km_commands s) in
  km_goto (km_with_commands (km_fate s (all_dropped (server_callers left))) (mkCommands [] []))
    LP_Ended.

(** The loop goes on when there is nothing to send any more. *)
Definition loop_sending s (sends : list (nat * ConnCommand Action)) (stop : bool) : CsmsState :=
  match sends with
  | [] => if stop then loop_ends s else km_goto s LP_Select
  | _ => km_goto s (LP_Sending sends stop)
  end.

(** The command arm of the [select!]. *)
Definition route s (cmd : option (CsmsCommand Action)) : CsmsState :=
  let registry := km_registry s in
  match default KC_Terminate cmd with
  | KC_Terminate => loop_sending s ((., NC_Terminate) <$> registry_all_senders registry) true
  | KC_SendToConnection id action =>
      match registry_sender registry id with
      | Some tx => loop_sending s [(tx, NC_Fire action)] false
      | None => km_say s OL_Warning (KM_NoSuchConnection id)
      end
  | KC_SendToConnectionAwait id action caller =>
      match registry_sender registry id with
      | Some tx => loop_sending s [(tx, NC_Call action caller)] false
      | None => km_fate s [(caller, KF_NoSuchConnection)]
      end
  | KC_Broadcast action =>
      loop_sending s ((., NC_Fire action) <$> registry_all_senders registry) false
  | KC_DisconnectConnection id =>
      match registry_sender registry id with
      | Some tx => loop_sending s [(tx, NC_Terminate)] false
      | None => s
      end
  end.

(** The channel's receiver lives as long as its task. *)
Definition receiving (phase : StationPhase) : bool :=
  match phase with PH_Running _ _ | PH_Leaving _ _ => true | _ => false end.

Definition push_command (cmd : ConnCommand Action) (st : Station) : Station :=
  mkStation (sn_phase st) (sn_queue st ++ [cmd]).

(** The send the loop is at: it waits while the channel is full, and fails
    without notice when its receiver is gone. *)
Definition send_step s : CsmsState :=
  match km_pc s with
  | LP_Sending ((tx, cmd) :: sends) stop =>
      match km_stations s !! tx with
      | None => s
      | Some st =>
          if negb (receiving (sn_phase st))
          then loop_sending (km_fate s (all_dropped (conn_callers [cmd]))) sends stop
          else if (length (sn_queue st) <? COMMAND_CHANNEL_CAP)%nat
          then loop_sending (km_with_stations s (alter (push_command cmd) tx (km_stations s))) sends stop
          else s
      end
  | _ => s
  end.

(** ** A station's task *)

Inductive HandshakeInput := HI_TlsFailed | HI_Failed | HI_Request (req : Request).

Definition set_phase (phase : StationPhase) (st : Station) : Station :=
  mkStation phase (sn_queue st).

Definition km_phase s (k : nat) (phase : StationPhase) : CsmsState :=
  km_with_stations s (alter (set_phase phase) k (km_stations s)).

(** TLS and the websocket handshake; an accepted station is registered. *)
Definition handshake_step s (k : nat) (input : HandshakeInput) : CsmsState :=
  match input with
  | HI_TlsFailed => km_phase (km_say s OL_Error KM_TlsFailed) k PH_Failed
  | HI_Failed => km_phase (km_say s OL_Error KM_HandshakeFailed) k PH_Failed
  | HI_Request req =>
      match handshake_callback (HE := HE) base64 basic_auth version req with
      | Panic => km_phase s k PH_Failed
      | Ret (who, RSP_Switching _) =>
          let '(id, registry) := registry_next_id (km_registry s) in
          let registry := registry_insert registry id k who in
          km_phase (km_say (km_with_registry s registry) OL_Info (KM_Connected who id)) k
            (PH_Running id Connection_start)
      | Ret _ => km_phase (km_say s OL_Error KM_HandshakeFailed) k PH_Failed
      end
  end.

(** One step of a station's connection tasks. *)
Definition station_task (id : Z) (ev : ConnTask (Text := Text) (WE := WE)) (c : Conn) : Conn :=
  task_step json_from_str json_error_text validation_text (handle id) ev c.

(** The command arm of a station's [select!]. *)
Definition station_recv s (k : nat) (id : Z) (c : Conn) (call_id : string)
    (queue : list (ConnCommand Action)) : CsmsState :=
  match queue with
  | [] => s
  | cmd :: queue' =>
      let put s phase := km_with_stations s (<[k := mkStation phase queue']> (km_stations s)) in
      match cmd with
      | NC_Terminate => put s (PH_Leaving id (conn_shutdown c))
      | NC_Fire action =>
          let '(sent, c) := conn_fire c call_id action in
          put (if sent : bool then s else km_say s OL_Error (KM_SendFailed id action)) (PH_Running id c)
      | NC_Call action caller =>
          let w := length (cn_waiters c) in
          let c := conn_call json_error_text validation_text c call_id action in
          put (km_fate s [(caller, KF_Call k w)]) (PH_Running id c)
      end
  end.

(** What a station's task does after its connection is shut down. *)
Definition station_leave s (k : nat) (id : Z) (c : Conn) (queue : list (ConnCommand Action))
  : CsmsState :=
  let station := registry_identity (km_registry s) id in
  let s := km_with_registry s (registry_remove (km_registry s) id) in
  let s := km_say s OL_Info (KM_Disconnected station id) in
  let s := km_fate s (all_dropped (conn_callers queue)) in
  km_with_stations s (<[k := mkStation (PH_Gone id c) []]> (km_stations s)).

Inductive StationEvent :=
| SE_Handshake (input : HandshakeInput)
| SE_Task (ev : ConnTask (Text := Text) (WE := WE))
| SE_Notified
| SE_Recv (call_id : string)
| SE_Leave.

Definition station_step s (k : nat) (ev : StationEvent) : CsmsState :=
  match km_stations s !! k with
  | None => s
  | Some st =>
      match sn_phase st, ev with
      | PH_Handshaking, SE_Handshake input => handshake_step s k input
      | PH_Running id c, SE_Task ev => km_phase s k (PH_Running id (station_task id ev c))
      | PH_Running id c, SE_Notified =>
          if cn_notified c then km_phase s k (PH_Leaving id (conn_shutdown c)) else s
      | PH_Running id c, SE_Recv call_id => station_recv s k id c call_id (sn_queue st)
      | PH_Leaving id c, SE_Leave => station_leave s k id c (sn_queue st)
      | _, _ => s
      end
  end.

(** ** Runs *)

(** [KE_Accept true]: a socket was accepted; [false]: accepting failed, and
    stops until [KE_Resume]. *)
Inductive CsmsEvent :=
| KE_Accept (ok : bool)
| KE_Resume
| KE_Recv
| KE_Send
| KE_Station (k : nat) (ev : StationEvent).

Definition csms_step s (ev : CsmsEvent) : CsmsState :=
  match ev with
  | KE_Accept ok =>
      match km_pc s, km_paused s with
      | LP_Select, false =>
          if ok then km_with_stations s (km_stations s ++ [mkStation PH_Handshaking []])
          else km_pause (km_say s OL_Warning KM_AcceptError) true
      | _, _ => s
      end
  | KE_Resume => match km_pc s with LP_Select => km_pause s false | _ => s end
  | KE_Recv =>
      match km_pc s with
      | LP_Select =>
          let '(cmd, commands) := Commands_recv (km_commands s) in
          route (km_with_commands s commands) cmd
      | _ => s
      end
  | KE_Send => send_step s
  | KE_Station k ev => station_step s k ev
  end.

Definition csms_run s (evs : list CsmsEvent) : CsmsState := foldl csms_step s evs.

(** An accept loop that just started. *)
Definition csms_start (commands : Commands (CsmsCommand Action)) (log : list (OcLevel * CsmsMsg))
    (callers : list (nat * CsmsFate)) : CsmsState :=
  mkCsmsState registry_new [] LP_Select false commands callers log.

(** ** Binding *)

(** What binding the listener came to. *)
Inductive BindOutcome := BO_Failed | BO_NoAddress | BO_Bound.

(** One round of the reconnect loop: the race of the bind, the events of the
    accept loop and the stations, the arrivals during the wait. *)
Record CsmsRound := mkCsmsRound {
  kr_race : list RaceEvent;
  kr_bind : BindOutcome;
  kr_run : list CsmsEvent;
  kr_wait : list (Z * bool)
}.

(** [kt_system]: the accept loop and its stations once bound; [kt_bound]: the
    local address is set. *)
Record CsmsTask := mkCsmsTask {
  kt_receiver : Receiver (CsmsCommand Action);
  kt_system : option CsmsState;
  kt_bound : bool;
  kt_callers : list (nat * CsmsFate);
  kt_log : list (OcLevel * CsmsMsg);
  kt_wait : list (Z * bool);
  kt_rounds : list CsmsRound
}.
Implicit Types (t : CsmsTask).

Definition csms_is_terminate (cmd : CsmsCommand Action) : bool :=
  match cmd with KC_Terminate => true | _ => false end.

(** Commands dropped, each with the log line if [logged]. *)
Definition kt_drop t (logged : bool) (cmds : list (CsmsCommand Action))
    (receiver : Receiver (CsmsCommand Action)) : CsmsTask :=
  mkCsmsTask receiver (kt_system t) (kt_bound t)
    (kt_callers t ++ all_dropped (server_callers cmds))
    (kt_log t ++ if logged then (λ _, (OL_Warning, KM_CommandDropped)) <$> cmds else [])
    (kt_wait t) (kt_rounds t).

Definition kt_say t (level : OcLevel) (msg : CsmsMsg) : CsmsTask :=
  mkCsmsTask (kt_receiver t) (kt_system t) (kt_bound t) (kt_callers t) (kt_log t ++ [(level, msg)])
    (kt_wait t) (kt_rounds t).

(** The closure [attempt] of [run_reconnect_loop]; the failure's error is that
    of the operating system. *)
Definition csms_attempt (reconnect : bool) t : option (AttemptOutcome unit) * CsmsTask :=
  match kt_rounds t with
  | [] => (None, t)
  | rd :: rounds =>
      let t := mkCsmsTask (kt_receiver t) (kt_system t) (kt_bound t) (kt_callers t) (kt_log t)
                 (kr_wait rd) rounds in
      match race_terminate (kr_bind rd) csms_is_terminate (kr_race rd) (kt_receiver t) [] with
      | (None, receiver, parked) => (None, kt_drop t false [] (parked ++ receiver))
      | (Some None, receiver, parked) => (Some AO_Done, kt_drop t false parked receiver)
      | (Some (Some BO_Failed), receiver, parked) =>
          (Some (AO_Failed tt reconnect false),
           kt_say (kt_drop t true parked receiver) OL_Error KM_BindFailed)
      | (Some (Some BO_NoAddress), receiver, parked) =>
          (Some (AO_Failed tt reconnect false), kt_drop t false parked receiver)
      | (Some (Some BO_Bound), receiver, parked) =>
          let s := csms_start (mkCommands receiver parked)
                     (kt_log t ++ [(OL_Info, KM_Listening)]) (kt_callers t) in
          let s := csms_run s (kr_run rd) in
          match km_pc s with
          | LP_Ended =>
              (Some AO_Done,
               mkCsmsTask [] (Some s) false (km_callers s) (km_log s) (kt_wait t) rounds)
          | _ =>
              (None,
               mkCsmsTask (cm_queued (km_commands s) ++ cm_receiver (km_commands s)) (Some s) true
                 (km_callers s) (km_log s) (kt_wait t) rounds)
          end
      end
  end.

(** The closure [wait_abortable]. *)
Definition csms_wait (backoff : Z) t : bool * CsmsTask :=
  let arrivals := imap (λ i w, mkArrival w.1 (kt_receiver t !! i) w.2) (kt_wait t) in
  let '(aborted, _, dropped) := wait_backoff csms_is_terminate 0 backoff arrivals in
  let taken := if aborted then S dropped else dropped in
  (aborted, kt_drop t true (take dropped (kt_receiver t)) (drop taken (kt_receiver t))).

(** [run_reconnect_loop]; the command channel goes with it. *)
Definition csms_reconnect_loop (reconnect : bool) (fuel : nat) t
  : Outcome (option (Result unit unit) * CsmsTask) :=
  '(result, t) ←
    run_with_backoff (λ t, Ret (csms_attempt reconnect t)) csms_wait BackoffPolicy_default fuel t;
  match result with
  | None => Ret (None, t)
  | Some r => Ret (Some r, kt_drop t false (kt_receiver t) [])
  end.

Definition csms_spawn (receiver : Receiver (CsmsCommand Action)) (rounds : list CsmsRound)
  : CsmsTask := mkCsmsTask receiver None false [] [] [] rounds.
End csms.
Arguments CsmsState : clear implicits.
Arguments CsmsEvent : clear implicits.
