(* ===== verification/CsmsProps.v ===== *)
(** * Properties of the management system's server *)

From stdpp Require Import base list gmap numbers strings.
From S2P Require Import Prelude IntText Text OcppHandshake OcppMessage OcppConn OcppConnProps OcppClient OcppClientProps Backoff Channel Csms.

Local Open Scope Z_scope.

(** ** Lists *)

Lemma alter_is_insert {A} (f : A → A) (l : list A) k x :
  l !! k = Some x → alter f k l = <[k := f x]> l.
Proof.
  intros Hk. apply list_eq. intros i. rewrite list_lookup_alter. case_decide as Hi.
  - subst i. rewrite Hk, list_lookup_insert_eq; [done|by eapply lookup_lt_Some].
  - by rewrite list_lookup_insert_ne by done.
Qed.

(** One element's share of a [bind]. *)
Lemma bind_insert {A B} (f : A → list B) (l : list A) k x :
  l !! k = Some x → ∃ rest, (l ≫= f) ≡ₚ f x ++ rest ∧ ∀ y, (<[k := y]> l ≫= f) ≡ₚ f y ++ rest.
Proof.
  intros Hk. exists ((take k l ≫= f) ++ (drop (S k) l ≫= f)).
  split.
  - rewrite <-(take_drop_middle l k x Hk) at 1. rewrite bind_app, bind_cons. solve_Permutation.
  - intros y. rewrite insert_take_drop by by eapply lookup_lt_Some.
    rewrite bind_app, bind_cons. solve_Permutation.
Qed.

Section props.
Context {Num Text JE VE WE Action Response : Type} `{Version Num JE VE Action Response}.
Context {Request HE : Type} `{!Http Request HE}.
Context (json_from_str : Text → Result (Json Num) JE).
Context (json_error_text : JE → string) (validation_text : VE → string).
Context (handle : Z → Action → Result Response (CallError Num)).
Context (base64 : list Z → list Z) (version : OcppVersion) (basic_auth : option BasicAuth).

Abbreviation Conn := (ConnState (Num := Num) (JE := JE) (WE := WE)
  (Action := Action) (Response := Response)).
Abbreviation State := (CsmsState Num JE WE Action Response).
Abbreviation Event := (CsmsEvent Text WE Request).
Abbreviation St := (Station (Num := Num) (JE := JE) (WE := WE) (Action := Action) (Response := Response)).
Abbreviation step := (csms_step (HE := HE) json_from_str json_error_text validation_text handle
  base64 version basic_auth).
Abbreviation run := (csms_run (HE := HE) json_from_str json_error_text validation_text handle
  base64 version basic_auth).
Implicit Types (s : State) (st : St) (c : Conn) (ev : Event).

(** ** Callers *)

(** The connection of a station that got as far as having one. *)
Definition phase_conn (phase : StationPhase) : option Conn :=
  match phase with
  | PH_Running _ c | PH_Leaving _ c | PH_Gone _ c => Some c
  | _ => None
  end.

Definition conn_pairs (cmds : list (ConnCommand Action)) : list (nat * Action) :=
  omap (λ cmd, match cmd with NC_Call a k => Some (k, a) | _ => None end) cmds.

Definition server_pairs (cmds : list (CsmsCommand Action)) : list (nat * Action) :=
  omap (λ cmd, match cmd with KC_SendToConnectionAwait _ a k => Some (k, a) | _ => None end) cmds.

Definition queue_pairs st : list (nat * Action) := conn_pairs (sn_queue st).

Definition sending_pairs (pc : LoopPc (Action := Action)) : list (nat * Action) :=
  match pc with LP_Sending sends _ => conn_pairs sends.*2 | _ => [] end.

(** The callers on their way: in a send, in a station's queue, or not received
    yet. *)
Definition pending_pairs s : list (nat * Action) :=
  sending_pairs (km_pc s) ++ (km_stations s ≫= queue_pairs) ++
  server_pairs (cm_queued (km_commands s) ++ cm_receiver (km_commands s)).

Definition kfate_ok (stations : list St) (caller : nat * Action) (f : nat * CsmsFate) : Prop :=
  f.1 = caller.1 ∧
  match f.2 with
  | KF_Call k w => ∃ st c x, stations !! k = Some st ∧ phase_conn (sn_phase st) = Some c ∧
      cn_waiters c !! w = Some x ∧ w_action x = caller.2
  | _ => True
  end.

(** Every caller is on its way or has exactly one fate. *)
Definition kaccounted (all : list (nat * Action)) s : Prop :=
  ∃ done, Forall2 (kfate_ok (km_stations s)) done (km_callers s) ∧ all ≡ₚ done ++ pending_pairs s.

(** Stations only move on: their waiters keep place, action and reply. *)
Definition stations_grow (stations stations' : list St) : Prop :=
  ∀ k st c, stations !! k = Some st → phase_conn (sn_phase st) = Some c →
  ∃ st' c', stations' !! k = Some st' ∧ phase_conn (sn_phase st') = Some c' ∧
    keeps_replies (cn_waiters c) (cn_waiters c').

Lemma grow_refl l : stations_grow l l.
Proof. intros k st c Hk Hc. exists st, c. split_and!; [done|done|apply keeps_refl]. Qed.

Lemma grow_insert l k st st' :
  l !! k = Some st →
  (∀ c, phase_conn (sn_phase st) = Some c → ∃ c', phase_conn (sn_phase st') = Some c' ∧
    keeps_replies (cn_waiters c) (cn_waiters c')) →
  stations_grow l (<[k := st']> l).
Proof.
  intros Hk Hc i x c Hi Hx. destruct (decide (i = k)) as [->|Hne].
  - rewrite Hk in Hi. injection Hi as <-. destruct (Hc c Hx) as (c' & Hc' & Hkr).
    exists st', c'. split; [|done]. apply list_lookup_insert_eq. by eapply lookup_lt_Some.
  - exists x, c. rewrite list_lookup_insert_ne by done. split_and!; [done|done|apply keeps_refl].
Qed.

Lemma kfate_grow l l' caller f : stations_grow l l' → kfate_ok l caller f → kfate_ok l' caller f.
Proof.
  intros Hg [H1 H2]. split; [done|]. destruct (f.2) as [k w| |]; [|done|done].
  destruct H2 as (st & c & x & Hk & Hc & Hx & Ha).
  destruct (Hg k st c Hk Hc) as (st' & c' & Hk' & Hc' & Hkr).
  destruct (Hkr w x Hx) as (x' & Hx' & Ha' & _). exists st', c', x'. by rewrite Ha'.
Qed.

(** A step that settles the callers [settled] and lets stations move on. *)
Lemma kaccounted_step all s s' settled fates :
  stations_grow (km_stations s) (km_stations s') →
  km_callers s' = km_callers s ++ fates →
  Forall2 (kfate_ok (km_stations s')) settled fates →
  pending_pairs s ≡ₚ settled ++ pending_pairs s' →
  kaccounted all s → kaccounted all s'.
Proof.
  intros Hg Hc Hf Hp (dn & Hd & Hall). exists (dn ++ settled). split.
  - rewrite Hc. apply Forall2_app; [|done]. eapply Forall2_impl; [exact Hd|].
    intros. by eapply kfate_grow.
  - by rewrite Hall, Hp, app_assoc.
Qed.

(** A step that settles no caller. *)
Lemma kaccounted_same all s s' :
  stations_grow (km_stations s) (km_stations s') →
  km_callers s' = km_callers s → pending_pairs s ≡ₚ pending_pairs s' →
  kaccounted all s → kaccounted all s'.
Proof.
  intros Hg Hc Hp. apply (kaccounted_step all s s' [] []); [done| |constructor|done].
  by rewrite app_nil_r.
Qed.

Lemma dropped_ok (l : list St) (pairs : list (nat * Action)) :
  Forall2 (kfate_ok l) pairs (all_dropped pairs.*1).
Proof. induction pairs as [|p pairs IH]; constructor; [by split|done]. Qed.

Lemma conn_callers_pairs cmds : conn_callers (Action := Action) cmds = (conn_pairs cmds).*1.
Proof. induction cmds as [|[|a|a k] cmds IH]; [done|exact IH|exact IH|]. simpl. by f_equal. Qed.

Lemma server_callers_pairs cmds : server_callers (Action := Action) cmds = (server_pairs cmds).*1.
Proof.
  induction cmds as [|[|i a|i a k|a|i] cmds IH]; [done|exact IH|exact IH| |exact IH|exact IH].
  simpl. by f_equal.
Qed.

Lemma conn_pairs_app l l' : conn_pairs (l ++ l') = conn_pairs l ++ conn_pairs l'.
Proof. apply omap_app. Qed.

(** ** The accept loop *)

Lemma loop_ends_accounted all s : kaccounted all (km_goto s LP_Select) → kaccounted all (loop_ends s).
Proof.
  apply (kaccounted_step all _ _ (server_pairs (cm_queued (km_commands s) ++ cm_receiver (km_commands s)))
    (all_dropped (server_callers (cm_queued (km_commands s) ++ cm_receiver (km_commands s))))).
  - apply grow_refl.
  - done.
  - rewrite server_callers_pairs. apply dropped_ok.
  - unfold pending_pairs. simpl. solve_Permutation.
Qed.

Lemma loop_sending_accounted all s sends stop :
  kaccounted all (km_goto s (LP_Sending sends stop)) → kaccounted all (loop_sending s sends stop).
Proof.
  destruct sends as [|p sends]; [|done]. intros Ha. unfold loop_sending.
  destruct stop; [apply loop_ends_accounted|]; exact Ha.
Qed.

(** Commands that no caller awaits. *)
Lemma no_pairs (l : list nat) (cmd : ConnCommand Action) :
  conn_pairs [cmd] = [] → conn_pairs ((., cmd) <$> l).*2 = [].
Proof.
  intros Hc. induction l as [|k l IH]; [done|].
  change (conn_pairs ([cmd] ++ ((., cmd) <$> l).*2) = []). by rewrite conn_pairs_app, Hc.
Qed.

(** A command is taken off the channel. *)
Lemma recv_accounted all s :
  km_pc s = LP_Select → kaccounted all s → kaccounted all (step s KE_Recv).
Proof.
  intros Hpc Ha. simpl. rewrite Hpc.
  pose proof (Commands_recv_order (km_commands s)) as Ho.
  destruct (Commands_recv (km_commands s)) as [cmd commands].
  assert (∀ sends stop, conn_pairs sends.*2 =
      server_pairs (option_list cmd) →
    kaccounted all (loop_sending (km_with_commands s commands) sends stop)) as Hsend.
  { intros sends stop Hs. apply loop_sending_accounted.
    apply (kaccounted_same all s); [apply grow_refl|done| |done].
    unfold pending_pairs. rewrite Hpc. simpl. rewrite Hs.
    destruct cmd as [cmd|]; [|by destruct Ho as [-> ->]].
    rewrite Ho. change (cmd :: ?l) with ([cmd] ++ l). unfold server_pairs at 1. rewrite omap_app.
    simpl. solve_Permutation. }
  assert (∀ s', km_stations s' = km_stations s → km_pc s' = LP_Select → km_commands s' = commands →
    km_callers s' = km_callers s → server_pairs (option_list cmd) = [] → kaccounted all s') as Hquiet.
  { intros s' E1 E2 E3 E4 E5.
    apply (kaccounted_same all s); [rewrite E1; apply grow_refl|done| |done].
    unfold pending_pairs. rewrite Hpc, E1, E2, E3.
    destruct cmd as [cmd|]; [|by destruct Ho as [-> ->]].
    rewrite Ho. change (cmd :: ?l) with ([cmd] ++ l). unfold server_pairs at 1. rewrite omap_app.
    unfold server_pairs in E5. simpl option_list in E5. by rewrite E5. }
  destruct cmd as [[|id a|id a k|a|id]|]; unfold route; cbn [from_option]; simpl;
    try (by apply Hsend, no_pairs).
  - destruct (registry_sender _ _) as [n|];
      [by apply (Hsend [(n, NC_Fire a)] false)|by apply Hquiet].
  - destruct (registry_sender _ _) as [n|]; [by apply (Hsend [(n, NC_Call a k)] false)|].
    apply (kaccounted_step all s _ [(k, a)] [(k, KF_NoSuchConnection)]); [apply grow_refl|done| | |done].
    + constructor; [by split|constructor].
    + unfold pending_pairs. simpl. rewrite Hpc, Ho. simpl. solve_Permutation.
  - destruct (registry_sender _ _) as [n|];
      [by apply (Hsend [(n, NC_Terminate)] false)|by apply Hquiet].
Qed.

(** One command is delivered, or found without a receiver. *)
Lemma send_accounted all s : kaccounted all s → kaccounted all (send_step s).
Proof.
  intros Ha. unfold send_step.
  destruct (km_pc s) as [|[|[tx cmd] sends] stop|] eqn:Hpc; try done.
  destruct (km_stations s !! tx) as [st|] eqn:Hst; [|done].
  assert (conn_pairs (((tx, cmd) :: sends).*2) = conn_pairs [cmd] ++ conn_pairs sends.*2) as Hsp
    by exact (conn_pairs_app [cmd] sends.*2).
  destruct (negb _) eqn:Hr.
  - apply loop_sending_accounted.
    apply (kaccounted_step all s _ (conn_pairs [cmd]) (all_dropped (conn_callers [cmd])));
      [apply grow_refl|done| | |done].
    + rewrite conn_callers_pairs. apply dropped_ok.
    + unfold pending_pairs. rewrite Hpc. cbn [sending_pairs]. rewrite Hsp. simpl. solve_Permutation.
  - destruct (_ <? _)%nat; [|done]. apply loop_sending_accounted.
    rewrite (alter_is_insert _ _ _ _ Hst).
    apply (kaccounted_same all s); [|done| |done].
    + simpl. apply (grow_insert _ _ st); [done|]. intros c Hc. exists c. split; [done|apply keeps_refl].
    + unfold pending_pairs. rewrite Hpc. cbn [sending_pairs]. rewrite Hsp. simpl.
      destruct (bind_insert queue_pairs (km_stations s) tx st Hst) as (rest & -> & Hins).
      rewrite (Hins (push_command cmd st)). unfold queue_pairs, push_command. simpl.
      rewrite conn_pairs_app. simpl. solve_Permutation.
Qed.

(** ** Stations *)

(** A connection is consistent while it runs, and over when its loop was left;
    only a station whose loop runs has commands waiting. *)
Definition station_ok st : Prop :=
  match sn_phase st with
  | PH_Handshaking | PH_Failed => sn_queue st = []
  | PH_Running _ c => table_ok c ∧ tracked_ok c
  | PH_Leaving _ c => conn_over c
  | PH_Gone _ c => conn_over c ∧ sn_queue st = []
  end.

Definition sys_ok (all : list (nat * Action)) s : Prop :=
  kaccounted all s ∧ Forall station_ok (km_stations s).

Lemma station_at (l : list St) k st : l !! k = Some st → Forall station_ok l → station_ok st.
Proof. intros Hk Hs. rewrite list.Forall_forall in Hs. by apply Hs, list_elem_of_lookup_2 with k. Qed.

(** A station's own step: it replaces that station, which keeps its queue. *)
Lemma phase_ok all s k st phase :
  km_stations s !! k = Some st → sys_ok all s →
  station_ok (mkStation phase (sn_queue st)) →
  (∀ c, phase_conn (sn_phase st) = Some c → ∃ c', phase_conn phase = Some c' ∧
     keeps_replies (cn_waiters c) (cn_waiters c')) →
  sys_ok all (km_phase s k phase).
Proof.
  intros Hk [Ha Hs] Hok Hg. unfold km_phase. rewrite (alter_is_insert _ _ _ _ Hk).
  split; [|by apply Forall_insert].
  apply (kaccounted_same all s); [|done| |done]; [by apply (grow_insert _ _ st)|].
  unfold pending_pairs. simpl.
  destruct (bind_insert queue_pairs (km_stations s) k st Hk) as (rest & -> & Hins).
  by rewrite (Hins (set_phase phase st)).
Qed.

Lemma sys_ok_frame all s s' :
  km_stations s' = km_stations s → km_pc s' = km_pc s → km_commands s' = km_commands s →
  km_callers s' = km_callers s → sys_ok all s → sys_ok all s'.
Proof.
  intros E1 E2 E3 E4 [Ha Hs]. split; [|by rewrite E1].
  apply (kaccounted_same all s); [rewrite E1; apply grow_refl|done| |done].
  unfold pending_pairs. by rewrite E1, E2, E3.
Qed.

Lemma handshake_ok all s k st input :
  km_stations s !! k = Some st → sn_phase st = PH_Handshaking → sys_ok all s →
  sys_ok all (handshake_step (HE := HE) base64 version basic_auth s k input).
Proof.
  intros Hk Hp Hok.
  assert (sn_queue st = []) as Hq.
  { destruct Hok as [_ Hs]. pose proof (station_at _ _ _ Hk Hs) as Hst. unfold station_ok in Hst.
    by rewrite Hp in Hst. }
  assert (∀ s' phase, km_stations s' = km_stations s → km_pc s' = km_pc s →
    km_commands s' = km_commands s → km_callers s' = km_callers s →
    station_ok (mkStation phase (sn_queue st)) → sys_ok all (km_phase s' k phase)) as Hph.
  { intros s' phase E1 E2 E3 E4 Hst. apply (phase_ok all s' k st); [by rewrite E1| |done|].
    - by apply (sys_ok_frame all s).
    - intros c. by rewrite Hp. }
  unfold handshake_step. destruct input as [| |req]; [by apply Hph|by apply Hph|].
  destruct (handshake_callback _ _ _ _) as [[who [|  |]]|]; try by apply Hph.
Qed.

(** A station takes a command off its queue. *)
Lemma take_ok all s k st cmd queue phase settled fates log :
  km_stations s !! k = Some st → sn_queue st = cmd :: queue → sys_ok all s →
  station_ok (mkStation phase queue) →
  (∀ c, phase_conn (sn_phase st) = Some c → ∃ c', phase_conn phase = Some c' ∧
     keeps_replies (cn_waiters c) (cn_waiters c')) →
  conn_pairs [cmd] = settled →
  Forall2 (kfate_ok (<[k := mkStation phase queue]> (km_stations s))) settled fates →
  sys_ok all (mkCsmsState (km_registry s) (<[k := mkStation phase queue]> (km_stations s))
    (km_pc s) (km_paused s) (km_commands s) (km_callers s ++ fates) log).
Proof.
  intros Hk Hq [Ha Hs] Hok Hg Hset Hf. split; [|by apply Forall_insert].
  apply (kaccounted_step all s _ settled fates); [|done|exact Hf| |done];
    [by apply (grow_insert _ _ st)|].
  unfold pending_pairs. simpl.
  destruct (bind_insert queue_pairs (km_stations s) k st Hk) as (rest & -> & Hins).
  rewrite (Hins (mkStation phase queue)). unfold queue_pairs at 1 2. rewrite Hq. simpl sn_queue.
  change (cmd :: queue) with ([cmd] ++ queue). rewrite conn_pairs_app, Hset. solve_Permutation.
Qed.

(** One that no caller awaits. *)
Lemma take_quiet all s k st cmd queue phase log :
  km_stations s !! k = Some st → sn_queue st = cmd :: queue → sys_ok all s →
  station_ok (mkStation phase queue) →
  (∀ c, phase_conn (sn_phase st) = Some c → ∃ c', phase_conn phase = Some c' ∧
     keeps_replies (cn_waiters c) (cn_waiters c')) →
  conn_pairs [cmd] = [] →
  sys_ok all (mkCsmsState (km_registry s) (<[k := mkStation phase queue]> (km_stations s))
    (km_pc s) (km_paused s) (km_commands s) (km_callers s) log).
Proof.
  intros Hk Hq Hok Hst Hg Hn. rewrite <-(app_nil_r (km_callers s)).
  by apply (take_ok all s k st cmd queue phase [] []).
Qed.

Lemma station_recv_ok all s k st id c call_id :
  km_stations s !! k = Some st → sn_phase st = PH_Running id c → sys_ok all s →
  sys_ok all (station_recv json_error_text validation_text s k id c call_id (sn_queue st)).
Proof.
  intros Hk Hp Hok. unfold station_recv. destruct (sn_queue st) as [|cmd queue] eqn:Hq; [done|].
  assert (table_ok c ∧ tracked_ok c) as [Ht Htr].
  { destruct Hok as [_ Hs]. pose proof (station_at _ _ _ Hk Hs) as Hst. unfold station_ok in Hst.
    by rewrite Hp in Hst. }
  destruct cmd as [|a|a caller].
  - apply (take_quiet all s k st NC_Terminate queue); try done.
    + by apply shutdown_over.
    + intros c'. rewrite Hp. intros [= <-]. eexists. split; [done|]. by apply shutdown_over.
  - pose proof (conn_step_ok json_from_str json_error_text validation_text (handle id) c (CE_Fire call_id a) Ht) as [H1 H2].
    pose proof (step_tracked json_from_str json_error_text validation_text (handle id) c (CE_Fire call_id a) Htr) as H3.
    simpl in H1, H2, H3. destruct (conn_fire c call_id a) as [sent c']. simpl in *.
    assert (∀ log, sys_ok all (mkCsmsState (km_registry s)
      (<[k := mkStation (PH_Running id c') queue]> (km_stations s))
      (km_pc s) (km_paused s) (km_commands s) (km_callers s) log)) as Hres.
    { intros log. apply (take_quiet all s k st (NC_Fire a) queue); try done.
      intros c0. rewrite Hp. intros [= <-]. by exists c'. }
    destruct sent; apply Hres.
  - pose proof (conn_step_ok json_from_str json_error_text validation_text (handle id) c (CE_Call call_id a) Ht) as [H1 H2].
    pose proof (step_tracked json_from_str json_error_text validation_text (handle id) c (CE_Call call_id a) Htr) as H3.
    simpl in H1, H2, H3.
    apply (take_ok all s k st (NC_Call a caller) queue _ [(caller, a)]); try done.
    + intros c0. rewrite Hp. intros [= <-]. by eexists.
    + constructor; [|constructor]. split; [done|]. simpl.
      destruct (call_waiter json_error_text validation_text c call_id a) as (x & Hx & Hxa).
      eexists _, _, x. split; [apply list_lookup_insert_eq; by eapply lookup_lt_Some|]. done.
Qed.

Lemma station_leave_ok all s k st id c :
  km_stations s !! k = Some st → sn_phase st = PH_Leaving id c → sys_ok all s →
  sys_ok all (station_leave s k id c (sn_queue st)).
Proof.
  intros Hk Hp [Ha Hs]. unfold station_leave.
  assert (conn_over c) as Hov.
  { pose proof (station_at _ _ _ Hk Hs) as Hst. unfold station_ok in Hst. by rewrite Hp in Hst. }
  split; [|simpl; by apply Forall_insert].
  apply (kaccounted_step all s _ (conn_pairs (sn_queue st)) (all_dropped (conn_callers (sn_queue st))));
    [|done| | |done].
  - simpl. apply (grow_insert _ _ st); [done|]. intros c'. rewrite Hp. intros [= <-].
    exists c. split; [done|apply keeps_refl].
  - rewrite conn_callers_pairs. apply dropped_ok.
  - unfold pending_pairs. simpl.
    destruct (bind_insert queue_pairs (km_stations s) k st Hk) as (rest & -> & Hins).
    rewrite (Hins (mkStation (PH_Gone id c) [])). unfold queue_pairs at 1 2. simpl. solve_Permutation.
Qed.

Lemma station_step_ok all s k (se : StationEvent) :
  sys_ok all s →
  sys_ok all (station_step (HE := HE) json_from_str json_error_text validation_text handle
    base64 version basic_auth s k se).
Proof.
  intros Hok. unfold station_step. destruct (km_stations s !! k) as [st|] eqn:Hk; [|done].
  assert (station_ok st) as Hst.
  { destruct Hok as [_ Hs]. by eapply station_at. }
  unfold station_ok in Hst. destruct (sn_phase st) as [| |id c|id c|id c] eqn:Hp, se; try done.
  - by apply (handshake_ok all s k st).
  - destruct Hst as [Ht Htr]. unfold station_task, task_step.
    pose proof (λ e, conn_step_ok json_from_str json_error_text validation_text (handle id) c e Ht) as H1.
    pose proof (λ e, step_tracked json_from_str json_error_text validation_text (handle id) c e Htr) as H2.
    apply (phase_ok all s k st); [done|done| |].
    + split; [apply H1|apply H2].
    + intros c'. rewrite Hp. intros [= <-]. eexists. split; [done|]. apply H1.
  - destruct (cn_notified c); [|done]. destruct Hst as [Ht Htr].
    destruct (shutdown_over c Ht Htr) as [Hov Hkr].
    apply (phase_ok all s k st); [done|done|done|].
    intros c'. rewrite Hp. intros [= <-]. by eexists.
  - by apply station_recv_ok.
  - by apply (station_leave_ok all s k st).
Qed.

Lemma loop_sending_stations s sends stop :
  km_stations (loop_sending s sends stop) = km_stations s.
Proof. by destruct sends, stop. Qed.

Lemma route_stations s cmd : km_stations (route s cmd) = km_stations s.
Proof.
  unfold route. destruct (default _ _); try case_match; try done; apply loop_sending_stations.
Qed.

Lemma csms_step_ok all s ev : sys_ok all s → sys_ok all (step s ev).
Proof.
  intros Hok. pose proof Hok as [Ha Hs]. destruct ev as [ok| | | |k se]; cbn [csms_step].
  - destruct (km_pc s) eqn:Hpc, (km_paused s); try done.
    destruct ok; [|by apply (sys_ok_frame all s)]. split.
    + apply (kaccounted_same all s); [|done| |done].
      * intros k st c Hk Hc. exists st, c. simpl. split_and!; [by apply lookup_app_l_Some|done|].
        apply keeps_refl.
      * unfold pending_pairs. simpl. rewrite bind_app. simpl. by rewrite app_nil_r.
    + simpl. apply Forall_app. split; [done|]. by repeat constructor.
  - by destruct (km_pc s).
  - destruct (km_pc s) eqn:Hpc; try done. split.
    + pose proof (recv_accounted all s Hpc Ha) as Hr. cbn [csms_step] in Hr. by rewrite Hpc in Hr.
    + destruct (Commands_recv _) as [cmd commands]. by rewrite route_stations.
  - split; [by apply send_accounted|]. unfold send_step.
    destruct (km_pc s) as [|[|[tx cmd] sends] stop|]; try done.
    destruct (km_stations s !! tx) as [st|] eqn:Hst; [|done].
    destruct (negb _) eqn:Hr; [by rewrite loop_sending_stations|].
    destruct (_ <? _)%nat; [|done]. rewrite loop_sending_stations. simpl.
    rewrite (alter_is_insert _ _ _ _ Hst). apply Forall_insert; [done|].
    pose proof (station_at _ _ _ Hst Hs) as Hok'. unfold station_ok in *. simpl. by destruct (sn_phase st).
  - by apply station_step_ok.
Qed.

Lemma csms_run_ok all s evs : sys_ok all s → sys_ok all (run s evs).
Proof.
  revert s. induction evs as [|ev evs IH]; intros s Hok; [done|]. simpl. by apply IH, csms_step_ok.
Qed.

Lemma csms_start_ok commands log :
  sys_ok (server_pairs (cm_queued commands ++ cm_receiver commands))
    (csms_start (JE := JE) (WE := WE) (Num := Num) (Response := Response) commands log []).
Proof. split; [|constructor]. exists []. split; [constructor|done]. Qed.

(** C13: in every interleaving of the accept loop with its stations, each caller
    that awaits a reply is either still on its way (not received, in a send or
    in a station's queue) or has exactly one fate: its own action was called on
    a station's connection, it was told that there is no such connection, or
    its reply channel was dropped. Once a station has left its loop, every
    call made on its connection has been answered, nothing runs on it and,
    when it is gone, nothing waits in its queue. *)
Theorem csms_calls_settle commands log evs :
  let s := run (csms_start commands log []) evs in
  (∃ settled,
     server_pairs (cm_queued commands ++ cm_receiver commands) ≡ₚ settled ++ pending_pairs s ∧
     Forall2 (kfate_ok (km_stations s)) settled (km_callers s)) ∧
  ∀ k st id c, km_stations s !! k = Some st →
    sn_phase st = PH_Leaving id c ∨ sn_phase st = PH_Gone id c →
    torn_down c ∧ (∀ w x, cn_waiters c !! w = Some x → is_Some (w_reply x)) ∧
    (sn_phase st = PH_Gone id c → sn_queue st = []).
Proof.
  intros s. destruct (csms_run_ok _ _ evs (csms_start_ok commands log)) as [(dn & Hf & Hall) Hs].
  fold s in Hf, Hall, Hs. split; [by exists dn|]. intros k st id c Hk Hp.
  apply (station_at _ _ _ Hk) in Hs. unfold station_ok in Hs.
  destruct Hp as [Hp|Hp]; rewrite Hp in Hs; [destruct Hs as [[_ [_ Hr]] Ht]|
    destruct Hs as [[[_ [_ Hr]] Ht] Hq]]; split_and!; try done. by rewrite Hp.
Qed.

(** ** The registry *)

(** A station as the registry sees it. *)
Inductive Shape := SH_Waiting | SH_Failed | SH_Up (id : Z) | SH_Gone (id : Z).

Definition shape_of st : Shape :=
  match sn_phase st with
  | PH_Handshaking => SH_Waiting
  | PH_Failed => SH_Failed
  | PH_Running id _ | PH_Leaving id _ => SH_Up id
  | PH_Gone id _ => SH_Gone id
  end.

Definition shape_id (sh : Shape) : option Z :=
  match sh with SH_Up id | SH_Gone id => Some id | _ => None end.

(** The registry holds exactly the stations that are up, each under its own id;
    ids are never given twice, and the next one is new. *)
Definition registry_ok (r : ConnectionRegistry) (shapes : list Shape) : Prop :=
  (∀ id h, rg_connections r !! id = Some h → shapes !! ch_cmd_tx h = Some (SH_Up id)) ∧
  (∀ k id, shapes !! k = Some (SH_Up id) → ∃ h, rg_connections r !! id = Some h ∧ ch_cmd_tx h = k) ∧
  (∀ k sh id, shapes !! k = Some sh → shape_id sh = Some id → 1 <= id < rg_next_id r) ∧
  (∀ k k' sh sh' id, shapes !! k = Some sh → shapes !! k' = Some sh' →
     shape_id sh = Some id → shape_id sh' = Some id → k = k') ∧
  1 <= rg_next_id r.

Lemma registry_start_ok : registry_ok registry_new [].
Proof. split_and!; [intros id h; simpl; by rewrite lookup_empty|done..]. Qed.

Lemma registry_ok_accept r shapes : registry_ok r shapes → registry_ok r (shapes ++ [SH_Waiting]).
Proof.
  intros (Ha & Hb & Hc & Hd & He).
  assert (∀ k sh id, (shapes ++ [SH_Waiting]) !! k = Some sh → shape_id sh = Some id →
    shapes !! k = Some sh) as Hold.
  { intros k sh id [Hk|[_ Hk]]%lookup_app_Some Hid; [done|].
    apply list_lookup_singleton_Some in Hk as [_ <-]. done. }
  split_and!; [| | | |done].
  - intros id h Hh. by apply lookup_app_l_Some, Ha.
  - intros k id Hk. apply Hb. by eapply Hold.
  - intros k sh id Hk Hid. eapply Hc; [by eapply Hold|done].
  - intros k k' sh sh' id Hk Hk' Hid Hid'. eapply Hd; [by eapply Hold|by eapply Hold|done|done].
Qed.

(** Shapes that carry no id may change among themselves. *)
Lemma registry_ok_failed r shapes k sh :
  shapes !! k = Some sh → shape_id sh = None → registry_ok r shapes →
  registry_ok r (<[k := SH_Failed]> shapes).
Proof.
  intros Hk Hn (Ha & Hb & Hc & Hd & He).
  assert (∀ j sh' id, (<[k := SH_Failed]> shapes) !! j = Some sh' → shape_id sh' = Some id →
    shapes !! j = Some sh') as Hold.
  { intros j sh' id [(-> & <- & _)|[_ Hj]]%list_lookup_insert_Some Hid; done. }
  split_and!; [| | | |done].
  - intros id h Hh. rewrite list_lookup_insert_ne; [by apply Ha|].
    intros ->. rewrite (Ha id h Hh) in Hk. by injection Hk as <-.
  - intros j id Hj. apply Hb. by eapply Hold.
  - intros j sh' id Hj Hid. eapply Hc; [by eapply Hold|done].
  - intros j j' sh1 sh2 id Hj Hj' Hid Hid'. eapply Hd; [by eapply Hold|by eapply Hold|done|done].
Qed.

Lemma registry_ok_register r shapes k sh identity :
  shapes !! k = Some sh → shape_id sh = None → rg_next_id r < 2 ^ 64 - 1 → registry_ok r shapes →
  let '(id, r') := registry_next_id r in
  registry_ok (registry_insert r' id k identity) (<[k := SH_Up id]> shapes) ∧
  rg_next_id r' = rg_next_id r + 1.
Proof.
  intros Hk Hn Hlt (Ha & Hb & Hc & Hd & He). simpl.
  assert (as_uint 64 (rg_next_id r + 1) = rg_next_id r + 1) as Hu
    by (unfold as_uint; apply Z.mod_small; lia).
  split; [|done]. unfold registry_ok, registry_insert. simpl. rewrite Hu.
  assert (k < length shapes)%nat as Hlen by by eapply lookup_lt_Some.
  assert (∀ j sh' id, (<[k := SH_Up (rg_next_id r)]> shapes) !! j = Some sh' → shape_id sh' = Some id →
    j = k ∧ id = rg_next_id r ∨ j ≠ k ∧ shapes !! j = Some sh' ∧ 1 <= id < rg_next_id r) as Hold.
  { intros j sh' id [(-> & <- & _)|[Hne Hj]]%list_lookup_insert_Some Hid.
    - injection Hid as <-. by left.
    - right. split; [done|]. split; [done|]. by eapply Hc. }
  split_and!; [| | | |lia].
  - intros id h [[<- <-]|[Hne Hh]]%lookup_insert_Some; [by apply list_lookup_insert_eq|].
    rewrite list_lookup_insert_ne; [by apply Ha|]. intros ->.
    rewrite (Ha id h Hh) in Hk. by injection Hk as <-.
  - intros j id Hj. destruct (Hold j _ id Hj eq_refl) as [[-> ->]|(Hne & Hj' & Hid)].
    + eexists. by rewrite lookup_insert_eq.
    + destruct (Hb j id Hj') as (h & Hh & Hcmd). exists h. rewrite lookup_insert_ne by lia. done.
  - intros j sh' id Hj Hid. destruct (Hold j _ id Hj Hid) as [[_ ->]|(_ & _ & ?)]; lia.
  - intros j j' sh1 sh2 id Hj Hj' Hid Hid'.
    destruct (Hold _ _ _ Hj Hid) as [[-> Hi]|(_ & H1 & Hi)],
      (Hold _ _ _ Hj' Hid') as [[-> Hi']|(_ & H2 & Hi')]; first [done|lia|by eapply Hd].
Qed.

Lemma registry_ok_leave r shapes k id :
  shapes !! k = Some (SH_Up id) → registry_ok r shapes →
  registry_ok (registry_remove r id) (<[k := SH_Gone id]> shapes).
Proof.
  intros Hk (Ha & Hb & Hc & Hd & He).
  assert (∀ j sh' i, (<[k := SH_Gone id]> shapes) !! j = Some sh' → shape_id sh' = Some i →
    ∃ sh0, shapes !! j = Some sh0 ∧ shape_id sh0 = Some i) as Hold.
  { intros j sh' i [(-> & <- & _)|[Hne Hj]]%list_lookup_insert_Some Hid; [|by exists sh'].
    injection Hid as <-. by exists (SH_Up id). }
  split_and!; simpl; [| | | |done].
  - intros i h [Hne Hh]%lookup_delete_Some. rewrite list_lookup_insert_ne; [by apply Ha|].
    intros ->. rewrite (Ha i h Hh) in Hk. by injection Hk as <-.
  - intros j i [(-> & ? & _)|[Hne Hj]]%list_lookup_insert_Some; [done|].
    destruct (Hb j i Hj) as (h & Hh & Hcmd). exists h. split; [|done].
    rewrite lookup_delete_ne; [done|]. intros ->. apply Hne. by eapply Hd.
  - intros j sh' i Hj Hid. destruct (Hold _ _ _ Hj Hid) as (sh0 & H1 & H2). by eapply Hc.
  - intros j j' sh1 sh2 i Hj Hj' Hid Hid'.
    destruct (Hold _ _ _ Hj Hid) as (? & ? & ?), (Hold _ _ _ Hj' Hid') as (? & ? & ?). by eapply Hd.
Qed.


(** ** The registry through a run *)

Definition shapes s : list Shape := shape_of <$> km_stations s.

(** What the registry's laws look at. *)
Definition same_registry s s' : Prop :=
  km_registry s' = km_registry s ∧ shapes s' = shapes s.

Lemma loop_sending_registry s sends stop :
  km_registry (loop_sending s sends stop) = km_registry s.
Proof. by destruct sends, stop. Qed.

Lemma route_registry s cmd : km_registry (route s cmd) = km_registry s.
Proof.
  unfold route. destruct (default _ _); try case_match; try done; apply loop_sending_registry.
Qed.

Lemma shapes_insert (l : list St) k st :
  shape_of <$> <[k := st]> l = <[k := shape_of st]> (shape_of <$> l).
Proof. apply list_fmap_insert. Qed.

(** A station changed without a change of its shape. *)
Lemma shapes_keep (l : list St) k st st' :
  l !! k = Some st → shape_of st' = shape_of st → shape_of <$> <[k := st']> l = shape_of <$> l.
Proof.
  intros Hk Hs. rewrite shapes_insert. apply list_insert_id.
  rewrite list_lookup_fmap, Hk. simpl. by rewrite Hs.
Qed.

Lemma send_same s : same_registry s (send_step s).
Proof.
  unfold send_step. destruct (km_pc s) as [|[|[tx cmd] sends] stop|]; try done.
  destruct (km_stations s !! tx) as [st|] eqn:Hst; [|done].
  unfold same_registry, shapes.
  destruct (negb _); [by rewrite loop_sending_registry, loop_sending_stations|].
  destruct (_ <? _)%nat; [|done]. rewrite loop_sending_registry, loop_sending_stations. split; [done|].
  simpl. rewrite (alter_is_insert _ _ _ _ Hst). by apply (shapes_keep _ _ st).
Qed.

Definition registry_inv s : Prop := registry_ok (km_registry s) (shapes s).

Lemma same_registry_inv s s' : same_registry s s' → registry_inv s → registry_inv s'.
Proof. unfold registry_inv. by intros [-> ->]. Qed.

(** A station's phase is replaced. *)
Lemma phase_shapes s k st phase :
  km_stations s !! k = Some st →
  shapes (km_phase s k phase) = <[k := shape_of (mkStation phase (sn_queue st))]> (shapes s).
Proof.
  intros Hk. unfold shapes, km_phase. simpl. by rewrite (alter_is_insert _ _ _ _ Hk), shapes_insert.
Qed.

Lemma handshake_registry s k st input :
  km_stations s !! k = Some st → sn_phase st = PH_Handshaking →
  rg_next_id (km_registry s) < 2 ^ 64 - 1 → registry_inv s →
  let s' := handshake_step (HE := HE) base64 version basic_auth s k input in
  registry_inv s' ∧ rg_next_id (km_registry s') <= rg_next_id (km_registry s) + 1.
Proof.
  intros Hk Hp Hlt Hok.
  assert (shapes s !! k = Some SH_Waiting) as Hsh.
  { unfold shapes. rewrite list_lookup_fmap, Hk. simpl. unfold shape_of. by rewrite Hp. }
  assert (∀ s', same_registry s s' → km_stations s' = km_stations s →
    registry_inv (km_phase s' k PH_Failed) ∧
    rg_next_id (km_registry (km_phase s' k PH_Failed)) <= rg_next_id (km_registry s) + 1) as Hfail.
  { intros s' [E1 E2] E3. split; [|simpl; rewrite E1; lia]. unfold registry_inv.
    rewrite (phase_shapes s' k st) by (by rewrite E3). simpl. rewrite E1, E2.
    by apply (registry_ok_failed _ _ _ SH_Waiting). }
  unfold handshake_step. destruct input as [| |req]; [by apply Hfail|by apply Hfail|].
  destruct (handshake_callback _ _ _ _) as [[who [|  |]]|]; try by apply Hfail.
  pose proof (registry_ok_register _ _ k SH_Waiting who Hsh eq_refl Hlt Hok) as Hreg.
  destruct (registry_next_id (km_registry s)) as [id r] eqn:Hnext. destruct Hreg as [H1 H2].
  split; [|simpl; lia]. unfold registry_inv.
  rewrite (phase_shapes _ k st) by done. exact H1.
Qed.

Lemma shape_at s k st : km_stations s !! k = Some st → shapes s !! k = Some (shape_of st).
Proof. intros Hk. unfold shapes. by rewrite list_lookup_fmap, Hk. Qed.

(** A station's own step, but for the handshake and the last one. *)
Lemma station_step_same s k st (se : StationEvent) :
  km_stations s !! k = Some st → sn_phase st ≠ PH_Handshaking →
  (∀ id c, sn_phase st = PH_Leaving id c → se ≠ SE_Leave) →
  same_registry s (station_step (HE := HE) json_from_str json_error_text validation_text handle
    base64 version basic_auth s k se).
Proof.
  intros Hk Hnh Hnl. unfold station_step. rewrite Hk.
  assert (∀ phase, shape_of (mkStation phase (sn_queue st)) = shape_of st →
    same_registry s (km_phase s k phase)) as Hph.
  { intros phase Hs. split; [done|]. rewrite (phase_shapes _ _ st) by done.
    rewrite Hs. by apply list_insert_id, shape_at. }
  assert (∀ s' st', same_registry s s' → km_stations s' = <[k := st']> (km_stations s) →
    shape_of st' = shape_of st → km_registry s' = km_registry s → same_registry s s') as Hput
    by done.
  unfold shape_of in Hph. destruct (sn_phase st) as [| |id c|id c|id c] eqn:Hp, se; try done.
  - by apply Hph.
  - destruct (cn_notified c); [by apply Hph|done].
  - unfold station_recv. destruct (sn_queue st) as [|cmd queue]; [done|].
    assert (∀ phase, match phase with PH_Running i _ | PH_Leaving i _ => i = id | _ => False end →
      shape_of <$> <[k := mkStation phase queue]> (km_stations s) = shapes s) as Hq.
    { intros phase Hi. apply (shapes_keep _ _ st); [done|]. unfold shape_of. simpl. rewrite Hp.
      by destruct phase; subst. }
    destruct cmd as [|a|a caller]; [split; [done|by apply Hq]| |split; [done|by apply Hq]].
    destruct (conn_fire c call_id a) as [[|] c']; (split; [done|by apply Hq]).
  - by destruct (Hnl id c).
Qed.

Lemma csms_step_registry s ev :
  rg_next_id (km_registry s) < 2 ^ 64 - 1 → registry_inv s →
  registry_inv (step s ev) ∧
  rg_next_id (km_registry (step s ev)) <= rg_next_id (km_registry s) + 1.
Proof.
  intros Hlt Hok.
  assert (∀ s', same_registry s s' → registry_inv s' ∧
    rg_next_id (km_registry s') <= rg_next_id (km_registry s) + 1) as Hsame.
  { intros s' Hs. split; [by eapply same_registry_inv|]. destruct Hs as [-> _]. lia. }
  destruct ev as [ok| | | |k se]; cbn [csms_step].
  - destruct (km_pc s), (km_paused s); try by apply Hsame.
    destruct ok; [|by apply Hsame]. split; [|simpl; lia].
    unfold registry_inv, shapes. simpl. rewrite fmap_app. by apply registry_ok_accept.
  - destruct (km_pc s); by apply Hsame.
  - destruct (km_pc s); try by apply Hsame. destruct (Commands_recv _) as [cmd commands].
    apply Hsame. split; [by rewrite route_registry|]. unfold shapes. by rewrite route_stations.
  - apply Hsame, send_same.
  - destruct (km_stations s !! k) as [st|] eqn:Hk;
      [|by apply Hsame; unfold station_step; rewrite Hk].
    destruct (sn_phase st) as [| |id c|id c|id c] eqn:Hp; try destruct se;
      try by apply Hsame, (station_step_same s k st); [done|by rewrite Hp|intros ??; by rewrite Hp].
    all: unfold station_step; rewrite Hk, Hp; try by apply Hsame.
    + by apply (handshake_registry s k st).
    + split; [|simpl; lia]. unfold registry_inv, station_leave, shapes. simpl.
      rewrite shapes_insert. apply registry_ok_leave; [|done].
      rewrite list_lookup_fmap, Hk. simpl. unfold shape_of. by rewrite Hp.
Qed.

Lemma csms_run_registry s evs :
  registry_inv s → rg_next_id (km_registry s) + Z.of_nat (length evs) < 2 ^ 64 →
  registry_inv (run s evs).
Proof.
  revert s. induction evs as [|ev evs IH]; intros s Hok Hlt; [done|]. simpl in Hlt |- *.
  destruct (csms_step_registry s ev) as [H1 H2]; [lia|done|]. apply IH; [done|]. lia.
Qed.

(** C14: while fewer steps were taken than there are connection ids, the
    registry holds exactly the stations that are connected: a connection id
    routes to the one station that runs under it, a station that is running
    or leaving is found under its id, a station that is gone is not, and no two
    stations, gone ones included, ever had the same id. *)
Theorem registry_tracks_stations commands log evs :
  Z.of_nat (length evs) < 2 ^ 64 - 1 →
  let s := run (csms_start commands log []) evs in
  (∀ id k, registry_sender (km_registry s) id = Some k ↔
     ∃ st c, km_stations s !! k = Some st ∧
       (sn_phase st = PH_Running id c ∨ sn_phase st = PH_Leaving id c)) ∧
  (∀ k k' st st' id, km_stations s !! k = Some st → km_stations s !! k' = Some st' →
     shape_id (shape_of st) = Some id → shape_id (shape_of st') = Some id → k = k').
Proof.
  intros Hlen s.
  destruct (csms_run_registry (csms_start commands log []) evs registry_start_ok) as
    (Ha & Hb & _ & Hd & _); [simpl; lia|]. fold s in Ha, Hb, Hd. split.
  - intros id k. unfold registry_sender. rewrite fmap_Some. split.
    + intros (h & Hh & ->). apply Ha in Hh. unfold shapes in Hh.
      apply list_lookup_fmap_Some in Hh as (st & Hs & Hk). unfold shape_of in Hs.
      exists st. destruct (sn_phase st) as [| |i c|i c|i c]; try done; injection Hs as <-;
        exists c; split; auto.
    + intros (st & c & Hk & Hp). destruct (Hb k id) as (h & Hh & Hcmd); [|by exists h].
      apply shape_at in Hk. rewrite Hk. unfold shape_of. by destruct Hp as [-> | ->].
  - intros k k' st st' id Hk Hk' Hi Hi'. by eapply Hd; [apply shape_at|apply shape_at| |].
Qed.


(** ** Termination *)

(** The task of the station has left its command loop, or never will enter it. *)
Definition has_left st : Prop :=
  match sn_phase st with PH_Leaving _ _ | PH_Gone _ _ => True | _ => False end.

Definition connected st : Prop := is_Some (phase_conn (sn_phase st)).

Definition told st : Prop := connected st ∧ (has_left st ∨ NC_Terminate ∈ sn_queue st).

Definition pending_sends (pc : LoopPc (Action := Action)) : list (nat * ConnCommand Action) :=
  match pc with LP_Sending sends _ => sends | _ => [] end.

(** The stations [ks] were told to terminate, or will be. *)
Definition telling (ks : list nat) s : Prop :=
  ∀ k, k ∈ ks → ∃ st, km_stations s !! k = Some st ∧ connected st ∧
    (told st ∨ (k, NC_Terminate) ∈ pending_sends (km_pc s)).

(** The accept loop has taken a terminate command. *)
Definition stopping s : Prop :=
  match km_pc s with
  | LP_Sending sends stop => stop = true ∧ sends ≠ [] ∧ Forall (λ p, p.1 < length (km_stations s))%nat sends
  | LP_Ended => True
  | LP_Select => False
  end.

Lemma loop_sending_true s sends :
  km_pc (loop_sending s sends true) = match sends with [] => LP_Ended | _ => LP_Sending sends true end.
Proof. by destruct sends. Qed.

Lemma pending_sends_true s sends : pending_sends (km_pc (loop_sending s sends true)) = sends.
Proof. by destruct sends. Qed.

Lemma loop_sending_stopping s sends :
  Forall (λ p, p.1 < length (km_stations s))%nat sends → stopping (loop_sending s sends true).
Proof. by destruct sends. Qed.

(** One send, once a terminate command was taken. *)
Lemma send_telling ks s :
  stopping s → telling ks s → stopping (send_step s) ∧ telling ks (send_step s).
Proof.
  intros Hstop Ht. unfold send_step.
  destruct (km_pc s) as [|[|[tx cmd] sends] stop|] eqn:Hpc; try done.
  destruct (km_stations s !! tx) as [st|] eqn:Hst; [|done].
  unfold stopping in Hstop. rewrite Hpc in Hstop. destruct Hstop as (-> & _ & Hlen).
  apply Forall_cons in Hlen as [_ Hlen].
  assert (∀ s' st', km_stations s' = <[tx := st']> (km_stations s) →
    (connected st → connected st' ∧ (cmd = NC_Terminate → told st')) → (told st → told st') →
    stopping (loop_sending s' sends true) ∧ telling ks (loop_sending s' sends true)) as Hres.
  { intros s' st' Es Hc Htold. split.
    - apply loop_sending_stopping. by rewrite Es, length_insert.
    - intros k Hk. rewrite loop_sending_stations, pending_sends_true, Es.
      destruct (Ht k Hk) as (x & Hx & Hcx & Hor). rewrite Hpc in Hor. simpl in Hor.
      destruct (decide (k = tx)) as [->|Hne].
      + rewrite Hst in Hx. injection Hx as <-. exists st'.
        rewrite list_lookup_insert_eq by by eapply lookup_lt_Some.
        destruct (Hc Hcx) as [Hc' Hterm]. split_and!; [done|done|].
        destruct Hor as [Hor|[[= <-]|Hin]%elem_of_cons]; [|left; by apply Hterm|by right].
        left. by apply Htold.
      + exists x. rewrite list_lookup_insert_ne by done. split_and!; [done|done|].
        destruct Hor as [?|[[= -> _]|Hin]%elem_of_cons]; [by left|done|by right]. }
  destruct (negb _) eqn:Hr.
  - apply (Hres _ st); [simpl; by rewrite list_insert_id| |done]. intros Hc. split; [done|].
    intros _. split; [done|]. left. unfold connected, has_left in *.
    destruct (sn_phase st); try done; by destruct Hc.
  - destruct (_ <? _)%nat.
    + apply (Hres _ (push_command cmd st)); [simpl; by rewrite (alter_is_insert _ _ _ _ Hst)| |].
      * intros Hc. split; [done|]. intros ->. split; [done|]. right. simpl.
        apply elem_of_app. right. by apply list_elem_of_singleton.
      * intros [Hc [Hl|Hin]]; split; [done|by left|done|]. right. simpl.
        apply elem_of_app. by left.
    + split; [|done]. unfold stopping. rewrite Hpc. split_and!; [done|done|].
      apply Forall_cons. split; [by eapply lookup_lt_Some|done].
Qed.

(** Stations go on: one that is connected stays so, one that was told stays told. *)
Definition goes_on (l l' : list St) : Prop :=
  length l' = length l ∧
  ∀ i st, l !! i = Some st → ∃ st', l' !! i = Some st' ∧
    (connected st → connected st') ∧ (told st → told st').

Lemma goes_on_refl l : goes_on l l.
Proof. split; [done|]. intros i st Hi. by exists st. Qed.

Lemma goes_on_insert l k st st' :
  l !! k = Some st → (connected st → connected st') → (told st → told st') →
  goes_on l (<[k := st']> l).
Proof.
  intros Hk Hc Ht. split; [by rewrite length_insert|]. intros i x Hi.
  destruct (decide (i = k)) as [->|Hne].
  - rewrite Hk in Hi. injection Hi as <-. exists st'.
    by rewrite list_lookup_insert_eq by by eapply lookup_lt_Some.
  - exists x. by rewrite list_lookup_insert_ne.
Qed.

Lemma station_step_goes_on s k (se : StationEvent) :
  let s' := station_step (HE := HE) json_from_str json_error_text validation_text handle
    base64 version basic_auth s k se in
  km_pc s' = km_pc s ∧ goes_on (km_stations s) (km_stations s').
Proof.
  unfold station_step. destruct (km_stations s !! k) as [st|] eqn:Hk; [|by split; [|apply goes_on_refl]].
  assert (∀ s' st', km_pc s' = km_pc s → km_stations s' = <[k := st']> (km_stations s) →
    (connected st → connected st') → (told st → told st') →
    km_pc s' = km_pc s ∧ goes_on (km_stations s) (km_stations s')) as Hput.
  { intros s' st' Hpc -> Hc Ht. split; [done|]. by apply (goes_on_insert _ _ st). }
  assert (∀ s' phase, km_pc s' = km_pc s → km_stations s' = km_stations s →
    (connected st → is_Some (phase_conn phase)) → (has_left st → has_left (mkStation phase [])) →
    km_pc (km_phase s' k phase) = km_pc s ∧
    goes_on (km_stations s) (km_stations (km_phase s' k phase))) as Hph.
  { intros s' phase E1 E2 Hc Hl. apply (Hput _ (mkStation phase (sn_queue st))); [done| |done|].
    - simpl. by rewrite E2, (alter_is_insert _ _ _ _ Hk).
    - intros [Hcs Hor]. split; [by apply Hc|]. destruct Hor as [Hor|Hor]; [left; by apply Hl|by right]. }
  unfold told, has_left, connected in *.
  destruct (sn_phase st) as [| |id c|id c|id c] eqn:Hp, se;
    try (split; [done|apply goes_on_refl]).
  - unfold handshake_step. destruct input as [| |req]; [| |destruct (handshake_callback _ _ _ _)
      as [[who [|  |]]|]]; apply Hph; done || (by intros []).
  - by apply Hph.
  - destruct (cn_notified c); [by apply Hph|split; [done|apply goes_on_refl]].
  - unfold station_recv. destruct (sn_queue st) as [|cmd queue] eqn:Hq;
      [split; [done|apply goes_on_refl]|].
    assert (cmd ≠ NC_Terminate → NC_Terminate ∈ cmd :: queue → NC_Terminate ∈ queue) as Hin
      by (intros Hne [Heq|Hin]%elem_of_cons; [by rewrite Heq in Hne|done]).
    destruct cmd as [|a|a caller].
    + apply (Hput _ (mkStation (PH_Leaving id (conn_shutdown c)) queue)); [done|done|done|].
      intros _. split; [done|by left].
    + destruct (conn_fire c call_id a) as [sent c'].
      apply (Hput _ (mkStation (PH_Running id c') queue)); [by destruct sent|by destruct sent|done|].
      intros [_ [[]|Hq']]. split; [done|]. right. by apply Hin.
    + eapply (Hput _ (mkStation (PH_Running id _) queue)); [done|done|done|].
      intros [_ [[]|Hq']]. split; [done|]. right. by apply Hin.
  - apply (Hput _ (mkStation (PH_Gone id c) [])); [done|done|done|]. intros _. split; [done|by left].
Qed.

Lemma csms_step_telling ks s ev :
  stopping s → telling ks s → stopping (step s ev) ∧ telling ks (step s ev).
Proof.
  intros Hstop Ht. assert (km_pc s ≠ LP_Select) as Hns.
  { unfold stopping in Hstop. by destruct (km_pc s). }
  destruct ev as [ok| | | |k se]; cbn [csms_step]; try (by destruct (km_pc s)).
  - by apply send_telling.
  - destruct (station_step_goes_on s k se) as [Hpc [Hlen Hgo]]. split.
    + unfold stopping in *. by rewrite Hpc, Hlen.
    + intros i Hi. destruct (Ht i Hi) as (st & Hst & Hc & Hor).
      destruct (Hgo i st Hst) as (st' & Hst' & Hc' & Ht'). exists st'. rewrite Hpc.
      split_and!; [done|by apply Hc'|]. destruct Hor as [?|?]; [left; by apply Ht'|by right].
Qed.

Lemma csms_run_telling ks s evs :
  stopping s → telling ks s → stopping (run s evs) ∧ telling ks (run s evs).
Proof.
  revert s. induction evs as [|ev evs IH]; intros s Hs Ht; [done|]. simpl.
  destruct (csms_step_telling ks s ev Hs Ht). by apply IH.
Qed.


Lemma csms_run_app s evs evs' : run s (evs ++ evs') = run (run s evs) evs'.
Proof. apply foldl_app. Qed.

Lemma csms_run_cons s ev evs : run s (ev :: evs) = run (step s ev) evs.
Proof. done. Qed.

(** A station that has left takes no more commands. *)
Lemma left_stays call_id s k st n :
  km_stations s !! k = Some st → has_left st →
  run s (replicate n (KE_Station k (SE_Recv call_id))) = s.
Proof.
  intros Hk Hl. induction n as [|n IH]; [done|].
  cbn [replicate]. rewrite csms_run_cons. cbn [csms_step].
  assert (station_step (HE := HE) json_from_str json_error_text validation_text handle
    base64 version basic_auth s k (SE_Recv call_id) = s) as ->; [|done].
  unfold station_step. rewrite Hk. unfold has_left in Hl. by destruct (sn_phase st).
Qed.

(** A running station takes the commands of its queue, up to the first
    terminate. *)
Lemma leaves_after call_id s k st :
  km_stations s !! k = Some st → told st →
  ∃ st', km_stations (run s (replicate (length (sn_queue st)) (KE_Station k (SE_Recv call_id)))) !! k
    = Some st' ∧ has_left st'.
Proof.
  remember (length (sn_queue st)) as n eqn:Hn. revert s st Hn.
  induction n as [|n IH]; intros s st Hn Hk Htold.
  - exists st. split; [done|]. destruct Htold as [_ [Hl|Hin]]; [done|].
    destruct (sn_queue st); [by apply not_elem_of_nil in Hin|done].
  - destruct (sn_queue st) as [|cmd queue] eqn:Hq; [done|]. injection Hn as Hn.
    destruct Htold as [Hc Hor]. rewrite Hq in Hor.
    destruct (sn_phase st) as [| |id c|id c|id c] eqn:Hp.
    1,2: unfold connected in Hc; rewrite Hp in Hc; by destruct Hc.
    2,3: exists st; assert (has_left st) as Hl by (unfold has_left; by rewrite Hp);
      by rewrite (left_stays _ _ _ st).
    cbn [replicate]. rewrite csms_run_cons. cbn [csms_step].
    assert (∀ phase, (<[k := mkStation phase queue]> (km_stations s)) !! k = Some (mkStation phase queue))
      as Hins by (intros phase; apply list_lookup_insert_eq; by eapply lookup_lt_Some).
    unfold station_step. rewrite Hk, Hp, Hq.
    assert (cmd ≠ NC_Terminate → NC_Terminate ∈ queue) as Hin.
    { intros Hne. destruct Hor as [Hl|[Heq|Hin]%elem_of_cons]; [unfold has_left in Hl; by rewrite Hp in Hl| |done].
      by rewrite Heq in Hne. }
    unfold station_recv. destruct cmd as [|a|a caller].
    + eexists. erewrite (left_stays call_id); [split; [apply Hins|done]|apply Hins|done].
    + destruct (conn_fire c call_id a) as [sent c'].
      eapply (IH _ (mkStation (PH_Running id c') queue));
        [exact Hn|destruct sent; apply Hins|split; [by eexists|right; by apply Hin]].
    + eapply (IH _ (mkStation (PH_Running id _) queue));
        [exact Hn|simpl; apply Hins|split; [by eexists|right; by apply Hin]].
Qed.

(** While the station a send is for can go on, so can the send. *)
Lemma drain_one (call_id : string) s tx cmd sends st :
  km_pc s = LP_Sending ((tx, cmd) :: sends) true → km_stations s !! tx = Some st →
  ∃ evs, km_pc (run s evs) = match sends with [] => LP_Ended | _ => LP_Sending sends true end.
Proof.
  remember (length (sn_queue st)) as n eqn:Hn. revert s st Hn.
  induction n as [n IH] using lt_wf_ind; intros s st Hn Hpc Hst.
  destruct (decide (receiving (sn_phase st) = false ∨ (length (sn_queue st) < COMMAND_CHANNEL_CAP)%nat))
    as [Hgo|Hfull].
  - exists [KE_Send]. simpl. unfold send_step. rewrite Hpc, Hst.
    destruct (receiving _) eqn:Hr; simpl; [|by rewrite loop_sending_true].
    destruct Hgo as [?|Hlt]; [done|]. apply Nat.ltb_lt in Hlt. by rewrite Hlt, loop_sending_true.
  - assert (receiving (sn_phase st) ≠ false ∧ ¬ (length (sn_queue st) < COMMAND_CHANNEL_CAP)%nat)
      as [Hr Hlen] by tauto. unfold COMMAND_CHANNEL_CAP in Hlen.
    destruct (sn_queue st) as [|c0 queue] eqn:Hq; [simpl in Hlen; lia|].
    assert (∀ st' ev, km_pc (step s ev) = km_pc s → km_stations (step s ev) !! tx = Some st' →
      (length (sn_queue st') < n)%nat →
      ∃ evs, km_pc (run s evs) = match sends with [] => LP_Ended | _ => LP_Sending sends true end) as Hone.
    { intros st' ev E1 E2 Hlt. destruct (IH _ Hlt (step s ev) st' eq_refl) as (evs & He);
        [by rewrite E1|done|]. by exists (ev :: evs). }
    assert (∀ phase q, (<[tx := mkStation phase q]> (km_stations s)) !! tx = Some (mkStation phase q))
      as Hins by (intros phase q; apply list_lookup_insert_eq; by eapply lookup_lt_Some).
    simpl in Hn. destruct (sn_phase st) as [| |id c|id c|id c] eqn:Hp; try done.
    + destruct c0 as [|a|a caller].
      * eapply (Hone (mkStation _ queue) (KE_Station tx (SE_Recv call_id))); simpl; unfold station_step; rewrite ?Hst, ?Hp, ?Hq;
          [done|apply Hins|simpl; lia].
      * destruct (conn_fire c call_id a) as [sent c'] eqn:Hf.
        eapply (Hone (mkStation _ queue) (KE_Station tx (SE_Recv call_id))); simpl; unfold station_step; rewrite ?Hst, ?Hp, ?Hq;
          simpl; rewrite ?Hf; [by destruct sent|destruct sent; apply Hins|simpl; lia].
      * eapply (Hone (mkStation _ queue) (KE_Station tx (SE_Recv call_id))); simpl; unfold station_step; rewrite ?Hst, ?Hp, ?Hq;
          [done|apply Hins|simpl; lia].
    + eapply (Hone (mkStation _ []) (KE_Station tx SE_Leave)); simpl; unfold station_step; rewrite ?Hst, ?Hp, ?Hq;
        [done|apply Hins|simpl; lia].
Qed.

Lemma drain (call_id : string) s : stopping s → ∃ evs, km_pc (run s evs) = LP_Ended.
Proof.
  intros Hstop. remember (length (pending_sends (km_pc s))) as n eqn:Hn. revert s Hstop Hn.
  induction n as [n IH] using lt_wf_ind; intros s Hstop Hn. pose proof Hstop as Hs. unfold stopping in Hs.
  destruct (km_pc s) as [|sends stop|] eqn:Hpc; [done| |by exists []]. destruct Hs as (-> & Hne & Hall).
  destruct sends as [|[tx cmd] sends]; [done|].
  apply Forall_cons in Hall as [Htx _]. apply lookup_lt_is_Some in Htx as [st Hst].
  destruct (drain_one call_id s tx cmd sends st Hpc Hst) as (evs & He).
  destruct (csms_run_telling [] s evs Hstop) as [Hstop' _];
    [intros k Hk; by apply not_elem_of_nil in Hk|].
  destruct (IH (length (pending_sends (km_pc (run s evs)))) ltac:(rewrite He; subst n; simpl; destruct sends; simpl; lia)
    (run s evs) Hstop' eq_refl) as (evs' & He').
  exists (evs ++ evs'). by rewrite csms_run_app.
Qed.


(** What the accept loop does when it takes a terminate command: every
    connection of the registry is to be told. *)
Lemma terminate_starts s :
  km_pc s = LP_Select → default KC_Terminate (Commands_recv (km_commands s)).1 = KC_Terminate →
  registry_inv s →
  stopping (step s KE_Recv) ∧ km_stations (step s KE_Recv) = km_stations s ∧
  ∀ ks, (∀ k, k ∈ ks → ∃ st id, km_stations s !! k = Some st ∧ shape_of st = SH_Up id) →
    telling ks (step s KE_Recv).
Proof.
  intros Hpc Hcmd (Ha & Hb & _). cbn [csms_step]. rewrite Hpc.
  destruct (Commands_recv (km_commands s)) as [cmd commands]. simpl in Hcmd. unfold route.
  rewrite Hcmd. split_and!.
  - apply loop_sending_stopping. simpl. apply list.Forall_forall.
    intros [tx c] [k [[= -> _] Hk]]%list_elem_of_fmap. simpl.
    unfold registry_all_senders in Hk. apply list_elem_of_fmap in Hk as [[id h] [-> Hh]].
    apply elem_of_map_to_list in Hh. apply Ha, lookup_lt_Some in Hh. unfold shapes in Hh.
    by rewrite length_fmap in Hh.
  - by rewrite loop_sending_stations.
  - intros ks Hks k Hk. destruct (Hks k Hk) as (st & id & Hst & Hsh). exists st.
    rewrite loop_sending_stations, pending_sends_true. split_and!; [done| |right].
    + unfold connected. unfold shape_of in Hsh. by destruct (sn_phase st).
    + pose proof (shape_at _ _ _ Hst) as Hat. rewrite Hsh in Hat.
      destruct (Hb k id Hat) as (h & Hh & <-). apply list_elem_of_fmap. exists (ch_cmd_tx h).
      split; [done|]. apply list_elem_of_fmap. exists (id, h). by rewrite elem_of_map_to_list.
Qed.

(** C15: when the server is told to terminate, the accept loop can always come
    to its end; and once it has, each station that was connected when the
    command was taken either has left its command loop or has a terminate
    command waiting in its queue, and then leaves after at most as many
    receives as its queue is long. *)
Theorem terminate_reaches_all commands log evs evs' call_id :
  Z.of_nat (length evs) < 2 ^ 64 - 1 →
  let s0 := run (csms_start commands log []) evs in
  let s := run s0 (KE_Recv :: evs') in
  km_pc s0 = LP_Select → default KC_Terminate (Commands_recv (km_commands s0)).1 = KC_Terminate →
  (∃ more, km_pc (run s more) = LP_Ended) ∧
  (km_pc s = LP_Ended → ∀ k st0 id, km_stations s0 !! k = Some st0 → shape_of st0 = SH_Up id →
   ∃ st, km_stations s !! k = Some st ∧ (has_left st ∨ NC_Terminate ∈ sn_queue st) ∧
   ∃ st', km_stations (run s (replicate (length (sn_queue st)) (KE_Station k (SE_Recv call_id)))) !! k
     = Some st' ∧ has_left st').
Proof.
  intros Hlen s0 s Hpc Hcmd.
  assert (registry_inv s0) as Hreg by (apply csms_run_registry; [apply registry_start_ok|simpl; lia]).
  destruct (terminate_starts s0 Hpc Hcmd Hreg) as (Hstop & _ & Htell).
  assert (s = run (step s0 KE_Recv) evs') as Es by done. clearbody s. subst s. split.
  - destruct (csms_run_telling [] (step s0 KE_Recv) evs' Hstop) as [Hst _];
      [intros k Hk; by apply not_elem_of_nil in Hk|]. by apply (drain call_id).
  - intros Hend k st0 id Hk Hsh.
    destruct (csms_run_telling [k] (step s0 KE_Recv) evs' Hstop) as [_ Ht].
    { apply Htell. intros i ->%list_elem_of_singleton. by eexists _, _. }
    destruct (Ht k) as (st & Hst & Hc & Hor); [by apply list_elem_of_singleton|].
    rewrite Hend in Hor. destruct Hor as [Htold|Hin]; [|by apply not_elem_of_nil in Hin].
    exists st. split_and!; [done|apply Htold|]. by apply (leaves_after _ _ _ st).
Qed.

(** A station nobody can stop any more. *)
Definition overlooked k s : Prop :=
  km_pc s = LP_Ended ∧ ∃ st, km_stations s !! k = Some st ∧ sn_queue st = [] ∧
  match sn_phase st with PH_Leaving _ _ | PH_Gone _ _ => False | _ => True end.

Lemma overlooked_step k s ev :
  overlooked k s → ev ≠ KE_Station k SE_Notified → overlooked k (step s ev).
Proof.
  intros [Hpc (st & Hk & Hq & Hp)] Hne.
  destruct ev as [ok| | | |j se]; cbn [csms_step]; rewrite ?Hpc; try by (split; [done|by exists st]).
  - unfold send_step. rewrite Hpc. split; [done|by exists st].
  - destruct (station_step_goes_on s j se) as [Hpc' _]. split; [by rewrite Hpc'|].
    unfold station_step. destruct (km_stations s !! j) as [x|] eqn:Hj; [|by exists st].
    destruct (decide (j = k)) as [->|Hjk].
    + rewrite Hj in Hk. injection Hk as ->.
      assert (∀ s' phase, km_stations s' = km_stations s →
        match phase with PH_Leaving _ _ | PH_Gone _ _ => False | _ => True end →
        ∃ st', km_stations (km_phase s' k phase) !! k = Some st' ∧ sn_queue st' = [] ∧
        match sn_phase st' with PH_Leaving _ _ | PH_Gone _ _ => False | _ => True end) as Hph.
      { intros s' phase E Hph. exists (mkStation phase (sn_queue st)). simpl.
        rewrite E, list_lookup_alter_eq, Hj. by split_and!. }
      destruct (sn_phase st) as [| |id c|id c|id c] eqn:Hp', se; try done;
        try (exists st; by rewrite Hp').
      * unfold handshake_step. destruct input as [| |req]; try by apply Hph.
        destruct (handshake_callback _ _ _ _) as [[who [|  |]]|]; by apply Hph.
      * by apply Hph.
      * unfold station_recv. rewrite Hq. exists st. by rewrite Hp'.
    + exists st. split; [|done].
      destruct (sn_phase x) as [| |id c|id c|id c] eqn:Hx, se; try done.
      * unfold handshake_step. destruct input as [| |req]; simpl; try by rewrite list_lookup_alter_ne.
        destruct (handshake_callback _ _ _ _) as [[who [|  |]]|]; simpl; by rewrite list_lookup_alter_ne.
      * simpl. by rewrite list_lookup_alter_ne.
      * destruct (cn_notified c); [|done]. simpl. by rewrite list_lookup_alter_ne.
      * unfold station_recv. destruct (sn_queue x) as [|[|a|a caller] queue]; [done|..];
          [simpl; by rewrite list_lookup_insert_ne| |simpl; by rewrite list_lookup_insert_ne].
        destruct (conn_fire c call_id a) as [[|] c']; simpl; by rewrite list_lookup_insert_ne.
      * simpl. by rewrite list_lookup_insert_ne.
Qed.

(** A station whose handshake is still going on when the accept loop ends is
    never told to terminate: whatever happens then, its queue stays empty, and
    unless its own connection ends it does not leave, though its handshake may
    succeed and it may run. *)
Theorem late_station_never_told commands log evs k st evs' :
  let s := run (csms_start commands log []) evs in
  km_pc s = LP_Ended → km_stations s !! k = Some st → sn_phase st = PH_Handshaking →
  KE_Station k SE_Notified ∉ evs' →
  ∃ st', km_stations (run s evs') !! k = Some st' ∧ sn_queue st' = [] ∧ ¬ has_left st'.
Proof.
  intros s Hpc Hk Hp Hn.
  assert (overlooked k s) as Hov.
  { split; [done|]. exists st. rewrite Hp. split_and!; [done| |done].
    destruct (csms_run_ok _ _ evs (csms_start_ok commands log)) as [_ Hs].
    pose proof (station_at _ _ _ Hk Hs) as Hst. unfold station_ok in Hst. by rewrite Hp in Hst. }
  clearbody s. clear Hpc Hk Hp. assert (overlooked k (run s evs')) as [_ (st' & H1 & H2 & H3)].
  { revert s Hov Hn. induction evs' as [|ev evs' IH]; intros s Hov Hn; [done|].
    apply not_elem_of_cons in Hn as [Hne Hn]. rewrite csms_run_cons. apply IH; [|done].
    by apply overlooked_step. }
  exists st'. split_and!; [done|done|]. unfold has_left. revert H3.
  destruct (sn_phase st'); intros H3 Hl; done.
Qed.
End props.

(** ** A server *)

Abbreviation demo_csms := (csms_run (Text := Json unit) (WE := unit) (HE := unit) (Request := DemoRequest)
  json_id id id (λ _, echo_handle) demo_base64 V1_6 None).

Definition demo_offer : DemoRequest :=
  (bytes_of "/ocpp/CS001", [(bytes_of "sec-websocket-protocol", subprotocol V1_6)]).

(** Two stations connect; one is called and answers, the other never shakes
    hands; a call to a station that does not exist; then the server is told to
    terminate. *)
Definition demo_csms_commands : Commands (CsmsCommand echo_action) :=
  mkCommands
    [KC_SendToConnectionAwait 1 ("Heartbeat", J_Null)%string 7;
     KC_SendToConnectionAwait 5 ("Reset", J_Null)%string 8; KC_Terminate] [].

Definition demo_csms_events : list (CsmsEvent (Json unit) unit DemoRequest) :=
  [KE_Accept true; KE_Accept true; KE_Station 0 (SE_Handshake (HI_Request demo_offer));
   KE_Recv; KE_Send; KE_Station 0 (SE_Recv "a"); KE_Recv].

Abbreviation demo_serving := (demo_csms
  (csms_start (JE := string) (Response := Json unit) demo_csms_commands [] []) demo_csms_events).

Lemma csms_calls_settle_witness :
  km_callers demo_serving = [(7%nat, KF_Call 0 0); (8%nat, KF_NoSuchConnection)] ∧
  ∃ settled,
    server_pairs (cm_queued demo_csms_commands ++ cm_receiver demo_csms_commands) ≡ₚ
      settled ++ pending_pairs demo_serving ∧
    Forall2 (kfate_ok (km_stations demo_serving)) settled (km_callers demo_serving).
Proof.
  split; [vm_compute; reflexivity|].
  destruct (csms_calls_settle (WE := unit) (HE := unit) json_id id id (λ _, echo_handle) demo_base64 V1_6
    None demo_csms_commands [] demo_csms_events) as [H _].
  exact H.
Defined.

Lemma registry_tracks_stations_witness :
  registry_sender (km_registry demo_serving) 1 = Some 0%nat ∧
  ∃ st c, km_stations demo_serving !! 0%nat = Some st ∧
    (sn_phase st = PH_Running 1 c ∨ sn_phase st = PH_Leaving 1 c).
Proof.
  assert (registry_sender (km_registry demo_serving) 1 = Some 0%nat) as Hreg by (vm_compute; reflexivity).
  split; [exact Hreg|].
  destruct (registry_tracks_stations (WE := unit) (HE := unit) json_id id id (λ _, echo_handle)
    demo_base64 V1_6 None demo_csms_commands [] demo_csms_events) as [H _]; [vm_compute; reflexivity|].
  exact (proj1 (H 1 0%nat) Hreg).
Defined.

Lemma demo_station :
  ∃ st0, km_stations demo_serving !! 0%nat = Some st0 ∧ shape_of st0 = SH_Up 1.
Proof. eexists. split; [vm_compute; reflexivity|reflexivity]. Qed.

Lemma terminate_reaches_all_witness :
  let s := demo_csms demo_serving [KE_Recv; KE_Send] in
  km_pc s = LP_Ended ∧
  ∃ st, km_stations s !! 0%nat = Some st ∧ (has_left st ∨ NC_Terminate ∈ sn_queue st) ∧
  ∃ st', km_stations (demo_csms s (replicate (length (sn_queue st)) (KE_Station 0 (SE_Recv "b")))) !! 0%nat
    = Some st' ∧ has_left st'.
Proof.
  assert (km_pc (demo_csms demo_serving [KE_Recv; KE_Send]) = LP_Ended) as Hend by (vm_compute; reflexivity).
  split; [exact Hend|]. destruct demo_station as (st0 & Hst & Hsh).
 
  destruct (terminate_reaches_all (WE := unit) (HE := unit) json_id id id (λ _, echo_handle)
    demo_base64 V1_6 None demo_csms_commands [] demo_csms_events [KE_Send] "b") as [_ H];
    [vm_compute; reflexivity|vm_compute; reflexivity|vm_compute; reflexivity|].
  exact (H Hend 0%nat st0 1 Hst Hsh).
Defined.
