(* ===== verification/Calendar.v ===== *)
(** * The dates of OCPP messages

    Models [rfc3339] and [civil_from_days] of
    [ferrowl/src/module/ocpp/client/backend.rs]: the text of a Unix time in
    milliseconds. The calendar they compute is compared with counting days from
    1970-01-01 one by one. *)

From stdpp Require Import base list numbers strings.
From S2P Require Import Prelude IntText.

Local Open Scope Z_scope.
#[local] Ltac Zify.zify_post_hook ::= Z.to_euclidean_division_equations.

(** [/] on an [i64] truncates; [doe as u64] wraps. *)
Definition civil_from_days (z : Z) : Z * Z * Z :=
  let z := z + 719468 in
  let era := Z.quot (if 0 <=? z then z else z - 146096) 146097 in
  let doe := as_uint 64 (z - era * 146097) in
  let yoe := (doe - doe / 1460 + doe / 36524 - doe / 146096) / 365 in
  let y := yoe + era * 400 in
  let doy := doe - (365 * yoe + yoe / 4 - yoe / 100) in
  let mp := (5 * doy + 2) / 153 in
  let d := doy - (153 * mp + 2) / 5 + 1 in
  let m := if mp <? 10 then mp + 3 else mp - 9 in
  let y := if m <=? 2 then y + 1 else y in
  (as_sint 32 y, as_uint 32 m, as_uint 32 d).

(** [{:0width}] of a number that is not negative. *)
Definition zero_padded (width : nat) (v : Z) : list Z :=
  let ds := int_display v in replicate (width - length ds) 48 ++ ds.

(** 45 is ['-'], 84 ['T'], 58 [':'], 90 ['Z']. *)
Definition rfc3339 (ms : Z) : list Z :=
  let total_secs := ms / 1000 in
  let h := (total_secs / 3600) mod 24 in
  let m := (total_secs / 60) mod 60 in
  let s := total_secs mod 60 in
  let '(year, month, day) := civil_from_days (total_secs / 86400) in
  zero_padded 4 year ++ [45] ++ zero_padded 2 month ++ [45] ++ zero_padded 2 day ++ [84] ++
  zero_padded 2 h ++ [58] ++ zero_padded 2 m ++ [58] ++ zero_padded 2 s ++ [90].

(** ** The Gregorian calendar *)

Definition is_leap (y : Z) : bool := (y mod 4 =? 0) && (negb (y mod 100 =? 0) || (y mod 400 =? 0)).

Definition month_days (leap : bool) (m : Z) : Z :=
  if m =? 2 then if leap then 29 else 28
  else if (m =? 4) || (m =? 6) || (m =? 9) || (m =? 11) then 30 else 31.

Definition next_day (date : Z * Z * Z) : Z * Z * Z :=
  let '(y, m, d) := date in
  if d <? month_days (is_leap y) m then (y, m, d + 1)
  else if m =? 12 then (y + 1, 1, 1) else (y, m + 1, 1).

(** ** Years that begin in March *)

(** The days before year [yoe] of an era of 400 years, and its length. *)
Definition year_start (yoe : Z) : Z := 365 * yoe + yoe / 4 - yoe / 100.
Definition year_length (leap : bool) : Z := if leap then 366 else 365.

(** The month and day of the [doy]-th day, and whether the civil year has moved
    on. *)
Definition day_of_year (doy : Z) : Z * Z * bool :=
  let mp := (5 * doy + 2) / 153 in
  let m := if mp <? 10 then mp + 3 else mp - 9 in
  (m, doy - (153 * mp + 2) / 5 + 1, m <=? 2).

Definition date_of (year doy : Z) : Z * Z * Z :=
  let '(m, d, late) := day_of_year doy in ((if late : bool then year + 1 else year), m, d).

Definition year_of (doe : Z) : Z := (doe - doe / 1460 + doe / 36524 - doe / 146096) / 365.

Lemma year_of_mono a b : 0 <= a <= b → year_of a <= year_of b.
Proof.
  intros [Ha Hab]. unfold year_of. apply Z.div_le_mono; [lia|].
  revert b Hab. apply Z.right_induction; [solve_proper|lia|]. intros b Hb IH.
  etransitivity; [exact IH|]. lia.
Qed.

(** The bounds of each year of an era, by cases. *)
Definition year_ok (yoe : Z) : bool :=
  let start := year_start yoe in
  let len := year_length (is_leap (yoe + 1)) in
  (year_of start =? yoe) && (year_of (start + len - 1) =? yoe) &&
  (start + len =? if yoe =? 399 then 146097 else year_start (yoe + 1)).

Lemma years_ok yoe : 0 <= yoe < 400 → year_ok yoe = true.
Proof.
  intros Hy. assert (forallb year_ok (seqZ 0 400) = true) as Hall by (vm_compute; reflexivity).
  rewrite forallb_forall in Hall. apply Hall, list_elem_of_In, elem_of_seqZ. lia.
Qed.

Lemma year_of_day yoe doy :
  0 <= yoe < 400 → 0 <= doy < year_length (is_leap (yoe + 1)) →
  year_of (year_start yoe + doy) = yoe.
Proof.
  intros Hy Hd. pose proof (years_ok yoe Hy) as Hok. unfold year_ok in Hok.
  apply andb_prop in Hok as [[H1 H2]%andb_prop _]. apply Z.eqb_eq in H1, H2.
  assert (0 <= year_start yoe) by (unfold year_start; lia).
  pose proof (year_of_mono (year_start yoe) (year_start yoe + doy) ltac:(lia)).
  pose proof (year_of_mono (year_start yoe + doy)
    (year_start yoe + year_length (is_leap (yoe + 1)) - 1) ltac:(lia)). lia.
Qed.

(** The next day within a year, by cases. *)
Definition day_ok (leap : bool) (doy : Z) : bool :=
  let '(m, d, late) := day_of_year doy in
  bool_decide (1 <= m <= 12 ∧ 1 <= d <= 31) &&
  if doy + 1 <? year_length leap
  then
    let '(m', d', late') := day_of_year (doy + 1) in
    if d <? month_days leap m
    then bool_decide (m' = m ∧ d' = d + 1 ∧ late' = late)
    else if m =? 12 then bool_decide (m' = 1 ∧ d' = 1 ∧ late = false ∧ late' = true)
    else bool_decide (m' = m + 1 ∧ d' = 1 ∧ late' = late)
  else negb (d <? month_days leap m) && bool_decide (m = 2 ∧ late = true).

Lemma days_ok leap doy : 0 <= doy < year_length leap → day_ok leap doy = true.
Proof.
  intros Hd. assert (∀ l, forallb (day_ok l) (seqZ 0 (year_length l)) = true) as Hall
    by (intros []; vm_compute; reflexivity).
  specialize (Hall leap). rewrite forallb_forall in Hall. apply Hall, list_elem_of_In, elem_of_seqZ. lia.
Qed.

Lemma is_leap_era y era : is_leap (y + 400 * era) = is_leap y.
Proof.
  unfold is_leap.
  assert ((y + 400 * era) mod 4 = y mod 4) as -> by lia.
  assert ((y + 400 * era) mod 100 = y mod 100) as -> by lia.
  assert ((y + 400 * era) mod 400 = y mod 400) as -> by lia. done.
Qed.

Lemma as_sint_nonneg (w v : Z) : 1 <= w → 0 <= v < 2 ^ (w - 1) → as_sint w v = v.
Proof.
  intros Hw Hv. unfold as_sint.
  assert (2 ^ w = 2 * 2 ^ (w - 1)) by (rewrite <-Z.pow_succ_r by lia; f_equal; lia).
  rewrite Z.mod_small by lia. assert ((v <? 2 ^ (w - 1)) = true) as -> by lia. done.
Qed.

(** The day after, in a year that begins in March. *)
Lemma next_date year doy :
  0 <= doy < year_length (is_leap (year + 1)) →
  next_day (date_of year doy) =
    if doy + 1 <? year_length (is_leap (year + 1)) then date_of year (doy + 1)
    else date_of (year + 1) 0.
Proof.
  intros Hd. pose proof (days_ok (is_leap (year + 1)) doy Hd) as Hok. unfold day_ok, date_of in *.
  destruct (day_of_year doy) as [[m d] late] eqn:Hdoy.
  assert (late = (m <=? 2)) as Hlate by (unfold day_of_year in Hdoy; by injection Hdoy as <- _ <-).
  assert (month_days (is_leap (if late then year + 1 else year)) m
    = month_days (is_leap (year + 1)) m) as Hmd.
  { subst late. destruct (m <=? 2) eqn:Hm; [done|]. apply Z.leb_gt in Hm. unfold month_days.
    assert ((m =? 2) = false) as -> by lia. done. }
  unfold next_day. rewrite Hmd. apply andb_prop in Hok as [Hrange Hok].
  apply bool_decide_eq_true in Hrange.
  destruct (doy + 1 <? _).
  - destruct (day_of_year (doy + 1)) as [[m' d'] late'].
    destruct (d <? _); [|destruct (m =? 12)]; apply bool_decide_eq_true in Hok.
    + by destruct Hok as (-> & -> & ->).
    + by destruct Hok as (-> & -> & -> & ->).
    + by destruct Hok as (-> & -> & ->).
  - apply andb_prop in Hok as [Hn Hm]. apply bool_decide_eq_true in Hm as [-> ->].
    apply negb_true_iff in Hn. rewrite Hn. reflexivity.
Qed.

(** The days since 0000-03-01 up to the given one. *)
Definition day_number (era yoe doy : Z) : Z := era * 146097 + year_start yoe + doy.

Definition in_era (yoe doy : Z) : Prop :=
  0 <= yoe < 400 ∧ 0 <= doy < year_length (is_leap (yoe + 1)).

Lemma civil_date era yoe doy :
  0 <= era < 2 ^ 22 → in_era yoe doy →
  civil_from_days (day_number era yoe doy - 719468) = date_of (yoe + 400 * era) doy.
Proof.
  intros He [Hy Hd]. pose proof (years_ok yoe Hy) as Hok. unfold year_ok in Hok.
  apply andb_prop in Hok as [_ Hlen]. apply Z.eqb_eq in Hlen.
  set (doe := year_start yoe + doy).
  assert (0 <= year_start yoe) as Hs by (unfold year_start; lia).
  assert (0 <= doe < 146097) as Hdoe.
  { split; [unfold doe; lia|]. destruct (yoe =? 399) eqn:E; [unfold doe; lia|].
    unfold doe. unfold year_start in *. unfold year_length in *. destruct (is_leap _); lia. }
  pose proof (year_of_day yoe doy Hy Hd) as Hyo. fold doe in Hyo.
  unfold civil_from_days. rewrite Z.sub_add. unfold day_number.
  replace (era * 146097 + year_start yoe + doy) with (doe + era * 146097) by (unfold doe; lia).
  assert ((0 <=? doe + era * 146097) = true) as -> by lia.
  assert (Z.quot (doe + era * 146097) 146097 = era) as -> by lia.
  rewrite Z.add_simpl_r.
  assert (as_uint 64 doe = doe) as -> by (unfold as_uint; lia).
  change ((doe - doe / 1460 + doe / 36524 - doe / 146096) / 365) with (year_of doe). rewrite Hyo.
  change (365 * yoe + yoe / 4 - yoe / 100) with (year_start yoe).
  replace (doe - year_start yoe) with doy by (unfold doe; lia).
  pose proof (days_ok _ _ Hd) as Hday. unfold day_ok in Hday. unfold date_of.
  unfold day_of_year in *. apply andb_prop in Hday as [Hr _]. apply bool_decide_eq_true in Hr.
  set (m := if (5 * doy + 2) / 153 <? 10 then _ else _) in *.
  f_equal; [f_equal|].
  - rewrite as_sint_nonneg; [destruct (m <=? 2); lia|lia|].
    change (2 ^ (32 - 1)) with 2147483648. change (2 ^ 22) with 4194304 in He. destruct (m <=? 2); lia.
  - apply as_uint_small. unfold is_uint. change (2 ^ 32) with 4294967296. lia.
  - apply as_uint_small. unfold is_uint. change (2 ^ 32) with 4294967296. lia.
Qed.

(** The day after, across years and eras. *)
Lemma next_number era yoe doy :
  in_era yoe doy → ∃ era' yoe' doy', in_era yoe' doy' ∧ era <= era' <= era + 1 ∧
    day_number era' yoe' doy' = day_number era yoe doy + 1 ∧
    date_of (yoe' + 400 * era') doy' = next_day (date_of (yoe + 400 * era) doy).
Proof.
  intros [Hy Hd]. pose proof (years_ok yoe Hy) as Hok. unfold year_ok in Hok.
  apply andb_prop in Hok as [_ Hlen]. apply Z.eqb_eq in Hlen.
  assert (is_leap (yoe + 400 * era + 1) = is_leap (yoe + 1)) as Hleap
    by (rewrite <-(is_leap_era (yoe + 1) era); f_equal; lia).
  rewrite next_date by (by rewrite Hleap). rewrite Hleap. unfold day_number, in_era.
  destruct (doy + 1 <? year_length (is_leap (yoe + 1))) eqn:E.
  - exists era, yoe, (doy + 1). split_and!; try lia. done.
  - assert (∀ l, 0 < year_length l) as Hpos by (by intros []).
    destruct (yoe =? 399) eqn:Ey.
    + exists (era + 1), 0, 0. pose proof (Hpos (is_leap (0 + 1))).
      split_and!; try lia; [unfold year_start in *; lia|]. f_equal. lia.
    + exists era, (yoe + 1), 0. pose proof (Hpos (is_leap (yoe + 1 + 1))).
      split_and!; try lia. f_equal. lia.
Qed.

(** The last day of a 64-bit time in milliseconds. *)
Definition last_day : Z := 2 ^ 64 / 86400000.

(** For every day of a 64-bit time no intermediate value overflows, and the date
    is the one reached by going on day by day. *)
Lemma civil_from_days_counts (n : nat) :
  Z.of_nat n <= last_day → civil_from_days (Z.of_nat n) = Nat.iter n next_day (1970, 1, 1).
Proof.
  intros Hn.
  assert (∃ era yoe doy, in_era yoe doy ∧ 0 <= era ∧ day_number era yoe doy = Z.of_nat n + 719468 ∧
    date_of (yoe + 400 * era) doy = Nat.iter n next_day (1970, 1, 1))
    as (era & yoe & doy & Hin & He & Hnum & <-).
  { clear Hn. induction n as [|n (era & yoe & doy & Hin & He & Hnum & Hdate)].
    - exists 4, 369, 306. split; [|done]. split; [lia|]. change (year_length _) with 365. lia.
    - destruct (next_number era yoe doy Hin) as (era' & yoe' & doy' & Hin' & Heb & Hnum' & Hdate').
      exists era', yoe', doy'. rewrite Nat2Z.inj_succ. split_and!; [done|lia|lia|].
      simpl. by rewrite <-Hdate. }
  rewrite <-civil_date; [f_equal; lia| |done]. split; [done|].
  destruct Hin as [Hy Hd]. unfold day_number, year_start, last_day in *. lia.
Qed.

(** The text of a 64-bit Unix time in milliseconds shows the date reached
    from 1970-01-01 by going on day by day in the Gregorian calendar as often as
    whole days have passed, and the hours, minutes and seconds of the rest: no
    intermediate value overflows. *)
Theorem rfc3339_counts_days (ms : Z) :
  0 <= ms < 2 ^ 64 →
  let '(year, month, day) := Nat.iter (Z.to_nat (ms / 86400000)) next_day (1970, 1, 1) in
  ∃ h m s, 0 <= h < 24 ∧ 0 <= m < 60 ∧ 0 <= s < 60 ∧
    ms / 1000 = 86400 * (ms / 86400000) + 3600 * h + 60 * m + s ∧
    rfc3339 ms =
      zero_padded 4 year ++ bytes_of "-" ++ zero_padded 2 month ++ bytes_of "-" ++
      zero_padded 2 day ++ bytes_of "T" ++ zero_padded 2 h ++ bytes_of ":" ++
      zero_padded 2 m ++ bytes_of ":" ++ zero_padded 2 s ++ bytes_of "Z".
Proof.
  intros Hms.
  assert (ms / 86400000 <= last_day) as Hlast by (apply Z.div_le_mono; lia).
  rewrite <-civil_from_days_counts by (rewrite Z2Nat.id by (apply Z.div_pos; lia); exact Hlast).
  rewrite Z2Nat.id by (apply Z.div_pos; lia).
  assert (ms / 1000 / 86400 = ms / 86400000) as Hday by (by rewrite Z.div_div).
  unfold rfc3339. rewrite Hday. destruct (civil_from_days (ms / 86400000)) as [[year month] day].
  exists ((ms / 1000 / 3600) mod 24), ((ms / 1000 / 60) mod 60), ((ms / 1000) mod 60).
  split_and!; try lia. done.
Qed.

Lemma rfc3339_counts_days_witness :
  Nat.iter (Z.to_nat (951867898123 / 86400000)) next_day (1970, 1, 1) = (2000, 2, 29) ∧
  ∃ h m s, 0 <= h < 24 ∧ 0 <= m < 60 ∧ 0 <= s < 60 ∧
    951867898123 / 1000 = 86400 * (951867898123 / 86400000) + 3600 * h + 60 * m + s ∧
    rfc3339 951867898123 =
      zero_padded 4 2000 ++ bytes_of "-" ++ zero_padded 2 2 ++ bytes_of "-" ++
      zero_padded 2 29 ++ bytes_of "T" ++ zero_padded 2 h ++ bytes_of ":" ++
      zero_padded 2 m ++ bytes_of ":" ++ zero_padded 2 s ++ bytes_of "Z".
Proof.
  assert (Nat.iter (Z.to_nat (951867898123 / 86400000)) next_day (1970, 1, 1) = (2000, 2, 29)) as Hd
    by (vm_compute; reflexivity).
  split; [exact Hd|].
  pose proof (rfc3339_counts_days 951867898123 ltac:(split; vm_compute; [discriminate|reflexivity])) as H.
  rewrite Hd in H. exact H.
Defined.

Example rfc3339_leap_day : rfc3339 951867898123 = bytes_of "2000-02-29T23:44:58Z".
Proof. vm_compute. reflexivity. Qed.
