(* ===== verification/OcppActions.v ===== *)
(** * The action sets of the OCPP versions

    Models [ferrowl-ocpp/src/action/]: the table of each version and the methods
    the macro [define_ocpp_version!] generates from it. The request and response
    structs, their serialization and their validation are the message library's:
    a class. *)

From stdpp Require Import base list numbers strings.
From S2P Require Import Prelude OcppMessage OcppConn OcppHandshake.

(** ** Tables *)

Inductive ConnectorScope := CSC_None | CSC_Optional | CSC_Required.

(** The actions a station originates, those a management system does, and the
    rows: every action, with whether its request is validated. *)
Record ActionTable := mkTable {
  at_cs : list string;
  at_csms : list (string * ConnectorScope);
  at_rows : list (string * bool)
}.

(** OCPP 1.6: 28 actions. *)
Definition actions_V1_6 : ActionTable := mkTable
  [
    "Authorize"; "BootNotification"; "DataTransfer"; "DiagnosticsStatusNotification";
    "FirmwareStatusNotification"; "Heartbeat"; "MeterValues"; "StartTransaction";
    "StatusNotification"; "StopTransaction"]%string
  [
    ("CancelReservation", CSC_None); ("ChangeAvailability", CSC_Required);
    ("ChangeConfiguration", CSC_None); ("ClearCache", CSC_None);
    ("ClearChargingProfile", CSC_Optional); ("GetCompositeSchedule", CSC_Required);
    ("GetConfiguration", CSC_None); ("GetDiagnostics", CSC_None);
    ("GetLocalListVersion", CSC_None); ("RemoteStartTransaction", CSC_Optional);
    ("RemoteStopTransaction", CSC_None); ("ReserveNow", CSC_Required); ("Reset", CSC_None);
    ("SendLocalList", CSC_None); ("SetChargingProfile", CSC_Required);
    ("TriggerMessage", CSC_Optional); ("UnlockConnector", CSC_Required);
    ("UpdateFirmware", CSC_None)]%string
  [
    ("Authorize", true); ("BootNotification", true); ("CancelReservation", false);
    ("ChangeAvailability", false); ("ChangeConfiguration", true); ("ClearCache", false);
    ("ClearChargingProfile", false); ("DataTransfer", true);
    ("DiagnosticsStatusNotification", false); ("FirmwareStatusNotification", false);
    ("GetCompositeSchedule", false); ("GetConfiguration", true); ("GetDiagnostics", true);
    ("GetLocalListVersion", false); ("Heartbeat", true); ("MeterValues", false);
    ("RemoteStartTransaction", true); ("RemoteStopTransaction", false); ("ReserveNow", true);
    ("Reset", false); ("SendLocalList", false); ("SetChargingProfile", false);
    ("StartTransaction", true); ("StatusNotification", true); ("StopTransaction", true);
    ("TriggerMessage", false); ("UnlockConnector", true); ("UpdateFirmware", true)]%string.

(** OCPP 2.0.1: 64 actions. *)
Definition actions_V2_0_1 : ActionTable := mkTable
  [
    "Authorize"; "BootNotification"; "ClearedChargingLimit"; "DataTransfer";
    "FirmwareStatusNotification"; "Get15118EVCertificate"; "GetCertificateStatus"; "Heartbeat";
    "LogStatusNotification"; "MeterValues"; "NotifyChargingLimit"; "NotifyCustomerInformation";
    "NotifyDisplayMessages"; "NotifyEVChargingNeeds"; "NotifyEVChargingSchedule";
    "NotifyEvent"; "NotifyMonitoringReport"; "NotifyReport";
    "PublishFirmwareStatusNotification"; "ReportChargingProfiles"; "ReservationStatusUpdate";
    "SecurityEventNotification"; "SignCertificate"; "StatusNotification"; "TransactionEvent"]%string
  [
    ("CancelReservation", CSC_None); ("CertificateSigned", CSC_None);
    ("ChangeAvailability", CSC_Optional); ("ClearCache", CSC_None);
    ("ClearChargingProfile", CSC_None); ("ClearDisplayMessage", CSC_None);
    ("ClearVariableMonitoring", CSC_None); ("CostUpdated", CSC_None);
    ("CustomerInformation", CSC_None); ("DeleteCertificate", CSC_None);
    ("GetBaseReport", CSC_None); ("GetChargingProfiles", CSC_Optional);
    ("GetCompositeSchedule", CSC_Required); ("GetDisplayMessages", CSC_None);
    ("GetInstalledCertificateIds", CSC_None); ("GetLocalListVersion", CSC_None);
    ("GetLog", CSC_None); ("GetMonitoringReport", CSC_None); ("GetReport", CSC_None);
    ("GetTransactionStatus", CSC_None); ("GetVariables", CSC_None);
    ("InstallCertificate", CSC_None); ("PublishFirmware", CSC_None);
    ("RequestStartTransaction", CSC_Optional); ("RequestStopTransaction", CSC_None);
    ("ReserveNow", CSC_Optional); ("Reset", CSC_Optional); ("SendLocalList", CSC_None);
    ("SetChargingProfile", CSC_Required); ("SetDisplayMessage", CSC_None);
    ("SetMonitoringBase", CSC_None); ("SetMonitoringLevel", CSC_None);
    ("SetNetworkProfile", CSC_None); ("SetVariableMonitoring", CSC_None);
    ("SetVariables", CSC_None); ("TriggerMessage", CSC_Optional);
    ("UnlockConnector", CSC_Required); ("UnpublishFirmware", CSC_None);
    ("UpdateFirmware", CSC_None)]%string
  [
    ("Authorize", true); ("BootNotification", false); ("CancelReservation", false);
    ("CertificateSigned", true); ("ChangeAvailability", false); ("ClearCache", false);
    ("ClearChargingProfile", false); ("ClearDisplayMessage", false);
    ("ClearVariableMonitoring", true); ("ClearedChargingLimit", false); ("CostUpdated", true);
    ("CustomerInformation", true); ("DataTransfer", true); ("DeleteCertificate", false);
    ("FirmwareStatusNotification", false); ("Get15118EVCertificate", true);
    ("GetBaseReport", false); ("GetCertificateStatus", false); ("GetChargingProfiles", false);
    ("GetCompositeSchedule", false); ("GetDisplayMessages", true);
    ("GetInstalledCertificateIds", true); ("GetLocalListVersion", false); ("GetLog", false);
    ("GetMonitoringReport", true); ("GetReport", true); ("GetTransactionStatus", true);
    ("GetVariables", true); ("Heartbeat", false); ("InstallCertificate", true);
    ("LogStatusNotification", false); ("MeterValues", true); ("NotifyChargingLimit", true);
    ("NotifyCustomerInformation", true); ("NotifyDisplayMessages", true);
    ("NotifyEVChargingNeeds", false); ("NotifyEVChargingSchedule", false);
    ("NotifyEvent", true); ("NotifyMonitoringReport", true); ("NotifyReport", true);
    ("PublishFirmware", true); ("PublishFirmwareStatusNotification", true);
    ("ReportChargingProfiles", true); ("RequestStartTransaction", false);
    ("RequestStopTransaction", true); ("ReservationStatusUpdate", false);
    ("ReserveNow", false); ("Reset", false); ("SecurityEventNotification", true);
    ("SendLocalList", true); ("SetChargingProfile", false); ("SetDisplayMessage", false);
    ("SetMonitoringBase", false); ("SetMonitoringLevel", false); ("SetNetworkProfile", false);
    ("SetVariableMonitoring", true); ("SetVariables", true); ("SignCertificate", true);
    ("StatusNotification", false); ("TransactionEvent", true); ("TriggerMessage", false);
    ("UnlockConnector", false); ("UnpublishFirmware", true); ("UpdateFirmware", false)]%string.

(** OCPP 2.1: 90 actions. *)
Definition actions_V2_1 : ActionTable := mkTable
  [
    "Authorize"; "BootNotification"; "ClearedChargingLimit"; "DataTransfer";
    "FirmwareStatusNotification"; "Get15118EVCertificate"; "GetCertificateStatus"; "Heartbeat";
    "LogStatusNotification"; "MeterValues"; "NotifyChargingLimit"; "NotifyCustomerInformation";
    "NotifyDisplayMessages"; "NotifyEVChargingNeeds"; "NotifyEVChargingSchedule";
    "NotifyEvent"; "NotifyMonitoringReport"; "NotifyReport";
    "PublishFirmwareStatusNotification"; "ReportChargingProfiles"; "ReservationStatusUpdate";
    "SecurityEventNotification"; "SignCertificate"; "StatusNotification"; "TransactionEvent";
    "BatterySwap"; "GetCertificateChainStatus"; "NotifyDERAlarm"; "NotifyDERStartStop";
    "NotifyPriorityCharging"; "NotifySettlement"; "NotifyWebPaymentStarted";
    "OpenPeriodicEventStream"; "ClosePeriodicEventStream"; "PullDynamicScheduleUpdate";
    "ReportDERControl"; "VatNumberValidation"]%string
  [
    ("CancelReservation", CSC_None); ("CertificateSigned", CSC_None);
    ("ChangeAvailability", CSC_Optional); ("ClearCache", CSC_None);
    ("ClearChargingProfile", CSC_None); ("ClearDisplayMessage", CSC_None);
    ("ClearVariableMonitoring", CSC_None); ("CostUpdated", CSC_None);
    ("CustomerInformation", CSC_None); ("DeleteCertificate", CSC_None);
    ("GetBaseReport", CSC_None); ("GetChargingProfiles", CSC_Optional);
    ("GetCompositeSchedule", CSC_Required); ("GetDisplayMessages", CSC_None);
    ("GetInstalledCertificateIds", CSC_None); ("GetLocalListVersion", CSC_None);
    ("GetLog", CSC_None); ("GetMonitoringReport", CSC_None); ("GetReport", CSC_None);
    ("GetTransactionStatus", CSC_None); ("GetVariables", CSC_None);
    ("InstallCertificate", CSC_None); ("PublishFirmware", CSC_None);
    ("RequestStartTransaction", CSC_Optional); ("RequestStopTransaction", CSC_None);
    ("ReserveNow", CSC_Optional); ("Reset", CSC_Optional); ("SendLocalList", CSC_None);
    ("SetChargingProfile", CSC_Required); ("SetDisplayMessage", CSC_None);
    ("SetMonitoringBase", CSC_None); ("SetMonitoringLevel", CSC_None);
    ("SetNetworkProfile", CSC_None); ("SetVariableMonitoring", CSC_None);
    ("SetVariables", CSC_None); ("TriggerMessage", CSC_Optional);
    ("UnlockConnector", CSC_Required); ("UnpublishFirmware", CSC_None);
    ("UpdateFirmware", CSC_None); ("AFRRSignal", CSC_None);
    ("AdjustPeriodicEventStream", CSC_None); ("ChangeTransactionTariff", CSC_None);
    ("ClearDERControl", CSC_None); ("ClearTariffs", CSC_Optional); ("GetDERControl", CSC_None);
    ("GetPeriodicEventStream", CSC_None); ("GetTariffs", CSC_Required);
    ("NotifyAllowedEnergyTransfer", CSC_None); ("RequestBatterySwap", CSC_None);
    ("SetDERControl", CSC_None); ("SetDefaultTariff", CSC_Required);
    ("UpdateDynamicSchedule", CSC_None); ("UsePriorityCharging", CSC_None)]%string
  [
    ("AFRRSignal", false); ("AdjustPeriodicEventStream", true); ("Authorize", true);
    ("BatterySwap", true); ("BootNotification", false); ("CancelReservation", true);
    ("CertificateSigned", true); ("ChangeAvailability", false);
    ("ChangeTransactionTariff", true); ("ClearCache", false); ("ClearChargingProfile", false);
    ("ClearDERControl", true); ("ClearDisplayMessage", true); ("ClearTariffs", true);
    ("ClearVariableMonitoring", true); ("ClearedChargingLimit", true);
    ("ClosePeriodicEventStream", true); ("CostUpdated", true); ("CustomerInformation", true);
    ("DataTransfer", true); ("DeleteCertificate", false);
    ("FirmwareStatusNotification", false); ("Get15118EVCertificate", true);
    ("GetBaseReport", false); ("GetCertificateChainStatus", true);
    ("GetCertificateStatus", false); ("GetChargingProfiles", true);
    ("GetCompositeSchedule", true); ("GetDERControl", true); ("GetDisplayMessages", true);
    ("GetInstalledCertificateIds", true); ("GetLocalListVersion", false); ("GetLog", true);
    ("GetMonitoringReport", true); ("GetPeriodicEventStream", false); ("GetReport", true);
    ("GetTariffs", true); ("GetTransactionStatus", true); ("GetVariables", true);
    ("Heartbeat", false); ("InstallCertificate", true); ("LogStatusNotification", false);
    ("MeterValues", true); ("NotifyAllowedEnergyTransfer", true);
    ("NotifyChargingLimit", true); ("NotifyCustomerInformation", true);
    ("NotifyDERAlarm", true); ("NotifyDERStartStop", true); ("NotifyDisplayMessages", true);
    ("NotifyEVChargingNeeds", true); ("NotifyEVChargingSchedule", true); ("NotifyEvent", true);
    ("NotifyMonitoringReport", true); ("NotifyPriorityCharging", true); ("NotifyReport", true);
    ("NotifySettlement", true); ("NotifyWebPaymentStarted", true);
    ("OpenPeriodicEventStream", false); ("PublishFirmwareStatusNotification", true);
    ("PublishFirmware", true); ("PullDynamicScheduleUpdate", false);
    ("ReportChargingProfiles", true); ("ReportDERControl", true);
    ("RequestBatterySwap", false); ("RequestStartTransaction", true);
    ("RequestStopTransaction", true); ("ReservationStatusUpdate", true); ("ReserveNow", true);
    ("Reset", true); ("SecurityEventNotification", true); ("SendLocalList", true);
    ("SetChargingProfile", true); ("SetDERControl", true); ("SetDefaultTariff", true);
    ("SetDisplayMessage", false); ("SetMonitoringBase", false); ("SetMonitoringLevel", true);
    ("SetNetworkProfile", false); ("SetVariableMonitoring", true); ("SetVariables", true);
    ("SignCertificate", true); ("StatusNotification", true); ("TransactionEvent", true);
    ("TriggerMessage", true); ("UnlockConnector", true); ("UnpublishFirmware", true);
    ("UpdateDynamicSchedule", false); ("UpdateFirmware", true); ("UsePriorityCharging", true);
    ("VatNumberValidation", true)]%string.

Definition version_actions (v : OcppVersion) : ActionTable :=
  match v with V1_6 => actions_V1_6 | V2_0_1 => actions_V2_0_1 | V2_1 => actions_V2_1 end.

Definition action_names (v : OcppVersion) : list string := (at_rows (version_actions v)).*1.
Definition cs_actions (v : OcppVersion) : list string := at_cs (version_actions v).
Definition csms_actions (v : OcppVersion) : list (string * ConnectorScope) :=
  at_csms (version_actions v).

(** The row of an action. *)
Definition action_row (v : OcppVersion) (name : string) : option bool :=
  snd <$> find (λ r, String.eqb r.1 name) (at_rows (version_actions v)).

(** ** The generated methods *)

Section version.
Context {Num JE VE Req Resp : Type}.

(** The structs of one version, by action name. *)
Class Messages := {
  request_from_value : string → Json Num → Result Req JE;
  request_to_value : string → Req → Result (Json Num) JE;
  request_validate : string → Req → Result unit VE;
  request_default : string → Req;
  response_from_value : string → Json Num → Result Resp JE;
  response_to_value : string → Resp → Result (Json Num) JE;
  response_default : string → Resp
}.
Context `{Messages}.

(** A variant and its struct. *)
Record Action := mkAction { ac_variant : string; ac_request : Req }.
Record Response := mkResponse { rs_variant : string; rs_response : Resp }.

Context (v : OcppVersion).

Definition default_action (name : string) : option Action :=
  _ ← action_row v name; Some (mkAction name (request_default name)).

Definition default_response (name : string) : option Response :=
  _ ← action_row v name; Some (mkResponse name (response_default name)).

Definition action_decode_call (name : string) (payload : Json Num) : Result Action (OcppError JE VE) :=
  match action_row v name with
  | Some _ =>
      match request_from_value name payload with
      | Ok r => Ok (mkAction name r)
      | Err e => Err (OE_Json e)
      end
  | None => Err (OE_UnknownAction name)
  end.

Definition action_validate (a : Action) : Result unit VE :=
  match action_row v (ac_variant a) with
  | Some true => request_validate (ac_variant a) (ac_request a)
  | _ => Ok tt
  end.

Definition json_result {A} (r : Result A JE) : Result A (OcppError JE VE) :=
  match r with Ok a => Ok a | Err e => Err (OE_Json e) end.

Definition action_encode (a : Action) : Result (Json Num) (OcppError JE VE) :=
  json_result (request_to_value (ac_variant a) (ac_request a)).

Definition response_encode (r : Response) : Result (Json Num) (OcppError JE VE) :=
  json_result (response_to_value (rs_variant r) (rs_response r)).

Definition action_decode_result (a : Action) (payload : Json Num) : Result Response (OcppError JE VE) :=
  match response_from_value (ac_variant a) payload with
  | Ok r => Ok (mkResponse (ac_variant a) r)
  | Err e => Err (OE_Json e)
  end.

#[export] Instance generated_version : Version Num JE VE Action Response := {
  action_name := ac_variant;
  decode_call := action_decode_call;
  validate := action_validate;
  encode_response := response_encode;
  encode_action := action_encode;
  decode_result := action_decode_result
}.

(** ** What they promise *)

(** A variant of the generated enum. *)
Definition is_variant (a : Action) : Prop := ac_variant a ∈ action_names v.

Lemma action_row_spec name : is_Some (action_row v name) ↔ name ∈ action_names v.
Proof.
  unfold action_row, action_names. rewrite fmap_is_Some. split.
  - intros [[n b] Hf]. apply find_some in Hf as [Hin Heq]. simpl in Heq.
    apply String.eqb_eq in Heq as ->. apply list_elem_of_fmap. exists (name, b).
    split; [done|]. by apply list_elem_of_In.
  - intros ([n b] & -> & Hin)%list_elem_of_fmap. simpl.
    destruct (find _ _) eqn:Hf; [done|]. exfalso.
    apply list_elem_of_In in Hin. pose proof (find_none _ _ Hf _ Hin) as Hn. simpl in Hn.
    by rewrite String.eqb_refl in Hn.
Qed.

(** A call is decoded exactly if its action is one of the version's and the
    library can read its payload, to that action with that request; any other
    name is an unknown action. What was decoded is a variant of the enum and is
    encoded as the library encodes the request; and if the library reads back
    what it wrote, every variant is. *)
Theorem call_roundtrip name payload :
  (∀ a, decode_call name payload = Ok a ↔
     name ∈ action_names v ∧ ∃ r, request_from_value name payload = Ok r ∧ a = mkAction name r) ∧
  (name ∉ action_names v → decode_call name payload = Err (OE_UnknownAction name)) ∧
  (∀ a j, is_variant a → encode_action a = Ok j →
     request_from_value (ac_variant a) j = Ok (ac_request a) →
     decode_call (action_name a) j = Ok a).
Proof.
  simpl. unfold action_decode_call, action_encode. pose proof (action_row_spec name) as Hrow.
  split_and!.
  - intros a. destruct (action_row v name) as [b|] eqn:Hb.
    + assert (name ∈ action_names v) by (by apply Hrow).
      destruct (request_from_value name payload) as [r|e]; (split; [|]).
      * intros [= <-]. split; [done|]. by exists r.
      * intros [_ (r' & [= <-] & ->)]. done.
      * done.
      * by intros [_ (? & ? & _)].
    + split; [done|]. intros [Hin _]. apply Hrow in Hin. by destruct Hin.
  - intros Hnot. destruct (action_row v name) eqn:Hb; [|done].
    exfalso. apply Hnot, Hrow. done.
  - intros a j Hv _ Hread. apply action_row_spec in Hv as [b ->].
    rewrite Hread. by destruct a.
Qed.
End version.
Arguments Messages : clear implicits.
Arguments Action : clear implicits.
Arguments Response : clear implicits.

(** ** The tables *)

Definition table_ok (v : OcppVersion) : bool :=
  bool_decide (NoDup (action_names v)) &&
  bool_decide (NoDup (cs_actions v)) &&
  forallb (λ n, bool_decide (n ∈ action_names v)) (cs_actions v) &&
  bool_decide ((csms_actions v).*1 ≡ₚ filter (λ n, n ∉ cs_actions v) (action_names v)).

(** In each version the names of the actions are distinct, those a station
    originates are among them, and those a management system originates are
    exactly the others; 2.1 has every action of 2.0.1, for the same side. *)
Theorem action_sets_partition :
  (∀ v, NoDup (action_names v) ∧ (∀ n, n ∈ cs_actions v → n ∈ action_names v) ∧
     (csms_actions v).*1 ≡ₚ filter (λ n, n ∉ cs_actions v) (action_names v)) ∧
  action_names V2_0_1 ⊆ action_names V2_1 ∧ cs_actions V2_0_1 ⊆ cs_actions V2_1.
Proof.
  assert (∀ v, table_ok v = true) as Hok by (intros []; vm_compute; reflexivity).
  split; [|split].
  - intros v. specialize (Hok v). unfold table_ok in Hok.
    apply andb_prop in Hok as [[[H1 H2]%andb_prop H3]%andb_prop H4].
    apply bool_decide_eq_true in H1, H4. split_and!; [done| |done].
    intros n Hn. rewrite forallb_forall in H3. apply list_elem_of_In in Hn.
    specialize (H3 n Hn). by apply bool_decide_eq_true in H3.
  - intros n Hn. assert (forallb (λ n, bool_decide (n ∈ action_names V2_1)) (action_names V2_0_1) = true)
      as Hall by (vm_compute; reflexivity).
    rewrite forallb_forall in Hall. apply list_elem_of_In in Hn.
    specialize (Hall n Hn). by apply bool_decide_eq_true in Hall.
  - intros n Hn. assert (forallb (λ n, bool_decide (n ∈ cs_actions V2_1)) (cs_actions V2_0_1) = true)
      as Hall by (vm_compute; reflexivity).
    rewrite forallb_forall in Hall. apply list_elem_of_In in Hn.
    specialize (Hall n Hn). by apply bool_decide_eq_true in Hall.
Qed.
