(* ===== verification/OcppWire.v ===== *)
(** * Scopes and logged messages

    Models [ferrowl/src/module/ocpp/scope.rs], [wire_log.rs] and the message log
    of [client/backend.rs], with the parts of [serde_json::Value] and of the
    floating-point numbers the modules above them use. *)

From stdpp Require Import base list countable numbers strings.
From S2P Require Import Prelude IntText OcppMessage OcppConn Calendar.

Local Open Scope Z_scope.

(** ** Texts and numbers *)

Definition string_of (bytes : list Z) : string :=
  String.string_of_list_ascii ((λ b, Ascii.ascii_of_N (Z.to_N b)) <$> bytes).

(** [to_string] and [parse::<i64>] of an integer. *)
Definition int_text (z : Z) : string := string_of (int_display z).

Definition parse_i64 (s : string) : option Z :=
  match from_str_radix true 64 (bytes_of s) 10 with Ok z => Some z | Err _ => None end.

(** Arithmetic, casts and texts of [f64]; [f64_fixed n] is [{:.n}]. *)
Class F64 (F : Type) := {
  f64_of_int : Z → F;
  f64_to_i64 : F → Z;
  f64_mul : F → F → F;
  f64_div : F → F → F;
  f64_fixed : nat → F → string;
  f64_display : F → string;
  f64_parse : string → option F
}.

(** The JSON numbers that are not an [i64]. *)
Class JsonNumber (F Num : Type) := {
  num_as_f64 : Num → F;
  num_as_u64 : Num → option Z
}.

(** ** JSON values *)

Section json.
Context {Num : Type}.
Implicit Types (v : Json Num).

(** [value["key"]]: [Null] where there is none. *)
Definition jget (key : string) v : Json Num :=
  match v with
  | J_Object fields => default J_Null (snd <$> find (λ f, String.eqb f.1 key) fields)
  | _ => J_Null
  end.

(** [value[0]]. *)
Definition jfirst v : Json Num :=
  match v with J_Array (x :: _) => x | _ => J_Null end.

Definition as_u64 {F} `{!JsonNumber F Num} v : option Z :=
  match v with
  | J_Int z => if 0 <=? z then Some z else None
  | J_Num n => num_as_u64 n
  | _ => None
  end.

Definition as_f64 {F} `{!F64 F, !JsonNumber F Num} v : option F :=
  match v with
  | J_Int z => Some (f64_of_int z)
  | J_Num n => Some (num_as_f64 n)
  | _ => None
  end.

Definition as_bool v : option bool := match v with J_Bool b => Some b | _ => None end.
End json.

(** ** Scopes *)

(** The charge point, a connector of 1.6, an EVSE or one of its connectors. *)
Record Scope := mkScope { sc_evse : option Z; sc_connector : option Z }.

#[export] Instance Scope_eq_dec : EqDecision Scope.
Proof. solve_decision. Defined.

#[export] Instance Scope_countable : Countable Scope.
Proof.
  refine (inj_countable' (λ s, (sc_evse s, sc_connector s)) (λ p, mkScope p.1 p.2) _).
  by intros [].
Defined.

Definition Scope_CS : Scope := mkScope None None.
Definition Scope_for_connector (connector : Z) : Scope := mkScope None (Some connector).
Definition Scope_for_evse (evse : Z) (connector : option Z) : Scope := mkScope (Some evse) connector.

Definition is_connector (s : Scope) : bool :=
  match sc_evse s, sc_connector s with None, None => false | _, _ => true end.

Definition Scope_label (s : Scope) : string :=
  match sc_evse s, sc_connector s with
  | None, None => EmptyString
  | None, Some c => int_text c
  | Some e, Some c => String.append (int_text e) (String.append "/" (int_text c))
  | Some e, None => int_text e
  end.

(** The EVSE a call of 2.x targets. *)
Definition evse_id {Num} (request : Json Num) : option Z :=
  match as_i64 (jget "id" (jget "evse" request)) with
  | Some e => Some e
  | None => as_i64 (jget "evseId" request)
  end.

(** [Map::insert]. *)
Fixpoint json_insert {Num} (key : string) (v : Json Num) (fields : list (string * Json Num))
  : list (string * Json Num) :=
  match fields with
  | [] => [(key, v)]
  | f :: fields => if String.eqb f.1 key then (key, v) :: fields else f :: json_insert key v fields
  end.

(** [merge_overrides]: the fields of both objects, a field of both taken from the second. *)
Definition merge_overrides {Num} (base overrides : Json Num) : Json Num :=
  match base, overrides with
  | J_Object fields, J_Object over => J_Object (foldl (λ acc f, json_insert f.1 f.2 acc) fields over)
  | _, _ => base
  end.

(** ** The message log *)

Inductive Dir := DIR_In | DIR_Out.

(** What a log keeps, the newest last, without the texts that explain an outcome. *)
Definition MAX_MESSAGES : nat := 200.

Record LoggedMessage (Num : Type) := mkLogged {
  lg_seq : Z;
  lg_ts : Z;
  lg_direction : Dir;
  lg_name : string;
  lg_payload : Json Num;
  lg_ok : option bool;
  lg_scope : Scope
}.
Arguments mkLogged {Num}.
Arguments lg_seq {Num}.
Arguments lg_ts {Num}.
Arguments lg_direction {Num}.
Arguments lg_name {Num}.
Arguments lg_payload {Num}.
Arguments lg_ok {Num}.
Arguments lg_scope {Num}.

Definition push_capped {A} (buf : list A) (msg : A) : list A :=
  let buf := buf ++ [msg] in
  if (MAX_MESSAGES <? length buf)%nat then drop (length buf - MAX_MESSAGES) buf else buf.

(** A log and the counter that numbers messages. *)
Record MessageLog (Num : Type) := mkMessageLog { ml_seq : Z; ml_messages : list (LoggedMessage Num) }.
Arguments mkMessageLog {Num}.
Arguments ml_seq {Num}.
Arguments ml_messages {Num}.

(** [push_capped] of [OcppMessage::new_scoped]; the counter wraps. *)
Definition record_message {Num} (now : Z) (scope : Scope) (dir : Dir) (name : string)
    (payload : Json Num) (ok : option bool) (log : MessageLog Num) : MessageLog Num :=
  mkMessageLog (as_uint 64 (ml_seq log + 1))
    (push_capped (ml_messages log) (mkLogged (ml_seq log) now dir name payload ok scope)).

Section encode.
Context {Num JE VE Action Response : Type} `{Version Num JE VE Action Response}.

(** [Null] where the value cannot be encoded. *)
Definition encode_action_or_log (a : Action) : Json Num :=
  match encode_action a with Ok j => j | Err _ => J_Null end.

Definition encode_response_or_log (r : Response) : Json Num :=
  match encode_response r with Ok j => j | Err _ => J_Null end.
End encode.

(** ** Lemmas *)

Lemma push_capped_last {A} (buf : list A) msg :
  push_capped buf msg = drop (S (length buf) - MAX_MESSAGES) (buf ++ [msg]).
Proof.
  unfold push_capped. rewrite length_app, Nat.add_1_r.
  destruct (MAX_MESSAGES <? S (length buf))%nat eqn:E; [done|].
  apply Nat.ltb_ge in E. by replace (S (length buf) - MAX_MESSAGES)%nat with 0%nat by lia.
Qed.

Lemma length_push_capped {A} (buf : list A) msg :
  length (push_capped buf msg) = Nat.min MAX_MESSAGES (S (length buf)).
Proof. rewrite push_capped_last, length_drop, length_app. cbn [length]. lia. Qed.

(** Pushing one message after the other keeps the newest. *)
Lemma push_all_capped {A} (msgs buf : list A) :
  (length buf <= MAX_MESSAGES)%nat →
  foldl push_capped buf msgs = drop (length (buf ++ msgs) - MAX_MESSAGES) (buf ++ msgs).
Proof.
  revert buf. induction msgs as [|m msgs IH]; intros buf Hb; cbn [foldl].
  - rewrite app_nil_r. by replace (length buf - MAX_MESSAGES)%nat with 0%nat by lia.
  - rewrite IH by (rewrite length_push_capped; lia). rewrite push_capped_last.
    rewrite !length_app, length_drop, length_app. cbn [length].
    assert (length buf = MAX_MESSAGES ∨ (S (length buf) <= MAX_MESSAGES)%nat) as [Hfull|Hroom] by lia.
    + rewrite Hfull. replace (S MAX_MESSAGES - MAX_MESSAGES)%nat with 1%nat by lia.
      destruct buf as [|b buf]; [by unfold MAX_MESSAGES in Hfull|]. cbn [length app drop] in Hfull |- *.
      rewrite drop_0, <-app_assoc. cbn [app].
      replace (MAX_MESSAGES + S (length msgs) - MAX_MESSAGES)%nat with (S (length msgs)) by lia.
      cbn [drop]. f_equal. lia.
    + replace (S (length buf) - MAX_MESSAGES)%nat with 0%nat by lia.
      rewrite drop_0, <-app_assoc. cbn [app]. f_equal. lia.
Qed.
