(* ===== verification/Station.v ===== *)
(** * The simulated charging station (OCPP 1.6)

    Models [ferrowl/src/module/ocpp/client/]: the state of a station
    ([v1_6/state.rs]), what it answers to the management system
    ([v1_6/handler.rs]), how its own calls are built and what their answers do
    ([v1_6/version.rs], [backend.rs]), and the automatic transmission of
    [view/backend.rs]. The structs of requests and responses are the message
    library's: a class of accessors. *)

From stdpp Require Import base list numbers strings.
From S2P Require Import Prelude IntText Text OcppMessage OcppConn OcppHandshake OcppActions Calendar OcppWire.

Local Open Scope string_scope.
Local Open Scope list_scope.
Local Open Scope Z_scope.

(** ** State *)

Record ConfigKey := mkConfigKey { ck_key : string; ck_value : string; ck_readonly : bool }.

(** A reservation as its tag and its id, each perhaps unset. *)
Record Reservation := mkReservation { rv_rfid : option string; rv_id : option Z }.

Definition no_reservation : Reservation := mkReservation None None.

Section station.
Context {F Num JE VE Req Resp : Type}.
Context `{!F64 F, !JsonNumber F Num, !Messages Num JE VE Req Resp}.

Record Meter := mkMeter {
  mt_phases : string;
  mt_voltage : F;
  mt_current_1 : F;
  mt_current_2 : F;
  mt_current_3 : F;
  mt_power : F;
  mt_frequency : F;
  mt_total_energy : F;
  mt_session_energy : F;
  mt_soc : F;
  mt_temperature : F
}.

(** A charging limit and its unit, one per purpose of a profile. *)
Record Limit := mkLimit { lm_limit : option F; lm_unit : string }.
Record Limits := mkLimits { ls_tx : Limit; ls_default : Limit; ls_max : Limit }.

Record Connector := mkConnector {
  kn_id : Z;
  kn_meter : Meter;
  kn_status : string;
  kn_rfid : string;
  kn_transaction_id : option Z;
  kn_limits : Limits;
  kn_reservation : Reservation
}.
Implicit Types (c : Connector).

Definition kn_with_id c (id : Z) : Connector :=
  mkConnector id (kn_meter c) (kn_status c) (kn_rfid c) (kn_transaction_id c) (kn_limits c)
    (kn_reservation c).
Definition kn_with_meter c (m : Meter) : Connector :=
  mkConnector (kn_id c) m (kn_status c) (kn_rfid c) (kn_transaction_id c) (kn_limits c)
    (kn_reservation c).
Definition kn_with_status c (status : string) : Connector :=
  mkConnector (kn_id c) (kn_meter c) status (kn_rfid c) (kn_transaction_id c) (kn_limits c)
    (kn_reservation c).
Definition kn_with_rfid c (rfid : string) : Connector :=
  mkConnector (kn_id c) (kn_meter c) (kn_status c) rfid (kn_transaction_id c) (kn_limits c)
    (kn_reservation c).
Definition kn_with_transaction c (tx : option Z) : Connector :=
  mkConnector (kn_id c) (kn_meter c) (kn_status c) (kn_rfid c) tx (kn_limits c) (kn_reservation c).
Definition kn_with_limits c (l : Limits) : Connector :=
  mkConnector (kn_id c) (kn_meter c) (kn_status c) (kn_rfid c) (kn_transaction_id c) l
    (kn_reservation c).
Definition kn_with_reservation c (r : Reservation) : Connector :=
  mkConnector (kn_id c) (kn_meter c) (kn_status c) (kn_rfid c) (kn_transaction_id c) (kn_limits c) r.

Definition mt_with_session_energy (m : Meter) (e : F) : Meter :=
  mkMeter (mt_phases m) (mt_voltage m) (mt_current_1 m) (mt_current_2 m) (mt_current_3 m)
    (mt_power m) (mt_frequency m) (mt_total_energy m) e (mt_soc m) (mt_temperature m).

(** [limit = None]; the unit stays. *)
Definition unlimited (l : Limit) : Limit := mkLimit None (lm_unit l).

Definition ls_clear_tx (l : Limits) : Limits :=
  mkLimits (unlimited (ls_tx l)) (ls_default l) (ls_max l).

Definition zero : F := f64_of_int 0.

Definition Connector_new (connector_id : Z) : Connector :=
  mkConnector connector_id
    (mkMeter "L1,L2,L3" (f64_of_int 230) zero zero zero zero (f64_of_int 50) zero zero zero
       (f64_of_int 25))
    "Available" "DEADBEEF" None
    (mkLimits (mkLimit None "A") (mkLimit None "A") (mkLimit None "A")) no_reservation.

(** What the station is, of the boot notification. *)
Record Identity := mkIdentity {
  it_model : string;
  it_vendor : string;
  it_firmware_version : string;
  it_serial_number : string;
  it_iccid : string;
  it_imsi : string;
  it_meter_serial_number : string;
  it_meter_type : string
}.

Record CsState := mkCsState {
  st_identity : Identity;
  st_reservation : Reservation;
  st_config : list ConfigKey;
  st_heartbeat_interval_secs : option Z;
  st_connectors : list Connector
}.
Implicit Types (s : CsState).

Definition st_with_reservation s (r : Reservation) : CsState :=
  mkCsState (st_identity s) r (st_config s) (st_heartbeat_interval_secs s) (st_connectors s).
Definition st_with_config s (config : list ConfigKey) : CsState :=
  mkCsState (st_identity s) (st_reservation s) config (st_heartbeat_interval_secs s) (st_connectors s).
Definition st_with_interval s (interval : option Z) : CsState :=
  mkCsState (st_identity s) (st_reservation s) (st_config s) interval (st_connectors s).
Definition st_with_connectors s (connectors : list Connector) : CsState :=
  mkCsState (st_identity s) (st_reservation s) (st_config s) (st_heartbeat_interval_secs s) connectors.

Definition cfg (key value : string) (readonly : bool) : ConfigKey := mkConfigKey key value readonly.

Definition default_config : list ConfigKey :=
  [cfg "AuthorizeRemoteTxRequests" "true" false;
   cfg "ClockAlignedDataInterval" "0" false;
   cfg "ConnectionTimeOut" "60" false;
   cfg "ConnectorPhaseRotation" "NotApplicable" false;
   cfg "GetConfigurationMaxKeys" "100" true;
   cfg "HeartbeatInterval" "300" false;
   cfg "LocalAuthorizeOffline" "true" false;
   cfg "LocalPreAuthorize" "false" false;
   cfg "MeterValuesAlignedData" "Energy.Active.Import.Register" false;
   cfg "MeterValuesSampledData" "Energy.Active.Import.Register" false;
   cfg "MeterValueSampleInterval" "60" false;
   cfg "NumberOfConnectors" "1" true;
   cfg "ResetRetries" "1" false;
   cfg "StopTransactionOnEVSideDisconnect" "true" false;
   cfg "StopTransactionOnInvalidId" "true" false;
   cfg "StopTxnAlignedData" EmptyString false;
   cfg "StopTxnSampledData" EmptyString false;
   cfg "SupportedFeatureProfiles" "Core,SmartCharging" true;
   cfg "TransactionMessageAttempts" "3" false;
   cfg "TransactionMessageRetryInterval" "60" false;
   cfg "UnlockConnectorOnEVSideDisconnect" "true" false;
   cfg "WebSocketPingInterval" "60" false;
   cfg "LocalAuthListEnabled" "true" false;
   cfg "LocalAuthListMaxLength" "100" true;
   cfg "SendLocalListMaxLength" "100" true;
   cfg "ChargeProfileMaxStackLevel" "10" false;
   cfg "ChargingScheduleAllowedChargingRateUnit" "Current,Power" true;
   cfg "ChargingScheduleMaxPeriods" "10" true;
   cfg "MaxChargingProfilesInstalled" "10" true].

Definition CsState_default : CsState :=
  mkCsState
    (mkIdentity "Ferrowl-EVSE" "Ferrowl" "1.0.0" "FERROWL-0001"
       EmptyString EmptyString EmptyString EmptyString)
    no_reservation default_config None [Connector_new 1].

(** ** Connectors *)

Definition connector_position s (id : Z) : option nat :=
  fst <$> list_find (λ c, kn_id c = id) (st_connectors s).

Definition connector s (id : Z) : option Connector := find (λ c, kn_id c =? id) (st_connectors s).

(** A change of the first connector that satisfies [p]. *)
Fixpoint alter_first (p : Connector → bool) (f : Connector → Connector) (l : list Connector)
  : list Connector :=
  match l with
  | [] => []
  | c :: l => if p c then f c :: l else c :: alter_first p f l
  end.

(** [connector_mut]. *)
Definition alter_connector (id : Z) (f : Connector → Connector) s : CsState :=
  st_with_connectors s (alter_first (λ c, kn_id c =? id) f (st_connectors s)).

(** [sort_by_key] of a list with one element appended: a stable insertion. *)
Fixpoint insert_by_id c (l : list Connector) : list Connector :=
  match l with
  | [] => [c]
  | x :: l' => if kn_id c <? kn_id x then c :: l else x :: insert_by_id c l'
  end.

Definition sort_by_id (l : list Connector) : list Connector :=
  foldl (λ acc c, insert_by_id c acc) [] l.

Definition add_connector (id : Z) s : bool * CsState :=
  if existsb (λ c, kn_id c =? id) (st_connectors s) then (false, s)
  else (true, st_with_connectors s (sort_by_id (st_connectors s ++ [Connector_new id]))).

(** The connector a scope names, or the first one. *)
Definition scoped_index s (target : option Z) : option nat :=
  match target ≫= connector_position s with
  | Some i => Some i
  | None => match st_connectors s with [] => None | _ => Some O end
  end.

Definition scoped_connector s (scope : Scope) : option Connector :=
  match sc_connector scope ≫= connector s with
  | Some c => Some c
  | None => head (st_connectors s)
  end.

(** ** Calls of the management system *)

Inductive ConfigurationStatus := CFS_Accepted | CFS_Rejected.
Inductive AvailabilityType := AV_Operative | AV_Inoperative.

Record KeyValue := mkKeyValue { kv_key : string; kv_readonly : bool; kv_value : option string }.

Definition key_value (k : ConfigKey) : KeyValue :=
  mkKeyValue (ck_key k) (ck_readonly k) (Some (ck_value k)).

(** The fields of the requests the handler reads, and the responses it builds. *)
Class Ocpp16 := {
  gc_key : Req → option (list string);
  cc_key : Req → string;
  cc_value : Req → string;
  cp_connector_id : Req → Z;
  rn_connector_id : Req → Z;
  rn_id_tag : Req → string;
  rn_reservation_id : Req → Z;
  cr_reservation_id : Req → Z;
  ca_connector_id : Req → Z;
  ca_kind : Req → AvailabilityType;
  rs_connector_id : Req → option Z;
  rt_transaction_id : Req → Z;
  cl_connector_id : Req → option Z;
  uc_connector_id : Req → Z;
  GetConfigurationResponse : option (list KeyValue) → option (list string) → Resp;
  ChangeConfigurationResponse : ConfigurationStatus → Resp;
  ResetAccepted : Resp;
  SetChargingProfileRejected : Resp
}.
Context `{!Ocpp16}.

(** An action as the handler matches on it. *)
Inductive Call16 :=
| Q_GetConfiguration (key : option (list string))
| Q_ChangeConfiguration (key value : string)
| Q_Reset
| Q_SetChargingProfile (connector_id : Z)
| Q_ReserveNow (connector_id : Z) (id_tag : string) (reservation_id : Z)
| Q_CancelReservation (reservation_id : Z)
| Q_ChangeAvailability (connector_id : Z) (kind : AvailabilityType)
| Q_RemoteStartTransaction (connector_id : option Z)
| Q_RemoteStopTransaction (transaction_id : Z)
| Q_ClearChargingProfile (connector_id : option Z)
| Q_UnlockConnector (connector_id : Z)
| Q_Other (name : string).

Abbreviation Act := (Action Req).
Abbreviation Answer := (Result (Response Resp) (CallError Num)).

Definition call16 (a : Act) : Call16 :=
  let name := ac_variant a in
  let req := ac_request a in
  if String.eqb name "GetConfiguration" then Q_GetConfiguration (gc_key req)
  else if String.eqb name "ChangeConfiguration" then Q_ChangeConfiguration (cc_key req) (cc_value req)
  else if String.eqb name "Reset" then Q_Reset
  else if String.eqb name "SetChargingProfile" then Q_SetChargingProfile (cp_connector_id req)
  else if String.eqb name "ReserveNow" then
    Q_ReserveNow (rn_connector_id req) (rn_id_tag req) (rn_reservation_id req)
  else if String.eqb name "CancelReservation" then Q_CancelReservation (cr_reservation_id req)
  else if String.eqb name "ChangeAvailability" then
    Q_ChangeAvailability (ca_connector_id req) (ca_kind req)
  else if String.eqb name "RemoteStartTransaction" then
    Q_RemoteStartTransaction (rs_connector_id req)
  else if String.eqb name "RemoteStopTransaction" then
    Q_RemoteStopTransaction (rt_transaction_id req)
  else if String.eqb name "ClearChargingProfile" then
    Q_ClearChargingProfile (cl_connector_id req)
  else if String.eqb name "UnlockConnector" then Q_UnlockConnector (uc_connector_id req)
  else Q_Other name.

(** The methods of [V1_6], and the JSON of its messages. *)
#[local] Instance v1_6_version : Version Num JE VE Act (Response Resp) := generated_version V1_6.

Definition request_json (a : Act) : Json Num :=
  encode_action_or_log (H := v1_6_version) a.
Definition response_json (r : Response Resp) : Json Num :=
  encode_response_or_log (H := v1_6_version) r.

Definition inbound_scope (request : Json Num) : Scope :=
  match as_i64 (jget "connectorId" request) with
  | Some c => Scope_for_connector c
  | None => Scope_CS
  end.

Definition unknown_connector (request : Json Num) s : option Z :=
  id ← as_i64 (jget "connectorId" request);
  if (id =? 0) || (match connector s id with Some _ => true | None => false end) then None else Some id.

Definition clear_limit_by_purpose (purpose : option string) c : Connector :=
  let l := kn_limits c in
  kn_with_limits c
    (match purpose with
     | Some p =>
         if String.eqb p "TxProfile" then ls_clear_tx l
         else if String.eqb p "TxDefaultProfile" then
           mkLimits (ls_tx l) (unlimited (ls_default l)) (ls_max l)
         else if String.eqb p "ChargePointMaxProfile" then
           mkLimits (ls_tx l) (ls_default l) (unlimited (ls_max l))
         else l
     | None => mkLimits (unlimited (ls_tx l)) (unlimited (ls_default l)) (unlimited (ls_max l))
     end).

(** [default_response(...).expect(...)]. *)
Definition expect_default (name : string) : Outcome Answer :=
  match default_response V1_6 name with Some r => Ret (Ok r) | None => Panic end.

Definition answer (name : string) (r : Resp) : Outcome Answer := Ret (Ok (mkResponse name r)).

Definition get_configuration (key : option (list string)) s : Resp :=
  let lookup k := find (λ x, String.eqb (ck_key x) k) (st_config s) in
  let '(keys, unknown) :=
    match key with
    | Some names =>
        (omap (λ k, key_value <$> lookup k) names,
         filter (λ k, lookup k = None) names)
    | None => (key_value <$> st_config s, [])
    end in
  GetConfigurationResponse
    (match keys with [] => None | _ => Some keys end)
    (match unknown with [] => None | _ => Some unknown end).

(** The first entry of the key, or a new one at the end. *)
Fixpoint change_config (key value : string) (config : list ConfigKey)
  : ConfigurationStatus * list ConfigKey :=
  match config with
  | [] => (CFS_Accepted, [mkConfigKey key value false])
  | k :: rest =>
      if String.eqb (ck_key k) key then
        if ck_readonly k then (CFS_Rejected, config)
        else (CFS_Accepted, mkConfigKey (ck_key k) value (ck_readonly k) :: rest)
      else let '(status, rest) := change_config key value rest in (status, k :: rest)
  end.

Definition reset_connector c : Connector :=
  kn_with_meter (kn_with_transaction (kn_with_status c "Available") None)
    (mt_with_session_energy (kn_meter c) zero).

Definition max_stack_level s : option Z :=
  k ← find (λ k, String.eqb (ck_key k) "ChargeProfileMaxStackLevel") (st_config s);
  parse_i64 (ck_value k).

Definition set_limit (purpose : string) (limit : F) (unit : string) c : Connector :=
  let l := kn_limits c in
  let new := mkLimit (Some limit) unit in
  kn_with_limits c
    (if String.eqb purpose "TxDefaultProfile" then mkLimits (ls_tx l) new (ls_max l)
     else if String.eqb purpose "ChargePointMaxProfile" then mkLimits (ls_tx l) (ls_default l) new
     else mkLimits new (ls_default l) (ls_max l)).

Definition set_charging_profile (connector_id : Z) (request : Json Num) s : Outcome (Answer * CsState) :=
  let profile := jget "csChargingProfiles" request in
  let stack := default 0 (as_i64 (jget "stackLevel" profile)) in
  let purpose := default "TxProfile" (as_str (jget "chargingProfilePurpose" profile)) in
  let schedule := jget "chargingSchedule" profile in
  let period := jfirst (jget "chargingSchedulePeriod" schedule) in
  if (match max_stack_level s with Some max => max <? stack | None => false end)
  then Ret (Ok (mkResponse "SetChargingProfile" SetChargingProfileRejected), s)
  else
    let s :=
      match as_f64 (jget "limit" period) with
      | Some limit =>
          let unit := default "A" (as_str (jget "chargingRateUnit" schedule)) in
          match scoped_index s (Some connector_id) with
          | Some i => st_with_connectors s (alter (set_limit purpose limit unit) i (st_connectors s))
          | None => s
          end
      | None => s
      end in
    r ← expect_default "SetChargingProfile"; Ret (r, s).

Definition cancel_reservation (id : Z) s : CsState :=
  if bool_decide (rv_id (st_reservation s) = Some id) then st_with_reservation s no_reservation
  else st_with_connectors s
         (alter_first (λ c, bool_decide (rv_id (kn_reservation c) = Some id))
            (λ c, kn_with_reservation c no_reservation) (st_connectors s)).

Definition availability_status (kind : AvailabilityType) : string :=
  match kind with AV_Operative => "Available" | AV_Inoperative => "Unavailable" end.

(** A transaction is over: [limit] goes with it, its unit stays. *)
Definition end_transaction c : Connector :=
  kn_with_status
    (kn_with_limits (kn_with_transaction c None) (ls_clear_tx (kn_limits c))) "Available".

(** [cs_respond]: the answer, the state after it, and the scope of a remote start
    to be spawned. *)
Definition cs_respond s (a : Act) : Outcome (Answer * CsState * option Scope) :=
  match call16 a with
  | Q_GetConfiguration key =>
      r ← answer "GetConfiguration" (get_configuration key s); Ret (r, s, None)
  | Q_ChangeConfiguration key value =>
      let '(status, config) := change_config key value (st_config s) in
      r ← answer "ChangeConfiguration" (ChangeConfigurationResponse status);
      Ret (r, st_with_config s config, None)
  | Q_Reset =>
      r ← answer "Reset" ResetAccepted;
      Ret (r, st_with_connectors s (reset_connector <$> st_connectors s), None)
  | Q_SetChargingProfile connector_id =>
      p ← set_charging_profile connector_id (request_json a) s; Ret (p, None)
  | Q_ReserveNow connector_id id_tag reservation_id =>
      let r := mkReservation (Some id_tag) (Some reservation_id) in
      let s := if connector_id =? 0 then st_with_reservation s r
               else alter_connector connector_id (λ c, kn_with_reservation c r) s in
      r ← expect_default "ReserveNow"; Ret (r, s, None)
  | Q_CancelReservation id =>
      r ← expect_default "CancelReservation"; Ret (r, cancel_reservation id s, None)
  | Q_ChangeAvailability connector_id kind =>
      let set c := kn_with_status c (availability_status kind) in
      let s := if connector_id =? 0 then st_with_connectors s (set <$> st_connectors s)
               else alter_connector connector_id set s in
      r ← expect_default "ChangeAvailability"; Ret (r, s, None)
  | Q_RemoteStartTransaction connector_id =>
      let scope := match connector_id with Some c => Scope_for_connector c | None => Scope_CS end in
      r ← expect_default "RemoteStartTransaction";
      Ret (r, s, match scoped_index s connector_id with Some _ => Some scope | None => None end)
  | Q_RemoteStopTransaction tx =>
      r ← expect_default "RemoteStopTransaction";
      Ret (r, st_with_connectors s
                (alter_first (λ c, bool_decide (kn_transaction_id c = Some tx)) end_transaction
                   (st_connectors s)), None)
  | Q_ClearChargingProfile connector_id =>
      let clear := clear_limit_by_purpose
                     (as_str (jget "chargingProfilePurpose" (request_json a))) in
      let s := match connector_id with
               | Some id => alter_connector id clear s
               | None => st_with_connectors s (clear <$> st_connectors s)
               end in
      r ← expect_default "ClearChargingProfile"; Ret (r, s, None)
  | Q_UnlockConnector connector_id =>
      r ← expect_default "UnlockConnector";
      Ret (r, alter_connector connector_id (λ c, kn_with_status c "Available") s, None)
  | Q_Other name =>
      Ret (match default_response V1_6 name with
           | Some r => Ok r
           | None => Err (CallError_new CC_NotImplemented
                            "action not handled by the charging-station simulator")
           end, s, None)
  end.

(** ** Calls of the station *)

Definition meter_wh c : Z := f64_to_i64 (f64_mul (mt_total_energy (kn_meter c)) (f64_of_int 1000)).

(** A sample of a meter value; 44 is [','], and no unit is sent where OCPP implies
    it. *)
Definition sampled (value measurand : string) (phase unit : option string) : Json Num :=
  let field (key : string) (o : option string) :=
    match o with Some v => [(key, J_String v)] | None => [] end in
  J_Object ([("value", J_String value); ("measurand", J_String measurand)] ++
    field "phase" phase ++ field "unit" unit).

Definition uses_phase (phases phase : string) : bool :=
  existsb (λ p, bool_decide (trim p = bytes_of phase)) (split 44 (bytes_of phases)).

Definition meter_value_json (now : Z) c : Json Num :=
  let m := kn_meter c in
  let current phase value :=
    if uses_phase (mt_phases m) phase
    then [sampled (f64_fixed 1 value) "Current.Import" (Some phase) (Some "A")] else [] in
  J_Array [J_Object
    [("timestamp", J_String (string_of (rfc3339 now)));
     ("sampledValue", J_Array
       (current "L1" (mt_current_1 m) ++ current "L2" (mt_current_2 m) ++
        current "L3" (mt_current_3 m) ++
        [sampled (f64_fixed 1 (mt_voltage m)) "Voltage" None (Some "V");
         sampled (f64_fixed 1 (mt_power m)) "Power.Active.Import" None (Some "W");
         sampled (int_text (meter_wh c)) "Energy.Active.Import.Register" None (Some "Wh");
         sampled (f64_fixed 1 (mt_frequency m)) "Frequency" None None;
         sampled (f64_fixed 1 (mt_temperature m)) "Temperature" None (Some "Celsius");
         sampled (f64_fixed 1 (mt_soc m)) "SoC" None (Some "Percent")]))]].

Definition boot_payload (it : Identity) : Json Num :=
  let optional (key value : string) : list (string * Json Num) :=
    if String.eqb value EmptyString then [] else [(key, J_String value)] in
  J_Object
    ([("chargePointModel", J_String (it_model it)); ("chargePointVendor", J_String (it_vendor it));
      ("chargePointSerialNumber", J_String (it_serial_number it));
      ("firmwareVersion", J_String (it_firmware_version it))] ++
     optional "iccid" (it_iccid it) ++ optional "imsi" (it_imsi it) ++
     optional "meterSerialNumber" (it_meter_serial_number it) ++
     optional "meterType" (it_meter_type it)).

Definition state_payload (now : Z) s (name : string) (scope : Scope) : Json Num :=
  let conn := scoped_connector s scope in
  let cid := match conn with Some c => kn_id c | None => 1 end in
  let rfid := match conn with Some c => kn_rfid c | None => EmptyString end in
  let wh := match conn with Some c => meter_wh c | None => 0 end in
  let time := J_String (string_of (rfc3339 now)) in
  if String.eqb name "Authorize" then J_Object [("idTag", J_String rfid)]
  else if String.eqb name "BootNotification" then boot_payload (st_identity s)
  else if String.eqb name "Heartbeat" then J_Object []
  else if String.eqb name "MeterValues" then
    J_Object [("connectorId", J_Int cid);
              ("meterValue", match conn with Some c => meter_value_json now c | None => J_Array [] end)]
  else if String.eqb name "StartTransaction" then
    J_Object [("connectorId", J_Int cid); ("idTag", J_String rfid); ("meterStart", J_Int wh);
              ("timestamp", time)]
  else if String.eqb name "StopTransaction" then
    J_Object [("transactionId", J_Int (default 0 (conn ≫= kn_transaction_id))); ("meterStop", J_Int wh);
              ("timestamp", time); ("idTag", J_String rfid)]
  else if String.eqb name "StatusNotification" then
    J_Object [("connectorId", J_Int cid); ("errorCode", J_String "NoError");
              ("status", J_String match conn with Some c => kn_status c | None => EmptyString end)]
  else J_Object [].

Definition boot_interval (response : Json Num) : option Z :=
  match as_u64 (jget "interval" response) with
  | Some i => if 0 <? i then Some i else None
  | None => None
  end.

Definition start_transaction (tx : option Z) c : Connector :=
  kn_with_meter (kn_with_status (kn_with_transaction c tx) "Charging")
    (mt_with_session_energy (kn_meter c) zero).

Definition apply_post_send s (name : string) (scope : Scope) (response : Json Num) : CsState :=
  if String.eqb name "BootNotification" then st_with_interval s (boot_interval response)
  else
    match scoped_index s (sc_connector scope) with
    | None => s
    | Some i =>
        let update f := st_with_connectors s (alter f i (st_connectors s)) in
        if String.eqb name "StartTransaction" then
          update (start_transaction (as_i64 (jget "transactionId" response)))
        else if String.eqb name "StopTransaction" then update end_transaction
        else s
    end.

Definition active_meter_scopes s : list Scope :=
  (λ c, Scope_for_connector (kn_id c)) <$>
    filter (λ c, is_Some (kn_transaction_id c)) (st_connectors s).

(** ** The station and its tasks *)

(** A spawned task: a remote start or a send that has not run yet, or one whose
    call was sent and not answered; [start]: the answer starts a transaction. *)
Inductive SendTask :=
| TK_RemoteStart (scope : Scope)
| TK_Send (name : string) (payload : Json Num) (scope : Scope)
| TK_Waiting (name : string) (scope : Scope) (start : bool)
| TK_Done.

(** [heartbeat_tick], [meter_tick], [was_online], [tx_was_active] of the view. *)
Record Ticks := mkTicks {
  tk_heartbeat : Z; tk_meter : Z; tk_was_online : bool; tk_tx_was_active : bool
}.

(** [cg_connected]: there is a command channel; [cg_sent]: the calls handed to
    it, each with the task that awaits the reply. *)
Record ChargingStation := mkChargingStation {
  cg_state : CsState;
  cg_online : bool;
  cg_connected : bool;
  cg_log : MessageLog Num;
  cg_tasks : list SendTask;
  cg_sent : list (nat * Act);
  cg_ticks : Ticks
}.
Implicit Types (g : ChargingStation).

Definition cg_with_state g s : ChargingStation :=
  mkChargingStation s (cg_online g) (cg_connected g) (cg_log g) (cg_tasks g) (cg_sent g) (cg_ticks g).

Definition cg_record (now : Z) g (scope : Scope) (dir : Dir) (name : string) (payload : Json Num)
    (ok : option bool) : ChargingStation :=
  mkChargingStation (cg_state g) (cg_online g) (cg_connected g)
    (record_message now scope dir name payload ok (cg_log g)) (cg_tasks g) (cg_sent g) (cg_ticks g).

Definition cg_spawn g (tasks : list SendTask) : ChargingStation :=
  mkChargingStation (cg_state g) (cg_online g) (cg_connected g) (cg_log g) (cg_tasks g ++ tasks)
    (cg_sent g) (cg_ticks g).

Definition cg_task g (k : nat) (task : SendTask) : ChargingStation :=
  mkChargingStation (cg_state g) (cg_online g) (cg_connected g) (cg_log g) (<[k := task]> (cg_tasks g))
    (cg_sent g) (cg_ticks g).

Definition cg_send g (k : nat) (a : Act) : ChargingStation :=
  mkChargingStation (cg_state g) (cg_online g) (cg_connected g) (cg_log g) (cg_tasks g)
    (cg_sent g ++ [(k, a)]) (cg_ticks g).

Definition cg_with_ticks g (ticks : Ticks) : ChargingStation :=
  mkChargingStation (cg_state g) (cg_online g) (cg_connected g) (cg_log g) (cg_tasks g) (cg_sent g) ticks.

(** [handle_call]: the call and the reply are logged under the call's scope. *)
Definition handle_call (now : Z) (a : Act) g : Outcome (Answer * ChargingStation) :=
  let request := request_json a in
  '(result, s, start) ←
    (match unknown_connector request (cg_state g) with
     | Some _ => Ret (Err (CallError_new CC_PropertyConstraintViolation "unknown connectorId"),
                      cg_state g, None)
     | None => cs_respond (cg_state g) a
     end);
  let payload := match result with Ok r => response_json r | Err _ => J_Null end in
  let ok := match result with Ok _ => true | Err _ => false end in
  let scope := inbound_scope request in
  let g := cg_spawn (cg_with_state g s)
             (match start with Some scope => [TK_RemoteStart scope] | None => [] end) in
  let g := cg_record now g scope DIR_In (ac_variant a) request None in
  let g := cg_record now g scope DIR_Out (ac_variant a) payload (Some ok) in
  Ret (result, g).

(** [send_scoped] up to the await of the reply. *)
Definition send_call (now : Z) g (k : nat) (scope : Scope) (start : bool) (a : Act) : ChargingStation :=
  let name := ac_variant a in
  let g := cg_record now g scope DIR_Out name (request_json a) None in
  if cg_connected g then cg_task (cg_send g k a) k (TK_Waiting name scope start)
  else cg_task (cg_record now g scope DIR_In name J_Null (Some false)) k TK_Done.

(** A task runs for the first time. *)
Definition task_run (now : Z) g (k : nat) : ChargingStation :=
  let send name payload scope :=
    match decode_call name payload with
    | Ok a => send_call now g k scope (String.eqb name "StartTransaction") a
    | Err _ => cg_task g k TK_Done
    end in
  match cg_tasks g !! k with
  | Some (TK_RemoteStart scope) =>
      send "StartTransaction" (state_payload now (cg_state g) "StartTransaction" scope) scope
  | Some (TK_Send name payload scope) => send name payload scope
  | _ => g
  end.

(** The reply to a task's call arrives, or an error instead. *)
Definition task_answered (now : Z) g (k : nat) (reply : option (Response Resp)) : ChargingStation :=
  match cg_tasks g !! k with
  | Some (TK_Waiting name scope start) =>
      match reply with
      | None => cg_task (cg_record now g scope DIR_In name J_Null (Some false)) k TK_Done
      | Some r =>
          let payload := response_json r in
          let g := cg_record now g scope DIR_In name payload (Some true) in
          let g := cg_with_state g (apply_post_send (cg_state g) name scope payload) in
          if start then
            match decode_call "StatusNotification"
                    (state_payload now (cg_state g) "StatusNotification" scope) with
            | Ok a => send_call now g k scope false a
            | Err _ => cg_task g k TK_Done
            end
          else cg_task g k TK_Done
      end
  | _ => g
  end.

(** ** Automatic transmission *)

Definition TICKS_PER_SEC : Z := 10.
Definition DEFAULT_HEARTBEAT_SECS : Z := 30.

(** The product of two [u32]. *)
Definition u32_mul (a b : Z) : Outcome Z := if a * b <? 2 ^ 32 then Ret (a * b) else Panic.

Definition heartbeat_part g : Outcome ChargingStation :=
  let t := cg_ticks g in
  if cg_online g then
    let interval_secs :=
      Z.max (default DEFAULT_HEARTBEAT_SECS (st_heartbeat_interval_secs (cg_state g))) 1 in
    let tick := as_uint 32 (tk_heartbeat t + 1) in
    due ← u32_mul (as_uint 32 interval_secs) TICKS_PER_SEC;
    if due <=? tick
    then Ret (cg_spawn (cg_with_ticks g (mkTicks 0 (tk_meter t) (tk_was_online t) (tk_tx_was_active t)))
                [TK_Send "Heartbeat" (J_Object []) Scope_CS])
    else Ret (cg_with_ticks g (mkTicks tick (tk_meter t) (tk_was_online t) (tk_tx_was_active t)))
  else Ret g.

Definition meter_part (now : Z) g : ChargingStation :=
  let s := cg_state g in
  let active := active_meter_scopes s in
  let t := cg_ticks g in
  let any_active := existsb (λ c, match kn_transaction_id c with Some _ => true | None => false end)
                      (st_connectors s) in
  let tick := if any_active && negb (tk_tx_was_active t) then 0 else tk_meter t in
  let sending := match active with [] => false | _ => cg_online g end in
  let tick := if sending then as_uint 32 (tick + 1) else tick in
  let g := cg_with_ticks g (mkTicks (tk_heartbeat t) tick (tk_was_online t) any_active) in
  if sending && (tick mod 50 =? 0)
  then cg_spawn g ((λ scope, TK_Send "MeterValues" (state_payload now s "MeterValues" scope) scope) <$>
                     active)
  else g.

(** One refresh: the parts of [refresh_impl] that transmit. *)
Definition refresh (now : Z) g : Outcome ChargingStation :=
  let t := cg_ticks g in
  let lost := tk_was_online t && negb (cg_online g) in
  let g := cg_with_ticks g
             (mkTicks (if lost then 0 else tk_heartbeat t) (tk_meter t) (cg_online g)
                (tk_tx_was_active t)) in
  g ← heartbeat_part g;
  Ret (meter_part now g).

(** ** Fields by name, as scripts address them *)

(** [ferrowl_lua::module::ValueType]. *)
Inductive FieldValue :=
| FV_Int (i : Z) | FV_Float (f : F) | FV_String (s : string) | FV_Bool (b : bool) | FV_Nil.

Inductive ConnField :=
| FD_Id | FD_Phases | FD_Voltage | FD_Current1 | FD_Current2 | FD_Current3
| FD_Power | FD_Frequency | FD_TotalEnergy | FD_SessionEnergy | FD_Soc | FD_Temperature
| FD_Status | FD_Rfid | FD_Limit | FD_DefaultLimit | FD_MaxLimit | FD_ReservedRfid
| FD_ReservationId.

Definition field_name (fd : ConnField) : string :=
  match fd with
  | FD_Id => "Connector ID"
  | FD_Phases => "Used Phases"
  | FD_Voltage => "Voltage"
  | FD_Current1 => "Current L1"
  | FD_Current2 => "Current L2"
  | FD_Current3 => "Current L3"
  | FD_Power => "Power"
  | FD_Frequency => "Frequency"
  | FD_TotalEnergy => "Total Energy"
  | FD_SessionEnergy => "Session Energy"
  | FD_Soc => "State of Charge"
  | FD_Temperature => "Temperature"
  | FD_Status => "Status"
  | FD_Rfid => "RFID"
  | FD_Limit => "Charge Limit"
  | FD_DefaultLimit => "Default Charge Limit"
  | FD_MaxLimit => "Max Charge Limit"
  | FD_ReservedRfid => "Reserved RFID"
  | FD_ReservationId => "Reservation ID"
  end.

Definition all_fields : list ConnField :=
  [FD_Id; FD_Phases; FD_Voltage; FD_Current1; FD_Current2; FD_Current3;
   FD_Power; FD_Frequency; FD_TotalEnergy; FD_SessionEnergy; FD_Soc; FD_Temperature;
   FD_Status; FD_Rfid; FD_Limit; FD_DefaultLimit; FD_MaxLimit; FD_ReservedRfid;
   FD_ReservationId].

Definition field_of (name : string) : option ConnField :=
  find (λ fd, String.eqb (field_name fd) name) all_fields.

(** The closure [num] of [set_field]. *)
Definition field_num (v : FieldValue) : option F :=
  match v with FV_Int i => Some (f64_of_int i) | FV_Float f => Some f | _ => None end.

Definition mt_get (fd : ConnField) (m : Meter) : option F :=
  match fd with
  | FD_Voltage => Some (mt_voltage m)
  | FD_Current1 => Some (mt_current_1 m)
  | FD_Current2 => Some (mt_current_2 m)
  | FD_Current3 => Some (mt_current_3 m)
  | FD_Power => Some (mt_power m)
  | FD_Frequency => Some (mt_frequency m)
  | FD_TotalEnergy => Some (mt_total_energy m)
  | FD_SessionEnergy => Some (mt_session_energy m)
  | FD_Soc => Some (mt_soc m)
  | FD_Temperature => Some (mt_temperature m)
  | _ => None
  end.

Definition mt_set (fd : ConnField) (v : F) (m : Meter) : Meter :=
  match fd with
  | FD_Voltage => mkMeter (mt_phases m) v (mt_current_1 m) (mt_current_2 m)
      (mt_current_3 m) (mt_power m) (mt_frequency m) (mt_total_energy m)
      (mt_session_energy m) (mt_soc m) (mt_temperature m)
  | FD_Current1 => mkMeter (mt_phases m) (mt_voltage m) v (mt_current_2 m)
      (mt_current_3 m) (mt_power m) (mt_frequency m) (mt_total_energy m)
      (mt_session_energy m) (mt_soc m) (mt_temperature m)
  | FD_Current2 => mkMeter (mt_phases m) (mt_voltage m) (mt_current_1 m) v
      (mt_current_3 m) (mt_power m) (mt_frequency m) (mt_total_energy m)
      (mt_session_energy m) (mt_soc m) (mt_temperature m)
  | FD_Current3 => mkMeter (mt_phases m) (mt_voltage m) (mt_current_1 m) (mt_current_2 m)
      v (mt_power m) (mt_frequency m) (mt_total_energy m)
      (mt_session_energy m) (mt_soc m) (mt_temperature m)
  | FD_Power => mkMeter (mt_phases m) (mt_voltage m) (mt_current_1 m) (mt_current_2 m)
      (mt_current_3 m) v (mt_frequency m) (mt_total_energy m)
      (mt_session_energy m) (mt_soc m) (mt_temperature m)
  | FD_Frequency => mkMeter (mt_phases m) (mt_voltage m) (mt_current_1 m) (mt_current_2 m)
      (mt_current_3 m) (mt_power m) v (mt_total_energy m)
      (mt_session_energy m) (mt_soc m) (mt_temperature m)
  | FD_TotalEnergy => mkMeter (mt_phases m) (mt_voltage m) (mt_current_1 m) (mt_current_2 m)
      (mt_current_3 m) (mt_power m) (mt_frequency m) v
      (mt_session_energy m) (mt_soc m) (mt_temperature m)
  | FD_SessionEnergy => mkMeter (mt_phases m) (mt_voltage m) (mt_current_1 m) (mt_current_2 m)
      (mt_current_3 m) (mt_power m) (mt_frequency m) (mt_total_energy m)
      v (mt_soc m) (mt_temperature m)
  | FD_Soc => mkMeter (mt_phases m) (mt_voltage m) (mt_current_1 m) (mt_current_2 m)
      (mt_current_3 m) (mt_power m) (mt_frequency m) (mt_total_energy m)
      (mt_session_energy m) v (mt_temperature m)
  | FD_Temperature => mkMeter (mt_phases m) (mt_voltage m) (mt_current_1 m) (mt_current_2 m)
      (mt_current_3 m) (mt_power m) (mt_frequency m) (mt_total_energy m)
      (mt_session_energy m) (mt_soc m) v
  | _ => m
  end.

Definition limit_value (l : Limit) : FieldValue :=
  match lm_limit l with Some f => FV_Float f | None => FV_Nil end.

Definition get_field c (name : string) : option FieldValue :=
  fd ← field_of name;
  Some match fd with
       | FD_Id => FV_Int (kn_id c)
       | FD_Phases => FV_String (mt_phases (kn_meter c))
       | FD_Status => FV_String (kn_status c)
       | FD_Rfid => FV_String (kn_rfid c)
       | FD_Limit => limit_value (ls_tx (kn_limits c))
       | FD_DefaultLimit => limit_value (ls_default (kn_limits c))
       | FD_MaxLimit => limit_value (ls_max (kn_limits c))
       | FD_ReservedRfid => FV_String (default EmptyString (rv_rfid (kn_reservation c)))
       | FD_ReservationId =>
           match rv_id (kn_reservation c) with Some id => FV_Int id | None => FV_Nil end
       | _ => match mt_get fd (kn_meter c) with Some f => FV_Float f | None => FV_Nil end
       end.

(** [None]: nothing was set. *)
Definition set_field c (name : string) (value : FieldValue) : option Connector :=
  fd ← field_of name;
  let l := kn_limits c in
  let m := kn_meter c in
  let limited (n : F) (old : Limit) := mkLimit (Some n) (lm_unit old) in
  match fd with
  | FD_Id => n ← field_num value; Some (kn_with_id c (f64_to_i64 n))
  | FD_Phases =>
      match value with
      | FV_String p =>
          Some (kn_with_meter c
            (mkMeter p (mt_voltage m) (mt_current_1 m) (mt_current_2 m) (mt_current_3 m) (mt_power m)
               (mt_frequency m) (mt_total_energy m) (mt_session_energy m) (mt_soc m) (mt_temperature m)))
      | _ => None
      end
  | FD_Status => match value with FV_String p => Some (kn_with_status c p) | _ => None end
  | FD_Rfid => match value with FV_String p => Some (kn_with_rfid c p) | _ => None end
  | FD_Limit =>
      n ← field_num value;
      Some (kn_with_limits c (mkLimits (limited n (ls_tx l)) (ls_default l) (ls_max l)))
  | FD_DefaultLimit =>
      n ← field_num value;
      Some (kn_with_limits c (mkLimits (ls_tx l) (limited n (ls_default l)) (ls_max l)))
  | FD_MaxLimit =>
      n ← field_num value;
      Some (kn_with_limits c (mkLimits (ls_tx l) (ls_default l) (limited n (ls_max l))))
  | FD_ReservedRfid | FD_ReservationId => None
  | _ => n ← field_num value; Some (kn_with_meter c (mt_set fd n m))
  end.
End station.
Arguments Meter : clear implicits.
Arguments Limit : clear implicits.
Arguments Limits : clear implicits.
Arguments Connector : clear implicits.
Arguments CsState : clear implicits.
