(* ===== verification/StationProps.v ===== *)
(** * Properties of the simulated charging station *)

From Stdlib Require Import Sorted.
From stdpp Require Import base list gmap numbers strings.
From S2P Require Import Prelude IntText Text OcppMessage OcppConn OcppHandshake OcppActions Calendar OcppWire Station.

Local Open Scope string_scope.
Local Open Scope list_scope.
Local Open Scope Z_scope.

Section props.
Context {F Num JE VE Req Resp : Type}.
Context `{!F64 F, !JsonNumber F Num, !Messages Num JE VE Req Resp, !Ocpp16 (Req := Req) (Resp := Resp)}.

Abbreviation Cn := (Connector F).
Abbreviation St := (CsState F).
Abbreviation Act := (Action Req).
Abbreviation Answer := (Result (Response Resp) (CallError Num)).
Abbreviation CStation := (ChargingStation (F := F) (Num := Num) (Req := Req)).
Abbreviation handle := (handle_call (F := F) (Num := Num) (JE := JE) (VE := VE) (Req := Req) (Resp := Resp)).
Abbreviation resp := (cs_respond (F := F) (Num := Num) (JE := JE) (VE := VE) (Req := Req) (Resp := Resp)).
Implicit Types (c : Cn) (s : St) (g : CStation) (a : Act).

(** ** Lists of connectors *)

Lemma alter_first_rel (R : Cn → Cn → Prop) (p : Cn → bool) f l :
  (∀ c, R c c) → (∀ c, c ∈ l → p c = true → R c (f c)) → Forall2 R l (alter_first p f l).
Proof.
  intros Hr. induction l as [|c l IH]; intros Hf; simpl; [constructor|].
  destruct (p c) eqn:Hp; constructor; [apply Hf; [left|done]|by apply Forall_Forall2_diag, Forall_true|
    apply Hr|apply IH; intros x Hx; apply Hf; by right].
Qed.

Lemma fmap_rel (R : Cn → Cn → Prop) f l : (∀ c, R c (f c)) → Forall2 R l (f <$> l).
Proof. intros Hf. induction l as [|c l IH]; constructor; [apply Hf|exact IH]. Qed.

Lemma alter_rel (R : Cn → Cn → Prop) f i l :
  (∀ c, R c c) → (∀ c, R c (f c)) → Forall2 R l (alter f i l).
Proof.
  intros Hr Hf. revert i. induction l as [|c l IH]; intros [|i]; constructor; try done.
  by apply Forall_Forall2_diag, Forall_true.
Qed.

Lemma same_rel (R : Cn → Cn → Prop) l : (∀ c, R c c) → Forall2 R l l.
Proof. intros Hr. by apply Forall_Forall2_diag, Forall_true. Qed.

(** ** What a call may change *)

(** A reservation changes by a reservation of its connector or a cancellation of
    its id. *)
Definition reservation_step (q : Call16) (id : Z) (r r' : Reservation) : Prop :=
  r' = r ∨
  match q with
  | Q_ReserveNow k tag rid => k = id ∧ r' = mkReservation (Some tag) (Some rid)
  | Q_CancelReservation rid => rv_id r = Some rid ∧ r' = no_reservation
  | _ => False
  end.

(** Of the limits, what ends a transaction touches only its own. *)
Definition limits_step (q : Call16) (l l' : Limits F) : Prop :=
  l' = l ∨
  match q with
  | Q_SetChargingProfile _ | Q_ClearChargingProfile _ => True
  | Q_RemoteStopTransaction _ => l' = ls_clear_tx l
  | _ => False
  end.

(** A transaction only ends: by a remote stop of its id, or a reset. *)
Definition transaction_step (q : Call16) (c c' : Cn) : Prop :=
  kn_transaction_id c' = kn_transaction_id c ∨
  kn_transaction_id c' = None ∧ kn_status c' = "Available" ∧
  match q with
  | Q_Reset => mt_session_energy (kn_meter c') = zero
  | Q_RemoteStopTransaction tx =>
      kn_transaction_id c = Some tx ∧ kn_limits c' = ls_clear_tx (kn_limits c)
  | _ => False
  end.

Definition connector_step (q : Call16) (c c' : Cn) : Prop :=
  kn_id c' = kn_id c ∧ kn_rfid c' = kn_rfid c ∧
  (kn_meter c' = kn_meter c ∨ q = Q_Reset ∧ kn_meter c' = mt_with_session_energy (kn_meter c) zero) ∧
  reservation_step q (kn_id c) (kn_reservation c) (kn_reservation c') ∧
  limits_step q (kn_limits c) (kn_limits c') ∧ transaction_step q c c'.

Lemma connector_step_refl q c : connector_step q c c.
Proof. split_and!; auto; by left. Qed.

(** A change of the status alone. *)
Lemma status_step q c status : connector_step q c (kn_with_status c status).
Proof. split_and!; auto; by left. Qed.

Lemma expect_default_ok name :
  action_row V1_6 name ≠ None →
  expect_default (Num := Num) (JE := JE) (VE := VE) (Req := Req) (Resp := Resp) name =
    Ret (Ok (mkResponse name (response_default name))).
Proof. intros Hrow. unfold expect_default, default_response. by destruct (action_row V1_6 name). Qed.

(** The action a call is matched as. *)
Definition call_name (q : Call16) : string :=
  match q with
  | Q_GetConfiguration _ => "GetConfiguration"
  | Q_ChangeConfiguration _ _ => "ChangeConfiguration"
  | Q_Reset => "Reset"
  | Q_SetChargingProfile _ => "SetChargingProfile"
  | Q_ReserveNow _ _ _ => "ReserveNow"
  | Q_CancelReservation _ => "CancelReservation"
  | Q_ChangeAvailability _ _ => "ChangeAvailability"
  | Q_RemoteStartTransaction _ => "RemoteStartTransaction"
  | Q_RemoteStopTransaction _ => "RemoteStopTransaction"
  | Q_ClearChargingProfile _ => "ClearChargingProfile"
  | Q_UnlockConnector _ => "UnlockConnector"
  | Q_Other name => name
  end.

Lemma call16_name a : call_name (call16 a) = ac_variant a.
Proof.
  unfold call16.
  repeat match goal with
         | |- context [String.eqb ?x ?y] => destruct (String.eqb_spec x y) as [->|]; [done|]
         end.
  done.
Qed.

(** The reply is that of the action; an error only where the version lacks it. *)
Definition answered_as (name : string) (ans : Answer) : Prop :=
  match ans with
  | Ok r => rs_variant r = name
  | Err e => action_row V1_6 name = None ∧ ce_code e = CC_NotImplemented
  end.

(** The transaction a call makes the station start. *)
Definition remote_start (q : Call16) s : option Scope :=
  match q, st_connectors s with
  | Q_RemoteStartTransaction id, _ :: _ =>
      Some (match id with Some k => Scope_for_connector k | None => Scope_CS end)
  | _, _ => None
  end.

(** What [cs_respond] leaves of the state beside the connectors. *)
Definition charge_point_step (q : Call16) s s' : Prop :=
  st_identity s' = st_identity s ∧
  st_heartbeat_interval_secs s' = st_heartbeat_interval_secs s ∧
  (st_reservation s' = st_reservation s ∨ reservation_step q 0 (st_reservation s) (st_reservation s')) ∧
  st_config s' = match q with
                 | Q_ChangeConfiguration key value => (change_config key value (st_config s)).2
                 | _ => st_config s
                 end.

Lemma charge_point_connectors q s l :
  (∀ key value, q ≠ Q_ChangeConfiguration key value) → charge_point_step q s (st_with_connectors s l).
Proof. intros Hq. split_and!; [done|done|by left|]. by destruct q as [| ? ? | | | | | | | | | |]; try done; destruct (Hq key value). Qed.

Lemma connectors_step q s l :
  (∀ key value, q ≠ Q_ChangeConfiguration key value) →
  Forall2 (connector_step q) (st_connectors s) l →
  charge_point_step q s (st_with_connectors s l) ∧
  Forall2 (connector_step q) (st_connectors s) (st_connectors (st_with_connectors s l)).
Proof. intros Hq Hl. split; [by apply charge_point_connectors|exact Hl]. Qed.

Lemma same_step q s :
  (∀ key value, q ≠ Q_ChangeConfiguration key value) →
  charge_point_step q s s ∧ Forall2 (connector_step q) (st_connectors s) (st_connectors s).
Proof.
  intros Hq. destruct s. apply (connectors_step q (mkCsState _ _ _ _ _)); [done|].
  apply same_rel, connector_step_refl.
Qed.

Lemma reserve_step k tag rid c :
  kn_id c = k →
  connector_step (Q_ReserveNow k tag rid) c (kn_with_reservation c (mkReservation (Some tag) (Some rid))).
Proof. intros <-. split_and!; auto; [by right; split|by left..]. Qed.

Lemma cancel_step rid c :
  rv_id (kn_reservation c) = Some rid →
  connector_step (Q_CancelReservation rid) c (kn_with_reservation c no_reservation).
Proof. intros Hr. split_and!; auto; [by right; split|by left..]. Qed.

Lemma stop_step tx c :
  kn_transaction_id c = Some tx → connector_step (Q_RemoteStopTransaction tx) c (end_transaction c).
Proof. intros Ht. split_and!; auto; [by left|by right|right; by split_and!]. Qed.

Lemma reset_step c : connector_step Q_Reset c (reset_connector c).
Proof. split_and!; auto; [by left|by left|right; by split_and!]. Qed.

Lemma clear_step k purpose c :
  connector_step (Q_ClearChargingProfile k) c (clear_limit_by_purpose purpose c).
Proof.
  unfold clear_limit_by_purpose. repeat case_match; split_and!; auto; try (by left); by right.
Qed.

Lemma profile_step id request s :
  ∃ ans s', set_charging_profile (Num := Num) (JE := JE) (VE := VE) (Req := Req) (Resp := Resp)
      id request s = Ret (Ok ans, s') ∧ rs_variant ans = "SetChargingProfile" ∧
    charge_point_step (Q_SetChargingProfile id) s s' ∧
    Forall2 (connector_step (Q_SetChargingProfile id)) (st_connectors s) (st_connectors s').
Proof.
  unfold set_charging_profile. destruct (match max_stack_level s with Some max => max <? _ | None => false end).
  { eexists _, s. do 2 (split; [done|]). by apply same_step. }
  rewrite (expect_default_ok "SetChargingProfile") by discriminate. cbn [mbind outcome_bind].
  destruct (as_f64 _) as [limit|]; [destruct (scoped_index s (Some id)) as [i|]|].
  - eexists _, _. do 2 (split; [done|]). apply connectors_step; [done|].
    apply alter_rel; [apply connector_step_refl|]. intros c. split_and!; auto; try (by left); by right.
  - eexists _, s. do 2 (split; [done|]). by apply same_step.
  - eexists _, s. do 2 (split; [done|]). by apply same_step.
Qed.

(** The answers that [default_response] cannot refuse. *)
Ltac answered name :=
  rewrite (expect_default_ok name) by discriminate; cbn [mbind outcome_bind];
  eexists _, _; do 2 (split; [reflexivity|]).

Lemma scoped_index_none s id : scoped_index s id = None ↔ st_connectors s = [].
Proof.
  unfold scoped_index. destruct id as [id|]; cbn [mbind option_bind].
  - destruct (connector_position s id) as [i|] eqn:Hi; [|by destruct (st_connectors s)].
    split; [done|]. intros Hc. unfold connector_position in Hi. by rewrite Hc in Hi.
  - by destruct (st_connectors s).
Qed.

Lemma remote_start_target s id :
  match scoped_index s id with
  | Some _ => Some match id with Some k => Scope_for_connector k | None => Scope_CS end
  | None => None
  end = remote_start (Q_RemoteStartTransaction id) s.
Proof.
  pose proof (scoped_index_none s id) as Hn. cbn [remote_start].
  destruct (scoped_index s id), (st_connectors s); try done;
    destruct Hn as [H1 H2]; [by specialize (H2 eq_refl)|by specialize (H1 eq_refl)].
Qed.

Lemma respond_step s a :
  ∃ ans s', resp s a = Ret (ans, s', remote_start (call16 a) s) ∧ answered_as (ac_variant a) ans ∧
    charge_point_step (call16 a) s s' ∧
    Forall2 (connector_step (call16 a)) (st_connectors s) (st_connectors s').
Proof.
  rewrite <-(call16_name a). unfold cs_respond.
  destruct (call16 a) as [key|key value| |id|id tag rid|rid|id kind|id|tx|id|id|name]; cbn [call_name].
  - eexists _, s. do 2 (split; [done|]). by apply same_step.
  - destruct (change_config key value (st_config s)) as [status config] eqn:Hc.
    eexists _, _. do 2 (split; [done|]). split; [split_and!; [done|done|by left|by rewrite Hc]|].
    apply same_rel, connector_step_refl.
  - eexists _, _. do 2 (split; [done|]). apply connectors_step; [done|apply fmap_rel, reset_step].
  - destruct (profile_step id (request_json a) s) as (ans & s' & -> & H). by eexists _, s'.
  - answered "ReserveNow". destruct (Z.eqb_spec id 0) as [->|Hid].
    + split; [split_and!; [done|done|by right; right|done]|apply same_rel, connector_step_refl].
    + apply connectors_step; [done|]. apply alter_first_rel; [apply connector_step_refl|].
      intros c _ Hc. by apply reserve_step, Z.eqb_eq.
  - answered "CancelReservation". unfold cancel_reservation. case_bool_decide as Hrid.
    + split; [split_and!; [done|done|by right; right|done]|apply same_rel, connector_step_refl].
    + apply connectors_step; [done|]. apply alter_first_rel; [apply connector_step_refl|].
      intros c _ Hc. apply bool_decide_eq_true in Hc. by apply cancel_step.
  - answered "ChangeAvailability". destruct (id =? 0); apply connectors_step; try done.
    + apply fmap_rel. intros c. apply status_step.
    + apply alter_first_rel; [apply connector_step_refl|]. intros c _ _. apply status_step.
  - rewrite (expect_default_ok "RemoteStartTransaction") by discriminate. cbn [mbind outcome_bind].
    rewrite remote_start_target.
    eexists _, _. do 2 (split; [done|]). by apply same_step.
  - answered "RemoteStopTransaction". apply connectors_step; [done|].
    apply alter_first_rel; [apply connector_step_refl|].
    intros c _ Hc. apply bool_decide_eq_true in Hc. by apply stop_step.
  - answered "ClearChargingProfile". destruct id as [id|]; apply connectors_step; try done.
    + apply alter_first_rel; [apply connector_step_refl|]. intros c _ _. apply clear_step.
    + apply fmap_rel. intros c. apply clear_step.
  - answered "UnlockConnector". apply connectors_step; [done|].
    apply alter_first_rel; [apply connector_step_refl|]. intros c _ _. apply status_step.
  - eexists _, s. split; [done|]. split; [|by apply same_step].
    unfold default_response. by destruct (action_row V1_6 name) as [b|] eqn:Hrow.
Qed.

(** ** A handled call *)

(** The call and its reply, in the log. *)
Definition exchange (now : Z) a (ans : Answer) (log : MessageLog Num) : MessageLog Num :=
  let scope := inbound_scope (request_json a) in
  record_message now scope DIR_Out (ac_variant a)
    (match ans with Ok r => response_json r | Err _ => J_Null end)
    (Some match ans with Ok _ => true | Err _ => false end)
    (record_message now scope DIR_In (ac_variant a) (request_json a) None log).

Definition refused : Answer :=
  Err (CallError_new CC_PropertyConstraintViolation "unknown connectorId").

Definition start_task (start : option Scope) : list (SendTask (Num := Num)) :=
  match start with Some scope => [TK_RemoteStart scope] | None => [] end.

(** What a call leaves of the station. *)
Definition after_call (now : Z) a (ans : Answer) s (start : option Scope) g : CStation :=
  mkChargingStation s (cg_online g) (cg_connected g) (exchange now a ans (cg_log g))
    (cg_tasks g ++ start_task start) (cg_sent g) (cg_ticks g).

Lemma handle_spec now a g :
  ∃ ans s start, handle now a g = Ret (ans, after_call now a ans s start g) ∧
    match unknown_connector (request_json a) (cg_state g) with
    | Some _ => ans = refused ∧ s = cg_state g ∧ start = None
    | None => resp (cg_state g) a = Ret (ans, s, start)
    end.
Proof.
  unfold handle_call.
  destruct (unknown_connector (request_json a) (cg_state g)) as [id|].
  - by eexists _, _, None.
  - destruct (respond_step (cg_state g) a) as (ans & s & -> & _). by eexists _, _, _.
Qed.

(** The effect of a call on the state, whether it is refused or not. *)
Lemma handle_state now a g :
  ∃ ans g', handle now a g = Ret (ans, g') ∧
    match unknown_connector (request_json a) (cg_state g) with
    | Some _ => ans = refused ∧ cg_state g' = cg_state g
    | None => ∃ start, resp (cg_state g) a = Ret (ans, cg_state g', start) ∧
                charge_point_step (call16 a) (cg_state g) (cg_state g')
    end ∧
    Forall2 (connector_step (call16 a)) (st_connectors (cg_state g)) (st_connectors (cg_state g')).
Proof.
  destruct (handle_spec now a g) as (ans & s & start & -> & H). eexists _, _. split; [done|].
  cbn [cg_state after_call].
  destruct (unknown_connector (request_json a) (cg_state g)) as [id|].
  - destruct H as (-> & -> & _). split; [done|]. apply same_rel, connector_step_refl.
  - destruct (respond_step (cg_state g) a) as (ans' & s' & Heq & _ & Hcp & Hc). rewrite Heq in H.
    injection H as <- <- <-. split; [by eexists|done].
Qed.

(** C16: Every call of the management system is answered, whatever it holds: the
    station never panics. A call for a connector the station lacks is refused with
    PropertyConstraintViolation and changes nothing; every other one is answered by
    the reply of its action, an error only for an action 1.6 does not have. Both are
    logged, the reply after the call, and the state changes only as the call may:
    no call adds, removes or renumbers a connector, changes its card or raises its
    meter, starts a transaction at once or ends another one, and the identity and
    the heartbeat interval stay. *)
Theorem station_answers (now : Z) a g :
  ∃ ans s start, handle now a g = Ret (ans, after_call now a ans s start g) ∧
    match unknown_connector (request_json a) (cg_state g) with
    | Some _ => ans = refused ∧ s = cg_state g ∧ start = None
    | None =>
        answered_as (ac_variant a) ans ∧ start = remote_start (call16 a) (cg_state g) ∧
        charge_point_step (call16 a) (cg_state g) s ∧
        Forall2 (connector_step (call16 a)) (st_connectors (cg_state g)) (st_connectors s)
    end.
Proof.
  destruct (handle_spec now a g) as (ans & s & start & Hh & H). eexists _, _, _. split; [exact Hh|].
  destruct (unknown_connector (request_json a) (cg_state g)); [done|].
  destruct (respond_step (cg_state g) a) as (ans' & s' & Heq & Ha & Hcp & Hc). rewrite Heq in H.
  injection H as <- <- <-. done.
Qed.

(** A reset ends the transaction and keeps its limit. *)
Lemma reset_keeps_limit s a c i :
  call16 a = Q_Reset → st_connectors s !! i = Some c →
  ∃ ans s' c', resp s a = Ret (ans, s', None) ∧ st_connectors s' !! i = Some c' ∧
    kn_transaction_id c' = None ∧ kn_limits c' = kn_limits c.
Proof.
  intros Hq Hc. unfold cs_respond. rewrite Hq. eexists _, _, (reset_connector c). split; [done|].
  split_and!; [|done|done]. cbn. by rewrite list_lookup_fmap, Hc.
Qed.

(** ** Runs of calls *)

Fixpoint handle_calls (calls : list (Z * Act)) g : Outcome (list Answer * CStation) :=
  match calls with
  | [] => Ret ([], g)
  | (now, a) :: calls =>
      '(ans, g) ← handle now a g;
      '(answers, g) ← handle_calls calls g;
      Ret (ans :: answers, g)
  end.

(** What every call keeps, a run keeps. *)
Lemma handle_calls_ind (P : CStation → Prop) calls g :
  P g →
  (∀ now a g ans g', (now, a) ∈ calls → P g → handle now a g = Ret (ans, g') → P g') →
  ∃ answers g', handle_calls calls g = Ret (answers, g') ∧ length answers = length calls ∧ P g'.
Proof.
  revert g. induction calls as [|[now a] calls IH]; intros g Hg Hstep; [by eexists _, _|].
  cbn [handle_calls]. destruct (handle_state now a g) as (ans & g1 & Heq & _). rewrite Heq.
  cbn [mbind outcome_bind].
  destruct (IH g1) as (answers & g' & -> & Hlen & Hp).
  - eapply Hstep; [by left|exact Hg|exact Heq].
  - intros now' a' g2 ans' g3 Hin. apply Hstep. by right.
  - eexists _, _. split; [done|]. split; [cbn; lia|done].
Qed.

Lemma handle_connector now a g ans g' i c :
  handle now a g = Ret (ans, g') → st_connectors (cg_state g) !! i = Some c →
  ∃ c', st_connectors (cg_state g') !! i = Some c' ∧ connector_step (call16 a) c c'.
Proof.
  intros Heq Hc. destruct (handle_state now a g) as (ans' & g1 & Heq' & _ & Hall).
  rewrite Heq in Heq'. injection Heq' as <- <-.
  destruct (Forall2_lookup_l _ _ _ _ _ Hall Hc) as (c' & Hc' & Hs). by exists c'.
Qed.

(** A connector's reservation outlasts every run of calls that neither cancels
    its id nor reserves the connector anew: no other call, a reset among them,
    touches it. *)
Theorem reservation_persists calls g i c (rid : Z) :
  st_connectors (cg_state g) !! i = Some c → rv_id (kn_reservation c) = Some rid →
  (∀ now a, (now, a) ∈ calls →
     call16 a ≠ Q_CancelReservation rid ∧ ∀ tag rid', call16 a ≠ Q_ReserveNow (kn_id c) tag rid') →
  ∃ answers g', handle_calls calls g = Ret (answers, g') ∧ length answers = length calls ∧
    ∃ c', st_connectors (cg_state g') !! i = Some c' ∧ kn_id c' = kn_id c ∧
      kn_reservation c' = kn_reservation c.
Proof.
  intros Hc Hrid Hcalls.
  apply (handle_calls_ind (λ g', ∃ c', st_connectors (cg_state g') !! i = Some c' ∧
    kn_id c' = kn_id c ∧ kn_reservation c' = kn_reservation c)); [by exists c|].
  intros now a g1 ans g2 Hin (c1 & Hc1 & Hid & Hres) Heq.
  destruct (handle_connector _ _ _ _ _ _ _ Heq Hc1) as (c2 & Hc2 & Hid2 & _ & _ & Hr & _).
  exists c2. split; [done|]. split; [by rewrite Hid2|]. rewrite <-Hres.
  destruct (Hcalls now a Hin) as [Hno1 Hno2]. destruct Hr as [?|Hr]; [done|].
  destruct (call16 a) as [| | | |k tag rid'|rid'| | | | | |]; try done.
  - destruct Hr as [-> _]. destruct (Hno2 tag rid'). by rewrite Hid.
  - destruct Hr as [Hr _]. rewrite Hres, Hrid in Hr. injection Hr as ->. done.
Qed.

(** ** The configuration, as a map *)

(** A key's value and whether it is read-only; of several entries the first
    counts. *)
Definition config_map (config : list ConfigKey) : gmap string (string * bool) :=
  foldr (λ k m, <[ck_key k := (ck_value k, ck_readonly k)]> m) ∅ config.

Lemma config_map_lookup config key :
  config_map config !! key =
    (λ k, (ck_value k, ck_readonly k)) <$> find (λ k, String.eqb (ck_key k) key) config.
Proof.
  induction config as [|k config IH]; [done|]. simpl.
  destruct (String.eqb_spec (ck_key k) key) as [->|Hne]; simpl.
  - by rewrite lookup_insert_eq.
  - by rewrite lookup_insert_ne.
Qed.

(** ChangeConfiguration on the map. *)
Definition change_map (key value : string) (m : gmap string (string * bool))
  : ConfigurationStatus * gmap string (string * bool) :=
  match m !! key with
  | Some (_, true) => (CFS_Rejected, m)
  | _ => (CFS_Accepted, <[key := (value, false)]> m)
  end.

Lemma change_config_map key value config :
  ((change_config key value config).1, config_map (change_config key value config).2) =
    change_map key value (config_map config).
Proof.
  unfold change_map.
  induction config as [|[key' v b] config IH]; [done|]. cbn [change_config config_map foldr ck_key ck_value ck_readonly].
  fold (config_map config). destruct (String.eqb_spec key' key) as [->|Hne].
  - rewrite lookup_insert_eq. destruct b; [done|]. simpl. by rewrite insert_insert_eq.
  - rewrite lookup_insert_ne by done.
    destruct (change_config key value config) as [status config'] eqn:Hc. cbn [fst snd] in IH |- *.
    cbn [config_map foldr ck_key ck_value ck_readonly]. fold (config_map config').
    destruct (config_map config !! key) as [[v' [|]]|]; injection IH as -> ->; try done;
      by rewrite insert_insert_ne.
Qed.

(** GetConfiguration on the map, for the keys it names. *)
Definition get_map (names : list string) (m : gmap string (string * bool))
  : list KeyValue * list string :=
  (omap (λ key, (λ p, mkKeyValue key p.2 (Some p.1)) <$> m !! key) names,
   filter (λ key, m !! key = None) names).

Lemma get_configuration_map names s :
  get_configuration (Some names) s =
    let '(keys, unknown) := get_map names (config_map (st_config s)) in
    GetConfigurationResponse (match keys with [] => None | _ => Some keys end)
      (match unknown with [] => None | _ => Some unknown end).
Proof.
  unfold get_configuration, get_map.
  assert (∀ key, (λ p : string * bool, mkKeyValue key p.2 (Some p.1)) <$> config_map (st_config s) !! key =
    key_value <$> find (λ x, String.eqb (ck_key x) key) (st_config s)) as Hkey.
  { intros key. rewrite config_map_lookup.
    destruct (find _ (st_config s)) as [k|] eqn:Hf; [|done]. cbn.
    apply find_some in Hf as [_ Hf]. apply String.eqb_eq in Hf as <-. by destruct k. }
  assert (omap (λ key, (λ p : string * bool, mkKeyValue key p.2 (Some p.1)) <$> config_map (st_config s) !! key)
      names = omap (λ k, key_value <$> find (λ x, String.eqb (ck_key x) k) (st_config s)) names) as Hkeys.
  { apply list_omap_ext, Forall_Forall2_diag, Forall_true, Hkey. }
  assert (filter (λ key, config_map (st_config s) !! key = None) names =
      filter (λ k, find (λ x, String.eqb (ck_key x) k) (st_config s) = None) names) as Hmissing.
  { apply list_filter_iff. intros key. rewrite config_map_lookup. by destruct (find _ _). }
  cbn beta iota zeta. rewrite Hkeys, Hmissing. done.
Qed.

(** The configuration behaves as a map from keys to a value and a write
    protection. ChangeConfiguration sets the key, creating one that was missing,
    and is rejected, without effect, for a protected key; GetConfiguration returns
    the entries of the keys it names and lists those without one; no other call, and
    none that is refused, changes any key. *)
Theorem configuration_is_a_map (now : Z) a g :
  let m := config_map (st_config (cg_state g)) in
  ∃ ans g', handle now a g = Ret (ans, g') ∧
    let m' := config_map (st_config (cg_state g')) in
    match unknown_connector (request_json a) (cg_state g), call16 a with
    | Some _, _ => m' = m
    | None, Q_ChangeConfiguration key value =>
        let '(status, changed) := change_map key value m in
        m' = changed ∧ ans = Ok (mkResponse "ChangeConfiguration" (ChangeConfigurationResponse status))
    | None, Q_GetConfiguration (Some names) =>
        let '(keys, unknown) := get_map names m in
        m' = m ∧ ans = Ok (mkResponse "GetConfiguration"
          (GetConfigurationResponse (match keys with [] => None | _ => Some keys end)
             (match unknown with [] => None | _ => Some unknown end)))
    | None, _ => m' = m
    end.
Proof.
  intros m. destruct (handle_state now a g) as (ans & g' & -> & H & _). exists ans, g'. split; [done|].
  destruct (unknown_connector (request_json a) (cg_state g)) as [id|].
  { by destruct H as [_ ->]. }
  destruct H as (start & Hr & _ & _ & _ & Hcfg). unfold cs_respond in Hr. cbn zeta.
  destruct (call16 a) as [[names|]|key value| | | | | | | | | |]; subst m; rewrite Hcfg; try done.
  - rewrite get_configuration_map in Hr.
    destruct (get_map names (config_map (st_config (cg_state g)))) as [keys unknown].
    injection Hr as <- _ _. done.
  - pose proof (change_config_map key value (st_config (cg_state g))) as Hm.
    destruct (change_config key value (st_config (cg_state g))) as [status config]. cbn [fst snd] in *.
    destruct (change_map key value _) as [status' changed]. injection Hm as -> ->.
    injection Hr as <- _ _. done.
Qed.

(** ** Automatic transmission *)

Fixpoint refreshes (nows : list Z) g : Outcome CStation :=
  match nows with
  | [] => Ret g
  | now :: nows => g ← refresh now g; refreshes nows g
  end.

Definition heartbeat_secs s : Z := Z.max (default DEFAULT_HEARTBEAT_SECS (st_heartbeat_interval_secs s)) 1.

(** What the [j]th refresh of an unchanged, connected station transmits. *)
Definition heartbeat_due s (j : Z) : list (SendTask (Num := Num)) :=
  if j mod (10 * heartbeat_secs s) =? 0 then [TK_Send "Heartbeat" (J_Object []) Scope_CS] else [].

Definition readings_due s (j now : Z) : list (SendTask (Num := Num)) :=
  if j mod 50 =? 0
  then (λ scope, TK_Send "MeterValues" (state_payload now s "MeterValues" scope) scope) <$>
         active_meter_scopes s
  else [].

Fixpoint due_tasks s (j : Z) (nows : list Z) : list (SendTask (Num := Num)) :=
  match nows with
  | [] => []
  | now :: nows => heartbeat_due s (j + 1) ++ readings_due s (j + 1) now ++ due_tasks s (j + 1) nows
  end.

Definition any_transaction s : bool :=
  existsb (λ c, match kn_transaction_id c with Some _ => true | None => false end) (st_connectors s).

Lemma any_transaction_spec s : any_transaction s = false ↔ active_meter_scopes s = [].
Proof.
  unfold any_transaction, active_meter_scopes. induction (st_connectors s) as [|c l IH]; [done|].
  cbn [existsb]. rewrite filter_cons. destruct (kn_transaction_id c) as [tx|]; cbn [orb].
  - rewrite decide_True by done. done.
  - rewrite decide_False by (by intros [? ?]). exact IH.
Qed.

(** The counters after [j] refreshes. *)
Definition ticks_at s (j : Z) : Ticks :=
  mkTicks (j mod (10 * heartbeat_secs s)) (if any_transaction s then j else 0) true (any_transaction s).

Lemma mod_succ (j n : Z) :
  0 < n → (j + 1) mod n = if j mod n + 1 =? n then 0 else j mod n + 1.
Proof.
  intros Hn. pose proof (Z.mod_pos_bound j n Hn). pose proof (Z.div_mod j n ltac:(lia)).
  destruct (Z.eqb_spec (j mod n + 1) n) as [E|E]; symmetry.
  - apply (Z.mod_unique _ _ (j / n + 1)); lia.
  - apply (Z.mod_unique _ _ (j / n)); lia.
Qed.

Lemma heartbeat_tick g j :
  cg_online g = true → cg_ticks g = ticks_at (cg_state g) j → 10 * heartbeat_secs (cg_state g) < 2 ^ 32 →
  heartbeat_part g = Ret (cg_spawn (cg_with_ticks g
      (mkTicks ((j + 1) mod (10 * heartbeat_secs (cg_state g))) (tk_meter (cg_ticks g)) true
         (any_transaction (cg_state g)))) (heartbeat_due (cg_state g) (j + 1))).
Proof.
  intros Hon Hticks Hsecs. unfold heartbeat_part. rewrite Hon. cbv zeta.
  fold (heartbeat_secs (cg_state g)). unfold heartbeat_due.
  set (n := heartbeat_secs (cg_state g)) in *.
  assert (1 <= n) as Hn by (unfold n, heartbeat_secs; lia).
  unfold as_uint, u32_mul, TICKS_PER_SEC. change (2 ^ 32) with 4294967296 in *.
  rewrite (Z.mod_small n) by lia. destruct (Z.ltb_spec (n * 10) 4294967296); [|lia].
  cbn [mbind outcome_bind]. rewrite Hticks. cbn [tk_heartbeat tk_meter tk_was_online tk_tx_was_active ticks_at].
  fold n. pose proof (Z.mod_pos_bound j (10 * n) ltac:(lia)).
  rewrite (Z.mod_small (j mod (10 * n) + 1)) by lia. rewrite (mod_succ j (10 * n)) by lia.
  destruct (Z.leb_spec (n * 10) (j mod (10 * n) + 1)), (Z.eqb_spec (j mod (10 * n) + 1) (10 * n)); try lia.
  - done.
  - destruct (Z.eqb_spec (j mod (10 * n) + 1) 0); [lia|]. unfold cg_spawn, cg_with_ticks. simpl.
    by rewrite app_nil_r.
Qed.

Lemma meter_tick (now j : Z) g (tick : Z) :
  cg_online g = true → 0 <= j → j + 1 < 2 ^ 32 →
  cg_ticks g = mkTicks tick (if any_transaction (cg_state g) then j else 0) true
    (any_transaction (cg_state g)) →
  meter_part now g = cg_spawn (cg_with_ticks g
      (mkTicks tick (if any_transaction (cg_state g) then j + 1 else 0) true
         (any_transaction (cg_state g)))) (readings_due (cg_state g) (j + 1) now).
Proof.
  intros Hon Hj Hlt Hticks. unfold meter_part. rewrite Hticks. cbv zeta.
  cbn [tk_heartbeat tk_meter tk_was_online tk_tx_was_active]. fold (any_transaction (cg_state g)).
  pose proof (any_transaction_spec (cg_state g)) as Hactive. unfold readings_due.
  change (2 ^ 32) with 4294967296 in *.
  destruct (any_transaction (cg_state g)).
  - destruct (active_meter_scopes (cg_state g)) as [|x l]; [by destruct Hactive as [_ H]; specialize (H eq_refl)|].
    rewrite Hon. cbn [andb negb]. unfold as_uint. change (2 ^ 32) with 4294967296.
    rewrite (Z.mod_small (j + 1)) by lia. destruct ((j + 1) mod 50 =? 0); [done|].
    unfold cg_spawn, cg_with_ticks. simpl. by rewrite app_nil_r.
  - rewrite (proj1 Hactive eq_refl). cbn [andb fmap list_fmap].
    unfold cg_spawn, cg_with_ticks. simpl. destruct ((j + 1) mod 50 =? 0); by rewrite app_nil_r.
Qed.

Lemma refresh_tick (now j : Z) g :
  cg_online g = true → cg_ticks g = ticks_at (cg_state g) j →
  10 * heartbeat_secs (cg_state g) < 2 ^ 32 → 0 <= j → j + 1 < 2 ^ 32 →
  refresh now g = Ret (cg_spawn (cg_with_ticks g (ticks_at (cg_state g) (j + 1)))
    (heartbeat_due (cg_state g) (j + 1) ++ readings_due (cg_state g) (j + 1) now)).
Proof.
  intros Hon Hticks Hsecs Hj Hlt. unfold refresh. rewrite Hon, Hticks. cbn [tk_was_online ticks_at negb andb].
  rewrite (heartbeat_tick _ j) by done. cbn [mbind outcome_bind cg_with_ticks cg_ticks cg_state tk_meter ticks_at].
  rewrite (meter_tick _ j) with (tick := (j + 1) mod (10 * heartbeat_secs (cg_state g))) by done.
  unfold cg_spawn, cg_with_ticks. cbn [cg_state cg_tasks cg_online cg_connected cg_log cg_sent cg_ticks].
  by rewrite <-app_assoc.
Qed.

(** A connected station with an unchanged state transmits at a fixed cadence:
    with an interval of [n] seconds, at least one and with [10 n] in 32 bits, exactly
    every [10 n]th refresh sends a heartbeat, and exactly every 50th one sends a
    reading of each connector with a transaction, and of no other; nothing else is
    sent and no refresh changes the state. *)
Theorem automatic_cadence (nows : list Z) (j : Z) g :
  cg_online g = true → cg_ticks g = ticks_at (cg_state g) j →
  10 * heartbeat_secs (cg_state g) < 2 ^ 32 → 0 <= j → j + Z.of_nat (length nows) < 2 ^ 32 →
  refreshes nows g =
    Ret (cg_spawn (cg_with_ticks g (ticks_at (cg_state g) (j + Z.of_nat (length nows))))
           (due_tasks (cg_state g) j nows)).
Proof.
  intros Hon Hticks Hsecs. revert j g Hon Hticks Hsecs.
  induction nows as [|now nows IH]; intros j g Hon Hticks Hsecs Hj Hlt; cbn [refreshes due_tasks length].
  - rewrite Z.add_0_r, <-Hticks. unfold cg_spawn, cg_with_ticks. rewrite app_nil_r. by destruct g.
  - cbn [length] in Hlt. rewrite (refresh_tick now j) by (done || lia). cbn [mbind outcome_bind].
    rewrite (IH (j + 1)) by (done || lia).
    unfold cg_spawn, cg_with_ticks. cbn [cg_state cg_tasks cg_online cg_connected cg_log cg_sent cg_ticks].
    rewrite <-!app_assoc. do 3 f_equal. lia.
Qed.

(** An interval of 429496730 seconds does not fit the product. *)
Lemma heartbeat_interval_overflows now g :
  cg_online g = true → heartbeat_secs (cg_state g) = 429496730 → refresh now g = Panic.
Proof.
  intros Hon Hsecs. unfold refresh, heartbeat_part.
  cbn [cg_with_ticks cg_online cg_state cg_ticks]. rewrite Hon. cbv zeta. fold (heartbeat_secs (cg_state g)).
  by rewrite Hsecs.
Qed.

(** One of 2^32 seconds is truncated to none: every refresh sends a heartbeat. *)
Lemma heartbeat_interval_truncated now g :
  cg_online g = true → heartbeat_secs (cg_state g) = 2 ^ 32 →
  ∃ g', refresh now g = Ret g' ∧ ∃ tasks,
    cg_tasks g' = cg_tasks g ++ TK_Send "Heartbeat" (J_Object []) Scope_CS :: tasks.
Proof.
  intros Hon Hsecs.
  assert (∀ t, (0 <=? as_uint 32 t) = true) as Hdue.
  { intros t. apply Z.leb_le, Z.mod_pos_bound. done. }
  unfold refresh, heartbeat_part. cbn [cg_with_ticks cg_online cg_state cg_ticks]. rewrite Hon. cbv zeta.
  fold (heartbeat_secs (cg_state g)). rewrite Hsecs. unfold u32_mul.
  change (as_uint 32 (2 ^ 32) * TICKS_PER_SEC) with 0. change (0 <? 2 ^ 32) with true.
  cbn [mbind outcome_bind]. rewrite Hdue. eexists. split; [reflexivity|].
  unfold meter_part. destruct (_ && _); eexists; cbn; [by rewrite <-app_assoc|done].
Qed.

(** ** Transactions *)

(** What may happen to a station: a call, a refresh, an action of the operator or a
    script, a task that runs, the answer to one, and a change of the connection. *)
Inductive ChargeEvent :=
| EV_Call (now : Z) (a : Act)
| EV_Refresh (now : Z)
| EV_Send (name : string) (payload : Json Num) (scope : Scope)
| EV_Run (now : Z) (k : nat)
| EV_Reply (now : Z) (k : nat) (reply : option (Response Resp))
| EV_Connection (online connected : bool).

Definition charge_step (e : ChargeEvent) g : Outcome CStation :=
  match e with
  | EV_Call now a => '(_, g) ← handle now a g; Ret g
  | EV_Refresh now => refresh now g
  | EV_Send name payload scope => Ret (cg_spawn g [TK_Send name payload scope])
  | EV_Run now k => Ret (task_run now g k)
  | EV_Reply now k reply => Ret (task_answered (JE := JE) (VE := VE) now g k reply)
  | EV_Connection online connected =>
      Ret (mkChargingStation (cg_state g) online connected (cg_log g) (cg_tasks g) (cg_sent g) (cg_ticks g))
  end.

Fixpoint charge_run (es : list ChargeEvent) g : Outcome CStation :=
  match es with [] => Ret g | e :: es => g ← charge_step e g; charge_run es g end.

(** Every task that waits has sent its call. *)
Definition waiting_sent g : Prop :=
  ∀ k name scope start, cg_tasks g !! k = Some (TK_Waiting name scope start) →
    ∃ a, (k, a) ∈ cg_sent g ∧ ac_variant a = name.

(** The answer that gives the [i]th connector its transaction: to a
    StartTransaction that was sent for it. *)
Definition grants (e : ChargeEvent) g (i : nat) (tx : Z) : Prop :=
  ∃ now k r scope start a, e = EV_Reply now k (Some r) ∧
    cg_tasks g !! k = Some (TK_Waiting "StartTransaction" scope start) ∧
    (k, a) ∈ cg_sent g ∧ ac_variant a = "StartTransaction" ∧
    scoped_index (cg_state g) (sc_connector scope) = Some i ∧
    as_i64 (jget "transactionId" (response_json r)) = Some tx.

Lemma decode_variant name payload a :
  decode_call (Version := v1_6_version) name payload = Ok a → ac_variant a = name.
Proof.
  cbn. unfold action_decode_call. destruct (action_row V1_6 name); [|done].
  destruct (request_from_value name payload); [|done]. by intros [= <-].
Qed.

Lemma send_call_state now g k scope start a : cg_state (send_call now g k scope start a) = cg_state g.
Proof. unfold send_call. by destruct (cg_connected _). Qed.

Lemma task_run_state now g k : cg_state (task_run now g k) = cg_state g.
Proof.
  unfold task_run. destruct (cg_tasks g !! k) as [[scope|name payload scope|name scope start|]|]; try done;
    (destruct (decode_call _ _); [apply send_call_state|done]).
Qed.

(** A refresh only adds tasks that have not run. *)
Definition grown g g' : Prop :=
  cg_state g' = cg_state g ∧ cg_sent g' = cg_sent g ∧
  ∃ tasks, cg_tasks g' = cg_tasks g ++ tasks ∧
    ∀ t, t ∈ tasks → ∃ name payload scope, t = TK_Send name payload scope.

Lemma grown_ticks g g' ticks : grown g g' → grown g (cg_with_ticks g' ticks).
Proof. done. Qed.

Lemma grown_spawn g g' (tasks : list (SendTask (Num := Num))) :
  grown g g' → (∀ t, t ∈ tasks → ∃ name payload scope, t = TK_Send name payload scope) →
  grown g (cg_spawn g' tasks).
Proof.
  intros (Hs & Hsent & old & Htasks & Hold) Hnew. split_and!; [done..|].
  exists (old ++ tasks). cbn. rewrite Htasks, app_assoc. split; [done|].
  intros t [Ht|Ht]%elem_of_app; auto.
Qed.

Lemma grown_refl g : grown g g.
Proof.
  split_and!; [done..|]. exists []. rewrite app_nil_r. split; [done|].
  intros t Ht. by apply not_elem_of_nil in Ht.
Qed.

Lemma refresh_grows now g g' : refresh now g = Ret g' → grown g g'.
Proof.
  unfold refresh. set (g1 := cg_with_ticks g _).
  assert (grown g g1) as H1 by apply grown_ticks, grown_refl.
  assert (∀ g2, heartbeat_part g1 = Ret g2 → grown g g2) as Hheart.
  { intros g2. unfold heartbeat_part. destruct (cg_online g1); [|by intros [= <-]].
    cbv zeta. destruct (u32_mul _ _) as [due|]; [|done]. cbn [mbind outcome_bind].
    destruct (_ <=? _); intros [= <-]; [|by apply grown_ticks].
    apply grown_spawn; [by apply grown_ticks|].
    intros t Ht. apply list_elem_of_singleton in Ht as ->. by eexists _, _, _. }
  destruct (heartbeat_part g1) as [g2|]; [|done]. intros [= <-].
  unfold meter_part. destruct (_ && (_ =? _)); [|by apply grown_ticks, Hheart].
  apply grown_spawn; [by apply grown_ticks, Hheart|].
  intros t (scope & -> & _)%list_elem_of_fmap. by eexists _, _, _.
Qed.

(** What a task leaves of the tasks and of what was sent. *)
Lemma send_call_waiting now g k scope start a :
  waiting_sent g → waiting_sent (send_call now g k scope start a).
Proof.
  intros Hw k' name' scope' start'. unfold send_call. cbn zeta.
  destruct (cg_connected (cg_record now g scope DIR_Out (ac_variant a) (request_json a) None));
    cbn [cg_task cg_tasks cg_sent cg_send cg_record]; intros Hk';
    apply list_lookup_insert_Some in Hk' as [(-> & Heq & _)|[_ Hk']]; try done.
  - injection Heq as <- <- <-. exists a. split; [|done]. apply elem_of_app. right. by left.
  - destruct (Hw _ _ _ _ Hk') as (b & Hb & Hn). exists b. split; [|done]. apply elem_of_app. by left.
  - by apply (Hw _ _ _ _ Hk').
Qed.

Lemma done_waiting g k : waiting_sent g → waiting_sent (cg_task g k TK_Done).
Proof.
  intros Hw k' name scope start Hk'. cbn in Hk'.
  apply list_lookup_insert_Some in Hk' as [(_ & ? & _)|[_ Hk']]; [done|by apply (Hw _ _ _ _ Hk')].
Qed.

Lemma appended_waiting g g' tasks :
  waiting_sent g → cg_sent g' = cg_sent g → cg_tasks g' = cg_tasks g ++ tasks →
  (∀ name scope start, TK_Waiting name scope start ∉ tasks) → waiting_sent g'.
Proof.
  intros Hw Hsent Htasks Hnew k name scope start Hk. rewrite Hsent. rewrite Htasks in Hk.
  apply lookup_app_Some in Hk as [Hk|[_ Hk]]; [by apply (Hw _ _ _ _ Hk)|].
  by destruct (Hnew _ _ _ (list_elem_of_lookup_2 _ _ _ Hk)).
Qed.

Lemma grown_waiting g g' : waiting_sent g → grown g g' → waiting_sent g'.
Proof.
  intros Hw (_ & Hsent & tasks & Htasks & Hall). apply (appended_waiting g _ tasks); [done..|].
  intros name scope start Hin. by destruct (Hall _ Hin) as (? & ? & ? & ?).
Qed.

Lemma step_waiting e g g' : waiting_sent g → charge_step e g = Ret g' → waiting_sent g'.
Proof.
  intros Hw. destruct e as [now a|now|name payload scope|now k|now k reply|online connected]; cbn [charge_step].
  - destruct (handle_spec now a g) as (ans & s & start & -> & _). intros [= <-].
    apply (appended_waiting g _ (start_task start)); [done..|].
    intros name scope st. destruct start as [x|]; [|by apply not_elem_of_nil].
    by intros ?%list_elem_of_singleton.
  - intros Hr. by apply (grown_waiting g), (refresh_grows now).
  - intros [= <-]. apply (appended_waiting g _ [TK_Send name payload scope]); [done..|].
    by intros ? ? ? ?%list_elem_of_singleton.
  - intros [= <-]. unfold task_run.
    destruct (cg_tasks g !! k) as [[scope|name payload scope|name scope start|]|]; try done;
      (destruct (decode_call _ _); [by apply send_call_waiting|by apply done_waiting]).
  - intros [= <-]. unfold task_answered.
    destruct (cg_tasks g !! k) as [[scope|name payload scope|name scope start|]|]; try done.
    destruct reply as [r|]; [|by apply done_waiting]. cbn zeta.
    destruct start; [destruct (decode_call _ _)|]; [by apply send_call_waiting|by apply done_waiting..].
  - intros [= <-]. exact Hw.
Qed.

(** What an answer does to the connectors' transactions. *)
Lemma post_send_transaction s name scope payload i c' tx :
  st_connectors (apply_post_send s name scope payload) !! i = Some c' → kn_transaction_id c' = Some tx →
  (∃ c, st_connectors s !! i = Some c ∧ kn_transaction_id c = Some tx) ∨
  name = "StartTransaction" ∧ scoped_index s (sc_connector scope) = Some i ∧
    as_i64 (jget "transactionId" payload) = Some tx.
Proof.
  intros Hc' Htx. unfold apply_post_send in Hc'.
  destruct (String.eqb_spec name "BootNotification"); [by left; eexists|].
  destruct (scoped_index s (sc_connector scope)) as [j|]; [|by left; eexists].
  destruct (String.eqb_spec name "StartTransaction").
  - cbn [st_connectors st_with_connectors] in Hc'. destruct (decide (j = i)) as [->|Hne].
    + rewrite list_lookup_alter_eq in Hc'. destruct (st_connectors s !! i) as [c|]; [|done].
      injection Hc' as <-. right. by split_and!.
    + rewrite list_lookup_alter_ne in Hc' by done. left. by eexists.
  - destruct (String.eqb_spec name "StopTransaction"); [|by left; eexists].
    cbn [st_connectors st_with_connectors] in Hc'. destruct (decide (j = i)) as [->|Hne].
    + rewrite list_lookup_alter_eq in Hc'. destruct (st_connectors s !! i) as [c|]; [|done].
      injection Hc' as <-. done.
    + rewrite list_lookup_alter_ne in Hc' by done. left. by eexists.
Qed.

Lemma step_transaction e g g' i c' tx :
  waiting_sent g → charge_step e g = Ret g' →
  st_connectors (cg_state g') !! i = Some c' → kn_transaction_id c' = Some tx →
  (∃ c, st_connectors (cg_state g) !! i = Some c ∧ kn_transaction_id c = Some tx) ∨ grants e g i tx.
Proof.
  intros Hw Hstep Hc' Htx.
  destruct e as [now a|now|name payload scope|now k|now k reply|online connected]; cbn [charge_step] in Hstep.
  - left. destruct (handle_state now a g) as (ans & g1 & Heq & _ & Hall). rewrite Heq in Hstep.
    injection Hstep as ->. destruct (Forall2_lookup_r _ _ _ _ _ Hall Hc') as (c & Hc & Hs).
    exists c. split; [done|]. destruct Hs as (_ & _ & _ & _ & _ & [<-|[Hno _]]); [done|]. by rewrite Hno in Htx.
  - left. destruct (refresh_grows _ _ _ Hstep) as (Hs & _). rewrite Hs in Hc'. by eexists.
  - injection Hstep as <-. left. by eexists.
  - injection Hstep as <-. rewrite task_run_state in Hc'. left. by eexists.
  - injection Hstep as <-. unfold task_answered in Hc'.
    destruct (cg_tasks g !! k) as [[scope|name payload scope|name scope start|]|] eqn:Hk; try by left; eexists.
    destruct reply as [r|]; [|by left; eexists]. cbn zeta in Hc'.
    assert (st_connectors (apply_post_send (cg_state g) name scope (response_json r)) !! i = Some c') as Hpost.
    { destruct start; [destruct (decode_call _ _); [rewrite send_call_state in Hc'|]|]; exact Hc'. }
    destruct (post_send_transaction _ _ _ _ _ _ _ Hpost Htx) as [?|(-> & Hi & Hr)]; [by left|right].
    destruct (Hw _ _ _ _ Hk) as (a & Ha & Hn). by exists now, k, r, scope, start, a.
  - injection Hstep as <-. left. by eexists.
Qed.

(** C17: A connector has a transaction only because the management system granted
    it: in any run from a station without transactions, the transaction id a
    connector holds came in the answer to a StartTransaction that the station had
    sent for that connector. No call, a remote start included, sets it by itself. *)
Theorem transactions_are_granted es g g' i c (tx : Z) :
  waiting_sent g → (∀ i c, st_connectors (cg_state g) !! i = Some c → kn_transaction_id c = None) →
  charge_run es g = Ret g' →
  st_connectors (cg_state g') !! i = Some c → kn_transaction_id c = Some tx →
  ∃ es1 e es2 g1, es = es1 ++ e :: es2 ∧ charge_run es1 g = Ret g1 ∧ grants e g1 i tx.
Proof.
  intros Hw Hnone Hrun Hc Htx.
  assert (∀ es g, waiting_sent g → charge_run es g = Ret g' →
    (∃ c, st_connectors (cg_state g) !! i = Some c ∧ kn_transaction_id c = Some tx) ∨
    ∃ es1 e es2 g1, es = es1 ++ e :: es2 ∧ charge_run es1 g = Ret g1 ∧ grants e g1 i tx) as Hall.
  { clear es g Hw Hnone Hrun. intros es. induction es as [|e es IH]; intros g Hw; cbn [charge_run].
    - intros [= <-]. left. by eexists.
    - destruct (charge_step e g) as [g1|] eqn:Hstep; [|done]. cbn [mbind outcome_bind]. intros Hrun.
      destruct (IH g1) as [(c1 & Hc1 & Htx1)|(es1 & e' & es2 & g2 & -> & Hrun1 & Hg)].
      + by apply (step_waiting e g).
      + exact Hrun.
      + destruct (step_transaction _ _ _ _ _ _ Hw Hstep Hc1 Htx1) as [?|Hg]; [by left|].
        right. by exists [], e, es, g.
      + right. exists (e :: es1), e', es2, g2. split_and!; [done| |done].
        cbn [charge_run]. by rewrite Hstep. }
  destruct (Hall es g Hw Hrun) as [(c0 & Hc0 & Htx0)|?]; [|done].
  by rewrite (Hnone _ _ Hc0) in Htx0.
Qed.

Lemma scoped_index_position s id i :
  connector_position s id = Some i → scoped_index s (Some id) = Some i.
Proof. intros Hi. unfold scoped_index. cbn [mbind option_bind]. by rewrite Hi. Qed.

Lemma connector_find s id :
  connector s id = connector_position s id ≫= λ i, st_connectors s !! i.
Proof.
  unfold connector, connector_position. induction (st_connectors s) as [|c l IH]; [done|]. simpl.
  destruct (Z.eqb_spec (kn_id c) id) as [He|Hne]; [by rewrite decide_True|].
  rewrite decide_False, IH by done. by destruct (list_find _ l) as [[]|].
Qed.

Lemma connector_position_some s id i c :
  connector_position s id = Some i → st_connectors s !! i = Some c →
  scoped_connector s (Scope_for_connector id) = Some c.
Proof. intros Hi Hc. unfold scoped_connector. cbn. by rewrite connector_find, Hi; cbn; rewrite Hc. Qed.

(** A start leaves the positions of the ids. *)
Lemma connector_position_alter s id i j f :
  (∀ c, kn_id (f c) = kn_id c) →
  connector_position s id = Some i →
  connector_position (st_with_connectors s (alter f j (st_connectors s))) id = Some i.
Proof.
  intros Hf. unfold connector_position. cbn [st_connectors st_with_connectors].
  intros ([k x] & (Hx & Hp & Hbefore)%list_find_Some & ->)%fmap_Some. cbn [fst].
  assert (∀ m y, alter f j (st_connectors s) !! m = Some y →
    ∃ z, st_connectors s !! m = Some z ∧ kn_id y = kn_id z) as Hids.
  { intros m y. destruct (decide (j = m)) as [->|Hne].
    - rewrite list_lookup_alter_eq. intros (z & -> & Hz)%fmap_Some. exists z. by rewrite Hz.
    - rewrite list_lookup_alter_ne by done. by exists y. }
  destruct (lookup_lt_is_Some_2 (alter f j (st_connectors s)) k) as [y Hy].
  { rewrite length_alter. by eapply lookup_lt_Some. }
  apply fmap_Some. exists (k, y). split; [|done]. apply list_find_Some.
  destruct (Hids _ _ Hy) as (z & Hz & Hid). split_and!; [done|congruence|].
  intros m y' Hy' Hlt. destruct (Hids _ _ Hy') as (z' & Hz' & ->). by apply (Hbefore m z').
Qed.

Lemma remote_start_handled now a g id i :
  call16 a = Q_RemoteStartTransaction (Some id) →
  unknown_connector (request_json a) (cg_state g) = None →
  connector_position (cg_state g) id = Some i →
  ∃ ans, handle now a g =
      Ret (Ok ans, after_call now a (Ok ans) (cg_state g) (Some (Scope_for_connector id)) g) ∧
    rs_variant ans = "RemoteStartTransaction".
Proof.
  intros Hcall Hknown Hpos.
  exists (mkResponse "RemoteStartTransaction" (response_default "RemoteStartTransaction")).
  split; [|done]. unfold handle_call. rewrite Hknown. unfold cs_respond. rewrite Hcall.
  rewrite (expect_default_ok "RemoteStartTransaction") by discriminate. cbn [mbind outcome_bind].
  by rewrite (scoped_index_position _ _ _ Hpos).
Qed.

(** The StartTransaction of a remote start. *)
Lemma remote_start_sent now g k id i c start_call :
  cg_tasks g !! k = Some (TK_RemoteStart (Scope_for_connector id)) → cg_connected g = true →
  connector_position (cg_state g) id = Some i → st_connectors (cg_state g) !! i = Some c →
  decode_call (Version := v1_6_version) "StartTransaction"
    (J_Object [("connectorId", J_Int (kn_id c)); ("idTag", J_String (kn_rfid c));
               ("meterStart", J_Int (meter_wh c));
               ("timestamp", J_String (string_of (rfc3339 now)))]) = Ok start_call →
  ∃ g', task_run now g k = g' ∧ cg_state g' = cg_state g ∧ cg_connected g' = true ∧
    cg_sent g' = cg_sent g ++ [(k, start_call)] ∧
    cg_tasks g' !! k = Some (TK_Waiting "StartTransaction" (Scope_for_connector id) true).
Proof.
  intros Hk Hconn Hpos Hc Hdec. eexists. split; [done|]. unfold task_run. rewrite Hk. cbv zeta.
  assert (state_payload (Num := Num) now (cg_state g) "StartTransaction" (Scope_for_connector id) =
    J_Object [("connectorId", J_Int (kn_id c)); ("idTag", J_String (kn_rfid c));
      ("meterStart", J_Int (meter_wh c)); ("timestamp", J_String (string_of (rfc3339 now)))]) as ->.
  { unfold state_payload. by rewrite (connector_position_some _ _ _ _ Hpos Hc). }
  rewrite Hdec. unfold send_call. cbn [cg_record cg_connected]. rewrite Hconn.
  cbn [cg_task cg_send cg_state cg_connected cg_sent cg_tasks cg_record].
  rewrite list_lookup_insert_eq by (by eapply lookup_lt_Some).
  by rewrite (decode_variant _ _ _ Hdec).
Qed.

(** Its answer, and the report that follows. *)
Lemma start_granted now g k id i c (r : Response Resp) status_call :
  cg_tasks g !! k = Some (TK_Waiting "StartTransaction" (Scope_for_connector id) true) →
  cg_connected g = true →
  connector_position (cg_state g) id = Some i → st_connectors (cg_state g) !! i = Some c →
  let tx := as_i64 (jget "transactionId" (response_json r)) in
  decode_call (Version := v1_6_version) "StatusNotification"
    (J_Object [("connectorId", J_Int (kn_id c)); ("errorCode", J_String "NoError");
               ("status", J_String "Charging")]) = Ok status_call →
  let g' := task_answered (JE := JE) (VE := VE) now g k (Some r) in
  cg_state g' = st_with_connectors (cg_state g) (alter (start_transaction tx) i (st_connectors (cg_state g))) ∧
  cg_sent g' = cg_sent g ++ [(k, status_call)].
Proof.
  intros Hk Hconn Hpos Hc tx Hdec g'. unfold g', task_answered. rewrite Hk. cbv zeta.
  cbn [cg_state cg_with_state cg_record].
  set (s' := st_with_connectors (cg_state g) _).
  assert (apply_post_send (cg_state g) "StartTransaction" (Scope_for_connector id) (response_json r) = s') as ->.
  { unfold apply_post_send. cbn [sc_connector Scope_for_connector String.eqb Ascii.eqb Bool.eqb].
    by rewrite (scoped_index_position _ _ _ Hpos). }
  assert (state_payload (Num := Num) now s' "StatusNotification" (Scope_for_connector id) =
    J_Object [("connectorId", J_Int (kn_id c)); ("errorCode", J_String "NoError");
      ("status", J_String "Charging")]) as Hpayload.
  { unfold state_payload. erewrite (connector_position_some s' id i (start_transaction tx c)); [done| |].
    - by apply connector_position_alter.
    - cbn [s' st_connectors st_with_connectors]. by rewrite list_lookup_alter_eq, Hc. }
  rewrite Hpayload, Hdec.
  unfold send_call. cbn [cg_record cg_connected cg_with_state]. by rewrite Hconn.
Qed.

(** C18: The whole course of a remote start. When a connected station is asked to
    start a transaction on one of its connectors, it accepts, sends a
    StartTransaction for that connector with the connector's card, and only its
    answer changes the connector: it takes the transaction id of the answer, charges
    and counts a new session; the station then reports the status Charging, and no
    other connector has changed. *)
Theorem remote_start_course (now now' now'' : Z) a start_call status_call (r : Response Resp) g (id : Z) i c :
  call16 a = Q_RemoteStartTransaction (Some id) → cg_connected g = true →
  unknown_connector (request_json a) (cg_state g) = None →
  connector_position (cg_state g) id = Some i → st_connectors (cg_state g) !! i = Some c →
  let scope := Scope_for_connector id in
  let tx := as_i64 (jget "transactionId" (response_json r)) in
  decode_call (Version := v1_6_version) "StartTransaction"
    (J_Object [("connectorId", J_Int (kn_id c)); ("idTag", J_String (kn_rfid c));
               ("meterStart", J_Int (meter_wh c));
               ("timestamp", J_String (string_of (rfc3339 now')))]) = Ok start_call →
  decode_call (Version := v1_6_version) "StatusNotification"
    (J_Object [("connectorId", J_Int (kn_id c)); ("errorCode", J_String "NoError");
               ("status", J_String "Charging")]) = Ok status_call →
  let k := length (cg_tasks g) in
  ∃ ans g', charge_run [EV_Call now a; EV_Run now' k; EV_Reply now'' k (Some r)] g = Ret g' ∧
    handle now a g = Ret (Ok ans, after_call now a (Ok ans) (cg_state g) (Some scope) g) ∧
    rs_variant ans = "RemoteStartTransaction" ∧
    cg_sent g' = cg_sent g ++ [(k, start_call); (k, status_call)] ∧
    st_connectors (cg_state g') = alter (start_transaction tx) i (st_connectors (cg_state g)).
Proof.
  intros Hcall Hconn Hknown Hpos Hc scope tx Hstart Hstatus k.
  destruct (remote_start_handled now a g id i Hcall Hknown Hpos) as (ans & Hh & Hn).
  destruct (remote_start_sent now' (after_call now a (Ok ans) (cg_state g) (Some scope) g) k id i c start_call)
    as (g2 & Hg2 & Hs2 & Hconn2 & Hsent2 & Hk2); try done.
  { cbn [cg_tasks after_call]. rewrite lookup_app_r by done. unfold k. by rewrite Nat.sub_diag. }
  destruct (start_granted now'' g2 k id i c r status_call) as (Hs3 & Hsent3); try done;
    rewrite ?Hs2, ?Hconn2; try done.
  exists ans, (task_answered (JE := JE) (VE := VE) now'' g2 k (Some r)).
  split_and!; [|exact Hh|exact Hn| |].
  - cbn [charge_run charge_step]. rewrite Hh. cbn [mbind outcome_bind].
    fold scope. by rewrite Hg2.
  - rewrite Hsent3, Hsent2. cbn [cg_sent after_call]. by rewrite <-app_assoc.
  - by rewrite Hs3, Hs2.
Qed.

(** ** Connectors and their fields *)

Lemma field_of_name name fd : field_of name = Some fd → field_name fd = name.
Proof. unfold field_of. intros [_ H]%find_some. by apply String.eqb_eq. Qed.

(** What a field keeps of a value: numbers as floats, the id as the nearest
    integer. *)
Definition stored (fd : ConnField) (value : FieldValue (F := F)) : FieldValue :=
  match fd, field_num value with
  | (FD_Phases | FD_Status | FD_Rfid), _ => value
  | FD_Id, Some n => FV_Int (f64_to_i64 n)
  | _, Some n => FV_Float n
  | _, None => value
  end.

(** A field that a script or the operator sets is the field it reads back: the
    number, converted, or the text; every other field of the connector keeps its
    value. Reservations cannot be set. *)
Theorem field_roundtrip c name (value : FieldValue (F := F)) c' :
  set_field c name value = Some c' →
  (∃ fd, field_of name = Some fd ∧ get_field c' name = Some (stored fd value) ∧
    fd ≠ FD_ReservedRfid ∧ fd ≠ FD_ReservationId) ∧
  ∀ name', name' ≠ name → get_field c' name' = get_field c name'.
Proof.
  unfold set_field, get_field. destruct (field_of name) as [fd|] eqn:Hfd; [|done].
  cbn [mbind option_bind]. intros Hset. split.
  - exists fd. unfold stored. clear Hfd.
    destruct fd, value; cbn in Hset |- *; try done; injection Hset as <-; split_and!; done.
  - intros name' Hne. destruct (field_of name') as [fd'|] eqn:Hfd'; [|done].
    assert (fd' ≠ fd) as Hdiff.
    { intros ->. by rewrite <-(field_of_name _ _ Hfd), <-(field_of_name _ _ Hfd') in Hne. }
    clear Hfd Hfd' Hne. cbn [mbind option_bind].
    destruct fd, value; cbn in Hset; try done; injection Hset as <-; by destruct fd'.
Qed.

Lemma insert_by_id_perm c l : insert_by_id c l ≡ₚ c :: l.
Proof.
  induction l as [|x l IH]; [done|]. cbn [insert_by_id]. destruct (kn_id c <? kn_id x); [done|].
  rewrite IH. apply Permutation_swap.
Qed.

Definition by_id c c' : Prop := kn_id c <= kn_id c'.

Lemma insert_by_id_sorted c l : Sorted by_id l → Sorted by_id (insert_by_id c l).
Proof.
  induction 1 as [|x l Hs IH Hhd]; [by repeat constructor|]. cbn [insert_by_id].
  destruct (Z.ltb_spec (kn_id c) (kn_id x)) as [Hlt|Hge].
  - repeat constructor; [done|done|]. unfold by_id. lia.
  - constructor; [done|]. destruct l as [|y l]; [by constructor|]. cbn [insert_by_id].
    inversion_clear Hhd. destruct (kn_id c <? kn_id y); by constructor.
Qed.

Lemma sort_by_id_spec l : sort_by_id l ≡ₚ l ∧ Sorted by_id (sort_by_id l).
Proof.
  unfold sort_by_id.
  assert (∀ acc, Sorted by_id acc →
    foldl (λ acc c, insert_by_id c acc) acc l ≡ₚ acc ++ l ∧
    Sorted by_id (foldl (λ acc c, insert_by_id c acc) acc l)) as H; [|by apply (H [])].
  induction l as [|c l IH]; intros acc Hacc; simpl; [by rewrite app_nil_r|].
  destruct (IH (insert_by_id c acc)) as [Hp Hs]; [by apply insert_by_id_sorted|].
  split; [|done]. rewrite Hp, insert_by_id_perm. simpl. apply Permutation_middle.
Qed.

(** A connector is added exactly when its id is new, and the list then holds the
    old connectors as they were and the new one, in the order of their ids, each id
    once. *)
Theorem add_connector_sorted s (id : Z) :
  NoDup (kn_id <$> st_connectors s) →
  let '(added, s') := add_connector id s in
  (added = true ↔ id ∉ kn_id <$> st_connectors s) ∧
  NoDup (kn_id <$> st_connectors s') ∧
  if added
  then st_connectors s' ≡ₚ Connector_new id :: st_connectors s ∧ Sorted by_id (st_connectors s')
  else s' = s.
Proof.
  intros Hnd. unfold add_connector.
  destruct (existsb (λ c, kn_id c =? id) (st_connectors s)) eqn:Hex.
  - split_and!; [|done|done]. split; [done|]. intros Hno. destruct Hno.
    apply existsb_exists in Hex as (c & Hc & Heq). apply Z.eqb_eq in Heq as <-.
    apply list_elem_of_fmap. exists c. split; [done|by apply list_elem_of_In].
  - assert (id ∉ kn_id <$> st_connectors s) as Hno.
    { intros (c & -> & Hc)%list_elem_of_fmap.
      assert (existsb (λ c', kn_id c' =? kn_id c) (st_connectors s) = true) as Ht; [|by rewrite Ht in Hex].
      apply existsb_exists. exists c. split; [by apply list_elem_of_In|apply Z.eqb_refl]. }
    destruct (sort_by_id_spec (st_connectors s ++ [Connector_new id])) as [Hp Hs].
    assert (st_connectors s ++ [Connector_new id] ≡ₚ Connector_new id :: st_connectors s) as Hp'
      by (symmetry; apply Permutation_cons_append).
    cbn [st_connectors st_with_connectors]. pose proof (Permutation_trans Hp Hp') as Hp2. split_and!; [done| |done|done].
    rewrite Hp2. cbn [fmap list_fmap]. by constructor.
Qed.

End props.

(** ** A station whose structs are their JSON *)

Module Demo.
#[export] Instance demo_f64 : F64 Z := {
  f64_of_int n := n; f64_to_i64 f := f; f64_mul := Z.mul; f64_div := Z.div;
  f64_fixed _ f := int_text f; f64_display := int_text; f64_parse := parse_i64
}.
#[export] Instance demo_number : JsonNumber Z unit := { num_as_f64 _ := 0; num_as_u64 _ := None }.

#[export] Instance demo_messages : Messages unit unit unit (Json unit) (Json unit) := {
  request_from_value _ j := Ok j; request_to_value _ j := Ok j; request_validate _ _ := Ok tt;
  request_default _ := J_Object []; response_from_value _ j := Ok j; response_to_value _ j := Ok j;
  response_default _ := J_Object []
}.

Definition text (key : string) (j : Json unit) : string := default EmptyString (as_str (jget key j)).
Definition number (key : string) (j : Json unit) : Z := default 0 (as_i64 (jget key j)).

#[export] Instance demo_ocpp16 : Ocpp16 (Req := Json unit) (Resp := Json unit) := {
  gc_key j := match as_str (jget "key" j) with Some k => Some [k] | None => None end;
  cc_key := text "key"; cc_value := text "value";
  cp_connector_id := number "connectorId"; rn_connector_id := number "connectorId";
  rn_id_tag := text "idTag"; rn_reservation_id := number "reservationId";
  cr_reservation_id := number "reservationId"; ca_connector_id := number "connectorId";
  ca_kind j := if String.eqb (text "type" j) "Inoperative" then AV_Inoperative else AV_Operative;
  rs_connector_id j := as_i64 (jget "connectorId" j); rt_transaction_id := number "transactionId";
  cl_connector_id j := as_i64 (jget "connectorId" j); uc_connector_id := number "connectorId";
  GetConfigurationResponse _ _ := J_Object [];
  ChangeConfigurationResponse status :=
    J_Object [("status", J_String match status with CFS_Accepted => "Accepted" | CFS_Rejected => "Rejected" end)];
  ResetAccepted := J_Object [("status", J_String "Accepted")];
  SetChargingProfileRejected := J_Object [("status", J_String "Rejected")]
}.

(** The default station, with a second connector, connected. *)
Definition station_state : CsState Z := (add_connector 2 CsState_default).2.
Definition station : ChargingStation (F := Z) (Num := unit) (Req := Json unit) :=
  mkChargingStation station_state true true (mkMessageLog 0 []) [] [] (ticks_at station_state 0).

Definition call (name : string) (fields : list (string * Json unit)) : Action (Json unit) :=
  mkAction name (J_Object fields).
Definition reply (name : string) (fields : list (string * Json unit)) : Response (Json unit) :=
  mkResponse name (J_Object fields).
End Demo.
Import Demo.

Lemma add_connector_sorted_witness :
  NoDup (kn_id <$> st_connectors station_state) ∧
  let '(added, s') := add_connector 1 station_state in
  (added = true ↔ 1 ∉ kn_id <$> st_connectors station_state) ∧
  NoDup (kn_id <$> st_connectors s') ∧
  if added
  then st_connectors s' ≡ₚ Connector_new 1 :: st_connectors station_state ∧ Sorted by_id (st_connectors s')
  else s' = station_state.
Proof.
  assert (NoDup (kn_id <$> st_connectors station_state)) as H
    by (apply (bool_decide_eq_true_1 _); vm_compute; reflexivity).
  split; [exact H|]. exact (add_connector_sorted station_state 1 H).
Defined.

Lemma field_roundtrip_witness :
  let c := Connector_new (F := Z) 1 in
  let c' := kn_with_meter c (mt_set FD_Voltage 240 (kn_meter c)) in
  set_field c "Voltage" (FV_Int 240) = Some c' ∧
  (∃ fd, field_of "Voltage" = Some fd ∧ get_field c' "Voltage" = Some (stored fd (FV_Int 240)) ∧
    fd ≠ FD_ReservedRfid ∧ fd ≠ FD_ReservationId) ∧
  ∀ name', name' ≠ "Voltage" → get_field c' name' = get_field c name'.
Proof.
  intros c c'. assert (set_field c "Voltage" (FV_Int 240) = Some c') as H by reflexivity.
  split; [exact H|]. exact (field_roundtrip c "Voltage" (FV_Int 240) c' H).
Defined.

Lemma automatic_cadence_witness :
  10 * heartbeat_secs station_state < 2 ^ 32 ∧
  refreshes [3; 5] station =
    Ret (cg_spawn (cg_with_ticks station (ticks_at station_state (0 + Z.of_nat (length [3; 5]))))
           (due_tasks station_state 0 [3; 5])).
Proof.
  split; [vm_compute; reflexivity|].
  apply (automatic_cadence [3; 5] 0 station);
    [reflexivity|reflexivity|vm_compute; reflexivity|lia|vm_compute; reflexivity].
Defined.

Definition reserved_station : ChargingStation (F := Z) (Num := unit) (Req := Json unit) :=
  cg_with_state station
    (alter_connector 2 (λ c, kn_with_reservation c (mkReservation (Some "CARD") (Some 9))) station_state).

Definition demo_calls : list (Z * Action (Json unit)) :=
  [(5, call "Reset" []); (6, call "CancelReservation" [("reservationId", J_Int 8)])].

Lemma reservation_persists_witness :
  ∃ (c : Connector Z) answers g', handle_calls demo_calls reserved_station = Ret (answers, g') ∧
    length answers = length demo_calls ∧
    ∃ c', st_connectors (cg_state g') !! 1%nat = Some c' ∧ kn_id c' = kn_id c ∧
      kn_reservation c' = kn_reservation c.
Proof.
  pose (c := kn_with_reservation (Connector_new (F := Z) 2) (mkReservation (Some "CARD") (Some 9))).
  exists c. apply (reservation_persists demo_calls reserved_station 1 c 9); [reflexivity|reflexivity|].
  intros now a Hin.
  assert (call16 a = Q_Reset ∨ call16 a = Q_CancelReservation 8) as [-> | ->]; [|by split..].
  unfold demo_calls in Hin. apply elem_of_cons in Hin as [Heq|Hin].
  - left. injection Heq as _ ->. reflexivity.
  - apply list_elem_of_singleton in Hin. right. injection Hin as _ ->. reflexivity.
Defined.

Definition demo_start : Action (Json unit) := call "RemoteStartTransaction" [("connectorId", J_Int 2)].
Definition demo_granted : Response (Json unit) := reply "StartTransaction" [("transactionId", J_Int 7)].
Definition demo_events : list (ChargeEvent (Num := unit) (Req := Json unit) (Resp := Json unit)) :=
  [EV_Call 10 demo_start; EV_Run 20 0; EV_Reply 30 0 (Some demo_granted)].

Lemma transactions_are_granted_witness :
  ∃ g' c, charge_run (JE := unit) (VE := unit) demo_events station = Ret g' ∧
    st_connectors (cg_state g') !! 1%nat = Some c ∧ kn_transaction_id c = Some 7 ∧
    ∃ es1 e es2 g1, demo_events = es1 ++ e :: es2 ∧
      charge_run (JE := unit) (VE := unit) es1 station = Ret g1 ∧
      grants (JE := unit) (VE := unit) e g1 1 7.
Proof.
  eexists _, _. split; [vm_compute; reflexivity|]. split; [vm_compute; reflexivity|].
  split; [vm_compute; reflexivity|].
  eapply (transactions_are_granted demo_events station _ 1 _ 7).
  - intros k name scope start Hk. discriminate Hk.
  - intros [|[|i]] c Hc; [injection Hc as <-; reflexivity..|]. discriminate Hc.
  - vm_compute. reflexivity.
  - vm_compute. reflexivity.
  - vm_compute. reflexivity.
Defined.

Lemma remote_start_course_witness :
  ∃ ans g', charge_run (JE := unit) (VE := unit) demo_events station = Ret g' ∧
    handle_call (JE := unit) (VE := unit) 10 demo_start station =
      Ret (Ok ans, after_call (JE := unit) (VE := unit) 10 demo_start (Ok ans) station_state
        (Some (Scope_for_connector 2)) station) ∧
    rs_variant ans = "RemoteStartTransaction" ∧
    cg_sent g' =
      [(0%nat, call "StartTransaction"
          [("connectorId", J_Int 2); ("idTag", J_String "DEADBEEF"); ("meterStart", J_Int 0);
           ("timestamp", J_String (string_of (rfc3339 20)))]);
       (0%nat, call "StatusNotification"
          [("connectorId", J_Int 2); ("errorCode", J_String "NoError"); ("status", J_String "Charging")])] ∧
    st_connectors (cg_state g') = alter (start_transaction (as_i64 (jget "transactionId" (response_json (JE := unit) (VE := unit) demo_granted))))
        1%nat (st_connectors station_state).
Proof.
  apply (remote_start_course 10 20 30 demo_start
    (call "StartTransaction"
          [("connectorId", J_Int 2); ("idTag", J_String "DEADBEEF"); ("meterStart", J_Int 0);
           ("timestamp", J_String (string_of (rfc3339 20)))])
    (call "StatusNotification"
          [("connectorId", J_Int 2); ("errorCode", J_String "NoError"); ("status", J_String "Charging")])
    demo_granted station 2 1 (Connector_new 2)); reflexivity.
Defined.
