(* ===== verification/Station2.v ===== *)
(** * The simulated charging station (OCPP 2.0.1 and 2.1)

    Models [ferrowl/src/module/ocpp/client/] for the versions 2.x, which share
    one state ([v2_0_1/state.rs]) and the functions of [v2_common.rs]: what a
    station answers ([handler.rs], [v2_0_1/inbound.rs] and its copy for 2.1),
    how its own calls are built, and what their answers do. A transaction is
    started before its call is sent; the answer confirms it, an error takes it
    back. Meters, limits, reservations and variables are those of 1.6. *)

From stdpp Require Import base list numbers strings.
From S2P Require Import Prelude IntText Text OcppMessage OcppConn OcppHandshake OcppActions Calendar OcppWire Station.

Local Open Scope string_scope.
Local Open Scope list_scope.
Local Open Scope Z_scope.

(** A purpose of a charging profile; 2.1 has more of them. *)
Inductive Purpose := PP_TxDefault | PP_StationMax | PP_External | PP_Tx | PP_Other.

(** [purpose_str] *)
Definition purpose_str (p : Purpose) : string :=
  match p with
  | PP_TxDefault => "TxDefaultProfile"
  | PP_StationMax => "ChargingStationMaxProfile"
  | PP_External => "ChargingStationExternalConstraints"
  | PP_Tx | PP_Other => "TxProfile"
  end.

(** The versions 2.x. *)
Inductive Version2 := V2_0 | V2_1x.

Definition version2 (v : Version2) : OcppVersion :=
  match v with V2_0 => V2_0_1 | V2_1x => V2_1 end.

Section station.
Context {F Num JE VE Req Resp : Type}.
Context `{!F64 F, !JsonNumber F Num, !Messages Num JE VE Req Resp}.

(** ** State *)

Record Limits2 := mkLimits2 {
  l2_tx : Limit F; l2_default : Limit F; l2_max : Limit F; l2_external : Limit F
}.

(** [ConnectorState] *)
Record Evse := mkEvse {
  ev_evse_id : Z;
  ev_connector_id : Z;
  ev_meter : Meter F;
  ev_status : string;
  ev_rfid : string;
  ev_transaction_id : option string;
  ev_tx_confirmed : bool;
  ev_seq_no : Z;
  ev_tx_counter : Z;
  ev_limits : Limits2;
  ev_reservation : Reservation
}.
Implicit Types (c : Evse).

Definition ev_with_ids c (evse id : Z) : Evse :=
  mkEvse evse id (ev_meter c) (ev_status c) (ev_rfid c) (ev_transaction_id c) (ev_tx_confirmed c)
    (ev_seq_no c) (ev_tx_counter c) (ev_limits c) (ev_reservation c).
Definition ev_with_meter c (m : Meter F) : Evse :=
  mkEvse (ev_evse_id c) (ev_connector_id c) m (ev_status c) (ev_rfid c) (ev_transaction_id c)
    (ev_tx_confirmed c) (ev_seq_no c) (ev_tx_counter c) (ev_limits c) (ev_reservation c).
Definition ev_with_status c (status : string) : Evse :=
  mkEvse (ev_evse_id c) (ev_connector_id c) (ev_meter c) status (ev_rfid c) (ev_transaction_id c)
    (ev_tx_confirmed c) (ev_seq_no c) (ev_tx_counter c) (ev_limits c) (ev_reservation c).
Definition ev_with_rfid c (rfid : string) : Evse :=
  mkEvse (ev_evse_id c) (ev_connector_id c) (ev_meter c) (ev_status c) rfid (ev_transaction_id c)
    (ev_tx_confirmed c) (ev_seq_no c) (ev_tx_counter c) (ev_limits c) (ev_reservation c).
Definition ev_with_transaction c (tx : option string) : Evse :=
  mkEvse (ev_evse_id c) (ev_connector_id c) (ev_meter c) (ev_status c) (ev_rfid c) tx
    (ev_tx_confirmed c) (ev_seq_no c) (ev_tx_counter c) (ev_limits c) (ev_reservation c).
Definition ev_with_confirmed c (confirmed : bool) : Evse :=
  mkEvse (ev_evse_id c) (ev_connector_id c) (ev_meter c) (ev_status c) (ev_rfid c)
    (ev_transaction_id c) confirmed (ev_seq_no c) (ev_tx_counter c) (ev_limits c) (ev_reservation c).
Definition ev_with_counters c (seq_no tx_counter : Z) : Evse :=
  mkEvse (ev_evse_id c) (ev_connector_id c) (ev_meter c) (ev_status c) (ev_rfid c)
    (ev_transaction_id c) (ev_tx_confirmed c) seq_no tx_counter (ev_limits c) (ev_reservation c).
Definition ev_with_limits c (l : Limits2) : Evse :=
  mkEvse (ev_evse_id c) (ev_connector_id c) (ev_meter c) (ev_status c) (ev_rfid c)
    (ev_transaction_id c) (ev_tx_confirmed c) (ev_seq_no c) (ev_tx_counter c) l (ev_reservation c).
Definition ev_with_reservation c (r : Reservation) : Evse :=
  mkEvse (ev_evse_id c) (ev_connector_id c) (ev_meter c) (ev_status c) (ev_rfid c)
    (ev_transaction_id c) (ev_tx_confirmed c) (ev_seq_no c) (ev_tx_counter c) (ev_limits c) r.

(** [ConnectorState::new] *)
Definition Evse_new (evse connector : Z) : Evse :=
  let none := mkLimit None "A" in
  mkEvse evse connector
    (mkMeter "L1,L2,L3" (f64_of_int 230) zero zero zero zero (f64_of_int 50) zero zero zero
       (f64_of_int 25))
    "Available" "DEADBEEF" None false 0 0 (mkLimits2 none none none none) no_reservation.

(** [tx_counter] has 64 bits, [seq_no] 32 with a sign. *)
Definition counter_succ (n : Z) : Outcome Z := if n + 1 <? 2 ^ 64 then Ret (n + 1) else Panic.
Definition seq_succ (n : Z) : Outcome Z := if n + 1 <? 2 ^ 31 then Ret (n + 1) else Panic.

Definition tx_id (connector counter : Z) : string :=
  "ferrowl-tx-" ++ int_text connector ++ "-" ++ int_text counter.

(** [start_tx]: the id, and the connector with it. *)
Definition start_tx c : Outcome (string * Evse) :=
  let id := tx_id (ev_connector_id c) (ev_tx_counter c) in
  counter ← counter_succ (ev_tx_counter c);
  Ret (id, ev_with_confirmed (ev_with_transaction (ev_with_counters c 0 counter) (Some id)) false).

(** [next_seq] *)
Definition next_seq c : Outcome (Z * Evse) :=
  n ← seq_succ (ev_seq_no c); Ret (ev_seq_no c, ev_with_counters c n (ev_tx_counter c)).

(** The boot identity: model, vendor, firmware version and serial number. *)
Record Identity2 := mkIdentity2 {
  i2_model : string; i2_vendor : string; i2_firmware_version : string; i2_serial_number : string
}.

(** [CsState] *)
Record CsState2 := mkCsState2 {
  s2_identity : Identity2;
  s2_reservation : Reservation;
  s2_config : list ConfigKey;
  s2_heartbeat_interval_secs : option Z;
  s2_connectors : list Evse
}.
Implicit Types (s : CsState2).

Definition s2_with_reservation s (r : Reservation) : CsState2 :=
  mkCsState2 (s2_identity s) r (s2_config s) (s2_heartbeat_interval_secs s) (s2_connectors s).
Definition s2_with_config s (config : list ConfigKey) : CsState2 :=
  mkCsState2 (s2_identity s) (s2_reservation s) config (s2_heartbeat_interval_secs s) (s2_connectors s).
Definition s2_with_interval s (interval : option Z) : CsState2 :=
  mkCsState2 (s2_identity s) (s2_reservation s) (s2_config s) interval (s2_connectors s).
Definition s2_with_connectors s (l : list Evse) : CsState2 :=
  mkCsState2 (s2_identity s) (s2_reservation s) (s2_config s) (s2_heartbeat_interval_secs s) l.

Definition default_variables : list ConfigKey :=
  [mkConfigKey "AuthCtrlr.Enabled" "true" false;
   mkConfigKey "EVSE.AvailabilityState" "Available" true;
   mkConfigKey "OCPPCommCtrlr.HeartbeatInterval" "300" false;
   mkConfigKey "OCPPCommCtrlr.WebSocketPingInterval" "60" false;
   mkConfigKey "SampledDataCtrlr.TxUpdatedInterval" "60" false;
   mkConfigKey "SampledDataCtrlr.TxStartedMeasurands" "Energy.Active.Import.Register" false;
   mkConfigKey "AlignedDataCtrlr.Interval" "0" false;
   mkConfigKey "SmartChargingCtrlr.Enabled" "true" false;
   mkConfigKey "SmartChargingCtrlr.ProfileStackLevel" "10" true;
   mkConfigKey "SmartChargingCtrlr.ChargingProfileMaxStackLevel" "10" true;
   mkConfigKey "ChargeProfileMaxStackLevel" "10" false].

Definition CsState2_default : CsState2 :=
  mkCsState2 (mkIdentity2 "Ferrowl-EVSE" "Ferrowl" "1.0.0" "FERROWL-0001") no_reservation
    default_variables None [Evse_new 1 1].

(** [connector_by_evse], and the position of an EVSE's connector. *)
Definition on_evse (evse : Z) c : bool := ev_evse_id c =? evse.
Definition connector_by_evse s (evse : Z) : option Evse := find (on_evse evse) (s2_connectors s).
Definition evse_position s (evse : Z) : option nat :=
  fst <$> list_find (λ c, on_evse evse c = true) (s2_connectors s).

(** The first connector for which [p] holds is altered. *)
Fixpoint alter_where (p : Evse → bool) (f : Evse → Evse) (l : list Evse) : list Evse :=
  match l with
  | [] => []
  | c :: l' => if p c then f c :: l' else c :: alter_where p f l'
  end.

(** [connector_mut_by_evse] and an update. *)
Definition alter_evse (evse : Z) (f : Evse → Evse) s : CsState2 :=
  s2_with_connectors s (alter_where (on_evse evse) f (s2_connectors s)).

(** By EVSE, then by connector. *)
Definition evse_lt c c' : bool :=
  (ev_evse_id c <? ev_evse_id c') ||
  (ev_evse_id c =? ev_evse_id c') && (ev_connector_id c <? ev_connector_id c').

(** [sort_by_key], stable. *)
Fixpoint insert_evse c (l : list Evse) : list Evse :=
  match l with
  | [] => [c]
  | c' :: l' => if evse_lt c c' then c :: l else c' :: insert_evse c l'
  end.
Definition sort_evses (l : list Evse) : list Evse := foldl (λ acc c, insert_evse c acc) [] l.

Definition add_evse (evse connector : Z) s : bool * CsState2 :=
  if existsb (λ c, ev_connector_id c =? connector) (s2_connectors s) then (false, s)
  else (true, s2_with_connectors s (sort_evses (s2_connectors s ++ [Evse_new evse connector]))).

(** [connector_index]: the connector on the scope's EVSE, else the first. *)
Definition connector_index s (scope : Scope) : option nat :=
  match sc_evse scope ≫= evse_position s with
  | Some i => Some i
  | None => match s2_connectors s with [] => None | _ => Some O end
  end.

(** [connector_index_for_state]: no fallback. *)
Definition connector_index_for_state s (scope : Scope) : option nat :=
  sc_evse scope ≫= evse_position s.

(** The connector a payload is built from. *)
Definition payload_connector s (scope : Scope) : option Evse :=
  match sc_evse scope ≫= connector_by_evse s with
  | Some c => Some c
  | None => head (s2_connectors s)
  end.

(** ** Calls of the management system *)

Inductive GetVariableStatus := GV_Accepted | GV_UnknownVariable.

(** The fields of the requests the handler reads, and the responses it builds;
    a result of a variable repeats what its request says of it. A limit is the
    text of a decimal, with the unit of its schedule. *)
Class Ocpp2 := {
  gv_names : Req → list string;
  sv_data : Req → list (string * string);
  cp2_evse : Req → Z;
  cp2_stack : Req → Z;
  cp2_purpose : Req → Purpose;
  cp2_limit : Req → option (string * string);
  rn2_evse : Req → option Z;
  rn2_token : Req → string;
  rn2_id : Req → Z;
  cr2_reservation_id : Req → Z;
  ca2_evse : Req → option Z;
  ca2_kind : Req → AvailabilityType;
  rs2_evse : Req → option Z;
  rt2_transaction_id : Req → string;
  cl2_purpose : Req → option Purpose;
  cl2_evse : Req → option Z;
  uc2_evse : Req → Z;
  GetVariablesResponse : Req → list (GetVariableStatus * option string) → Resp;
  SetVariablesResponse : Req → list ConfigurationStatus → Resp;
  ResetAccepted2 : Resp;
  SetChargingProfileRejected2 : Resp;
  json_f64 : F → Json Num
}.
Context `{!Ocpp2}.

(** An action as the handler matches on it. *)
Inductive Call2 :=
| R_GetVariables (r : Req)
| R_SetVariables (r : Req)
| R_Reset
| R_SetChargingProfile (r : Req)
| R_ReserveNow (evse : option Z) (token : string) (id : Z)
| R_CancelReservation (id : Z)
| R_ChangeAvailability (evse : option Z) (kind : AvailabilityType)
| R_RequestStart (evse : option Z)
| R_RequestStop (tx : string)
| R_ClearChargingProfile (purpose : option Purpose) (evse : option Z)
| R_UnlockConnector (evse : Z)
| R_Other (name : string).

Abbreviation Act := (Action Req).
Abbreviation Answer := (Result (Response Resp) (CallError Num)).

Definition call2 (a : Act) : Call2 :=
  let name := ac_variant a in
  let req := ac_request a in
  if String.eqb name "GetVariables" then R_GetVariables req
  else if String.eqb name "SetVariables" then R_SetVariables req
  else if String.eqb name "Reset" then R_Reset
  else if String.eqb name "SetChargingProfile" then R_SetChargingProfile req
  else if String.eqb name "ReserveNow" then R_ReserveNow (rn2_evse req) (rn2_token req) (rn2_id req)
  else if String.eqb name "CancelReservation" then R_CancelReservation (cr2_reservation_id req)
  else if String.eqb name "ChangeAvailability" then R_ChangeAvailability (ca2_evse req) (ca2_kind req)
  else if String.eqb name "RequestStartTransaction" then R_RequestStart (rs2_evse req)
  else if String.eqb name "RequestStopTransaction" then R_RequestStop (rt2_transaction_id req)
  else if String.eqb name "ClearChargingProfile" then
    R_ClearChargingProfile (cl2_purpose req) (cl2_evse req)
  else if String.eqb name "UnlockConnector" then R_UnlockConnector (uc2_evse req)
  else R_Other name.

(** The methods of the version, and the JSON of its messages. *)
Definition version_methods (v : Version2) : Version Num JE VE Act (Response Resp) :=
  generated_version (version2 v).

Definition request_json2 (v : Version2) (a : Act) : Json Num :=
  encode_action_or_log (H := version_methods v) a.
Definition response_json2 (v : Version2) (r : Response Resp) : Json Num :=
  encode_response_or_log (H := version_methods v) r.

(** [inbound_scope], [unknown_evse] *)
Definition inbound_scope2 (request : Json Num) : Scope :=
  match evse_id request with Some e => Scope_for_evse e None | None => Scope_CS end.

Definition unknown_evse (request : Json Num) s : option Z :=
  e ← evse_id request;
  if (e =? 0) || existsb (on_evse e) (s2_connectors s) then None else Some e.

Definition clear_limits (purpose : option string) c : Evse :=
  let l := ev_limits c in
  let tx := unlimited (l2_tx l) in
  let dflt := unlimited (l2_default l) in
  let max := unlimited (l2_max l) in
  let ext := unlimited (l2_external l) in
  ev_with_limits c
    (match purpose with
     | Some p =>
         if String.eqb p "TxProfile" then mkLimits2 tx (l2_default l) (l2_max l) (l2_external l)
         else if String.eqb p "TxDefaultProfile" then
           mkLimits2 (l2_tx l) dflt (l2_max l) (l2_external l)
         else if String.eqb p "ChargingStationMaxProfile" then
           mkLimits2 (l2_tx l) (l2_default l) max (l2_external l)
         else if String.eqb p "ChargingStationExternalConstraints" then
           mkLimits2 (l2_tx l) (l2_default l) (l2_max l) ext
         else l
     | None => mkLimits2 tx dflt max ext
     end).

(** [limit = None]: the unit stays. *)
Definition clear_tx_limit c : Evse :=
  let l := ev_limits c in
  ev_with_limits c (mkLimits2 (unlimited (l2_tx l)) (l2_default l) (l2_max l) (l2_external l)).

(** [default_response(...).expect(...)] *)
Definition expect_default2 (v : Version2) (name : string) : Outcome Answer :=
  match default_response (version2 v) name with Some r => Ret (Ok r) | None => Panic end.

Definition get_variables (r : Req) s : Resp :=
  GetVariablesResponse r
    ((λ name,
        match find (λ k, String.eqb (ck_key k) name) (s2_config s) with
        | Some k => (GV_Accepted, Some (ck_value k))
        | None => (GV_UnknownVariable, None)
        end) <$> gv_names r).

(** The variables are set one after the other. *)
Fixpoint set_variables (data : list (string * string)) (config : list ConfigKey)
  : list ConfigurationStatus * list ConfigKey :=
  match data with
  | [] => ([], config)
  | (key, value) :: data' =>
      let '(status, config) := change_config key value config in
      let '(statuses, config) := set_variables data' config in
      (status :: statuses, config)
  end.

(** The effect of a reset on a connector. *)
Definition reset_evse c : Evse :=
  ev_with_meter (ev_with_transaction (ev_with_status c "Available") None)
    (mt_with_session_energy (ev_meter c) zero).

Definition max_stack_level2 s : option Z :=
  k ← find (λ k, String.eqb (ck_key k) "ChargeProfileMaxStackLevel") (s2_config s);
  parse_i64 (ck_value k).

Definition set_limit2 (purpose : Purpose) (limit : F) (unit : string) c : Evse :=
  let l := ev_limits c in
  let new := mkLimit (Some limit) unit in
  ev_with_limits c
    (match purpose with
     | PP_TxDefault => mkLimits2 (l2_tx l) new (l2_max l) (l2_external l)
     | PP_StationMax => mkLimits2 (l2_tx l) (l2_default l) new (l2_external l)
     | PP_External => mkLimits2 (l2_tx l) (l2_default l) (l2_max l) new
     | PP_Tx | PP_Other => mkLimits2 new (l2_default l) (l2_max l) (l2_external l)
     end).

Definition set_charging_profile2 (v : Version2) (r : Req) s : Outcome (Answer * CsState2) :=
  if (match max_stack_level2 s with Some max => max <? cp2_stack r | None => false end)
  then Ret (Ok (mkResponse "SetChargingProfile" SetChargingProfileRejected2), s)
  else
    let s :=
      match cp2_limit r with
      | Some (text, unit) =>
          let limit := default zero (f64_parse text) in
          match connector_index s (Scope_for_evse (cp2_evse r) None) with
          | Some i =>
              s2_with_connectors s (alter (set_limit2 (cp2_purpose r) limit unit) i (s2_connectors s))
          | None => s
          end
      | None => s
      end in
    r ← expect_default2 v "SetChargingProfile"; Ret (r, s).

Definition cancel_reservation2 (id : Z) s : CsState2 :=
  if bool_decide (rv_id (s2_reservation s) = Some id) then s2_with_reservation s no_reservation
  else s2_with_connectors s
         (alter_where (λ c, bool_decide (rv_id (ev_reservation c) = Some id))
            (λ c, ev_with_reservation c no_reservation) (s2_connectors s)).

(** [filter(|&e| e != 0)] *)
Definition nonzero (evse : option Z) : option Z := e ← evse; if e =? 0 then None else Some e.

(** A change of one EVSE, or of all of them. *)
Definition alter_evses (evse : option Z) (f : Evse → Evse) s : CsState2 :=
  match nonzero evse with
  | Some e => alter_evse e f s
  | None => s2_with_connectors s (f <$> s2_connectors s)
  end.

(** The effect of a stop requested by the management system. *)
Definition stop_evse c : Evse :=
  ev_with_status (clear_tx_limit (ev_with_transaction c None)) "Available".

Definition runs_tx (tx : string) c : bool := bool_decide (ev_transaction_id c = Some tx).

(** [Inbound::respond]: the answer, the state after it, and the scope of a
    remote start to be spawned. *)
Definition respond2 (v : Version2) s (a : Act) : Outcome (Answer * CsState2 * option Scope) :=
  match call2 a with
  | R_GetVariables r => Ret (Ok (mkResponse "GetVariables" (get_variables r s)), s, None)
  | R_SetVariables r =>
      let '(statuses, config) := set_variables (sv_data r) (s2_config s) in
      Ret (Ok (mkResponse "SetVariables" (SetVariablesResponse r statuses)), s2_with_config s config,
           None)
  | R_Reset =>
      Ret (Ok (mkResponse "Reset" ResetAccepted2),
           s2_with_connectors s (reset_evse <$> s2_connectors s), None)
  | R_SetChargingProfile r => p ← set_charging_profile2 v r s; Ret (p, None)
  | R_ReserveNow evse token id =>
      let r := mkReservation (Some token) (Some id) in
      let s := match nonzero evse with
               | Some e => alter_evse e (λ c, ev_with_reservation c r) s
               | None => s2_with_reservation s r
               end in
      r ← expect_default2 v "ReserveNow"; Ret (r, s, None)
  | R_CancelReservation id =>
      r ← expect_default2 v "CancelReservation"; Ret (r, cancel_reservation2 id s, None)
  | R_ChangeAvailability evse kind =>
      let s := alter_evses evse (λ c, ev_with_status c (availability_status kind)) s in
      r ← expect_default2 v "ChangeAvailability"; Ret (r, s, None)
  | R_RequestStart evse =>
      let scope := match nonzero evse with Some e => Scope_for_evse e None | None => Scope_CS end in
      r ← expect_default2 v "RequestStartTransaction";
      Ret (r, s, match connector_index s scope with Some _ => Some scope | None => None end)
  | R_RequestStop tx =>
      r ← expect_default2 v "RequestStopTransaction";
      Ret (r, s2_with_connectors s (alter_where (runs_tx tx) stop_evse (s2_connectors s)), None)
  | R_ClearChargingProfile purpose evse =>
      r ← expect_default2 v "ClearChargingProfile";
      Ret (r, alter_evses evse (clear_limits (purpose_str <$> purpose)) s, None)
  | R_UnlockConnector evse =>
      let s := match nonzero (Some evse) with
               | Some e => alter_evse e (λ c, ev_with_status c "Available") s
               | None => s
               end in
      r ← expect_default2 v "UnlockConnector"; Ret (r, s, None)
  | R_Other name =>
      Ret (match default_response (version2 v) name with
           | Some r => Ok r
           | None => Err (CallError_new CC_NotImplemented
                            "action not handled by the charging-station simulator")
           end, s, None)
  end.

(** ** Calls of the station *)

Definition meter_wh2 c : Z :=
  f64_to_i64 (f64_mul (mt_total_energy (ev_meter c)) (f64_of_int 1000)).

Definition sampled2 (value : Json Num) (measurand : string) (phase : option string) (unit : string)
  : Json Num :=
  J_Object ([("value", value); ("measurand", J_String measurand)] ++
    (match phase with Some p => [("phase", J_String p)] | None => [] end) ++
    [("unitOfMeasure", J_Object [("unit", J_String unit)])]).

(** [meter_value_json] *)
Definition meter_value_json2 (now : Z) c : Json Num :=
  let m := ev_meter c in
  let current phase value :=
    if uses_phase (mt_phases m) phase
    then [sampled2 (json_f64 value) "Current.Import" (Some phase) "A"] else [] in
  J_Array [J_Object
    [("timestamp", J_String (string_of (rfc3339 now)));
     ("sampledValue", J_Array
       (current "L1" (mt_current_1 m) ++ current "L2" (mt_current_2 m) ++
        current "L3" (mt_current_3 m) ++
        [sampled2 (json_f64 (mt_voltage m)) "Voltage" None "V";
         sampled2 (json_f64 (mt_power m)) "Power.Active.Import" None "W";
         sampled2 (J_Int (meter_wh2 c)) "Energy.Active.Import.Register" None "Wh";
         sampled2 (json_f64 (mt_frequency m)) "Frequency" None "Hz";
         sampled2 (json_f64 (mt_soc m)) "SoC" None "Percent"]))]].

Definition id_token (rfid : string) : Json Num :=
  J_Object [("idToken", J_String rfid); ("type", J_String "Central")].

(** [state_payload] *)
Definition state_payload2 (now : Z) s (name : string) (scope : Scope) : Json Num :=
  let conn := payload_connector s scope in
  let evse := match conn with Some c => ev_evse_id c | None => 1 end in
  let cid := match conn with Some c => ev_connector_id c | None => 1 end in
  let rfid := match conn with Some c => ev_rfid c | None => EmptyString end in
  let it := s2_identity s in
  if String.eqb name "Authorize" then J_Object [("idToken", id_token rfid)]
  else if String.eqb name "BootNotification" then
    J_Object [("reason", J_String "PowerUp");
      ("chargingStation", J_Object
        [("model", J_String (i2_model it)); ("vendorName", J_String (i2_vendor it));
         ("serialNumber", J_String (i2_serial_number it));
         ("firmwareVersion", J_String (i2_firmware_version it))])]
  else if String.eqb name "Heartbeat" then J_Object []
  else if String.eqb name "MeterValues" then
    J_Object [("evseId", J_Int evse);
      ("meterValue", match conn with Some c => meter_value_json2 now c | None => J_Array [] end)]
  else if String.eqb name "StatusNotification" then
    J_Object [("timestamp", J_String (string_of (rfc3339 now)));
      ("connectorStatus",
        J_String match conn with Some c => ev_status c | None => EmptyString end);
      ("evseId", J_Int evse); ("connectorId", J_Int cid)]
  else J_Object [].

(** [start_event]: a transaction is minted and running before it is sent. *)
Definition started_evse c : Evse :=
  ev_with_meter (ev_with_status c "Occupied") (mt_with_session_energy (ev_meter c) zero).

Definition started_payload (now : Z) (tx : string) (seq : Z) c : Json Num :=
  J_Object
    [("eventType", J_String "Started"); ("timestamp", J_String (string_of (rfc3339 now)));
     ("triggerReason", J_String "Authorized"); ("seqNo", J_Int seq);
     ("transactionInfo", J_Object [("transactionId", J_String tx)]);
     ("idToken", id_token (ev_rfid c));
     ("evse", J_Object [("id", J_Int (ev_evse_id c)); ("connectorId", J_Int (ev_connector_id c))])].

Definition start_event (now : Z) s (scope : Scope) : Outcome (Json Num * CsState2) :=
  match connector_index s scope with
  | None => Ret (J_Object [], s)
  | Some i =>
      c ← expect (s2_connectors s !! i);
      '(tx, c) ← start_tx c;
      '(seq, c) ← next_seq c;
      let c := started_evse c in
      Ret (started_payload now tx seq c, s2_with_connectors s (<[i := c]> (s2_connectors s)))
  end.

Definition ended_payload (now : Z) (tx : string) (seq : Z) c : Json Num :=
  J_Object
    [("eventType", J_String "Ended"); ("timestamp", J_String (string_of (rfc3339 now)));
     ("triggerReason", J_String "StopAuthorized"); ("seqNo", J_Int seq);
     ("transactionInfo", J_Object [("transactionId", J_String tx)]);
     ("idToken", id_token (ev_rfid c))].

(** A transaction is over: its limit goes with it. *)
Definition ended_evse c : Evse :=
  ev_with_confirmed
    (clear_tx_limit (ev_with_transaction (ev_with_status c "Available") None)) false.

(** [stop_event]: nothing without a transaction. *)
Definition stop_event (now : Z) s (scope : Scope) : Outcome (option (Json Num) * CsState2) :=
  match connector_index s scope with
  | None => Ret (None, s)
  | Some i =>
      c ← expect (s2_connectors s !! i);
      match ev_transaction_id c with
      | None => Ret (None, s)
      | Some tx =>
          '(seq, c) ← next_seq c;
          let c := ended_evse c in
          Ret (Some (ended_payload now tx seq c),
               s2_with_connectors s (<[i := c]> (s2_connectors s)))
      end
  end.

(** The connector of the scope's EVSE, if it runs the transaction: what
    [apply_post_send] and [rollback_tx] act on. *)
Definition alter_started (scope : Scope) (started_tx : option string) (f : Evse → Evse) s : CsState2 :=
  match started_tx, sc_evse scope with
  | Some tx, Some e => alter_evse e (λ c, if runs_tx tx c then f c else c) s
  | _, _ => s
  end.

Definition apply_post_send2 s (name : string) (scope : Scope) (started_tx : option string)
    (response : Json Num) : CsState2 :=
  let s := if String.eqb name "BootNotification" then s2_with_interval s (boot_interval response)
           else s in
  alter_started scope started_tx (λ c, ev_with_confirmed c true) s.

Definition rolled_back c : Evse :=
  ev_with_status (ev_with_confirmed (clear_tx_limit (ev_with_transaction c None)) false) "Available".

Definition rollback_tx s (scope : Scope) (started_tx : option string) : CsState2 :=
  alter_started scope started_tx rolled_back s.

Definition metered c : bool :=
  (match ev_transaction_id c with Some _ => true | None => false end) && ev_tx_confirmed c.

Definition active_meter_scopes2 s : list Scope :=
  (λ c, Scope_for_evse (ev_evse_id c) None) <$> filter (λ c, metered c = true) (s2_connectors s).

(** [payload.pointer("/transactionInfo/transactionId")] *)
Definition payload_tx (payload : Json Num) : option string :=
  as_str (jget "transactionId" (jget "transactionInfo" payload)).

(** ** The station and its tasks *)

(** A spawned task: a remote start or a send that has not run, or one whose call
    was sent and not answered. [status]: a StatusNotification follows the answer. *)
Inductive SendTask2 :=
| TS_RemoteStart (scope : Scope)
| TS_Send (name : string) (payload : Json Num) (scope : Scope)
| TS_Waiting (name : string) (scope : Scope) (started_tx : option string) (status : bool)
| TS_Done.

(** As in [Station.v]; [tk_tx_was_active] is not used by 2.x. *)
Record ChargingStation2 := mkChargingStation2 {
  c2_state : CsState2;
  c2_online : bool;
  c2_connected : bool;
  c2_log : MessageLog Num;
  c2_tasks : list SendTask2;
  c2_sent : list (nat * Act);
  c2_ticks : Ticks
}.
Implicit Types (g : ChargingStation2).

Definition c2_with_state g s : ChargingStation2 :=
  mkChargingStation2 s (c2_online g) (c2_connected g) (c2_log g) (c2_tasks g) (c2_sent g) (c2_ticks g).
Definition c2_record (now : Z) g (scope : Scope) (dir : Dir) (name : string) (payload : Json Num)
    (ok : option bool) : ChargingStation2 :=
  mkChargingStation2 (c2_state g) (c2_online g) (c2_connected g)
    (record_message now scope dir name payload ok (c2_log g)) (c2_tasks g) (c2_sent g) (c2_ticks g).
Definition c2_spawn g (tasks : list SendTask2) : ChargingStation2 :=
  mkChargingStation2 (c2_state g) (c2_online g) (c2_connected g) (c2_log g) (c2_tasks g ++ tasks)
    (c2_sent g) (c2_ticks g).
Definition c2_task g (k : nat) (task : SendTask2) : ChargingStation2 :=
  mkChargingStation2 (c2_state g) (c2_online g) (c2_connected g) (c2_log g) (<[k := task]> (c2_tasks g))
    (c2_sent g) (c2_ticks g).
Definition c2_send g (k : nat) (a : Act) : ChargingStation2 :=
  mkChargingStation2 (c2_state g) (c2_online g) (c2_connected g) (c2_log g) (c2_tasks g)
    (c2_sent g ++ [(k, a)]) (c2_ticks g).
Definition c2_with_ticks g (ticks : Ticks) : ChargingStation2 :=
  mkChargingStation2 (c2_state g) (c2_online g) (c2_connected g) (c2_log g) (c2_tasks g) (c2_sent g) ticks.

(** [handle_call] of the generic handler. *)
Definition handle_call2 (v : Version2) (now : Z) (a : Act) g : Outcome (Answer * ChargingStation2) :=
  let request := request_json2 v a in
  '(result, s, start) ←
    (match unknown_evse request (c2_state g) with
     | Some _ => Ret (Err (CallError_new CC_PropertyConstraintViolation "unknown evseId"),
                      c2_state g, None)
     | None => respond2 v (c2_state g) a
     end);
  let payload := match result with Ok r => response_json2 v r | Err _ => J_Null end in
  let ok := match result with Ok _ => true | Err _ => false end in
  let scope := inbound_scope2 request in
  let g := c2_spawn (c2_with_state g s)
             (match start with Some scope => [TS_RemoteStart scope] | None => [] end) in
  let g := c2_record now g scope DIR_In (ac_variant a) request None in
  let g := c2_record now g scope DIR_Out (ac_variant a) payload (Some ok) in
  Ret (result, g).

(** [send_scoped] up to the await; a call that cannot be sent is a failed one. *)
Definition send_call2 (v : Version2) (now : Z) g (k : nat) (scope : Scope) (started_tx : option string)
    (status : bool) (a : Act) : ChargingStation2 :=
  let name := ac_variant a in
  let g := c2_record now g scope DIR_Out name (request_json2 v a) None in
  if c2_connected g then c2_task (c2_send g k a) k (TS_Waiting name scope started_tx status)
  else
    let g := c2_record now g scope DIR_In name J_Null (Some false) in
    c2_task (c2_with_state g (rollback_tx (c2_state g) scope started_tx)) k TS_Done.

(** The transaction a payload starts, as [send_payload] reads it. *)
Definition sent_start (name : string) (payload : Json Num) : option string :=
  if String.eqb name "TransactionEvent" &&
     bool_decide (as_str (jget "eventType" payload) = Some "Started")
  then payload_tx payload else None.

(** A task runs for the first time. *)
Definition task_run2 (v : Version2) (now : Z) g (k : nat) : Outcome ChargingStation2 :=
  let send g name payload scope started_tx status :=
    match decode_call (Version := version_methods v) name payload with
    | Ok a => send_call2 v now g k scope started_tx status a
    | Err _ => c2_task g k TS_Done
    end in
  match c2_tasks g !! k with
  | Some (TS_RemoteStart scope) =>
      '(payload, s) ← start_event now (c2_state g) scope;
      Ret (send (c2_with_state g s) "TransactionEvent" payload scope (payload_tx payload) true)
  | Some (TS_Send name payload scope) =>
      let started_tx := sent_start name payload in
      Ret (send g name payload scope started_tx
             (String.eqb name "StartTransaction" ||
              match started_tx with Some _ => true | None => false end))
  | _ => Ret g
  end.

(** The reply to a task's call arrives, or an error instead. *)
Definition task_answered2 (v : Version2) (now : Z) g (k : nat) (reply : option (Response Resp))
  : ChargingStation2 :=
  match c2_tasks g !! k with
  | Some (TS_Waiting name scope started_tx status) =>
      match reply with
      | None =>
          let g := c2_record now g scope DIR_In name J_Null (Some false) in
          c2_task (c2_with_state g (rollback_tx (c2_state g) scope started_tx)) k TS_Done
      | Some r =>
          let payload := response_json2 v r in
          let g := c2_record now g scope DIR_In name payload (Some true) in
          let g := c2_with_state g (apply_post_send2 (c2_state g) name scope started_tx payload) in
          if status then
            match decode_call (Version := version_methods v) "StatusNotification"
                    (state_payload2 now (c2_state g) "StatusNotification" scope) with
            | Ok a => send_call2 v now g k scope None false a
            | Err _ => c2_task g k TS_Done
            end
          else c2_task g k TS_Done
      end
  | _ => g
  end.

(** The operator, or a script with overrides, starts a transaction: the meter's
    tick begins anew. *)
Definition operator_start (now : Z) (scope : Scope) (overrides : Json Num) g : Outcome ChargingStation2 :=
  '(payload, s) ← start_event now (c2_state g) scope;
  let t := c2_ticks g in
  Ret (c2_spawn (c2_with_ticks (c2_with_state g s)
                   (mkTicks (tk_heartbeat t) 0 (tk_was_online t) (tk_tx_was_active t)))
         [TS_Send "TransactionEvent" (merge_overrides payload overrides) scope]).

Definition operator_stop (now : Z) (scope : Scope) (overrides : Json Num) g : Outcome ChargingStation2 :=
  '(payload, s) ← stop_event now (c2_state g) scope;
  match payload with
  | Some payload =>
      Ret (c2_spawn (c2_with_state g s)
             [TS_Send "TransactionEvent" (merge_overrides payload overrides) scope])
  | None => Ret g
  end.

(** ** Automatic transmission *)

Definition heartbeat_part2 g : Outcome ChargingStation2 :=
  let t := c2_ticks g in
  if c2_online g then
    let interval_secs :=
      Z.max (default DEFAULT_HEARTBEAT_SECS (s2_heartbeat_interval_secs (c2_state g))) 1 in
    let tick := as_uint 32 (tk_heartbeat t + 1) in
    due ← u32_mul (as_uint 32 interval_secs) TICKS_PER_SEC;
    if due <=? tick
    then Ret (c2_spawn (c2_with_ticks g (mkTicks 0 (tk_meter t) (tk_was_online t) (tk_tx_was_active t)))
                [TS_Send "Heartbeat" (J_Object []) Scope_CS])
    else Ret (c2_with_ticks g (mkTicks tick (tk_meter t) (tk_was_online t) (tk_tx_was_active t)))
  else Ret g.

Definition meter_part2 (now : Z) g : ChargingStation2 :=
  let s := c2_state g in
  let t := c2_ticks g in
  let active := active_meter_scopes2 s in
  if (match active with [] => false | _ => c2_online g end) then
    let tick := as_uint 32 (tk_meter t + 1) in
    let g := c2_with_ticks g (mkTicks (tk_heartbeat t) tick (tk_was_online t) (tk_tx_was_active t)) in
    if tick mod 50 =? 0
    then c2_spawn g ((λ scope, TS_Send "MeterValues" (state_payload2 now s "MeterValues" scope) scope)
                       <$> active)
    else g
  else g.

(** One refresh: the parts of [refresh_impl] that transmit. *)
Definition refresh2 (now : Z) g : Outcome ChargingStation2 :=
  let t := c2_ticks g in
  let lost := tk_was_online t && negb (c2_online g) in
  let g := c2_with_ticks g
             (mkTicks (if lost then 0 else tk_heartbeat t) (tk_meter t) (c2_online g)
                (tk_tx_was_active t)) in
  g ← heartbeat_part2 g;
  Ret (meter_part2 now g).

(** ** Runs *)

(** What may happen to a station: a call, a refresh, a start or stop by the
    operator or a script, another call of theirs, a task that runs, the answer
    to one, and a change of the connection. *)
Inductive ChargeEvent2 :=
| EW_Call (now : Z) (a : Act)
| EW_Refresh (now : Z)
| EW_Start (now : Z) (scope : Scope) (overrides : Json Num)
| EW_Stop (now : Z) (scope : Scope) (overrides : Json Num)
| EW_Send (name : string) (payload : Json Num) (scope : Scope)
| EW_Run (now : Z) (k : nat)
| EW_Reply (now : Z) (k : nat) (reply : option (Response Resp))
| EW_Connection (online connected : bool).

Definition charge_step2 (v : Version2) (e : ChargeEvent2) g : Outcome ChargingStation2 :=
  match e with
  | EW_Call now a => '(_, g) ← handle_call2 v now a g; Ret g
  | EW_Refresh now => refresh2 now g
  | EW_Start now scope overrides => operator_start now scope overrides g
  | EW_Stop now scope overrides => operator_stop now scope overrides g
  | EW_Send name payload scope => Ret (c2_spawn g [TS_Send name payload scope])
  | EW_Run now k => task_run2 v now g k
  | EW_Reply now k reply => Ret (task_answered2 v now g k reply)
  | EW_Connection online connected =>
      Ret (mkChargingStation2 (c2_state g) online connected (c2_log g) (c2_tasks g) (c2_sent g)
             (c2_ticks g))
  end.

Fixpoint charge_run2 (v : Version2) (es : list ChargeEvent2) g : Outcome ChargingStation2 :=
  match es with [] => Ret g | e :: es => g ← charge_step2 v e g; charge_run2 v es g end.

(** ** Fields by name, as scripts address them *)

(** The fields of 1.6 and two more. *)
Inductive Field2 := F2_Evse | F2_External | F2_Other (fd : ConnField).

Definition field2_of (name : string) : option Field2 :=
  if String.eqb name "EVSE ID" then Some F2_Evse
  else if String.eqb name "External Charge Limit" then Some F2_External
  else F2_Other <$> field_of name.

Definition get_field2 c (name : string) : option FieldValue :=
  fd ← field2_of name;
  Some match fd with
       | F2_Evse => FV_Int (ev_evse_id c)
       | F2_External => limit_value (l2_external (ev_limits c))
       | F2_Other FD_Id => FV_Int (ev_connector_id c)
       | F2_Other FD_Phases => FV_String (mt_phases (ev_meter c))
       | F2_Other FD_Status => FV_String (ev_status c)
       | F2_Other FD_Rfid => FV_String (ev_rfid c)
       | F2_Other FD_Limit => limit_value (l2_tx (ev_limits c))
       | F2_Other FD_DefaultLimit => limit_value (l2_default (ev_limits c))
       | F2_Other FD_MaxLimit => limit_value (l2_max (ev_limits c))
       | F2_Other FD_ReservedRfid => FV_String (default EmptyString (rv_rfid (ev_reservation c)))
       | F2_Other FD_ReservationId =>
           match rv_id (ev_reservation c) with Some id => FV_Int id | None => FV_Nil end
       | F2_Other fd =>
           match mt_get fd (ev_meter c) with Some f => FV_Float f | None => FV_Nil end
       end.

Definition mt_with_phases (m : Meter F) (phases : string) : Meter F :=
  mkMeter phases (mt_voltage m) (mt_current_1 m) (mt_current_2 m) (mt_current_3 m) (mt_power m)
    (mt_frequency m) (mt_total_energy m) (mt_session_energy m) (mt_soc m) (mt_temperature m).

(** [None]: nothing was set. *)
Definition set_field2 c (name : string) (value : FieldValue) : option Evse :=
  fd ← field2_of name;
  let l := ev_limits c in
  let limited (n : F) (old : Limit F) := mkLimit (Some n) (lm_unit old) in
  match fd with
  | F2_Evse => n ← field_num value; Some (ev_with_ids c (f64_to_i64 n) (ev_connector_id c))
  | F2_External =>
      n ← field_num value;
      Some (ev_with_limits c
              (mkLimits2 (l2_tx l) (l2_default l) (l2_max l) (limited n (l2_external l))))
  | F2_Other FD_Id => n ← field_num value; Some (ev_with_ids c (ev_evse_id c) (f64_to_i64 n))
  | F2_Other FD_Phases =>
      match value with
      | FV_String p => Some (ev_with_meter c (mt_with_phases (ev_meter c) p))
      | _ => None
      end
  | F2_Other FD_Status => match value with FV_String p => Some (ev_with_status c p) | _ => None end
  | F2_Other FD_Rfid => match value with FV_String p => Some (ev_with_rfid c p) | _ => None end
  | F2_Other FD_Limit =>
      n ← field_num value;
      Some (ev_with_limits c
              (mkLimits2 (limited n (l2_tx l)) (l2_default l) (l2_max l) (l2_external l)))
  | F2_Other FD_DefaultLimit =>
      n ← field_num value;
      Some (ev_with_limits c
              (mkLimits2 (l2_tx l) (limited n (l2_default l)) (l2_max l) (l2_external l)))
  | F2_Other FD_MaxLimit =>
      n ← field_num value;
      Some (ev_with_limits c
              (mkLimits2 (l2_tx l) (l2_default l) (limited n (l2_max l)) (l2_external l)))
  | F2_Other (FD_ReservedRfid | FD_ReservationId) => None
  | F2_Other fd => n ← field_num value; Some (ev_with_meter c (mt_set fd n (ev_meter c)))
  end.

(** [cs_get_field], [cs_set_field] *)
Definition cs_get_field2 s (name : string) : option (FieldValue (F := F)) :=
  let it := s2_identity s in
  let r := s2_reservation s in
  if String.eqb name "Model" then Some (FV_String (i2_model it))
  else if String.eqb name "Vendor" then Some (FV_String (i2_vendor it))
  else if String.eqb name "Firmware Version" then Some (FV_String (i2_firmware_version it))
  else if String.eqb name "Serial Number" then Some (FV_String (i2_serial_number it))
  else if String.eqb name "Reserved RFID" then Some (FV_String (default EmptyString (rv_rfid r)))
  else if String.eqb name "Reservation ID" then
    Some match rv_id r with Some id => FV_Int id | None => FV_Nil end
  else None.

Definition s2_with_identity s (it : Identity2) : CsState2 :=
  mkCsState2 it (s2_reservation s) (s2_config s) (s2_heartbeat_interval_secs s) (s2_connectors s).

Definition cs_set_field2 s (name : string) (value : FieldValue (F := F)) : option CsState2 :=
  let it := s2_identity s in
  match value with
  | FV_String x =>
      if String.eqb name "Model" then
        Some (s2_with_identity s
          (mkIdentity2 x (i2_vendor it) (i2_firmware_version it) (i2_serial_number it)))
      else if String.eqb name "Vendor" then
        Some (s2_with_identity s
          (mkIdentity2 (i2_model it) x (i2_firmware_version it) (i2_serial_number it)))
      else if String.eqb name "Firmware Version" then
        Some (s2_with_identity s (mkIdentity2 (i2_model it) (i2_vendor it) x (i2_serial_number it)))
      else if String.eqb name "Serial Number" then
        Some (s2_with_identity s
          (mkIdentity2 (i2_model it) (i2_vendor it) (i2_firmware_version it) x))
      else None
  | _ => None
  end.

(** ** Connectors added by the operator *)

(** [trim_start_matches] of the labels [e], [c], [E] and [C]. *)
Fixpoint drop_labels (raw : list Z) : list Z :=
  match raw with
  | b :: raw' => if existsb (Z.eqb b) [101; 99; 69; 67] then drop_labels raw' else raw
  | [] => []
  end.

Definition parse_id (raw : list Z) : option Z := parse_i64 (string_of (trim (drop_labels (trim raw)))).

(** [add_connector] of [v2_common.rs]: "evse/connector", or a connector of the
    first EVSE; 47 is the slash. *)
Definition add_connector2 s (raw : list Z) : option Z * CsState2 :=
  let '(evse, connector) :=
    match split_once 47 raw with
    | Some (e, c) => (default 1 (parse_id e), parse_id c)
    | None => (1, parse_id raw)
    end in
  match connector with
  | None => (None, s)
  | Some c => let '(added, s) := add_evse evse c s in (if added then Some c else None, s)
  end.

Definition seed_connector2 s (evse : option Z) (connector : Z) : CsState2 :=
  (add_evse (default 1 evse) connector s).2.
End station.
Arguments Limits2 : clear implicits.
Arguments Evse : clear implicits.
Arguments CsState2 : clear implicits.
