(* ===== verification/Station2Props.v ===== *)
(** * Properties of the simulated charging station (2.x) *)

From stdpp Require Import base list numbers strings.
From S2P Require Import Prelude IntText Text OcppMessage OcppConn OcppHandshake OcppActions Calendar OcppWire Station Station2.

Local Open Scope string_scope.
Local Open Scope list_scope.
Local Open Scope Z_scope.

Section props.
Context {F Num JE VE Req Resp : Type}.
Context `{!F64 F, !JsonNumber F Num, !Messages Num JE VE Req Resp,
  !Ocpp2 (F := F) (Num := Num) (Req := Req) (Resp := Resp)}.

Abbreviation Cn := (Evse F).
Abbreviation St := (CsState2 F).
Abbreviation Act := (Action Req).
Abbreviation Answer := (Result (Response Resp) (CallError Num)).
Abbreviation CStation := (ChargingStation2 (F := F) (Num := Num) (Req := Req)).
Abbreviation handle :=
  (handle_call2 (F := F) (Num := Num) (JE := JE) (VE := VE) (Req := Req) (Resp := Resp)).
Abbreviation resp :=
  (respond2 (F := F) (Num := Num) (JE := JE) (VE := VE) (Req := Req) (Resp := Resp)).
Abbreviation run := (charge_run2 (F := F) (Num := Num) (JE := JE) (VE := VE) (Req := Req) (Resp := Resp)).
Abbreviation step := (charge_step2 (F := F) (Num := Num) (JE := JE) (VE := VE) (Req := Req) (Resp := Resp)).
Abbreviation start := (start_event (F := F) (Num := Num)).
Abbreviation stop := (stop_event (F := F) (Num := Num)).
Implicit Types (c : Cn) (s : St) (g : CStation) (a : Act) (v : Version2).

(** ** Lists of connectors *)

Lemma alter_where_rel (R : Cn → Cn → Prop) (p : Cn → bool) f l :
  (∀ c, R c c) → (∀ c, c ∈ l → p c = true → R c (f c)) → Forall2 R l (alter_where p f l).
Proof using Type.
  intros Hr. induction l as [|c l IH]; intros Hf; simpl; [constructor|].
  destruct (p c) eqn:Hp; constructor; [apply Hf; [left|done]|by apply Forall_Forall2_diag, Forall_true|
    apply Hr|apply IH; intros x Hx; apply Hf; by right].
Qed.

Lemma all_rel (R : Cn → Cn → Prop) f l : (∀ c, R c (f c)) → Forall2 R l (f <$> l).
Proof using Type. intros Hf. induction l as [|c l IH]; constructor; [apply Hf|exact IH]. Qed.

Lemma at_rel (R : Cn → Cn → Prop) f i l :
  (∀ c, R c c) → (∀ c, R c (f c)) → Forall2 R l (alter f i l).
Proof using Type.
  intros Hr Hf. revert i. induction l as [|c l IH]; intros [|i]; constructor; try done.
  by apply Forall_Forall2_diag, Forall_true.
Qed.

Lemma refl_rel (R : Cn → Cn → Prop) l : (∀ c, R c c) → Forall2 R l l.
Proof using Type. intros Hr. by apply Forall_Forall2_diag, Forall_true. Qed.

Lemma evses_rel (R : Cn → Cn → Prop) evse f s :
  (∀ c, R c c) → (∀ c, R c (f c)) →
  Forall2 R (s2_connectors s) (s2_connectors (alter_evses evse f s)).
Proof using Type.
  intros Hr Hf. unfold alter_evses. destruct (nonzero evse).
  - apply alter_where_rel; auto.
  - by apply all_rel.
Qed.

(** ** What a call may change *)

(** A call leaves a connector its ids, its card, its counters and its meter but
    for the session's energy; it confirms no transaction, and ends one or keeps
    it; a reservation is made or cancelled by its call only. *)
Definition evse_step (q : Call2 (Req := Req)) c c' : Prop :=
  ev_evse_id c' = ev_evse_id c ∧ ev_connector_id c' = ev_connector_id c ∧
  ev_rfid c' = ev_rfid c ∧ ev_tx_confirmed c' = ev_tx_confirmed c ∧
  ev_seq_no c' = ev_seq_no c ∧ ev_tx_counter c' = ev_tx_counter c ∧
  (ev_meter c' = ev_meter c ∨ q = R_Reset ∧ ev_meter c' = mt_with_session_energy (ev_meter c) zero) ∧
  (ev_transaction_id c' = ev_transaction_id c ∨
   ev_transaction_id c' = None ∧ ev_status c' = "Available" ∧
   (q = R_Reset ∨ ∃ tx, q = R_RequestStop tx ∧ ev_transaction_id c = Some tx)) ∧
  (ev_reservation c' = ev_reservation c ∨
   (∃ token id, q = R_ReserveNow (Some (ev_evse_id c)) token id ∧
      ev_reservation c' = mkReservation (Some token) (Some id)) ∨
   ∃ id, q = R_CancelReservation id ∧ rv_id (ev_reservation c) = Some id ∧
      ev_reservation c' = no_reservation).

Lemma evse_step_refl q c : evse_step q c c.
Proof using Type. split_and!; auto. Qed.

Lemma evse_status_step q c status : evse_step q c (ev_with_status c status).
Proof using Type. split_and!; auto. Qed.

Lemma evse_limits_step q c l : evse_step q c (ev_with_limits c l).
Proof using Type. split_and!; auto. Qed.

Lemma clear_limits_step q purpose c : evse_step q c (clear_limits purpose c).
Proof using Type. apply evse_limits_step. Qed.

Lemma expect_default2_ok v name :
  action_row (version2 v) name ≠ None →
  expect_default2 (Num := Num) (JE := JE) (VE := VE) (Req := Req) (Resp := Resp) v name =
    Ret (Ok (mkResponse name (response_default name))).
Proof using Type.
  intros Hrow. unfold expect_default2, default_response. by destruct (action_row (version2 v) name).
Qed.

(** The action a call is matched as. *)
Definition call2_name (q : Call2 (Req := Req)) : string :=
  match q with
  | R_GetVariables _ => "GetVariables"
  | R_SetVariables _ => "SetVariables"
  | R_Reset => "Reset"
  | R_SetChargingProfile _ => "SetChargingProfile"
  | R_ReserveNow _ _ _ => "ReserveNow"
  | R_CancelReservation _ => "CancelReservation"
  | R_ChangeAvailability _ _ => "ChangeAvailability"
  | R_RequestStart _ => "RequestStartTransaction"
  | R_RequestStop _ => "RequestStopTransaction"
  | R_ClearChargingProfile _ _ => "ClearChargingProfile"
  | R_UnlockConnector _ => "UnlockConnector"
  | R_Other name => name
  end.

Lemma call2_name_of a : call2_name (call2 a) = ac_variant a.
Proof using Type.
  unfold call2.
  repeat match goal with
         | |- context [String.eqb ?x ?y] => destruct (String.eqb_spec x y) as [->|]; [done|]
         end.
  done.
Qed.

(** The reply is that of the action; an error only where the version lacks it. *)
Definition answered_as2 v (name : string) (ans : Answer) : Prop :=
  match ans with
  | Ok r => rs_variant r = name
  | Err e => action_row (version2 v) name = None ∧ ce_code e = CC_NotImplemented
  end.

(** The transaction a call makes the station start: on the EVSE asked for, or
    the first connector. *)
Definition requested_start (q : Call2 (Req := Req)) s : option Scope :=
  match q, s2_connectors s with
  | R_RequestStart evse, _ :: _ =>
      Some match nonzero evse with Some e => Scope_for_evse e None | None => Scope_CS end
  | _, _ => None
  end.

(** What a call leaves of the state beside the connectors. *)
Definition station_kept (q : Call2 (Req := Req)) s s' : Prop :=
  s2_identity s' = s2_identity s ∧
  s2_heartbeat_interval_secs s' = s2_heartbeat_interval_secs s ∧
  s2_config s' = match q with
                 | R_SetVariables r => (set_variables (sv_data r) (s2_config s)).2
                 | _ => s2_config s
                 end.

Lemma connector_index_none s scope : connector_index s scope = None ↔ s2_connectors s = [].
Proof using Type.
  unfold connector_index. destruct (sc_evse scope) as [e|]; cbn [mbind option_bind].
  - destruct (evse_position s e) as [i|] eqn:Hi; [|by destruct (s2_connectors s)].
    split; [done|]. intros Hc. unfold evse_position in Hi. by rewrite Hc in Hi.
  - by destruct (s2_connectors s).
Qed.

Lemma requested_target s evse :
  (let scope := match nonzero evse with Some e => Scope_for_evse e None | None => Scope_CS end in
   match connector_index s scope with Some _ => Some scope | None => None end) =
  requested_start (R_RequestStart evse) s.
Proof using Type.
  cbn [requested_start]. set (scope := match nonzero evse with Some _ => _ | None => _ end).
  pose proof (connector_index_none s scope) as Hn. cbn zeta.
  destruct (connector_index s scope), (s2_connectors s); try done;
    destruct Hn as [H1 H2]; [by specialize (H2 eq_refl)|by specialize (H1 eq_refl)].
Qed.

Lemma profile2_step v r s :
  ∃ ans s', set_charging_profile2 (Num := Num) (JE := JE) (VE := VE) (Req := Req) (Resp := Resp)
      v r s = Ret (Ok ans, s') ∧ rs_variant ans = "SetChargingProfile" ∧
    station_kept (R_SetChargingProfile r) s s' ∧
    Forall2 (evse_step (R_SetChargingProfile r)) (s2_connectors s) (s2_connectors s').
Proof using Type.
  unfold set_charging_profile2.
  destruct (match max_stack_level2 s with Some max => max <? _ | None => false end).
  { eexists _, s. do 2 (split; [done|]). split; [done|]. apply refl_rel, evse_step_refl. }
  rewrite expect_default2_ok by (by destruct v). cbn [mbind outcome_bind].
  destruct (cp2_limit r) as [[text unit]|]; [destruct (connector_index s _) as [i|]|];
    eexists _, _; do 2 (split; [done|]); split; try done; try apply refl_rel, evse_step_refl.
  apply at_rel; [apply evse_step_refl|]. intros c. apply evse_limits_step.
Qed.

(** The answers that [default_response] cannot refuse. *)
Ltac answered2 v :=
  rewrite expect_default2_ok by (by destruct v); cbn [mbind outcome_bind];
  eexists _, _; do 2 (split; [reflexivity|]).

Lemma reserve2_step evse token id c :
  ev_evse_id c = evse →
  evse_step (R_ReserveNow (Some evse) token id) c
    (ev_with_reservation c (mkReservation (Some token) (Some id))).
Proof using Type. intros <-. split_and!; auto. right. left. eauto. Qed.

Lemma cancel2_step id c :
  rv_id (ev_reservation c) = Some id →
  evse_step (R_CancelReservation id) c (ev_with_reservation c no_reservation).
Proof using Type. intros Hr. split_and!; auto. right. right. eauto. Qed.

Lemma stop2_step tx c : runs_tx tx c = true → evse_step (R_RequestStop tx) c (stop_evse c).
Proof using Type.
  intros Ht%bool_decide_eq_true. split_and!; auto. right. split_and!; [done|done|eauto].
Qed.

Lemma reset2_step c : evse_step R_Reset c (reset_evse c).
Proof using Type. split_and!; auto. Qed.

Lemma nonzero_Some evse e : nonzero evse = Some e → evse = Some e.
Proof using Type. unfold nonzero. destruct evse as [x|]; cbn; [|done]. by destruct (x =? 0). Qed.

Lemma respond2_step v s a :
  ∃ ans s', resp v s a = Ret (ans, s', requested_start (call2 a) s) ∧
    answered_as2 v (ac_variant a) ans ∧ station_kept (call2 a) s s' ∧
    Forall2 (evse_step (call2 a)) (s2_connectors s) (s2_connectors s').
Proof using Type.
  rewrite <- (call2_name_of a). unfold respond2.
  destruct (call2 a) as [r|r| |r|evse token id|id|evse kind|evse|tx|purpose evse|evse|name];
    cbn [call2_name].
  - eexists _, s. do 2 (split; [done|]). split; [done|]. apply refl_rel, evse_step_refl.
  - destruct (set_variables (sv_data r) (s2_config s)) as [statuses config] eqn:Hc.
    eexists _, _. do 2 (split; [done|]). split; [split_and!; [done|done|by rewrite Hc]|].
    apply refl_rel, evse_step_refl.
  - eexists _, _. do 2 (split; [done|]). split; [done|]. apply all_rel, reset2_step.
  - destruct (profile2_step v r s) as (ans & s' & -> & H). by eexists _, s'.
  - answered2 v. destruct (nonzero evse) as [e|] eqn:He.
    + apply nonzero_Some in He as ->. split; [done|].
      apply alter_where_rel; [apply evse_step_refl|]. intros c _ Hc. by apply reserve2_step, Z.eqb_eq.
    + split; [done|]. apply refl_rel, evse_step_refl.
  - answered2 v. unfold cancel_reservation2. case_bool_decide as Hrid; (split; [done|]).
    + apply refl_rel, evse_step_refl.
    + apply alter_where_rel; [apply evse_step_refl|].
      intros c _ Hc. apply bool_decide_eq_true in Hc. by apply cancel2_step.
  - answered2 v. split; [by unfold alter_evses; destruct (nonzero evse)|].
    apply evses_rel; [apply evse_step_refl|]. intros c. apply evse_status_step.
  - rewrite expect_default2_ok by (by destruct v). cbn [mbind outcome_bind].
    pose proof (requested_target s evse) as Ht. cbn zeta in Ht. rewrite Ht.
    eexists _, _. do 2 (split; [done|]). split; [done|]. apply refl_rel, evse_step_refl.
  - answered2 v. split; [done|]. apply alter_where_rel; [apply evse_step_refl|].
    intros c _ Hc. by apply stop2_step.
  - answered2 v. split; [by unfold alter_evses; destruct (nonzero evse)|].
    apply evses_rel; [apply evse_step_refl|]. intros c. apply clear_limits_step.
  - answered2 v. destruct (nonzero (Some evse)) as [e|]; (split; [done|]).
    + apply alter_where_rel; [apply evse_step_refl|]. intros c _ _. apply evse_status_step.
    + apply refl_rel, evse_step_refl.
  - eexists _, s. split; [done|]. split; [|split; [done|apply refl_rel, evse_step_refl]].
    unfold default_response. by destruct (action_row (version2 v) name) as [b|] eqn:Hrow.
Qed.

(** *** Exactly what a call changes *)

(** The first position of a connector with the property. *)
Definition first_with (P : Cn → Prop) (l : list Cn) (i : nat) : Prop :=
  (∃ c, l !! i = Some c ∧ P c) ∧ ∀ j c, (j < i)%nat → l !! j = Some c → ¬ P c.

(** The connectors keep their places; the selected ones changed as told, the
    others not at all. *)
Definition changed_at (selected : nat → Prop) (R : Cn → Cn → Prop) (l l' : list Cn) : Prop :=
  length l' = length l ∧
  ∀ i c, l !! i = Some c → ∃ c', l' !! i = Some c' ∧
    (selected i → R c c') ∧ (¬ selected i → c' = c).

(** The EVSE's connector, or all connectors without one or with EVSE 0. *)
Definition evse_selected (evse : option Z) (l : list Cn) (i : nat) : Prop :=
  evse = None ∨ evse = Some 0 ∨ ∃ e, evse = Some e ∧ first_with (λ c, ev_evse_id c = e) l i.

(** The limit a profile's purpose is about. *)
Definition limit_of (p : Purpose) (l : Limits2 F) : Limit F :=
  match p with
  | PP_TxDefault => l2_default l
  | PP_StationMax => l2_max l
  | PP_External => l2_external l
  | PP_Tx | PP_Other => l2_tx l
  end.

(** The limits of the purposes change as told, everything else stays. *)
Definition limits_changed (about : Purpose → Prop) (R : Limit F → Limit F → Prop) c c' : Prop :=
  ∃ l, c' = ev_with_limits c l ∧ ∀ p,
    (about p → R (limit_of p (ev_limits c)) (limit_of p l)) ∧
    (¬ about p → limit_of p l = limit_of p (ev_limits c)).

Definition same_purpose (p p' : Purpose) : Prop := purpose_str p = purpose_str p'.

(** A profile is for the EVSE's connector, or the first one if the station lacks
    the EVSE. *)
Definition profile_target (e : Z) (l : list Cn) (i : nat) : Prop :=
  first_with (λ c, ev_evse_id c = e) l i ∨ (∀ c, c ∈ l → ev_evse_id c ≠ e) ∧ i = 0%nat.

Definition no_limit (old new : Limit F) : Prop := new = mkLimit None (lm_unit old).

Definition call_effect (q : Call2 (Req := Req)) s s' : Prop :=
  let l := s2_connectors s in
  let l' := s2_connectors s' in
  s2_reservation s' =
    match q with
    | R_ReserveNow (None | Some 0) token id => mkReservation (Some token) (Some id)
    | R_CancelReservation id =>
        if decide (rv_id (s2_reservation s) = Some id) then no_reservation else s2_reservation s
    | _ => s2_reservation s
    end ∧
  match q with
  | R_Reset =>
      changed_at (λ _, True) (λ c c',
        c' = ev_with_meter (ev_with_transaction (ev_with_status c "Available") None)
               (mt_with_session_energy (ev_meter c) zero)) l l'
  | R_SetChargingProfile r =>
      changed_at (λ i, is_Some (cp2_limit r) ∧ profile_target (cp2_evse r) l i ∧
          (∀ max, max_stack_level2 s = Some max → cp2_stack r <= max))
        (limits_changed (same_purpose (cp2_purpose r)) (λ _ new,
           ∃ text unit, cp2_limit r = Some (text, unit) ∧
             new = mkLimit (Some (default zero (f64_parse text))) unit)) l l'
  | R_ReserveNow evse token id =>
      changed_at (λ i, ∃ e, evse = Some e ∧ e ≠ 0 ∧ first_with (λ c, ev_evse_id c = e) l i)
        (λ c c', c' = ev_with_reservation c (mkReservation (Some token) (Some id))) l l'
  | R_CancelReservation id =>
      changed_at (λ i, rv_id (s2_reservation s) ≠ Some id ∧
          first_with (λ c, rv_id (ev_reservation c) = Some id) l i)
        (λ c c', c' = ev_with_reservation c no_reservation) l l'
  | R_ChangeAvailability evse kind =>
      changed_at (evse_selected evse l) (λ c c', c' = ev_with_status c
        match kind with AV_Operative => "Available" | AV_Inoperative => "Unavailable" end) l l'
  | R_RequestStop tx =>
      changed_at (first_with (λ c, ev_transaction_id c = Some tx) l) (λ c c',
        limits_changed (same_purpose PP_Tx) no_limit
          (ev_with_status (ev_with_transaction c None) "Available") c') l l'
  | R_ClearChargingProfile purpose evse =>
      changed_at (evse_selected evse l)
        (limits_changed (λ p, ∀ p', purpose = Some p' → same_purpose p' p) no_limit) l l'
  | R_UnlockConnector e =>
      changed_at (λ i, e ≠ 0 ∧ first_with (λ c, ev_evse_id c = e) l i)
        (λ c c', c' = ev_with_status c "Available") l l'
  | R_GetVariables _ | R_SetVariables _ | R_RequestStart _ | R_Other _ => l' = l
  end.

Lemma first_with_cons P c l i : ¬ P c → first_with P (c :: l) (S i) ↔ first_with P l i.
Proof using Type.
  intros Hc. unfold first_with. split; intros [(x & Hx & Hp) Hno]; (split; [by exists x|]).
  - intros j y Hj Hy. apply (Hno (S j)); [lia|done].
  - intros [|j] y Hj Hy; [by injection Hy as <-|]. apply (Hno j); [lia|done].
Qed.

Lemma alter_where_changed (P : Cn → Prop) (R : Cn → Cn → Prop) p f l :
  (∀ c, p c = true ↔ P c) → (∀ c, R c (f c)) →
  changed_at (first_with P l) R l (alter_where p f l).
Proof using Type.
  intros Hp Hf. induction l as [|c l [IHl IH]]; [by split|]. cbn [alter_where].
  destruct (p c) eqn:Hc.
  - apply Hp in Hc. split; [done|]. intros [|i] x Hx; cbn [lookup list_lookup] in Hx |- *.
    + injection Hx as ->. exists (f x). split; [done|]. split; [done|]. intros []. split; [by exists x|lia].
    + exists x. split; [done|]. split; [|done]. intros [_ Hno]. destruct (Hno 0%nat c); [lia|done|done].
  - assert (¬ P c) as Hn by (intros H%Hp; congruence). split; [by cbn; rewrite IHl|].
    intros [|i] x Hx; cbn [lookup list_lookup] in Hx |- *.
    + injection Hx as ->. exists x. split; [done|]. split; [|done]. intros [(y & [= ->] & Hy) _]. done.
    + destruct (IH i x Hx) as (x' & Hx' & H1 & H2). exists x'. by rewrite first_with_cons.
Qed.

Lemma all_changed (sel : nat → Prop) (R : Cn → Cn → Prop) f l :
  (∀ i, sel i) → (∀ c, R c (f c)) → changed_at sel R l (f <$> l).
Proof using Type.
  intros Hs Hf. split; [apply length_fmap|]. intros i c Hc. exists (f c).
  rewrite list_lookup_fmap, Hc. split; [done|]. split; [done|]. by intros [].
Qed.

Lemma none_changed (sel : nat → Prop) R l : (∀ i, ¬ sel i) → changed_at sel R l l.
Proof using Type. intros Hn. split; [done|]. intros i c Hc. exists c. split; [done|]. split; [by intros ?%Hn|done]. Qed.

Lemma changed_sel (sel sel' : nat → Prop) R l l' :
  (∀ i, sel i ↔ sel' i) → changed_at sel R l l' → changed_at sel' R l l'.
Proof using Type.
  intros Hs [Hl H]. split; [done|]. intros i c Hc. destruct (H i c Hc) as (c' & Hc' & H1 & H2).
  exists c'. by rewrite <- Hs.
Qed.

Lemma at_changed (sel : nat → Prop) (R : Cn → Cn → Prop) f k l :
  (∀ i, (i < length l)%nat → sel i ↔ i = k) → (∀ c, R c (f c)) → changed_at sel R l (alter f k l).
Proof using Type.
  intros Hs Hf. split; [apply length_alter|]. intros i c Hc.
  rewrite list_lookup_alter, Hc. specialize (Hs i (lookup_lt_Some _ _ _ Hc)).
  case_decide as Hk; [subst k; rewrite Hc; exists (f c)|exists c]; (split; [done|]); naive_solver.
Qed.

Lemma evses_changed evse f (R : Cn → Cn → Prop) s :
  (∀ c, R c (f c)) →
  changed_at (evse_selected evse (s2_connectors s)) R (s2_connectors s)
    (s2_connectors (alter_evses evse f s)).
Proof using Type.
  intros Hf. unfold alter_evses, nonzero. destruct evse as [e|]; cbn [mbind option_bind].
  2:{ apply all_changed; [|done]. intros i. by left. }
  destruct (Z.eqb_spec e 0) as [->|Hne]; cbn.
  { apply all_changed; [|done]. intros i. right. by left. }
  eapply changed_sel; [|apply (alter_where_changed (λ c, ev_evse_id c = e)); [|done]].
  - intros i. unfold evse_selected. naive_solver.
  - intros c. apply Z.eqb_eq.
Qed.

Lemma find_none {A} (p : A → bool) (l : list A) :
  fst <$> list_find (λ x, p x = true) l = None ↔ ∀ x, x ∈ l → p x = false.
Proof using Type.
  destruct (list_find _ l) as [[i x]|] eqn:Hf; cbn.
  - apply list_find_Some in Hf as (Hx & Hp & _). split; [done|].
    intros Hall. rewrite (Hall x) in Hp; [done|by eapply list_elem_of_lookup_2].
  - apply list_find_None in Hf. split; [|done]. intros _ x Hx. rewrite Forall_forall in Hf.
    by destruct (p x) eqn:E; [destruct (Hf x Hx)|].
Qed.

(** Where a profile goes. *)
Lemma profile_position s e i :
  (i < length (s2_connectors s))%nat →
  profile_target e (s2_connectors s) i ↔ connector_index s (Scope_for_evse e None) = Some i.
Proof using Type.
  intros Hi. unfold connector_index, profile_target, evse_position. cbn [sc_evse Scope_for_evse mbind option_bind].
  destruct (list_find _ (s2_connectors s)) as [[j x]|] eqn:Hf; cbn.
  - apply list_find_Some in Hf as (Hx & Hp & Hno). apply Z.eqb_eq in Hp. split.
    + intros [[(c & Hc & Hce) Hfirst]|[Hall _]]; [|destruct (Hall x); [by eapply list_elem_of_lookup_2|done]].
      f_equal. destruct (Nat.lt_total i j) as [Hlt|[->|Hlt]]; [|done|].
      * destruct (Hno i c Hc Hlt). by apply Z.eqb_eq.
      * by destruct (Hfirst j x Hlt Hx).
    + intros [= <-]. left. split; [by exists x|]. intros k c Hk Hc Hce.
      destruct (Hno k c Hc Hk). by apply Z.eqb_eq.
  - apply list_find_None in Hf. rewrite Forall_forall in Hf.
    assert (∀ c, c ∈ s2_connectors s → ev_evse_id c ≠ e) as Hall.
    { intros c Hc He. apply (Hf c Hc). by apply Z.eqb_eq. }
    destruct (s2_connectors s) as [|c0 l]; [cbn in Hi; lia|]. split.
    + intros [[(c & Hc & Hce) _]|[_ ->]]; [|done]. destruct (Hall c); [by eapply list_elem_of_lookup_2|done].
    + intros [= <-]. right. by split.
Qed.

Lemma purpose_eq p p' : {same_purpose p p'} + {¬ same_purpose p p'}.
Proof using Type. unfold same_purpose. apply String.string_dec. Qed.

Lemma set_limit2_changed p limit unit c :
  limits_changed (same_purpose p) (λ _ new, new = mkLimit (Some limit) unit) c
    (set_limit2 p limit unit c).
Proof using Type.
  eexists. split; [done|]. intros p'. unfold same_purpose. by destruct p, p'.
Qed.

Lemma clear_tx_changed c :
  limits_changed (same_purpose PP_Tx) no_limit c (clear_tx_limit c).
Proof using Type. eexists. split; [done|]. intros p. unfold same_purpose. by destruct p. Qed.

Lemma clear_limits_changed purpose c :
  limits_changed (λ p, ∀ p', purpose = Some p' → same_purpose p' p) no_limit c
    (clear_limits (purpose_str <$> purpose) c).
Proof using Type.
  eexists. split; [done|]. intros p. destruct purpose as [q|]; cbn [fmap option_fmap option_map].
  - split.
    + intros H. specialize (H q eq_refl). revert H. unfold same_purpose. by destruct q, p.
    + intros H. assert (¬ same_purpose q p) as Hq by (intros Hq; apply H; by intros ? [= <-]).
      revert Hq. unfold same_purpose. by destruct q, p; cbn.
  - split; [by destruct p|]. intros []. by intros.
Qed.

Lemma profile2_effect v r s ans s' :
  set_charging_profile2 (Num := Num) (JE := JE) (VE := VE) (Req := Req) (Resp := Resp) v r s =
    Ret (ans, s') → call_effect (R_SetChargingProfile r) s s'.
Proof using Type.
  unfold set_charging_profile2, call_effect.
  destruct (max_stack_level2 s) as [max|] eqn:Hmax; [destruct (Z.ltb_spec max (cp2_stack r))|].
  { intros [= _ <-]. split; [done|]. apply none_changed. intros i (_ & _ & H'). specialize (H' max eq_refl). lia. }
  all: rewrite expect_default2_ok by (by destruct v); cbn [mbind outcome_bind]; intros [= _ <-].
  all: destruct (cp2_limit r) as [[text unit]|];
    [|split; [done|]; apply none_changed; intros i [[] _]; done].
  all: destruct (connector_index s _) as [k|] eqn:Hk; (split; [done|]).
  all: try (apply connector_index_none in Hk; rewrite Hk; by split).
  all: cbn [s2_connectors s2_with_connectors]; apply at_changed;
    [intros i Hi; rewrite (profile_position s (cp2_evse r) i Hi), Hk|].
  all: try (intros c; destruct (set_limit2_changed (cp2_purpose r) (default zero (f64_parse text)) unit c)
    as (l & Hl & H'); exists l; split; [done|]; intros p; split; [|by apply H'];
    intros Hp; exists text, unit; split; [done|by apply H']).
  - split; [by intros (_ & [= ->] & _)|]. intros ->. split_and!; [by eexists|done|]. by intros ? [= <-].
  - split; [by intros (_ & [= ->] & _)|]. intros ->. by split_and!; [eexists| |].
Qed.

Lemma nonzero_changed evse f (R : Cn → Cn → Prop) s :
  (∀ c, R c (f c)) →
  changed_at (λ i, ∃ e, evse = Some e ∧ e ≠ 0 ∧ first_with (λ c, ev_evse_id c = e) (s2_connectors s) i) R
    (s2_connectors s)
    (s2_connectors (match nonzero evse with Some e => alter_evse e f s | None => s end)).
Proof using Type.
  intros Hf. unfold nonzero. destruct evse as [e|]; cbn [mbind option_bind];
    [|apply none_changed; by intros i (e & ? & _)].
  destruct (Z.eqb_spec e 0) as [->|Hne]; [apply none_changed; by intros i (e & [= <-] & ? & _)|].
  eapply changed_sel; [|apply (alter_where_changed (λ c, ev_evse_id c = e)); [|done]].
  - intros i. naive_solver.
  - intros c. apply Z.eqb_eq.
Qed.

Lemma respond2_effect v s a ans s' target :
  resp v s a = Ret (ans, s', target) → call_effect (call2 a) s s'.
Proof using Type.
  unfold respond2.
  destruct (call2 a) as [r|r| |r|evse token id|id|evse kind|evse|tx|purpose evse|evse|name].
  - intros [= _ <- _]. done.
  - destruct (set_variables _ _). intros [= _ <- _]. done.
  - intros [= _ <- _]. split; [done|]. by apply all_changed.
  - destruct (set_charging_profile2 _ _ _) as [[ans1 s1]|] eqn:Hp; [|done].
    intros [= _ <- _]. by eapply profile2_effect.
  - rewrite expect_default2_ok by (by destruct v). cbn [mbind outcome_bind]. intros [= _ <- _].
    split.
    + unfold nonzero. destruct evse as [[| |]|]; done.
    + pose proof (nonzero_changed evse (λ c, ev_with_reservation c (mkReservation (Some token) (Some id)))
        (λ c c', c' = ev_with_reservation c (mkReservation (Some token) (Some id))) s) as Hc.
      destruct (nonzero evse); by apply Hc.
  - rewrite expect_default2_ok by (by destruct v). cbn [mbind outcome_bind]. intros [= _ <- _].
    unfold cancel_reservation2, call_effect. case_bool_decide as Hr.
    + rewrite decide_True by done. split; [done|]. apply none_changed. by intros i [? _].
    + rewrite decide_False by done. split; [done|].
      eapply changed_sel; [|apply (alter_where_changed (λ c, rv_id (ev_reservation c) = Some id)); [|done]].
      * intros i. naive_solver.
      * intros c. apply bool_decide_eq_true.
  - rewrite expect_default2_ok by (by destruct v). cbn [mbind outcome_bind]. intros [= _ <- _].
    split; [by unfold alter_evses; destruct (nonzero evse)|]. apply evses_changed. by destruct kind.
  - rewrite expect_default2_ok by (by destruct v). cbn [mbind outcome_bind]. by intros [= _ <- _].
  - rewrite expect_default2_ok by (by destruct v). cbn [mbind outcome_bind]. intros [= _ <- _].
    split; [done|]. apply alter_where_changed; [intros c; apply bool_decide_eq_true|].
    intros c. unfold stop_evse. destruct (clear_tx_changed c) as (l & _ & Hl).
    eexists. split; [done|]. intros p. unfold same_purpose. by destruct p.
  - rewrite expect_default2_ok by (by destruct v). cbn [mbind outcome_bind]. intros [= _ <- _].
    split; [by unfold alter_evses; destruct (nonzero evse)|]. apply evses_changed, clear_limits_changed.
  - rewrite expect_default2_ok by (by destruct v). cbn [mbind outcome_bind]. intros [= _ <- _].
    pose proof (nonzero_changed (Some evse) (λ c, ev_with_status c "Available")
      (λ c c', c' = ev_with_status c "Available") s) as Hc.
    split; [unfold nonzero; cbn; by destruct (evse =? 0)|].
    eapply changed_sel; [|by apply Hc]. intros i. naive_solver.
  - by intros [= _ <- _].
Qed.

(** A start leaves the whole state. *)
Lemma start_changes_nothing q s s' evse :
  station_kept q s s' → call_effect q s s' → q = R_RequestStart evse → s' = s.
Proof using Type.
  intros (H1 & H2 & H3) [H4 H5] ->. destruct s, s'. simpl in *. by subst.
Qed.

(** ** A handled call *)

(** The call and its reply, in the log. *)
Definition exchange2 v (now : Z) a (ans : Answer) (log : MessageLog Num) : MessageLog Num :=
  let scope := inbound_scope2 (request_json2 v a) in
  record_message now scope DIR_Out (ac_variant a)
    (match ans with Ok r => response_json2 v r | Err _ => J_Null end)
    (Some match ans with Ok _ => true | Err _ => false end)
    (record_message now scope DIR_In (ac_variant a) (request_json2 v a) None log).

Definition refused2 : Answer :=
  Err (CallError_new CC_PropertyConstraintViolation "unknown evseId").

Definition start_task2 (target : option Scope) : list (SendTask2 (Num := Num)) :=
  match target with Some scope => [TS_RemoteStart scope] | None => [] end.

(** What a call leaves of the station. *)
Definition after_call2 v (now : Z) a (ans : Answer) s (target : option Scope) g : CStation :=
  mkChargingStation2 s (c2_online g) (c2_connected g) (exchange2 v now a ans (c2_log g))
    (c2_tasks g ++ start_task2 target) (c2_sent g) (c2_ticks g).


(** ** Starts and what settles them *)

Lemma evse_position_Some s e i :
  evse_position s e = Some i →
  ∃ c, s2_connectors s !! i = Some c ∧ ev_evse_id c = e ∧
    ∀ f, alter_evse e f s = s2_with_connectors s (<[i := f c]> (s2_connectors s)).
Proof using Type.
  unfold evse_position, alter_evse. destruct (list_find _ (s2_connectors s)) as [[j c]|] eqn:Hf; [|done].
  cbn. intros [= ->]. apply list_find_Some in Hf as (Hl & Hp & Hno). exists c.
  split; [done|]. split; [by apply Z.eqb_eq|]. intros f. f_equal.
  revert i Hl Hno. induction (s2_connectors s) as [|c' l IH]; intros [|i] Hl Hno; try done.
  - injection Hl as ->. cbn. by rewrite Hp.
  - cbn. destruct (on_evse e c') eqn:E; [by destruct (Hno 0%nat c'); [|lia|]|].
    f_equal. apply IH; [done|]. intros j y Hj Hlt. apply (Hno (S j)); [done|lia].
Qed.

(** The connector a started transaction leaves, unsettled. *)
Definition started (counter : Z) c : Cn :=
  started_evse (F := F) (ev_with_counters
    (ev_with_confirmed
       (ev_with_transaction (ev_with_counters c 0 counter)
          (Some (tx_id (ev_connector_id c) (ev_tx_counter c)))) false) 1 counter).

Lemma start_event_spec (now : Z) s scope i c :
  connector_index s scope = Some i → s2_connectors s !! i = Some c → ev_tx_counter c + 1 < 2 ^ 64 →
  start now s scope = Ret
    (started_payload now (tx_id (ev_connector_id c) (ev_tx_counter c)) 0
       (started (ev_tx_counter c + 1) c),
     s2_with_connectors s (<[i := started (ev_tx_counter c + 1) c]> (s2_connectors s))).
Proof using Type.
  intros Hi Hc Hlt. unfold start_event. rewrite Hi, Hc. cbn [expect mbind outcome_bind].
  unfold start_tx, counter_succ. rewrite (proj2 (Z.ltb_lt _ _) Hlt). by cbn.
Qed.

Lemma started_payload_tx (now : Z) tx seq c :
  payload_tx (Num := Num) (started_payload now tx seq c) = Some tx ∧
  sent_start (Num := Num) "TransactionEvent" (started_payload now tx seq c) = Some tx.
Proof using Type. done. Qed.

(** A transaction started on an EVSE of the station runs at once, under a fresh
    id, its readings held back. The answer to its call releases them and changes
    nothing else; an error leaves the connector free again, without the
    transaction, its limit and its confirmation. Every other connector stays. *)
Theorem start_settles (now : Z) s (e : Z) (conn : option Z) i c name response :
  let scope := Scope_for_evse e conn in
  evse_position s e = Some i → s2_connectors s !! i = Some c → ev_tx_counter c + 1 < 2 ^ 64 →
  name ≠ "BootNotification" →
  ∃ payload s' tx c', start now s scope = Ret (payload, s') ∧
    payload_tx payload = Some tx ∧ s' = s2_with_connectors s (<[i := c']> (s2_connectors s)) ∧
    ev_transaction_id c' = Some tx ∧ ev_tx_counter c' = ev_tx_counter c + 1 ∧ metered c' = false ∧
    apply_post_send2 (Num := Num) s' name scope (Some tx) response =
      s2_with_connectors s (<[i := ev_with_confirmed c' true]> (s2_connectors s)) ∧
    metered (ev_with_confirmed c' true) = true ∧
    rollback_tx s' scope (Some tx) =
      s2_with_connectors s (<[i := rolled_back c']> (s2_connectors s)) ∧
    ev_transaction_id (rolled_back c') = None ∧ ev_status (rolled_back c') = "Available".
Proof using Type.
  intros scope Hpos Hc Hlt Hname. assert (connector_index s scope = Some i) as Hi.
  { unfold connector_index. cbn. by rewrite Hpos. }
  rewrite (start_event_spec now s scope i c Hi Hc Hlt).
  set (c' := started (ev_tx_counter c + 1) c). set (tx := tx_id (ev_connector_id c) (ev_tx_counter c)).
  set (s' := s2_with_connectors s (<[i := c']> (s2_connectors s))).
  assert (∀ f, alter_started scope (Some tx) f s' =
    s2_with_connectors s (<[i := f c']> (s2_connectors s))) as Halter.
  { intros f. unfold alter_started. cbn [sc_evse scope Scope_for_evse].
    assert (evse_position s' e = Some i) as Hpos'.
    { unfold evse_position in *. cbn [s2_connectors s2_with_connectors s'].
      destruct (list_find _ (s2_connectors s)) as [[j cj]|] eqn:Hf; [|done]. injection Hpos as ->.
      apply list_find_Some in Hf as (Hl & Hp & Hno). rewrite Hc in Hl. injection Hl as <-.
      assert (list_find (λ c, on_evse e c = true) (<[i := c']> (s2_connectors s)) = Some (i, c')) as ->;
        [|done].
      apply list_find_Some. split_and!; [by apply list_lookup_insert_eq; eapply lookup_lt_Some|done|].
      intros j y Hj Hlt'. rewrite list_lookup_insert_ne in Hj by lia. by eapply Hno. }
    destruct (evse_position_Some s' e i Hpos') as (c'' & Hc'' & _ & Hal). rewrite Hal.
    cbn [s2_connectors s2_with_connectors s'] in *.
    rewrite list_lookup_insert_eq in Hc'' by (by eapply lookup_lt_Some). injection Hc'' as <-.
    unfold s2_with_connectors. cbn [s2_connectors s2_identity s2_reservation s2_config s2_heartbeat_interval_secs].
    rewrite list_insert_insert_eq. unfold runs_tx. by rewrite bool_decide_eq_true_2. }
  eexists _, s', tx, c'. split_and!; try done.
  - unfold apply_post_send2. destruct (String.eqb_spec name "BootNotification"); [done|]. apply Halter.
  - apply Halter.
Qed.

(** Without an EVSE the start is never settled: neither its answer nor an error
    reaches the connector it runs on. *)
Lemma station_scope_never_settles s name started_tx (response : Json Num) :
  name ≠ "BootNotification" →
  apply_post_send2 (Num := Num) s name Scope_CS started_tx response = s ∧ rollback_tx s Scope_CS started_tx = s.
Proof using Type.
  intros Hn. unfold apply_post_send2, rollback_tx, alter_started.
  destruct (String.eqb_spec name "BootNotification"); [done|]. by destruct started_tx.
Qed.

(** ** Readings *)

Abbreviation decodes v := (decode_call (Version := version_methods (Num := Num) (JE := JE) (VE := VE)
  (Req := Req) (Resp := Resp) v)).

(** The payload says that a transaction has started. *)
Definition started_with (payload : Json Num) (tx : string) : Prop :=
  as_str (jget "eventType" payload) = Some "Started" ∧ payload_tx payload = Some tx.

(** A TransactionEvent of the type Started for the transaction. *)
Definition starts_tx v a (tx : string) : Prop :=
  ∃ payload, decodes v "TransactionEvent" payload = Ok a ∧ started_with payload tx.

(** A task that waits for the answer to a start has sent it. *)
Definition starts_sent v g : Prop :=
  ∀ k name scope tx status, c2_tasks g !! k = Some (TS_Waiting name scope (Some tx) status) →
    name = "TransactionEvent" ∧ ∃ a, (k, a) ∈ c2_sent g ∧ starts_tx v a tx.

(** The answer to a start that was sent. *)
Definition acknowledges v (e : ChargeEvent2 (Num := Num) (Req := Req) (Resp := Resp)) g (tx : string)
  : Prop :=
  ∃ now k r scope status a, e = EW_Reply now k (Some r) ∧
    c2_tasks g !! k = Some (TS_Waiting "TransactionEvent" scope (Some tx) status) ∧
    (k, a) ∈ c2_sent g ∧ starts_tx v a tx.

(** A connector runs the transaction, confirmed. *)
Definition confirmed_in s (tx : string) : Prop :=
  ∃ c, c ∈ s2_connectors s ∧ ev_tx_confirmed c = true ∧ ev_transaction_id c = Some tx.

Lemma decode_variant2 v name payload a : decodes v name payload = Ok a → ac_variant a = name.
Proof using Type.
  cbn. unfold action_decode_call. destruct (action_row (version2 v) name); [|done].
  destruct (request_from_value name payload); [|done]. by intros [= <-].
Qed.

Lemma elem_of_alter_where p f (l : list Cn) c' :
  c' ∈ alter_where p f l → c' ∈ l ∨ ∃ c, c ∈ l ∧ c' = f c.
Proof using Type.
  induction l as [|c l IH]; cbn; [auto|]. destruct (p c).
  - intros [->|H]%elem_of_cons; [right; exists c; split; [left|done]|left; by right].
  - intros [->|H]%elem_of_cons; [left; left|].
    destruct (IH H) as [?|(x & ? & ?)]; [left; by right|right; exists x; split; [by right|done]].
Qed.

Lemma alter_started_confirmed s scope started_tx f tx :
  (∀ c, ev_tx_confirmed (f c) = true → ev_transaction_id (f c) = Some tx →
    ev_transaction_id c = Some tx) →
  confirmed_in (alter_started scope started_tx f s) tx →
  confirmed_in s tx ∨
  started_tx = Some tx ∧ ∃ c, ev_tx_confirmed (f c) = true ∧ ev_transaction_id (f c) = Some tx.
Proof using Type.
  intros Hf. unfold alter_started. destruct started_tx as [t|]; [|auto].
  destruct (sc_evse scope) as [e|]; [|auto]. intros (c' & Hc' & Hconf & Htx).
  cbn [s2_connectors s2_with_connectors alter_evse] in Hc'.
  destruct (elem_of_alter_where _ _ _ _ Hc') as [Hin|(c & Hin & ->)]; [left; by exists c'|].
  destruct (runs_tx t c) eqn:Hr; [|left; by exists c].
  apply bool_decide_eq_true in Hr. right. split; [|by exists c].
  by rewrite <- Hr, (Hf c Hconf Htx).
Qed.

Lemma rollback_confirmed s scope started_tx tx :
  confirmed_in (rollback_tx s scope started_tx) tx → confirmed_in s tx.
Proof using Type.
  intros H. apply alter_started_confirmed in H as [H|(_ & c & H & _)]; [done|done|].
  by intros c H' _.
Qed.

Lemma post_send2_confirmed s name scope started_tx (response : Json Num) tx :
  confirmed_in (apply_post_send2 s name scope started_tx response) tx →
  confirmed_in s tx ∨ started_tx = Some tx.
Proof using Type.
  unfold apply_post_send2. intros H. apply alter_started_confirmed in H as [H|[-> _]]; [|auto|done].
  left. by destruct (String.eqb name "BootNotification").
Qed.

Lemma insert_confirmed s i c' tx :
  ev_tx_confirmed c' = false →
  confirmed_in (s2_with_connectors s (<[i := c']> (s2_connectors s))) tx → confirmed_in s tx.
Proof using Type.
  intros Hno (c & Hc & Hconf & Htx). cbn [s2_connectors s2_with_connectors] in Hc.
  apply list_elem_of_lookup in Hc as [j Hj].
  apply list_lookup_insert_Some in Hj as [(_ & <- & _)|[_ Hj]]; [by rewrite Hno in Hconf|].
  exists c. split; [by eapply list_elem_of_lookup_2|done].
Qed.

Lemma start_confirmed (now : Z) s scope payload s' tx :
  start now s scope = Ret (payload, s') → confirmed_in s' tx → confirmed_in s tx.
Proof using Type.
  unfold start_event. destruct (connector_index s scope) as [i|]; [|intros; by inv_outcome].
  destruct (s2_connectors s !! i) as [c|]; [|done]. cbn [expect mbind outcome_bind].
  unfold start_tx, next_seq, counter_succ, seq_succ.
  destruct (_ <? _); [|done]. cbn [mbind outcome_bind ev_seq_no ev_with_confirmed ev_with_transaction ev_with_counters].
  change (0 + 1 <? 2 ^ 31) with true. cbn [mbind outcome_bind].
  intros [= <- <-]. by apply insert_confirmed.
Qed.

Lemma stop_confirmed (now : Z) s scope payload s' tx :
  stop now s scope = Ret (payload, s') → confirmed_in s' tx → confirmed_in s tx.
Proof using Type.
  unfold stop_event. destruct (connector_index s scope) as [i|]; [|intros; by inv_outcome].
  destruct (s2_connectors s !! i) as [c|]; [|done]. cbn [expect mbind outcome_bind].
  destruct (ev_transaction_id c); [|intros; by inv_outcome].
  unfold next_seq. destruct (seq_succ _); [|done]. cbn [mbind outcome_bind].
  intros [= <- <-]. by apply insert_confirmed.
Qed.

Lemma call_confirmed v (now : Z) a g ans g' tx :
  handle v now a g = Ret (ans, g') → confirmed_in (c2_state g') tx → confirmed_in (c2_state g) tx.
Proof using Type.
  intros Heq (c' & Hc' & Hconf & Htx).
  assert (Forall2 (evse_step (call2 a)) (s2_connectors (c2_state g)) (s2_connectors (c2_state g'))) as Hall.
  { unfold handle_call2 in Heq. destruct (unknown_evse (request_json2 v a) (c2_state g)).
    - injection Heq as _ <-. apply refl_rel, evse_step_refl.
    - destruct (respond2_step v (c2_state g) a) as (ans' & s & Hr & _ & _ & Hc).
      rewrite Hr in Heq. by injection Heq as _ <-. }
  apply list_elem_of_lookup in Hc' as [i Hi].
  destruct (Forall2_lookup_r _ _ _ _ _ Hall Hi) as (c & Hc & Hs).
  destruct Hs as (_ & _ & _ & Hcf & _ & _ & _ & Ht & _).
  exists c. split; [by eapply list_elem_of_lookup_2|].
  rewrite <- Hcf. split; [done|]. destruct Ht as [<-|[Hno _]]; [done|by rewrite Hno in Htx].
Qed.

(** What a send leaves: the connectors, or those of a rolled back start. *)
Lemma send_call2_confirmed v (now : Z) g k scope started_tx status a tx :
  confirmed_in (c2_state (send_call2 (JE := JE) (VE := VE) (Resp := Resp) v now g k scope started_tx status a)) tx →
  confirmed_in (c2_state g) tx.
Proof using Type.
  unfold send_call2. cbn zeta. destruct (c2_connected (c2_record now g scope DIR_Out (ac_variant a) _ None)); [done|].
  apply rollback_confirmed.
Qed.

Lemma send_call2_starts v (now : Z) g k scope started_tx status a :
  starts_sent v g →
  (∀ tx, started_tx = Some tx → ac_variant a = "TransactionEvent" ∧ starts_tx v a tx) →
  starts_sent v (send_call2 (JE := JE) (VE := VE) (Resp := Resp) v now g k scope started_tx status a).
Proof using Type.
  intros Hw Ha k' name' scope' tx' status'. unfold send_call2. cbn zeta.
  destruct (c2_connected (c2_record now g scope DIR_Out (ac_variant a) _ None));
    cbn [c2_task c2_tasks c2_sent c2_send c2_record c2_with_state]; intros Hk';
    apply list_lookup_insert_Some in Hk' as [(-> & Heq & _)|[_ Hk']]; try done.
  - injection Heq as <- <- -> <-. destruct (Ha tx' eq_refl) as [-> Hs]. split; [done|].
    exists a. split; [|done]. apply elem_of_app. right. by left.
  - destruct (Hw _ _ _ _ _ Hk') as (Hn & b & Hb & Hs). split; [done|]. exists b. split; [|done].
    apply elem_of_app. by left.
  - by apply (Hw _ _ _ _ _ Hk').
Qed.

Lemma done_starts v g k : starts_sent v g → starts_sent v (c2_task g k TS_Done).
Proof using Type.
  intros Hw k' name scope tx status Hk'. cbn in Hk'.
  apply list_lookup_insert_Some in Hk' as [(_ & ? & _)|[_ Hk']]; [done|by apply (Hw _ _ _ _ _ Hk')].
Qed.

Lemma appended_starts v g g' tasks :
  starts_sent v g → c2_sent g' = c2_sent g → c2_tasks g' = c2_tasks g ++ tasks →
  (∀ name scope tx status, TS_Waiting name scope (Some tx) status ∉ tasks) → starts_sent v g'.
Proof using Type.
  intros Hw Hsent Htasks Hnew k name scope tx status Hk. rewrite Hsent. rewrite Htasks in Hk.
  apply lookup_app_Some in Hk as [Hk|[_ Hk]]; [by apply (Hw _ _ _ _ _ Hk)|].
  by destruct (Hnew _ _ _ _ (list_elem_of_lookup_2 _ _ _ Hk)).
Qed.

(** What a refresh adds to the tasks: the meter's readings of the confirmed
    transactions among them, and no other. *)
Definition transmitted (now : Z) s (t : SendTask2 (Num := Num)) : Prop :=
  t = TS_Send "Heartbeat" (J_Object []) Scope_CS ∨
  ∃ c, c ∈ s2_connectors s ∧ metered c = true ∧
    t = TS_Send "MeterValues" (state_payload2 now s "MeterValues" (Scope_for_evse (ev_evse_id c) None))
          (Scope_for_evse (ev_evse_id c) None).

Definition grown2 (now : Z) g g' : Prop :=
  c2_state g' = c2_state g ∧ c2_sent g' = c2_sent g ∧
  ∃ tasks, c2_tasks g' = c2_tasks g ++ tasks ∧ Forall (transmitted now (c2_state g)) tasks.

Lemma grown2_spawn (now : Z) g g' tasks :
  grown2 now g g' → Forall (transmitted now (c2_state g)) tasks → grown2 now g (c2_spawn g' tasks).
Proof using Type.
  intros (Hs & Hsent & new & Ht & Hnew) Hall. split_and!; [done|done|].
  exists (new ++ tasks). cbn. rewrite Ht, app_assoc. split; [done|]. by apply Forall_app.
Qed.

Lemma grown2_ticks (now : Z) g g' ticks : grown2 now g g' → grown2 now g (c2_with_ticks g' ticks).
Proof using Type. intros (Hs & Hsent & H). by split_and!. Qed.

Lemma active_transmitted (now : Z) s :
  Forall (transmitted now s)
    ((λ scope, TS_Send "MeterValues" (state_payload2 now s "MeterValues" scope) scope)
       <$> active_meter_scopes2 s).
Proof using Type.
  apply Forall_forall. intros t (scope & -> & Hin)%list_elem_of_fmap. right.
  apply list_elem_of_fmap in Hin as (c & -> & Hc). apply list_elem_of_filter in Hc as [Hm Hc]. by exists c.
Qed.

Lemma refresh2_grows (now : Z) g g' : refresh2 now g = Ret g' → grown2 now g g'.
Proof using Type.
  unfold refresh2. set (g1 := c2_with_ticks g _).
  assert (grown2 now g g1) as H1 by (apply grown2_ticks; split_and!; [done|done|exists []; by rewrite app_nil_r]).
  assert (∀ g2, heartbeat_part2 g1 = Ret g2 → grown2 now g g2) as Hheart.
  { intros g2. unfold heartbeat_part2. destruct (c2_online g1); [|by intros [= <-]].
    cbv zeta. destruct (u32_mul _ _) as [due|]; [|done]. cbn [mbind outcome_bind].
    destruct (_ <=? _); intros [= <-]; [|by apply grown2_ticks].
    apply grown2_spawn; [by apply grown2_ticks|]. by constructor; [left|]. }
  destruct (heartbeat_part2 g1) as [g2|]; [|done]. intros [= <-]. specialize (Hheart g2 eq_refl).
  assert (c2_state g2 = c2_state g) as Hs by apply Hheart. unfold meter_part2. rewrite Hs.
  destruct (match active_meter_scopes2 _ with [] => _ | _ => _ end); [|done]. cbn zeta.
  destruct (_ =? 0); [|by apply grown2_ticks].
  apply grown2_spawn; [by apply grown2_ticks|]. apply active_transmitted.
Qed.

Lemma transmitted_sends (now : Z) s tasks name scope tx status :
  Forall (transmitted now s) tasks → TS_Waiting name scope (Some tx) status ∉ tasks.
Proof using Type.
  intros Hall Hin. rewrite Forall_forall in Hall. by destruct (Hall _ Hin) as [?|(? & ? & ? & ?)].
Qed.

Lemma sent_start_Some name (payload : Json Num) tx :
  sent_start name payload = Some tx → name = "TransactionEvent" ∧ started_with payload tx.
Proof using Type.
  unfold sent_start. destruct (String.eqb_spec name "TransactionEvent"); [|done].
  cbn. case_bool_decide; [|done]. by split.
Qed.

(** What a start says. *)
Lemma start_event_payload (now : Z) s scope payload s' tx :
  start now s scope = Ret (payload, s') → payload_tx payload = Some tx → started_with payload tx.
Proof using Type.
  intros Hst Htx. split; [|done]. revert Hst Htx. unfold start_event.
  destruct (connector_index s scope) as [i|]; [|by intros [= <- _]].
  destruct (s2_connectors s !! i) as [c|]; [|done]. cbn [expect mbind outcome_bind].
  destruct (start_tx c) as [[tx' c1]|]; [|done]. cbn [mbind outcome_bind].
  destruct (next_seq c1) as [[seq c2]|]; [|done]. cbn [mbind outcome_bind]. by intros [= <- _] _.
Qed.

(** A task that runs keeps [starts_sent] and confirms nothing. *)
Lemma sent_task v (now : Z) g k name (payload : Json Num) scope started_tx status :
  (∀ tx, started_tx = Some tx → name = "TransactionEvent" ∧ started_with payload tx) →
  let g' := match decodes v name payload with
            | Ok a => send_call2 (JE := JE) (VE := VE) (Resp := Resp) v now g k scope started_tx status a
            | Err _ => c2_task g k TS_Done
            end in
  (starts_sent v g → starts_sent v g') ∧
  ∀ tx, confirmed_in (c2_state g') tx → confirmed_in (c2_state g) tx.
Proof using Type.
  intros Hs. destruct (decodes v name payload) as [a|] eqn:Hd; cbn zeta.
  - split; [intros Hw; apply send_call2_starts; [done|]|intros tx; apply send_call2_confirmed].
    intros tx Htx. destruct (Hs tx Htx) as [-> Hp]. split; [by eapply decode_variant2|by exists payload].
  - split; [apply done_starts|done].
Qed.

Lemma task_run2_step v (now : Z) g k g' :
  task_run2 (JE := JE) (VE := VE) (Resp := Resp) v now g k = Ret g' →
  (starts_sent v g → starts_sent v g') ∧
  ∀ tx, confirmed_in (c2_state g') tx → confirmed_in (c2_state g) tx.
Proof using Type.
  unfold task_run2. destruct (c2_tasks g !! k) as [[scope|name payload scope|name scope tx st|]|];
    try by intros [= <-].
  - destruct (start now (c2_state g) scope) as [[payload s]|] eqn:Hst; [|done].
    cbn [mbind outcome_bind]. intros [= <-].
    destruct (sent_task v now (c2_with_state g s) k "TransactionEvent" payload scope
                (payload_tx payload) true) as [Hw Hc].
    { intros tx Htx. split; [done|]. by eapply start_event_payload. }
    split; [exact Hw|].
    intros tx Htx. eapply start_confirmed; [exact Hst|]. exact (Hc tx Htx).
  - intros [= <-]. apply sent_task. apply sent_start_Some.
Qed.

(** The answer to a task keeps [starts_sent] and confirms at most its start. *)
Lemma task_answered2_step v (now : Z) g k reply :
  let g' := task_answered2 (JE := JE) (VE := VE) v now g k reply in
  (starts_sent v g → starts_sent v g') ∧
  (starts_sent v g → ∀ tx, confirmed_in (c2_state g') tx →
    confirmed_in (c2_state g) tx ∨ acknowledges v (EW_Reply now k reply) g tx).
Proof using Type.
  unfold task_answered2. destruct (c2_tasks g !! k) as [[| |name scope started_tx status|]|] eqn:Hk;
    cbn zeta; try by (split; auto).
  destruct reply as [r|]; cbn zeta.
  - set (g1 := c2_with_state _ _).
    assert (starts_sent v g → ∀ tx, confirmed_in (c2_state g1) tx →
      confirmed_in (c2_state g) tx ∨ acknowledges v (EW_Reply now k (Some r)) g tx) as Hg1.
    { intros Hw tx Htx. apply post_send2_confirmed in Htx as [?| ->]; [by left|right].
      destruct (Hw _ _ _ _ _ Hk) as (-> & a & Ha & Hs). by exists now, k, r, scope, status, a. }
    destruct status; [|split; [intros; by apply done_starts|exact Hg1]].
    destruct (sent_task v now g1 k "StatusNotification"
                (state_payload2 now (c2_state g1) "StatusNotification" scope) scope None false)
      as [Hw Hc]; [done|].
    split; [exact Hw|]. intros Hs tx Htx. by apply Hg1, Hc.
  - split; [intros; by apply done_starts|]. intros _ tx Htx. left. exact (rollback_confirmed _ _ _ _ Htx).
Qed.

Lemma step_settles v e g g' :
  starts_sent v g → step v e g = Ret g' →
  starts_sent v g' ∧
  ∀ tx, confirmed_in (c2_state g') tx → confirmed_in (c2_state g) tx ∨ acknowledges v e g tx.
Proof using Type.
  intros Hw. destruct e as [now a|now|now scope o|now scope o|name payload scope|now k|now k reply|online connected];
    cbn [charge_step2].
  - destruct (handle v now a g) as [[ans g1]|] eqn:Hh; [|done]. intros [= ->].
    split; [|intros tx Htx; left; by eapply call_confirmed].
    unfold handle_call2 in Hh. destruct (match unknown_evse _ _ with Some _ => _ | None => _ end)
      as [[[ans' s] target]|]; [|done]. injection Hh as _ <-.
    eapply appended_starts; [done..|]. intros *. destruct target; [|by apply not_elem_of_nil].
    by intros ?%list_elem_of_singleton.
  - intros (Hs & Hsent & tasks & Ht & Hall)%refresh2_grows. split; [|rewrite Hs; auto].
    eapply appended_starts; [done..|]. intros *. by eapply transmitted_sends.
  - unfold operator_start. destruct (start now _ scope) as [[payload s]|] eqn:Hst; [|done].
    intros [= <-]. split; [|intros tx Htx; left; by eapply start_confirmed].
    eapply appended_starts; [done..|]. by intros * ?%list_elem_of_singleton.
  - unfold operator_stop. destruct (stop now _ scope) as [[[payload|] s]|] eqn:Hst; [|by intros [= <-]; auto|done].
    intros [= <-]. split; [|intros tx Htx; left; by eapply stop_confirmed].
    eapply appended_starts; [done..|]. by intros * ?%list_elem_of_singleton.
  - intros [= <-]. split; [|auto]. eapply appended_starts; [done..|]. by intros * ?%list_elem_of_singleton.
  - intros [Hs Hc]%task_run2_step. auto.
  - intros [= <-]. destruct (task_answered2_step v now g k reply) as [Hs Hc]. auto.
  - intros [= <-]. auto.
Qed.

Lemma run_settles v es g g' tx :
  starts_sent v g → run v es g = Ret g' → confirmed_in (c2_state g') tx →
  confirmed_in (c2_state g) tx ∨
  ∃ es1 e es2 g1, es = es1 ++ e :: es2 ∧ run v es1 g = Ret g1 ∧ acknowledges v e g1 tx.
Proof using Type.
  revert g. induction es as [|e es IH]; intros g Hw; cbn [charge_run2].
  - intros [= <-]. auto.
  - destruct (step v e g) as [g1|] eqn:Hstep; [|done]. cbn [mbind outcome_bind]. intros Hrun Htx.
    destruct (step_settles v e g g1 Hw Hstep) as [Hw1 Hc].
    destruct (IH g1 Hw1 Hrun Htx) as [H1|(es1 & e' & es2 & g2 & -> & Hrun1 & Ha)].
    + destruct (Hc tx H1) as [?|Ha]; [by left|]. right. by exists [], e, es, g.
    + right. exists (e :: es1), e', es2, g2. split_and!; [done| |done].
      cbn [charge_run2]. by rewrite Hstep.
Qed.

(** C20: a reading is only sent for a transaction the management system has
    acknowledged: whatever happened to a station without tasks and without
    confirmed transactions, a MeterValues the next refresh adds is for the EVSE of
    a connector whose running transaction's TransactionEvent of type Started was
    sent earlier and answered, without an error, while the task of that event
    waited. *)
Theorem readings_follow_acknowledged_starts v es g g' (now : Z) g'' k payload scope :
  c2_tasks g = [] → Forall (λ c, metered c = false) (s2_connectors (c2_state g)) →
  run v es g = Ret g' → refresh2 now g' = Ret g'' →
  (length (c2_tasks g') ≤ k)%nat → c2_tasks g'' !! k = Some (TS_Send "MeterValues" payload scope) →
  ∃ c tx, c ∈ s2_connectors (c2_state g') ∧ scope = Scope_for_evse (ev_evse_id c) None ∧
    ev_transaction_id c = Some tx ∧ payload = state_payload2 now (c2_state g') "MeterValues" scope ∧
    ∃ es1 e es2 g1, es = es1 ++ e :: es2 ∧ run v es1 g = Ret g1 ∧ acknowledges v e g1 tx.
Proof using Type.
  intros Hnone Hoff Hrun (_ & _ & tasks & Ht & Hall)%refresh2_grows Hk Hsend.
  rewrite Ht, lookup_app_r in Hsend by done. apply list_elem_of_lookup_2 in Hsend.
  rewrite Forall_forall in Hall. destruct (Hall _ Hsend) as [?|(c & Hc & Hm & [= -> ->])]; [done|].
  apply andb_true_iff in Hm as Hmc. destruct Hmc as [Htx Hconf].
  destruct (ev_transaction_id c) as [tx|] eqn:Hctx; [|done].
  exists c, tx. split_and!; [done..|].
  destruct (run_settles v es g g' tx) as [(c0 & Hc0 & Hconf0 & Htx0)|?].
  - intros k' ? ? ? ? Hk'. by rewrite Hnone in Hk'.
  - done.
  - by exists c.
  - rewrite Forall_forall in Hoff. specialize (Hoff _ Hc0). unfold metered in Hoff.
    by rewrite Htx0, Hconf0 in Hoff.
  - done.
Qed.
End props.

(** ** Concrete stations *)

Module Demo2.
#[export] Instance demo_f64 : F64 Z := {
  f64_of_int n := n; f64_to_i64 f := f; f64_mul := Z.mul; f64_div := Z.div;
  f64_fixed _ f := int_text f; f64_display := int_text; f64_parse := parse_i64
}.
#[export] Instance demo_number : JsonNumber Z unit := { num_as_f64 _ := 0; num_as_u64 _ := None }.

#[export] Instance demo_messages : Messages unit unit unit (Json unit) (Json unit) := {
  request_from_value _ j := Ok j; request_to_value _ j := Ok j; request_validate _ _ := Ok tt;
  request_default _ := J_Object []; response_from_value _ j := Ok j; response_to_value _ j := Ok j;
  response_default _ := J_Object []
}.

Definition text (key : string) (j : Json unit) : string := default EmptyString (as_str (jget key j)).
Definition number (key : string) (j : Json unit) : Z := default 0 (as_i64 (jget key j)).
Definition evse (j : Json unit) : option Z := as_i64 (jget "evseId" j).

#[export] Instance demo_ocpp2 : Ocpp2 (F := Z) (Num := unit) (Req := Json unit) (Resp := Json unit) := {
  gv_names j := [text "name" j]; sv_data j := [(text "name" j, text "value" j)];
  cp2_evse := number "evseId"; cp2_stack := number "stackLevel";
  cp2_purpose _ := PP_Tx; cp2_limit _ := None;
  rn2_evse := evse; rn2_token := text "idToken"; rn2_id := number "id";
  cr2_reservation_id := number "reservationId"; ca2_evse := evse;
  ca2_kind j := if String.eqb (text "type" j) "Inoperative" then AV_Inoperative else AV_Operative;
  rs2_evse := evse; rt2_transaction_id := text "transactionId";
  cl2_purpose _ := None; cl2_evse := evse; uc2_evse := number "evseId";
  GetVariablesResponse _ _ := J_Object []; SetVariablesResponse _ _ := J_Object [];
  ResetAccepted2 := J_Object [("status", J_String "Accepted")];
  SetChargingProfileRejected2 := J_Object [("status", J_String "Rejected")];
  json_f64 f := J_Int f
}.

(** The default station, with a second EVSE, connected; its meter was due 49
    refreshes ago. *)
Definition station2_state : CsState2 Z := (add_evse 2 2 CsState2_default).2.
Definition station2 : ChargingStation2 (F := Z) (Num := unit) (Req := Json unit) :=
  mkChargingStation2 station2_state true true (mkMessageLog 0 []) [] [] (mkTicks 0 49 true false).

Definition request_start (fields : list (string * Json unit)) : Action (Json unit) :=
  mkAction "RequestStartTransaction" (J_Object fields).
Definition demo_ack : Response (Json unit) := mkResponse "TransactionEvent" (J_Object []).
Definition Event := ChargeEvent2 (Num := unit) (Req := Json unit) (Resp := Json unit).
Definition demo_start_events (fields : list (string * Json unit)) (reply : option (Response (Json unit)))
  : list Event :=
  [EW_Call 10 (request_start fields); EW_Run 20 0; EW_Reply 30 0 reply].
End Demo2.
Import Demo2.

Abbreviation demo_run := (charge_run2 (JE := unit) (VE := unit) V2_0).

(** An acknowledged start on EVSE 2, and the refresh that reads its meter. *)
Lemma readings_follow_acknowledged_starts_witness :
  let es := demo_start_events [("evseId", J_Int 2)] (Some demo_ack) in
  ∃ g' g'' payload,
    demo_run es station2 = Ret g' ∧ refresh2 40 g' = Ret g'' ∧
    c2_tasks g'' !! 1%nat = Some (TS_Send "MeterValues" payload (Scope_for_evse 2 None)) ∧
    ∃ c tx, c ∈ s2_connectors (c2_state g') ∧ Scope_for_evse 2 None = Scope_for_evse (ev_evse_id c) None ∧
      ev_transaction_id c = Some tx ∧
      payload = state_payload2 40 (c2_state g') "MeterValues" (Scope_for_evse 2 None) ∧
      ∃ es1 e es2 g1, es = es1 ++ e :: es2 ∧ demo_run es1 station2 = Ret g1 ∧
        acknowledges (JE := unit) (VE := unit) V2_0 e g1 tx.
Proof.
  intros es. eexists _, _, _. split; [vm_compute; reflexivity|].
  split; [vm_compute; reflexivity|]. split; [vm_compute; reflexivity|].
  eapply (readings_follow_acknowledged_starts V2_0 es station2 _ 40 _ 1).
  - reflexivity.
  - repeat constructor.
  - vm_compute; reflexivity.
  - vm_compute; reflexivity.
  - vm_compute; lia.
  - vm_compute; reflexivity.
Defined.

Lemma start_settles_witness :
  let scope := Scope_for_evse 2 None in
  let s := station2_state in
  let c := Evse_new (F := Z) 2 2 in
  evse_position s 2 = Some 1%nat ∧ s2_connectors s !! 1%nat = Some c ∧
  ∃ payload s' tx c', start_event (F := Z) (Num := unit) 10 s scope = Ret (payload, s') ∧
    payload_tx payload = Some tx ∧ s' = s2_with_connectors s (<[1%nat := c']> (s2_connectors s)) ∧
    ev_transaction_id c' = Some tx ∧ ev_tx_counter c' = ev_tx_counter c + 1 ∧ metered c' = false ∧
    apply_post_send2 (Num := unit) s' "TransactionEvent" scope (Some tx) J_Null =
      s2_with_connectors s (<[1%nat := ev_with_confirmed c' true]> (s2_connectors s)) ∧
    metered (ev_with_confirmed c' true) = true ∧
    rollback_tx s' scope (Some tx) =
      s2_with_connectors s (<[1%nat := rolled_back c']> (s2_connectors s)) ∧
    ev_transaction_id (rolled_back c') = None ∧ ev_status (rolled_back c') = "Available".
Proof.
  intros scope s c. split; [reflexivity|]. split; [reflexivity|].
  apply (start_settles 10 s 2 None 1 c "TransactionEvent" J_Null);
    [reflexivity|reflexivity|vm_compute; reflexivity|done].
Defined.

(** The connector of the first EVSE after the answer to a requested start. *)
Definition first_evse (fields : list (string * Json unit)) (reply : option (Response (Json unit)))
  : option (option string * bool * string) :=
  match demo_run (demo_start_events fields reply) station2 with
  | Ret g => (λ c, (ev_transaction_id c, metered c, ev_status c)) <$> s2_connectors (c2_state g) !! O
  | Panic => None
  end.

(** A start requested for no EVSE runs on the first one, and nothing settles it:
    its answer does not start the readings and an error does not free the
    connector, while both do for a start of EVSE 1. *)
Example unscoped_start_is_never_settled :
  first_evse [("evseId", J_Int 1)] (Some demo_ack) = Some (Some "ferrowl-tx-1-0", true, "Occupied") ∧
  first_evse [("evseId", J_Int 1)] None = Some (None, false, "Available") ∧
  first_evse [] (Some demo_ack) = Some (Some "ferrowl-tx-1-0", false, "Occupied") ∧
  first_evse [] None = Some (Some "ferrowl-tx-1-0", false, "Occupied").
Proof. split_and!; vm_compute; reflexivity. Qed.
