(* ===== verification/CsmsModule.v ===== *)
(** * The simulated management system (OCPP 1.6)

    Models [ferrowl/src/module/ocpp/server/]: the accept-lists of cards and the
    events ([backend.rs]), what the system answers to a station
    ([v1_6/handler.rs]), what it observes of a station and its connectors
    ([v1_6/state.rs], [v1_6/mod.rs]), and the entries of its view
    ([view/backend.rs]). *)

From stdpp Require Import base list gmap numbers strings.
From S2P Require Import Prelude IntText Text OcppMessage OcppConn OcppHandshake OcppActions Calendar OcppWire Station.

Local Open Scope string_scope.
Local Open Scope list_scope.
Local Open Scope Z_scope.

(** ** The cards that are accepted *)

(** The list of the charge point, and those of its connectors. *)
Record RfidStore := mkRfidStore {
  rf_cs : list string;
  rf_by_scope : gmap Scope (list string)
}.

Definition RfidStore_default : RfidStore := mkRfidStore [] ∅.

Definition scope_list (store : RfidStore) (scope : Scope) : list string :=
  default [] (rf_by_scope store !! scope).

Definition contains (l : list string) (tag : string) : bool := existsb (String.eqb tag) l.

(** Whether the card is new, and the list with it. *)
Definition list_add (l : list string) (tag : string) : bool * list string :=
  if contains l tag then (false, l) else (true, l ++ [tag]).

(** [entry(..).or_default()] creates the list of a connector. *)
Definition rfid_add (store : RfidStore) (scope : Scope) (tag : string) : bool * RfidStore :=
  if bool_decide (scope = Scope_CS) then
    let '(added, l) := list_add (rf_cs store) tag in (added, mkRfidStore l (rf_by_scope store))
  else
    let '(added, l) := list_add (scope_list store scope) tag in
    (added, mkRfidStore (rf_cs store) (<[scope := l]> (rf_by_scope store))).

Definition list_remove (l : list string) (tag : string) : bool * list string :=
  let kept := List.filter (λ t, negb (String.eqb t tag)) l in
  ((length kept <? length l)%nat, kept).

Definition rfid_remove (store : RfidStore) (scope : Scope) (tag : string) : bool * RfidStore :=
  if bool_decide (scope = Scope_CS) then
    let '(removed, l) := list_remove (rf_cs store) tag in (removed, mkRfidStore l (rf_by_scope store))
  else
    match rf_by_scope store !! scope with
    | Some l =>
        let '(removed, l) := list_remove l tag in
        (removed, mkRfidStore (rf_cs store) (<[scope := l]> (rf_by_scope store)))
    | None => (false, store)
    end.

(** The loop over the connectors' lists: [empty], or accepted at once. *)
Fixpoint any_list_authorizes (lists : list (list string)) (tag : string) (empty : bool) : bool :=
  match lists with
  | [] => empty
  | [] :: lists => any_list_authorizes lists tag empty
  | l :: lists => if contains l tag then true else any_list_authorizes lists tag false
  end.

Definition cs_authorized (store : RfidStore) (tag : string) : bool :=
  let empty := match rf_cs store with [] => true | _ => false end in
  if contains (rf_cs store) tag then true
  else any_list_authorizes ((map_to_list (rf_by_scope store)).*2) tag empty.

Definition scope_authorized (store : RfidStore) (scope : Scope) (tag : string) : bool :=
  let conn := scope_list store scope in
  let effective_empty := match rf_cs store, conn with [], [] => true | _, _ => false end in
  effective_empty || contains (rf_cs store ++ conn) tag.

(** ** Answers *)

Section csms.
Context {F Num JE VE Req Resp : Type}.
Context `{!F64 F, !JsonNumber F Num, !Messages Num JE VE Req Resp}.

(** The text of an error. *)
Context (error_text : OcppError JE VE → string).

Abbreviation Act := (Action Req).
Abbreviation Answer := (Result (Response Resp) (CallError Num)).

(** Events of the server's tasks. *)
Inductive ServerEvent :=
| SE_Connected (conn : Z)
| SE_Disconnected (conn : Z)
| SE_Inbound (conn : Z) (name : string) (request response : Json Num)
| SE_Outbound (conn : Z) (scope : Scope) (name : string) (request response : Json Num) (ok : bool).

(** The counter is an [AtomicI64]; the lists are shared with the view. *)
Record CsmsHandler16 := mkCsmsHandler16 { ch_next_txid : Z; ch_rfids : RfidStore }.

Definition CsmsHandler16_new (rfids : RfidStore) : CsmsHandler16 := mkCsmsHandler16 1 rfids.

Definition tag_status (accepted : bool) : string := if accepted then "Accepted" else "Invalid".

(** What is crafted for an action, and the handler after it. *)
Definition crafted (now : Z) (name : string) (request : Json Num) (h : CsmsHandler16)
  : option (Json Num) * CsmsHandler16 :=
  let tag := default EmptyString (as_str (jget "idTag" request)) in
  let time := J_String (string_of (rfc3339 now)) in
  if String.eqb name "BootNotification" then
    (Some (J_Object [("status", J_String "Accepted"); ("currentTime", time); ("interval", J_Int 300)]), h)
  else if String.eqb name "Heartbeat" then (Some (J_Object [("currentTime", time)]), h)
  else if String.eqb name "Authorize" then
    (Some (J_Object [("idTagInfo",
       J_Object [("status", J_String (tag_status (cs_authorized (ch_rfids h) tag)))])]), h)
  else if String.eqb name "StartTransaction" then
    let connector := default 0 (as_i64 (jget "connectorId" request)) in
    let status := tag_status (scope_authorized (ch_rfids h) (Scope_for_connector connector) tag) in
    (Some (J_Object [("transactionId", J_Int (ch_next_txid h));
                     ("idTagInfo", J_Object [("status", J_String status)])]),
     mkCsmsHandler16 (as_sint 64 (ch_next_txid h + 1)) (ch_rfids h))
  else (None, h).

Definition csms_respond (now : Z) (name : string) (a : Act) (request : Json Num) (h : CsmsHandler16)
  : Answer * CsmsHandler16 :=
  let '(payload, h) := crafted now name request h in
  (match payload with
   | Some payload =>
       match decode_result (Version := v1_6_version) a payload with
       | Ok r => Ok r
       | Err e => Err (CallError_new CC_InternalError (error_text e))
       end
   | None =>
       match default_response V1_6 name with
       | Some r => Ok r
       | None => Err (CallError_new CC_NotImplemented "action not handled by the CSMS")
       end
   end, h).

(** [handle_call]: the answer and the event for the view. *)
Definition csms_handle_call (now conn : Z) (a : Act) (h : CsmsHandler16)
  : Answer * ServerEvent * CsmsHandler16 :=
  let name := ac_variant a in
  let request := request_json (JE := JE) (VE := VE) (Resp := Resp) a in
  let '(result, h) := csms_respond now name a request h in
  let response := match result with
                  | Ok r => response_json (JE := JE) (VE := VE) (Req := Req) r
                  | Err _ => J_Null
                  end in
  (result, SE_Inbound conn name request response, h).

(** ** What is observed of a station *)

Record CsLevelState := mkCsLevelState {
  cl_model : string;
  cl_vendor : string;
  cl_firmware_version : string;
  cl_serial_number : string;
  cl_iccid : string;
  cl_last_heartbeat : string
}.

Definition CsLevelState_default : CsLevelState :=
  mkCsLevelState EmptyString EmptyString EmptyString EmptyString EmptyString EmptyString.

Definition cl_apply_inbound (now : Z) (name : string) (request : Json Num) (l : CsLevelState)
  : CsLevelState :=
  let field (key old : string) := default old (as_str (jget key request)) in
  if String.eqb name "BootNotification" then
    mkCsLevelState (field "chargePointModel" (cl_model l)) (field "chargePointVendor" (cl_vendor l))
      (field "firmwareVersion" (cl_firmware_version l))
      (field "chargePointSerialNumber" (cl_serial_number l)) (field "iccid" (cl_iccid l))
      (cl_last_heartbeat l)
  else if String.eqb name "Heartbeat" then
    mkCsLevelState (cl_model l) (cl_vendor l) (cl_firmware_version l) (cl_serial_number l) (cl_iccid l)
      (string_of (rfc3339 now))
  else if String.eqb name "FirmwareStatusNotification" then
    match as_str (jget "status" request) with
    | Some s =>
        mkCsLevelState (cl_model l) (cl_vendor l)
          (String.append (cl_firmware_version l) (String.append " (" (String.append s ")")))
          (cl_serial_number l) (cl_iccid l) (cl_last_heartbeat l)
    | None => l
    end
  else l.

(** The observed connector; [ob_limits]: what the station accepted. *)
Record ConnectorState := mkConnectorState {
  ob_connector_id : Z;
  ob_meter : Meter F;
  ob_status : string;
  ob_rfid : string;
  ob_transaction_id : option Z;
  ob_limits : Limits F
}.
Implicit Types (o : ConnectorState).

Definition zero_meter : Meter F :=
  mkMeter "L1,L2,L3" (f64_of_int 0) (f64_of_int 0) (f64_of_int 0) (f64_of_int 0) (f64_of_int 0)
    (f64_of_int 0) (f64_of_int 0) (f64_of_int 0) (f64_of_int 0) (f64_of_int 0).

Definition ConnectorState_default : ConnectorState :=
  mkConnectorState 0 zero_meter "Unknown" EmptyString None
    (mkLimits (mkLimit None "A") (mkLimit None "A") (mkLimit None "A")).

Definition ob_with_id o (id : Z) : ConnectorState :=
  mkConnectorState id (ob_meter o) (ob_status o) (ob_rfid o) (ob_transaction_id o) (ob_limits o).
Definition ob_with_meter o (m : Meter F) : ConnectorState :=
  mkConnectorState (ob_connector_id o) m (ob_status o) (ob_rfid o) (ob_transaction_id o) (ob_limits o).
Definition ob_with_status o (status : string) : ConnectorState :=
  mkConnectorState (ob_connector_id o) (ob_meter o) status (ob_rfid o) (ob_transaction_id o) (ob_limits o).
Definition ob_with_limits o (l : Limits F) : ConnectorState :=
  mkConnectorState (ob_connector_id o) (ob_meter o) (ob_status o) (ob_rfid o) (ob_transaction_id o) l.

(** The field a sampled value goes to: energies come in Wh. *)
Definition sample_field (measurand phase : string) : option ConnField :=
  if String.eqb measurand "Voltage" then Some FD_Voltage
  else if String.eqb measurand "Power.Active.Import" then Some FD_Power
  else if String.eqb measurand "Frequency" then Some FD_Frequency
  else if String.eqb measurand "Temperature" then Some FD_Temperature
  else if String.eqb measurand "SoC" then Some FD_Soc
  else if String.eqb measurand "Energy.Active.Import.Register" then Some FD_TotalEnergy
  else if String.eqb measurand "Energy.Active.Import.Interval" then Some FD_SessionEnergy
  else if String.eqb measurand "Current.Import" then
    Some (if String.eqb phase "L2" then FD_Current2
          else if String.eqb phase "L3" then FD_Current3 else FD_Current1)
  else None.

Definition apply_sample (m : Meter F) (s : Json Num) : Meter F :=
  let value := default (f64_of_int 0) (as_str (jget "value" s) ≫= f64_parse) in
  let measurand := default "Energy.Active.Import.Register" (as_str (jget "measurand" s)) in
  let phase := default EmptyString (as_str (jget "phase" s)) in
  match sample_field measurand phase with
  | Some fd =>
      mt_set fd (match fd with
                 | FD_TotalEnergy | FD_SessionEnergy => f64_div value (f64_of_int 1000)
                 | _ => value
                 end) m
  | None => m
  end.

Definition apply_meter_values (request : Json Num) (m : Meter F) : Meter F :=
  match as_array (jget "meterValue" request) with
  | None => m
  | Some meter_values =>
      foldl (λ m mv,
        match as_array (jget "sampledValue" mv) with
        | None => m
        | Some samples => foldl apply_sample m samples
        end) m meter_values
  end.

Definition ob_apply_inbound (name : string) (request response : Json Num) o : ConnectorState :=
  let o := match as_i64 (jget "connectorId" request) with Some c => ob_with_id o c | None => o end in
  if String.eqb name "StatusNotification" then
    match as_str (jget "status" request) with Some s => ob_with_status o s | None => o end
  else if String.eqb name "StartTransaction" then
    mkConnectorState (ob_connector_id o) (ob_meter o) "Charging"
      (default (ob_rfid o) (as_str (jget "idTag" request)))
      (match as_i64 (jget "transactionId" response) with
       | Some id => Some id
       | None => ob_transaction_id o
       end)
      (ob_limits o)
  else if String.eqb name "StopTransaction" then
    mkConnectorState (ob_connector_id o) (ob_meter o) "Available" (ob_rfid o) None
      (ls_clear_tx (ob_limits o))
  else if String.eqb name "MeterValues" then
    ob_with_meter o (apply_meter_values request (ob_meter o))
  else o.

Definition ob_apply_outbound (name : string) (request response : Json Num) o : ConnectorState :=
  if negb (String.eqb name "SetChargingProfile") ||
     negb (bool_decide (as_str (jget "status" response) = Some "Accepted"))
  then o
  else
    let profile := jget "csChargingProfiles" request in
    let schedule := jget "chargingSchedule" profile in
    let period := jfirst (jget "chargingSchedulePeriod" schedule) in
    match as_f64 (jget "limit" period) with
    | None => o
    | Some limit =>
        let new := mkLimit (Some limit) (default "A" (as_str (jget "chargingRateUnit" schedule))) in
        let purpose := default EmptyString (as_str (jget "chargingProfilePurpose" profile)) in
        let l := ob_limits o in
        ob_with_limits o
          (if String.eqb purpose "TxDefaultProfile" then mkLimits (ls_tx l) new (ls_max l)
           else if String.eqb purpose "ChargePointMaxProfile" then
             mkLimits (ls_tx l) (ls_default l) new
           else mkLimits new (ls_default l) (ls_max l))
    end.

(** Payloads of the system's own calls, from what it observed. *)
Definition idtag o : string := if String.eqb (ob_rfid o) EmptyString then "DEADBEEF" else ob_rfid o.

Definition ob_derive_payload (name : string) (scope : Scope) o : option (Json Num) :=
  let cid := default (ob_connector_id o) (sc_connector scope) in
  if String.eqb name "RemoteStartTransaction" then
    Some (J_Object [("connectorId", J_Int cid); ("idTag", J_String (idtag o))])
  else if String.eqb name "RemoteStopTransaction" then
    (λ tx, J_Object [("transactionId", J_Int tx)]) <$> ob_transaction_id o
  else if String.eqb name "UnlockConnector" then Some (J_Object [("connectorId", J_Int cid)])
  else if String.eqb name "ChangeAvailability" then
    Some (J_Object [("connectorId", J_Int cid); ("type", J_String "Operative")])
  else None.

Definition cl_derive_payload (name : string) : option (Json Num) :=
  if String.eqb name "Reset" then Some (J_Object [("type", J_String "Soft")])
  else if existsb (String.eqb name) ["ClearCache"; "GetLocalListVersion"; "GetConfiguration"]
  then Some (J_Object [])
  else None.

(** ** What is 1.6 in the view *)

Definition inbound_connector (request : Json Num) : Scope :=
  match as_i64 (jget "connectorId" request) with
  | Some c => if 1 <=? c then Scope_for_connector c else Scope_CS
  | None => Scope_CS
  end.

Definition stop_tx_id (name : string) (request : Json Num) : option string :=
  if String.eqb name "StopTransaction" then int_text <$> as_i64 (jget "transactionId" request) else None.

Definition inject_scope (payload : Json Num) (scope : Scope) : Json Num :=
  match sc_connector scope, payload with
  | Some c, J_Object fields =>
      match as_i64 (jget "connectorId" payload) with
      | None | Some 0 => J_Object (json_insert "connectorId" (J_Int c) fields)
      | Some _ => payload
      end
  | _, _ => payload
  end.

Definition config_request (key : string) : Json Num :=
  if String.eqb key EmptyString then J_Object []
  else J_Object [("key", J_Array [J_String key])].

Definition set_request (key value : string) : Json Num :=
  J_Object [("key", J_String key); ("value", J_String value)].

(** A key, its value, and whether it is read-only. *)
Abbreviation ConfigRow := (string * string * bool)%type.

Definition parse_config (response : Json Num) : list ConfigRow :=
  omap (λ k, name ← as_str (jget "key" k);
             Some (name, default EmptyString (as_str (jget "value" k)),
                   default false (as_bool (jget "readonly" k))))
    (default [] (as_array (jget "configurationKey" response))) ++
  omap (λ k, (λ name, (name, "<unknown>", false)) <$> as_str k)
    (default [] (as_array (jget "unknownKey" response))).

(** A row replaces the one of its key, or comes last. *)
Fixpoint merge_row (row : ConfigRow) (store : list ConfigRow) : list ConfigRow :=
  match store with
  | [] => [row]
  | r :: store => if String.eqb r.1.1 row.1.1 then row :: store else r :: merge_row row store
  end.

(** ** The entries of the view *)

Inductive EntryState :=
| ES_Cs (s : CsLevelState)
| ES_Conn (s : ConnectorState).

Record Entry := mkEntry {
  en_identity : string;
  en_scope : Scope;
  en_conn : option Z;
  en_online : bool;
  en_state : EntryState;
  en_messages : list (LoggedMessage Num)
}.
Implicit Types (e : Entry).

Definition en_link e (conn : option Z) (online : bool) : Entry :=
  mkEntry (en_identity e) (en_scope e) conn online (en_state e) (en_messages e).
Definition en_with_state e (s : EntryState) : Entry :=
  mkEntry (en_identity e) (en_scope e) (en_conn e) (en_online e) s (en_messages e).

(** The scripts' registry: by station, whether it has a state, and the scopes of
    its connectors' states. *)
Record ServerView := mkServerView {
  sv_entries : list Entry;
  sv_conn_identity : gmap Z string;
  sv_cs_configs : gmap string (list ConfigRow);
  sv_lua_stations : gmap string (bool * list Scope);
  sv_selected : option nat;
  sv_seq : Z
}.
Implicit Types (v : ServerView).

Definition sv_with_entries v (entries : list Entry) : ServerView :=
  mkServerView entries (sv_conn_identity v) (sv_cs_configs v) (sv_lua_stations v) (sv_selected v) (sv_seq v).
Definition sv_with_lua v (stations : gmap string (bool * list Scope)) : ServerView :=
  mkServerView (sv_entries v) (sv_conn_identity v) (sv_cs_configs v) stations (sv_selected v) (sv_seq v).

Definition is_entry (identity : string) (scope : Scope) e : bool :=
  String.eqb (en_identity e) identity && bool_decide (en_scope e = scope).

Definition entry_position v (identity : string) (scope : Scope) : option nat :=
  fst <$> list_find (λ e, is_entry identity scope e = true) (sv_entries v).

Definition new_entry (identity : string) (scope : Scope) (conn : option Z) : Entry :=
  mkEntry identity scope conn (match conn with Some _ => true | None => false end)
    (if is_connector scope then ES_Conn ConnectorState_default else ES_Cs CsLevelState_default) [].

Definition entry_index (identity : string) (scope : Scope) (conn : option Z) v : nat * ServerView :=
  match entry_position v identity scope with
  | Some i => (i, v)
  | None =>
      let '(cs, conns) := default (false, []) (sv_lua_stations v !! identity) in
      let station := if is_connector scope then (cs, conns ++ [scope]) else (true, conns) in
      (length (sv_entries v),
       sv_with_lua (sv_with_entries v (sv_entries v ++ [new_entry identity scope conn]))
         (<[identity := station]> (sv_lua_stations v)))
  end.

(** [conn.to_string()] where the registry no longer knows the connection. *)
Definition identity_of (registry : Z → option string) (conn : Z) v : string * ServerView :=
  match sv_conn_identity v !! conn with
  | Some id => (id, v)
  | None =>
      let id := default (int_text conn) (registry conn) in
      (id, mkServerView (sv_entries v) (<[conn := id]> (sv_conn_identity v)) (sv_cs_configs v)
             (sv_lua_stations v) (sv_selected v) (sv_seq v))
  end.

(** The text of [get_field("TransactionId")]. *)
Definition entry_transaction e : option string :=
  match en_state e with
  | ES_Conn o => Some match ob_transaction_id o with Some tx => int_text tx | None => EmptyString end
  | ES_Cs _ => None
  end.

Definition connector_scope_for_tx v (identity tx : string) : option Scope :=
  en_scope <$> find (λ e, String.eqb (en_identity e) identity && is_connector (en_scope e) &&
                          bool_decide (entry_transaction e = Some tx)) (sv_entries v).

(** A message to the log of one entry; the messages of all share a counter. *)
Definition log_message (now : Z) (i : nat) (dir : Dir) (name : string) (payload : Json Num)
    (ok : option bool) v : ServerView :=
  let msg := mkLogged (sv_seq v) now dir name payload ok Scope_CS in
  mkServerView
    (alter (λ e, mkEntry (en_identity e) (en_scope e) (en_conn e) (en_online e) (en_state e)
                   (push_capped (en_messages e) msg)) i (sv_entries v))
    (sv_conn_identity v) (sv_cs_configs v) (sv_lua_stations v) (sv_selected v)
    (as_uint 64 (sv_seq v + 1)).

Definition entry_inbound (now : Z) (name : string) (request response : Json Num) e : Entry :=
  en_with_state e
    match en_state e with
    | ES_Cs s => ES_Cs (cl_apply_inbound now name request s)
    | ES_Conn o => ES_Conn (ob_apply_inbound name request response o)
    end.

(** [apply_outbound] does nothing for a station. *)
Definition entry_outbound (name : string) (request response : Json Num) e : Entry :=
  en_with_state e
    match en_state e with
    | ES_Cs s => ES_Cs s
    | ES_Conn o => ES_Conn (ob_apply_outbound name request response o)
    end.

Definition update_entries (p : Entry → bool) (f : Entry → Entry) v : ServerView :=
  sv_with_entries v ((λ e, if p e then f e else e) <$> sv_entries v).

Definition process_event (registry : Z → option string) (now : Z) (ev : ServerEvent) v
  : ServerView :=
  match ev with
  | SE_Connected conn =>
      let '(id, v) := identity_of registry conn v in
      let '(_, v) := entry_index id Scope_CS (Some conn) v in
      update_entries (λ e, String.eqb (en_identity e) id) (λ e, en_link e (Some conn) true) v
  | SE_Disconnected conn =>
      update_entries (λ e, bool_decide (en_conn e = Some conn)) (λ e, en_link e None false) v
  | SE_Inbound conn name request response =>
      let '(id, v) := identity_of registry conn v in
      let scope := inbound_connector request in
      let '(_, v) := entry_index id Scope_CS (Some conn) v in
      let scope :=
        if bool_decide (scope = Scope_CS) then
          default scope (tx ← stop_tx_id name request; connector_scope_for_tx v id tx)
        else scope in
      let '(i, v) := entry_index id scope (Some conn) v in
      let v := sv_with_entries v
                 (alter (λ e, entry_inbound now name request response (en_link e (Some conn) true)) i
                    (sv_entries v)) in
      log_message now i DIR_Out name response (Some true)
        (log_message now i DIR_In name request None v)
  | SE_Outbound conn scope name request response ok =>
      let '(id, v) := identity_of registry conn v in
      let rows := parse_config response in
      let v :=
        if ok && String.eqb name "GetConfiguration" && negb (match rows with [] => true | _ => false end)
        then mkServerView (sv_entries v) (sv_conn_identity v)
               (<[id := foldl (λ store row, merge_row row store)
                                (default [] (sv_cs_configs v !! id)) rows]> (sv_cs_configs v))
               (sv_lua_stations v) (sv_selected v) (sv_seq v)
        else v in
      let '(i, v) := entry_index id scope (Some conn) v in
      let v := if ok then sv_with_entries v (alter (entry_outbound name request response) i (sv_entries v))
               else v in
      log_message now i DIR_In name response (Some ok)
        (log_message now i DIR_Out name request None v)
  end.

(** [(identity, is_connector, evse, connector)], compared in this order. *)
Definition entry_before e1 e2 : bool :=
  let key e := (is_connector (en_scope e), default 0 (sc_evse (en_scope e)),
                default 0 (sc_connector (en_scope e))) in
  match String.compare (en_identity e1) (en_identity e2) with
  | Lt => true
  | Gt => false
  | Eq =>
      let '(c1, ev1, k1) := key e1 in
      let '(c2, ev2, k2) := key e2 in
      match c1, c2 with
      | false, true => true
      | true, false => false
      | _, _ => (ev1 <? ev2) || ((ev1 =? ev2) && (k1 <? k2))
      end
  end.

(** A stable insertion: before the first larger one. *)
Fixpoint insert_entry e (l : list Entry) : list Entry :=
  match l with
  | [] => [e]
  | x :: l' => if entry_before e x then e :: l else x :: insert_entry e l'
  end.

Definition sort_by_key (l : list Entry) : list Entry := foldl (λ acc e, insert_entry e acc) [] l.

Definition sort_entries v : ServerView :=
  let selected_key := sv_selected v ≫= λ i, (λ e, (en_identity e, en_scope e)) <$> sv_entries v !! i in
  let v := sv_with_entries v (sort_by_key (sv_entries v)) in
  match selected_key with
  | Some (id, scope) =>
      match entry_position v id scope with
      | Some i => mkServerView (sv_entries v) (sv_conn_identity v) (sv_cs_configs v) (sv_lua_stations v)
                    (Some i) (sv_seq v)
      | None => v
      end
  | None => v
  end.

Definition drain_events (registry : Z → option string) (now : Z) (events : list ServerEvent) v
  : ServerView :=
  match events with
  | [] => v
  | _ => sort_entries (foldl (λ v ev, process_event registry now ev v) v events)
  end.

Definition delete_selected v : ServerView :=
  match sv_selected v ≫= λ i, (λ e, (i, e)) <$> sv_entries v !! i with
  | None => v
  | Some (i, e) =>
      let id := en_identity e in
      if negb (is_connector (en_scope e)) then
        mkServerView (List.filter (λ e, negb (String.eqb (en_identity e) id)) (sv_entries v))
          (sv_conn_identity v) (delete id (sv_cs_configs v))
          (delete id (sv_lua_stations v)) (sv_selected v) (sv_seq v)
      else
        sv_with_lua (sv_with_entries v (delete i (sv_entries v)))
          (alter (λ st, (st.1, List.filter (λ sc, negb (bool_decide (sc = en_scope e))) st.2)) id
             (sv_lua_stations v))
  end.

Definition conn_for v (identity : string) : option Z :=
  find (λ e, String.eqb (en_identity e) identity &&
             match en_conn e with Some _ => true | None => false end) (sv_entries v) ≫= en_conn.

(** The payload of a script's call. *)
Definition script_payload v (identity : string) (scope : Scope) (name : string) (overrides : Json Num)
  : Json Num :=
  let derived :=
    e ← find (is_entry identity scope) (sv_entries v);
    match en_state e with
    | ES_Cs _ => cl_derive_payload name
    | ES_Conn o => ob_derive_payload name (en_scope e) o
    end in
  let default_payload :=
    match default_action (Num := Num) V1_6 name with
    | Some a => match encode_action (Version := v1_6_version (JE := JE) (VE := VE) (Resp := Resp)) a with
                | Ok j => j
                | Err _ => J_Object []
                end
    | None => J_Object []
    end in
  merge_overrides (inject_scope (default default_payload derived) scope) overrides.
End csms.
Arguments ServerEvent : clear implicits.
Arguments ConnectorState : clear implicits.
Arguments Entry : clear implicits.
Arguments ServerView : clear implicits.
