(* ===== verification/CsmsModuleProps.v ===== *)
(** * Properties of the simulated management system *)

From Stdlib Require Import Sorted.
From stdpp Require Import base list gmap numbers strings.
From S2P Require Import Prelude IntText Text OcppMessage OcppConn OcppHandshake OcppActions Calendar OcppWire Station StationProps CsmsModule.

Local Open Scope string_scope.
Local Open Scope list_scope.
Local Open Scope Z_scope.

(** ** The accept-lists *)

Lemma contains_spec l tag : contains l tag = true ↔ tag ∈ l.
Proof.
  unfold contains. rewrite existsb_exists. setoid_rewrite String.eqb_eq.
  setoid_rewrite <-list_elem_of_In. naive_solver.
Qed.

(** The list of one level. *)
Definition level (store : RfidStore) (scope : Scope) : list string :=
  if bool_decide (scope = Scope_CS) then rf_cs store else scope_list store scope.

Definition all_empty (store : RfidStore) : Prop :=
  rf_cs store = [] ∧ ∀ scope l, rf_by_scope store !! scope = Some l → l = [].

Lemma any_list_spec lists tag empty :
  any_list_authorizes lists tag empty = true ↔
    (∃ l, l ∈ lists ∧ tag ∈ l) ∨ empty = true ∧ ∀ l, l ∈ lists → l = [].
Proof.
  revert empty. induction lists as [|l lists IH]; intros empty; cbn [any_list_authorizes].
  - split; [|by intros [(l & Hl & _)|[? _]]; [apply not_elem_of_nil in Hl|]].
    intros H. right. split; [done|]. intros l Hl. by apply not_elem_of_nil in Hl.
  - destruct l as [|t l]; [|destruct (contains (t :: l) tag) eqn:Hc].
    + rewrite IH. setoid_rewrite elem_of_cons. split.
      * intros [(l & Hl & Ht)|[? Hall]]; [left; by exists l; auto|right].
        split; [done|]. intros l [->|Hl]; auto.
      * intros [(l & [->|Hl] & Ht)|[? Hall]]; [by apply not_elem_of_nil in Ht|left; by exists l|right].
        split; [done|]. auto.
    + split; [|done]. intros _. left. exists (t :: l). split; [by left|by apply contains_spec].
    + rewrite IH. assert (tag ∉ t :: l) as Hno by (rewrite <-contains_spec, Hc; discriminate).
      setoid_rewrite elem_of_cons. split.
      * intros [(l' & Hl & Ht)|[? _]]; [left; by exists l'; auto|done].
      * intros [(l' & [->|Hl] & Ht)|[_ Hall]]; [done|left; by exists l'|].
        by specialize (Hall (t :: l) (or_introl eq_refl)).
Qed.

(** Listed at any level. *)
Definition listed (store : RfidStore) (tag : string) : Prop :=
  tag ∈ rf_cs store ∨ ∃ scope l, rf_by_scope store !! scope = Some l ∧ tag ∈ l.

Definition effective (store : RfidStore) (scope : Scope) : list string :=
  rf_cs store ++ scope_list store scope.

Lemma lists_lookup (m : gmap Scope (list string)) l :
  l ∈ (map_to_list m).*2 ↔ ∃ scope, m !! scope = Some l.
Proof.
  rewrite list_elem_of_fmap. split.
  - intros ([scope l'] & -> & Hin). apply elem_of_map_to_list in Hin. by exists scope.
  - intros [scope Hl]. exists (scope, l). split; [done|by apply elem_of_map_to_list].
Qed.

Lemma cs_authorized_spec store tag :
  cs_authorized store tag = true ↔ all_empty store ∨ listed store tag.
Proof.
  unfold cs_authorized, listed, all_empty. destruct (contains (rf_cs store) tag) eqn:Hcs.
  { split; [|done]. intros _. right. left. by apply contains_spec. }
  assert (tag ∉ rf_cs store) as Hno by (rewrite <-contains_spec, Hcs; discriminate).
  rewrite any_list_spec. setoid_rewrite lists_lookup. split.
  - intros [(l & [scope Hl] & Ht)|[Hempty Hall]]; [right; right; by exists scope, l|left].
    split; [by destruct (rf_cs store)|]. intros scope l Hl. apply Hall. by exists scope.
  - intros [[-> Hall]|[?|(scope & l & Hl & Ht)]]; [right|done|left; by eauto].
    split; [done|]. intros l [scope Hl]. by apply (Hall scope).
Qed.

Lemma scope_authorized_spec store scope tag :
  scope_authorized store scope tag = true ↔
    effective store scope = [] ∨ tag ∈ effective store scope.
Proof.
  unfold scope_authorized, effective. rewrite orb_true_iff, contains_spec.
  assert (match rf_cs store, scope_list store scope with [], [] => true | _, _ => false end = true ↔
    rf_cs store ++ scope_list store scope = []) as ->; [|done].
  by destruct (rf_cs store), (scope_list store scope).
Qed.

Lemma list_add_spec l tag :
  let '(added, l') := list_add l tag in
  (added = true ↔ tag ∉ l) ∧ (∀ t, t ∈ l' ↔ t = tag ∨ t ∈ l) ∧ (NoDup l → NoDup l').
Proof.
  unfold list_add. pose proof (contains_spec l tag) as Hc. destruct (contains l tag).
  - assert (tag ∈ l) by (by apply Hc). split_and!; [|naive_solver|done]. by split.
  - assert (tag ∉ l) as Hno by (intros Hin; by apply Hc in Hin). split_and!; [done| |].
    + intros t. rewrite elem_of_app, list_elem_of_singleton. naive_solver.
    + intros Hnd. apply NoDup_app. split_and!; [done| |apply NoDup_singleton].
      intros t Ht ->%list_elem_of_singleton. done.
Qed.

Lemma list_remove_spec l tag :
  let '(removed, l') := list_remove l tag in
  (removed = true ↔ tag ∈ l) ∧ (∀ t, t ∈ l' ↔ t ≠ tag ∧ t ∈ l) ∧ (NoDup l → NoDup l').
Proof.
  unfold list_remove.
  assert (∀ t, t ∈ List.filter (λ t, negb (String.eqb t tag)) l ↔ t ≠ tag ∧ t ∈ l) as Hmem.
  { intros t. rewrite list_elem_of_In, filter_In, negb_true_iff, String.eqb_neq, <-list_elem_of_In.
    naive_solver. }
  split_and!; [|exact Hmem|].
  - rewrite Nat.ltb_lt. clear Hmem. induction l as [|t l IH]; cbn [List.filter length].
    + split; [lia|]. intros Ht. by apply not_elem_of_nil in Ht.
    + rewrite elem_of_cons. pose proof (filter_length_le (λ t, negb (String.eqb t tag)) l).
      destruct (String.eqb_spec t tag) as [->|Hne]; cbn [negb length].
      * split; [by left|lia].
      * rewrite <-Nat.succ_lt_mono, IH. naive_solver.
  - intros Hnd. apply NoDup_ListNoDup, List.NoDup_filter, NoDup_ListNoDup, Hnd.
Qed.
(** The accept-lists are one set of cards per level. Adding a card answers
    whether it was new, removing one whether it was there; afterwards the level holds
    the card, or no longer, no list holds a card twice, and no other level has
    changed. *)
Theorem accept_lists_are_sets (store : RfidStore) (scope : Scope) (tag : string) :
  (let '(added, store') := rfid_add store scope tag in
   (added = true ↔ tag ∉ level store scope) ∧
   (∀ t, t ∈ level store' scope ↔ t = tag ∨ t ∈ level store scope) ∧
   (NoDup (level store scope) → NoDup (level store' scope)) ∧
   ∀ other, other ≠ scope → level store' other = level store other) ∧
  (let '(removed, store') := rfid_remove store scope tag in
   (removed = true ↔ tag ∈ level store scope) ∧
   (∀ t, t ∈ level store' scope ↔ t ≠ tag ∧ t ∈ level store scope) ∧
   (NoDup (level store scope) → NoDup (level store' scope)) ∧
   ∀ other, other ≠ scope → level store' other = level store other).
Proof.
  unfold rfid_add, rfid_remove, level. split; case_bool_decide as Hscope; cbn [rf_cs rf_by_scope].
  - pose proof (list_add_spec (rf_cs store) tag) as H. destruct (list_add (rf_cs store) tag) as [b l].
    destruct H as (H1 & H2 & H3). split_and!; [done..|]. intros other Hother.
    by rewrite bool_decide_false by congruence.
  - pose proof (list_add_spec (scope_list store scope) tag) as H.
    destruct (list_add (scope_list store scope) tag) as [b l]. destruct H as (H1 & H2 & H3).
    unfold scope_list in *. cbn [rf_by_scope rf_cs] in *. rewrite lookup_insert_eq. cbn [default].
    split_and!; [done..|]. intros other Hother. by rewrite lookup_insert_ne by congruence.
  - pose proof (list_remove_spec (rf_cs store) tag) as H. destruct (list_remove (rf_cs store) tag) as [b l].
    destruct H as (H1 & H2 & H3). split_and!; [done..|]. intros other Hother.
    by rewrite bool_decide_false by congruence.
  - unfold scope_list. destruct (rf_by_scope store !! scope) as [l|] eqn:Hl.
    + pose proof (list_remove_spec l tag) as H. destruct (list_remove l tag) as [b l'].
      destruct H as (H1 & H2 & H3). cbn [rf_by_scope rf_cs].
      rewrite lookup_insert_eq. cbn [default]. split_and!; [done..|].
      intros other Hother. by rewrite lookup_insert_ne by congruence.
    + rewrite ?Hl. cbn [default]. split_and!; [|intros t|done..];
        split; try done; by intros ?%not_elem_of_nil || by intros [_ ?%not_elem_of_nil].
Qed.

Section props.
Context {F Num JE VE Req Resp : Type}.
Context `{!F64 F, !JsonNumber F Num, !Messages Num JE VE Req Resp}.
Context (error_text : OcppError JE VE → string).

Abbreviation Act := (Action Req).
Abbreviation Answer := (Result (Response Resp) (CallError Num)).
Abbreviation call := (csms_handle_call (Resp := Resp) error_text).
Abbreviation respond_to := (csms_respond (Num := Num) (Req := Req) (Resp := Resp) error_text).
Implicit Types (h : CsmsHandler16) (a : Act).

(** ** Answers *)

(** The status in a crafted response. *)
Definition id_tag_status (payload : option (Json Num)) : option string :=
  p ← payload; as_str (jget "status" (jget "idTagInfo" p)).

(** A card is judged by the lists alone. An authorization request, which names no
    connector, is accepted when no list holds any card or some list holds this one; a
    transaction start on a connector when the connector's list and that of the charge
    point are both empty or one of the two holds the card, so that another
    connector's list does not count. Otherwise the status is Invalid; the lists
    never change. *)
Theorem cards_are_judged (now : Z) (request : Json Num) h :
  let tag := default EmptyString (as_str (jget "idTag" request)) in
  let scope := Scope_for_connector (default 0 (as_i64 (jget "connectorId" request))) in
  (∃ status, id_tag_status (crafted now "Authorize" request h).1 = Some status ∧
     (status = "Accepted" ∨ status = "Invalid") ∧
     (status = "Accepted" ↔ all_empty (ch_rfids h) ∨ listed (ch_rfids h) tag)) ∧
  (∃ status, id_tag_status (crafted now "StartTransaction" request h).1 = Some status ∧
     (status = "Accepted" ∨ status = "Invalid") ∧
     (status = "Accepted" ↔
        effective (ch_rfids h) scope = [] ∨ tag ∈ effective (ch_rfids h) scope)) ∧
  ∀ name, ch_rfids (crafted now name request h).2 = ch_rfids h.
Proof.
  intros tag scope. split_and!.
  - eexists. split; [reflexivity|]. rewrite <-cs_authorized_spec. fold tag. unfold tag_status.
    destruct (cs_authorized (ch_rfids h) tag); split; auto; by split.
  - eexists. split; [reflexivity|]. rewrite <-scope_authorized_spec. fold tag scope. unfold tag_status.
    destruct (scope_authorized (ch_rfids h) scope tag); split; auto; by split.
  - intros name. unfold crafted. by repeat case_match.
Qed.

(** The handler over a run of calls, with the ids it gave to the starts. *)
Fixpoint csms_calls (calls : list (Z * Z * Act)) h : list (Answer * ServerEvent Num) * CsmsHandler16 :=
  match calls with
  | [] => ([], h)
  | (now, conn, a) :: calls =>
      let '(ans, ev, h) := call now conn a h in
      let '(rest, h) := csms_calls calls h in ((ans, ev) :: rest, h)
  end.

Definition is_start a : bool := String.eqb (ac_variant a) "StartTransaction".
Definition starts (calls : list (Z * Z * Act)) : list Act :=
  List.filter is_start (snd <$> calls).

(** The id in the payload crafted for a start. *)
Fixpoint given_ids (calls : list (Z * Z * Act)) h : list Z :=
  match calls with
  | [] => []
  | (now, conn, a) :: calls =>
      let request := request_json (JE := JE) (VE := VE) (Resp := Resp) a in
      let rest := given_ids calls (call now conn a h).2 in
      if is_start a
      then default 0 ((crafted now (ac_variant a) request h).1 ≫= λ p, as_i64 (jget "transactionId" p)) :: rest
      else rest
  end.

Lemma call_handler now conn a h :
  (call now conn a h).2 =
    if is_start a then mkCsmsHandler16 (as_sint 64 (ch_next_txid h + 1)) (ch_rfids h) else h.
Proof.
  unfold csms_handle_call, csms_respond, crafted, is_start.
  repeat match goal with
         | |- context [String.eqb ?x ?y] => destruct (String.eqb_spec x y) as [->|]; [done|]
         end.
  done.
Qed.

(** The ids given to transactions are unique. Whatever calls a system answers,
    from whatever stations, its transaction starts get the ids 1, 2, 3 and so on, in
    the order of the calls, the refused cards included; nothing else takes an id. *)
Theorem transaction_ids_count_up calls (rfids : RfidStore) :
  Z.of_nat (length calls) < 2 ^ 63 - 1 →
  given_ids calls (CsmsHandler16_new rfids) = seqZ 1 (Z.of_nat (length (starts calls))).
Proof.
  intros Hlen.
  assert (∀ h, 0 <= ch_next_txid h → ch_next_txid h + Z.of_nat (length calls) < 2 ^ 63 →
    given_ids calls h = seqZ (ch_next_txid h) (Z.of_nat (length (starts calls)))) as Hall;
    [|apply Hall; cbn; lia].
  clear Hlen. induction calls as [|[[now conn] a] calls IH]; intros h Hpos Hlt; [done|].
  cbn [given_ids length] in Hlt |- *. rewrite call_handler.
  unfold starts. cbn [fmap list_fmap List.filter snd]. fold (starts calls). destruct (is_start a) eqn:Ha.
  - cbn [length]. rewrite Nat2Z.inj_succ, seqZ_cons by lia.
    assert (as_sint 64 (ch_next_txid h + 1) = ch_next_txid h + 1) as Hnext.
    { apply as_sint_nonneg; [lia|]. change (64 - 1) with 63. lia. }
    rewrite IH by (cbn [ch_next_txid]; rewrite Hnext; lia). cbn [ch_next_txid]. rewrite Hnext.
    f_equal; [|f_equal; lia]. unfold is_start in Ha. apply String.eqb_eq in Ha. by rewrite Ha.
  - apply IH; lia.
Qed.

(** ** Entries *)

Abbreviation En := (Entry F Num).
Abbreviation View := (ServerView F Num).
Abbreviation process := (process_event (F := F) (Num := Num)).
Implicit Types (e : En) (v : View).

Definition key e : string * Scope := (en_identity e, en_scope e).
Definition keys v : list (string * Scope) := key <$> sv_entries v.

(** A state of the kind its scope has, online while it has a connection, and a
    bounded log. *)
Definition entry_ok e : Prop :=
  (match en_state e with ES_Cs _ => false | ES_Conn _ => true end) = is_connector (en_scope e) ∧
  en_online e = (match en_conn e with Some _ => true | None => false end) ∧
  (length (en_messages e) <= MAX_MESSAGES)%nat.

(** The registry of the scripts holds exactly the states of the entries. *)
Definition registered v : Prop :=
  ∀ id, let '(cs, conns) := default (false, []) (sv_lua_stations v !! id) in
  (cs = true ↔ (id, Scope_CS) ∈ keys v) ∧ NoDup conns ∧
  ∀ scope, scope ∈ conns ↔ is_connector scope = true ∧ (id, scope) ∈ keys v.

Definition view_ok v : Prop := NoDup (keys v) ∧ Forall entry_ok (sv_entries v) ∧ registered v.

Lemma not_connector scope : is_connector scope = false ↔ scope = Scope_CS.
Proof. unfold Scope_CS. by destruct scope as [[ev|] [c|]]. Qed.

(** A change inside the entries. *)
Lemma view_ok_inside v v' :
  view_ok v → sv_lua_stations v' = sv_lua_stations v → keys v' = keys v →
  Forall entry_ok (sv_entries v') → view_ok v'.
Proof.
  intros (Hnd & _ & Hreg) Hlua Hkeys Hok. unfold view_ok, registered. rewrite Hlua, Hkeys. done.
Qed.

Lemma view_ok_fields v v' :
  view_ok v → sv_lua_stations v' = sv_lua_stations v → sv_entries v' = sv_entries v → view_ok v'.
Proof.
  intros Hv Hlua He. apply (view_ok_inside v); [done|done|by unfold keys; rewrite He|].
  rewrite He. apply Hv.
Qed.

Lemma keys_alter f i (l : list En) : (∀ e, key (f e) = key e) → key <$> alter f i l = key <$> l.
Proof.
  intros Hf. revert i. induction l as [|e l IH]; intros [|i]; cbn; [done..|by rewrite Hf|].
  f_equal. apply IH.
Qed.

Lemma view_ok_alter v f i :
  view_ok v → (∀ e, key (f e) = key e) → (∀ e, entry_ok e → entry_ok (f e)) →
  view_ok (sv_with_entries v (alter f i (sv_entries v))).
Proof.
  intros Hv Hkey Hok. apply (view_ok_inside v); [done|done|by apply keys_alter|].
  apply Forall_alter; [apply Hv|]. naive_solver.
Qed.

Lemma view_ok_update v p f :
  view_ok v → (∀ e, key (f e) = key e) → (∀ e, entry_ok e → entry_ok (f e)) →
  view_ok (update_entries p f v).
Proof.
  intros Hv Hkey Hok. apply (view_ok_inside v); [done|done| |].
  - unfold keys, update_entries. cbn. rewrite <-list_fmap_compose. apply list_fmap_ext.
    intros i e _. cbn. by destruct (p e).
  - apply Forall_fmap. destruct Hv as (_ & Hall & _). eapply Forall_impl; [exact Hall|].
    intros e He. cbn. destruct (p e); auto.
Qed.

Lemma view_ok_log now i dir name payload ok v :
  view_ok v → view_ok (log_message now i dir name payload ok v).
Proof.
  intros Hv. unfold log_message. eapply (view_ok_fields (sv_with_entries v _)); [|done|reflexivity].
  apply view_ok_alter; [done|done|]. intros e (Hk & Ho & Hl). split_and!; [done|done|]. cbn.
  rewrite length_push_capped. lia.
Qed.

Lemma entry_ok_link e conn : entry_ok e → entry_ok (en_link e (Some conn) true).
Proof. intros (? & _ & ?). by split_and!. Qed.

Lemma entry_ok_unlink e : entry_ok e → entry_ok (en_link e None false).
Proof. intros (? & _ & ?). by split_and!. Qed.

Lemma entry_ok_inbound now name request response e :
  entry_ok e → entry_ok (entry_inbound now name request response e).
Proof. intros (Hk & Ho & Hl). unfold entry_inbound. split_and!; [|done|done].
  cbn [en_state en_with_state en_scope]. rewrite <-Hk. by destruct (en_state e).
Qed.

Lemma entry_ok_outbound name request response e :
  entry_ok e → entry_ok (entry_outbound name request response e).
Proof. intros (Hk & Ho & Hl). unfold entry_outbound. split_and!; [|done|done].
  cbn [en_state en_with_state en_scope]. rewrite <-Hk. by destruct (en_state e).
Qed.

Lemma is_entry_spec id scope e : is_entry id scope e = true ↔ key e = (id, scope).
Proof.
  unfold is_entry, key. rewrite andb_true_iff, String.eqb_eq, bool_decide_eq_true. split.
  - by intros [-> ->].
  - by intros [= -> ->].
Qed.

Lemma entry_position_some v id scope i :
  entry_position v id scope = Some i → ∃ e, sv_entries v !! i = Some e ∧ key e = (id, scope).
Proof.
  unfold entry_position. intros ([k e] & Hf & ->)%fmap_Some.
  apply list_find_Some in Hf as (He & Hk & _). exists e. by rewrite <-is_entry_spec.
Qed.

Lemma entry_position_none v id scope : entry_position v id scope = None ↔ (id, scope) ∉ keys v.
Proof.
  unfold entry_position, keys. rewrite fmap_None, list_find_None, Forall_forall. split.
  - intros H (e & Hk & He)%list_elem_of_fmap. specialize (H e He). by rewrite is_entry_spec in H.
  - intros H e He Hk. apply is_entry_spec in Hk. destruct H. rewrite <-Hk. by apply list_elem_of_fmap_2.
Qed.

Lemma new_entry_ok id scope conn : entry_ok (new_entry id scope conn) ∧ key (new_entry id scope conn) = (id, scope).
Proof. split; [|done]. split_and!; cbn; [by destruct (is_connector scope)|done|unfold MAX_MESSAGES; lia]. Qed.

Lemma registered_new v id scope :
  registered v → (id, scope) ∉ keys v →
  let '(cs, conns) := default (false, []) (sv_lua_stations v !! id) in
  let station := if is_connector scope then (cs, conns ++ [scope]) else (true, conns) in
  ∀ v', keys v' = keys v ++ [(id, scope)] →
    sv_lua_stations v' = <[id := station]> (sv_lua_stations v) → registered v'.
Proof.
  intros Hreg Hno. pose proof (Hreg id) as Hid.
  destruct (default (false, []) (sv_lua_stations v !! id)) as [cs conns]. destruct Hid as (Hcs & Hnd & Hconns).
  intros station v' Hkeys Hlua id'. rewrite Hlua.
  assert (∀ x, (id', x) ∈ keys v' ↔ (id', x) ∈ keys v ∨ id' = id ∧ x = scope) as Hin.
  { intros x. rewrite Hkeys, elem_of_app, list_elem_of_singleton. naive_solver. }
  destruct (decide (id' = id)) as [->|Hne].
  - rewrite lookup_insert_eq. cbn [default]. unfold station. destruct (is_connector scope) eqn:Hscope.
    + assert (scope ≠ Scope_CS) by (intros ->; done). split_and!.
      * rewrite Hin. naive_solver.
      * apply NoDup_app. split_and!; [done| |apply NoDup_singleton].
        intros x Hx ->%list_elem_of_singleton. by apply Hno, Hconns.
      * intros x. rewrite elem_of_app, list_elem_of_singleton, Hconns, Hin. naive_solver.
    + assert (scope = Scope_CS) as -> by (by apply not_connector). split_and!; [|done|].
      * rewrite Hin. naive_solver.
      * intros x. rewrite Hconns, Hin. split; [naive_solver|].
        intros [Hx [?|[_ ->]]]; [done|by rewrite Hscope in Hx].
  - rewrite lookup_insert_ne by done. specialize (Hreg id').
    destruct (default (false, []) (sv_lua_stations v !! id')) as [cs' conns'].
    destruct Hreg as (Hcs' & Hnd' & Hconns'). split_and!; [|done|].
    + rewrite Hin. naive_solver.
    + intros x. rewrite Hconns', Hin. naive_solver.
Qed.

(** The entry that an index points to; it is the old one where there was one. *)
Lemma entry_index_spec id scope conn v :
  view_ok v →
  let '(i, v') := entry_index id scope conn v in
  view_ok v' ∧ sv_selected v' = sv_selected v ∧ sv_conn_identity v' = sv_conn_identity v ∧
  (∃ added, sv_entries v' = sv_entries v ++ added ∧ keys v' = keys v ++ (key <$> added) ∧
     ∀ e, e ∈ added → e = new_entry id scope conn) ∧
  ∃ e, sv_entries v' !! i = Some e ∧ key e = (id, scope) ∧
    (e ∈ sv_entries v ∨ e = new_entry id scope conn ∧ (id, scope) ∉ keys v).
Proof.
  intros Hv. unfold entry_index. destruct (entry_position v id scope) as [i|] eqn:Hpos.
  - apply entry_position_some in Hpos as (e & He & Hk). split_and!; [done..| |].
    + exists []. rewrite !app_nil_r. split_and!; [done..|]. by intros x ?%not_elem_of_nil.
    + exists e. split_and!; [done|done|]. left. by eapply list_elem_of_lookup_2.
  - apply entry_position_none in Hpos. destruct Hv as (Hnd & Hall & Hreg).
    pose proof (registered_new v id scope Hreg Hpos) as Hnew.
    destruct (default (false, []) (sv_lua_stations v !! id)) as [cs conns].
    destruct (new_entry_ok id scope conn) as [Hok Hkey].
    set (v' := sv_with_lua _ _).
    assert (keys v' = keys v ++ [(id, scope)]) as Hkeys.
    { unfold keys. cbn. by rewrite fmap_app. }
    split_and!; [| done|done| |].
    + split_and!; [|by apply Forall_app; split; [|by constructor]|by apply Hnew].
      rewrite Hkeys. apply NoDup_app. split_and!; [done| |apply NoDup_singleton].
      intros x Hx ->%list_elem_of_singleton. done.
    + exists [new_entry id scope conn]. rewrite Hkeys. split_and!; [done..|].
      by intros x ?%list_elem_of_singleton.
    + exists (new_entry id scope conn). split_and!; [|done|by right].
      cbn. by rewrite lookup_app_r, Nat.sub_diag by done.
Qed.

Lemma identity_of_spec registry conn v :
  let '(id, v') := identity_of registry conn v in
  sv_entries v' = sv_entries v ∧ sv_lua_stations v' = sv_lua_stations v ∧ sv_selected v' = sv_selected v.
Proof. unfold identity_of. by destruct (sv_conn_identity v !! conn). Qed.

(** What an event keeps: the invariant, the place of each entry and the selection. *)
Definition extends v v' : Prop :=
  view_ok v' ∧ sv_selected v' = sv_selected v ∧ ∃ added, keys v' = keys v ++ added.

Lemma extends_trans v1 v2 v3 : extends v1 v2 → extends v2 v3 → extends v1 v3.
Proof.
  intros (_ & Hs & a & Ha) (Hv & Hs' & b & Hb). split_and!; [done|congruence|].
  exists (a ++ b). by rewrite Hb, Ha, app_assoc.
Qed.

Lemma extends_inside v v' :
  view_ok v' → sv_selected v' = sv_selected v → keys v' = keys v → extends v v'.
Proof. intros ? ? Hk. split_and!; [done..|]. exists []. by rewrite Hk, app_nil_r. Qed.

Lemma extends_identity registry conn v :
  view_ok v → extends v (identity_of registry conn v).2.
Proof.
  intros Hv. pose proof (identity_of_spec registry conn v) as H.
  destruct (identity_of registry conn v) as [id v']. destruct H as (He & Hl & Hs).
  apply extends_inside; [by apply (view_ok_fields v)|done|]. unfold keys. cbn. by rewrite He.
Qed.

Lemma extends_index id scope conn v : view_ok v → extends v (entry_index id scope conn v).2.
Proof.
  intros Hv. pose proof (entry_index_spec id scope conn v Hv) as H.
  destruct (entry_index id scope conn v) as [i v']. destruct H as (Hv' & Hs & _ & (a & _ & Ha & _) & _).
  split_and!; [done..|]. by exists (key <$> a).
Qed.

Lemma extends_alter v f i :
  view_ok v → (∀ e, key (f e) = key e) → (∀ e, entry_ok e → entry_ok (f e)) →
  extends v (sv_with_entries v (alter f i (sv_entries v))).
Proof. intros Hv Hk Hok. apply extends_inside; [by apply view_ok_alter|done|by apply keys_alter]. Qed.

Lemma extends_update v p f :
  view_ok v → (∀ e, key (f e) = key e) → (∀ e, entry_ok e → entry_ok (f e)) →
  extends v (update_entries p f v).
Proof.
  intros Hv Hk Hok. apply extends_inside; [by apply view_ok_update|done|].
  unfold keys, update_entries. cbn. rewrite <-list_fmap_compose. apply list_fmap_ext.
  intros i e _. cbn. by destruct (p e).
Qed.

Lemma extends_log now i dir name payload ok v : view_ok v → extends v (log_message now i dir name payload ok v).
Proof. intros Hv. apply extends_inside; [by apply view_ok_log|done|by apply keys_alter]. Qed.

Lemma extends_process registry now ev v : view_ok v → extends v (process registry now ev v).
Proof.
  intros Hv. destruct ev as [conn|conn|conn name request response|conn scope name request response ok];
    cbn [process_event].
  - pose proof (extends_identity registry conn v Hv) as H1.
    destruct (identity_of registry conn v) as [id v1]. cbn [snd] in H1.
    pose proof (extends_index id Scope_CS (Some conn) v1 (proj1 H1)) as H2.
    destruct (entry_index id Scope_CS (Some conn) v1) as [i v2]. cbn [snd] in H2.
    eapply extends_trans; [exact H1|]. eapply extends_trans; [exact H2|].
    apply extends_update; [apply H2|done|intros e; apply entry_ok_link].
  - apply extends_update; [done|done|]. intros e. apply entry_ok_unlink.
  - pose proof (extends_identity registry conn v Hv) as H1.
    destruct (identity_of registry conn v) as [id v1]. cbn [snd] in H1.
    pose proof (extends_index id Scope_CS (Some conn) v1 (proj1 H1)) as H2.
    destruct (entry_index id Scope_CS (Some conn) v1) as [i v2]. cbn [snd] in H2.
    set (scope := if bool_decide _ then _ else _).
    pose proof (extends_index id scope (Some conn) v2 (proj1 H2)) as H3.
    destruct (entry_index id scope (Some conn) v2) as [j v3]. cbn [snd] in H3.
    eapply extends_trans; [exact H1|]. eapply extends_trans; [exact H2|].
    eapply extends_trans; [exact H3|].
    pose proof (extends_alter v3
      (λ e, entry_inbound now name request response (en_link e (Some conn) true)) j (proj1 H3)
      (λ e, eq_refl) (λ e He, entry_ok_inbound now name request response _ (entry_ok_link e conn He))) as H4.
    eapply extends_trans; [exact H4|]. eapply extends_trans; apply extends_log; [|apply view_ok_log]; apply H4.
  - pose proof (extends_identity registry conn v Hv) as H1.
    destruct (identity_of registry conn v) as [id v1]. cbn [snd] in H1.
    set (v2 := if _ && _ && _ then _ else _).
    assert (extends v1 v2) as H2.
    { unfold v2. destruct (_ && _ && _); apply extends_inside; try done; try apply H1. }
    pose proof (extends_index id scope (Some conn) v2 (proj1 H2)) as H3.
    destruct (entry_index id scope (Some conn) v2) as [j v3]. cbn [snd] in H3.
    eapply extends_trans; [exact H1|]. eapply extends_trans; [exact H2|].
    eapply extends_trans; [exact H3|].
    assert (extends v3 (if ok then sv_with_entries v3 (alter (entry_outbound name request response) j
      (sv_entries v3)) else v3)) as H4.
    { destruct ok; [|by apply extends_inside; [apply H3|..]].
      apply extends_alter; [apply H3|done|]. intros e. apply entry_ok_outbound. }
    eapply extends_trans; [exact H4|]. eapply extends_trans; apply extends_log; [|apply view_ok_log]; apply H4.
Qed.

(** ** The order of the entries *)

Implicit Types (l : list En).

Lemma insert_entry_perm e l : insert_entry e l ≡ₚ e :: l.
Proof.
  induction l as [|x l IH]; [done|]. cbn [insert_entry]. destruct (entry_before e x); [done|].
  rewrite IH. apply Permutation_swap.
Qed.

Lemma sort_by_key_perm l : sort_by_key l ≡ₚ l.
Proof.
  unfold sort_by_key. assert (∀ acc, foldl (λ acc e, insert_entry e acc) acc l ≡ₚ acc ++ l) as H;
    [|by apply (H [])].
  induction l as [|e l IH]; intros acc; simpl; [by rewrite app_nil_r|].
  rewrite IH, insert_entry_perm. simpl. apply Permutation_middle.
Qed.

(** No entry comes before the one it follows. *)
Definition in_order e1 e2 : Prop := entry_before e2 e1 = false.

Lemma before_asym e1 e2 : entry_before e1 e2 = true → entry_before e2 e1 = false.
Proof.
  unfold entry_before. rewrite (String.compare_antisym (en_identity e1)).
  destruct (String.compare (en_identity e2) (en_identity e1)); cbn [CompOpp]; try done.
  destruct (is_connector (en_scope e1)), (is_connector (en_scope e2)); try done;
    rewrite orb_true_iff, andb_true_iff, orb_false_iff, andb_false_iff, Z.ltb_lt, Z.eqb_eq, Z.ltb_lt,
      Z.ltb_ge, Z.eqb_neq, Z.ltb_ge; lia.
Qed.

Lemma insert_entry_sorted e l : Sorted in_order l → Sorted in_order (insert_entry e l).
Proof.
  induction 1 as [|x l Hs IH Hhd]; [by repeat constructor|]. cbn [insert_entry].
  destruct (entry_before e x) eqn:Hb.
  - repeat constructor; [done|done|]. by apply before_asym.
  - constructor; [done|]. destruct l as [|y l]; [by constructor|]. cbn [insert_entry].
    inversion_clear Hhd. destruct (entry_before e y); by constructor.
Qed.

Lemma sort_by_key_sorted l : Sorted in_order (sort_by_key l).
Proof.
  unfold sort_by_key. assert (∀ acc, Sorted in_order acc →
    Sorted in_order (foldl (λ acc e, insert_entry e acc) acc l)) as H; [|by apply (H [])].
  induction l as [|e l IH]; intros acc Hacc; simpl; [done|]. by apply IH, insert_entry_sorted.
Qed.

Lemma view_ok_perm v v' :
  view_ok v → sv_lua_stations v' = sv_lua_stations v → sv_entries v' ≡ₚ sv_entries v → view_ok v'.
Proof.
  intros (Hnd & Hall & Hreg) Hlua Hp.
  assert (keys v' ≡ₚ keys v) as Hk by (unfold keys; by rewrite Hp).
  split_and!; [by rewrite Hk|by rewrite Hp|]. intros id. rewrite Hlua. specialize (Hreg id).
  destruct (default (false, []) (sv_lua_stations v !! id)) as [cs conns].
  setoid_rewrite Hk. done.
Qed.

(** The entry selected, by its key. *)
Definition selected_key v : option (string * Scope) :=
  sv_selected v ≫= λ i, key <$> sv_entries v !! i.

Lemma sort_entries_spec v :
  view_ok v →
  view_ok (sort_entries v) ∧ sv_entries (sort_entries v) = sort_by_key (sv_entries v) ∧
  (is_Some (selected_key v) → selected_key (sort_entries v) = selected_key v).
Proof.
  intros Hv. unfold sort_entries. set (sorted := sv_with_entries v (sort_by_key (sv_entries v))).
  assert (view_ok sorted) as Hsorted by (apply (view_ok_perm v); [done|done|apply sort_by_key_perm]).
  change (sv_selected v ≫= λ i, (λ e, (en_identity e, en_scope e)) <$> sv_entries v !! i)
    with (selected_key v).
  destruct (selected_key v) as [[id scope]|] eqn:Hsel; [|split_and!; [done|done|by intros [? ?]]].
  assert ((id, scope) ∈ keys sorted) as Hin.
  { unfold keys, sorted. cbn. rewrite sort_by_key_perm. unfold selected_key in Hsel.
    apply bind_Some in Hsel as (i & _ & (e & He & ->)%fmap_Some).
    apply list_elem_of_fmap. exists e. split; [done|]. by eapply list_elem_of_lookup_2. }
  destruct (entry_position sorted id scope) as [i|] eqn:Hpos;
    [|by apply entry_position_none in Hpos].
  split_and!; [by apply (view_ok_fields sorted)|done|]. intros _.
  apply entry_position_some in Hpos as (e & He & Hk). unfold selected_key.
  cbn [sv_selected sv_entries mbind option_bind]. rewrite He. cbn. by rewrite Hk.
Qed.

Lemma extends_events registry now events v :
  view_ok v → extends v (foldl (λ v ev, process registry now ev v) v events).
Proof.
  revert v. induction events as [|ev events IH]; intros v Hv; cbn [foldl]; [by apply extends_inside|].
  pose proof (extends_process registry now ev v Hv) as H. eapply extends_trans; [exact H|].
  apply IH, H.
Qed.

Lemma selected_key_extends v v' :
  extends v v' → is_Some (selected_key v) → selected_key v' = selected_key v.
Proof.
  intros (_ & Hs & added & Hk) [k Hsel]. rewrite Hsel. unfold selected_key in *. rewrite Hs.
  apply bind_Some in Hsel as (i & -> & He). cbn [mbind option_bind].
  rewrite <-list_lookup_fmap in He |- *. fold (keys v) in He. fold (keys v'). rewrite Hk.
  by apply lookup_app_l_Some.
Qed.

Lemma drain_events_spec registry now events v :
  view_ok v →
  let v' := drain_events registry now events v in
  view_ok v' ∧ (events ≠ [] → Sorted in_order (sv_entries v')) ∧
  (is_Some (selected_key v) → selected_key v' = selected_key v) ∧ ∀ k, k ∈ keys v → k ∈ keys v'.
Proof.
  intros Hv. unfold drain_events. destruct events as [|ev events]; [by split_and!|].
  set (events' := ev :: events). cbn zeta.
  pose proof (extends_events registry now events' v Hv) as Hext. set (v1 := foldl _ v events') in *.
  destruct (sort_entries_spec v1 (proj1 Hext)) as (Hv' & He & Hsel). split_and!; [done| | |].
  - intros _. rewrite He. apply sort_by_key_sorted.
  - intros Hs. pose proof (selected_key_extends v v1 Hext Hs) as H1. rewrite Hsel, H1; [done|by rewrite H1].
  - intros k Hk. unfold keys. rewrite He, sort_by_key_perm. fold (keys v1).
    destruct Hext as (_ & _ & added & ->). apply elem_of_app. by left.
Qed.

Lemma filtered_sublist {A B} (f : A → B) (p : A → bool) (xs : list A) :
  f <$> List.filter p xs `sublist_of` f <$> xs.
Proof. induction xs as [|x xs IH]; [constructor|]. cbn. destruct (p x); by constructor. Qed.

Lemma deleted_station v id :
  view_ok v →
  view_ok (mkServerView (List.filter (λ e, negb (String.eqb (en_identity e) id)) (sv_entries v))
    (sv_conn_identity v) (delete id (sv_cs_configs v)) (delete id (sv_lua_stations v)) (sv_selected v) (sv_seq v)).
Proof.
  intros (Hnd & Hall & Hreg). set (v' := mkServerView _ _ _ _ _ _).
  assert (∀ k, k ∈ keys v' ↔ k.1 ≠ id ∧ k ∈ keys v) as Hkeys.
  { intros k. unfold keys, v'. cbn [sv_entries]. rewrite !list_elem_of_fmap.
    setoid_rewrite list_elem_of_In. setoid_rewrite filter_In. setoid_rewrite negb_true_iff.
    setoid_rewrite String.eqb_neq. split.
    - intros (e & -> & He & Hid). split; [exact Hid|by exists e].
    - intros (Hid & e & -> & He). exists e. auto. }
  split_and!.
  - unfold keys, v'. cbn [sv_entries]. 
    eapply sublist_NoDup; [exact Hnd|]. apply filtered_sublist.
  - apply Forall_forall. cbn. intros e He. apply list_elem_of_In, filter_In in He as [He _].
    apply list_elem_of_In in He. rewrite Forall_forall in Hall. by apply Hall.
  - intros id'. cbn [sv_lua_stations v']. destruct (decide (id' = id)) as [->|Hne].
    + rewrite lookup_delete_eq. cbn [default]. split_and!; [|constructor|].
      * rewrite Hkeys. naive_solver.
      * intros scope. rewrite Hkeys. split; [by intros ?%not_elem_of_nil|naive_solver].
    + rewrite lookup_delete_ne by done. specialize (Hreg id').
      destruct (default (false, []) (sv_lua_stations v !! id')) as [cs conns].
      destruct Hreg as (Hcs & Hc & Hconns). split_and!; [|done|].
      * rewrite Hkeys. naive_solver.
      * intros scope. rewrite Hkeys, Hconns. naive_solver.
Qed.

Lemma deleted_connector v i e :
  view_ok v → sv_entries v !! i = Some e → is_connector (en_scope e) = true →
  view_ok (sv_with_lua (sv_with_entries v (delete i (sv_entries v)))
    (alter (λ st, (st.1, List.filter (λ sc, negb (bool_decide (sc = en_scope e))) st.2)) (en_identity e)
       (sv_lua_stations v))).
Proof.
  intros (Hnd & Hall & Hreg) He Hscope. set (v' := sv_with_lua _ _).
  pose proof (delete_Permutation _ _ _ He) as Hp.
  assert (keys v ≡ₚ key e :: keys v') as Hk by (apply (fmap_Permutation key) in Hp; exact Hp).
  rewrite Hk in Hnd. apply NoDup_cons in Hnd as [Hno Hnd].
  assert (∀ k, k ∈ keys v' ↔ k ≠ key e ∧ k ∈ keys v) as Hkeys.
  { intros k. rewrite Hk, elem_of_cons. split; [|naive_solver]. intros Hin. split; [by intros ->|by right]. }
  assert (en_scope e ≠ Scope_CS) as Hcs by (intros Heq; rewrite Heq in Hscope; done).
  split_and!; [done|by apply Forall_delete|].
  intros id. cbn [sv_lua_stations v' sv_with_lua]. specialize (Hreg id).
  destruct (decide (id = en_identity e)) as [->|Hne].
  - rewrite lookup_alter_eq. destruct (sv_lua_stations v !! en_identity e) as [[cs conns]|];
      cbn [fmap option_fmap option_map default fst snd] in Hreg |- *; destruct Hreg as (Hc & Hndc & Hconns).
    + split_and!; [rewrite Hkeys; unfold key; naive_solver| |].
      * apply NoDup_ListNoDup, List.NoDup_filter, NoDup_ListNoDup, Hndc.
      * intros scope. rewrite list_elem_of_In, filter_In, <-list_elem_of_In, Hconns, Hkeys,
          negb_true_iff, bool_decide_eq_false. unfold key. naive_solver.
    + split_and!; [rewrite Hkeys; unfold key; naive_solver|done|].
      intros scope. rewrite Hconns, Hkeys. split; [intros []|naive_solver].
      split; [done|]. split; [|done]. intros [= ->].
      assert (en_scope e ∈ @nil Scope) as Hin; [|by apply not_elem_of_nil in Hin].
      by apply Hconns.
  - rewrite lookup_alter_ne by done.
    destruct (default (false, []) (sv_lua_stations v !! id)) as [cs conns].
    destruct Hreg as (Hc & Hndc & Hconns).
    split_and!; [rewrite Hkeys; unfold key; naive_solver|done|].
    intros scope. rewrite Hconns, Hkeys. unfold key. naive_solver.
Qed.

Lemma delete_selected_ok v : view_ok v → view_ok (delete_selected v).
Proof.
  intros Hv. unfold delete_selected.
  destruct (sv_selected v ≫= λ i, (λ e, (i, e)) <$> sv_entries v !! i) as [[i e]|] eqn:Hsel; [|done].
  apply bind_Some in Hsel as (i' & _ & (e' & He & [= -> ->])%fmap_Some).
  destruct (is_connector (en_scope e')) eqn:Hscope; cbn [negb]; [|by apply deleted_station].
  by apply deleted_connector.
Qed.

(** What happens to a view: a batch of events, a selection, a deletion, a stop. *)
Inductive ViewOp :=
| VO_Drain (registry : Z → option string) (now : Z) (events : list (ServerEvent Num))
| VO_Select (i : option nat)
| VO_Delete
| VO_Clear.

Definition empty_view : View := mkServerView [] ∅ ∅ ∅ None 0.

Definition view_step (op : ViewOp) v : View :=
  match op with
  | VO_Drain registry now events => drain_events registry now events v
  | VO_Select i => mkServerView (sv_entries v) (sv_conn_identity v) (sv_cs_configs v) (sv_lua_stations v) i (sv_seq v)
  | VO_Delete => delete_selected v
  | VO_Clear => mkServerView [] ∅ ∅ ∅ (sv_selected v) (sv_seq v)
  end.

Lemma empty_view_ok v : sv_entries v = [] → sv_lua_stations v = ∅ → view_ok v.
Proof.
  intros He Hl. unfold view_ok, registered, keys. rewrite He, Hl. split_and!; [constructor|constructor|].
  intros id. rewrite lookup_empty. cbn. split_and!; [|constructor|].
  - split; [done|]. by intros ?%not_elem_of_nil.
  - intros scope. split; [by intros ?%not_elem_of_nil|]. by intros [_ ?%not_elem_of_nil].
Qed.

Lemma view_run_ok ops v : view_ok v → view_ok (foldl (λ v op, view_step op v) v ops).
Proof.
  revert v. induction ops as [|op ops IH]; intros v Hv; [done|]. cbn [foldl]. apply IH.
  destruct op as [registry now events|i| |]; cbn [view_step].
  - by apply drain_events_spec.
  - by apply (view_ok_fields v).
  - by apply delete_selected_ok.
  - by apply empty_view_ok.
Qed.

(** Whatever the events, selections and deletions, the view of a management system
    has one entry for each station and each connector seen, of the kind of its scope,
    online exactly while it has a connection, with at most 200 messages; and scripts
    see the states of exactly these entries. A batch of events loses no entry, leaves
    the entries in order, and keeps the selection on the entry it was on. *)
Theorem entries_stay_registered ops registry now events :
  let v := foldl (λ v op, view_step op v) empty_view ops in
  let v' := drain_events registry now events v in
  view_ok v ∧ view_ok v' ∧ (events ≠ [] → Sorted in_order (sv_entries v')) ∧
  (is_Some (selected_key v) → selected_key v' = selected_key v) ∧
  ∀ k, k ∈ keys v → k ∈ keys v'.
Proof.
  intros v v'.
  assert (view_ok v) as Hv by (by apply view_run_ok, empty_view_ok).
  split; [exact Hv|]. by apply drain_events_spec.
Qed.

(** ** What an inbound call does to its entry *)

(** The entry a call is for, once the entry of the station exists. *)
Definition routed v (id name : string) (request : Json Num) : Scope :=
  let scope := inbound_connector request in
  if bool_decide (scope = Scope_CS)
  then default scope (tx ← stop_tx_id name request; connector_scope_for_tx v id tx) else scope.

Lemma log_state now i dir name payload ok v j :
  en_state <$> sv_entries (log_message now i dir name payload ok v) !! j = en_state <$> sv_entries v !! j ∧
  key <$> sv_entries (log_message now i dir name payload ok v) !! j = key <$> sv_entries v !! j.
Proof.
  unfold log_message. cbn [sv_entries]. destruct (decide (i = j)) as [->|Hne].
  - rewrite list_lookup_alter_eq. by destruct (sv_entries v !! j).
  - by rewrite list_lookup_alter_ne.
Qed.

Lemma inbound_effect registry now conn name request response v :
  view_ok v →
  let '(id, v1) := identity_of registry conn v in
  let v2 := (entry_index id Scope_CS (Some conn) v1).2 in
  let scope := routed v2 id name request in
  let v' := process registry now (SE_Inbound conn name request response) v in
  ∃ e0 j, key e0 = (id, scope) ∧ entry_ok e0 ∧
    (e0 ∈ sv_entries v2 ∨ e0 = new_entry id scope (Some conn) ∧ (id, scope) ∉ keys v2) ∧
    key <$> sv_entries v' !! j = Some (id, scope) ∧
    en_state <$> sv_entries v' !! j = Some (en_state (entry_inbound now name request response e0)).
Proof.
  intros Hv. cbn [process_event].
  pose proof (extends_identity registry conn v Hv) as H1.
  destruct (identity_of registry conn v) as [id v1]. cbn [snd] in H1.
  pose proof (extends_index id Scope_CS (Some conn) v1 (proj1 H1)) as H2.
  destruct (entry_index id Scope_CS (Some conn) v1) as [i v2]. cbn [snd] in H2 |- *.
  change (if bool_decide (inbound_connector request = Scope_CS) then _ else _) with (routed v2 id name request).
  set (scope := routed v2 id name request). pose proof (proj1 H2) as Hv2.
  pose proof (entry_index_spec id scope (Some conn) v2 Hv2) as H3.
  destruct (entry_index id scope (Some conn) v2) as [j v3].
  destruct H3 as (Hv3 & _ & _ & _ & e & He & Hk & Hwhich).
  exists e, j. split_and!; [done| |done| |].
  - destruct Hv3 as (_ & Hall & _). by apply (Forall_lookup_1 _ _ _ _ Hall He).
  - rewrite !(proj2 (log_state _ _ _ _ _ _ _ _)). cbn. rewrite list_lookup_alter_eq, He. cbn. by rewrite <-Hk.
  - rewrite !(proj1 (log_state _ _ _ _ _ _ _ _)). cbn. by rewrite list_lookup_alter_eq, He.
Qed.

(** The connector's state in an entry that stands for one. *)
Lemma connector_entry e id c :
  entry_ok e → key e = (id, Scope_for_connector c) → ∃ o, en_state e = ES_Conn o.
Proof.
  intros (Hkind & _) [= _ Hs]. rewrite Hs in Hkind. destruct (en_state e) as [s|o]; [done|]. by exists o.
Qed.

Lemma connector_for_tx v id (tx : Z) e :
  e ∈ sv_entries v → en_identity e = id → is_connector (en_scope e) = true →
  entry_transaction e = Some (int_text tx) →
  (∀ e', e' ∈ sv_entries v → en_identity e' = id → is_connector (en_scope e') = true →
     entry_transaction e' = Some (int_text tx) → en_scope e' = en_scope e) →
  connector_scope_for_tx v id (int_text tx) = Some (en_scope e).
Proof.
  intros He Hid Hconn Htx Huniq. unfold connector_scope_for_tx.
  set (p := λ e', _ && _ && _).
  destruct (find p (sv_entries v)) as [e'|] eqn:Hf.
  - apply find_some in Hf as [Hin Hp]. unfold p in Hp.
    rewrite !andb_true_iff, String.eqb_eq, bool_decide_eq_true in Hp. destruct Hp as [[? ?] ?].
    cbn. f_equal. apply Huniq; [by apply list_elem_of_In|done..].
  - pose proof (find_none _ _ Hf e (proj1 (list_elem_of_In _ _) He)) as Hno. unfold p in Hno.
    rewrite Hid, String.eqb_refl, Hconn, bool_decide_eq_true_2 in Hno by done. done.
Qed.

(** The reply to a call that the system refused is logged as one that succeeded. *)
Lemma error_logged_as_ok registry now conn a h v err :
  let '(ans, ev, _) := call now conn a h in
  view_ok v → ans = Err err →
  ∃ e m, e ∈ sv_entries (process registry now ev v) ∧ last (en_messages e) = Some m ∧
    lg_name m = ac_variant a ∧ lg_payload m = J_Null ∧ lg_ok m = Some true.
Proof.
  destruct (call now conn a h) as [[ans ev] h'] eqn:Hcall. intros Hv ->.
  unfold csms_handle_call in Hcall. destruct (csms_respond _ _ _ _ _) as [result h'']. injection Hcall as -> <- _.
  cbn [process_event].
  pose proof (extends_identity registry conn v Hv) as H1.
  destruct (identity_of registry conn v) as [id v1]. cbn [snd] in H1.
  pose proof (extends_index id Scope_CS (Some conn) v1 (proj1 H1)) as H2.
  destruct (entry_index id Scope_CS (Some conn) v1) as [i v2]. cbn [snd] in H2.
  set (scope := if bool_decide _ then _ else _).
  pose proof (entry_index_spec id scope (Some conn) v2 (proj1 H2)) as H3.
  destruct (entry_index id scope (Some conn) v2) as [j v3].
  destruct H3 as (_ & _ & _ & _ & e & He & _).
  eexists _, _. split; [|split].
  - apply (list_elem_of_lookup_2 _ j). unfold log_message. cbn [sv_entries sv_with_entries].
    rewrite !list_lookup_alter_eq, He. reflexivity.
  - cbn [en_messages]. rewrite push_capped_last, drop_app_le by (unfold MAX_MESSAGES; lia).
    by rewrite last_snoc.
  - done.
Qed.

(** ** A station and its management system *)

(** A call of a station, its answer, the event, and what the station does with the
    answer. *)
Definition exchange (registry : Z → option string) (now conn : Z) a (scope : Scope) (s : CsState F) h v
  : CsState F * CsmsHandler16 * View :=
  let '(ans, ev, h) := call now conn a h in
  (match ans with
   | Ok r => apply_post_send s (ac_variant a) scope (response_json (JE := JE) (VE := VE) (Req := Req) r)
   | Err _ => s
   end, h, process registry now ev v).

(** The system sees the connector as it is. *)
Definition mirrors (c : Connector F) (o : ConnectorState F) : Prop :=
  ob_connector_id o = kn_id c ∧ ob_transaction_id o = kn_transaction_id c ∧
  ob_status o = kn_status c ∧ ob_rfid o = kn_rfid c.

(** The connector [k] of station [id] at both ends. *)
Definition mirrored (id : string) (k : Z) (s : CsState F) v (c : Connector F) (o : ConnectorState F) : Prop :=
  connector s k = Some c ∧
  (∃ e, e ∈ sv_entries v ∧ key e = (id, Scope_for_connector k) ∧ en_state e = ES_Conn o) ∧
  mirrors c o.

Lemma connector_id (s : CsState F) k c : connector s k = Some c → kn_id c = k.
Proof. intros H. apply find_some in H as [_ H]. by apply Z.eqb_eq. Qed.

Lemma connector_altered (s : CsState F) k c f :
  connector s k = Some c → kn_id (f c) = kn_id c →
  ∃ i, scoped_index s (Some k) = Some i ∧
    connector (st_with_connectors s (alter f i (st_connectors s))) k = Some (f c).
Proof.
  unfold connector, scoped_index, connector_position. cbn [mbind option_bind st_connectors st_with_connectors].
  intros Hc Hid.
  assert (∃ i, fst <$> list_find (λ c', kn_id c' = k) (st_connectors s) = Some i ∧
    find (λ c', kn_id c' =? k) (alter f i (st_connectors s)) = Some (f c)) as (i & -> & Hi); [|by exists i].
  induction (st_connectors s) as [|x l IH]; [done|]. cbn [find] in Hc. simpl.
  destruct (Z.eqb_spec (kn_id x) k) as [Hx|Hx].
  - injection Hc as ->. exists 0%nat. rewrite decide_True by done. split; [done|]. cbn.
    by rewrite Hid, Hx, Z.eqb_refl.
  - destruct (IH Hc) as (i & Hi & Hf). exists (S i). rewrite decide_False by done.
    destruct (list_find _ l) as [[]|]; [|done]. injection Hi as ->. split; [done|]. cbn.
    destruct (Z.eqb_spec (kn_id x) k); [done|exact Hf].
Qed.

(** A stop is routed to the connector that has the transaction. *)
Lemma stop_routed conn v1 v2 request (tx k : Z) id e o :
  (∃ added, sv_entries v2 = sv_entries v1 ++ added ∧ ∀ x, x ∈ added → x = new_entry id Scope_CS (Some conn)) →
  as_i64 (jget "connectorId" request) = None → as_i64 (jget "transactionId" request) = Some tx →
  e ∈ sv_entries v1 → key e = (id, Scope_for_connector k) → en_state e = ES_Conn o →
  ob_transaction_id o = Some tx →
  (∀ e, e ∈ sv_entries v1 → en_identity e = id → entry_transaction e = Some (int_text tx) →
     en_scope e = Scope_for_connector k) →
  routed v2 id "StopTransaction" request = Scope_for_connector k.
Proof.
  intros (added & He2 & Hadded) Hk Htx He [= Heid Hescope] Hes Ho Huniq.
  unfold routed, inbound_connector. rewrite Hk, bool_decide_eq_true_2 by done.
  unfold stop_tx_id. cbn [String.eqb Ascii.eqb Bool.eqb]. rewrite Htx.
  cbn [mbind option_bind fmap option_fmap option_map].
  rewrite (connector_for_tx v2 id tx e); [by rewrite Hescope| |done|by rewrite Hescope| |].
  - rewrite He2. apply elem_of_app. by left.
  - unfold entry_transaction. by rewrite Hes, Ho.
  - intros e' He' Hid' Hconn' Htx'. rewrite Hescope. rewrite He2 in He'.
    apply elem_of_app in He' as [He'|He']; [by apply Huniq|]. by rewrite (Hadded _ He') in Hconn'.
Qed.

(** The only entry of its key. *)
Lemma entry_unique v e1 e2 : NoDup (keys v) → e1 ∈ sv_entries v → e2 ∈ sv_entries v → key e1 = key e2 → e1 = e2.
Proof.
  intros Hnd [n Hn]%list_elem_of_lookup [m Hm]%list_elem_of_lookup Hk.
  assert (n = m) as ->; [|congruence]. eapply (NoDup_lookup (keys v)); [done|..];
    unfold keys; rewrite list_lookup_fmap, ?Hn, ?Hm; cbn; by rewrite ?Hk.
Qed.

(** The generated structs of a StartTransaction answer keep its transaction id, a
    number of 32 bits with a sign. *)
Definition keeps_transaction_id a : Prop :=
  ∀ (tx : Z) (accepted : bool), - 2 ^ 31 <= tx < 2 ^ 31 →
    ∃ r : Response Resp, decode_result (Version := v1_6_version) a
        (J_Object [("transactionId", J_Int tx);
                   ("idTagInfo", J_Object [("status", J_String (if accepted then "Accepted" else "Invalid"))])]) =
        Ok r ∧
      as_i64 (jget "transactionId" (response_json (JE := JE) (VE := VE) (Req := Req) r)) = Some tx.

(** What the system answers to the start of a transaction: its counter, and the
    counter moves on. *)
Lemma start_answered (now : Z) a h :
  ac_variant a = "StartTransaction" → keeps_transaction_id a → 0 <= ch_next_txid h < 2 ^ 31 →
  ∃ r h', csms_respond error_text now "StartTransaction" a (request_json (JE := JE) (VE := VE) (Resp := Resp) a) h =
      (Ok r, h') ∧
    as_i64 (jget "transactionId" (response_json (JE := JE) (VE := VE) (Req := Req) r)) = Some (ch_next_txid h) ∧
    ch_next_txid h' = ch_next_txid h + 1 ∧ ch_rfids h' = ch_rfids h.
Proof.
  intros Hname Hcodec Hrange. unfold csms_respond, crafted. cbn [String.eqb Ascii.eqb Bool.eqb].
  set (accepted := scope_authorized _ _ _).
  destruct (Hcodec (ch_next_txid h) accepted) as (r & Hdec & Htx); [lia|].
  change (tag_status accepted) with (if accepted then "Accepted" else "Invalid"). rewrite Hdec.
  do 2 eexists. split; [done|]. split; [done|]. split; [|done]. cbn [ch_next_txid].
  by rewrite as_sint_nonneg by lia.
Qed.

(** C21: The start of a charging session leaves both ends with the same connector. When a
    station starts a transaction on a connector of its own, the system answers with the
    next number of its counter, which moves on, so that the next start gets another one;
    afterwards the station's connector and the one the system shows for it have this
    transaction, the card that was presented and the status Charging: also where the card
    is refused, since neither end looks at the status of the answer. The generated structs
    are taken to keep the id of an answer, which has 32 bits ([keeps_transaction_id]), and
    the counter to be below 2^31. *)
Theorem session_start_is_mirrored registry (now conn k : Z) a h v (s : CsState F) id c :
  view_ok v → (identity_of registry conn v).1 = id → ac_variant a = "StartTransaction" →
  let request := request_json (JE := JE) (VE := VE) (Resp := Resp) a in
  as_i64 (jget "connectorId" request) = Some k → 1 <= k →
  as_str (jget "idTag" request) = Some (kn_rfid c) → connector s k = Some c →
  keeps_transaction_id a → 0 <= ch_next_txid h < 2 ^ 31 →
  let '(s', h', v') := exchange registry now conn a (Scope_for_connector k) s h v in
  ch_next_txid h' = ch_next_txid h + 1 ∧ ch_rfids h' = ch_rfids h ∧
  ∃ c' o, mirrored id k s' v' c' o ∧ kn_transaction_id c' = Some (ch_next_txid h) ∧
    kn_status c' = "Charging".
Proof.
  intros Hv Hid Hname request Hk Hpos Htag Hc Hcodec Hrange.
  destruct (start_answered now a h Hname Hcodec Hrange) as (r & h' & Hresp & Htx & Hnext & Hrf).
  unfold exchange, csms_handle_call. rewrite Hname, Hresp. fold request.
  set (response := response_json r) in *.
  pose proof (inbound_effect registry now conn "StartTransaction" request response v Hv) as Heff.
  destruct (identity_of registry conn v) as [id' v1]. cbn [fst] in Hid. subst id'. cbn zeta in Heff.
  assert (∀ v2, routed v2 id "StartTransaction" request = Scope_for_connector k) as Hrouted.
  { intros v2. unfold routed, inbound_connector. rewrite Hk. destruct (Z.leb_spec 1 k); [done|lia]. }
  rewrite Hrouted in Heff. destruct Heff as (e0 & j & Hkey0 & Hok0 & _ & Hkey & Hstate).
  destruct (connector_entry e0 id k Hok0 Hkey0) as [o0 Ho0].
  destruct (connector_altered s k c (start_transaction (Some (ch_next_txid h))) Hc eq_refl) as (i & Hi & Hc').
  assert (apply_post_send s "StartTransaction" (Scope_for_connector k) response =
    st_with_connectors s (alter (start_transaction (Some (ch_next_txid h))) i (st_connectors s))) as ->.
  { unfold apply_post_send. cbn [sc_connector Scope_for_connector String.eqb Ascii.eqb Bool.eqb].
    by rewrite Hi, Htx. }
  split; [done|]. split; [done|].
  exists (start_transaction (Some (ch_next_txid h)) c), (ob_apply_inbound "StartTransaction" request response o0).
  split_and!; [|done|done]. apply fmap_Some in Hkey as (e & He & Hkey). rewrite He in Hstate.
  split_and!; [done| |].
  - exists e. split_and!; [by eapply list_elem_of_lookup_2|done|].
    injection Hstate as ->. unfold entry_inbound. by rewrite Ho0.
  - unfold ob_apply_inbound. rewrite Hk. cbn [String.eqb Ascii.eqb Bool.eqb].
    split_and!; cbn; rewrite ?Htag, ?Htx; try done. by rewrite (connector_id _ _ _ Hc).
Qed.

(** The stop of a charging session ends it at both ends. A StopTransaction names a
    transaction and no connector; the system finds the connector that has it, and
    afterwards neither end has the transaction or a limit for it, and both show the
    connector available. *)
Theorem session_stop_is_mirrored registry (now conn k tx : Z) a h v (s : CsState F) id c o :
  view_ok v → (identity_of registry conn v).1 = id → ac_variant a = "StopTransaction" →
  let request := request_json (JE := JE) (VE := VE) (Resp := Resp) a in
  as_i64 (jget "connectorId" request) = None → as_i64 (jget "transactionId" request) = Some tx →
  mirrored id k s v c o → kn_transaction_id c = Some tx →
  (∀ e, e ∈ sv_entries v → en_identity e = id → entry_transaction e = Some (int_text tx) →
     en_scope e = Scope_for_connector k) →
  let '(s', h', v') := exchange registry now conn a (Scope_for_connector k) s h v in
  ∃ c' o', mirrored id k s' v' c' o' ∧ kn_transaction_id c' = None ∧ kn_status c' = "Available" ∧
    lm_limit (ls_tx (kn_limits c')) = None ∧ lm_limit (ls_tx (ob_limits o')) = None.
Proof.
  intros Hv Hid Hname request Hk Htx (Hc & (e & He & Hkey & Hes) & Hm) Hcx Huniq.
  unfold exchange, csms_handle_call, csms_respond. rewrite Hname. fold request.
  cbn [crafted String.eqb Ascii.eqb Bool.eqb].
  change (default_response V1_6 "StopTransaction")
    with (Some (mkResponse "StopTransaction" (response_default (Num := Num) (Resp := Resp) "StopTransaction"))).
  cbn beta iota zeta.
  match goal with |- context [apply_post_send s _ _ ?r] => set (response := r) end.
  pose proof (inbound_effect registry now conn "StopTransaction" request response v Hv) as Heff.
  pose proof (identity_of_spec registry conn v) as Hsame.
  pose proof (extends_identity registry conn v Hv) as Hv1.
  destruct (identity_of registry conn v) as [id' v1]. cbn [fst snd] in Hid, Hv1. subst id'.
  destruct Hsame as (He1 & _ & _). cbn zeta in Heff.
  pose proof (entry_index_spec id Scope_CS (Some conn) v1 (proj1 Hv1)) as H2.
  destruct (entry_index id Scope_CS (Some conn) v1) as [i v2]. cbn [snd] in Heff.
  destruct H2 as ((Hnd2 & _) & _ & _ & (added & He2 & _ & Hadded) & _). rewrite He1 in He2.
  assert (e ∈ sv_entries v2) as Hin by (rewrite He2; apply elem_of_app; by left).
  assert (routed v2 id "StopTransaction" request = Scope_for_connector k) as Hrouted.
  { apply (stop_routed conn v v2 request tx k id e o); try done; [by exists added|].
    destruct Hm as (_ & -> & _). exact Hcx. }
  rewrite Hrouted in Heff. destruct Heff as (e0 & j & Hkey0 & Hok0 & Hwhich & Hkey' & Hstate).
  assert (e0 = e) as ->.
  { destruct Hwhich as [He0|[_ Hno]].
    - apply (entry_unique v2); [done..|congruence].
    - destruct Hno. rewrite <-Hkey. by apply list_elem_of_fmap_2. }
  destruct (connector_altered s k c end_transaction Hc eq_refl) as (n & Hn & Hc').
  assert (apply_post_send s "StopTransaction" (Scope_for_connector k) response =
    st_with_connectors s (alter end_transaction n (st_connectors s))) as ->.
  { unfold apply_post_send. cbn [sc_connector Scope_for_connector String.eqb Ascii.eqb Bool.eqb].
    by rewrite Hn. }
  exists (end_transaction c), (ob_apply_inbound "StopTransaction" request response o).
  assert (ob_apply_inbound "StopTransaction" request response o =
    mkConnectorState (ob_connector_id o) (ob_meter o) "Available" (ob_rfid o) None (ls_clear_tx (ob_limits o)))
    as Ho by (unfold ob_apply_inbound; by rewrite Hk).
  rewrite Ho. split_and!; [|done..].
  apply fmap_Some in Hkey' as (e' & He' & Hkey'). rewrite He' in Hstate.
  split_and!; [done| |].
  - exists e'. split_and!; [by eapply list_elem_of_lookup_2|done|].
    injection Hstate as ->. unfold entry_inbound. rewrite Hes. cbn [en_state en_with_state]. by rewrite Ho.
  - destruct Hm as (Hm1 & _ & _ & Hm2). by split_and!.
Qed.

(** A number as its text is read. *)
Definition read_back (text : string) : F := default (f64_of_int 0) (f64_parse text).

(** The readings a station sends are the readings the system shows. After the
    MeterValues of a connector, the system's meter has each value as its text with one
    decimal reads, the energy from its Wh and the current of exactly the phases in
    use; the session energy, which is not sent, and the phases stay. *)
Theorem readings_are_mirrored (now : Z) (s : CsState F) (scope : Scope) (c : Connector F) (m : Meter F) :
  scoped_connector s scope = Some c →
  let sent := kn_meter c in
  let current phase value old :=
    if uses_phase (mt_phases sent) phase then read_back (f64_fixed 1 value) else old in
  apply_meter_values (state_payload (Num := Num) now s "MeterValues" scope) m =
    mkMeter (mt_phases m) (read_back (f64_fixed 1 (mt_voltage sent)))
      (current "L1" (mt_current_1 sent) (mt_current_1 m)) (current "L2" (mt_current_2 sent) (mt_current_2 m))
      (current "L3" (mt_current_3 sent) (mt_current_3 m)) (read_back (f64_fixed 1 (mt_power sent)))
      (read_back (f64_fixed 1 (mt_frequency sent)))
      (f64_div (read_back (int_text (meter_wh c))) (f64_of_int 1000)) (mt_session_energy m)
      (read_back (f64_fixed 1 (mt_soc sent))) (read_back (f64_fixed 1 (mt_temperature sent))).
Proof.
  intros Hc sent current. unfold state_payload. rewrite Hc. cbn [String.eqb Ascii.eqb Bool.eqb].
  unfold current, sent, meter_value_json.
  destruct (uses_phase (mt_phases (kn_meter c)) "L1"), (uses_phase (mt_phases (kn_meter c)) "L2"),
    (uses_phase (mt_phases (kn_meter c)) "L3"); reflexivity.
Qed.

End props.

(** ** A station and a system whose structs are their JSON *)

Import Demo.

Lemma readings_are_mirrored_witness :
  scoped_connector station_state (Scope_for_connector 2) = Some (Connector_new 2) ∧
  apply_meter_values (state_payload (Num := unit) 0 station_state "MeterValues" (Scope_for_connector 2))
    zero_meter =
  mkMeter "L1,L2,L3" (read_back (f64_fixed 1 230)) (read_back (f64_fixed 1 0)) (read_back (f64_fixed 1 0))
    (read_back (f64_fixed 1 0)) (read_back (f64_fixed 1 0)) (read_back (f64_fixed 1 50))
    (f64_div (read_back (int_text (meter_wh (Connector_new (F := Z) 2)))) 1000) 0 (read_back (f64_fixed 1 0))
    (read_back (f64_fixed 1 25)).
Proof.
  assert (scoped_connector station_state (Scope_for_connector 2) = Some (Connector_new 2)) as H by reflexivity.
  split; [exact H|].
  exact (readings_are_mirrored 0 station_state (Scope_for_connector 2) (Connector_new 2) zero_meter H).
Defined.

Definition demo_error : OcppError unit unit → string := λ _, "error".

Definition start_call : Action (Json unit) :=
  call "StartTransaction" [("connectorId", J_Int 2); ("idTag", J_String "DEADBEEF")].
Definition stop_call : Action (Json unit) := call "StopTransaction" [("transactionId", J_Int 1)].
Definition demo_registry (conn : Z) : option string := Some "CP1".
Definition start_payload : Json unit :=
  J_Object [("transactionId", J_Int 1); ("idTagInfo", J_Object [("status", J_String "Accepted")])].

Lemma transaction_ids_count_up_witness :
  Z.of_nat (length [(0, 5, start_call); (1, 6, stop_call); (2, 7, start_call)]) < 2 ^ 63 - 1 ∧
  given_ids (JE := unit) (VE := unit) (Resp := Json unit) demo_error
    [(0, 5, start_call); (1, 6, stop_call); (2, 7, start_call)] (CsmsHandler16_new RfidStore_default) =
  seqZ 1 (Z.of_nat (length (starts [(0, 5, start_call); (1, 6, stop_call); (2, 7, start_call)]))).
Proof.
  split; [vm_compute; reflexivity|]. apply transaction_ids_count_up. vm_compute. reflexivity.
Defined.

Lemma demo_keeps_transaction_id :
  keeps_transaction_id (JE := unit) (VE := unit) (Resp := Json unit) start_call.
Proof. intros tx accepted _. eexists. split; reflexivity. Qed.

Lemma session_start_is_mirrored_witness :
  let '(s', h', v') := exchange (JE := unit) (VE := unit) (Resp := Json unit) demo_error demo_registry 0 5
    start_call (Scope_for_connector 2) station_state (CsmsHandler16_new RfidStore_default) empty_view in
  ch_next_txid h' = 2 ∧ ch_rfids h' = RfidStore_default ∧
  ∃ c' o, mirrored "CP1" 2 s' v' c' o ∧ kn_transaction_id c' = Some 1 ∧ kn_status c' = "Charging".
Proof.
  apply (session_start_is_mirrored demo_error demo_registry 0 5 2 start_call
    (CsmsHandler16_new RfidStore_default) empty_view station_state "CP1" (Connector_new 2)); try reflexivity.
  - by apply empty_view_ok.
  - lia.
  - exact demo_keeps_transaction_id.
  - cbn. lia.
Defined.

(** After the start of a session. *)
Definition started_view : ServerView Z unit :=
  process_event demo_registry 0
    (SE_Inbound 5 "StartTransaction" (ac_request start_call) start_payload) empty_view.
Definition started_station : CsState Z :=
  apply_post_send station_state "StartTransaction" (Scope_for_connector 2) start_payload.
Definition started_connector : Connector Z := start_transaction (Some 1) (Connector_new 2).
Definition started_observed : ConnectorState Z :=
  ob_apply_inbound "StartTransaction" (ac_request start_call) start_payload ConnectorState_default.

Lemma session_stop_is_mirrored_witness :
  mirrored "CP1" 2 started_station started_view started_connector started_observed ∧
  let '(s', h', v') := exchange (JE := unit) (VE := unit) (Resp := Json unit) demo_error demo_registry 9 5
    stop_call (Scope_for_connector 2) started_station (CsmsHandler16_new RfidStore_default) started_view in
  ∃ c' o', mirrored "CP1" 2 s' v' c' o' ∧ kn_transaction_id c' = None ∧ kn_status c' = "Available" ∧
    lm_limit (ls_tx (kn_limits c')) = None ∧ lm_limit (ls_tx (ob_limits o')) = None.
Proof.
  assert (mirrored "CP1" 2 started_station started_view started_connector started_observed) as Hm.
  { split; [reflexivity|]. split; [|split_and!; reflexivity].
    eexists. split; [vm_compute; right; left|split; reflexivity]. }
  split; [exact Hm|].
  apply (session_stop_is_mirrored demo_error demo_registry 9 5 2 1 stop_call
    (CsmsHandler16_new RfidStore_default) started_view started_station "CP1" started_connector started_observed);
    try reflexivity; [|exact Hm|].
  - apply extends_process. by apply empty_view_ok.
  - intros e He _ Htx. vm_compute in He.
    apply elem_of_cons in He as [->|He]; [discriminate Htx|].
    apply list_elem_of_singleton in He as ->. reflexivity.
Defined.
