(* ===== verification/WordWrap.v ===== *)
(** * Wrapping text at word boundaries

    [word_wrap] of [ferrowl-ui/src/widgets/markdown_render.rs], which the diff
    view and the markdown field break their lines with, the functions it is
    made of, and [wrap_line], which breaks a rendered line. A character is its UTF-8 bytes; its style is a parameter. *)

From stdpp Require Import base list numbers strings.
From S2P Require Import Prelude Bytes IntText.

Local Open Scope nat_scope.

(** [str::chars]: a byte and the continuation bytes after it. *)
Fixpoint chars (s : list Z) : list (list Z) :=
  match s with
  | [] => []
  | b :: s' =>
      match s' with
      | n :: _ =>
          if is_cont n
          then match chars s' with c :: cs => (b :: c) :: cs | [] => [[b]] end
          else [b] :: chars s'
      | [] => [[b]]
      end
  end.

(** [s.chars().count()] *)
Definition char_count (s : list Z) : nat := length (chars s).

Section word_wrap.
Context {Style : Type} `{EqDecision Style} (default_style : Style).

Definition StyledChar : Type := list Z * Style.

Definition is_space (c : StyledChar) : bool := bool_decide (c.1 = [32%Z]).

(** The text and style of the last run grow, or a run starts. *)
Fixpoint push_run (c : StyledChar) (out : list (list Z * Style)) : list (list Z * Style) :=
  match out with
  | [] => [c]
  | [last] => if decide (last.2 = c.2) then [(last.1 ++ c.1, last.2)] else [last; c]
  | run :: out' => run :: push_run c out'
  end.

Definition compress_runs (cs : list StyledChar) : list (list Z * Style) :=
  foldl (λ out c, push_run c out) [] cs.

(** A round of [tokenize]: the tokens so far and the one being read. *)
Definition token_step (st : list (list StyledChar) * list StyledChar * option bool)
    (c : StyledChar) : list (list StyledChar) * list StyledChar * option bool :=
  let '(tokens, cur, cur_is_space) := st in
  let sp := is_space c in
  match cur_is_space with
  | None => (tokens, cur ++ [c], Some sp)
  | Some b => if eqb b sp then (tokens, cur ++ [c], Some sp)
              else (tokens ++ [cur], [c], Some sp)
  end.

Definition tokenize (cs : list StyledChar) : list (list StyledChar) :=
  let '(tokens, cur, _) := foldl token_step ([], [], None) cs in
  match cur with [] => tokens | _ => tokens ++ [cur] end.

(** [cap_for] *)
Definition cap_for (width indent row_index : nat) : nat :=
  Nat.max (if row_index =? 0 then width else width - indent) 1.

(** The loop that breaks a token too long for a row; every round takes at
    least one character. *)
Fixpoint break_token (fuel width indent : nat) (rows : list (list StyledChar))
    (cur remaining : list StyledChar) : list (list StyledChar) * list StyledChar :=
  let cap := cap_for width indent (length rows) in
  match fuel with
  | O => (rows, cur ++ remaining)
  | S fuel' =>
      if length remaining <=? cap then (rows, cur ++ remaining)
      else break_token fuel' width indent (rows ++ [take (Nat.max cap 1) remaining]) cur
             (drop (Nat.max cap 1) remaining)
  end.

(** [while cur.last() is a space: cur.pop()] *)
Fixpoint drop_spaces (rev_cur : list StyledChar) : list StyledChar :=
  match rev_cur with
  | c :: rest => if is_space c then drop_spaces rest else rev_cur
  | [] => []
  end.

Definition trim_spaces (cur : list StyledChar) : list StyledChar :=
  reverse (drop_spaces (reverse cur)).

Definition is_space_token (token : list StyledChar) : bool :=
  match token with c :: _ => is_space c | [] => false end.

(** A round of the loop over the tokens. *)
Definition wrap_token (width indent : nat) (st : list (list StyledChar) * list StyledChar)
    (token : list StyledChar) : list (list StyledChar) * list StyledChar :=
  let '(rows, cur) := st in
  let cap := cap_for width indent (length rows) in
  if length cur + length token <=? cap then (rows, cur ++ token)
  else if is_space_token token && negb (length cur =? 0) then (rows ++ [cur], [])
  else if is_space_token token then break_token (length token) width indent rows cur token
  else
    let '(rows, cur) :=
      if length cur =? 0 then (rows, cur) else (rows ++ [trim_spaces cur], []) in
    break_token (length token) width indent rows cur token.

(** The rows before their runs are compressed. *)
Definition wrap_rows (cs : list StyledChar) (width indent : nat) : list (list StyledChar) :=
  let '(rows, cur) := foldl (wrap_token width indent) ([], []) (tokenize cs) in
  match cur with [] => rows | _ => rows ++ [cur] end.

(** The runs of row [i]: a continuation row is indented. *)
Definition row_runs (indent i : nat) (row : list StyledChar) : list (list Z * Style) :=
  let r :=
    if (0 <? i) && (0 <? indent) then
      let base := match row with c :: _ => c.2 | [] => default_style end in
      [(replicate indent 32%Z, base)]
    else [] in
  r ++ compress_runs row.

Definition word_wrap (cs : list StyledChar) (width indent : nat) : list (list (list Z * Style)) :=
  imap (row_runs indent) (wrap_rows cs width indent).

(** The loop of [chunk_by_char]; a positive width takes at least one
    character each round. *)
Fixpoint chunks (fuel : nat) (cs : list StyledChar) (width : nat)
    : list (list (list Z * Style)) :=
  match fuel, cs with
  | S fuel', _ :: _ => compress_runs (take width cs) :: chunks fuel' (drop width cs) width
  | _, _ => []
  end.

Definition chunk_by_char (cs : list StyledChar) (width : nat) : list (list (list Z * Style)) :=
  chunks (length cs) cs width.

Record RenderedLine := {
  rl_spans : list (list Z * Style);
  rl_hanging_indent : nat;
  rl_char_wrap : bool;
  rl_rule : bool;
}.

Definition rule_char : list Z := [226; 148; 128]%Z.

Definition line_chars (line : RenderedLine) : list StyledChar :=
  concat ((λ s, (λ c, (c, s.2)) <$> chars s.1) <$> rl_spans line).

Definition wrap_line (line : RenderedLine) (width : nat) : list (list (list Z * Style)) :=
  if width =? 0 then [[]]
  else if rl_rule line then
    let style := match rl_spans line with s :: _ => s.2 | [] => default_style end in
    [[(concat (replicate width rule_char), style)]]
  else
    match line_chars line with
    | [] => [[]]
    | cs =>
        if rl_char_wrap line then chunk_by_char cs width
        else
          let indent :=
            if width - 1 <=? rl_hanging_indent line then 0 else rl_hanging_indent line in
          word_wrap cs width indent
    end.

(** ** Tokens *)

Definition word_char (c : StyledChar) : Prop := is_space c = false.
Definition space_char (c : StyledChar) : Prop := is_space c = true.

Definition token_ok (t : list StyledChar) : Prop :=
  t ≠ [] ∧ (Forall space_char t ∨ Forall word_char t).

Lemma tokenize_spec cs : concat (tokenize cs) = cs ∧ Forall token_ok (tokenize cs).
Proof using Type.
  unfold tokenize.
  assert (let '(tokens, cur, sp) := foldl token_step ([], [], None) cs in
    concat tokens ++ cur = cs ∧ Forall token_ok tokens ∧
    match sp with
    | None => cur = []
    | Some b => cur ≠ [] ∧ Forall (λ c, is_space c = b) cur
    end) as H.
  { induction cs as [|c cs IH] using rev_ind; [done|]. rewrite foldl_snoc.
    destruct (foldl token_step ([], [], None) cs) as [[tokens cur] sp].
    destruct IH as (Hc & Ht & Hsp). cbn. destruct sp as [b|].
    - destruct Hsp as [Hne Hall]. destruct (eqb b (is_space c)) eqn:E.
      + apply eqb_prop in E. subst b. split_and!; [by rewrite app_assoc, Hc|done|by destruct cur|].
        apply Forall_app. split; [done|by repeat constructor].
      + split_and!; [by rewrite concat_app; cbn; rewrite app_nil_r, Hc| |done|by repeat constructor].
        apply Forall_app. split; [done|]. constructor; [|done]. split; [done|].
        destruct b; [left|right]; exact Hall.
    - subst cur. rewrite app_nil_r in Hc.
      split_and!; [by rewrite Hc|done|done|by repeat constructor]. }
  destruct (foldl token_step ([], [], None) cs) as [[tokens cur] sp].
  destruct H as (Hc & Ht & Hsp). destruct cur as [|c cur]; [by rewrite app_nil_r in Hc|].
  split.
  - rewrite concat_app. cbn. by rewrite app_nil_r.
  - apply Forall_app. split; [done|]. constructor; [|done]. split; [done|].
    destruct sp as [b|]; [|done]. destruct Hsp as [_ Hall]. destruct b; [left|right]; exact Hall.
Qed.

(** ** Rows *)

Definition word_chars (cs : list StyledChar) : list StyledChar := filter word_char cs.

Definition rows_fit (width indent : nat) (rows : list (list StyledChar)) : Prop :=
  ∀ i row, rows !! i = Some row → length row <= cap_for width indent i.

Lemma rows_fit_snoc width indent rows row :
  rows_fit width indent rows → length row <= cap_for width indent (length rows) →
  rows_fit width indent (rows ++ [row]).
Proof using Type.
  intros H Hl i r [Hi|[Hi Hr]]%lookup_app_Some; [by apply H|].
  destruct (i - length rows) as [|k] eqn:E; [|done]. injection Hr as <-.
  by replace i with (length rows) by lia.
Qed.

Lemma cap_for_pos width indent i : 1 <= cap_for width indent i.
Proof using Type. unfold cap_for. lia. Qed.

Lemma break_token_spec fuel width indent rows remaining :
  length remaining <= fuel → rows_fit width indent rows →
  let st := break_token fuel width indent rows [] remaining in
  rows_fit width indent st.1 ∧ length st.2 <= cap_for width indent (length st.1) ∧
  concat st.1 ++ st.2 = concat rows ++ remaining.
Proof using Type.
  revert rows remaining. induction fuel as [|fuel IH]; intros rows remaining Hf Hr; cbn.
  { destruct remaining; [|cbn in Hf; lia]. pose proof (cap_for_pos width indent (length rows)).
    split_and!; [done|cbn; lia|done]. }
  pose proof (cap_for_pos width indent (length rows)) as Hcap.
  destruct (length remaining <=? cap_for width indent (length rows)) eqn:E.
  { apply Nat.leb_le in E. done. }
  apply Nat.leb_gt in E. rewrite Nat.max_l by lia.
  destruct (IH (rows ++ [take (cap_for width indent (length rows)) remaining])
    (drop (cap_for width indent (length rows)) remaining)) as (H1 & H2 & H3).
  - rewrite length_drop. lia.
  - apply rows_fit_snoc; [done|]. rewrite length_take. lia.
  - split_and!; [done|done|]. rewrite H3, concat_app. cbn.
    by rewrite app_nil_r, <- app_assoc, take_drop.
Qed.

Lemma break_token_fits fuel width indent rows t :
  length t <= cap_for width indent (length rows) →
  break_token fuel width indent rows [] t = (rows, t).
Proof using Type. intros H. destruct fuel; cbn; [done|]. by rewrite (proj2 (Nat.leb_le _ _) H). Qed.

(** What trimming takes away are spaces at the end. *)
Lemma trim_spaces_spec cur : ∃ sp, cur = trim_spaces cur ++ sp ∧ Forall space_char sp.
Proof using Type.
  unfold trim_spaces. induction cur as [|c cur IH] using rev_ind; [by exists []|].
  rewrite reverse_snoc. cbn [drop_spaces]. destruct (is_space c) eqn:E.
  - destruct IH as (sp & Hc & Hsp). exists (sp ++ [c]). split.
    + apply (f_equal (λ l, l ++ [c])) in Hc. by rewrite <- app_assoc in Hc.
    + apply Forall_app. split; [done|by repeat constructor].
  - exists []. rewrite reverse_cons, reverse_involutive, app_nil_r. done.
Qed.

Lemma word_chars_app a b : word_chars (a ++ b) = word_chars a ++ word_chars b.
Proof using Type. apply filter_app. Qed.

Lemma word_chars_spaces cs : Forall space_char cs → word_chars cs = [].
Proof using Type.
  unfold word_chars. induction 1 as [|c cs Hc Hcs IH]; [done|].
  rewrite filter_cons_False; [done|]. unfold word_char, space_char in *. congruence.
Qed.

(** A word. *)
Definition whole_word (w : list StyledChar) : Prop := w ≠ [] ∧ Forall word_char w.

(** [w] stands in one piece in a row. *)
Definition unbroken (w : list StyledChar) (rows : list (list StyledChar)) : Prop :=
  Exists (λ row, ∃ a b, row = a ++ w ++ b) rows.

Lemma unbroken_trim w cur rows :
  Forall word_char w → unbroken w (rows ++ [cur]) → unbroken w (rows ++ [trim_spaces cur]).
Proof using Type.
  intros Hw [H|H]%Exists_app; apply Exists_app; [by left|right].
  apply Exists_cons in H as [(a & b & Hc)|H]; [|by inversion H]. constructor.
  destruct (trim_spaces_spec cur) as (sp & Hsp & Hs).
  generalize dependent (trim_spaces cur). intros cur' Hsp. rewrite Hsp in Hc. clear cur Hsp.
  revert b Hc. induction sp as [|s sp IH] using rev_ind; intros b Hc.
  { rewrite app_nil_r in Hc. eauto. }
  apply Forall_app in Hs as [Hs Hs1]. rewrite app_assoc in Hc.
  destruct b as [|c b _] using rev_ind.
  - rewrite app_nil_r in Hc. destruct w as [|c w _] using rev_ind; [by exists [], cur'|].
    rewrite app_assoc in Hc. apply app_inj_tail in Hc as [_ <-].
    apply Forall_app in Hw as [_ Hw]. apply Forall_cons in Hw as [Hw _].
    apply Forall_cons in Hs1 as [Hs1 _]. unfold word_char, space_char in *. congruence.
  - rewrite !app_assoc in Hc. apply app_inj_tail in Hc as [Hc _].
    rewrite <- app_assoc in Hc. by apply (IH Hs b).
Qed.

(** The state of the loop after the tokens of [cs], those of [ws] being the
    words no wider than any row. *)
Definition wrap_ok (width indent : nat) (cs : list StyledChar) (ws : list (list StyledChar))
    (st : list (list StyledChar) * list StyledChar) : Prop :=
  rows_fit width indent st.1 ∧ length st.2 <= cap_for width indent (length st.1) ∧
  word_chars (concat st.1 ++ st.2) = word_chars cs ∧
  Forall (λ w, whole_word w ∧ unbroken w (st.1 ++ [st.2])) ws.

Definition narrow (width indent : nat) (t : list StyledChar) : bool :=
  (length t <=? Nat.max (Nat.min width (width - indent)) 1) && negb (is_space_token t).

Lemma narrow_fits width indent t i :
  narrow width indent t = true → length t <= cap_for width indent i.
Proof using Type.
  intros [H _]%andb_prop. apply Nat.leb_le in H. unfold cap_for.
  destruct (i =? 0); lia.
Qed.

Lemma unbroken_grow w rows cur cur' : unbroken w (rows ++ [cur]) → unbroken w (rows ++ [cur ++ cur']).
Proof using Type.
  intros [H|H]%Exists_app; apply Exists_app; [by left|right].
  apply Exists_cons in H as [(a & b & ->)|H]; [|by inversion H]. constructor.
  exists a, (b ++ cur'). by rewrite <- !app_assoc.
Qed.

Lemma unbroken_more w rows rows' : unbroken w rows → unbroken w (rows ++ rows').
Proof using Type. intros H. apply Exists_app. by left. Qed.

Lemma ws_grow ws t (narrow_t : bool) rows rows' :
  Forall (λ w, whole_word w ∧ unbroken w rows) ws →
  (∀ w, unbroken w rows → unbroken w rows') →
  (narrow_t = true → whole_word t ∧ unbroken t rows') →
  Forall (λ w, whole_word w ∧ unbroken w rows') (if narrow_t then ws ++ [t] else ws).
Proof using Type.
  intros Hws Hrows Ht.
  assert (Forall (λ w, whole_word w ∧ unbroken w rows') ws) as Hws'.
  { eapply Forall_impl; [exact Hws|]. intros w [H1 H2]. auto. }
  destruct narrow_t; [|done]. apply Forall_app. split; [done|by repeat constructor; apply Ht].
Qed.

Lemma break_ok width indent cs ws rows t :
  rows_fit width indent rows → word_chars (concat rows) = word_chars cs →
  Forall (λ w, whole_word w ∧ unbroken w rows) ws →
  (narrow width indent t = true → whole_word t) →
  wrap_ok width indent (cs ++ t) (if narrow width indent t then ws ++ [t] else ws)
    (break_token (length t) width indent rows [] t).
Proof using Type.
  intros Hr Hw Hws Ht.
  destruct (break_token_spec (length t) width indent rows t) as (H1 & H2 & H3); [done..|].
  split_and!; [done|done|by rewrite H3, !word_chars_app, Hw|].
  assert (∀ fuel rows0 rem, ∃ more, (break_token fuel width indent rows0 [] rem).1 = rows0 ++ more)
    as Hmore.
  { induction fuel as [|fuel IH]; intros rows0 rem; cbn; [by exists []; rewrite app_nil_r|].
    destruct (_ <=? _); [by exists []; rewrite app_nil_r|].
    edestruct IH as [more ->]. rewrite <- app_assoc. by eexists. }
  apply ws_grow with rows; [done| |].
  - intros w Hu. destruct (Hmore (length t) rows t) as [more ->].
    by apply unbroken_more, unbroken_more.
  - intros Hn. split; [by apply Ht|]. rewrite break_token_fits by by apply narrow_fits.
    apply Exists_app. right. constructor. exists [], []. by rewrite app_nil_r.
Qed.

Lemma wrap_token_ok width indent cs ws st t :
  wrap_ok width indent cs ws st → token_ok t →
  wrap_ok width indent (cs ++ t) (if narrow width indent t then ws ++ [t] else ws)
    (wrap_token width indent st t).
Proof using Type.
  destruct st as [rows cur]. intros (Hr & Hc & Hw & Hws) [Hne Ht]. cbn [fst snd] in *.
  assert (if is_space_token t then Forall space_char t else Forall word_char t) as Htok.
  { destruct t as [|c t]; [done|]. cbn. destruct (is_space c) eqn:E; destruct Ht as [Ht|Ht]; auto;
      apply Forall_cons in Ht as [Ht _]; unfold word_char, space_char in Ht; congruence. }
  assert (narrow width indent t = true → is_space_token t = false ∧ whole_word t) as Hnar.
  { intros [_ H]%andb_prop. apply negb_true_iff in H. by rewrite H in Htok. }
  unfold wrap_token.
  destruct (Nat.leb_spec (length cur + length t) (cap_for width indent (length rows))) as [Hfit|Hfit].
  { split_and!; cbn [fst snd]; [done|rewrite length_app; lia|by rewrite app_assoc, word_chars_app, Hw, <- word_chars_app|].
    apply ws_grow with (rows ++ [cur]); [done|intros w; apply unbroken_grow|].
    intros Hn. split; [by apply Hnar|]. apply Exists_app. right. constructor.
    exists cur, []. by rewrite app_nil_r. }
  destruct (length cur =? 0) eqn:Ecur.
  { (* an empty row *)
    apply Nat.eqb_eq in Ecur. destruct cur; [|done]. rewrite andb_false_r.
    rewrite app_nil_r in Hw.
    assert (Forall (λ w, whole_word w ∧ unbroken w rows) ws) as Hws'.
    { eapply Forall_impl; [exact Hws|]. intros w [H1 H2]. split; [done|].
      apply Exists_app in H2 as [H2|H2]; [done|].
      apply Exists_cons in H2 as [(a & b & H2)|H2]; [|by inversion H2].
      destruct H1 as [Hnil _]. by destruct a, w. }
    destruct (is_space_token t); (apply break_ok; [done|done|done|by intros [??]%Hnar]). }
  cbn [negb]. rewrite andb_true_r. destruct (is_space_token t) eqn:Esp.
  { (* spaces at the end of a row are dropped *)
    assert (narrow width indent t = false) as ->.
    { apply not_true_is_false. by intros [H _]%Hnar. }
    split_and!; cbn [fst snd].
    - by apply rows_fit_snoc.
    - cbn. lia.
    - rewrite concat_app, app_nil_r. cbn [concat]. by rewrite app_nil_r, word_chars_app, (word_chars_app cs),
        (word_chars_spaces t), app_nil_r, <- word_chars_app.
    - eapply Forall_impl; [exact Hws|]. intros w [H1 H2]. split; [done|by apply unbroken_more]. }
  destruct (trim_spaces_spec cur) as (sp & Hcur & Hsp). apply break_ok.
  - apply rows_fit_snoc; [done|]. rewrite Hcur, length_app in Hc. lia.
  - rewrite concat_app. cbn [concat]. rewrite app_nil_r, <- Hw, !word_chars_app. f_equal.
    rewrite Hcur at 2. by rewrite word_chars_app, (word_chars_spaces sp), app_nil_r.
  - eapply Forall_impl; [exact Hws|]. intros w [[H0 H1] H2]. split; [done|by apply unbroken_trim].
  - by intros [_ ?]%Hnar.
Qed.

(** The wrapped rows: each fits, no character but spaces is lost or moved,
    and words no wider than a row stay in one piece. *)
Lemma wrap_rows_spec cs width indent :
  rows_fit width indent (wrap_rows cs width indent) ∧
  word_chars (concat (wrap_rows cs width indent)) = word_chars cs ∧
  Forall (λ w, unbroken w (wrap_rows cs width indent))
    (filter (λ t, narrow width indent t = true) (tokenize cs)).
Proof using Type.
  destruct (tokenize_spec cs) as [Hcs Htok]. unfold wrap_rows.
  assert (wrap_ok width indent (concat (tokenize cs))
    (filter (λ t, narrow width indent t = true) (tokenize cs))
    (foldl (wrap_token width indent) ([], []) (tokenize cs))) as H.
  { clear Hcs. induction (tokenize cs) as [|t ts IH] using rev_ind; [split_and!; cbn; [done|lia|done|done]|].
    apply Forall_app in Htok as [Hts Ht]. apply Forall_cons in Ht as [Ht _].
    rewrite foldl_snoc, concat_app, filter_app, filter_cons, filter_nil. cbn. rewrite app_nil_r.
    pose proof (wrap_token_ok width indent _ _ _ t (IH Hts) Ht) as Hstep.
    destruct (narrow width indent t); [done|]. cbn. by rewrite app_nil_r. }
  rewrite Hcs in H.
  destruct (foldl (wrap_token width indent) ([], []) (tokenize cs)) as [rows cur].
  destruct H as (Hr & Hc & Hw & Hu). cbn [fst snd] in *. destruct cur as [|c cur].
  - rewrite app_nil_r in Hw. split_and!; [done|done|]. eapply Forall_impl; [exact Hu|].
    intros w [[Hne _] H]. apply Exists_app in H as [H|H]; [done|].
    apply Exists_cons in H as [(a & b & H)|H]; [|by inversion H]. by destruct a, w.
  - split_and!.
    + by apply rows_fit_snoc.
    + rewrite concat_app. cbn [concat]. by rewrite app_nil_r.
    + eapply Forall_impl; [exact Hu|]. by intros w [_ H].
Qed.

(** The text of a row, and of its runs. *)
Definition plain (row : list StyledChar) : list Z := concat row.*1.
Definition runs_text (runs : list (list Z * Style)) : list Z := concat runs.*1.

Lemma push_run_text c out : runs_text (push_run c out) = runs_text out ++ c.1.
Proof using Type.
  unfold runs_text. induction out as [|run out IH]; [cbn; by rewrite app_nil_r|].
  destruct out as [|run' out].
  - cbn [push_run]. case_decide; cbn; by rewrite !app_nil_r.
  - change (push_run c (run :: run' :: out)) with (run :: push_run c (run' :: out)).
    rewrite !fmap_cons. cbn [concat]. rewrite fmap_cons in IH. cbn [concat] in IH.
    by rewrite IH, <- !app_assoc.
Qed.

Lemma compress_runs_text cs : runs_text (compress_runs cs) = plain cs.
Proof using Type.
  unfold compress_runs, plain. induction cs as [|c cs IH] using rev_ind; [done|].
  rewrite foldl_snoc, push_run_text, IH, fmap_app, concat_app. cbn. by rewrite app_nil_r.
Qed.

Lemma row_runs_text indent i row :
  runs_text (row_runs indent i row) = replicate (if i =? 0 then 0 else indent) 32%Z ++ plain row.
Proof using Type.
  unfold row_runs. rewrite <- (compress_runs_text row). unfold runs_text.
  destruct (Nat.ltb_spec 0 i), (Nat.eqb_spec i 0); try lia; cbn [andb]; [|by subst].
  destruct (Nat.ltb_spec 0 indent); [done|]. by replace indent with 0 by lia.
Qed.

(** Wrapping at a width loses no word. The text drawn is that of the
    wrapped rows, each indented after the first; no row is wider than its
    room; apart from spaces all characters are there in their order; and a
    word no wider than a row stands in one piece in one row. *)
Theorem wrapping_keeps_words cs width indent :
  let rows := wrap_rows cs width indent in
  runs_text <$> word_wrap cs width indent =
    imap (λ i row, replicate (if i =? 0 then 0 else indent) 32%Z ++ plain row) rows ∧
  (∀ i row, rows !! i = Some row → length row <= cap_for width indent i) ∧
  filter word_char (concat rows) = filter word_char cs ∧
  Forall (λ w, Exists (λ row, ∃ a b, row = a ++ w ++ b) rows)
    (filter (λ t, narrow width indent t = true) (tokenize cs)).
Proof using Type.
  cbn zeta. destruct (wrap_rows_spec cs width indent) as (H1 & H2 & H3). split_and!; [|done..].
  unfold word_wrap. rewrite fmap_imap. apply imap_ext. intros i row _. apply row_runs_text.
Qed.

(** ** Whole lines *)

Lemma break_token_rows fuel width indent rows cur remaining :
  rows ≠ [] → (break_token fuel width indent rows cur remaining).1 ≠ [].
Proof using Type.
  revert rows cur remaining. induction fuel as [|fuel IH]; intros rows cur remaining H; cbn; [done|].
  destruct (_ <=? _); [done|]. apply IH. by destruct rows.
Qed.

(** Something has been read: there is a row, or one is begun. *)
Definition begun (st : list (list StyledChar) * list StyledChar) : Prop := st.1 ≠ [] ∨ st.2 ≠ [].

Lemma break_token_begun fuel width indent rows cur remaining :
  remaining ≠ [] → begun (break_token fuel width indent rows cur remaining).
Proof using Type.
  intros H. destruct fuel; cbn; [right; by destruct cur|].
  destruct (_ <=? _); [right; by destruct cur|]. left. apply break_token_rows. by destruct rows.
Qed.

Lemma wrap_token_begun width indent st t : t ≠ [] → begun (wrap_token width indent st t).
Proof using Type.
  intros H. destruct st as [rows cur]. unfold wrap_token.
  destruct (_ <=? _); [right; by destruct cur|].
  destruct (_ && _); [left; by destruct rows|].
  destruct (is_space_token t); [by apply break_token_begun|].
  destruct (length cur =? 0); by apply break_token_begun.
Qed.

Lemma wrap_rows_begun cs width indent : cs ≠ [] → wrap_rows cs width indent ≠ [].
Proof using Type.
  intros Hne. destruct (tokenize_spec cs) as [Hcs Htok]. unfold wrap_rows.
  destruct (tokenize cs) as [|t ts _] using rev_ind; [by subst|].
  apply Forall_app in Htok as [_ Ht]. apply Forall_cons in Ht as [[Ht _] _].
  rewrite foldl_snoc.
  destruct (wrap_token_begun width indent (foldl (wrap_token width indent) ([], []) ts) t Ht) as [H|H];
    destruct (wrap_token _ _ _ _) as [rows [|c cur]]; cbn in *; (done || by destruct rows).
Qed.

(** The row drawn for [runs] is at most [width] columns wide. *)
Definition fits (width : nat) (runs : list (list Z * Style)) : Prop :=
  ∃ pad row, runs_text runs = replicate pad 32%Z ++ plain row ∧ pad + length row <= width.

Lemma chunks_fit fuel cs width :
  0 < width → length cs <= fuel →
  Forall (fits width) (chunks fuel cs width) ∧
  concat (runs_text <$> chunks fuel cs width) = plain cs.
Proof using Type.
  intros Hw. revert cs. induction fuel as [|fuel IH]; intros [|c cs] Hl; [done|cbn in Hl; lia|done|].
  cbn [chunks]. destruct (IH (drop width (c :: cs))) as [IH1 IH2].
  { rewrite length_drop. cbn in *. lia. }
  rewrite fmap_cons. cbn [concat]. rewrite compress_runs_text, IH2. split.
  - constructor; [|done]. exists 0, (take width (c :: cs)). rewrite compress_runs_text, length_take.
    split; [done|lia].
  - unfold plain. by rewrite <- concat_app, <- fmap_app, take_drop.
Qed.

(** A rendered line has at least one row, and no row is wider than the width. *)
Theorem wrapped_lines_fit line width :
  0 < width → wrap_line line width ≠ [] ∧ Forall (fits width) (wrap_line line width).
Proof using Type.
  intros Hw. unfold wrap_line. destruct (Nat.eqb_spec width 0); [lia|].
  assert (fits width []) as Hempty by (exists 0, []; split; [done|cbn; lia]).
  destruct (rl_rule line).
  { split; [done|]. repeat constructor. exists 0, (replicate width (rule_char, default_style)).
    unfold runs_text, plain. rewrite fmap_replicate, length_replicate. cbn. by rewrite app_nil_r. }
  destruct (line_chars line) as [|c cs] eqn:E; [split; [done|by repeat constructor]|].
  destruct (rl_char_wrap line); [split; [done|by apply chunks_fit]|].
  set (indent := if _ <=? _ then 0 else _).
  assert (indent = 0 ∨ indent + 1 < width) as Hi.
  { subst indent. destruct (Nat.leb_spec (width - 1) (rl_hanging_indent line)); lia. }
  destruct (wrap_rows_spec (c :: cs) width indent) as (Hr & _).
  pose proof (wrap_rows_begun (c :: cs) width indent ltac:(done)) as Hne.
  unfold word_wrap. split.
  - by destruct (wrap_rows _ _ _).
  - apply Forall_lookup. intros i runs Hx. rewrite list_lookup_imap in Hx.
    destruct (wrap_rows (c :: cs) width indent !! i) as [row|] eqn:Er; [|done].
    injection Hx as <-. exists (if i =? 0 then 0 else indent), row.
    split; [apply row_runs_text|]. specialize (Hr _ _ Er). unfold cap_for in Hr.
    destruct (i =? 0); lia.
Qed.
End word_wrap.
