(* ===== verification/WordDiff.v ===== *)
(** * The words two lines of a diff differ in

    [word_tokens] and [word_diff_spans] of [ferrowl-ui/src/widgets/diff_view.rs]:
    a removed line and the added line next to it are cut into tokens, a
    longest common subsequence of the two is matched, and what is left over on
    a side is emphasised. A line is bytes in UTF-8; which characters are
    letters or digits is a parameter, the standard library's Unicode table. *)

From stdpp Require Import base sorting numbers list.
From S2P Require Import Prelude WordWrap.


Local Open Scope nat_scope.

(** A half-open range of character positions. *)
Definition CharRange : Type := nat * nat.

Definition MAX_WORD_TOKENS : nat := 512.

Section word_diff.
Context (is_alphanumeric : list Z → bool).

(** A letter, a digit or an underscore. *)
Definition is_word (c : list Z) : bool := is_alphanumeric c || bool_decide (c = [95%Z]).

(** The loop of [word_tokens] from position [i] on: the tokens so far, where
    the open one starts and its class. *)
Fixpoint token_scan (i : nat) (cs : list (list Z)) (out : list CharRange) (start : nat)
    (current : option bool) : list CharRange * nat :=
  match cs with
  | [] => (out, start)
  | c :: cs' =>
      let w := is_word c in
      match current with
      | Some w' =>
          if eqb w' w then token_scan (S i) cs' out start (Some w)
          else token_scan (S i) cs' (out ++ [(start, i)]) i (Some w)
      | None => token_scan (S i) cs' out start (Some w)
      end
  end.

Definition word_tokens (text : list Z) : list CharRange :=
  let '(out, start) := token_scan 0 (chars text) [] 0 None in
  let len := char_count text in
  if 0 <? len then out ++ [(start, len)] else out.

(** [text_of]: the characters of a range. *)
Definition text_of (cs : list (list Z)) (r : CharRange) : Outcome (list Z) :=
  cs ← index_range cs (Z.of_nat r.1) (Z.of_nat r.2); Ret (concat cs).

(** ** The table *)


(** [dp[i][j]] *)
Definition cell (dp : list (list nat)) (i j : nat) : Outcome nat :=
  row ← expect (dp !! i); expect (row !! j).

(** [dp[i][j] = v] *)
Definition set_cell (dp : list (list nat)) (i j v : nat) : Outcome (list (list nat)) :=
  row ← expect (dp !! i);
  _ ← expect (row !! j);
  Ret (<[i := <[j := v]> row]> dp).

Definition fill_cell (a_tok b_tok : list (list Z)) (i j : nat) (dp : list (list nat))
    : Outcome (list (list nat)) :=
  x ← expect (a_tok !! i);
  y ← expect (b_tok !! j);
  v ← (if decide (x = y) then d ← cell dp (i + 1) (j + 1); Ret (d + 1)
       else d ← cell dp (i + 1) j; r ← cell dp i (j + 1); Ret (Nat.max d r));
  set_cell dp i j v.

(** [for j in (0..j).rev()] *)
Fixpoint fill_row (a_tok b_tok : list (list Z)) (i j : nat) (dp : list (list nat))
    : Outcome (list (list nat)) :=
  match j with
  | O => Ret dp
  | S j' => dp ← fill_cell a_tok b_tok i j' dp; fill_row a_tok b_tok i j' dp
  end.

(** [for i in (0..i).rev()] *)
Fixpoint fill_table (a_tok b_tok : list (list Z)) (i : nat) (dp : list (list nat)) : Outcome (list (list nat)) :=
  match i with
  | O => Ret dp
  | S i' =>
      dp ← fill_row a_tok b_tok i' (length b_tok) dp;
      fill_table a_tok b_tok i' dp
  end.

Definition empty_table (la lb : nat) : list (list nat) := replicate (la + 1) (replicate (lb + 1) 0).

(** ** The walk over the table *)

(** [matched[i] = true] *)
Definition mark (matched : list bool) (i : nat) : Outcome (list bool) :=
  _ ← expect (matched !! i); Ret (<[i := true]> matched).

(** The loop; every round advances on one side. *)
Fixpoint walk (fuel : nat) (a_tok b_tok : list (list Z)) (dp : list (list nat)) (i j : nat)
    (matched : list bool) : Outcome (list bool) :=
  if (i <? length a_tok) && (j <? length b_tok) then
    match fuel with
    | O => Ret matched
    | S fuel' =>
        x ← expect (a_tok !! i);
        y ← expect (b_tok !! j);
        here ← cell dp i j;
        diagonal ← cell dp (i + 1) (j + 1);
        if bool_decide (x = y) && (here =? diagonal + 1) then
          matched ← mark matched i;
          walk fuel' a_tok b_tok dp (i + 1) (j + 1) matched
        else
          down ← cell dp (i + 1) j;
          right ← cell dp i (j + 1);
          if right <=? down then walk fuel' a_tok b_tok dp (i + 1) j matched
          else walk fuel' a_tok b_tok dp i (j + 1) matched
    end
  else Ret matched.

(** ** The spans *)

(** The last span grows over an adjacent range, or the range is a new span. *)
Fixpoint push_span (r : CharRange) (spans : list CharRange) : list CharRange :=
  match spans with
  | [] => [r]
  | [last] => if last.2 =? r.1 then [(last.1, r.2)] else [last; r]
  | s :: spans' => s :: push_span r spans'
  end.

(** The loop over the tokens from [idx] on. *)
Fixpoint unmatched_spans (idx : nat) (a : list CharRange) (matched : list bool)
    (spans : list CharRange) : Outcome (list CharRange) :=
  match a with
  | [] => Ret spans
  | r :: a' =>
      m ← expect (matched !! idx);
      unmatched_spans (S idx) a' matched (if m : bool then spans else push_span r spans)
  end.

Definition word_diff_spans (text other : list Z) : Outcome (list CharRange) :=
  let a := word_tokens text in
  let b := word_tokens other in
  if (MAX_WORD_TOKENS <? length a) || (MAX_WORD_TOKENS <? length b) then Ret []
  else
    a_tok ← mapM (text_of (chars text)) a;
    b_tok ← mapM (text_of (chars other)) b;
    dp ← fill_table a_tok b_tok (length a_tok) (empty_table (length a_tok) (length b_tok));
    matched ← walk (length a_tok + length b_tok) a_tok b_tok dp 0 0
      (replicate (length a_tok) false);
    unmatched_spans 0 a matched [].

(** ** Tokens *)

(** The ranges cut the positions from [s] to [e]. *)
Inductive cuts : nat → list CharRange → nat → Prop :=
| cuts_nil s : cuts s [] s
| cuts_cons s m e rs : s < m → cuts m rs e → cuts s ((s, m) :: rs) e.

Lemma cuts_snoc s rs m e : cuts s rs m → m < e → cuts s (rs ++ [(m, e)]) e.
Proof using Type.
  induction 1 as [s|s m' e' rs Hm _ IH]; cbn; intros; eauto using cuts.
Qed.

(** The characters of a range. *)
Definition piece (cs : list (list Z)) (r : CharRange) : list (list Z) :=
  take (r.2 - r.1) (drop r.1 cs).

(** The characters of a token are all of one class, and the tokens' classes
    alternate, starting with [w]. *)
Definition alternates (cs : list (list Z)) (rs : list CharRange) (w : bool) : Prop :=
  ∀ k r, rs !! k = Some r → Forall (λ c, is_word c = xorb w (Nat.odd k)) (piece cs r).

Lemma alternates_snoc cs rs r w :
  alternates cs (rs ++ [r]) w ↔
  alternates cs rs w ∧ Forall (λ c, is_word c = xorb w (Nat.odd (length rs))) (piece cs r).
Proof using Type.
  split.
  - intros H. split; [|by apply H, list_lookup_middle].
    intros k r' Hk. apply H. by apply lookup_app_l_Some.
  - intros [H1 H2] k r' [Hk|[Hge Hk]]%lookup_app_Some; [by apply H1|].
    destruct (k - length rs) as [|n] eqn:E; [|by destruct n].
    cbn in Hk. simplify_eq. by replace k with (length rs) by lia.
Qed.

Lemma piece_snoc cs s i c : s <= i → cs !! i = Some c → piece cs (s, S i) = piece cs (s, i) ++ [c].
Proof using Type.
  intros Hs Hi. unfold piece. cbn [fst snd]. rewrite Nat.sub_succ_l by done.
  apply take_S_r. rewrite lookup_drop. by replace (s + (i - s)) with i by lia.
Qed.

Lemma piece_empty cs i : piece cs (i, i) = [].
Proof using Type. unfold piece. cbn. by rewrite Nat.sub_diag. Qed.

Lemma token_scan_spec cs pre out start w0 :
  cuts 0 out start → start < length pre →
  alternates (pre ++ cs) (out ++ [(start, length pre)]) w0 →
  let '(out', start') :=
    token_scan (length pre) cs out start (Some (xorb w0 (Nat.odd (length out)))) in
  cuts 0 out' start' ∧ start' < length (pre ++ cs) ∧
  alternates (pre ++ cs) (out' ++ [(start', length (pre ++ cs))]) w0.
Proof using Type.
  revert pre out start. induction cs as [|c cs IH]; intros pre out start Hc Hs Ha.
  { cbn. by rewrite app_nil_r in *. }
  specialize (IH (pre ++ [c])). rewrite length_app, <- app_assoc in IH. cbn in IH.
  rewrite Nat.add_1_r in IH. cbn [token_scan].
  assert ((pre ++ c :: cs) !! length pre = Some c) as Hl by (by apply list_lookup_middle).
  destruct (eqb _ _) eqn:E.
  - apply eqb_prop in E. rewrite <- E. apply IH; [done|lia|].
    apply alternates_snoc in Ha as [Ha1 Ha2]. apply alternates_snoc. split; [done|].
    rewrite (piece_snoc _ _ _ c) by (done || lia). apply Forall_app. by repeat constructor.
  - apply eqb_false_iff in E.
    replace (is_word c) with (xorb w0 (Nat.odd (length (out ++ [(start, length pre)])))).
    2: { rewrite length_app, Nat.add_1_r, Nat.odd_succ, <- Nat.negb_odd.
         by destruct (is_word c), w0, (Nat.odd (length out)). }
    apply IH; [by apply cuts_snoc|lia|]. apply alternates_snoc. split; [done|].
    rewrite (piece_snoc _ _ _ c), piece_empty by (done || lia). cbn. repeat constructor.
    rewrite length_app, Nat.add_1_r, Nat.odd_succ, <- Nat.negb_odd.
    by destruct (is_word c), w0, (Nat.odd (length out)).
Qed.

(** The tokens cut the text into maximal runs of one class. *)
Lemma word_tokens_spec text :
  cuts 0 (word_tokens text) (char_count text) ∧ ∃ w, alternates (chars text) (word_tokens text) w.
Proof using Type.
  unfold word_tokens, char_count. destruct (chars text) as [|c cs] eqn:E.
  { cbn. split; [constructor|]. by exists true. }
  cbn [token_scan]. pose proof (token_scan_spec cs [c] [] 0 (is_word c)) as H. cbn in H.
  rewrite xorb_false_r in *.
  destruct (token_scan 1 cs [] 0 (Some (is_word c))) as [out start].
  destruct H as (H1 & H2 & H3); [constructor|lia| |].
  { apply (alternates_snoc _ []). split; [done|]. cbn. repeat constructor.
    by rewrite xorb_false_r. }
  cbn [fst snd length] in *. destruct (Nat.ltb_spec 0 (S (length cs))); [|lia].
  split; [by apply cuts_snoc|eauto].
Qed.

Lemma cuts_range s rs e r : cuts s rs e → r ∈ rs → s <= r.1 ∧ r.1 < r.2 ∧ r.2 <= e.
Proof using Type.
  assert (∀ s rs e, cuts s rs e → s <= e) as Hle by (induction 1; lia).
  induction 1 as [s|s m e rs Hm Hc IH]; [by rewrite elem_of_nil|].
  apply Hle in Hc. intros [->|Hr]%elem_of_cons; [cbn; lia|]. specialize (IH Hr). lia.
Qed.

(** The texts of the tokens. *)
Definition token_texts (text : list Z) : list (list Z) :=
  (λ r, concat (piece (chars text) r)) <$> word_tokens text.

Lemma text_of_Ret text r :
  r ∈ word_tokens text → text_of (chars text) r = Ret (concat (piece (chars text) r)).
Proof using Type.
  intros Hr. destruct (word_tokens_spec text) as [Hc _].
  destruct (cuts_range _ _ _ _ Hc Hr) as (_ & H1 & H2). unfold char_count in H2.
  unfold text_of. rewrite index_range_Ret by lia. cbn. unfold piece.
  by rewrite Nat2Z.id, <- Nat2Z.inj_sub, Nat2Z.id by lia.
Qed.

Lemma mapM_text_of text : mapM (text_of (chars text)) (word_tokens text) = Ret (token_texts text).
Proof using Type.
  unfold token_texts.
  assert (∀ rs, (∀ r, r ∈ rs → r ∈ word_tokens text) →
    mapM (text_of (chars text)) rs = Ret ((λ r, concat (piece (chars text) r)) <$> rs)) as H.
  { induction rs as [|r rs IH]; intros Hr; [done|]. cbn [mapM].
    rewrite text_of_Ret by (apply Hr; left). cbn.
    rewrite IH by (intros; apply Hr; by right). done. }
  by apply H.
Qed.
End word_diff.

(** ** Common subsequences *)

Section lcs.
Context {A : Type} `{EqDecision A}.

(** The length of a longest common subsequence. *)
Fixpoint lcs (a : list A) : list A → nat :=
  match a with
  | [] => λ _, 0
  | x :: a' =>
      fix go b :=
        match b with
        | [] => 0
        | y :: b' => if decide (x = y) then S (lcs a' b') else Nat.max (lcs a' b) (go b')
        end
  end.

Lemma lcs_nil_r a : lcs a [] = 0.
Proof using Type. by destruct a. Qed.

Lemma lcs_cons x a y b :
  lcs (x :: a) (y :: b) =
  if decide (x = y) then S (lcs a b) else Nat.max (lcs a (y :: b)) (lcs (x :: a) b).
Proof using Type. done. Qed.

Lemma sublist_tail (z x : A) c l : z :: c `sublist_of` x :: l → c `sublist_of` l.
Proof using Type.
  intros [H|(k & [= -> ->] & H)]%sublist_cons_r; [|done].
  transitivity (z :: c); [by constructor|done].
Qed.

(** No common subsequence is longer. *)
Lemma lcs_longest a b c : c `sublist_of` a → c `sublist_of` b → length c <= lcs a b.
Proof using Type.
  revert b c. induction a as [|x a IHa]; intros b c Ha.
  { apply sublist_nil_r in Ha as ->. cbn. lia. }
  revert c Ha. induction b as [|y b IHb]; intros c Ha Hb.
  { apply sublist_nil_r in Hb as ->. cbn. lia. }
  rewrite lcs_cons. destruct (decide (x = y)) as [->|Hne].
  - destruct c as [|z c]; [cbn; lia|]. apply sublist_tail in Ha, Hb.
    specialize (IHa _ _ Ha Hb). cbn. lia.
  - apply sublist_cons_r in Ha as [Ha|(k & -> & Ha)].
    + specialize (IHa _ _ Ha Hb). lia.
    + apply sublist_cons_r in Hb as [Hb|(k' & [= -> ->] & Hb)]; [|done].
      assert (x :: k `sublist_of` x :: a) as Hk by (by constructor).
      specialize (IHb _ Hk Hb). lia.
Qed.

(** The elements of the marked positions. *)
Fixpoint kept (a : list A) (ks : list bool) : list A :=
  match a, ks with
  | x :: a', k :: ks' => if k then x :: kept a' ks' else kept a' ks'
  | _, _ => []
  end.

Lemma kept_sublist a ks : kept a ks `sublist_of` a.
Proof using Type.
  revert ks. induction a as [|x a IH]; intros [|[] ks]; cbn; try constructor; auto.
  apply sublist_nil_l.
Qed.

Lemma kept_none a n : kept a (replicate n false) = [].
Proof using Type. revert n. induction a; intros [|n]; cbn; auto. Qed.
End lcs.

(** ** The table holds the lengths *)

Section table.
Context (a b : list (list Z)).

Definition shaped (dp : list (list nat)) : Prop :=
  length dp = length a + 1 ∧ Forall (λ row, length row = length b + 1) dp.

(** The cells from [(i, j)] on in the order they are filled, and the last
    row and column. *)
Definition filled (i j : nat) (dp : list (list nat)) : Prop :=
  shaped dp ∧ ∀ i' j', i' <= length a → j' <= length b →
    i < i' ∨ i' = i ∧ j <= j' ∨ i' = length a ∨ j' = length b →
    cell dp i' j' = Ret (lcs (drop i' a) (drop j' b)).

Lemma shaped_row dp i :
  shaped dp → i <= length a → ∃ row, dp !! i = Some row ∧ length row = length b + 1.
Proof using Type.
  intros [H1 H2] Hi. destruct (lookup_lt_is_Some_2 dp i) as [row Hr]; [lia|].
  exists row. split; [done|].
  exact (Forall_lookup_1 _ _ _ _ H2 Hr).
Qed.

Lemma set_cell_spec dp i j v :
  shaped dp → i <= length a → j <= length b →
  ∃ dp', set_cell dp i j v = Ret dp' ∧ shaped dp' ∧
    ∀ i' j', cell dp' i' j' = if decide (i' = i ∧ j' = j) then Ret v else cell dp i' j'.
Proof using Type.
  intros Hs Hi Hj. destruct (shaped_row _ _ Hs Hi) as (row & Hr & Hl).
  destruct (lookup_lt_is_Some_2 row j) as [w Hw]; [lia|].
  exists (<[i := <[j := v]> row]> dp). split_and!.
  - unfold set_cell. rewrite Hr. cbn. by rewrite Hw.
  - destruct Hs as [H1 H2]. split.
    { by rewrite length_insert. }
    apply Forall_insert; [done|]. cbv beta. by rewrite length_insert.
  - intros i' j'. unfold cell. destruct (decide (i' = i)) as [->|Hne].
    + rewrite list_lookup_insert_eq, Hr by eauto using lookup_lt_Some. cbn.
      destruct (decide (j' = j)) as [->|Hj'].
      * by rewrite list_lookup_insert_eq, decide_True by eauto using lookup_lt_Some.
      * by rewrite list_lookup_insert_ne, decide_False by (congruence || by intros []).
    + by rewrite list_lookup_insert_ne, decide_False by (congruence || by intros []).
Qed.

Lemma fill_cell_spec i j dp :
  i < length a → j < length b → filled i (S j) dp →
  ∃ dp', fill_cell a b i j dp = Ret dp' ∧ filled i j dp'.
Proof using Type.
  intros Hi Hj [Hs Hf].
  destruct (lookup_lt_is_Some_2 a i Hi) as [x Hx], (lookup_lt_is_Some_2 b j Hj) as [y Hy].
  unfold fill_cell. rewrite Hx, Hy. cbn [expect mbind outcome_bind].
  rewrite !Hf by lia. cbn [mbind outcome_bind].
  destruct (set_cell_spec dp i j (lcs (drop i a) (drop j b))) as (dp' & E & Hs' & Hc); [done|lia..|].
  exists dp'. split.
  - rewrite (drop_S _ _ _ Hx), (drop_S _ _ _ Hy), lcs_cons, <- !drop_S in E by done.
    rewrite !Nat.add_1_r. by destruct (decide (x = y)).
  - split; [done|]. intros i' j' Hi' Hj' Hor. rewrite Hc.
    destruct (decide (i' = i ∧ j' = j)) as [[-> ->]|Hne]; [done|]. apply Hf; [done..|]. lia.
Qed.

Lemma fill_row_spec i j dp :
  i < length a → j <= length b → filled i j dp →
  ∃ dp', fill_row a b i j dp = Ret dp' ∧ filled i 0 dp'.
Proof using Type.
  intros Hi. revert dp. induction j as [|j IH]; intros dp Hj Hf; [eauto|].
  destruct (fill_cell_spec i j dp) as (dp' & E & Hf'); [done|lia|done|].
  cbn. rewrite E. cbn. apply IH; [lia|done].
Qed.

Lemma fill_table_spec i dp :
  i <= length a → filled i 0 dp →
  ∃ dp', fill_table a b i dp = Ret dp' ∧ filled 0 0 dp'.
Proof using Type.
  revert dp. induction i as [|i IH]; intros dp Hi Hf; [eauto|].
  destruct (fill_row_spec i (length b) dp) as (dp' & E & Hf'); [lia|done| |].
  { destruct Hf as [Hs Hf]. split; [done|]. intros i' j' Hi' Hj' Hor. apply Hf; lia. }
  cbn. rewrite E. cbn. apply IH; [lia|done].
Qed.

Lemma empty_table_filled : filled (length a) 0 (empty_table (length a) (length b)).
Proof using Type.
  split.
  - unfold empty_table. split; [by rewrite length_replicate|].
    apply Forall_replicate. by rewrite length_replicate.
  - intros i j Hi Hj Hor. unfold cell, empty_table.
    rewrite lookup_replicate_2 by lia. cbn. rewrite lookup_replicate_2 by lia. cbn. f_equal.
    destruct (decide (i = length a)) as [->|Hne]; [by rewrite drop_all|].
    replace j with (length b) by lia. by rewrite drop_all, lcs_nil_r.
Qed.

(** ** The walk marks a longest common subsequence *)

(** A round that leaves token [i] unmarked. *)
Lemma kept_skip i x ks : a !! i = Some x → kept (drop i a) (false :: ks) = kept (drop (S i) a) ks.
Proof using Type. intros Hx. by rewrite (drop_S _ _ _ Hx). Qed.

Lemma kept_mark i x ks :
  a !! i = Some x → kept (drop i a) (true :: ks) = x :: kept (drop (S i) a) ks.
Proof using Type. intros Hx. by rewrite (drop_S _ _ _ Hx). Qed.

Lemma replicate_tail i : i < length a →
  replicate (length a - i) false = false :: replicate (length a - S i) false.
Proof using Type. intros Hi. by replace (length a - i) with (S (length a - S i)) by lia. Qed.

(** What the walk adds from [(i, j)] on. *)
Definition marks (i j : nat) (ks : list bool) : Prop :=
  length ks = length a - i ∧ kept (drop i a) ks `sublist_of` drop j b ∧
  length (kept (drop i a) ks) = lcs (drop i a) (drop j b).

Lemma walk_over dp fuel i j pre :
  length a <= i ∨ length b <= j →
  ∃ ks, walk fuel a b dp i j (pre ++ replicate (length a - i) false) = Ret (pre ++ ks) ∧
    marks i j ks.
Proof using Type.
  intros H. exists (replicate (length a - i) false). split.
  { destruct fuel; cbn [walk]; destruct (Nat.ltb_spec i (length a)), (Nat.ltb_spec j (length b));
      (done || lia). }
  unfold marks. rewrite length_replicate, kept_none. split_and!; [done|apply sublist_nil_l|].
  destruct H; [by rewrite (drop_ge a)|by rewrite (drop_ge b), lcs_nil_r].
Qed.

Lemma walk_spec dp fuel i j pre :
  filled 0 0 dp → length pre = i → i <= length a → j <= length b →
  length a - i + (length b - j) <= fuel →
  ∃ ks, walk fuel a b dp i j (pre ++ replicate (length a - i) false) = Ret (pre ++ ks) ∧
    marks i j ks.
Proof using Type.
  intros [_ Hf]. revert i j pre. induction fuel as [|fuel IH]; intros i j pre Hp Hi Hj Hfuel;
    [by apply walk_over; lia|].
  destruct (Nat.lt_ge_cases i (length a)) as [Hi'|]; [|by apply walk_over; left].
  destruct (Nat.lt_ge_cases j (length b)) as [Hj'|]; [|by apply walk_over; right].
  destruct (lookup_lt_is_Some_2 a i Hi') as [x Hx], (lookup_lt_is_Some_2 b j Hj') as [y Hy].
  cbn [walk]. destruct (Nat.ltb_spec i (length a)), (Nat.ltb_spec j (length b)); try lia.
  rewrite Hx, Hy. cbn [expect mbind outcome_bind andb]. rewrite !Nat.add_1_r, !Hf by lia.
  cbn [mbind outcome_bind].
  assert (lcs (drop i a) (drop j b) = if decide (x = y) then S (lcs (drop (S i) a) (drop (S j) b))
    else Nat.max (lcs (drop (S i) a) (drop j b)) (lcs (drop i a) (drop (S j) b))) as Hl.
  { by rewrite (drop_S _ _ _ Hx), (drop_S _ _ _ Hy), lcs_cons. }
  destruct (bool_decide (x = y) && _) eqn:E.
  - apply andb_prop in E as [->%bool_decide_eq_true _].
    rewrite replicate_tail by done. unfold mark.
    rewrite list_lookup_middle, insert_app_r_alt, Hp, Nat.sub_diag by lia. cbn.
    destruct (IH (S i) (S j) (pre ++ [true])) as (ks & Hw & Hlen & Hs & Hk); [|lia..|].
    { rewrite length_app. cbn. lia. }
    exists (true :: ks). rewrite <- !app_assoc in Hw. unfold marks. rewrite (kept_mark _ _ _ Hx), Hl.
    rewrite decide_True by done. cbn. split_and!; [done|lia| |lia].
    rewrite (drop_S _ _ _ Hy). by constructor.
  - assert (x ≠ y) as Hne.
    { intros ->. rewrite decide_True in Hl by done. rewrite Hl, bool_decide_true in E by done.
      apply andb_false_iff in E as [?|E]; [done|]. apply Nat.eqb_neq in E. lia. }
    rewrite decide_False in Hl by done.
    destruct (Nat.leb_spec (lcs (drop i a) (drop (S j) b)) (lcs (drop (S i) a) (drop j b))).
    + rewrite replicate_tail by done.
      destruct (IH (S i) j (pre ++ [false])) as (ks & Hw & Hlen & Hs & Hk); [|lia..|].
      { rewrite length_app. cbn. lia. }
      exists (false :: ks). rewrite <- !app_assoc in Hw. unfold marks. rewrite (kept_skip _ _ _ Hx).
      cbn. split_and!; [done|lia|done|lia].
    + destruct (IH i (S j) pre) as (ks & Hw & Hlen & Hs & Hk); [done|lia..|].
      exists ks. unfold marks. split_and!; [done|done| |lia].
      etransitivity; [exact Hs|]. rewrite (drop_S _ _ _ Hy). by constructor.
Qed.
End table.

(** ** The spans *)

(** The spans stand apart, in order, and end by [e]. *)
Fixpoint apart (spans : list CharRange) (e : nat) : Prop :=
  match spans with
  | [] => True
  | s :: spans' =>
      s.1 < s.2 ∧ s.2 <= e ∧ (∀ t, head spans' = Some t → s.2 < t.1) ∧ apart spans' e
  end.

(** A position is in one of the ranges. *)
Definition covered (rs : list CharRange) (p : nat) : Prop := ∃ r, r ∈ rs ∧ r.1 <= p < r.2.

Lemma covered_cons r rs p : covered (r :: rs) p ↔ r.1 <= p < r.2 ∨ covered rs p.
Proof.
  unfold covered. split.
  - intros (s & [->|Hs]%elem_of_cons & Hp); eauto.
  - intros [H|(s & Hs & Hp)]; [exists r; split; [left|done]|exists s; split; [by right|done]].
Qed.

Lemma apart_le spans e e' : apart spans e → e <= e' → apart spans e'.
Proof. induction spans; cbn; intuition lia. Qed.

Lemma push_span_head r spans :
  ∃ s, head (push_span r spans) = Some s ∧ s.1 = default r.1 (fst <$> head spans).
Proof.
  destruct spans as [|s [|t spans]]; cbn; eauto. destruct (s.2 =? r.1); cbn; eauto.
Qed.

Lemma push_span_spec r spans e :
  apart spans e → e <= r.1 → r.1 < r.2 →
  apart (push_span r spans) r.2 ∧ ∀ p, covered (push_span r spans) p ↔ covered spans p ∨ r.1 <= p < r.2.
Proof.
  intros Ha He Hr. induction spans as [|s spans IH].
  { split; [cbn; split_and!; [done|done|done|done]|]. intros p. cbn [push_span]. rewrite covered_cons. tauto. }
  destruct Ha as (H1 & H2 & H3 & H4). specialize (IH H4) as [IHa IHc].
  destruct spans as [|t spans].
  - cbn. destruct (Nat.eqb_spec s.2 r.1).
    + split; [cbn; split_and!; [lia|done|done|done]|]. intros p. rewrite !covered_cons. cbn.
      split; [intros [?|(? & []%elem_of_nil & _)]; lia|]. intros [[?|(? & []%elem_of_nil & _)]|?]; lia.
    + split; [cbn; split_and!; try (done || lia)|].
      { intros t [= <-]. lia. }
      intros p. rewrite !covered_cons. tauto.
  - change (push_span r (s :: t :: spans)) with (s :: push_span r (t :: spans)). split.
    + destruct (push_span_head r (t :: spans)) as (u & Hu & Hu1). cbn in Hu1.
      split_and!; [done|lia| |done]. intros v Hv. rewrite Hu in Hv. injection Hv as <-.
      rewrite Hu1. by apply H3.
    + intros p. rewrite covered_cons, (covered_cons s). rewrite IHc. tauto.
Qed.

(** The ranges of the tokens not marked. *)
Definition left_over (rs : list CharRange) (ks : list bool) : list CharRange :=
  kept rs (negb <$> ks).

Lemma unmatched_spans_spec rs pre ks s e spans :
  cuts s rs e → length ks = length rs → apart spans s →
  ∃ spans', unmatched_spans (length pre) rs (pre ++ ks) spans = Ret spans' ∧ apart spans' e ∧
    ∀ p, covered spans' p ↔ covered spans p ∨ covered (left_over rs ks) p.
Proof.
  intros Hc. revert pre ks spans. induction Hc as [s|s m e rs Hm Hc IH]; intros pre ks spans Hl Ha.
  { destruct ks; [|done]. exists spans. split_and!; [done|done|]. intros p.
    split; [by left|]. by intros [?|(? & []%elem_of_nil & _)]. }
  destruct ks as [|k ks]; [done|]. injection Hl as Hl. cbn [unmatched_spans].
  rewrite list_lookup_middle by done. cbn [expect mbind outcome_bind].
  specialize (IH (pre ++ [k]) ks). rewrite length_app, <- app_assoc in IH. cbn in IH.
  rewrite Nat.add_1_r in IH. destruct k; cbn.
  - apply IH; [done|]. apply (apart_le _ _ _ Ha). lia.
  - destruct (push_span_spec (s, m) spans s) as [Hp1 Hp2]; [done|done|done|].
    destruct (IH (push_span (s, m) spans) Hl Hp1) as (spans' & E & H1 & H2).
    exists spans'. split_and!; [done|done|]. intros p. rewrite H2, Hp2, covered_cons. cbn. tauto.
Qed.

(** ** The words emphasised are those outside a longest common subsequence *)

Section emphasis.
Context (is_alphanumeric : list Z → bool).

(** C35: the text is cut into tokens, maximal runs of one class of character.
    When a side has more than 512 of them nothing is emphasised. Otherwise
    a common subsequence of the two sides' tokens is kept, none is longer,
    and the spans answered, which stand apart and in order, cover exactly the
    characters of the other tokens. Nothing is indexed out of range. *)
Theorem word_diff_is_longest text other :
  let a := word_tokens is_alphanumeric text in
  let a_tok := token_texts is_alphanumeric text in
  let b_tok := token_texts is_alphanumeric other in
  cuts 0 a (char_count text) ∧ (∃ w, alternates is_alphanumeric (chars text) a w) ∧
  if (MAX_WORD_TOKENS <? length a_tok) || (MAX_WORD_TOKENS <? length b_tok)
  then word_diff_spans is_alphanumeric text other = Ret []
  else ∃ spans ks, word_diff_spans is_alphanumeric text other = Ret spans ∧
    length ks = length a ∧ kept a_tok ks `sublist_of` b_tok ∧
    (∀ c, c `sublist_of` a_tok → c `sublist_of` b_tok → length c <= length (kept a_tok ks)) ∧
    apart spans (char_count text) ∧ ∀ p, covered spans p ↔ covered (left_over a ks) p.
Proof.
  cbn zeta. destruct (word_tokens_spec is_alphanumeric text) as [Hc Hw].
  split_and!; [done|done|]. unfold word_diff_spans.
  assert (∀ t, length (token_texts is_alphanumeric t) = length (word_tokens is_alphanumeric t)) as Hlen
    by (intros; apply length_fmap).
  rewrite !Hlen. destruct (_ || _); [done|].
  rewrite !mapM_text_of. cbn [mbind outcome_bind].
  set (a := token_texts is_alphanumeric text). set (b := token_texts is_alphanumeric other).
  destruct (fill_table_spec a b (length a) (empty_table (length a) (length b))) as (dp & -> & Hf);
    [done|apply empty_table_filled|]. cbn [mbind outcome_bind].
  destruct (walk_spec a b dp (length a + length b) 0 0 []) as (ks & E & H1 & H2 & H3);
    [done|done|lia..|].
  rewrite !drop_0, Nat.sub_0_r in *. cbn [app] in E. rewrite E. cbn [mbind outcome_bind].
  destruct (unmatched_spans_spec (word_tokens is_alphanumeric text) [] ks 0 _ [] Hc)
    as (spans & E' & Ha & Hcov); [by rewrite H1; apply Hlen|done|].
  exists spans, ks. split_and!; [done|by rewrite H1; apply Hlen|done| |done|].
  - intros c Hca Hcb. rewrite H3. by apply lcs_longest.
  - intros p. rewrite Hcov. split; [|by right]. by intros [(? & []%elem_of_nil & _)|?].
Qed.
End emphasis.

(** The words of ASCII letters and digits. *)
Definition ascii_alphanumeric (c : list Z) : bool :=
  match c with
  | [b] =>
      ((48 <=? b) && (b <=? 57) || (65 <=? b) && (b <=? 90) || (97 <=? b) && (b <=? 122))%Z
  | _ => false
  end.

(** [let x = a;] against [let y = a;]: the name is emphasised. *)
Example renamed_word_is_emphasised :
  word_diff_spans ascii_alphanumeric [108; 101; 116; 32; 120; 32; 61; 32; 97; 59]%Z
    [108; 101; 116; 32; 121; 32; 61; 32; 97; 59]%Z = Ret [(4, 5)].
Proof. vm_compute. reflexivity. Qed.

(** A line of three words against one of two: the spans merge over the
    space. *)
Example dropped_words_are_one_span :
  word_diff_spans ascii_alphanumeric [97; 32; 98; 32; 99]%Z [97]%Z = Ret [(1, 5)].
Proof. vm_compute. reflexivity. Qed.
