(* ===== verification/Keys.v ===== *)
(** * Keys

    The key events a widget of [ferrowl-ui] is offered, and its answer
    ([ferrowl-ui/src/event_result.rs]). *)

From stdpp Require Import base numbers strings.
From S2P Require Import Prelude.

(** The keys the widgets match on, of the terminal library; a modifier set is
    its bits: none, shift, control. *)
Inductive KeyCode :=
| KC_Char (c : Z) | KC_Down | KC_Up | KC_Left | KC_Right | KC_PageDown | KC_PageUp | KC_Esc
| KC_Enter | KC_Tab | KC_BackTab | KC_Backspace | KC_Delete | KC_Other (n : Z).

#[export] Instance KeyCode_eq_dec : EqDecision KeyCode.
Proof. solve_decision. Defined.

Definition M_NONE : Z := 0.
Definition M_SHIFT : Z := 1.
Definition M_CONTROL : Z := 2.

Inductive EventResult := ER_Consumed | ER_Unhandled (modifiers : Z) (code : KeyCode).

(** The key is the character of a text of one. *)
Definition is_char (s : string) (code : KeyCode) : bool :=
  match code, s with
  | KC_Char c, String a EmptyString => (c =? Z.of_N (Ascii.N_of_ascii a))%Z
  | _, _ => false
  end.
