(* ===== verification/DiffParse.v ===== *)
(** * Reading a unified diff

    The free functions of [ferrowl-ui/src/state/diff_view.rs]: [parse] turns a
    unified diff into aligned rows, [parse_full_file] adds the lines of the new
    file that no hunk covers. Texts are their UTF-8 bytes; line numbers are
    [usize], whose overflow panics. *)

From stdpp Require Import base list numbers.
From S2P Require Import Prelude IntText Text.

Local Open Scope Z_scope.

(** ** Checked arithmetic *)

Definition usize_add (a b : Z) : Outcome Z :=
  if a + b <=? usize_max then Ret (a + b) else Panic.

Definition isize_check (v : Z) : Outcome Z :=
  if in_int true 64 v then Ret v else Panic.

(** ** Rows *)

Inductive DiffKind := DK_Context | DK_Added | DK_Removed | DK_Meta.

Record DiffEntry := mkDiffEntry { de_text : list Z; de_line_no : Z }.

Inductive DiffRow :=
| DR_Pair (kind : DiffKind) (old new : option DiffEntry)
| DR_Meta (text : list Z).

#[export] Instance DiffKind_eq_dec : EqDecision DiffKind.
Proof. solve_decision. Defined.
#[export] Instance DiffEntry_eq_dec : EqDecision DiffEntry.
Proof. solve_decision. Defined.
#[export] Instance DiffRow_eq_dec : EqDecision DiffRow.
Proof. solve_decision. Defined.

(** ** Texts *)

(** [text.strip_suffix('\n').unwrap_or(text)] *)
Definition strip_newline (s : list Z) : list Z :=
  match reverse s with c :: r => if c =? 10 then reverse r else s | [] => s end.

(** [s.split(sep).next()]: what precedes the first [sep]. *)
Fixpoint before (sep s : list Z) : list Z :=
  match strip_prefix sep s with
  | Some _ => []
  | None => match s with c :: s' => c :: before sep s' | [] => [] end
  end.

(** ["@@"] *)
Definition hunk_mark : list Z := [64; 64].

Definition is_header (line : list Z) : bool :=
  match strip_prefix hunk_mark line with Some _ => true | None => false end.

(** The tokens between the two marks of a header. *)
Definition header_tokens (rest : list Z) : list (list Z) :=
  let counters := before hunk_mark rest in split_whitespace (length counters) [] counters.

(** [s.parse().unwrap_or(1)] *)
Definition number_or_1 (s : list Z) : Z :=
  match from_str_radix false 64 s 10 with Ok v => v | Err _ => 1 end.

(** [rest.split(',').next().unwrap_or("1").parse().unwrap_or(1)] *)
Definition start_of (rest : list Z) : Z :=
  match split 44 rest with a :: _ => number_or_1 a | [] => 1 end.

(** The starting lines a header declares: 45 is ['-'], 43 is ['+']. *)
Definition starts_step (acc : Z * Z) (tok : list Z) : Z * Z :=
  match tok with
  | c :: rest =>
      if c =? 45 then (start_of rest, acc.2)
      else if c =? 43 then (acc.1, start_of rest) else acc
  | [] => acc
  end.

Definition hunk_starts (header : list Z) : Z * Z :=
  match strip_prefix hunk_mark header with
  | None => (1, 1)
  | Some rest => foldl starts_step (1, 1) (header_tokens rest)
  end.

(** ** [parse] *)

Record ParseState := mkParseState {
  ps_rows : list DiffRow;
  ps_in_hunk : bool;
  ps_old_line : Z;
  ps_new_line : Z;
  ps_removed : list DiffEntry;
  ps_added : list DiffEntry;
  ps_last_run_len : nat;
  ps_pending_metas : list (nat * list Z);
}.

Definition ps_init : ParseState := mkParseState [] false 1 1 [] [] 0 [].

(** [metas.sort_by_key(|(after_row, _)| *after_row)], a stable sort. *)
Fixpoint insert_meta (m : nat * list Z) (l : list (nat * list Z)) : list (nat * list Z) :=
  match l with
  | [] => [m]
  | x :: l' => if (m.1 <? x.1)%nat then m :: l else x :: insert_meta m l'
  end.

Definition sort_metas (l : list (nat * list Z)) : list (nat * list Z) :=
  foldl (λ acc m, insert_meta m acc) [] l.

(** [metas.next_if(|(after_row, _)| *after_row == k)] until it gives nothing. *)
Fixpoint take_metas (k : nat) (metas : list (nat * list Z))
  : list (list Z) * list (nat * list Z) :=
  match metas with
  | (a, t) :: ms =>
      if (a =? k)%nat then let '(ts, r) := take_metas k ms in (t :: ts, r) else ([], metas)
  | [] => ([], [])
  end.

(** The loop of [flush] from row [i] on, [n] rows left. *)
Fixpoint flush_loop (n i : nat) (removed added : list DiffEntry) (metas : list (nat * list Z))
  : list DiffRow :=
  match n with
  | O => (λ m, DR_Meta m.2) <$> metas
  | S n' =>
      let old := removed !! i in
      let new := added !! i in
      let kind := match old with Some _ => DK_Removed | None => DK_Added end in
      let '(ts, metas) := take_metas (S i) metas in
      DR_Pair kind old new :: (DR_Meta <$> ts) ++ flush_loop n' (S i) removed added metas
  end.

Definition flush (st : ParseState) : ParseState :=
  let count := Nat.max (length (ps_removed st)) (length (ps_added st)) in
  mkParseState
    (ps_rows st ++
       flush_loop count 0 (ps_removed st) (ps_added st) (sort_metas (ps_pending_metas st)))
    (ps_in_hunk st) (ps_old_line st) (ps_new_line st) [] [] (ps_last_run_len st) [].

Definition push_row (row : DiffRow) (st : ParseState) : ParseState :=
  mkParseState (ps_rows st ++ [row]) (ps_in_hunk st) (ps_old_line st) (ps_new_line st)
    (ps_removed st) (ps_added st) (ps_last_run_len st) (ps_pending_metas st).

(** A hunk header. *)
Definition open_hunk (line : list Z) (st : ParseState) : ParseState :=
  let st := flush st in
  let '(start_old, start_new) := hunk_starts line in
  mkParseState (ps_rows st ++ [DR_Meta line]) true start_old start_new
    (ps_removed st) (ps_added st) (ps_last_run_len st) (ps_pending_metas st).

(** A context line. *)
Definition context_line (text : list Z) (st : ParseState) : Outcome ParseState :=
  let st := flush st in
  let row := DR_Pair DK_Context (Some (mkDiffEntry text (ps_old_line st)))
               (Some (mkDiffEntry text (ps_new_line st))) in
  old_line ← usize_add (ps_old_line st) 1;
  new_line ← usize_add (ps_new_line st) 1;
  Ret (mkParseState (ps_rows st ++ [row]) (ps_in_hunk st) old_line new_line
         (ps_removed st) (ps_added st) (ps_last_run_len st) (ps_pending_metas st)).

Definition added_line (text : list Z) (st : ParseState) : Outcome ParseState :=
  let added := ps_added st ++ [mkDiffEntry text (ps_new_line st)] in
  new_line ← usize_add (ps_new_line st) 1;
  Ret (mkParseState (ps_rows st) (ps_in_hunk st) (ps_old_line st) new_line
         (ps_removed st) added (length added) (ps_pending_metas st)).

Definition removed_line (text : list Z) (st : ParseState) : Outcome ParseState :=
  let st := if decide (ps_added st = []) then st else flush st in
  let removed := ps_removed st ++ [mkDiffEntry text (ps_old_line st)] in
  old_line ← usize_add (ps_old_line st) 1;
  Ret (mkParseState (ps_rows st) (ps_in_hunk st) old_line (ps_new_line st)
         removed (ps_added st) (length removed) (ps_pending_metas st)).

(** Any other line. *)
Definition other_line (line : list Z) (st : ParseState) : ParseState :=
  if ps_in_hunk st &&
     negb (bool_decide (ps_removed st = []) && bool_decide (ps_added st = []))
  then mkParseState (ps_rows st) (ps_in_hunk st) (ps_old_line st) (ps_new_line st)
         (ps_removed st) (ps_added st) (ps_last_run_len st)
         (ps_pending_metas st ++ [(ps_last_run_len st, line)])
  else push_row (DR_Meta line) (flush st).

(** One round of the loop: 32, 43, 45 are [' '], ['+'], ['-']. *)
Definition parse_line (st : ParseState) (line : list Z) : Outcome ParseState :=
  if is_header line then Ret (open_hunk line st)
  else if ps_in_hunk st then
    match line with
    | [] => context_line [] st
    | c :: rest =>
        if c =? 32 then context_line rest st
        else if c =? 43 then added_line rest st
        else if c =? 45 then removed_line rest st
        else Ret (other_line line st)
    end
  else Ret (other_line line st).

Fixpoint parse_lines (st : ParseState) (lines : list (list Z)) : Outcome ParseState :=
  match lines with
  | [] => Ret st
  | line :: lines' => st ← parse_line st line; parse_lines st lines'
  end.

(** The lines of a text, its last newline aside; none if it is empty. *)
Definition lines_of (text : list Z) : list (list Z) :=
  let text := strip_newline text in
  match text with [] => [] | _ => split 10 text end.

Definition parse (text : list Z) : Outcome (list DiffRow) :=
  st ← parse_lines ps_init (lines_of text);
  Ret (ps_rows (flush st)).

(** ** [parse_full_file] *)

(** [parts.next().map_or(1, |c| c.parse().unwrap_or(1))] after [splitn(2, ',')] *)
Definition range_of (rest : list Z) : Z * Z :=
  match split_once 44 rest with
  | Some (a, b) => (number_or_1 a, number_or_1 b)
  | None => (number_or_1 rest, 1)
  end.

(** The starts and counts of the two sides: old, then new. *)
Definition header_step (acc : (Z * Z) * (Z * Z)) (tok : list Z) : (Z * Z) * (Z * Z) :=
  match tok with
  | c :: rest =>
      if c =? 45 then (range_of rest, acc.2)
      else if c =? 43 then (acc.1, range_of rest) else acc
  | [] => acc
  end.

Definition hunk_header (header : list Z) : (Z * Z) * (Z * Z) :=
  match strip_prefix hunk_mark header with
  | None => ((1, 1), (1, 1))
  | Some rest => foldl header_step ((1, 1), (1, 1)) (header_tokens rest)
  end.

Record Hunk := mkHunk {
  h_old_start : Z;
  h_old_count : Z;
  h_new_start : Z;
  h_new_count : Z;
  h_rows : list DiffRow;
}.

Definition new_hunk (header : list Z) : Hunk :=
  let '((os, oc), (ns, nc)) := hunk_header header in mkHunk os oc ns nc [DR_Meta header].

Definition hunk_push (row : DiffRow) (h : Hunk) : Hunk :=
  mkHunk (h_old_start h) (h_old_count h) (h_new_start h) (h_new_count h) (h_rows h ++ [row]).

(** [hunks.last_mut()] takes the row, or it is a leading one. *)
Fixpoint push_last (row : DiffRow) (hunks : list Hunk) : list Hunk :=
  match hunks with
  | [] => []
  | [h] => [hunk_push row h]
  | h :: hs => h :: push_last row hs
  end.

Definition split_step (acc : list DiffRow * list Hunk) (row : DiffRow) : list DiffRow * list Hunk :=
  let '(leading, hunks) := acc in
  match row with
  | DR_Meta text =>
      if is_header text then (leading, hunks ++ [new_hunk text])
      else match hunks with
           | [] => (leading ++ [row], [])
           | _ => (leading, push_last row hunks)
           end
  | DR_Pair _ _ _ =>
      match hunks with
      | [] => (leading ++ [row], [])
      | _ => (leading, push_last row hunks)
      end
  end.

Definition split_hunks (rows : list DiffRow) : list DiffRow * list Hunk :=
  foldl split_step ([], []) rows.

(** [unchanged_row] *)
Definition unchanged_row (new_lines : list (list Z)) (line_no delta : Z) : Outcome DiffRow :=
  text ← index new_lines (line_no - 1);
  old_no ← isize_check (as_sint 64 line_no - delta);
  Ret (DR_Pair DK_Context (Some (mkDiffEntry text (Z.max old_no 1)))
         (Some (mkDiffEntry text line_no))).

(** [n] rounds of the walk from [line_no] on. *)
Fixpoint unchanged_rows (n : nat) (new_lines : list (list Z)) (line_no delta : Z)
  : Outcome (list DiffRow) :=
  match n with
  | O => Ret []
  | S n' =>
      row ← unchanged_row new_lines line_no delta;
      rows ← unchanged_rows n' new_lines (line_no + 1) delta;
      Ret (row :: rows)
  end.

(** The supplied text in place of the patch's on the new side. *)
Definition supplied_text (new_lines : list (list Z)) (row : DiffRow) : DiffRow :=
  match row with
  | DR_Pair kind old (Some new) =>
      let text :=
        if de_line_no new <=? 0 then de_text new
        else match new_lines !! Z.to_nat (de_line_no new - 1) with
             | Some t => t
             | None => de_text new
             end in
      DR_Pair kind old (Some (mkDiffEntry text (de_line_no new)))
  | other => other
  end.

Record FullState := mkFullState {
  fs_out : list DiffRow;
  fs_folds : list (nat * nat);
  fs_next_line : Z;
  fs_delta : Z;
}.

(** The walk up to [fold_end], as a fold of its own. *)
Definition fold_lines (new_lines : list (list Z)) (fold_end : Z) (st : FullState)
  : Outcome FullState :=
  if fs_next_line st <? fold_end then
    rows ← unchanged_rows (Z.to_nat (fold_end - fs_next_line st)) new_lines (fs_next_line st)
             (fs_delta st);
    let out := fs_out st ++ rows in
    Ret (mkFullState out (fs_folds st ++ [(length (fs_out st), length out - 1)%nat]) fold_end
           (fs_delta st))
  else Ret st.

Definition hunk_boundary (h : Hunk) : Outcome Z :=
  if h_new_count h =? 0 then usize_add (h_new_start h) 1 else Ret (h_new_start h).

Definition place_hunk (new_lines : list (list Z)) (st : FullState) (h : Hunk) : Outcome FullState :=
  boundary ← hunk_boundary h;
  let fold_end := Z.min boundary (Z.of_nat (length new_lines) + 1) in
  st ← fold_lines new_lines fold_end st;
  next ← (if h_new_count h =? 0 then Ret boundary else usize_add (h_new_start h) (h_new_count h));
  step ← isize_check (as_sint 64 (h_new_count h) - as_sint 64 (h_old_count h));
  delta ← isize_check (fs_delta st + step);
  Ret (mkFullState (fs_out st ++ (supplied_text new_lines <$> h_rows h)) (fs_folds st)
         (Z.max next 1) delta).

Fixpoint place_hunks (new_lines : list (list Z)) (st : FullState) (hunks : list Hunk)
  : Outcome FullState :=
  match hunks with
  | [] => Ret st
  | h :: hs => st ← place_hunk new_lines st h; place_hunks new_lines st hs
  end.

Definition parse_full_file (diff new_text : list Z)
  : Outcome (list DiffRow * list (nat * nat)) :=
  hunk_rows ← parse diff;
  let new_lines := lines_of new_text in
  let '(leading, hunks) := split_hunks hunk_rows in
  st ← place_hunks new_lines (mkFullState leading [] 1 0) hunks;
  st ← fold_lines new_lines (Z.of_nat (length new_lines) + 1) st;
  Ret (fs_out st, fs_folds st).
