(* ===== verification/DiffParseProps.v ===== *)
(** * What the parser of a diff makes of its lines

    A reference reader classifies the lines one by one with their numbers
    ([read_lines]); the rows of [parse] hold the same entries on each side, in
    the same order. Runs pair position by position, and the full-file build is
    the hunk rows with the uncovered lines of the file between them. *)

From stdpp Require Import base sorting numbers list strings.
From S2P Require Import Prelude IntText Text DiffParse.

Local Open Scope Z_scope.

(** ** Sides of rows *)

Definition row_old (row : DiffRow) : option DiffEntry :=
  match row with DR_Pair _ old _ => old | DR_Meta _ => None end.
Definition row_new (row : DiffRow) : option DiffEntry :=
  match row with DR_Pair _ _ new => new | DR_Meta _ => None end.
Definition row_meta (row : DiffRow) : option (list Z) :=
  match row with DR_Pair _ _ _ => None | DR_Meta t => Some t end.

Definition olds (rows : list DiffRow) : list DiffEntry := omap row_old rows.
Definition news (rows : list DiffRow) : list DiffEntry := omap row_new rows.
Definition metas (rows : list DiffRow) : list (list Z) := omap row_meta rows.

Lemma olds_app l k : olds (l ++ k) = olds l ++ olds k.
Proof. apply omap_app. Qed.
Lemma news_app l k : news (l ++ k) = news l ++ news k.
Proof. apply omap_app. Qed.
Lemma metas_app l k : metas (l ++ k) = metas l ++ metas k.
Proof. apply omap_app. Qed.

Lemma olds_metas ts : olds (DR_Meta <$> ts) = [].
Proof. by induction ts. Qed.
Lemma news_metas ts : news (DR_Meta <$> ts) = [].
Proof. by induction ts. Qed.
Lemma metas_metas ts : metas (DR_Meta <$> ts) = ts.
Proof. induction ts as [|t ts IH]; [done|]. change (t :: metas (DR_Meta <$> ts) = t :: ts). by rewrite IH. Qed.

Create Rewrite HintDb ferrowl_sides.
#[export] Hint Rewrite olds_app news_app metas_app olds_metas news_metas metas_metas : ferrowl_sides.

(** ** The reference reader *)

Inductive Item :=
| I_Meta (line : list Z)
| I_Both (text : list Z) (old new : Z)
| I_Old (text : list Z) (old : Z)
| I_New (text : list Z) (new : Z).

Record Reader := mkReader { rd_in_hunk : bool; rd_old : Z; rd_new : Z }.

(** A header's line begins with two [@]. *)
Definition marked (line : list Z) : bool :=
  match line with a :: b :: _ => (a =? 64) && (b =? 64) | _ => false end.

Section reader.
(** The starting lines of a header. *)
Variable starts : list Z → Z * Z.

Definition read_line (r : Reader) (line : list Z) : Item * Reader :=
  if marked line
  then (I_Meta line, mkReader true (starts line).1 (starts line).2)
  else if rd_in_hunk r then
    match line with
    | [] => (I_Both [] (rd_old r) (rd_new r), mkReader true (rd_old r + 1) (rd_new r + 1))
    | c :: rest =>
        if c =? 32 then
          (I_Both rest (rd_old r) (rd_new r), mkReader true (rd_old r + 1) (rd_new r + 1))
        else if c =? 43 then (I_New rest (rd_new r), mkReader true (rd_old r) (rd_new r + 1))
        else if c =? 45 then (I_Old rest (rd_old r), mkReader true (rd_old r + 1) (rd_new r))
        else (I_Meta line, r)
    end
  else (I_Meta line, r).

Fixpoint read_lines (r : Reader) (lines : list (list Z)) : list Item :=
  match lines with
  | [] => []
  | line :: lines' => (read_line r line).1 :: read_lines (read_line r line).2 lines'
  end.
End reader.

(** What follows a number in a header: nothing, or a comma and more. *)
Definition tail_ok (tail : list Z) : Prop :=
  match tail with
  | [] => True
  | c :: cs => c = 44 ∧ Forall (λ b, 33 <= b <= 126 ∧ b ≠ 64) cs
  end.

(** The header [@@ -old,.. +new,.. @@ section] names the starting lines [old] and
    [new]. *)
Definition declares (line : list Z) (old new : Z) : Prop :=
  is_uint 64 old ∧ is_uint 64 new ∧ ∃ t u section, tail_ok t ∧ tail_ok u ∧
    line = bytes_of "@@ " ++ (45 :: int_display old ++ t) ++ 32 :: (43 :: int_display new ++ u) ++
      bytes_of " @@" ++ section.

(** The starting lines are those a header of that form names. *)
Definition reads_headers (starts : list Z → Z * Z) : Prop :=
  ∀ line old new, declares line old new → starts line = (old, new).

(** The text's lines: each ends in a newline, the last one's may be missing. A
    text that is empty or a lone newline has none. *)
Definition written (lines : list (list Z)) : list Z := lines ≫= λ line, line ++ [10].

Definition has_lines (text : list Z) (lines : list (list Z)) : Prop :=
  if decide (text = [] ∨ text = [10]) then lines = []
  else Forall (λ line, 10 ∉ line) lines ∧
    written lines = if decide (list.last text = Some 10) then text else text ++ [10].

Definition item_old (it : Item) : option DiffEntry :=
  match it with I_Both t o _ | I_Old t o => Some (mkDiffEntry t o) | _ => None end.
Definition item_new (it : Item) : option DiffEntry :=
  match it with I_Both t _ n | I_New t n => Some (mkDiffEntry t n) | _ => None end.
Definition item_meta (it : Item) : option (list Z) :=
  match it with I_Meta t => Some t | _ => None end.

(** The number after the line's is a [usize]. *)
Definition item_fits (it : Item) : Prop :=
  match it with
  | I_Both _ o n => o < usize_max ∧ n < usize_max
  | I_Old _ o => o < usize_max
  | I_New _ n => n < usize_max
  | I_Meta _ => True
  end.

(** *** Lines *)

Lemma written_join l : l ≠ [] → written l = join 10 l ++ [10].
Proof.
  unfold written. induction l as [|x [|y l] IH]; intros Hne; [done| |].
  - simpl. by rewrite app_nil_r.
  - change (join 10 (x :: y :: l)) with (x ++ 10 :: join 10 (y :: l)).
    rewrite bind_cons, IH by done. by rewrite <-!(assoc_L (++)).
Qed.

Lemma split_written l : Forall (λ line, 10 ∉ line) l → split 10 (written l) = l ++ [[]].
Proof.
  unfold written. induction 1 as [|x l Hx Hl IH]; [done|].
  rewrite bind_cons, <-(assoc_L (++)). change ([10] ++ ?k) with (10 :: k). by rewrite split_app, IH.
Qed.

(** A text has one list of lines. *)
Lemma has_lines_unique text l k : has_lines text l → has_lines text k → l = k.
Proof.
  unfold has_lines. destruct (decide (text = [] ∨ text = [10])); [congruence|].
  intros [Hl Hw] [Hk Hv]. apply split_written in Hl, Hk. rewrite Hw in Hl. rewrite Hv, Hl in Hk.
  by apply app_inj_tail in Hk as [-> _].
Qed.

Lemma strip_newline_cases text :
  (∃ t, text = t ++ [10] ∧ strip_newline text = t) ∨
  (list.last text ≠ Some 10 ∧ strip_newline text = text).
Proof.
  unfold strip_newline. destruct (reverse text) as [|c r] eqn:Hr.
  - right. apply (f_equal reverse) in Hr. rewrite reverse_involutive in Hr. by subst.
  - assert (text = reverse r ++ [c]) as Ht
      by (rewrite <-(reverse_involutive text), Hr; apply reverse_cons).
    destruct (Z.eqb_spec c 10) as [->|Hc]; [left; by eexists|right]. rewrite Ht, last_snoc.
    split; [congruence|done].
Qed.

Lemma lines_of_spec text : has_lines text (lines_of text).
Proof.
  unfold has_lines, lines_of.
  destruct (strip_newline_cases text) as [(t & -> & ->)|[Hl ->]].
  - destruct (decide _) as [[Hn|He]|Hne]; [by apply app_nil in Hn as [_ ?]| |].
    { by apply (app_inj_tail t [] 10 10) in He as [-> _]. }
    destruct t as [|c t]; [by destruct Hne; right|]. split; [apply split_pieces|].
    rewrite written_join, join_split by apply split_not_nil. by rewrite decide_True by apply last_snoc.
  - destruct (decide _) as [[->| ->]|Hne]; [done|done|].
    destruct text as [|c t]; [by destruct Hne; left|]. split; [apply split_pieces|].
    rewrite written_join, join_split by apply split_not_nil. by rewrite decide_False.
Qed.

(** *** Headers *)

Lemma is_header_marked line : is_header line = marked line.
Proof.
  unfold is_header, hunk_mark, marked. destruct line as [|a [|b line]]; cbn [strip_prefix]; [done| |].
  - by destruct (64 =? a).
  - rewrite (Z.eqb_sym 64 a), (Z.eqb_sym 64 b). by destruct (a =? 64), (b =? 64).
Qed.

Lemma before_app s t : 64 ∉ s → before hunk_mark (s ++ hunk_mark ++ t) = s.
Proof.
  induction s as [|c s IH]; intros Hs; [done|]. apply not_elem_of_cons in Hs as [Hc Hs].
  cbn [app before]. unfold hunk_mark at 1. cbn [strip_prefix].
  rewrite (proj2 (Z.eqb_neq 64 c)) by done. by rewrite IH.
Qed.

Lemma graphic_no_space b s : 33 <= b <= 126 → strip_any white_space (b :: s) = None.
Proof.
  intros Hb. apply strip_any_None.
  assert (forallb (λ b, forallb (λ c, match head c with Some x => negb (x =? b) | None => false end)
    white_space) (seqZ 33 94) = true) as Hf by reflexivity.
  rewrite forallb_forall in Hf. apply Hf, list_elem_of_In, elem_of_seqZ. lia.
Qed.

(** A word, up to a space. *)
Lemma split_whitespace_word fuel part w s :
  Forall (λ b, 33 <= b <= 126) w → (length w < fuel)%nat → part ≠ [] ∨ w ≠ [] →
  split_whitespace fuel part (w ++ 32 :: s) =
  (reverse part ++ w) :: split_whitespace (fuel - S (length w)) [] s.
Proof.
  intros Hw. revert fuel part. induction Hw as [|b w Hb Hw IH]; intros fuel part Hf Hne.
  - destruct fuel as [|fuel]; [simpl in Hf; lia|]. cbn [length app]. rewrite app_nil_r, Nat.sub_1_r.
    destruct part as [|c part]; [by destruct Hne|]. done.
  - destruct fuel as [|fuel]; [simpl in Hf; lia|]. cbn [length] in Hf.
    change ((b :: w) ++ 32 :: s) with (b :: (w ++ 32 :: s)). cbn [split_whitespace].
    rewrite graphic_no_space by done. rewrite IH by (lia || by left).
    by rewrite reverse_cons, <-(assoc_L (++)).
Qed.

Lemma tail_graphic t : tail_ok t → Forall (λ b, 33 <= b <= 126 ∧ b ≠ 64) t.
Proof. destruct t as [|c cs]; [constructor|]. intros [-> Hc]. constructor; [lia|done]. Qed.

Lemma display_chars v : is_uint 64 v → Forall (λ b, 48 <= b <= 57) (int_display v).
Proof.
  unfold is_uint. intros Hv. destruct (int_display_digits v) as (ds & -> & _ & Hd & _); [lia|].
  rewrite (proj2 (Z.ltb_ge v 0)) by lia. apply Forall_fmap. eapply Forall_impl; [exact Hd|].
  intros d Hd'. cbv beta in Hd'. unfold compose, digit_char. rewrite (proj2 (Z.ltb_lt d 10)) by lia. cbv beta. lia.
Qed.

Lemma start_of_spec v t : is_uint 64 v → tail_ok t → start_of (int_display v ++ t) = v.
Proof.
  intros Hv Ht. assert (number_or_1 (int_display v) = v) as Hn.
  { unfold number_or_1. rewrite from_str_radix_display; [done|lia|].
    unfold is_uint in Hv. unfold in_int, int_min, int_max. rewrite andb_true_iff, !Z.leb_le. lia. }
  assert (44 ∉ int_display v) as H44.
  { intros Hin. pose proof (display_chars v Hv) as Hd. rewrite list.Forall_forall in Hd.
    apply Hd in Hin. lia. }
  unfold start_of. destruct t as [|c t].
  - by rewrite app_nil_r, split_no_sep.
  - destruct Ht as [-> _]. by rewrite split_app.
Qed.

Lemma hunk_starts_spec : reads_headers hunk_starts.
Proof.
  intros line old new (Ho & Hn & t & u & section & Ht & Hu & ->).
  assert (∀ v w, is_uint 64 v → tail_ok w →
    Forall (λ b, 33 <= b <= 126 ∧ b ≠ 64) (int_display v ++ w)) as Hword.
  { intros v w Hv Hw. apply Forall_app. split; [|by apply tail_graphic].
    eapply Forall_impl; [by apply display_chars|]. simpl. lia. }
  set (w1 := 45 :: int_display old ++ t). set (w2 := 43 :: int_display new ++ u).
  assert (Forall (λ b, 33 <= b <= 126 ∧ b ≠ 64) w1) as H1 by (constructor; [lia|by apply Hword]).
  assert (Forall (λ b, 33 <= b <= 126 ∧ b ≠ 64) w2) as H2 by (constructor; [lia|by apply Hword]).
  assert (∀ w, Forall (λ b, 33 <= b <= 126 ∧ b ≠ 64) w → Forall (λ b, 33 <= b <= 126) w ∧ 64 ∉ w) as Hg.
  { intros w Hw. split; [eapply Forall_impl; [exact Hw|]; simpl; tauto|].
    intros Hin. rewrite list.Forall_forall in Hw. by apply Hw in Hin as [_ ?]. }
  apply Hg in H1 as [H1 N1], H2 as [H2 N2].
  assert (bytes_of "@@ " ++ w1 ++ 32 :: w2 ++ bytes_of " @@" ++ section =
    hunk_mark ++ ([32] ++ w1 ++ 32 :: w2 ++ [32]) ++ hunk_mark ++ section) as ->.
  { rewrite <-!(assoc_L (++)). cbn [app]. by rewrite <-!(assoc_L (++)). }
  unfold hunk_starts. change (strip_prefix hunk_mark (hunk_mark ++ ?s)) with (Some s).
  unfold header_tokens. rewrite before_app.
  2:{ intros [[=]%list_elem_of_singleton|[?|[[=]|[?|[=]%list_elem_of_singleton]%elem_of_app]
        %elem_of_cons]%elem_of_app]%elem_of_app; done. }
  cbn [app length].
  assert (∀ n s, split_whitespace (S n) [] (32 :: s) = split_whitespace n [] s) as Hspace by done.
  rewrite Hspace, split_whitespace_word; [|done| |by right].
  2:{ rewrite length_app. cbn [length]. lia. }
  rewrite split_whitespace_word; [|done| |by right].
  2:{ rewrite length_app. cbn [length]. rewrite length_app. cbn [length]. lia. }
  cbn [reverse app]. assert (∀ n, split_whitespace n [] [] = []) as -> by by intros [].
  cbn [foldl starts_step]. unfold w1, w2. simpl.
  by rewrite !start_of_spec.
Qed.

(** ** The rows of a run *)

Lemma insert_meta_perm m l : insert_meta m l ≡ₚ m :: l.
Proof.
  induction l as [|x l IH]; simpl; [done|]. destruct (m.1 <? x.1)%nat; [done|].
  rewrite IH. constructor.
Qed.

Lemma sort_metas_perm l : sort_metas l ≡ₚ l.
Proof.
  unfold sort_metas. assert (∀ acc, foldl (λ acc m, insert_meta m acc) acc l ≡ₚ acc ++ l) as H.
  { induction l as [|m l IH]; intros acc; simpl; [by rewrite app_nil_r|].
    rewrite IH, insert_meta_perm. apply Permutation_middle. }
  apply (H []).
Qed.

Lemma take_metas_app k l : l.*2 = (take_metas k l).1 ++ (take_metas k l).2.*2.
Proof.
  induction l as [|[a t] l IH]; [done|]. cbn [take_metas]. destruct (a =? k)%nat; [|done].
  destruct (take_metas k l) as [ts r]. rewrite fmap_cons, IH. done.
Qed.

Lemma drop_lookup_cons {A} (l : list A) i :
  drop i l = match l !! i with Some x => x :: drop (S i) l | None => [] end.
Proof.
  destruct (l !! i) as [x|] eqn:E; [by apply drop_S|]. apply drop_ge. by apply lookup_ge_None.
Qed.

(** Every entry and every meta line comes out once, in order. *)
Lemma flush_loop_sides n i removed added ms :
  (length removed ≤ n + i)%nat → (length added ≤ n + i)%nat →
  olds (flush_loop n i removed added ms) = drop i removed ∧
  news (flush_loop n i removed added ms) = drop i added ∧
  metas (flush_loop n i removed added ms) = ms.*2.
Proof.
  revert i ms. induction n as [|n IH]; intros i ms Hr Ha; simpl.
  { rewrite !drop_ge by lia. change (λ m, DR_Meta m.2) with (DR_Meta ∘ (snd (A:=nat) (B:=list Z))).
    rewrite list_fmap_compose. by autorewrite with ferrowl_sides. }
  pose proof (take_metas_app (S i) ms) as ->. destruct (take_metas (S i) ms) as [ts r]. cbn [fst snd].
  destruct (IH (S i) r) as (IH1 & IH2 & IH3); [lia..|].
  rewrite (drop_lookup_cons removed i), (drop_lookup_cons added i).
  change (?x :: ?l) with ([x] ++ l). autorewrite with ferrowl_sides. rewrite IH1, IH2, IH3.
  unfold olds, news, metas. simpl.
  split; [|split; [|done]].
  - destruct (removed !! i) eqn:E; [done|]. simpl. apply drop_ge.
    apply lookup_ge_None in E. lia.
  - destruct (added !! i) eqn:E; [done|]. simpl. apply drop_ge.
    apply lookup_ge_None in E. lia.
Qed.

(** The paired rows, with their kinds. *)
Definition row_pair (row : DiffRow) : option (DiffKind * option DiffEntry * option DiffEntry) :=
  match row with DR_Pair kind old new => Some (kind, old, new) | DR_Meta _ => None end.

Definition pair_at (removed added : list DiffEntry) (i : nat)
  : DiffKind * option DiffEntry * option DiffEntry :=
  (match removed !! i with Some _ => DK_Removed | None => DK_Added end, removed !! i, added !! i).

Lemma flush_loop_pairs n i removed added ms :
  omap row_pair (flush_loop n i removed added ms) = pair_at removed added <$> seq i n.
Proof.
  assert (∀ ts : list (list Z), omap row_pair (DR_Meta <$> ts) = []) as Hm by (by induction ts).
  revert i ms. induction n as [|n IH]; intros i ms; simpl.
  - change (λ m, DR_Meta m.2) with (DR_Meta ∘ (snd (A:=nat) (B:=list Z))).
    by rewrite list_fmap_compose.
  - destruct (take_metas (S i) ms) as [ts r]. simpl. by rewrite omap_app, Hm, IH.
Qed.

(** ** Blocks *)

(** A run: removed lines, then added ones, with lines of neither kind among
    them. *)
Definition run_items (b : list Item) : Prop :=
  Forall (λ it, match it with
                | I_Both _ _ _ => False
                | I_Meta line => marked line = false
                | _ => True
                end) b ∧
  ∀ i j t n u o, b !! i = Some (I_New t n) → b !! j = Some (I_Old u o) → (j < i)%nat.

Definition item_row (it : Item) : option DiffRow :=
  match it with
  | I_Both t o n => Some (DR_Pair DK_Context (Some (mkDiffEntry t o)) (Some (mkDiffEntry t n)))
  | I_Meta line => Some (DR_Meta line)
  | _ => None
  end.

(** A block of items and its rows: one context or meta line, or a run. *)
Definition block_ok (b : list Item * list DiffRow) : Prop :=
  (∃ it row, b = ([it], [row]) ∧ item_row it = Some row) ∨
  let removed := omap item_old b.1 in
  let added := omap item_new b.1 in
  run_items b.1 ∧
  omap row_pair b.2 = pair_at removed added <$> seq 0 (Nat.max (length removed) (length added)) ∧
  metas b.2 ≡ₚ omap item_meta b.1.

Lemma run_items_snoc b it :
  run_items b →
  match it with
  | I_Both _ _ _ => False
  | I_Meta line => marked line = false
  | I_Old _ _ => omap item_new b = []
  | I_New _ _ => True
  end →
  run_items (b ++ [it]).
Proof.
  intros [Hb Ho] Hit. split.
  { apply Forall_app. split; [done|]. apply list.Forall_singleton. by destruct it. }
  intros i j t n u o Hi Hj. apply lookup_snoc_Some in Hi as [[Hli Hi]|[-> ->]].
  - apply lookup_snoc_Some in Hj as [[_ Hj]|[-> ->]]; [by eapply Ho|].
    assert (mkDiffEntry t n ∈ omap item_new b) as Hin.
    { apply list_elem_of_omap. exists (I_New t n). split; [by eapply list_elem_of_lookup_2|done]. }
    rewrite Hit in Hin. by apply elem_of_nil in Hin.
  - apply lookup_snoc_Some in Hj as [[? _]|[_ ?]]; done.
Qed.

Lemma run_items_nil : run_items [].
Proof. split; [done|]. intros i j ? ? ? ? Hi. by destruct i. Qed.

(** What [st] has read: finished blocks, and the lines of the run it holds back. *)
Definition in_blocks (st : ParseState) (items : list Item) : Prop :=
  ∃ blocks pending, items = concat blocks.*1 ++ pending ∧ ps_rows st = concat blocks.*2 ∧
    Forall block_ok blocks ∧ run_items pending ∧ ps_removed st = omap item_old pending ∧
    ps_added st = omap item_new pending ∧ (ps_pending_metas st).*2 = omap item_meta pending.

(** A line that is held back. *)
Lemma hold_back st st' items it :
  in_blocks st items → run_items [it] →
  (match it with I_Old _ _ => ps_added st = [] | _ => True end) → ps_rows st' = ps_rows st →
  ps_removed st' = ps_removed st ++ omap item_old [it] →
  ps_added st' = ps_added st ++ omap item_new [it] →
  (ps_pending_metas st').*2 = (ps_pending_metas st).*2 ++ omap item_meta [it] →
  in_blocks st' (items ++ [it]).
Proof.
  intros (blocks & pending & -> & Hr & Hb & Hp & H1 & H2 & H3) [Hit _] Hold Hr' H1' H2' H3'.
  exists blocks, (pending ++ [it]). rewrite Hr', H1', H2', H3', H1, H2, H3, !omap_app, (assoc_L (++)).
  split_and!; try done. apply run_items_snoc; [done|]. apply Forall_cons in Hit as [Hit _].
  destruct it; try done. by rewrite <-H2.
Qed.

(** A line that is a row of its own, nothing being held back. *)
Lemma own_row st st' items it row :
  in_blocks st items → ps_removed st = [] → ps_added st = [] → ps_pending_metas st = [] →
  item_row it = Some row → ps_rows st' = ps_rows st ++ [row] →
  ps_removed st' = [] → ps_added st' = [] → ps_pending_metas st' = [] →
  in_blocks st' (items ++ [it]).
Proof.
  intros (blocks & pending & -> & Hr & Hb & Hp & H1 & H2 & H3) B1 B2 B3 Hrow Hr' B1' B2' B3'.
  rewrite B1 in H1. rewrite B2 in H2. rewrite B3 in H3.
  assert (pending = []) as ->.
  { destruct Hp as [Hp _]. destruct Hp as [|[] ? ? ?]; done. }
  exists (blocks ++ [([it], [row])]), []. rewrite !fmap_app, !concat_app, !app_nil_r. simpl.
  rewrite ?app_nil_r, Hr', Hr, B1', B2', B3'. split_and!; try done.
  apply Forall_app. split; [done|]. apply list.Forall_singleton. left. by exists it, row.
Qed.

(** ** [parse] follows the reader *)

#[local] Arguments flush : simpl never.

Definition follows (st : ParseState) (r : Reader) (items : list Item) : Prop :=
  olds (ps_rows st) ++ ps_removed st = omap item_old items ∧
  news (ps_rows st) ++ ps_added st = omap item_new items ∧
  in_blocks st items ∧
  ps_in_hunk st = rd_in_hunk r ∧ ps_old_line st = rd_old r ∧ ps_new_line st = rd_new r.

Lemma flush_buffers st :
  ps_removed (flush st) = [] ∧ ps_added (flush st) = [] ∧ ps_pending_metas (flush st) = [].
Proof. done. Qed.

Lemma flush_in_blocks st items : in_blocks st items → in_blocks (flush st) items.
Proof.
  intros (blocks & pending & -> & Hr & Hb & Hp & H1 & H2 & H3).
  set (n := Nat.max (length (ps_removed st)) (length (ps_added st))).
  set (rows := flush_loop n 0 (ps_removed st) (ps_added st) (sort_metas (ps_pending_metas st))).
  exists (blocks ++ [(pending, rows)]), []. rewrite !fmap_app, !concat_app. simpl. rewrite !app_nil_r.
  split_and!; try done; [unfold flush; simpl; by rewrite Hr|].
  apply Forall_app. split; [done|]. apply list.Forall_singleton. right. simpl.
  split; [done|]. rewrite <-H1, <-H2, <-H3. split; [apply flush_loop_pairs|].
  destruct (flush_loop_sides n 0 (ps_removed st) (ps_added st) (sort_metas (ps_pending_metas st)))
    as (_ & _ & Hm); [lia..|]. unfold rows. by rewrite Hm, sort_metas_perm.
Qed.

Lemma follows_flush st r items : follows st r items → follows (flush st) r items.
Proof.
  intros (H1 & H2 & H3 & Hr). split; [|split; [|split; [by apply flush_in_blocks|done]]];
    unfold flush; simpl;
    destruct (flush_loop_sides (Nat.max (length (ps_removed st)) (length (ps_added st))) 0
      (ps_removed st) (ps_added st) (sort_metas (ps_pending_metas st))) as (F1 & F2 & F3); try lia;
    autorewrite with ferrowl_sides; by rewrite ?F1, ?F2, !drop_0, !app_nil_r.
Qed.

Lemma usize_add_cases a b :
  (a + b <= usize_max ∧ usize_add a b = Ret (a + b)) ∨ (usize_max < a + b ∧ usize_add a b = Panic).
Proof. unfold usize_add. destruct (a + b <=? usize_max) eqn:E; zbool; auto. Qed.

(** The outcome of a step that follows the reader by item [it]. *)
Definition step_follows (o : Outcome ParseState) (r : Reader) (items : list Item) (it : Item) : Prop :=
  match o with
  | Ret st => item_fits it ∧ follows st r (items ++ [it])
  | Panic => ¬ item_fits it
  end.

(** Taking a row for itself after a flush. *)
Lemma follows_row st st' r r' items it row :
  follows st r items → item_row it = Some row →
  ps_rows st' = ps_rows (flush st) ++ [row] →
  ps_removed st' = [] → ps_added st' = [] → ps_pending_metas st' = [] →
  ps_in_hunk st' = rd_in_hunk r' → ps_old_line st' = rd_old r' → ps_new_line st' = rd_new r' →
  follows st' r' (items ++ [it]).
Proof.
  intros H Hrow Hr B1 B2 B3 R1 R2 R3. apply follows_flush in H as (H1 & H2 & H3 & _).
  destruct (flush_buffers st) as (C1 & C2 & C3). rewrite C1, app_nil_r in H1. rewrite C2, app_nil_r in H2.
  split; [|split; [|split; [by eapply own_row|done]]];
    rewrite Hr, ?B1, ?B2, app_nil_r; autorewrite with ferrowl_sides;
    rewrite ?H1, ?H2, omap_app; destruct it; try discriminate Hrow; by injection Hrow as <-.
Qed.

Lemma context_line_follows st r items text :
  follows st r items → rd_in_hunk r = true →
  step_follows (context_line text st) (mkReader true (rd_old r + 1) (rd_new r + 1)) items
    (I_Both text (rd_old r) (rd_new r)).
Proof.
  intros H Hin. assert (ps_in_hunk st = true ∧ ps_old_line st = rd_old r ∧ ps_new_line st = rd_new r)
    as (E1 & E2 & E3) by (rewrite <-Hin; apply H).
  unfold context_line. change (ps_old_line (flush st)) with (ps_old_line st).
  change (ps_new_line (flush st)) with (ps_new_line st). rewrite E2, E3.
  destruct (usize_add_cases (rd_old r) 1) as [[Ho ->]|[Ho ->]]; simpl; [|lia].
  destruct (usize_add_cases (rd_new r) 1) as [[Hn ->]|[Hn ->]]; simpl; [|lia].
  split; [lia|]. by eapply follows_row.
Qed.

Lemma added_line_follows st r items text :
  follows st r items → rd_in_hunk r = true →
  step_follows (added_line text st) (mkReader true (rd_old r) (rd_new r + 1)) items
    (I_New text (rd_new r)).
Proof.
  intros (H1 & H2 & H3 & H4 & H5 & H6) Hin. unfold added_line. rewrite H6.
  destruct (usize_add_cases (rd_new r) 1) as [[Hn ->]|[Hn ->]]; simpl; [|lia].
  split; [lia|]. split; [|split; [|split]]; simpl.
  - by rewrite omap_app, H1, app_nil_r.
  - by rewrite omap_app, app_assoc, H2.
  - eapply hold_back; [exact H3| |done|done|simpl; by rewrite app_nil_r|done|simpl; by rewrite app_nil_r].
    by apply (run_items_snoc []), I; apply run_items_nil.
  - by rewrite H4, H5.
Qed.

Lemma removed_line_follows st r items text :
  follows st r items → rd_in_hunk r = true →
  step_follows (removed_line text st) (mkReader true (rd_old r + 1) (rd_new r)) items
    (I_Old text (rd_old r)).
Proof.
  intros H Hin. unfold removed_line.
  assert (∃ st', (if decide (ps_added st = []) then st else flush st) = st' ∧ follows st' r items ∧
    ps_added st' = []) as (st' & -> & (H1 & H2 & H3 & H4 & H5 & H6) & Ha).
  { case_decide; eexists; split_and!; eauto using follows_flush. }
  rewrite H5. destruct (usize_add_cases (rd_old r) 1) as [[Hn ->]|[Hn ->]]; simpl; [|lia].
  split; [lia|]. split; [|split; [|split]]; simpl.
  - by rewrite omap_app, app_assoc, H1.
  - by rewrite omap_app, H2, app_nil_r.
  - eapply hold_back; [exact H3| |done|done|done|simpl; by rewrite app_nil_r|simpl; by rewrite app_nil_r].
    by apply (run_items_snoc []); [apply run_items_nil|].
  - by rewrite H4, H6.
Qed.

Lemma other_line_follows st r items line :
  follows st r items → marked line = false →
  follows (other_line line st) r (items ++ [I_Meta line]).
Proof.
  intros H Hm. unfold other_line. destruct (_ && _).
  - destruct H as (H1 & H2 & H3 & H4). split; [|split; [|split; [|done]]]; simpl.
    + by rewrite omap_app, H1, app_nil_r.
    + by rewrite omap_app, H2, app_nil_r.
    + eapply hold_back; [exact H3| |done|done|simpl; by rewrite app_nil_r|simpl; by rewrite app_nil_r|].
      * by apply (run_items_snoc []); [apply run_items_nil|].
      * simpl. by rewrite fmap_app.
  - eapply follows_row; [exact H|done..| | |]; apply H.
Qed.

Abbreviation follows_line := (read_line hunk_starts).
Abbreviation follows_lines := (read_lines hunk_starts).

Lemma open_hunk_follows st r items line :
  follows st r items →
  follows (open_hunk line st) (mkReader true (hunk_starts line).1 (hunk_starts line).2)
    (items ++ [I_Meta line]).
Proof.
  intros H. unfold open_hunk. destruct (hunk_starts line) as [a b]. by eapply follows_row.
Qed.

Lemma parse_line_follows st r items line :
  follows st r items →
  step_follows (parse_line st line) (follows_line r line).2 items (follows_line r line).1.
Proof.
  intros H. unfold parse_line, read_line. rewrite is_header_marked.
  assert (ps_in_hunk st = rd_in_hunk r) as Hin by apply H.
  destruct (marked line) eqn:Hm; [split; [done|by apply (open_hunk_follows st r)]|]. rewrite Hin.
  assert (step_follows (Ret (other_line line st)) r items (I_Meta line)) as Hother.
  { split; [done|by apply other_line_follows]. }
  destruct (rd_in_hunk r) eqn:Er; [|apply Hother].
  destruct line as [|c rest]; [by apply context_line_follows|].
  destruct (c =? 32); [by apply context_line_follows|].
  destruct (c =? 43); [by apply added_line_follows|].
  destruct (c =? 45); [by apply removed_line_follows|]. apply Hother.
Qed.

Lemma parse_lines_follow lines st r items :
  follows st r items →
  match parse_lines st lines with
  | Ret st' => Forall item_fits (follows_lines r lines) ∧
               ∃ r', follows st' r' (items ++ follows_lines r lines)
  | Panic => ¬ Forall item_fits (follows_lines r lines)
  end.
Proof.
  revert st r items. induction lines as [|line lines IH]; intros st r items H; cbn.
  { rewrite app_nil_r. eauto. }
  pose proof (parse_line_follows st r items line H) as Hstep. unfold step_follows in Hstep.
  destruct (parse_line st line) as [st1|]; cbn; [|by intros Hf; inversion Hf].
  destruct Hstep as [Hfit Hst]. specialize (IH st1 _ _ Hst).
  destruct (parse_lines st1 lines) as [st2|].
  - destruct IH as (Hf & r' & Hr). split; [by constructor|]. exists r'.
    by rewrite <- app_assoc in Hr.
  - intros Hf. by inversion Hf.
Qed.

Lemma follows_init : follows ps_init (mkReader false 1 1) [].
Proof. split_and!; try done. exists [], []. split_and!; try done. Qed.


(** ** Runs *)

Lemma filter_none {A} (P : A → Prop) `{∀ x, Decision (P x)} l :
  Forall (λ x, ¬ P x) l → filter P l = [].
Proof. induction 1; [done|]. by rewrite filter_cons_False. Qed.

Lemma filter_whole {A} (P : A → Prop) `{∀ x, Decision (P x)} l : Forall P l → filter P l = l.
Proof. induction 1; [done|]. rewrite filter_cons_True by done. by f_equal. Qed.

(** The texts of the meta lines held for row [k - 1]. *)
Definition metas_at (k : nat) (ms : list (nat * list Z)) : list (list Z) :=
  (filter (λ m, m.1 = k) ms).*2.

(** Row [i] of a run: the entries at position [i], then its meta lines. *)
Definition run_row (removed added : list DiffEntry) (ms : list (nat * list Z)) (i : nat)
  : list DiffRow :=
  DR_Pair (match removed !! i with Some _ => DK_Removed | None => DK_Added end)
    (removed !! i) (added !! i) :: (DR_Meta <$> metas_at (S i) ms).

Definition run_rows (removed added : list DiffEntry) (ms : list (nat * list Z)) : list DiffRow :=
  seq 0 (Nat.max (length removed) (length added)) ≫= run_row removed added ms.

(** Sorting keeps the meta lines of a row in their order. *)
Definition by_row (l : list (nat * list Z)) : Prop := StronglySorted (λ a b, (a.1 ≤ b.1)%nat) l.

Lemma insert_meta_sorted m l : by_row l → by_row (insert_meta m l).
Proof.
  induction 1 as [|x l Hl IH Hx]; simpl; [repeat constructor|].
  destruct (Nat.ltb_spec (m.1) (x.1)).
  - repeat (constructor; try done); [lia|]. eapply Forall_impl; [exact Hx|]. simpl. lia.
  - constructor; [done|]. rewrite insert_meta_perm. by constructor.
Qed.

Lemma insert_meta_at k m l :
  by_row l → metas_at k (insert_meta m l) = metas_at k l ++ metas_at k [m].
Proof.
  unfold metas_at. induction 1 as [|x l Hl IH Hx]; [done|]. cbn [insert_meta].
  destruct (Nat.ltb_spec (m.1) (x.1)) as [Hlt|Hge].
  - rewrite (filter_cons _ m), (filter_cons _ m []), filter_nil. case_decide as Hm.
    + assert (filter (λ y, y.1 = k) (x :: l) = []) as ->; [|done].
      apply filter_none. constructor; [lia|]. eapply Forall_impl; [exact Hx|]. simpl. lia.
    + by rewrite app_nil_r.
  - rewrite !(filter_cons _ x). case_decide; rewrite ?fmap_cons, IH; done.
Qed.

Lemma sort_metas_spec k l : by_row (sort_metas l) ∧ metas_at k (sort_metas l) = metas_at k l.
Proof.
  unfold sort_metas. assert (∀ acc, by_row acc →
    by_row (foldl (λ acc m, insert_meta m acc) acc l) ∧
    metas_at k (foldl (λ acc m, insert_meta m acc) acc l) = metas_at k acc ++ metas_at k l) as H.
  { induction l as [|m l IH]; intros acc Hacc; simpl.
    { split; [done|]. unfold metas_at at 3. by rewrite app_nil_r. }
    destruct (IH (insert_meta m acc)) as [IH1 IH2]; [by apply insert_meta_sorted|].
    split; [done|]. rewrite IH2, insert_meta_at by done. unfold metas_at.
    by rewrite <- app_assoc, <- fmap_app, <- filter_app. }
  apply (H []). constructor.
Qed.

Lemma take_metas_sorted k ms :
  by_row ms → Forall (λ m, (k ≤ m.1)%nat) ms →
  take_metas k ms = (metas_at k ms, filter (λ m, m.1 ≠ k) ms).
Proof.
  unfold metas_at. induction 1 as [|[a t] ms Hms IH Ha]; intros Hk; [done|]. cbn [take_metas].
  apply Forall_cons in Hk as [Hk1 Hk2]. rewrite !filter_cons. simpl in *.
  destruct (Nat.eqb_spec a k) as [->|Hne].
  - rewrite IH by done. rewrite decide_True, decide_False by auto. done.
  - rewrite decide_False, decide_True by done.
    assert (Forall (λ m : nat * list Z, m.1 ≠ k) ms) as Hnot.
    { eapply Forall_impl; [exact Ha|]. simpl. lia. }
    f_equal; [|f_equal].
    + by rewrite filter_none.
    + by rewrite filter_whole.
Qed.

Lemma metas_at_other k k' ms :
  k ≠ k' → metas_at k (filter (λ m, m.1 ≠ k') ms) = metas_at k ms.
Proof.
  intros Hne. unfold metas_at. f_equal. rewrite list_filter_filter.
  apply list_filter_iff. intros x. split; [tauto|]. intros <-. auto.
Qed.

Lemma by_row_filter (P : nat * list Z → Prop) `{∀ x, Decision (P x)} l :
  by_row l → by_row (filter P l).
Proof.
  unfold by_row. induction 1 as [|x l Hl IH Hx]; [constructor|]. rewrite filter_cons.
  case_decide; [|done]. constructor; [done|]. rewrite Forall_forall in Hx |- *.
  intros y [_ Hy]%list_elem_of_filter. auto.
Qed.

Lemma flush_loop_rows n i removed added ms ms0 :
  by_row ms → Forall (λ m, (i < m.1 ≤ n + i)%nat) ms →
  (∀ j, (i ≤ j)%nat → metas_at (S j) ms = metas_at (S j) ms0) →
  flush_loop n i removed added ms = seq i n ≫= run_row removed added ms0.
Proof.
  revert i ms. induction n as [|n IH]; intros i ms Hs Hk Hms; simpl.
  { destruct Hk as [|m ms Hm]; [done|lia]. }
  rewrite take_metas_sorted; [|done|eapply Forall_impl; [exact Hk|]; simpl; lia].
  unfold run_row at 1. rewrite <- (Hms i) by lia. simpl. f_equal. f_equal. apply IH.
  - by apply by_row_filter.
  - apply Forall_forall. intros m [Hm1 Hm2]%list_elem_of_filter.
    rewrite Forall_forall in Hk. specialize (Hk m Hm2). lia.
  - intros j Hj. rewrite metas_at_other by lia. apply Hms. lia.
Qed.

(** What a flush makes of buffers whose meta lines follow one of their lines. *)
Lemma flush_rows st :
  let n := Nat.max (length (ps_removed st)) (length (ps_added st)) in
  Forall (λ m, (0 < m.1 ≤ n)%nat) (ps_pending_metas st) →
  ps_rows (flush st) = ps_rows st ++ run_rows (ps_removed st) (ps_added st) (ps_pending_metas st).
Proof.
  intros n Hk. unfold flush, run_rows. simpl. f_equal.
  destruct (sort_metas_spec 0 (ps_pending_metas st)) as [Hs _]. apply flush_loop_rows; [done| |].
  - rewrite sort_metas_perm, Nat.add_0_r. done.
  - intros j _. apply sort_metas_spec.
Qed.

(** The lines of a run: removed ones, then added ones, and others in between. *)
Inductive RunLine :=
| RL_Removed (text : list Z)
| RL_Added (text : list Z)
| RL_Note (line : list Z).

Definition run_text (l : RunLine) : list Z :=
  match l with RL_Removed t => 45 :: t | RL_Added t => 43 :: t | RL_Note line => line end.

(** Neither a header nor a body line. *)
Definition is_note (line : list Z) : bool :=
  negb (is_header line) &&
  match line with [] => false | c :: _ => negb ((c =? 32) || (c =? 43) || (c =? 45)) end.

(** [some]: a line of the run was seen; [plus]: an added one. *)
Fixpoint run_ok (some plus : bool) (run : list RunLine) : bool :=
  match run with
  | [] => some
  | RL_Removed _ :: run' => negb plus && run_ok true false run'
  | RL_Added _ :: run' => run_ok true true run'
  | RL_Note line :: run' => some && is_note line && run_ok some plus run'
  end.

Definition has_added (run : list RunLine) : bool :=
  existsb (λ l, match l with RL_Added _ => true | _ => false end) run.

(** The line ends the run: a header, a context line, a removed line after an
    added one. *)
Definition ends_run (plus : bool) (line : list Z) : bool :=
  is_header line ||
  match line with [] => true | c :: _ => (c =? 32) || ((c =? 45) && plus) end.

Definition removed_texts (run : list RunLine) : list (list Z) :=
  omap (λ l, match l with RL_Removed t => Some t | _ => None end) run.
Definition added_texts (run : list RunLine) : list (list Z) :=
  omap (λ l, match l with RL_Added t => Some t | _ => None end) run.

(** Texts with their numbers, from [n] on. *)
Definition numbered (n : Z) (texts : list (list Z)) : list DiffEntry :=
  imap (λ i t, mkDiffEntry t (n + Z.of_nat i)) texts.

(** The other lines, each with the position (from 1) of the line it follows on
    that line's side: [r] removed and [a] added lines came before, the last at
    position [last]. *)
Fixpoint notes_of (r a last : nat) (run : list RunLine) : list (nat * list Z) :=
  match run with
  | [] => []
  | RL_Removed _ :: run' => notes_of (S r) a (S r) run'
  | RL_Added _ :: run' => notes_of r (S a) (S a) run'
  | RL_Note line :: run' => (last, line) :: notes_of r a last run'
  end.

(** The position of the last line of the run on its side. *)
Fixpoint run_last (r a last : nat) (run : list RunLine) : nat :=
  match run with
  | [] => last
  | RL_Removed _ :: run' => run_last (S r) a (S r) run'
  | RL_Added _ :: run' => run_last r (S a) (S a) run'
  | RL_Note line :: run' => run_last r a last run'
  end.

Definition aligned (old new : Z) (run : list RunLine) : list DiffRow :=
  run_rows (numbered old (removed_texts run)) (numbered new (added_texts run)) (notes_of 0 0 0 run).

Lemma numbered_cons n t ts : numbered n (t :: ts) = mkDiffEntry t n :: numbered (n + 1) ts.
Proof.
  unfold numbered. rewrite imap_cons. f_equal; [f_equal; lia|].
  apply imap_ext. intros i x _. simpl. f_equal. lia.
Qed.

Lemma numbered_length n ts : length (numbered n ts) = length ts.
Proof. apply length_imap. Qed.

(** The state after the lines of a run, whose meta lines are [notes]. *)
Definition run_state (run : list RunLine) (notes : list (nat * list Z)) (last : nat)
    (st : ParseState) : ParseState :=
  mkParseState (ps_rows st) true
    (ps_old_line st + Z.of_nat (length (removed_texts run)))
    (ps_new_line st + Z.of_nat (length (added_texts run)))
    (ps_removed st ++ numbered (ps_old_line st) (removed_texts run))
    (ps_added st ++ numbered (ps_new_line st) (added_texts run)) last
    (ps_pending_metas st ++ notes).

Lemma removed_line_run t st :
  ps_added st = [] → ps_old_line st < usize_max →
  removed_line t st = Ret (mkParseState (ps_rows st) (ps_in_hunk st) (ps_old_line st + 1)
    (ps_new_line st) (ps_removed st ++ [mkDiffEntry t (ps_old_line st)]) (ps_added st)
    (S (length (ps_removed st))) (ps_pending_metas st)).
Proof.
  intros Ha Ho. unfold removed_line. rewrite decide_True by done.
  destruct (usize_add_cases (ps_old_line st) 1) as [[_ ->]|[? _]]; [|lia]. cbn.
  by rewrite length_app, Nat.add_comm.
Qed.

Lemma added_line_run t st :
  ps_new_line st < usize_max →
  added_line t st = Ret (mkParseState (ps_rows st) (ps_in_hunk st) (ps_old_line st)
    (ps_new_line st + 1) (ps_removed st) (ps_added st ++ [mkDiffEntry t (ps_new_line st)])
    (S (length (ps_added st))) (ps_pending_metas st)).
Proof.
  intros Hn. unfold added_line.
  destruct (usize_add_cases (ps_new_line st) 1) as [[_ ->]|[? _]]; [|lia]. cbn.
  by rewrite length_app, Nat.add_comm.
Qed.

Lemma note_line_run line st :
  ps_in_hunk st = true → is_note line = true → ps_removed st ≠ [] ∨ ps_added st ≠ [] →
  parse_line st line = Ret (mkParseState (ps_rows st) true (ps_old_line st) (ps_new_line st)
    (ps_removed st) (ps_added st) (ps_last_run_len st)
    (ps_pending_metas st ++ [(ps_last_run_len st, line)])).
Proof.
  intros Hin Hnote Hbuf. unfold is_note in Hnote. apply andb_prop in Hnote as [Hh Hc].
  apply negb_true_iff in Hh. unfold parse_line. rewrite Hh, Hin.
  assert (other_line line st = mkParseState (ps_rows st) true (ps_old_line st) (ps_new_line st)
    (ps_removed st) (ps_added st) (ps_last_run_len st)
    (ps_pending_metas st ++ [(ps_last_run_len st, line)])) as Hother.
  { unfold other_line. rewrite Hin. do 2 case_bool_decide; [by destruct Hbuf|done..]. }
  destruct line as [|c line]; [done|].
  apply negb_true_iff, orb_false_iff in Hc as [[H1 H2]%orb_false_iff H3].
  by rewrite H1, H2, H3, Hother.
Qed.

Lemma removed_texts_cons l run :
  removed_texts (l :: run) =
  match l with RL_Removed t => t :: removed_texts run | _ => removed_texts run end.
Proof. by destruct l. Qed.

Lemma added_texts_cons l run :
  added_texts (l :: run) =
  match l with RL_Added t => t :: added_texts run | _ => added_texts run end.
Proof. by destruct l. Qed.

(** One line of a run, then the rest of it. *)
Lemma run_state_cons l run notes last st st1 :
  ps_rows st1 = ps_rows st → ps_in_hunk st = true →
  (ps_old_line st1, ps_new_line st1, ps_removed st1, ps_added st1, ps_pending_metas st1) =
  match l with
  | RL_Removed t => (ps_old_line st + 1, ps_new_line st,
      ps_removed st ++ [mkDiffEntry t (ps_old_line st)], ps_added st, ps_pending_metas st)
  | RL_Added t => (ps_old_line st, ps_new_line st + 1, ps_removed st,
      ps_added st ++ [mkDiffEntry t (ps_new_line st)], ps_pending_metas st)
  | RL_Note line => (ps_old_line st, ps_new_line st, ps_removed st, ps_added st,
      ps_pending_metas st ++ [(ps_last_run_len st, line)])
  end →
  run_state run notes last st1 =
  run_state (l :: run)
    (match l with RL_Note line => (ps_last_run_len st, line) :: notes | _ => notes end) last st.
Proof.
  intros Hr Hin H. unfold run_state. rewrite removed_texts_cons, added_texts_cons, Hr.
  destruct l; injection H as -> -> -> -> ->;
    rewrite ?numbered_cons, <- ?app_assoc; cbn [length app]; f_equal; lia.
Qed.

(** Reading a run fills the buffers. *)
Lemma parse_run run st rest some plus :
  ps_in_hunk st = true →
  (some = true → ps_removed st ≠ [] ∨ ps_added st ≠ []) → (plus = false → ps_added st = []) →
  run_ok some plus run = true →
  ps_old_line st + Z.of_nat (length (removed_texts run)) <= usize_max →
  ps_new_line st + Z.of_nat (length (added_texts run)) <= usize_max →
  let r := length (ps_removed st) in let a := length (ps_added st) in
  let last := ps_last_run_len st in
  parse_lines st ((run_text <$> run) ++ rest) =
  parse_lines (run_state run (notes_of r a last run) (run_last r a last run) st) rest.
Proof.
  revert st some plus. induction run as [|l run IH]; intros st some plus Hin Hsome Hplus Hok Ho Hn.
  { unfold run_state, numbered. simpl.
    rewrite !app_nil_r, !Z.add_0_r, <- Hin. by destruct st. }
  rewrite removed_texts_cons in Ho. rewrite added_texts_cons in Hn.
  destruct l as [t|t|line]; cbn [run_ok] in Hok; rewrite fmap_cons; cbn [app parse_lines run_text].
  - apply andb_prop in Hok as [Hp Hok]. apply negb_true_iff in Hp. cbn [length] in Ho.
    unfold parse_line. cbn. rewrite Hin, removed_line_run by (auto; lia). cbn.
    match goal with |- parse_lines ?s _ = _ => rewrite (IH s true false) end; cbn; auto; [| |lia].
    + f_equal. rewrite length_app, Nat.add_comm. by apply run_state_cons.
    + left. by destruct (ps_removed st).
  - cbn [length] in Hn. unfold parse_line. cbn. rewrite Hin, added_line_run by lia. cbn.
    match goal with |- parse_lines ?s _ = _ => rewrite (IH s true true) end; cbn; auto; [| |done|lia].
    + f_equal. rewrite length_app, Nat.add_comm. by apply run_state_cons.
    + right. by destruct (ps_added st).
  - apply andb_prop in Hok as [[Hs Hl]%andb_prop Hok].
    rewrite note_line_run by auto. cbn.
    match goal with |- parse_lines ?s _ = _ => rewrite (IH s some plus) end; cbn; auto.
    f_equal. by apply run_state_cons.
Qed.

Lemma notes_of_first last last' run : run_ok false false run = true →
  notes_of 0 0 last run = notes_of 0 0 last' run.
Proof. by destruct run as [|[]]. Qed.

(** Every other line of a run follows one of its lines. *)
Lemma notes_of_range run r a last some plus :
  run_ok some plus run = true → (some = true → 0 < last)%nat → (last ≤ Nat.max r a)%nat →
  Forall (λ m, (0 < m.1 ≤ Nat.max (r + length (removed_texts run))
    (a + length (added_texts run)))%nat) (notes_of r a last run).
Proof.
  revert r a last some plus. induction run as [|l run IH]; intros r a last some plus Hok H0 Hl;
    [constructor|].
  rewrite removed_texts_cons, added_texts_cons. destruct l; cbn [run_ok notes_of length] in *.
  - apply andb_prop in Hok as [_ Hok]. rewrite Nat.add_succ_r, <- Nat.add_succ_l.
    eapply IH; [done|lia..].
  - rewrite Nat.add_succ_r, <- Nat.add_succ_l. eapply IH; [done|lia..].
  - apply andb_prop in Hok as [[Hs _]%andb_prop Hok]. constructor; [|by eapply IH].
    cbn [fst]. specialize (H0 Hs). lia.
Qed.

Lemma flush_empty st :
  ps_removed st = [] → ps_added st = [] → ps_pending_metas st = [] → flush st = st.
Proof. intros H1 H2 H3. unfold flush. rewrite H1, H2, H3. simpl. rewrite app_nil_r.
  destruct st. simpl in *. by subst. Qed.

(** A line that ends a run flushes first. *)
Lemma parse_line_flush plus st line :
  ps_in_hunk st = true → (plus = true → ps_added st ≠ []) → ends_run plus line = true →
  parse_line st line = parse_line (flush st) line.
Proof.
  intros Hin Hplus Hends. unfold parse_line.
  replace (ps_in_hunk (flush st)) with (ps_in_hunk st) by done. rewrite Hin.
  assert (flush (flush st) = flush st) as Hff by by apply flush_empty.
  unfold ends_run in Hends. destruct (is_header line); [unfold open_hunk; by rewrite Hff|].
  destruct line as [|c line]; [unfold context_line; by rewrite Hff|].
  destruct (Z.eqb_spec c 32) as [->|_]; [unfold context_line; by rewrite Hff|].
  destruct (Z.eqb_spec c 45) as [->|_]; [|done]. simpl in Hends. cbn.
  unfold removed_line. rewrite decide_False by auto. done.
Qed.

Lemma has_added_texts run : has_added run = true → added_texts run ≠ [].
Proof. induction run as [|[] run IH]; [done|exact IH|done|exact IH]. Qed.

Definition finish (o : Outcome ParseState) : Outcome (list DiffRow) :=
  st ← o; Ret (ps_rows (flush st)).

(** Removed and added lines pair by position: the rows of a run, from where
    nothing is held back to a line that ends it, hold at position [i] its [i]-th
    removed and its [i]-th added line, or nothing on the side that is shorter;
    any other line in the run stands beneath the row of the line it follows; and
    reading goes on after the run as if its rows had been there. *)
Theorem runs_pair_up st run rest :
  ps_in_hunk st = true → ps_removed st = [] → ps_added st = [] → ps_pending_metas st = [] →
  run_ok false false run = true →
  ps_old_line st + Z.of_nat (length (removed_texts run)) <= usize_max →
  ps_new_line st + Z.of_nat (length (added_texts run)) <= usize_max →
  match rest with [] => True | line :: _ => ends_run (has_added run) line = true end →
  finish (parse_lines st ((run_text <$> run) ++ rest)) =
  finish (parse_lines
    (mkParseState (ps_rows st ++ aligned (ps_old_line st) (ps_new_line st) run) true
       (ps_old_line st + Z.of_nat (length (removed_texts run)))
       (ps_new_line st + Z.of_nat (length (added_texts run)))
       [] [] (run_last 0 0 (ps_last_run_len st) run) []) rest).
Proof.
  intros Hin H1 H2 H3 Hok Ho Hn Hrest.
  rewrite (parse_run run st rest false false) by (rewrite ?H1, ?H2; auto; done).
  rewrite H1, H2. simpl. rewrite (notes_of_first _ 0) by done.
  set (last := run_last _ _ _ _). set (s := run_state _ _ _ _).
  assert (flush s = mkParseState (ps_rows st ++ aligned (ps_old_line st) (ps_new_line st) run) true
    (ps_old_line st + Z.of_nat (length (removed_texts run)))
    (ps_new_line st + Z.of_nat (length (added_texts run))) [] [] last []) as <-.
  { transitivity (mkParseState (ps_rows (flush s)) (ps_in_hunk s) (ps_old_line s) (ps_new_line s)
      [] [] (ps_last_run_len s) []); [done|].
    rewrite flush_rows; unfold s, run_state; cbn -[usize_max];
      rewrite ?H1, ?H2, ?H3; cbn -[usize_max]; [done|].
    rewrite !numbered_length. apply (notes_of_range run 0 0 0 false false); [done|done|lia]. }
  destruct rest as [|line rest].
  - change (Ret (ps_rows (flush s)) = Ret (ps_rows (flush (flush s)))).
    by rewrite (flush_empty (flush s)).
  - cbn [parse_lines]. rewrite (parse_line_flush (has_added run)) at 1; [done|done| |done].
    intros Hadd. subst s. unfold run_state. simpl. rewrite H2. simpl.
    apply has_added_texts in Hadd. by destruct (added_texts run).
Qed.

(** ** Examples *)

Local Open Scope string_scope.
Local Open Scope list_scope.
Local Open Scope Z_scope.

(** A text of lines. *)
Definition text_of (lines : list string) : list Z := lines ≫= λ l, bytes_of l ++ [10].

Definition sample_run : list RunLine :=
  [RL_Removed (bytes_of "b"); RL_Removed (bytes_of "c");
   RL_Note (bytes_of "\ No newline"); RL_Added (bytes_of "B")].

Definition sample_diff : list Z :=
  text_of ["--- a"; "+++ b"; "@@ -2,3 +2,2 @@ fn x() -> u8"; "-b"; "-c"; "\ No newline"; "+B"; " d"].

Definition sample_rows : list DiffRow :=
  [DR_Meta (bytes_of "--- a"); DR_Meta (bytes_of "+++ b");
   DR_Meta (bytes_of "@@ -2,3 +2,2 @@ fn x() -> u8");
   DR_Pair DK_Removed (Some (mkDiffEntry (bytes_of "b") 2)) (Some (mkDiffEntry (bytes_of "B") 2));
   DR_Pair DK_Removed (Some (mkDiffEntry (bytes_of "c") 3)) None;
   DR_Meta (bytes_of "\ No newline");
   DR_Pair DK_Context (Some (mkDiffEntry (bytes_of "d") 4)) (Some (mkDiffEntry (bytes_of "d") 3))].


Lemma runs_pair_up_witness :
  let st := mkParseState [] true 2 2 [] [] 0 [] in
  finish (parse_lines st ((run_text <$> sample_run) ++ [bytes_of " d"])) =
  finish (parse_lines (mkParseState (aligned 2 2 sample_run) true 4 3 [] [] 1 []) [bytes_of " d"]).
Proof.
  apply (runs_pair_up (mkParseState [] true 2 2 [] [] 0 []) sample_run [bytes_of " d"]);
    (reflexivity || (vm_compute; done)).
Defined.

(** A header may name the last line number there is; the next line then
    overflows, although a mismatched header must not panic. *)
Lemma huge_header_panics :
  parse (text_of ["@@ -1 +18446744073709551615 @@"; " x"]) = Panic.
Proof. vm_compute. reflexivity. Qed.
