(* ===== verification/DiffFullProps.v ===== *)
(** * The full-file build of a diff

    [parse_full_file] inserts the lines no hunk covers between the rows of
    [parse]: the folds are exactly what it adds, and for a patch that fits the
    file the new side of the result is the file, line by line. *)

From stdpp Require Import base numbers list strings.
From S2P Require Import Prelude IntText Text DiffParse DiffParseProps.

Local Open Scope Z_scope.

(** ** Headers *)

Lemma split_once_hd sep s :
  match split_once sep s with
  | Some (a, _) => ∃ l, split sep s = a :: l
  | None => split sep s = [s]
  end.
Proof.
  induction s as [|c s IH]; [done|]. cbn. destruct (c =? sep); [by eexists|].
  destruct (split_once sep s) as [[a b]|].
  - destruct IH as [l ->]. by eexists.
  - by rewrite IH.
Qed.

Lemma start_of_range rest : start_of rest = (range_of rest).1.
Proof.
  unfold start_of, range_of. pose proof (split_once_hd 44 rest) as H.
  destruct (split_once 44 rest) as [[a b]|]; [by destruct H as [l ->]|by rewrite H].
Qed.

(** The two readings of a header agree on the starting lines. *)
Lemma hunk_starts_header line :
  hunk_starts line = ((hunk_header line).1.1, (hunk_header line).2.1).
Proof.
  unfold hunk_starts, hunk_header. destruct (strip_prefix hunk_mark line) as [rest|]; [|done].
  generalize (header_tokens rest) as toks.
  assert (∀ toks acc acc', acc = (acc'.1.1, acc'.2.1) →
    foldl starts_step acc toks =
    ((foldl header_step acc' toks).1.1, (foldl header_step acc' toks).2.1)) as H; [|by intros; apply H].
  induction toks as [|tok toks IH]; intros acc acc' Hacc; [done|]. cbn. apply IH. subst acc.
  destruct tok as [|c tok]; [done|]. cbn.
  destruct (c =? 45); [by rewrite start_of_range|]. destruct (c =? 43); [|done].
  by rewrite start_of_range.
Qed.

(** ** Hunks of the rows *)

Definition plain_row (row : DiffRow) : Prop :=
  match row with DR_Meta t => is_header t = false | DR_Pair _ _ _ => True end.

Definition meta_row (row : DiffRow) : Prop :=
  match row with DR_Meta _ => True | DR_Pair _ _ _ => False end.

Definition hunk_append (h : Hunk) (rows : list DiffRow) : Hunk :=
  mkHunk (h_old_start h) (h_old_count h) (h_new_start h) (h_new_count h) (h_rows h ++ rows).

Lemma push_last_app row hs h : push_last row (hs ++ [h]) = hs ++ [hunk_push row h].
Proof.
  induction hs as [|x hs IH]; [done|]. cbn. rewrite IH. by destruct hs.
Qed.

Lemma split_hunks_app rows rows' : split_hunks (rows ++ rows') = foldl split_step (split_hunks rows) rows'.
Proof. apply foldl_app. Qed.

Lemma split_hunks_plain rows rows' leading hs h :
  split_hunks rows = (leading, hs ++ [h]) → Forall plain_row rows' →
  split_hunks (rows ++ rows') = (leading, hs ++ [hunk_append h rows']).
Proof.
  intros Hs Hp. rewrite split_hunks_app, Hs. clear Hs rows. revert h.
  induction Hp as [|row rows' Hrow Hp IH]; intros h.
  { unfold hunk_append. rewrite app_nil_r. by destruct h. }
  assert (split_step (leading, hs ++ [h]) row = (leading, hs ++ [hunk_push row h])) as E.
  { destruct row as [k o n|t]; simpl in *; rewrite ?Hrow, push_last_app; by destruct hs. }
  cbn [foldl]. rewrite E, IH. unfold hunk_append. cbn. by rewrite <- app_assoc.
Qed.

Lemma split_hunks_header rows line leading hunks :
  split_hunks rows = (leading, hunks) → is_header line = true →
  split_hunks (rows ++ [DR_Meta line]) = (leading, hunks ++ [new_hunk line]).
Proof. intros Hs Hl. rewrite split_hunks_app, Hs. cbn. by rewrite Hl. Qed.

Lemma split_hunks_leading rows line leading :
  split_hunks rows = (leading, []) → is_header line = false →
  split_hunks (rows ++ [DR_Meta line]) = (leading ++ [DR_Meta line], []).
Proof. intros Hs Hl. rewrite split_hunks_app, Hs. cbn. by rewrite Hl. Qed.

(** The hunks hold the rows in their order. *)
Lemma split_hunks_rows rows :
  (split_hunks rows).1 ++ ((split_hunks rows).2 ≫= h_rows) = rows.
Proof.
  induction rows as [|row rows IH] using rev_ind; [done|]. rewrite split_hunks_app.
  destruct (split_hunks rows) as [leading hunks]. cbn [foldl fst snd] in IH |- *.
  assert (∀ hs : list Hunk, hs ≠ [] →
    leading ++ (push_last row hs ≫= h_rows) = (leading ++ (hs ≫= h_rows)) ++ [row]) as Hpush.
  { intros hs Hne. destruct hs as [|h hs _] using rev_ind; [done|].
    rewrite push_last_app, !bind_app. cbn. rewrite !app_nil_r. by rewrite !app_assoc. }
  assert (∀ t, leading ++ ((hunks ++ [new_hunk t]) ≫= h_rows) =
    (leading ++ (hunks ≫= h_rows)) ++ [DR_Meta t]) as Hnew.
  { intros t. rewrite bind_app. unfold new_hunk. destruct (hunk_header t) as [[os oc] [ns nc]].
    cbn. by rewrite app_assoc. }
  destruct row as [k o n|t]; cbn [split_step];
    [|destruct (is_header t)]; [|cbn [fst snd]; rewrite Hnew; by rewrite IH|];
    (destruct hunks as [|h hs]; [cbn in *; rewrite !app_nil_r in *; by rewrite IH|];
     cbn [fst snd]; rewrite Hpush by done; by rewrite IH).
Qed.

(** ** Numbers within a hunk *)

Definition line_nos (es : list DiffEntry) : list Z := de_line_no <$> es.

(** Numbered on from [start], the next number being [next]. *)
Definition runs_from (start next : Z) (es : list DiffEntry) : Prop :=
  next = start + Z.of_nat (length es) ∧ line_nos es = seqZ start (Z.of_nat (length es)).

Lemma runs_from_snoc start next es e :
  runs_from start next es → de_line_no e = next → runs_from start (next + 1) (es ++ [e]).
Proof.
  intros [-> Hes] He. unfold runs_from, line_nos in *. rewrite length_app, fmap_app. cbn.
  split; [lia|]. rewrite Nat2Z.inj_add. cbn.
  rewrite seqZ_app by lia. rewrite Hes, He. f_equal.
Qed.

Definition hunk_numbered (h : Hunk) : Prop :=
  (∃ next, runs_from (h_old_start h) next (olds (h_rows h))) ∧
  (∃ next, runs_from (h_new_start h) next (news (h_rows h))).

(** The hunks of the rows so far; the last is still being read. *)
Definition hunks_read (st : ParseState) : Prop :=
  Forall (λ m, is_header m.2 = false) (ps_pending_metas st) ∧
  Forall meta_row (split_hunks (ps_rows st)).1 ∧
  if ps_in_hunk st then
    ∃ hs h, (split_hunks (ps_rows st)).2 = hs ++ [h] ∧ Forall hunk_numbered hs ∧
      runs_from (h_old_start h) (ps_old_line st) (olds (h_rows h) ++ ps_removed st) ∧
      runs_from (h_new_start h) (ps_new_line st) (news (h_rows h) ++ ps_added st)
  else (split_hunks (ps_rows st)).2 = [] ∧
    ps_removed st = [] ∧ ps_added st = [] ∧ ps_pending_metas st = [].

Lemma flush_loop_plain n i removed added ms :
  Forall (λ m, is_header m.2 = false) ms → Forall plain_row (flush_loop n i removed added ms).
Proof.
  revert i ms. induction n as [|n IH]; intros i ms Hms; simpl.
  { apply Forall_fmap. exact Hms. }
  assert (Forall (λ t, is_header t = false) (take_metas (S i) ms).1 ∧
          Forall (λ m, is_header m.2 = false) (take_metas (S i) ms).2) as [H1 H2].
  { assert (Forall (λ t, is_header t = false) ms.*2) as H by by apply Forall_fmap.
    rewrite (take_metas_app (S i) ms) in H. apply Forall_app in H as [Ha Hb].
    split; [done|]. by apply Forall_fmap in Hb. }
  destruct (take_metas (S i) ms) as [ts r]. constructor; [done|]. apply Forall_app. split; [|auto].
  by apply Forall_fmap.
Qed.

Lemma hunks_read_flush st : hunks_read st → hunks_read (flush st).
Proof.
  intros (Hm & Hl & Hh). destruct (ps_in_hunk st) eqn:Hin; cycle 1.
  { destruct Hh as (H1 & H2 & H3 & H4). rewrite flush_empty by done. unfold hunks_read.
    by rewrite Hin. }
  destruct Hh as (hs & h & Hs & Hn & Ho & Hw). unfold hunks_read.
  destruct (split_hunks (ps_rows st)) as [leading hunks] eqn:Hsp. cbn in Hl, Hs. subst hunks.
  unfold flush; cbn [ps_rows ps_in_hunk ps_removed ps_added ps_pending_metas ps_old_line ps_new_line].
  rewrite Hin. set (rs := flush_loop _ _ _ _ _).
  destruct (flush_loop_sides (Nat.max (length (ps_removed st)) (length (ps_added st))) 0
    (ps_removed st) (ps_added st) (sort_metas (ps_pending_metas st))) as (F1 & F2 & _); [lia..|].
  fold rs in F1, F2. rewrite drop_0 in F1, F2.
  rewrite (split_hunks_plain _ rs leading hs h) by
    (first [done | apply flush_loop_plain; by rewrite sort_metas_perm]).
  split; [constructor|]. split; [done|]. exists hs, (hunk_append h rs).
  unfold hunk_append. cbn [h_rows h_old_start h_new_start].
  by rewrite !app_nil_r, olds_app, news_app, F1, F2.
Qed.

(** A row that is no header joins the hunk being read. *)
Lemma hunks_read_push st row old new removed added last pending :
  hunks_read st → ps_in_hunk st = true → plain_row row →
  Forall (λ m, is_header m.2 = false) pending →
  (∀ h, runs_from (h_old_start h) (ps_old_line st) (olds (h_rows h) ++ ps_removed st) →
    runs_from (h_old_start h) old (olds (h_rows h ++ [row]) ++ removed)) →
  (∀ h, runs_from (h_new_start h) (ps_new_line st) (news (h_rows h) ++ ps_added st) →
    runs_from (h_new_start h) new (news (h_rows h ++ [row]) ++ added)) →
  hunks_read (mkParseState (ps_rows st ++ [row]) true old new removed added last pending).
Proof.
  intros (Hm & Hl & Hh) Hin Hrow Hp Ho Hn. rewrite Hin in Hh.
  destruct Hh as (hs & h & Hs & Hnum & Hold & Hnew).
  destruct (split_hunks (ps_rows st)) as [leading hunks] eqn:Hsp. cbn in Hl, Hs. subst hunks.
  unfold hunks_read. cbn [ps_rows ps_in_hunk ps_removed ps_added ps_pending_metas ps_old_line ps_new_line].
  rewrite (split_hunks_plain _ [row] leading hs h) by (first [done | by constructor]).
  split; [done|]. split; [done|]. exists hs, (hunk_append h [row]). unfold hunk_append.
  cbn [h_rows h_old_start h_new_start]. auto.
Qed.

(** Nothing but the buffers changes. *)
Lemma hunks_read_buffers st old new removed added last pending :
  hunks_read st → ps_in_hunk st = true →
  Forall (λ m, is_header m.2 = false) pending →
  (∀ start es, runs_from start (ps_old_line st) (es ++ ps_removed st) →
    runs_from start old (es ++ removed)) →
  (∀ start es, runs_from start (ps_new_line st) (es ++ ps_added st) →
    runs_from start new (es ++ added)) →
  hunks_read (mkParseState (ps_rows st) true old new removed added last pending).
Proof.
  intros (Hm & Hl & Hh) Hin Hp Ho Hn. rewrite Hin in Hh.
  destruct Hh as (hs & h & Hs & Hnum & Hold & Hnew).
  split; [done|]. split; [done|]. exists hs, h. auto.
Qed.

Lemma runs_from_extend start next es l e next' :
  next' = next + 1 → de_line_no e = next →
  runs_from start next (es ++ l) → runs_from start next' (es ++ l ++ [e]).
Proof. intros -> He H. rewrite app_assoc. by apply runs_from_snoc. Qed.

Lemma context_line_read st text st' :
  hunks_read st → ps_in_hunk st = true → context_line text st = Ret st' → hunks_read st'.
Proof.
  intros H%hunks_read_flush Hin. replace (ps_in_hunk st) with (ps_in_hunk (flush st)) in Hin by done.
  destruct (flush_buffers st) as (B1 & B2 & B3). unfold context_line.
  generalize dependent (flush st). clear st. intros st H Hin B1 B2 B3.
  destruct (usize_add_cases (ps_old_line st) 1) as [[_ ->]|[_ ->]]; [|done]. cbn.
  destruct (usize_add_cases (ps_new_line st) 1) as [[_ ->]|[_ ->]]; [|done]. cbn.
  intros [= <-]. rewrite Hin. apply hunks_read_push; [done|done|done|by rewrite B3|..]; rewrite ?B1, ?B2;
    intros h; rewrite !app_nil_r, ?olds_app, ?news_app; intros Hr; by apply runs_from_snoc.
Qed.

Lemma added_line_read st text st' :
  hunks_read st → ps_in_hunk st = true → added_line text st = Ret st' → hunks_read st'.
Proof.
  intros H Hin. unfold added_line.
  destruct (usize_add_cases (ps_new_line st) 1) as [[_ ->]|[_ ->]]; [|done]. cbn.
  intros [= <-]. rewrite Hin. apply hunks_read_buffers; [done|done|apply H|..]; [done|];
    intros start es; by apply runs_from_extend.
Qed.

Lemma removed_line_read st text st' :
  hunks_read st → ps_in_hunk st = true → removed_line text st = Ret st' → hunks_read st'.
Proof.
  intros H Hin. unfold removed_line.
  assert (∃ st1, (if decide (ps_added st = []) then st else flush st) = st1 ∧ hunks_read st1 ∧
    ps_in_hunk st1 = true) as (st1 & -> & H1 & Hin1).
  { case_decide; eexists; split_and!; eauto using hunks_read_flush. }
  destruct (usize_add_cases (ps_old_line st1) 1) as [[_ ->]|[_ ->]]; [|done]. cbn.
  intros [= <-]. rewrite Hin1. apply hunks_read_buffers; [done|done|apply H1|..|done];
    intros start es; by apply runs_from_extend.
Qed.

Lemma other_line_read st line :
  hunks_read st → is_header line = false → hunks_read (other_line line st).
Proof.
  intros H Hl. unfold other_line. destruct (_ && _) eqn:E.
  - apply andb_prop in E as [Hin _]. rewrite Hin. apply hunks_read_buffers; [done|done| |done|done].
    apply Forall_app. split; [apply H|by repeat constructor].
  - apply hunks_read_flush in H. destruct (flush_buffers st) as (B1 & B2 & B3). unfold push_row.
    generalize dependent (flush st). clear st E. intros st H B1 B2 B3.
    destruct (ps_in_hunk st) eqn:Hin.
    + apply hunks_read_push; [done|done|done|apply H|..]; intros h;
        rewrite ?olds_app, ?news_app; cbn; by rewrite app_nil_r.
    + destruct H as (Hm & Hlead & Hh). unfold hunks_read in *. rewrite Hin in Hh.
      destruct Hh as (Hs & Hh). cbn [ps_rows ps_in_hunk ps_removed ps_added ps_pending_metas].
      destruct (split_hunks (ps_rows st)) as [leading hunks] eqn:Hsp. cbn in Hlead, Hs. subst hunks.
      rewrite (split_hunks_leading _ _ leading) by done.
      split; [done|]. split; [|done]. apply Forall_app. split; [done|by repeat constructor].
Qed.

Lemma open_hunk_read st line :
  hunks_read st → is_header line = true → hunks_read (open_hunk line st).
Proof.
  intros H Hl. apply hunks_read_flush in H. destruct (flush_buffers st) as (B1 & B2 & B3).
  unfold open_hunk. generalize dependent (flush st). clear st. intros st H B1 B2 B3.
  rewrite hunk_starts_header. destruct H as (Hm & Hlead & Hh). unfold hunks_read.
  cbn [ps_rows ps_in_hunk ps_removed ps_added ps_pending_metas ps_old_line ps_new_line].
  destruct (split_hunks (ps_rows st)) as [leading hunks] eqn:Hsp. cbn in Hlead.
  rewrite (split_hunks_header _ _ leading hunks) by done.
  split; [done|]. split; [done|]. exists hunks, (new_hunk line).
  rewrite B1, B2. split; [done|]. split.
  - cbn [snd] in Hh. destruct (ps_in_hunk st); [|destruct Hh as [-> _]; constructor].
    destruct Hh as (hs & h & -> & Hnum & Ho & Hn).
    rewrite B1, B2, !app_nil_r in *. apply Forall_app. split; [done|].
    repeat constructor; eauto.
  - unfold new_hunk. destruct (hunk_header line) as [[os oc] [ns nc]]. unfold runs_from. cbn.
    rewrite !Z.add_0_r. done.
Qed.

Lemma parse_line_read st line st' :
  hunks_read st → parse_line st line = Ret st' → hunks_read st'.
Proof.
  intros H. unfold parse_line. destruct (is_header line) eqn:Hl.
  { intros [= <-]. by apply open_hunk_read. }
  destruct (ps_in_hunk st) eqn:Hin; [|intros [= <-]; by apply other_line_read].
  destruct line as [|c line]; [by apply context_line_read|].
  destruct (c =? 32); [by apply context_line_read|].
  destruct (c =? 43); [by apply added_line_read|].
  destruct (c =? 45); [by apply removed_line_read|]. intros [= <-]. by apply other_line_read.
Qed.

(** In the rows of a diff only meta rows come before the first hunk, and the
    entries of a hunk are numbered on from its header's lines. *)
Lemma parse_hunks text rows leading hunks :
  parse text = Ret rows → split_hunks rows = (leading, hunks) →
  Forall meta_row leading ∧ Forall hunk_numbered hunks.
Proof.
  unfold parse. assert (hunks_read ps_init) as H0 by by repeat split.
  assert (∀ lines st st', hunks_read st → parse_lines st lines = Ret st' → hunks_read st') as H.
  { induction lines as [|line lines IH]; intros st st' Hst; cbn; [by intros [= <-]|].
    destruct (parse_line st line) as [st1|] eqn:E; [|done]. cbn. apply IH.
    by eapply parse_line_read. }
  destruct (parse_lines ps_init (lines_of text)) as [st|] eqn:E; [|done].
  change (Ret (ps_rows (flush st)) = Ret rows → split_hunks rows = (leading, hunks) →
    Forall meta_row leading ∧ Forall hunk_numbered hunks). intros [= Hrows] Hs.
  eapply H in E; [|done]. apply hunks_read_flush in E. destruct (flush_buffers st) as (B1 & B2 & _).
  unfold hunks_read in E. change (ps_rows (flush st) = rows) in Hrows. rewrite Hrows in E. rewrite Hs in E. cbn [fst snd] in E. destruct E as (_ & Hl & Hh).
  split; [done|]. destruct (ps_in_hunk (flush st)); [|destruct Hh as [-> _]; constructor].
  destruct Hh as (hs & h & -> & Hnum & Ho & Hn). rewrite B1, B2, !app_nil_r in *.
  apply Forall_app. split; [done|]. repeat constructor; eauto.
Qed.

(** ** What the folds hold *)

Definition in_fold (folds : list (nat * nat)) (i : nat) : bool :=
  existsb (λ f, (f.1 <=? i)%nat && (i <=? f.2)%nat) folds.

(** The rows from index [i] on that no fold covers. *)
Fixpoint outside (i : nat) (folds : list (nat * nat)) (rows : list DiffRow) : list DiffRow :=
  match rows with
  | [] => []
  | row :: rows' =>
      if in_fold folds i then outside (S i) folds rows' else row :: outside (S i) folds rows'
  end.

(** An unchanged line of the file, on both sides. *)
Definition file_row (lines : list (list Z)) (row : DiffRow) : Prop :=
  ∃ text old new, row = DR_Pair DK_Context (Some (mkDiffEntry text old)) (Some (mkDiffEntry text new)) ∧
    1 <= new ∧ lines !! Z.to_nat (new - 1) = Some text.

Lemma outside_app i folds rows rows' :
  outside i folds (rows ++ rows') = outside i folds rows ++ outside (i + length rows) folds rows'.
Proof.
  revert i. induction rows as [|row rows IH]; intros i; cbn; [by rewrite Nat.add_0_r|].
  rewrite IH, Nat.add_succ_r. by destruct (in_fold folds i).
Qed.

Lemma outside_none i folds rows :
  (∀ k, (i ≤ k < i + length rows)%nat → in_fold folds k = false) → outside i folds rows = rows.
Proof.
  revert i. induction rows as [|row rows IH]; intros i H; cbn; [done|].
  rewrite H by (cbn; lia). f_equal. apply IH. intros k Hk. apply H. cbn. lia.
Qed.

Lemma outside_all i folds rows :
  (∀ k, (i ≤ k < i + length rows)%nat → in_fold folds k = true) → outside i folds rows = [].
Proof.
  revert i. induction rows as [|row rows IH]; intros i H; cbn; [done|].
  rewrite H by (cbn; lia). apply IH. intros k Hk. apply H. cbn. lia.
Qed.

Lemma outside_ext i folds folds' rows :
  (∀ k, (i ≤ k < i + length rows)%nat → in_fold folds k = in_fold folds' k) →
  outside i folds rows = outside i folds' rows.
Proof.
  revert i. induction rows as [|row rows IH]; intros i H; cbn; [done|].
  rewrite H by (cbn; lia). erewrite IH; [done|]. intros k Hk. apply H. cbn. lia.
Qed.

Lemma in_fold_app folds folds' i : in_fold (folds ++ folds') i = in_fold folds i || in_fold folds' i.
Proof. apply existsb_app. Qed.

Lemma in_fold_above folds i n :
  Forall (λ f, (f.2 < n)%nat) folds → (n ≤ i)%nat → in_fold folds i = false.
Proof.
  intros Hf Hi. apply not_true_is_false. unfold in_fold. rewrite existsb_exists.
  intros (f & Hin & Hb). rewrite Forall_forall in Hf.
  apply list_elem_of_In in Hin. apply Hf in Hin. apply andb_prop in Hb as [_ Hb].
  apply Nat.leb_le in Hb. lia.
Qed.

(** The state of the walk: [shown] are the rows of the patch placed so far. *)
Definition walk_ok (lines : list (list Z)) (shown : list DiffRow) (st : FullState) : Prop :=
  outside 0 (fs_folds st) (fs_out st) = shown ∧
  Forall (λ f, (f.2 < length (fs_out st))%nat) (fs_folds st) ∧
  ∀ i row, fs_out st !! i = Some row → in_fold (fs_folds st) i = true → file_row lines row.

Lemma unchanged_rows_spec n lines line_no delta rows :
  unchanged_rows n lines line_no delta = Ret rows →
  length rows = n ∧ Forall (file_row lines) rows.
Proof.
  revert line_no rows. induction n as [|n IH]; intros line_no rows; cbn; [by intros [= <-]|].
  unfold unchanged_row, index. destruct (line_no - 1 <? 0) eqn:Hneg; [done|]. zbool.
  destruct (lines !! Z.to_nat (line_no - 1)) as [t|] eqn:Ht; [|done]. cbn.
  destruct (isize_check _) as [old|]; [|done]. cbn.
  destruct (unchanged_rows n lines (line_no + 1) delta) as [rs|] eqn:E; [|done]. cbn.
  intros [= <-]. destruct (IH _ _ E) as [<- Hrs]. split; [done|]. constructor; [|done].
  exists t, (Z.max old 1), line_no. split_and!; [done|lia|done].
Qed.

Lemma fold_lines_ok lines shown fold_end st st' :
  walk_ok lines shown st → fold_lines lines fold_end st = Ret st' → walk_ok lines shown st'.
Proof.
  intros (Hs & Hf & Hr). unfold fold_lines.
  destruct (fs_next_line st <? fold_end) eqn:Hlt; [|by intros [= <-]]. zbool.
  destruct (unchanged_rows _ _ _ _) as [rows|] eqn:E; [|done]. cbn. intros [= <-].
  apply unchanged_rows_spec in E as [Hlen Hrows].
  assert (0 < length rows)%nat as Hpos by lia.
  set (new := (length (fs_out st), length (fs_out st ++ rows) - 1)%nat).
  assert (∀ k, in_fold [new] k =
    ((length (fs_out st) <=? k)%nat && (k <? length (fs_out st) + length rows)%nat)) as Hnew.
  { intros k. unfold in_fold, new. cbn [existsb fst snd]. rewrite orb_false_r, length_app. f_equal.
    apply eq_true_iff_eq. rewrite Nat.leb_le, Nat.ltb_lt. lia. }
  unfold walk_ok. cbn [fs_out fs_folds]. split_and!.
  - rewrite outside_app, (outside_all _ _ rows), app_nil_r.
    + rewrite <- Hs. apply outside_ext. intros k Hk. rewrite in_fold_app, Hnew.
      rewrite (proj2 (Nat.leb_gt _ _)) by lia. by rewrite orb_false_r.
    + intros k Hk. rewrite in_fold_app, Hnew, orb_true_iff. right.
      apply andb_true_iff. split; [apply Nat.leb_le|apply Nat.ltb_lt]; lia.
  - rewrite length_app. apply Forall_app. split.
    + eapply Forall_impl; [exact Hf|]. cbn. lia.
    + repeat constructor. unfold new. cbn. rewrite length_app. lia.
  - intros i row [Hi|[Hi Hrow]]%lookup_app_Some Hin.
    + apply (Hr i row Hi). rewrite in_fold_app, Hnew in Hin. apply lookup_lt_Some in Hi.
      rewrite (proj2 (Nat.leb_gt _ _)) in Hin by lia. by rewrite orb_false_r in Hin.
    + rewrite Forall_forall in Hrows. eapply Hrows, list_elem_of_lookup_2, Hrow.
Qed.

Lemma walk_ok_rows lines shown st rows next delta :
  walk_ok lines shown st →
  walk_ok lines (shown ++ rows) (mkFullState (fs_out st ++ rows) (fs_folds st) next delta).
Proof.
  intros (Hs & Hf & Hr). unfold walk_ok. cbn [fs_out fs_folds]. split_and!.
  - rewrite outside_app, Hs, (outside_none _ _ rows); [done|]. intros k Hk.
    eapply in_fold_above; [exact Hf|lia].
  - rewrite length_app. eapply Forall_impl; [exact Hf|]. cbn. lia.
  - intros i row [Hi|[Hi Hrow]]%lookup_app_Some Hin; [by apply (Hr i)|].
    by rewrite (in_fold_above _ _ _ Hf Hi) in Hin.
Qed.

Lemma place_hunks_ok lines hunks shown st st' :
  walk_ok lines shown st → place_hunks lines st hunks = Ret st' →
  walk_ok lines (shown ++ (supplied_text lines <$> (hunks ≫= h_rows))) st'.
Proof.
  revert shown st. induction hunks as [|h hunks IH]; intros shown st Hst; cbn [place_hunks].
  { intros [= <-]. cbn. by rewrite app_nil_r. }
  destruct (place_hunk lines st h) as [st1|] eqn:E; [|done]. cbn [mbind outcome_bind]. intros Hp.
  unfold place_hunk in E. destruct (hunk_boundary h) as [b|]; [|done]. cbn in E.
  destruct (fold_lines _ _ st) as [st2|] eqn:Ef; [|done]. cbn in E.
  eapply fold_lines_ok in Ef; [|done].
  destruct (if h_new_count h =? 0 then _ else _) as [next|]; [|done]. cbn in E.
  destruct (isize_check _) as [step|]; [|done]. cbn in E.
  destruct (isize_check _) as [delta|]; [|done]. cbn in E. injection E as <-.
  eapply IH in Hp; [|by apply walk_ok_rows]. cbn. by rewrite fmap_app, app_assoc.
Qed.

Lemma supplied_metas lines rows : Forall meta_row rows → supplied_text lines <$> rows = rows.
Proof. induction 1 as [|[k o n|t] rows Hrow Hrows IH]; [done|done|]. cbn. by rewrite IH. Qed.

(** The full-file build only adds folds. Outside the folds stand exactly the
    rows of the diff alone, in their order, with the supplied text on the new
    side; inside the folds stand only context rows that show a line of the
    supplied file with its number. *)
Theorem folds_are_the_only_additions diff new_text out folds :
  parse_full_file diff new_text = Ret (out, folds) →
  ∃ rows, parse diff = Ret rows ∧
    outside 0 folds out = supplied_text (lines_of new_text) <$> rows ∧
    ∀ i row, out !! i = Some row → in_fold folds i = true → file_row (lines_of new_text) row.
Proof.
  unfold parse_full_file. destruct (parse diff) as [rows|] eqn:Hp; [|done]. cbn [mbind outcome_bind].
  destruct (split_hunks rows) as [leading hunks] eqn:Hs.
  destruct (parse_hunks _ _ _ _ Hp Hs) as [Hl _].
  destruct (place_hunks _ _ hunks) as [st|] eqn:Eh; [|done]. cbn [mbind outcome_bind].
  destruct (fold_lines _ _ st) as [st'|] eqn:Ef; [|done]. cbn. intros [= <- <-].
  exists rows. split; [done|].
  eapply place_hunks_ok in Eh; [eapply fold_lines_ok in Ef; [|exact Eh]|].
  - destruct Ef as (Ho & _ & Hr). split; [|done]. rewrite Ho.
    pose proof (split_hunks_rows rows) as Hrows. rewrite Hs in Hrows. cbn [fst snd] in Hrows.
    rewrite <- Hrows, fmap_app, (supplied_metas _ leading) by done. done.
  - unfold walk_ok. cbn [fs_out fs_folds]. split_and!; [by apply outside_none|constructor|done].
Qed.

(** ** Patches that fit the file *)

(** The hunks come in order, lie within the [n] lines, hold as many lines as
    their headers say, and their old lines are as far apart as their new ones;
    [next], [old_next] are the first lines not yet passed. *)
Fixpoint patch_fits (n next old_next : Z) (hunks : list Hunk) : bool :=
  match hunks with
  | [] => old_next + (n + 1 - next) <? 2 ^ 62
  | h :: hs =>
      let b := if h_new_count h =? 0 then h_new_start h + 1 else h_new_start h in
      let ob := if h_old_count h =? 0 then h_old_start h + 1 else h_old_start h in
      (next <=? b) && (b - next =? ob - old_next) && (b + h_new_count h <=? n + 1) &&
      (ob + h_old_count h <? 2 ^ 62) &&
      (Z.of_nat (length (news (h_rows h))) =? h_new_count h) &&
      (Z.of_nat (length (olds (h_rows h))) =? h_old_count h) &&
      patch_fits n (b + h_new_count h) (ob + h_old_count h) hs
  end.

Lemma isize_check_small v : - 2 ^ 62 <= v <= 2 ^ 62 → isize_check v = Ret v.
Proof.
  intros H. unfold isize_check. replace (in_int true 64 v) with true; [done|].
  symmetry. unfold in_int, int_min, int_max. rewrite andb_true_iff, !Z.leb_le. lia.
Qed.

Lemma as_sint_count v : 0 <= v <= 2 ^ 62 → as_sint 64 v = v.
Proof.
  intros H. unfold as_sint. rewrite Z.mod_small by lia.
  by rewrite (proj2 (Z.ltb_lt v (2 ^ (64 - 1)))) by lia.
Qed.

Lemma seqZ_snoc_run a b c : 1 <= a → 0 <= b → c = a + b →
  seqZ 1 (a - 1) ++ seqZ a b = seqZ 1 (c - 1).
Proof.
  intros Ha Hb ->. replace (a + b - 1) with ((a - 1) + b) by lia.
  rewrite seqZ_app by lia. by replace (1 + (a - 1)) with a by lia.
Qed.

Section fits.
Context (lines : list (list Z)).
Context (Hlen : Z.of_nat (length lines) < 2 ^ 62).

Definition file_entry (k : Z) : option DiffEntry :=
  (λ t, mkDiffEntry t k) <$> lines !! Z.to_nat (k - 1).

(** Lines [a] to [b - 1] of the file. *)
Definition file_entries (a b : Z) : list DiffEntry := omap file_entry (seqZ a (b - a)).

Lemma file_entries_app a b c :
  a <= b <= c → file_entries a b ++ file_entries b c = file_entries a c.
Proof using lines.
  intros H. unfold file_entries. rewrite <- omap_app.
  replace (c - a) with ((b - a) + (c - b)) by lia. rewrite seqZ_app by lia.
  by replace (a + (b - a)) with b by lia.
Qed.

Lemma file_entry_Some k : 1 <= k <= Z.of_nat (length lines) →
  ∃ t, lines !! Z.to_nat (k - 1) = Some t ∧ file_entry k = Some (mkDiffEntry t k).
Proof using lines.
  intros H. destruct (lookup_lt_is_Some_2 lines (Z.to_nat (k - 1))) as [t Ht]; [lia|].
  exists t. unfold file_entry. by rewrite Ht.
Qed.

Lemma file_entries_one k t :
  lines !! Z.to_nat (k - 1) = Some t → file_entries k (k + 1) = [mkDiffEntry t k].
Proof using lines.
  intros Ht. unfold file_entries. replace (k + 1 - k) with 1 by lia.
  rewrite seqZ_cons, seqZ_nil by lia. cbn. unfold file_entry. by rewrite Ht.
Qed.

Lemma unchanged_rows_total n line_no old :
  1 <= line_no → line_no + Z.of_nat n <= Z.of_nat (length lines) + 1 →
  1 <= old → old + Z.of_nat n < 2 ^ 62 →
  ∃ rows, unchanged_rows n lines line_no (line_no - old) = Ret rows ∧
    news rows = file_entries line_no (line_no + Z.of_nat n) ∧
    line_nos (olds rows) = seqZ old (Z.of_nat n).
Proof using Hlen.
  revert line_no old. induction n as [|n IH]; intros line_no old H1 H2 H3 H4.
  { exists []. unfold file_entries. rewrite Z.add_0_r, Z.sub_diag. done. }
  destruct (file_entry_Some line_no) as (t & Ht & He); [lia|].
  destruct (IH (line_no + 1) (old + 1)) as (rows & Hrows & Hn & Ho); [lia..|].
  replace (line_no + 1 - (old + 1)) with (line_no - old) in Hrows by lia.
  eexists (_ :: rows). cbn [unchanged_rows]. unfold unchanged_row.
  rewrite (index_Ret lines (line_no - 1) t) by (done || lia). cbn [mbind outcome_bind].
  rewrite as_sint_count, isize_check_small by lia. cbn [mbind outcome_bind].
  rewrite Hrows. cbn [mbind outcome_bind]. split; [done|]. split.
  - cbn. fold (news rows). rewrite Hn.
    rewrite <- (file_entries_app line_no (line_no + 1) (line_no + Z.of_nat (S n))) by lia.
    rewrite (file_entries_one line_no t) by done. cbn. f_equal. f_equal. lia.
  - unfold line_nos in *. cbn. fold (olds rows). rewrite Ho.
    rewrite (seqZ_cons old) by lia. f_equal; [lia|]. f_equal; lia.
Qed.

Lemma supplied_olds rows : olds (supplied_text lines <$> rows) = olds rows.
Proof using lines.
  unfold olds. induction rows as [|[k o [n|]|t] rows IH]; cbn; [done|..]; by rewrite IH.
Qed.

Lemma supplied_news rows :
  Forall (λ k, 1 <= k <= Z.of_nat (length lines)) (line_nos (news rows)) →
  news (supplied_text lines <$> rows) = omap file_entry (line_nos (news rows)).
Proof using lines.
  unfold news. induction rows as [|[k o [n|]|t] rows IH]; cbn; [done| |exact IH|exact IH].
  intros [Hn Hrows]%Forall_cons. rewrite IH by done.
  destruct (file_entry_Some (de_line_no n)) as (t & Ht & He); [done|].
  rewrite He, Ht. destruct (Z.leb_spec (de_line_no n) 0); [lia|]. done.
Qed.

(** The walk stands at line [next] of the file, [old_next] of the old one. *)
Definition walk_at (next old_next : Z) (st : FullState) : Prop :=
  fs_next_line st = next ∧ fs_delta st = next - old_next ∧
  news (fs_out st) = file_entries 1 next ∧
  line_nos (olds (fs_out st)) = seqZ 1 (old_next - 1) ∧
  1 <= next <= Z.of_nat (length lines) + 1 ∧ 1 <= old_next.

Lemma fold_lines_at next old_next fold_end st :
  walk_at next old_next st → next <= fold_end <= Z.of_nat (length lines) + 1 →
  old_next + (fold_end - next) < 2 ^ 62 →
  ∃ st', fold_lines lines fold_end st = Ret st' ∧
    walk_at fold_end (old_next + (fold_end - next)) st'.
Proof using Hlen.
  intros (Hnx & Hd & Hn & Ho & H1 & H2) Hb Hs. unfold fold_lines. rewrite Hnx, Hd.
  destruct (Z.ltb_spec next fold_end) as [Hlt|Hge]; cycle 1.
  { replace fold_end with next by lia. rewrite Z.sub_diag, Z.add_0_r. by exists st. }
  destruct (unchanged_rows_total (Z.to_nat (fold_end - next)) next old_next)
    as (rows & -> & Hrn & Hro); [lia..|]. cbn [mbind outcome_bind].
  eexists. split; [done|]. unfold walk_at. cbn [fs_next_line fs_delta fs_out].
  rewrite Z2Nat.id in Hrn, Hro by lia.
  split_and!; [done|lia| | |lia..].
  - rewrite news_app, Hn, Hrn, file_entries_app by lia. f_equal. lia.
  - unfold line_nos in *. rewrite olds_app, fmap_app, Ho, Hro. apply seqZ_snoc_run; lia.
Qed.

Lemma place_hunk_at next old_next st h hs :
  walk_at next old_next st → hunk_numbered h →
  patch_fits (Z.of_nat (length lines)) next old_next (h :: hs) = true →
  ∃ next' old_next' st', place_hunk lines st h = Ret st' ∧ walk_at next' old_next' st' ∧
    patch_fits (Z.of_nat (length lines)) next' old_next' hs = true.
Proof using Hlen.
  intros Hat [[? [_ Hono]] [? [_ Hnno]]]. cbn [patch_fits].
  set (b := if h_new_count h =? 0 then _ else _). set (ob := if h_old_count h =? 0 then _ else _).
  intros Hfit. pose proof Hat as (_ & _ & _ & _ & Hn1 & Ho1).
  assert ((h_new_count h =? 0) = true ∧ b = h_new_start h + 1 ∨
          (h_new_count h =? 0) = false ∧ b = h_new_start h) as Hbc by
    (unfold b; destruct (h_new_count h =? 0); auto).
  assert ((h_old_count h =? 0) = true ∧ ob = h_old_start h + 1 ∨
          (h_old_count h =? 0) = false ∧ ob = h_old_start h) as Hoc by
    (unfold ob; destruct (h_old_count h =? 0); auto).
  clearbody b ob. zbool.
  assert (hunk_boundary h = Ret b ∧
    (if h_new_count h =? 0 then Ret b else usize_add (h_new_start h) (h_new_count h)) =
    Ret (b + h_new_count h)) as [Hb Hnx].
  { unfold hunk_boundary, usize_add, usize_max.
    destruct Hbc as [[Hc ->]|[Hc ->]]; rewrite Hc; zbool;
      (rewrite (proj2 (Z.leb_le _ _)) by lia); [split; [done|f_equal; lia]|done]. }
  unfold place_hunk. rewrite Hb. cbn [mbind outcome_bind]. rewrite Z.min_l by lia.
  destruct (fold_lines_at next old_next b st) as (st1 & -> & Hat1); [done|lia..|].
  replace (old_next + (b - next)) with ob in Hat1 by lia.
  destruct Hat1 as (_ & Hd & Hn & Ho & _ & _). cbn [mbind outcome_bind]. rewrite Hnx.
  cbn [mbind outcome_bind]. rewrite !as_sint_count, isize_check_small by lia.
  cbn [mbind outcome_bind]. rewrite Hd, isize_check_small by lia. cbn [mbind outcome_bind].
  eexists (b + h_new_count h), (ob + h_old_count h), _. split; [done|]. split; [|done].
  unfold walk_at. cbn [fs_next_line fs_delta fs_out]. split_and!; [lia|lia| | |lia..].
  - rewrite news_app, Hn, supplied_news; rewrite Hnno.
    + destruct Hbc as [[Hc ->]|[Hc ->]]; zbool.
      * replace (Z.of_nat (length (news (h_rows h)))) with 0 by lia.
        rewrite seqZ_nil, app_nil_r by lia. f_equal. lia.
      * rewrite <- (file_entries_app 1 (h_new_start h) (_ + _)) by lia. f_equal. unfold file_entries.
        f_equal. f_equal; lia.
    + apply Forall_forall. intros k Hk%elem_of_seqZ.
      destruct Hbc as [[Hc ->]|[Hc ->]]; zbool; lia.
  - unfold line_nos in *. rewrite olds_app, supplied_olds, fmap_app, Ho, Hono.
    destruct Hoc as [[Hc ->]|[Hc ->]]; zbool.
    + replace (Z.of_nat (length (olds (h_rows h)))) with 0 by lia.
      rewrite (seqZ_nil (h_old_start h) 0), app_nil_r by lia. f_equal. lia.
    + apply seqZ_snoc_run; lia.
Qed.

Lemma place_hunks_at hunks next old_next st :
  walk_at next old_next st → Forall hunk_numbered hunks →
  patch_fits (Z.of_nat (length lines)) next old_next hunks = true →
  ∃ next' old_next' st', place_hunks lines st hunks = Ret st' ∧ walk_at next' old_next' st' ∧
    old_next' + (Z.of_nat (length lines) + 1 - next') < 2 ^ 62.
Proof using Hlen.
  revert next old_next st. induction hunks as [|h hunks IH]; intros next old_next st Hat Hnum Hfit.
  { cbn in Hfit. zbool. eexists _, _, st. cbn. eauto. }
  apply Forall_cons in Hnum as [Hh Hhs].
  destruct (place_hunk_at _ _ _ _ _ Hat Hh Hfit) as (n' & o' & st' & E & Hat' & Hfit').
  destruct (IH n' o' st' Hat' Hhs Hfit') as (n2 & o2 & st2 & E2 & H2).
  exists n2, o2, st2. cbn [place_hunks]. rewrite E. cbn [mbind outcome_bind]. by rewrite E2.
Qed.
End fits.

(** All lines of the file, numbered. *)
Lemma file_entries_all lines :
  file_entries lines 1 (Z.of_nat (length lines) + 1) = numbered 1 lines.
Proof.
  assert (∀ suf pre, file_entries (pre ++ suf) (Z.of_nat (length pre) + 1)
    (Z.of_nat (length (pre ++ suf)) + 1) = numbered (Z.of_nat (length pre) + 1) suf) as H;
    [|apply (H lines [])].
  induction suf as [|t suf IH]; intros pre.
  { unfold file_entries. by rewrite app_nil_r, Z.sub_diag. }
  rewrite numbered_cons. specialize (IH (pre ++ [t])). rewrite <- app_assoc in IH. cbn [app] in IH.
  rewrite <- (file_entries_app _ _ (Z.of_nat (length (pre ++ [t])) + 1)) by
    (rewrite !length_app; cbn; lia).
  rewrite IH, length_app. cbn [length].
  replace (Z.of_nat (length pre + 1) + 1) with (Z.of_nat (length pre) + 1 + 1) by lia.
  rewrite (file_entries_one _ _ t); [done|].
  replace (Z.to_nat (Z.of_nat (length pre) + 1 - 1)) with (length pre) by lia.
  by rewrite list_lookup_middle.
Qed.

(** C33: For a patch that fits the supplied file the full-file build succeeds and
    its new side is that file: every line once, in order, under its number; and
    the old side is numbered from 1 on without a gap. *)
Theorem full_file_is_the_file diff new_text rows :
  parse diff = Ret rows →
  Z.of_nat (length (lines_of new_text)) < 2 ^ 62 →
  patch_fits (Z.of_nat (length (lines_of new_text))) 1 1 (split_hunks rows).2 = true →
  ∃ out folds, parse_full_file diff new_text = Ret (out, folds) ∧
    news out = numbered 1 (lines_of new_text) ∧
    line_nos (olds out) = seqZ 1 (Z.of_nat (length (olds out))).
Proof.
  intros Hp Hlen Hfit. unfold parse_full_file. rewrite Hp. cbn [mbind outcome_bind].
  destruct (split_hunks rows) as [leading hunks] eqn:Hs. cbn [snd] in Hfit.
  destruct (parse_hunks _ _ _ _ Hp Hs) as [Hl Hnum]. set (lines := lines_of new_text) in *.
  assert (walk_at lines 1 1 (mkFullState leading [] 1 0)) as H0.
  { assert (news leading = [] ∧ olds leading = []) as [E1 E2].
    { clear -Hl. induction Hl as [|[] leading Hrow Hl IH]; [done|done|]. apply IH. }
    unfold walk_at. cbn [fs_next_line fs_delta fs_out]. rewrite E1, E2. split_and!; try done; lia. }
  destruct (place_hunks_at lines Hlen hunks 1 1 _ H0 Hnum Hfit) as (n & o & st & -> & Hat & Hb).
  cbn [mbind outcome_bind].
  destruct (fold_lines_at lines Hlen n o (Z.of_nat (length lines) + 1) st) as (st' & -> & Hat');
    [done|destruct Hat as (_ & _ & _ & _ & Hn & _); lia|done|].
  cbn. eexists _, _. split; [done|]. destruct Hat' as (_ & _ & Hn & Ho & _ & Hge).
  rewrite Hn. split; [apply file_entries_all|]. rewrite Ho. f_equal.
  apply (f_equal length) in Ho. unfold line_nos in Ho. rewrite length_fmap, length_seqZ in Ho. lia.
Qed.

(** ** Examples *)

Local Open Scope string_scope.
Local Open Scope list_scope.
Local Open Scope Z_scope.

Definition sample_file : list Z := text_of ["a"; "B"; "d"; "e"].

Definition sample_full : list DiffRow :=
  [DR_Meta (bytes_of "--- a"); DR_Meta (bytes_of "+++ b");
   DR_Pair DK_Context (Some (mkDiffEntry (bytes_of "a") 1)) (Some (mkDiffEntry (bytes_of "a") 1));
   DR_Meta (bytes_of "@@ -2,3 +2,2 @@ fn x() -> u8");
   DR_Pair DK_Removed (Some (mkDiffEntry (bytes_of "b") 2)) (Some (mkDiffEntry (bytes_of "B") 2));
   DR_Pair DK_Removed (Some (mkDiffEntry (bytes_of "c") 3)) None;
   DR_Meta (bytes_of "\ No newline");
   DR_Pair DK_Context (Some (mkDiffEntry (bytes_of "d") 4)) (Some (mkDiffEntry (bytes_of "d") 3));
   DR_Pair DK_Context (Some (mkDiffEntry (bytes_of "e") 5)) (Some (mkDiffEntry (bytes_of "e") 4))].

Lemma folds_are_the_only_additions_witness :
  parse_full_file sample_diff sample_file = Ret (sample_full, [(2, 2); (8, 8)]%nat) ∧
  ∃ rows, parse sample_diff = Ret rows ∧
    outside 0 [(2, 2); (8, 8)]%nat sample_full = supplied_text (lines_of sample_file) <$> rows ∧
    ∀ i row, sample_full !! i = Some row → in_fold [(2, 2); (8, 8)]%nat i = true →
      file_row (lines_of sample_file) row.
Proof.
  split; [vm_compute; reflexivity|].
  apply (folds_are_the_only_additions sample_diff sample_file). vm_compute. reflexivity.
Defined.

Lemma full_file_is_the_file_witness :
  ∃ out folds, parse_full_file sample_diff sample_file = Ret (out, folds) ∧
    news out = numbered 1 (lines_of sample_file) ∧
    line_nos (olds out) = seqZ 1 (Z.of_nat (length (olds out))).
Proof.
  apply (full_file_is_the_file sample_diff sample_file sample_rows); vm_compute; reflexivity.
Defined.
