(* ===== verification/DiffView.v ===== *)
(** * The state of the diff widget

    [DiffViewState] of [ferrowl-ui/src/state/diff_view.rs]: the rows of a diff,
    the active row, the selection, the scroll offsets and the keys that move
    them. Row indices and offsets are bounded by the lengths of lists the
    program holds and by the size of the terminal; they are natural numbers.
    What only the drawing code reads (labels, language, marked ranges) and the
    copy to the terminal's clipboard are left out. *)

From stdpp Require Import base list gmap numbers strings.
From S2P Require Import Prelude Bytes IntText Text WordWrap Keys DiffParse.

Local Open Scope nat_scope.

(** ** Data *)

Inductive DiffLayout := DL_Split | DL_Unified.
Inductive Side := S_Old | S_New.
Inductive DiffMode := DM_Normal | DM_Visual.
Inductive DiffDisplay := DD_HunkOnly | DD_FullFile.

#[export] Instance DiffDisplay_eq_dec : EqDecision DiffDisplay.
Proof. solve_decision. Defined.
#[export] Instance DiffMode_eq_dec : EqDecision DiffMode.
Proof. solve_decision. Defined.

(** [lines] is an inclusive range. *)
Record Annotation := mkAnnotation { an_side : Side; an_lines : Z * Z; an_text : list Z }.

Record DiffRowInfo := mkDiffRowInfo {
  ri_kind : DiffKind;
  ri_old_line : option Z;
  ri_new_line : option Z;
}.

Inductive RowPart :=
| RP_Meta (sub_row : nat)
| RP_Pair (old_sub new_sub : option nat)
| RP_Annotation (index sub_row : nat).

Record DisplayRow := mkDisplayRow { dr_logical : nat; dr_part : RowPart }.

Record DiffViewState := mkDiffViewState {
  dv_rows : list DiffRow;
  dv_active_row : nat;
  dv_anchor : option nat;
  dv_mode : DiffMode;
  dv_pending : option Z;
  dv_pending_count : option Z;
  dv_register : option (list Z);
  dv_scroll_offset : nat;
  dv_h_scroll : nat;
  dv_layout : DiffLayout;
  dv_focused_side : Side;
  dv_visible_height : nat;
  dv_content_width : nat;
  dv_content_width_old : nat;
  dv_content_width_new : nat;
  dv_content_width_meta : nat;
  dv_wrap : bool;
  dv_display : DiffDisplay;
  dv_folds : list (nat * nat);
  dv_has_full_file : bool;
  dv_annotations : list Annotation;
  dv_annotations_shown : bool;
  dv_annotation_heights : list nat;
  dv_focused : bool;
}.

(** Assigning a field. *)

Definition with_rows (v : list DiffRow) (s : DiffViewState) : DiffViewState :=
  mkDiffViewState v (dv_active_row s) (dv_anchor s) (dv_mode s) (dv_pending s)
    (dv_pending_count s) (dv_register s) (dv_scroll_offset s) (dv_h_scroll s) (dv_layout s)
    (dv_focused_side s) (dv_visible_height s) (dv_content_width s) (dv_content_width_old s)
    (dv_content_width_new s) (dv_content_width_meta s) (dv_wrap s) (dv_display s) (dv_folds s)
    (dv_has_full_file s) (dv_annotations s) (dv_annotations_shown s) (dv_annotation_heights s)
    (dv_focused s).

Definition with_active_row (v : nat) (s : DiffViewState) : DiffViewState :=
  mkDiffViewState (dv_rows s) v (dv_anchor s) (dv_mode s) (dv_pending s) (dv_pending_count s)
    (dv_register s) (dv_scroll_offset s) (dv_h_scroll s) (dv_layout s) (dv_focused_side s)
    (dv_visible_height s) (dv_content_width s) (dv_content_width_old s) (dv_content_width_new s)
    (dv_content_width_meta s) (dv_wrap s) (dv_display s) (dv_folds s) (dv_has_full_file s)
    (dv_annotations s) (dv_annotations_shown s) (dv_annotation_heights s) (dv_focused s).

Definition with_anchor (v : option nat) (s : DiffViewState) : DiffViewState :=
  mkDiffViewState (dv_rows s) (dv_active_row s) v (dv_mode s) (dv_pending s) (dv_pending_count s)
    (dv_register s) (dv_scroll_offset s) (dv_h_scroll s) (dv_layout s) (dv_focused_side s)
    (dv_visible_height s) (dv_content_width s) (dv_content_width_old s) (dv_content_width_new s)
    (dv_content_width_meta s) (dv_wrap s) (dv_display s) (dv_folds s) (dv_has_full_file s)
    (dv_annotations s) (dv_annotations_shown s) (dv_annotation_heights s) (dv_focused s).

Definition with_mode (v : DiffMode) (s : DiffViewState) : DiffViewState :=
  mkDiffViewState (dv_rows s) (dv_active_row s) (dv_anchor s) v (dv_pending s)
    (dv_pending_count s) (dv_register s) (dv_scroll_offset s) (dv_h_scroll s) (dv_layout s)
    (dv_focused_side s) (dv_visible_height s) (dv_content_width s) (dv_content_width_old s)
    (dv_content_width_new s) (dv_content_width_meta s) (dv_wrap s) (dv_display s) (dv_folds s)
    (dv_has_full_file s) (dv_annotations s) (dv_annotations_shown s) (dv_annotation_heights s)
    (dv_focused s).

Definition with_pending (v : option Z) (s : DiffViewState) : DiffViewState :=
  mkDiffViewState (dv_rows s) (dv_active_row s) (dv_anchor s) (dv_mode s) v (dv_pending_count s)
    (dv_register s) (dv_scroll_offset s) (dv_h_scroll s) (dv_layout s) (dv_focused_side s)
    (dv_visible_height s) (dv_content_width s) (dv_content_width_old s) (dv_content_width_new s)
    (dv_content_width_meta s) (dv_wrap s) (dv_display s) (dv_folds s) (dv_has_full_file s)
    (dv_annotations s) (dv_annotations_shown s) (dv_annotation_heights s) (dv_focused s).

Definition with_pending_count (v : option Z) (s : DiffViewState) : DiffViewState :=
  mkDiffViewState (dv_rows s) (dv_active_row s) (dv_anchor s) (dv_mode s) (dv_pending s) v
    (dv_register s) (dv_scroll_offset s) (dv_h_scroll s) (dv_layout s) (dv_focused_side s)
    (dv_visible_height s) (dv_content_width s) (dv_content_width_old s) (dv_content_width_new s)
    (dv_content_width_meta s) (dv_wrap s) (dv_display s) (dv_folds s) (dv_has_full_file s)
    (dv_annotations s) (dv_annotations_shown s) (dv_annotation_heights s) (dv_focused s).

Definition with_register (v : option (list Z)) (s : DiffViewState) : DiffViewState :=
  mkDiffViewState (dv_rows s) (dv_active_row s) (dv_anchor s) (dv_mode s) (dv_pending s)
    (dv_pending_count s) v (dv_scroll_offset s) (dv_h_scroll s) (dv_layout s) (dv_focused_side s)
    (dv_visible_height s) (dv_content_width s) (dv_content_width_old s) (dv_content_width_new s)
    (dv_content_width_meta s) (dv_wrap s) (dv_display s) (dv_folds s) (dv_has_full_file s)
    (dv_annotations s) (dv_annotations_shown s) (dv_annotation_heights s) (dv_focused s).

Definition with_scroll_offset (v : nat) (s : DiffViewState) : DiffViewState :=
  mkDiffViewState (dv_rows s) (dv_active_row s) (dv_anchor s) (dv_mode s) (dv_pending s)
    (dv_pending_count s) (dv_register s) v (dv_h_scroll s) (dv_layout s) (dv_focused_side s)
    (dv_visible_height s) (dv_content_width s) (dv_content_width_old s) (dv_content_width_new s)
    (dv_content_width_meta s) (dv_wrap s) (dv_display s) (dv_folds s) (dv_has_full_file s)
    (dv_annotations s) (dv_annotations_shown s) (dv_annotation_heights s) (dv_focused s).

Definition with_h_scroll (v : nat) (s : DiffViewState) : DiffViewState :=
  mkDiffViewState (dv_rows s) (dv_active_row s) (dv_anchor s) (dv_mode s) (dv_pending s)
    (dv_pending_count s) (dv_register s) (dv_scroll_offset s) v (dv_layout s) (dv_focused_side s)
    (dv_visible_height s) (dv_content_width s) (dv_content_width_old s) (dv_content_width_new s)
    (dv_content_width_meta s) (dv_wrap s) (dv_display s) (dv_folds s) (dv_has_full_file s)
    (dv_annotations s) (dv_annotations_shown s) (dv_annotation_heights s) (dv_focused s).

Definition with_layout (v : DiffLayout) (s : DiffViewState) : DiffViewState :=
  mkDiffViewState (dv_rows s) (dv_active_row s) (dv_anchor s) (dv_mode s) (dv_pending s)
    (dv_pending_count s) (dv_register s) (dv_scroll_offset s) (dv_h_scroll s) v
    (dv_focused_side s) (dv_visible_height s) (dv_content_width s) (dv_content_width_old s)
    (dv_content_width_new s) (dv_content_width_meta s) (dv_wrap s) (dv_display s) (dv_folds s)
    (dv_has_full_file s) (dv_annotations s) (dv_annotations_shown s) (dv_annotation_heights s)
    (dv_focused s).

Definition with_focused_side (v : Side) (s : DiffViewState) : DiffViewState :=
  mkDiffViewState (dv_rows s) (dv_active_row s) (dv_anchor s) (dv_mode s) (dv_pending s)
    (dv_pending_count s) (dv_register s) (dv_scroll_offset s) (dv_h_scroll s) (dv_layout s) v
    (dv_visible_height s) (dv_content_width s) (dv_content_width_old s) (dv_content_width_new s)
    (dv_content_width_meta s) (dv_wrap s) (dv_display s) (dv_folds s) (dv_has_full_file s)
    (dv_annotations s) (dv_annotations_shown s) (dv_annotation_heights s) (dv_focused s).

Definition with_visible_height (v : nat) (s : DiffViewState) : DiffViewState :=
  mkDiffViewState (dv_rows s) (dv_active_row s) (dv_anchor s) (dv_mode s) (dv_pending s)
    (dv_pending_count s) (dv_register s) (dv_scroll_offset s) (dv_h_scroll s) (dv_layout s)
    (dv_focused_side s) v (dv_content_width s) (dv_content_width_old s) (dv_content_width_new s)
    (dv_content_width_meta s) (dv_wrap s) (dv_display s) (dv_folds s) (dv_has_full_file s)
    (dv_annotations s) (dv_annotations_shown s) (dv_annotation_heights s) (dv_focused s).

Definition with_content_width (v : nat) (s : DiffViewState) : DiffViewState :=
  mkDiffViewState (dv_rows s) (dv_active_row s) (dv_anchor s) (dv_mode s) (dv_pending s)
    (dv_pending_count s) (dv_register s) (dv_scroll_offset s) (dv_h_scroll s) (dv_layout s)
    (dv_focused_side s) (dv_visible_height s) v (dv_content_width_old s) (dv_content_width_new s)
    (dv_content_width_meta s) (dv_wrap s) (dv_display s) (dv_folds s) (dv_has_full_file s)
    (dv_annotations s) (dv_annotations_shown s) (dv_annotation_heights s) (dv_focused s).

Definition with_content_width_old (v : nat) (s : DiffViewState) : DiffViewState :=
  mkDiffViewState (dv_rows s) (dv_active_row s) (dv_anchor s) (dv_mode s) (dv_pending s)
    (dv_pending_count s) (dv_register s) (dv_scroll_offset s) (dv_h_scroll s) (dv_layout s)
    (dv_focused_side s) (dv_visible_height s) (dv_content_width s) v (dv_content_width_new s)
    (dv_content_width_meta s) (dv_wrap s) (dv_display s) (dv_folds s) (dv_has_full_file s)
    (dv_annotations s) (dv_annotations_shown s) (dv_annotation_heights s) (dv_focused s).

Definition with_content_width_new (v : nat) (s : DiffViewState) : DiffViewState :=
  mkDiffViewState (dv_rows s) (dv_active_row s) (dv_anchor s) (dv_mode s) (dv_pending s)
    (dv_pending_count s) (dv_register s) (dv_scroll_offset s) (dv_h_scroll s) (dv_layout s)
    (dv_focused_side s) (dv_visible_height s) (dv_content_width s) (dv_content_width_old s) v
    (dv_content_width_meta s) (dv_wrap s) (dv_display s) (dv_folds s) (dv_has_full_file s)
    (dv_annotations s) (dv_annotations_shown s) (dv_annotation_heights s) (dv_focused s).

Definition with_content_width_meta (v : nat) (s : DiffViewState) : DiffViewState :=
  mkDiffViewState (dv_rows s) (dv_active_row s) (dv_anchor s) (dv_mode s) (dv_pending s)
    (dv_pending_count s) (dv_register s) (dv_scroll_offset s) (dv_h_scroll s) (dv_layout s)
    (dv_focused_side s) (dv_visible_height s) (dv_content_width s) (dv_content_width_old s)
    (dv_content_width_new s) v (dv_wrap s) (dv_display s) (dv_folds s) (dv_has_full_file s)
    (dv_annotations s) (dv_annotations_shown s) (dv_annotation_heights s) (dv_focused s).

Definition with_display (v : DiffDisplay) (s : DiffViewState) : DiffViewState :=
  mkDiffViewState (dv_rows s) (dv_active_row s) (dv_anchor s) (dv_mode s) (dv_pending s)
    (dv_pending_count s) (dv_register s) (dv_scroll_offset s) (dv_h_scroll s) (dv_layout s)
    (dv_focused_side s) (dv_visible_height s) (dv_content_width s) (dv_content_width_old s)
    (dv_content_width_new s) (dv_content_width_meta s) (dv_wrap s) v (dv_folds s)
    (dv_has_full_file s) (dv_annotations s) (dv_annotations_shown s) (dv_annotation_heights s)
    (dv_focused s).

Definition with_folds (v : list (nat * nat)) (s : DiffViewState) : DiffViewState :=
  mkDiffViewState (dv_rows s) (dv_active_row s) (dv_anchor s) (dv_mode s) (dv_pending s)
    (dv_pending_count s) (dv_register s) (dv_scroll_offset s) (dv_h_scroll s) (dv_layout s)
    (dv_focused_side s) (dv_visible_height s) (dv_content_width s) (dv_content_width_old s)
    (dv_content_width_new s) (dv_content_width_meta s) (dv_wrap s) (dv_display s) v
    (dv_has_full_file s) (dv_annotations s) (dv_annotations_shown s) (dv_annotation_heights s)
    (dv_focused s).

Definition with_has_full_file (v : bool) (s : DiffViewState) : DiffViewState :=
  mkDiffViewState (dv_rows s) (dv_active_row s) (dv_anchor s) (dv_mode s) (dv_pending s)
    (dv_pending_count s) (dv_register s) (dv_scroll_offset s) (dv_h_scroll s) (dv_layout s)
    (dv_focused_side s) (dv_visible_height s) (dv_content_width s) (dv_content_width_old s)
    (dv_content_width_new s) (dv_content_width_meta s) (dv_wrap s) (dv_display s) (dv_folds s) v
    (dv_annotations s) (dv_annotations_shown s) (dv_annotation_heights s) (dv_focused s).

Definition with_annotations (v : list Annotation) (s : DiffViewState) : DiffViewState :=
  mkDiffViewState (dv_rows s) (dv_active_row s) (dv_anchor s) (dv_mode s) (dv_pending s)
    (dv_pending_count s) (dv_register s) (dv_scroll_offset s) (dv_h_scroll s) (dv_layout s)
    (dv_focused_side s) (dv_visible_height s) (dv_content_width s) (dv_content_width_old s)
    (dv_content_width_new s) (dv_content_width_meta s) (dv_wrap s) (dv_display s) (dv_folds s)
    (dv_has_full_file s) v (dv_annotations_shown s) (dv_annotation_heights s) (dv_focused s).

Definition with_annotations_shown (v : bool) (s : DiffViewState) : DiffViewState :=
  mkDiffViewState (dv_rows s) (dv_active_row s) (dv_anchor s) (dv_mode s) (dv_pending s)
    (dv_pending_count s) (dv_register s) (dv_scroll_offset s) (dv_h_scroll s) (dv_layout s)
    (dv_focused_side s) (dv_visible_height s) (dv_content_width s) (dv_content_width_old s)
    (dv_content_width_new s) (dv_content_width_meta s) (dv_wrap s) (dv_display s) (dv_folds s)
    (dv_has_full_file s) (dv_annotations s) v (dv_annotation_heights s) (dv_focused s).

Definition with_annotation_heights (v : list nat) (s : DiffViewState) : DiffViewState :=
  mkDiffViewState (dv_rows s) (dv_active_row s) (dv_anchor s) (dv_mode s) (dv_pending s)
    (dv_pending_count s) (dv_register s) (dv_scroll_offset s) (dv_h_scroll s) (dv_layout s)
    (dv_focused_side s) (dv_visible_height s) (dv_content_width s) (dv_content_width_old s)
    (dv_content_width_new s) (dv_content_width_meta s) (dv_wrap s) (dv_display s) (dv_folds s)
    (dv_has_full_file s) (dv_annotations s) (dv_annotations_shown s) v (dv_focused s).

Definition with_focused (v : bool) (s : DiffViewState) : DiffViewState :=
  mkDiffViewState (dv_rows s) (dv_active_row s) (dv_anchor s) (dv_mode s) (dv_pending s)
    (dv_pending_count s) (dv_register s) (dv_scroll_offset s) (dv_h_scroll s) (dv_layout s)
    (dv_focused_side s) (dv_visible_height s) (dv_content_width s) (dv_content_width_old s)
    (dv_content_width_new s) (dv_content_width_meta s) (dv_wrap s) (dv_display s) (dv_folds s)
    (dv_has_full_file s) (dv_annotations s) (dv_annotations_shown s) (dv_annotation_heights s) v.

(** ** Rows, folds and the selection *)

(** [is_folded] *)
Definition is_folded (s : DiffViewState) (index : nat) : bool :=
  bool_decide (dv_display s = DD_HunkOnly) &&
  existsb (λ f, (f.1 <=? index) && (index <=? f.2)) (dv_folds s).

(** The first index of the list that no fold covers. *)
Definition first_unfolded (s : DiffViewState) (indices : list nat) : option nat :=
  List.find (λ i, negb (is_folded s i)) indices.

Definition nearest_unfolded (s : DiffViewState) (from : nat) : nat :=
  let len := length (dv_rows s) in
  if (len =? 0) || negb (is_folded s from) then Nat.min from (len - 1)
  else
    match first_unfolded s (seq from (len - from)) with
    | Some i => i
    | None =>
        match first_unfolded s (reverse (seq 0 from)) with
        | Some i => i
        | None => from
        end
    end.

(** [row] *)
Definition row_info (s : DiffViewState) (index : nat) : option DiffRowInfo :=
  (λ row, match row with
          | DR_Meta _ => mkDiffRowInfo DK_Meta None None
          | DR_Pair kind old new =>
              mkDiffRowInfo kind (de_line_no <$> old) (de_line_no <$> new)
          end) <$> dv_rows s !! index.

Definition selected_rows (s : DiffViewState) : option (nat * nat) :=
  if length (dv_rows s) =? 0 then None
  else
    match dv_mode s with
    | DM_Normal => Some (dv_active_row s, dv_active_row s)
    | DM_Visual =>
        let anchor := default (dv_active_row s) (dv_anchor s) in
        Some (if anchor <=? dv_active_row s then (anchor, dv_active_row s)
              else (dv_active_row s, anchor))
    end.

(** The fields that both constructors reset. *)
Definition reset_navigation (s : DiffViewState) : DiffViewState :=
  with_register None (with_pending_count None (with_pending None (with_h_scroll 0
    (with_scroll_offset 0 (with_mode DM_Normal (with_anchor None (with_active_row 0 s))))))).

Definition set_diff (text : list Z) (s : DiffViewState) : Outcome DiffViewState :=
  rows ← parse text;
  Ret (with_has_full_file false (with_folds [] (with_display DD_HunkOnly
         (reset_navigation (with_rows rows s))))).

Definition set_diff_and_file (diff new_text : list Z) (s : DiffViewState)
  : Outcome DiffViewState :=
  '(rows, folds) ← parse_full_file diff new_text;
  Ret (reset_navigation (with_has_full_file true (with_folds folds (with_rows rows s)))).

(** ** What the drawing code records *)

Definition set_content_widths (old new : nat) (s : DiffViewState) : DiffViewState :=
  let old := Nat.max old 1 in
  let new := Nat.max new 1 in
  with_content_width (Nat.max old new) (with_content_width_new new (with_content_width_old old s)).

Definition set_meta_width (width : nat) (s : DiffViewState) : DiffViewState :=
  with_content_width_meta (Nat.max width 1) s.

(** ** Display rows *)

Definition clamp_active_row (s : DiffViewState) : DiffViewState :=
  with_active_row (if length (dv_rows s) =? 0 then 0
                   else Nat.min (dv_active_row s) (length (dv_rows s) - 1)) s.

Definition side_sub_rows (s : DiffViewState) (text : list Z) (width : nat) : nat :=
  if negb (dv_wrap s) then 1
  else
    let width := Nat.max width 1 in
    Nat.max (length (word_wrap tt ((λ c, (c, tt)) <$> chars text) width 0)) 1.

Definition entry_text (e : option DiffEntry) : list Z :=
  match e with Some e => de_text e | None => [] end.

Definition row_display_parts (s : DiffViewState) (row : DiffRow) : list RowPart :=
  match row with
  | DR_Meta text => RP_Meta <$> seq 0 (side_sub_rows s text (dv_content_width_meta s))
  | DR_Pair _ old new =>
      match dv_layout s with
      | DL_Split =>
          let o := side_sub_rows s (entry_text old) (dv_content_width_old s) in
          let n := side_sub_rows s (entry_text new) (dv_content_width_new s) in
          (λ i, RP_Pair (if i <? o then Some i else None) (if i <? n then Some i else None))
            <$> seq 0 (Nat.max o n)
      | DL_Unified =>
          let differ := match old, new with
                        | Some o, Some n => negb (bool_decide (de_text o = de_text n))
                        | _, _ => false
                        end in
          if differ then
            let o := side_sub_rows s (entry_text old) (dv_content_width s) in
            let n := side_sub_rows s (entry_text new) (dv_content_width s) in
            ((λ i, RP_Pair (Some i) None) <$> seq 0 o) ++ ((λ i, RP_Pair None (Some i)) <$> seq 0 n)
          else
            let text := match old with Some _ => entry_text old | None => entry_text new end in
            let n := side_sub_rows s text (dv_content_width s) in
            (λ i, match old with
                  | Some _ => RP_Pair (Some i) None
                  | None => RP_Pair None (Some i)
                  end) <$> seq 0 n
      end
  end.

(** The entry of a row on a side. *)
Definition side_entry (side : Side) (row : DiffRow) : option DiffEntry :=
  match row with
  | DR_Meta _ => None
  | DR_Pair _ old new => match side with S_Old => old | S_New => new end
  end.

(** The last row that shows a line of the annotation's range. *)
Definition annotation_anchor_row (s : DiffViewState) (ann : Annotation) : option nat :=
  head (omap (λ p : nat * DiffRow,
    match side_entry (an_side ann) p.2 with
    | Some e => if ((an_lines ann).1 <=? de_line_no e)%Z && (de_line_no e <=? (an_lines ann).2)%Z
                then Some p.1 else None
    | None => None
    end) (reverse (imap (λ i row, (i, row)) (dv_rows s)))).

Definition annotation_anchors_by_row (s : DiffViewState) : gmap nat (list nat) :=
  if dv_annotations_shown s then
    foldl (λ by_row (p : nat * Annotation),
      match annotation_anchor_row s p.2 with
      | Some row => <[row := default [] (by_row !! row) ++ [p.1]]> by_row
      | None => by_row
      end) ∅ (imap (λ i ann, (i, ann)) (dv_annotations s))
  else ∅.

(** The rows of an annotation's block, its two border rows included. *)
Definition annotation_rows (s : DiffViewState) (index : nat) : nat :=
  let measured := default 0 (dv_annotation_heights s !! index) in
  if measured =? 0 then 0 else measured + 2.

(** What one logical row contributes. *)
Definition row_display (s : DiffViewState) (anchors : gmap nat (list nat)) (logical : nat)
    (row : DiffRow) : list DisplayRow :=
  if is_folded s logical then []
  else
    (mkDisplayRow logical <$> row_display_parts s row) ++
    (default [] (anchors !! logical) ≫= λ index,
       (λ sub_row, mkDisplayRow logical (RP_Annotation index sub_row))
         <$> seq 0 (annotation_rows s index)).

Definition display_rows (s : DiffViewState) : list DisplayRow :=
  let anchors := annotation_anchors_by_row s in
  concat (imap (row_display s anchors) (dv_rows s)).

Definition is_annotation (p : RowPart) : bool :=
  match p with RP_Annotation _ _ => true | _ => false end.

(** The indices of the active row's display rows: first and last. *)
Definition span_step (active : nat) (acc : option nat * nat) (p : nat * DisplayRow)
  : option nat * nat :=
  if (dr_logical p.2 =? active) && negb (is_annotation (dr_part p.2))
  then (Some (default p.1 acc.1), p.1) else acc.

Definition active_row_display_span (s : DiffViewState) : nat * nat :=
  let '(start, last) :=
    foldl (span_step (dv_active_row s)) (None, 0) (imap (λ i d, (i, d)) (display_rows s)) in
  (default 0 start, last).

(** ** Moving *)

(** [while end >= scroll_offset + visible { scroll_offset += 1 }] *)
Fixpoint raise_scroll (fuel last visible scroll : nat) : nat :=
  match fuel with
  | O => scroll
  | S fuel' =>
      if scroll + visible <=? last then raise_scroll fuel' last visible (S scroll) else scroll
  end.

Definition ensure_visible (s : DiffViewState) : DiffViewState :=
  let '(start, last) := active_row_display_span s in
  if start <? dv_scroll_offset s then with_scroll_offset start s
  else
    let visible := Nat.max (dv_visible_height s) 1 in
    if visible <? last - start + 1 then with_scroll_offset start s
    else with_scroll_offset (raise_scroll (S last) last visible (dv_scroll_offset s)) s.

(** One row further, not past the ends. *)
Definition next_row (s : DiffViewState) (down : bool) (row : nat) : nat :=
  if down then Nat.min (row + 1) (length (dv_rows s) - 1) else row - 1.

(** The loop that walks out of a fold. *)
Fixpoint skip_folded (fuel : nat) (s : DiffViewState) (down : bool) (next : nat) : nat :=
  match fuel with
  | O => next
  | S fuel' =>
      if is_folded s next then
        let stepped := next_row s down next in
        if stepped =? next then next else skip_folded fuel' s down stepped
      else next
  end.

Definition step_display_or_logical (down : bool) (s : DiffViewState) : DiffViewState :=
  if length (dv_rows s) =? 0 then s
  else
    let '(start, last) := active_row_display_span s in
    let visible := Nat.max (dv_visible_height s) 1 in
    if down && (dv_scroll_offset s + visible <=? last) then
      with_scroll_offset (dv_scroll_offset s + 1) s
    else if negb down && (start <? dv_scroll_offset s) then
      with_scroll_offset (dv_scroll_offset s - 1) s
    else
      let next := skip_folded (length (dv_rows s)) s down (next_row s down (dv_active_row s)) in
      let next := if is_folded s next then nearest_unfolded s next else next in
      ensure_visible (clamp_active_row (with_active_row next s)).

Definition move_active_row_to (row : nat) (s : DiffViewState) : DiffViewState :=
  let s := clamp_active_row (with_active_row row s) in
  let s := if is_folded s (dv_active_row s)
           then with_active_row (nearest_unfolded s (dv_active_row s)) s else s in
  ensure_visible s.

Definition page_move (down : bool) (rows : nat) (s : DiffViewState) : DiffViewState :=
  let display := display_rows s in
  match display with
  | [] => s
  | _ =>
      let '(start, _) := active_row_display_span s in
      let rows := Z.of_nat (Nat.max rows 1) in
      let target := Z.to_nat (Z.max 0 (Z.min
        (Z.of_nat start + (if down then rows else - rows)) (Z.of_nat (length display) - 1))) in
      match display !! target with
      | Some d =>
          let logical :=
            if dr_logical d =? dv_active_row s
            then if down then Nat.min (dr_logical d + 1) (length (dv_rows s) - 1)
                 else dr_logical d - 1
            else dr_logical d in
          move_active_row_to logical s
      | None => s
      end
  end.

Definition row_width (row : DiffRow) : nat :=
  match row with
  | DR_Meta text => char_count text
  | DR_Pair _ old new => Nat.max (char_count (entry_text old)) (char_count (entry_text new))
  end.

Definition max_h_scroll (s : DiffViewState) : nat :=
  foldr Nat.max 0 (row_width <$> dv_rows s) - 1.

Definition active_row_text_len (side : Side) (s : DiffViewState) : nat :=
  match dv_rows s !! dv_active_row s with
  | Some row => char_count (entry_text (side_entry side row))
  | None => 0
  end.

Definition header_row (row : DiffRow) : bool :=
  match row with DR_Meta text => is_header text | DR_Pair _ _ _ => false end.

Definition hunk_header_rows (s : DiffViewState) : list nat :=
  omap (λ p : nat * DiffRow, if header_row p.2 then Some p.1 else None)
    (imap (λ i row, (i, row)) (dv_rows s)).

Definition jump_to_next_hunk (s : DiffViewState) : DiffViewState :=
  let headers := hunk_header_rows s in
  match List.find (λ h, dv_active_row s <? h + 1) headers with
  | Some h => move_active_row_to (h + 1) s
  | None => match last headers with Some h => move_active_row_to (h + 1) s | None => s end
  end.

Definition jump_to_prev_hunk (s : DiffViewState) : DiffViewState :=
  let headers := hunk_header_rows s in
  match List.find (λ h, h + 1 <? dv_active_row s) (reverse headers) with
  | Some h => move_active_row_to (h + 1) s
  | None => match head headers with Some h => move_active_row_to (h + 1) s | None => s end
  end.

Definition yank (s : DiffViewState) : DiffViewState :=
  match selected_rows s with
  | None => s
  | Some (lo, hi) =>
      let lines := omap (λ i, row ← dv_rows s !! i; de_text <$> side_entry (dv_focused_side s) row)
                     (seq lo (S hi - lo)) in
      with_register (Some (join 10 lines)) s
  end.

(** ** Keys *)

Definition repeat_step (n : nat) (down : bool) (s : DiffViewState) : DiffViewState :=
  Nat.iter n (step_display_or_logical down) s.

(** [j] and [k]: the count is taken. *)
Definition count_step (down : bool) (s : DiffViewState) : DiffViewState :=
  let count := Z.max (default 1%Z (dv_pending_count s)) 1 in
  repeat_step (Z.to_nat count) down (with_pending_count None s).

(** A digit of a count. *)
Definition push_digit (digit : Z) (s : DiffViewState) : Outcome DiffViewState :=
  let count := (default 0 (dv_pending_count s) * 10 + digit)%Z in
  if (count <=? usize_max)%Z then Ret (with_pending_count (Some count) s) else Panic.

Definition scroll_left (s : DiffViewState) : DiffViewState :=
  if dv_wrap s then s else with_h_scroll (dv_h_scroll s - 1) s.

Definition scroll_right (s : DiffViewState) : DiffViewState :=
  if dv_wrap s then s else with_h_scroll (Nat.min (dv_h_scroll s + 1) (max_h_scroll s)) s.

Definition scroll_home (s : DiffViewState) : DiffViewState :=
  if dv_wrap s then s else with_h_scroll 0 s.

Definition scroll_end (s : DiffViewState) : DiffViewState :=
  if dv_wrap s then s
  else
    let last := active_row_text_len (dv_focused_side s) s - 1 in
    with_h_scroll (last + 1 - dv_content_width s) s.

Definition enter_visual (s : DiffViewState) : DiffViewState :=
  with_anchor (Some (dv_active_row s)) (with_mode DM_Visual s).

Definition leave_visual (s : DiffViewState) : DiffViewState :=
  with_anchor None (with_mode DM_Normal s).

Definition toggle_layout (s : DiffViewState) : DiffViewState :=
  with_layout (match dv_layout s with DL_Split => DL_Unified | DL_Unified => DL_Split end) s.

Definition toggle_annotations (s : DiffViewState) : DiffViewState :=
  ensure_visible (with_annotations_shown (negb (dv_annotations_shown s)) s).

Definition toggle_display (s : DiffViewState) : DiffViewState :=
  if dv_has_full_file s then
    let s := with_display (match dv_display s with
                           | DD_HunkOnly => DD_FullFile
                           | DD_FullFile => DD_HunkOnly
                           end) s in
    let s := match dv_display s with
             | DD_HunkOnly =>
                 let s := with_active_row (nearest_unfolded s (dv_active_row s)) s in
                 match dv_anchor s with
                 | Some anchor => with_anchor (Some (nearest_unfolded s anchor)) s
                 | None => s
                 end
             | DD_FullFile => s
             end in
    ensure_visible (with_scroll_offset 0 s)
  else s.

(** The [y] of a chord, or of a selection. *)
Definition key_y (s : DiffViewState) : DiffViewState :=
  match dv_mode s with
  | DM_Visual => leave_visual (yank s)
  | DM_Normal =>
      if decide (dv_pending s = Some 121%Z) then yank (with_pending None s)
      else with_pending (Some 121%Z) s
  end.

Definition key_g (s : DiffViewState) : DiffViewState :=
  if decide (dv_pending s = Some 103%Z)
  then move_active_row_to 0 (with_pending_count None (with_pending None s))
  else with_pending (Some 103%Z) s.

(** The [c] after a bracket: 91 opens, 93 closes. *)
Definition key_hunk (s : DiffViewState) : DiffViewState :=
  let next := bool_decide (dv_pending s = Some 93%Z) in
  let s := with_pending None s in
  if next then jump_to_next_hunk s else jump_to_prev_hunk s.

(** The match of the keys that are no chord; [None] for one not handled. *)
Definition plain_key (m : Z) (code : KeyCode) (s : DiffViewState) : option DiffViewState :=
  let none := (m =? M_NONE)%Z in
  let shift := none || (m =? M_SHIFT)%Z in
  let control := (m =? M_CONTROL)%Z in
  let page := dv_visible_height s in
  let half := Nat.max (dv_visible_height s / 2) 1 in
  match code with
  | KC_Down => if none then Some (count_step true s) else None
  | KC_Up => if none then Some (count_step false s) else None
  | KC_PageDown => if none then Some (page_move true page s) else None
  | KC_PageUp => if none then Some (page_move false page s) else None
  | KC_Left => if none then Some (scroll_left s) else None
  | KC_Right => if none then Some (scroll_right s) else None
  | KC_Esc => if none && bool_decide (dv_mode s = DM_Visual) then Some (leave_visual s) else None
  | KC_Char c =>
      let typed ch := (c =? ch)%Z in
      if none && typed 106%Z then Some (count_step true s)
      else if none && typed 107%Z then Some (count_step false s)
      else if shift && typed 71%Z then
        Some (move_active_row_to (length (dv_rows s) - 1) (with_pending_count None s))
      else if control && typed 100%Z then Some (page_move true half s)
      else if control && typed 117%Z then Some (page_move false half s)
      else if shift && typed 104%Z then Some (scroll_left s)
      else if shift && typed 108%Z then Some (scroll_right s)
      else if shift && typed 48%Z then Some (scroll_home s)
      else if shift && typed 36%Z then Some (scroll_end s)
      else if none && typed 118%Z && bool_decide (dv_mode s = DM_Normal) then Some (enter_visual s)
      else if shift && typed 86%Z && bool_decide (dv_mode s = DM_Normal) then Some (enter_visual s)
      else if control && typed 116%Z then Some (toggle_layout s)
      else if control && typed 97%Z then Some (toggle_annotations s)
      else if control && typed 102%Z then Some (toggle_display s)
      else None
  | _ => None
  end.

(** [handle_events] *)
Definition handle_events (m : Z) (code : KeyCode) (s : DiffViewState)
  : Outcome (EventResult * DiffViewState) :=
  let none := (m =? M_NONE)%Z in
  let consumed s := Ret (ER_Consumed, s) in
  if none && bool_decide (code = KC_Char 99) &&
     (bool_decide (dv_pending s = Some 91%Z) || bool_decide (dv_pending s = Some 93%Z))
  then consumed (key_hunk s)
  else if none && bool_decide (code = KC_Char 91) then consumed (with_pending (Some 91%Z) s)
  else if none && bool_decide (code = KC_Char 93) then consumed (with_pending (Some 93%Z) s)
  else if none && bool_decide (code = KC_Char 103) then consumed (key_g s)
  else if none && bool_decide (code = KC_Char 121) then consumed (key_y s)
  else
    let s := with_pending None s in
    match code with
    | KC_Char c =>
        if none && (49 <=? c)%Z && (c <=? 57)%Z
        then s ← push_digit (c - 48) s; consumed s
        else match plain_key m code s with
             | Some s => consumed s
             | None => Ret (ER_Unhandled m code, s)
             end
    | _ =>
        match plain_key m code s with
        | Some s => consumed s
        | None => Ret (ER_Unhandled m code, s)
        end
    end.
