(* ===== verification/DiffViewProps.v ===== *)
(** * Where the keys of the diff widget leave its cursor

    The cursor and the selection stay on rows that can be reached, the active
    row stays in view, steps go to the neighbouring open row, and the diff
    itself never changes. *)

From stdpp Require Import base gmap numbers list strings.
From S2P Require Import Prelude Bytes IntText Text WordWrap DiffParse DiffParseProps DiffFullProps Keys DiffView.

Local Open Scope nat_scope.

(** ** Effects of a key *)

(** The keys told apart: the toggle of the layout, the digits of a count. *)
Inductive EffectTag := ET_Layout | ET_Digit | ET_Plain.

(** What a key does, chords and pending keys aside. *)
Inductive key_effect : EffectTag → DiffViewState → DiffViewState → Prop :=
| KE_none s : key_effect ET_Plain s s
| KE_step down s : key_effect ET_Plain s (count_step down s)
| KE_page down n s : key_effect ET_Plain s (page_move down n s)
| KE_first s : key_effect ET_Plain s (move_active_row_to 0 (with_pending_count None s))
| KE_last s :
    key_effect ET_Plain s (move_active_row_to (length (dv_rows s) - 1) (with_pending_count None s))
| KE_next_hunk s : key_effect ET_Plain s (jump_to_next_hunk s)
| KE_prev_hunk s : key_effect ET_Plain s (jump_to_prev_hunk s)
| KE_columns h s : key_effect ET_Plain s (with_h_scroll h s)
| KE_count d s :
    (1 <= d <= 9)%Z → (default 0 (dv_pending_count s) * 10 + d <= usize_max)%Z →
    key_effect ET_Digit s (with_pending_count (Some (default 0 (dv_pending_count s) * 10 + d)%Z) s)
| KE_enter s : dv_mode s = DM_Normal → key_effect ET_Plain s (enter_visual s)
| KE_leave s : key_effect ET_Plain s (leave_visual s)
| KE_yank s : key_effect ET_Plain s (yank s)
| KE_yank_leave s : key_effect ET_Plain s (leave_visual (yank s))
| KE_annotations s : key_effect ET_Plain s (toggle_annotations s)
| KE_display s : key_effect ET_Plain s (toggle_display s)
| KE_layout s : key_effect ET_Layout s (toggle_layout s).

Definition is_ctrl_t (m : Z) (code : KeyCode) : bool :=
  (m =? M_CONTROL)%Z && bool_decide (code = KC_Char 116).

Definition is_digit (m : Z) (code : KeyCode) : bool :=
  (m =? M_NONE)%Z && match code with KC_Char c => (49 <=? c)%Z && (c <=? 57)%Z | _ => false end.

(** The key may have an effect of this tag. *)
Definition tag_ok (l : EffectTag) (m : Z) (code : KeyCode) : Prop :=
  match l with
  | ET_Layout => is_ctrl_t m code = true
  | ET_Digit => is_digit m code = true
  | ET_Plain => True
  end.

Lemma with_h_scroll_same s : with_h_scroll (dv_h_scroll s) s = s.
Proof. by destruct s. Qed.

Lemma with_pending_same s : with_pending (dv_pending s) s = s.
Proof. by destruct s. Qed.

Lemma columns_effect f s :
  f = scroll_left ∨ f = scroll_right ∨ f = scroll_home ∨ f = scroll_end → key_effect ET_Plain s (f s).
Proof.
  intros [->|[->|[->| ->]]];
    unfold scroll_left, scroll_right, scroll_home, scroll_end; destruct (dv_wrap s);
    constructor.
Qed.

Lemma plain_key_effect m code s s' :
  plain_key m code s = Some s' → ∃ l, key_effect l s s' ∧ tag_ok l m code.
Proof.
  unfold plain_key. intros H.
  repeat match type of H with
  | match ?c with KC_Char _ => _ | _ => _ end = _ => destruct c; try discriminate H
  | (if ?b then _ else _) = _ => destruct b eqn:?; try discriminate H
  end; injection H as <-;
  try (exists ET_Plain; split; [|done]; by (constructor || (apply columns_effect; tauto))).
  all: zbool; repeat match goal with
    H : bool_decide _ = true |- _ => apply bool_decide_eq_true in H
  end; subst.
  1, 2: exists ET_Plain; split; [by constructor|done].
  exists ET_Layout. split; [constructor|done].
Qed.

(** A key sets the chord's first key, and then has one effect. *)
Lemma handle_events_effect m code s r s' :
  handle_events m code s = Ret (r, s') →
  ∃ p l, key_effect l (with_pending p s) s' ∧ tag_ok l m code.
Proof.
  unfold handle_events. cbv zeta. intros H.
  assert (∀ o, match o with
    | Some s => Ret (ER_Consumed, s)
    | None => Ret (ER_Unhandled m code, with_pending None s)
    end = Ret (r, s') → o = plain_key m code (with_pending None s) →
    ∃ p l, key_effect l (with_pending p s) s' ∧ tag_ok l m code) as Hplain.
  { intros [s1|] Ho Hk; injection Ho as <- <-.
    - symmetry in Hk. apply plain_key_effect in Hk as (l & Hl). eauto.
    - exists None, ET_Plain. split; [constructor|done]. }
  assert (∀ p, key_effect ET_Plain (with_pending p s) s' →
    ∃ p l, key_effect l (with_pending p s) s' ∧ tag_ok l m code) as Heff.
  { intros p Hp. by exists p, ET_Plain. }
  repeat match type of H with
  | (if ?b then _ else _) = _ => destruct b
  end.
  - injection H as <- <-. apply (Heff None). unfold key_hunk. cbv zeta.
    match goal with |- context [if ?b then _ else _] => destruct b end; constructor.
  - injection H as <- <-. apply (Heff (Some 91%Z)). constructor.
  - injection H as <- <-. apply (Heff (Some 93%Z)). constructor.
  - injection H as <- <-. unfold key_g in *. case_decide; [apply (Heff None)|apply (Heff (Some 103%Z))];
      constructor.
  - injection H as <- <-. unfold key_y in *. destruct (dv_mode s).
    + case_decide; [apply (Heff None)|apply (Heff (Some 121%Z))]; constructor.
    + apply (Heff (dv_pending s)). rewrite with_pending_same. constructor.
  - specialize (Hplain (plain_key m code (with_pending None s))).
    destruct code; try exact (Hplain H eq_refl).
    destruct (_ && _) eqn:Ed; [|exact (Hplain H eq_refl)].
    unfold push_digit in H. destruct (_ <=? usize_max)%Z eqn:Ec; [|done]. injection H as <- <-.
    exists None, ET_Digit. zbool. split; [apply (KE_count (c - 48) (with_pending None s)); [lia|exact Ec]|].
    subst m. unfold tag_ok, is_digit. rewrite !andb_true_iff, !Z.leb_le. done.
Qed.

(** ** Reachable rows *)

Definition reachable_row (s : DiffViewState) (i : nat) : Prop :=
  i < length (dv_rows s) ∧ is_folded s i = false.

Definition has_open_row (s : DiffViewState) : Prop := ∃ i, reachable_row s i.

(** The index is one of a row; of a reachable one, if there is any. *)
Definition open_index (s : DiffViewState) (i : nat) : Prop :=
  i < Nat.max (length (dv_rows s)) 1 ∧ (has_open_row s → is_folded s i = false).

Definition nav_ok (s : DiffViewState) : Prop :=
  open_index s (dv_active_row s) ∧
  match dv_mode s with
  | DM_Normal => dv_anchor s = None
  | DM_Visual => ∃ a, dv_anchor s = Some a ∧ open_index s a
  end.

(** The first element that [List.find] accepts. *)
Lemma find_first {A} (f : A → bool) l x :
  List.find f l = Some x → f x = true ∧ ∃ l1 l2, l = l1 ++ x :: l2 ∧ Forall (λ y, f y = false) l1.
Proof.
  induction l as [|y l IH]; [done|]. cbn. destruct (f y) eqn:E.
  - intros [= <-]. split; [done|]. by exists [], l.
  - intros H. destruct (IH H) as (Hx & l1 & l2 & -> & Hl). split; [done|].
    exists (y :: l1), l2. split; [done|by constructor].
Qed.

Lemma find_no {A} (f : A → bool) l : List.find f l = None → Forall (λ y, f y = false) l.
Proof. induction l as [|y l IH]; [done|]. cbn. destruct (f y) eqn:E; [done|]. auto. Qed.

(** Splitting a range of indices. *)
Lemma seq_split_at a n l1 x l2 :
  seq a n = l1 ++ x :: l2 → a ≤ x < a + n ∧ ∀ y, a ≤ y < x → y ∈ l1.
Proof.
  intros H. assert (seq a n !! length l1 = Some x) as Hx by by rewrite H, list_lookup_middle.
  apply lookup_seq in Hx as [-> Hlt]. split; [lia|]. intros y Hy.
  assert (seq a n !! (y - a) = Some y) as Hl by (apply lookup_seq; lia).
  rewrite H, lookup_app_l in Hl by lia. by eapply list_elem_of_lookup_2.
Qed.

Lemma reverse_split_at n l1 x l2 :
  reverse (seq 0 n) = l1 ++ x :: l2 → x < n ∧ ∀ y, x < y < n → y ∈ l1.
Proof.
  intros H. apply (f_equal reverse) in H.
  rewrite reverse_involutive, reverse_app, reverse_cons, <- app_assoc in H. cbn in H.
  assert (seq 0 n !! length (reverse l2) = Some x) as Hx by by rewrite H, list_lookup_middle.
  apply lookup_seq in Hx as [Hx Hlt]. cbn in Hx. split; [lia|]. intros y Hy.
  assert (seq 0 n !! y = Some y) as Hl by (apply lookup_seq; lia).
  rewrite H, lookup_app_r in Hl by lia.
  destruct (y - length (reverse l2)) as [|k] eqn:E; [lia|]. cbn in Hl.
  apply list_elem_of_lookup_2 in Hl. by rewrite elem_of_reverse in Hl.
Qed.

(** [nearest_unfolded] looks forward first: the next open row, or the last one
    before. *)
Lemma nearest_unfolded_spec s from :
  from < length (dv_rows s) →
  let i := nearest_unfolded s from in
  i < length (dv_rows s) ∧
  (is_folded s from = false → i = from) ∧
  (has_open_row s → is_folded s i = false) ∧
  (from ≤ i → ∀ j, from ≤ j < i → is_folded s j = true) ∧
  (is_folded s from = true → i < from → ∀ j, i < j < length (dv_rows s) → is_folded s j = true).
Proof.
  intros Hfrom. unfold nearest_unfolded, first_unfolded. destruct (Nat.eqb_spec (length (dv_rows s)) 0); [lia|].
  cbn [orb]. destruct (is_folded s from) eqn:Ef; cbn [negb]; cycle 1.
  { rewrite Nat.min_l by lia. split_and!; [done|done|done|intros; lia|done]. }
  destruct (List.find _ (seq from _)) as [i|] eqn:E1.
  { apply find_first in E1 as (Hi & l1 & l2 & Hsplit & Hl1). apply negb_true_iff in Hi.
    apply seq_split_at in Hsplit as [Hr Hbefore]. split_and!; [lia|done|done| |lia].
    intros _ j Hj. rewrite Forall_forall in Hl1. apply negb_false_iff. by apply Hl1, Hbefore. }
  apply find_no in E1. rewrite Forall_forall in E1.
  assert (∀ j, from ≤ j < length (dv_rows s) → is_folded s j = true) as Hfwd.
  { intros j Hj. apply negb_false_iff, E1, elem_of_seq. lia. }
  destruct (List.find _ (reverse _)) as [i|] eqn:E2.
  { apply find_first in E2 as (Hi & l1 & l2 & Hsplit & Hl1). apply negb_true_iff in Hi.
    apply reverse_split_at in Hsplit as [Hr Hbefore]. split_and!; [lia|done|done|lia|].
    intros _ _ j Hj. destruct (decide (j < from)) as [Hlt|Hge]; [|apply Hfwd; lia].
    rewrite Forall_forall in Hl1. apply negb_false_iff, Hl1, Hbefore. lia. }
  apply find_no in E2. rewrite Forall_forall in E2.
  assert (∀ j, j < length (dv_rows s) → is_folded s j = true) as Hall.
  { intros j Hj. destruct (decide (j < from)) as [Hlt|Hge]; [|apply Hfwd; lia].
    apply negb_false_iff, E2, elem_of_reverse, elem_of_seq. lia. }
  split_and!; [done|done| |lia|lia]. intros (j & Hj & Hopen). by rewrite Hall in Hopen.
Qed.

(** ** Moves *)

(** Only the active row and the scroll offset differ. *)
Definition moved (s s' : DiffViewState) : Prop :=
  ∃ a x, s' = with_scroll_offset x (with_active_row a s).

Lemma moved_refl s : moved s s.
Proof. exists (dv_active_row s), (dv_scroll_offset s). by destruct s. Qed.

Lemma moved_trans s s' s'' : moved s s' → moved s' s'' → moved s s''.
Proof. intros (a & x & ->) (b & y & ->). by exists b, y. Qed.

Lemma moved_scroll x s : moved s (with_scroll_offset x s).
Proof. exists (dv_active_row s), x. by destruct s. Qed.

Lemma moved_active a s : moved s (with_active_row a s).
Proof. exists a, (dv_scroll_offset s). by destruct s. Qed.

Lemma ensure_visible_form s : ∃ x, ensure_visible s = with_scroll_offset x s.
Proof.
  unfold ensure_visible. destruct (active_row_display_span s) as [a b].
  destruct (_ <? _); [by eexists|]. cbv zeta. destruct (_ <? _); by eexists.
Qed.

Lemma ensure_visible_moved s : moved s (ensure_visible s).
Proof. destruct (ensure_visible_form s) as [x ->]. apply moved_scroll. Qed.

Lemma ensure_visible_active s : dv_active_row (ensure_visible s) = dv_active_row s.
Proof. by destruct (ensure_visible_form s) as [x ->]. Qed.

Lemma move_to_moved row s : moved s (move_active_row_to row s).
Proof.
  unfold move_active_row_to. cbv zeta. eapply moved_trans; [|apply ensure_visible_moved].
  eapply moved_trans; [apply (moved_active row)|].
  eapply moved_trans; [apply moved_active|]. destruct (is_folded _ _); [apply moved_active|apply moved_refl].
Qed.

Lemma step_moved down s : moved s (step_display_or_logical down s).
Proof.
  unfold step_display_or_logical. destruct (_ =? 0); [apply moved_refl|].
  destruct (active_row_display_span s) as [a b]. cbv zeta.
  destruct (_ && _); [apply moved_scroll|]. destruct (_ && _); [apply moved_scroll|].
  eapply moved_trans; [|apply ensure_visible_moved].
  eapply moved_trans; [apply moved_active|]. apply moved_active.
Qed.

Lemma repeat_moved n down s : moved s (repeat_step n down s).
Proof.
  induction n as [|n IH]; [apply moved_refl|]. eapply moved_trans; [exact IH|]. apply step_moved.
Qed.

Lemma page_moved down n s : moved s (page_move down n s).
Proof.
  unfold page_move. destruct (display_rows s) as [|d ds]; [apply moved_refl|].
  destruct (active_row_display_span s) as [a b]. cbv zeta.
  destruct (_ !! _); [apply move_to_moved|apply moved_refl].
Qed.

Lemma next_hunk_moved s : moved s (jump_to_next_hunk s).
Proof.
  unfold jump_to_next_hunk. cbv zeta. destruct (List.find _ _); [apply move_to_moved|].
  destruct (last _); [apply move_to_moved|apply moved_refl].
Qed.

Lemma prev_hunk_moved s : moved s (jump_to_prev_hunk s).
Proof.
  unfold jump_to_prev_hunk. cbv zeta. destruct (List.find _ _); [apply move_to_moved|].
  destruct (head _); [apply move_to_moved|apply moved_refl].
Qed.

#[export] Hint Resolve moved_refl ensure_visible_moved move_to_moved step_moved repeat_moved page_moved
  next_hunk_moved prev_hunk_moved : ferrowl.

(** ** The cursor stays on open rows *)

Lemma nearest_open_index s from :
  from < Nat.max (length (dv_rows s)) 1 → open_index s (nearest_unfolded s from).
Proof.
  intros Hfrom. destruct (Nat.eqb_spec (length (dv_rows s)) 0) as [E|Hne].
  - unfold nearest_unfolded. rewrite E. cbn. rewrite Nat.min_0_r. split; [lia|].
    intros (i & Hi & _). lia.
  - destruct (nearest_unfolded_spec s from) as (H1 & _ & H2 & _); [lia|]. split; [lia|done].
Qed.

Lemma unfolded_open_index s i :
  i < Nat.max (length (dv_rows s)) 1 → is_folded s i = false → open_index s i.
Proof. by split. Qed.

Lemma clamp_range s : dv_active_row (clamp_active_row s) < Nat.max (length (dv_rows s)) 1.
Proof. cbn. destruct (Nat.eqb_spec (length (dv_rows s)) 0); lia. Qed.

Lemma clamp_id s : dv_active_row s < Nat.max (length (dv_rows s)) 1 →
  dv_active_row (clamp_active_row s) = dv_active_row s.
Proof. cbn. destruct (Nat.eqb_spec (length (dv_rows s)) 0); lia. Qed.

Lemma move_to_open row s : open_index s (dv_active_row (move_active_row_to row s)).
Proof.
  unfold move_active_row_to. cbv zeta. rewrite ensure_visible_active.
  set (s1 := clamp_active_row (with_active_row row s)).
  pose proof (clamp_range (with_active_row row s)) as Hr. fold s1 in Hr.
  destruct (is_folded s1 (dv_active_row s1)) eqn:E.
  - exact (nearest_open_index s1 _ Hr).
  - exact (unfolded_open_index s1 _ Hr E).
Qed.

Lemma next_row_range s down row :
  row < Nat.max (length (dv_rows s)) 1 → next_row s down row < Nat.max (length (dv_rows s)) 1.
Proof. unfold next_row. destruct down; lia. Qed.

Lemma skip_folded_range fuel s down row :
  row < Nat.max (length (dv_rows s)) 1 →
  skip_folded fuel s down row < Nat.max (length (dv_rows s)) 1.
Proof.
  revert row. induction fuel as [|fuel IH]; intros row Hr; cbn; [done|].
  destruct (is_folded s row); [|done]. destruct (_ =? _); [done|]. by apply IH, next_row_range.
Qed.

(** Where a step that moves the active row lands. *)
Definition step_target (down : bool) (s : DiffViewState) : nat :=
  let next := skip_folded (length (dv_rows s)) s down (next_row s down (dv_active_row s)) in
  if is_folded s next then nearest_unfolded s next else next.

Lemma step_target_open down s :
  dv_active_row s < Nat.max (length (dv_rows s)) 1 → open_index s (step_target down s).
Proof.
  intros Hr. unfold step_target. cbv zeta. set (next := skip_folded _ _ _ _).
  assert (next < Nat.max (length (dv_rows s)) 1) as Hn by by apply skip_folded_range, next_row_range.
  destruct (is_folded s next) eqn:E; [by apply nearest_open_index|by apply unfolded_open_index].
Qed.

Lemma step_open down s :
  open_index s (dv_active_row s) → open_index s (dv_active_row (step_display_or_logical down s)).
Proof.
  intros Ha. unfold step_display_or_logical. destruct (_ =? 0); [done|].
  destruct (active_row_display_span s) as [a b]. cbv zeta.
  destruct (_ && _); [done|]. destruct (_ && _); [done|]. fold (step_target down s).
  assert (open_index s (step_target down s)) as Ht by (apply step_target_open, Ha).
  rewrite ensure_visible_active, clamp_id by apply Ht. exact Ht.
Qed.

(** A move to an open row keeps the invariant. *)
Lemma nav_ok_moved s s' :
  nav_ok s → moved s s' → open_index s (dv_active_row s') → nav_ok s'.
Proof. intros [Ha Hm] (a & x & ->) Hopen. split; [exact Hopen|exact Hm]. Qed.

Lemma repeat_open n down s : nav_ok s → nav_ok (repeat_step n down s).
Proof.
  intros Hs. induction n as [|n IH]; [done|].
  apply (nav_ok_moved (repeat_step n down s)); [done|apply step_moved|apply step_open, IH].
Qed.

Lemma page_open down n s : nav_ok s → nav_ok (page_move down n s).
Proof.
  intros Hs. apply (nav_ok_moved s); [done|apply page_moved|].
  unfold page_move. destruct (display_rows s) as [|d ds]; [apply Hs|].
  destruct (active_row_display_span s) as [a b]. cbv zeta.
  destruct (_ !! _); [apply move_to_open|apply Hs].
Qed.

Lemma toggle_display_open s : nav_ok s → nav_ok (toggle_display s).
Proof.
  intros [[Ha Hfa] Hm]. unfold toggle_display. destruct (dv_has_full_file s); [|done]. cbv zeta.
  destruct (dv_display s) eqn:Ed; cbn [dv_display with_display].
  - destruct (ensure_visible_form (with_scroll_offset 0 (with_display DD_FullFile s))) as [x ->].
    split; [split; [exact Ha|done]|]. cbn. destruct (dv_mode s); [exact Hm|].
    destruct Hm as (b & -> & Hb & _). exists b. by repeat split.
  - set (s1 := with_display DD_HunkOnly s).
    assert (open_index s1 (nearest_unfolded s1 (dv_active_row s1))) as Ho by by apply nearest_open_index.
    destruct (dv_mode s) eqn:Emode.
    + assert (dv_anchor (with_active_row (nearest_unfolded s1 (dv_active_row s1)) s1) = None) as -> by done.
      match goal with |- nav_ok (ensure_visible ?t) => destruct (ensure_visible_form t) as [x ->] end.
      split; [exact Ho|]. cbn. by rewrite Emode.
    + destruct Hm as (b & Hb & Hbr & _).
      assert (dv_anchor (with_active_row (nearest_unfolded s1 (dv_active_row s1)) s1) = Some b) as -> by done.
      match goal with |- nav_ok (ensure_visible ?t) => destruct (ensure_visible_form t) as [x ->] end.
      split; [exact Ho|]. cbn. rewrite Emode. eexists. split; [done|].
      exact (nearest_open_index s1 b Hbr).
Qed.

Lemma key_effect_open l s s' : key_effect l s s' → nav_ok s → nav_ok s'.
Proof.
  intros H Hs. destruct H; try exact Hs.
  - apply repeat_open. exact Hs.
  - by apply page_open.
  - apply (nav_ok_moved (with_pending_count None s)); [exact Hs|apply move_to_moved|apply move_to_open].
  - apply (nav_ok_moved (with_pending_count None s)); [exact Hs|apply move_to_moved|apply move_to_open].
  - apply (nav_ok_moved s); [done|apply next_hunk_moved|]. unfold jump_to_next_hunk. cbv zeta.
    destruct (List.find _ _); [apply move_to_open|]. destruct (last _); [apply move_to_open|apply Hs].
  - apply (nav_ok_moved s); [done|apply prev_hunk_moved|]. unfold jump_to_prev_hunk. cbv zeta.
    destruct (List.find _ _); [apply move_to_open|]. destruct (head _); [apply move_to_open|apply Hs].
  - destruct Hs as [Ha _]. split; [exact Ha|]. cbn. by exists (dv_active_row s).
  - destruct Hs as [Ha _]. by split.
  - unfold yank. destruct (selected_rows s) as [[lo hi]|]; exact Hs.
  - destruct Hs as [Ha _]. unfold yank. destruct (selected_rows s) as [[lo hi]|]; by split.
  - unfold toggle_annotations.
    destruct (ensure_visible_form (with_annotations_shown (negb (dv_annotations_shown s)) s)) as [x ->].
    exact Hs.
  - by apply toggle_display_open.
Qed.

(** ** Runs *)

(** What the application does with the widget: offer it a key, draw it into an
    area, replace its annotations, choose the focused side. *)
Inductive ViewEvent :=
| VE_Key (modifiers : Z) (code : KeyCode)
| VE_Render (height old_width new_width meta_width : nat) (heights : list nat)
| VE_Annotations (annotations : list Annotation)
| VE_Side (side : Side).

Definition view_step (e : ViewEvent) (s : DiffViewState) : Outcome DiffViewState :=
  match e with
  | VE_Key m code => r ← handle_events m code s; Ret r.2
  | VE_Render height old new meta heights =>
      Ret (with_annotation_heights heights (set_meta_width meta
             (set_content_widths old new (with_visible_height height s))))
  | VE_Annotations annotations => Ret (with_annotations annotations s)
  | VE_Side side => Ret (with_focused_side side s)
  end.

Fixpoint view_run (es : list ViewEvent) (s : DiffViewState) : Outcome DiffViewState :=
  match es with
  | [] => Ret s
  | e :: es' => s ← view_step e s; view_run es' s
  end.

(** The diff and its folds. *)
Definition document (s : DiffViewState) : list DiffRow * list (nat * nat) * bool :=
  (dv_rows s, dv_folds s, dv_has_full_file s).

Lemma moved_document s s' : moved s s' → document s' = document s.
Proof. by intros (a & x & ->). Qed.

Lemma key_effect_document l s s' : key_effect l s s' → document s' = document s.
Proof.
  destruct 1; try done; try (by apply moved_document; eauto with ferrowl).
  - exact (moved_document (with_pending_count None s) _ (repeat_moved _ _ _)).
  - exact (moved_document (with_pending_count None s) _ (move_to_moved _ _)).
  - exact (moved_document (with_pending_count None s) _ (move_to_moved _ _)).
  - unfold yank. by destruct (selected_rows s) as [[lo hi]|].
  - unfold yank. by destruct (selected_rows s) as [[lo hi]|].
  - exact (moved_document (with_annotations_shown _ s) _ (ensure_visible_moved _)).
  - unfold toggle_display. destruct (dv_has_full_file s); [|done]. cbv zeta.
    rewrite (moved_document _ _ (ensure_visible_moved _)).
    destruct (dv_display s); [done|]. cbn. by destruct (dv_anchor s).
Qed.

Definition count_value (s : DiffViewState) : Z := default 0%Z (dv_pending_count s).

Lemma moved_count s s' : moved s s' → count_value s' = count_value s.
Proof. by intros (a & x & ->). Qed.

(** A digit appends to the count, every other key keeps or takes it. *)
Lemma key_effect_count l s s' :
  key_effect l s s' →
  match l with
  | ET_Digit => ∃ d, (1 <= d <= 9)%Z ∧ count_value s' = (count_value s * 10 + d)%Z
  | _ => count_value s' = count_value s ∨ count_value s' = 0%Z
  end.
Proof.
  destruct 1; try (by left); try (by left; apply moved_count; eauto with ferrowl).
  - right. exact (moved_count (with_pending_count None s) _ (repeat_moved _ _ _)).
  - right. exact (moved_count (with_pending_count None s) _ (move_to_moved _ _)).
  - right. exact (moved_count (with_pending_count None s) _ (move_to_moved _ _)).
  - by exists d.
  - left. unfold yank. by destruct (selected_rows s) as [[lo hi]|].
  - left. unfold yank. by destruct (selected_rows s) as [[lo hi]|].
  - left. exact (moved_count (with_annotations_shown _ s) _ (ensure_visible_moved _)).
  - left. unfold toggle_display. destruct (dv_has_full_file s); [|done]. cbv zeta.
    rewrite (moved_count _ _ (ensure_visible_moved _)).
    destruct (dv_display s); [done|]. cbn. by destruct (dv_anchor s).
Qed.

(** A key is refused only as a digit that makes the count too large. *)
Lemma handle_events_total m code s :
  (is_digit m code = true → count_value s * 10 + 9 <= usize_max)%Z →
  ∃ r s', handle_events m code s = Ret (r, s').
Proof.
  intros Hd. unfold handle_events. cbv zeta. unfold is_digit, count_value in Hd.
  repeat match goal with
  | |- ∃ _ _, (if ?b then Ret _ else _) = _ => destruct b; [by eauto|]
  end.
  assert (∀ o, ∃ r s', match o with
    | Some s => Ret (ER_Consumed, s)
    | None => Ret (ER_Unhandled m code, with_pending None s)
    end = Ret (r, s')) as Hplain by (intros [s1|]; eauto).
  specialize (Hplain (plain_key m code (with_pending None s))).
  destruct code; try exact Hplain. destruct (_ && _ && _) eqn:E; [|exact Hplain].
  rewrite <- andb_assoc in E. specialize (Hd E). apply andb_prop in E as [_ E]. zbool.
  unfold push_digit. cbn [dv_pending_count with_pending].
  rewrite (proj2 (Z.leb_le _ _)) by lia. cbn. eauto.
Qed.

Definition digit_event (e : ViewEvent) : bool :=
  match e with VE_Key m code => is_digit m code | _ => false end.

Definition digits (es : list ViewEvent) : Z := Z.of_nat (length (List.filter digit_event es)).

(** One event. *)
Lemma view_step_ok e s k :
  nav_ok s → (0 <= k)%Z → (k + Z.b2z (digit_event e) <= 19)%Z → (0 <= count_value s < 10 ^ k)%Z →
  ∃ s', view_step e s = Ret s' ∧ nav_ok s' ∧ document s' = document s ∧
    (0 <= count_value s' < 10 ^ (k + Z.b2z (digit_event e)))%Z.
Proof.
  intros Hs Hk H19 Hc. destruct e as [m code|h o n me hs|anns|side];
    [|cbn in *; rewrite Z.add_0_r; eexists; (split; [done|]); by repeat split; try apply Hs; apply Hc..].
  cbn [view_step digit_event] in *.
  destruct (handle_events_total m code s) as (r & s' & E).
  { intros Hd. rewrite Hd in H19. cbn in H19.
    assert (10 ^ k <= 10 ^ 18)%Z by (apply Z.pow_le_mono_r; lia). unfold usize_max. lia. }
  rewrite E. cbn. exists s'. split; [done|].
  apply handle_events_effect in E as (p & l & He & Ht).
  assert (nav_ok (with_pending p s)) as Hp by exact Hs.
  split; [by eapply key_effect_open|]. split; [by apply (key_effect_document _ _ _ He)|].
  apply key_effect_count in He.
  change (count_value (with_pending p s)) with (count_value s) in He.
  assert (10 ^ k <= 10 ^ (k + Z.b2z (is_digit m code)))%Z as Hpow.
  { apply Z.pow_le_mono_r; [lia|]. destruct (is_digit m code); cbn; lia. }
  destruct l; [lia| |lia]. destruct He as (d & Hd & ->). cbn in Ht. rewrite Ht. cbn.
  rewrite Z.pow_add_r by lia. lia.
Qed.

(** Through any keys, drawings and new annotations. *)
Lemma view_run_in_order es s :
  nav_ok s → dv_pending_count s = None → (digits es <= 19)%Z →
  ∃ s', view_run es s = Ret s' ∧ nav_ok s' ∧ document s' = document s.
Proof.
  intros Hs Hcount Hd.
  assert (∀ es s k, nav_ok s → (0 <= k)%Z → (k + digits es <= 19)%Z →
    (0 <= count_value s < 10 ^ k)%Z →
    ∃ s', view_run es s = Ret s' ∧ nav_ok s' ∧ document s' = document s) as H.
  { clear. intros es. induction es as [|e es IH]; intros s k Hs Hk H19 Hc; [by exists s|].
    assert (digits (e :: es) = Z.b2z (digit_event e) + digits es)%Z as Hde.
    { unfold digits. cbn. destruct (digit_event e); cbn; lia. }
    assert (0 <= digits es)%Z by (unfold digits; lia).
    destruct (view_step_ok e s k) as (s1 & E & H1 & H2 & H3); [done|done|lia|done|].
    destruct (IH s1 (k + Z.b2z (digit_event e))%Z) as (s' & E' & H1' & H2');
      [done|destruct (digit_event e); cbn; lia|lia|done|].
    exists s'. cbn. rewrite E. cbn. rewrite H2'. by rewrite H2. }
  apply (H es s 0%Z); [done|lia|lia|]. unfold count_value. rewrite Hcount. cbn. lia.
Qed.

(** ** The display rows of the active row *)

(** Display row [i] draws the active row itself. *)
Definition draws_active (s : DiffViewState) (i : nat) : Prop :=
  ∃ d, display_rows s !! i = Some d ∧ dr_logical d = dv_active_row s ∧
    is_annotation (dr_part d) = false.

Fixpoint numbered_from {A} (k : nat) (l : list A) : list (nat * A) :=
  match l with [] => [] | x :: l' => (k, x) :: numbered_from (S k) l' end.

Lemma imap_numbered {A} (l : list A) k :
  imap (λ i x, (k + i, x)) l = numbered_from k l.
Proof.
  revert k. induction l as [|x l IH]; intros k; [done|]. rewrite imap_cons, Nat.add_0_r. cbn.
  f_equal. rewrite <- IH. apply imap_ext. intros i y _. cbn. f_equal. lia.
Qed.

Lemma numbered_from_app {A} k (l l' : list A) :
  numbered_from k (l ++ l') = numbered_from k l ++ numbered_from (k + length l) l'.
Proof.
  revert k. induction l as [|x l IH]; intros k; cbn; [by rewrite Nat.add_0_r|].
  rewrite IH. f_equal. f_equal. f_equal. lia.
Qed.

Definition active_row_part (active : nat) (d : DisplayRow) : Prop :=
  dr_logical d = active ∧ is_annotation (dr_part d) = false.

Lemma span_skip active l k acc :
  Forall (λ d, ¬ active_row_part active d) l →
  foldl (span_step active) acc (numbered_from k l) = acc.
Proof.
  intros H. revert k. induction H as [|d l Hd Hl IH]; intros k; [done|]. cbn [numbered_from foldl].
  assert (span_step active acc (k, d) = acc) as ->; [|apply IH].
  unfold span_step. cbn. destruct (Nat.eqb_spec (dr_logical d) active); [|done].
  destruct (is_annotation (dr_part d)) eqn:E; [done|]. by destruct Hd.
Qed.

Lemma span_take active l k acc :
  l ≠ [] → Forall (active_row_part active) l →
  foldl (span_step active) acc (numbered_from k l) = (Some (default k acc.1), k + length l - 1).
Proof.
  intros Hne H. revert k acc Hne. induction H as [|d l [Hd1 Hd2] Hl IH]; intros k acc Hne; [done|].
  cbn [numbered_from foldl]. assert (span_step active acc (k, d) = (Some (default k acc.1), k)) as ->.
  { unfold span_step. cbn. by rewrite Hd1, Nat.eqb_refl, Hd2. }
  destruct l as [|d' l]; [cbn; f_equal; lia|]. rewrite IH by done. cbn. f_equal. lia.
Qed.

Lemma row_display_logical s anchors i row :
  Forall (λ d, dr_logical d = i) (row_display s anchors i row).
Proof.
  unfold row_display. destruct (is_folded s i); [constructor|]. apply Forall_app. split.
  - apply Forall_fmap, Forall_true. done.
  - apply Forall_bind, Forall_true. intros idx. apply Forall_fmap, Forall_true. done.
Qed.

Lemma side_sub_rows_pos s text width : 0 < side_sub_rows s text width.
Proof. unfold side_sub_rows. destruct (negb (dv_wrap s)); lia. Qed.

(** A row has a part to draw, and none of its parts is an annotation's. *)
Lemma row_display_parts_spec s row :
  row_display_parts s row ≠ [] ∧ Forall (λ p, is_annotation p = false) (row_display_parts s row).
Proof.
  assert (∀ (f : nat → RowPart) n, 0 < n → f <$> seq 0 n ≠ []) as Hne by (intros f [|n] Hn; [lia|done]).
  assert (∀ (f : nat → RowPart) n, (∀ i, is_annotation (f i) = false) →
    Forall (λ p, is_annotation p = false) (f <$> seq 0 n)) as Hall.
  { intros f n Hf. apply Forall_fmap, Forall_true. exact Hf. }
  pose proof (side_sub_rows_pos s) as Hpos.
  destruct row as [k o n|t]; cbn [row_display_parts].
  - destruct (dv_layout s).
    + split; [|by apply Hall]. apply Hne. specialize (Hpos (entry_text o) (dv_content_width_old s)). lia.
    + destruct (match o, n with Some _, Some _ => _ | _, _ => _ end).
      * split; [|apply Forall_app; split; by apply Hall].
        intros [H _]%app_nil. by eapply Hne, H.
      * split; [by apply Hne|]. apply Hall. intros i. by destruct o.
  - split; [by apply Hne|by apply Hall].
Qed.

(** The display rows before, of and after a row that no fold covers. *)
Lemma display_rows_split s row :
  dv_rows s !! dv_active_row s = Some row → is_folded s (dv_active_row s) = false →
  ∃ pre post, display_rows s =
    pre ++ (mkDisplayRow (dv_active_row s) <$> row_display_parts s row) ++ post ∧
    Forall (λ d, ¬ active_row_part (dv_active_row s) d) pre ∧
    Forall (λ d, ¬ active_row_part (dv_active_row s) d) post.
Proof.
  intros Hrow Hopen. set (act := dv_active_row s) in *. unfold display_rows. cbv zeta.
  set (anchors := annotation_anchors_by_row s). set (f := row_display s anchors).
  rewrite <- (take_drop_middle (dv_rows s) act row Hrow).
  assert (act < length (dv_rows s)) as Hlt by by apply lookup_lt_Some in Hrow.
  rewrite imap_app, imap_cons, length_take, Nat.min_l, Nat.add_0_r by lia.
  rewrite concat_app. cbn [concat]. unfold f at 2. unfold row_display at 1. rewrite Hopen.
  rewrite <- app_assoc.
  assert (∀ (g : nat → nat) rows, (∀ j, g j ≠ act) →
    Forall (λ d, ¬ active_row_part act d) (concat (imap (λ j, f (g j)) rows))) as Hother.
  { intros g rows Hg. apply Forall_concat, Forall_forall. intros ds Hds.
    apply list_elem_of_lookup in Hds as [j Hj]. rewrite list_lookup_imap in Hj.
    destruct (rows !! j) as [r|]; [|done]. injection Hj as <-.
    eapply Forall_impl; [apply row_display_logical|]. intros d Hd [Ha _]. apply (Hg j). congruence. }
  eexists _, _. split; [reflexivity|]. split.
  - apply Forall_concat, Forall_forall. intros ds Hds.
    apply list_elem_of_lookup in Hds as [j Hj]. rewrite list_lookup_imap in Hj.
    destruct (take act (dv_rows s) !! j) as [r|] eqn:E; [|done]. injection Hj as <-.
    apply lookup_lt_Some in E. rewrite length_take in E.
    eapply Forall_impl; [apply row_display_logical|]. intros d Hd [Ha _].
    cbn in Hd. lia.
  - apply Forall_app. split.
    + apply Forall_bind, Forall_true. intros idx. apply Forall_fmap, Forall_true.
      intros sub. cbn. by intros [_ H].
    + apply Hother. intros j. lia.
Qed.

(** They are one block, which the span names. *)
Lemma active_block s :
  reachable_row s (dv_active_row s) →
  ∃ a n, 0 < n ∧ active_row_display_span s = (a, a + n - 1) ∧
    ∀ i, draws_active s i ↔ a ≤ i < a + n.
Proof.
  intros [Hlt Hopen]. destruct (lookup_lt_is_Some_2 _ _ Hlt) as [row Hrow].
  destruct (display_rows_split s row Hrow Hopen) as (pre & post & Hd & Hpre & Hpost).
  destruct (row_display_parts_spec s row) as [Hne Hparts].
  set (parts := row_display_parts s row) in *. set (act := dv_active_row s) in *.
  assert (Forall (active_row_part act) (mkDisplayRow act <$> parts)) as Hmid.
  { apply Forall_fmap. eapply Forall_impl; [exact Hparts|]. intros p Hp. by split. }
  assert (0 < length parts) as Hpos by (destruct parts; [done|cbn; lia]).
  exists (length pre), (length parts). split; [done|]. split.
  - unfold active_row_display_span. fold act.
    change (λ (i : nat) (d : DisplayRow), (i, d)) with (λ (i : nat) (d : DisplayRow), (0 + i, d)).
    rewrite imap_numbered, Hd, !numbered_from_app, !foldl_app, span_skip by done.
    rewrite span_take by (first [done | by destruct parts]).
    rewrite span_skip by done. cbn. by rewrite length_fmap.
  - intros i. unfold draws_active. rewrite Hd. fold act. split.
    + intros (d & Hi & Hp). change (active_row_part act d) in Hp.
      apply lookup_app_Some in Hi as [Hi|[Hge Hi]].
      { rewrite Forall_forall in Hpre. by destruct (Hpre d (list_elem_of_lookup_2 _ _ _ Hi)). }
      apply lookup_app_Some in Hi as [Hi|[Hge' Hi]].
      { apply lookup_lt_Some in Hi. rewrite length_fmap in Hi. lia. }
      rewrite Forall_forall in Hpost. by destruct (Hpost d (list_elem_of_lookup_2 _ _ _ Hi)).
    + intros Hi. rewrite lookup_app_r by lia.
      destruct (lookup_lt_is_Some_2 (mkDisplayRow act <$> parts) (i - length pre)) as [d Hdi];
        [rewrite length_fmap; lia|].
      exists d. rewrite lookup_app_l by (rewrite length_fmap; lia). split; [done|].
      rewrite Forall_forall in Hmid. apply Hmid. by eapply list_elem_of_lookup_2.
Qed.

(** ** The active row stays in view *)

Definition window_height (s : DiffViewState) : nat := Nat.max (dv_visible_height s) 1.

Definition in_window (s : DiffViewState) (i : nat) : Prop :=
  dv_scroll_offset s ≤ i < dv_scroll_offset s + window_height s.

(** Some of the active row is in the window, and all of it if it fits. *)
Definition active_shown (s : DiffViewState) : Prop :=
  (∃ i, draws_active s i ∧ in_window s i) ∧
  ((∃ a, ∀ i, draws_active s i → a ≤ i < a + window_height s) →
   ∀ i, draws_active s i → in_window s i).

(** The same of a block of [n] rows from [a] on. *)
Lemma active_shown_block s a n :
  0 < n → (∀ i, draws_active s i ↔ a ≤ i < a + n) →
  active_shown s ↔
  dv_scroll_offset s < a + n ∧ a < dv_scroll_offset s + window_height s ∧
  (n ≤ window_height s → dv_scroll_offset s ≤ a ∧ a + n ≤ dv_scroll_offset s + window_height s).
Proof.
  intros Hn Hd. unfold active_shown, in_window. split.
  - intros [(i & Hi%Hd & Hw) Hall]. split_and!; [lia..|]. intros Hfit.
    assert (∀ i, draws_active s i →
      dv_scroll_offset s ≤ i < dv_scroll_offset s + window_height s) as Hin.
    { apply Hall. exists a. intros j Hj%Hd. lia. }
    pose proof (Hin a (proj2 (Hd a) ltac:(lia))).
    pose proof (Hin (a + n - 1) (proj2 (Hd (a + n - 1)) ltac:(lia))). lia.
  - assert (0 < window_height s) by (unfold window_height; lia).
    intros (H1 & H2 & H3). split.
    + exists (Nat.max a (dv_scroll_offset s)). rewrite Hd. lia.
    + intros (b & Hb) i Hi%Hd.
      pose proof (Hb a (proj2 (Hd a) ltac:(lia))).
      pose proof (Hb (a + n - 1) (proj2 (Hd (a + n - 1)) ltac:(lia))). lia.
Qed.

Lemma raise_scroll_spec fuel last visible scroll :
  last + 1 - visible - scroll ≤ fuel → 1 ≤ visible →
  raise_scroll fuel last visible scroll = Nat.max scroll (last + 1 - visible).
Proof.
  revert scroll. induction fuel as [|fuel IH]; intros scroll Hf Hv; cbn [raise_scroll]; [lia|].
  destruct (Nat.leb_spec (scroll + visible) last); [|lia]. rewrite IH by lia. lia.
Qed.

Lemma ensure_visible_shown s :
  reachable_row s (dv_active_row s) → active_shown (ensure_visible s).
Proof.
  intros Hr. destruct (active_block s Hr) as (a & n & Hn & Hspan & Hd).
  destruct (ensure_visible_form s) as [x Hx].
  assert (∀ i, draws_active (ensure_visible s) i ↔ a ≤ i < a + n) as Hd'.
  { rewrite Hx. exact Hd. }
  apply (active_shown_block _ a n Hn Hd').
  assert (window_height (ensure_visible s) = window_height s) as Hw by by rewrite Hx.
  rewrite Hw. clear Hw Hx Hd'. unfold ensure_visible, window_height. rewrite Hspan.
  destruct (Nat.ltb_spec a (dv_scroll_offset s)); [cbn; lia|]. cbv zeta.
  destruct (Nat.ltb_spec (Nat.max (dv_visible_height s) 1) (a + n - 1 - a + 1)); [cbn; lia|].
  rewrite raise_scroll_spec by lia. cbn [dv_scroll_offset with_scroll_offset]. lia.
Qed.

Lemma move_to_shown row s :
  has_open_row s → active_shown (move_active_row_to row s).
Proof.
  intros Ho. pose proof (move_to_open row s) as [Hr Hf]. specialize (Hf Ho).
  assert (0 < length (dv_rows s)) as Hpos by (destruct Ho as (i & Hi & _); lia).
  unfold move_active_row_to in *. cbv zeta in *. rewrite ensure_visible_active in *.
  apply ensure_visible_shown.
  match goal with |- reachable_row ?t _ => assert (dv_rows t = dv_rows s ∧ ∀ i, is_folded t i = is_folded s i) as [E1 E2] end.
  { destruct (is_folded _ _); by split. }
  split; [rewrite E1; lia|]. rewrite E2. exact Hf.
Qed.

Lemma step_shown down s :
  nav_ok s → reachable_row s (dv_active_row s) → active_shown s →
  active_shown (step_display_or_logical down s).
Proof.
  intros [Ha _] Hr Hs. destruct (active_block s Hr) as (a & n & Hn & Hspan & Hd).
  pose proof (proj1 (active_shown_block s a n Hn Hd) Hs) as (H1 & H2 & H3).
  pose proof Hr as [Hlt _]. assert (1 ≤ window_height s) as Hw by (unfold window_height; lia).
  unfold step_display_or_logical. destruct (Nat.eqb_spec (length (dv_rows s)) 0); [lia|].
  rewrite Hspan. cbv zeta. fold (window_height s).
  destruct (down && (dv_scroll_offset s + window_height s <=? a + n - 1)) eqn:Edown.
  { apply andb_prop in Edown as [_ E%Nat.leb_le].
    apply (active_shown_block (with_scroll_offset (dv_scroll_offset s + 1) s) a n Hn Hd).
    change (window_height (with_scroll_offset _ s)) with (window_height s).
    cbn [dv_scroll_offset with_scroll_offset]. lia. }
  destruct (negb down && (a <? dv_scroll_offset s)) eqn:Eup.
  { apply andb_prop in Eup as [_ E%Nat.ltb_lt].
    apply (active_shown_block (with_scroll_offset (dv_scroll_offset s - 1) s) a n Hn Hd).
    change (window_height (with_scroll_offset _ s)) with (window_height s).
    cbn [dv_scroll_offset with_scroll_offset]. lia. }
  fold (step_target down s). destruct (step_target_open down s) as [Ht Hf]; [apply Ha|].
  apply ensure_visible_shown. rewrite clamp_id by exact Ht.
  split; [cbn; lia|]. apply Hf. by exists (dv_active_row s).
Qed.

(** The invariant of a run without the toggle of the layout. *)
Definition view_ok (s : DiffViewState) : Prop :=
  nav_ok s ∧ (reachable_row s (dv_active_row s) → active_shown s).

Lemma reachable_open s : nav_ok s → has_open_row s → reachable_row s (dv_active_row s).
Proof. intros [[Hr Hf] _] Ho. pose proof Ho as (i & Hi & _). split; [lia|by apply Hf]. Qed.

Lemma step_view_ok down s : view_ok s → view_ok (step_display_or_logical down s).
Proof.
  intros [Hn Hs]. assert (nav_ok (step_display_or_logical down s)) as Hn'.
  { apply (nav_ok_moved s); [done|apply step_moved|apply step_open, Hn]. }
  split; [done|]. intros Hr.
  assert (has_open_row s) as Ho.
  { destruct (step_moved down s) as (x & y & E). rewrite E in Hr. eexists. exact Hr. }
  pose proof (reachable_open s Hn Ho). apply step_shown; auto.
Qed.

Lemma repeat_view_ok k down s : view_ok s → view_ok (repeat_step k down s).
Proof. intros Hs. induction k as [|k IH]; [done|]. by apply step_view_ok. Qed.

Lemma move_to_view_ok row s : nav_ok s → view_ok (move_active_row_to row s).
Proof.
  intros Hn. split; [apply (nav_ok_moved s); [done|apply move_to_moved|apply move_to_open]|].
  intros Hr. apply move_to_shown. destruct (move_to_moved row s) as (x & y & E). rewrite E in Hr.
  eexists. exact Hr.
Qed.

Lemma ensure_view_ok s : nav_ok (ensure_visible s) → view_ok (ensure_visible s).
Proof.
  intros Hn. split; [done|]. intros Hr. apply ensure_visible_shown.
  destruct (ensure_visible_form s) as [x E]. rewrite E in Hr. exact Hr.
Qed.

Lemma page_view_ok down k s : view_ok s → view_ok (page_move down k s).
Proof.
  intros Hs. unfold page_move. destruct (display_rows s) as [|d ds]; [done|].
  destruct (active_row_display_span s) as [a b]. cbv zeta.
  destruct (_ !! _); [apply move_to_view_ok, Hs|done].
Qed.

Lemma key_effect_view_ok l s s' :
  key_effect l s s' → l ≠ ET_Layout → view_ok s → view_ok s'.
Proof.
  intros H Hl Hs. pose proof (key_effect_open _ _ _ H (proj1 Hs)) as Hn. destruct H; try exact Hs.
  - apply repeat_view_ok. exact Hs.
  - by apply page_view_ok.
  - apply move_to_view_ok. exact (proj1 Hs).
  - apply move_to_view_ok. exact (proj1 Hs).
  - unfold jump_to_next_hunk. cbv zeta. destruct (List.find _ _); [apply move_to_view_ok, Hs|].
    destruct (last _); [apply move_to_view_ok, Hs|done].
  - unfold jump_to_prev_hunk. cbv zeta. destruct (List.find _ _); [apply move_to_view_ok, Hs|].
    destruct (head _); [apply move_to_view_ok, Hs|done].
  - split; [done|]. exact (proj2 Hs).
  - split; [done|]. exact (proj2 Hs).
  - unfold yank. destruct (selected_rows s) as [[lo hi]|]; exact Hs.
  - split; [done|]. unfold yank. destruct (selected_rows s) as [[lo hi]|]; exact (proj2 Hs).
  - by apply ensure_view_ok.
  - unfold toggle_display in *. destruct (dv_has_full_file s); [|done]. by apply ensure_view_ok.
  - done.
Qed.

(** After every key but Ctrl+T some of the active row is on the screen, and
    all of it if it fits, wherever wrapped lines, folds and annotations push it,
    provided it was so before. *)
Theorem active_row_stays_in_view m code s r s' :
  handle_events m code s = Ret (r, s') → is_ctrl_t m code = false →
  nav_ok s → (reachable_row s (dv_active_row s) → active_shown s) →
  reachable_row s' (dv_active_row s') → active_shown s'.
Proof.
  intros H Hc Hn Hs. apply handle_events_effect in H as (p & l & He & Ht).
  apply (key_effect_view_ok _ _ _ He); [|by split].
  intros ->. cbn in Ht. congruence.
Qed.

(** ** Steps *)

Lemma skip_down fuel s row :
  row < length (dv_rows s) → length (dv_rows s) - row ≤ fuel →
  let r := skip_folded fuel s true row in
  row ≤ r < length (dv_rows s) ∧ (∀ j, row ≤ j < r → is_folded s j = true) ∧
  (is_folded s r = true → r = length (dv_rows s) - 1).
Proof.
  revert row. induction fuel as [|fuel IH]; intros row Hr Hf; [lia|]. cbn [skip_folded].
  destruct (is_folded s row) eqn:E; [|split_and!; [lia|lia|lia|congruence]]. cbv zeta. cbn [next_row].
  destruct (Nat.eqb_spec (Nat.min (row + 1) (length (dv_rows s) - 1)) row) as [Hlast|Hne];
    [split_and!; lia|].
  rewrite Nat.min_l by lia. destruct (IH (row + 1)) as (H1 & H2 & H3); [lia..|].
  split_and!; [lia|lia| |done]. intros j Hj. destruct (decide (j = row)) as [->|]; [done|].
  apply H2. lia.
Qed.

Lemma skip_up fuel s row :
  row < fuel →
  let r := skip_folded fuel s false row in
  r ≤ row ∧ (∀ j, r < j ≤ row → is_folded s j = true) ∧ (is_folded s r = true → r = 0).
Proof.
  revert row. induction fuel as [|fuel IH]; intros row Hf; [lia|]. cbn [skip_folded].
  destruct (is_folded s row) eqn:E; [|split_and!; [lia|lia|congruence]]. cbv zeta. cbn [next_row].
  destruct (Nat.eqb_spec (row - 1) row) as [Hlast|Hne]; [split_and!; lia|].
  destruct (IH (row - 1)) as (H1 & H2 & H3); [lia|].
  split_and!; [lia| |done]. intros j Hj. destruct (decide (j = row)) as [->|]; [done|].
  apply H2. lia.
Qed.

(** The target of a step down is the next open row, or the row itself. *)
Lemma step_target_down s :
  let a := dv_active_row s in let t := step_target true s in
  reachable_row s a →
  a ≤ t < length (dv_rows s) ∧ is_folded s t = false ∧
  (∀ j, a < j < t → is_folded s j = true) ∧
  (t = a → ∀ j, a < j < length (dv_rows s) → is_folded s j = true).
Proof.
  cbv zeta. intros [Hlt Hopen]. unfold step_target. cbv zeta. cbn [next_row].
  set (a := dv_active_row s) in *.
  destruct (skip_down (length (dv_rows s)) s (Nat.min (a + 1) (length (dv_rows s) - 1))) as (H1 & H2 & H3); [lia..|].
  set (r := skip_folded _ _ _ _) in *. destruct (is_folded s r) eqn:Er; cycle 1.
  { split_and!; [lia|lia|done| |].
    - intros j Hj. apply H2. lia.
    - intros Hra j Hj. lia. }
  specialize (H3 eq_refl).
  destruct (nearest_unfolded_spec s r) as (N1 & _ & N3 & N4 & N5); [lia|].
  assert (is_folded s (nearest_unfolded s r) = false) as Hn by (apply N3; by exists a).
  assert (nearest_unfolded s r ≠ r) by congruence.
  assert (nearest_unfolded s r < r) as Hnr by lia. specialize (N5 Er Hnr).
  assert (r ≠ a) by congruence.
  assert (nearest_unfolded s r = a) as Hna.
  { destruct (lt_eq_lt_dec (nearest_unfolded s r) a) as [[Hlt'|?]|Hgt]; [|done|].
    - rewrite N5 in Hopen by lia. done.
    - rewrite H2 in Hn by lia. done. }
  rewrite Hna. split_and!; [lia|lia|done|lia|]. intros _ j Hj.
  destruct (decide (j = r)) as [->|]; [done|]. apply H2. lia.
Qed.

Lemma step_target_up s :
  let a := dv_active_row s in let t := step_target false s in
  reachable_row s a →
  t ≤ a ∧ is_folded s t = false ∧ (∀ j, t < j < a → is_folded s j = true) ∧
  (t = a → ∀ j, j < a → is_folded s j = true).
Proof.
  cbv zeta. intros [Hlt Hopen]. unfold step_target. cbv zeta. cbn [next_row].
  set (a := dv_active_row s) in *.
  destruct (skip_up (length (dv_rows s)) s (a - 1)) as (H1 & H2 & H3); [lia|].
  set (r := skip_folded _ _ _ _) in *. destruct (is_folded s r) eqn:Er; cycle 1.
  { split_and!; [lia|done| |].
    - intros j Hj. apply H2. lia.
    - intros Hra j Hj. lia. }
  specialize (H3 eq_refl).
  destruct (nearest_unfolded_spec s r) as (N1 & _ & N3 & N4 & N5); [lia|].
  assert (is_folded s (nearest_unfolded s r) = false) as Hn by (apply N3; by exists a).
  assert (r ≠ a) by congruence.
  assert (nearest_unfolded s r = a) as Hna.
  { destruct (lt_eq_lt_dec (nearest_unfolded s r) a) as [[Hlt'|?]|Hgt]; [|done|].
    - destruct (decide (nearest_unfolded s r = r)) as [E|]; [congruence|].
      rewrite H2 in Hn by lia. done.
    - rewrite N4 in Hopen by lia. done. }
  rewrite Hna. split_and!; [lia|done|lia|]. intros _ j Hj.
  destruct (decide (j = r)) as [->|]; [done|]. apply H2. lia.
Qed.

(** Where the whole active row is on the screen, [j] and [k] move to the
    neighbouring row that no fold covers, skipping exactly the folded ones
    between; only where there is none the active row stays. *)
Theorem steps_reach_the_neighbour down s :
  let a := dv_active_row s in
  let t := dv_active_row (step_display_or_logical down s) in
  reachable_row s a → (∀ i, draws_active s i → in_window s i) →
  reachable_row s t ∧
  (if down then a ≤ t ∧ ∀ j, a < j < t → is_folded s j = true
   else t ≤ a ∧ ∀ j, t < j < a → is_folded s j = true) ∧
  (t = a → ∀ j, (if down then a < j < length (dv_rows s) else j < a) → is_folded s j = true).
Proof.
  cbv zeta. intros Hr Hw. destruct (active_block s Hr) as (a & n & Hn & Hspan & Hd).
  pose proof (Hw a (proj2 (Hd a) ltac:(lia))) as W1.
  pose proof (Hw (a + n - 1) (proj2 (Hd (a + n - 1)) ltac:(lia))) as W2. unfold in_window in *.
  assert (dv_active_row (step_display_or_logical down s) = step_target down s) as ->.
  { pose proof Hr as [Hlt Hopen]. unfold step_display_or_logical.
    destruct (Nat.eqb_spec (length (dv_rows s)) 0); [lia|]. rewrite Hspan. cbv zeta.
    fold (window_height s). rewrite (proj2 (Nat.leb_gt _ _)), (proj2 (Nat.ltb_ge _ _)) by lia.
    rewrite !andb_false_r. fold (step_target down s). rewrite ensure_visible_active, clamp_id; [done|].
    apply (step_target_open down s). lia. }
  destruct down.
  - destruct (step_target_down s Hr) as (H1 & H2 & H3 & H4). 
    split; [split; [lia|done]|split; [split; [lia|done]|]]. intros E j Hj. by apply H4.
  - destruct (step_target_up s Hr) as (H1 & H2 & H3 & H4). pose proof Hr as [Hlt _].
    split; [split; [lia|done]|split; [split; [lia|done]|]]. intros E j Hj. by apply H4.
Qed.

(** ** Built states *)

(** A cursor at the top is sound if the first row is open. *)
Lemma fresh_view_ok s :
  dv_active_row s = 0 → dv_scroll_offset s = 0 → dv_mode s = DM_Normal → dv_anchor s = None →
  (has_open_row s → is_folded s 0 = false) → view_ok s.
Proof.
  intros Ha Hsc Hm Hanc Hopen. split.
  - split; [split; rewrite Ha; [lia|done]|]. by rewrite Hm.
  - intros Hr. destruct (active_block s Hr) as (a & n & Hn & _ & Hd).
    apply (active_shown_block s a n Hn Hd). rewrite Hsc.
    assert (1 ≤ window_height s) by (unfold window_height; lia).
    destruct (lookup_lt_is_Some_2 _ _ (proj1 Hr)) as [row Hrow].
    assert (draws_active s 0) as H0%Hd; [|lia].
    destruct (row_display_parts_spec s row) as [Hne Hparts].
    unfold draws_active, display_rows. cbv zeta. rewrite Ha in *. pose proof (proj2 Hr) as Hf.
    destruct (dv_rows s) as [|r0 rows]; [done|]. injection Hrow as ->.
    rewrite imap_cons. cbn [concat]. unfold row_display at 1. rewrite Hf.
    destruct (row_display_parts s row) as [|p ps]; [done|]. apply Forall_cons in Hparts as [Hp _].
    cbn. eauto.
Qed.

(** Built from a diff alone, everything holds from the start. *)
Lemma set_diff_view_ok text s0 s : set_diff text s0 = Ret s → view_ok s ∧ dv_pending_count s = None.
Proof.
  unfold set_diff. destruct (parse text) as [rows|]; [|done]. cbn [mbind outcome_bind].
  intros [= <-]. split; [|done]. by apply fresh_view_ok.
Qed.

(** Built with the file, if the first row is of the diff. *)
Lemma set_diff_and_file_view_ok diff file s0 s :
  set_diff_and_file diff file s0 = Ret s → (has_open_row s → is_folded s 0 = false) →
  view_ok s ∧ dv_pending_count s = None.
Proof.
  unfold set_diff_and_file. destruct (parse_full_file diff file) as [[rows folds]|]; [|done].
  cbn [mbind outcome_bind]. intros [= <-] Hopen. split; [|done]. by apply fresh_view_ok.
Qed.

(** C34: The widget is read-only and its cursor is sound. On a diff alone it starts
    in order, on a diff with its file exactly if the first row is in no fold,
    which a first hunk past line 1 with no header before it violates
    ([first_row_may_be_folded]). Through any keys, drawings and new annotations
    from a state in order the rows and folds stay those of the diff, the active
    row is one of its rows, and in visual mode so is the anchor, which there is
    none of otherwise; while a row is shown, neither is inside a fold. Nothing
    panics as long as no more than 19 digits of a count are typed. *)
Theorem cursor_stays_on_open_rows :
  (∀ diff s0 s, set_diff diff s0 = Ret s → nav_ok s ∧ dv_pending_count s = None) ∧
  (∀ diff file s0 s, set_diff_and_file diff file s0 = Ret s →
     dv_pending_count s = None ∧ (nav_ok s ↔ (has_open_row s → is_folded s 0 = false))) ∧
  ∀ es s, nav_ok s → dv_pending_count s = None → (digits es <= 19)%Z →
    ∃ s', view_run es s = Ret s' ∧ nav_ok s' ∧ document s' = document s.
Proof.
  split; [|split; [|exact view_run_in_order]].
  - intros diff s0 s H. by destruct (set_diff_view_ok diff s0 s H) as [[? _] ?].
  - intros diff file s0 s H. pose proof (set_diff_and_file_view_ok diff file s0 s H) as Hv.
    unfold set_diff_and_file in H. destruct (parse_full_file diff file) as [[rows folds]|]; [|done].
    injection H as <-. split; [done|]. split; [|intros Ho; apply (Hv Ho)]. by intros [[_ Ho] _].
Qed.

(** ** Examples *)

Local Open Scope string_scope.
Local Open Scope list_scope.
Local Open Scope Z_scope.
Local Open Scope nat_scope.

(** A fresh widget as the builder makes it. *)
Definition fresh_view : DiffViewState :=
  mkDiffViewState [] 0 None DM_Normal None None None 0 0 DL_Split S_Old 1 1 1 1 1 false
    DD_HunkOnly [] false [] true [] false.

Definition sample_view : DiffViewState :=
  match set_diff_and_file sample_diff sample_file fresh_view with Ret s => s | Panic => fresh_view end.

Lemma sample_view_ok : view_ok sample_view.
Proof.
  apply (set_diff_and_file_view_ok sample_diff sample_file fresh_view);
    [vm_compute; reflexivity|]. intros _. vm_compute. reflexivity.
Qed.

Definition key (c : Z) : ViewEvent := VE_Key M_NONE (KC_Char c).

Lemma cursor_stays_on_open_rows_witness :
  let es := [VE_Render 3 20 20 40 []; key 51; key 106; key 118; key 106; VE_Key M_CONTROL (KC_Char 102)] in
  nav_ok sample_view ∧
  ∃ s', view_run es sample_view = Ret s' ∧ nav_ok s' ∧ document s' = document sample_view.
Proof.
  pose proof (proj1 sample_view_ok) as H. split; [exact H|].
  apply (proj2 (proj2 cursor_stays_on_open_rows)); [exact H|vm_compute; reflexivity|vm_compute; done].
Defined.

Lemma active_row_stays_in_view_witness :
  ∃ s', handle_events M_NONE (KC_Char 106) sample_view = Ret (ER_Consumed, s') ∧
    reachable_row s' (dv_active_row s') ∧ active_shown s'.
Proof.
  destruct sample_view_ok as [Hn Hs].
  eexists. split; [vm_compute; reflexivity|].
  match goal with |- reachable_row ?s ?r ∧ _ => assert (reachable_row s r) as Hr end.
  { split; [vm_compute; lia|vm_compute; reflexivity]. }
  split; [exact Hr|].
  apply (active_row_stays_in_view M_NONE (KC_Char 106) sample_view ER_Consumed);
    [vm_compute; reflexivity|reflexivity|exact Hn|exact Hs|exact Hr].
Defined.

Lemma steps_reach_the_neighbour_witness :
  let s := with_active_row 1 (with_visible_height 3 sample_view) in
  dv_active_row (step_display_or_logical true s) = 3 ∧
  reachable_row s 1 ∧ is_folded s 2 = true.
Proof.
  set (s := with_active_row 1 (with_visible_height 3 sample_view)).
  assert (reachable_row s 1) as Hr by (split; [vm_compute; lia|vm_compute; reflexivity]).
  split; [vm_compute; reflexivity|]. split; [exact Hr|].
  refine (proj2 (proj1 (proj2 (steps_reach_the_neighbour true s Hr _))) 2 _).
  - intros i (d & Hi & Hd & _).
    assert ((dr_logical <$> display_rows s) !! i = Some 1) as Hl by (by rewrite list_lookup_fmap, Hi; cbn; rewrite Hd).
    assert (dr_logical <$> display_rows s = [0; 1; 3; 4; 5; 6; 7]) as E by (vm_compute; reflexivity).
    rewrite E in Hl. clear -Hl. assert (i = 1) as ->.
    { do 7 (destruct i as [|i]; [cbn in Hl; congruence|]). discriminate. }
    split; apply Nat.leb_le; vm_compute; reflexivity.
  - vm_compute. lia.
Defined.

(** With a hunk that does not start at the first line and no header lines before
    it, the row the widget starts on is inside a fold: it is the selected row
    and can be yanked, but is not drawn. *)
Lemma first_row_may_be_folded :
  ∃ s s', set_diff_and_file (text_of ["@@ -2,1 +2,1 @@"; "-b"; "+B"]) (text_of ["a"; "B"; "c"])
            fresh_view = Ret s ∧
    is_folded s 0 = true ∧ selected_rows s = Some (0, 0) ∧
    Forall (λ d, dr_logical d ≠ 0) (display_rows s) ∧
    view_run [key 121; key 121] s = Ret s' ∧ dv_register s' = Some (bytes_of "a").
Proof.
  eexists _, _. split; [vm_compute; reflexivity|]. split; [reflexivity|]. split; [reflexivity|].
  split; [vm_compute; repeat constructor; done|]. split; vm_compute; reflexivity.
Qed.

(** Ctrl+T does not settle the scroll: three changed lines, the second active on
    a screen of three rows, take it out of view. *)
Lemma layout_toggle_hides_active_row :
  ∃ s0 s s', set_diff (text_of ["@@ -1,3 +1,3 @@"; "-a"; "-b"; "-c"; "+A"; "+B"; "+C"]) fresh_view
             = Ret s0 ∧
    view_run [VE_Render 3 20 20 40 []; key 106; key 106] s0 = Ret s ∧
    active_row_display_span s = (2, 2) ∧ dv_scroll_offset s = 0 ∧ dv_visible_height s = 3 ∧
    view_step (VE_Key M_CONTROL (KC_Char 116)) s = Ret s' ∧
    active_row_display_span s' = (3, 4) ∧ dv_scroll_offset s' = 0.
Proof. eexists _, _, _. repeat (split; [vm_compute; reflexivity|]). vm_compute; reflexivity. Qed.

(** A zero is no digit of a count: [10j] moves one row. *)
Lemma zero_is_no_digit :
  ∃ s s', set_diff sample_diff fresh_view = Ret s ∧
    view_run [key 49; key 48; key 106] s = Ret s' ∧ dv_active_row s' = 1.
Proof. eexists _, _. split; [vm_compute; reflexivity|]. split; vm_compute; reflexivity. Qed.
