(* ===== verification/JsonFormat.v ===== *)
(** * The JSON formatter

    [ferrowl-syntax/src/format/json.rs], which reformats the JSON of an editor
    field, or leaves it alone when it is not JSON. A text is its characters,
    by code point; the parser's position is the list of the characters from
    there on. Which characters are letters or digits is a parameter, the
    standard library's Unicode table. *)

From stdpp Require Import base numbers list.
From S2P Require Import Prelude IntText.

Local Open Scope Z_scope.

(** The characters the source names. *)
Definition lf : Z := 10.
Definition space : Z := 32.
Definition quote : Z := 34.
Definition plus : Z := 43.
Definition comma : Z := 44.
Definition minus : Z := 45.
Definition dot : Z := 46.
Definition colon : Z := 58.
Definition lbracket : Z := 91.
Definition backslash : Z := 92.
Definition rbracket : Z := 93.
Definition underscore : Z := 95.
Definition lbrace : Z := 123.
Definition rbrace : Z := 125.

(** [char::is_whitespace]: the Unicode property [White_Space]. *)
Definition is_whitespace (c : Z) : bool :=
  existsb (Z.eqb c)
    ([9; 10; 11; 12; 13; 32; 133; 160; 5760; 8192; 8193; 8194; 8195; 8196; 8197; 8198; 8199;
      8200; 8201; 8202; 8232; 8233; 8239; 8287; 12288]).

(** [char::is_ascii_digit], [is_ascii_hexdigit] *)
Definition is_ascii_digit (c : Z) : bool := (48 <=? c) && (c <=? 57).
Definition is_ascii_hexdigit (c : Z) : bool :=
  is_ascii_digit c || (65 <=? c) && (c <=? 70) || (97 <=? c) && (c <=? 102).

#[global] Arguments is_whitespace : simpl never.
#[global] Arguments is_ascii_digit : simpl never.
#[global] Arguments is_ascii_hexdigit : simpl never.

Definition word_true : list Z := [116; 114; 117; 101].
Definition word_false : list Z := [102; 97; 108; 115; 101].
Definition word_null : list Z := [110; 117; 108; 108].

Inductive Value :=
| Object (entries : list (list Z * Value))
| Array (items : list Value)
| Scalar (raw : list Z).

Fixpoint skip_ws (cs : list Z) : list Z :=
  match cs with
  | c :: cs' => if is_whitespace c then skip_ws cs' else cs
  | [] => []
  end.

(** [while peek is a digit: pos += 1] *)
Fixpoint take_digits (cs : list Z) : list Z * list Z :=
  match cs with
  | c :: cs' => if is_ascii_digit c then let '(ds, r) := take_digits cs' in (c :: ds, r) else ([], cs)
  | [] => ([], [])
  end.

(** The integer part of a number, without its sign. *)
Definition int_part (cs : list Z) : option (list Z * list Z) :=
  match cs with
  | c :: cs' =>
      if c =? 48 then Some ([c], cs')
      else if is_ascii_digit c then let '(ds, r) := take_digits cs' in Some (c :: ds, r)
      else None
  | [] => None
  end.

(** At least one digit. *)
Definition some_digits (cs : list Z) : option (list Z * list Z) :=
  match take_digits cs with ([], _) => None | x => Some x end.

Definition fraction (cs : list Z) : option (list Z * list Z) :=
  match cs with
  | c :: cs' => if c =? dot then '(ds, r) ← some_digits cs'; Some (c :: ds, r) else Some ([], cs)
  | [] => Some ([], [])
  end.

Definition exponent (cs : list Z) : option (list Z * list Z) :=
  match cs with
  | c :: cs' =>
      if (c =? 101) || (c =? 69) then
        let '(sign, r) :=
          match cs' with
          | s :: r => if (s =? plus) || (s =? minus) then ([s], r) else ([], cs')
          | [] => ([], [])
          end in
        '(ds, r) ← some_digits r; Some (c :: sign ++ ds, r)
      else Some ([], cs)
  | [] => Some ([], [])
  end.

(** [parse_number_raw]: the token and what is left. *)
Definition parse_number_raw (cs : list Z) : option (list Z * list Z) :=
  let '(sign, r) :=
    match cs with
    | c :: cs' => if c =? minus then ([c], cs') else ([], cs)
    | [] => ([], [])
    end in
  '(int, r) ← int_part r;
  '(frac, r) ← fraction r;
  '(exp, r) ← exponent r;
  Some (sign ++ int ++ frac ++ exp, r).

(** The escapes of one character: the quote, the backslash, the slash and
    [b], [f], [n], [r], [t]. *)
Definition is_escape (e : Z) : bool :=
  existsb (Z.eqb e) [34; 92; 47; 98; 102; 110; 114; 116].

#[global] Arguments is_escape : simpl never.

Definition push_front (l : list Z) (o : option (list Z * list Z)) : option (list Z * list Z) :=
  '(raw, r) ← o; Some (l ++ raw, r).

(** The loop of [parse_string_raw], up to and with the closing quote. *)
Fixpoint string_rest (cs : list Z) : option (list Z * list Z) :=
  match cs with
  | [] => None
  | c :: cs' =>
      if c =? quote then Some ([c], cs')
      else if c =? backslash then
        match cs' with
        | [] => None
        | e :: r =>
            if is_escape e then push_front [c; e] (string_rest r)
            else if e =? 117 then
              match r with
              | h1 :: h2 :: h3 :: h4 :: r' =>
                  if forallb is_ascii_hexdigit [h1; h2; h3; h4]
                  then push_front [c; e; h1; h2; h3; h4] (string_rest r')
                  else None
              | _ => None
              end
            else None
        end
      else if c <? 32 then None
      else push_front [c] (string_rest cs')
  end.

Definition parse_string_raw (cs : list Z) : option (list Z * list Z) :=
  match cs with
  | c :: cs' => if c =? quote then push_front [c] (string_rest cs') else None
  | [] => None
  end.

(** ** Printing *)

(** The two spaces of each level. *)
Definition indent (depth : nat) : list Z := concat (replicate depth [space; space]).

(** The lines of a container: each indented, a comma after all but the last. *)
Definition print_lines {A} (item : A → list Z) (depth : nat) : list A → list Z :=
  fix go l :=
    match l with
    | [] => []
    | x :: l' =>
        indent (depth + 1) ++ item x ++ (match l' with [] => [] | _ => [comma] end) ++ [lf] ++ go l'
    end.

Fixpoint print_value (v : Value) (depth : nat) : list Z :=
  match v with
  | Scalar s => s
  | Array [] => [lbracket; rbracket]
  | Array items =>
      [lbracket; lf] ++ print_lines (λ item, print_value item (depth + 1)) depth items ++
      indent depth ++ [rbracket]
  | Object [] => [lbrace; rbrace]
  | Object entries =>
      [lbrace; lf] ++
      print_lines (λ e, e.1 ++ [colon; space] ++ print_value e.2 (depth + 1)) depth entries ++
      indent depth ++ [rbrace]
  end.

(** ** Parsing *)

Section parser.
Context (is_alphanumeric : Z → bool).

Definition parse_keyword (word cs : list Z) : option (list Z * list Z) :=
  match strip_prefix word cs with
  | None => None
  | Some r =>
      match r with
      | c :: _ => if is_alphanumeric c || (c =? underscore) then None else Some (word, r)
      | [] => Some (word, r)
      end
  end.

Definition scalar (o : option (list Z * list Z)) : option (Value * list Z) :=
  '(raw, r) ← o; Some (Scalar raw, r).

(** The values that are not containers. *)
Definition parse_scalar (cs : list Z) : option (Value * list Z) :=
  match cs with
  | [] => None
  | c :: _ =>
      if c =? quote then scalar (parse_string_raw cs)
      else if (c =? minus) || is_ascii_digit c then scalar (parse_number_raw cs)
      else if c =? 116 then scalar (parse_keyword word_true cs)
      else if c =? 102 then scalar (parse_keyword word_false cs)
      else if c =? 110 then scalar (parse_keyword word_null cs)
      else None
  end.

(** [parse_value], with [parse_object] and [parse_array] up to their loops,
    and the loops: the values read and what is left after the bracket. *)
Fixpoint parse_value (fuel : nat) (cs : list Z) : option (Value * list Z) :=
  match fuel, cs with
  | O, _ | _, [] => None
  | S fuel', c :: cs' =>
      if c =? lbrace then
        match skip_ws cs' with
        | c1 :: r =>
            if c1 =? rbrace then Some (Object [], r)
            else '(entries, r) ← parse_entries fuel' (c1 :: r); Some (Object entries, r)
        | [] => None
        end
      else if c =? lbracket then
        match skip_ws cs' with
        | c1 :: r =>
            if c1 =? rbracket then Some (Array [], r)
            else '(items, r) ← parse_items fuel' (c1 :: r); Some (Array items, r)
        | [] => None
        end
      else parse_scalar cs
  end
with parse_items (fuel : nat) (cs : list Z) : option (list Value * list Z) :=
  match fuel with
  | O => None
  | S fuel' =>
      '(value, r) ← parse_value fuel' (skip_ws cs);
      match skip_ws r with
      | c :: r =>
          if c =? comma then '(items, r) ← parse_items fuel' r; Some (value :: items, r)
          else if c =? rbracket then Some ([value], r)
          else None
      | [] => None
      end
  end
with parse_entries (fuel : nat) (cs : list Z) : option (list (list Z * Value) * list Z) :=
  match fuel with
  | O => None
  | S fuel' =>
      '(key, r) ← parse_string_raw (skip_ws cs);
      match skip_ws r with
      | c :: r =>
          if c =? colon then
            '(value, r) ← parse_value fuel' (skip_ws r);
            match skip_ws r with
            | c :: r =>
                if c =? comma then
                  '(entries, r) ← parse_entries fuel' r; Some ((key, value) :: entries, r)
                else if c =? rbrace then Some ([(key, value)], r)
                else None
            | [] => None
            end
          else None
      | [] => None
      end
  end.

(** Two units for every character are enough: [format_accepts_grammar]. *)
Definition parse (source : list Z) : option Value :=
  '(value, r) ← parse_value (2 * length source + 1) (skip_ws source);
  match skip_ws r with [] => Some value | _ => None end.

Definition format (source : list Z) : option (list Z) :=
  value ← parse source; Some (print_value value 0).
End parser.

(** ** The grammar *)

Definition blank (w : list Z) : Prop := Forall (λ c, is_whitespace c = true) w.

(** The rest of a string after its opening quote. *)
Inductive string_tail : list Z → Prop :=
| tail_close : string_tail [quote]
| tail_escape e t : is_escape e = true → string_tail t → string_tail (backslash :: e :: t)
| tail_unicode h1 h2 h3 h4 t :
    Forall (λ h, is_ascii_hexdigit h = true) [h1; h2; h3; h4] → string_tail t →
    string_tail (backslash :: 117 :: h1 :: h2 :: h3 :: h4 :: t)
| tail_char c t : c ≠ quote → c ≠ backslash → 32 <= c → string_tail t → string_tail (c :: t).

Definition string_token (t : list Z) : Prop := ∃ s, t = quote :: s ∧ string_tail s.

Definition digits (ds : list Z) : Prop := Forall (λ c, is_ascii_digit c = true) ds.

(** A number: no leading zeros, a fraction and an exponent have digits. *)
Definition number_token (t : list Z) : Prop :=
  ∃ sign int frac exp, t = sign ++ int ++ frac ++ exp ∧
    (sign = [] ∨ sign = [minus]) ∧
    (int = [48] ∨ ∃ d ds, int = d :: ds ∧ d ≠ 48 ∧ digits int) ∧
    (frac = [] ∨ ∃ ds, frac = dot :: ds ∧ ds ≠ [] ∧ digits ds) ∧
    (exp = [] ∨ ∃ e s ds, exp = e :: s ++ ds ∧ (e = 101 ∨ e = 69) ∧
      (s = [] ∨ s = [plus] ∨ s = [minus]) ∧ ds ≠ [] ∧ digits ds).

Definition scalar_token (t : list Z) : Prop :=
  string_token t ∨ number_token t ∨ t = word_true ∨ t = word_false ∨ t = word_null.

Inductive json_value : list Z → Value → Prop :=
| json_scalar t : scalar_token t → json_value t (Scalar t)
| json_empty_array w : blank w → json_value (lbracket :: w ++ [rbracket]) (Array [])
| json_array p vs : json_items p vs → json_value (lbracket :: p ++ [rbracket]) (Array vs)
| json_empty_object w : blank w → json_value (lbrace :: w ++ [rbrace]) (Object [])
| json_object p es : json_entries p es → json_value (lbrace :: p ++ [rbrace]) (Object es)
with json_items : list Z → list Value → Prop :=
| json_item w1 p v w2 :
    blank w1 → json_value p v → blank w2 → json_items (w1 ++ p ++ w2) [v]
| json_item_more w1 p v w2 q vs :
    blank w1 → json_value p v → blank w2 → json_items q vs →
    json_items (w1 ++ p ++ w2 ++ comma :: q) (v :: vs)
with json_entries : list Z → list (list Z * Value) → Prop :=
| json_entry w1 k w2 w3 p v w4 :
    blank w1 → string_token k → blank w2 → blank w3 → json_value p v → blank w4 →
    json_entries (w1 ++ k ++ w2 ++ colon :: w3 ++ p ++ w4) [(k, v)]
| json_entry_more w1 k w2 w3 p v w4 q es :
    blank w1 → string_token k → blank w2 → blank w3 → json_value p v → blank w4 →
    json_entries q es →
    json_entries (w1 ++ k ++ w2 ++ colon :: w3 ++ p ++ w4 ++ comma :: q) ((k, v) :: es).

Scheme json_value_mut := Induction for json_value Sort Prop
with json_items_mut := Induction for json_items Sort Prop
with json_entries_mut := Induction for json_entries Sort Prop.
Combined Scheme json_mut from json_value_mut, json_items_mut, json_entries_mut.

(** A JSON text: a value among white space. *)
Definition json_text (source : list Z) (v : Value) : Prop :=
  ∃ w1 p w2, source = w1 ++ p ++ w2 ∧ blank w1 ∧ json_value p v ∧ blank w2.

(** ** A text without the white space between its tokens *)

Inductive ScanMode := Outside | Inside | Escaped.

Fixpoint squeeze (mode : ScanMode) (cs : list Z) : list Z :=
  match cs with
  | [] => []
  | c :: cs' =>
      match mode with
      | Outside =>
          if is_whitespace c then squeeze Outside cs'
          else c :: squeeze (if c =? quote then Inside else Outside) cs'
      | Inside =>
          c :: squeeze (if c =? backslash then Escaped
                        else if c =? quote then Outside else Inside) cs'
      | Escaped => c :: squeeze Inside cs'
      end
  end.

(** The elements with commas between them. *)
Definition commas {A} (item : A → list Z) : list A → list Z :=
  fix go l :=
    match l with
    | [] => []
    | x :: l' => item x ++ match l' with [] => [] | _ => comma :: go l' end
    end.

(** A value on one line, without white space. *)
Fixpoint compact (v : Value) : list Z :=
  match v with
  | Scalar t => t
  | Array items => lbracket :: commas compact items ++ [rbracket]
  | Object entries => lbrace :: commas (λ e, e.1 ++ colon :: compact e.2) entries ++ [rbrace]
  end.

(** The characters that are letters or digits in ASCII. *)
Definition ascii_alphanumeric (c : Z) : bool :=
  is_ascii_digit c || (65 <=? c) && (c <=? 90) || (97 <=? c) && (c <=? 122).
