(* ===== verification/JsonFormatProps.v ===== *)
(** * What the JSON formatter accepts and keeps

    The parser accepts exactly the grammar, the printer writes what the parser
    reads back, and the two differ from the source in white space only. *)

From stdpp Require Import base numbers list.
From S2P Require Import Prelude IntText JsonFormat.

Local Open Scope Z_scope.

(** ** White space *)

Lemma is_whitespace_range c : is_whitespace c = true → 9 <= c <= 13 ∨ c = 32 ∨ 133 <= c.
Proof.
  unfold is_whitespace. intros (x & Hx & E)%existsb_exists. apply Z.eqb_eq in E as ->.
  cbn in Hx. lia.
Qed.

Lemma is_whitespace_false c : 33 <= c <= 126 → is_whitespace c = false.
Proof. intros Hc. apply not_true_is_false. intros H%is_whitespace_range. lia. Qed.

Lemma skip_ws_split cs : ∃ w, cs = w ++ skip_ws cs ∧ blank w.
Proof.
  induction cs as [|c cs (w & Hw & Hb)]; cbn; [exists []; split; [done|constructor]|].
  destruct (is_whitespace c) eqn:E; [|exists []; split; [done|constructor]].
  exists (c :: w). split; [cbn; by f_equal|by constructor].
Qed.

Lemma skip_ws_app w cs : blank w → skip_ws (w ++ cs) = skip_ws cs.
Proof. induction 1 as [|c w Hc _ IH]; cbn; [done|]. by rewrite Hc. Qed.

Lemma skip_ws_stop c cs : is_whitespace c = false → skip_ws (c :: cs) = c :: cs.
Proof. intros H. cbn. by rewrite H. Qed.

Lemma skip_ws_idemp cs : skip_ws (skip_ws cs) = skip_ws cs.
Proof. induction cs as [|c cs IH]; cbn; [done|]. destruct (is_whitespace c) eqn:E; [done|]. cbn. by rewrite E. Qed.

(** ** Tokens *)

Lemma take_digits_spec cs ds r :
  take_digits cs = (ds, r) → cs = ds ++ r ∧ digits ds.
Proof.
  revert ds r. induction cs as [|c cs IH]; cbn; intros ds r E; [inv_outcome; split; [done|constructor]|].
  destruct (is_ascii_digit c) eqn:Ec; [|inv_outcome; split; [done|constructor]].
  destruct (take_digits cs) as [ds' r'] eqn:Ed. inv_outcome.
  destruct (IH _ _ eq_refl) as [-> ?]. split; [done|by constructor].
Qed.

(** The characters a number could go on with. *)
Definition number_stops (r : list Z) : Prop :=
  match r with
  | [] => True
  | c :: _ => is_ascii_digit c = false ∧ c ≠ dot ∧ c ≠ 101 ∧ c ≠ 69
  end.

Definition no_digit (r : list Z) : Prop :=
  match r with [] => True | c :: _ => is_ascii_digit c = false end.

Lemma take_digits_app ds r : digits ds → no_digit r → take_digits (ds ++ r) = (ds, r).
Proof.
  intros Hd Hr. induction Hd as [|c ds Hc _ IH]; cbn.
  - destruct r as [|c r]; cbn; [done|]. cbn in Hr. by rewrite Hr.
  - by rewrite Hc, IH.
Qed.

Lemma some_digits_spec cs ds r :
  some_digits cs = Some (ds, r) → cs = ds ++ r ∧ ds ≠ [] ∧ digits ds.
Proof.
  unfold some_digits. destruct (take_digits cs) as [[|d ds'] r'] eqn:E; [done|].
  intros. inv_outcome. by apply take_digits_spec in E as [? ?].
Qed.

Lemma some_digits_app ds r : digits ds → ds ≠ [] → no_digit r → some_digits (ds ++ r) = Some (ds, r).
Proof. intros Hd Hn Hr. unfold some_digits. rewrite take_digits_app by done. by destruct ds. Qed.

Definition int_ok (int : list Z) : Prop := int = [48] ∨ ∃ d ds, int = d :: ds ∧ d ≠ 48 ∧ digits int.
Definition frac_ok (frac : list Z) : Prop :=
  frac = [] ∨ ∃ ds, frac = dot :: ds ∧ ds ≠ [] ∧ digits ds.
Definition exp_ok (exp : list Z) : Prop :=
  exp = [] ∨ ∃ e s ds, exp = e :: s ++ ds ∧ (e = 101 ∨ e = 69) ∧
    (s = [] ∨ s = [plus] ∨ s = [minus]) ∧ ds ≠ [] ∧ digits ds.

Lemma int_part_spec cs int r : int_part cs = Some (int, r) → cs = int ++ r ∧ int_ok int.
Proof.
  unfold int_part, int_ok. destruct cs as [|c cs]; [done|].
  destruct (Z.eqb_spec c 48) as [->|Hc]; [intros; inv_outcome; by split; [|left]|].
  destruct (is_ascii_digit c) eqn:Ec; [|done].
  destruct (take_digits cs) as [ds r'] eqn:E. intros. inv_outcome.
  apply take_digits_spec in E as [-> ?]. split; [done|right]. exists c, ds.
  split_and!; [done|done|by constructor].
Qed.

Lemma int_part_app int r : int_ok int → no_digit r → int_part (int ++ r) = Some (int, r).
Proof.
  intros [->|(d & ds & -> & Hd & H)] Hr; [done|]. apply Forall_cons in H as [Hd' Hds].
  cbn. destruct (Z.eqb_spec d 48); [done|]. by rewrite Hd', take_digits_app.
Qed.

Lemma fraction_spec cs frac r : fraction cs = Some (frac, r) → cs = frac ++ r ∧ frac_ok frac.
Proof.
  unfold fraction, frac_ok. destruct cs as [|c cs]; [intros; inv_outcome; by split; [|left]|].
  destruct (Z.eqb_spec c dot) as [->|Hc]; [|intros; inv_outcome; by split; [|left]].
  destruct (some_digits cs) as [[ds r']|] eqn:E; [|done]. cbn. intros. inv_outcome.
  apply some_digits_spec in E as (-> & ? & ?). split; [done|right; eauto].
Qed.

Lemma fraction_app frac r :
  frac_ok frac → no_digit r → head r ≠ Some dot → fraction (frac ++ r) = Some (frac, r).
Proof.
  intros [->|(ds & -> & Hn & Hd)] Hr Hdot; cbn.
  - destruct r as [|c r]; cbn; [done|]. destruct (Z.eqb_spec c dot); [by subst|done].
  - by rewrite some_digits_app.
Qed.

Lemma exponent_spec cs exp r : exponent cs = Some (exp, r) → cs = exp ++ r ∧ exp_ok exp.
Proof.
  unfold exponent, exp_ok. destruct cs as [|c cs]; [intros; inv_outcome; by split; [|left]|].
  destruct ((c =? 101) || (c =? 69)) eqn:Ee; [|intros; inv_outcome; by split; [|left]].
  assert (c = 101 ∨ c = 69) as Hc by (apply orb_prop in Ee as [?%Z.eqb_eq|?%Z.eqb_eq]; auto).
  set (sr := match cs with [] => _ | _ => _ end). intros E.
  assert (cs = sr.1 ++ sr.2 ∧ (sr.1 = [] ∨ sr.1 = [plus] ∨ sr.1 = [minus])) as [Hcs Hs].
  { subst sr. clear E. destruct cs as [|s cs]; cbn; [split; [done|by left]|].
    destruct (Z.eqb_spec s plus) as [Ep|], (Z.eqb_spec s minus) as [Em|]; cbn; subst; auto. }
  destruct sr as [s r']. cbn in *. destruct (some_digits r') as [[ds r'']|] eqn:Ed; [|done].
  cbn in E. inv_outcome. apply some_digits_spec in Ed as (-> & ? & ?).
  split; [cbn; by rewrite <- app_assoc|]. right. eauto 10.
Qed.

Lemma exponent_app exp r :
  exp_ok exp → number_stops r → exponent (exp ++ r) = Some (exp, r).
Proof.
  intros [->|(e & s & ds & -> & He & Hs & Hn & Hd)] Hr; cbn.
  - destruct r as [|c r]; cbn; [done|]. destruct Hr as (_ & _ & H1 & H2).
    by rewrite (proj2 (Z.eqb_neq _ _) H1), (proj2 (Z.eqb_neq _ _) H2).
  - assert (((e =? 101) || (e =? 69)) = true) as ->.
    { apply orb_true_iff. rewrite !Z.eqb_eq. done. }
    assert (no_digit r) by (destruct r; [done|apply Hr]).
    rewrite <- app_assoc. destruct Hs as [->|[->| ->]]; cbn;
      [|by rewrite some_digits_app..].
    destruct ds as [|d ds]; [done|]. cbn.
    assert (is_ascii_digit d = true) as Hd' by (by inversion Hd).
    unfold is_ascii_digit in Hd'. zbool. unfold plus, minus.
    destruct (Z.eqb_spec d 43), (Z.eqb_spec d 45); [lia..|]. cbn.
    change (d :: ds ++ r) with ((d :: ds) ++ r). by rewrite some_digits_app.
Qed.

Lemma int_ok_head int r : int_ok int → ∃ c t, int ++ r = c :: t ∧ is_ascii_digit c = true.
Proof.
  intros [->|(d & ds & -> & _ & H)]; [by exists 48, r|]. inversion H; subst. by exists d, (ds ++ r).
Qed.

Lemma parse_number_spec cs t r :
  parse_number_raw cs = Some (t, r) → cs = t ++ r ∧ number_token t.
Proof.
  unfold parse_number_raw. set (sr := match cs with [] => _ | _ => _ end). intros E.
  assert (cs = sr.1 ++ sr.2 ∧ (sr.1 = [] ∨ sr.1 = [minus])) as [Hcs Hs].
  { subst sr. clear E. destruct cs as [|c cs]; cbn; [split; [done|by left]|].
    destruct (Z.eqb_spec c minus) as [->|]; cbn; auto. }
  destruct sr as [sign r0]. cbn in *.
  destruct (int_part r0) as [[int r1]|] eqn:E1; [|done]. cbn in E.
  destruct (fraction r1) as [[frac r2]|] eqn:E2; [|done]. cbn in E.
  destruct (exponent r2) as [[exp r3]|] eqn:E3; [|done]. cbn in E. inv_outcome.
  apply int_part_spec in E1 as [-> H1]. apply fraction_spec in E2 as [-> H2].
  apply exponent_spec in E3 as [-> H3]. split; [by rewrite <- !app_assoc|].
  exists sign, int, frac, exp. done.
Qed.

Lemma frac_exp_stops frac exp r :
  frac_ok frac → exp_ok exp → number_stops r →
  no_digit (frac ++ exp ++ r) ∧ no_digit (exp ++ r) ∧ head (exp ++ r) ≠ Some dot.
Proof.
  intros Hf He Hr.
  assert (no_digit (exp ++ r) ∧ head (exp ++ r) ≠ Some dot) as [H1 H2].
  { destruct He as [->|(e & s & ds & -> & He & _)].
    - destruct r as [|c r]; cbn in *; [done|]. destruct Hr as (? & ? & _). split; [done|congruence].
    - destruct He as [->| ->]; done. }
  split_and!; [|done..]. destruct Hf as [->|(ds & -> & _)]; done.
Qed.

Lemma parse_number_app t r :
  number_token t → number_stops r → parse_number_raw (t ++ r) = Some (t, r).
Proof.
  intros (sign & int & frac & exp & -> & Hs & Hi & Hf & He) Hr.
  destruct (frac_exp_stops frac exp r Hf He Hr) as (H1 & H2 & H3).
  unfold parse_number_raw. rewrite <- !app_assoc.
  destruct (int_ok_head int (frac ++ exp ++ r) Hi) as (c & t & Hc & Hd).
  assert (match sign ++ int ++ frac ++ exp ++ r with
    | c :: cs' => if c =? minus then ([c], cs') else ([], sign ++ int ++ frac ++ exp ++ r)
    | [] => ([], [])
    end = (sign, int ++ frac ++ exp ++ r)) as ->.
  { destruct Hs as [->| ->]; [|done]. cbn. rewrite Hc.
    destruct (Z.eqb_spec c minus) as [->|]; [by cbv in Hd|done]. }
  cbn. rewrite int_part_app by done. cbn. rewrite fraction_app by done. cbn.
  by rewrite exponent_app by done.
Qed.

(** ** Strings *)

Lemma push_front_Some l o t r :
  push_front l o = Some (t, r) ↔ ∃ u, o = Some (u, r) ∧ t = l ++ u.
Proof.
  unfold push_front. destruct o as [[u r']|]; cbn; [|split; [done|by intros (? & ? & _)]].
  split; [intros; inv_outcome; eauto|]. by intros (u' & [= -> ->] & ->).
Qed.

Lemma string_rest_spec cs t r : string_rest cs = Some (t, r) → cs = t ++ r ∧ string_tail t.
Proof.
  remember (length cs) as n eqn:Hn. revert cs t r Hn.
  induction n as [n IH] using lt_wf_ind. intros cs t r Hn E.
  destruct cs as [|c cs]; [done|]. cbn in E, Hn.
  assert (∀ cs' u, string_rest cs' = Some (u, r) → (length cs' <= length cs)%nat →
    cs' = u ++ r ∧ string_tail u) as IH'.
  { intros cs' u Hu Hl. apply (IH (length cs')); [lia|done|done]. }
  destruct (Z.eqb_spec c quote) as [->|Hq]; [inv_outcome; split; [done|constructor]|].
  destruct (Z.eqb_spec c backslash) as [->|Hb].
  - destruct cs as [|e cs]; [done|]. destruct (is_escape e) eqn:Ee.
    + apply push_front_Some in E as (u & Hu & ->). apply IH' in Hu as [-> Hu]; [|cbn; lia].
      split; [done|by constructor].
    + destruct (Z.eqb_spec e 117) as [->|]; [|done].
      destruct cs as [|h1 [|h2 [|h3 [|h4 cs]]]]; try done.
      destruct (is_ascii_hexdigit h1 && _) eqn:Eh; [|done].
      apply push_front_Some in E as (u & Hu & ->). apply IH' in Hu as [-> Hu]; [|cbn; lia].
      split; [done|]. zbool. constructor; [by repeat constructor|done].
  - destruct (Z.ltb_spec c 32); [done|].
    apply push_front_Some in E as (u & Hu & ->). apply IH' in Hu as [-> Hu]; [|lia].
    split; [done|by constructor].
Qed.

Lemma string_rest_app t r : string_tail t → string_rest (t ++ r) = Some (t, r).
Proof.
  induction 1 as [|e t He _ IH|h1 h2 h3 h4 t Hh _ IH|c t Hq Hb Hc _ IH].
  - done.
  - cbn. by rewrite He, IH.
  - cbn. change (is_escape 117) with false. cbv iota.
    rewrite !Forall_cons in Hh. destruct Hh as (-> & -> & -> & -> & _). by rewrite IH.
  - cbn. rewrite (proj2 (Z.eqb_neq _ _) Hq), (proj2 (Z.eqb_neq _ _) Hb).
    rewrite (proj2 (Z.ltb_ge _ _) Hc). by rewrite IH.
Qed.

Lemma parse_string_spec cs t r : parse_string_raw cs = Some (t, r) → cs = t ++ r ∧ string_token t.
Proof.
  unfold parse_string_raw. destruct cs as [|c cs]; [done|].
  destruct (Z.eqb_spec c quote) as [->|]; [|done].
  intros (u & Hu & ->)%push_front_Some. apply string_rest_spec in Hu as [-> Hu].
  split; [done|]. by exists u.
Qed.

Lemma parse_string_app t r : string_token t → parse_string_raw (t ++ r) = Some (t, r).
Proof. intros (s & -> & Hs). cbn. by rewrite string_rest_app. Qed.

(** ** Scalars *)

(** What may follow a value. *)
Definition delimited (r : list Z) : Prop :=
  match r with
  | [] => True
  | c :: _ => is_whitespace c = true ∨ c = comma ∨ c = rbracket ∨ c = rbrace
  end.

Lemma delimited_stops r : delimited r → number_stops r.
Proof.
  destruct r as [|c r]; [done|]. cbn. unfold is_ascii_digit, dot, comma, rbracket, rbrace.
  intros H. assert (9 <= c <= 13 ∨ c = 32 ∨ 133 <= c ∨ c = 44 ∨ c = 93 ∨ c = 125) as Hc.
  { destruct H as [H%is_whitespace_range|H]; lia. }
  split_and!; [|lia..]. apply andb_false_iff. rewrite !Z.leb_gt. lia.
Qed.

Lemma delimited_blank w r : blank w → delimited r → delimited (w ++ r).
Proof. intros [|c w' Hc _] Hr; [done|by left]. Qed.

(** A scalar starts with its own character, which is neither white space nor
    a bracket. *)
Definition value_start (c : Z) : Prop :=
  is_whitespace c = false ∧ c ≠ rbracket ∧ c ≠ rbrace ∧ c ≠ comma.

Lemma digit_range d : is_ascii_digit d = true → 48 <= d <= 57.
Proof. unfold is_ascii_digit. intros. zbool. lia. Qed.

Lemma value_start_range c : 33 <= c <= 126 → c ≠ 93 → c ≠ 125 → c ≠ 44 → value_start c.
Proof. intros H1 H2 H3 H4. split_and!; [by apply is_whitespace_false|done..]. Qed.

Lemma number_start t :
  number_token t → ∃ c u, t = c :: u ∧ (c = minus ∨ is_ascii_digit c = true).
Proof.
  intros (sign & int & frac & exp & -> & Hs & Hi & _ & _).
  destruct (int_ok_head int (frac ++ exp) Hi) as (c & u & E & Hc). rewrite E.
  destruct Hs as [->| ->]; cbn; [by exists c, u; auto|]. exists minus, (c :: u). auto.
Qed.

Lemma scalar_start t : scalar_token t → ∃ c u, t = c :: u ∧ value_start c.
Proof.
  intros [(s & -> & _)|[H|[->|[->| ->]]]].
  - exists quote, s. split; [done|]. by apply value_start_range.
  - destruct (number_start t H) as (c & u & -> & Hc). exists c, u. split; [done|].
    destruct Hc as [->|Hc%digit_range]; apply value_start_range; unfold minus; lia.
  - eexists _, _. split; [done|]. by apply value_start_range.
  - eexists _, _. split; [done|]. by apply value_start_range.
  - eexists _, _. split; [done|]. by apply value_start_range.
Qed.

Section parser.
Context (is_alphanumeric : Z → bool).

Abbreviation parse_keyword := (parse_keyword is_alphanumeric).
Abbreviation parse_scalar := (parse_scalar is_alphanumeric).
Abbreviation parse_value := (parse_value is_alphanumeric).
Abbreviation parse_items := (parse_items is_alphanumeric).
Abbreviation parse_entries := (parse_entries is_alphanumeric).

Lemma parse_keyword_spec word cs t r :
  parse_keyword word cs = Some (t, r) → cs = word ++ r ∧ t = word.
Proof using Type.
  unfold JsonFormat.parse_keyword. destruct (strip_prefix word cs) as [r'|] eqn:E; [|done].
  apply strip_prefix_Some in E as ->.
  destruct r' as [|c r']; [intros; by inv_outcome|].
  destruct (_ || _); [done|]. intros. by inv_outcome.
Qed.

Lemma scalar_Some o v r : scalar o = Some (v, r) ↔ ∃ t, o = Some (t, r) ∧ v = Scalar t.
Proof using Type.
  unfold scalar. destruct o as [[t r']|]; cbn; [|split; [done|by intros (? & ? & _)]].
  split; [intros; inv_outcome; eauto|]. by intros (t' & [= -> ->] & ->).
Qed.

Lemma parse_scalar_spec cs v r :
  parse_scalar cs = Some (v, r) → ∃ t, v = Scalar t ∧ cs = t ++ r ∧ scalar_token t.
Proof using Type.
  unfold JsonFormat.parse_scalar. destruct cs as [|c cs]; [done|].
  repeat case_match; try done; intros (t & Ht & ->)%scalar_Some; exists t.
  - apply parse_string_spec in Ht as [-> ?]. split_and!; [done|done|by left].
  - apply parse_number_spec in Ht as [-> ?]. split_and!; [done|done|by right; left].
  - apply parse_keyword_spec in Ht as [-> ->]. split_and!; [done|done|right; right; auto].
  - apply parse_keyword_spec in Ht as [-> ->]. split_and!; [done|done|right; right; auto].
  - apply parse_keyword_spec in Ht as [-> ->]. split_and!; [done|done|right; right; auto].
Qed.

(** ** The parser reads the grammar *)

Lemma skip_ws_eq cs r : skip_ws cs = r → ∃ w, blank w ∧ cs = w ++ r.
Proof using Type. intros <-. destruct (skip_ws_split cs) as (w & ? & ?). eauto. Qed.

Definition value_sound (fuel : nat) : Prop := ∀ cs v r,
  parse_value fuel cs = Some (v, r) → ∃ p, cs = p ++ r ∧ json_value p v.
Definition items_sound (fuel : nat) : Prop := ∀ cs vs r,
  parse_items fuel cs = Some (vs, r) → ∃ p, cs = p ++ rbracket :: r ∧ json_items p vs.
Definition entries_sound (fuel : nat) : Prop := ∀ cs es r,
  parse_entries fuel cs = Some (es, r) → ∃ p, cs = p ++ rbrace :: r ∧ json_entries p es.

(** White space before the items belongs to them. *)
Lemma items_blank w p vs : blank w → json_items p vs → json_items (w ++ p) vs.
Proof using Type.
  intros Hw [w1 p' v w2 H1 Hp H2|w1 p' v w2 q vs' H1 Hp H2 Hq]; rewrite (app_assoc w);
    constructor; (done || by apply Forall_app).
Qed.

Lemma entries_blank w p es : blank w → json_entries p es → json_entries (w ++ p) es.
Proof using Type.
  intros Hw [w1 k w2 w3 p' v w4 H1 Hk H2 H3 Hp H4|w1 k w2 w3 p' v w4 q es' H1 Hk H2 H3 Hp H4 Hq];
    rewrite (app_assoc w); constructor; (done || by apply Forall_app).
Qed.

Lemma value_sound_step fuel :
  items_sound fuel → entries_sound fuel → value_sound (S fuel).
Proof using Type.
  intros Hi He cs v r E. destruct cs as [|c cs]; [done|].
  cbn [JsonFormat.parse_value] in E.
  destruct (Z.eqb_spec c lbrace) as [->|_]; [|destruct (Z.eqb_spec c lbracket) as [->|_]].
  - destruct (skip_ws cs) as [|c1 cs1] eqn:Ews; [done|].
    apply skip_ws_eq in Ews as (w & Hw & ->).
    destruct (Z.eqb_spec c1 rbrace) as [->|_].
    { inv_outcome. exists (lbrace :: w ++ [rbrace]). split; [cbn; by rewrite <- app_assoc|].
      by constructor. }
    destruct (parse_entries fuel (c1 :: cs1)) as [[es r']|] eqn:Ee; [|done]. cbn in E. inv_outcome.
    apply He in Ee as (p & -> & Hp). exists (lbrace :: (w ++ p) ++ [rbrace]).
    split; [cbn; by rewrite <- !app_assoc|]. constructor. by apply entries_blank.
  - destruct (skip_ws cs) as [|c1 cs1] eqn:Ews; [done|].
    apply skip_ws_eq in Ews as (w & Hw & ->).
    destruct (Z.eqb_spec c1 rbracket) as [->|_].
    { inv_outcome. exists (lbracket :: w ++ [rbracket]). split; [cbn; by rewrite <- app_assoc|].
      by constructor. }
    destruct (parse_items fuel (c1 :: cs1)) as [[vs r']|] eqn:Ee; [|done]. cbn in E. inv_outcome.
    apply Hi in Ee as (p & -> & Hp). exists (lbracket :: (w ++ p) ++ [rbracket]).
    split; [cbn; by rewrite <- !app_assoc|]. constructor. by apply items_blank.
  - apply parse_scalar_spec in E as (t & -> & -> & Ht). exists t. split; [done|by constructor].
Qed.

Lemma items_sound_step fuel : value_sound fuel → items_sound fuel → items_sound (S fuel).
Proof using Type.
  intros Hv Hi cs vs r E. cbn in E.
  destruct (parse_value fuel (skip_ws cs)) as [[v r1]|] eqn:Ev; [|done]. cbn in E.
  apply Hv in Ev as (p & Ep & Hp). apply skip_ws_eq in Ep as (w1 & Hw1 & ->).
  destruct (skip_ws r1) as [|c r2] eqn:Ews; [done|]. apply skip_ws_eq in Ews as (w2 & Hw2 & ->).
  destruct (Z.eqb_spec c comma) as [->|_].
  - destruct (parse_items fuel r2) as [[vs' r']|] eqn:Ei; [|done]. cbn in E. inv_outcome.
    apply Hi in Ei as (q & -> & Hq). exists (w1 ++ p ++ w2 ++ comma :: q).
    split; [by rewrite <- !app_assoc|by constructor].
  - destruct (Z.eqb_spec c rbracket) as [->|_]; [|done]. inv_outcome.
    exists (w1 ++ p ++ w2). split; [by rewrite <- !app_assoc|by constructor].
Qed.

Lemma entries_sound_step fuel : value_sound fuel → entries_sound fuel → entries_sound (S fuel).
Proof using Type.
  intros Hv He cs es r E. cbn in E.
  destruct (parse_string_raw (skip_ws cs)) as [[k r0]|] eqn:Ek; [|done]. cbn in E.
  apply parse_string_spec in Ek as [Ek Hk]. apply skip_ws_eq in Ek as (w1 & Hw1 & ->).
  destruct (skip_ws r0) as [|c0 r1] eqn:Ews; [done|]. apply skip_ws_eq in Ews as (w2 & Hw2 & ->).
  destruct (Z.eqb_spec c0 colon) as [->|_]; [|done].
  destruct (parse_value fuel (skip_ws r1)) as [[v r2]|] eqn:Ev; [|done]. cbn in E.
  apply Hv in Ev as (p & Ep & Hp). apply skip_ws_eq in Ep as (w3 & Hw3 & ->).
  destruct (skip_ws r2) as [|c r3] eqn:Ews; [done|]. apply skip_ws_eq in Ews as (w4 & Hw4 & ->).
  destruct (Z.eqb_spec c comma) as [->|_].
  - destruct (parse_entries fuel r3) as [[es' r']|] eqn:Ei; [|done]. cbn in E. inv_outcome.
    apply He in Ei as (q & -> & Hq).
    exists (w1 ++ k ++ w2 ++ colon :: w3 ++ p ++ w4 ++ comma :: q).
    split; [by rewrite <- !app_assoc; cbn; rewrite <- !app_assoc|by constructor].
  - destruct (Z.eqb_spec c rbrace) as [->|_]; [|done]. inv_outcome.
    exists (w1 ++ k ++ w2 ++ colon :: w3 ++ p ++ w4).
    split; [by rewrite <- !app_assoc; cbn; rewrite <- !app_assoc|by constructor].
Qed.

Lemma parser_sound fuel : value_sound fuel ∧ items_sound fuel ∧ entries_sound fuel.
Proof using Type.
  induction fuel as [|fuel (Hv & Hi & He)]; [split_and!; intros ???; by destruct cs|].
  split_and!; auto using value_sound_step, items_sound_step, entries_sound_step.
Qed.

(** ** The parser reads all of the grammar *)

(** Where the first token of the items or entries starts. *)
Definition starts (cs : list Z) : Prop := ∃ c u, skip_ws cs = c :: u ∧ value_start c.

Lemma value_head p v : json_value p v → ∃ c u, p = c :: u ∧ value_start c.
Proof using Type.
  intros [t Ht|w _|p' vs _|w _|p' es _]; [by apply scalar_start|..];
    (eexists _, _; split; [done|by apply value_start_range]).
Qed.

Lemma starts_app w p v r : blank w → json_value p v → starts (w ++ p ++ r).
Proof using Type.
  intros Hw (c & u & -> & Hc)%value_head. exists c, (u ++ r).
  rewrite skip_ws_app by done. split; [|done]. cbn [app]. apply skip_ws_stop, Hc.
Qed.

Lemma items_start p vs r : json_items p vs → starts (p ++ r).
Proof using Type.
  intros [w1 p' v w2 Hw Hp _|w1 p' v w2 q vs' Hw Hp _ _]; rewrite <- !app_assoc;
    by eapply starts_app.
Qed.

Lemma entries_start p es r : json_entries p es → starts (p ++ r).
Proof using Type.
  assert (∀ k, string_token k → json_value k (Scalar k)) as Hk by (by repeat constructor).
  intros [w1 k w2 w3 p' v w4 Hw Hs _ _ _ _|w1 k w2 w3 p' v w4 q es' Hw Hs _ _ _ _ _];
    rewrite <- !app_assoc; by eapply starts_app; [|apply Hk].
Qed.

(** The loops start by skipping white space. *)
Lemma parse_items_skip fuel cs : parse_items fuel (skip_ws cs) = parse_items fuel cs.
Proof using Type. destruct fuel; cbn; [done|]. by rewrite skip_ws_idemp. Qed.

Lemma parse_entries_skip fuel cs : parse_entries fuel (skip_ws cs) = parse_entries fuel cs.
Proof using Type. destruct fuel; cbn; [done|]. by rewrite skip_ws_idemp. Qed.

(** What follows a value is not part of it: no letter or digit is white space,
    a comma or a closing bracket. *)
Context (alphanumeric_separate : ∀ c, delimited [c] → is_alphanumeric c = false).

Lemma parse_keyword_app word r : delimited r → parse_keyword word (word ++ r) = Some (word, r).
Proof using alphanumeric_separate.
  intros Hr. unfold JsonFormat.parse_keyword. rewrite (proj2 (strip_prefix_Some _ _ _) eq_refl).
  destruct r as [|c r]; [done|].
  rewrite alphanumeric_separate by done. destruct (Z.eqb_spec c underscore) as [->|]; [|done].
  cbn in Hr. destruct Hr as [Hr|[Hr|[Hr|Hr]]]; [|done..].
  apply is_whitespace_range in Hr. unfold underscore in Hr. lia.
Qed.

Lemma parse_scalar_app t r :
  scalar_token t → delimited r → parse_scalar (t ++ r) = Some (Scalar t, r).
Proof using alphanumeric_separate.
  intros Ht Hr. unfold JsonFormat.parse_scalar. destruct Ht as [Ht|[Ht|Ht]].
  - pose proof (parse_string_app t r Ht) as E. destruct Ht as (s & -> & _). cbn [app].
    rewrite Z.eqb_refl. cbn [app] in E. by rewrite E.
  - pose proof (parse_number_app t r Ht (delimited_stops _ Hr)) as E.
    destruct (number_start t Ht) as (c & u & -> & Hc). cbn [app] in *. rewrite E.
    destruct (Z.eqb_spec c quote) as [->|]; [by destruct Hc|].
    assert ((c =? minus) || is_ascii_digit c = true) as ->; [|done].
    apply orb_true_iff. by rewrite Z.eqb_eq.
  - destruct Ht as [->|[->| ->]]; cbn [app word_true word_false word_null].
    + change (116 :: 114 :: 117 :: 101 :: r) with (word_true ++ r). by rewrite parse_keyword_app.
    + change (102 :: 97 :: 108 :: 115 :: 101 :: r) with (word_false ++ r).
      by rewrite parse_keyword_app.
    + change (110 :: 117 :: 108 :: 108 :: r) with (word_null ++ r). by rewrite parse_keyword_app.
Qed.

Lemma scalar_head t c u : scalar_token t → t = c :: u → c ≠ lbrace ∧ c ≠ lbracket.
Proof using Type.
  intros [(s & -> & _)|[Ht|[->|[->| ->]]]] E; try by injection E as <- <-.
  destruct (number_start t Ht) as (c' & u' & -> & Hc). injection E as -> ->.
  destruct Hc as [->|Hc%digit_range]; [done|]. unfold lbrace, lbracket. lia.
Qed.

Definition value_complete (p : list Z) (v : Value) : Prop := ∀ r fuel,
  delimited r → (2 * length (p ++ r) + 1 <= fuel)%nat → parse_value fuel (p ++ r) = Some (v, r).
Definition items_complete (p : list Z) (vs : list Value) : Prop := ∀ r fuel,
  (2 * length (p ++ rbracket :: r) + 2 <= fuel)%nat →
  parse_items fuel (p ++ rbracket :: r) = Some (vs, r).
Definition entries_complete (p : list Z) (es : list (list Z * Value)) : Prop := ∀ r fuel,
  (2 * length (p ++ rbrace :: r) + 2 <= fuel)%nat →
  parse_entries fuel (p ++ rbrace :: r) = Some (es, r).

Lemma scalar_complete t : scalar_token t → value_complete t (Scalar t).
Proof using alphanumeric_separate.
  intros Ht r fuel Hr Hf. destruct fuel as [|fuel]; [lia|].
  pose proof (parse_scalar_app t r Ht Hr) as E.
  destruct (scalar_start t Ht) as (c & u & -> & _).
  destruct (scalar_head _ c u Ht eq_refl) as [H1 H2]. cbn [JsonFormat.parse_value app] in *.
  by rewrite (proj2 (Z.eqb_neq _ _) H1), (proj2 (Z.eqb_neq _ _) H2).
Qed.

Lemma array_complete p vs :
  json_items p vs → items_complete p vs → value_complete (lbracket :: p ++ [rbracket]) (Array vs).
Proof using Type.
  intros Hp IH r fuel _ Hf. destruct fuel as [|fuel]; [lia|]. cbn in Hf. cbn.
  rewrite <- app_assoc in *. cbn [app] in *.
  destruct (items_start p vs (rbracket :: r) Hp) as (c & u & E & _ & Hc & _).
  pose proof (IH r fuel ltac:(lia)) as Hi. rewrite <- parse_items_skip, E in Hi.
  rewrite E, (proj2 (Z.eqb_neq _ _) Hc). by rewrite Hi.
Qed.

Lemma object_complete p es :
  json_entries p es → entries_complete p es → value_complete (lbrace :: p ++ [rbrace]) (Object es).
Proof using Type.
  intros Hp IH r fuel _ Hf. destruct fuel as [|fuel]; [lia|]. cbn in Hf. cbn.
  rewrite <- app_assoc in *. cbn [app] in *.
  destruct (entries_start p es (rbrace :: r) Hp) as (c & u & E & _ & _ & Hc & _).
  pose proof (IH r fuel ltac:(lia)) as Hi. rewrite <- parse_entries_skip, E in Hi.
  rewrite E, (proj2 (Z.eqb_neq _ _) Hc). by rewrite Hi.
Qed.

Lemma empty_complete o c w v :
  (o, c, v) = (lbracket, rbracket, Array []) ∨ (o, c, v) = (lbrace, rbrace, Object []) →
  blank w → value_complete (o :: w ++ [c]) v.
Proof using Type.
  intros H Hw r fuel _ Hf. destruct fuel as [|fuel]; [lia|].
  destruct H as [[= -> -> ->]|[= -> -> ->]]; cbn; rewrite <- app_assoc, skip_ws_app by done;
    by cbn [app]; rewrite skip_ws_stop.
Qed.

(** Skipping the white space before a value. *)
Lemma skip_to_value w p v r : blank w → json_value p v → skip_ws (w ++ p ++ r) = p ++ r.
Proof using Type.
  intros Hw (c & u & -> & Hc & _)%value_head. rewrite skip_ws_app by done.
  cbn [app]. by apply skip_ws_stop.
Qed.

Lemma skip_to w c r : blank w → is_whitespace c = false → skip_ws (w ++ c :: r) = c :: r.
Proof using Type. intros Hw Hc. rewrite skip_ws_app by done. by apply skip_ws_stop. Qed.

Lemma item_complete w1 p v w2 :
  blank w1 → json_value p v → value_complete p v → blank w2 →
  items_complete (w1 ++ p ++ w2) [v].
Proof using Type.
  intros H1 Hp IH H2 r fuel Hf. destruct fuel as [|fuel]; [lia|].
  rewrite <- !app_assoc in *. rewrite !length_app in Hf. cbn [JsonFormat.parse_items].
  rewrite (skip_to_value w1 p v) by done.
  rewrite IH; [|by apply delimited_blank; [|right; right; left]|rewrite !length_app; lia].
  cbn [mbind option_bind]. by rewrite skip_to.
Qed.

Lemma item_more_complete w1 p v w2 q vs :
  blank w1 → json_value p v → value_complete p v → blank w2 → items_complete q vs →
  items_complete (w1 ++ p ++ w2 ++ comma :: q) (v :: vs).
Proof using Type.
  intros H1 Hp IH H2 IHq r fuel Hf. destruct fuel as [|fuel]; [lia|].
  rewrite <- !app_assoc in *. cbn [app] in *. rewrite !length_app in Hf. cbn in Hf.
  rewrite length_app in Hf. cbn [JsonFormat.parse_items].
  rewrite (skip_to_value w1 p v) by done.
  rewrite IH; [|by apply delimited_blank; [|right; left]|rewrite !length_app; cbn; rewrite length_app; lia].
  cbn [mbind option_bind]. rewrite skip_to by done. rewrite Z.eqb_refl.
  rewrite IHq; [done|]. rewrite length_app. lia.
Qed.

Lemma entry_start_complete w1 k w2 w3 p v w4 r fuel :
  blank w1 → string_token k → blank w2 → blank w3 → json_value p v → value_complete p v →
  blank w4 → (∃ c u, r = c :: u ∧ is_whitespace c = false ∧ delimited [c]) →
  (2 * length (p ++ w4 ++ r) + 1 <= fuel)%nat →
  parse_entries (S fuel) (w1 ++ k ++ w2 ++ colon :: w3 ++ p ++ w4 ++ r) =
  match r with
  | c :: r =>
      if c =? comma then '(es, r) ← parse_entries fuel r; Some ((k, v) :: es, r)
      else if c =? rbrace then Some ([(k, v)], r)
      else None
  | [] => None
  end.
Proof using Type.
  intros H1 Hk H2 H3 Hp IH H4 (c & u & -> & Hc & Hd) Hf. cbn [JsonFormat.parse_entries].
  assert (json_value k (Scalar k)) as Hks by (by constructor; left).
  rewrite (skip_to_value w1 k (Scalar k)) by done.
  rewrite parse_string_app by done. cbn [mbind option_bind]. rewrite skip_to by done.
  rewrite Z.eqb_refl, (skip_to_value w3 p v) by done.
  rewrite IH; [|by apply delimited_blank|lia]. cbn [mbind option_bind]. by rewrite skip_to.
Qed.

Lemma entry_complete w1 k w2 w3 p v w4 :
  blank w1 → string_token k → blank w2 → blank w3 → json_value p v → value_complete p v →
  blank w4 → entries_complete (w1 ++ k ++ w2 ++ colon :: w3 ++ p ++ w4) [(k, v)].
Proof using Type.
  intros H1 Hk H2 H3 Hp IH H4 r fuel Hf. destruct fuel as [|fuel]; [lia|].
  repeat (rewrite <- !app_assoc in *; cbn [app] in * ).
  rewrite entry_start_complete with (v := v); try done.
  - exists rbrace, r. split_and!; [done|done|by right; right; right].
  - rewrite !length_app in *. cbn in Hf |- *. rewrite !length_app in Hf. cbn in Hf. lia.
Qed.

Lemma entry_more_complete w1 k w2 w3 p v w4 q es :
  blank w1 → string_token k → blank w2 → blank w3 → json_value p v → value_complete p v →
  blank w4 → entries_complete q es →
  entries_complete (w1 ++ k ++ w2 ++ colon :: w3 ++ p ++ w4 ++ comma :: q) ((k, v) :: es).
Proof using Type.
  intros H1 Hk H2 H3 Hp IH H4 IHq r fuel Hf. destruct fuel as [|fuel]; [lia|].
  repeat (rewrite <- !app_assoc in *; cbn [app] in * ).
  assert (2 * length (p ++ w4 ++ comma :: q ++ rbrace :: r) + 1 <= fuel)%nat as Hf'.
  { rewrite !length_app in *. cbn in Hf |- *. rewrite !length_app in *. cbn in Hf |- *.
    rewrite !length_app in *. cbn in Hf |- *. lia. }
  rewrite entry_start_complete with (v := v); try done.
  - rewrite Z.eqb_refl, IHq; [done|]. rewrite !length_app in *. cbn in Hf'. rewrite !length_app in *.
    cbn in Hf' |- *. lia.
  - exists comma, (q ++ rbrace :: r). split_and!; [done|done|by right; left].
Qed.

Lemma parser_complete :
  (∀ p v, json_value p v → value_complete p v) ∧
  (∀ p vs, json_items p vs → items_complete p vs) ∧
  (∀ p es, json_entries p es → entries_complete p es).
Proof using alphanumeric_separate.
  apply json_mut; intros;
    eauto using scalar_complete, array_complete, object_complete, empty_complete,
      item_complete, item_more_complete, entry_complete, entry_more_complete.
Qed.

Lemma parse_grammar source v :
  parse is_alphanumeric source = Some v ↔ json_text source v.
Proof using alphanumeric_separate.
  unfold parse. split.
  - destruct (parse_value _ _) as [[v' r]|] eqn:E; [|done]. cbn.
    destruct (skip_ws r) eqn:Er; [|done]. intros. inv_outcome.
    apply parser_sound in E as (p & Ep & Hp). apply skip_ws_eq in Ep as (w1 & H1 & ->).
    apply skip_ws_eq in Er as (w2 & H2 & ->). exists w1, p, w2. by rewrite app_nil_r.
  - intros (w1 & p & w2 & -> & H1 & Hp & H2). rewrite (skip_to_value w1 p v) by done.
    destruct parser_complete as [H _]. rewrite (H p v Hp).
    + cbn. rewrite <- (app_nil_r w2), skip_ws_app by done. done.
    + rewrite <- (app_nil_r w2). by apply delimited_blank.
    + rewrite !length_app. lia.
Qed.
End parser.

(** ** Printing *)

Lemma blank_cons c w : is_whitespace c = true → blank w → blank (c :: w).
Proof. by constructor. Qed.

Lemma blank_indent depth : blank (indent depth).
Proof. induction depth; cbn; [constructor|by repeat constructor]. Qed.

Lemma blank_line depth : blank (lf :: indent depth).
Proof. apply blank_cons; [done|apply blank_indent]. Qed.

Lemma items_nonempty p vs : json_items p vs → vs ≠ [].
Proof. by intros []. Qed.

Lemma entries_nonempty p es : json_entries p es → es ≠ [].
Proof. by intros []. Qed.

(** What is printed is in the grammar again, with the same value. *)
Lemma print_grammar :
  (∀ p v, json_value p v → ∀ d, json_value (print_value v d) v) ∧
  (∀ p vs, json_items p vs → ∀ d,
    json_items (lf :: print_lines (λ item, print_value item (d + 1)) d vs ++ indent d) vs) ∧
  (∀ p es, json_entries p es → ∀ d,
    json_entries (lf :: print_lines
      (λ e, e.1 ++ [colon; space] ++ print_value e.2 (d + 1)) d es ++ indent d) es).
Proof.
  apply json_mut.
  - intros t Ht d. by constructor.
  - intros w Hw d. apply (json_empty_array []). constructor.
  - intros p vs Hp IH d. destruct vs as [|v vs]; [by apply items_nonempty in Hp|].
    specialize (IH d). apply json_array in IH. cbn [print_value]. cbn [app] in *.
    by rewrite <- app_assoc in IH.
  - intros w Hw d. apply (json_empty_object []). constructor.
  - intros p es Hp IH d. destruct es as [|e es]; [by apply entries_nonempty in Hp|].
    specialize (IH d). apply json_object in IH. cbn [print_value]. cbn [app] in *.
    by rewrite <- app_assoc in IH.
  - intros w1 p v w2 _ _ IH _ d. cbn. rewrite <- !app_assoc. cbn.
    apply (json_item (lf :: indent (d + 1)) _ v (lf :: indent d)); auto using blank_line.
  - intros w1 p v w2 q vs _ _ IH _ Hq IHq d. destruct vs as [|v' vs]; [by apply items_nonempty in Hq|].
    specialize (IHq d). cbn [print_lines] in *. rewrite <- !app_assoc in *. cbn [app] in *.
    apply (json_item_more (lf :: indent (d + 1)) _ v []); auto using blank_line. constructor.
  - intros w1 k w2 w3 p v w4 _ Hk _ _ _ IH _ d. cbn. rewrite <- !app_assoc. cbn.
    apply (json_entry (lf :: indent (d + 1)) k [] [space] _ v (lf :: indent d));
      auto using blank_line; by repeat constructor.
  - intros w1 k w2 w3 p v w4 q es _ Hk _ _ _ IH _ Hq IHq d.
    destruct es as [|e es]; [by apply entries_nonempty in Hq|].
    specialize (IHq d). cbn [print_lines fst snd] in *.
    repeat (rewrite <- !app_assoc in *; cbn [app] in * ).
    apply (json_entry_more (lf :: indent (d + 1)) k [] [space] _ v []);
      auto using blank_line; by repeat constructor.
Qed.

(** ** White space is all that differs *)

Lemma squeeze_blank w r : blank w → squeeze Outside (w ++ r) = squeeze Outside r.
Proof. induction 1 as [|c w Hc _ IH]; cbn; [done|]. by rewrite Hc. Qed.

Lemma squeeze_punct c r :
  is_whitespace c = false → c ≠ quote → squeeze Outside (c :: r) = c :: squeeze Outside r.
Proof. intros H1 H2. cbn. by rewrite H1, (proj2 (Z.eqb_neq _ _) H2). Qed.

Lemma squeeze_plain t r :
  Forall (λ c, is_whitespace c = false ∧ c ≠ quote) t →
  squeeze Outside (t ++ r) = t ++ squeeze Outside r.
Proof.
  induction 1 as [|c t [H1 H2] _ IH]; [done|]. cbn [app]. by rewrite squeeze_punct, IH.
Qed.

Lemma hex_plain h : is_ascii_hexdigit h = true → h ≠ quote ∧ h ≠ backslash.
Proof.
  unfold is_ascii_hexdigit, is_ascii_digit, quote, backslash. intros H. zbool.
  destruct H as [[H|H]%orb_prop|H]; zbool; lia.
Qed.

Lemma squeeze_inside c r :
  c ≠ quote → c ≠ backslash → squeeze Inside (c :: r) = c :: squeeze Inside r.
Proof. intros H1 H2. cbn. by rewrite (proj2 (Z.eqb_neq _ _) H1), (proj2 (Z.eqb_neq _ _) H2). Qed.

Lemma squeeze_escape e r :
  squeeze Inside (backslash :: e :: r) = backslash :: e :: squeeze Inside r.
Proof. done. Qed.

Lemma squeeze_string t r :
  string_tail t → squeeze Inside (t ++ r) = t ++ squeeze Outside r.
Proof.
  induction 1 as [|e t He _ IH|h1 h2 h3 h4 t Hh _ IH|c t Hq Hb Hc _ IH]; cbn [app].
  - done.
  - by rewrite squeeze_escape, IH.
  - rewrite !Forall_cons in Hh.
    destruct Hh as ([]%hex_plain & []%hex_plain & []%hex_plain & []%hex_plain & _).
    by rewrite squeeze_escape, !squeeze_inside, IH.
  - by rewrite squeeze_inside, IH.
Qed.

Lemma digits_plain ds : digits ds → Forall (λ c, is_whitespace c = false ∧ c ≠ quote) ds.
Proof.
  intros H. eapply Forall_impl; [exact H|]. intros c Hc%digit_range.
  split; [apply is_whitespace_false; lia|unfold quote; lia].
Qed.

Lemma number_plain t : number_token t → Forall (λ c, is_whitespace c = false ∧ c ≠ quote) t.
Proof.
  intros (sign & int & frac & exp & -> & Hs & Hi & Hf & He). rewrite !Forall_app. split_and!.
  - by destruct Hs as [->| ->]; repeat constructor.
  - destruct Hi as [->|(d & ds & -> & _ & H)]; [by repeat constructor|by apply digits_plain].
  - destruct Hf as [->|(ds & -> & _ & H)]; [constructor|].
    constructor; [done|by apply digits_plain].
  - destruct He as [->|(e & s & ds & -> & He & Hs' & _ & H)]; [constructor|].
    constructor; [by destruct He as [->| ->]|]. apply Forall_app. split; [|by apply digits_plain].
    by destruct Hs' as [->|[->| ->]]; repeat constructor.
Qed.

Lemma squeeze_scalar t r : scalar_token t → squeeze Outside (t ++ r) = t ++ squeeze Outside r.
Proof.
  intros [(s & -> & Hs)|[Ht|Ht]].
  - cbn [app squeeze]. change (is_whitespace quote) with false. cbv iota. cbn.
    by rewrite squeeze_string.
  - by apply squeeze_plain, number_plain.
  - apply squeeze_plain. by destruct Ht as [->|[->| ->]]; repeat constructor.
Qed.

Lemma squeeze_key k r : string_token k → squeeze Outside (k ++ r) = k ++ squeeze Outside r.
Proof. intros Hk. apply squeeze_scalar. by left. Qed.

Lemma squeeze_grammar :
  (∀ p v, json_value p v → ∀ r, squeeze Outside (p ++ r) = compact v ++ squeeze Outside r) ∧
  (∀ p vs, json_items p vs → ∀ r,
    squeeze Outside (p ++ r) = commas compact vs ++ squeeze Outside r) ∧
  (∀ p es, json_entries p es → ∀ r,
    squeeze Outside (p ++ r) =
    commas (λ e, e.1 ++ colon :: compact e.2) es ++ squeeze Outside r).
Proof.
  apply json_mut; intros; cbn [app]; repeat (rewrite <- !app_assoc; cbn [app]).
  - by apply squeeze_scalar.
  - rewrite squeeze_punct, squeeze_blank, squeeze_punct by done. cbn. done.
  - rewrite squeeze_punct by done. rewrite H, squeeze_punct by done. cbn. by rewrite <- app_assoc.
  - rewrite squeeze_punct, squeeze_blank, squeeze_punct by done. cbn. done.
  - rewrite squeeze_punct by done. rewrite H, squeeze_punct by done. cbn. by rewrite <- app_assoc.
  - rewrite squeeze_blank, H, squeeze_blank by done. cbn. by rewrite app_nil_r.
  - rewrite squeeze_blank, H, squeeze_blank, squeeze_punct, H0 by done.
    destruct vs as [|v' vs]; [by apply items_nonempty in j0|].
    change (commas compact (v :: v' :: vs)) with (compact v ++ comma :: commas compact (v' :: vs)).
    by rewrite <- app_assoc.
  - rewrite squeeze_blank, squeeze_key, squeeze_blank, squeeze_punct, squeeze_blank, H, squeeze_blank
      by done.
    cbn. by rewrite app_nil_r, <- app_assoc.
  - rewrite squeeze_blank, squeeze_key, squeeze_blank, squeeze_punct, squeeze_blank, H, squeeze_blank,
      squeeze_punct, H0 by done.
    destruct es as [|e es]; [by apply entries_nonempty in j0|].
    change (commas (λ e, e.1 ++ colon :: compact e.2) ((k, v) :: e :: es)) with
      ((k ++ colon :: compact v) ++ comma :: commas (λ e, e.1 ++ colon :: compact e.2) (e :: es)).
    by rewrite <- !app_assoc.
Qed.

Lemma squeeze_text source v : json_text source v → squeeze Outside source = compact v.
Proof.
  intros (w1 & p & w2 & -> & H1 & Hp & H2). destruct squeeze_grammar as [H _].
  rewrite squeeze_blank, (H p v Hp) by done.
  rewrite <- (app_nil_r w2), squeeze_blank by done. apply app_nil_r.
Qed.

Lemma print_text v source d : json_text source v → json_text (print_value v d) v.
Proof.
  intros (w1 & p & w2 & _ & _ & Hp & _). destruct print_grammar as [H _].
  exists [], (print_value v d), []. rewrite app_nil_r. split_and!; [done|constructor| |constructor].
  by eapply H.
Qed.

(** ** The formatter *)

(** C36: the formatter answers exactly for the texts of the grammar, numbers
    without leading zeros, strings without raw control characters and with
    known escapes, no trailing commas, and it answers the value printed. No
    fuel runs out. Letters and digits are neither white space nor punctuation. *)
Theorem format_accepts_grammar is_alphanumeric source out :
  (∀ c, delimited [c] → is_alphanumeric c = false) →
  format is_alphanumeric source = Some out ↔
  ∃ v, json_text source v ∧ out = print_value v 0.
Proof.
  intros Ha. unfold format. split.
  - destruct (parse is_alphanumeric source) as [v|] eqn:E; [|done].
    cbn [mbind option_bind]. intros ?. inv_outcome.
    apply parse_grammar in E; eauto.
  - intros (v & Hv & ->). apply (parse_grammar is_alphanumeric Ha) in Hv. by rewrite Hv.
Qed.

(** C37: what the formatter answers differs from the source in the white space
    between tokens only, and formatting it again changes nothing. *)
Theorem formatting_moves_space_only is_alphanumeric source out :
  (∀ c, delimited [c] → is_alphanumeric c = false) →
  format is_alphanumeric source = Some out →
  squeeze Outside out = squeeze Outside source ∧ format is_alphanumeric out = Some out.
Proof.
  intros Ha. unfold format.
  destruct (parse is_alphanumeric source) as [v|] eqn:E; [|done].
  cbn [mbind option_bind]. intros ?. inv_outcome.
  apply (parse_grammar is_alphanumeric Ha) in E. pose proof (print_text v source 0 E) as Hp. split.
  - by rewrite (squeeze_text _ v Hp), (squeeze_text _ v E).
  - apply (parse_grammar is_alphanumeric Ha) in Hp. by rewrite Hp.
Qed.

(** ** Witnesses *)

Lemma ascii_separate c : delimited [c] → ascii_alphanumeric c = false.
Proof.
  intros H. assert (9 <= c <= 13 ∨ c = 32 ∨ 133 <= c ∨ c = 44 ∨ c = 93 ∨ c = 125) as Hc.
  { cbn in H. unfold comma, rbracket, rbrace in H.
    destruct H as [H%is_whitespace_range|H]; lia. }
  unfold ascii_alphanumeric, is_ascii_digit. rewrite !orb_false_iff, !andb_false_iff, !Z.leb_gt. lia.
Qed.

(** [ {"a":[1,2.5e3,{}]} ], and what it is formatted to. *)
Definition sample_json : list Z :=
  [32; 123; 34; 97; 34; 58; 91; 49; 44; 50; 46; 53; 101; 51; 44; 123; 125; 93; 125].
Definition sample_out : list Z :=
  [123; 10; 32; 32; 34; 97; 34; 58; 32; 91; 10; 32; 32; 32; 32; 49; 44; 10; 32; 32; 32; 32;
   50; 46; 53; 101; 51; 44; 10; 32; 32; 32; 32; 123; 125; 10; 32; 32; 93; 10; 125].

Lemma sample_formats : format ascii_alphanumeric sample_json = Some sample_out.
Proof. vm_compute. reflexivity. Qed.

Lemma format_accepts_grammar_witness :
  ∃ v, json_text sample_json v ∧ sample_out = print_value v 0.
Proof.
  apply (format_accepts_grammar ascii_alphanumeric); [exact ascii_separate|exact sample_formats].
Defined.

Lemma formatting_moves_space_only_witness :
  squeeze Outside sample_out = squeeze Outside sample_json ∧
  format ascii_alphanumeric sample_out = Some sample_out.
Proof.
  apply formatting_moves_space_only; [exact ascii_separate|exact sample_formats].
Defined.

(** White space of Unicode between tokens is accepted, which JSON does not
    allow. *)
Lemma no_break_space_is_accepted :
  format ascii_alphanumeric [91; 160; 49; 93] = Some [91; 10; 32; 32; 49; 10; 93].
Proof. vm_compute. reflexivity. Qed.
