(* ===== verification/Syntax.v ===== *)
(** * Lexers, re-indenting and automatic indentation

    [ferrowl-syntax/src/lang/lua.rs], [json.rs], [scan.rs] and [diff.rs]: the
    spans a line is coloured by; [format/lua.rs], [format/mod.rs]: the
    formatter an editor field runs when it loses the focus; [indent.rs]: the
    indentation of a new line. A text is its characters, by code point. A lexer
    reads from a list of characters that starts at position [pos] of the line;
    a scan answers how many characters it takes. What Unicode calls alphabetic
    and numeric is a parameter. *)

From stdpp Require Import base numbers list strings.
From S2P Require Import Prelude Text JsonFormat.

Local Open Scope string_scope.
Local Open Scope list_scope.
Local Open Scope Z_scope.

(** An ASCII text of the source. *)
Definition codes (s : string) : list Z := (λ a, Z.of_N (Ascii.N_of_ascii a)) <$> String.list_ascii_of_string s.

Inductive Language := L_Lua | L_Json | L_Markdown | L_Diff.

Inductive SyntaxKind :=
| SK_Keyword | SK_Ident | SK_Number | SK_String | SK_Comment | SK_Punct | SK_Key | SK_Literal
| SK_Object | SK_Function | SK_Added | SK_Removed | SK_Meta.

#[export] Instance SyntaxKind_eq_dec : EqDecision SyntaxKind.
Proof. solve_decision. Defined.

Definition is_kind (k k' : SyntaxKind) : bool := bool_decide (k = k').

(** The long bracket a line ends in, with its level, an [u8]. *)
Inductive LuaCarry := LC_None | LC_LongString (level : nat) | LC_LongComment (level : nat).

(** From, to, and how it is coloured. *)
Definition Span : Type := nat * nat * SyntaxKind.

(** ** Shared scans *)

(** How many characters from the front satisfy [p]. *)
Fixpoint run_length (p : Z → bool) (cs : list Z) : nat :=
  match cs with c :: cs' => if p c then S (run_length p cs') else O | [] => O end.

(** [scan_quoted], past the opening quote. *)
Fixpoint quoted_rest (q : Z) (cs : list Z) : nat :=
  match cs with
  | [] => O
  | c :: cs' =>
      match cs' with
      | _ :: cs'' => if c =? backslash then S (S (quoted_rest q cs''))
                     else if c =? q then 1%nat else S (quoted_rest q cs')
      | [] => 1%nat
      end
  end.

Definition scan_quoted (q : Z) (cs : list Z) : nat := S (quoted_rest q (drop 1 cs)).

Definition char_is (c : Z) (cs : list Z) : bool :=
  match cs with c' :: _ => c' =? c | [] => false end.

(** The sign that may follow an exponent's letter. *)
Definition sign_length (cs : list Z) : nat := if char_is plus cs || char_is minus cs then 1%nat else O.

(** [scan_fraction_exponent] *)
Definition scan_fraction_exponent (cs : list Z) (backtrack_bare_exponent : bool) : nat :=
  let n := if char_is dot cs then S (run_length is_ascii_digit (drop 1 cs)) else O in
  let e := drop n cs in
  if char_is 101 e || char_is 69 e then
    let s := sign_length (drop 1 e) in
    let digits := run_length is_ascii_digit (drop (1 + s) e) in
    match digits with
    | O => if backtrack_bare_exponent then n else (n + 1 + s)%nat
    | _ => (n + 1 + s + digits)%nat
    end
  else n.

Section lexers.
Context (is_alphabetic is_numeric : Z → bool).

(** [char::is_alphanumeric] *)
Definition is_alphanumeric (c : Z) : bool := is_alphabetic c || is_numeric c.

(** ** JSON *)

Definition json_number (cs : list Z) : nat :=
  let n := if char_is minus cs then 1%nat else O in
  let n := (n + run_length is_ascii_digit (drop n cs))%nat in
  (n + scan_fraction_exponent (drop n cs) false)%nat.

(** A string is a key when a colon follows. *)
Definition json_string_kind (rest : list Z) : SyntaxKind :=
  if char_is colon (drop (run_length is_whitespace rest) rest) then SK_Key else SK_String.

Definition json_punct (c : Z) : bool :=
  existsb (Z.eqb c) [lbrace; rbrace; lbracket; rbracket; comma; colon].

Fixpoint json_spans (fuel pos : nat) (cs : list Z) : list Span :=
  match fuel, cs with
  | S fuel, c :: cs' =>
      if is_whitespace c then json_spans fuel (pos + 1) cs'
      else if c =? quote then
        let n := scan_quoted quote cs in
        (pos, (pos + n)%nat, json_string_kind (drop n cs)) :: json_spans fuel (pos + n) (drop n cs)
      else if (c =? minus) || is_ascii_digit c then
        let n := json_number cs in
        (pos, (pos + n)%nat, SK_Number) :: json_spans fuel (pos + n) (drop n cs)
      else if is_alphabetic c then
        let n := run_length is_alphanumeric cs in
        let spans := json_spans fuel (pos + n) (drop n cs) in
        if bool_decide (take n cs ∈ [word_true; word_false; word_null])
        then (pos, (pos + n)%nat, SK_Literal) :: spans else spans
      else if json_punct c then (pos, (pos + 1)%nat, SK_Punct) :: json_spans fuel (pos + 1) cs'
      else json_spans fuel (pos + 1) cs'
  | _, _ => []
  end.

Definition json_highlight_line (line : list Z) : list Span := json_spans (length line) 0 line.

(** ** Lua *)

Definition KEYWORDS : list (list Z) := codes <$>
  ["and"; "break"; "do"; "else"; "elseif"; "end"; "for"; "function"; "goto"; "if"; "in"; "local";
   "not"; "or"; "repeat"; "return"; "then"; "until"; "while"].
Definition LITERALS : list (list Z) := codes <$> ["true"; "false"; "nil"].
Definition OPS : list (list Z) := codes <$>
  ["..."; ".."; "::"; "=="; "~="; "<="; ">="; "<<"; ">>"; "+"; "-"; "*"; "/"; "%"; "^"; "#"; "&";
   "~"; "|"; "<"; ">"; "="; "("; ")"; "{"; "}"; "["; "]"; ";"; ":"; ","; "."].

Definition equals_sign : Z := 61.

(** The [u8] that counts the equals signs of a long bracket. *)
Definition level_count (n : nat) : Outcome nat := if Z.of_nat n <? 2 ^ 8 then Ret n else Panic.

(** [match_long_open]: the level, and how long the bracket is. *)
Definition match_long_open (cs : list Z) : Outcome (option (nat * nat)) :=
  if char_is lbracket cs then
    level ← level_count (run_length (Z.eqb equals_sign) (drop 1 cs));
    Ret (if char_is lbracket (drop (1 + level) cs) then Some (level, (level + 2)%nat) else None)
  else Ret None.

(** A closing bracket of the level, past its first character. *)
Definition closes (level : nat) (cs : list Z) : bool :=
  forallb (Z.eqb equals_sign) (take level cs) && char_is rbracket (drop level cs).

Fixpoint find_long_close (level : nat) (cs : list Z) : option nat :=
  match cs with
  | [] => None
  | c :: cs' =>
      if (c =? rbracket) && closes level cs' then Some (level + 2)%nat
      else S <$> find_long_close level cs'
  end.

Definition hex_number (cs : list Z) : nat :=
  let n := (2 + run_length is_ascii_hexdigit (drop 2 cs))%nat in
  let n := if char_is dot (drop n cs)
           then (n + 1 + run_length is_ascii_hexdigit (drop (n + 1) cs))%nat else n in
  if char_is 112 (drop n cs) || char_is 80 (drop n cs) then
    let n := (n + 1 + sign_length (drop (n + 1) cs))%nat in
    (n + run_length is_ascii_digit (drop n cs))%nat
  else n.

(** [parse_number] *)
Definition parse_number (cs : list Z) : nat :=
  if char_is 48 cs && (char_is 120 (drop 1 cs) || char_is 88 (drop 1 cs)) then hex_number cs
  else
    let n := run_length is_ascii_digit cs in
    (n + scan_fraction_exponent (drop n cs) true)%nat.

Definition word_start (c : Z) : bool := (c =? underscore) || is_alphabetic c.
Definition word_char (c : Z) : bool := (c =? underscore) || is_alphanumeric c.

Definition word_kind (word : list Z) : SyntaxKind :=
  if bool_decide (word ∈ KEYWORDS) then SK_Keyword
  else if bool_decide (word ∈ LITERALS) then SK_Literal else SK_Ident.

(** [starts_with] *)
Fixpoint starts_with (pat cs : list Z) : bool :=
  match pat, cs with
  | [], _ => true
  | p :: pat, c :: cs => (p =? c) && starts_with pat cs
  | _ :: _, [] => false
  end.

(** What the lexer reads at one position: nothing, a span of a length, or the
    rest of the line, with what is carried over. *)
Inductive Token := TK_Skip | TK_Span (n : nat) (kind : SyntaxKind) | TK_Rest (kind : SyntaxKind) (carry : LuaCarry).

Definition lua_comment (cs : list Z) : Outcome Token :=
  opened ← match_long_open (drop 2 cs);
  Ret match opened with
      | Some (level, n) =>
          match find_long_close level (drop (2 + n) cs) with
          | Some close => TK_Span (2 + n + close) SK_Comment
          | None => TK_Rest SK_Comment (LC_LongComment level)
          end
      | None => TK_Rest SK_Comment LC_None
      end.

(** The tokens that are no long strings or comments. *)
Definition lua_plain (c : Z) (cs : list Z) : Token :=
  if (c =? quote) || (c =? 39) then TK_Span (scan_quoted c cs) SK_String
  else if is_ascii_digit c ||
          (c =? dot) && match drop 1 cs with d :: _ => is_ascii_digit d | [] => false end
  then TK_Span (parse_number cs) SK_Number
  else if word_start c then
    let n := run_length word_char cs in TK_Span n (word_kind (take n cs))
  else match find (λ op, starts_with op cs) OPS with
       | Some op => TK_Span (length op) SK_Punct
       | None => TK_Skip
       end.

Definition lua_token (c : Z) (cs : list Z) : Outcome Token :=
  if is_whitespace c then Ret TK_Skip
  else if (c =? minus) && char_is minus (drop 1 cs) then lua_comment cs
  else
    opened ← (if c =? lbracket then match_long_open cs else Ret None);
    Ret match opened with
        | Some (level, n) =>
            match find_long_close level (drop n cs) with
            | Some close => TK_Span (n + close) SK_String
            | None => TK_Rest SK_String (LC_LongString level)
            end
        | None => lua_plain c cs
        end.

(** The loop of [highlight_line]. *)
Fixpoint lua_spans (fuel pos : nat) (cs : list Z) : Outcome (list Span * LuaCarry) :=
  match fuel, cs with
  | S fuel, c :: cs' =>
      token ← lua_token c cs;
      match token with
      | TK_Skip => lua_spans fuel (pos + 1) cs'
      | TK_Span n kind =>
          '(spans, carry) ← lua_spans fuel (pos + n) (drop n cs);
          Ret ((pos, (pos + n)%nat, kind) :: spans, carry)
      | TK_Rest kind carry => Ret ([(pos, (pos + length cs)%nat, kind)], carry)
      end
  | _, _ => Ret ([], LC_None)
  end.

(** The characters of a span. *)
Definition span_text (line : list Z) (s : Span) : list Z := take (s.1.2 - s.1.1) (drop s.1.1 line).

Definition is_punct (line : list Z) (s : Span) (c : Z) : bool :=
  is_kind s.2 SK_Punct && bool_decide (span_text line s = [c]).

(** How [contextual_pass] colours an identifier, from the spans around it. *)
Definition ident_kind (line : list Z) (prev : option Span) (next : list Span) : SyntaxKind :=
  let method_pos := match prev with Some p => is_punct line p colon | None => false end in
  let call_pos :=
    match next with
    | n :: _ => is_kind n.2 SK_String || is_punct line n 40 || is_punct line n lbrace
    | [] => false
    end in
  let access_pos :=
    match next with
    | n :: n2 :: _ => (is_punct line n dot || is_punct line n colon) && is_kind n2.2 SK_Ident
    | _ => false
    end in
  if method_pos || call_pos then SK_Function else if access_pos then SK_Object else SK_Ident.

Fixpoint contextual_pass (line : list Z) (prev : option Span) (spans : list Span) : list Span :=
  match spans with
  | [] => []
  | s :: next =>
      let s' := if is_kind s.2 SK_Ident then (s.1, ident_kind line prev next) else s in
      s' :: contextual_pass line (Some s') next
  end.

(** [highlight_line], resuming what the previous line carried over. *)
Definition lua_highlight_line (line : list Z) (state : LuaCarry) : Outcome (list Span * LuaCarry) :=
  let resume level kind :=
    match find_long_close level line with
    | Some close =>
        '(spans, carry) ← lua_spans (length line) close (drop close line);
        Ret (contextual_pass line None ((0%nat, close, kind) :: spans), carry)
    | None => Ret ([(0%nat, length line, kind)], state)
    end in
  match state with
  | LC_LongString level => resume level SK_String
  | LC_LongComment level => resume level SK_Comment
  | LC_None =>
      '(spans, carry) ← lua_spans (length line) 0 line;
      Ret (contextual_pass line None spans, carry)
  end.

(** ** Diffs *)

Definition diff_kind (line : list Z) : option SyntaxKind :=
  if existsb (λ p, starts_with p line) (codes <$> ["@@"; "---"; "+++"; "diff "; "index "])
  then Some SK_Meta
  else if char_is plus line then Some SK_Added
  else if char_is minus line then Some SK_Removed else None.

Definition diff_highlight_line (line : list Z) : list Span :=
  match diff_kind line with Some kind => [(0%nat, length line, kind)] | None => [] end.

(** ** The Lua re-indenter *)

Definition is_opener (text : list Z) (kind : SyntaxKind) : bool :=
  bool_decide (text ∈ codes <$> ["function"; "do"; "then"; "repeat"]) ||
  is_kind kind SK_Punct && bool_decide (text = [lbrace]).

Definition is_closer (text : list Z) (kind : SyntaxKind) : bool :=
  bool_decide (text ∈ codes <$> ["end"; "until"]) ||
  is_kind kind SK_Punct && bool_decide (text = [rbrace]).

Definition is_else (text : list Z) : bool := bool_decide (text ∈ codes <$> ["else"; "elseif"]).

(** The depth a line is printed at, and the depth after it; [saturating_sub]. *)
Fixpoint scan_depth (line : list Z) (spans : list Span) (leading : bool) (print_depth : option nat)
    (depth : nat) : option nat * nat :=
  match spans with
  | [] => (print_depth, depth)
  | s :: spans =>
      let text := span_text line s in
      let opener := is_opener text s.2 in
      let closer := is_closer text s.2 in
      let change := if opener then S depth else if closer then pred depth else depth in
      if leading then
        if closer then scan_depth line spans true print_depth (pred depth)
        else if is_else text then
          let dedented := pred depth in
          scan_depth line spans false (Some dedented)
            (if bool_decide (text = codes "else") then S dedented else dedented)
        else scan_depth line spans false (Some depth) change
      else scan_depth line spans false print_depth change
  end.

(** [trim_start], by characters. *)
Definition trim_front (line : list Z) : list Z := drop (run_length is_whitespace line) line.

Definition indented (n : nat) (text : list Z) : list Z := replicate n space ++ text.

(** One line of [format]: the line printed, the carry and the depth after it. *)
Definition format_line (line : list Z) (st : LuaCarry * nat) : Outcome (list Z * (LuaCarry * nat)) :=
  let '(state, depth) := st in
  '(spans, next) ← lua_highlight_line line state;
  Ret match state with
      | LC_None =>
          match trim_front line with
          | [] => ([], (next, depth))
          | rest =>
              let '(print_depth, depth) := scan_depth line spans true None depth in
              (indented (4 * default depth print_depth) rest, (next, depth))
          end
      | _ => (line, (next, depth))
      end.

Fixpoint format_lines (lines : list (list Z)) (st : LuaCarry * nat) : Outcome (list (list Z)) :=
  match lines with
  | [] => Ret []
  | line :: lines =>
      '(out, st) ← format_line line st;
      rest ← format_lines lines st;
      Ret (out :: rest)
  end.

Definition lua_format (source : list Z) : Outcome (list Z) :=
  lines ← format_lines (split lf source) (LC_None, O);
  Ret (join lf lines).

(** [format] *)
Definition format_source (lang : Language) (source : list Z) : Outcome (option (list Z)) :=
  match lang with
  | L_Json => Ret (JsonFormat.format is_alphanumeric source)
  | L_Lua => Some <$> lua_format source
  | L_Markdown | L_Diff => Ret None
  end.

(** ** The indentation of a new line *)

(** [classify]: opens a level, closes one. *)
Definition classify (lang : Language) (text : list Z) (kind : SyntaxKind) : bool * bool :=
  match lang with
  | L_Lua => (is_opener text kind, is_closer text kind)
  | L_Json =>
      (is_kind kind SK_Punct && bool_decide (text ∈ [[lbrace]; [lbracket]]),
       is_kind kind SK_Punct && bool_decide (text ∈ [[rbrace]; [rbracket]]))
  | L_Markdown | L_Diff => (false, false)
  end.

Fixpoint balance (lang : Language) (line : list Z) (spans : list Span) (leading : bool) (delta : Z) : Z :=
  match spans with
  | [] => delta
  | s :: spans =>
      let text := span_text line s in
      let '(opener, closer) := classify lang text s.2 in
      let change := if opener then delta + 1 else if closer then delta - 1 else delta in
      if leading then
        if closer then balance lang line spans true delta
        else if (match lang with L_Lua => is_else text | _ => false end) then
          balance lang line spans false (if bool_decide (text = codes "else") then delta + 1 else delta)
        else balance lang line spans false change
      else balance lang line spans false change
  end.

(** [indent_delta]; in the languages without levels no span changes it. *)
Definition indent_delta (lang : Language) (line : list Z) : Outcome Z :=
  match lang with
  | L_Lua => '(spans, _) ← lua_highlight_line line LC_None; Ret (balance L_Lua line spans true 0)
  | L_Json => Ret (balance L_Json line (json_highlight_line line) true 0)
  | L_Markdown | L_Diff => Ret 0
  end.
End lexers.
