(* ===== verification/SyntaxProps.v ===== *)
(** * What the lexers and the Lua re-indenter promise *)

From Stdlib Require Import Wf_nat.
From stdpp Require Import base numbers list strings.
From S2P Require Import Prelude Text JsonFormat Syntax.

Local Open Scope string_scope.
Local Open Scope list_scope.
Local Open Scope Z_scope.

(** ** Scans stay within the line *)

Lemma run_length_le p cs : (run_length p cs ≤ length cs)%nat.
Proof. induction cs as [|c cs IH]; cbn; [lia|]. destruct (p c); lia. Qed.

Lemma run_length_take p cs : Forall (λ c, p c = true) (take (run_length p cs) cs).
Proof. induction cs as [|c cs IH]; cbn; [constructor|]. destruct (p c) eqn:H; cbn; by constructor. Qed.

Lemma run_length_drop p cs :
  match drop (run_length p cs) cs with c :: _ => p c = false | [] => True end.
Proof. induction cs as [|c cs IH]; cbn; [done|]. by destruct (p c) eqn:H. Qed.

Lemma run_length_app p w cs : Forall (λ c, p c = true) w → run_length p (w ++ cs) = (length w + run_length p cs)%nat.
Proof. induction 1 as [|c w Hc _ IH]; cbn; [done|]. by rewrite Hc, IH. Qed.

Lemma char_is_drop c n cs : char_is c (drop n cs) = true → (S n ≤ length cs)%nat.
Proof.
  intros H. destruct (drop n cs) as [|x l] eqn:E; [done|].
  assert (length (drop n cs) = length (x :: l)) as Hl by by rewrite E. rewrite length_drop in Hl. cbn in Hl. lia.
Qed.

Lemma run_length_drop_le p n cs : (n ≤ length cs)%nat → (n + run_length p (drop n cs) ≤ length cs)%nat.
Proof. intros Hn. pose proof (run_length_le p (drop n cs)) as H. rewrite length_drop in H. lia. Qed.

Lemma quoted_rest_le q cs : (quoted_rest q cs ≤ length cs)%nat.
Proof.
  induction cs as [cs IH] using (induction_ltof1 _ (@length Z)). unfold ltof in IH.
  destruct cs as [|c [|c' cs]]; [cbn; lia..|].
  pose proof (IH cs ltac:(cbn; lia)). pose proof (IH (c' :: cs) ltac:(cbn; lia)) as H'.
  change (quoted_rest q (c :: c' :: cs)) with
    (if c =? backslash then S (S (quoted_rest q cs))
     else if c =? q then 1%nat else S (quoted_rest q (c' :: cs))).
  cbn [length] in *. repeat case_match; lia.
Qed.

Lemma scan_quoted_le q c cs : (scan_quoted q (c :: cs) ≤ length (c :: cs))%nat.
Proof. unfold scan_quoted. change (drop 1 (c :: cs)) with cs. pose proof (quoted_rest_le q cs). cbn [length]. lia. Qed.

Lemma sign_length_le n cs : (n ≤ length cs)%nat → (n + sign_length (drop n cs) ≤ length cs)%nat.
Proof.
  intros Hn. unfold sign_length. destruct (char_is plus (drop n cs)) eqn:Hp; cbn.
  - apply char_is_drop in Hp. lia.
  - destruct (char_is minus (drop n cs)) eqn:Hm; [apply char_is_drop in Hm|]; lia.
Qed.

Lemma fraction_length_le cs :
  ((if char_is dot cs then S (run_length is_ascii_digit (drop 1 cs)) else O) ≤ length cs)%nat.
Proof.
  destruct (char_is dot cs) eqn:Hd; [|lia]. apply (char_is_drop dot 0) in Hd.
  by apply (run_length_drop_le is_ascii_digit 1).
Qed.

Lemma scan_fraction_exponent_le b cs : (scan_fraction_exponent cs b ≤ length cs)%nat.
Proof.
  unfold scan_fraction_exponent. pose proof (fraction_length_le cs) as Hn. revert Hn.
  generalize (if char_is dot cs then S (run_length is_ascii_digit (drop 1 cs)) else O). cbn zeta.
  intros n Hn. destruct (char_is 101 (drop n cs) || char_is 69 (drop n cs)) eqn:He; [|done].
  assert (S n ≤ length cs)%nat as Hs.
  { apply orb_true_iff in He as [He|He]; by apply char_is_drop in He. }
  rewrite !drop_drop. pose proof (sign_length_le (n + 1) cs ltac:(lia)) as Hsign.
  pose proof (run_length_drop_le is_ascii_digit (n + (1 + sign_length (drop (n + 1) cs))) cs ltac:(lia)) as Hd.
  destruct (run_length is_ascii_digit _); [destruct b|]; lia.
Qed.

Lemma dotted_length b cs : (0 < 0 + scan_fraction_exponent (dot :: cs) b)%nat.
Proof.
  unfold scan_fraction_exponent. change (char_is dot (dot :: cs)) with true. cbn zeta.
  repeat case_match; lia.
Qed.

Lemma scan_after_le (scan : list Z → nat) n cs :
  (∀ cs, scan cs ≤ length cs)%nat → (n ≤ length cs → n + scan (drop n cs) ≤ length cs)%nat.
Proof. intros Hs Hn. pose proof (Hs (drop n cs)) as H. rewrite length_drop in H. lia. Qed.

Lemma json_number_le cs : (json_number cs ≤ length cs)%nat.
Proof.
  unfold json_number. apply (scan_after_le (λ cs, scan_fraction_exponent cs false)).
  { intros. apply scan_fraction_exponent_le. }
  apply run_length_drop_le. destruct (char_is minus cs) eqn:H; [by apply (char_is_drop minus 0) in H|lia].
Qed.

Lemma hex_number_le cs : (2 ≤ length cs)%nat → (hex_number cs ≤ length cs)%nat.
Proof.
  intros H2. unfold hex_number. pose proof (run_length_drop_le is_ascii_hexdigit 2 cs H2) as Hn. revert Hn.
  generalize (2 + run_length is_ascii_hexdigit (drop 2 cs))%nat. intros n Hn.
  set (n' := if char_is dot (drop n cs) then _ else _).
  assert (n' ≤ length cs)%nat as Hn'.
  { subst n'. destruct (char_is dot (drop n cs)) eqn:Hd; [|done]. apply char_is_drop in Hd.
    apply run_length_drop_le. lia. }
  destruct (char_is 112 (drop n' cs) || char_is 80 (drop n' cs)) eqn:Hp; [|done].
  assert (n' + 1 ≤ length cs)%nat as Hs.
  { apply orb_true_iff in Hp as [Hp|Hp]; apply char_is_drop in Hp; lia. }
  apply run_length_drop_le. by apply sign_length_le.
Qed.

Lemma parse_number_le cs : (parse_number cs ≤ length cs)%nat.
Proof.
  unfold parse_number. destruct (char_is 48 cs && _) eqn:Hx.
  - apply hex_number_le. apply andb_prop in Hx as [_ Hx].
    apply orb_true_iff in Hx as [Hx|Hx]; by apply char_is_drop in Hx.
  - apply (scan_after_le (λ cs, scan_fraction_exponent cs true)); [|apply run_length_le].
    intros. apply scan_fraction_exponent_le.
Qed.

Lemma find_long_close_le level cs n : find_long_close level cs = Some n → (0 < n ≤ length cs)%nat.
Proof.
  revert n. induction cs as [|c cs IH]; intros n; cbn; [done|].
  destruct ((c =? rbracket) && closes level cs) eqn:Hc.
  - intros [= <-]. apply andb_prop in Hc as [_ Hc]. unfold closes in Hc.
    apply andb_prop in Hc as [_ Hc]. apply char_is_drop in Hc. lia.
  - destruct (find_long_close level cs) as [m|]; [|done]. intros [= <-]. specialize (IH m eq_refl). lia.
Qed.

Lemma starts_with_le pat cs : starts_with pat cs = true → (length pat ≤ length cs)%nat.
Proof.
  revert cs. induction pat as [|p pat IH]; intros [|c cs]; cbn; try done; [lia|].
  intros [_ H]%andb_prop. specialize (IH cs H). lia.
Qed.

Lemma match_long_open_le cs level n : match_long_open cs = Ret (Some (level, n)) → (0 < n ≤ length cs)%nat.
Proof.
  unfold match_long_open. destruct (char_is lbracket cs); [|done].
  destruct (level_count _) as [l|]; [|done]. cbn [mbind outcome_bind].
  destruct (char_is lbracket (drop (1 + l) cs)) eqn:Hb; [|done]. intros [= <- <-].
  apply char_is_drop in Hb. lia.
Qed.

Section lexers.
Context (is_alphabetic is_numeric : Z → bool).

Abbreviation token := (lua_token is_alphabetic is_numeric).
Abbreviation plain := (lua_plain is_alphabetic is_numeric).
Abbreviation lex := (lua_spans is_alphabetic is_numeric).
Abbreviation highlight := (lua_highlight_line is_alphabetic is_numeric).
Abbreviation json_lex := (json_spans is_alphabetic is_numeric).
Abbreviation print_line := (format_line is_alphabetic is_numeric).
Abbreviation print_all := (format_lines is_alphabetic is_numeric).

(** ** Spans in order *)

(** The spans follow one another from [a] to [b]. *)
Fixpoint in_order (a : nat) (spans : list Span) (b : nat) : Prop :=
  match spans with
  | [] => (a ≤ b)%nat
  | s :: spans => (a ≤ s.1.1)%nat ∧ (s.1.1 < s.1.2)%nat ∧ in_order s.1.2 spans b
  end.

Lemma in_order_weaken a a' spans b : in_order a spans b → (a' ≤ a)%nat → in_order a' spans b.
Proof. destruct spans as [|s spans]; cbn; [lia|]. intros (H & H' & H'') Ha. split_and!; [lia|done..]. Qed.

Lemma word_length (p : Z → bool) c cs : p c = true → (0 < run_length p (c :: cs) ≤ length (c :: cs))%nat.
Proof. intros Hc. pose proof (run_length_le p (c :: cs)) as H. cbn [run_length] in *. rewrite Hc in *. lia. Qed.

Lemma lua_plain_width c cs n kind :
  plain c (c :: cs) = TK_Span n kind → (0 < n ≤ length (c :: cs))%nat.
Proof using Type.
  unfold lua_plain. destruct ((c =? quote) || (c =? 39)).
  { intros [= <- _]. split; [unfold scan_quoted; lia|apply scan_quoted_le]. }
  destruct (is_ascii_digit c || _) eqn:Hd.
  { intros [= <- _]. split; [|apply parse_number_le]. unfold parse_number.
    destruct (char_is 48 (c :: cs) && _); [unfold hex_number; repeat case_match; lia|].
    apply orb_true_iff in Hd as [Hd|Hd]; [cbn [run_length]; rewrite Hd; lia|].
    apply andb_prop in Hd as [->%Z.eqb_eq Hd]. change (drop 1 (dot :: cs)) with cs in Hd.
    change (run_length is_ascii_digit (dot :: cs)) with 0%nat. by apply dotted_length. }
  destruct (word_start is_alphabetic c) eqn:Hw.
  { intros [= <- _]. apply word_length. unfold word_start, word_char, is_alphanumeric in *.
    apply orb_true_iff in Hw as [->| ->]; [done|]. by rewrite orb_true_r. }
  destruct (find _ OPS) as [op|] eqn:Hop; [|done]. intros [= <- _].
  apply List.find_some in Hop as [Hin Hop]. split; [|by apply starts_with_le].
  repeat (destruct Hin as [<-|Hin]; [cbn; lia|]). done.
Qed.

Lemma lua_token_width c cs n kind :
  token c (c :: cs) = Ret (TK_Span n kind) → (0 < n ≤ length (c :: cs))%nat.
Proof using Type.
  unfold lua_token. destruct (is_whitespace c); [done|]. destruct ((c =? minus) && _) eqn:Hm.
  - apply andb_prop in Hm as [_ Hm]. apply char_is_drop in Hm. unfold lua_comment.
    destruct (match_long_open _) as [[[level m]|]|] eqn:Ho; [|done..].
    apply match_long_open_le in Ho. rewrite length_drop in Ho. cbn [mbind outcome_bind].
    destruct (find_long_close _ _) as [close|] eqn:Hf; [|done]. intros [= <- _].
    apply find_long_close_le in Hf. rewrite length_drop in Hf. cbn [length] in *. lia.
  - destruct (if c =? lbracket then _ else _) as [[[level m]|]|] eqn:Ho; [..|done]; cbn [mbind outcome_bind].
    + destruct (c =? lbracket); [|done]. apply match_long_open_le in Ho.
      destruct (find_long_close _ _) as [close|] eqn:Hf; [|done]. intros [= <- _].
      apply find_long_close_le in Hf. rewrite length_drop in Hf. lia.
    + intros [= Hp]. by apply lua_plain_width in Hp.
Qed.

Lemma lua_spans_in_order fuel pos cs spans carry :
  lex fuel pos cs = Ret (spans, carry) → in_order pos spans (pos + length cs).
Proof using Type.
  revert pos cs spans carry. induction fuel as [|fuel IH]; intros pos [|c cs] spans carry; cbn [lua_spans].
  1-3: intros [= <- _]; cbn; lia.
  destruct (token c (c :: cs)) as [[|n kind|kind next]|] eqn:Ht; [..|done]; cbn [mbind outcome_bind].
  - intros H%IH. replace (pos + length (c :: cs))%nat with (pos + 1 + length cs)%nat by (cbn; lia).
    eapply in_order_weaken; [done|lia].
  - apply lua_token_width in Ht. destruct (lex fuel (pos + n) (drop n (c :: cs))) as [[spans' carry']|] eqn:Hl; [|done].
    intros [= <- _]. apply IH in Hl. rewrite length_drop in Hl.
    replace (pos + n + (length (c :: cs) - n))%nat with (pos + length (c :: cs))%nat in Hl by lia.
    cbn [in_order fst snd]. split_and!; [lia|lia|done].
  - intros [= <- _]. cbn. lia.
Qed.

Lemma contextual_in_order line prev a spans b :
  in_order a spans b → in_order a (contextual_pass line prev spans) b.
Proof using Type.
  revert prev a. induction spans as [|s spans IH]; intros prev a; cbn; [done|].
  intros (H1 & H2 & H3). destruct (is_kind s.2 SK_Ident); cbn; split_and!; try done; by apply IH.
Qed.

(** A line is coloured by spans that follow one another and lie within it; a line
    inside a long bracket from end to end is one span, which may be empty. *)
Theorem lua_highlight_in_order line state spans carry :
  highlight line state = Ret (spans, carry) →
  in_order 0 spans (length line) ∨ carry = state ∧ ∃ kind, spans = [(0%nat, length line, kind)].
Proof using Type.
  assert (∀ level kind,
    match find_long_close level line with
    | Some close =>
        '(spans, carry) ← lex (length line) close (drop close line);
        Ret (contextual_pass line None ((0%nat, close, kind) :: spans), carry)
    | None => Ret ([(0%nat, length line, kind)], state)
    end = Ret (spans, carry) →
    in_order 0 spans (length line) ∨ carry = state ∧ ∃ kind, spans = [(0%nat, length line, kind)]) as Hres.
  { intros level kind. destruct (find_long_close level line) as [close|] eqn:Hf; [|intros [= <- <-]; eauto].
    apply find_long_close_le in Hf.
    destruct (lex (length line) close (drop close line)) as [[spans' carry']|] eqn:Hl; [|done].
    intros [= <- _]. left. apply lua_spans_in_order in Hl. rewrite length_drop in Hl.
    apply (contextual_in_order line None 0 ((0%nat, close, kind) :: spans')). cbn [in_order fst snd].
    replace (close + (length line - close))%nat with (length line) in Hl by lia. split_and!; [lia|lia|done]. }
  unfold lua_highlight_line. destruct state as [|level|level]; [|by apply Hres..].
  destruct (lex (length line) 0 line) as [[spans' carry']|] eqn:Hl; [|done].
  intros [= <- _]. left. apply lua_spans_in_order in Hl. by apply contextual_in_order.
Qed.

Lemma json_number_width c cs :
  (c =? minus) || is_ascii_digit c = true → (0 < json_number (c :: cs) ≤ length (c :: cs))%nat.
Proof.
  intros Hc. split; [|apply json_number_le]. unfold json_number. cbn [char_is].
  destruct (c =? minus); cbn zeta; [lia|]. cbn [orb] in Hc. cbn [drop run_length]. rewrite Hc. lia.
Qed.

Lemma json_spans_in_order fuel pos cs : in_order pos (json_lex fuel pos cs) (pos + length cs).
Proof using Type.
  revert pos cs. induction fuel as [|fuel IH]; intros pos [|c cs]; cbn [json_spans]; try (cbn; lia).
  assert (∀ n, (0 < n ≤ length (c :: cs))%nat →
    in_order (pos + n) (json_lex fuel (pos + n) (drop n (c :: cs))) (pos + length (c :: cs))) as Hstep.
  { intros n Hn. replace (pos + length (c :: cs))%nat with (pos + n + length (drop n (c :: cs)))%nat; [apply IH|].
    rewrite length_drop. lia. }
  assert (∀ n kind, (0 < n ≤ length (c :: cs))%nat → in_order pos ((pos, (pos + n)%nat, kind) ::
    json_lex fuel (pos + n) (drop n (c :: cs))) (pos + length (c :: cs))) as Hspan.
  { intros n kind Hn. cbn [in_order fst snd]. split_and!; [lia|lia|by apply Hstep]. }
  assert (in_order pos (json_lex fuel (pos + 1) cs) (pos + length (c :: cs))) as Hskip.
  { eapply in_order_weaken; [apply (Hstep 1%nat); cbn; lia|lia]. }
  destruct (is_whitespace c); [done|]. destruct (c =? quote).
  { apply Hspan. split; [unfold scan_quoted; lia|apply scan_quoted_le]. }
  destruct ((c =? minus) || is_ascii_digit c) eqn:Hd; [by apply Hspan, json_number_width|].
  destruct (is_alphabetic c) eqn:Ha.
  { assert (0 < run_length (is_alphanumeric is_alphabetic is_numeric) (c :: cs) ≤ length (c :: cs))%nat as Hn
      by (apply word_length; unfold is_alphanumeric; by rewrite Ha).
    destruct (bool_decide _); [by apply Hspan|]. eapply in_order_weaken; [by apply Hstep|lia]. }
  destruct (json_punct c); [|done]. apply (Hspan 1%nat). cbn. lia.
Qed.

(** ** Leading space does not matter *)

Definition moved (k : nat) (s : Span) : Span := ((s.1.1 + k)%nat, (s.1.2 + k)%nat, s.2).
Definition all_moved (k : nat) (r : list Span * LuaCarry) : list Span * LuaCarry := (moved k <$> r.1, r.2).

Lemma lex_fuel fuel pos cs : (length cs ≤ fuel)%nat → lex fuel pos cs = lex (length cs) pos cs.
Proof using Type.
  revert pos cs. induction fuel as [fuel IH] using lt_wf_ind; intros pos cs Hle.
  destruct fuel as [|fuel], cs as [|c cs]; try done; [cbn in Hle; lia|]. cbn [lua_spans length].
  destruct (token c (c :: cs)) as [[|n kind|kind next]|] eqn:Ht; [..|done|done]; cbn [mbind outcome_bind].
  - rewrite (IH fuel) by (cbn in Hle; lia). done.
  - apply lua_token_width in Ht. cbn [length] in Hle, Ht.
    assert (length (drop n (c :: cs)) ≤ length cs)%nat as Hd by (rewrite length_drop; cbn [length]; lia).
    rewrite (IH fuel), <- (IH (length cs)) by lia. done.
Qed.

Lemma lex_shift k fuel pos cs :
  lex fuel (pos + k) cs = all_moved k <$> lex fuel pos cs.
Proof using Type.
  revert pos cs. induction fuel as [|fuel IH]; intros pos [|c cs]; try done. cbn [lua_spans].
  destruct (token c (c :: cs)) as [[|n kind|kind next]|]; cbn [mbind outcome_bind]; [..|done].
  - rewrite <- IH. f_equal. lia.
  - replace (pos + k + n)%nat with (pos + n + k)%nat by lia. rewrite IH.
    destruct (lex fuel (pos + n) (drop n (c :: cs))) as [[spans carry]|]; [|done]. cbn. unfold all_moved, moved. cbn.
    done.
  - cbn. unfold all_moved, moved. cbn.
    by replace (pos + k + S (length cs))%nat with (pos + S (length cs) + k)%nat by lia.
Qed.

Lemma lex_space w fuel pos cs :
  Forall (λ c, is_whitespace c = true) w → (length (w ++ cs) ≤ fuel)%nat →
  lex fuel pos (w ++ cs) = lex (length cs) (pos + length w) cs.
Proof using Type.
  intros Hw. revert fuel pos. induction Hw as [|c w Hc _ IH]; intros fuel pos Hle.
  - cbn [app length] in *. rewrite Nat.add_0_r. by apply lex_fuel.
  - destruct fuel as [|fuel]; [cbn in Hle; lia|]. cbn [app lua_spans]. unfold lua_token. rewrite Hc.
    cbn [mbind outcome_bind]. rewrite IH by (cbn in Hle; lia). f_equal. cbn [length]. lia.
Qed.

Lemma span_text_moved w cs s : span_text (w ++ cs) (moved (length w) s) = span_text cs s.
Proof using Type.
  unfold span_text, moved. cbn [fst snd].
  replace (s.1.2 + length w - (s.1.1 + length w))%nat with (s.1.2 - s.1.1)%nat by lia. f_equal.
  rewrite Nat.add_comm, drop_app_ge by lia. f_equal. lia.
Qed.

Lemma contextual_moved w cs prev spans :
  contextual_pass (w ++ cs) (moved (length w) <$> prev) (moved (length w) <$> spans) =
    moved (length w) <$> contextual_pass cs prev spans.
Proof using Type.
  revert prev. induction spans as [|s spans IH]; intros prev; [done|].
  assert (∀ p c, is_punct (w ++ cs) (moved (length w) p) c = is_punct cs p c) as Hp.
  { intros p c. unfold is_punct. by rewrite span_text_moved. }
  assert (ident_kind (w ++ cs) (moved (length w) <$> prev) (moved (length w) <$> spans) =
    ident_kind cs prev spans) as Hk.
  { unfold ident_kind. destruct prev, spans as [|n [|n2 spans]]; cbn [fmap option_fmap option_map list_fmap];
      rewrite ?Hp; done. }
  cbn [fmap list_fmap contextual_pass]. rewrite Hk. cbn [moved snd].
  rewrite <- (IH (Some (if is_kind s.2 SK_Ident then (s.1, ident_kind cs prev spans) else s))).
  destruct (is_kind s.2 SK_Ident); done.
Qed.

Lemma scan_depth_moved w cs spans leading print_depth depth :
  scan_depth (w ++ cs) (moved (length w) <$> spans) leading print_depth depth =
    scan_depth cs spans leading print_depth depth.
Proof using Type.
  revert leading print_depth depth. induction spans as [|s spans IH]; intros leading print_depth depth; [done|].
  cbn [fmap list_fmap scan_depth]. rewrite span_text_moved. cbn [moved snd]. cbn zeta.
  destruct leading; [|by rewrite IH]. destruct (is_closer _ _); [by rewrite IH|].
  destruct (is_else _); by rewrite IH.
Qed.

Lemma highlight_space w cs :
  Forall (λ c, is_whitespace c = true) w →
  highlight (w ++ cs) LC_None =
    all_moved (length w) <$> highlight cs LC_None.
Proof using Type.
  intros Hw. unfold lua_highlight_line. rewrite lex_space by done.
  rewrite (lex_shift (length w) (length cs) 0 cs).
  destruct (lex (length cs) 0 cs) as [[spans carry]|]; [|done]. cbn.
  by rewrite (contextual_moved w cs None spans : contextual_pass (w ++ cs) None _ = _).
Qed.

(** ** Re-indenting *)

Lemma front_split line :
  line = take (run_length is_whitespace line) line ++ trim_front line.
Proof. symmetry. apply take_drop. Qed.

Lemma trim_front_space w cs :
  Forall (λ c, is_whitespace c = true) w → trim_front (w ++ cs) = trim_front cs.
Proof.
  intros Hw. unfold trim_front. rewrite run_length_app by done.
  by rewrite drop_app_ge, Nat.add_comm, Nat.add_sub by lia.
Qed.

Lemma trim_front_indented n rest : trim_front (indented n rest) = trim_front rest.
Proof. apply trim_front_space. by apply Forall_replicate. Qed.

Lemma trim_front_idemp line : trim_front (trim_front line) = trim_front line.
Proof.
  unfold trim_front at 1. pose proof (run_length_drop is_whitespace line) as H.
  fold (trim_front line) in H. destruct (trim_front line) as [|c rest]; [done|]. cbn. by rewrite H.
Qed.

(** A line outside long brackets is read by what follows its leading space. *)
Lemma format_line_front line depth :
  print_line line (LC_None, depth) = print_line (trim_front line) (LC_None, depth).
Proof using Type.
  rewrite (front_split line) at 1. set (w := take _ line).
  assert (Forall (λ c, is_whitespace c = true) w) as Hw by apply run_length_take.
  unfold format_line. rewrite highlight_space, trim_front_idemp by done.
  rewrite trim_front_space, trim_front_idemp by done.
  destruct (highlight (trim_front line) LC_None) as [[spans carry]|]; [|done].
  cbn [fmap outcome_fmap mbind outcome_bind all_moved fst snd]. rewrite scan_depth_moved.
  by destruct (trim_front line).
Qed.

(** What a printed line is of the line read. *)
Lemma format_line_spec line st out st' :
  print_line line st = Ret (out, st') →
  match st.1 with
  | LC_None => trim_front out = trim_front line ∧
      (trim_front line = [] ∧ out = [] ∨ ∃ n, out = indented (4 * n) (trim_front line))
  | _ => out = line
  end.
Proof using Type.
  destruct st as [state depth]. unfold format_line.
  destruct (highlight line state) as [[spans carry]|]; [|done]. cbn [mbind outcome_bind fst].
  destruct state; [|by intros [= <- _]..].
  destruct (trim_front line) as [|c rest] eqn:Hf; [intros [= <- _]; auto|].
  destruct (scan_depth line spans true None depth) as [p d]. intros [= <- _].
  rewrite trim_front_indented, <- Hf, trim_front_idemp. eauto.
Qed.

Lemma format_line_idemp line st out st' :
  print_line line st = Ret (out, st') → print_line out st = Ret (out, st').
Proof using Type.
  intros H. pose proof (format_line_spec _ _ _ _ H) as Hs. destruct st as [[|level|level] depth];
    cbn [fst] in Hs; [|by subst..].
  rewrite format_line_front in H |- *. by rewrite (proj1 Hs).
Qed.

(** No [u8] counts the equals signs of a bracket past its end. *)
Definition shallow (line : list Z) : Prop :=
  ∀ n, (run_length (Z.eqb equals_sign) (drop n line) < 256)%nat.

Lemma shallow_drop n line : shallow line → shallow (drop n line).
Proof. intros H k. rewrite drop_drop. apply H. Qed.

Lemma shallow_open line : shallow line → ∃ o, match_long_open line = Ret o.
Proof.
  intros H. unfold match_long_open. destruct (char_is lbracket line); [|by eexists].
  unfold level_count. specialize (H 1%nat).
  destruct (Z.ltb_spec (Z.of_nat (run_length (Z.eqb equals_sign) (drop 1 line))) (2 ^ 8)); [by eexists|lia].
Qed.

Lemma shallow_token c line : shallow line → ∃ t, token c line = Ret t.
Proof using Type.
  intros H. unfold lua_token. destruct (is_whitespace c); [by eexists|]. destruct ((c =? minus) && _).
  - unfold lua_comment. destruct (shallow_open _ (shallow_drop 2 _ H)) as [o ->]. by eexists.
  - destruct (c =? lbracket); [destruct (shallow_open _ H) as [o ->]|]; by eexists.
Qed.

Lemma shallow_lex fuel pos cs : shallow cs → ∃ r, lex fuel pos cs = Ret r.
Proof using Type.
  revert pos cs. induction fuel as [|fuel IH]; intros pos [|c cs] H; cbn [lua_spans]; try by eexists.
  destruct (shallow_token c _ H) as [t ->]. cbn [mbind outcome_bind].
  destruct t as [|n kind|kind next]; [|destruct (IH (pos + n)%nat (drop n (c :: cs))) as [[spans carry] ->]|];
    [apply IH, (shallow_drop 1 _ H)|by apply shallow_drop|by eexists..].
Qed.

Lemma shallow_highlight line state : shallow line → ∃ r, highlight line state = Ret r.
Proof using Type.
  intros H. destruct (shallow_lex (length line) 0 line H) as [[spans carry] Hl]. unfold lua_highlight_line.
  destruct state as [|level|level]; [rewrite Hl; by eexists| |];
    (destruct (find_long_close level line) as [n|]; [|by eexists]);
    destruct (shallow_lex (length line) n _ (shallow_drop n _ H)) as [[spans' carry'] ->]; by eexists.
Qed.

Lemma shallow_print line st : shallow line → ∃ r, print_line line st = Ret r.
Proof using Type.
  intros H. destruct st as [state depth]. unfold format_line.
  destruct (shallow_highlight line state H) as [[spans carry] ->]. by eexists.
Qed.

(** *** The reference layout *)

(** What a token does to the level. *)
Inductive Mark := Opens | Closes | Else | ElseIf | Neutral.

Definition mark_of (text : list Z) (kind : SyntaxKind) : Mark :=
  let brace := λ c, match kind with SK_Punct => bool_decide (text = [c]) | _ => false end in
  let word := λ w, bool_decide (text = codes w) in
  if word "function" || word "do" || word "then" || word "repeat" || brace 123 then Opens
  else if word "end" || word "until" || brace 125 then Closes
  else if word "else" then Else
  else if word "elseif" then ElseIf
  else Neutral.

Definition marks_of (line : list Z) (spans : list Span) : list Mark :=
  (λ s, mark_of (take (s.1.2 - s.1.1) (drop s.1.1 line)) s.2) <$> spans.

(** The tokens that close a level before any other token, and the rest. *)
Fixpoint lead (ms : list Mark) : nat := match ms with Closes :: ms => S (lead ms) | _ => O end.

(** A line stands at the level that its leading closers leave, an [else] or
    [elseif] one further out. *)
Definition print_level (ms : list Mark) (depth : nat) : nat :=
  match drop (lead ms) ms with
  | Else :: _ | ElseIf :: _ => depth - lead ms - 1
  | _ => depth - lead ms
  end.

Definition settle (depth : nat) (ms : list Mark) : nat :=
  foldl (λ d m, match m with Opens => S d | Closes => pred d | _ => d end) depth ms.

(** The level of the next line: of the body for an [else], which has no [then]. *)
Definition next_level (ms : list Mark) (depth : nat) : nat :=
  match drop (lead ms) ms with
  | Else :: ms' => settle (S (print_level ms depth)) ms'
  | ElseIf :: ms' => settle (print_level ms depth) ms'
  | ms' => settle (print_level ms depth) ms'
  end.

(** [rest] is [line] without the space in front. *)
Definition fronted (line rest : list Z) : Prop :=
  ∃ front, line = front ++ rest ∧ Forall (λ c, is_whitespace c = true) front ∧
    match rest with c :: _ => is_whitespace c = false | [] => True end.

(** The lines [outs] that [lines] are laid out as, from a carry and a depth on: a
    line inside a long bracket is kept, a line of space is cleared, another is
    moved to four spaces a level. *)
Fixpoint laid_out (carry : LuaCarry) (depth : nat) (lines outs : list (list Z)) : Prop :=
  match lines, outs with
  | [], [] => True
  | line :: lines, out :: outs =>
      ∃ spans next, highlight line carry = Ret (spans, next) ∧
      match carry with
      | LC_None =>
          ∃ rest, fronted line rest ∧
          match rest with
          | [] => out = [] ∧ laid_out next depth lines outs
          | _ =>
              let ms := marks_of line spans in
              out = replicate (4 * print_level ms depth) 32 ++ rest ∧
              laid_out next (next_level ms depth) lines outs
          end
      | _ => out = line ∧ laid_out next depth lines outs
      end
  | _, _ => False
  end.

Lemma mark_of_spec text kind :
  match mark_of text kind with
  | Opens => is_opener text kind = true ∧ is_closer text kind = false ∧ is_else text = false
  | Closes => is_opener text kind = false ∧ is_closer text kind = true ∧ is_else text = false
  | Else => is_opener text kind = false ∧ is_closer text kind = false ∧ text = codes "else"
  | ElseIf => is_opener text kind = false ∧ is_closer text kind = false ∧ text = codes "elseif"
  | Neutral => is_opener text kind = false ∧ is_closer text kind = false ∧ is_else text = false
  end.
Proof.
  assert (∀ w ws, bool_decide (text ∈ codes <$> (w :: ws)) =
    bool_decide (text = codes w) || bool_decide (text ∈ codes <$> ws)) as Hcons.
  { intros w ws. rewrite <-bool_decide_or. apply bool_decide_ext, elem_of_cons. }
  assert (∀ c, is_kind kind SK_Punct && bool_decide (text = [c]) =
    match kind with SK_Punct => bool_decide (text = [c]) | _ => false end) as Hbrace by by destruct kind.
  unfold mark_of, is_opener, is_closer, is_else. rewrite !Hbrace, !Hcons.
  change (codes <$> []) with (@nil (list Z)). unfold lbrace, rbrace.
  rewrite !(bool_decide_eq_false_2 (text ∈ [])) by apply not_elem_of_nil. rewrite !orb_false_r.
  cbv zeta.
  repeat (case_bool_decide; [subst text; destruct kind; by vm_compute|]). by destruct kind.
Qed.

Lemma scan_settle line spans p depth :
  scan_depth line spans false p depth = (p, settle depth (marks_of line spans)).
Proof.
  revert depth. induction spans as [|s spans IH]; intros depth; [done|]. cbn [scan_depth]. cbn zeta.
  rewrite IH. unfold marks_of. rewrite fmap_cons. unfold settle at 2. cbn [foldl].
  fold (span_text line s). pose proof (mark_of_spec (span_text line s) s.2) as Hm. f_equal. f_equal.
  destruct (mark_of _ _); by destruct Hm as (-> & H2 & _); rewrite ?H2.
Qed.

Lemma levels_closes ms depth :
  print_level (Closes :: ms) depth = print_level ms (pred depth) ∧
  next_level (Closes :: ms) depth = next_level ms (pred depth).
Proof.
  assert (print_level (Closes :: ms) depth = print_level ms (pred depth)) as H.
  { unfold print_level. cbn [lead drop]. replace (depth - S (lead ms))%nat with (pred depth - lead ms)%nat by lia.
    done. }
  split; [exact H|]. unfold next_level. rewrite H. done.
Qed.

Lemma scan_levels line spans depth :
  let ms := marks_of line spans in
  let r := scan_depth line spans true None depth in
  default r.2 r.1 = print_level ms depth ∧ r.2 = next_level ms depth.
Proof.
  revert depth. induction spans as [|s spans IH]; intros depth.
  { cbn. unfold print_level, next_level, settle. cbn. rewrite Nat.sub_0_r. done. }
  cbv zeta. unfold marks_of in *. rewrite fmap_cons. cbn [scan_depth]. cbn zeta.
  fold (span_text line s). pose proof (mark_of_spec (span_text line s) s.2) as Hm.
  destruct (mark_of (span_text line s) s.2) eqn:Hk; destruct Hm as (H1 & H2 & H3);
    rewrite ?H1, ?H2.
  2: { destruct (levels_closes (marks_of line spans) depth) as [E1 E2]. unfold marks_of in E1, E2.
       rewrite E1, E2. apply IH. }
  all: rewrite H3, ?scan_settle; unfold print_level, next_level, settle;
    cbn [lead drop fst snd default foldl]; unfold print_level; cbn [lead drop];
    rewrite ?Nat.sub_0_r; try done.
  all: rewrite Nat.sub_1_r;
    change (is_else (codes "else")) with true; change (is_else (codes "elseif")) with true;
    change (bool_decide (codes "else" = codes "else")) with true;
    change (bool_decide (codes "elseif" = codes "else")) with false; done.
Qed.

Lemma fronted_trim line : fronted line (trim_front line).
Proof.
  exists (take (run_length is_whitespace line) line). split; [apply front_split|].
  split; [apply run_length_take|]. pose proof (run_length_drop is_whitespace line) as H.
  fold (trim_front line) in H. by destruct (trim_front line).
Qed.

Lemma print_lines_spec lines st :
  Forall shallow lines →
  ∃ out, print_all lines st = Ret out ∧ print_all out st = Ret out ∧
    laid_out st.1 st.2 lines out ∧ Forall2 (λ line o, lf ∉ line → lf ∉ o) lines out.
Proof using Type.
  intros Hs. revert st. induction Hs as [|line lines Hl _ IH]; intros st; [by exists []|]. cbn [format_lines].
  destruct (shallow_print line st Hl) as [[out st'] Hp]. destruct (IH st') as (rest & Hr & Hrr & Hall & Hlf).
  exists (out :: rest). rewrite Hp. cbn [mbind outcome_bind]. rewrite Hr. cbn [format_lines mbind outcome_bind].
  rewrite (format_line_idemp _ _ _ _ Hp). cbn [mbind outcome_bind]. rewrite Hrr.
  split_and!; [done|done| |].
  - destruct st as [carry depth]. unfold format_line in Hp. cbn [laid_out fst snd].
    destruct (highlight line carry) as [[spans next]|]; [|done]. cbn [mbind outcome_bind] in Hp.
    exists spans, next. split; [done|]. destruct carry; [|by injection Hp as <- <-..].
    exists (trim_front line). split; [apply fronted_trim|].
    destruct (trim_front line) as [|c l]; [by injection Hp as <- <-|].
    destruct (scan_levels line spans depth) as [L1 L2].
    destruct (scan_depth line spans true None depth) as [p d]. cbn [fst snd] in L1, L2.
    injection Hp as <- <-. cbn zeta. rewrite <-L1, <-L2. by split.
  - constructor; [|done]. apply format_line_spec in Hp. intros Hn.
    assert (∀ n, lf ∉ indented n (trim_front line)) as Hi.
    { intros n [Hin|Hin]%elem_of_app; [by apply elem_of_replicate in Hin as [? _]|].
      apply Hn. rewrite (front_split line). apply elem_of_app. by right. }
    destruct st as [[|level|level] depth]; cbn [fst] in Hp; [|by subst..].
    destruct Hp as [_ [[_ ->]|[n ->]]]; [apply not_elem_of_nil|apply Hi].
Qed.


(** ** The indentation of a new line *)

(** How many spans of a line close a level. *)
Definition lowers (line : list Z) (s : Span) : bool :=
  is_closer (span_text line s) s.2 || is_else (span_text line s).
Definition closers (line : list Z) (spans : list Span) : nat :=
  length (filter (λ s, lowers line s = true) spans).

Lemma balance_shift lang line spans leading delta k :
  balance lang line spans leading (delta + k) = balance lang line spans leading delta + k.
Proof.
  revert leading delta. induction spans as [|s spans IH]; intros leading delta; [done|]. cbn [balance].
  destruct (classify lang (span_text line s) s.2) as [opener closer]. cbn zeta.
  assert ((if opener then delta + k + 1 else if closer then delta + k - 1 else delta + k) =
    (if opener then delta + 1 else if closer then delta - 1 else delta) + k) as -> by (repeat case_match; lia).
  destruct leading; [|apply IH]. destruct closer; [apply IH|].
  destruct (match lang with L_Lua => _ | _ => _ end); [|apply IH].
  destruct (bool_decide _); [|apply IH]. rewrite <- IH. f_equal. lia.
Qed.

Lemma closers_cons line s spans :
  closers line (s :: spans) = ((if lowers line s then 1 else 0) + closers line spans)%nat.
Proof.
  unfold closers. rewrite filter_cons. destruct (lowers line s) eqn:Hc.
  - by rewrite decide_True.
  - by rewrite decide_False.
Qed.

(** Past the first token that closes nothing the two scans agree. *)
Lemma scan_depth_rest line spans p depth :
  (closers line spans ≤ depth)%nat →
  ∃ depth', scan_depth line spans false p depth = (p, depth') ∧
    Z.of_nat depth' = Z.of_nat depth + balance L_Lua line spans false 0.
Proof.
  revert depth. induction spans as [|s spans IH]; intros depth Hc; cbn [scan_depth balance classify].
  - exists depth. split; [done|lia].
  - cbn zeta. rewrite closers_cons in Hc. unfold lowers in Hc. destruct (is_opener (span_text line s) s.2).
    + destruct (IH (S depth)) as (d & -> & Hd); [lia|].
      exists d. split; [done|]. rewrite Hd, (balance_shift _ _ _ _ 0 1). lia.
    + destruct (is_closer (span_text line s) s.2); [|apply IH; lia].
      cbn [orb] in Hc. destruct (IH (pred depth)) as (d & -> & Hd); [lia|]. exists d. split; [done|].
      rewrite Hd, (balance_shift _ _ _ _ 0 (-1)). lia.
Qed.

(** The depth a line is printed at and its balance give the depth after it. *)
Lemma scan_depth_balance line spans depth :
  (closers line spans ≤ depth)%nat →
  let r := scan_depth line spans true None depth in
  Z.of_nat r.2 = Z.of_nat (default r.2 r.1) + balance L_Lua line spans true 0.
Proof.
  cbn zeta. revert depth. induction spans as [|s spans IH]; intros depth Hc; [cbn; lia|].
  rewrite closers_cons in Hc. unfold lowers in Hc. cbn [scan_depth balance classify]. cbn zeta.
  destruct (is_closer (span_text line s) s.2); cbn [orb] in Hc; [apply IH; lia|].
  destruct (is_else (span_text line s)).
  - destruct (bool_decide (span_text line s = codes "else")).
    + destruct (scan_depth_rest line spans (Some (pred depth)) (S (pred depth))) as (d & -> & Hd); [lia|].
      cbn [fst snd default]. rewrite Hd, (balance_shift _ _ _ _ 0 1). cbn. lia.
    + destruct (scan_depth_rest line spans (Some (pred depth)) (pred depth)) as (d & -> & Hd); [lia|].
      cbn [fst snd default]. rewrite Hd. cbn. lia.
  - destruct (is_opener (span_text line s) s.2).
    + destruct (scan_depth_rest line spans (Some depth) (S depth)) as (d & -> & Hd); [lia|].
      cbn [fst snd default]. rewrite Hd, (balance_shift _ _ _ _ 0 1). cbn. lia.
    + destruct (scan_depth_rest line spans (Some depth) depth) as (d & -> & Hd); [lia|].
      cbn [fst snd default]. rewrite Hd. cbn. lia.
Qed.

Lemma balance_moved lang w cs spans leading delta :
  balance lang (w ++ cs) (moved (length w) <$> spans) leading delta = balance lang cs spans leading delta.
Proof using Type.
  revert leading delta. induction spans as [|s spans IH]; intros leading delta; [done|].
  cbn [fmap list_fmap balance]. rewrite span_text_moved. cbn [moved snd].
  destruct (classify lang (span_text cs s) s.2) as [opener closer]. cbn zeta. rewrite !IH. done.
Qed.

(** The balance of a line is that of what follows its leading space. *)
Lemma balance_front line spans carry :
  highlight line LC_None = Ret (spans, carry) →
  ∃ spans', highlight (trim_front line) LC_None = Ret (spans', carry) ∧
    balance L_Lua line spans true 0 = balance L_Lua (trim_front line) spans' true 0.
Proof using Type.
  rewrite (front_split line) at 1. set (w := take _ line).
  assert (Forall (λ c, is_whitespace c = true) w) as Hw by apply run_length_take.
  rewrite highlight_space by done.
  destruct (highlight (trim_front line) LC_None) as [[spans' carry']|]; [|done]. intros [= <- <-].
  exists spans'. split; [done|]. rewrite (front_split line) at 1. apply balance_moved.
Qed.

Lemma leading_spaces n c rest : is_whitespace c = false → run_length (Z.eqb space) (indented n (c :: rest)) = n.
Proof.
  intros Hc. unfold indented. rewrite run_length_app by (by apply Forall_replicate).
  rewrite length_replicate. cbn [run_length]. destruct (Z.eqb_spec space c) as [<-|]; [done|lia].
Qed.

(** The two ways to indent agree: opening a line below one that the re-indenter
    has printed indents it to the depth the re-indenter has there. (The line is
    outside a long bracket, and not deeper in closers than the text above it.) *)
Theorem new_line_at_format_depth line spans carry depth out st' :
  highlight line LC_None = Ret (spans, carry) → trim_front line ≠ [] →
  (closers line spans ≤ depth)%nat → print_line line (LC_None, depth) = Ret (out, st') →
  ∃ delta, indent_delta is_alphabetic is_numeric L_Lua out = Ret delta ∧
    Z.of_nat (run_length (Z.eqb space) out) + 4 * delta = 4 * Z.of_nat st'.2.
Proof using Type.
  intros Hh Hne Hc Hp. pose proof (format_line_spec _ _ _ _ Hp) as [Hfront _].
  pose proof (scan_depth_balance line spans depth Hc) as Hb. revert Hp Hb. unfold format_line. rewrite Hh.
  cbn [mbind outcome_bind]. destruct (trim_front line) as [|c rest] eqn:Hf; [done|].
  destruct (scan_depth line spans true None depth) as [p d]. cbn [fst snd].
  set (n := (4 * default d p)%nat). intros [= <- <-] Hb. cbn [snd].
  assert (is_whitespace c = false) as Hws.
  { pose proof (run_length_drop is_whitespace line) as H. fold (trim_front line) in H. by rewrite Hf in H. }
  destruct (balance_front _ _ _ Hh) as (spans' & Hh' & Hb'). rewrite Hf in Hh', Hb'.
  assert (Forall (λ c, is_whitespace c = true) (replicate n space)) as Hw by (by apply Forall_replicate).
  exists (balance L_Lua line spans true 0). split.
  - unfold indent_delta, indented. rewrite highlight_space, Hh' by done. cbn [fmap outcome_fmap mbind outcome_bind].
    unfold all_moved. cbn [fst snd]. by rewrite balance_moved, Hb'.
  - rewrite leading_spaces by done. subst n. lia.
Qed.
End lexers.

(** ** Concrete texts *)

Definition ascii_alphabetic (c : Z) : bool := (65 <=? c) && (c <=? 90) || (97 <=? c) && (c <=? 122).

Abbreviation ascii_format := (lua_format ascii_alphabetic is_ascii_digit).
Abbreviation ascii_highlight := (lua_highlight_line ascii_alphabetic is_ascii_digit).

(** Lines, joined. *)
Definition script (lines : list string) : list Z := join lf (codes <$> lines).

Lemma short_shallow line : (length line < 256)%nat → shallow line.
Proof.
  intros H n. pose proof (run_length_le (Z.eqb equals_sign) (drop n line)) as Hl. rewrite length_drop in Hl. lia.
Qed.

Example lua_format_nested :
  ascii_format (script ["if x then"; "f([["; "  end"; "]])"; "  else"; "t = {"; "1 }"; "end"; " "; "y()"]) =
  Ret (script ["if x then"; "    f([["; "  end"; "]])"; "else"; "    t = {"; "        1 }"; "end"; EmptyString; "y()"]).
Proof. vm_compute. reflexivity. Qed.


Lemma new_line_at_format_depth_witness :
  let line := codes "elseif x then" in
  ∃ spans out st', ascii_highlight line LC_None = Ret (spans, LC_None) ∧
    format_line ascii_alphabetic is_ascii_digit line (LC_None, 2%nat) = Ret (out, st') ∧
    ∃ delta, indent_delta ascii_alphabetic is_ascii_digit L_Lua out = Ret delta ∧
      Z.of_nat (run_length (Z.eqb space) out) + 4 * delta = 4 * Z.of_nat st'.2.
Proof.
  intros line. eexists _, _, _. split; [vm_compute; reflexivity|]. split; [vm_compute; reflexivity|].
  eapply (new_line_at_format_depth ascii_alphabetic is_ascii_digit line _ LC_None 2);
    [vm_compute; reflexivity|vm_compute; discriminate|vm_compute; lia|vm_compute; reflexivity].
Defined.

(** The count of a bracket's equals signs overflows its eight bits. *)
Example deep_bracket_panics :
  ascii_highlight (lbracket :: replicate 256 equals_sign) LC_None = Panic ∧
  ascii_format (lbracket :: replicate 256 equals_sign) = Panic.
Proof. split; vm_compute; reflexivity. Qed.

(** What follows a long bracket on the line that closes it opens no level. *)
Example closing_line_opens_nothing :
  ascii_format (script ["f([["; "]], function()"; "x()"; "end)"; "y()"]) =
    Ret (script ["f([["; "]], function()"; "x()"; "end)"; "y()"]) ∧
  ascii_format (script ["f([[ ]], function()"; "x()"; "end)"; "y()"]) =
    Ret (script ["f([[ ]], function()"; "    x()"; "end)"; "y()"]).
Proof. split; vm_compute; reflexivity. Qed.
