(* ===== verification/CodeEdit.v ===== *)
(** * The code editor

    [CodeInputFieldState] of [ferrowl-ui/src/state/code_input_field.rs], a modal
    editor over lines of text, with the motions of [state/vim.rs]. A line is its
    characters, by code point. The lines and the cursor, which an undo saves
    together, are a [Buffer]. Columns and line numbers are bounded by the texts
    the program holds; they are natural numbers. Times are nanoseconds. The
    texts sent to the clipboard of the terminal are listed, the last one first.
    What only the drawing code reads (placeholder, gutter) is left out. *)

From stdpp Require Import base numbers list strings.
From S2P Require Import Prelude Text Keys JsonFormat Syntax.

Local Open Scope nat_scope.

(** ** Data *)

Inductive RegisterKind := RK_Linewise | RK_Charwise.

Inductive VimMode := VM_Normal | VM_Insert | VM_Visual (linewise : bool).

Record Buffer := mkBuffer { b_lines : list (list Z); b_line : nat; b_col : nat }.

Record Editor := mkEditor {
  ed_buf : Buffer;
  ed_scroll_offset : nat;
  ed_h_scroll : nat;
  ed_visible_height : nat;
  ed_content_width : nat;
  ed_readonly_nav : bool;
  ed_focused : bool;
  ed_disabled : bool;
  ed_space_indent : option Z;
  ed_last_space : option (Z * nat * nat);
  ed_language : option Language;
  ed_vim : bool;
  ed_mode : VimMode;
  ed_anchor : option (nat * nat);
  ed_register : option (list Z * RegisterKind);
  ed_undo : option Buffer;
  ed_pending : option Z;
  ed_clipboard : list (list Z);
}.
Implicit Types (b : Buffer) (e : Editor).

Definition ed_with_buf e b : Editor :=
  mkEditor b (ed_scroll_offset e) (ed_h_scroll e) (ed_visible_height e) (ed_content_width e)
    (ed_readonly_nav e) (ed_focused e) (ed_disabled e) (ed_space_indent e) (ed_last_space e)
    (ed_language e) (ed_vim e) (ed_mode e) (ed_anchor e) (ed_register e) (ed_undo e) (ed_pending e)
    (ed_clipboard e).
Definition ed_with_scroll e (scroll_offset h_scroll : nat) : Editor :=
  mkEditor (ed_buf e) scroll_offset h_scroll (ed_visible_height e) (ed_content_width e)
    (ed_readonly_nav e) (ed_focused e) (ed_disabled e) (ed_space_indent e) (ed_last_space e)
    (ed_language e) (ed_vim e) (ed_mode e) (ed_anchor e) (ed_register e) (ed_undo e) (ed_pending e)
    (ed_clipboard e).
(** What a render records. *)
Definition ed_with_view e (visible_height content_width : nat) : Editor :=
  mkEditor (ed_buf e) (ed_scroll_offset e) (ed_h_scroll e) visible_height content_width
    (ed_readonly_nav e) (ed_focused e) (ed_disabled e) (ed_space_indent e) (ed_last_space e)
    (ed_language e) (ed_vim e) (ed_mode e) (ed_anchor e) (ed_register e) (ed_undo e) (ed_pending e)
    (ed_clipboard e).
Definition ed_with_focused e (focused : bool) : Editor :=
  mkEditor (ed_buf e) (ed_scroll_offset e) (ed_h_scroll e) (ed_visible_height e) (ed_content_width e)
    (ed_readonly_nav e) focused (ed_disabled e) (ed_space_indent e) (ed_last_space e)
    (ed_language e) (ed_vim e) (ed_mode e) (ed_anchor e) (ed_register e) (ed_undo e) (ed_pending e)
    (ed_clipboard e).
Definition ed_with_disabled e (disabled : bool) : Editor :=
  mkEditor (ed_buf e) (ed_scroll_offset e) (ed_h_scroll e) (ed_visible_height e) (ed_content_width e)
    (ed_readonly_nav e) (ed_focused e) disabled (ed_space_indent e) (ed_last_space e)
    (ed_language e) (ed_vim e) (ed_mode e) (ed_anchor e) (ed_register e) (ed_undo e) (ed_pending e)
    (ed_clipboard e).
Definition ed_with_last_space e (last_space : option (Z * nat * nat)) : Editor :=
  mkEditor (ed_buf e) (ed_scroll_offset e) (ed_h_scroll e) (ed_visible_height e) (ed_content_width e)
    (ed_readonly_nav e) (ed_focused e) (ed_disabled e) (ed_space_indent e) last_space
    (ed_language e) (ed_vim e) (ed_mode e) (ed_anchor e) (ed_register e) (ed_undo e) (ed_pending e)
    (ed_clipboard e).
Definition ed_with_mode e (mode : VimMode) (anchor : option (nat * nat)) : Editor :=
  mkEditor (ed_buf e) (ed_scroll_offset e) (ed_h_scroll e) (ed_visible_height e) (ed_content_width e)
    (ed_readonly_nav e) (ed_focused e) (ed_disabled e) (ed_space_indent e) (ed_last_space e)
    (ed_language e) (ed_vim e) mode anchor (ed_register e) (ed_undo e) (ed_pending e)
    (ed_clipboard e).
Definition ed_with_undo e (undo : option Buffer) : Editor :=
  mkEditor (ed_buf e) (ed_scroll_offset e) (ed_h_scroll e) (ed_visible_height e) (ed_content_width e)
    (ed_readonly_nav e) (ed_focused e) (ed_disabled e) (ed_space_indent e) (ed_last_space e)
    (ed_language e) (ed_vim e) (ed_mode e) (ed_anchor e) (ed_register e) undo (ed_pending e)
    (ed_clipboard e).
Definition ed_with_pending e (pending : option Z) : Editor :=
  mkEditor (ed_buf e) (ed_scroll_offset e) (ed_h_scroll e) (ed_visible_height e) (ed_content_width e)
    (ed_readonly_nav e) (ed_focused e) (ed_disabled e) (ed_space_indent e) (ed_last_space e)
    (ed_language e) (ed_vim e) (ed_mode e) (ed_anchor e) (ed_register e) (ed_undo e) pending
    (ed_clipboard e).

(** [set_register], which also sends the text to the clipboard. *)
Definition set_register e (text : list Z) (kind : RegisterKind) : Editor :=
  mkEditor (ed_buf e) (ed_scroll_offset e) (ed_h_scroll e) (ed_visible_height e) (ed_content_width e)
    (ed_readonly_nav e) (ed_focused e) (ed_disabled e) (ed_space_indent e) (ed_last_space e)
    (ed_language e) (ed_vim e) (ed_mode e) (ed_anchor e) (Some (text, kind)) (ed_undo e) (ed_pending e)
    (text :: ed_clipboard e).

Definition snapshot_undo e : Editor := ed_with_undo e (Some (ed_buf e)).

(** The builder's defaults. *)
Definition Editor_default : Editor :=
  mkEditor (mkBuffer [[]] 0 0) 0 0 1 1 true true false (Some 300000000%Z) None None true VM_Normal
    None None None None [].

(** ** Lines *)

(** [lines[i]] *)
Definition line_at b (i : nat) : Outcome (list Z) := expect (b_lines b !! i).
Definition current b : Outcome (list Z) := line_at b (b_line b).

Definition b_at b (line col : nat) : Buffer := mkBuffer (b_lines b) line col.
Definition b_with_col b (col : nat) : Buffer := b_at b (b_line b) col.
Definition b_with_lines b (lines : list (list Z)) : Buffer := mkBuffer lines (b_line b) (b_col b).

(** [lines.len() - 1] *)
Definition last_index b : Outcome nat :=
  match b_lines b with [] => Panic | _ => Ret (length (b_lines b) - 1) end.

(** The line at [i] is replaced. *)
Definition set_line b (i : nat) (text : list Z) : Outcome Buffer :=
  _ ← line_at b i; Ret (b_with_lines b (<[i := text]> (b_lines b))).

(** [lines.insert(i, text)] *)
Definition insert_line b (i : nat) (text : list Z) : Outcome Buffer :=
  if i <=? length (b_lines b)
  then Ret (b_with_lines b (take i (b_lines b) ++ text :: drop i (b_lines b))) else Panic.

(** [lines.remove(i)] *)
Definition remove_line b (i : nat) : Outcome (list Z * Buffer) :=
  text ← line_at b i; Ret (text, b_with_lines b (delete i (b_lines b))).

(** [lines[from..=to]] *)
Definition lines_between b (from to : nat) : Outcome (list (list Z)) :=
  if (from <=? to + 1) && (to <? length (b_lines b))
  then Ret (take (to + 1 - from) (drop from (b_lines b))) else Panic.

(** [lines.splice(from..=to, new)] *)
Definition splice b (from to : nat) (new : list (list Z)) : Outcome Buffer :=
  _ ← lines_between b from to;
  Ret (b_with_lines b (take from (b_lines b) ++ new ++ drop (to + 1) (b_lines b))).

(** The buffer's text. *)
Definition buf_text b : list Z := join lf (b_lines b).
Definition content e : list Z := buf_text (ed_buf e).

Definition clamp_cursor b : Outcome Buffer :=
  text ← current b; Ret (b_with_col b (Nat.min (b_col b) (length text))).

(** On a character, not behind the last one. *)
Definition clamp_normal b : Outcome Buffer :=
  text ← current b; Ret (b_with_col b (Nat.min (b_col b) (length text - 1))).

(** [insert_at] *)
Definition insert_at b (line idx : nat) (text : list Z) : Outcome Buffer :=
  target ← line_at b line; set_line b line (take idx target ++ text ++ drop idx target).

(** [remove_range]: the text removed, and the buffer. *)
Definition remove_range b (line start stop : nat) : Outcome (list Z * Buffer) :=
  target ← line_at b line;
  let stop := Nat.min stop (length target) in
  let start := Nat.min start stop in
  b ← set_line b line (take start target ++ drop stop target);
  Ret (take (stop - start) (drop start target), b).

Section editor.
Context (is_alphabetic is_numeric : Z → bool).

(** ** Word motions *)

Inductive CharClass := CC_Word | CC_Punct | CC_Space.

#[local] Instance CharClass_eq_dec : EqDecision CharClass.
Proof. solve_decision. Defined.

Definition char_class (c : Z) : CharClass :=
  if is_alphanumeric is_alphabetic is_numeric c || (c =? underscore)%Z then CC_Word
  else if is_whitespace c then CC_Space else CC_Punct.

Definition in_class (class : CharClass) (c : Z) : bool := bool_decide (char_class c = class).

(** The length of the run of one class at a column. *)
Definition run_at (class : CharClass) (chars : list Z) (col : nat) : nat :=
  run_length (in_class class) (drop col chars).

(** The loop of [word_forward], over the lines below. *)
Fixpoint next_word (chars : list Z) (line col : nat) (below : list (list Z)) : nat * nat :=
  let col := col + run_at CC_Space chars col in
  if col <? length chars then (line, col)
  else match below with
       | [] => (line, length chars - 1)
       | [] :: _ => (line + 1, 0)
       | chars :: below => next_word chars (line + 1) 0 below
       end.

Definition word_forward b : Outcome (nat * nat) :=
  chars ← current b;
  let col :=
    match chars !! b_col b with
    | Some c => if in_class CC_Space c then b_col b
                else b_col b + run_at (char_class c) chars (b_col b)
    | None => b_col b
    end in
  Ret (next_word chars (b_line b) col (drop (b_line b + 1) (b_lines b))).

(** The loops of [word_end_forward]. *)
Fixpoint next_end (chars : list Z) (line col : nat) (below : list (list Z)) : nat * nat :=
  let col := col + run_at CC_Space chars col in
  match chars !! col with
  | Some c => (line, col + run_at (char_class c) chars col - 1)
  | None =>
      match below with
      | [] => (line, length chars - 1)
      | chars :: below => next_end chars (line + 1) 0 below
      end
  end.

Definition word_end_forward b : Outcome (nat * nat) :=
  chars ← current b;
  Ret (next_end chars (b_line b) (b_col b + 1) (drop (b_line b + 1) (b_lines b))).

(** The last character before [col] that is no space. *)
Fixpoint back_to_word (chars : list Z) (col : nat) : Outcome (option nat) :=
  match col with
  | O => Ret None
  | S i => c ← expect (chars !! i);
           if in_class CC_Space c then back_to_word chars i else Ret (Some i)
  end.

(** Where the run of a class that ends before [col] starts. *)
Fixpoint run_start (class : CharClass) (chars : list Z) (col : nat) : Outcome nat :=
  match col with
  | O => Ret O
  | S i => c ← expect (chars !! i);
           if in_class class c then run_start class chars i else Ret col
  end.

(** The loop of [word_backward]. *)
Fixpoint prev_word b (line col : nat) : Outcome (nat * nat) :=
  chars ← line_at b line;
  found ← back_to_word chars col;
  match found with
  | Some i =>
      c ← expect (chars !! i);
      start ← run_start (char_class c) chars i;
      Ret (line, start)
  | None =>
      match line with
      | O => Ret (O, O)
      | S above =>
          chars ← line_at b above;
          match chars with [] => Ret (above, O) | _ => prev_word b above (length chars) end
      end
  end.

Definition word_backward b : Outcome (nat * nat) := prev_word b (b_line b) (b_col b).

(** ** Motions *)

Definition line_down b : Buffer :=
  if b_line b + 1 <? length (b_lines b) then b_at b (b_line b + 1) (b_col b) else b.
Definition line_up b : Buffer := b_at b (b_line b - 1) (b_col b).

Definition clamp_unless (disabled : bool) b : Outcome Buffer :=
  if disabled then Ret b else clamp_normal b.

(** The arrows, which wrap to the adjacent line. *)
Definition arrow_left b : Outcome Buffer :=
  if 0 <? b_col b then Ret (b_with_col b (b_col b - 1))
  else if 0 <? b_line b then
    text ← line_at b (b_line b - 1); Ret (b_at b (b_line b - 1) (length text))
  else Ret b.

Definition arrow_right b : Outcome Buffer :=
  text ← current b;
  Ret (if b_col b <? length text then b_with_col b (b_col b + 1)
       else if b_line b + 1 <? length (b_lines b) then b_at b (b_line b + 1) 0 else b).

Definition shifted (m : Z) : bool := ((m =? M_NONE) || (m =? M_SHIFT))%Z.

(** A motion by a character. *)
Definition char_motion (disabled : bool) (code : KeyCode) b : Outcome (option Buffer) :=
  let to_word word := '(line, col) ← word; Ret (b_at b line col) in
  if is_char "h" code then Ret (Some (b_with_col b (b_col b - 1)))
  else if is_char "l" code then Some <$> clamp_normal (b_with_col b (b_col b + 1))
  else if is_char "j" code then Some <$> clamp_unless disabled (line_down b)
  else if is_char "k" code then Some <$> clamp_unless disabled (line_up b)
  else if is_char "0" code then Ret (Some (b_with_col b 0))
  else if is_char "$" code then text ← current b; Ret (Some (b_with_col b (length text - 1)))
  else if is_char "w" code then b ← to_word (word_forward b); Some <$> clamp_normal b
  else if is_char "e" code then Some <$> to_word (word_end_forward b)
  else if is_char "b" code then Some <$> to_word (word_backward b)
  else if is_char "G" code then last ← last_index b; Ret (Some (b_at b last 0))
  else Ret None.

(** [apply_motion]; [None]: the key is no motion. *)
Definition apply_motion (disabled : bool) (m : Z) (code : KeyCode) b : Outcome (option Buffer) :=
  let none := (m =? M_NONE)%Z in
  match code with
  | KC_Up => if none then Some <$> clamp_unless disabled (line_up b) else Ret None
  | KC_Down => if none then Some <$> clamp_unless disabled (line_down b) else Ret None
  | KC_Left => if none then b ← arrow_left b; Some <$> clamp_normal b else Ret None
  | KC_Right => if none then b ← arrow_right b; Some <$> clamp_normal b else Ret None
  | KC_Char _ => if shifted m then char_motion disabled code b else Ret None
  | _ => Ret None
  end.

(** [gg] *)
Definition to_top b : Outcome Buffer := clamp_normal (b_at b 0 0).

(** ** Paging and the read-only navigation *)

Definition page_move (down : bool) (rows : nat) e : Outcome Editor :=
  let rows := Nat.max rows 1 in
  let b := ed_buf e in
  line ← (if down then last ← last_index b; Ret (Nat.min (b_line b + rows) last)
          else Ret (b_line b - rows));
  b ← clamp_unless (ed_disabled e) (b_at b line (b_col b));
  Ret (ed_with_buf e b).

Definition max_h_scroll b : nat := foldl Nat.max 0 (length <$> b_lines b) - 1.

(** The horizontal scroll, which takes the cursor's column along. *)
Definition h_scroll_to (h_scroll : nat) e : Editor :=
  ed_with_buf (ed_with_scroll e (ed_scroll_offset e) h_scroll) (b_with_col (ed_buf e) h_scroll).

Definition h_scroll_end e : Outcome Editor :=
  text ← current (ed_buf e);
  let last := length text - 1 in
  Ret (ed_with_buf (ed_with_scroll e (ed_scroll_offset e) (last + 1 - ed_content_width e))
         (b_with_col (ed_buf e) last)).

(** [handle_readonly_nav]; [None]: the key is left to the rest. *)
Definition handle_readonly_nav (m : Z) (code : KeyCode) e : Outcome (option Editor) :=
  let none := (m =? M_NONE)%Z in
  let control := (m =? M_CONTROL)%Z in
  let page := ed_visible_height e in
  let half := Nat.max (ed_visible_height e / 2) 1 in
  let left := h_scroll_to (ed_h_scroll e - 1) e in
  let right := h_scroll_to (Nat.min (ed_h_scroll e + 1) (max_h_scroll (ed_buf e))) e in
  if negb (ed_readonly_nav e) then Ret None
  else match code with
       | KC_PageDown => if none then Some <$> page_move true page e else Ret None
       | KC_PageUp => if none then Some <$> page_move false page e else Ret None
       | KC_Left => Ret (if none && ed_disabled e then Some left else None)
       | KC_Right => Ret (if none && ed_disabled e then Some right else None)
       | KC_Char _ =>
           if control && is_char "d" code then Some <$> page_move true half e
           else if control && is_char "u" code then Some <$> page_move false half e
           else if shifted m && ed_disabled e then
             if is_char "h" code then Ret (Some left)
             else if is_char "l" code then Ret (Some right)
             else if is_char "0" code then Ret (Some (h_scroll_to 0 e))
             else if is_char "$" code then Some <$> h_scroll_end e
             else Ret None
           else Ret None
       | _ => Ret None
       end.

(** ** The register *)

Definition position_le (p q : nat * nat) : bool := (p.1 <? q.1) || (p.1 =? q.1) && (p.2 <=? q.2).

(** [selection_range]: from and to, inclusive. *)
Definition selection_range e : Outcome (option ((nat * nat) * (nat * nat))) :=
  match ed_anchor e, ed_mode e with
  | Some anchor, VM_Visual linewise =>
      let cursor := (b_line (ed_buf e), b_col (ed_buf e)) in
      let '(from, to) := if position_le anchor cursor then (anchor, cursor) else (cursor, anchor) in
      if linewise then
        text ← line_at (ed_buf e) to.1;
        Ret (Some ((from.1, 0), (to.1, length text - 1)))
      else Ret (Some (from, to))
  | _, _ => Ret None
  end.

(** [extract_charwise] *)
Definition extract_charwise b (from to : nat * nat) : Outcome (list Z) :=
  first ← line_at b from.1;
  if from.1 =? to.1 then
    let stop := Nat.min (to.2 + 1) (length first) in
    let start := Nat.min from.2 stop in
    Ret (take (stop - start) (drop start first))
  else
    last ← line_at b to.1;
    Ret (join lf (drop from.2 first :: take (to.1 - (from.1 + 1)) (drop (from.1 + 1) (b_lines b)) ++
                  [take (to.2 + 1) last])).

(** The text of a selection. *)
Definition selected_text (linewise : bool) b (from to : nat * nat) : Outcome (list Z) :=
  if linewise then lines ← lines_between b from.1 to.1; Ret (join lf lines)
  else extract_charwise b from to.

Definition is_linewise (mode : VimMode) : bool := match mode with VM_Visual l => l | _ => false end.
Definition selection_kind (linewise : bool) : RegisterKind := if linewise then RK_Linewise else RK_Charwise.

Definition yank_current_line e : Outcome Editor :=
  text ← current (ed_buf e); Ret (set_register e text RK_Linewise).

Definition yank_selection e : Outcome Editor :=
  range ← selection_range e;
  match range with
  | None => Ret e
  | Some (from, to) =>
      let linewise := is_linewise (ed_mode e) in
      text ← selected_text linewise (ed_buf e) from to;
      Ret (set_register e text (selection_kind linewise))
  end.

(** The lines of a deletion, from and to: an emptied buffer keeps one line. *)
Definition cut_lines b (from to line : nat) : Outcome Buffer :=
  last ← last_index b;
  if (from =? 0) && (to =? last) then Ret (mkBuffer [[]] 0 0)
  else
    b ← splice b from to [];
    last ← last_index b;
    Ret (b_at b (Nat.min line last) 0).

Definition delete_current_line e : Outcome Editor :=
  if ed_disabled e then Ret e
  else
    let e := snapshot_undo e in
    text ← current (ed_buf e);
    let e := set_register e text RK_Linewise in
    b ← (if length (b_lines (ed_buf e)) =? 1 then set_line (ed_buf e) 0 []
         else '(_, b) ← remove_line (ed_buf e) (b_line (ed_buf e));
              last ← last_index b;
              Ret (b_at b (Nat.min (b_line b) last) (b_col b)));
    b ← clamp_normal (b_with_col b 0);
    Ret (ed_with_buf e b).

(** The lines [count] lines from the cursor on reach to. *)
Definition counted_end e (count : nat) : Outcome nat :=
  last ← last_index (ed_buf e); Ret (Nat.min (b_line (ed_buf e) + Nat.max count 1 - 1) last).

(** [yank_lines] *)
Definition yank_lines e (count : nat) : Outcome Editor :=
  stop ← counted_end e count;
  lines ← lines_between (ed_buf e) (b_line (ed_buf e)) stop;
  Ret (set_register e (join lf lines) RK_Linewise).

(** [delete_lines] *)
Definition delete_lines e (count : nat) : Outcome Editor :=
  if ed_disabled e then Ret e
  else
    stop ← counted_end e count;
    let e := snapshot_undo e in
    lines ← lines_between (ed_buf e) (b_line (ed_buf e)) stop;
    let e := set_register e (join lf lines) RK_Linewise in
    b ← cut_lines (ed_buf e) (b_line (ed_buf e)) stop (b_line (ed_buf e));
    b ← clamp_normal b;
    Ret (ed_with_buf e b).

(** What a deleted span leaves: its two ends, joined. *)
Definition cut_span b (from to : nat * nat) : Outcome Buffer :=
  first ← line_at b from.1;
  last ← line_at b to.1;
  b ← splice b from.1 to.1 [take from.2 first ++ drop (to.2 + 1) last];
  Ret (b_at b from.1 from.2).

Definition delete_selection e : Outcome Editor :=
  if ed_disabled e then Ret e
  else
    range ← selection_range e;
    match range with
    | None => Ret e
    | Some (from, to) =>
        let linewise := is_linewise (ed_mode e) in
        let e := snapshot_undo e in
        text ← selected_text linewise (ed_buf e) from to;
        let e := set_register e text (selection_kind linewise) in
        b ← (if linewise then cut_lines (ed_buf e) from.1 to.1 from.1 else cut_span (ed_buf e) from to);
        b ← clamp_normal b;
        Ret (ed_with_buf (ed_with_mode e VM_Normal None) b)
    end.

Definition enter_normal_at_selection_start e : Outcome Editor :=
  range ← selection_range e;
  let b := match range with Some (from, _) => b_at (ed_buf e) from.1 from.2 | None => ed_buf e end in
  b ← clamp_normal b;
  Ret (ed_with_buf (ed_with_mode e VM_Normal None) b).

(** ** Pasting *)

Fixpoint insert_lines b (i : nat) (lines : list (list Z)) : Outcome Buffer :=
  match lines with
  | [] => Ret b
  | l :: lines => b ← insert_line b i l; insert_lines b (i + 1) lines
  end.

Definition paste_lines (after : bool) b (text : list Z) : Outcome Buffer :=
  let at_ := if after then b_line b + 1 else b_line b in
  b ← insert_lines b at_ (split lf text);
  Ret (b_at b at_ 0).

Definition paste_span (after : bool) b (text : list Z) : Outcome Buffer :=
  let parts := split lf text in
  line ← current b;
  let col := if after then Nat.min (b_col b + 1) (length line) else b_col b in
  match parts with
  | [] => Panic
  | [part] =>
      b ← insert_at b (b_line b) col part;
      Ret (b_with_col b (col + (length part - 1)))
  | part :: _ =>
      if col <=? length line then
        let last := default [] (list.last parts) in
        let new := (take col line ++ part) :: take (length parts - 2) (drop 1 parts) ++ [last ++ drop col line] in
        b ← splice b (b_line b) (b_line b) new;
        Ret (b_at b (b_line b + length new - 1) (length last - 1))
      else Panic
  end.

Definition paste (after : bool) e : Outcome Editor :=
  match ed_register e with
  | None => Ret e
  | Some (text, kind) =>
      let e := snapshot_undo e in
      b ← (match kind with RK_Linewise => paste_lines | RK_Charwise => paste_span end) after (ed_buf e) text;
      b ← clamp_normal b;
      Ret (ed_with_buf e b)
  end.

(** ** Opening lines *)

(** [auto_indent]: the spaces before a line opened after [line]. *)
Definition auto_indent (language : option Language) (line : list Z) : Outcome nat :=
  match language with
  | Some lang =>
      delta ← indent_delta is_alphabetic is_numeric lang line;
      Ret (Z.to_nat (Z.of_nat (run_length (Z.eqb space) line) + 4 * delta))
  | None => Ret 0
  end.

Definition open_line_below (language : option Language) b : Outcome Buffer :=
  line ← current b;
  indent ← auto_indent language line;
  b ← insert_line b (b_line b + 1) (replicate indent space);
  Ret (b_at b (b_line b + 1) indent).

Definition open_line_above b : Outcome Buffer :=
  line ← current b;
  let indent := run_length (Z.eqb space) line in
  b ← insert_line b (b_line b) (replicate indent space);
  Ret (b_with_col b indent).

(** ** Keys *)

Definition consumed (e : Outcome Editor) : Outcome (EventResult * Editor) := e ← e; Ret (ER_Consumed, e).

(** An editing command of Normal mode: nothing in a disabled field. *)
Definition unless_disabled e (edit : Editor → Outcome Editor) : Outcome (EventResult * Editor) :=
  consumed (if ed_disabled e then Ret e else edit e).

(** The second press of [gg], [dd] or [yy]. *)
Definition fire_chord (code : KeyCode) e : Outcome Editor :=
  let e := ed_with_pending e None in
  if is_char "g" code then b ← to_top (ed_buf e); Ret (ed_with_buf e b)
  else if is_char "d" code then delete_current_line e
  else yank_current_line e.

(** [x] *)
Definition cut_char e : Outcome Editor :=
  text ← current (ed_buf e);
  match text with
  | [] => Ret e
  | _ =>
      let e := snapshot_undo e in
      '(removed, b) ← remove_range (ed_buf e) (b_line (ed_buf e)) (b_col (ed_buf e)) (b_col (ed_buf e) + 1);
      let e := set_register (ed_with_buf e b) removed RK_Charwise in
      b ← clamp_normal (ed_buf e);
      Ret (ed_with_buf e b)
  end.

(** [u] swaps the text with the saved one. *)
Definition swap_undo e : Outcome Editor :=
  match ed_undo e with
  | None => Ret e
  | Some saved =>
      b ← clamp_normal saved;
      Ret (ed_with_buf (ed_with_undo e (Some (ed_buf e))) b)
  end.

(** Insert mode, entered by a change of the buffer. *)
Definition enter_insert e (change : Buffer → Outcome Buffer) : Outcome Editor :=
  let e := snapshot_undo e in
  b ← change (ed_buf e);
  Ret (ed_with_buf (ed_with_mode e VM_Insert (ed_anchor e)) b).

Definition append_col b : Outcome Buffer :=
  text ← current b; Ret (b_with_col b (Nat.min (b_col b + 1) (length text))).
Definition to_text_start b : Outcome Buffer :=
  text ← current b; Ret (b_with_col b (run_length is_whitespace text)).
Definition to_text_end b : Outcome Buffer :=
  text ← current b; Ret (b_with_col b (length text)).

Definition enter_visual e (linewise : bool) : Outcome (EventResult * Editor) :=
  Ret (ER_Consumed,
       ed_with_mode e (VM_Visual linewise) (Some (b_line (ed_buf e), b_col (ed_buf e)))).

(** The commands of Normal mode. *)
Definition normal_command (m : Z) (code : KeyCode) e : Outcome (EventResult * Editor) :=
  let none := (m =? M_NONE)%Z in
  let shift := shifted m in
  match code with
  | KC_Char _ =>
      if none && is_char "x" code then unless_disabled e cut_char
      else if none && is_char "p" code then unless_disabled e (paste true)
      else if shift && is_char "P" code then unless_disabled e (paste false)
      else if none && is_char "u" code then unless_disabled e swap_undo
      else if none && is_char "i" code then unless_disabled e (λ e, enter_insert e Ret)
      else if none && is_char "a" code then unless_disabled e (λ e, enter_insert e append_col)
      else if shift && is_char "I" code then unless_disabled e (λ e, enter_insert e to_text_start)
      else if shift && is_char "A" code then unless_disabled e (λ e, enter_insert e to_text_end)
      else if none && is_char "o" code then
        unless_disabled e (λ e, enter_insert e (open_line_below (ed_language e)))
      else if shift && is_char "O" code then unless_disabled e (λ e, enter_insert e open_line_above)
      else if none && is_char "v" code then enter_visual e false
      else if shift && is_char "V" code then enter_visual e true
      else if shift then Ret (ER_Consumed, e)
      else Ret (ER_Unhandled m code, e)
  | _ => Ret (ER_Unhandled m code, e)
  end.

(** A motion, or the rest. *)
Definition moved_or (m : Z) (code : KeyCode) e (rest : Outcome (EventResult * Editor))
  : Outcome (EventResult * Editor) :=
  moved ← apply_motion (ed_disabled e) m code (ed_buf e);
  match moved with
  | Some b => Ret (ER_Consumed, ed_with_buf e b)
  | None => rest
  end.

Definition is_chord (code : KeyCode) : bool := is_char "g" code || is_char "d" code || is_char "y" code.

(** The chord's press: the second one fires. *)
Definition press_chord (code : KeyCode) e : Outcome (EventResult * Editor) :=
  match code with
  | KC_Char c =>
      consumed (if bool_decide (ed_pending e = Some c) then fire_chord code e
                else Ret (ed_with_pending e (Some c)))
  | _ => Ret (ER_Consumed, e)
  end.

Definition handle_normal_key (m : Z) (code : KeyCode) e : Outcome (EventResult * Editor) :=
  if (m =? M_NONE)%Z && is_chord code then press_chord code e
  else
    let e := ed_with_pending e None in
    moved_or m code e (normal_command m code e).

(** Back to Normal mode. *)
Definition leave_visual e : Outcome (EventResult * Editor) :=
  b ← clamp_normal (ed_buf e); Ret (ER_Consumed, ed_with_buf (ed_with_mode e VM_Normal None) b).

Definition handle_visual_key (m : Z) (code : KeyCode) e : Outcome (EventResult * Editor) :=
  let none := (m =? M_NONE)%Z in
  let shift := shifted m in
  if none && is_char "g" code then press_chord code e
  else
    let e := ed_with_pending e None in
    if none && bool_decide (code = KC_Esc) || none && is_char "v" code then leave_visual e
    else if shift && is_char "V" code then Ret (ER_Consumed, ed_with_mode e (VM_Visual true) (ed_anchor e))
    else if none && is_char "y" code then
      consumed (e ← yank_selection e; enter_normal_at_selection_start e)
    else if none && (is_char "d" code || is_char "x" code) then consumed (delete_selection e)
    else moved_or m code e
           match code with
           | KC_Char _ => if shift then Ret (ER_Consumed, e) else Ret (ER_Unhandled m code, e)
           | _ => Ret (ER_Unhandled m code, e)
           end.

(** ** Plain editing *)

Definition clamp_cursor_unless (disabled : bool) b : Outcome Buffer :=
  if disabled then Ret b else clamp_cursor b.

(** The text before and after the cursor, which must not be past the end. *)
Definition split_line b : Outcome (list Z * list Z) :=
  line ← current b;
  if b_col b <=? length line then Ret (take (b_col b) line, drop (b_col b) line) else Panic.

Definition break_line (language : option Language) b : Outcome Buffer :=
  '(before, after) ← split_line b;
  indent ← auto_indent language before;
  b ← set_line b (b_line b) before;
  b ← insert_line b (b_line b + 1) (replicate indent space ++ after);
  Ret (b_at b (b_line b + 1) indent).

(** The line is appended to the one above it. *)
Definition join_above b : Outcome Buffer :=
  '(text, b) ← remove_line b (b_line b);
  above ← line_at b (b_line b - 1);
  b ← set_line b (b_line b - 1) (above ++ text);
  Ret (b_at b (b_line b - 1) (length above)).

Definition backspace b : Outcome Buffer :=
  if 0 <? b_col b then
    '(_, b') ← remove_range b (b_line b) (b_col b - 1) (b_col b);
    Ret (b_with_col b' (b_col b - 1))
  else if 0 <? b_line b then join_above b else Ret b.

Definition delete_key b : Outcome Buffer :=
  text ← current b;
  if b_col b <? length text then
    '(_, b) ← remove_range b (b_line b) (b_col b) (b_col b + 1); Ret b
  else if b_line b + 1 <? length (b_lines b) then
    '(next, b) ← remove_line b (b_line b + 1);
    set_line b (b_line b) (text ++ next)
  else Ret b.

(** Text typed at the cursor. *)
Definition type_text b (text : list Z) : Outcome Buffer :=
  b ← insert_at b (b_line b) (b_col b) text; Ret (b_with_col b (b_col b + length text)).

(** A second space in time, at the place of the first, makes four. *)
Definition completes_indent (now : Z) e : bool :=
  match ed_space_indent e, ed_last_space e with
  | Some threshold, Some (at_, line, col) =>
      (line =? b_line (ed_buf e)) && (col =? b_col (ed_buf e)) && (now - at_ <=? threshold)%Z
  | _, _ => false
  end.

Definition type_space (now : Z) e : Outcome Editor :=
  if completes_indent now e then
    b ← type_text (ed_buf e) (replicate 3 space);
    Ret (ed_with_last_space (ed_with_buf e b) None)
  else
    b ← type_text (ed_buf e) [space];
    let e := ed_with_buf e b in
    Ret match ed_space_indent e with
        | Some _ => ed_with_last_space e (Some (now, b_line b, b_col b))
        | None => e
        end.

Definition edit_up (disabled : bool) b : Outcome Buffer :=
  if 0 <? b_line b then clamp_cursor_unless disabled (line_up b) else Ret b.
Definition edit_down (disabled : bool) b : Outcome Buffer :=
  if b_line b + 1 <? length (b_lines b) then clamp_cursor_unless disabled (line_down b) else Ret b.

Definition on_buf e (b : Outcome Buffer) : Outcome (EventResult * Editor) :=
  b ← b; Ret (ER_Consumed, ed_with_buf e b).

Definition handle_edit_key (now m : Z) (code : KeyCode) e : Outcome (EventResult * Editor) :=
  let none := (m =? M_NONE)%Z in
  let enabled := negb (ed_disabled e) in
  let e := if shifted m && is_char " " code then e else ed_with_last_space e None in
  let b := ed_buf e in
  let unhandled := Ret (ER_Unhandled m code, e) in
  match code with
  | KC_Up => if none then on_buf e (edit_up (ed_disabled e) b) else unhandled
  | KC_Down => if none then on_buf e (edit_down (ed_disabled e) b) else unhandled
  | KC_Left => if none then on_buf e (arrow_left b) else unhandled
  | KC_Right => if none then on_buf e (arrow_right b) else unhandled
  | KC_Enter => if none && enabled then on_buf e (break_line (ed_language e) b) else unhandled
  | KC_Backspace => if none && enabled then on_buf e (backspace b) else unhandled
  | KC_Delete => if none && enabled then on_buf e (delete_key b) else unhandled
  | KC_Char c =>
      if shifted m && enabled then
        if is_char " " code then consumed (type_space now e) else on_buf e (type_text b [c])
      else unhandled
  | _ => unhandled
  end.

(** [BackTab]: up to four leading spaces go. *)
Definition unindent b : Outcome Buffer :=
  text ← current b;
  let leading := Nat.min (run_length (Z.eqb space) text) 4 in
  if 0 <? leading then
    '(_, b) ← remove_range b (b_line b) 0 leading; Ret (b_with_col b (b_col b - leading))
  else Ret b.

(** [Esc] of Insert mode steps back onto a character. *)
Definition leave_insert e : Outcome Editor :=
  let e := ed_with_mode (ed_with_last_space e None) VM_Normal (ed_anchor e) in
  text ← current (ed_buf e);
  Ret (ed_with_buf e (b_with_col (ed_buf e) (Nat.min (b_col (ed_buf e) - 1) (length text - 1)))).

Definition handle_insert_key (now m : Z) (code : KeyCode) e : Outcome (EventResult * Editor) :=
  let none := (m =? M_NONE)%Z in
  match code with
  | KC_Esc => if none then consumed (leave_insert e) else handle_edit_key now m code e
  | KC_Tab =>
      if none then
        let e := ed_with_last_space e None in on_buf e (type_text (ed_buf e) (replicate 4 space))
      else handle_edit_key now m code e
  | KC_BackTab =>
      if shifted m then
        let e := ed_with_last_space e None in on_buf e (unindent (ed_buf e))
      else handle_edit_key now m code e
  | _ => handle_edit_key now m code e
  end.

Definition mode_key (now m : Z) (code : KeyCode) e : Outcome (EventResult * Editor) :=
  if negb (ed_vim e) then handle_edit_key now m code e
  else match ed_mode e with
       | VM_Insert => handle_insert_key now m code e
       | VM_Normal => handle_normal_key m code e
       | VM_Visual _ => handle_visual_key m code e
       end.

(** [handle_events], at a time. *)
Definition handle_events (now m : Z) (code : KeyCode) e : Outcome (EventResult * Editor) :=
  navigated ← (match ed_mode e with VM_Insert => Ret None | _ => handle_readonly_nav m code e end);
  match navigated with
  | Some e => Ret (ER_Consumed, e)
  | None => mode_key now m code e
  end.

(** ** The whole text, and the focus *)

Definition set_content e (s : list Z) : Outcome Editor :=
  let lines := split lf s in
  let last := length lines - 1 in
  text ← expect (lines !! last);
  let e := ed_with_scroll (ed_with_buf e (mkBuffer lines last (length text))) 0 0 in
  if ed_vim e then
    b ← clamp_normal (ed_buf e);
    Ret (ed_with_buf (ed_with_pending (ed_with_undo (ed_with_mode e VM_Normal None) None) None) b)
  else Ret e.

(** The text is formatted when an enabled field loses the focus. *)
Definition format_on_blur (focus : bool) e : Outcome Editor :=
  if ed_focused e && negb focus && negb (ed_disabled e) then
    match ed_language e with
    | Some lang =>
        new ← format_source is_alphabetic is_numeric lang (content e);
        match new with
        | Some new => if bool_decide (new = content e) then Ret e else set_content e new
        | None => Ret e
        end
    | None => Ret e
    end
  else Ret e.

Definition set_focused e (focus : bool) : Outcome Editor :=
  e ← format_on_blur focus e;
  let e := if focus then e else ed_with_pending (ed_with_mode e VM_Normal None) None in
  Ret (ed_with_focused e focus).

(** ** Runs *)

(** What may happen to a field: a key, the focus, a render, a new text, being
    disabled or enabled. *)
Inductive EditEvent :=
| EE_Key (now m : Z) (code : KeyCode)
| EE_Focus (focus : bool)
| EE_Render (visible_height content_width : nat)
| EE_Content (text : list Z)
| EE_Disabled (disabled : bool).

Definition edit_step (ev : EditEvent) e : Outcome Editor :=
  match ev with
  | EE_Key now m code => '(_, e) ← handle_events now m code e; Ret e
  | EE_Focus focus => set_focused e focus
  | EE_Render height width => Ret (ed_with_view e height width)
  | EE_Content text => set_content e text
  | EE_Disabled disabled => Ret (ed_with_disabled e disabled)
  end.

Fixpoint edit_run (evs : list EditEvent) e : Outcome Editor :=
  match evs with [] => Ret e | ev :: evs => e ← edit_step ev e; edit_run evs e end.
End editor.
