(* ===== verification/CodeEditProps.v ===== *)
(** * What the code editor promises *)

From stdpp Require Import base numbers list strings.
From S2P Require Import Prelude Text Keys JsonFormat Syntax SyntaxProps CodeEdit.

Local Open Scope nat_scope.

Implicit Types (b : Buffer) (e : Editor).

Section editor.
Context (is_alphabetic is_numeric : Z → bool).
(** What has to hold for nothing to panic. *)
Context (safe : Prop).

(** ** Outcomes that satisfy *)

Definition yields {A} (o : Outcome A) (P : A → Prop) : Prop :=
  match o with Ret x => P x | Panic => ¬ safe end.

Lemma yields_bind {A B} (m : Outcome A) (f : A → Outcome B) (Q : A → Prop) (P : B → Prop) :
  yields m Q → (∀ x, Q x → yields (f x) P) → yields (m ≫= f) P.
Proof. destruct m; [cbn; auto|done]. Qed.

Lemma yields_weaken {A} (o : Outcome A) (P Q : A → Prop) : yields o P → (∀ x, P x → Q x) → yields o Q.
Proof. destruct o; cbn; auto. Qed.

Lemma yields_fmap {A B} (m : Outcome A) (f : A → B) (P : B → Prop) :
  yields m (λ x, P (f x)) → yields (f <$> m) P.
Proof. by destruct m. Qed.

(** ** Buffers in order *)

(** The cursor is in the text, and on a character or at the start of an empty
    line. *)
Definition buf_ok b : Prop := ∃ text, b_lines b !! b_line b = Some text ∧ b_col b ≤ length text.
Definition on_char b : Prop := ∃ text, b_lines b !! b_line b = Some text ∧ b_col b ≤ length text - 1.
(** The line is there, whatever the column. *)
Definition line_ok b : Prop := is_Some (b_lines b !! b_line b).

Lemma on_char_ok b : on_char b → buf_ok b.
Proof. intros (text & H & Hc). exists text. split; [done|lia]. Qed.

Lemma ok_line b : buf_ok b → line_ok b.
Proof. intros (text & H & _). by eexists. Qed.

Lemma b_lines_at b l c : b_lines (b_at b l c) = b_lines b.
Proof. done. Qed.

Lemma current_eq b text : b_lines b !! b_line b = Some text → current b = Ret text.
Proof. intros H. unfold current, line_at. by rewrite H. Qed.

Lemma clamp_normal_on b : line_ok b → yields (clamp_normal b) (λ b', b_lines b' = b_lines b ∧ on_char b').
Proof.
  intros [text H]. unfold clamp_normal. rewrite (current_eq _ _ H). cbn.
  split; [done|]. exists text. cbn. split; [done|lia].
Qed.

Lemma clamp_cursor_ok b : line_ok b → yields (clamp_cursor b) (λ b', b_lines b' = b_lines b ∧ buf_ok b').
Proof.
  intros [text H]. unfold clamp_cursor. rewrite (current_eq _ _ H). cbn.
  split; [done|]. exists text. cbn. split; [done|lia].
Qed.

Lemma line_down_ok b : line_ok b → line_ok (line_down b).
Proof.
  intros H. unfold line_down. destruct (Nat.ltb_spec (b_line b + 1) (length (b_lines b))); [|done].
  by apply lookup_lt_is_Some_2.
Qed.

Lemma line_up_ok b : line_ok b → line_ok (line_up b).
Proof.
  intros H. apply lookup_lt_is_Some_2. apply lookup_lt_is_Some_1 in H. cbn. lia.
Qed.

Lemma last_index_eq b : line_ok b → last_index b = Ret (length (b_lines b) - 1).
Proof. intros [text H]. unfold last_index. by destruct (b_lines b). Qed.

Lemma last_line_ok b : line_ok b → is_Some (b_lines b !! (length (b_lines b) - 1)).
Proof. intros H. apply lookup_lt_is_Some_1 in H. apply lookup_lt_is_Some_2. lia. Qed.


Abbreviation handle := (handle_events is_alphabetic is_numeric).
Abbreviation step := (edit_step is_alphabetic is_numeric).
Abbreviation run := (edit_run is_alphabetic is_numeric).
Abbreviation motion := (apply_motion is_alphabetic is_numeric).
Abbreviation class := (char_class is_alphabetic is_numeric).
Abbreviation of_class := (in_class is_alphabetic is_numeric).

(** ** Motions *)

(** A position in the text, on a character or at the start of an empty line. *)
Definition place b (p : nat * nat) : Prop := on_char (b_at b p.1 p.2).

Lemma run_at_le c chars col :
  col ≤ length chars → col + run_at is_alphabetic is_numeric c chars col ≤ length chars.
Proof. apply run_length_drop_le. Qed.

Lemma next_word_place b chars line col below :
  b_lines b !! line = Some chars → below = drop (line + 1) (b_lines b) →
  place b (next_word is_alphabetic is_numeric chars line col below).
Proof using Type.
  revert chars line col. induction below as [|chars' below IH]; intros chars line col Hl Hb; cbn [next_word];
    destruct (Nat.ltb_spec (col + run_at is_alphabetic is_numeric CC_Space chars col) (length chars)).
  1,3: exists chars; cbn; split; [done|lia].
  - exists chars. cbn. split; [done|lia].
  - assert (b_lines b !! (line + 1) = Some chars') as Hl'.
    { rewrite <- (Nat.add_0_r (line + 1)), <- lookup_drop, <- Hb. done. }
    assert (below = drop (line + 1 + 1) (b_lines b)) as Hb'.
    { rewrite <- drop_drop, <- Hb. done. }
    destruct chars' as [|c chars']; [exists []; cbn; split; [done|lia]|]. by apply IH.
Qed.

Lemma word_forward_place b : line_ok b → yields (word_forward is_alphabetic is_numeric b) (place b).
Proof using Type.
  intros [chars H]. unfold word_forward. rewrite (current_eq _ _ H). cbn. by apply next_word_place.
Qed.

Lemma next_end_place b chars line col below :
  b_lines b !! line = Some chars → below = drop (line + 1) (b_lines b) →
  place b (next_end is_alphabetic is_numeric chars line col below).
Proof using Type.
  revert chars line col. induction below as [|chars' below IH]; intros chars line col Hl Hb; cbn [next_end];
    destruct (chars !! (col + run_at is_alphabetic is_numeric CC_Space chars col)) as [c|] eqn:Hc.
  1,3: apply lookup_lt_Some in Hc; exists chars; cbn; split; [done|];
       pose proof (run_at_le (class c) chars _ (Nat.lt_le_incl _ _ Hc)); lia.
  - exists chars. cbn. split; [done|lia].
  - apply IH.
    + by rewrite <- (Nat.add_0_r (line + 1)), <- lookup_drop, <- Hb.
    + by rewrite <- drop_drop, <- Hb.
Qed.

Lemma word_end_place b : line_ok b → yields (word_end_forward is_alphabetic is_numeric b) (place b).
Proof using Type.
  intros [chars H]. unfold word_end_forward. rewrite (current_eq _ _ H). cbn. by apply next_end_place.
Qed.

Lemma back_to_word_ok chars col :
  col ≤ length chars →
  yields (back_to_word is_alphabetic is_numeric chars col) (λ o, ∀ i, o = Some i → i < length chars).
Proof using Type.
  induction col as [|i IH]; intros Hc; cbn [back_to_word]; [done|].
  destruct (lookup_lt_is_Some_2 chars i) as [c ->]; [lia|]. cbn [expect mbind outcome_bind].
  destruct (of_class CC_Space c); [apply IH; lia|]. intros j [= <-]. lia.
Qed.

Lemma run_start_ok c chars col :
  col ≤ length chars → yields (run_start is_alphabetic is_numeric c chars col) (λ i, i ≤ col).
Proof using Type.
  induction col as [|i IH]; intros Hc; cbn [run_start]; [cbn; lia|].
  destruct (lookup_lt_is_Some_2 chars i) as [c' ->]; [lia|]. cbn [expect mbind outcome_bind].
  destruct (of_class c c'); [|cbn; lia]. eapply yields_weaken; [apply IH; lia|]. cbn. lia.
Qed.

Lemma prev_word_place b line col :
  (∃ chars, b_lines b !! line = Some chars ∧ col ≤ length chars) →
  yields (prev_word is_alphabetic is_numeric b line col) (place b).
Proof using Type.
  revert col. induction line as [|above IH]; intros col (chars & Hl & Hc); cbn [prev_word]; unfold line_at;
    rewrite Hl; cbn [expect mbind outcome_bind]; (eapply yields_bind; [by apply back_to_word_ok|]);
    intros [i|] Hi.
  1,3: specialize (Hi i eq_refl); destruct (lookup_lt_is_Some_2 chars i Hi) as [c ->];
       cbn [expect mbind outcome_bind]; (eapply yields_bind; [apply run_start_ok; lia|]);
       intros start Hs; cbn in Hs; cbn; exists chars; cbn; split; [done|lia].
  - exists chars. cbn. split; [done|lia].
  - destruct (lookup_lt_is_Some_2 (b_lines b) above) as [chars' Ha]; [apply lookup_lt_Some in Hl; lia|].
    rewrite Ha. cbn [expect mbind outcome_bind]. destruct chars' as [|c chars'].
    + exists []. cbn. split; [done|lia].
    + apply IH. by exists (c :: chars').
Qed.

Lemma arrow_left_ok b :
  buf_ok b → yields (arrow_left b) (λ b', b_lines b' = b_lines b ∧ buf_ok b').
Proof.
  intros (text & Ht & Hc). unfold arrow_left. destruct (Nat.ltb_spec 0 (b_col b)).
  { split; [done|]. exists text. cbn. split; [done|lia]. }
  destruct (Nat.ltb_spec 0 (b_line b)); [|split; [done|by exists text]].
  destruct (lookup_lt_is_Some_2 (b_lines b) (b_line b - 1)) as [above Ha]; [apply lookup_lt_Some in Ht; lia|].
  unfold line_at. rewrite Ha. split; [done|]. by exists above.
Qed.

Lemma arrow_right_ok b :
  buf_ok b → yields (arrow_right b) (λ b', b_lines b' = b_lines b ∧ buf_ok b').
Proof.
  intros (text & Ht & Hc). unfold arrow_right. rewrite (current_eq _ _ Ht). cbn [mbind outcome_bind yields].
  destruct (Nat.ltb_spec (b_col b) (length text)); [split; [done|]; exists text; cbn; split; [done|lia]|].
  destruct (Nat.ltb_spec (b_line b + 1) (length (b_lines b))); [|split; [done|by exists text]].
  split; [done|]. destruct (lookup_lt_is_Some_2 (b_lines b) (b_line b + 1)) as [below Hb]; [done|].
  exists below. cbn. split; [done|lia].
Qed.

(** A motion leaves the text alone and the cursor on a character. *)
Lemma motion_on m code b :
  buf_ok b →
  yields (motion false m code b)
    (λ o, match o with Some b' => b_lines b' = b_lines b ∧ on_char b' | None => True end).
Proof using Type.
  intros Hb. pose proof (ok_line _ Hb) as Hline. destruct Hb as (text & Ht & Hc).
  assert (∀ b', line_ok b' → b_lines b' = b_lines b →
    yields (Some <$> clamp_normal b')
      (λ o, match o with Some b' => b_lines b' = b_lines b ∧ on_char b' | None => True end)) as Hclamp.
  { intros b' Hb' Heq. apply yields_fmap. rewrite <- Heq. by apply clamp_normal_on. }
  assert (∀ word, yields word (place b) →
    yields ('(line, col) ← word; Ret (b_at b line col)) (λ b', b_lines b' = b_lines b ∧ on_char b')) as Hword.
  { intros word Hw. eapply yields_bind; [exact Hw|]. intros [l c] Hp. by split. }
  assert (b_lines (line_down b) = b_lines b) as Hdown by (unfold line_down; by case_match).
  unfold apply_motion. destruct code as [c| | | | | | | | | | | | |n]; try done; try (destruct (m =? M_NONE)%Z; [|done]).
  - destruct (shifted m); [|done]. unfold char_motion, clamp_unless.
    destruct (is_char "h" _); [split; [done|]; exists text; cbn; split; [done|lia]|].
    destruct (is_char "l" _); [by apply Hclamp|].
    destruct (is_char "j" _); [by apply Hclamp; [apply line_down_ok|]|].
    destruct (is_char "k" _); [by apply Hclamp; [apply line_up_ok|]|].
    destruct (is_char "0" _); [split; [done|]; exists text; cbn; split; [done|lia]|].
    destruct (is_char "$" _); [rewrite (current_eq _ _ Ht); split; [done|]; by exists text|].
    destruct (is_char "w" _).
    { eapply yields_bind; [by apply Hword, word_forward_place|]. intros b' [Heq Hon].
      apply Hclamp; [by apply ok_line, on_char_ok|done]. }
    destruct (is_char "e" _); [by apply yields_fmap, Hword, word_end_place|].
    destruct (is_char "b" _); [apply yields_fmap, Hword, prev_word_place; by exists text|].
    destruct (is_char "G" _); [|done]. rewrite last_index_eq by done. cbn. split; [done|].
    destruct (last_line_ok b Hline) as [last Hl]. exists last. cbn. split; [done|lia].
  - by apply Hclamp; [apply line_down_ok|].
  - by apply Hclamp; [apply line_up_ok|].
  - eapply yields_bind; [by apply arrow_left_ok; exists text|].
    intros b' [Heq Hb']. apply Hclamp; [by apply ok_line|done].
  - eapply yields_bind; [by apply arrow_right_ok; exists text|].
    intros b' [Heq Hb']. apply Hclamp; [by apply ok_line|done].
Qed.

(** ** Fields in order *)

(** A mode that keeps the cursor on a character. *)
Definition block_mode e : Prop := ed_vim e = true ∧ ed_mode e ≠ VM_Insert.

(** The cursor is in the text; a selection starts on a line of it; the saved text
    has the saved line. *)
Record ed_ok e : Prop := mk_ed_ok {
  ok_buf : buf_ok (ed_buf e);
  ok_anchor : ∀ l, ed_mode e = VM_Visual l →
    ed_vim e = true ∧ ∃ a, ed_anchor e = Some a ∧ a.1 < length (b_lines (ed_buf e));
  ok_undo : ∀ b, ed_undo e = Some b → line_ok b;
}.

(** And on a character, in the modes for that. *)
Definition steady e : Prop := ed_ok e ∧ (block_mode e → on_char (ed_buf e)).

(** What stays of a field whatever is pressed. *)
Definition same_field e e' : Prop :=
  ed_disabled e' = ed_disabled e ∧ ed_vim e' = ed_vim e ∧ ed_language e' = ed_language e ∧
  ed_focused e' = ed_focused e.

(** The result of a key: a field in order, steady if it was. *)
Definition kept e e' : Prop := same_field e e' ∧ ed_ok e' ∧ (steady e → steady e').

Lemma same_field_refl e : same_field e e.
Proof. by split_and!. Qed.

Lemma kept_refl e : ed_ok e → kept e e.
Proof. intros H. split_and!; auto. apply same_field_refl. Qed.

Lemma same_field_trans e1 e2 e3 : same_field e1 e2 → same_field e2 e3 → same_field e1 e3.
Proof. intros (? & ? & ? & ?) (? & ? & ? & ?). split_and!; congruence. Qed.

Lemma kept_trans e1 e2 e3 : kept e1 e2 → kept e2 e3 → kept e1 e3.
Proof.
  intros (Hs & Ho & Hk) (Hs' & Ho' & Hk'). split_and!; [by eapply same_field_trans|done|auto].
Qed.

(** A new buffer, outside a selection. *)
Lemma kept_buf e b :
  ed_ok e → (∀ l, ed_mode e ≠ VM_Visual l) → buf_ok b → (block_mode e → on_char b) →
  kept e (ed_with_buf e b).
Proof.
  intros [Hb Ha Hu] Hv Hok Hon. assert (ed_ok (ed_with_buf e b)).
  { constructor; [done| |done]. intros l Hl. by destruct (Hv l). }
  split_and!; [by split_and!|done|]. intros _. by split.
Qed.

(** A cursor moved within the text. *)
Lemma kept_move e b :
  ed_ok e → b_lines b = b_lines (ed_buf e) → on_char b → kept e (ed_with_buf e b).
Proof.
  intros [Hb Ha Hu] Heq Hon. assert (ed_ok (ed_with_buf e b)).
  { constructor; [by apply on_char_ok| |done]. cbn. by rewrite Heq. }
  split_and!; [by split_and!|done|]. intros _. by split.
Qed.

Lemma kept_pending e p : ed_ok e → kept e (ed_with_pending e p).
Proof.
  intros [Hb Ha Hu]. assert (ed_ok (ed_with_pending e p)) by by constructor.
  split_and!; [by split_and!|done|]. intros [_ Hon]. by split.
Qed.

Lemma kept_last_space e p : ed_ok e → kept e (ed_with_last_space e p).
Proof.
  intros [Hb Ha Hu]. assert (ed_ok (ed_with_last_space e p)) by by constructor.
  split_and!; [by split_and!|done|]. intros [_ Hon]. by split.
Qed.

Lemma kept_register e text kind : ed_ok e → kept e (set_register e text kind).
Proof.
  intros [Hb Ha Hu]. assert (ed_ok (set_register e text kind)) by by constructor.
  split_and!; [by split_and!|done|]. intros [_ Hon]. by split.
Qed.

Lemma kept_snapshot e : ed_ok e → kept e (snapshot_undo e).
Proof.
  intros [Hb Ha Hu]. assert (ed_ok (snapshot_undo e)).
  { constructor; [done|done|]. intros b [= <-]. by apply ok_line. }
  split_and!; [by split_and!|done|]. intros [_ Hon]. by split.
Qed.

(** Normal mode, on a character. *)
Lemma kept_normal e b anchor :
  ed_ok e → on_char b → kept e (ed_with_buf (ed_with_mode e VM_Normal anchor) b).
Proof.
  intros [Hb Ha Hu] Hon. assert (ed_ok (ed_with_buf (ed_with_mode e VM_Normal anchor) b)).
  { constructor; [by apply on_char_ok|done|done]. }
  split_and!; [by split_and!|done|]. intros _. by split.
Qed.

(** ** Edits of the lines *)

(** Linear arithmetic on the cursor of an updated buffer. *)
Ltac blia := cbn [b_with_lines b_with_col b_at b_lines b_line b_col] in *; lia.

Lemma line_at_eq b i text : b_lines b !! i = Some text → line_at b i = Ret text.
Proof. intros H. unfold line_at. by rewrite H. Qed.

Lemma set_line_eq b i text new :
  b_lines b !! i = Some text → set_line b i new = Ret (b_with_lines b (<[i := new]> (b_lines b))).
Proof. intros H. unfold set_line. by rewrite (line_at_eq _ _ _ H). Qed.

Lemma insert_line_eq b i new :
  i ≤ length (b_lines b) →
  insert_line b i new = Ret (b_with_lines b (take i (b_lines b) ++ new :: drop i (b_lines b))).
Proof. intros H. unfold insert_line. by rewrite (proj2 (Nat.leb_le _ _) H). Qed.

Lemma remove_line_eq b i text :
  b_lines b !! i = Some text → remove_line b i = Ret (text, b_with_lines b (delete i (b_lines b))).
Proof. intros H. unfold remove_line. by rewrite (line_at_eq _ _ _ H). Qed.

Lemma lines_between_eq b from to :
  from ≤ to + 1 → to < length (b_lines b) →
  lines_between b from to = Ret (take (to + 1 - from) (drop from (b_lines b))).
Proof.
  intros H1 H2. unfold lines_between. by rewrite (proj2 (Nat.leb_le _ _) H1), (proj2 (Nat.ltb_lt _ _) H2).
Qed.

Lemma splice_eq b from to new :
  from ≤ to + 1 → to < length (b_lines b) →
  splice b from to new = Ret (b_with_lines b (take from (b_lines b) ++ new ++ drop (to + 1) (b_lines b))).
Proof. intros H1 H2. unfold splice. by rewrite lines_between_eq. Qed.

Lemma insert_at_eq b i idx text target :
  b_lines b !! i = Some target →
  insert_at b i idx text =
    Ret (b_with_lines b (<[i := take idx target ++ text ++ drop idx target]> (b_lines b))).
Proof. intros H. unfold insert_at. rewrite (line_at_eq _ _ _ H). cbn. by apply (set_line_eq _ _ target). Qed.

Lemma remove_range_eq b i start stop target :
  b_lines b !! i = Some target → start ≤ stop → stop ≤ length target →
  remove_range b i start stop =
    Ret (take (stop - start) (drop start target),
         b_with_lines b (<[i := take start target ++ drop stop target]> (b_lines b))).
Proof.
  intros H H1 H2. unfold remove_range. rewrite (line_at_eq _ _ _ H). cbn [mbind outcome_bind].
  rewrite (Nat.min_l stop (length target)), (Nat.min_l start stop) by done.
  by rewrite (set_line_eq _ _ target).
Qed.

Lemma inserted_lookup {A} (l : list A) i x : i ≤ length l → (take i l ++ x :: drop i l) !! i = Some x.
Proof. intros H. apply list_lookup_middle. by rewrite length_take_le. Qed.

(** A line of the buffer is replaced and the cursor put in it. *)
Lemma replaced_ok b i text new c :
  b_lines b !! i = Some text → c ≤ length new → buf_ok (mkBuffer (<[i := new]> (b_lines b)) i c).
Proof.
  intros H Hc. exists new. split; [|done]. cbn. apply list_lookup_insert_eq. by eapply lookup_lt_Some.
Qed.

Lemma type_text_ok b text : buf_ok b → yields (type_text b text) buf_ok.
Proof.
  intros (line & Ht & Hc). unfold type_text. rewrite (insert_at_eq _ _ _ _ _ Ht). cbn [mbind outcome_bind yields].
  apply (replaced_ok b (b_line b) line); [done|]. rewrite !length_app, length_take. blia.
Qed.

Lemma edit_up_ok b : buf_ok b → yields (edit_up false b) buf_ok.
Proof.
  intros H. unfold edit_up. destruct (0 <? b_line b); [|done].
  eapply yields_weaken; [by apply clamp_cursor_ok, line_up_ok, ok_line|]. by intros b' [_ ?].
Qed.

Lemma edit_down_ok b : buf_ok b → yields (edit_down false b) buf_ok.
Proof.
  intros H. unfold edit_down. destruct (_ <? _); [|done].
  eapply yields_weaken; [by apply clamp_cursor_ok, line_down_ok, ok_line|]. by intros b' [_ ?].
Qed.

Lemma backspace_ok b : buf_ok b → yields (backspace b) buf_ok.
Proof.
  intros (text & Ht & Hc). unfold backspace. destruct (Nat.ltb_spec 0 (b_col b)).
  - rewrite (remove_range_eq _ _ _ _ _ Ht) by lia. cbn [mbind outcome_bind yields].
    apply (replaced_ok b (b_line b) text); [done|]. rewrite length_app, length_take. blia.
  - destruct (Nat.ltb_spec 0 (b_line b)); [|by exists text].
    unfold join_above. rewrite (remove_line_eq _ _ _ Ht). cbn [mbind outcome_bind].
    destruct (lookup_lt_is_Some_2 (delete (b_line b) (b_lines b)) (b_line b - 1)) as [above Ha].
    { apply lookup_lt_Some in Ht as Hlt. rewrite length_delete by (by eexists). lia. }
    rewrite (line_at_eq _ _ above) by done. cbn [mbind outcome_bind].
    rewrite (set_line_eq _ _ above) by done. cbn [mbind outcome_bind yields].
    apply (replaced_ok (b_with_lines b (delete (b_line b) (b_lines b))) (b_line b - 1) above); [done|].
    rewrite length_app. blia.
Qed.

Lemma delete_key_ok b : buf_ok b → yields (delete_key b) buf_ok.
Proof.
  intros (text & Ht & Hc). unfold delete_key. rewrite (current_eq _ _ Ht). cbn [mbind outcome_bind].
  destruct (Nat.ltb_spec (b_col b) (length text)).
  - rewrite (remove_range_eq _ _ _ _ _ Ht) by lia. cbn [mbind outcome_bind yields].
    apply (replaced_ok b (b_line b) text); [done|]. rewrite length_app, length_take. blia.
  - destruct (Nat.ltb_spec (b_line b + 1) (length (b_lines b))); [|by exists text].
    destruct (lookup_lt_is_Some_2 (b_lines b) (b_line b + 1)) as [next Hn]; [done|].
    rewrite (remove_line_eq _ _ _ Hn). cbn [mbind outcome_bind].
    assert (delete (b_line b + 1) (b_lines b) !! b_line b = Some text) as Ht'.
    { rewrite list_lookup_delete_lt by lia. done. }
    rewrite (set_line_eq _ _ text) by done.
    apply (replaced_ok (b_with_lines b (delete (b_line b + 1) (b_lines b))) (b_line b) text); [done|].
    rewrite length_app. blia.
Qed.

Lemma unindent_ok b : buf_ok b → yields (unindent b) buf_ok.
Proof.
  intros (text & Ht & Hc). unfold unindent. rewrite (current_eq _ _ Ht). cbn [mbind outcome_bind].
  destruct (Nat.ltb_spec 0 (Nat.min (run_length (Z.eqb space) text) 4)); [|by exists text].
  pose proof (run_length_le (Z.eqb space) text) as Hr.
  rewrite (remove_range_eq _ _ _ _ _ Ht) by lia. cbn [mbind outcome_bind yields].
  apply (replaced_ok b (b_line b) text); [done|]. rewrite length_app, length_take, length_drop. blia.
Qed.

(** A line is opened, the cursor in it. *)
Lemma inserted_ok lines i new c :
  i ≤ length lines → c ≤ length new → buf_ok (mkBuffer (take i lines ++ new :: drop i lines) i c).
Proof. intros Hi Hc. exists new. split; [|done]. by apply inserted_lookup. Qed.

(** ** Indentation *)

(** A Lua line has no 256 equals signs in a row. *)
Definition tame (language : option Language) (text : list Z) : Prop := language = Some L_Lua → shallow text.

Lemma run_length_prefix p x y : run_length p x ≤ run_length p (x ++ y).
Proof. induction x as [|c x IH]; cbn; [lia|]. destruct (p c); lia. Qed.

Lemma shallow_infix a text z : shallow (a ++ text ++ z) → shallow text.
Proof.
  intros H n. destruct (decide (n ≤ length text)) as [Hn|Hn]; [|rewrite drop_ge by lia; cbn; lia].
  specialize (H (length a + n)). rewrite <- drop_drop, drop_app_length, drop_app_le in H by done.
  pose proof (run_length_prefix (Z.eqb equals_sign) (drop n text) z). lia.
Qed.

Lemma auto_indent_ok language line :
  (safe → tame language line) → yields (auto_indent is_alphabetic is_numeric language line) (λ _, True).
Proof using Type.
  intros H. unfold auto_indent. destruct language as [[| | |]|]; try done. cbn [indent_delta].
  destruct (lua_highlight_line is_alphabetic is_numeric line LC_None) as [[spans carry]|] eqn:Hh; [done|].
  intros Hs. destruct (shallow_highlight is_alphabetic is_numeric line LC_None (H Hs eq_refl)) as [r Hr].
  by rewrite Hr in Hh.
Qed.

Lemma break_line_ok language b :
  buf_ok b → (∀ line, b_lines b !! b_line b = Some line → safe → tame language line) →
  yields (break_line is_alphabetic is_numeric language b) buf_ok.
Proof using Type.
  intros (text & Ht & Hc) Htame. unfold break_line, split_line. rewrite (current_eq _ _ Ht).
  cbn [mbind outcome_bind]. rewrite (proj2 (Nat.leb_le _ _) Hc). cbn [mbind outcome_bind].
  eapply yields_bind.
  { apply auto_indent_ok. intros Hs Hl. apply (shallow_infix [] _ (drop (b_col b) text)).
    cbn [app]. rewrite take_drop. by apply (Htame text). }
  intros indent _. rewrite (set_line_eq _ _ text) by done. cbn [mbind outcome_bind].
  apply lookup_lt_Some in Ht as Hlt.
  rewrite insert_line_eq by (cbn; rewrite length_insert; lia). cbn [mbind outcome_bind yields].
  apply inserted_ok; [cbn; rewrite length_insert; lia|]. rewrite length_app, length_replicate. lia.
Qed.

Lemma open_line_below_ok language b :
  line_ok b → (∀ line, b_lines b !! b_line b = Some line → safe → tame language line) →
  yields (open_line_below is_alphabetic is_numeric language b) buf_ok.
Proof using Type.
  intros [text Ht] Htame. unfold open_line_below. rewrite (current_eq _ _ Ht). cbn [mbind outcome_bind].
  eapply yields_bind; [apply auto_indent_ok; by apply Htame|]. intros indent _.
  apply lookup_lt_Some in Ht as Hlt. rewrite insert_line_eq by lia. cbn [mbind outcome_bind yields].
  apply inserted_ok; [blia|]. by rewrite length_replicate.
Qed.

Lemma open_line_above_ok b : line_ok b → yields (open_line_above b) buf_ok.
Proof.
  intros [text Ht]. unfold open_line_above. rewrite (current_eq _ _ Ht). cbn [mbind outcome_bind].
  apply lookup_lt_Some in Ht as Hlt. rewrite insert_line_eq by lia. cbn [mbind outcome_bind yields].
  apply inserted_ok; [blia|]. by rewrite length_replicate.
Qed.

(** ** The register *)

Lemma inserted_lookup_at {A} (l : list A) i x rest :
  i ≤ length l → (take i l ++ x :: rest) !! i = Some x.
Proof. intros H. apply list_lookup_middle. by rewrite length_take_le. Qed.

(** The lines of a selection are in the text. *)
Definition spans b (from to : nat * nat) : Prop := from.1 ≤ to.1 ∧ to.1 < length (b_lines b).

Lemma spans_lines b from to :
  spans b from to → is_Some (b_lines b !! from.1) ∧ is_Some (b_lines b !! to.1).
Proof. intros [H1 H2]. split; apply lookup_lt_is_Some_2; lia. Qed.

Lemma selection_range_ok e l :
  ed_ok e → ed_mode e = VM_Visual l →
  yields (selection_range e) (λ o, ∃ from to, o = Some (from, to) ∧ spans (ed_buf e) from to).
Proof.
  intros [(text & Ht & _) Ha _] Hm. destruct (Ha l Hm) as (_ & anchor & Heq & Hlt).
  unfold selection_range. rewrite Heq, Hm. apply lookup_lt_Some in Ht.
  assert (∃ from to, (if position_le anchor (b_line (ed_buf e), b_col (ed_buf e))
            then (anchor, (b_line (ed_buf e), b_col (ed_buf e)))
            else ((b_line (ed_buf e), b_col (ed_buf e)), anchor)) = (from, to) ∧
            spans (ed_buf e) from to) as (from & to & Hp & Hs).
  { unfold position_le, spans. cbn [fst snd].
    destruct (Nat.ltb_spec anchor.1 (b_line (ed_buf e))); cbn [orb]; [do 2 eexists; split; [done|cbn; lia]|].
    destruct (Nat.eqb_spec anchor.1 (b_line (ed_buf e))); cbn [andb];
      [destruct (_ <=? _)|]; do 2 eexists; (split; [done|cbn; lia]). }
  rewrite Hp. destruct l.
  - destruct (spans_lines _ _ _ Hs) as [_ [text' Ht']]. rewrite (line_at_eq _ _ _ Ht').
    cbn [mbind outcome_bind yields]. by do 2 eexists.
  - by do 2 eexists.
Qed.

Lemma selected_text_ok linewise b from to :
  spans b from to → yields (selected_text linewise b from to) (λ _, True).
Proof.
  intros Hs. destruct (spans_lines _ _ _ Hs) as [[first Hf] [last Hl]]. destruct Hs as [H1 H2].
  destruct linewise; cbn [selected_text].
  - by rewrite lines_between_eq by lia.
  - unfold extract_charwise. rewrite (line_at_eq _ _ _ Hf), (line_at_eq _ _ _ Hl).
    cbn [mbind outcome_bind]. by case_match.
Qed.

Lemma last_index_len b : 0 < length (b_lines b) → last_index b = Ret (length (b_lines b) - 1).
Proof. intros H. unfold last_index. destruct (b_lines b); [cbn in H; lia|done]. Qed.

Lemma cut_lines_ok b from to line :
  from ≤ to → to < length (b_lines b) → yields (cut_lines b from to line) line_ok.
Proof.
  intros H1 H2. unfold cut_lines. rewrite last_index_len by lia. cbn [mbind outcome_bind].
  destruct ((from =? 0) && (to =? length (b_lines b) - 1)) eqn:E; [by eexists|].
  rewrite splice_eq by lia. cbn [mbind outcome_bind]. rewrite app_nil_l.
  set (b' := b_with_lines b (take from (b_lines b) ++ drop (to + 1) (b_lines b))).
  assert (0 < length (b_lines b')) as Hlen.
  { cbn [b' b_with_lines b_lines]. rewrite length_app, length_drop, length_take.
    destruct (Nat.eqb_spec from 0), (Nat.eqb_spec to (length (b_lines b) - 1)); try done; lia. }
  rewrite last_index_len by done. cbn [mbind outcome_bind yields].
  apply lookup_lt_is_Some_2. cbn [b_at b_line b_lines]. lia.
Qed.

Lemma cut_span_ok b from to : spans b from to → yields (cut_span b from to) line_ok.
Proof.
  intros Hs. destruct (spans_lines _ _ _ Hs) as [[first Hf] [last Hl]]. destruct Hs as [H1 H2].
  unfold cut_span. rewrite (line_at_eq _ _ _ Hf), (line_at_eq _ _ _ Hl). cbn [mbind outcome_bind].
  rewrite splice_eq by lia. cbn [mbind outcome_bind yields]. eexists.
  apply inserted_lookup_at. lia.
Qed.

(** ** Pasting *)

Lemma split_cons sep s : ∃ first rest, split sep s = first :: rest.
Proof. pose proof (split_not_nil sep s). destruct (split sep s); [done|by do 2 eexists]. Qed.

Lemma insert_lines_eq lines b i :
  i ≤ length (b_lines b) →
  insert_lines b i lines = Ret (b_with_lines b (take i (b_lines b) ++ lines ++ drop i (b_lines b))).
Proof.
  revert b i. induction lines as [|l lines IH]; intros b i Hi; cbn [insert_lines].
  { cbn [app]. rewrite take_drop. by destruct b. }
  rewrite insert_line_eq by done. cbn [mbind outcome_bind].
  assert (length (take i (b_lines b)) = i) as Hlen by (apply length_take_le; lia).
  rewrite IH by (cbn; rewrite length_app; cbn; lia). cbn [b_with_lines b_lines b_line b_col].
  rewrite (take_app_add' _ _ i 1), (drop_app_add' _ _ i 1) by done. cbn [take drop].
  by rewrite <- app_assoc.
Qed.

Lemma paste_lines_ok after b text : line_ok b → yields (paste_lines after b text) line_ok.
Proof.
  intros Hb. apply lookup_lt_is_Some_1 in Hb. unfold paste_lines.
  set (at_ := if after then b_line b + 1 else b_line b).
  assert (at_ ≤ length (b_lines b)) as Hat by (unfold at_; destruct after; lia).
  rewrite insert_lines_eq by done. cbn [mbind outcome_bind yields].
  destruct (split_cons lf text) as (first & rest & ->). eexists. cbn [b_at b_line b_lines b_with_lines app].
  by apply inserted_lookup_at.
Qed.

Lemma paste_span_ok after b text : buf_ok b → yields (paste_span after b text) line_ok.
Proof.
  intros (line & Ht & Hc). unfold paste_span. rewrite (current_eq _ _ Ht). cbn [mbind outcome_bind].
  apply lookup_lt_Some in Ht as Hlt.
  set (col := if after then Nat.min (b_col b + 1) (length line) else b_col b).
  assert (col ≤ length line) as Hcol by (unfold col; destruct after; lia).
  destruct (split_cons lf text) as (first & rest & ->). destruct rest as [|second rest].
  - rewrite (insert_at_eq _ _ _ _ _ Ht). cbn [mbind outcome_bind yields].
    eexists. cbn [b_with_col b_at b_line b_lines b_with_lines]. by apply list_lookup_insert_eq.
  - rewrite (proj2 (Nat.leb_le _ _) Hcol). rewrite splice_eq by lia. cbn [mbind outcome_bind yields].
    apply lookup_lt_is_Some_2. cbn [b_at b_line b_lines b_with_lines].
    rewrite !length_app, length_take, length_drop. cbn [length]. rewrite !length_app. cbn [length]. lia.
Qed.

(** ** Commands of Normal mode *)

Definition no_selection e : Prop := ∀ l, ed_mode e ≠ VM_Visual l.

(** After an edit of the text the cursor is put on a character. *)
Lemma kept_clamped e b :
  ed_ok e → no_selection e → line_ok b → yields (b ← clamp_normal b; Ret (ed_with_buf e b)) (kept e).
Proof.
  intros He Hv Hb. eapply yields_bind; [by apply clamp_normal_on|]. intros b' [_ Hon].
  apply kept_buf; auto using on_char_ok.
Qed.

Lemma yields_kept e e' (o : Outcome Editor) : kept e e' → yields o (kept e') → yields o (kept e).
Proof. intros Hk H. eapply yields_weaken; [done|]. intros e2. by apply kept_trans. Qed.


Lemma kept_ok e e' : kept e e' → ed_ok e'.
Proof. by intros (_ & H & _). Qed.

Lemma delete_current_line_kept e :
  ed_ok e → no_selection e → yields (delete_current_line e) (kept e).
Proof.
  intros He Hv. unfold delete_current_line. destruct (ed_disabled e); [by apply kept_refl|].
  destruct (ok_buf _ He) as (text & Ht & _). apply lookup_lt_Some in Ht as Hlt.
  cbn [snapshot_undo ed_with_undo ed_buf]. rewrite (current_eq _ _ Ht). cbn [mbind outcome_bind].
  set (e1 := set_register (snapshot_undo e) text RK_Linewise).
  assert (kept e e1) as Hk.
  { eapply kept_trans; [by apply kept_snapshot|]. by apply kept_register, (kept_ok e), kept_snapshot. }
  apply (yields_kept _ e1); [done|]. eapply (yields_bind _ _ line_ok).
  - cbn [e1 set_register ed_buf snapshot_undo ed_with_undo].
    destruct (Nat.eqb_spec (length (b_lines (ed_buf e))) 1).
    + assert (b_line (ed_buf e) = 0) as H0 by lia. rewrite (set_line_eq _ _ text) by (by rewrite <- H0).
      eexists. cbn. rewrite H0. apply list_lookup_insert_eq. lia.
    + rewrite (remove_line_eq _ _ _ Ht). cbn [mbind outcome_bind].
      assert (length (delete (b_line (ed_buf e)) (b_lines (ed_buf e))) = length (b_lines (ed_buf e)) - 1) as Hd
        by (rewrite length_delete by (by eexists); lia).
      rewrite last_index_len by (cbn; lia). cbn [mbind outcome_bind yields].
      apply lookup_lt_is_Some_2. cbn [b_at b_with_lines b_line b_lines]. lia.
  - intros b Hb. apply kept_clamped; [by eapply kept_ok|done|done].
Qed.

(** The lines are saved and a text goes to the register. *)
Lemma kept_cut e text kind : ed_ok e → kept e (set_register (snapshot_undo e) text kind).
Proof.
  intros He. eapply kept_trans; [by apply kept_snapshot|].
  by apply kept_register, (kept_ok e), kept_snapshot.
Qed.

Lemma cut_char_kept e : ed_ok e → no_selection e → yields (cut_char e) (kept e).
Proof.
  intros He Hv. unfold cut_char. destruct (ok_buf _ He) as (text & Ht & Hc).
  rewrite (current_eq _ _ Ht). cbn [mbind outcome_bind].
  destruct text as [|c text]; [by apply kept_refl|]. set (line := c :: text) in *.
  cbn [snapshot_undo ed_with_undo ed_buf]. unfold remove_range.
  rewrite (line_at_eq _ _ _ Ht). cbn [mbind outcome_bind]. rewrite (set_line_eq _ _ line) by done.
  cbn [mbind outcome_bind].
  match goal with |- context [set_register _ ?t _] => set (removed := t) end.
  apply (yields_kept _ (set_register (snapshot_undo e) removed RK_Charwise)); [by apply kept_cut|].
  refine (kept_clamped (set_register (snapshot_undo e) removed RK_Charwise) _ _ _ _);
    [by eapply kept_ok, kept_cut|done|].
  eexists. cbn. apply list_lookup_insert_eq. by eapply lookup_lt_Some.
Qed.

Lemma swap_undo_kept e : ed_ok e → no_selection e → yields (swap_undo e) (kept e).
Proof.
  intros He Hv. unfold swap_undo. destruct (ed_undo e) as [saved|] eqn:Hu; [|by apply kept_refl].
  apply (yields_kept _ (snapshot_undo e)); [by apply kept_snapshot|].
  refine (kept_clamped (snapshot_undo e) saved _ _ _); [by eapply kept_ok, kept_snapshot|done|].
  by apply (ok_undo _ He).
Qed.

Lemma enter_insert_kept e change :
  ed_ok e → (∀ b, buf_ok b → b_lines b = b_lines (ed_buf e) → b_line b = b_line (ed_buf e) →
               yields (change b) buf_ok) →
  yields (enter_insert e change) (kept e).
Proof.
  intros He Hc. unfold enter_insert.
  apply (yields_kept _ (snapshot_undo e)); [by apply kept_snapshot|].
  eapply yields_bind; [by apply Hc; [apply (ok_buf _ He)|..]|]. intros b Hb.
  assert (ed_ok (ed_with_buf (ed_with_mode (snapshot_undo e) VM_Insert (ed_anchor (snapshot_undo e))) b)).
  { constructor; [done|done|]. intros b' [= <-]. apply ok_line, He. }
  split_and!; [by split_and!|done|]. intros _. split; [done|]. by intros [_ []].
Qed.

Lemma append_col_ok b : line_ok b → yields (append_col b) buf_ok.
Proof.
  intros [text Ht]. unfold append_col. rewrite (current_eq _ _ Ht). exists text. split; [done|blia].
Qed.

Lemma to_text_start_ok b : line_ok b → yields (to_text_start b) buf_ok.
Proof.
  intros [text Ht]. unfold to_text_start. rewrite (current_eq _ _ Ht). exists text. split; [done|].
  apply run_length_le.
Qed.

Lemma to_text_end_ok b : line_ok b → yields (to_text_end b) buf_ok.
Proof. intros [text Ht]. unfold to_text_end. rewrite (current_eq _ _ Ht). by exists text. Qed.

Lemma paste_kept after e : ed_ok e → no_selection e → yields (paste after e) (kept e).
Proof.
  intros He Hv. unfold paste. destruct (ed_register e) as [[text kind]|]; [|by apply kept_refl].
  apply (yields_kept _ (snapshot_undo e)); [by apply kept_snapshot|].
  assert (buf_ok (ed_buf (snapshot_undo e))) as Hb by apply He.
  eapply (yields_bind _ _ line_ok).
  - destruct kind; [by apply paste_lines_ok, ok_line|by apply paste_span_ok].
  - intros b Hb'. apply kept_clamped; [by eapply kept_ok, kept_snapshot|done|done].
Qed.

Lemma yank_current_line_kept e : ed_ok e → yields (yank_current_line e) (kept e).
Proof.
  intros He. unfold yank_current_line. destruct (ok_buf _ He) as (text & Ht & _).
  rewrite (current_eq _ _ Ht). by apply kept_register.
Qed.

Lemma fire_chord_kept code e :
  ed_ok e → no_selection e ∨ is_char "g" code = true → yields (fire_chord code e) (kept e).
Proof.
  intros He Hv. unfold fire_chord. apply (yields_kept _ (ed_with_pending e None)); [by apply kept_pending|].
  assert (ed_ok (ed_with_pending e None)) as He' by by eapply kept_ok, kept_pending.
  destruct (is_char "g" code).
  - eapply yields_bind; [apply clamp_normal_on|].
    + destruct (ok_buf _ He) as (text & Ht & _). apply lookup_lt_is_Some_2.
      apply lookup_lt_Some in Ht. cbn in *. lia.
    + intros b [Heq Hon]. by apply kept_move.
  - destruct Hv as [Hv|]; [|done].
    destruct (is_char "d" code); [by apply delete_current_line_kept|by apply yank_current_line_kept].
Qed.

(** ** Keys *)

(** Every line of the field is tame. *)
Definition tame_field e : Prop := Forall (tame (ed_language e)) (b_lines (ed_buf e)).

Lemma tame_line e line :
  (safe → tame_field e) → b_lines (ed_buf e) !! b_line (ed_buf e) = Some line → safe → tame (ed_language e) line.
Proof. intros H Hl Hs. specialize (H Hs). by eapply Forall_lookup_1 in Hl. Qed.

Abbreviation keeps e := (λ r, kept e (snd r)).

Lemma kept_consumed e o : yields o (kept e) → yields (consumed o) (keeps e).
Proof. intros H. eapply yields_bind; [exact H|]. by intros e'. Qed.

Lemma unless_disabled_kept e edit :
  ed_ok e → yields (edit e) (kept e) → yields (unless_disabled e edit) (keeps e).
Proof.
  intros He H. apply kept_consumed. destruct (ed_disabled e); [by apply kept_refl|done].
Qed.

(** A mode with no block cursor takes any place in the text. *)
Lemma on_buf_kept e (edit : Outcome Buffer) :
  ed_ok e → ¬ block_mode e → yields edit buf_ok → yields (on_buf e edit) (keeps e).
Proof.
  intros He Hm H. eapply yields_bind; [exact H|]. intros b' Hb. apply kept_buf; [done| |done|done].
  intros l Hl. destruct (ok_anchor _ He _ Hl) as [Hv _]. apply Hm. split; [done|]. by rewrite Hl.
Qed.

Lemma keeps_from e e' (o : Outcome (EventResult * Editor)) :
  kept e e' → yields o (keeps e') → yields o (keeps e).
Proof. intros Hk H. eapply yields_weaken; [exact H|]. intros r. by apply kept_trans. Qed.

Lemma type_space_kept now e : ed_ok e → ¬ block_mode e → yields (type_space now e) (kept e).
Proof.
  intros He Hm. unfold type_space.
  assert (∀ text, yields (type_text (ed_buf e) text) (λ b, kept e (ed_with_buf e b))) as Htype.
  { intros text. eapply yields_weaken; [apply type_text_ok, He|]. intros b Hb.
    apply kept_buf; [done| |done|done].
    intros l Hl. destruct (ok_anchor _ He _ Hl) as [Hv _]. apply Hm. split; [done|]. by rewrite Hl. }
  destruct (completes_indent now e); (eapply yields_bind; [apply Htype|]); intros b Hb; cbn beta in Hb.
  - eapply kept_trans; [exact Hb|]. by eapply kept_last_space, kept_ok.
  - cbn [yields]. destruct (ed_space_indent (ed_with_buf e b)); [|done].
    eapply kept_trans; [exact Hb|]. by eapply kept_last_space, kept_ok.
Qed.

Lemma arrow_left_buf b : buf_ok b → yields (arrow_left b) buf_ok.
Proof. intros H. eapply yields_weaken; [by apply arrow_left_ok|]. by intros b' []. Qed.

Lemma arrow_right_buf b : buf_ok b → yields (arrow_right b) buf_ok.
Proof. intros H. eapply yields_weaken; [by apply arrow_right_ok|]. by intros b' []. Qed.

Lemma handle_edit_key_kept now m code e :
  ed_ok e → ¬ block_mode e → ed_disabled e = false → (safe → tame_field e) →
  yields (handle_edit_key is_alphabetic is_numeric now m code e) (keeps e).
Proof using Type.
  intros He Hm Hd Ht. unfold handle_edit_key.
  set (e1 := if shifted m && is_char " " code then e else ed_with_last_space e None).
  assert (kept e e1) as Hk.
  { unfold e1. destruct (_ && _); [by apply kept_refl|by apply kept_last_space]. }
  assert (ed_disabled e1 = false ∧ (safe → tame_field e1) ∧ ¬ block_mode e1) as (Hd1 & Ht1 & Hm1).
  { unfold e1. by destruct (_ && _). }
  pose proof (kept_ok _ _ Hk) as He1. clearbody e1. clear Ht Hm.
  apply (keeps_from _ e1); [done|].
  assert (kept e1 e1) as Hr by by apply kept_refl.
  assert (buf_ok (ed_buf e1)) as Hb by apply He1.
  cbv zeta. rewrite ?Hd1, ?Hd. cbn [negb].
  destruct code as [c| | | | | | | | | | | | |n]; try done;
    try (destruct (m =? M_NONE)%Z; [|done]); cbn [andb].
  - destruct (shifted m); [|done]. cbn [andb]. destruct (is_char " " (KC_Char c)).
    + by apply kept_consumed, type_space_kept.
    + by apply on_buf_kept, type_text_ok.
  - by apply on_buf_kept, edit_down_ok.
  - by apply on_buf_kept, edit_up_ok.
  - by apply on_buf_kept, arrow_left_buf.
  - by apply on_buf_kept, arrow_right_buf.
  - apply on_buf_kept, break_line_ok; [done..|]. intros line. by apply tame_line.
  - by apply on_buf_kept, backspace_ok.
  - by apply on_buf_kept, delete_key_ok.
Qed.

Lemma leave_insert_kept e : ed_ok e → yields (leave_insert e) (kept e).
Proof.
  intros He. unfold leave_insert. destruct (ok_buf _ He) as (text & Ht & Hc).
  cbn [ed_with_mode ed_with_last_space ed_buf]. rewrite (current_eq _ _ Ht). cbn [mbind outcome_bind yields].
  eapply kept_trans; [by apply (kept_last_space e None)|].
  apply (kept_normal (ed_with_last_space e None)); [by eapply kept_ok, kept_last_space|].
  exists text. split; [done|blia].
Qed.

Lemma handle_insert_key_kept now m code e :
  ed_ok e → ed_mode e = VM_Insert → ed_disabled e = false → (safe → tame_field e) →
  yields (handle_insert_key is_alphabetic is_numeric now m code e) (keeps e).
Proof using Type.
  intros He Hm Hd Ht. assert (¬ block_mode e) as Hb by by intros [_ []].
  pose proof (handle_edit_key_kept now m code e He Hb Hd Ht) as Hedit.
  assert (kept e (ed_with_last_space e None)) as Hl by by apply kept_last_space.
  assert (∀ edit, yields edit buf_ok → yields (on_buf (ed_with_last_space e None) edit) (keeps e)) as Hon.
  { intros edit H. apply (keeps_from _ (ed_with_last_space e None)); [done|].
    apply on_buf_kept; [by eapply kept_ok|done|done]. }
  unfold handle_insert_key. destruct code; try done.
  - destruct (m =? M_NONE)%Z; [|done]. by apply kept_consumed, leave_insert_kept.
  - destruct (m =? M_NONE)%Z; [|done]. by apply Hon, type_text_ok, He.
  - destruct (shifted m); [|done]. by apply Hon, unindent_ok, He.
Qed.

Lemma moved_or_kept m code e rest :
  ed_ok e → ed_disabled e = false → yields rest (keeps e) →
  yields (moved_or is_alphabetic is_numeric m code e rest) (keeps e).
Proof using Type.
  intros He Hd H. unfold moved_or. rewrite Hd. eapply yields_bind; [by apply motion_on, He|].
  intros [b|] Ho; [|done]. destruct Ho as [Heq Hon]. by apply kept_move.
Qed.

(** A selection starts at the cursor, or changes its kind. *)
Lemma kept_visual e l anchor :
  ed_ok e → block_mode e → anchor.1 < length (b_lines (ed_buf e)) →
  kept e (ed_with_mode e (VM_Visual l) (Some anchor)).
Proof.
  intros He Hb Ha. assert (ed_ok (ed_with_mode e (VM_Visual l) (Some anchor))).
  { constructor; [apply He| |by apply He]. intros l' _. split; [by apply Hb|]. by exists anchor. }
  split_and!; [by split_and!|done|]. intros [_ Hon]. split; [done|]. intros _. by apply Hon.
Qed.

Lemma enter_visual_kept e l : ed_ok e → block_mode e → yields (enter_visual e l) (keeps e).
Proof.
  intros He Hb. destruct (ok_buf _ He) as (text & Ht & _). apply lookup_lt_Some in Ht.
  by apply kept_visual.
Qed.

Lemma normal_command_kept m code e :
  ed_ok e → ed_mode e = VM_Normal → ed_vim e = true → (safe → tame_field e) →
  yields (normal_command is_alphabetic is_numeric m code e) (keeps e).
Proof using Type.
  intros He Hm Hv Ht. assert (no_selection e) as Hs by (intros l; by rewrite Hm).
  assert (block_mode e) as Hb by (split; [done|by rewrite Hm]).
  assert (kept e e) as Hr by by apply kept_refl.
  unfold normal_command. destruct code; try done.
  repeat case_match; try done;
    first [by apply enter_visual_kept | apply unless_disabled_kept; [done|]].
  - by apply cut_char_kept.
  - by apply paste_kept.
  - by apply paste_kept.
  - by apply swap_undo_kept.
  - by apply enter_insert_kept.
  - apply enter_insert_kept; [done|]. intros b Hb' _ _. by apply append_col_ok, ok_line.
  - apply enter_insert_kept; [done|]. intros b Hb' _ _. by apply to_text_start_ok, ok_line.
  - apply enter_insert_kept; [done|]. intros b Hb' _ _. by apply to_text_end_ok, ok_line.
  - apply enter_insert_kept; [done|]. intros b Hb' Heq Hl. apply open_line_below_ok; [by apply ok_line|].
    intros line. rewrite Heq, Hl. by apply tame_line.
  - apply enter_insert_kept; [done|]. intros b Hb' _ _. by apply open_line_above_ok, ok_line.
Qed.

Lemma press_chord_kept code e :
  ed_ok e → no_selection e ∨ is_char "g" code = true → yields (press_chord code e) (keeps e).
Proof.
  intros He Hs. unfold press_chord. destruct code; try by apply kept_refl.
  apply kept_consumed. destruct (bool_decide _); [by apply fire_chord_kept|by apply kept_pending].
Qed.

Lemma handle_normal_key_kept m code e :
  ed_ok e → ed_mode e = VM_Normal → ed_vim e = true → ed_disabled e = false → (safe → tame_field e) →
  yields (handle_normal_key is_alphabetic is_numeric m code e) (keeps e).
Proof using Type.
  intros He Hm Hv Hd Ht. unfold handle_normal_key. destruct (_ && _).
  - apply press_chord_kept; [done|]. left. intros l. by rewrite Hm.
  - assert (kept e (ed_with_pending e None)) as Hk by by apply kept_pending.
    apply (keeps_from _ _ _ Hk). apply moved_or_kept; [by eapply kept_ok|done|].
    apply normal_command_kept; [by eapply kept_ok|done..].
Qed.

(** ** Selections *)

(** The mode is left, the cursor put on a character of the line it is on. *)
Lemma leave_kept e b :
  ed_ok e → line_ok b →
  yields (b ← clamp_normal b; Ret (ed_with_buf (ed_with_mode e VM_Normal None) b)) (kept e).
Proof.
  intros He Hb. eapply yields_bind; [by apply clamp_normal_on|]. intros b' [_ Hon].
  by apply kept_normal.
Qed.

Lemma delete_selection_kept e l :
  ed_ok e → ed_mode e = VM_Visual l → yields (delete_selection e) (kept e).
Proof.
  intros He Hm. unfold delete_selection. destruct (ed_disabled e); [by apply kept_refl|].
  eapply yields_bind; [by eapply selection_range_ok|]. intros o (from & to & -> & Hs).
  rewrite Hm. cbn [is_linewise snapshot_undo ed_with_undo ed_buf].
  eapply yields_bind; [by apply selected_text_ok|]. intros text _.
  set (e1 := set_register (snapshot_undo e) text (selection_kind l)).
  assert (kept e e1) as Hk by by apply kept_cut.
  eapply yields_bind; [|intros b Hb; apply (yields_kept _ e1); [exact Hk|]; apply leave_kept;
                         [by eapply kept_ok|exact Hb]].
  destruct l; [apply cut_lines_ok; apply Hs|by apply cut_span_ok].
Qed.

Lemma yank_selection_ok e l :
  ed_ok e → ed_mode e = VM_Visual l →
  yields (yank_selection e) (λ e', kept e e' ∧ ed_mode e' = VM_Visual l).
Proof.
  intros He Hm. unfold yank_selection. eapply yields_bind; [by eapply selection_range_ok|].
  intros o (from & to & -> & Hs). eapply yields_bind; [by apply selected_text_ok|]. intros text _.
  split; [by apply kept_register|done].
Qed.

Lemma enter_normal_kept e l :
  ed_ok e → ed_mode e = VM_Visual l → yields (enter_normal_at_selection_start e) (kept e).
Proof.
  intros He Hm. unfold enter_normal_at_selection_start.
  eapply yields_bind; [by eapply selection_range_ok|]. intros o (from & to & -> & Hs).
  apply leave_kept; [done|]. by apply (spans_lines _ _ _ Hs).
Qed.

Lemma handle_visual_key_kept m code e l :
  ed_ok e → ed_mode e = VM_Visual l → ed_disabled e = false →
  yields (handle_visual_key is_alphabetic is_numeric m code e) (keeps e).
Proof using Type.
  intros He Hm Hd. unfold handle_visual_key.
  destruct ((m =? M_NONE)%Z && is_char "g" code) eqn:Hg.
  { apply press_chord_kept; [done|]. right. by apply andb_true_iff in Hg as [_ ?]. }
  assert (kept e (ed_with_pending e None)) as Hk by by apply kept_pending.
  apply (keeps_from _ _ _ Hk). set (e1 := ed_with_pending e None) in *.
  assert (ed_ok e1) as He1 by by eapply kept_ok. assert (ed_mode e1 = VM_Visual l) as Hm1 by done.
  assert (ed_disabled e1 = false) as Hd1 by done. clearbody e1. cbv zeta.
  destruct ((m =? M_NONE)%Z && bool_decide (code = KC_Esc) || (m =? M_NONE)%Z && is_char "v" code).
  { unfold leave_visual. eapply yields_bind; [apply clamp_normal_on, ok_line, He1|].
    intros b [_ Hon]. by apply kept_normal. }
  destruct (_ && is_char "V" code).
  { destruct (ok_anchor _ He1 _ Hm1) as (Hv & a & Ha & Hlt). rewrite Ha. apply kept_visual; [done| |done].
    split; [done|by rewrite Hm1]. }
  destruct (_ && is_char "y" code).
  { apply kept_consumed. eapply yields_bind; [by eapply yank_selection_ok|]. intros e2 [Hk2 Hm2].
    apply (yields_kept _ e2); [done|]. eapply enter_normal_kept; [by eapply kept_ok|done]. }
  destruct ((m =? M_NONE)%Z && (is_char "d" code || is_char "x" code)).
  { by eapply kept_consumed, delete_selection_kept. }
  apply moved_or_kept; [done|done|]. repeat case_match; by apply kept_refl.
Qed.

(** ** The keys of all modes *)

Lemma page_move_kept down rows e :
  ed_ok e → ed_disabled e = false → yields (page_move down rows e) (kept e).
Proof.
  intros He Hd. unfold page_move. rewrite Hd. cbn [clamp_unless]. pose proof (ok_line _ (ok_buf _ He)) as Hb.
  assert (0 < length (b_lines (ed_buf e))) as Hpos by (apply lookup_lt_is_Some_1 in Hb; lia).
  eapply (yields_bind _ _ (λ line, line < length (b_lines (ed_buf e)))).
  - destruct down; [rewrite last_index_len by done; cbn [mbind outcome_bind yields]; lia|].
    apply lookup_lt_is_Some_1 in Hb. cbn [yields]. lia.
  - intros line Hl. eapply yields_bind; [apply clamp_normal_on; by apply lookup_lt_is_Some_2|].
    intros b [Heq Hon]. by apply kept_move.
Qed.

Lemma handle_readonly_nav_kept m code e :
  ed_ok e → ed_disabled e = false →
  yields (handle_readonly_nav m code e) (λ o, match o with Some e' => kept e e' | None => True end).
Proof.
  intros He Hd. unfold handle_readonly_nav. rewrite Hd, !andb_false_r.
  assert (∀ down rows, yields (Some <$> page_move down rows e)
    (λ o, match o with Some e' => kept e e' | None => True end)) as Hp.
  { intros down rows. apply yields_fmap. by apply page_move_kept. }
  repeat case_match; try done; by apply Hp.
Qed.

(** A key leaves an enabled field in order. *)
Lemma handle_events_kept now m code e :
  ed_ok e → ed_disabled e = false → (safe → tame_field e) → yields (handle now m code e) (keeps e).
Proof using Type.
  intros He Hd Ht. unfold handle_events.
  eapply (yields_bind _ _ (λ o, match o with Some e' => kept e e' | None => True end)).
  { destruct (ed_mode e); [by apply handle_readonly_nav_kept|done|by apply handle_readonly_nav_kept]. }
  intros [e'|] Ho; [done|]. unfold mode_key. destruct (ed_vim e) eqn:Hv; cbn [negb].
  - destruct (ed_mode e) as [| |l] eqn:Hm.
    + by apply handle_normal_key_kept.
    + by apply handle_insert_key_kept.
    + by eapply handle_visual_key_kept.
  - apply handle_edit_key_kept; [done|intros [Hb _]; congruence|done..].
Qed.

(** ** The whole text *)

Lemma set_content_ok e s :
  ed_ok e → yields (set_content e s) (λ e', ed_ok e' ∧ steady e' ∧ same_field e e').
Proof.
  intros He. unfold set_content. destruct (split_cons lf s) as (first & rest & Hs).
  destruct (lookup_lt_is_Some_2 (split lf s) (length (split lf s) - 1)) as [text Ht]; [rewrite Hs; cbn; lia|].
  rewrite Ht. cbn [expect mbind outcome_bind].
  set (b := mkBuffer (split lf s) (length (split lf s) - 1) (length text)).
  assert (buf_ok b) as Hb by by exists text.
  set (e1 := ed_with_scroll (ed_with_buf e b) 0 0). cbn [ed_vim e1 ed_with_scroll ed_with_buf].
  destruct (ed_vim e) eqn:Hv.
  - change (ed_buf e1) with b. eapply yields_bind; [by apply clamp_normal_on, ok_line|].
    intros b' [_ Hon]. cbn [yields]. set (e2 := ed_with_buf _ _).
    assert (ed_ok e2) as He2 by (constructor; [by apply on_char_ok|done|done]).
    split_and!; [done|by split|by split_and!].
  - assert (ed_ok e1) as He1.
    { constructor; [done| |apply He]. intros l Hl. destruct (ok_anchor _ He l Hl) as [Hv' _]. congruence. }
    split_and!; [done| |by split_and!]. split; [done|]. intros [Hv' _]. cbn in Hv'. congruence.
Qed.

Lemma in_join sep (l : list (list Z)) p : p ∈ l → ∃ x z, join sep l = x ++ p ++ z.
Proof.
  induction l as [|a l IH]; intros H; [by apply not_elem_of_nil in H|].
  apply elem_of_cons in H as [<-|H].
  - destruct l as [|b l]; [exists [], []; cbn; by rewrite app_nil_r|]. by eexists [], _.
  - destruct l as [|b l]; [by apply not_elem_of_nil in H|]. destruct (IH H) as (x & z & Heq).
    exists (a ++ sep :: x), z. change (join sep (a :: b :: l)) with (a ++ sep :: join sep (b :: l)).
    by rewrite Heq, <- app_assoc.
Qed.

Lemma split_shallow text : shallow text → Forall shallow (split lf text).
Proof.
  intros H. apply Forall_forall. intros p Hp. destruct (in_join lf _ _ Hp) as (x & z & Heq).
  rewrite join_split in Heq. rewrite Heq in H. by apply shallow_infix in H.
Qed.

Lemma join_shallow lines : Forall shallow lines → Forall shallow (split lf (join lf lines)).
Proof.
  induction 1 as [|a [|b l] Ha Hl IH].
  { constructor; [|constructor]. intros n. rewrite drop_nil. cbn. lia. }
  { by apply split_shallow. }
  change (join lf (a :: b :: l)) with (a ++ lf :: join lf (b :: l)). rewrite split_app_sep.
  apply Forall_app. split; [by apply split_shallow|done].
Qed.

Lemma format_source_ok lang lines :
  (safe → lang = L_Lua → Forall shallow lines) →
  yields (format_source is_alphabetic is_numeric lang (join lf lines)) (λ _, True).
Proof using Type.
  intros H. destruct lang; try done. cbn [format_source]. apply yields_fmap. unfold lua_format.
  destruct (format_lines _ _ _ _) as [out|] eqn:Hf; [done|]. intros Hs.
  destruct (print_lines_spec is_alphabetic is_numeric _ (LC_None, O) (join_shallow _ (H Hs eq_refl)))
    as (out & Hout & _). by rewrite Hout in Hf.
Qed.

Lemma format_on_blur_ok focus e :
  ed_ok e → (safe → tame_field e) →
  yields (format_on_blur is_alphabetic is_numeric focus e) (λ e', ed_ok e' ∧ same_field e e').
Proof using Type.
  intros He Ht. unfold format_on_blur. pose proof (same_field_refl e) as Hr.
  destruct (ed_focused e && negb focus && negb (ed_disabled e)); [|done].
  destruct (ed_language e) as [lang|] eqn:Hlang; [|done].
  eapply yields_bind.
  { apply format_source_ok. intros Hs ->. eapply Forall_impl; [exact (Ht Hs)|]. intros line Hl. by apply Hl. }
  intros [new|] _; [|done]. destruct (bool_decide _); [done|].
  eapply yields_weaken; [by apply set_content_ok|]. by intros e' (? & _ & ?).
Qed.

Lemma set_focused_ok focus e :
  ed_ok e → (safe → tame_field e) →
  yields (set_focused is_alphabetic is_numeric e focus) (λ e', ed_ok e' ∧ ed_disabled e' = ed_disabled e).
Proof using Type.
  intros He Ht. unfold set_focused. eapply yields_bind; [by apply format_on_blur_ok|].
  intros e1 [He1 (Hd & _)]. cbn [yields]. destruct focus; (split; [|done]).
  - constructor; apply He1.
  - constructor; [apply He1|done|apply He1].
Qed.

(** ** Runs *)

Definition enables (ev : EditEvent) : Prop := ev ≠ EE_Disabled true.

Lemma edit_step_ok ev e :
  ed_ok e → ed_disabled e = false → (safe → tame_field e) → enables ev →
  yields (step ev e) (λ e', ed_ok e' ∧ ed_disabled e' = false).
Proof using Type.
  intros He Hd Ht Hev. destruct ev as [now m code|focus|height width|text|disabled]; cbn [edit_step].
  - eapply yields_bind; [by apply handle_events_kept|]. intros [r e'] (Hs & Ho & _). cbn in *.
    split; [done|]. destruct Hs as [-> _]. done.
  - eapply yields_weaken; [by apply set_focused_ok|]. intros e' [? ->]. done.
  - split; [|done]. constructor; apply He.
  - eapply yields_weaken; [by apply set_content_ok|]. intros e' (? & _ & (-> & _)). done.
  - destruct disabled; [by destruct Hev|]. split; [|done]. constructor; apply He.
Qed.

End editor.

(** ** Runs *)

Section runs.
Context (is_alphabetic is_numeric : Z → bool).

Abbreviation handle := (handle_events is_alphabetic is_numeric).
Abbreviation step := (edit_step is_alphabetic is_numeric).
Abbreviation run := (edit_run is_alphabetic is_numeric).

(** A step ends in an enabled field in order, or panics on a field that is not
    tame. *)
Lemma step_in_order ev e :
  ed_ok e → ed_disabled e = false → enables ev →
  match step ev e with Ret e' => ed_ok e' ∧ ed_disabled e' = false | Panic => ¬ tame_field e end.
Proof using Type. intros He Hd Hev. by apply (edit_step_ok _ _ (tame_field e)). Qed.

Lemma not_tame e : ¬ tame_field e → ed_language e = Some L_Lua ∧ ¬ Forall shallow (b_lines (ed_buf e)).
Proof.
  intros Hn. assert (ed_language e = Some L_Lua) as Hl.
  { destruct (ed_language e) as [[]|] eqn:Hl; [done|exfalso..]; apply Hn, Forall_forall;
      intros line _; unfold tame; by rewrite Hl. }
  split; [done|]. intros Hs. apply Hn. eapply Forall_impl; [exact Hs|]. by intros line H _.
Qed.

(** C39: an enabled editor is always in order: whatever is pressed, shown, set or
    focused, the cursor is in the text, a selection starts on one of its lines and
    an undo has a line to return to. Nothing panics, unless a Lua text has come to
    hold 256 equals signs in a row, more than the count of a long bracket's
    takes. *)
Theorem enabled_editor_in_order evs e :
  ed_ok e → ed_disabled e = false → Forall enables evs →
  match run evs e with
  | Ret e' => ed_ok e'
  | Panic =>
      ∃ before ev after e', evs = before ++ ev :: after ∧ run before e = Ret e' ∧ ed_ok e' ∧
        ed_language e' = Some L_Lua ∧ ¬ Forall shallow (b_lines (ed_buf e'))
  end.
Proof using Type.
  intros He Hd Hevs. revert e He Hd. induction Hevs as [|ev evs Hev _ IH]; intros e He Hd; [done|].
  cbn [edit_run]. pose proof (step_in_order ev e He Hd Hev) as Hs.
  destruct (step ev e) as [e1|] eqn:Hstep; cbn [mbind outcome_bind].
  - destruct Hs as [He1 Hd1]. specialize (IH e1 He1 Hd1). destruct (run evs e1) as [e'|]; [done|].
    destruct IH as (before & ev' & after & e' & -> & Hr & Hrest). exists (ev :: before), ev', after, e'.
    split; [done|]. cbn [edit_run]. by rewrite Hstep.
  - destruct (not_tame _ Hs) as [Hl Hn]. by exists [], ev, evs, e.
Qed.

(** ** Undo *)

Abbreviation returns := (yields False).

(** A key outside Insert mode: it left the text and the saved text alone, or has
    saved the text. *)
Definition saves e e' : Prop :=
  (b_lines (ed_buf e') = b_lines (ed_buf e) ∧ ed_undo e' = ed_undo e ∧ ed_mode e' ≠ VM_Insert) ∨
  ed_undo e' = Some (ed_buf e).

(** Nothing is returned. *)
Ltac panics := solve [cbn; intros []].
Ltac same_text := solve [left; split_and!; done].

Lemma saves_refl e : ed_mode e ≠ VM_Insert → saves e e.
Proof. intros H. same_text. Qed.

Lemma consumed_saves (o : Outcome Editor) e :
  returns o (saves e) → returns (consumed o) (λ r, saves e r.2).
Proof. destruct o; [done|]. intros _. panics. Qed.

Lemma unless_disabled_saves e edit :
  ed_mode e ≠ VM_Insert → returns (edit e) (saves e) → returns (unless_disabled e edit) (λ r, saves e r.2).
Proof.
  intros Hm H. apply consumed_saves. destruct (ed_disabled e); [by apply saves_refl|done].
Qed.

Lemma saved_outcome {A} (o : Outcome A) (f : A → Outcome Editor) e :
  (∀ x, returns (f x) (saves e)) → returns (x ← o; f x) (saves e).
Proof. intros H. destruct o; [apply H|panics]. Qed.

Ltac saved := repeat (apply saved_outcome; intros ?); try (by right).

Lemma cut_char_saves e : ed_mode e ≠ VM_Insert → returns (cut_char e) (saves e).
Proof.
  intros Hm. unfold cut_char. apply saved_outcome. intros [|c text]; [by apply saves_refl|].
  apply saved_outcome. intros [removed b]. saved.
Qed.

Lemma delete_current_line_saves e : ed_mode e ≠ VM_Insert → returns (delete_current_line e) (saves e).
Proof.
  intros Hm. unfold delete_current_line. destruct (ed_disabled e); [by apply saves_refl|]. saved.
Qed.

Lemma swap_undo_saves e : ed_mode e ≠ VM_Insert → returns (swap_undo e) (saves e).
Proof. intros Hm. unfold swap_undo. destruct (ed_undo e); [saved|by apply saves_refl]. Qed.

Lemma paste_saves after e : ed_mode e ≠ VM_Insert → returns (paste after e) (saves e).
Proof. intros Hm. unfold paste. destruct (ed_register e) as [[text kind]|]; [saved|by apply saves_refl]. Qed.

Lemma enter_insert_saves e change : returns (enter_insert e change) (saves e).
Proof. unfold enter_insert. saved. Qed.

Lemma fire_chord_saves code e : ed_mode e ≠ VM_Insert → returns (fire_chord code e) (saves e).
Proof.
  intros Hm. unfold fire_chord. destruct (is_char "g" code); [|destruct (is_char "d" code)].
  - unfold to_top, clamp_normal. destruct (current _); [same_text|panics].
  - by apply (delete_current_line_saves (ed_with_pending e None)).
  - unfold yank_current_line. destruct (current _); [same_text|panics].
Qed.

Lemma press_chord_saves code e : ed_mode e ≠ VM_Insert → returns (press_chord code e) (λ r, saves e r.2).
Proof.
  intros Hm. unfold press_chord. destruct code; try same_text.
  apply consumed_saves. destruct (bool_decide _); [by apply fire_chord_saves|same_text].
Qed.

Lemma moved_or_saves m code e rest :
  ed_ok e → ed_disabled e = false → ed_mode e ≠ VM_Insert → returns rest (λ r, saves e r.2) →
  returns (moved_or is_alphabetic is_numeric m code e rest) (λ r, saves e r.2).
Proof using Type.
  intros He Hd Hm H. unfold moved_or. rewrite Hd. eapply yields_bind; [by apply motion_on, He|].
  intros [b|] Ho; [|done]. destruct Ho as [Heq _]. same_text.
Qed.

Lemma normal_command_saves m code e :
  ed_mode e = VM_Normal → returns (normal_command is_alphabetic is_numeric m code e) (λ r, saves e r.2).
Proof using Type.
  intros Hn. assert (ed_mode e ≠ VM_Insert) as Hm by by rewrite Hn. pose proof (saves_refl _ Hm) as Hr.
  unfold normal_command, enter_visual. destruct code; try done.
  repeat case_match; try done; try same_text.
  all: apply unless_disabled_saves; [done|].
  all: first [by apply cut_char_saves|by apply paste_saves|by apply swap_undo_saves|apply enter_insert_saves].
Qed.

Lemma selection_saves e :
  ed_mode e ≠ VM_Insert → returns (delete_selection e) (saves e).
Proof.
  intros Hm. unfold delete_selection. destruct (ed_disabled e); [by apply saves_refl|].
  apply saved_outcome. intros [[from to]|]; [saved|by apply saves_refl].
Qed.

Lemma yank_saves e :
  ed_mode e ≠ VM_Insert → returns (e ← yank_selection e; enter_normal_at_selection_start e) (saves e).
Proof.
  intros Hm. eapply (yields_bind _ _ _ (λ e', ed_buf e' = ed_buf e ∧ ed_undo e' = ed_undo e)).
  - unfold yank_selection. destruct (selection_range e) as [[[from to]|]|]; [|done|panics].
    cbn [mbind outcome_bind]. destruct (selected_text _ _ _ _); [done|panics].
  - intros e' [Hb Hu]. unfold enter_normal_at_selection_start, clamp_normal.
    destruct (selection_range e') as [o|]; [|panics]. cbn [mbind outcome_bind].
    destruct (current _); [|panics]. left. cbn. rewrite <- Hb, <- Hu. split_and!; [|done|done].
    by destruct o as [[from to]|].
Qed.

Lemma page_move_saves down rows e :
  ed_mode e ≠ VM_Insert → returns (page_move down rows e) (saves e).
Proof.
  intros Hm. unfold page_move. destruct (if down then _ else _) as [line|]; [|panics].
  cbn [mbind outcome_bind]. unfold clamp_unless, clamp_normal. destruct (ed_disabled e); [same_text|].
  destruct (current _); [same_text|panics].
Qed.

Lemma handle_visual_key_saves m code e l :
  ed_ok e → ed_disabled e = false → ed_mode e = VM_Visual l →
  returns (handle_visual_key is_alphabetic is_numeric m code e) (λ r, saves e r.2).
Proof using Type.
  intros He Hd Hv. assert (ed_mode e ≠ VM_Insert) as Hm by by rewrite Hv. unfold handle_visual_key.
  destruct ((m =? M_NONE)%Z && is_char "g" code); [by apply press_chord_saves|].
  assert (∀ o : Outcome (EventResult * Editor), returns o (λ r, saves (ed_with_pending e None) r.2) →
    returns o (λ r, saves e r.2)) as Hp by done.
  apply Hp. set (e1 := ed_with_pending e None) in *.
  assert (ed_ok e1) as He1 by (eapply (kept_ok e), kept_pending; done).
  assert (ed_mode e1 ≠ VM_Insert ∧ ed_disabled e1 = false) as [Hm1 Hd1] by done. clearbody e1. cbv zeta.
  destruct (_ || (m =? M_NONE)%Z && is_char "v" code).
  { unfold leave_visual, clamp_normal. destruct (current _); [same_text|panics]. }
  destruct (shifted m && is_char "V" code); [same_text|].
  destruct ((m =? M_NONE)%Z && is_char "y" code); [by apply consumed_saves, yank_saves|].
  destruct ((m =? M_NONE)%Z && (is_char "d" code || is_char "x" code)); [by apply consumed_saves, selection_saves|].
  apply moved_or_saves; [done..|]. repeat case_match; by apply saves_refl.
Qed.

(** Outside Insert mode a key saves the text it changes. *)
Lemma handle_saves now m code e :
  ed_ok e → ed_disabled e = false → ed_vim e = true → ed_mode e ≠ VM_Insert →
  returns (handle now m code e) (λ r, saves e r.2).
Proof using Type.
  intros He Hd Hv Hm. unfold handle_events.
  eapply (yields_bind _ _ _ (λ o, match o with Some e' => saves e e' | None => True end)).
  { assert (returns (handle_readonly_nav m code e)
      (λ o, match o with Some e' => saves e e' | None => True end)); [|by destruct (ed_mode e)].
    unfold handle_readonly_nav. rewrite Hd, !andb_false_r.
    repeat case_match; try done; by apply yields_fmap, page_move_saves. }
  intros [e'|] Ho; [done|]. unfold mode_key. rewrite Hv. cbn [negb].
  destruct (ed_mode e) as [| |l] eqn:Hmode; [|done|by eapply handle_visual_key_saves].
  unfold handle_normal_key. destruct (_ && _); [apply press_chord_saves; by rewrite Hmode|].
  assert (∀ o : Outcome (EventResult * Editor), returns o (λ r, saves (ed_with_pending e None) r.2) →
    returns o (λ r, saves e r.2)) as Hp by done.
  apply Hp, moved_or_saves; [by eapply (kept_ok e), kept_pending|done| |by apply normal_command_saves].
  cbn. by rewrite Hmode.
Qed.

(** Nothing that is typed in Insert mode touches the saved text. *)
Lemma edit_key_undo now m code e :
  returns (handle_edit_key is_alphabetic is_numeric now m code e) (λ r, ed_undo r.2 = ed_undo e).
Proof using Type.
  unfold handle_edit_key. set (e1 := if shifted m && is_char " " code then e else ed_with_last_space e None).
  assert (ed_undo e1 = ed_undo e) as He by (unfold e1; by destruct (_ && _)). clearbody e1. cbv zeta.
  assert (∀ edit, returns (on_buf e1 edit) (λ r, ed_undo r.2 = ed_undo e)) as Hb.
  { intros edit. destruct edit; [done|panics]. }
  destruct code; try done; repeat case_match; try done; try by apply Hb.
  unfold type_space, consumed. destruct (completes_indent now e1); destruct (type_text _ _); try panics; [done|].
  cbn. by destruct (ed_space_indent e1).
Qed.

Lemma insert_key_undo now m code e :
  ed_mode e = VM_Insert → ed_vim e = true → returns (handle now m code e) (λ r, ed_undo r.2 = ed_undo e).
Proof using Type.
  intros Hm Hv. unfold handle_events. rewrite Hm. cbn [mbind outcome_bind]. unfold mode_key. rewrite Hv, Hm.
  cbn [negb]. unfold handle_insert_key, leave_insert, consumed, on_buf. pose proof (edit_key_undo now m code e).
  destruct code; try done;
    [destruct (m =? M_NONE)%Z|destruct (m =? M_NONE)%Z|destruct (shifted m)]; try done.
  - destruct (current _); [done|panics].
  - destruct (type_text _ _); [done|panics].
  - destruct (unindent _); [done|panics].
Qed.

(** Keys pressed in Insert mode, up to the one that leaves it. *)
Inductive typing : Editor → Editor → Prop :=
| typing_end e : typing e e
| typing_key e now m code r e1 e2 :
    ed_mode e = VM_Insert → handle now m code e = Ret (r, e1) → typing e1 e2 → typing e e2.

Lemma handle_kept now m code e r e1 :
  ed_ok e → ed_disabled e = false → handle now m code e = Ret (r, e1) → kept e e1.
Proof using Type.
  intros He Hd H. pose proof (handle_events_kept is_alphabetic is_numeric False now m code e He Hd) as Hk.
  rewrite H in Hk. by apply Hk.
Qed.

Lemma typing_undo e e' :
  typing e e' → ed_ok e → ed_disabled e = false → ed_vim e = true → kept e e' ∧ ed_undo e' = ed_undo e.
Proof using Type.
  induction 1 as [e|e now m code r e1 e2 Hm Hkey _ IH]; intros He Hd Hv; [by split; [apply kept_refl|]|].
  pose proof (handle_kept _ _ _ _ _ _ He Hd Hkey) as Hk. pose proof Hk as ((Hd1 & Hv1 & _) & He1 & _).
  destruct IH as [Hk2 Hu]; [done|congruence..|].
  split; [by eapply kept_trans|]. rewrite Hu. pose proof (insert_key_undo now m code e Hm Hv) as H.
  by rewrite Hkey in H.
Qed.

Lemma returned {A} (o : Outcome A) (P : A → Prop) : yields True o P → ∃ x, o = Ret x ∧ P x.
Proof. destruct o; cbn; [eauto|by intros []]. Qed.

Abbreviation key_u := (KC_Char 117).

(** [u] swaps the text with the saved one. *)
Lemma press_u now e saved :
  ed_mode e = VM_Normal → ed_vim e = true → ed_disabled e = false → ed_undo e = Some saved → line_ok saved →
  ∃ e', handle now M_NONE key_u e = Ret (ER_Consumed, e') ∧ clamp_normal saved = Ret (ed_buf e') ∧
    ed_undo e' = Some (ed_buf e) ∧ ed_mode e' = VM_Normal ∧ same_field e e'.
Proof using Type.
  intros Hm Hv Hd Hu Hs. unfold handle_events. rewrite Hm. unfold handle_readonly_nav. rewrite Hd, !andb_false_r.
  assert ((if negb (ed_readonly_nav e) then Ret None else Ret None) = Ret (@None Editor)) as Hnav
    by by destruct (ed_readonly_nav e).
  cbn [Z.eqb M_NONE M_CONTROL andb]. rewrite Hnav. cbn [mbind outcome_bind].
  unfold mode_key. rewrite Hv, Hm. cbn [negb].
  change (handle_normal_key is_alphabetic is_numeric M_NONE key_u e)
    with (unless_disabled (ed_with_pending e None) swap_undo).
  unfold unless_disabled, swap_undo. cbn [ed_with_pending ed_disabled ed_undo]. rewrite Hd, Hu.
  destruct (returned _ _ (clamp_normal_on True saved Hs)) as (b & -> & _).
  eexists. split; [reflexivity|]. by split_and!.
Qed.

(** C40: [u] takes back what the last change did. If a key of Normal or Visual mode,
    with whatever is typed after it in Insert mode, has changed the text, one
    press of [u] brings back the text of before the key, with the cursor where it
    was, and another one the changed text. In both the cursor is put on the last
    character of its line if it was past it. *)
Theorem undo_takes_back now m code e r e1 e2 :
  ed_ok e → ed_disabled e = false → ed_vim e = true → ed_mode e ≠ VM_Insert →
  handle now m code e = Ret (r, e1) → typing e1 e2 → ed_mode e2 = VM_Normal →
  b_lines (ed_buf e2) ≠ b_lines (ed_buf e) →
  ∃ e3 e4, handle now M_NONE key_u e2 = Ret (ER_Consumed, e3) ∧
    clamp_normal (ed_buf e) = Ret (ed_buf e3) ∧
    handle now M_NONE key_u e3 = Ret (ER_Consumed, e4) ∧
    clamp_normal (ed_buf e2) = Ret (ed_buf e4).
Proof using Type.
  intros He Hd Hv Hm Hkey Htyping Hm2 Hchange.
  pose proof (handle_kept _ _ _ _ _ _ He Hd Hkey) as ((Hd1 & Hv1 & _) & He1 & _).
  destruct (typing_undo _ _ Htyping) as [((Hd2 & Hv2 & _) & He2 & _) Hu2]; [done|congruence..|].
  assert (ed_undo e1 = Some (ed_buf e)) as Hu1.
  { pose proof (handle_saves now m code e He Hd Hv Hm) as H. rewrite Hkey in H.
    destruct H as [(Hl & _ & Hi)|H]; [|exact H]. destruct Htyping; done. }
  destruct (press_u now e2 (ed_buf e)) as (e3 & H3 & Hb3 & Hu3 & Hm3 & Hd3 & Hv3 & _);
    [congruence..|by apply ok_line, ok_buf|].
  destruct (press_u now e3 (ed_buf e2)) as (e4 & H4 & Hb4 & _); [congruence..|by apply ok_line, ok_buf|].
  by exists e3, e4.
Qed.

(** ** Deleting a selection *)

(** The lines, each followed, or preceded, by its line feed. *)
Definition ended (lines : list (list Z)) : list Z := concat ((λ l, l ++ [lf]) <$> lines).
Definition started (lines : list (list Z)) : list Z := concat (cons lf <$> lines).

Lemma join_started l lines : join lf (l :: lines) = l ++ started lines.
Proof.
  revert l. induction lines as [|l' lines IH]; intros l; [cbn; by rewrite app_nil_r|].
  change (join lf (l :: l' :: lines)) with (l ++ lf :: join lf (l' :: lines)). by rewrite IH.
Qed.

Lemma join_ended lines l rest : join lf (lines ++ l :: rest) = ended lines ++ join lf (l :: rest).
Proof.
  induction lines as [|l' lines IH]; [done|]. cbn [app]. rewrite join_started.
  change (ended (l' :: lines)) with ((l' ++ [lf]) ++ ended lines). rewrite <- !app_assoc. f_equal.
  rewrite <- IH. destruct lines as [|l'' lines]; cbn [app]; by rewrite join_started.
Qed.

Lemma started_app l1 l2 : started (l1 ++ l2) = started l1 ++ started l2.
Proof. unfold started. by rewrite fmap_app, concat_app. Qed.

(** The lines around one, or two, of the text. *)
Lemma lines_around (lines : list (list Z)) i line :
  lines !! i = Some line → lines = take i lines ++ line :: drop (i + 1) lines.
Proof. intros H. rewrite Nat.add_1_r. symmetry. by apply take_drop_middle. Qed.

Lemma lines_between_two (lines : list (list Z)) i j first last :
  lines !! i = Some first → lines !! j = Some last → i < j →
  lines = take i lines ++ first :: take (j - (i + 1)) (drop (i + 1) lines) ++ last :: drop (j + 1) lines.
Proof.
  intros Hf Hl Hij. rewrite (lines_around _ _ _ Hf) at 1. f_equal. f_equal.
  rewrite (lines_around (drop (i + 1) lines) (j - (i + 1)) last) at 1.
  - rewrite drop_drop. do 3 f_equal. lia.
  - rewrite lookup_drop. rewrite <- Hl. f_equal. lia.
Qed.

Definition ordered (from to : nat * nat) : Prop := from.1 < to.1 ∨ from.1 = to.1 ∧ from.2 ≤ to.2.

(** The part of a line, or of two, that a span cuts out. *)
Lemma cut_in_line (line : list Z) start stop :
  start < stop →
  let to := Nat.min stop (length line) in
  let from := Nat.min start to in
  line = take start line ++ take (to - from) (drop from line) ++ drop stop line.
Proof.
  intros H to from. assert (take start line = take from line) as ->.
  { destruct (decide (start ≤ to)) as [Hle|Hgt]; [by replace from with start by lia|].
    rewrite !take_ge by lia. done. }
  assert (drop stop line = drop to line) as ->.
  { destruct (decide (stop ≤ length line)); [f_equal; lia|]. rewrite !drop_ge by lia. done. }
  rewrite <- (take_drop from line) at 1. f_equal. rewrite <- (take_drop (to - from) (drop from line)) at 1.
  f_equal. rewrite drop_drop. f_equal. lia.
Qed.

(** A span cut out of a text, and the text before and after it. *)
Lemma cut_span_text b from to :
  spans b from to → ordered from to →
  ∃ b' sel x z, cut_span b from to = Ret b' ∧ extract_charwise b from to = Ret sel ∧
    buf_text b = x ++ sel ++ z ∧ buf_text b' = x ++ z ∧
    x = ended (take from.1 (b_lines b)) ++ take from.2 (default [] (b_lines b !! from.1)).
Proof.
  intros Hs Ho. destruct (spans_lines _ _ _ Hs) as [[first Hf] [last Hl]]. pose proof Hs as [H1 H2].
  unfold cut_span, extract_charwise. rewrite (line_at_eq _ _ _ Hf), (line_at_eq _ _ _ Hl), Hf.
  cbn [mbind outcome_bind default]. rewrite splice_eq by lia. cbn [mbind outcome_bind].
  set (A := take from.1 (b_lines b)). set (B := drop (to.1 + 1) (b_lines b)).
  set (b' := b_at _ _ _). exists b'.
  assert (buf_text b' = (ended A ++ take from.2 first) ++ drop (to.2 + 1) last ++ started B) as Hb'.
  { unfold buf_text. cbn [b' b_at b_lines b_with_lines app]. rewrite join_ended, join_started.
    by rewrite <- !app_assoc. }
  destruct (Nat.eqb_spec from.1 to.1) as [Heq|Hne].
  - rewrite Heq in Hf. rewrite Hf in Hl. injection Hl as ->.
    eexists _, _, (drop (to.2 + 1) last ++ started B). split_and!; [done|done| |exact Hb'|done].
    unfold buf_text. rewrite (lines_around _ _ _ Hf) at 1. rewrite <- Heq. fold A. rewrite join_ended, join_started.
    rewrite Heq. fold B. rewrite <- !app_assoc. f_equal. rewrite !app_assoc. f_equal.
    rewrite <- app_assoc. apply cut_in_line. destruct Ho as [|[_ ?]]; lia.
  - eexists _, _, (drop (to.2 + 1) last ++ started B). split_and!; [done|done| |exact Hb'|done].
    unfold buf_text. rewrite (lines_between_two _ _ _ _ _ Hf Hl) at 1 by lia. fold A B.
    set (mid := take (to.1 - (from.1 + 1)) (drop (from.1 + 1) (b_lines b))).
    rewrite join_ended, !join_started, !started_app.
    change (started (last :: B)) with (lf :: last ++ started B).
    rewrite <- (take_drop (to.2 + 1) last) at 1. rewrite <- (take_drop from.2 first) at 1.
    rewrite <- !app_assoc.
    do 4 f_equal. change (started [take (to.2 + 1) last]) with ((lf :: take (to.2 + 1) last) ++ []). by rewrite app_nil_r.
Qed.
(** The lines left after whole lines are cut: one, if they were all. *)
Definition lines_left b (from to : nat) : list (list Z) :=
  match take from (b_lines b) ++ drop (to + 1) (b_lines b) with [] => [[]] | rest => rest end.

Lemma cut_lines_eq b from to line :
  from ≤ to → to < length (b_lines b) →
  yields True (cut_lines b from to line) (λ b', b_lines b' = lines_left b from to).
Proof.
  intros H1 H2. unfold cut_lines, lines_left. rewrite last_index_len by lia. cbn [mbind outcome_bind].
  destruct (Nat.eqb_spec from 0) as [->|Hf], (Nat.eqb_spec to (length (b_lines b) - 1)) as [->|Ht]; cbn [andb].
  { cbn [take app]. by rewrite drop_ge by lia. }
  all: rewrite splice_eq by lia; cbn [mbind outcome_bind app].
  all: match goal with |- context [last_index ?x] => set (b' := x) end.
  all: assert (0 < length (b_lines b')) as Hlen
         by (cbn [b' b_with_lines b_lines]; rewrite length_app, length_drop, length_take; lia).
  all: rewrite last_index_len by done; cbn [mbind outcome_bind yields b_at b_lines].
  all: cbn [b' b_with_lines b_lines] in Hlen |- *.
  all: destruct (take _ _ ++ drop _ _) as [|l0 rest]; [cbn in Hlen; lia|done].
Qed.

Lemma selection_ordered e from to :
  selection_range e = Ret (Some (from, to)) → ed_mode e = VM_Visual false → ordered from to.
Proof.
  unfold selection_range. intros H Hm. rewrite Hm in H. destruct (ed_anchor e) as [anchor|]; [|done].
  unfold position_le, ordered in *. cbn [fst snd] in H.
  destruct (Nat.ltb_spec anchor.1 (b_line (ed_buf e))); cbn [orb] in H; [injection H as <- <-; cbn; lia|].
  destruct (Nat.eqb_spec anchor.1 (b_line (ed_buf e))); cbn [andb] in H;
    [destruct (Nat.leb_spec anchor.2 (b_col (ed_buf e)))|]; injection H as <- <-; cbn; lia.
Qed.

Lemma press_d now e l :
  ed_mode e = VM_Visual l → ed_vim e = true → ed_disabled e = false →
  handle now M_NONE (KC_Char 100) e = consumed (delete_selection (ed_with_pending e None)).
Proof using Type.
  intros Hm Hv Hd. unfold handle_events. rewrite Hm. unfold handle_readonly_nav. rewrite Hd, !andb_false_r.
  destruct (ed_readonly_nav e); cbn [negb Z.eqb M_NONE M_CONTROL andb mbind outcome_bind];
    unfold mode_key; by rewrite Hv, Hm.
Qed.

(** [d] on a selection cuts exactly what is selected: whole lines, or the
    characters from the first to the last one, which may be on different lines.
    What is cut is what the register and the clipboard hold, an undo has the
    text before, and the mode is Normal again. *)
Theorem visual_delete_cuts_the_selection now e l :
  ed_ok e → ed_disabled e = false → ed_mode e = VM_Visual l →
  ∃ from to sel e', selection_range e = Ret (Some (from, to)) ∧
    handle now M_NONE (KC_Char 100) e = Ret (ER_Consumed, e') ∧
    ed_mode e' = VM_Normal ∧ ed_undo e' = Some (ed_buf e) ∧
    ed_register e' = Some (sel, selection_kind l) ∧ ed_clipboard e' = sel :: ed_clipboard e ∧
    if l then
      sel = join lf (take (to.1 + 1 - from.1) (drop from.1 (b_lines (ed_buf e)))) ∧
      b_lines (ed_buf e') = lines_left (ed_buf e) from.1 to.1
    else
      ∃ x z, content e = x ++ sel ++ z ∧ content e' = x ++ z ∧
        x = ended (take from.1 (b_lines (ed_buf e))) ++
            take from.2 (default [] (b_lines (ed_buf e) !! from.1)).
Proof using Type.
  intros He Hd Hm. destruct (ok_anchor _ He l Hm) as [Hv _].
  pose proof (selection_range_ok True e l He Hm) as Hsel.
  destruct (selection_range e) as [o|] eqn:Hrange; [|by destruct Hsel].
  destruct Hsel as (from & to & -> & Hs). exists from, to.
  rewrite (press_d _ _ _ Hm Hv Hd). unfold delete_selection. cbn [ed_with_pending ed_disabled]. rewrite Hd.
  change (selection_range (ed_with_pending e None)) with (selection_range e). rewrite Hrange.
  cbn [mbind outcome_bind ed_mode ed_with_pending snapshot_undo ed_with_undo ed_buf]. rewrite Hm. cbn [is_linewise].
  pose proof Hs as [H1 H2]. destruct l.
  - cbn [selected_text]. rewrite lines_between_eq by lia. cbn [mbind outcome_bind set_register snapshot_undo ed_with_undo ed_with_pending ed_buf ed_with_mode].
    destruct (returned _ _ (cut_lines_eq (ed_buf e) from.1 to.1 from.1 H1 H2)) as (b' & Hcut & Hl).
    pose proof (cut_lines_ok True (ed_buf e) from.1 to.1 from.1 H1 H2) as Hok. rewrite Hcut in Hok |- *. cbn [mbind outcome_bind].
    destruct (returned _ _ (clamp_normal_on True b' Hok)) as (b & -> & Hb & _).
    eexists _, _. split; [done|]. split; [reflexivity|]. split_and!; try done. cbn. by rewrite Hb.
  - destruct (cut_span_text _ _ _ Hs (selection_ordered _ _ _ Hrange Hm)) as (b' & sel & x & z & Hcut & Hsel & Hc).
    pose proof (cut_span_ok True _ _ _ Hs) as Hok.
    cbn [selected_text]. rewrite Hsel. cbn [mbind outcome_bind set_register snapshot_undo ed_with_undo ed_with_pending ed_buf ed_with_mode].
    rewrite Hcut in Hok |- *. cbn [mbind outcome_bind]. destruct (returned _ _ (clamp_normal_on True b' Hok)) as (b & -> & Hb & _).
    eexists sel, _. split; [done|]. split; [reflexivity|]. split_and!; try done.
    exists x, z. unfold content, buf_text in *. cbn [ed_with_buf ed_buf]. by rewrite Hb.
Qed.
End runs.

(** ** Concrete editors *)

Abbreviation ascii_handle := (handle_events ascii_alphabetic is_ascii_digit).
Abbreviation ascii_run := (edit_run ascii_alphabetic is_ascii_digit).

Definition key (c : string) : EditEvent := EE_Key 0 M_NONE (KC_Char (hd 0%Z (codes c))).
Definition press (code : KeyCode) : EditEvent := EE_Key 0 M_NONE code.
(** Characters typed one by one, a second apart. *)
Definition keys (text : string) : list EditEvent :=
  imap (λ i c, EE_Key (Z.of_nat i * 1000000000) M_NONE (KC_Char c)) (codes text).

Definition lua_editor (lines : list string) : Editor :=
  mkEditor (mkBuffer (codes <$> lines) 0 0) 0 0 10 80 true true false (Some 300000000%Z) None (Some L_Lua) true
    VM_Normal None None None None [].

Definition after (evs : list EditEvent) (e : Editor) : option (list Z * nat * nat) :=
  match ascii_run evs e with
  | Ret e => Some (content e, b_line (ed_buf e), b_col (ed_buf e))
  | Panic => None
  end.

Lemma lua_editor_ok line lines : ed_ok (lua_editor (line :: lines)).
Proof. constructor; [exists (codes line); split; [done|cbn; lia]|done|done]. Qed.

Definition session : list EditEvent :=
  keys "owhile x do" ++ [press KC_Enter] ++ keys "y()" ++ [press KC_Esc] ++ keys "vbdp" ++
  [EE_Focus false; EE_Focus true] ++ keys "ggVjdP".

Example session_text :
  after session (lua_editor ["f()"]) = Some (script ["f()"; "while x do"; "    y()"], 0, 0).
Proof. vm_compute. reflexivity. Qed.

Lemma enabled_editor_in_order_witness :
  let e := lua_editor ["f()"] in
  ed_ok e ∧ ed_disabled e = false ∧ Forall enables session ∧ after session e ≠ None ∧
  match ascii_run session e with Ret e' => ed_ok e' | Panic => False end.
Proof.
  intros e. assert (ed_ok e) as He by apply lua_editor_ok.
  assert (Forall enables session) as Hs by (vm_compute; repeat constructor; discriminate).
  split_and!; [done|done|done|vm_compute; discriminate|].
  pose proof (enabled_editor_in_order ascii_alphabetic is_ascii_digit session e He eq_refl Hs) as H.
  assert (∃ e', ascii_run session e = Ret e') as [e' Hr] by (eexists; vm_compute; reflexivity).
  rewrite Hr in H |- *. exact H.
Defined.

(** A field with text, in a mode. *)
Definition editor_at (mode : VimMode) (anchor : option (nat * nat)) (lines : list string) (line col : nat) : Editor :=
  mkEditor (mkBuffer (codes <$> lines) line col) 0 0 10 80 false true false (Some 300000000%Z) None None true
    mode anchor None None None [].

Lemma undo_takes_back_witness :
  let e := editor_at VM_Normal None ["ab"; "c"] 1 0 in
  ∃ r e1 e2,
    ascii_handle 0 M_NONE (KC_Char 111) e = Ret (r, e1) ∧
    typing ascii_alphabetic is_ascii_digit e1 e2 ∧ content e2 = script ["ab"; "c"; "x"] ∧
    ∃ e3 e4, ascii_handle 0 M_NONE (KC_Char 117) e2 = Ret (ER_Consumed, e3) ∧
      clamp_normal (ed_buf e) = Ret (ed_buf e3) ∧
      ascii_handle 0 M_NONE (KC_Char 117) e3 = Ret (ER_Consumed, e4) ∧
      clamp_normal (ed_buf e2) = Ret (ed_buf e4).
Proof.
  intros e.
  assert (∃ r e1 e2, ascii_handle 0 M_NONE (KC_Char 111) e = Ret (r, e1) ∧
    typing ascii_alphabetic is_ascii_digit e1 e2 ∧ ed_mode e2 = VM_Normal ∧
    b_lines (ed_buf e2) ≠ b_lines (ed_buf e) ∧
    content e2 = script ["ab"; "c"; "x"]) as (r & e1 & e2 & Hkey & Ht & Hn & Hl & Hc).
  { eexists _, _, _. split; [vm_compute; reflexivity|]. split.
    - eapply (typing_key _ _ _ 0 M_NONE (KC_Char 120)); [reflexivity|vm_compute; reflexivity|].
      eapply (typing_key _ _ _ 0 M_NONE KC_Esc); [reflexivity|vm_compute; reflexivity|]. apply typing_end.
    - split; [reflexivity|]. split; [vm_compute; discriminate|vm_compute; reflexivity]. }
  exists r, e1, e2. split; [exact Hkey|]. split; [exact Ht|]. split; [exact Hc|].
  refine (undo_takes_back ascii_alphabetic is_ascii_digit 0 M_NONE (KC_Char 111) e r e1 e2 _ eq_refl
            eq_refl _ Hkey Ht Hn Hl); [|discriminate].
  constructor; [exists (codes "c"); split; [done|cbn; lia]|done|done].
Defined.

Lemma visual_delete_cuts_the_selection_witness :
  let e := editor_at (VM_Visual false) (Some (0, 1)) ["abc"; "def"] 1 0 in
  ∃ from to sel e', selection_range e = Ret (Some (from, to)) ∧
    ascii_handle 0 M_NONE (KC_Char 100) e = Ret (ER_Consumed, e') ∧ content e' = script ["aef"] ∧
    ed_register e' = Some (sel, RK_Charwise) ∧
    ∃ x z, content e = x ++ sel ++ z ∧ content e' = x ++ z.
Proof.
  intros e. assert (ed_ok e) as He.
  { constructor; [exists (codes "def"); split; [done|cbn; lia]| |done].
    intros l _. split; [done|]. exists (0, 1). split; [done|cbn; lia]. }
  destruct (visual_delete_cuts_the_selection ascii_alphabetic is_ascii_digit 0 e false He eq_refl eq_refl)
    as (from & to & sel & e' & Hr & Hk & _ & _ & Hreg & _ & x & z & Hc & Hc' & _).
  exists from, to, sel, e'. split_and!; [exact Hr|exact Hk| |exact Hreg|by exists x, z].
  assert (∃ e1, ascii_handle 0 M_NONE (KC_Char 100) e = Ret (ER_Consumed, e1) ∧ content e1 = script ["aef"])
    as (e1 & Hk1 & Hc1) by (eexists; split; vm_compute; reflexivity).
  rewrite Hk in Hk1. injection Hk1 as ->. exact Hc1.
Defined.

(** ** What a disabled field, and a field left in Insert mode, do *)

(** The column of a disabled field is not clamped when the line changes, and a
    word motion then reads past the end of the line. *)
Example disabled_editor_panics :
  after [EE_Disabled true; key "$"; key "j"] (lua_editor ["abc"; "x"]) = Some (script ["abc"; "x"], 1, 2) ∧
  after [EE_Disabled true; key "$"; key "j"; key "b"] (lua_editor ["abc"; "x"]) = None.
Proof. split; vm_compute; reflexivity. Qed.

(** A field that loses the focus in Insert mode is in Normal mode behind its last
    character. *)
Example blur_leaves_the_cursor_behind :
  after [key "A"; EE_Focus false] (editor_at VM_Normal None ["ab"] 0 0) = Some (script ["ab"], 0, 2).
Proof. vm_compute. reflexivity. Qed.

(** Entering Insert mode and leaving it again spends the saved text. *)
Example insert_spends_the_undo :
  after [key "x"; key "i"; press KC_Esc; key "u"] (editor_at VM_Normal None ["ab"] 0 0) =
  Some (script ["b"], 0, 0).
Proof. vm_compute. reflexivity. Qed.
